(* ===== verification/_CoqProject ===== *)
-Q . S2P
Prelude.v
Elf.v
Frames.v
FrameProofs.v
Paging.v
PagingProofs.v
AddressSpaces.v
UserImage.v
UserImageProofs.v
KernelBase.v
Transport.v
VfsPath.v
KernelObjects.v
Store.v
ObjectTableProofs.v
ProcessRuntime.v
FileHandles.v
ProcessTableProofs.v
BootConfig.v
BootPolicy.v
BootPolicyProofs.v
CapRegistry.v
VfsState.v
VfsFiles.v
VfsWire.v
Runtime.v
MemoryMapping.v
MemoryMappingProofs.v
MachineMemory.v
Virtio.v
Kernel.v
ProcessMemory.v
RealMemory.v
PageCache.v
PageCacheProofs.v
VertexFs.v
VertexFsProofs.v
Scheduler.v
VfsTransactions.v
VfsNodes.v
BootGrants.v
BootBuild.v
CapabilitySyscalls.v
VfsSyscalls.v
VfsTreeProofs.v
Ipc.v
Devices.v
ProcessSyscalls.v
Generation.v
CapabilityProofs.v
NewAuthority.v
BootGrantProofs.v
Revocation.v
SchedulerProofs.v
ProcessProofs.v
ReleaseProofs.v
IpcProofs.v
VfsCallProofs.v
BuildProofs.v
GenerationProofs.v
SwitchProofs.v
SwitchSpaces.v
VfsAccessProofs.v
