(* ===== verification/Prelude.v ===== *)
(** * Verification of the Krust kernel of Vertex OS

    Krust ([kernel/krust/src]) is a capability kernel. One static [RuntimeState]
    holds a table of kernel objects (message endpoints, devices, VFS roots and
    mounts, ...), a table of processes with their capability spaces and file
    handles, the registry of all capability identifiers, and the state of the
    virtual file system. System calls run to completion on that state, one at a
    time; only a call that blocks gives the processor to another process, through
    the round-robin scheduler, and only while the kernel waits inside the
    scheduler do interrupts change the state.

    ** Files

    - [Prelude]: record update notation, the error monad [M] of calls that thread
      a state and may fail, 64-bit arithmetic with its wrap-around and
      saturation, and the loops the kernel uses over its fixed arrays
      ([first_index], [count_upto], [map_upto], [trim_count], [shift_down]) with
      their lemmas.
    - [Frames], [FrameProofs]: the allocator of physical frames ([memory.rs]).
    - [Paging]: page tables and address spaces ([paging.rs]). [PagingProofs] has the
      invariant of one address space and what each operation does to it,
      [AddressSpaces] all address spaces together, in single steps. [MachineMemory]
      shows that the operations of the kernel (load, map, unmap, reclaim, allocate,
      free, store) are sequences of such steps.
    - [Elf], [UserImage], [UserImageProofs]: executable files and the loader that
      builds the address space of a program ([elf.rs], [userspace.rs]).
    - [MemoryMapping], [MemoryMappingProofs]: ranges of physical memory mapped into a
      process ([ipc/memory_mapping.rs]).
    - [KernelBase]: identifiers, error enumerations ([kernel/error.rs]), rights
      ([capability.rs]) and register frames.
    - [Transport]: the ring of messages and the endpoints of
      [kernel/transport.rs]; the class [MessageStore] says what an endpoint
      promises its users.
    - [VfsPath]: the byte-level path functions of [vfs/path.rs] and
      [ipc/vfs_paths.rs].
    - [KernelObjects], [ObjectTableProofs]: the objects and the object table
      ([kernel/object_table.rs]).
    - [ProcessRuntime], [FileHandles], [ProcessTableProofs]: processes,
      capability spaces, handle slots and the process table
      ([kernel/process_runtime.rs]).
    - [BootConfig]: the boot configuration ([kernel/runtime_config.rs]).
    - [BootPolicy], [BootPolicyProofs]: the checks a configuration passes before
      it is installed and the log of policy denials ([ipc/boot_runtime.rs],
      [ipc/runtime_state.rs]).
    - [BootGrants], [BootGrantProofs]: the capabilities and the declared mounts a
      process starts with ([ipc/boot_runtime.rs]).
    - [BootBuild], [BuildProofs]: the runtime of a generation as boot builds it
      ([ipc/boot_runtime.rs]).
    - [Generation]: the generation manager ([ipc/generation.rs]) and the switch to
      another generation ([ipc/boot_runtime.rs]). A [System] is the kernel with the
      statics of the manager. [GenerationProofs] shows that the calls return and what
      they leave alone, [SwitchProofs] what is staged and entered, [SwitchSpaces] the
      address spaces across a switch.
    - [CapRegistry]: capability identifiers, their recorded parents and the
      revoked set ([ipc/runtime_state.rs]).
    - [VfsState], [VfsFiles]: nodes, files, open descriptions, locks and events
      ([ipc/runtime_state.rs], [vfs/]).
    - [Runtime]: [RuntimeState] itself and the lookup of objects through
      capabilities ([ipc/object_lookup.rs]).
    - [Kernel]: calls that also use user memory, the current address space, the
      register frame, the time stamp counter and interrupts. User memory is the
      class [UserMemory], with [flat_memory] and the page tables of [RealMemory] as
      instances.
    - [PageCache], [PageCacheProofs]: the page cache of VertexFS files
      ([ipc/runtime_state.rs]).
    - [VertexFs], [VertexFsProofs]: the on-disk image, its parser, the redo
      journal and the commit of a file to the image ([vfs/vertexfs.rs],
      [ipc/runtime_state.rs]); a disk is the image after a prefix of the queued
      sector writes.
    - [Scheduler], [SchedulerProofs]: deadlines, wake-ups, scheduling and the
      blocking calls ([ipc/scheduler.rs], [ipc/core_syscalls.rs]).
    - [VfsWire], [VfsTransactions]: the little-endian records of [ipc/vfs_wire.rs]
      and the blocking transactions with the state service and the block device
      ([ipc/vfs_transactions.rs]).
    - [Store]: the hash check of store objects ([ipc/vfs_nodes.rs],
      [ipc/generation.rs]); the BLAKE3 function and the memory the boot loader
      filled are the class [StoreMemory], with [empty_store] as an instance.
    - [VfsNodes], [VfsSyscalls]: nodes by path, the operations on single nodes and
      every call on files ([ipc/vfs_nodes.rs], [ipc/vfs_syscalls.rs]).
      [VfsTreeProofs] has the invariant of the tree of nodes for calls on the
      runtime state, [VfsCallProofs] for whole kernel calls, [VfsAccessProofs]
      the authority behind an open handle.
    - [Ipc], [IpcProofs]: send and receive ([ipc/core_syscalls.rs]).
    - [Virtio], [Devices]: the state of the virtio drivers, ports, device memory, DMA
      regions and the UDP port ([device/virtio.rs], [ipc/device_syscalls.rs]).
    - [ProcessMemory], [ProcessSyscalls]: creation, start, end and release of
      processes ([ipc/process_syscalls.rs], [ipc/memory_mapping.rs]). The class
      [ProcessMemory] says what the calls need of address spaces; [RealMemory] builds
      it from the page tables, the loader and the frame allocator, for machines with
      no more usable frames than the allocator can recycle (8192). [ProcessProofs]
      has the invariant of processes and address spaces, [ReleaseProofs] what is
      left of a process that ended.
    - [CapabilitySyscalls], [CapabilityProofs], [NewAuthority], [Revocation]: the
      capability system calls ([ipc/capability_syscalls.rs]), the calls that create
      objects and with them new authority, and the security of both.

    ** How the code is modelled

    A fixed array with a count is a list of fixed length and a [nat]; slots that
    may be empty are options. [u64] and [u32] values are [Z] with saturating,
    checked and wrapping operations written out as in the code; array indices,
    which the code bounds, are [nat]. A function that returns a [Result] and
    mutates [self] is a function to a [Result] and the new state, with the state
    of each early return as the code leaves it. Output on the serial line is left
    out. Loops over arrays recurse on the list; the others take fuel:
    [revoke_fuel] (one pass per entry of the revoked array and one more; two are
    shown to be enough), [walk_fuel] (one step per recorded parent and two more),
    [release_roots_fuel] (each visit of a slot removes an object or moves on),
    [descendant_fuel] (a round per node and two more; [walk_ends] shows it is
    enough on every tree the invariant admits),
    [wake_loop_fuel] (each round wakes a process that waited; [wake_loop_ok] shows
    it is enough) and the rounds of the scheduler, which really may wait for
    ever: a call is [None] when it runs out of rounds, and [sleep_returns] shows
    when it does not.

    ** What is shown

    - Memory: the frame allocator refines a list of free frames and a map of owners,
      and no frame has two owners (one theorem shows where it strands memory);
      mapping, unmapping, pruning and reclaiming do what they should to the
      processor's translations and nothing else, address spaces stay isolated under
      every sequence of the kernel's operations, provided the device ranges it maps lie
      outside the memory of the allocator, and the check of user ranges accepts exactly what
      the processor would allow. Memory is read as page tables at every physical
      address; the processor's walk of them is [translate]. A loaded program finds
      exactly its file in memory, and a failed load leaves no trace. A physical range
      is mapped whole or not at all.
    - Capabilities ([CapRegistry], [CapabilityProofs], [Revocation]): over every
      interleaving of capability calls no authority is amplified beyond what was held
      at the start or came with an object a call created, revocation is
      transitive, complete and permanent, the three liveness tests of the code
      agree, failing calls change nothing, and the sweep of derived VFS roots
      removes exactly the garbage. The invariant is [caps_wf].
    - Objects and processes: the tables refine finite maps and lists; object
      identifiers and file handles are never reused; the round robin is fair.
    - Life of processes: with a configuration that passed the checks of boot, no
      sequence of process calls loses, shares or tears down an address space in use,
      whichever error they stop at, and a process that ended is left without objects,
      devices, files, locks, mappings and memory. Both need the laws of
      [ProcessMemory]: on a machine with more frames than the allocator can recycle
      the release of an address space can stop halfway, as [reclaim_effect] says.
    - Boot: every configuration the boot code can assemble is well formed; the
      policy check decides a declarative policy, so an admitted configuration
      grants only authorised capabilities, grants no service [/state] or a directory
      in an owner-only volume of another (one theorem shows that a grant of [/], which
      covers them all, is not refused) and gives out
      hardware exclusively; a process starts with exactly the authorised
      capabilities, and the checks made beforehand suffice to grant them; the denial
      log keeps the last eight denials; the runtime boot builds has all the
      invariants above and below, with one process that holds authorised capabilities.
    - Generations: calls that fail leave the running generation alone; activation
      enters only registered, verified generations that did not fail and may take over
      the state, rollback the previous one; a switch gives all old address spaces back
      (two results show where this ends: the note of the spaces goes stale, and a
      second rollback leads back to the failed generation).
    - Transport: the ring refines a bounded list of messages.
    - Paths: the scanners are equivalent to a component-wise description, and
      resolution stays below the mount root.
    - Files: no sequence of calls on files, messages and exits of processes breaks
      the tree of nodes (unique identifiers, parents that exist, no cycles, storage
      for every file, no handle without a node); the search of [vfs_unmount] for
      open files ends and is exact; a handle never carries more authority than the
      capability it was opened with.
    - Locks: mutual exclusion on a node is an invariant of every sequence of file
      calls; two links to one file are two nodes, with separate locks.
    - Page cache: it stays coherent with the files and refines a byte string per
      file; reads return slices of it; dirty pages stay within their limit. Two
      examples show where the guarantees end.
    - VertexFS: a file of at most 448 bytes can be committed and a longer one is
      refused; whatever prefix of the writes of a sync of [app/a] reached the disk, the image mounts with the old or the new contents and nothing else
      changed; two theorems show where the journal does not protect (other files,
      and a second crash before the replayed journal was written back).
    - Messages: a send on an endpoint that serves no kernel transaction delivers to
      the first authorised receiver or queues the message, and no wake-up is ever lost: in every run of calls and interrupts
      no receiver stays blocked while a message for it is queued.
    - Scheduling: deadlines, wake-ups, choice of the next process and context
      switch are exact, exactly one process runs after a sleep, a wait for an
      interrupt and a block on an endpoint, and calls return when the clock passes the deadlines.

    ** What is not modelled

    Hardware set-up ([gdt.rs], [serial.rs], [acpi.rs], [limine.rs]), the in-kernel
    drivers of the virtio devices except for their release, the decoding of the boot
    manifest, the dispatch of system calls and the textual inspection report; nor the
    host tools under [crates/]. Kernel calls are proved for every memory with the laws of the classes
    [UserMemory] and [ProcessMemory]; [RealMemory] is the kernel's own, and the
    theorems on [Paging], [UserImage] and [MemoryMapping] show what it does. *)

From Stdlib Require Export ZArith Lia.
From stdpp Require Export base numbers option list strings gmap relations.

(** * Record update *)

(** [Eta R] holds the eta expansion of a record; [Setter g] is found from it
    by replacing the projection [g], so that [r <| g := v |>] reads like the
    field assignments of the source. *)
Class Eta (R : Type) := eta : R → R.
Class Setter {R E : Type} (getter : R → E) := set : (E → E) → R → R.
Global Arguments set {R E} getter {Setter} f r.

Ltac build_setter :=
  lazymatch goal with
  | |- @Setter ?R ?E ?g =>
      let inst := constr:(ltac:(typeclasses eauto) : Eta R) in
      let body := eval hnf in inst in
      lazymatch eval pattern g in body with
      | ?F _ =>
          let t := eval cbv beta in (fun f : E → E => F (fun r => f (g r))) in
          exact t
      end
  end.
Global Hint Extern 1 (@Setter _ _ _) => build_setter : typeclass_instances.

Declare Scope record_scope.
Delimit Scope record_scope with rec.
Notation "r <| g := v |>" := (set g (λ _, v) r)
  (at level 1, left associativity, format "r  <|  g  :=  v  |>") : record_scope.
Notation "r <| g ::= f |>" := (set g f r)
  (at level 1, f at level 99, left associativity) : record_scope.
Global Open Scope record_scope.

(** * Rust results and the state-and-error monad *)

(** [Result<A, E>]. *)
Inductive Result (E A : Type) : Type :=
| Ok (a : A)
| Err (e : E).
Global Arguments Ok {E A} a.
Global Arguments Err {E A} e.

Definition is_ok {E A} (r : Result E A) : bool :=
  match r with Ok _ => true | Err _ => false end.

(** [Option::ok_or]. *)
Definition ok_or {E A} (o : option A) (e : E) : Result E A :=
  match o with Some a => Ok a | None => Err e end.

(** [Result::map_err]. *)
Definition map_err {E F A} (f : E → F) (r : Result E A) : Result F A :=
  match r with Ok a => Ok a | Err e => Err (f e) end.

(** The [?] operator in a function that has no state to thread. *)
Definition res_bind {E A B} (r : Result E A) (k : A → Result E B) : Result E B :=
  match r with Ok a => k a | Err e => Err e end.
(** [if !c { return Err(e) }]. *)
Definition res_guard {E} (c : bool) (e : E) : Result E unit := if c then Ok tt else Err e.

(** A fallible operation on a mutable state [S]: the state after the call is
    returned on the error paths too, because the source mutates in place and
    an early [return Err(..)] keeps what was already written. *)
Definition M (S E A : Type) : Type := S → Result E A * S.

Definition rret {S E A} (a : A) : M S E A := λ s, (Ok a, s).
Definition rfail {S E A} (e : E) : M S E A := λ s, (Err e, s).
Definition rbind {S E A B} (c : M S E A) (k : A → M S E B) : M S E B := λ s,
  match c s with
  | (Ok a, s') => k a s'
  | (Err e, s') => (Err e, s')
  end.
Definition rget {S E} : M S E S := λ s, (Ok s, s).
Definition rgets {S E A} (f : S → A) : M S E A := λ s, (Ok (f s), s).
Definition rmodify {S E} (f : S → S) : M S E unit := λ s, (Ok tt, f s).
(** The [?] operator on a value of type [Result]. *)
Definition rlift {S E A} (r : Result E A) : M S E A := λ s, (r, s).
(** [if c { return Err(e) }]. *)
Definition rguard {S E} (c : bool) (e : E) : M S E unit :=
  λ s, if c then (Ok tt, s) else (Err e, s).

Declare Scope krust_scope.
Delimit Scope krust_scope with krust.
Notation "'let!' x ':=' c 'in' k" := (rbind c (λ x, k))
  (at level 10, x pattern, c at level 200, k at level 200,
   format "'[v' 'let!'  x  ':='  c  'in' '/' k ']'") : krust_scope.
Notation "'let?' x ':=' c 'in' k" := (res_bind c (λ x, k))
  (at level 10, x pattern, c at level 200, k at level 200,
   format "'[v' 'let?'  x  ':='  c  'in' '/' k ']'") : krust_scope.
Notation "'do?' c ';' k" := (res_bind c (λ _, k))
  (at level 10, c at level 200, k at level 200,
   format "'[v' 'do?'  c ';' '/' k ']'") : krust_scope.
Notation "'do!' c ';' k" := (rbind c (λ _, k))
  (at level 10, c at level 200, k at level 200,
   format "'[v' 'do!'  c ';' '/' k ']'") : krust_scope.
Global Open Scope krust_scope.

Section monad_laws.
Context {S E A B C : Type}.

Lemma rbind_ret (a : A) (k : A → M S E B) s : rbind (rret a) k s = k a s.
Proof. reflexivity. Qed.

Lemma rbind_assoc (c : M S E A) (k : A → M S E B) (l : B → M S E C) s :
  rbind (rbind c k) l s = rbind c (λ a, rbind (k a) l) s.
Proof. unfold rbind. destruct (c s) as [[a|e] s']; reflexivity. Qed.

(** Inversion of a successful sequence. *)
Lemma rbind_ok (c : M S E A) (k : A → M S E B) s b s' :
  rbind c k s = (Ok b, s') ↔
  ∃ a s1, c s = (Ok a, s1) ∧ k a s1 = (Ok b, s').
Proof.
  unfold rbind. split.
  - destruct (c s) as [[a|e] s1] eqn:Hc; intros H; [eauto|discriminate].
  - intros (a & s1 & Hc & Hk). by rewrite Hc.
Qed.

Lemma rguard_ok (c : bool) (e : E) (s s' : S) u :
  rguard c e s = (Ok u, s') ↔ c = true ∧ s' = s ∧ u = tt.
Proof. unfold rguard. destruct c, u; naive_solver. Qed.

Lemma rlift_ok (r : Result E A) (s s' : S) a :
  rlift r s = (Ok a, s') ↔ r = Ok a ∧ s' = s.
Proof. unfold rlift. naive_solver. Qed.
End monad_laws.

Lemma res_bind_ok {E A B} (r : Result E A) (k : A → Result E B) b :
  res_bind r k = Ok b ↔ ∃ a, r = Ok a ∧ k a = Ok b.
Proof. unfold res_bind. destruct r; naive_solver. Qed.

Lemma res_guard_ok {E} (c : bool) (e : E) u : res_guard c e = Ok u ↔ c = true.
Proof. unfold res_guard. destruct c, u; naive_solver. Qed.

Lemma ok_or_ok {E A} (o : option A) (e : E) a : ok_or o e = Ok a ↔ o = Some a.
Proof. destruct o; naive_solver. Qed.

(** Symbolic execution of a successful monadic run: every bind is inverted,
    guards and lifted results become hypotheses. *)
Ltac run_ok H :=
  repeat first
    [ apply rbind_ok in H; destruct H as (? & ? & ? & H)
    | match goal with
      | H' : rguard _ _ _ = (Ok _, _) |- _ => apply rguard_ok in H' as (? & -> & ->)
      | H' : rlift _ _ = (Ok _, _) |- _ => apply rlift_ok in H' as (? & ->)
      | H' : rgets _ _ = (Ok _, _) |- _ => unfold rgets in H'; simplify_eq
      | H' : rget _ = (Ok _, _) |- _ => unfold rget in H'; simplify_eq
      | H' : rmodify _ _ = (Ok _, _) |- _ => unfold rmodify in H'; simplify_eq
      | H' : rret _ _ = (Ok _, _) |- _ => unfold rret in H'; simplify_eq
      | H' : rfail _ _ = (Ok _, _) |- _ => discriminate H'
      | H' : ok_or _ _ = Ok _ |- _ => apply ok_or_ok in H'
      end ].

(** * Machine integers *)

(** A [u64] is a [Z] in [0, u64_max]; [usize] is 64 bits on the only target,
    and array indices are [nat]. *)
Definition u64_max : Z := 18446744073709551615.
Definition is_u64 (x : Z) : Prop := (0 ≤ x ≤ u64_max)%Z.
Definition wrap_u64 (x : Z) : Z := (x mod (u64_max + 1))%Z.
Definition sat_add (a b : Z) : Z := Z.min (a + b) u64_max.
Definition sat_sub (a b : Z) : Z := Z.max (a - b) 0.
Definition sat_mul (a b : Z) : Z := Z.min (a * b) u64_max.
Definition checked_add (a b : Z) : option Z :=
  if (a + b <=? u64_max)%Z then Some (a + b)%Z else None.
Definition checked_mul (a b : Z) : option Z :=
  if (a * b <=? u64_max)%Z then Some (a * b)%Z else None.
Definition not_u64 (x : Z) : Z := Z.lxor x u64_max.

Lemma u64_max_ones : u64_max = Z.ones 64.
Proof. reflexivity. Qed.

Lemma is_u64_testbit x i : is_u64 x → (64 ≤ i)%Z → Z.testbit x i = false.
Proof.
  intros [H0 Hmax] Hi. destruct (decide (x = 0%Z)) as [->|Hne]; [by rewrite Z.bits_0|].
  apply Z.bits_above_log2; [done|].
  assert (x < 2 ^ 64)%Z by (unfold u64_max in *; lia).
  apply Z.log2_lt_pow2 in H; lia.
Qed.

(** [mask & !rights == 0] says that [mask] has no bit outside [rights]. *)
Lemma land_not_u64_zero mask rights :
  is_u64 mask → is_u64 rights → Z.land mask (not_u64 rights) = 0%Z →
  ∀ i, (0 ≤ i)%Z → Z.testbit mask i = true → Z.testbit rights i = true.
Proof.
  intros Hm Hr H i Hi Hb.
  destruct (decide (64 ≤ i)%Z) as [Hge|Hlt].
  { rewrite is_u64_testbit in Hb by done. discriminate. }
  assert (Hz : Z.testbit (Z.land mask (not_u64 rights)) i = false)
    by (rewrite H; apply Z.bits_0).
  unfold not_u64 in Hz. rewrite Z.land_spec, Z.lxor_spec, Hb, u64_max_ones in Hz.
  rewrite Z.ones_spec_low in Hz by lia.
  destruct (Z.testbit rights i); done.
Qed.

Lemma is_u64_land a b : is_u64 a → (0 ≤ b)%Z → is_u64 (Z.land a b).
Proof.
  intros [Ha1 Ha2] Hb. split; [apply Z.land_nonneg; lia|].
  rewrite <-(Z2N.id a), <-(Z2N.id b), <-N2Z.inj_land by lia.
  pose proof (N.land_le_l (Z.to_N a) (Z.to_N b)). lia.
Qed.

Lemma wrap_u64_small x : is_u64 x → wrap_u64 x = x.
Proof. intros [??]. unfold wrap_u64. apply Z.mod_small. unfold u64_max in *. lia. Qed.

Lemma wrap_u64_range x : is_u64 (wrap_u64 x).
Proof.
  unfold wrap_u64, is_u64. pose proof (Z.mod_pos_bound x (u64_max + 1)).
  unfold u64_max in *. lia.
Qed.

(** * Bytes *)

Abbreviation byte := Z (only parsing).

(** [to_le_bytes] of an integer of [n] bytes. *)
Fixpoint le_bytes (n : nat) (value : Z) : list byte :=
  match n with
  | 0 => []
  | S n' => (value mod 256)%Z :: le_bytes n' (value / 256)
  end.

(** [from_le_bytes]. *)
Fixpoint le_value (bytes : list byte) : Z :=
  match bytes with
  | [] => 0
  | b :: rest => b + 256 * le_value rest
  end%Z.

Lemma length_le_bytes n v : length (le_bytes n v) = n.
Proof. revert v. induction n as [|n IH]; intros v; cbn; auto. Qed.

Lemma le_value_bytes n v : (0 ≤ v < 256 ^ Z.of_nat n)%Z → le_value (le_bytes n v) = v.
Proof.
  revert v. induction n as [|n IH]; intros v Hv.
  - cbn in *. lia.
  - cbn [le_bytes le_value]. rewrite IH.
    + pose proof (Z.div_mod v 256). lia.
    + rewrite Nat2Z.inj_succ, Z.pow_succ_r in Hv by lia.
      split; [apply Z.div_pos; lia|]. apply Z.div_lt_upper_bound; lia.
Qed.

(** * Array scans *)

(** [while index < n { if p(l[index]) { return Some(index) } index += 1 } None]. *)
Fixpoint first_index {A} (p : A → bool) (l : list A) (n : nat) {struct n} : option nat :=
  match n, l with
  | S n', x :: l' => if p x then Some 0 else S <$> first_index p l' n'
  | _, _ => None
  end.

(** The scan that returns the payload of the first entry [f] selects. *)
Fixpoint first_some {A B} (f : A → option B) (l : list A) (n : nat) {struct n} : option B :=
  match n, l with
  | S n', x :: l' =>
      match f x with Some b => Some b | None => first_some f l' n' end
  | _, _ => None
  end.

(** [while index < n { if p(l[index]) { count += 1 } index += 1 }]. *)
Fixpoint count_upto {A} (p : A → bool) (l : list A) (n : nat) {struct n} : nat :=
  match n, l with
  | S n', x :: l' => (if p x then 1 else 0) + count_upto p l' n'
  | _, _ => 0
  end.

(** [while index < n { l[index] = f(l[index]); index += 1 }]. *)
Fixpoint map_upto {A} (f : A → A) (l : list A) (n : nat) {struct n} : list A :=
  match n, l with
  | S n', x :: l' => f x :: map_upto f l' n'
  | _, _ => l
  end.

(** [while n > 0 && l[n - 1].is_none() { n -= 1 }]. *)
Fixpoint trim_count {A} (l : list (option A)) (n : nat) : nat :=
  match n with
  | 0 => 0
  | S n' => match l !! n' with
            | Some (Some _) => S n'
            | _ => trim_count l n'
            end
  end.

Section scans.
Context {A B : Type}.
Implicit Types (l : list A) (p : A → bool) (f : A → option B).

Lemma first_index_Some p l n i :
  first_index p l n = Some i ↔
  i < n ∧ (∃ x, l !! i = Some x ∧ p x = true) ∧
  ∀ j y, j < i → l !! j = Some y → p y = false.
Proof.
  revert l i; induction n as [|n IH]; intros l i; simpl.
  { split; [done|lia]. }
  destruct l as [|x l]; simpl.
  { split; [done|intros (_ & (y & Hy & _) & _); done]. }
  destruct (p x) eqn:Hp.
  - split.
    + intros [= <-]. split; [lia|]. split; [eauto|lia].
    + intros (_ & _ & Hmin). destruct i as [|i]; [done|].
      specialize (Hmin 0 x ltac:(lia) eq_refl). congruence.
  - destruct i as [|i].
    + split; [destruct (first_index p l n); done|].
      intros (_ & (y & [= ->] & Hy) & _). congruence.
    + destruct (first_index p l n) as [k|] eqn:Hk; simpl.
      * split.
        -- intros [= ->]. apply IH in Hk as (Hlt & Hex & Hmin).
           split; [lia|]. split; [done|]. intros [|j] y Hj Hy; simpl in Hy; [congruence|].
           eapply Hmin; [|done]; lia.
        -- intros (Hlt & Hex & Hmin). f_equal.
           enough (Some k = Some i) by congruence. rewrite <-Hk. apply IH.
           split; [lia|]. split; [done|]. intros j y Hj Hy. apply (Hmin (S j)); [lia|done].
      * split; [done|]. intros (Hlt & Hex & Hmin).
        assert (Some i = None); [|done]. rewrite <-Hk. symmetry. apply IH.
        split; [lia|]. split; [done|]. intros j y Hj Hy. apply (Hmin (S j)); [lia|done].
Qed.

Lemma first_index_None p l n :
  first_index p l n = None ↔ ∀ j y, j < n → l !! j = Some y → p y = false.
Proof.
  revert l; induction n as [|n IH]; intros l; simpl; [split; [lia|done]|].
  destruct l as [|x l]; simpl; [split; [done|done]|].
  destruct (p x) eqn:Hp.
  - split; [done|]. intros H. specialize (H 0 x ltac:(lia) eq_refl). congruence.
  - rewrite fmap_None, IH. split.
    + intros H [|j] y Hj Hy; simpl in Hy; [congruence|]. apply (H j); [lia|done].
    + intros H j y Hj Hy. apply (H (S j)); [lia|done].
Qed.

Lemma first_index_ext p q l n :
  (∀ x, x ∈ l → p x = q x) → first_index p l n = first_index q l n.
Proof.
  revert n. induction l as [|x l IH]; intros [|n] H; [done..|]. simpl.
  rewrite H by (apply elem_of_cons; by left). destruct (q x); [done|].
  rewrite IH; [done|]. intros y Hy. apply H, elem_of_cons. by right.
Qed.

Lemma first_index_lt p l n i : first_index p l n = Some i → i < n ∧ i < length l.
Proof.
  intros (Hlt & (x & Hx & _) & _)%first_index_Some. split; [done|].
  by eapply lookup_lt_Some.
Qed.

Lemma first_some_Some f l n b :
  first_some f l n = Some b ↔
  ∃ i x, i < n ∧ l !! i = Some x ∧ f x = Some b ∧
         ∀ j y, j < i → l !! j = Some y → f y = None.
Proof.
  revert l; induction n as [|n IH]; intros l; simpl; [split; [done|naive_solver lia]|].
  destruct l as [|x l]; simpl; [split; [done|naive_solver]|].
  destruct (f x) as [c|] eqn:Hf.
  - split.
    + intros [= ->]. exists 0, x. repeat split; [lia|done|lia].
    + intros (i & y & Hi & Hy & Hfy & Hmin). destruct i as [|i]; [simpl in *; congruence|].
      specialize (Hmin 0 x ltac:(lia) eq_refl). congruence.
  - rewrite IH. split.
    + intros (i & y & Hi & Hy & Hfy & Hmin). exists (S i), y. repeat split; [lia|done|done|].
      intros [|j] z Hj Hz; simpl in Hz; [congruence|]. apply (Hmin j); [lia|done].
    + intros (i & y & Hi & Hy & Hfy & Hmin). destruct i as [|i]; [simpl in *; congruence|].
      exists i, y. repeat split; [lia|done|done|].
      intros j z Hj Hz. apply (Hmin (S j)); [lia|done].
Qed.

Lemma first_some_ext f g l n :
  (∀ x, f x = g x) → first_some f l n = first_some g l n.
Proof.
  intros H. revert l. induction n as [|n IH]; intros [|x l]; [done..|]; simpl.
  rewrite H. by rewrite IH.
Qed.

Lemma first_some_None f l n :
  first_some f l n = None ↔ ∀ j y, j < n → l !! j = Some y → f y = None.
Proof.
  revert l; induction n as [|n IH]; intros l; simpl; [split; [lia|done]|].
  destruct l as [|x l]; simpl; [split; [done|done]|].
  destruct (f x) as [c|] eqn:Hf.
  - split; [done|]. intros H. specialize (H 0 x ltac:(lia) eq_refl). congruence.
  - rewrite IH. split.
    + intros H [|j] y Hj Hy; simpl in Hy; [congruence|]. apply (H j); [lia|done].
    + intros H j y Hj Hy. apply (H (S j)); [lia|done].
Qed.

(** An entry the scan skips may be replaced by another one it skips. *)
Lemma first_some_insert_skip f l n i x y :
  l !! i = Some x → f x = None → f y = None → first_some f (<[i := y]> l) n = first_some f l n.
Proof.
  intros Hi Hx Hy. revert l n Hi. induction i as [|i IH]; intros [|z l] [|n] Hi; simpl in *; try done.
  - injection Hi as ->. by rewrite Hx, Hy.
  - destruct (f z); [done|]. by apply IH.
Qed.

(** Replacing the entry the scan stops at. *)
Lemma first_some_insert_hit f l n i x y b c :
  i < n → l !! i = Some x → f x = Some b → (∀ j z, j < i → l !! j = Some z → f z = None) →
  f y = Some c → first_some f l n = Some b ∧ first_some f (<[i := y]> l) n = Some c.
Proof.
  intros Hlt Hi Hx Hmin Hy. revert l n Hlt Hi Hmin.
  induction i as [|i IH]; intros [|z l] [|n] Hlt Hi Hmin; simpl in *; try done; try lia.
  - injection Hi as ->. by rewrite Hx, Hy.
  - rewrite (Hmin 0 z) by (lia || done). apply IH; [lia|done|].
    intros j w Hj Hw. apply (Hmin (S j)); [lia|done].
Qed.

Lemma length_map_upto (g : A → A) l n : length (map_upto g l n) = length l.
Proof. revert l; induction n; intros [|x l]; simpl; auto. Qed.

Lemma map_upto_ext (g h : A → A) l n :
  (∀ x, g x = h x) → map_upto g l n = map_upto h l n.
Proof.
  intros H. revert l. induction n as [|n IH]; intros [|x l]; [done..|]; simpl.
  by rewrite H, IH.
Qed.

Lemma lookup_map_upto (g : A → A) l n i :
  map_upto g l n !! i = (if bool_decide (i < n) then g <$> l !! i else l !! i).
Proof.
  revert l i; induction n as [|n IH]; intros [|x l] [|i]; simpl;
    rewrite ?fmap_None; try done; try (by case_bool_decide).
  rewrite IH. by case_bool_decide; case_bool_decide; try lia.
Qed.
End scans.

Lemma count_upto_filter {A} (p : A → bool) (l : list A) n :
  count_upto p l n = length (filter (λ x, p x = true) (take n l)).
Proof.
  revert n. induction l as [|x l IH]; intros [|n]; [done..|]. cbn [count_upto take].
  rewrite filter_cons, IH. by destruct (p x); case_decide.
Qed.

Lemma trim_count_le {A} (l : list (option A)) n : trim_count l n ≤ n.
Proof. induction n as [|n IH]; simpl; [lia|]. destruct (l !! n) as [[x|]|]; lia. Qed.

(** Entries beyond the trimmed count are empty, so trimming drops no entry. *)
Lemma trim_count_above {A} (l : list (option A)) n i x :
  trim_count l n ≤ i → i < n → l !! i = Some (Some x) → False.
Proof.
  induction n as [|n IH]; simpl; [lia|]. intros Hle Hlt Hl.
  destruct (decide (i = n)) as [->|Hne].
  - rewrite Hl in Hle. lia.
  - destruct (l !! n) as [[y|]|]; [lia|apply IH; [done|lia|done]..].
Qed.

Lemma trim_count_last {A} (l : list (option A)) n :
  trim_count l n = 0 ∨ ∃ x, l !! (trim_count l n - 1) = Some (Some x).
Proof.
  induction n as [|n IH]; simpl; [by left|].
  destruct (l !! n) as [[x|]|] eqn:Hn; [|done..].
  right. exists x. by rewrite Nat.sub_succ, Nat.sub_0_r.
Qed.

(** * Array shifts *)

(** [while index + 1 < n { l[index] = l[index + 1]; index += 1 }], run for the
    [fuel] iterations that are left ([n - 1 - index] of them). *)
Fixpoint shift_down {A} (l : list A) (index fuel : nat) : list A :=
  match fuel with
  | 0 => l
  | S fuel' =>
      match l !! S index with
      | Some x => shift_down (<[index := x]> l) (S index) fuel'
      | None => l
      end
  end.

Section shifts.
Context {A : Type}.
Implicit Types l : list A.

Lemma length_shift_down l i fuel : length (shift_down l i fuel) = length l.
Proof.
  revert l i; induction fuel as [|fuel IH]; intros l i; simpl; [done|].
  destruct (l !! S i); [|done]. by rewrite IH, length_insert.
Qed.

Lemma lookup_shift_down l i fuel j :
  i + fuel < length l →
  shift_down l i fuel !! j =
    (if bool_decide (i ≤ j < i + fuel) then l !! S j else l !! j).
Proof.
  revert l i; induction fuel as [|fuel IH]; intros l i Hlen; simpl.
  { case_bool_decide; [lia|done]. }
  destruct (lookup_lt_is_Some_2 l (S i) ltac:(lia)) as [x Hx]. rewrite Hx.
  rewrite IH by (rewrite length_insert; lia).
  destruct (decide (j = i)) as [->|Hne].
  - rewrite bool_decide_eq_false_2 by lia. rewrite bool_decide_eq_true_2 by lia.
    rewrite list_lookup_insert_eq by lia. done.
  - do 2 case_bool_decide; try lia; rewrite list_lookup_insert_ne by lia; done.
Qed.

(** Shifting over slot [i] and dropping the last of [n] entries deletes
    entry [i] of the prefix. *)
Lemma take_shift_down l i n :
  i < n → n ≤ length l →
  take (n - 1) (shift_down l i (n - 1 - i)) = delete i (take n l).
Proof.
  intros Hi Hn. apply list_eq; intros j.
  rewrite list_lookup_delete.
  destruct (decide (j < n - 1)) as [Hj|Hj].
  - rewrite lookup_take_lt by lia. rewrite lookup_shift_down by lia.
    case_decide; case_bool_decide; try lia; rewrite lookup_take_lt by lia; done.
  - rewrite lookup_take_ge by lia. case_decide; [lia|].
    rewrite lookup_take_ge; [done|lia].
Qed.
End shifts.

(** The first element satisfying [p], and the list without it. *)
Fixpoint take_first {A} (p : A → bool) (l : list A) : option (A * list A) :=
  match l with
  | [] => None
  | x :: l' =>
      if p x then Some (x, l')
      else (λ '(y, k), (y, x :: k)) <$> take_first p l'
  end.

Lemma take_first_Some {A} (p : A → bool) l x k :
  take_first p l = Some (x, k) ↔
  ∃ pre post, l = pre ++ x :: post ∧ k = pre ++ post ∧ p x = true ∧
              Forall (λ y, p y = false) pre.
Proof.
  revert x k; induction l as [|y l IH]; intros x k; simpl.
  { split; [done|]. intros (pre & post & H & _). by destruct pre. }
  destruct (p y) eqn:Hy.
  - split.
    + intros [= <- <-]. exists [], l. repeat split; auto.
    + intros (pre & post & Hl & -> & Hx & Hpre). destruct pre as [|z pre]; simplify_eq/=; [done|].
      inversion Hpre; congruence.
  - destruct (take_first p l) as [[z k']|] eqn:Htf; simpl.
    + split.
      * intros [= -> <-]. destruct (proj1 (IH x k') eq_refl) as (pre & post & -> & -> & Hx & Hpre).
        exists (y :: pre), post. repeat split; auto.
      * intros (pre & post & Hl & -> & Hx & Hpre). destruct pre as [|w pre]; simplify_eq/=; [congruence|].
        inversion Hpre; subst.
        assert (Some (z, k') = Some (x, pre ++ post)) as [= -> ->]; [|done].
        apply IH. eauto 6.
    + split; [done|]. intros (pre & post & Hl & -> & Hx & Hpre).
      destruct pre as [|w pre]; simplify_eq/=; [congruence|].
      inversion Hpre; subst.
      assert (None = Some (x, pre ++ post)); [|done]. apply IH. eauto 6.
Qed.

Lemma take_first_None {A} (p : A → bool) l :
  take_first p l = None ↔ Forall (λ y, p y = false) l.
Proof.
  induction l as [|y l IH]; simpl; [by split|].
  destruct (p y) eqn:Hy.
  - split; [done|]. inversion 1; congruence.
  - rewrite fmap_None, IH, Forall_cons. naive_solver.
Qed.

(** The scan and the deletion of the source, seen on the abstract list. *)
Lemma first_index_take_first {A} (p : A → bool) l n i x :
  first_index p l n = Some i → l !! i = Some x → n ≤ length l →
  take_first p (take n l) = Some (x, delete i (take n l)).
Proof.
  intros (Hi & (y & Hy & Hp) & Hmin)%first_index_Some Hx Hn. simplify_eq.
  apply take_first_Some. exists (take i l), (drop (S i) (take n l)).
  assert (Htl : take i (take n l) = take i l) by (rewrite take_take; f_equal; lia).
  repeat split.
  - rewrite <-Htl. symmetry. apply take_drop_middle. by rewrite lookup_take_lt by lia.
  - rewrite delete_take_drop, Htl. done.
  - done.
  - apply Forall_lookup. intros j z Hz.
    apply lookup_take_Some in Hz as [Hz Hj]. eauto.
Qed.

Lemma first_index_take_first_None {A} (p : A → bool) l n :
  first_index p l n = None → take_first p (take n l) = None.
Proof.
  intros H. apply take_first_None, Forall_lookup. intros j x Hx.
  apply lookup_take_Some in Hx as [Hx Hj]. by eapply first_index_None.
Qed.

Lemma filter_all {A} (P : A → Prop) `{!∀ x, Decision (P x)} (l : list A) :
  Forall P l → filter P l = l.
Proof. induction 1; [done|]. rewrite filter_cons_True by done. by f_equal. Qed.

(** Distinct keys over the filled slots give a list of distinct keys. *)
Lemma NoDup_fmap_omap {A} (f : A → Z) (l : list (option A)) :
  (∀ i j x y, l !! i = Some (Some x) → l !! j = Some (Some y) → f x = f y → i = j) →
  NoDup (f <$> omap id l).
Proof.
  induction l as [|[x|] l IH]; intros H; cbn; [constructor| |].
  - constructor.
    + intros (y & Heq & Hin)%list_elem_of_fmap.
      apply list_elem_of_omap in Hin as (o & Hin & [= ->]).
      apply list_elem_of_lookup in Hin as [j Hj]. specialize (H 0 (S j) x y eq_refl Hj Heq). done.
    + apply IH. intros i j y z Hi Hj Hf. specialize (H (S i) (S j) y z Hi Hj Hf). lia.
  - apply IH. intros i j y z Hi Hj Hf. specialize (H (S i) (S j) y z Hi Hj Hf). lia.
Qed.

Lemma length_omap_le {A} (l : list (option A)) : length (omap id l) ≤ length l.
Proof. induction l as [|[x|] l IH]; cbn; lia. Qed.

Create HintDb krust.
#[export] Hint Resolve length_map_upto trim_count_le : krust.
