(* ===== verification/Elf.v ===== *)
(** Executable files ([elf.rs]): the header of an ELF file and its program headers,
    with every check the loader relies on. *)

From S2P Require Import Prelude.

(** * Data *)

Definition PT_LOAD : Z := 1.
Definition PF_X : Z := Z.shiftl 1 0.
Definition PF_W : Z := Z.shiftl 1 1.

Definition ELF_MAGIC : list byte := [127; 69; 76; 70]%Z.
Definition ELFCLASS64 : Z := 2.
Definition ELFDATA2LSB : Z := 1.
Definition EV_CURRENT : Z := 1.
Definition ET_EXEC : Z := 2.
Definition EM_X86_64 : Z := 0x3e.
Definition ELF_HEADER_SIZE : nat := 64.
Definition PROGRAM_HEADER_SIZE : Z := 56.

Inductive ElfError :=
| ElfTooSmall | BadMagic | UnsupportedClass | UnsupportedEndian | UnsupportedVersion
| UnsupportedType | UnsupportedMachine | BadProgramHeaders.

Record Elf := mkElf {
  elf_bytes : list byte;
  elf_entry : Z;
  elf_phoff : Z;
  elf_phentsize : Z;
  elf_phnum : Z
}.

Record ProgramHeader := mkProgramHeader {
  ph_typ : Z;
  ph_flags : Z;
  ph_offset : Z;
  ph_vaddr : Z;
  ph_filesz : Z;
  ph_memsz : Z
}.

(** * Reading *)

(** [read_u16], [read_u32] and [read_u64], by their number of bytes: [None] when one
    of the bytes is missing. *)
Definition read_le (n : nat) (bytes : list byte) (offset : nat) : option Z :=
  le_value <$> mapM (λ i, bytes !! (offset + i)) (seq 0 n).
Definition elf_read_u16 : list byte → nat → option Z := read_le 2.
Definition elf_read_u32 : list byte → nat → option Z := read_le 4.
Definition elf_read_u64 : list byte → nat → option Z := read_le 8.

(** [Elf::parse]. *)
Definition elf_parse (bytes : list byte) : Result ElfError Elf :=
  do? res_guard (negb (length bytes <? ELF_HEADER_SIZE)) ElfTooSmall;
  do? res_guard (bool_decide (take 4 bytes = ELF_MAGIC)) BadMagic;
  do? res_guard (bool_decide (bytes !! 4 = Some ELFCLASS64)) UnsupportedClass;
  do? res_guard (bool_decide (bytes !! 5 = Some ELFDATA2LSB)) UnsupportedEndian;
  do? res_guard (bool_decide (bytes !! 6 = Some EV_CURRENT)) UnsupportedVersion;
  let? typ := ok_or (elf_read_u16 bytes 16) ElfTooSmall in
  do? res_guard (typ =? ET_EXEC)%Z UnsupportedType;
  let? machine := ok_or (elf_read_u16 bytes 18) ElfTooSmall in
  do? res_guard (machine =? EM_X86_64)%Z UnsupportedMachine;
  let? entry := ok_or (elf_read_u64 bytes 24) ElfTooSmall in
  let? phoff := ok_or (elf_read_u64 bytes 32) ElfTooSmall in
  let? phentsize := ok_or (elf_read_u16 bytes 54) ElfTooSmall in
  let? phnum := ok_or (elf_read_u16 bytes 56) ElfTooSmall in
  do? res_guard (negb (phentsize <? PROGRAM_HEADER_SIZE)%Z) BadProgramHeaders;
  let? ph_table_size := ok_or (checked_mul phentsize phnum) BadProgramHeaders in
  let? ph_table_end := ok_or (checked_add phoff ph_table_size) BadProgramHeaders in
  do? res_guard (negb (Z.of_nat (length bytes) <? ph_table_end)%Z) BadProgramHeaders;
  Ok (mkElf bytes entry phoff phentsize phnum).

(** [Elf::program_header]. *)
Definition program_header (e : Elf) (index : Z) : option ProgramHeader :=
  if (elf_phnum e <=? index)%Z then None
  else
    let offset := Z.to_nat (elf_phoff e + index * elf_phentsize e) in
    typ ← elf_read_u32 (elf_bytes e) offset;
    flags ← elf_read_u32 (elf_bytes e) (offset + 4);
    poffset ← elf_read_u64 (elf_bytes e) (offset + 8);
    vaddr ← elf_read_u64 (elf_bytes e) (offset + 16);
    filesz ← elf_read_u64 (elf_bytes e) (offset + 32);
    memsz ← elf_read_u64 (elf_bytes e) (offset + 40);
    Some (mkProgramHeader typ flags poffset vaddr filesz memsz).

(** * What an accepted file guarantees *)

Definition is_byte (b : Z) : Prop := (0 ≤ b < 256)%Z.

Lemma le_value_bound l : Forall is_byte l → (0 ≤ le_value l < 256 ^ Z.of_nat (length l))%Z.
Proof.
  induction 1 as [|b l Hb Hl IH]; [done|]. cbn [le_value length]. unfold is_byte in Hb.
  rewrite Nat2Z.inj_succ, Z.pow_succ_r by lia. lia.
Qed.

Lemma mapM_take_drop (l : list byte) n : ∀ k, k + n ≤ length l →
  mapM (λ i, l !! i) (seq k n) = Some (take n (drop k l)).
Proof.
  induction n as [|n IH]; intros k Hk; [done|]. cbn.
  destruct (lookup_lt_is_Some_2 l k ltac:(lia)) as [x Hx]. rewrite Hx. cbn. rewrite IH by lia. cbn.
  by rewrite (drop_S l x k Hx).
Qed.

Lemma mapM_offset (l : list byte) offset n : ∀ k,
  mapM (λ i, l !! (offset + i)) (seq k n) = mapM (λ i, l !! i) (seq (offset + k) n).
Proof.
  induction n as [|n IH]; intros k; [done|]. cbn. rewrite IH. by rewrite Nat.add_succ_r.
Qed.

(** A read within the file gives the bytes there, and one beyond it nothing. *)
Lemma read_le_spec n l offset : 0 < n →
  read_le n l offset = if decide (offset + n ≤ length l) then Some (le_value (take n (drop offset l))) else None.
Proof.
  intros Hn. unfold read_le. rewrite mapM_offset, Nat.add_0_r. case_decide as Hd.
  - by rewrite mapM_take_drop.
  - destruct (mapM _ _) as [k|] eqn:Hm; [|done]. exfalso. apply Hd. apply mapM_Some in Hm.
    destruct (Forall2_lookup_l _ _ _ (n - 1) (offset + (n - 1)) Hm) as (y & _ & Hy).
    { rewrite lookup_seq_lt by lia. done. }
    apply lookup_lt_Some in Hy. lia.
Qed.

Lemma read_le_bound n l offset v : 0 < n → Forall is_byte l → read_le n l offset = Some v →
  (0 ≤ v < 256 ^ Z.of_nat n)%Z.
Proof.
  intros Hn Hl. rewrite read_le_spec by done. case_decide as Hd; [|done]. intros [= <-].
  assert (length (take n (drop offset l)) = n) as Hlen by (rewrite length_take, length_drop; lia).
  pose proof (le_value_bound (take n (drop offset l))) as Hb. rewrite Hlen in Hb. by apply Hb, Forall_take, Forall_drop.
Qed.

Lemma read_u64_bound l offset v : Forall is_byte l → elf_read_u64 l offset = Some v → is_u64 v.
Proof.
  intros Hl H. apply (read_le_bound 8) in H; [|lia|done].
  change (256 ^ Z.of_nat 8)%Z with 18446744073709551616%Z in H. unfold is_u64, u64_max. lia.
Qed.

Lemma read_u16_bound l offset v : Forall is_byte l → elf_read_u16 l offset = Some v → (0 ≤ v < 65536)%Z.
Proof. intros Hl H. apply (read_le_bound 2) in H; [|lia|done]. by change (256 ^ Z.of_nat 2)%Z with 65536%Z in H. Qed.

Record elf_ok (e : Elf) : Prop := mk_elf_ok {
  eo_bytes : Forall is_byte (elf_bytes e);
  eo_entry : is_u64 (elf_entry e);
  eo_table : (0 ≤ elf_phoff e)%Z ∧ (0 ≤ elf_phnum e)%Z;
  eo_size : (PROGRAM_HEADER_SIZE ≤ elf_phentsize e)%Z;
  eo_end : (elf_phoff e + elf_phentsize e * elf_phnum e ≤ Z.of_nat (length (elf_bytes e)))%Z
}.

Lemma elf_parse_ok bytes e : Forall is_byte bytes → elf_parse bytes = Ok e → elf_bytes e = bytes ∧ elf_ok e.
Proof.
  intros Hb H. unfold elf_parse in H.
  repeat (apply res_bind_ok in H; destruct H as (? & ? & H)).
  repeat match goal with
    | H' : res_guard _ _ = Ok _ |- _ => apply res_guard_ok in H'
    | H' : ok_or _ _ = Ok _ |- _ => apply ok_or_ok in H'
    end.
  injection H as <-. split; [done|].
  repeat match goal with
    | H' : elf_read_u16 _ _ = Some _ |- _ => apply read_u16_bound in H'; [|done]
    | H' : elf_read_u64 _ _ = Some _ |- _ => apply read_u64_bound in H'; [|done]
    end.
  unfold checked_mul, checked_add in *. repeat case_match; simplify_eq.
  constructor; cbn [elf_bytes elf_entry elf_phoff elf_phnum elf_phentsize]; [done|done| | |]; unfold is_u64 in *; lia.
Qed.

(** Every program header of an accepted file can be read, its fields are [u64]s. *)
Lemma program_header_Some e index : elf_ok e → (0 ≤ index < elf_phnum e)%Z →
  ∃ h, program_header e index = Some h ∧
    is_u64 (ph_offset h) ∧ is_u64 (ph_vaddr h) ∧ is_u64 (ph_filesz h) ∧ is_u64 (ph_memsz h).
Proof.
  intros He Hi. destruct (eo_table e He) as [Ho Hn]. pose proof (eo_size e He) as Hs. pose proof (eo_end e He) as Hend.
  unfold PROGRAM_HEADER_SIZE in Hs.
  unfold program_header. rewrite (proj2 (Z.leb_gt _ _)) by lia. cbv zeta.
  set (o := Z.to_nat _). assert (Hlen : o + 56 ≤ length (elf_bytes e)).
  { assert (elf_phoff e + index * elf_phentsize e + 56 ≤ Z.of_nat (length (elf_bytes e)))%Z by nia. subst o. nia. }
  assert (Hrd : ∀ n k, 0 < n → k + n ≤ 56 → ∃ v, read_le n (elf_bytes e) (o + k) = Some v).
  { intros n k Hn0 Hk. rewrite read_le_spec by done. rewrite decide_True by lia. eauto. }
  destruct (Hrd 4 0) as [v0 E0]; [lia..|]. rewrite Nat.add_0_r in E0. fold (elf_read_u32 (elf_bytes e) o) in E0. rewrite E0. cbn [mbind option_bind].
  destruct (Hrd 4 4) as [v1 E1]; [lia..|]. fold (elf_read_u32 (elf_bytes e) (o + 4)) in E1. rewrite E1. cbn [mbind option_bind].
  destruct (Hrd 8 8) as [v2 E2]; [lia..|]. fold (elf_read_u64 (elf_bytes e) (o + 8)) in E2. rewrite E2. cbn [mbind option_bind].
  destruct (Hrd 8 16) as [v3 E3]; [lia..|]. fold (elf_read_u64 (elf_bytes e) (o + 16)) in E3. rewrite E3. cbn [mbind option_bind].
  destruct (Hrd 8 32) as [v4 E4]; [lia..|]. fold (elf_read_u64 (elf_bytes e) (o + 32)) in E4. rewrite E4. cbn [mbind option_bind].
  destruct (Hrd 8 40) as [v5 E5]; [lia..|]. fold (elf_read_u64 (elf_bytes e) (o + 40)) in E5. rewrite E5. cbn [mbind option_bind].
  eexists. split; [done|]. cbn [ph_offset ph_vaddr ph_filesz ph_memsz]. pose proof (eo_bytes e He) as Hb.
  split_and!; by eapply read_u64_bound.
Qed.
