(* ===== verification/Frames.v ===== *)
(** The allocator of physical frames ([memory.rs]): ranges of usable memory that
    are handed out in order, a stack of recycled frames and a ledger of the owner
    of every frame in use.

    The specification of the allocator is a list of free frames, from whose head
    [allocate_owned] takes and to which [free_owned] returns, and a finite map from
    frames in use to their owners. *)

From S2P Require Import Prelude.

(** * Data *)

Definition FRAME_SIZE : Z := 4096.
Definition MAX_RANGES : nat := 64.
Definition FREE_STACK_CAPACITY : nat := Z.to_nat 8192.
Definition MAX_FRAME_RECORDS : nat := Z.to_nat 16384.

Record PhysicalFrame := mkPhysicalFrame { frame_start : Z }.
#[export] Instance PhysicalFrame_eq_dec : EqDecision PhysicalFrame.
Proof. solve_decision. Defined.

(** [PhysicalFrame::from_start]. *)
Definition frame_from_start (start : Z) : option PhysicalFrame :=
  if (start mod FRAME_SIZE =? 0)%Z then Some (mkPhysicalFrame start) else None.

Record FrameRange := mkFrameRange { fr_start : Z; fr_next : Z; fr_end : Z }.
#[export] Instance eta_FrameRange : Eta FrameRange := λ r, mkFrameRange (fr_start r) (fr_next r) (fr_end r).

(** [FrameRange::empty]. *)
Definition range_empty : FrameRange := mkFrameRange 0 0 0.
(** [FrameRange::new]. *)
Definition range_new (start end_ : Z) : FrameRange := mkFrameRange start start end_.
(** [FrameRange::frame_count]. *)
Definition frame_count (r : FrameRange) : Z := ((fr_end r - fr_start r) / FRAME_SIZE)%Z.
(** [FrameRange::contains]. *)
Definition range_contains (frame : PhysicalFrame) (r : FrameRange) : bool :=
  match checked_add (frame_start frame) FRAME_SIZE with
  | None => false
  | Some frame_end => (fr_start r <=? frame_start frame)%Z && (frame_end <=? fr_end r)%Z
  end.

Inductive FrameInitError := TooManyRanges | NoUsableFrames.
Inductive FreeError :=
| UnalignedFrame | OutsideUsableRanges | FreeStackFull | UnallocatedFrame | WrongOwner.

Inductive FrameOwnerKind := OkKernel | OkPageTable | OkProcessMemory | OkDma | OkScratch.
#[export] Instance FrameOwnerKind_eq_dec : EqDecision FrameOwnerKind.
Proof. solve_decision. Defined.

Record FrameOwner := mkFrameOwner { owner_kind : FrameOwnerKind; owner_id : Z }.
#[export] Instance FrameOwner_eq_dec : EqDecision FrameOwner.
Proof. solve_decision. Defined.

Definition owner_kernel (id : Z) : FrameOwner := mkFrameOwner OkKernel id.
Definition owner_page_table (root_table : Z) : FrameOwner := mkFrameOwner OkPageTable root_table.
Definition owner_process_memory (root_table : Z) : FrameOwner := mkFrameOwner OkProcessMemory root_table.
Definition owner_dma (id : Z) : FrameOwner := mkFrameOwner OkDma id.
Definition owner_scratch : FrameOwner := mkFrameOwner OkScratch 0.

Record FrameRecord := mkFrameRecord { rec_frame : PhysicalFrame; rec_owner : FrameOwner }.
#[export] Instance eta_FrameRecord : Eta FrameRecord := λ r, mkFrameRecord (rec_frame r) (rec_owner r).

Record AllocatorStats := mkAllocatorStats {
  as_range_count : nat;
  as_total_frames : Z;
  as_allocated_frames : Z;
  as_free_frames : Z;
  as_recycled_frames : nat;
  as_reclaimed_frames : Z;
  as_high_water_frames : Z;
  as_failed_allocations : Z;
  as_kernel_frames : nat;
  as_page_table_frames : nat;
  as_process_memory_frames : nat;
  as_dma_frames : nat;
  as_scratch_frames : nat;
  as_ledger_entries : nat
}.

Record FrameAllocator := mkFrameAllocator {
  fa_ranges : list FrameRange;
  fa_range_count : nat;
  fa_next_range : nat;
  fa_free_stack : list PhysicalFrame;
  fa_free_stack_len : nat;
  fa_total_frames : Z;
  fa_allocated_frames : Z;
  fa_reclaimed_frames : Z;
  fa_high_water_frames : Z;
  fa_failed_allocations : Z;
  fa_records : list (option FrameRecord);
  fa_record_count : nat
}.
#[export] Instance eta_FrameAllocator : Eta FrameAllocator := λ a,
  mkFrameAllocator (fa_ranges a) (fa_range_count a) (fa_next_range a) (fa_free_stack a)
    (fa_free_stack_len a) (fa_total_frames a) (fa_allocated_frames a) (fa_reclaimed_frames a)
    (fa_high_water_frames a) (fa_failed_allocations a) (fa_records a) (fa_record_count a).

(** * Operations *)

(** [align_up]. *)
Definition align_up (value align : Z) : Z := Z.land (sat_add value (align - 1)) (not_u64 (align - 1)).
(** [align_down]. *)
Definition align_down (value align : Z) : Z := Z.land value (not_u64 (align - 1)).

(** [FrameAllocator::new]. *)
Definition frame_allocator_new : FrameAllocator :=
  mkFrameAllocator (replicate MAX_RANGES range_empty) 0 0
    (replicate FREE_STACK_CAPACITY (mkPhysicalFrame 0)) 0 0 0 0 0 0
    (replicate MAX_FRAME_RECORDS None) 0.

(** An entry of the memory map of the boot protocol ([limine::MemmapEntry]). *)
Record MemmapEntry := mkMemmapEntry { me_base : Z; me_length : Z; me_type : Z }.
Definition MEMMAP_USABLE : Z := 0.

(** The body of the loop of [init_from_limine] for one entry. *)
Definition init_entry (entry : option MemmapEntry) : M FrameAllocator FrameInitError unit := λ a,
  match entry with
  | Some e =>
      if (me_type e =? MEMMAP_USABLE)%Z then
        let start := align_up (me_base e) FRAME_SIZE in
        let end_ := align_down (sat_add (me_base e) (me_length e)) FRAME_SIZE in
        if (start <? end_)%Z then
          if fa_range_count a =? length (fa_ranges a) then (Err TooManyRanges, a)
          else
            let range := range_new start end_ in
            (Ok tt, a <| fa_total_frames := (fa_total_frames a + frame_count range)%Z |>
                      <| fa_ranges := <[fa_range_count a := range]> (fa_ranges a) |>
                      <| fa_range_count := S (fa_range_count a) |>)
        else (Ok tt, a)
      else (Ok tt, a)
  | None => (Ok tt, a)
  end.

Fixpoint init_entries (entries : list (option MemmapEntry)) : M FrameAllocator FrameInitError unit :=
  match entries with
  | [] => rret tt
  | e :: rest => do! init_entry e; init_entries rest
  end.

(** [FrameAllocator::init_from_limine]. *)
Definition init_from_limine (memory_map : list (option MemmapEntry)) :
    M FrameAllocator FrameInitError unit :=
  do! rmodify (λ a, a <| fa_range_count := 0 |> <| fa_next_range := 0 |>
    <| fa_free_stack_len := 0 |> <| fa_total_frames := 0%Z |> <| fa_allocated_frames := 0%Z |>
    <| fa_reclaimed_frames := 0%Z |> <| fa_high_water_frames := 0%Z |>
    <| fa_failed_allocations := 0%Z |> <| fa_record_count := 0 |>);
  do! init_entries memory_map;
  let! a := rget in
  rguard (negb (fa_total_frames a =? 0)%Z) NoUsableFrames.

(** [FrameAllocator::contains]. *)
Definition contains (a : FrameAllocator) (frame : PhysicalFrame) : bool :=
  match first_index (range_contains frame) (fa_ranges a) (fa_range_count a) with
  | Some _ => true
  | None => false
  end.

(** [FrameAllocator::record_allocated]. *)
Definition record_allocated (frame : PhysicalFrame) (owner : FrameOwner) (a : FrameAllocator) :
    FrameAllocator :=
  a <| fa_records := <[fa_record_count a := Some (mkFrameRecord frame owner)]> (fa_records a) |>
    <| fa_record_count := S (fa_record_count a) |>.

Definition is_record_of (frame : PhysicalFrame) (slot : option FrameRecord) : bool :=
  match slot with
  | Some record => (frame_start (rec_frame record) =? frame_start frame)%Z
  | None => false
  end.

(** [FrameAllocator::record_index]. *)
Definition record_index (a : FrameAllocator) (frame : PhysicalFrame) : option nat :=
  first_index (is_record_of frame) (fa_records a) (fa_record_count a).

(** [FrameAllocator::remove_record]: the last record takes the place of the
    removed one. *)
Definition remove_record (index : nat) (a : FrameAllocator) : FrameAllocator :=
  let last := fa_record_count a - 1 in
  let records := <[index := nth last (fa_records a) None]> (fa_records a) in
  a <| fa_record_count := last |> <| fa_records := <[last := None]> records |>.

(** [FrameAllocator::update_high_water]. *)
Definition update_high_water (a : FrameAllocator) : FrameAllocator :=
  if (fa_high_water_frames a <? fa_allocated_frames a)%Z
  then a <| fa_high_water_frames := fa_allocated_frames a |> else a.

Definition count_failed_allocation (a : FrameAllocator) : FrameAllocator :=
  a <| fa_failed_allocations := sat_add (fa_failed_allocations a) 1 |>.

(** The loop of [allocate_owned] over the ranges that are left. *)
Fixpoint allocate_from_ranges (fuel : nat) (owner : FrameOwner) (a : FrameAllocator) :
    option PhysicalFrame * FrameAllocator :=
  match fuel with
  | 0 => (None, count_failed_allocation a)
  | S fuel' =>
      let range := nth (fa_next_range a) (fa_ranges a) range_empty in
      if (fr_next range <? fr_end range)%Z then
        let frame := mkPhysicalFrame (fr_next range) in
        let a1 := a <| fa_ranges := <[fa_next_range a :=
                         range <| fr_next := (fr_next range + FRAME_SIZE)%Z |> ]> (fa_ranges a) |>
                    <| fa_allocated_frames := (fa_allocated_frames a + 1)%Z |> in
        (Some frame, update_high_water (record_allocated frame owner a1))
      else allocate_from_ranges fuel' owner (a <| fa_next_range := S (fa_next_range a) |>)
  end.

(** [FrameAllocator::allocate_owned]. *)
Definition allocate_owned (owner : FrameOwner) (a : FrameAllocator) :
    option PhysicalFrame * FrameAllocator :=
  if fa_record_count a =? length (fa_records a) then (None, count_failed_allocation a)
  else if 0 <? fa_free_stack_len a then
    let len := fa_free_stack_len a - 1 in
    let a1 := a <| fa_free_stack_len := len |>
                <| fa_allocated_frames := (fa_allocated_frames a + 1)%Z |> in
    let frame := nth len (fa_free_stack a1) (mkPhysicalFrame 0) in
    (Some frame, update_high_water (record_allocated frame owner a1))
  else allocate_from_ranges (fa_range_count a - fa_next_range a) owner a.

(** [FrameAllocator::allocate]. *)
Definition allocate (a : FrameAllocator) : option PhysicalFrame * FrameAllocator :=
  allocate_owned owner_scratch a.

(** The loop that records the frames of a contiguous block. *)
Fixpoint record_block (start : Z) (index : nat) (left : nat) (owner : FrameOwner) (a : FrameAllocator) :
    FrameAllocator :=
  match left with
  | 0 => a
  | S left' =>
      record_block start (S index) left' owner
        (record_allocated (mkPhysicalFrame (start + Z.of_nat index * FRAME_SIZE)) owner a)
  end.

(** The loop of [allocate_contiguous_owned] over the ranges that are left. *)
Fixpoint allocate_block (fuel : nat) (frame_count : Z) (owner : FrameOwner) (a : FrameAllocator) :
    option PhysicalFrame * FrameAllocator :=
  match fuel with
  | 0 => (None, count_failed_allocation a)
  | S fuel' =>
      let range := nth (fa_next_range a) (fa_ranges a) range_empty in
      match checked_mul frame_count FRAME_SIZE with
      | None => (None, count_failed_allocation a)
      | Some bytes =>
          match checked_add (fr_next range) bytes with
          | None => (None, count_failed_allocation a)
          | Some end_ =>
              if (end_ <=? fr_end range)%Z then
                let frame := mkPhysicalFrame (fr_next range) in
                let a1 := a <| fa_ranges := <[fa_next_range a := range <| fr_next := end_ |> ]>
                                             (fa_ranges a) |>
                            <| fa_allocated_frames := (fa_allocated_frames a + frame_count)%Z |> in
                (Some frame,
                 update_high_water (record_block (fr_next range) 0 (Z.to_nat frame_count) owner a1))
              else allocate_block fuel' frame_count owner (a <| fa_next_range := S (fa_next_range a) |>)
          end
      end
  end.

(** [FrameAllocator::allocate_contiguous_owned]; [usize::try_from] of a [u64]
    succeeds on the 64-bit target. *)
Definition allocate_contiguous_owned (frame_count : Z) (owner : FrameOwner) (a : FrameAllocator) :
    option PhysicalFrame * FrameAllocator :=
  if (frame_count =? 0)%Z then (None, count_failed_allocation a)
  else if (Z.of_nat (length (fa_records a) - fa_record_count a) <? frame_count)%Z
  then (None, count_failed_allocation a)
  else allocate_block (fa_range_count a - fa_next_range a) frame_count owner a.

(** [FrameAllocator::set_owner]. *)
Definition set_owner (frame : PhysicalFrame) (owner : FrameOwner) : M FrameAllocator FreeError unit := λ a,
  if negb (frame_start frame mod FRAME_SIZE =? 0)%Z then (Err UnalignedFrame, a)
  else if negb (contains a frame) then (Err OutsideUsableRanges, a)
  else match record_index a frame with
       | None => (Err UnallocatedFrame, a)
       | Some index =>
           (Ok tt, a <| fa_records ::=
                      alter (fmap (λ record : FrameRecord, record <| rec_owner := owner |>)) index |>)
       end.

(** [FrameAllocator::owner_of]. *)
Definition owner_of (a : FrameAllocator) (frame : PhysicalFrame) : option FrameOwner :=
  match record_index a frame with
  | Some index => rec_owner <$> nth index (fa_records a) None
  | None => None
  end.

(** [FrameAllocator::free_with_owner]. *)
Definition free_with_owner (frame : PhysicalFrame) (expected_owner : option FrameOwner) :
    M FrameAllocator FreeError unit := λ a,
  if negb (frame_start frame mod FRAME_SIZE =? 0)%Z then (Err UnalignedFrame, a)
  else if negb (contains a frame) then (Err OutsideUsableRanges, a)
  else match record_index a frame with
       | None => (Err UnallocatedFrame, a)
       | Some index =>
           if match expected_owner with
              | Some expected =>
                  match nth index (fa_records a) None with
                  | Some record => negb (bool_decide (rec_owner record = expected))
                  | None => true
                  end
              | None => false
              end then (Err WrongOwner, a)
           else if fa_free_stack_len a =? length (fa_free_stack a) then (Err FreeStackFull, a)
           else
             let a1 := a <| fa_free_stack := <[fa_free_stack_len a := frame]> (fa_free_stack a) |>
                         <| fa_free_stack_len := S (fa_free_stack_len a) |> in
             let a2 := remove_record index a1 in
             (Ok tt, a2 <| fa_allocated_frames := sat_sub (fa_allocated_frames a2) 1 |>
                        <| fa_reclaimed_frames := sat_add (fa_reclaimed_frames a2) 1 |>)
       end.

(** [FrameAllocator::free]. *)
Definition free (frame : PhysicalFrame) : M FrameAllocator FreeError unit := free_with_owner frame None.
(** [FrameAllocator::free_owned]. *)
Definition free_owned (frame : PhysicalFrame) (expected_owner : FrameOwner) :
    M FrameAllocator FreeError unit := free_with_owner frame (Some expected_owner).

Definition has_kind (k : FrameOwnerKind) (slot : option FrameRecord) : bool :=
  match slot with Some record => bool_decide (owner_kind (rec_owner record) = k) | None => false end.

(** [FrameAllocator::stats]. *)
Definition frame_stats (a : FrameAllocator) : AllocatorStats :=
  let count k := count_upto (has_kind k) (fa_records a) (fa_record_count a) in
  mkAllocatorStats (fa_range_count a) (fa_total_frames a) (fa_allocated_frames a)
    (sat_sub (fa_total_frames a) (fa_allocated_frames a)) (fa_free_stack_len a)
    (fa_reclaimed_frames a) (fa_high_water_frames a) (fa_failed_allocations a)
    (count OkKernel) (count OkPageTable) (count OkProcessMemory) (count OkDma) (count OkScratch)
    (fa_record_count a).
