(* ===== verification/FrameProofs.v ===== *)
(** The frame allocator refines a list of free frames and a map of owners: no frame
    is handed out while it is in use, a frame returns to the pool only with the
    consent of its owner, and no frame is lost except by a contiguous request that
    skips a range. *)

From S2P Require Import Prelude Frames.

(** * The abstract state *)

(** The ranges in use, the recycled frames and the records in use. *)
Definition live_ranges (a : FrameAllocator) : list FrameRange := take (fa_range_count a) (fa_ranges a).
Definition recycled (a : FrameAllocator) : list Z :=
  frame_start <$> take (fa_free_stack_len a) (fa_free_stack a).
Definition ledger (a : FrameAllocator) : list FrameRecord :=
  omap id (take (fa_record_count a) (fa_records a)).

Definition record_pair (r : FrameRecord) : Z * FrameOwner := (frame_start (rec_frame r), rec_owner r).
Definition in_use (a : FrameAllocator) : list Z := (record_pair <$> ledger a).*1.

(** The owner of every frame in use. *)
Definition owners (a : FrameAllocator) : gmap Z FrameOwner := list_to_map (record_pair <$> ledger a).

(** [n] frames from [start] on. *)
Definition frames_from (start : Z) (n : nat) : list Z :=
  (λ k, start + Z.of_nat k * FRAME_SIZE)%Z <$> seq 0 n.

(** The frames of a range that were never handed out. *)
Definition unused (r : FrameRange) : list Z :=
  frames_from (fr_next r) (Z.to_nat ((fr_end r - fr_next r) / FRAME_SIZE)).

(** The frames an allocation can still return, in the order in which it returns
    them. *)
Definition pool (a : FrameAllocator) : list Z :=
  reverse (recycled a) ++ mjoin (unused <$> drop (fa_next_range a) (live_ranges a)).

(** * The invariant *)

(** Physical addresses have at most 52 bits on this architecture. *)
Definition PHYSICAL_LIMIT : Z := 0x10000000000000.

Record range_ok (r : FrameRange) : Prop := mk_range_ok {
  ro_bounds : (0 ≤ fr_start r ≤ fr_next r)%Z ∧ (fr_next r ≤ fr_end r ≤ PHYSICAL_LIMIT)%Z;
  ro_start : (FRAME_SIZE | fr_start r)%Z;
  ro_next : (FRAME_SIZE | fr_next r)%Z;
  ro_end : (FRAME_SIZE | fr_end r)%Z
}.

Definition ranges_apart (r s : FrameRange) : Prop := (fr_end r ≤ fr_start s ∨ fr_end s ≤ fr_start r)%Z.

(** How many frames of a range were handed out so far. *)
Definition handed (r : FrameRange) : Z := ((fr_next r - fr_start r) / FRAME_SIZE)%Z.
Definition zsum (l : list Z) : Z := foldr Z.add 0%Z l.

(** The invariant while the frames [p] are handed out and not yet recorded. *)
Record frames_inv (p : list Z) (a : FrameAllocator) : Prop := mk_frames_inv {
  fw_ranges : length (fa_ranges a) = MAX_RANGES;
  fw_range_count : fa_range_count a ≤ MAX_RANGES;
  fw_stack : length (fa_free_stack a) = FREE_STACK_CAPACITY;
  fw_stack_len : fa_free_stack_len a ≤ FREE_STACK_CAPACITY;
  fw_records : length (fa_records a) = MAX_FRAME_RECORDS;
  fw_record_count : fa_record_count a + length p ≤ MAX_FRAME_RECORDS;
  fw_ledger : take (fa_record_count a) (fa_records a) = Some <$> ledger a;
  fw_range_ok i r : live_ranges a !! i = Some r → range_ok r;
  fw_apart i j r s : live_ranges a !! i = Some r → live_ranges a !! j = Some s → i ≠ j → ranges_apart r s;
  fw_nodup : NoDup (p ++ in_use a ++ recycled a);
  fw_handed x : x ∈ p ++ in_use a ++ recycled a →
    (FRAME_SIZE | x)%Z ∧ ∃ i r, live_ranges a !! i = Some r ∧ (fr_start r ≤ x < fr_next r)%Z;
  fw_allocated : fa_allocated_frames a = Z.of_nat (fa_record_count a + length p);
  fw_total : fa_total_frames a = zsum (frame_count <$> live_ranges a);
  fw_count : zsum (handed <$> live_ranges a) =
             Z.of_nat (length p + fa_record_count a + fa_free_stack_len a)
}.

(** Between two operations nothing is pending, and the high-water mark is current. *)
Definition frames_wf (a : FrameAllocator) : Prop :=
  frames_inv [] a ∧ (fa_allocated_frames a ≤ fa_high_water_frames a ≤ Z.of_nat MAX_FRAME_RECORDS)%Z.

(** * Generic facts *)

Lemma take_push {A} (l : list A) n x : n < length l → take (S n) (<[n := x]> l) = take n l ++ [x].
Proof.
  intros Hn. rewrite (take_S_r _ _ x) by (by apply list_lookup_insert_eq).
  by rewrite take_insert_ge.
Qed.

Lemma omap_id_some {A} (l : list A) : omap id (Some <$> l) = l.
Proof. induction l as [|x l IH]; [done|]. cbn. by f_equal. Qed.

Lemma length_frames_from s n : length (frames_from s n) = n.
Proof. unfold frames_from. by rewrite length_fmap, length_seq. Qed.

Lemma elem_of_frames_from s n x :
  x ∈ frames_from s n ↔ ∃ k, k < n ∧ x = (s + Z.of_nat k * FRAME_SIZE)%Z.
Proof.
  unfold frames_from. rewrite list_elem_of_fmap. setoid_rewrite elem_of_seq. naive_solver lia.
Qed.

Lemma frames_from_S s n : frames_from s (S n) = s :: frames_from (s + FRAME_SIZE) n.
Proof.
  unfold frames_from. cbn [seq fmap list_fmap]. f_equal; [unfold FRAME_SIZE; lia|].
  rewrite <-fmap_S_seq, <-list_fmap_compose. apply list_fmap_ext. intros _ k _. cbn. lia.
Qed.

Lemma frames_from_app s n m :
  frames_from s (n + m) = frames_from s n ++ frames_from (s + Z.of_nat n * FRAME_SIZE) m.
Proof.
  revert s. induction n as [|n IH]; intros s; cbn [plus].
  - by rewrite Z.mul_0_l, Z.add_0_r.
  - rewrite !frames_from_S, IH. cbn [app]. do 2 f_equal.
    replace (s + FRAME_SIZE + Z.of_nat n * FRAME_SIZE)%Z with (s + Z.of_nat (S n) * FRAME_SIZE)%Z by lia.
    done.
Qed.

Lemma NoDup_frames_from s n : NoDup (frames_from s n).
Proof. apply NoDup_fmap_2; [|apply NoDup_seq]. intros i j H. unfold FRAME_SIZE in H. cbn beta in H. lia. Qed.

Lemma zsum_app l k : zsum (l ++ k) = (zsum l + zsum k)%Z.
Proof. unfold zsum. induction l as [|x l IH]; cbn; [done|]. by rewrite IH, Z.add_assoc. Qed.

Lemma zsum_insert {A} (f : A → Z) (l : list A) i x y :
  l !! i = Some x → zsum (f <$> <[i := y]> l) = (zsum (f <$> l) - f x + f y)%Z.
Proof.
  unfold zsum. revert i. induction l as [|z l IH]; intros [|i] H; [done..| |]; cbn [foldr fmap list_fmap].
  - injection H as ->. cbn. lia.
  - change (f z + foldr Z.add 0 (f <$> <[i := y]> l) = f z + foldr Z.add 0 (f <$> l) - f x + f y)%Z.
    rewrite IH by done. lia.
Qed.

(** * Reading the fields *)

Lemma fm_aligned x : (x mod FRAME_SIZE =? 0)%Z = true ↔ (FRAME_SIZE | x)%Z.
Proof. rewrite Z.eqb_eq. apply Z.mod_divide. done. Qed.

Lemma range_div r : range_ok r → ∃ n, (fr_end r - fr_next r = Z.of_nat n * FRAME_SIZE)%Z ∧
  unused r = frames_from (fr_next r) n.
Proof.
  intros [Hb _ [n1 H1] [n2 H2]]. exists (Z.to_nat ((fr_end r - fr_next r) / FRAME_SIZE)).
  split; [|done]. rewrite H1, H2, <-Z.mul_sub_distr_r, Z.div_mul by done.
  unfold FRAME_SIZE in *. rewrite Z2Nat.id; lia.
Qed.

Lemma elem_of_unused r x :
  range_ok r → x ∈ unused r ↔ (FRAME_SIZE | x)%Z ∧ (fr_next r ≤ x < fr_end r)%Z.
Proof.
  intros Hr. destruct (range_div r Hr) as (n & Hn & ->). destruct Hr as [_ _ [m Hm] _].
  rewrite elem_of_frames_from. split.
  - intros (k & Hk & ->). unfold FRAME_SIZE in *. split; [|lia].
    exists (m + Z.of_nat k)%Z. lia.
  - intros [[j Hj] Hx]. unfold FRAME_SIZE in *. exists (Z.to_nat (j - m)). lia.
Qed.

Section wf.
Context (p : list Z) (a : FrameAllocator).
Hypothesis Hwf : frames_inv p a.

Lemma length_ledger : length (ledger a) = fa_record_count a.
Proof using Hwf.
  rewrite <-(length_fmap Some), <-(fw_ledger p) by done. rewrite length_take.
  destruct Hwf. lia.
Qed.

Lemma length_in_use : length (in_use a) = fa_record_count a.
Proof using Hwf. unfold in_use. by rewrite !length_fmap, length_ledger. Qed.

Lemma length_recycled : length (recycled a) = fa_free_stack_len a.
Proof using Hwf. unfold recycled. rewrite length_fmap, length_take. destruct Hwf. lia. Qed.

Lemma length_live_ranges : length (live_ranges a) = fa_range_count a.
Proof using Hwf. unfold live_ranges. rewrite length_take. destruct Hwf. lia. Qed.

Lemma NoDup_in_use : NoDup (in_use a).
Proof using Hwf. pose proof (fw_nodup p a Hwf) as H. apply NoDup_app in H as (_ & _ & H). by apply NoDup_app in H as (? & _). Qed.

Lemma owners_Some x o : owners a !! x = Some o ↔ ∃ r, r ∈ ledger a ∧ record_pair r = (x, o).
Proof using Hwf.
  unfold owners. rewrite <-elem_of_list_to_map by apply NoDup_in_use.
  rewrite list_elem_of_fmap. naive_solver.
Qed.

Lemma owners_None x : owners a !! x = None ↔ x ∉ in_use a.
Proof using. unfold owners, in_use. by rewrite <-not_elem_of_list_to_map. Qed.

Lemma owners_in_use x : is_Some (owners a !! x) ↔ x ∈ in_use a.
Proof using.
  destruct (decide (x ∈ in_use a)) as [H|H].
  - split; [done|]. intros _. apply not_eq_None_Some. intros Hn%owners_None. done.
  - split; [|done]. intros [o Ho]. apply owners_None in H. congruence.
Qed.

Lemma record_lookup i : i < fa_record_count a →
  ∃ r, fa_records a !! i = Some (Some r) ∧ ledger a !! i = Some r.
Proof using Hwf.
  intros Hi. destruct (lookup_lt_is_Some_2 (ledger a) i) as [r Hr]; [by rewrite length_ledger|].
  exists r. split; [|done]. rewrite <-(lookup_take_lt _ _ _ Hi), (fw_ledger p) by done.
  by rewrite list_lookup_fmap, Hr.
Qed.

Lemma record_index_Some f i : record_index a f = Some i →
  ∃ r, i < fa_record_count a ∧ fa_records a !! i = Some (Some r) ∧ ledger a !! i = Some r ∧
       rec_frame r = f.
Proof using Hwf.
  unfold record_index. intros (Hi & (s & Hs & Hp) & _)%first_index_Some.
  destruct (record_lookup i Hi) as (r & Hr & Hl). simplify_eq. exists r.
  split_and!; [done..|]. unfold is_record_of in Hp. destruct (rec_frame r), f. cbn in Hp. f_equal. lia.
Qed.

Lemma record_index_None f : record_index a f = None ↔ owners a !! frame_start f = None.
Proof using Hwf.
  unfold record_index. rewrite first_index_None, owners_None. unfold in_use. split.
  - intros H (kv & Hp & (r & -> & Hin)%list_elem_of_fmap)%list_elem_of_fmap.
    apply list_elem_of_lookup in Hin as [j Hj]. apply lookup_lt_Some in Hj as Hlt.
    rewrite length_ledger in Hlt. destruct (record_lookup j Hlt) as (r' & Hr & Hl). simplify_eq.
    specialize (H j _ Hlt Hr). unfold is_record_of in H. cbn in *. lia.
  - intros H j s Hj Hs. destruct (record_lookup j Hj) as (r & Hr & Hl). simplify_eq. cbn.
    apply Z.eqb_neq. intros Heq. apply H, list_elem_of_fmap.
    exists (record_pair r). split; [done|]. apply list_elem_of_fmap. exists r. split; [done|].
    by eapply list_elem_of_lookup_2.
Qed.

(** [owner_of] reads the map. *)
Lemma owner_of_owners f : owner_of a f = owners a !! frame_start f.
Proof using Hwf.
  unfold owner_of. destruct (record_index a f) as [i|] eqn:Hi.
  - apply record_index_Some in Hi as (r & Hlt & Hr & Hl & <-).
    rewrite (nth_lookup_Some _ _ _ _ Hr). cbn. symmetry. apply owners_Some.
    exists r. split; [by eapply list_elem_of_lookup_2|done].
  - symmetry. by apply record_index_None.
Qed.

(** Frames in use and frames in the pool lie in the usable ranges. *)
Lemma in_use_contained x : x ∈ p ++ in_use a ++ recycled a → contains a (mkPhysicalFrame x) = true.
Proof using Hwf.
  intros Hx. apply (fw_handed p) in Hx as ([n Hn] & i & r & Hi & Hr); [|done].
  pose proof (fw_range_ok p a Hwf i r Hi) as [Hb _ [m Hm] [k Hk]].
  unfold contains. destruct (first_index _ _ _) eqn:Hf; [done|].
  apply lookup_take_Some in Hi as [Hi Hlt].
  pose proof (proj1 (first_index_None _ _ _) Hf i r Hlt Hi) as Hc. unfold range_contains in Hc.
  assert (x + FRAME_SIZE ≤ fr_end r)%Z by (unfold FRAME_SIZE in *; lia).
  unfold checked_add in Hc. cbn [frame_start] in Hc.
  rewrite (proj2 (Z.leb_le (x + FRAME_SIZE) u64_max)) in Hc by (unfold PHYSICAL_LIMIT, u64_max in *; lia).
  apply andb_false_iff in Hc as [Hc|Hc]; apply Z.leb_gt in Hc; lia.
Qed.
End wf.

(** * Handing out frames *)

Lemma ledger_record p x o a :
  frames_inv (x :: p) a →
  ledger (record_allocated (mkPhysicalFrame x) o a) =
  ledger a ++ [mkFrameRecord (mkPhysicalFrame x) o].
Proof.
  intros Hwf. unfold ledger, record_allocated; cbn.
  rewrite take_push; [|rewrite (fw_records _ _ Hwf); pose proof (fw_record_count _ _ Hwf); cbn in *; lia].
  by rewrite omap_app.
Qed.

Lemma owners_record p x o a :
  frames_inv (x :: p) a →
  owners (record_allocated (mkPhysicalFrame x) o a) = <[x := o]> (owners a) ∧ owners a !! x = None.
Proof.
  intros Hwf. assert (Hx : x ∉ in_use a).
  { pose proof (fw_nodup _ _ Hwf) as [Hx _]%NoDup_cons. intros H. apply Hx. rewrite !elem_of_app. auto. }
  split; [|by apply owners_None]. unfold owners. rewrite (ledger_record p) by done.
  rewrite fmap_app. by apply list_to_map_snoc.
Qed.

Lemma record_inv p x o a :
  frames_inv (x :: p) a → frames_inv p (record_allocated (mkPhysicalFrame x) o a).
Proof.
  intros Hwf. pose proof (ledger_record p x o a Hwf) as Hl.
  assert (Huse : in_use (record_allocated (mkPhysicalFrame x) o a) = in_use a ++ [x]).
  { unfold in_use. rewrite Hl, !fmap_app. done. }
  assert (Hperm : p ++ (in_use a ++ [x]) ++ recycled a ≡ₚ (x :: p) ++ in_use a ++ recycled a).
  { solve_Permutation. }
  destruct Hwf. constructor; cbn -[ledger in_use recycled live_ranges] in *; try done; try lia.
  - by rewrite length_insert.
  - rewrite take_push, fw_ledger0, Hl, fmap_app by lia. done.
  - rewrite Huse. unfold recycled; cbn. fold (recycled a). by rewrite Hperm.
  - intros y. rewrite Huse. unfold recycled; cbn. fold (recycled a).
    rewrite Hperm. apply fw_handed0.
  - change (live_ranges (record_allocated _ o a)) with (live_ranges a). lia.
Qed.

(** Taking the top of the stack of recycled frames. *)
Lemma pop_inv a :
  frames_inv [] a → 0 < fa_free_stack_len a → fa_record_count a < MAX_FRAME_RECORDS →
  let len := fa_free_stack_len a - 1 in
  let a1 := a <| fa_free_stack_len := len |>
              <| fa_allocated_frames := (fa_allocated_frames a + 1)%Z |> in
  let x := frame_start (nth len (fa_free_stack a) (mkPhysicalFrame 0)) in
  recycled a = recycled a1 ++ [x] ∧ frames_inv [x] a1.
Proof.
  intros Hwf Hlen Hcount len a1 x.
  destruct (lookup_lt_is_Some_2 (fa_free_stack a) len) as [f Hf].
  { rewrite (fw_stack _ _ Hwf). pose proof (fw_stack_len _ _ Hwf). lia. }
  assert (Hx : x = frame_start f) by (unfold x; by rewrite (nth_lookup_Some _ _ _ _ Hf)).
  assert (Hrec : recycled a = recycled a1 ++ [x]).
  { unfold recycled, a1; cbn. rewrite Hx. change [frame_start f] with (frame_start <$> [f]).
    rewrite <-fmap_app, <-take_S_r by done. do 2 f_equal. lia. }
  split; [done|].
  assert (Hperm : [x] ++ in_use a ++ recycled a1 ≡ₚ in_use a ++ recycled a).
  { rewrite Hrec. solve_Permutation. }
  clear Hx. clearbody x. destruct Hwf.
  constructor; try done; cbn -[ledger in_use recycled live_ranges] in *; try lia.
  - change (in_use a1) with (in_use a). by rewrite Hperm.
  - intros y. change (in_use a1) with (in_use a). rewrite Hperm. apply fw_handed0.
  - change (live_ranges a1) with (live_ranges a). rewrite fw_count0. lia.
Qed.

(** Taking [n] frames from the front of the current range. *)
Definition advance (n : nat) (r : FrameRange) (a : FrameAllocator) : FrameAllocator :=
  a <| fa_ranges := <[fa_next_range a := r <| fr_next := (fr_next r + Z.of_nat n * FRAME_SIZE)%Z |> ]>
                      (fa_ranges a) |>
    <| fa_allocated_frames := (fa_allocated_frames a + Z.of_nat n)%Z |>.

Section advance.
Context (a : FrameAllocator) (n : nat) (r : FrameRange).
Hypothesis Hwf : frames_inv [] a.
Hypothesis Hr : live_ranges a !! fa_next_range a = Some r.
Hypothesis Hfit : (fr_next r + Z.of_nat n * FRAME_SIZE ≤ fr_end r)%Z.

Let r' : FrameRange := r <| fr_next := (fr_next r + Z.of_nat n * FRAME_SIZE)%Z |>.

Lemma advance_live : live_ranges (advance n r a) = <[fa_next_range a := r']> (live_ranges a).
Proof using Hr.
  unfold live_ranges, advance; cbn. rewrite take_insert_lt; [done|].
  by apply lookup_take_Some in Hr as [_ Hlt].
Qed.

Lemma advance_range_ok : range_ok r'.
Proof using Hwf Hr Hfit.
  destruct (fw_range_ok _ _ Hwf _ _ Hr) as [Hb Hs Hn He]. constructor; cbn.
  - unfold FRAME_SIZE in *. lia.
  - done.
  - apply Z.divide_add_r; [done|apply Z.divide_factor_r].
  - done.
Qed.

Lemma advance_unused : unused r = frames_from (fr_next r) n ++ unused r'.
Proof using Hwf Hr Hfit.
  destruct (range_div r (fw_range_ok _ _ Hwf _ _ Hr)) as (m & Hm & ->).
  destruct (range_div r' advance_range_ok) as (m' & Hm' & ->). cbn in *.
  rewrite <-frames_from_app. f_equal. unfold FRAME_SIZE in *. lia.
Qed.

Lemma advance_lookup i s :
  live_ranges (advance n r a) !! i = Some s →
  ∃ s0, live_ranges a !! i = Some s0 ∧ range_ok s ∧ fr_start s = fr_start s0 ∧
        fr_end s = fr_end s0 ∧ (fr_next s0 ≤ fr_next s)%Z.
Proof using Hwf Hr Hfit.
  rewrite advance_live. destruct (decide (i = fa_next_range a)) as [->|Hne].
  - rewrite list_lookup_insert_eq by (by eapply lookup_lt_Some). intros [= <-]. exists r.
    split_and!; [done|apply advance_range_ok|done|done|]. cbn. unfold FRAME_SIZE. lia.
  - rewrite list_lookup_insert_ne by done. intros Hs. exists s.
    split_and!; [done|by eapply fw_range_ok|done|done|lia].
Qed.

Lemma advance_handed :
  zsum (handed <$> live_ranges (advance n r a)) = (zsum (handed <$> live_ranges a) + Z.of_nat n)%Z.
Proof using Hwf Hr.
  rewrite advance_live, (zsum_insert _ _ _ r) by done.
  enough (handed r' = handed r + Z.of_nat n)%Z by lia. unfold handed; cbn.
  replace (fr_next r + Z.of_nat n * FRAME_SIZE - fr_start r)%Z
    with (fr_next r - fr_start r + Z.of_nat n * FRAME_SIZE)%Z by lia.
  by apply Z.div_add.
Qed.

Lemma advance_total : zsum (frame_count <$> live_ranges (advance n r a)) = zsum (frame_count <$> live_ranges a).
Proof using Hr. rewrite advance_live, (zsum_insert _ _ _ r) by done. cbn. unfold frame_count; cbn. lia. Qed.

(** Frames from the front of the range were not handed out before. *)
Lemma advance_fresh x y :
  x ∈ frames_from (fr_next r) n → y ∈ in_use a ++ recycled a → x ≠ y.
Proof using Hwf Hr Hfit.
  intros (k & Hk & Hx)%elem_of_frames_from Hy <-.
  destruct (fw_handed _ _ Hwf _ Hy) as (_ & i & s & Hi & Hs).
  pose proof (fw_range_ok _ _ Hwf _ _ Hr) as [Hb _ _ _].
  pose proof (fw_range_ok _ _ Hwf _ _ Hi) as [Hb' _ _ _].
  destruct (decide (i = fa_next_range a)) as [->|Hne]; [simplify_eq; unfold FRAME_SIZE in *; lia|].
  pose proof (fw_apart _ _ Hwf _ _ _ _ Hi Hr Hne) as [?|?]; unfold FRAME_SIZE in *; lia.
Qed.

Lemma advance_inv :
  fa_record_count a + n ≤ MAX_FRAME_RECORDS → frames_inv (frames_from (fr_next r) n) (advance n r a).
Proof using Hwf Hr Hfit.
  intros Hcount. pose proof advance_fresh as Hfresh. pose proof advance_lookup as Hlook.
  pose proof advance_handed as Hh. pose proof advance_total as Ht.
  pose proof (fw_range_ok _ _ Hwf _ _ Hr) as [Hb _ [m Hm] _].
  assert (Hn : length (frames_from (fr_next r) n) = n) by apply length_frames_from.
  destruct Hwf. constructor; rewrite ?Hn; try done;
    cbn -[ledger in_use recycled live_ranges frames_from] in *; try lia.
  - by rewrite length_insert.
  - intros i s Hi. by apply Hlook in Hi as (s0 & _ & ? & _).
  - intros i j s t Hi Hj Hne. apply Hlook in Hi as (s0 & Hi & _ & H1 & H2 & _).
    apply Hlook in Hj as (t0 & Hj & _ & H3 & H4 & _). unfold ranges_apart. rewrite H1, H2, H3, H4.
    by apply (fw_apart0 i j).
  - apply NoDup_app. split; [apply NoDup_frames_from|]. split; [|done].
    intros x Hx Hy. by apply (Hfresh x x).
  - intros x [Hx|Hx]%elem_of_app.
    + apply elem_of_frames_from in Hx as (k & Hk & ->). split.
      { rewrite Hm, <-Z.mul_add_distr_r. apply Z.divide_factor_r. }
      exists (fa_next_range a), r'. rewrite advance_live, list_lookup_insert_eq by (by eapply lookup_lt_Some).
      split; [done|]. cbn. unfold FRAME_SIZE in *. lia.
    + destruct (fw_handed0 x Hx) as (Hd & i & s & Hi & Hs). split; [done|].
      destruct (decide (i = fa_next_range a)) as [->|Hne].
      * exists (fa_next_range a), r'. rewrite advance_live, list_lookup_insert_eq by (by eapply lookup_lt_Some).
        split; [done|]. simplify_eq. cbn. unfold FRAME_SIZE in *. lia.
      * exists i, s. by rewrite advance_live, list_lookup_insert_ne by done.
Qed.
End advance.

(** * The specification *)

(** The usable ranges, the recycled frames (the next one first), the frames of each
    range that were never used, and the owners. *)
Record FrameSpec := mkFrameSpec {
  sp_usable : list (Z * Z);
  sp_recycled : list Z;
  sp_fresh : list (list Z);
  sp_owners : gmap Z FrameOwner
}.

Definition frame_view (a : FrameAllocator) : FrameSpec :=
  mkFrameSpec ((λ r, (fr_start r, fr_end r)) <$> live_ranges a) (reverse (recycled a))
    (unused <$> drop (fa_next_range a) (live_ranges a)) (owners a).

Inductive FrameOp :=
| OpAllocate (owner : FrameOwner)
| OpContiguous (count : Z) (owner : FrameOwner)
| OpFree (frame : Z) (expected : option FrameOwner)
| OpSetOwner (frame : Z) (owner : FrameOwner).

Inductive FrameOut := OutFrame (frame : option Z) | OutResult (r : Result FreeError unit).

(** The allocator: every public operation. *)
Definition frame_step (op : FrameOp) (a : FrameAllocator) : FrameOut * FrameAllocator :=
  match op with
  | OpAllocate o => let '(f, a') := allocate_owned o a in (OutFrame (frame_start <$> f), a')
  | OpContiguous n o =>
      let '(f, a') := allocate_contiguous_owned n o a in (OutFrame (frame_start <$> f), a')
  | OpFree x e => let '(r, a') := free_with_owner (mkPhysicalFrame x) e a in (OutResult r, a')
  | OpSetOwner x o => let '(r, a') := set_owner (mkPhysicalFrame x) o a in (OutResult r, a')
  end.

(** The first frame of the first range that has one left. *)
Fixpoint take_frame (fresh : list (list Z)) : option Z * list (list Z) :=
  match fresh with
  | [] => (None, [])
  | [] :: rest => take_frame rest
  | (x :: l) :: rest => (Some x, l :: rest)
  end.

(** [n] frames of the first range that has as many left; ranges that have less are
    dropped. *)
Fixpoint take_run (n : nat) (fresh : list (list Z)) : option Z * list (list Z) :=
  match fresh with
  | [] => (None, [])
  | l :: rest => if decide (n ≤ length l) then (head l, drop n l :: rest) else take_run n rest
  end.

(** All of the frames [l] get the owner [o]. *)
Definition grant_all (l : list Z) (o : FrameOwner) (m : gmap Z FrameOwner) : gmap Z FrameOwner :=
  foldl (λ m x, <[x := o]> m) m l.

Definition usable (s : FrameSpec) (x : Z) : bool :=
  existsb (λ '(b, e), (b <=? x)%Z && (x + FRAME_SIZE <=? e)%Z) (sp_usable s).

(** What a caller that wants to change the owner of a frame, or to free it, must
    satisfy. *)
Definition owned_check (s : FrameSpec) (x : Z) : Result FreeError FrameOwner :=
  if negb (x mod FRAME_SIZE =? 0)%Z then Err UnalignedFrame
  else if negb (usable s x) then Err OutsideUsableRanges
  else ok_or (sp_owners s !! x) UnallocatedFrame.

Definition spec_step (op : FrameOp) (s : FrameSpec) : FrameOut * FrameSpec :=
  match op with
  | OpAllocate o =>
      if decide (size (sp_owners s) = MAX_FRAME_RECORDS) then (OutFrame None, s)
      else match sp_recycled s with
           | x :: rest =>
               (OutFrame (Some x),
                mkFrameSpec (sp_usable s) rest (sp_fresh s) (<[x := o]> (sp_owners s)))
           | [] =>
               let '(f, fresh) := take_frame (sp_fresh s) in
               (OutFrame f,
                mkFrameSpec (sp_usable s) [] fresh
                  (match f with Some x => <[x := o]> (sp_owners s) | None => sp_owners s end))
           end
  | OpContiguous n o =>
      if decide (n = 0%Z ∨ (Z.of_nat (MAX_FRAME_RECORDS - size (sp_owners s)) < n)%Z) then (OutFrame None, s)
      else
        let '(f, fresh) := take_run (Z.to_nat n) (sp_fresh s) in
        (OutFrame f,
         mkFrameSpec (sp_usable s) (sp_recycled s) fresh
           (match f with
            | Some x => grant_all (frames_from x (Z.to_nat n)) o (sp_owners s)
            | None => sp_owners s
            end))
  | OpFree x e =>
      match owned_check s x with
      | Err err => (OutResult (Err err), s)
      | Ok o =>
          if decide (e ≠ None ∧ e ≠ Some o)
          then (OutResult (Err WrongOwner), s)
          else if decide (length (sp_recycled s) = FREE_STACK_CAPACITY)
          then (OutResult (Err FreeStackFull), s)
          else (OutResult (Ok tt),
                mkFrameSpec (sp_usable s) (x :: sp_recycled s) (sp_fresh s) (delete x (sp_owners s)))
      end
  | OpSetOwner x o =>
      match owned_check s x with
      | Err err => (OutResult (Err err), s)
      | Ok _ =>
          (OutResult (Ok tt),
           mkFrameSpec (sp_usable s) (sp_recycled s) (sp_fresh s) (<[x := o]> (sp_owners s)))
      end
  end.

(** * Each operation refines its specification *)

Section view.
Context (a : FrameAllocator).
Hypothesis Hwf : frames_inv [] a.

Lemma size_owners : size (owners a) = fa_record_count a.
Proof using Hwf.
  unfold owners. rewrite <-length_map_to_list, map_to_list_to_map by (by eapply NoDup_in_use).
  by rewrite length_fmap, (length_ledger []).
Qed.

Lemma contains_usable x : contains a (mkPhysicalFrame x) = usable (frame_view a) x.
Proof using Hwf.
  unfold contains, usable; cbn [frame_view sp_usable].
  destruct (existsb _ _) eqn:He.
  - apply existsb_exists in He as ([b e] & Hin%list_elem_of_In & Hbe).
    apply list_elem_of_fmap in Hin as (r & [= -> ->] & Hin).
    apply list_elem_of_lookup in Hin as [i Hi].
    pose proof (fw_range_ok _ _ Hwf _ _ Hi) as [Hb _ _ _].
    apply lookup_take_Some in Hi as [Hi Hlt]. destruct (first_index _ _ _) eqn:Hf; [done|].
    pose proof (proj1 (first_index_None _ _ _) Hf i r Hlt Hi) as Hc.
    apply andb_true_iff in Hbe as [H1%Z.leb_le H2%Z.leb_le].
    unfold range_contains, checked_add in Hc. cbn [frame_start] in Hc.
    rewrite (proj2 (Z.leb_le (x + FRAME_SIZE) u64_max)) in Hc by (unfold PHYSICAL_LIMIT, u64_max in *; lia).
    apply andb_false_iff in Hc as [Hc|Hc]; apply Z.leb_gt in Hc; lia.
  - destruct (first_index _ _ _) as [i|] eqn:Hf; [|done].
    apply first_index_Some in Hf as (Hlt & (r & Hr & Hc) & _).
    unfold range_contains in Hc. destruct (checked_add _ _) as [e|] eqn:Hadd; [|done].
    unfold checked_add in Hadd. case_match; [|done]. simplify_eq.
    rewrite <-not_true_iff_false in He. exfalso. apply He, existsb_exists.
    exists (fr_start r, fr_end r). split; [|done]. apply list_elem_of_In, list_elem_of_fmap.
    exists r. split; [done|]. apply list_elem_of_lookup. exists i.
    unfold live_ranges. by rewrite lookup_take_lt.
Qed.

Lemma fresh_current r :
  live_ranges a !! fa_next_range a = Some r →
  sp_fresh (frame_view a) = unused r :: (unused <$> drop (S (fa_next_range a)) (live_ranges a)).
Proof using. intros Hr. cbn. by rewrite (drop_S _ _ _ Hr). Qed.

Lemma nth_range r d :
  live_ranges a !! fa_next_range a = Some r → nth (fa_next_range a) (fa_ranges a) d = r.
Proof using. intros [Hr _]%lookup_take_Some. by apply nth_lookup_Some. Qed.
End view.

Lemma wf_high_water a :
  frames_inv [] a → (fa_high_water_frames a ≤ Z.of_nat MAX_FRAME_RECORDS)%Z →
  frames_wf (update_high_water a) ∧ frame_view (update_high_water a) = frame_view a.
Proof.
  intros Hwf Hh. pose proof (fw_allocated _ _ Hwf). pose proof (fw_record_count _ _ Hwf).
  unfold update_high_water. destruct (Z.ltb_spec (fa_high_water_frames a) (fa_allocated_frames a)).
  - split; [|done]. split; [by destruct Hwf|]. cbn in *. lia.
  - split; [|done]. split; [done|]. lia.
Qed.

Lemma failed_wf a : frames_wf a →
  frames_wf (count_failed_allocation a) ∧ frame_view (count_failed_allocation a) = frame_view a.
Proof. intros [[] ?]. split; [|done]. by split. Qed.

Lemma skip_wf n a : frames_wf a → frames_wf (a <| fa_next_range := n |>).
Proof. intros [[] ?]. by split. Qed.

Lemma view_record p x o a :
  frames_inv (x :: p) a →
  frame_view (record_allocated (mkPhysicalFrame x) o a) =
  mkFrameSpec (sp_usable (frame_view a)) (sp_recycled (frame_view a)) (sp_fresh (frame_view a))
    (<[x := o]> (sp_owners (frame_view a))).
Proof. intros Hwf. unfold frame_view. by rewrite (proj1 (owners_record p x o a Hwf)). Qed.

Lemma high_record f o a :
  fa_high_water_frames (record_allocated f o a) = fa_high_water_frames a.
Proof. done. Qed.

Lemma view_advance n r a :
  frames_inv [] a → live_ranges a !! fa_next_range a = Some r →
  (fr_next r + Z.of_nat n * FRAME_SIZE ≤ fr_end r)%Z →
  frame_view (advance n r a) =
  mkFrameSpec (sp_usable (frame_view a)) (sp_recycled (frame_view a))
    (drop n (unused r) :: (unused <$> drop (S (fa_next_range a)) (live_ranges a))) (owners a).
Proof.
  intros Hwf Hr Hfit. unfold frame_view. rewrite (advance_live a n r Hr).
  cbn [sp_usable sp_recycled]. f_equal.
  - rewrite list_fmap_insert. apply list_insert_id. by rewrite list_lookup_fmap, Hr.
  - cbn [advance fa_next_range set eta_FrameAllocator]. 
    rewrite (drop_S _ (r <| fr_next := (fr_next r + Z.of_nat n * FRAME_SIZE)%Z |>)).
    2: { by rewrite list_lookup_insert_eq by (by eapply lookup_lt_Some). }
    rewrite drop_insert_lt by lia. cbn [fmap list_fmap]. f_equal.
    rewrite (advance_unused a n r Hwf Hr Hfit). rewrite drop_app_length'; [done|].
    by rewrite length_frames_from.
Qed.

(** The current range is exhausted exactly when none of its frames is unused. *)
Lemma exhausted r : range_ok r → (fr_next r <? fr_end r)%Z = false → unused r = [].
Proof.
  intros Hr Hlt%Z.ltb_ge. destruct (range_div r Hr) as (n & Hn & ->). destruct Hr as [Hb _ _ _].
  assert (n = 0) as -> by (unfold FRAME_SIZE in *; lia). done.
Qed.

Lemma live_range_current a : frames_inv [] a → fa_next_range a < fa_range_count a →
  ∃ r, live_ranges a !! fa_next_range a = Some r.
Proof. intros Hwf Hlt. apply lookup_lt_is_Some_2. by rewrite (length_live_ranges []). Qed.

Lemma no_more_ranges a : frames_inv [] a → fa_range_count a - fa_next_range a = 0 →
  sp_fresh (frame_view a) = [].
Proof.
  intros Hwf H. cbn. rewrite drop_ge; [done|]. rewrite (length_live_ranges []) by done. lia.
Qed.

Lemma range_fits r n : range_ok r →
  n ≤ length (unused r) ↔ (fr_next r + Z.of_nat n * FRAME_SIZE ≤ fr_end r)%Z.
Proof.
  intros Hr. destruct (range_div r Hr) as (m & Hm & ->). rewrite length_frames_from.
  unfold FRAME_SIZE in *. lia.
Qed.

(** What an allocation of frames that were never used does to the specification. *)
Definition spec_fresh (s : FrameSpec) (n : nat) (o : FrameOwner) (t : option Z * list (list Z)) : FrameSpec :=
  mkFrameSpec (sp_usable s) (sp_recycled s) t.2
    (match t.1 with Some x => grant_all (frames_from x n) o (sp_owners s) | None => sp_owners s end).

Lemma allocate_from_ranges_refines fuel o a :
  frames_wf a → fa_record_count a < MAX_FRAME_RECORDS → fuel = fa_range_count a - fa_next_range a →
  let '(f, a') := allocate_from_ranges fuel o a in
  frames_wf a' ∧ frame_start <$> f = (take_frame (sp_fresh (frame_view a))).1 ∧
  frame_view a' = spec_fresh (frame_view a) 1 o (take_frame (sp_fresh (frame_view a))).
Proof.
  revert a. induction fuel as [|fuel IH]; intros a Hwf Hcount Hfuel; cbn [allocate_from_ranges].
  { rewrite no_more_ranges by (lia || by apply Hwf). destruct (failed_wf a Hwf) as [? Hv].
    split_and!; [done..|]. rewrite Hv. unfold spec_fresh. cbn [take_frame fst snd].
    rewrite <-(no_more_ranges a) by (lia || by apply Hwf). done. }
  destruct (live_range_current a) as [r Hr]; [by apply Hwf|lia|].
  rewrite (nth_range a r) by done. pose proof (fw_range_ok _ _ (proj1 Hwf) _ _ Hr) as Hok.
  rewrite (fresh_current a r Hr). destruct (fr_next r <? fr_end r)%Z eqn:Hlt.
  - assert (Hfit : (fr_next r + Z.of_nat 1 * FRAME_SIZE ≤ fr_end r)%Z).
    { apply Z.ltb_lt in Hlt. destruct Hok as [? _ [n ?] [m ?]]. unfold FRAME_SIZE in *. lia. }
    assert (Hu : unused r = fr_next r :: drop 1 (unused r)).
    { rewrite (advance_unused a 1 r (proj1 Hwf) Hr Hfit), frames_from_S. done. }
    pose proof (advance_inv a 1 r (proj1 Hwf) Hr Hfit ltac:(lia)) as Hinv.
    rewrite frames_from_S in Hinv. cbn [frames_from seq fmap list_fmap] in Hinv.
    pose proof (record_inv _ _ o _ Hinv) as Hrec.
    destruct (wf_high_water _ Hrec) as [Hw Hv]; [apply Hwf|].
    replace (a <| fa_ranges := <[fa_next_range a:=r <| fr_next := (fr_next r + FRAME_SIZE)%Z |> ]> (fa_ranges a) |>
               <| fa_allocated_frames := (fa_allocated_frames a + 1)%Z |>) with (advance 1 r a)
      by (unfold advance; by rewrite Z.mul_1_l).
    split; [done|]. rewrite Hu. cbn [take_frame fst snd]. split; [done|].
    rewrite Hv, (view_record [] _ _ _ Hinv), (view_advance 1 r a (proj1 Hwf) Hr Hfit).
    unfold spec_fresh. cbn [fst snd]. by rewrite frames_from_S.
  - rewrite (exhausted r) by done. cbn [take_frame].
    specialize (IH (a <| fa_next_range := S (fa_next_range a) |>) (skip_wf _ _ Hwf) Hcount).
    destruct (allocate_from_ranges _ _ _) as [f a']. apply IH. cbn. lia.
Qed.

Lemma allocate_refines o a :
  frames_wf a → let '(out, a') := frame_step (OpAllocate o) a in
  frames_wf a' ∧ spec_step (OpAllocate o) (frame_view a) = (out, frame_view a').
Proof.
  intros Hwf. cbn [frame_step spec_step]. unfold allocate_owned.
  rewrite (fw_records _ _ (proj1 Hwf)). change (sp_owners (frame_view a)) with (owners a).
  rewrite size_owners by apply Hwf. pose proof (fw_record_count _ _ (proj1 Hwf)) as Hle.
  destruct (Nat.eqb_spec (fa_record_count a) MAX_FRAME_RECORDS) as [Hfull|Hfull].
  { rewrite decide_True by done. destruct (failed_wf a Hwf) as [? Hv]. by rewrite Hv. }
  rewrite decide_False by done. destruct (Nat.ltb_spec 0 (fa_free_stack_len a)) as [Hlen|Hlen].
  - destruct (pop_inv a (proj1 Hwf) Hlen ltac:(cbn in *; lia)) as [Hrec Hinv].
    set (x := nth _ _ _) in *.
    pose proof (record_inv _ _ o _ Hinv) as Hinv'. destruct x as [x]. cbn [frame_start] in *.
    destruct (wf_high_water _ Hinv') as [Hw Hv]; [apply Hwf|]. split; [done|].
    rewrite Hv, (view_record [] _ _ _ Hinv). unfold frame_view at 1; cbn [sp_recycled].
    rewrite Hrec, reverse_app. done.
  - pose proof (allocate_from_ranges_refines _ o a Hwf ltac:(cbn in *; lia) eq_refl) as H.
    destruct (allocate_from_ranges _ _ _) as [f a']. destruct H as (Hw & Hf & Hv). split; [done|].
    assert (Hnil : sp_recycled (frame_view a) = []).
    { cbn. apply length_zero_iff_nil. rewrite length_reverse, (length_recycled []) by apply Hwf. lia. }
    rewrite Hnil. destruct (take_frame _) as [y fresh]. cbn [fst snd] in *. rewrite Hv, Hf.
    unfold spec_fresh. rewrite Hnil. destruct y; [|done]. cbn [fst snd]. by rewrite frames_from_S.
Qed.

Lemma record_block_refines o n : ∀ start index p a,
  frames_inv (frames_from (start + Z.of_nat index * FRAME_SIZE) n ++ p) a →
  frames_inv p (record_block start index n o a) ∧
  fa_high_water_frames (record_block start index n o a) = fa_high_water_frames a ∧
  frame_view (record_block start index n o a) =
  mkFrameSpec (sp_usable (frame_view a)) (sp_recycled (frame_view a)) (sp_fresh (frame_view a))
    (grant_all (frames_from (start + Z.of_nat index * FRAME_SIZE) n) o (owners a)).
Proof.
  induction n as [|n IH]; intros start index p a Hinv; cbn [record_block]; [done|].
  rewrite frames_from_S in Hinv |- *. cbn [app] in Hinv.
  replace (start + Z.of_nat index * FRAME_SIZE + FRAME_SIZE)%Z
    with (start + Z.of_nat (S index) * FRAME_SIZE)%Z in * by lia.
  pose proof (view_record _ _ o _ Hinv) as Hv. pose proof (record_inv _ _ o _ Hinv) as Hinv'.
  destruct (IH _ _ _ _ Hinv') as (H1 & H2 & H3). split_and!; [done..|].
  rewrite H3, Hv. cbn [grant_all foldl sp_usable sp_recycled sp_fresh].
  by rewrite (proj1 (owners_record _ _ o _ Hinv)).
Qed.

Lemma allocate_block_refines fuel n o a :
  frames_wf a → 0 < n → fa_record_count a + n ≤ MAX_FRAME_RECORDS →
  fuel = fa_range_count a - fa_next_range a →
  let '(f, a') := allocate_block fuel (Z.of_nat n) o a in
  frames_wf a' ∧ frame_start <$> f = (take_run n (sp_fresh (frame_view a))).1 ∧
  frame_view a' = spec_fresh (frame_view a) n o (take_run n (sp_fresh (frame_view a))).
Proof.
  revert a. induction fuel as [|fuel IH]; intros a Hwf Hn Hcount Hfuel; cbn [allocate_block].
  { rewrite no_more_ranges by (lia || by apply Hwf). destruct (failed_wf a Hwf) as [? Hv].
    split_and!; [done..|]. rewrite Hv. unfold spec_fresh. cbn [take_run fst snd].
    rewrite <-(no_more_ranges a) by (lia || by apply Hwf). done. }
  destruct (live_range_current a) as [r Hr]; [by apply Hwf|lia|].
  rewrite (nth_range a r) by done. pose proof (fw_range_ok _ _ (proj1 Hwf) _ _ Hr) as Hok.
  rewrite (fresh_current a r Hr). cbn [take_run].
  assert (Hmax : (Z.of_nat n ≤ 16384)%Z) by (unfold MAX_FRAME_RECORDS in Hcount; lia).
  assert (Hmul : checked_mul (Z.of_nat n) FRAME_SIZE = Some (Z.of_nat n * FRAME_SIZE)%Z).
  { unfold checked_mul. rewrite (proj2 (Z.leb_le _ _)); [done|]. unfold FRAME_SIZE, u64_max. lia. }
  assert (Hadd : checked_add (fr_next r) (Z.of_nat n * FRAME_SIZE) = Some (fr_next r + Z.of_nat n * FRAME_SIZE)%Z).
  { unfold checked_add. rewrite (proj2 (Z.leb_le _ _)); [done|]. destruct Hok as [Hb _ _ _].
    unfold FRAME_SIZE, u64_max, PHYSICAL_LIMIT in *. lia. }
  rewrite Hmul, Hadd. pose proof (range_fits r n Hok) as Hfits.
  destruct (Z.leb_spec (fr_next r + Z.of_nat n * FRAME_SIZE) (fr_end r)) as [Hfit|Hfit].
  - rewrite decide_True by (by apply Hfits).
    pose proof (advance_inv a n r (proj1 Hwf) Hr Hfit ltac:(cbn in *; lia)) as Hinv.
    rewrite <-(Z.add_0_r (fr_next r)), <-(app_nil_r (frames_from _ n)) in Hinv.
    destruct (record_block_refines o n (fr_next r) 0 [] (advance n r a)) as (H1 & H2 & H3).
    { by rewrite Z.mul_0_l. }
    rewrite Nat2Z.id. destruct (wf_high_water _ H1) as [Hw Hv]; [rewrite H2; apply Hwf|].
    assert (Hu : unused r = frames_from (fr_next r) n ++ drop n (unused r)).
    { rewrite (advance_unused a n r (proj1 Hwf) Hr Hfit) at 1. f_equal.
      rewrite (advance_unused a n r (proj1 Hwf) Hr Hfit), drop_app_length'; [done|].
      by rewrite length_frames_from. }
    split; [done|]. cbn [fst snd]. split.
    { rewrite Hu. destruct n as [|n]; [lia|]. by rewrite frames_from_S. }
    fold (advance n r a). rewrite Hv, H3, (view_advance n r a (proj1 Hwf) Hr Hfit).
    unfold spec_fresh. cbn [fst snd sp_usable sp_recycled sp_fresh]. f_equal.
    replace (head (unused r)) with (Some (fr_next r)).
    + by rewrite Z.mul_0_l, Z.add_0_r.
    + rewrite Hu. destruct n as [|n]; [lia|]. by rewrite frames_from_S.
  - rewrite decide_False by (intros H%Hfits; lia).
    specialize (IH (a <| fa_next_range := S (fa_next_range a) |>) (skip_wf _ _ Hwf) Hn Hcount).
    destruct (allocate_block _ _ _ _) as [f a']. apply IH. cbn. lia.
Qed.

Lemma contiguous_refines n o a :
  frames_wf a → (0 ≤ n)%Z → let '(out, a') := frame_step (OpContiguous n o) a in
  frames_wf a' ∧ spec_step (OpContiguous n o) (frame_view a) = (out, frame_view a').
Proof.
  intros Hwf Hn. cbn [frame_step spec_step]. unfold allocate_contiguous_owned.
  rewrite (fw_records _ _ (proj1 Hwf)). change (sp_owners (frame_view a)) with (owners a).
  rewrite size_owners by apply Hwf. pose proof (fw_record_count _ _ (proj1 Hwf)) as Hle.
  cbn [length] in Hle. destruct (failed_wf a Hwf) as [Hfw Hv].
  destruct (Z.eqb_spec n 0) as [->|Hne]; [rewrite decide_True by auto; by rewrite Hv|].
  destruct (Z.ltb_spec (Z.of_nat (MAX_FRAME_RECORDS - fa_record_count a)) n) as [Hlt|Hge].
  { rewrite decide_True by auto. by rewrite Hv. }
  rewrite decide_False by lia.
  pose proof (allocate_block_refines _ (Z.to_nat n) o a Hwf ltac:(lia) ltac:(lia) eq_refl) as H.
  rewrite Z2Nat.id in H by done.
  destruct (allocate_block _ _ _ _) as [f a']. destruct H as (Hw & Hf & Hv'). split; [done|].
  destruct (take_run _ _) as [y fresh]. cbn [fst snd] in *. by rewrite Hv', Hf.
Qed.

(** * Returning frames *)

Lemma remove_perm (l : list (option FrameRecord)) n i (lg : list FrameRecord) r :
  n ≤ length l → take n l = Some <$> lg → lg !! i = Some r → i < n →
  ∃ lg', take (n - 1) (<[n - 1 := None]> (<[i := nth (n - 1) l None]> l)) = Some <$> lg' ∧
         lg ≡ₚ r :: lg'.
Proof.
  intros Hn Htake Hi Hlt. assert (Hlen : length lg = n).
  { rewrite <-(length_fmap Some), <-Htake, length_take. lia. }
  destruct (lookup_lt_is_Some_2 lg (n - 1)) as [z Hz]; [lia|].
  assert (Hlz : l !! (n - 1) = Some (Some z)).
  { rewrite <-(lookup_take_lt _ n) by lia. by rewrite Htake, list_lookup_fmap, Hz. }
  rewrite (nth_lookup_Some _ _ _ _ Hlz). rewrite take_insert_ge by lia.
  assert (Hsnoc : lg = take (n - 1) lg ++ [z]).
  { rewrite <-(take_S_r _ _ _ Hz). replace (S (n - 1)) with n by lia. by rewrite <-Hlen, firstn_all. }
  assert (Htake' : take (n - 1) l = Some <$> take (n - 1) lg).
  { rewrite fmap_take, <-Htake, take_take. f_equal. lia. }
  destruct (decide (i = n - 1)) as [->|Hne].
  - rewrite take_insert_ge by lia. exists (take (n - 1) lg). split; [done|]. simplify_eq.
    rewrite Hsnoc at 1. solve_Permutation.
  - exists (<[i := z]> (take (n - 1) lg)). rewrite take_insert_lt by lia.
    rewrite Htake', list_fmap_insert. split; [done|].
    rewrite Hsnoc at 1.
    assert (Hi' : take (n - 1) lg !! i = Some r) by (rewrite lookup_take_lt by lia; done).
    rewrite insert_take_drop by (by eapply lookup_lt_Some).
    rewrite <-(take_drop_middle _ _ _ Hi') at 1. solve_Permutation.
Qed.

Lemma owned_check_spec a x :
  frames_inv [] a →
  match owned_check (frame_view a) x with
  | Err e =>
      ∀ (E : Type) (k1 k2 k3 : E) (k4 : nat → E),
      (if negb (x mod FRAME_SIZE =? 0)%Z then k1
       else if negb (contains a (mkPhysicalFrame x)) then k2
       else match record_index a (mkPhysicalFrame x) with None => k3 | Some i => k4 i end) =
      match e with UnalignedFrame => k1 | OutsideUsableRanges => k2 | _ => k3 end
  | Ok o =>
      ∃ i r, (negb (x mod FRAME_SIZE =? 0)%Z = false) ∧ contains a (mkPhysicalFrame x) = true ∧
             record_index a (mkPhysicalFrame x) = Some i ∧ i < fa_record_count a ∧
             fa_records a !! i = Some (Some r) ∧ ledger a !! i = Some r ∧ record_pair r = (x, o)
  end.
Proof.
  intros Hwf. unfold owned_check. destruct (x mod FRAME_SIZE =? 0)%Z eqn:Hal; cbn [negb]; [|done].
  rewrite <-contains_usable by done. destruct (contains a _) eqn:Hc; cbn [negb]; [|done].
  change (sp_owners (frame_view a)) with (owners a).
  destruct (record_index a (mkPhysicalFrame x)) as [i|] eqn:Hi.
  - pose proof Hi as Hi'. apply (record_index_Some []) in Hi as (r & Hlt & Hr & Hl & Hf); [|done].
    assert (Ho : owners a !! x = Some (rec_owner r)).
    { apply (owners_Some []); [done|]. exists r. split; [by eapply list_elem_of_lookup_2|].
      unfold record_pair. by rewrite Hf. }
    rewrite Ho. cbn. exists i, r. split_and!; [done..|]. unfold record_pair. by rewrite Hf.
  - apply (record_index_None []) in Hi; [|done]. cbn in Hi. by rewrite Hi.
Qed.

Lemma owned_check_errors s x e : owned_check s x = Err e →
  e = UnalignedFrame ∨ e = OutsideUsableRanges ∨ e = UnallocatedFrame.
Proof. unfold owned_check, ok_or. repeat case_match; naive_solver. Qed.

(** The state after frame [x] went from record [i] to the stack. *)
Definition released (x : Z) (i : nat) (a : FrameAllocator) : FrameAllocator :=
  let a2 := remove_record i
    (a <| fa_free_stack := <[fa_free_stack_len a := mkPhysicalFrame x]> (fa_free_stack a) |>
       <| fa_free_stack_len := S (fa_free_stack_len a) |>) in
  a2 <| fa_allocated_frames := sat_sub (fa_allocated_frames a2) 1 |>
     <| fa_reclaimed_frames := sat_add (fa_reclaimed_frames a2) 1 |>.

Section released.
Context (a : FrameAllocator) (x : Z) (i : nat) (r : FrameRecord) (o : FrameOwner).
Hypothesis Hwf : frames_wf a.
Hypothesis Hlt : i < fa_record_count a.
Hypothesis Hledger : ledger a !! i = Some r.
Hypothesis Hpair : record_pair r = (x, o).
Hypothesis Hroom : fa_free_stack_len a < FREE_STACK_CAPACITY.

Lemma released_ledger :
  take (fa_record_count (released x i a)) (fa_records (released x i a)) = Some <$> ledger (released x i a) ∧
  ledger a ≡ₚ r :: ledger (released x i a).
Proof using Hwf Hlt Hledger Hroom.
  destruct (remove_perm (fa_records a) (fa_record_count a) i (ledger a) r) as (lg & Htake & Hperm).
  - destruct Hwf as [[] _]. cbn in *. lia.
  - by apply (fw_ledger [] a), Hwf.
  - done.
  - done.
  - assert (ledger (released x i a) = lg) as ->.
    { unfold ledger, released, remove_record; cbn. rewrite Htake. apply omap_id_some. }
    done.
Qed.

Lemma released_recycled : recycled (released x i a) = recycled a ++ [x].
Proof using Hwf Hlt Hroom.
  unfold recycled, released, remove_record; cbn.
  rewrite take_push by (rewrite (fw_stack _ _ (proj1 Hwf)); lia). by rewrite fmap_app.
Qed.

Lemma released_in_use : in_use a ≡ₚ x :: in_use (released x i a).
Proof using Hwf Hlt Hledger Hpair Hroom.
  unfold in_use. rewrite (proj2 released_ledger). rewrite !fmap_cons, Hpair. done.
Qed.

Lemma released_owners : owners (released x i a) = delete x (owners a).
Proof using Hwf Hlt Hledger Hpair Hroom.
  pose proof released_in_use as Huse. pose proof (NoDup_in_use [] a (proj1 Hwf)) as Hnd.
  assert (Hx : x ∉ in_use (released x i a)).
  { rewrite Huse in Hnd. by apply NoDup_cons in Hnd as [? _]. }
  unfold owners. rewrite (list_to_map_proper (record_pair <$> ledger a) ((x, o) :: (record_pair <$> ledger (released x i a)))).
  - cbn. rewrite delete_insert_id; [done|]. by apply not_elem_of_list_to_map.
  - done.
  - rewrite (proj2 released_ledger), fmap_cons, Hpair. done.
Qed.

Lemma released_wf : frames_wf (released x i a).
Proof using Hwf Hlt Hledger Hpair Hroom.
  assert (Hperm : in_use (released x i a) ++ recycled (released x i a) ≡ₚ in_use a ++ recycled a).
  { rewrite released_recycled, released_in_use. solve_Permutation. }
  pose proof (proj1 released_ledger) as Hl. destruct Hwf as [[] Hh].
  assert (Hal : fa_allocated_frames (released x i a) = Z.of_nat (fa_record_count a - 1)).
  { cbn in *. rewrite fw_allocated0. unfold sat_sub. lia. }
  split; [|rewrite Hal; cbn in *; lia].
  constructor; try done; try (rewrite Hperm); try done; cbn -[recycled in_use live_ranges ledger] in *; try lia.
  - by rewrite length_insert.
  - by rewrite !length_insert.
  - intros y. rewrite Hperm. apply fw_handed0.
  - change (live_ranges (released x i a)) with (live_ranges a). lia.
Qed.

Lemma released_view :
  frame_view (released x i a) =
  mkFrameSpec (sp_usable (frame_view a)) (x :: sp_recycled (frame_view a)) (sp_fresh (frame_view a))
    (delete x (owners a)).
Proof using Hwf Hlt Hledger Hpair Hroom.
  unfold frame_view. rewrite released_owners, released_recycled, reverse_app. done.
Qed.
End released.

Lemma free_refines x e a :
  frames_wf a → let '(out, a') := frame_step (OpFree x e) a in
  frames_wf a' ∧ spec_step (OpFree x e) (frame_view a) = (out, frame_view a').
Proof.
  intros Hwf. cbn [frame_step spec_step]. unfold free_with_owner.
  pose proof (owned_check_spec a x (proj1 Hwf)) as Hc. cbn [frame_start].
  destruct (owned_check (frame_view a) x) as [o|err] eqn:Hchk.
  - destruct Hc as (i & r & -> & -> & -> & Hlt & Hr & Hl & Hpair). cbn [negb].
    rewrite (nth_lookup_Some _ _ _ _ Hr).
    assert (Ho : rec_owner r = o) by (unfold record_pair in Hpair; congruence). rewrite Ho.
    assert (Hb : (match e with Some expected => negb (bool_decide (o = expected)) | None => false end)
                 = bool_decide (e ≠ None ∧ e ≠ Some o)).
    { destruct e as [e|]; [|rewrite bool_decide_eq_false_2; naive_solver].
      repeat case_bool_decide; naive_solver. }
    rewrite Hb. destruct (decide (e ≠ None ∧ e ≠ Some o)) as [Hne|Hne].
    { by rewrite bool_decide_eq_true_2. }
    rewrite bool_decide_eq_false_2 by done.
    assert (Hlen : length (sp_recycled (frame_view a)) = fa_free_stack_len a).
    { cbn. rewrite length_reverse. by apply (length_recycled []), Hwf. }
    rewrite Hlen, (fw_stack _ _ (proj1 Hwf)).
    destruct (Nat.eqb_spec (fa_free_stack_len a) FREE_STACK_CAPACITY) as [Hf|Hf].
    { by rewrite decide_True. }
    rewrite decide_False by done. fold (released x i a).
    assert (fa_free_stack_len a < FREE_STACK_CAPACITY) by (pose proof (fw_stack_len _ _ (proj1 Hwf)); lia).
    split; [by eapply released_wf|]. by erewrite released_view.
  - rewrite Hc. apply owned_check_errors in Hchk as [->|[->| ->]]; done.
Qed.

Lemma list_to_map_replace (l : list (Z * FrameOwner)) i x o o' :
  NoDup l.*1 → l !! i = Some (x, o') →
  (list_to_map (<[i := (x, o)]> l) : gmap Z FrameOwner) = <[x := o]> (list_to_map l).
Proof.
  intros Hnd Hi. set (rest := take i l ++ drop (S i) l).
  assert (Hl : l ≡ₚ (x, o') :: rest).
  { rewrite <-(take_drop_middle _ _ _ Hi) at 1. unfold rest. solve_Permutation. }
  rewrite (list_to_map_proper l ((x, o') :: rest)) by done.
  rewrite (list_to_map_proper (<[i := (x, o)]> l) ((x, o) :: rest)).
  - cbn. by rewrite insert_insert_eq.
  - rewrite list_fmap_insert. rewrite list_insert_id; [done|]. by rewrite list_lookup_fmap, Hi.
  - rewrite insert_take_drop by (by eapply lookup_lt_Some). unfold rest. solve_Permutation.
Qed.

Lemma set_owner_refines x o a :
  frames_wf a → let '(out, a') := frame_step (OpSetOwner x o) a in
  frames_wf a' ∧ spec_step (OpSetOwner x o) (frame_view a) = (out, frame_view a').
Proof.
  intros Hwf. cbn [frame_step spec_step]. unfold set_owner.
  pose proof (owned_check_spec a x (proj1 Hwf)) as Hc. cbn [frame_start].
  destruct (owned_check (frame_view a) x) as [o'|err] eqn:Hchk.
  - destruct Hc as (i & r & -> & -> & -> & Hlt & Hr & Hl & Hpair). cbn [negb].
    set (a' := a <| fa_records ::= _ |>).
    set (g := λ record : FrameRecord, record <| rec_owner := o |>) in *.
    assert (Hled : take (fa_record_count a) (fa_records a') = Some <$> alter g i (ledger a)).
    { unfold a'; cbn. rewrite (list_fmap_alter Some g (fmap g)) by (by apply Forall_true).
      rewrite <-(fw_ledger [] a) by apply Hwf. apply list_eq. intros j.
      destruct (decide (j < fa_record_count a)) as [Hj|Hj].
      - rewrite lookup_take_lt by done. destruct (decide (i = j)) as [->|Hij].
        + by rewrite !list_lookup_alter_eq, lookup_take_lt.
        + by rewrite !list_lookup_alter_ne, lookup_take_lt by done.
      - rewrite lookup_take_ge by lia. symmetry. apply lookup_ge_None_2.
        rewrite length_alter, length_take. lia. }
    assert (Hl' : ledger a' = <[i := g r]> (ledger a)).
    { unfold ledger at 1. change (fa_record_count a') with (fa_record_count a).
      rewrite Hled, omap_id_some. apply list_eq. intros j. destruct (decide (i = j)) as [<-|Hij].
      - rewrite list_lookup_alter_eq, Hl, list_lookup_insert_eq by (by eapply lookup_lt_Some). done.
      - by rewrite list_lookup_alter_ne, list_lookup_insert_ne by done. }
    assert (Huse : in_use a' = in_use a).
    { unfold in_use. rewrite Hl', !list_fmap_insert. apply list_insert_id.
      rewrite !list_lookup_fmap, Hl. done. }
    split.
    + destruct Hwf as [[] Hh]. split; [|done]. constructor; rewrite ?Huse; try done.
      * cbn. by rewrite length_alter.
      * change (fa_record_count a') with (fa_record_count a).
        rewrite Hled, <-(omap_id_some (alter g i (ledger a))), <-Hled. done.
    + unfold frame_view. do 2 f_equal. unfold owners. rewrite Hl', list_fmap_insert.
      replace (record_pair (g r)) with (x, o) by (unfold record_pair in *; cbn; congruence).
      symmetry. apply (list_to_map_replace _ _ _ _ o').
      * by apply (NoDup_in_use []), Hwf.
      * by rewrite list_lookup_fmap, Hl, <-Hpair.
  - rewrite Hc. apply owned_check_errors in Hchk as [->|[->| ->]]; done.
Qed.

(** * Initialisation *)

(** The frames of a usable entry of the memory map. *)
Definition entry_range (e : MemmapEntry) : FrameRange :=
  range_new (align_up (me_base e) FRAME_SIZE) (align_down (sat_add (me_base e) (me_length e)) FRAME_SIZE).

(** What the boot protocol guarantees of the memory map: addresses fit, usable
    entries do not overlap. *)
Record memmap_ok (m : list (option MemmapEntry)) : Prop := mk_memmap_ok {
  mm_entry i e : m !! i = Some (Some e) → (0 ≤ me_base e)%Z ∧ (0 ≤ me_length e)%Z ∧
    (me_base e + me_length e ≤ PHYSICAL_LIMIT)%Z;
  mm_apart i j e f : m !! i = Some (Some e) → m !! j = Some (Some f) → i ≠ j →
    me_type e = MEMMAP_USABLE → me_type f = MEMMAP_USABLE →
    (me_base e + me_length e ≤ me_base f ∨ me_base f + me_length f ≤ me_base e)%Z
}.

Lemma land_not_low v : is_u64 v → Z.land v (not_u64 (FRAME_SIZE - 1)) = (FRAME_SIZE * (v / FRAME_SIZE))%Z.
Proof.
  intros Hv. change (not_u64 (FRAME_SIZE - 1)) with (Z.ldiff (Z.ones 64) (Z.ones 12)).
  rewrite Z.ldiff_land, Z.land_assoc, Z.land_ones by lia.
  rewrite (Z.mod_small v) by (unfold is_u64, u64_max in *; lia).
  rewrite <-Z.ldiff_land, Z.ldiff_ones_r by lia.
  rewrite Z.shiftr_div_pow2, Z.shiftl_mul_pow2 by lia. apply Z.mul_comm.
Qed.

Lemma align_down_spec v : is_u64 v →
  (FRAME_SIZE | align_down v FRAME_SIZE)%Z ∧ (0 ≤ align_down v FRAME_SIZE ≤ v)%Z ∧
  (v < align_down v FRAME_SIZE + FRAME_SIZE)%Z.
Proof.
  intros Hv. unfold align_down. rewrite land_not_low by done.
  pose proof (Z.div_mod v FRAME_SIZE ltac:(done)). pose proof (Z.mod_pos_bound v FRAME_SIZE ltac:(done)).
  split; [apply Z.divide_factor_l|]. unfold is_u64, FRAME_SIZE in *.
  pose proof (Z.div_pos v 4096). lia.
Qed.

Lemma align_up_spec v : (0 ≤ v ≤ PHYSICAL_LIMIT)%Z →
  (FRAME_SIZE | align_up v FRAME_SIZE)%Z ∧ (v ≤ align_up v FRAME_SIZE < v + FRAME_SIZE)%Z.
Proof.
  intros Hv. assert (Hs : sat_add v (FRAME_SIZE - 1) = (v + (FRAME_SIZE - 1))%Z).
  { unfold sat_add, FRAME_SIZE, u64_max, PHYSICAL_LIMIT in *. lia. }
  unfold align_up. rewrite Hs. fold (align_down (v + (FRAME_SIZE - 1)) FRAME_SIZE).
  destruct (align_down_spec (v + (FRAME_SIZE - 1))) as (H1 & H2 & H3).
  { unfold is_u64, u64_max, FRAME_SIZE, PHYSICAL_LIMIT in *. lia. }
  split; [done|]. lia.
Qed.

Lemma entry_range_spec e :
  (0 ≤ me_base e)%Z → (0 ≤ me_length e)%Z → (me_base e + me_length e ≤ PHYSICAL_LIMIT)%Z →
  (fr_start (entry_range e) < fr_end (entry_range e))%Z →
  range_ok (entry_range e) ∧ (me_base e ≤ fr_start (entry_range e))%Z ∧
  (fr_end (entry_range e) ≤ me_base e + me_length e)%Z.
Proof.
  intros Hb Hl Hlim Hlt.
  assert (Hs : sat_add (me_base e) (me_length e) = (me_base e + me_length e)%Z).
  { unfold sat_add, u64_max, PHYSICAL_LIMIT in *. lia. }
  destruct (align_up_spec (me_base e)) as [Hu1 Hu2]; [lia|].
  destruct (align_down_spec (me_base e + me_length e)) as (Hd1 & Hd2 & Hd3).
  { unfold is_u64, u64_max, PHYSICAL_LIMIT in *. lia. }
  unfold entry_range in *; cbn in *. rewrite Hs in *. split; [|lia]. constructor; cbn; [lia|done..].
Qed.

(** The ranges of a memory map, in its order. *)
Definition usable_range (e : option MemmapEntry) : option FrameRange :=
  match e with
  | Some e => if bool_decide (me_type e = MEMMAP_USABLE ∧ (fr_start (entry_range e) < fr_end (entry_range e))%Z)
              then Some (entry_range e) else None
  | None => None
  end.
Definition usable_ranges (m : list (option MemmapEntry)) : list FrameRange := omap usable_range m.

(** An allocator that has handed out nothing, with the ranges of [m]. *)
Record starting (m : list (option MemmapEntry)) (a : FrameAllocator) : Prop := mk_starting {
  st_inv : frames_wf a;
  st_next : fa_next_range a = 0;
  st_stack : fa_free_stack_len a = 0;
  st_records : fa_record_count a = 0;
  st_high : fa_high_water_frames a = 0%Z;
  st_ranges : live_ranges a = usable_ranges m
}.

Lemma usable_range_Some e r : usable_range e = Some r ↔
  ∃ f, e = Some f ∧ me_type f = MEMMAP_USABLE ∧ r = entry_range f ∧
       (fr_start (entry_range f) < fr_end (entry_range f))%Z.
Proof.
  unfold usable_range. destruct e as [f|]; [|naive_solver]. case_bool_decide; naive_solver.
Qed.

(** The entry after a prefix of a valid map starts a range of its own. *)
Lemma usable_apart m e rest r s :
  memmap_ok (m ++ e :: rest) → usable_range e = Some r → s ∈ usable_ranges m →
  range_ok r ∧ ranges_apart s r.
Proof.
  intros Hm (f & -> & Hty & -> & Hlt)%usable_range_Some (x & Hin & Hx)%list_elem_of_omap.
  apply usable_range_Some in Hx as (g & -> & Hty' & -> & Hlt').
  apply list_elem_of_lookup in Hin as [j Hj]. apply lookup_lt_Some in Hj as Hjlt.
  assert (Hj' : (m ++ Some f :: rest) !! j = Some (Some g)) by (by rewrite lookup_app_l).
  assert (Hk : (m ++ Some f :: rest) !! length m = Some (Some f)) by (by apply list_lookup_middle).
  destruct (mm_entry _ Hm _ _ Hk) as (A1 & A2 & A3), (mm_entry _ Hm _ _ Hj') as (B1 & B2 & B3).
  destruct (entry_range_spec f) as (? & ? & ?); [done..|].
  destruct (entry_range_spec g) as (? & ? & ?); [done..|]. split; [done|]. unfold ranges_apart.
  destruct (mm_apart _ Hm _ _ _ _ Hj' Hk ltac:(lia) Hty' Hty); lia.
Qed.

Lemma usable_range_ok m e rest r :
  memmap_ok (m ++ e :: rest) → usable_range e = Some r → range_ok r ∧ handed r = 0%Z.
Proof.
  intros Hm (f & -> & Hty & -> & Hlt)%usable_range_Some.
  assert (Hk : (m ++ Some f :: rest) !! length m = Some (Some f)) by (by apply list_lookup_middle).
  destruct (mm_entry _ Hm _ _ Hk) as (A1 & A2 & A3).
  destruct (entry_range_spec f) as (? & ? & ?); [done..|]. split; [done|].
  unfold handed. cbn. by rewrite Z.sub_diag.
Qed.

Lemma init_entry_spec e a :
  init_entry e a =
  match usable_range e with
  | Some r =>
      if fa_range_count a =? length (fa_ranges a) then (Err TooManyRanges, a)
      else (Ok tt, a <| fa_total_frames := (fa_total_frames a + frame_count r)%Z |>
                     <| fa_ranges := <[fa_range_count a := r]> (fa_ranges a) |>
                     <| fa_range_count := S (fa_range_count a) |>)
  | None => (Ok tt, a)
  end.
Proof.
  unfold init_entry, usable_range. destruct e as [e|]; [|done].
  destruct (Z.eqb_spec (me_type e) MEMMAP_USABLE) as [Ht|Ht]; [|by rewrite bool_decide_eq_false_2 by naive_solver].
  unfold entry_range; cbn [range_new fr_start fr_end].
  destruct (Z.ltb_spec (align_up (me_base e) FRAME_SIZE)
    (align_down (sat_add (me_base e) (me_length e)) FRAME_SIZE)) as [Hlt|Hge].
  - by rewrite bool_decide_eq_true_2.
  - rewrite bool_decide_eq_false_2; [done|]. intros [_ ?]. lia.
Qed.

Lemma starting_range m e rest r a :
  memmap_ok (m ++ e :: rest) → usable_range e = Some r → starting m a →
  fa_range_count a < length (fa_ranges a) →
  starting (m ++ [e])
    (a <| fa_total_frames := (fa_total_frames a + frame_count r)%Z |>
       <| fa_ranges := <[fa_range_count a := r]> (fa_ranges a) |>
       <| fa_range_count := S (fa_range_count a) |>).
Proof.
  intros Hm Hr [[Hwf Hh] Hnext Hstack Hrec Hhigh Hran] Hlt. set (a' := set _ _ _).
  destruct (usable_range_ok m e rest r Hm Hr) as [Hok Hhd].
  assert (Hlive : live_ranges a' = live_ranges a ++ [r]) by (unfold live_ranges; cbn; by apply take_push).
  assert (Hmem : ∀ i s, live_ranges a !! i = Some s → ranges_apart s r).
  { intros i s Hs. eapply (usable_apart m e rest); [done..|].
    rewrite <-Hran. by eapply list_elem_of_lookup_2. }
  assert (Hcase : ∀ i s, live_ranges a' !! i = Some s →
    live_ranges a !! i = Some s ∨ i = length (live_ranges a) ∧ s = r).
  { intros i s. rewrite Hlive. intros [?|[Hi Hs]]%lookup_app_Some; [by left|right].
    destruct (i - length (live_ranges a)) as [|n] eqn:Hsub; [|by destruct n]. cbn in Hs. simplify_eq.
    split; [lia|done]. }
  split; try done.
  - split; [|done]. destruct Hwf. constructor; try done.
    + cbn. by rewrite length_insert.
    + cbn. lia.
    + intros i s [?| [_ ->]]%Hcase; [by eapply fw_range_ok0|done].
    + intros i j s t [Hi|[Hi ->]]%Hcase [Hj|[Hj ->]]%Hcase Hne.
      * by apply (fw_apart0 i j).
      * by eapply Hmem.
      * apply Hmem in Hj. unfold ranges_apart in *. lia.
      * lia.
    + intros y Hy. destruct (fw_handed0 y Hy) as (Hd & i & s & Hi & Hs). split; [done|].
      exists i, s. rewrite Hlive. split; [by apply lookup_app_l_Some|done].
    + rewrite Hlive, fmap_app, zsum_app.
      change (fa_total_frames a') with (fa_total_frames a + frame_count r)%Z. rewrite fw_total0.
      change (zsum (frame_count <$> [r])) with (frame_count r + 0)%Z. lia.
    + rewrite Hlive, fmap_app, zsum_app, fw_count0.
      change (zsum (handed <$> [r])) with (handed r + 0)%Z. rewrite Hhd, Z.add_0_r. done.
  - unfold usable_ranges. rewrite Hlive, Hran, omap_app. cbn. by rewrite Hr.
Qed.

(** What [init_from_limine] makes of a memory map. *)
Definition init_outcome (m : list (option MemmapEntry)) : Result FrameInitError unit :=
  if decide (MAX_RANGES < length (usable_ranges m)) then Err TooManyRanges
  else if decide (usable_ranges m = []) then Err NoUsableFrames else Ok tt.

Lemma init_entries_spec rest : ∀ m a,
  memmap_ok (m ++ rest) → starting m a →
  let '(r, a') := init_entries rest a in
  match r with
  | Ok _ => starting (m ++ rest) a' ∧ length (usable_ranges (m ++ rest)) ≤ MAX_RANGES
  | Err e => e = TooManyRanges ∧ MAX_RANGES < length (usable_ranges (m ++ rest))
  end.
Proof.
  induction rest as [|e rest IH]; intros m a Hm Hst; cbn [init_entries].
  { cbn. rewrite app_nil_r in *. split; [done|]. rewrite <-(st_ranges _ _ Hst).
    rewrite (length_live_ranges []) by apply Hst. apply Hst. }
  assert (Hlen : length (usable_ranges m) = fa_range_count a).
  { rewrite <-(st_ranges _ _ Hst). by apply (length_live_ranges []), Hst. }
  unfold rbind. rewrite init_entry_spec.
  assert (Hm' : memmap_ok ((m ++ [e]) ++ rest)) by (by rewrite <-app_assoc).
  destruct (usable_range e) as [r|] eqn:Hr.
  - destruct (Nat.eqb_spec (fa_range_count a) (length (fa_ranges a))) as [Hf|Hf].
    + split; [done|]. rewrite (fw_ranges _ _ (proj1 (st_inv _ _ Hst))) in Hf.
      unfold usable_ranges in *. rewrite omap_app, length_app. cbn. rewrite Hr. cbn. lia.
    + pose proof (starting_range m e rest r a Hm Hr Hst) as Hst'.
      rewrite (cons_middle e m rest). rewrite app_assoc. apply IH; [done|]. apply Hst'.
      pose proof (fw_range_count _ _ (proj1 (st_inv _ _ Hst))).
      rewrite (fw_ranges _ _ (proj1 (st_inv _ _ Hst))) in *. lia.
  - rewrite (cons_middle e m rest), app_assoc. apply IH; [done|].
    destruct Hst. split; try done. rewrite st_ranges0. unfold usable_ranges. rewrite omap_app. cbn.
    by rewrite Hr, app_nil_r.
Qed.

Lemma starting_total m a : starting m a → fa_total_frames a = 0%Z ↔ usable_ranges m = [].
Proof.
  intros Hst. destruct (st_inv _ _ Hst) as [Hwf _]. rewrite (fw_total _ _ Hwf), (st_ranges _ _ Hst).
  assert (Hpos : ∀ r, r ∈ usable_ranges m → (0 < frame_count r)%Z).
  { intros r Hin. pose proof Hin as Hin'. apply list_elem_of_omap in Hin as (x & _ & (f & -> & _ & -> & Hlt)%usable_range_Some).
    rewrite <-(st_ranges _ _ Hst) in Hin'. apply list_elem_of_lookup in Hin' as [i Hi].
    pose proof (fw_range_ok _ _ Hwf _ _ Hi) as [_ [n Hn] _ [k Hk]]. unfold frame_count.
    apply Z.div_str_pos. unfold FRAME_SIZE in *. lia. }
  clear Hst Hwf. destruct (usable_ranges m) as [|r l]; [done|]. split; [|done]. intros H.
  assert (0 ≤ zsum (frame_count <$> l))%Z.
  { clear H. induction l as [|s l IH]; [done|]. change (0 ≤ frame_count s + zsum (frame_count <$> l))%Z.
    assert (0 ≤ zsum (frame_count <$> l))%Z.
    { apply IH. intros t Ht. apply Hpos. rewrite !elem_of_cons in *. tauto. }
    assert (0 < frame_count s)%Z by (apply Hpos; rewrite !elem_of_cons; auto). lia. }
  change (frame_count r + zsum (frame_count <$> l) = 0)%Z in H.
  assert (0 < frame_count r)%Z by (apply Hpos; rewrite elem_of_cons; auto). lia.
Qed.

Definition fresh_allocator (a : FrameAllocator) : Prop :=
  length (fa_ranges a) = MAX_RANGES ∧ length (fa_free_stack a) = FREE_STACK_CAPACITY ∧
  length (fa_records a) = MAX_FRAME_RECORDS.

Lemma starting_empty a : fresh_allocator a →
  starting [] (a <| fa_range_count := 0 |> <| fa_next_range := 0 |>
    <| fa_free_stack_len := 0 |> <| fa_total_frames := 0%Z |> <| fa_allocated_frames := 0%Z |>
    <| fa_reclaimed_frames := 0%Z |> <| fa_high_water_frames := 0%Z |>
    <| fa_failed_allocations := 0%Z |> <| fa_record_count := 0 |>).
Proof.
  intros (H1 & H2 & H3). split; try done. split; [|cbn; lia].
  constructor; try done; cbn; try lia.
  - apply NoDup_nil_2.
  - intros x Hx. by apply not_elem_of_nil in Hx.
Qed.

Lemma init_from_limine_spec m a :
  fresh_allocator a → memmap_ok m →
  let '(r, a') := init_from_limine m a in
  r = init_outcome m ∧ (r = Ok tt → starting m a').
Proof.
  intros Hfresh Hm. unfold init_from_limine, rbind, rmodify, rget, rguard.
  pose proof (init_entries_spec m [] _ Hm (starting_empty a Hfresh)) as H. cbn [app] in H.
  destruct (init_entries m _) as [[u|e] a'].
  - destruct H as [Hst Hlen]. unfold init_outcome. rewrite decide_False by lia.
    pose proof (starting_total m a' Hst) as Ht.
    destruct (Z.eqb_spec (fa_total_frames a') 0) as [Hz|Hz]; cbn [negb].
    + rewrite decide_True by tauto. done.
    + rewrite decide_False by tauto. done.
  - destruct H as [-> Hlen]. unfold init_outcome. by rewrite decide_True.
Qed.

Lemma frame_allocator_new_fresh : fresh_allocator frame_allocator_new.
Proof. unfold fresh_allocator, frame_allocator_new. cbn [fa_ranges fa_free_stack fa_records]. by rewrite !length_replicate. Qed.

(** * Runs *)

Fixpoint run_frames (ops : list FrameOp) (a : FrameAllocator) : list FrameOut * FrameAllocator :=
  match ops with
  | [] => ([], a)
  | op :: rest =>
      let '(out, a1) := frame_step op a in
      let '(outs, a2) := run_frames rest a1 in (out :: outs, a2)
  end.

Fixpoint run_spec (ops : list FrameOp) (s : FrameSpec) : list FrameOut * FrameSpec :=
  match ops with
  | [] => ([], s)
  | op :: rest =>
      let '(out, s1) := spec_step op s in
      let '(outs, s2) := run_spec rest s1 in (out :: outs, s2)
  end.

(** The specification of a machine with memory map [m]. *)
Definition initial_spec (m : list (option MemmapEntry)) : FrameSpec :=
  mkFrameSpec ((λ r, (fr_start r, fr_end r)) <$> usable_ranges m) [] (unused <$> usable_ranges m) ∅.

(** Counts are unsigned. *)
Definition op_unsigned (op : FrameOp) : Prop :=
  match op with OpContiguous n _ => (0 ≤ n)%Z | _ => True end.

Lemma starting_view m a : starting m a → frame_view a = initial_spec m.
Proof.
  intros []. unfold frame_view, initial_spec, owners, recycled, ledger.
  by rewrite st_ranges0, st_next0, st_stack0, st_records0.
Qed.

Lemma frame_step_refines op a :
  frames_wf a → op_unsigned op → let '(out, a') := frame_step op a in
  frames_wf a' ∧ spec_step op (frame_view a) = (out, frame_view a').
Proof.
  intros Hwf Hop. destruct op; [by apply allocate_refines|by apply contiguous_refines|
    by apply free_refines|by apply set_owner_refines].
Qed.

Lemma run_frames_refines ops : ∀ a,
  frames_wf a → Forall op_unsigned ops →
  frames_wf (run_frames ops a).2 ∧
  run_spec ops (frame_view a) = ((run_frames ops a).1, frame_view (run_frames ops a).2).
Proof.
  induction ops as [|op ops IH]; intros a Hwf Hops; [done|]. cbn [run_frames run_spec].
  apply Forall_cons in Hops as [Hop Hops].
  pose proof (frame_step_refines op a Hwf Hop) as H. destruct (frame_step op a) as [out a1].
  destruct H as [Hwf' ->]. destruct (IH a1 Hwf' Hops) as [H1 H2].
  destruct (run_frames ops a1) as [outs a2]. cbn [fst snd] in *. by rewrite H2.
Qed.

(** The allocators a machine with memory map [m] can reach. *)
Definition boot_allocator (m : list (option MemmapEntry)) : FrameAllocator :=
  (init_from_limine m frame_allocator_new).2.

Lemma boot_allocator_starting m : memmap_ok m → init_outcome m = Ok tt → starting m (boot_allocator m).
Proof.
  intros Hm Ho. pose proof (init_from_limine_spec m _ frame_allocator_new_fresh Hm) as H.
  unfold boot_allocator. destruct (init_from_limine m frame_allocator_new) as [r a].
  destruct H as [-> H]. by apply H.
Qed.

(** C24: the frame allocator refines its specification: on a machine whose memory
    map is valid and has usable memory, every sequence of allocations (single and
    contiguous), releases and changes of owner gives the same results, errors
    included, as the list of free frames and the map of owners that specify it,
    and ends in the state that represents them. *)
Theorem frame_allocator_refines m ops :
  memmap_ok m → init_outcome m = Ok tt → Forall op_unsigned ops →
  run_spec ops (initial_spec m) =
  ((run_frames ops (boot_allocator m)).1, frame_view (run_frames ops (boot_allocator m)).2).
Proof.
  intros Hm Ho Hops. pose proof (boot_allocator_starting m Hm Ho) as Hst.
  rewrite <-(starting_view _ _ Hst). apply run_frames_refines; [apply Hst|done].
Qed.

(** * Ownership *)

(** The frames an operation hands out. *)
Definition handed_out (op : FrameOp) (out : FrameOut) : list Z :=
  match op, out with
  | OpAllocate _, OutFrame (Some x) => [x]
  | OpContiguous n _, OutFrame (Some x) => frames_from x (Z.to_nat n)
  | _, _ => []
  end.

Lemma grant_all_lookup l o m x :
  grant_all l o m !! x = if decide (x ∈ l) then Some o else m !! x.
Proof.
  unfold grant_all. revert m. induction l as [|y l IH]; intros m; cbn [foldl].
  { by rewrite decide_False by apply not_elem_of_nil. }
  rewrite IH. destruct (decide (x ∈ l)) as [Hx|Hx].
  - by rewrite decide_True by (apply elem_of_cons; auto).
  - destruct (decide (x = y)) as [->|Hne].
    + by rewrite lookup_insert_eq, decide_True by (apply elem_of_cons; auto).
    + rewrite lookup_insert_ne, decide_False; [done| |done]. rewrite elem_of_cons. tauto.
Qed.

(** The free frames of a well-formed allocator are not in use. *)
Lemma elem_of_tail a x :
  frames_inv [] a → x ∈ mjoin (sp_fresh (frame_view a)) →
  ∃ i r, live_ranges a !! i = Some r ∧ (FRAME_SIZE | x)%Z ∧ (fr_next r ≤ x < fr_end r)%Z.
Proof.
  intros Hwf (l & Hx & Hl)%list_elem_of_join. cbn in Hl. apply list_elem_of_fmap in Hl as (r & -> & Hl).
  apply list_elem_of_lookup in Hl as [i Hi]. rewrite lookup_drop in Hi.
  exists (fa_next_range a + i), r. split; [done|].
  by apply elem_of_unused in Hx; [|by eapply fw_range_ok].
Qed.

Lemma fresh_not_owned a x :
  frames_inv [] a → x ∈ sp_recycled (frame_view a) ++ mjoin (sp_fresh (frame_view a)) →
  owners a !! x = None ∧ (FRAME_SIZE | x)%Z ∧ contains a (mkPhysicalFrame x) = true.
Proof.
  intros Hwf [Hx|Hx]%elem_of_app.
  - change (x ∈ reverse (recycled a)) in Hx. rewrite elem_of_reverse in Hx.
    pose proof (fw_nodup _ _ Hwf : NoDup (in_use a ++ recycled a)) as (_ & Hd & _)%NoDup_app.
    assert (Hin : x ∈ [] ++ in_use a ++ recycled a) by (rewrite !elem_of_app; auto).
    split_and!; [|exact (proj1 (fw_handed _ _ Hwf x Hin))|by apply (in_use_contained [])].
    apply owners_None. intros H. by apply (Hd x).
  - apply elem_of_tail in Hx as (i & r & Hi & Hal & Hx); [|done].
    pose proof (fw_range_ok _ _ Hwf _ _ Hi) as [Hb [n Hn] [k Hk] [j Hj]]. split_and!; [|done|].
    + apply owners_None. intros Hin.
      destruct (fw_handed _ _ Hwf x) as (_ & i' & r' & Hi' & Hx'); [rewrite !elem_of_app; auto|].
      destruct (decide (i = i')) as [->|Hne]; [simplify_eq; lia|].
      pose proof (fw_range_ok _ _ Hwf _ _ Hi') as [Hb' _ _ _].
      destruct (fw_apart _ _ Hwf _ _ _ _ Hi Hi' Hne); lia.
    + rewrite contains_usable by done. unfold usable. cbn. apply existsb_exists.
      exists (fr_start r, fr_end r). split.
      * apply list_elem_of_In, list_elem_of_fmap. exists r. split; [done|]. by eapply list_elem_of_lookup_2.
      * destruct Hal as [q Hq]. apply andb_true_iff. rewrite !Z.leb_le. unfold FRAME_SIZE in *. lia.
Qed.

Lemma take_frame_mem fresh x fresh' : take_frame fresh = (Some x, fresh') → x ∈ mjoin fresh.
Proof.
  induction fresh as [|[|y l] rest IH]; cbn; [done|..]; [done|].
  intros [= -> <-]. apply elem_of_cons. auto.
Qed.

Lemma take_run_mem n fresh x fresh' :
  0 < n → take_run n fresh = (Some x, fresh') → ∃ l, l ∈ fresh ∧ head l = Some x ∧ n ≤ length l.
Proof.
  intros Hn. induction fresh as [|l rest IH]; cbn; [done|]. case_decide as Hle.
  - intros [= Hh <-]. exists l. rewrite elem_of_cons. auto.
  - intros (k & Hk & ?)%IH. exists k. rewrite elem_of_cons. auto.
Qed.

(** The owner an allocation asks for. *)
Definition op_owner (op : FrameOp) : option FrameOwner :=
  match op with OpAllocate o | OpContiguous _ o => Some o | _ => None end.

Lemma run_in_fresh a n l x :
  frames_inv [] a → l ∈ sp_fresh (frame_view a) → head l = Some x → n ≤ length l →
  ∀ y, y ∈ frames_from x n → y ∈ mjoin (sp_fresh (frame_view a)).
Proof.
  intros Hwf Hl Hh Hn y (k & Hk & ->)%elem_of_frames_from. apply list_elem_of_join. exists l.
  split; [|done]. cbn in Hl. apply list_elem_of_fmap in Hl as (r & -> & Hl).
  apply list_elem_of_lookup in Hl as [i Hi]. rewrite lookup_drop in Hi.
  destruct (range_div r (fw_range_ok _ _ Hwf _ _ Hi)) as (m & Hm & Hu). rewrite Hu in *.
  rewrite length_frames_from in Hn. destruct m as [|m]; [lia|]. rewrite frames_from_S in Hh.
  injection Hh as <-. apply elem_of_frames_from. exists k. split; [lia|done].
Qed.

(** What an operation hands out was free, and is then owned as requested. *)
Lemma handed_out_spec op s out s' a :
  frames_inv [] a → s = frame_view a → op_unsigned op → spec_step op s = (out, s') →
  ∀ x, x ∈ handed_out op out →
  x ∈ sp_recycled s ++ mjoin (sp_fresh s) ∧ sp_owners s' !! x = op_owner op.
Proof.
  intros Hwf -> Hop Hstep x Hx. destruct op as [o|n o| |]; cbn [spec_step] in Hstep.
  - case_decide; [simplify_eq; by apply not_elem_of_nil in Hx|]. destruct (sp_recycled (frame_view a)) as [|y rest] eqn:Hr.
    + destruct (take_frame _) as [[y|] fresh] eqn:Ht; simplify_eq; [|by apply not_elem_of_nil in Hx].
      apply list_elem_of_singleton in Hx as ->. apply take_frame_mem in Ht. split; [done|].
      apply lookup_insert_eq.
    + simplify_eq. apply list_elem_of_singleton in Hx as ->. split; [apply elem_of_cons; auto|].
      apply lookup_insert_eq.
  - case_decide as Hn; [simplify_eq; by apply not_elem_of_nil in Hx|].
    destruct (take_run _ _) as [[y|] fresh] eqn:Ht; simplify_eq; [|by apply not_elem_of_nil in Hx].
    cbn in Hop. apply take_run_mem in Ht as (l & Hl & Hh & Hlen); [|lia]. split.
    + rewrite elem_of_app. right. by eapply run_in_fresh.
    + cbn [sp_owners]. rewrite grant_all_lookup. by rewrite decide_True.
  - cbn in Hx. by apply not_elem_of_nil in Hx.
  - cbn in Hx. by apply not_elem_of_nil in Hx.
Qed.

(** A frame in use loses its owner only by an operation that names it, and by a
    release only with the right owner. *)
Lemma owner_kept op s out s' a x o :
  frames_inv [] a → s = frame_view a → op_unsigned op → spec_step op s = (out, s') →
  sp_owners s !! x = Some o →
  sp_owners s' !! x = Some o ∨ (∃ o', op = OpSetOwner x o') ∨
  (∃ e, op = OpFree x e ∧ (e = None ∨ e = Some o) ∧ out = OutResult (Ok tt)).
Proof.
  intros Hwf Hs Hop Hstep Ho.
  assert (Hout : ∀ y, y ∈ handed_out op out → y ≠ x).
  { intros y Hy ->. destruct (handed_out_spec op s out s' a Hwf Hs Hop Hstep x Hy) as [Hin _].
    subst s. apply fresh_not_owned in Hin as [Hn _]; [|done]. cbn in Ho. congruence. }
  destruct op as [o'|n o'|y e|y o']; cbn [spec_step] in Hstep.
  - left. case_decide; [by simplify_eq|]. destruct (sp_recycled s) as [|z rest].
    + destruct (take_frame _) as [[z|] fresh]; simplify_eq; cbn; [|done].
      rewrite lookup_insert_ne; [done|]. apply Hout. by apply list_elem_of_singleton.
    + simplify_eq. cbn. rewrite lookup_insert_ne; [done|]. apply Hout. by apply list_elem_of_singleton.
  - left. case_decide; [by simplify_eq|]. destruct (take_run _ _) as [[z|] fresh]; simplify_eq; cbn; [|done].
    rewrite grant_all_lookup, decide_False; [done|]. intros Hin. by apply (Hout x).
  - destruct (owned_check s y) as [o'|err] eqn:Hc; [|left; by simplify_eq].
    case_decide as He; [left; by simplify_eq|]. case_decide; [left; by simplify_eq|]. simplify_eq. cbn.
    destruct (decide (y = x)) as [->|Hne]; [|left; by rewrite lookup_delete_ne].
    right; right. exists e. split; [done|]. split; [|done].
    unfold owned_check in Hc. do 2 (case_match; [done|]). apply ok_or_ok in Hc. assert (o' = o) as -> by congruence.
    destruct e as [e|]; [right|by left]. destruct (decide (e = o)) as [->|]; [done|].
    exfalso. apply He. split; [done|congruence].
  - destruct (owned_check s y) as [o''|err] eqn:Hc; [|left; by simplify_eq]. simplify_eq. cbn.
    destruct (decide (y = x)) as [->|Hne]; [right; left; by exists o'|left; by rewrite lookup_insert_ne].
Qed.

(** The two operations the page tables use, in terms of the owner map. *)
Definition out_of_frames (a : FrameAllocator) : Prop :=
  size (owners a) = MAX_FRAME_RECORDS ∨ pool a = [].

Lemma take_frame_None fresh fresh' : take_frame fresh = (None, fresh') → mjoin fresh = [].
Proof. induction fresh as [|[|y l] rest IH]; cbn; [done|exact IH|done]. Qed.

Lemma allocate_owned_spec o a :
  frames_wf a →
  let '(f, a') := allocate_owned o a in
  frames_wf a' ∧ sp_usable (frame_view a') = sp_usable (frame_view a) ∧
  match f with
  | Some f =>
      owners a !! frame_start f = None ∧ owners a' = <[frame_start f := o]> (owners a) ∧
      contains a f = true ∧ (FRAME_SIZE | frame_start f)%Z
  | None => owners a' = owners a ∧ out_of_frames a
  end.
Proof.
  intros Hwf. pose proof (allocate_refines o a Hwf) as H. cbn [frame_step] in H.
  destruct (allocate_owned o a) as [f a']. destruct H as [Hwf' Hstep]. split; [done|].
  pose proof (handed_out_spec (OpAllocate o) _ _ _ a (proj1 Hwf) eq_refl I Hstep) as Hout.
  cbn [spec_step] in Hstep. destruct f as [[x]|]; cbn [fmap option_fmap option_map frame_start handed_out] in *.
  - destruct (Hout x ltac:(by apply list_elem_of_singleton)) as [Hin _].
    destruct (fresh_not_owned a x (proj1 Hwf) Hin) as (? & ? & ?).
    case_decide; [done|]. destruct (sp_recycled (frame_view a)) as [|y rest].
    + destruct (take_frame _) as [z fresh]. injection Hstep as -> Hus Hr Hf Ho. done.
    + injection Hstep as -> Hus Hr Hf Ho. done.
  - case_decide as Hd.
    + injection Hstep as Hus Hr Hf Ho. split; [done|]. split; [done|]. by left.
    + destruct (sp_recycled (frame_view a)) as [|y rest] eqn:Hrec; [|done].
      destruct (take_frame _) as [z fresh] eqn:Ht. injection Hstep as -> Hus Hr Hf Ho.
      split; [done|]. split; [done|]. right. unfold pool.
      change (reverse (recycled a)) with (sp_recycled (frame_view a)). rewrite Hrec. cbn [app].
      by eapply take_frame_None.
Qed.

(** A block of frames: each is new, or as before. *)
Lemma allocate_contiguous_spec n o a :
  frames_wf a → (0 ≤ n)%Z →
  let '(f, a') := allocate_contiguous_owned n o a in
  frames_wf a' ∧ sp_usable (frame_view a') = sp_usable (frame_view a) ∧
  ∀ x, owners a' !! x = owners a !! x ∨
    (owners a !! x = None ∧ contains a (mkPhysicalFrame x) = true ∧ owners a' !! x = Some o).
Proof.
  intros Hwf Hn. pose proof (contiguous_refines n o a Hwf Hn) as H. cbn [frame_step] in H.
  destruct (allocate_contiguous_owned n o a) as [f a']. destruct H as [Hwf' Hstep]. split; [done|].
  pose proof (handed_out_spec (OpContiguous n o) _ _ _ a (proj1 Hwf) eq_refl Hn Hstep) as Hout.
  cbn [spec_step] in Hstep. case_decide.
  { injection Hstep as Hf Hu Hr Hfr Ho. split; [done|]. intros x. left. by rewrite <-Ho. }
  destruct (take_run _ _) as [[z|] fresh] eqn:Ht; injection Hstep as Hf Hu Hr Hfr Ho; (split; [done|]); intros x.
  - rewrite <-Ho, grant_all_lookup. case_decide as Hin; [right|by left].
    rewrite <-Hf in Hout. destruct (Hout x Hin) as [Hpool _].
    by destruct (fresh_not_owned a x (proj1 Hwf) Hpool) as (? & ? & ?).
  - left. by rewrite <-Ho.
Qed.

Lemma owned_check_ok a x o : frames_wf a → owners a !! x = Some o → owned_check (frame_view a) x = Ok o.
Proof.
  intros Hwf Ho. assert (Hin : x ∈ [] ++ in_use a ++ recycled a).
  { rewrite !elem_of_app. right; left. apply owners_in_use. by eexists. }
  destruct (fw_handed _ _ (proj1 Hwf) x Hin) as (Hd & _).
  unfold owned_check. rewrite (proj2 (fm_aligned x)) by done. cbn [negb].
  rewrite <-contains_usable by apply Hwf. rewrite (in_use_contained [] _ (proj1 Hwf) _ Hin).
  cbn [negb]. change (sp_owners (frame_view a)) with (owners a). by rewrite Ho.
Qed.

Lemma set_owner_spec x o o' a :
  frames_wf a → owners a !! x = Some o →
  let '(r, a') := set_owner (mkPhysicalFrame x) o' a in
  r = Ok tt ∧ frames_wf a' ∧ sp_usable (frame_view a') = sp_usable (frame_view a) ∧
  owners a' = <[x := o']> (owners a).
Proof.
  intros Hwf Ho. pose proof (set_owner_refines x o' a Hwf) as H. cbn [frame_step spec_step] in H.
  destruct (set_owner (mkPhysicalFrame x) o' a) as [r a']. destruct H as [Hwf' Hstep].
  rewrite (owned_check_ok a x o Hwf Ho) in Hstep. injection Hstep as <- Hus Hr Hf Hown. done.
Qed.

Lemma free_owned_spec x o a :
  frames_wf a → owners a !! x = Some o →
  let '(r, a') := free_owned (mkPhysicalFrame x) o a in
  frames_wf a' ∧ sp_usable (frame_view a') = sp_usable (frame_view a) ∧
  ((r = Ok tt ∧ owners a' = delete x (owners a) ∧ length (recycled a') = S (length (recycled a))) ∨
   (r = Err FreeStackFull ∧ a' = a ∧ length (recycled a) = FREE_STACK_CAPACITY)).
Proof.
  intros Hwf Ho. pose proof (free_refines x (Some o) a Hwf) as H. cbn [frame_step] in H.
  unfold free_owned. pose proof (owned_check_spec a x (proj1 Hwf)) as Hchk. cbn [spec_step] in H.
  destruct (free_with_owner (mkPhysicalFrame x) (Some o) a) as [r a'] eqn:Hf. destruct H as [Hwf' Hstep]. split; [done|].
  pose proof (owned_check_ok a x o Hwf Ho) as Hc.
  rewrite Hc in Hstep, Hchk. rewrite decide_False in Hstep by tauto.
  assert (Hlen : length (sp_recycled (frame_view a)) = length (recycled a)) by (cbn; apply length_reverse).
  case_decide as Hfull.
  - injection Hstep as <- Hus Hr Hfr Hown. split; [done|]. right. rewrite Hlen in Hfull. split_and!; [done| |done].
    destruct Hchk as (i & rec & H1 & H2 & H3 & Hlt & H4 & H5 & H6).
    unfold free_with_owner in Hf. cbn [frame_start] in Hf. rewrite H1, H2, H3 in Hf. cbn [negb] in Hf.
    rewrite (nth_lookup_Some _ _ _ _ H4) in Hf. repeat case_match; congruence.
  - injection Hstep as <- Hus Hr Hfr Hown. split; [done|]. left. split_and!; [done..|].
    pose proof (f_equal length Hr) as Hl. cbn in Hl. rewrite !length_reverse in Hl. done.
Qed.

(** C23: no frame is ever given to two owners. In every state the allocator of a
    machine can reach, the frames an operation hands out were owned by nobody, are
    aligned and lie in usable memory, and belong to the owner the call names
    afterwards; and a frame that is in use keeps its owner unless the operation
    releases this very frame, with no expectation about the owner or the right one,
    or reassigns it. *)
Theorem frame_ownership_exclusive m ops op :
  memmap_ok m → init_outcome m = Ok tt → Forall op_unsigned (op :: ops) →
  let a := (run_frames ops (boot_allocator m)).2 in
  let out := (frame_step op a).1 in
  let a' := (frame_step op a).2 in
  (∀ x, x ∈ handed_out op out →
     owner_of a (mkPhysicalFrame x) = None ∧ (FRAME_SIZE | x)%Z ∧ contains a (mkPhysicalFrame x) = true ∧
     owner_of a' (mkPhysicalFrame x) = op_owner op) ∧
  (∀ x o, owner_of a (mkPhysicalFrame x) = Some o →
     owner_of a' (mkPhysicalFrame x) = Some o ∨ (∃ o', op = OpSetOwner x o') ∨
     (∃ e, op = OpFree x e ∧ (e = None ∨ e = Some o) ∧ out = OutResult (Ok tt))).
Proof.
  intros Hm Ho [Hop Hops]%Forall_cons a out a'.
  assert (Hwf : frames_wf a) by (apply run_frames_refines; [apply boot_allocator_starting|]; done).
  pose proof (frame_step_refines op a Hwf Hop) as H. unfold out, a'.
  destruct (frame_step op a) as [out' a1]. destruct H as [Hwf1 Hstep]. cbn [fst snd].
  split; intros x; [|intros o]; rewrite !(owner_of_owners [] _ (proj1 Hwf)), !(owner_of_owners [] _ (proj1 Hwf1)).
  - intros Hx. destruct (handed_out_spec op _ _ _ a (proj1 Hwf) eq_refl Hop Hstep x Hx) as [Hin Hown].
    destruct (fresh_not_owned a x (proj1 Hwf) Hin) as (? & ? & ?). done.
  - intros Hown. by eapply (owner_kept op _ _ _ a x o (proj1 Hwf) eq_refl Hop Hstep).
Qed.

(** * Accounting *)

Lemma frame_count_split r : range_ok r → frame_count r = (handed r + Z.of_nat (length (unused r)))%Z.
Proof.
  intros Hr. destruct (range_div r Hr) as (n & Hn & ->). rewrite length_frames_from.
  destruct Hr as [_ [s Hs] [k Hk] _]. unfold frame_count, handed.
  replace (fr_end r - fr_start r)%Z with (fr_next r - fr_start r + Z.of_nat n * FRAME_SIZE)%Z by lia.
  by apply Z.div_add.
Qed.

(** The counter of a kind of owner in the statistics. *)
Definition kind_frames (k : FrameOwnerKind) (s : AllocatorStats) : nat :=
  match k with
  | OkKernel => as_kernel_frames s
  | OkPageTable => as_page_table_frames s
  | OkProcessMemory => as_process_memory_frames s
  | OkDma => as_dma_frames s
  | OkScratch => as_scratch_frames s
  end.

Lemma kind_frames_owners k a : frames_inv [] a →
  kind_frames k (frame_stats a) = length (filter (λ p, owner_kind p.2 = k) (map_to_list (owners a))).
Proof.
  intros Hwf. replace (kind_frames k (frame_stats a)) with
    (count_upto (has_kind k) (fa_records a) (fa_record_count a)) by (by destruct k).
  rewrite count_upto_filter, (fw_ledger _ _ Hwf). unfold owners.
  rewrite map_to_list_to_map by (by apply (NoDup_in_use [])).
  induction (ledger a) as [|r l IH]; [done|]. cbn [fmap list_fmap].
  destruct (decide (owner_kind (rec_owner r) = k)) as [Hk|Hk].
  - rewrite !filter_cons_True by (cbn; by rewrite ?bool_decide_eq_true). cbn. by f_equal.
  - rewrite !filter_cons_False by (cbn; by rewrite ?bool_decide_eq_true). done.
Qed.

Lemma total_split a : frames_inv [] a →
  fa_total_frames a = (Z.of_nat (fa_record_count a + fa_free_stack_len a) +
    zsum ((λ r, Z.of_nat (length (unused r))) <$> live_ranges a))%Z.
Proof.
  intros Hwf. rewrite (fw_total _ _ Hwf). pose proof (fw_count _ _ Hwf) as Hc.
  cbn [length plus] in Hc. rewrite <-Hc. clear Hc.
  assert (Hok : Forall range_ok (live_ranges a)) by (apply Forall_lookup; apply (fw_range_ok _ _ Hwf)).
  induction Hok as [|r l Hr Hl IH]; [done|].
  change (frame_count r + zsum (frame_count <$> l) = handed r + zsum (handed <$> l) +
    (Z.of_nat (length (unused r)) + zsum ((λ r, Z.of_nat (length (unused r))) <$> l)))%Z.
  rewrite IH, frame_count_split by done. lia.
Qed.

(** The allocator's statistics are exact. In every reachable state the numbers
    of allocated frames, of ledger entries and of recycled frames and the number of
    frames of each kind of owner are those of the owner map and the stack; and
    every usable frame is accounted for: the total is the frames in use, the
    recycled frames and the frames never handed out. *)
Theorem frame_stats_exact m ops :
  memmap_ok m → init_outcome m = Ok tt → Forall op_unsigned ops →
  let a := (run_frames ops (boot_allocator m)).2 in
  let s := frame_stats a in
  as_allocated_frames s = Z.of_nat (size (owners a)) ∧
  as_ledger_entries s = size (owners a) ∧
  as_recycled_frames s = length (recycled a) ∧
  (∀ k, kind_frames k s = length (filter (λ p, owner_kind p.2 = k) (map_to_list (owners a)))) ∧
  as_total_frames s = (Z.of_nat (size (owners a) + length (recycled a)) +
    zsum ((λ r, Z.of_nat (length (unused r))) <$> live_ranges a))%Z ∧
  as_free_frames s = (as_total_frames s - as_allocated_frames s)%Z.
Proof.
  intros Hm Ho Hops a s.
  assert (Hwf : frames_wf a) by (apply run_frames_refines; [apply boot_allocator_starting|]; done).
  destruct Hwf as [Hwf Hh]. rewrite size_owners, (length_recycled []) by done.
  pose proof (fw_allocated _ _ Hwf) as Hal. pose proof (total_split a Hwf) as Ht.
  split_and!; try done.
  - cbn [length] in Hal. by rewrite Nat.add_0_r in Hal.
  - intros k. by apply kind_frames_owners.
  - cbn. rewrite Hal, Ht. unfold sat_sub. cbn [length].
    assert (0 ≤ zsum ((λ r, Z.of_nat (length (unused r))) <$> live_ranges a))%Z; [|lia].
    clear. induction (live_ranges a) as [|r l IH]; [done|].
    change (0 ≤ Z.of_nat (length (unused r)) + zsum ((λ r, Z.of_nat (length (unused r))) <$> l))%Z. lia.
Qed.

Lemma take_run_None n fresh fresh' : 0 < n → take_run n fresh = (None, fresh') → fresh' = [].
Proof.
  intros Hn. induction fresh as [|l rest IH]; cbn; [congruence|]. case_decide as Hle; [|done].
  intros [= Hh <-]. destruct l; [cbn in *; lia|done].
Qed.

(** where the allocator loses memory. In every reachable state, a request for
    more contiguous frames than any remaining range has makes the loop of
    [allocate_contiguous_owned] step over all ranges for good: afterwards no frame
    that was not recycled can be allocated, however many the statistics still count
    as free. *)
Theorem contiguous_request_strands_ranges m ops n o :
  memmap_ok m → init_outcome m = Ok tt → Forall op_unsigned ops →
  let a := (run_frames ops (boot_allocator m)).2 in
  let a' := (allocate_contiguous_owned n o a).2 in
  (0 < n ≤ Z.of_nat (MAX_FRAME_RECORDS - fa_record_count a))%Z →
  (allocate_contiguous_owned n o a).1 = None →
  pool a' = reverse (recycled a) ∧
  fa_total_frames a' = fa_total_frames a ∧ fa_allocated_frames a' = fa_allocated_frames a.
Proof.
  intros Hm Ho Hops a a' Hn Hnone.
  assert (Hwf : frames_wf a) by (apply run_frames_refines; [apply boot_allocator_starting|]; done).
  pose proof (contiguous_refines n o a Hwf ltac:(lia)) as H. cbn [frame_step spec_step] in H.
  unfold a' in *. destruct (allocate_contiguous_owned n o a) as [f a1]. cbn [fst snd] in *. subst f.
  destruct H as [Hwf1 H]. change (sp_owners (frame_view a)) with (owners a) in H.
  rewrite size_owners in H by apply Hwf. rewrite decide_False in H by lia.
  destruct (take_run _ _) as [[y|] fresh] eqn:Ht; [done|]. apply take_run_None in Ht as ->; [|lia].
  injection H as Hus Hr Hf Hown.
  unfold pool. rewrite <-Hr, <-Hf. rewrite app_nil_r. split_and!; [done| |].
  - rewrite (fw_total _ _ (proj1 Hwf)), (fw_total _ _ (proj1 Hwf1)).
    assert (Hfc : ∀ l, frame_count <$> l = (λ p : Z * Z, ((p.2 - p.1) / FRAME_SIZE)%Z) <$>
      ((λ r, (fr_start r, fr_end r)) <$> l)) by (intros l; by rewrite <-list_fmap_compose).
    rewrite !Hfc. by rewrite Hus.
  - rewrite (fw_allocated _ _ (proj1 Hwf)), (fw_allocated _ _ (proj1 Hwf1)).
    rewrite <-!size_owners by (apply Hwf || apply Hwf1). by rewrite Hown.
Qed.

(** * A machine *)

(** Two usable ranges of three and eight frames, with a reserved entry and a null
    pointer between them. *)
Definition small_map : list (option MemmapEntry) :=
  [Some (mkMemmapEntry 0x1000 0x3800 MEMMAP_USABLE); None; Some (mkMemmapEntry 0x9000 0x1000 1);
   Some (mkMemmapEntry 0x10000 0x8000 MEMMAP_USABLE)].

Lemma small_map_ok : memmap_ok small_map.
Proof.
  split.
  - intros i e H. unfold PHYSICAL_LIMIT. do 4 (destruct i as [|i]; [by simplify_eq/=|]). done.
  - intros i j e f Hi Hj Hne He Hf.
    do 4 (destruct i as [|i]; [simplify_eq/=; do 4 (destruct j as [|j]; [simplify_eq/=; try done; lia|]); done|]).
    done.
Qed.

Lemma small_map_boots : init_outcome small_map = Ok tt.
Proof. vm_compute. reflexivity. Qed.

(** Allocations, a release with the wrong and one with the right owner, a change of
    owner and a block. *)
Definition small_ops : list FrameOp :=
  [OpAllocate (owner_page_table 0); OpSetOwner 0x1000 (owner_page_table 0x1000);
   OpAllocate (owner_process_memory 0x1000); OpFree 0x2000 (Some (owner_dma 1));
   OpFree 0x2000 (Some (owner_process_memory 0x1000)); OpContiguous 4 (owner_dma 4)].

Lemma small_ops_unsigned : Forall op_unsigned small_ops.
Proof. repeat constructor. done. Qed.

Lemma small_outcomes :
  (run_frames small_ops (boot_allocator small_map)).1 =
  [OutFrame (Some 0x1000); OutResult (Ok tt); OutFrame (Some 0x2000); OutResult (Err WrongOwner);
   OutResult (Ok tt); OutFrame (Some 0x10000)]%Z.
Proof. vm_compute. reflexivity. Qed.

Lemma frame_allocator_refines_witness :
  run_spec small_ops (initial_spec small_map) =
  ([OutFrame (Some 0x1000); OutResult (Ok tt); OutFrame (Some 0x2000); OutResult (Err WrongOwner);
    OutResult (Ok tt); OutFrame (Some 0x10000)]%Z,
   frame_view (run_frames small_ops (boot_allocator small_map)).2).
Proof.
  pose proof (frame_allocator_refines small_map small_ops small_map_ok small_map_boots small_ops_unsigned) as H.
  rewrite small_outcomes in H. exact H.
Defined.

Lemma block_unsigned : Forall op_unsigned (OpContiguous 2 (owner_dma 2) :: small_ops).
Proof. constructor; [done|exact small_ops_unsigned]. Qed.

Lemma block_handed :
  handed_out (OpContiguous 2 (owner_dma 2))
    (frame_step (OpContiguous 2 (owner_dma 2)) (run_frames small_ops (boot_allocator small_map)).2).1 =
  [0x14000; 0x15000]%Z.
Proof. vm_compute. reflexivity. Qed.

Lemma frame_ownership_exclusive_witness :
  owner_of (run_frames small_ops (boot_allocator small_map)).2 (mkPhysicalFrame 0x14000) = None.
Proof.
  pose proof (frame_ownership_exclusive small_map small_ops (OpContiguous 2 (owner_dma 2)) small_map_ok
    small_map_boots block_unsigned) as [H _].
  apply (H 0x14000%Z). rewrite block_handed. apply elem_of_cons. by left.
Defined.

Lemma frame_stats_exact_witness :
  as_allocated_frames (frame_stats (run_frames small_ops (boot_allocator small_map)).2) =
  Z.of_nat (size (owners (run_frames small_ops (boot_allocator small_map)).2)).
Proof.
  exact (proj1 (frame_stats_exact small_map small_ops small_map_ok small_map_boots small_ops_unsigned)).
Defined.

Lemma large_request_fails :
  (allocate_contiguous_owned 9 (owner_dma 9) (run_frames small_ops (boot_allocator small_map)).2).1 = None.
Proof. vm_compute. reflexivity. Qed.

Lemma large_request_fits :
  (0 < 9 ≤ Z.of_nat (MAX_FRAME_RECORDS - fa_record_count (run_frames small_ops (boot_allocator small_map)).2))%Z.
Proof. vm_compute. by split. Qed.

Lemma small_recycled : recycled (run_frames small_ops (boot_allocator small_map)).2 = [0x2000]%Z.
Proof. vm_compute. reflexivity. Qed.

Lemma contiguous_request_strands_ranges_witness :
  pool (allocate_contiguous_owned 9 (owner_dma 9) (run_frames small_ops (boot_allocator small_map)).2).2 =
  [0x2000]%Z.
Proof.
  pose proof (contiguous_request_strands_ranges small_map small_ops 9 (owner_dma 9) small_map_ok
    small_map_boots small_ops_unsigned large_request_fits large_request_fails) as [H _].
  rewrite H, small_recycled. reflexivity.
Defined.
