(* ===== verification/Paging.v ===== *)
(** Page tables ([paging.rs]): four levels of tables of 512 entries, in frames of the
    frame allocator. The code reaches the table at a physical address through the
    direct map of physical memory ([phys_to_virt]); the model names a table by its
    physical address. Flushes of the translation buffer are left out. *)

From S2P Require Import Prelude Frames.

(** * Entries *)

Definition ENTRY_COUNT : nat := 512.

Definition PRESENT : Z := Z.shiftl 1 0.
Definition WRITABLE : Z := Z.shiftl 1 1.
Definition USER_ACCESSIBLE : Z := Z.shiftl 1 2.
Definition WRITE_THROUGH : Z := Z.shiftl 1 3.
Definition CACHE_DISABLE : Z := Z.shiftl 1 4.
Definition HUGE_PAGE : Z := Z.shiftl 1 7.
Definition NO_EXECUTE : Z := Z.shiftl 1 63.
Definition ADDRESS_MASK : Z := 0x000ffffffffff000.

Definition KERNEL_HEAP_BASE : Z := 0xffffff4000000000.
Definition KERNEL_HEAP_PAGES : nat := 2.
Definition USER_CANONICAL_LIMIT : Z := 0x0000800000000000.

Inductive MapError := OutOfFrames | AlreadyMapped | MapHugePageEncountered.
Inductive UnmapError := NotMapped | UnmapHugePageEncountered.
Inductive ReclaimError := ReclaimHugePageEncountered | ReclaimFree (e : FreeError).
Inductive PageAccess := PageRead | PageWrite.
#[export] Instance PageAccess_eq_dec : EqDecision PageAccess.
Proof. solve_decision. Defined.
Inductive UserRangeError :=
| NonCanonical | RangeOverflow | NotPresent | NotUserAccessible | NotWritable | RangeHugePageEncountered.

Record ReclaimStats := mkReclaimStats {
  user_leaf_frames : Z;
  page_table_frames : Z;
  device_mappings : Z
}.
#[export] Instance eta_ReclaimStats : Eta ReclaimStats := λ s,
  mkReclaimStats (user_leaf_frames s) (page_table_frames s) (device_mappings s).
(** [ReclaimStats::empty]. *)
Definition reclaim_stats_empty : ReclaimStats := mkReclaimStats 0 0 0.

(** [PageTableEntry]: the bits of an entry. *)
Definition entry_is_present (e : Z) : bool := negb (Z.land e PRESENT =? 0)%Z.
Definition entry_is_huge (e : Z) : bool := negb (Z.land e HUGE_PAGE =? 0)%Z.
Definition entry_is_writable (e : Z) : bool := negb (Z.land e WRITABLE =? 0)%Z.
Definition entry_is_user_accessible (e : Z) : bool := negb (Z.land e USER_ACCESSIBLE =? 0)%Z.
Definition entry_address (e : Z) : Z := Z.land e ADDRESS_MASK.
(** [PageTableEntry::set]. *)
Definition entry_set (frame : PhysicalFrame) (flags : Z) : Z := Z.lor (frame_start frame) flags.
(** [PageTableEntry::add_flags]. *)
Definition entry_add_flags (e flags : Z) : Z := Z.lor e flags.

Record PageFlags := mkPageFlags { flag_bits : Z }.
(** [PageFlags::kernel_writable_no_execute]. *)
Definition kernel_writable_no_execute : PageFlags :=
  mkPageFlags (Z.lor (Z.lor PRESENT WRITABLE) NO_EXECUTE).
(** [PageFlags::user]. *)
Definition user_flags (writable executable : bool) : PageFlags :=
  let bits := Z.lor PRESENT USER_ACCESSIBLE in
  let bits := if writable then Z.lor bits WRITABLE else bits in
  let bits := if negb executable then Z.lor bits NO_EXECUTE else bits in
  mkPageFlags bits.
(** [PageFlags::user_device]. *)
Definition user_device : PageFlags :=
  mkPageFlags (Z.lor (Z.lor (Z.lor (Z.lor (Z.lor PRESENT WRITABLE) USER_ACCESSIBLE) WRITE_THROUGH)
    CACHE_DISABLE) NO_EXECUTE).
(** [PageFlags::user_accessible]. *)
Definition flags_user_accessible (f : PageFlags) : bool :=
  negb (Z.land (flag_bits f) USER_ACCESSIBLE =? 0)%Z.
(** [PageFlags::table_bits]. *)
Definition table_bits (f : PageFlags) : Z :=
  let bits := Z.lor PRESENT WRITABLE in
  if flags_user_accessible f then Z.lor bits USER_ACCESSIBLE else bits.

(** * Memory *)

(** The entries of the table at each physical address: physical memory read as
    page tables, whatever it holds. *)
Definition PhysMem : Type := Z → nat → Z.
Definition write_entry (table : Z) (index : nat) (e : Z) (m : PhysMem) : PhysMem := λ t i,
  if (t =? table)%Z then if i =? index then e else m t i else m t i.

(** [zero_table]. *)
Fixpoint zero_entries (table : Z) (index left : nat) (m : PhysMem) : PhysMem :=
  match left with
  | 0 => m
  | S left' => zero_entries table (S index) left' (write_entry table index 0 m)
  end.
Definition zero_table (table : Z) (m : PhysMem) : PhysMem := zero_entries table 0 ENTRY_COUNT m.

(** What the paging code changes. *)
Record Paging := mkPaging { pg_mem : PhysMem; pg_frames : FrameAllocator }.
#[export] Instance eta_Paging : Eta Paging := λ s, mkPaging (pg_mem s) (pg_frames s).

(** [page_indexes]. *)
Definition page_index (virtual_address shift : Z) : nat :=
  Z.to_nat (Z.land (Z.shiftr virtual_address shift) 0x1ff).
Definition page_indexes (virtual_address : Z) : list nat :=
  [page_index virtual_address 39; page_index virtual_address 30;
   page_index virtual_address 21; page_index virtual_address 12].

(** [align_down]. *)
Definition page_align_down (value : Z) : Z := Z.land value (not_u64 (FRAME_SIZE - 1)).

(** [kernel_heap_page]. *)
Definition kernel_heap_page (index : nat) : option Z :=
  if KERNEL_HEAP_PAGES <=? index then None
  else Some (KERNEL_HEAP_BASE + Z.of_nat index * FRAME_SIZE)%Z.

(** * Mapping *)

(** [ensure_next_table]. *)
Definition ensure_next_table (table : Z) (index : nat) (flags : PageFlags) (owner : FrameOwner) :
    M Paging MapError Z := λ s,
  let entry := pg_mem s table index in
  if entry_is_present entry then
    if entry_is_huge entry then (Err MapHugePageEncountered, s)
    else
      let entry' := if flags_user_accessible flags then entry_add_flags entry USER_ACCESSIBLE else entry in
      (Ok (entry_address entry'),
       if flags_user_accessible flags then s <| pg_mem ::= write_entry table index entry' |> else s)
  else
    let '(f, frames) := allocate_owned owner (pg_frames s) in
    let s1 := s <| pg_frames := frames |> in
    match f with
    | None => (Err OutOfFrames, s1)
    | Some frame =>
        (Ok (frame_start frame),
         s1 <| pg_mem ::= λ m, write_entry table index (entry_set frame (table_bits flags))
                                  (zero_table (frame_start frame) m) |>)
    end.

(** [map_page_in_table]. *)
Definition map_page_in_table (root_table : Z) (page_table_owner : FrameOwner) (virtual_address : Z)
    (frame : PhysicalFrame) (flags : PageFlags) : M Paging MapError unit :=
  let index k := nth k (page_indexes virtual_address) 0 in
  let! table := ensure_next_table root_table (index 0) flags page_table_owner in
  let! table := ensure_next_table table (index 1) flags page_table_owner in
  let! table := ensure_next_table table (index 2) flags page_table_owner in
  let! s := rget in
  do! rguard (negb (entry_is_present (pg_mem s table (index 3)))) AlreadyMapped;
  rmodify (λ s, s <| pg_mem ::= write_entry table (index 3) (entry_set frame (flag_bits flags)) |>).

(** [map_page_in_root]. *)
Definition map_page_in_root (root_table_physical virtual_address : Z) (frame : PhysicalFrame)
    (flags : PageFlags) : M Paging MapError unit :=
  map_page_in_table root_table_physical (owner_page_table root_table_physical) virtual_address frame flags.

(** [Mapper::map_page], with the page tables the processor uses. *)
Definition mapper_map_page (cr3 virtual_address : Z) (frame : PhysicalFrame) : M Paging MapError unit :=
  let root := Z.land cr3 ADDRESS_MASK in
  map_page_in_table root (owner_kernel root) virtual_address frame kernel_writable_no_execute.

(** [AddressSpace], by the frame of its root table. *)
Record AddressSpace := mkAddressSpace { as_root_frame : PhysicalFrame }.

(** [AddressSpace::map_page]. *)
Definition address_space_map_page (space : AddressSpace) (virtual_address : Z) (frame : PhysicalFrame)
    (flags : PageFlags) : M Paging MapError unit :=
  let root := frame_start (as_root_frame space) in
  map_page_in_table root (owner_page_table root) virtual_address frame flags.

(** The loop that copies the kernel's half of a root table. *)
Fixpoint copy_entries (from to : Z) (index left : nat) (m : PhysMem) : PhysMem :=
  match left with
  | 0 => m
  | S left' => copy_entries from to (S index) left' (write_entry to index (m from index) m)
  end.

(** The root table of a new address space: empty, with the kernel's half copied. *)
Definition new_root_mem (active root : Z) (m : PhysMem) : PhysMem :=
  copy_entries active root (ENTRY_COUNT / 2) (ENTRY_COUNT / 2) (zero_table root m).

(** [AddressSpace::new_from_active_kernel_mappings]. *)
Definition new_from_active_kernel_mappings (cr3 : Z) : M Paging MapError AddressSpace := λ s,
  let '(f, frames) := allocate_owned (owner_page_table 0) (pg_frames s) in
  match f with
  | None => (Err OutOfFrames, s <| pg_frames := frames |>)
  | Some root_frame =>
      let '(r, frames) := set_owner root_frame (owner_page_table (frame_start root_frame)) frames in
      match r with
      | Err _ => (Err OutOfFrames, s <| pg_frames := frames |>)
      | Ok _ =>
          let root_table := frame_start root_frame in
          let active_root := Z.land cr3 ADDRESS_MASK in
          (Ok (mkAddressSpace root_frame),
           s <| pg_frames := frames |>
             <| pg_mem ::= new_root_mem active_root root_table |>)
      end
  end.

(** * Unmapping *)

(** The loop of [unmap_page_in_root] from a table on; the last index is the one of
    the page. *)
Fixpoint unmap_from (table : Z) (indexes : list nat) : M Paging UnmapError unit := λ s,
  match indexes with
  | [] => (Err NotMapped, s)
  | index :: rest =>
      let entry := pg_mem s table index in
      if negb (entry_is_present entry) then (Err NotMapped, s)
      else if entry_is_huge entry then (Err UnmapHugePageEncountered, s)
      else match rest with
           | [] => (Ok tt, s <| pg_mem ::= write_entry table index 0 |>)
           | _ => unmap_from (entry_address entry) rest s
           end
  end.

(** [unmap_page_in_root]. *)
Definition unmap_page_in_root (root_table_physical virtual_address : Z) : M Paging UnmapError unit :=
  unmap_from root_table_physical (page_indexes virtual_address).

(** [page_table_is_empty]. *)
Fixpoint entries_empty (m : PhysMem) (table : Z) (index left : nat) : bool :=
  match left with
  | 0 => true
  | S left' => if entry_is_present (m table index) then false else entries_empty m table (S index) left'
  end.
Definition page_table_is_empty (m : PhysMem) (table : Z) : bool := entries_empty m table 0 ENTRY_COUNT.

(** * Reclaiming *)

(** The paging state and the statistics of a reclamation. *)
Record Reclaiming := mkReclaiming { rc_paging : Paging; rc_stats : ReclaimStats }.
#[export] Instance eta_Reclaiming : Eta Reclaiming := λ s, mkReclaiming (rc_paging s) (rc_stats s).

(** [frame_from_physical]. *)
Definition frame_from_physical (physical_address : Z) : Result ReclaimError PhysicalFrame :=
  ok_or (frame_from_start physical_address) (ReclaimFree UnalignedFrame).

(** [allocator.free_owned(frame, owner).map_err(ReclaimError::Free)?]. *)
Definition reclaim_free (frame : PhysicalFrame) (owner : FrameOwner) : M Reclaiming ReclaimError unit := λ s,
  let '(r, frames) := free_owned frame owner (pg_frames (rc_paging s)) in
  (map_err ReclaimFree r, s <| rc_paging ::= λ p, p <| pg_frames := frames |> |>).

(** [free_page_table_frame]. *)
Definition free_page_table_frame (root_table_physical physical_address : Z) :
    M Reclaiming ReclaimError unit :=
  let! frame := rlift (frame_from_physical physical_address) in
  do! reclaim_free frame (owner_page_table root_table_physical);
  rmodify (λ s, s <| rc_stats ::= λ t, t <| page_table_frames := sat_add (page_table_frames t) 1 |> |>).

(** [reclaim_leaf_frame]. *)
Definition reclaim_leaf_frame (root_table_physical physical_address : Z) :
    M Reclaiming ReclaimError unit :=
  let! frame := rlift (frame_from_physical physical_address) in
  let expected_owner := owner_process_memory root_table_physical in
  let! s := rget in
  if bool_decide (owner_of (pg_frames (rc_paging s)) frame = Some expected_owner) then
    do! reclaim_free frame expected_owner;
    rmodify (λ s, s <| rc_stats ::= λ t, t <| user_leaf_frames := sat_add (user_leaf_frames t) 1 |> |>)
  else
    rmodify (λ s, s <| rc_stats ::= λ t, t <| device_mappings := sat_add (device_mappings t) 1 |> |>).

Definition clear_entry (table : Z) (index : nat) : M Reclaiming ReclaimError unit :=
  rmodify (λ s, s <| rc_paging ::= λ p, p <| pg_mem ::= write_entry table index 0 |> |>).

(** The loop of [reclaim_page_table]: [per_entry] treats the address of a present
    entry. *)
Fixpoint reclaim_entries (per_entry : Z → M Reclaiming ReclaimError unit) (table : Z) (index left : nat) :
    M Reclaiming ReclaimError unit :=
  match left with
  | 0 => rret tt
  | S left' =>
      let! s := rget in
      let entry := pg_mem (rc_paging s) table index in
      do! (if entry_is_present entry then
             do! rguard (negb (entry_is_huge entry)) ReclaimHugePageEncountered;
             do! per_entry (entry_address entry);
             clear_entry table index
           else rret tt);
      reclaim_entries per_entry table (S index) left'
  end.

(** [reclaim_page_table] at level [3 - depth]. *)
Fixpoint reclaim_page_table (root_table_physical : Z) (depth : nat) (table_physical : Z) :
    M Reclaiming ReclaimError unit :=
  reclaim_entries (λ address,
    match depth with
    | 0 => reclaim_leaf_frame root_table_physical address
    | S depth' =>
        do! reclaim_page_table root_table_physical depth' address;
        free_page_table_frame root_table_physical address
    end) table_physical 0 ENTRY_COUNT.

(** The loop of [reclaim_user_address_space] over the user half of the root. *)
Fixpoint reclaim_root_entries (root_table_physical : Z) (index left : nat) :
    M Reclaiming ReclaimError unit :=
  match left with
  | 0 => rret tt
  | S left' =>
      let! s := rget in
      let entry := pg_mem (rc_paging s) root_table_physical index in
      do! (if entry_is_present entry then
             do! rguard (negb (entry_is_huge entry)) ReclaimHugePageEncountered;
             do! reclaim_page_table root_table_physical 2 (entry_address entry);
             do! clear_entry root_table_physical index;
             free_page_table_frame root_table_physical (entry_address entry)
           else rret tt);
      reclaim_root_entries root_table_physical (S index) left'
  end.

(** [reclaim_user_address_space]. *)
Definition reclaim_user_address_space (root_table_physical : Z) : M Paging ReclaimError ReclaimStats := λ s,
  let '(r, t) :=
    (do! reclaim_root_entries root_table_physical 0 (ENTRY_COUNT / 2);
     free_page_table_frame root_table_physical root_table_physical) (mkReclaiming s reclaim_stats_empty) in
  (match r with Ok _ => Ok (rc_stats t) | Err e => Err e end, rc_paging t).

(** The first loop of [prune_empty_user_page_tables]: the tables on the way to the
    page, the lowest first, each with the table and index that refer to it. *)
Fixpoint prune_path (m : PhysMem) (table : Z) (indexes : list nat) (above : list (Z * Z * nat)) :
    Result ReclaimError (option (list (Z * Z * nat))) :=
  match indexes with
  | index :: ((_ :: _) as rest) =>
      let entry := m table index in
      if negb (entry_is_present entry) then Ok None
      else if entry_is_huge entry then Err ReclaimHugePageEncountered
      else prune_path m (entry_address entry) rest ((entry_address entry, table, index) :: above)
  | _ => Ok (Some above)
  end.

(** The second loop of [prune_empty_user_page_tables], from the lowest table up. *)
Fixpoint prune_tables (root_table_physical : Z) (tables : list (Z * Z * nat)) :
    M Reclaiming ReclaimError unit :=
  match tables with
  | [] => rret tt
  | (child_physical, parent_physical, parent_index) :: rest =>
      let! s := rget in
      let m := pg_mem (rc_paging s) in
      let parent_entry := m parent_physical parent_index in
      if negb (page_table_is_empty m child_physical) then rret tt
      else if negb (entry_is_present parent_entry) || negb (entry_address parent_entry =? child_physical)%Z
      then rret tt
      else
        do! rguard (negb (entry_is_huge parent_entry)) ReclaimHugePageEncountered;
        do! clear_entry parent_physical parent_index;
        do! free_page_table_frame root_table_physical child_physical;
        prune_tables root_table_physical rest
  end.

(** [prune_empty_user_page_tables]. *)
Definition prune_empty_user_page_tables (root_table_physical virtual_address : Z) :
    M Paging ReclaimError unit := λ s,
  match prune_path (pg_mem s) root_table_physical (page_indexes virtual_address) [] with
  | Err e => (Err e, s)
  | Ok None => (Ok tt, s)
  | Ok (Some tables) =>
      let '(r, t) := prune_tables root_table_physical tables (mkReclaiming s reclaim_stats_empty) in
      (r, rc_paging t)
  end.

(** * User ranges *)

(** The loop of [validate_user_page] from a table on. *)
Fixpoint validate_from (m : PhysMem) (table : Z) (indexes : list nat) (access : PageAccess) :
    Result UserRangeError unit :=
  match indexes with
  | [] => Err NotPresent
  | index :: rest =>
      let entry := m table index in
      if negb (entry_is_present entry) then Err NotPresent
      else if negb (entry_is_user_accessible entry) then Err NotUserAccessible
      else if entry_is_huge entry then Err RangeHugePageEncountered
      else match rest with
           | [] => if bool_decide (access = PageWrite) && negb (entry_is_writable entry)
                   then Err NotWritable else Ok tt
           | _ => validate_from m (entry_address entry) rest access
           end
  end.

(** [validate_user_page]. *)
Definition validate_user_page (m : PhysMem) (root_table_physical virtual_address : Z) (access : PageAccess) :
    Result UserRangeError unit :=
  validate_from m root_table_physical (page_indexes virtual_address) access.

(** The loop of [user_page_is_mapped] from a table on. *)
Fixpoint mapped_from (m : PhysMem) (table : Z) (indexes : list nat) : Result UserRangeError bool :=
  match indexes with
  | [] => Ok false
  | index :: rest =>
      let entry := m table index in
      if negb (entry_is_present entry) then Ok false
      else if entry_is_huge entry then Err RangeHugePageEncountered
      else match rest with
           | [] => Ok true
           | _ => mapped_from m (entry_address entry) rest
           end
  end.

(** [user_page_is_mapped]. *)
Definition user_page_is_mapped (m : PhysMem) (root_table_physical virtual_address : Z) :
    Result UserRangeError bool :=
  mapped_from m root_table_physical (page_indexes virtual_address).

(** The loops of [validate_user_range] and [user_range_is_unmapped] visit the pages
    from [page] to [last_page]; there are [page_span] of them. *)
Definition page_span (page last_page : Z) : nat := S (Z.to_nat ((last_page - page) / FRAME_SIZE)).

Fixpoint validate_pages (fuel : nat) (m : PhysMem) (root page last_page : Z) (access : PageAccess) :
    Result UserRangeError unit :=
  match fuel with
  | 0 => Err RangeOverflow
  | S fuel' =>
      do? validate_user_page m root page access;
      if (page =? last_page)%Z then Ok tt
      else
        let? page := ok_or (checked_add page FRAME_SIZE) RangeOverflow in
        validate_pages fuel' m root page last_page access
  end.

(** [validate_user_range]. *)
Definition validate_user_range (m : PhysMem) (root_table_physical start len : Z) (access : PageAccess) :
    Result UserRangeError unit :=
  let? end_ := ok_or (checked_add start len) RangeOverflow in
  do? res_guard (negb ((USER_CANONICAL_LIMIT <=? start)%Z || (USER_CANONICAL_LIMIT <? end_)%Z)) NonCanonical;
  if (len =? 0)%Z then Ok tt
  else
    let page := page_align_down start in
    let last_page := page_align_down (end_ - 1) in
    validate_pages (page_span page last_page) m root_table_physical page last_page access.

Fixpoint pages_unmapped (fuel : nat) (m : PhysMem) (root page last_page : Z) : Result UserRangeError bool :=
  match fuel with
  | 0 => Err RangeOverflow
  | S fuel' =>
      let? mapped := user_page_is_mapped m root page in
      if (mapped : bool) then Ok false
      else if (page =? last_page)%Z then Ok true
      else
        let? page := ok_or (checked_add page FRAME_SIZE) RangeOverflow in
        pages_unmapped fuel' m root page last_page
  end.

(** [user_range_is_unmapped]. *)
Definition user_range_is_unmapped (m : PhysMem) (root_table_physical start len : Z) :
    Result UserRangeError bool :=
  let? end_ := ok_or (checked_add start len) RangeOverflow in
  do? res_guard (negb ((USER_CANONICAL_LIMIT <=? start)%Z || (USER_CANONICAL_LIMIT <? end_)%Z)) NonCanonical;
  if (len =? 0)%Z then Ok true
  else
    let page := page_align_down start in
    let last_page := page_align_down (end_ - 1) in
    pages_unmapped (page_span page last_page) m root_table_physical page last_page.
