(* ===== verification/PagingProofs.v ===== *)
(** Page tables: every address space is a tree of tables of its own, no operation on
    one address space changes the translations of another one, the processor's view
    of a mapping is the one the code intends, and reclaiming an address space frees
    exactly its frames. *)

From S2P Require Import Prelude Frames FrameProofs Paging.

(** * Bits of an entry *)

Lemma land_pow2_testbit e k : (0 ≤ k)%Z → negb (Z.land e (Z.shiftl 1 k) =? 0)%Z = Z.testbit e k.
Proof.
  intros Hk. rewrite Z.shiftl_1_l.
  replace (Z.land e (2 ^ k)) with (if Z.testbit e k then (2 ^ k)%Z else 0%Z).
  - destruct (Z.testbit e k); [|done]. pose proof (Z.pow_pos_nonneg 2 k). by rewrite (proj2 (Z.eqb_neq _ _)) by lia.
  - apply Z.bits_inj_iff'. intros n Hn. rewrite Z.land_spec, Z.pow2_bits_eqb by done.
    destruct (Z.eqb_spec k n) as [->|Hne].
    + rewrite andb_true_r. destruct (Z.testbit e n) eqn:He; [|by rewrite Z.bits_0].
      by rewrite Z.pow2_bits_eqb, Z.eqb_refl by done.
    + rewrite andb_false_r. destruct (Z.testbit e k); [|by rewrite Z.bits_0].
      rewrite Z.pow2_bits_eqb by done. by apply Z.eqb_neq.
Qed.

Lemma present_bit e : entry_is_present e = Z.testbit e 0.
Proof. by apply land_pow2_testbit. Qed.
Lemma writable_bit e : entry_is_writable e = Z.testbit e 1.
Proof. by apply land_pow2_testbit. Qed.
Lemma user_bit e : entry_is_user_accessible e = Z.testbit e 2.
Proof. by apply land_pow2_testbit. Qed.
Lemma huge_bit e : entry_is_huge e = Z.testbit e 7.
Proof. by apply land_pow2_testbit. Qed.

(** The address of a frame. *)
Definition frame_ok (f : Z) : Prop := (FRAME_SIZE | f)%Z ∧ (0 ≤ f < PHYSICAL_LIMIT)%Z.

Lemma frame_low_bits f k : frame_ok f → (0 ≤ k < 12)%Z → Z.testbit f k = false.
Proof. intros [[n ->] _] Hk. change FRAME_SIZE with (2 ^ 12)%Z. apply Z.mul_pow2_bits_low. lia. Qed.

Lemma frame_address f : frame_ok f → Z.land f ADDRESS_MASK = f.
Proof.
  intros Hf. change ADDRESS_MASK with (Z.ldiff (Z.ones 52) (Z.ones 12)).
  apply Z.bits_inj_iff'. intros k Hk. rewrite Z.land_spec, Z.ldiff_spec.
  destruct (decide (k < 12)%Z) as [Hlo|Hhi].
  - rewrite (frame_low_bits f k Hf) by lia. done.
  - rewrite (Z.ones_spec_high 12) by lia. destruct (decide (k < 52)%Z) as [H52|H52].
    + rewrite Z.ones_spec_low by lia. by rewrite andb_true_r.
    + rewrite Z.ones_spec_high by lia. cbn. rewrite andb_false_r. symmetry.
      destruct Hf as [_ Hf]. destruct (decide (f = 0%Z)) as [->|Hne]; [by apply Z.bits_0|].
      apply Z.bits_above_log2; [lia|]. apply Z.lt_le_trans with 52%Z; [|lia].
      apply Z.log2_lt_pow2; [lia|]. change (2 ^ 52)%Z with PHYSICAL_LIMIT. lia.
Qed.

(** The address in an entry is one of a frame, whatever the entry. *)
Lemma entry_address_ok e : frame_ok (entry_address e).
Proof.
  unfold entry_address. change ADDRESS_MASK with (Z.ldiff (Z.ones 52) (Z.ones 12)). split.
  - apply Z.mod_divide; [done|]. change FRAME_SIZE with (2 ^ 12)%Z. rewrite <-Z.land_ones by lia.
    apply Z.bits_inj_iff'. intros k Hk. rewrite !Z.land_spec, Z.ldiff_spec, Z.bits_0.
    destruct (Z.testbit (Z.ones 12) k); [by rewrite !andb_false_r|by rewrite andb_false_r].
  - rewrite Z.ldiff_land, Z.land_assoc, (Z.land_comm (Z.land e _)), Z.land_assoc.
    rewrite Z.land_ones by lia. change PHYSICAL_LIMIT with (2 ^ 52)%Z. apply Z.mod_pos_bound. lia.
Qed.

(** Flags that are present, not huge and leave the address alone. *)
Record flags_ok (bits : Z) : Prop := mk_flags_ok {
  fo_address : Z.land bits ADDRESS_MASK = 0%Z;
  fo_present : entry_is_present bits = true;
  fo_huge : entry_is_huge bits = false
}.

Section entry_set.
Context (f bits : Z).
Hypothesis Hf : frame_ok f.
Hypothesis Hbits : flags_ok bits.
Let e : Z := entry_set (mkPhysicalFrame f) bits.

Lemma entry_set_bit k : (0 ≤ k < 12)%Z → Z.testbit e k = Z.testbit bits k.
Proof using Hf. intros Hk. unfold e, entry_set. cbn. by rewrite Z.lor_spec, (frame_low_bits f k). Qed.

Lemma entry_set_address : entry_address e = f.
Proof using Hf Hbits.
  unfold entry_address, e, entry_set. cbn [frame_start].
  by rewrite Z.land_lor_distr_l, (fo_address _ Hbits), Z.lor_0_r, frame_address.
Qed.

Lemma entry_set_present : entry_is_present e = true.
Proof using Hf Hbits. rewrite present_bit, entry_set_bit, <-present_bit by done. apply Hbits. Qed.
Lemma entry_set_huge : entry_is_huge e = false.
Proof using Hf Hbits. rewrite huge_bit, entry_set_bit, <-huge_bit by done. apply Hbits. Qed.
Lemma entry_set_user : entry_is_user_accessible e = entry_is_user_accessible bits.
Proof using Hf. by rewrite !user_bit, entry_set_bit. Qed.
Lemma entry_set_writable : entry_is_writable e = entry_is_writable bits.
Proof using Hf. by rewrite !writable_bit, entry_set_bit. Qed.
End entry_set.

Lemma table_bits_ok flags : flags_user_accessible flags = true →
  flags_ok (table_bits flags) ∧ entry_is_user_accessible (table_bits flags) = true ∧
  entry_is_writable (table_bits flags) = true.
Proof. unfold table_bits. intros ->. by split_and!. Qed.

(** * Memory *)

Lemma write_same t i e m : write_entry t i e m t i = e.
Proof. unfold write_entry. by rewrite Z.eqb_refl, Nat.eqb_refl. Qed.

Lemma write_other t i e m t' i' : t' ≠ t ∨ i' ≠ i → write_entry t i e m t' i' = m t' i'.
Proof.
  intros H. unfold write_entry. destruct (Z.eqb_spec t' t), (Nat.eqb_spec i' i); cbn; [|done..].
  destruct H; done.
Qed.

Lemma write_table t i e m t' i' : t' ≠ t → write_entry t i e m t' i' = m t' i'.
Proof. intros H. apply write_other. by left. Qed.

Lemma write_cleared t i m u j : write_entry t i 0 m u j = m u j ∨ write_entry t i 0 m u j = 0%Z.
Proof. unfold write_entry. destruct (_ =? _)%Z; [destruct (_ =? _)|]; auto. Qed.

Lemma zero_entries_spec t left : ∀ index m t' i,
  zero_entries t index left m t' i =
  if decide (t' = t ∧ index ≤ i < index + left) then 0%Z else m t' i.
Proof.
  induction left as [|left IH]; intros index m t' i; cbn [zero_entries].
  { by rewrite decide_False by lia. }
  rewrite IH. destruct (decide (t' = t ∧ S index ≤ i < S index + left)) as [H|H].
  { by rewrite decide_True by lia. }
  destruct (decide (t' = t ∧ i = index)) as [[-> ->]|Hne].
  - rewrite write_same. by rewrite decide_True by lia.
  - rewrite write_other by (destruct (decide (t' = t)), (decide (i = index)); naive_solver).
    rewrite decide_False; [done|]. intros [-> ?]. apply H. split; [done|]. lia.
Qed.

Lemma zero_table_same t i m : i < ENTRY_COUNT → zero_table t m t i = 0%Z.
Proof. intros Hi. unfold zero_table. rewrite zero_entries_spec. rewrite decide_True; [done|]. split; [done|lia]. Qed.

Lemma zero_table_other t t' i m : t' ≠ t → zero_table t m t' i = m t' i.
Proof. intros H. unfold zero_table. rewrite zero_entries_spec, decide_False; [done|tauto]. Qed.

(** * Walks *)

(** The table an entry refers to. *)
Definition next_table (e : Z) : option Z :=
  if entry_is_present e && negb (entry_is_huge e) then Some (entry_address e) else None.

Lemma next_table_Some e t : next_table e = Some t ↔
  entry_is_present e = true ∧ entry_is_huge e = false ∧ entry_address e = t.
Proof. unfold next_table. destruct (entry_is_present e), (entry_is_huge e); naive_solver. Qed.

(** The table at the end of a path of indices. *)
Fixpoint table_at (m : PhysMem) (t : Z) (path : list nat) : option Z :=
  match path with
  | [] => Some t
  | i :: p => match next_table (m t i) with Some u => table_at m u p | None => None end
  end.

Lemma table_at_snoc m t p i :
  table_at m t (p ++ [i]) = match table_at m t p with Some u => next_table (m u i) | None => None end.
Proof.
  revert t. induction p as [|j p IH]; intros t; cbn; [by destruct (next_table (m t i))|].
  destruct (next_table (m t j)); [apply IH|done].
Qed.

(** The entry of a page, by the path to its table and its index there. *)
Definition leaf_at (m : PhysMem) (root : Z) (p : list nat) (i : nat) : option Z :=
  match table_at m root p with
  | Some t => if entry_is_present (m t i) && negb (entry_is_huge (m t i)) then Some (m t i) else None
  | None => None
  end.

(** Paths to the tables of the user half of an address space. *)
Definition path_ok (p : list nat) : Prop :=
  length p ≤ 3 ∧ Forall (λ i, i < ENTRY_COUNT) p ∧ ∀ i, head p = Some i → i < ENTRY_COUNT / 2.

Lemma path_ok_nil : path_ok [].
Proof. split_and!; [cbn; lia|constructor|done]. Qed.

Lemma path_ok_init p i : path_ok (p ++ [i]) → path_ok p ∧ i < ENTRY_COUNT ∧ length p ≤ 2.
Proof.
  intros (Hl & [Hp Hi]%Forall_app & Hh). rewrite length_app in Hl. cbn in Hl.
  split; [|split; [exact (Forall_inv Hi)|lia]]. split; [lia|]. split; [done|].
  destruct p; [done|]. intros j Hj. by apply Hh.
Qed.

Lemma path_ok_head i p : path_ok (i :: p) → i < ENTRY_COUNT / 2.
Proof. intros (_ & _ & H). by apply H. Qed.

(** * The invariant of an address space *)

(** An entry of an upper level table: it refers to a table that user code may pass
    through. *)
Definition dir_entry (e : Z) : Prop :=
  entry_is_huge e = false ∧ entry_is_user_accessible e = true ∧ entry_is_writable e = true.

(** A frame the address space [root] may map: memory of its own, a buffer shared
    with a device, or an address that is not allocatable memory. *)
Definition mappable (a : FrameAllocator) (root f : Z) : Prop :=
  match owners a !! f with
  | Some o => o = owner_process_memory root ∨ owner_kind o = OkDma
  | None => contains a (mkPhysicalFrame f) = false
  end.

(** The tables of the user half form a tree of tables that belong to [root]; [ok]
    says which frames its pages may use. *)
Record tree_wf (ok : FrameAllocator → Z → Z → Prop) (m : PhysMem) (a : FrameAllocator) (root : Z) : Prop := mk_tree_wf {
  sw_owner p t : path_ok p → table_at m root p = Some t → owners a !! t = Some (owner_page_table root);
  sw_inj p q t : path_ok p → path_ok q → table_at m root p = Some t → table_at m root q = Some t → p = q;
  sw_dir p t i : path_ok (p ++ [i]) → table_at m root p = Some t → entry_is_present (m t i) = true →
                 dir_entry (m t i);
  sw_leaf p t i : path_ok p → length p = 3 → i < ENTRY_COUNT → table_at m root p = Some t →
                  entry_is_present (m t i) = true →
                  entry_is_huge (m t i) = false ∧ ok a root (entry_address (m t i))
}.

(** An address space: its pages use frames it may map. *)
Abbreviation space_wf := (tree_wf mappable).
(** An address space that is being torn down. *)
Definition any_frame (_ : FrameAllocator) (_ _ : Z) : Prop := True.

Lemma tree_wf_any ok m a root : tree_wf ok m a root → tree_wf any_frame m a root.
Proof. intros []. constructor; try done. intros p t i H1 H2 H3 H4 H5. split; [|done]. by eapply sw_leaf0. Qed.

Lemma owned_frame_ok a f o : frames_wf a → owners a !! f = Some o → frame_ok f.
Proof.
  intros [Hwf _] Ho. destruct (fw_handed _ _ Hwf f) as (Hd & i & r & Hi & Hr).
  { rewrite !elem_of_app. right; left. apply owners_in_use. by eexists. }
  split; [done|]. pose proof (fw_range_ok _ _ Hwf _ _ Hi) as [Hb _ _ _]. lia.
Qed.

(** * What a change of memory leaves alone *)

(** Translations depend only on the tables of the address space. *)
Lemma table_at_frame m m' root :
  (∀ q t i, path_ok q → table_at m root q = Some t → m' t i = m t i) →
  ∀ p, path_ok p → table_at m' root p = table_at m root p.
Proof.
  intros Hm p. induction p as [|i p IH] using rev_ind; intros Hp; [done|].
  destruct (path_ok_init p i Hp) as (Hp' & Hi & _). rewrite !table_at_snoc, IH by done.
  destruct (table_at m root p) as [t|] eqn:Ht; [|done]. by rewrite (Hm p).
Qed.

Lemma leaf_at_frame m m' root :
  (∀ q t i, path_ok q → table_at m root q = Some t → m' t i = m t i) →
  ∀ p i, path_ok p → leaf_at m' root p i = leaf_at m root p i.
Proof.
  intros Hm p i Hp. unfold leaf_at. rewrite (table_at_frame m m') by done.
  destruct (table_at m root p) as [t|] eqn:Ht; [|done]. by rewrite (Hm p).
Qed.

(** What an operation on other frames preserves of an address space. *)
Lemma space_frame m m' a a' root :
  space_wf m a root →
  (∀ t i, owners a !! t = Some (owner_page_table root) → m' t i = m t i) →
  (∀ t, owners a !! t = Some (owner_page_table root) → owners a' !! t = Some (owner_page_table root)) →
  (∀ f, mappable a root f → mappable a' root f) →
  space_wf m' a' root ∧ ∀ p i, path_ok p → leaf_at m' root p i = leaf_at m root p i.
Proof.
  intros Hsp Hm Hown Hmap.
  assert (Hq : ∀ q t i, path_ok q → table_at m root q = Some t → m' t i = m t i).
  { intros q t i Hq Ht. apply Hm. by eapply sw_owner. }
  assert (Hat := table_at_frame m m' root Hq). split; [|by apply leaf_at_frame].
  constructor.
  - intros p t Hp Ht. rewrite Hat in Ht by done. apply Hown. by eapply sw_owner.
  - intros p q t Hp Hq' Ht Ht'. rewrite Hat in Ht, Ht' by done. by eapply (sw_inj _ _ _ _ Hsp).
  - intros p t i Hp Ht Hpr. destruct (path_ok_init p i Hp) as (Hp' & Hi & _).
    rewrite Hat in Ht by done. rewrite (Hq p) in Hpr |- * by done. by eapply sw_dir.
  - intros p t i Hp Hl Hi Ht Hpr. rewrite Hat in Ht by done. rewrite (Hq p) in Hpr |- * by done.
    destruct (sw_leaf _ _ _ _ Hsp p t i Hp Hl Hi Ht Hpr) as [H1 H2]. split; [done|]. by apply Hmap.
Qed.

(** A write to one table shows only below the entry it changes. *)
Lemma table_at_write ok m a root p t i e :
  tree_wf ok m a root → path_ok p → table_at m root p = Some t →
  ∀ q, path_ok q → ¬ (p ++ [i]) `prefix_of` q → table_at (write_entry t i e m) root q = table_at m root q.
Proof.
  intros Hsp Hp Ht q. induction q as [|j q IH] using rev_ind; intros Hq Hpre; [done|].
  destruct (path_ok_init q j Hq) as (Hq' & Hj & _). rewrite !table_at_snoc.
  rewrite IH; [|done|intros H; apply Hpre; by apply prefix_app_r].
  destruct (table_at m root q) as [u|] eqn:Hu; [|done]. f_equal. apply write_other.
  destruct (decide (u = t)) as [->|]; [right|by left]. intros ->. apply Hpre.
  assert (q = p) as -> by (by eapply (sw_inj _ _ _ _ Hsp)). done.
Qed.

(** * Growing an address space *)

(** Every table frame of the address space has its place in the tree. *)
Definition tables_placed (root : Z) (s : Paging) : Prop := ∀ t,
  owners (pg_frames s) !! t = Some (owner_page_table root) →
  ∃ p, path_ok p ∧ table_at (pg_mem s) root p = Some t.

(** How one call that maps a page changes the state, whatever its outcome, when it
    does not reach the page's own entry: new tables may appear, no translation
    changes. *)
Record grows (root : Z) (s s' : Paging) : Prop := mk_grows {
  gr_frames : frames_wf (pg_frames s');
  gr_usable : sp_usable (frame_view (pg_frames s')) = sp_usable (frame_view (pg_frames s));
  gr_owners x o : owners (pg_frames s) !! x = Some o → owners (pg_frames s') !! x = Some o;
  gr_new x o : owners (pg_frames s') !! x = Some o →
    owners (pg_frames s) !! x = Some o ∨
    o = owner_page_table root ∧ contains (pg_frames s) (mkPhysicalFrame x) = true;
  gr_mem t i : pg_mem s' t i ≠ pg_mem s t i → owners (pg_frames s') !! t = Some (owner_page_table root);
  gr_kernel i : ENTRY_COUNT / 2 ≤ i → pg_mem s' root i = pg_mem s root i;
  gr_space : space_wf (pg_mem s') (pg_frames s') root;
  gr_leaf p i : path_ok p → length p = 3 → i < ENTRY_COUNT →
    leaf_at (pg_mem s') root p i = leaf_at (pg_mem s) root p i;
  gr_placed : tables_placed root s → tables_placed root s'
}.

Lemma grows_refl root s : frames_wf (pg_frames s) → space_wf (pg_mem s) (pg_frames s) root → grows root s s.
Proof. intros Hwf Hsp. constructor; try done. by left. Qed.

Lemma contains_same a a' f : frames_wf a → frames_wf a' →
  sp_usable (frame_view a') = sp_usable (frame_view a) →
  contains a' (mkPhysicalFrame f) = contains a (mkPhysicalFrame f).
Proof. intros [Ha _] [Ha' _] Hu. rewrite !contains_usable by done. unfold usable. by rewrite Hu. Qed.

Lemma grows_trans root s1 s2 s3 : frames_wf (pg_frames s1) →
  grows root s1 s2 → grows root s2 s3 → grows root s1 s3.
Proof.
  intros Hwf H1 H2. constructor; try apply H2.
  - by rewrite (gr_usable _ _ _ H2), (gr_usable _ _ _ H1).
  - intros x o Hx. by apply (gr_owners _ _ _ H2), (gr_owners _ _ _ H1).
  - intros x o Hx. destruct (gr_new _ _ _ H2 x o Hx) as [Hx'|[-> Hc]].
    + by apply (gr_new _ _ _ H1).
    + right. split; [done|]. rewrite <-(contains_same (pg_frames s1) (pg_frames s2)); try done.
      * by apply (gr_frames root s1).
      * by apply (gr_usable root).
  - intros t i Ht. destruct (decide (pg_mem s2 t i = pg_mem s1 t i)) as [He|He].
    + apply (gr_mem _ _ _ H2 t i). congruence.
    + apply (gr_owners _ _ _ H2). by apply (gr_mem _ _ _ H1 t i).
  - intros i Hi. by rewrite (gr_kernel _ _ _ H2), (gr_kernel _ _ _ H1).
  - intros p i Hp Hl Hi. by rewrite (gr_leaf _ _ _ H2), (gr_leaf _ _ _ H1).
  - intros H. by apply (gr_placed _ _ _ H2), (gr_placed _ _ _ H1).
Qed.

Lemma grows_mappable root s s' r f : frames_wf (pg_frames s) → grows root s s' →
  mappable (pg_frames s) r f → mappable (pg_frames s') r f.
Proof.
  intros Hwf Hg. unfold mappable. destruct (owners (pg_frames s) !! f) as [o|] eqn:Ho.
  - rewrite (gr_owners _ _ _ Hg _ _ Ho). done.
  - intros Hc. destruct (owners (pg_frames s') !! f) as [o|] eqn:Ho'.
    + destruct (gr_new _ _ _ Hg _ _ Ho') as [?|[_ Hc']]; congruence.
    + rewrite (contains_same (pg_frames s)); try done; apply Hg.
Qed.

(** An address space with another root keeps all of its tables and translations. *)
Lemma grows_other root s s' r : frames_wf (pg_frames s) → grows root s s' → r ≠ root →
  space_wf (pg_mem s) (pg_frames s) r →
  space_wf (pg_mem s') (pg_frames s') r ∧
  ∀ p i, path_ok p → leaf_at (pg_mem s') r p i = leaf_at (pg_mem s) r p i.
Proof.
  intros Hwf Hg Hne Hsp. apply (space_frame _ _ (pg_frames s)); [done| |by intros t; apply Hg|].
  - intros t i Ht. destruct (decide (pg_mem s' t i = pg_mem s t i)) as [|He]; [done|].
    apply (gr_mem _ _ _ Hg) in He. apply (gr_owners _ _ _ Hg) in Ht. rewrite Ht in He.
    unfold owner_page_table in He. congruence.
  - intros f. by apply (grows_mappable root).
Qed.

(** * A new table *)

Lemma snoc_not_prefix {A} (p : list A) (i : A) : ¬ (p ++ [i]) `prefix_of` p.
Proof. intros H%prefix_length. rewrite length_app in H. cbn in H. lia. Qed.

Section new_table.
Context (m : PhysMem) (a a' : FrameAllocator) (root t n : Z) (p : list nat) (i : nat) (flags : PageFlags).
Hypothesis Hwf : frames_wf a.
Hypothesis Hwf' : frames_wf a'.
Hypothesis Hsp : space_wf m a root.
Hypothesis Hp : path_ok (p ++ [i]).
Hypothesis Ht : table_at m root p = Some t.
Hypothesis Hfree : entry_is_present (m t i) = false.
Hypothesis Hn : owners a !! n = None.
Hypothesis Hc : contains a (mkPhysicalFrame n) = true.
Hypothesis Hok : frame_ok n.
Hypothesis Hown : owners a' = <[n := owner_page_table root]> (owners a).
Hypothesis Husable : sp_usable (frame_view a') = sp_usable (frame_view a).
Hypothesis Huser : flags_user_accessible flags = true.

Let e : Z := entry_set (mkPhysicalFrame n) (table_bits flags).
Let m' : PhysMem := write_entry t i e (zero_table n m).

Lemma nt_old u : owners a !! u = Some (owner_page_table root) → u ≠ n.
Proof using All. intros Hu ->. congruence. Qed.

Lemma nt_t : owners a !! t = Some (owner_page_table root).
Proof using All. apply (sw_owner _ _ _ _ Hsp p); [by apply path_ok_init in Hp as [? _]|done]. Qed.

Lemma nt_entry : next_table e = Some n ∧ dir_entry e.
Proof using All.
  destruct (table_bits_ok flags Huser) as (Hb & Hu & Hw).
  pose proof (entry_set_present n _ Hok Hb). pose proof (entry_set_huge n _ Hok Hb).
  split.
  - apply next_table_Some. split_and!; [done..|]. by apply entry_set_address.
  - split_and!; [done| |]; unfold e; [rewrite entry_set_user|rewrite entry_set_writable]; done.
Qed.

(** Tables of the address space other than the changed entry. *)
Lemma nt_mem u j : owners a !! u = Some (owner_page_table root) → u ≠ t ∨ j ≠ i → m' u j = m u j.
Proof using All.
  intros Hu Hne. unfold m'. rewrite write_other by done. apply zero_table_other. by apply nt_old.
Qed.

Lemma nt_mem_new j : j < ENTRY_COUNT → m' n j = 0%Z.
Proof using All.
  intros Hj. unfold m'. rewrite write_table by (symmetry; apply nt_old, nt_t). by apply zero_table_same.
Qed.

Lemma nt_before q : path_ok q → ¬ (p ++ [i]) `prefix_of` q → table_at m' root q = table_at m root q.
Proof using All.
  induction q as [|j q IH] using rev_ind; intros Hq Hpre; [done|].
  destruct (path_ok_init q j Hq) as (Hq' & Hj & _). rewrite !table_at_snoc.
  rewrite IH; [|done|intros H; apply Hpre; by apply prefix_app_r].
  destruct (table_at m root q) as [u|] eqn:Hu; [|done]. f_equal. apply nt_mem; [by eapply sw_owner|].
  destruct (decide (u = t)) as [->|]; [right|by left]. intros ->. apply Hpre.
  assert (q = p) as ->; [|done]. apply (sw_inj _ _ _ _ Hsp q p t); try done. by apply path_ok_init in Hp as [? _].
Qed.

Lemma nt_at : table_at m' root (p ++ [i]) = Some n.
Proof using All.
  rewrite table_at_snoc, nt_before; [|by apply path_ok_init in Hp as [? _]|apply snoc_not_prefix].
  rewrite Ht. unfold m'. rewrite write_same. apply nt_entry.
Qed.

Lemma nt_below j q : path_ok ((p ++ [i]) ++ j :: q) → table_at m' root ((p ++ [i]) ++ j :: q) = None.
Proof using All.
  induction q as [|k q IH] using rev_ind; intros Hq.
  - rewrite table_at_snoc, nt_at. destruct (path_ok_init _ _ Hq) as (_ & Hj & _).
    by rewrite nt_mem_new.
  - rewrite app_comm_cons, app_assoc in Hq |- *. rewrite table_at_snoc.
    by rewrite IH by (by apply path_ok_init in Hq as [? _]).
Qed.

(** Every table of the new tree is an old one at its old place, or the new one. *)
Lemma nt_cases q u : path_ok q → table_at m' root q = Some u →
  (table_at m root q = Some u ∧ owners a !! u = Some (owner_page_table root)) ∨ (q = p ++ [i] ∧ u = n).
Proof using All.
  intros Hq Hu. destruct (decide ((p ++ [i]) `prefix_of` q)) as [[r ->]|Hpre].
  - right. destruct r as [|j r]; [|by rewrite nt_below in Hu].
    rewrite app_nil_r in *. rewrite nt_at in Hu. by simplify_eq.
  - left. rewrite nt_before in Hu by done. split; [done|]. by eapply sw_owner.
Qed.

Lemma nt_before_none q : path_ok q → (p ++ [i]) `prefix_of` q → table_at m root q = None.
Proof using All.
  assert (Hbase : table_at m root (p ++ [i]) = None).
  { rewrite table_at_snoc, Ht. unfold next_table. by rewrite Hfree. }
  intros Hq [r ->]. revert Hq. induction r as [|j r IH] using rev_ind; intros Hq; [by rewrite app_nil_r|].
  rewrite app_assoc in Hq |- *. rewrite table_at_snoc.
  by rewrite IH by (by apply path_ok_init in Hq as [? _]).
Qed.

Lemma nt_mappable r f : mappable a r f → mappable a' r f.
Proof using All.
  unfold mappable. rewrite Hown. destruct (decide (f = n)) as [->|Hne].
  - rewrite Hn, Hc. done.
  - rewrite lookup_insert_ne by done. destruct (owners a !! f); [done|].
    by rewrite (contains_same a a').
Qed.

Lemma nt_space : space_wf m' a' root.
Proof using All.
  constructor.
  - intros q u Hq Hu. rewrite Hown. destruct (nt_cases q u Hq Hu) as [[_ Ho]|[_ ->]].
    + rewrite lookup_insert_ne; [done|]. symmetry. by apply nt_old.
    + apply lookup_insert_eq.
  - intros q q' u Hq Hq' Hu Hu'.
    destruct (nt_cases q u Hq Hu) as [[H1 Ho1]|[-> ->]], (nt_cases q' _ Hq' Hu') as [[H2 Ho2]|[-> ?]].
    + by eapply (sw_inj _ _ _ _ Hsp).
    + subst. by apply nt_old in Ho1.
    + by apply nt_old in Ho2.
    + done.
  - intros q u j Hqj Hu Hpr. destruct (path_ok_init q j Hqj) as (Hq & Hj & _).
    destruct (nt_cases q u Hq Hu) as [[H1 Ho]|[-> ->]]; [|by rewrite nt_mem_new in Hpr].
    destruct (decide (u = t ∧ j = i)) as [[-> ->]|Hne].
    + unfold m'. rewrite write_same. apply nt_entry.
    + rewrite nt_mem in Hpr |- * by (done || by destruct (decide (u = t)), (decide (j = i)); naive_solver).
      by eapply sw_dir.
  - intros q u j Hq Hl Hj Hu Hpr.
    destruct (nt_cases q u Hq Hu) as [[H1 Ho]|[-> ->]]; [|by rewrite nt_mem_new in Hpr].
    assert (Hut : u ≠ t).
    { intros ->. assert (q = p) as ->.
      { apply (sw_inj _ _ _ _ Hsp q p t); try done. by apply path_ok_init in Hp as [? _]. }
      apply path_ok_init in Hp as (_ & _ & ?). lia. }
    rewrite nt_mem in Hpr |- * by auto.
    destruct (sw_leaf _ _ _ _ Hsp q u j Hq Hl Hj H1 Hpr) as [? ?]. split; [done|]. by apply nt_mappable.
Qed.

Lemma nt_leaf q j : path_ok q → length q = 3 → j < ENTRY_COUNT → leaf_at m' root q j = leaf_at m root q j.
Proof using All.
  intros Hq Hl Hj. unfold leaf_at. destruct (decide ((p ++ [i]) `prefix_of` q)) as [Hpre|Hpre].
  - rewrite (nt_before_none q Hq Hpre). destruct (table_at m' root q) as [u|] eqn:Hu; [|done].
    destruct (nt_cases q u Hq Hu) as [[H1 _]|[_ ->]].
    + rewrite nt_before_none in H1 by done. done.
    + by rewrite nt_mem_new.
  - rewrite nt_before by done. destruct (table_at m root q) as [u|] eqn:Hu; [|done].
    assert (Hut : u ≠ t).
    { intros ->. assert (q = p) as ->.
      { apply (sw_inj _ _ _ _ Hsp q p t); try done. by apply path_ok_init in Hp as [? _]. }
      apply path_ok_init in Hp as (_ & _ & ?). lia. }
    rewrite nt_mem; [done| |by left]. by eapply sw_owner.
Qed.

Lemma nt_kernel k : ENTRY_COUNT / 2 ≤ k → m' root k = m root k.
Proof using All.
  intros Hk. apply nt_mem; [by apply (sw_owner _ _ _ _ Hsp []); [apply path_ok_nil|]|].
  destruct (decide (t = root)) as [->|]; [right|by left]. intros ->.
  assert (p = []) as ->.
  { apply (sw_inj _ _ _ _ Hsp p [] root); [by apply path_ok_init in Hp as [? _]|apply path_ok_nil|done|done]. }
  apply path_ok_head in Hp. lia.
Qed.

Lemma nt_placed : tables_placed root (mkPaging m a) → tables_placed root (mkPaging m' a').
Proof using All.
  intros H u. cbn [pg_mem pg_frames] in *. rewrite Hown. destruct (decide (u = n)) as [->|Hne].
  - intros _. exists (p ++ [i]). split; [done|apply nt_at].
  - rewrite lookup_insert_ne by done. intros Hu. destruct (H u Hu) as (q & Hq & Hat). exists q. split; [done|].
    cbn [pg_mem] in *. rewrite nt_before; [done|done|]. intros Hpre. by rewrite nt_before_none in Hat.
Qed.

Lemma nt_grows : grows root (mkPaging m a) (mkPaging m' a').
Proof using All.
  constructor; cbn [pg_mem pg_frames].
  - done.
  - done.
  - intros x o Hx. rewrite Hown, lookup_insert_ne; [done|]. intros ->. congruence.
  - intros x o. rewrite Hown. destruct (decide (x = n)) as [->|Hne].
    + rewrite lookup_insert_eq. intros [= <-]. auto.
    + rewrite lookup_insert_ne by done. auto.
  - intros u j Hu. rewrite Hown. destruct (decide (u = n)) as [->|Hun]; [apply lookup_insert_eq|].
    rewrite lookup_insert_ne by done. destruct (decide (u = t)) as [->|Hut]; [apply nt_t|].
    exfalso. apply Hu. unfold m'. rewrite write_table by done. by apply zero_table_other.
  - apply nt_kernel.
  - apply nt_space.
  - apply nt_leaf.
  - apply nt_placed.
Qed.
End new_table.

(** * Mapping *)

Lemma lor_user e : entry_is_user_accessible e = true → entry_add_flags e USER_ACCESSIBLE = e.
Proof.
  rewrite user_bit. intros He. unfold entry_add_flags. apply Z.bits_inj_iff'. intros k Hk.
  rewrite Z.lor_spec. change USER_ACCESSIBLE with (2 ^ 2)%Z. rewrite Z.pow2_bits_eqb by done.
  destruct (Z.eqb_spec 2 k) as [<-|]; [by rewrite He|]. by rewrite orb_false_r.
Qed.

Lemma grows_same_mem root m m' a : frames_wf a → space_wf m a root → (∀ t i, m' t i = m t i) →
  grows root (mkPaging m a) (mkPaging m' a).
Proof.
  intros Hwf Hsp Hm. destruct (space_frame m m' a a root Hsp) as [Hsp' Hleaf]; try done.
  constructor; cbn; try done.
  - by left.
  - intros t i H. by rewrite Hm in H.
  - intros p i Hp _ _. by apply Hleaf.
  - intros H t Ht. destruct (H t Ht) as (p & Hp & Hat). exists p. split; [done|]. cbn in *.
    by rewrite (table_at_frame m m') by (done || intros; apply Hm).
Qed.

Lemma grows_same_owners root m a a' : frames_wf a → frames_wf a' → space_wf m a root →
  owners a' = owners a → sp_usable (frame_view a') = sp_usable (frame_view a) →
  grows root (mkPaging m a) (mkPaging m a').
Proof.
  intros Hwf Hwf' Hsp Ho Hu. destruct (space_frame m m a a' root Hsp) as [Hsp' Hleaf]; try done.
  - by rewrite Ho.
  - intros f. unfold mappable. rewrite Ho. by rewrite (contains_same a a').
  - constructor; cbn; try done; rewrite ?Ho; try done; [by left|].
    intros H t Ht. apply (H t). cbn in *. by rewrite Ho in Ht.
Qed.

Lemma ensure_next_table_spec root s p t i flags :
  frames_wf (pg_frames s) → space_wf (pg_mem s) (pg_frames s) root → path_ok (p ++ [i]) →
  table_at (pg_mem s) root p = Some t → flags_user_accessible flags = true →
  let '(r, s') := ensure_next_table t i flags (owner_page_table root) s in
  grows root s s' ∧
  match r with
  | Ok t' => table_at (pg_mem s') root (p ++ [i]) = Some t'
  | Err e => e = OutOfFrames ∧ out_of_frames (pg_frames s)
  end.
Proof.
  destruct s as [m a]. cbn [pg_mem pg_frames]. intros Hwf Hsp Hp Ht Hu. unfold ensure_next_table. cbn [pg_mem pg_frames].
  rewrite Hu. destruct (entry_is_present (m t i)) eqn:Hpr.
  - destruct (sw_dir _ _ _ _ Hsp p t i Hp Ht Hpr) as (Hh & Hus & _). rewrite Hh, lor_user by done.
    set (m' := write_entry t i (m t i) m).
    assert (Hm : ∀ u j, m' u j = m u j).
    { intros u j. unfold m'. destruct (decide (u = t ∧ j = i)) as [[-> ->]|Hne]; [by rewrite write_same|].
      apply write_other. destruct (decide (u = t)), (decide (j = i)); naive_solver. }
    split; [by apply (grows_same_mem root m m')|]. cbn [pg_mem set eta_Paging].
    rewrite (table_at_frame m m'); [|by intros; apply Hm|done]. rewrite table_at_snoc, Ht.
    by apply next_table_Some.
  - pose proof (allocate_owned_spec (owner_page_table root) a Hwf) as Ha.
    destruct (allocate_owned (owner_page_table root) a) as [[[n]|] a']; cbn [frame_start] in *.
    + destruct Ha as (Hwf' & Husb & Hn & Hown & Hc & Hal).
      assert (Hok : frame_ok n) by (apply (owned_frame_ok a' n (owner_page_table root)); [done|]; rewrite Hown; apply lookup_insert_eq).
      split; [by eapply nt_grows|]. cbn [pg_mem]. by apply (nt_at m a a' root t n p i flags).
    + destruct Ha as (Hwf' & Husb & Hown & Hout). split; [|done]. by apply grows_same_owners.
Qed.

(** Where the walk for an address ends. *)
Definition va_path (va : Z) : list nat := [page_index va 39; page_index va 30; page_index va 21].
Definition va_leaf (va : Z) : nat := page_index va 12.
Definition leaf (m : PhysMem) (root va : Z) : option Z := leaf_at m root (va_path va) (va_leaf va).

Definition user_address (va : Z) : Prop := (0 ≤ va < USER_CANONICAL_LIMIT)%Z.

Lemma page_index_lt va k : page_index va k < ENTRY_COUNT.
Proof.
  unfold page_index, ENTRY_COUNT. change 0x1ff%Z with (Z.ones 9). rewrite Z.land_ones by lia.
  pose proof (Z.mod_pos_bound (Z.shiftr va k) (2 ^ 9)). lia.
Qed.

Lemma va_path_ok va : user_address va → path_ok (va_path va).
Proof.
  intros [Hva1 Hva2]. split; [done|]. split; [repeat (constructor; [apply page_index_lt|]); constructor|].
  intros i [= <-]. unfold page_index. change 0x1ff%Z with (Z.ones 9). rewrite Z.land_ones by lia.
  rewrite Z.shiftr_div_pow2 by lia.
  assert (va / 2 ^ 39 < 256)%Z by (apply Z.div_lt_upper_bound; [lia|]; unfold USER_CANONICAL_LIMIT in *; lia).
  assert (0 ≤ va / 2 ^ 39)%Z by (apply Z.div_pos; lia).
  rewrite Z.mod_small by lia. change (ENTRY_COUNT / 2) with 256. lia.
Qed.

(** Two addresses share their entry only when they lie in the same page. *)
Definition page_number (va : Z) : Z := (va / FRAME_SIZE)%Z.

Lemma page_index_arith va k : (0 ≤ va)%Z → (0 ≤ k)%Z →
  Z.of_nat (page_index va k) = ((va / 2 ^ k) mod 512)%Z.
Proof.
  intros Hv Hk. unfold page_index. change 0x1ff%Z with (Z.ones 9). rewrite Z.land_ones by lia.
  rewrite Z.shiftr_div_pow2 by lia. rewrite Z2Nat.id; [done|]. apply Z.mod_pos_bound. lia.
Qed.

Lemma same_indexes_same_page va va' : user_address va → user_address va' →
  va_path va = va_path va' → va_leaf va = va_leaf va' → page_number va = page_number va'.
Proof.
  unfold va_path, va_leaf, user_address, USER_CANONICAL_LIMIT. intros [H1 H2] [H1' H2'] [= E1 E2 E3] E4.
  apply (f_equal Z.of_nat) in E1, E2, E3, E4. rewrite !page_index_arith in E1, E2, E3, E4 by lia.
  unfold page_number, FRAME_SIZE.
  assert (D : ∀ v, (v / 2 ^ 39 = v / 4096 / 512 / 512 / 512 ∧ v / 2 ^ 30 = v / 4096 / 512 / 512 ∧
                    v / 2 ^ 21 = v / 4096 / 512)%Z) by (intros v; rewrite !Z.div_div by lia; done).
  destruct (D va) as (D1 & D2 & D3), (D va') as (D1' & D2' & D3').
  rewrite D1, D1' in E1. rewrite D2, D2' in E2. rewrite D3, D3' in E3.
  change (2 ^ 12)%Z with 4096%Z in E4. clear D D1 D2 D3 D1' D2' D3'.
  assert (B : (0 ≤ va / 4096 < 512 * 512 * 512 * 256)%Z) by (split; [apply Z.div_pos|apply Z.div_lt_upper_bound]; lia).
  assert (B' : (0 ≤ va' / 4096 < 512 * 512 * 512 * 256)%Z) by (split; [apply Z.div_pos|apply Z.div_lt_upper_bound]; lia).
  set (x := (va / 4096)%Z) in *. set (y := (va' / 4096)%Z) in *. clearbody x y.
  assert (Hstep : ∀ u v, (u mod 512 = v mod 512 → u / 512 = v / 512 → u = v)%Z).
  { intros u v Hmod Hdiv. rewrite (Z.div_mod u 512), (Z.div_mod v 512) by done. congruence. }
  apply Hstep; [done|]. apply Hstep; [done|]. apply Hstep; [done|].
  rewrite !Z.mod_small in E1; [done| |]; rewrite !Z.div_div by lia;
    (split; [apply Z.div_pos|apply Z.div_lt_upper_bound]; lia).
Qed.

(** * The processor's view *)

(** The walk of the memory management unit: the frame, and whether user mode may
    access and write it; both rights need the consent of every level. *)
Fixpoint mmu_walk (m : PhysMem) (t : Z) (indexes : list nat) (user writable : bool) : option (Z * bool * bool) :=
  match indexes with
  | [] => None
  | i :: rest =>
      let e := m t i in
      if entry_is_present e && negb (entry_is_huge e) then
        let user := user && entry_is_user_accessible e in
        let writable := writable && entry_is_writable e in
        match rest with
        | [] => Some (entry_address e, user, writable)
        | _ => mmu_walk m (entry_address e) rest user writable
        end
      else None
  end.
Definition translate (m : PhysMem) (root va : Z) : option (Z * bool * bool) :=
  mmu_walk m root (page_indexes va) true true.

Definition leaf_view (e : Z) : Z * bool * bool :=
  (entry_address e, entry_is_user_accessible e, entry_is_writable e).

Lemma mmu_walk_dir m a root p t i rest :
  space_wf m a root → path_ok (p ++ [i]) → table_at m root p = Some t → rest ≠ [] →
  mmu_walk m t (i :: rest) true true =
  match table_at m root (p ++ [i]) with Some u => mmu_walk m u rest true true | None => None end.
Proof.
  intros Hsp Hp Ht Hr. rewrite table_at_snoc, Ht. cbn [mmu_walk]. unfold next_table.
  destruct (entry_is_present (m t i)) eqn:Hpr; [|done].
  destruct (sw_dir _ _ _ _ Hsp p t i Hp Ht Hpr) as (-> & -> & ->). cbn. by destruct rest.
Qed.

(** On a well-formed address space the page's own entry decides. *)
Lemma translate_leaf m a root va : space_wf m a root → user_address va →
  translate m root va = leaf_view <$> leaf m root va.
Proof.
  intros Hsp Hva. pose proof (va_path_ok va Hva) as Hp. unfold translate, leaf, leaf_at, page_indexes, va_path, va_leaf in *.
  assert (Hp2 : path_ok ([page_index va 39; page_index va 30] ++ [page_index va 21])) by exact Hp.
  pose proof (path_ok_init _ _ Hp2) as (Hp1 & _ & _).
  assert (Hp1' : path_ok ([page_index va 39] ++ [page_index va 30])) by exact Hp1.
  pose proof (path_ok_init _ _ Hp1') as (Hp0 & _ & _).
  rewrite (mmu_walk_dir m a root [] root _ _ Hsp Hp0 eq_refl) by done. cbn [app].
  destruct (table_at m root [page_index va 39]) as [t1|] eqn:H1.
  2: { cbn in H1 |- *. by destruct (next_table _). }
  rewrite (mmu_walk_dir m a root _ t1 _ _ Hsp Hp1' H1) by done. cbn [app].
  destruct (table_at m root [page_index va 39; page_index va 30]) as [t2|] eqn:H2.
  2: { cbn in H2 |- *. do 2 (destruct (next_table _); [|done]). done. }
  rewrite (mmu_walk_dir m a root _ t2 _ _ Hsp Hp2 H2) by done. cbn [app].
  destruct (table_at m root [page_index va 39; page_index va 30; page_index va 21]) as [t3|] eqn:H3; [|done].
  cbn [mmu_walk]. by destruct (_ && _).
Qed.

(** Writing the entry of a page. *)
Lemma write_leaf ok m a root p t i e :
  tree_wf ok m a root → path_ok p → length p = 3 → i < ENTRY_COUNT → table_at m root p = Some t →
  (entry_is_present e = true → entry_is_huge e = false ∧ ok a root (entry_address e)) →
  tree_wf ok (write_entry t i e m) a root ∧
  leaf_at (write_entry t i e m) root p i = (if entry_is_present e then Some e else None) ∧
  (∀ q j, path_ok q → length q = 3 → (q, j) ≠ (p, i) →
     leaf_at (write_entry t i e m) root q j = leaf_at m root q j) ∧
  (∀ j, ENTRY_COUNT / 2 ≤ j → write_entry t i e m root j = m root j).
Proof.
  intros Hsp Hp Hl Hi Ht He. set (m' := write_entry t i e m).
  assert (Hat : ∀ q, path_ok q → table_at m' root q = table_at m root q).
  { intros q Hq. apply (table_at_write ok m a root p); try done. intros H%prefix_length.
    rewrite length_app in H. destruct Hq as [? _]. cbn in H. lia. }
  assert (Hmem : ∀ q u j, path_ok q → table_at m root q = Some u → (q, j) ≠ (p, i) → m' u j = m u j).
  { intros q u j Hq Hu Hne. apply write_other. destruct (decide (u = t)) as [->|]; [right|by left].
    intros ->. apply Hne. f_equal. by eapply (sw_inj _ _ _ _ Hsp). }
  split; [|split; [|split]].
  - constructor.
    + intros q u Hq Hu. rewrite Hat in Hu by done. by eapply sw_owner.
    + intros q q' u Hq Hq' Hu Hu'. rewrite Hat in Hu, Hu' by done. by eapply (sw_inj _ _ _ _ Hsp).
    + intros q u j Hqj Hu Hpr. destruct (path_ok_init q j Hqj) as (Hq & Hj & Hlq). rewrite Hat in Hu by done.
      rewrite (Hmem q) in Hpr |- * by (done || by intros [= -> ->]; lia). by eapply sw_dir.
    + intros q u j Hq Hlq Hj Hu Hpr. rewrite Hat in Hu by done.
      destruct (decide ((q, j) = (p, i))) as [[= -> ->]|Hne].
      * assert (u = t) as -> by congruence. unfold m' in *. rewrite write_same in *. by apply He.
      * rewrite (Hmem q) in Hpr |- * by done. by eapply sw_leaf.
  - unfold leaf_at. rewrite Hat, Ht by done. unfold m'. rewrite write_same.
    destruct (entry_is_present e); [|done]. by destruct He as [-> _].
  - intros q j Hq Hlq Hne. unfold leaf_at. rewrite Hat by done.
    destruct (table_at m root q) as [u|] eqn:Hu; [|done]. by rewrite (Hmem q).
  - intros j Hj. apply write_other. destruct (decide (root = t)) as [->|]; [|by left].
    assert (p = []) as -> by (eapply (sw_inj _ _ _ _ Hsp); [done|apply path_ok_nil|done|done]). done.
Qed.

Lemma map_page_spec root s va f flags :
  frames_wf (pg_frames s) → space_wf (pg_mem s) (pg_frames s) root → user_address va →
  flags_user_accessible flags = true →
  let '(r, s') := map_page_in_root root va (mkPhysicalFrame f) flags s in
  match r with
  | Ok _ =>
      leaf (pg_mem s) root va = None ∧
      ∃ s1 t, grows root s s1 ∧ pg_frames s' = pg_frames s1 ∧
              table_at (pg_mem s1) root (va_path va) = Some t ∧
              pg_mem s' = write_entry t (va_leaf va) (entry_set (mkPhysicalFrame f) (flag_bits flags)) (pg_mem s1)
  | Err e => grows root s s' ∧
      match e with
      | AlreadyMapped => is_Some (leaf (pg_mem s) root va)
      | OutOfFrames => ∃ s1, grows root s s1 ∧ out_of_frames (pg_frames s1)
      | MapHugePageEncountered => False
      end
  end.
Proof.
  intros Hwf Hsp Hva Hu. pose proof (va_path_ok va Hva) as Hp.
  unfold map_page_in_root, map_page_in_table. unfold page_indexes. cbn [nth]. unfold va_path, leaf in *.
  assert (Hp2 : path_ok ([page_index va 39; page_index va 30] ++ [page_index va 21])) by exact Hp.
  pose proof (path_ok_init _ _ Hp2) as (Hp1 & _ & _).
  assert (Hp1' : path_ok ([page_index va 39] ++ [page_index va 30])) by exact Hp1.
  pose proof (path_ok_init _ _ Hp1') as (Hp0 & _ & _).
  pose proof (ensure_next_table_spec root s [] root (page_index va 39) flags Hwf Hsp Hp0 eq_refl Hu) as E1.
  unfold rbind at 1. destruct (ensure_next_table root _ flags _ s) as [[t1|e1] s1].
  2: { destruct E1 as [G1 [-> Hout]]. split; [done|]. exists s. split; [by apply grows_refl|done]. }
  destruct E1 as [G1 T1]. cbn [app] in T1.
  pose proof (ensure_next_table_spec root s1 _ t1 (page_index va 30) flags (gr_frames _ _ _ G1)
    (gr_space _ _ _ G1) Hp1' T1 Hu) as E2.
  unfold rbind at 1. destruct (ensure_next_table t1 _ flags _ s1) as [[t2|e2] s2].
  2: { destruct E2 as [G2 [-> Hout]]. split; [by eapply grows_trans|]. by exists s1. }
  destruct E2 as [G2 T2]. cbn [app] in T2.
  pose proof (ensure_next_table_spec root s2 _ t2 (page_index va 21) flags (gr_frames _ _ _ G2)
    (gr_space _ _ _ G2) Hp2 T2 Hu) as E3.
  assert (G12 : grows root s s2) by (by eapply grows_trans).
  unfold rbind at 1. destruct (ensure_next_table t2 _ flags _ s2) as [[t3|e3] s3].
  2: { destruct E3 as [G3 [-> Hout]]. split; [by eapply grows_trans|]. by exists s2. }
  destruct E3 as [G3 T3]. cbn [app] in T3.
  assert (G : grows root s s3) by (by eapply grows_trans).
  pose proof (gr_leaf _ _ _ G (va_path va) (va_leaf va) Hp eq_refl (page_index_lt _ _)) as Hleaf.
  unfold rbind, rget, rguard, rmodify, va_path, va_leaf in *. rewrite <-Hleaf. unfold leaf_at. rewrite T3.
  destruct (entry_is_present (pg_mem s3 t3 (page_index va 12))) eqn:Hpr; cbn [negb].
  - split; [done|]. destruct (sw_leaf _ _ _ _ (gr_space _ _ _ G) _ t3 _ Hp eq_refl (page_index_lt va 12) T3 Hpr) as [-> _].
    by eexists.
  - split; [done|]. exists s3, t3. by split_and!.
Qed.

(** * Shrinking an address space *)

(** How unmapping, pruning and reclaiming change the state. *)
Record shrinks (ok : FrameAllocator → Z → Z → Prop) (root : Z) (s s' : Paging) : Prop := mk_shrinks {
  sh_frames : frames_wf (pg_frames s');
  sh_usable : sp_usable (frame_view (pg_frames s')) = sp_usable (frame_view (pg_frames s));
  sh_owners x o : owners (pg_frames s') !! x = Some o → owners (pg_frames s) !! x = Some o;
  sh_gone x o : owners (pg_frames s) !! x = Some o → owners (pg_frames s') !! x = None →
    o = owner_page_table root ∨ o = owner_process_memory root;
  sh_mem t i : pg_mem s' t i ≠ pg_mem s t i → owners (pg_frames s) !! t = Some (owner_page_table root);
  sh_cleared t i : pg_mem s' t i = pg_mem s t i ∨ pg_mem s' t i = 0%Z;
  sh_kernel i : ENTRY_COUNT / 2 ≤ i → pg_mem s' root i = pg_mem s root i;
  sh_space : tree_wf ok (pg_mem s') (pg_frames s') root;
  sh_tables p t : path_ok p → table_at (pg_mem s') root p = Some t → table_at (pg_mem s) root p = Some t;
  sh_leaf p i e : path_ok p → length p = 3 → i < ENTRY_COUNT →
    leaf_at (pg_mem s') root p i = Some e → leaf_at (pg_mem s) root p i = Some e;
  sh_mapped p i e : path_ok p → length p = 3 → i < ENTRY_COUNT → leaf_at (pg_mem s) root p i = Some e →
    owners (pg_frames s') !! entry_address e = Some (owner_process_memory root) →
    leaf_at (pg_mem s') root p i = Some e
}.

(** No table that is still owned lost its place in the tree. *)
Definition keeps_owned (root : Z) (s s' : Paging) : Prop := ∀ p t,
  path_ok p → table_at (pg_mem s) root p = Some t → is_Some (owners (pg_frames s') !! t) →
  table_at (pg_mem s') root p = Some t.

Lemma shrinks_refl ok root s :
  frames_wf (pg_frames s) → tree_wf ok (pg_mem s) (pg_frames s) root → shrinks ok root s s.
Proof. intros Hwf Hsp. constructor; try done; [intros x o H1 H2; congruence|by left]. Qed.

Lemma shrinks_trans ok root s1 s2 s3 :
  shrinks ok root s1 s2 → shrinks ok root s2 s3 → shrinks ok root s1 s3.
Proof.
  intros H1 H2. constructor; try apply H2.
  - by rewrite (sh_usable _ _ _ _ H2), (sh_usable _ _ _ _ H1).
  - intros x o Hx. by apply (sh_owners _ _ _ _ H1), (sh_owners _ _ _ _ H2).
  - intros x o Hx Hn. destruct (owners (pg_frames s2) !! x) as [o'|] eqn:Hx2.
    + pose proof (sh_owners _ _ _ _ H1 _ _ Hx2). assert (o' = o) as -> by congruence.
      by apply (sh_gone _ _ _ _ H2 x o).
    + by apply (sh_gone _ _ _ _ H1 x o).
  - intros t i Ht. destruct (decide (pg_mem s2 t i = pg_mem s1 t i)) as [He|He].
    + apply (sh_owners _ _ _ _ H1), (sh_mem _ _ _ _ H2 t i). congruence.
    + by apply (sh_mem _ _ _ _ H1 t i).
  - intros t i. destruct (sh_cleared _ _ _ _ H2 t i) as [->|]; [apply H1|by right].
  - intros i Hi. by rewrite (sh_kernel _ _ _ _ H2), (sh_kernel _ _ _ _ H1).
  - intros p t Hp Ht. by apply (sh_tables _ _ _ _ H1), (sh_tables _ _ _ _ H2).
  - intros p i e Hp Hl Hi He. by apply (sh_leaf _ _ _ _ H1), (sh_leaf _ _ _ _ H2).
  - intros p i e Hp Hl Hi He Ho. apply (sh_mapped _ _ _ _ H2); try done.
    apply (sh_mapped _ _ _ _ H1); try done. by apply (sh_owners _ _ _ _ H2).
Qed.

Lemma keeps_owned_trans ok root s1 s2 s3 : shrinks ok root s2 s3 →
  keeps_owned root s1 s2 → keeps_owned root s2 s3 → keeps_owned root s1 s3.
Proof.
  intros Hsh H1 H2 p t Hp Ht [o Ho]. apply H2; [done| |by eexists].
  apply H1; [done|done|]. exists o. by apply (sh_owners _ _ _ _ Hsh).
Qed.

(** Other address spaces neither map the memory of this one nor use its tables. *)
Lemma shrinks_other ok root s s' r : frames_wf (pg_frames s) → shrinks ok root s s' → r ≠ root →
  space_wf (pg_mem s) (pg_frames s) r →
  space_wf (pg_mem s') (pg_frames s') r ∧
  ∀ p i, path_ok p → leaf_at (pg_mem s') r p i = leaf_at (pg_mem s) r p i.
Proof.
  intros Hwf Hg Hne Hsp. apply (space_frame _ _ (pg_frames s)); [done| | |].
  - intros t i Ht. destruct (decide (pg_mem s' t i = pg_mem s t i)) as [|He]; [done|].
    apply (sh_mem _ _ _ _ Hg) in He. unfold owner_page_table in *. congruence.
  - intros t Ht. destruct (owners (pg_frames s') !! t) as [o|] eqn:Ho.
    + apply (sh_owners _ _ _ _ Hg) in Ho. congruence.
    + destruct (sh_gone _ _ _ _ Hg _ _ Ht Ho) as [H|H]; injection H; congruence.
  - intros f. unfold mappable. destruct (owners (pg_frames s) !! f) as [o|] eqn:Ho.
    + intros Hmap. destruct (owners (pg_frames s') !! f) as [o'|] eqn:Ho'.
      { apply (sh_owners _ _ _ _ Hg) in Ho'. by simplify_eq. }
      destruct (sh_gone _ _ _ _ Hg _ _ Ho Ho') as [-> | ->]; destruct Hmap as [H|H]; try done; injection H; congruence.
    + intros Hc. destruct (owners (pg_frames s') !! f) as [o'|] eqn:Ho'.
      { apply (sh_owners _ _ _ _ Hg) in Ho'. congruence. }
      rewrite (contains_same (pg_frames s)); try done; apply Hg.
Qed.

(** ** Removing an empty table *)

Section drop_table.
Context (ok : FrameAllocator → Z → Z → Prop) (m : PhysMem) (a a' : FrameAllocator) (root t c : Z) (p : list nat) (i : nat).
Hypothesis Hwf : frames_wf a.
Hypothesis Hwf' : frames_wf a'.
Hypothesis Hsp : tree_wf ok m a root.
Hypothesis Hp : path_ok (p ++ [i]).
Hypothesis Ht : table_at m root p = Some t.
Hypothesis Hc : table_at m root (p ++ [i]) = Some c.
Hypothesis Hempty : ∀ j, j < ENTRY_COUNT → entry_is_present (m c j) = false.
Hypothesis Hown : owners a' = owners a ∨ owners a' = delete c (owners a).
Hypothesis Husable : sp_usable (frame_view a') = sp_usable (frame_view a).

Hypothesis Hok : ∀ f, ok a root f → ok a' root f.

Let m' : PhysMem := write_entry t i 0 m.

Lemma dt_p : path_ok p.
Proof using All. by apply path_ok_init in Hp as [? _]. Qed.

Lemma dt_before q : path_ok q → ¬ (p ++ [i]) `prefix_of` q → table_at m' root q = table_at m root q.
Proof using All. intros Hq Hpre. apply (table_at_write ok m a root p); try done. apply dt_p. Qed.

Lemma dt_below q : path_ok q → (p ++ [i]) `prefix_of` q → table_at m' root q = None.
Proof using All.
  intros Hq [r ->]. revert Hq. induction r as [|j r IH] using rev_ind; intros Hq.
  - rewrite app_nil_r, table_at_snoc, dt_before by (apply dt_p || apply snoc_not_prefix).
    rewrite Ht. unfold m'. by rewrite write_same.
  - rewrite app_assoc in Hq |- *. rewrite table_at_snoc.
    by rewrite IH by (by apply path_ok_init in Hq as [? _]).
Qed.

Lemma dt_old_below q j : path_ok q → j < ENTRY_COUNT → (p ++ [i]) `prefix_of` q →
  q = p ++ [i] ∨ table_at m root q = None.
Proof using All.
  intros Hq Hj [r ->]. revert Hq. induction r as [|k r IH] using rev_ind; intros Hq.
  { left. by rewrite app_nil_r. }
  right. rewrite app_assoc in Hq |- *. destruct (path_ok_init _ _ Hq) as (Hq' & Hk & _).
  rewrite table_at_snoc. destruct (IH Hq') as [Heq|Hn].
  - rewrite Heq, Hc. unfold next_table. by rewrite Hempty.
  - by rewrite Hn.
Qed.

Lemma dt_mem q u j : path_ok q → table_at m root q = Some u → (q, j) ≠ (p, i) → m' u j = m u j.
Proof using All.
  intros Hq Hu Hne. apply write_other. destruct (decide (u = t)) as [->|]; [right|by left].
  intros ->. apply Hne. f_equal. apply (sw_inj _ _ _ _ Hsp q p t); try done. apply dt_p.
Qed.

Lemma dt_tables q u : path_ok q → table_at m' root q = Some u →
  table_at m root q = Some u ∧ ¬ (p ++ [i]) `prefix_of` q ∧ u ≠ c.
Proof using All.
  intros Hq Hu. destruct (decide ((p ++ [i]) `prefix_of` q)) as [Hpre|Hpre]; [by rewrite dt_below in Hu|].
  rewrite dt_before in Hu by done. split; [done|]. split; [done|]. intros ->. apply Hpre.
  by rewrite (sw_inj _ _ _ _ Hsp q (p ++ [i]) c).
Qed.

Lemma dt_owners x o : x ≠ c → owners a !! x = Some o → owners a' !! x = Some o.
Proof using All. intros Hne Hx. destruct Hown as [-> | ->]; [done|]. by rewrite lookup_delete_ne. Qed.

Lemma dt_c : owners a !! c = Some (owner_page_table root).
Proof using All. by eapply sw_owner. Qed.

Lemma dt_space : tree_wf ok m' a' root.
Proof using All.
  constructor.
  - intros q u Hq Hu. destruct (dt_tables q u Hq Hu) as (Hu' & _ & Hne).
    apply dt_owners; [done|]. by eapply sw_owner.
  - intros q q' u Hq Hq' Hu Hu'. apply dt_tables in Hu as [Hu _]; [|done].
    apply dt_tables in Hu' as [Hu' _]; [|done]. by eapply (sw_inj _ _ _ _ Hsp).
  - intros q u j Hqj Hu Hpr. destruct (path_ok_init q j Hqj) as (Hq & Hj & _).
    destruct (dt_tables q u Hq Hu) as (Hu' & _ & _).
    destruct (decide ((q, j) = (p, i))) as [[= -> ->]|Hne].
    + assert (u = t) as -> by congruence. unfold m' in Hpr. by rewrite write_same in Hpr.
    + rewrite (dt_mem q) in Hpr |- * by done. by eapply sw_dir.
  - intros q u j Hq Hl Hj Hu Hpr. destruct (dt_tables q u Hq Hu) as (Hu' & _ & _).
    assert (Hne : (q, j) ≠ (p, i)).
    { intros [= -> ->]. apply path_ok_init in Hp as (_ & _ & ?). lia. }
    rewrite (dt_mem q) in Hpr |- * by done.
    destruct (sw_leaf _ _ _ _ Hsp q u j Hq Hl Hj Hu' Hpr) as [? ?]. split; [done|]. by apply Hok.
Qed.

Lemma dt_leaf q j : path_ok q → length q = 3 → j < ENTRY_COUNT → leaf_at m' root q j = leaf_at m root q j.
Proof using All.
  intros Hq Hl Hj. unfold leaf_at. destruct (decide ((p ++ [i]) `prefix_of` q)) as [Hpre|Hpre].
  - rewrite dt_below by done. destruct (dt_old_below q j Hq Hj Hpre) as [-> | ->]; [|done].
    rewrite Hc. by rewrite Hempty.
  - rewrite dt_before by done. destruct (table_at m root q) as [u|] eqn:Hu; [|done].
    rewrite (dt_mem q); [done..|]. intros [= -> ->]. apply path_ok_init in Hp as (_ & _ & ?). lia.
Qed.

Lemma dt_shrinks : shrinks ok root (mkPaging m a) (mkPaging m' a').
Proof using All.
  constructor; cbn [pg_mem pg_frames]; try done.
  - intros x o. destruct Hown as [-> | ->]; [done|]. intros Hx. by apply lookup_delete_Some in Hx as [_ ?].
  - intros x o Hx Hn. destruct (decide (x = c)) as [->|Hne].
    + left. rewrite dt_c in Hx. by simplify_eq.
    + rewrite (dt_owners x o) in Hn by done. done.
  - intros u j Hu. destruct (decide (u = t)) as [->|Hut]; [|by unfold m' in Hu; rewrite write_table in Hu].
    apply (sw_owner _ _ _ _ Hsp p); [apply dt_p|done].
  - intros u j. apply write_cleared.
  - intros j Hj. apply write_other. destruct (decide (root = t)) as [Hrt|]; [right|by left]. intros Hji.
    assert (p = []) as Hnil.
    { apply (sw_inj _ _ _ _ Hsp p [] root); [apply dt_p|apply path_ok_nil|rewrite Ht; congruence|done]. }
    pose proof Hp as Hi. rewrite Hnil in Hi. apply path_ok_head in Hi. lia.
  - apply dt_space.
  - intros q u Hq Hu. by apply dt_tables in Hu as [? _].
  - intros q j e Hq Hl Hj. by rewrite dt_leaf.
  - intros q j e Hq Hl Hj. by rewrite dt_leaf.
Qed.

Lemma dt_keeps : owners a' = delete c (owners a) → keeps_owned root (mkPaging m a) (mkPaging m' a').
Proof using All.
  intros Hdel q u Hq Hu [o Ho]. cbn [pg_mem pg_frames] in *.
  destruct (decide ((p ++ [i]) `prefix_of` q)) as [Hpre|Hpre]; [|by rewrite dt_before].
  destruct (dt_old_below q 0 Hq ltac:(unfold ENTRY_COUNT; lia) Hpre) as [-> |Hn]; [|congruence].
  assert (u = c) as -> by congruence. rewrite Hdel, lookup_delete_eq in Ho. done.
Qed.
End drop_table.

(** Freeing a page table leaves the mappable frames mappable. *)
Lemma mappable_delete a a' root r c f :
  frames_wf a → frames_wf a' → sp_usable (frame_view a') = sp_usable (frame_view a) →
  owners a !! c = Some (owner_page_table r) →
  owners a' = owners a ∨ owners a' = delete c (owners a) → mappable a root f → mappable a' root f.
Proof.
  intros Hwf Hwf' Hu Hc Hown. unfold mappable. destruct (decide (f = c)) as [->|Hne].
  - rewrite Hc. intros [|]; done.
  - replace (owners a' !! f) with (owners a !! f).
    + destruct (owners a !! f); [done|]. by rewrite (contains_same a a').
    + destruct Hown as [-> | ->]; [done|]. by rewrite lookup_delete_ne.
Qed.

(** ** Removing a page *)

Lemma drop_leaf m a a' root p t i :
  frames_wf a → frames_wf a' → sp_usable (frame_view a') = sp_usable (frame_view a) →
  tree_wf any_frame m a root → path_ok p → length p = 3 → i < ENTRY_COUNT → table_at m root p = Some t →
  entry_is_present (m t i) = true →
  (owners a' = owners a ∧ owners a !! entry_address (m t i) ≠ Some (owner_process_memory root)) ∨
  (owners a' = delete (entry_address (m t i)) (owners a) ∧
   owners a !! entry_address (m t i) = Some (owner_process_memory root)) →
  shrinks any_frame root (mkPaging m a) (mkPaging (write_entry t i 0 m) a') ∧
  keeps_owned root (mkPaging m a) (mkPaging (write_entry t i 0 m) a').
Proof.
  intros Hwf Hwf' Hus Hsp Hp Hl Hi Ht Hpr Hcase. set (f := entry_address (m t i)) in *.
  set (m' := write_entry t i 0 m).
  destruct (write_leaf any_frame m a root p t i 0 Hsp Hp Hl Hi Ht) as (Hsp' & Hleaf & Hother & Hker); [done|].
  fold m' in Hsp', Hleaf, Hother, Hker. change (leaf_at m' root p i = None) in Hleaf.
  assert (Hat : ∀ q, path_ok q → table_at m' root q = table_at m root q).
  { intros q Hq. apply (table_at_write any_frame m a root p); try done. intros H%prefix_length.
    rewrite length_app in H. destruct Hq as [? _]. cbn in H. lia. }
  assert (Hsub : ∀ x o, owners a' !! x = Some o → owners a !! x = Some o).
  { intros x o. destruct Hcase as [[-> _]|[-> _]]; [done|]. intros Hx. by apply lookup_delete_Some in Hx as [_ ?]. }
  assert (Hkeep : ∀ x o, owners a !! x = Some o → o ≠ owner_process_memory root → owners a' !! x = Some o).
  { intros x o Hx Ho. destruct Hcase as [[-> _]|[-> Hf]]; [done|]. rewrite lookup_delete_ne; [done|]. congruence. }
  split; [constructor; cbn [pg_mem pg_frames]|]; try done.
  - intros x o Hx Hn. destruct (decide (o = owner_process_memory root)) as [->|Ho]; [by right|].
    rewrite (Hkeep x o) in Hn by done. done.
  - intros u j Hu. destruct (decide (u = t)) as [->|Hut]; [by apply (sw_owner _ _ _ _ Hsp p)|].
    unfold m' in Hu. by rewrite write_table in Hu.
  - intros u j. apply write_cleared.
  - destruct Hsp'. constructor; try done. intros q u Hq Hu. apply Hkeep; [by eapply sw_owner0|done].
  - intros q u Hq. by rewrite Hat.
  - intros q j e Hq Hlq Hj He. destruct (decide ((q, j) = (p, i))) as [[= -> ->]|Hne]; [congruence|].
    by rewrite <-Hother.
  - intros q j e Hq Hlq Hj He Ho. destruct (decide ((q, j) = (p, i))) as [[= -> ->]|Hne]; [|by rewrite Hother].
    unfold leaf_at in He. rewrite Ht in He. case_match; [|done]. injection He as <-. fold f in Ho.
    destruct Hcase as [[Heq Hnot]|[Heq _]]; rewrite Heq in Ho; [congruence|].
    by rewrite lookup_delete_eq in Ho.
  - intros q u Hq Hu _. cbn [pg_mem]. by rewrite Hat.
Qed.

(** * Reclaiming *)

(** The states of a reclamation: the tree is intact and every frame freed so far is
    counted. *)
Record reclaiming (root : Z) (rs : Reclaiming) (K R : Z) : Prop := mk_reclaiming {
  re_frames : frames_wf (pg_frames (rc_paging rs));
  re_tree : tree_wf any_frame (pg_mem (rc_paging rs)) (pg_frames (rc_paging rs)) root;
  re_stats : (0 ≤ user_leaf_frames (rc_stats rs))%Z ∧ (0 ≤ page_table_frames (rc_stats rs))%Z;
  re_count : (user_leaf_frames (rc_stats rs) + page_table_frames (rc_stats rs) +
              Z.of_nat (size (owners (pg_frames (rc_paging rs)))) = K)%Z;
  re_room : (user_leaf_frames (rc_stats rs) + page_table_frames (rc_stats rs) + R =
             Z.of_nat (length (recycled (pg_frames (rc_paging rs)))))%Z
}.

(** What a step of the reclamation of table [t] at path [p] ensures. *)
Record reclaimed (root K R : Z) (p : list nat) (t : Z) (rs : Reclaiming)
    (r : Result ReclaimError unit) (rs' : Reclaiming) : Prop := mk_reclaimed {
  rd_inv : reclaiming root rs' K R;
  rd_shrinks : shrinks any_frame root (rc_paging rs) (rc_paging rs');
  rd_keeps : r = Ok tt → keeps_owned root (rc_paging rs) (rc_paging rs');
  rd_table : table_at (pg_mem (rc_paging rs')) root p = Some t;
  rd_error e : r = Err e → e = ReclaimFree FreeStackFull ∧
    length (recycled (pg_frames (rc_paging rs'))) = FREE_STACK_CAPACITY
}.

Lemma reclaimed_refl root K R p t rs : reclaiming root rs K R →
  table_at (pg_mem (rc_paging rs)) root p = Some t → reclaimed root K R p t rs (Ok tt) rs.
Proof.
  intros Hi Ht. constructor; try done; [apply shrinks_refl; apply Hi|]. by intros _ q u _ Hu _.
Qed.

(** Steps in sequence; an error ends the sequence. *)
Lemma reclaimed_bind root K R p t rs (c1 c2 : M Reclaiming ReclaimError unit) :
  (let '(r, rs1) := c1 rs in reclaimed root K R p t rs r rs1 ∧
     (r = Ok tt → let '(r2, rs2) := c2 rs1 in reclaimed root K R p t rs1 r2 rs2)) →
  let '(r, rs') := (do! c1; c2) rs in reclaimed root K R p t rs r rs'.
Proof.
  unfold rbind. destruct (c1 rs) as [[[]|e] rs1].
  - intros [H1 H2]. specialize (H2 eq_refl). destruct (c2 rs1) as [r2 rs2].
    constructor; [by destruct H2| | |by destruct H2|by destruct H2].
    + eapply shrinks_trans; [apply H1|apply H2].
    + intros Hr. eapply keeps_owned_trans; [apply H2|by apply H1|by apply H2].
  - intros [H _]. exact H.
Qed.

(** Freeing a frame of the address space. *)
Lemma reclaim_free_spec root K R rs f o :
  reclaiming root rs K R → owners (pg_frames (rc_paging rs)) !! f = Some o →
  let '(r, rs') := reclaim_free (mkPhysicalFrame f) o rs in
  frames_wf (pg_frames (rc_paging rs')) ∧ pg_mem (rc_paging rs') = pg_mem (rc_paging rs) ∧
  rc_stats rs' = rc_stats rs ∧
  sp_usable (frame_view (pg_frames (rc_paging rs'))) = sp_usable (frame_view (pg_frames (rc_paging rs))) ∧
  ((r = Ok tt ∧ owners (pg_frames (rc_paging rs')) = delete f (owners (pg_frames (rc_paging rs))) ∧
    length (recycled (pg_frames (rc_paging rs'))) = S (length (recycled (pg_frames (rc_paging rs))))) ∨
   (r = Err (ReclaimFree FreeStackFull) ∧ rs' = rs ∧
    length (recycled (pg_frames (rc_paging rs))) = FREE_STACK_CAPACITY)).
Proof.
  intros Hi Ho. unfold reclaim_free. pose proof (free_owned_spec f o _ (re_frames _ _ _ _ Hi) Ho) as H.
  destruct (free_owned _ _ _) as [r a']. destruct H as (Hwf & Hu & [(-> & Hown & Hlen)|(-> & -> & Hfull)]).
  - cbn. split_and!; [done..|]. by left.
  - cbn. split_and!; [done..|]. right. split_and!; [done| |done]. by destruct rs as [[? ?] ?].
Qed.

Lemma frame_from_physical_ok f : frame_ok f → frame_from_physical f = Ok (mkPhysicalFrame f).
Proof.
  intros [H _]. unfold frame_from_physical, frame_from_start. by rewrite (proj2 (fm_aligned f)).
Qed.

Lemma size_delete_Z {A} (m : gmap Z A) x y :
  m !! x = Some y → (Z.of_nat (size (delete x m)) + 1 = Z.of_nat (size m))%Z.
Proof.
  intros Hx. rewrite (map_size_delete_Some x m) by (by eexists).
  assert (size m ≠ 0); [|lia]. intros Hz%map_size_empty_inv. by rewrite Hz, lookup_empty in Hx.
Qed.

Lemma sat_add_1 K u v w : (0 ≤ u)%Z → (0 ≤ v)%Z → (0 ≤ w)%Z → (u + v + w = K)%Z → (K ≤ 16384)%Z →
  sat_add u 1 = (u + 1)%Z ∧ sat_add v 1 = (v + 1)%Z.
Proof. intros. unfold sat_add, u64_max. lia. Qed.

Section reclaim.
Context (root K R : Z).
Hypothesis HK : (K ≤ 16384)%Z.

(** The processing of the entry of a page and its removal. *)
Lemma reclaim_leaf_entry p t i rs :
  reclaiming root rs K R → path_ok p → length p = 3 → i < ENTRY_COUNT →
  table_at (pg_mem (rc_paging rs)) root p = Some t →
  entry_is_present (pg_mem (rc_paging rs) t i) = true →
  let '(r, rs') := (do! reclaim_leaf_frame root (entry_address (pg_mem (rc_paging rs) t i));
                    clear_entry t i) rs in
  reclaimed root K R p t rs r rs' ∧
  (r = Ok tt → pg_mem (rc_paging rs') t i = 0%Z).
Proof using HK.
  intros Hi Hp Hl Hidx Ht Hpr. set (f := entry_address _) in *.
  assert (Hf : frame_ok f) by apply entry_address_ok.
  destruct (re_stats _ _ _ _ Hi) as [Hs1 Hs2]. pose proof (re_count _ _ _ _ Hi) as Hcnt.
  destruct (sat_add_1 K _ _ _ Hs1 Hs2 (Nat2Z.is_nonneg _) Hcnt HK) as [Hsat _].
  unfold reclaim_leaf_frame. rewrite (frame_from_physical_ok f Hf).
  assert (Hat : table_at (write_entry t i 0 (pg_mem (rc_paging rs))) root p = Some t).
  { rewrite (table_at_write any_frame _ (pg_frames (rc_paging rs)) root p); try done; [apply Hi|].
    apply snoc_not_prefix. }
  unfold rbind at 1 2, rlift, rget, rbind at 1.
  rewrite (owner_of_owners [] _ (proj1 (re_frames _ _ _ _ Hi))). cbn [frame_start].
  case_bool_decide as Ho.
  - pose proof (reclaim_free_spec root K R rs f _ Hi Ho) as Hfree. unfold rbind.
    destruct (reclaim_free _ _ rs) as [[[]|e] rs1].
    + destruct Hfree as (Hwf1 & Hm1 & Hst1 & Hu1 & [(_ & Hown & Hlen)|[? _]]); [|done].
      unfold rmodify, clear_entry; cbn.
      destruct (drop_leaf (pg_mem (rc_paging rs)) (pg_frames (rc_paging rs)) (pg_frames (rc_paging rs1)) root p t i)
        as [Hsh Hke]; try done; try apply Hi; [right; by split|].
      split; [|intros _; by rewrite write_same]. constructor; cbn.
      * constructor; cbn; [done| | | |].
        -- rewrite Hm1. apply (sh_space _ _ _ _ Hsh).
        -- rewrite Hst1, Hsat. lia.
        -- rewrite Hst1, Hsat, Hown. pose proof (size_delete_Z _ _ _ Ho). lia.
        -- rewrite Hst1, Hsat, Hlen. pose proof (re_room _ _ _ _ Hi). lia.
      * by destruct rs as [[? ?] ?], rs1 as [[? ?] ?]; cbn in *; subst.
      * intros _. by destruct rs as [[? ?] ?], rs1 as [[? ?] ?]; cbn in *; subst.
      * by rewrite Hm1.
      * done.
    + destruct Hfree as (_ & _ & _ & _ & [[? _]|([= ->] & -> & Hfull)]); [done|].
      split; [|done]. constructor; try done; [apply shrinks_refl; apply Hi|]. by intros ? [= <-].
  - unfold rmodify, clear_entry, rbind; cbn.
    destruct (drop_leaf (pg_mem (rc_paging rs)) (pg_frames (rc_paging rs)) (pg_frames (rc_paging rs)) root p t i)
      as [Hsh Hke]; try done; try apply Hi; [left; by split|].
    split; [|intros _; by rewrite write_same]. constructor; cbn.
    + constructor; cbn; [apply Hi|apply (sh_space _ _ _ _ Hsh)|done|done|apply Hi].
    + by destruct rs as [[? ?] ?].
    + intros _. by destruct rs as [[? ?] ?].
    + done.
    + done.
Qed.

(** The loop over the entries of a table. *)
Lemma reclaim_entries_spec f p t left : ∀ index rs,
  reclaiming root rs K R → table_at (pg_mem (rc_paging rs)) root p = Some t → index + left ≤ ENTRY_COUNT →
  (∀ i rs, i < ENTRY_COUNT → reclaiming root rs K R → table_at (pg_mem (rc_paging rs)) root p = Some t →
     entry_is_present (pg_mem (rc_paging rs) t i) = true →
     entry_is_huge (pg_mem (rc_paging rs) t i) = false ∧
     let '(r, rs') := (do! f (entry_address (pg_mem (rc_paging rs) t i)); clear_entry t i) rs in
     reclaimed root K R p t rs r rs' ∧ (r = Ok tt → pg_mem (rc_paging rs') t i = 0%Z)) →
  (∀ j, j < index → entry_is_present (pg_mem (rc_paging rs) t j) = false) →
  let '(r, rs') := reclaim_entries f t index left rs in
  reclaimed root K R p t rs r rs' ∧
  (r = Ok tt → ∀ j, j < index + left → entry_is_present (pg_mem (rc_paging rs') t j) = false).
Proof using HK.
  induction left as [|left IH]; intros index rs Hi Ht Hle Hstep Hdone; cbn [reclaim_entries].
  { split; [by apply reclaimed_refl|]. intros _ j Hj. apply Hdone. lia. }
  unfold rbind at 1, rget at 1. set (e := pg_mem (rc_paging rs) t index).
  destruct (entry_is_present e) eqn:Hpr.
  - destruct (Hstep index rs ltac:(lia) Hi Ht Hpr) as [Hh Hstep1]. fold e in Hh, Hstep1.
    unfold rbind at 1 2. unfold rguard at 1. rewrite Hh. cbn [negb].
    destruct ((do! f (entry_address e); clear_entry t index) rs) as [[[]|err] rs1].
    2: { split; [apply Hstep1|done]. }
    destruct Hstep1 as [H1 Hclr]. specialize (Hclr eq_refl).
    assert (Hdone1 : ∀ j, j < S index → entry_is_present (pg_mem (rc_paging rs1) t j) = false).
    { intros j Hj. destruct (decide (j = index)) as [->|]; [by rewrite Hclr|].
      destruct (sh_cleared _ _ _ _ (rd_shrinks _ _ _ _ _ _ _ _ H1) t j) as [->| ->]; [apply Hdone; lia|done]. }
    pose proof (IH (S index) rs1 (rd_inv _ _ _ _ _ _ _ _ H1) (rd_table _ _ _ _ _ _ _ _ H1) ltac:(lia) Hstep Hdone1) as H2.
    destruct (reclaim_entries f t (S index) left rs1) as [r2 rs2]. destruct H2 as [H2 Hall]. split.
    + constructor; [by destruct H2| | |by destruct H2|by destruct H2].
      * eapply shrinks_trans; [apply H1|apply H2].
      * intros Hr. eapply keeps_owned_trans; [apply H2|by apply H1|by apply H2].
    + intros Hr j Hj. apply Hall; [done|lia].
  - unfold rbind, rret. assert (Hdone1 : ∀ j, j < S index → entry_is_present (pg_mem (rc_paging rs) t j) = false).
    { intros j Hj. destruct (decide (j = index)) as [->|]; [done|apply Hdone; lia]. }
    pose proof (IH (S index) rs Hi Ht ltac:(lia) Hstep Hdone1) as H2.
    destruct (reclaim_entries f t (S index) left rs) as [r2 rs2]. destruct H2 as [H2 Hall]. split; [done|].
    intros Hr j Hj. apply Hall; [done|lia].
Qed.

(** Freeing an emptied table and removing the entry that refers to it, in either
    order. *)
Lemma free_table_spec p t i c rs :
  reclaiming root rs K R → path_ok (p ++ [i]) → table_at (pg_mem (rc_paging rs)) root p = Some t →
  table_at (pg_mem (rc_paging rs)) root (p ++ [i]) = Some c →
  (∀ j, j < ENTRY_COUNT → entry_is_present (pg_mem (rc_paging rs) c j) = false) →
  (let '(r, rs') := (do! free_page_table_frame root c; clear_entry t i) rs in
   reclaimed root K R p t rs r rs' ∧ (r = Ok tt → pg_mem (rc_paging rs') t i = 0%Z)) ∧
  (let '(r, rs') := (do! clear_entry t i; free_page_table_frame root c) rs in
   reclaimed root K R p t rs r rs' ∧ (r = Ok tt → pg_mem (rc_paging rs') t i = 0%Z)).
Proof using HK.
  intros Hi Hp Ht Hc Hempty. destruct (re_stats _ _ _ _ Hi) as [Hs1 Hs2]. pose proof (re_count _ _ _ _ Hi) as Hcnt.
  destruct (sat_add_1 K _ _ _ Hs1 Hs2 (Nat2Z.is_nonneg _) Hcnt HK) as [_ Hsat].
  pose proof (sw_owner _ _ _ _ (re_tree _ _ _ _ Hi) _ _ Hp Hc) as Ho.
  assert (Hf : frame_ok c) by (by eapply owned_frame_ok; [apply Hi|]).
  assert (Hp' : path_ok p) by (by apply path_ok_init in Hp as [? _]).
  assert (Hat : table_at (write_entry t i 0 (pg_mem (rc_paging rs))) root p = Some t).
  { rewrite (table_at_write any_frame _ (pg_frames (rc_paging rs)) root p); try done; [apply Hi|apply snoc_not_prefix]. }
  pose proof (free_owned_spec c _ _ (re_frames _ _ _ _ Hi) Ho) as Hfree.
  unfold free_page_table_frame. rewrite (frame_from_physical_ok c Hf).
  unfold rbind, rlift, reclaim_free, clear_entry, rmodify; cbn.
  destruct (free_owned (mkPhysicalFrame c) (owner_page_table root) (pg_frames (rc_paging rs))) as [r a'].
  destruct Hfree as (Hwf' & Hus & [(-> & Hown & Hlen)|(-> & -> & Hfull)]); cbn.
  - assert (Hsh : shrinks any_frame root (rc_paging rs) (mkPaging (write_entry t i 0 (pg_mem (rc_paging rs))) a') ∧
                 keeps_owned root (rc_paging rs) (mkPaging (write_entry t i 0 (pg_mem (rc_paging rs))) a')).
    { destruct rs as [[m a] st]. cbn in *.
      split; [eapply (dt_shrinks any_frame m a a' root t c p i)|eapply (dt_keeps any_frame m a a' root t c p i)];
        try done; try apply Hi; by right. }
    destruct Hsh as [Hsh Hke].
    assert (Hre : reclaimed root K R p t rs (Ok tt)
      (mkReclaiming (mkPaging (write_entry t i 0 (pg_mem (rc_paging rs))) a')
         ((rc_stats rs) <| page_table_frames := sat_add (page_table_frames (rc_stats rs)) 1 |>))).
    { constructor; cbn; try done. constructor; cbn; [done|apply (sh_space _ _ _ _ Hsh)| | |].
      - rewrite Hsat. lia.
      - rewrite Hsat, Hown. pose proof (size_delete_Z _ _ _ Ho). lia.
      - rewrite Hsat, Hlen. pose proof (re_room _ _ _ _ Hi). lia. }
    split; (split; [exact Hre|intros _; cbn; by rewrite write_same]).
  - split; (split; [|done]).
    + constructor; cbn; try done; [|by destruct rs as [[m a] st]; apply shrinks_refl; apply Hi|by intros ? [= <-]].
      by destruct rs as [[m a] st].
    + assert (Hsh : shrinks any_frame root (rc_paging rs)
        (mkPaging (write_entry t i 0 (pg_mem (rc_paging rs))) (pg_frames (rc_paging rs)))).
      { destruct rs as [[m a] st]. cbn in *.
        eapply (dt_shrinks any_frame m a a root t c p i); try done; try apply Hi; by left. }
      constructor; cbn; try done; [|by intros ? [= <-]].
      constructor; cbn; [apply Hi|apply (sh_space _ _ _ _ Hsh)|done|done|apply Hi].
Qed.

Lemma path_ok_snoc p i : path_ok p → p ≠ [] → length p ≤ 2 → i < ENTRY_COUNT → path_ok (p ++ [i]).
Proof using.
  intros (Hl & Hall & Hh) Hne Hl2 Hi. split; [rewrite length_app; cbn; lia|]. split.
  - apply Forall_app. split; [done|]. by apply Forall_singleton.
  - destruct p; [done|]. exact Hh.
Qed.

(** The table above a table that is still in place is in place too. *)
Lemma reclaimed_parent p t i c rs r rs' :
  path_ok (p ++ [i]) → table_at (pg_mem (rc_paging rs)) root p = Some t →
  reclaimed root K R (p ++ [i]) c rs r rs' → table_at (pg_mem (rc_paging rs')) root p = Some t.
Proof using.
  intros Hp Ht H. pose proof (rd_table _ _ _ _ _ _ _ _ H) as Hc. rewrite table_at_snoc in Hc.
  destruct (table_at (pg_mem (rc_paging rs')) root p) as [u|] eqn:Hu; [|done].
  apply (sh_tables _ _ _ _ (rd_shrinks _ _ _ _ _ _ _ _ H)) in Hu; [|by apply path_ok_init in Hp as [? _]].
  congruence.
Qed.

(** A table that is reclaimed and then removed. *)
Lemma reclaim_child p t i c rs (A B : M Reclaiming ReclaimError unit) :
  path_ok (p ++ [i]) → table_at (pg_mem (rc_paging rs)) root p = Some t →
  (let '(r, rs1) := A rs in reclaimed root K R (p ++ [i]) c rs r rs1 ∧
     (r = Ok tt → ∀ j, j < ENTRY_COUNT → entry_is_present (pg_mem (rc_paging rs1) c j) = false)) →
  (∀ rs1, reclaiming root rs1 K R → table_at (pg_mem (rc_paging rs1)) root p = Some t →
     table_at (pg_mem (rc_paging rs1)) root (p ++ [i]) = Some c →
     (∀ j, j < ENTRY_COUNT → entry_is_present (pg_mem (rc_paging rs1) c j) = false) →
     let '(r, rs') := B rs1 in
     reclaimed root K R p t rs1 r rs' ∧ (r = Ok tt → pg_mem (rc_paging rs') t i = 0%Z)) →
  let '(r, rs') := (do! A; B) rs in
  reclaimed root K R p t rs r rs' ∧ (r = Ok tt → pg_mem (rc_paging rs') t i = 0%Z).
Proof using.
  intros Hp Ht HA HB. unfold rbind. destruct (A rs) as [[[]|e] rs1]; destruct HA as [H1 Hempty].
  - specialize (HB rs1 (rd_inv _ _ _ _ _ _ _ _ H1) (reclaimed_parent _ _ _ _ _ _ _ Hp Ht H1)
      (rd_table _ _ _ _ _ _ _ _ H1) (Hempty eq_refl)).
    destruct (B rs1) as [r2 rs2]. destruct HB as [H2 Hclr]. split; [|done].
    constructor; [by destruct H2| | |by destruct H2|by destruct H2].
    + eapply shrinks_trans; [apply H1|apply H2].
    + intros Hr. eapply keeps_owned_trans; [apply H2|by apply H1|by apply H2].
  - split; [|done]. constructor; try (by destruct H1). by eapply reclaimed_parent.
Qed.

Lemma reclaim_page_table_spec depth : ∀ p t rs,
  reclaiming root rs K R → path_ok p → p ≠ [] → length p + depth = 3 →
  table_at (pg_mem (rc_paging rs)) root p = Some t →
  let '(r, rs') := reclaim_page_table root depth t rs in
  reclaimed root K R p t rs r rs' ∧
  (r = Ok tt → ∀ j, j < ENTRY_COUNT → entry_is_present (pg_mem (rc_paging rs') t j) = false).
Proof using HK.
  induction depth as [|depth IH]; intros p t rs Hi Hp Hne Hl Ht; cbn [reclaim_page_table].
  - apply (reclaim_entries_spec (λ address, reclaim_leaf_frame root address) p t ENTRY_COUNT 0 rs Hi Ht);
      [lia| |lia].
    intros i rs1 Hidx Hi1 Ht1 Hpr. split.
    + eapply (sw_leaf _ _ _ _ (re_tree _ _ _ _ Hi1) p); try done; lia.
    + apply reclaim_leaf_entry; try done; lia.
  - apply (reclaim_entries_spec (λ address, do! reclaim_page_table root depth address;
      free_page_table_frame root address) p t ENTRY_COUNT 0 rs Hi Ht); [lia| |lia].
    intros i rs1 Hidx Hi1 Ht1 Hpr. assert (Hp' : path_ok (p ++ [i])) by (apply path_ok_snoc; (done || lia)).
    destruct (sw_dir _ _ _ _ (re_tree _ _ _ _ Hi1) p t i Hp' Ht1 Hpr) as (Hh & _ & _). split; [done|].
    set (c := entry_address _). assert (Hc : table_at (pg_mem (rc_paging rs1)) root (p ++ [i]) = Some c).
    { rewrite table_at_snoc, Ht1. by apply next_table_Some. }
    cbn beta. rewrite rbind_assoc.
    apply (reclaim_child p t i c rs1 (reclaim_page_table root depth c)
      (do! free_page_table_frame root c; clear_entry t i) Hp' Ht1).
    + apply (IH (p ++ [i]) c rs1 Hi1 Hp'); [by destruct p|rewrite length_app; cbn; lia|done].
    + intros rs2 Hi2 Ht2 Hc2 Hempty. by apply (free_table_spec p t i c rs2).
Qed.

(** The loop over the user half of the root table. *)
Lemma reclaim_root_entries_spec left : ∀ index rs,
  reclaiming root rs K R → index + left ≤ ENTRY_COUNT / 2 →
  (∀ j, j < index → entry_is_present (pg_mem (rc_paging rs) root j) = false) →
  let '(r, rs') := reclaim_root_entries root index left rs in
  reclaimed root K R [] root rs r rs' ∧
  (r = Ok tt → ∀ j, j < index + left → entry_is_present (pg_mem (rc_paging rs') root j) = false).
Proof using HK.
  induction left as [|left IH]; intros index rs Hi Hle Hdone; cbn [reclaim_root_entries].
  { split; [by apply reclaimed_refl|]. intros _ j Hj. apply Hdone. lia. }
  assert (Hhalf : ENTRY_COUNT / 2 = 256) by done.
  unfold rbind at 1, rget at 1. set (e := pg_mem (rc_paging rs) root index).
  destruct (entry_is_present e) eqn:Hpr.
  - assert (Hp : path_ok ([] ++ [index])).
    { cbn. split; [cbn; lia|]. split; [apply Forall_singleton; unfold ENTRY_COUNT; lia|]. intros j [= <-]. lia. }
    destruct (sw_dir _ _ _ _ (re_tree _ _ _ _ Hi) [] root index Hp eq_refl Hpr) as (Hh & _ & _).
    fold e in Hh. unfold rbind at 1 2. unfold rguard at 1. rewrite Hh. cbn [negb].
    set (c := entry_address e).
    assert (Hc : table_at (pg_mem (rc_paging rs)) root ([] ++ [index]) = Some c).
    { rewrite table_at_snoc. by apply next_table_Some. }
    assert (H1 : let '(r, rs') := (do! reclaim_page_table root 2 c; do! clear_entry root index;
                                    free_page_table_frame root c) rs in
                 reclaimed root K R [] root rs r rs' ∧ (r = Ok tt → pg_mem (rc_paging rs') root index = 0%Z)).
    { apply (reclaim_child [] root index c rs (reclaim_page_table root 2 c)
        (do! clear_entry root index; free_page_table_frame root c) Hp eq_refl).
      - by apply (reclaim_page_table_spec 2 ([] ++ [index]) c rs Hi Hp).
      - intros rs2 Hi2 Ht2 Hc2 Hempty. by apply (free_table_spec [] root index c rs2). }
    destruct ((do! reclaim_page_table root 2 c; do! clear_entry root index;
               free_page_table_frame root c) rs) as [[[]|err] rs1].
    2: { split; [apply H1|done]. }
    destruct H1 as [H1 Hclr]. specialize (Hclr eq_refl).
    assert (Hdone1 : ∀ j, j < S index → entry_is_present (pg_mem (rc_paging rs1) root j) = false).
    { intros j Hj. destruct (decide (j = index)) as [->|]; [by rewrite Hclr|].
      destruct (sh_cleared _ _ _ _ (rd_shrinks _ _ _ _ _ _ _ _ H1) root j) as [->| ->]; [apply Hdone; lia|done]. }
    pose proof (IH (S index) rs1 (rd_inv _ _ _ _ _ _ _ _ H1) ltac:(lia) Hdone1) as H2.
    destruct (reclaim_root_entries root (S index) left rs1) as [r2 rs2]. destruct H2 as [H2 Hall]. split.
    + constructor; [by destruct H2| | |by destruct H2|by destruct H2].
      * eapply shrinks_trans; [apply H1|apply H2].
      * intros Hr. eapply keeps_owned_trans; [apply H2|by apply H1|by apply H2].
    + intros Hr j Hj. apply Hall; [done|lia].
  - unfold rbind, rret. assert (Hdone1 : ∀ j, j < S index → entry_is_present (pg_mem (rc_paging rs) root j) = false).
    { intros j Hj. destruct (decide (j = index)) as [->|]; [done|apply Hdone; lia]. }
    pose proof (IH (S index) rs Hi ltac:(lia) Hdone1) as H2.
    destruct (reclaim_root_entries root (S index) left rs) as [r2 rs2]. destruct H2 as [H2 Hall]. split; [done|].
    intros Hr j Hj. apply Hall; [done|lia].
Qed.
End reclaim.
