(* ===== verification/AddressSpaces.v ===== *)
(** The address spaces of a machine together: what mapping, unmapping, pruning and
    reclaiming do to the translations of every address space, and the check of user
    ranges against what the processor would allow. *)

From S2P Require Import Prelude Frames FrameProofs Paging PagingProofs.

(** * All address spaces *)

Record paging_wf (roots : gset Z) (s : Paging) : Prop := mk_paging_wf {
  pw_frames : frames_wf (pg_frames s);
  pw_spaces r : r ∈ roots → space_wf (pg_mem s) (pg_frames s) r
}.

(** What every operation on the address space [root] leaves alone: the translations
    of pages [p] does not cover and of other address spaces, and the kernel half of
    every address space that remains. *)
Record others_kept (roots : gset Z) (root : Z) (changed : Z → Prop) (s s' : Paging) : Prop := mk_others_kept {
  ok_translate r va : r ∈ roots → user_address va → ¬ (r = root ∧ changed va) →
    translate (pg_mem s') r va = translate (pg_mem s) r va;
  ok_kernel r i : r ∈ roots → ENTRY_COUNT / 2 ≤ i → pg_mem s' r i = pg_mem s r i
}.

Lemma same_page_indexes va va' : user_address va → user_address va' → page_number va = page_number va' →
  va_path va = va_path va' ∧ va_leaf va = va_leaf va'.
Proof.
  intros [H1 _] [H1' _] Hp. unfold page_number, FRAME_SIZE in Hp.
  assert (Hi : ∀ k, (12 ≤ k)%Z → page_index va k = page_index va' k).
  { intros k Hk. apply Nat2Z.inj. rewrite !page_index_arith by lia.
    replace (2 ^ k)%Z with (4096 * 2 ^ (k - 12))%Z
      by (change 4096%Z with (2 ^ 12)%Z; rewrite <-Z.pow_add_r by lia; f_equal; lia).
    pose proof (Z.pow_pos_nonneg 2 (k - 12)). rewrite <-!Z.div_div by lia. by rewrite Hp. }
  unfold va_path, va_leaf. by rewrite !Hi by lia.
Qed.

Lemma other_page_indexes va va' : user_address va → user_address va' → page_number va' ≠ page_number va →
  (va_path va', va_leaf va') ≠ (va_path va, va_leaf va).
Proof. intros H1 H2 Hne H. apply Hne. by apply same_indexes_same_page; [..|congruence|congruence]. Qed.

Lemma translate_frame m m' a a' r va :
  space_wf m a r → space_wf m' a' r → user_address va →
  leaf_at m' r (va_path va) (va_leaf va) = leaf_at m r (va_path va) (va_leaf va) →
  translate m' r va = translate m r va.
Proof.
  intros H1 H2 Hva Hl. rewrite (translate_leaf m' a'), (translate_leaf m a) by done.
  unfold leaf. by rewrite Hl.
Qed.

(** Other address spaces' root entries belong to themselves. *)
Lemma kernel_other s s' root r i :
  space_wf (pg_mem s') (pg_frames s') r → r ≠ root →
  (pg_mem s' r i ≠ pg_mem s r i → owners (pg_frames s') !! r = Some (owner_page_table root)) →
  pg_mem s' r i = pg_mem s r i.
Proof.
  intros Hsp Hne Hm. destruct (decide (pg_mem s' r i = pg_mem s r i)) as [|He]; [done|].
  specialize (Hm He). rewrite (sw_owner _ _ _ _ Hsp [] r path_ok_nil eq_refl) in Hm.
  unfold owner_page_table in Hm. congruence.
Qed.

Lemma grows_all roots root s s' :
  paging_wf roots s → root ∈ roots → grows root s s' →
  paging_wf roots s' ∧ others_kept roots root (λ _, False) s s'.
Proof.
  intros [Hwf Hall] Hroot Hg.
  assert (Hsp : ∀ r, r ∈ roots → space_wf (pg_mem s') (pg_frames s') r).
  { intros r Hr. destruct (decide (r = root)) as [->|Hne]; [apply Hg|].
    by apply (grows_other root s s' r Hwf Hg Hne), Hall. }
  split; [by split; [apply Hg|]|]. constructor.
  - intros r va Hr Hva _. apply (translate_frame _ _ (pg_frames s) (pg_frames s')); [by apply Hall|by apply Hsp|done|].
    destruct (decide (r = root)) as [->|Hne].
    + apply (gr_leaf _ _ _ Hg); [by apply va_path_ok|done|apply page_index_lt].
    + apply (grows_other root s s' r Hwf Hg Hne); [by apply Hall|by apply va_path_ok].
  - intros r i Hr Hi. destruct (decide (r = root)) as [->|Hne]; [by apply Hg|].
    apply (kernel_other s s' root); [by apply Hsp|done|apply Hg].
Qed.

(** Writing the entry of one page of [root]. *)
Lemma write_leaf_all roots root s va t e :
  paging_wf roots s → root ∈ roots → user_address va →
  table_at (pg_mem s) root (va_path va) = Some t →
  (entry_is_present e = true → entry_is_huge e = false ∧ mappable (pg_frames s) root (entry_address e)) →
  let s' := mkPaging (write_entry t (va_leaf va) e (pg_mem s)) (pg_frames s) in
  paging_wf roots s' ∧ others_kept roots root (λ va', page_number va' = page_number va) s s' ∧
  ∀ va', user_address va' → page_number va' = page_number va →
    translate (pg_mem s') root va' = (if entry_is_present e then Some (leaf_view e) else None).
Proof.
  intros [Hwf Hall] Hroot Hva Ht He s'. pose proof (va_path_ok va Hva) as Hp.
  destruct (write_leaf mappable _ _ root _ t (va_leaf va) e (Hall root Hroot) Hp eq_refl (page_index_lt _ _) Ht He)
    as (Hsp' & Hleaf & Hother & Hker).
  assert (Hfr : ∀ r, r ∈ roots → r ≠ root → space_wf (pg_mem s') (pg_frames s') r ∧
    ∀ p i, path_ok p → leaf_at (pg_mem s') r p i = leaf_at (pg_mem s) r p i).
  { intros r Hr Hne. apply (space_frame _ _ (pg_frames s)); [by apply Hall| |done|done].
    intros u i Hu. apply write_table. intros ->.
    rewrite (sw_owner _ _ _ _ (Hall root Hroot) _ _ Hp Ht) in Hu. unfold owner_page_table in Hu. congruence. }
  assert (Hsp : ∀ r, r ∈ roots → space_wf (pg_mem s') (pg_frames s') r).
  { intros r Hr. destruct (decide (r = root)) as [->|Hne]; [done|]. by apply Hfr. }
  split; [by split|]. split.
  - constructor.
    + intros r va' Hr Hva' Hn. apply (translate_frame _ _ (pg_frames s) (pg_frames s')); [by apply Hall|by apply Hsp|done|].
      destruct (decide (r = root)) as [->|Hne]; [|apply Hfr; [done|done|by apply va_path_ok]].
      apply Hother; [by apply va_path_ok|done|]. apply other_page_indexes; [done|done|]. tauto.
    + intros r i Hr Hi. destruct (decide (r = root)) as [->|Hne]; [by apply Hker|].
      apply write_table. intros ->.
      pose proof (sw_owner _ _ _ _ (Hall root Hroot) _ _ Hp Ht) as H1.
      rewrite (sw_owner _ _ _ _ (Hall t Hr) [] t path_ok_nil eq_refl) in H1. unfold owner_page_table in H1. congruence.
  - intros va' Hva' Hpg. rewrite (translate_leaf _ (pg_frames s')) by (done || by apply Hsp).
    unfold leaf. destruct (same_page_indexes va' va Hva' Hva Hpg) as [-> ->]. cbn [s' pg_mem].
    rewrite Hleaf. by destruct (entry_is_present e).
Qed.

Lemma others_kept_trans roots root (P Q : Z → Prop) s1 s2 s3 :
  others_kept roots root P s1 s2 → others_kept roots root Q s2 s3 → (∀ va, P va → Q va) →
  others_kept roots root Q s1 s3.
Proof.
  intros H1 H2 HPQ. constructor.
  - intros r va Hr Hva Hn. rewrite (ok_translate _ _ _ _ _ H2) by done.
    apply (ok_translate _ _ _ _ _ H1); [done|done|]. intros [? ?]. apply Hn. auto.
  - intros r i Hr Hi. by rewrite (ok_kernel _ _ _ _ _ H2), (ok_kernel _ _ _ _ _ H1).
Qed.

(** Mapping a page, seen from all address spaces. *)
Lemma map_page_all roots s root va f flags :
  paging_wf roots s → root ∈ roots → user_address va → frame_ok f → mappable (pg_frames s) root f →
  flags_ok (flag_bits flags) → flags_user_accessible flags = true →
  let '(r, s') := map_page_in_root root va (mkPhysicalFrame f) flags s in
  paging_wf roots s' ∧
  match r with
  | Ok _ =>
      translate (pg_mem s) root va = None ∧
      others_kept roots root (λ va', page_number va' = page_number va) s s' ∧
      ∀ va', user_address va' → page_number va' = page_number va →
        translate (pg_mem s') root va' = Some (f, true, entry_is_writable (flag_bits flags))
  | Err e =>
      others_kept roots root (λ _, False) s s' ∧
      (e = AlreadyMapped ∧ is_Some (translate (pg_mem s) root va) ∨
       e = OutOfFrames ∧ ∃ s1, grows root s s1 ∧ out_of_frames (pg_frames s1))
  end.
Proof.
  intros Hpw Hroot Hva Hf Hmap Hfl Hu. pose proof (pw_frames _ _ Hpw) as Hwf.
  pose proof (pw_spaces _ _ Hpw root Hroot) as Hsp.
  pose proof (map_page_spec root s va f flags Hwf Hsp Hva Hu) as H.
  destruct (map_page_in_root root va _ flags s) as [[u|e] s'].
  - destruct H as (Hnone & s1 & t & Hg & Hfr & Ht & Hm).
    destruct (grows_all roots root s s1 Hpw Hroot Hg) as [Hpw1 Hk1].
    destruct (write_leaf_all roots root s1 va t (entry_set (mkPhysicalFrame f) (flag_bits flags)))
      as (Hpw2 & Hk2 & Htr); try done.
    { intros _. rewrite entry_set_huge, entry_set_address by done. split; [done|].
      by apply (grows_mappable root s s1). }
    rewrite <-Hm, <-Hfr in Hpw2, Hk2, Htr.
    assert (Hs : mkPaging (pg_mem s') (pg_frames s') = s') by (by destruct s'). rewrite Hs in Hpw2, Hk2, Htr.
    split; [done|]. split.
    { rewrite (translate_leaf _ (pg_frames s)) by done. by rewrite Hnone. }
    split; [eapply others_kept_trans; [exact Hk1|exact Hk2|done]|].
    intros va' Hva' Hpg. rewrite Htr by done. rewrite entry_set_present by done. unfold leaf_view.
    rewrite entry_set_address, entry_set_user, entry_set_writable by done. by rewrite <-Hu.
  - destruct H as [Hg He]. destruct (grows_all roots root s s' Hpw Hroot Hg) as [Hpw1 Hk1].
    split; [done|]. split; [done|]. destruct e; [right; eauto|left|done]. split; [done|].
    rewrite (translate_leaf _ (pg_frames s)) by done. destruct He as [e ->]. by eexists.
Qed.

(** mapping a page does exactly that. On well-formed address spaces,
    [map_page_in_root] of a user page fails only when the page is already mapped or
    no frame is left for a table, and then changes no translation; when it succeeds
    the page was not mapped and the processor translates every address in it to the
    frame, accessible to user mode and writable as the flags say. The translations
    of all other pages and all other address spaces, and the kernel halves, stay the
    same, and all address spaces stay well formed. *)
Theorem map_page_effect roots s root va f flags :
  paging_wf roots s → root ∈ roots → user_address va → frame_ok f → mappable (pg_frames s) root f →
  flags_ok (flag_bits flags) → flags_user_accessible flags = true →
  let '(r, s') := map_page_in_root root va (mkPhysicalFrame f) flags s in
  paging_wf roots s' ∧
  match r with
  | Ok _ =>
      translate (pg_mem s) root va = None ∧
      others_kept roots root (λ va', page_number va' = page_number va) s s' ∧
      ∀ va', user_address va' → page_number va' = page_number va →
        translate (pg_mem s') root va' = Some (f, true, entry_is_writable (flag_bits flags))
  | Err e =>
      others_kept roots root (λ _, False) s s' ∧
      (e = AlreadyMapped ∧ is_Some (translate (pg_mem s) root va) ∨
       e = OutOfFrames ∧ ∃ s1, grows root s s1 ∧ out_of_frames (pg_frames s1))
  end.
Proof. apply map_page_all. Qed.

(** * Unmapping *)

Lemma unmap_from_dir m a root s p t i rest :
  space_wf m a root → pg_mem s = m → path_ok (p ++ [i]) → table_at m root p = Some t → rest ≠ [] →
  unmap_from t (i :: rest) s =
  match table_at m root (p ++ [i]) with Some u => unmap_from u rest s | None => (Err NotMapped, s) end.
Proof.
  intros Hsp Hm Hp Ht Hr. rewrite table_at_snoc, Ht. cbn [unmap_from]. rewrite Hm. unfold next_table.
  destruct (entry_is_present (m t i)) eqn:Hpr; [|done].
  destruct (sw_dir _ _ _ _ Hsp p t i Hp Ht Hpr) as (-> & _ & _). cbn. by destruct rest.
Qed.

(** The walk of a user address, as its three steps. *)
Lemma va_path_prefixes va : user_address va →
  path_ok ([] ++ [page_index va 39]) ∧ path_ok ([page_index va 39] ++ [page_index va 30]) ∧
  path_ok ([page_index va 39; page_index va 30] ++ [page_index va 21]).
Proof.
  intros Hva. pose proof (va_path_ok va Hva) as Hp. unfold va_path in Hp.
  assert (Hp2 : path_ok ([page_index va 39; page_index va 30] ++ [page_index va 21])) by exact Hp.
  pose proof (path_ok_init _ _ Hp2) as (Hp1 & _ & _).
  assert (Hp1' : path_ok ([page_index va 39] ++ [page_index va 30])) by exact Hp1.
  pose proof (path_ok_init _ _ Hp1') as (Hp0 & _ & _). by split_and!.
Qed.

Lemma table_at_prefix_None m root p q : table_at m root p = None → table_at m root (p ++ q) = None.
Proof.
  revert root. induction p as [|i p IH]; intros root; [done|]. cbn.
  destruct (next_table (m root i)); [apply IH|done].
Qed.

Lemma unmap_page_spec s root va :
  space_wf (pg_mem s) (pg_frames s) root → user_address va →
  unmap_page_in_root root va s =
  match table_at (pg_mem s) root (va_path va) with
  | Some t => if entry_is_present (pg_mem s t (va_leaf va))
              then (Ok tt, s <| pg_mem ::= write_entry t (va_leaf va) 0 |>) else (Err NotMapped, s)
  | None => (Err NotMapped, s)
  end.
Proof.
  intros Hsp Hva. destruct (va_path_prefixes va Hva) as (P0 & P1 & P2).
  unfold unmap_page_in_root, page_indexes, va_path, va_leaf.
  rewrite (unmap_from_dir _ _ root s [] root _ _ Hsp eq_refl P0 eq_refl) by done. cbn [app].
  destruct (table_at _ root [page_index va 39]) as [t1|] eqn:T1.
  2: { pose proof (table_at_prefix_None _ _ _ [page_index va 30; page_index va 21] T1) as H.
       cbn [app] in H. by rewrite H. }
  rewrite (unmap_from_dir _ _ root s _ t1 _ _ Hsp eq_refl P1 T1) by done. cbn [app].
  destruct (table_at _ root [page_index va 39; page_index va 30]) as [t2|] eqn:T2.
  2: { pose proof (table_at_prefix_None _ _ _ [page_index va 21] T2) as H. cbn [app] in H. by rewrite H. }
  rewrite (unmap_from_dir _ _ root s _ t2 _ _ Hsp eq_refl P2 T2) by done. cbn [app].
  destruct (table_at _ root [page_index va 39; page_index va 30; page_index va 21]) as [t3|] eqn:T3; [|done].
  cbn [unmap_from]. destruct (entry_is_present (pg_mem s t3 (page_index va 12))) eqn:Hpr; [|done].
  destruct (sw_leaf _ _ _ _ Hsp (va_path va) t3 (page_index va 12) (va_path_ok va Hva) eq_refl (page_index_lt _ _) T3 Hpr)
    as [-> _]. done.
Qed.

(** Unmapping a page does exactly that: [unmap_page_in_root] of a user address
    succeeds exactly when the processor translates the address, and afterwards no
    address in the page is translated, everything else is as before, and the frames
    keep their owners. *)
Lemma unmap_page_effect roots s root va :
  paging_wf roots s → root ∈ roots → user_address va →
  let '(r, s') := unmap_page_in_root root va s in
  paging_wf roots s' ∧ pg_frames s' = pg_frames s ∧
  match r with
  | Ok _ =>
      is_Some (translate (pg_mem s) root va) ∧
      others_kept roots root (λ va', page_number va' = page_number va) s s' ∧
      ∀ va', user_address va' → page_number va' = page_number va → translate (pg_mem s') root va' = None
  | Err e => e = NotMapped ∧ s' = s ∧ translate (pg_mem s) root va = None
  end.
Proof.
  intros Hpw Hroot Hva. pose proof (pw_spaces _ _ Hpw root Hroot) as Hsp.
  rewrite unmap_page_spec by done. rewrite (translate_leaf _ (pg_frames s)) by done. unfold leaf, leaf_at.
  destruct (table_at (pg_mem s) root (va_path va)) as [t|] eqn:Ht; [|done].
  destruct (entry_is_present (pg_mem s t (va_leaf va))) eqn:Hpr; [|done].
  destruct (sw_leaf _ _ _ _ Hsp (va_path va) t (va_leaf va) (va_path_ok va Hva) eq_refl (page_index_lt _ _) Ht Hpr)
    as [-> _]. cbn [andb negb].
  destruct (write_leaf_all roots root s va t 0 Hpw Hroot Hva Ht) as (Hpw' & Hk & Htr); [done|].
  split; [done|]. split; [done|]. split; [by eexists|]. by split.
Qed.

(** * Reclaiming *)

Lemma frames_in_use_bound a : frames_wf a → (Z.of_nat (size (owners a)) ≤ 16384)%Z.
Proof.
  intros [Hwf _]. rewrite size_owners by done. pose proof (fw_record_count _ _ Hwf) as H. cbn in H.
  unfold MAX_FRAME_RECORDS in H. lia.
Qed.

(** With no present entry in the root, the root is the only table and there is no
    page. *)
Lemma emptied_tree m root p t :
  (∀ j, j < ENTRY_COUNT / 2 → entry_is_present (m root j) = false) → path_ok p →
  table_at m root p = Some t → p = [] ∧ t = root.
Proof.
  intros Hempty Hp Ht. destruct p as [|i p]; [by simplify_eq/=|]. cbn in Ht.
  unfold next_table in Ht. rewrite Hempty in Ht by (by eapply path_ok_head). done.
Qed.

Lemma reclaim_spec s root :
  frames_wf (pg_frames s) → space_wf (pg_mem s) (pg_frames s) root →
  let '(r, s') := reclaim_user_address_space root s in
  ∃ s1, shrinks any_frame root s s1 ∧
  match r with
  | Ok st =>
      keeps_owned root s s1 ∧ (∀ j, j < ENTRY_COUNT / 2 → entry_is_present (pg_mem s1 root j) = false) ∧
      pg_mem s' = pg_mem s1 ∧ frames_wf (pg_frames s') ∧
      sp_usable (frame_view (pg_frames s')) = sp_usable (frame_view (pg_frames s1)) ∧
      owners (pg_frames s') = delete root (owners (pg_frames s1)) ∧
      (user_leaf_frames st + page_table_frames st =
       Z.of_nat (size (owners (pg_frames s))) - Z.of_nat (size (owners (pg_frames s'))))%Z
  | Err e => s' = s1 ∧ e = ReclaimFree FreeStackFull ∧
      FREE_STACK_CAPACITY < length (recycled (pg_frames s)) + size (owners (pg_frames s))
  end.
Proof.
  intros Hwf Hsp. unfold reclaim_user_address_space.
  set (rs := mkReclaiming s reclaim_stats_empty).
  set (K := Z.of_nat (size (owners (pg_frames s)))).
  set (R := Z.of_nat (length (recycled (pg_frames s)))).
  assert (HK : (K ≤ 16384)%Z) by (by apply frames_in_use_bound).
  assert (Hi : reclaiming root rs K R).
  { constructor; cbn; [done|by eapply tree_wf_any|lia|lia|lia]. }
  pose proof (reclaim_root_entries_spec root K R HK (ENTRY_COUNT / 2) 0 rs Hi (le_n _) ltac:(lia)) as H.
  unfold rbind at 1. destruct (reclaim_root_entries root 0 (ENTRY_COUNT / 2) rs) as [[[]|e] rs1].
  - destruct H as [H Hempty]. specialize (Hempty eq_refl). pose proof (rd_inv _ _ _ _ _ _ _ _ H) as Hi1.
    pose proof (sw_owner _ _ _ _ (re_tree _ _ _ _ Hi1) [] root path_ok_nil eq_refl) as Ho.
    assert (Hf : frame_ok root) by (by eapply owned_frame_ok; [apply Hi1|]).
    pose proof (reclaim_free_spec root K R rs1 root _ Hi1 Ho) as Hfree.
    unfold free_page_table_frame. rewrite (frame_from_physical_ok root Hf). unfold rbind, rlift.
    destruct (reclaim_free (mkPhysicalFrame root) (owner_page_table root) rs1) as [[[]|e] rs2].
    + destruct Hfree as (Hwf2 & Hm2 & Hst & Hu & [(_ & Hown & _)|[? _]]); [|done]. unfold rmodify; cbn.
      exists (rc_paging rs1). split; [apply H|]. split; [by apply H|]. split; [done|]. split_and!; [done..|].
      destruct (re_stats _ _ _ _ Hi1) as [Hs1 Hs2]. pose proof (re_count _ _ _ _ Hi1) as Hcnt.
      destruct (sat_add_1 K _ _ _ Hs1 Hs2 (Nat2Z.is_nonneg _) Hcnt HK) as [_ Hsat].
      rewrite Hst, Hsat, Hown. pose proof (size_delete_Z _ _ _ Ho). lia.
    + destruct Hfree as (_ & _ & _ & _ & [[? _]|([= ->] & -> & Hfull)]); [done|]. cbn.
      exists (rc_paging rs1). split; [apply H|]. split; [done|]. split; [done|].
      pose proof (re_room _ _ _ _ Hi1). pose proof (re_count _ _ _ _ Hi1). pose proof (size_delete_Z _ _ _ Ho). lia.
  - destruct H as [H _]. exists (rc_paging rs1). split; [apply H|]. cbn. split; [done|].
    destruct (rd_error _ _ _ _ _ _ _ _ H e eq_refl) as [-> Hfull]. split; [done|].
    pose proof (rd_inv _ _ _ _ _ _ _ _ H) as Hi1.
    pose proof (sw_owner _ _ _ _ (re_tree _ _ _ _ Hi1) [] root path_ok_nil eq_refl) as Ho.
    pose proof (re_room _ _ _ _ Hi1). pose proof (re_count _ _ _ _ Hi1). pose proof (size_delete_Z _ _ _ Ho). lia.
Qed.

Lemma shrinks_all ok roots root s s' :
  paging_wf roots s → shrinks ok root s s' →
  paging_wf (roots ∖ {[root]}) s' ∧ others_kept (roots ∖ {[root]}) root (λ _, False) s s'.
Proof.
  intros [Hwf Hall] Hsh.
  assert (Hsp : ∀ r, r ∈ roots ∖ {[root]} → r ∈ roots ∧ r ≠ root ∧ space_wf (pg_mem s') (pg_frames s') r).
  { intros r Hr. apply elem_of_difference in Hr as [Hr Hne]. rewrite elem_of_singleton in Hne.
    split_and!; [done..|]. by apply (shrinks_other ok root s s' r Hwf Hsh Hne), Hall. }
  split; [by split; [apply Hsh|intros r Hr; by apply Hsp]|]. constructor.
  - intros r va Hr Hva _. destruct (Hsp r Hr) as (Hin & Hne & Hr').
    apply (translate_frame _ _ (pg_frames s) (pg_frames s')); [by apply Hall|done|done|].
    apply (shrinks_other ok root s s' r Hwf Hsh Hne); [by apply Hall|by apply va_path_ok].
  - intros r i Hr Hi. destruct (Hsp r Hr) as (Hin & Hne & Hr').
    destruct (decide (pg_mem s' r i = pg_mem s r i)) as [|He]; [done|].
    apply (sh_mem _ _ _ _ Hsh) in He.
    rewrite (sw_owner _ _ _ _ (Hall r Hin) [] r path_ok_nil eq_refl) in He.
    unfold owner_page_table in He. congruence.
Qed.

(** Freeing the root table itself. *)
Lemma free_root_all roots root s s' :
  paging_wf roots s → root ∉ roots → owners (pg_frames s) !! root = Some (owner_page_table root) →
  pg_mem s' = pg_mem s → frames_wf (pg_frames s') →
  sp_usable (frame_view (pg_frames s')) = sp_usable (frame_view (pg_frames s)) →
  owners (pg_frames s') = delete root (owners (pg_frames s)) →
  paging_wf roots s' ∧ others_kept roots root (λ _, False) s s'.
Proof.
  intros [Hwf Hall] Hnot Hroot Hm Hwf' Hu Hown.
  assert (Hfr : ∀ r, r ∈ roots → space_wf (pg_mem s') (pg_frames s') r ∧
    ∀ p i, path_ok p → leaf_at (pg_mem s') r p i = leaf_at (pg_mem s) r p i).
  { intros r Hr. apply (space_frame _ _ (pg_frames s)); [by apply Hall| | |].
    - intros t i _. by rewrite Hm.
    - intros t Ht. rewrite Hown, lookup_delete_ne; [done|]. intros <-.
      rewrite Hroot in Ht. unfold owner_page_table in Ht. by simplify_eq.
    - intros f. eapply (mappable_delete _ _ r root root f); try done. by right. }
  split; [by split; [|intros r Hr; apply Hfr]|]. constructor.
  - intros r va Hr Hva _. apply (translate_frame _ _ (pg_frames s) (pg_frames s')); [by apply Hall|by apply Hfr|done|].
    apply Hfr; [done|by apply va_path_ok].
  - intros r i _ _. by rewrite Hm.
Qed.

(** Reclaiming an address space, seen from all of them. *)
Lemma reclaim_all roots s root :
  paging_wf roots s → root ∈ roots →
  let '(r, s') := reclaim_user_address_space root s in
  paging_wf (roots ∖ {[root]}) s' ∧ others_kept (roots ∖ {[root]}) root (λ _, False) s s' ∧
  (∀ t i, pg_mem s' t i ≠ pg_mem s t i → owners (pg_frames s) !! t = Some (owner_page_table root)) ∧
  (∀ x o, owners (pg_frames s') !! x = Some o → owners (pg_frames s) !! x = Some o) ∧
  (∀ x o, owners (pg_frames s) !! x = Some o → owners (pg_frames s') !! x = Some o ∨
     o = owner_page_table root ∨ o = owner_process_memory root) ∧
  match r with
  | Ok st =>
      (∀ p t, path_ok p → table_at (pg_mem s) root p = Some t → owners (pg_frames s') !! t = None) ∧
      (∀ va f u w, user_address va → translate (pg_mem s) root va = Some (f, u, w) →
         owners (pg_frames s') !! f ≠ Some (owner_process_memory root)) ∧
      (user_leaf_frames st + page_table_frames st =
       Z.of_nat (size (owners (pg_frames s))) - Z.of_nat (size (owners (pg_frames s'))))%Z
  | Err e => e = ReclaimFree FreeStackFull ∧
      FREE_STACK_CAPACITY < length (recycled (pg_frames s)) + size (owners (pg_frames s))
  end.
Proof.
  intros Hpw Hroot. pose proof (pw_spaces _ _ Hpw root Hroot) as Hsp.
  pose proof (reclaim_spec s root (pw_frames _ _ Hpw) Hsp) as H.
  destruct (reclaim_user_address_space root s) as [[st|e] s']; destruct H as (s1 & Hsh & H).
  - destruct H as (Hke & Hempty & Hm & Hwf' & Hu & Hown & Hcnt).
    destruct (shrinks_all _ _ _ _ _ Hpw Hsh) as [Hpw1 Hk1].
    pose proof (sw_owner _ _ _ _ (sh_space _ _ _ _ Hsh) [] root path_ok_nil eq_refl) as Ho.
    destruct (free_root_all (roots ∖ {[root]}) root s1 s' Hpw1 ltac:(set_solver) Ho Hm Hwf' Hu Hown) as [Hpw2 Hk2].
    assert (Hsub : ∀ x o, owners (pg_frames s') !! x = Some o → x ≠ root ∧ owners (pg_frames s1) !! x = Some o).
    { intros x o. rewrite Hown. intros [? ?]%lookup_delete_Some. done. }
    split; [done|]. split; [by eapply others_kept_trans|]. split_and!.
    + intros t i. rewrite Hm. apply Hsh.
    + intros x o Hx. by apply (sh_owners _ _ _ _ Hsh), Hsub.
    + intros x o Hx. destruct (owners (pg_frames s1) !! x) as [o1|] eqn:Hx1.
      * pose proof (sh_owners _ _ _ _ Hsh _ _ Hx1). assert (o1 = o) as -> by congruence.
        destruct (decide (x = root)) as [->|Hne]; [right; left; congruence|].
        left. by rewrite Hown, lookup_delete_ne.
      * right. by apply (sh_gone _ _ _ _ Hsh x o).
    + intros p t Hp Ht. destruct (owners (pg_frames s') !! t) as [o|] eqn:Hx; [|done].
      apply Hsub in Hx as [Hne Hx]. exfalso. apply Hne.
      eapply (emptied_tree (pg_mem s1) root p); [done|done|]. apply Hke; [done|done|by eexists].
    + intros va f u w Hva Htr Hx. apply Hsub in Hx as [_ Hx].
      rewrite (translate_leaf _ (pg_frames s)) in Htr by done. unfold leaf in Htr.
      destruct (leaf_at (pg_mem s) root (va_path va) (va_leaf va)) as [e|] eqn:Hl; [|done].
      unfold leaf_view in Htr. injection Htr as <- <- <-.
      apply (sh_mapped _ _ _ _ Hsh) in Hl; [|by apply va_path_ok|done|apply page_index_lt|done].
      unfold leaf_at in Hl. destruct (table_at (pg_mem s1) root (va_path va)) as [t|] eqn:Ht; [|done].
      apply emptied_tree in Ht as [? _]; [done|done|by apply va_path_ok].
    + done.
  - destruct H as (-> & -> & Hroom). destruct (shrinks_all _ _ _ _ _ Hpw Hsh) as [Hpw1 Hk1].
    split; [done|]. split; [done|]. split_and!; [apply Hsh|apply Hsh| |done|done].
    intros x o Hx. destruct (owners (pg_frames s1) !! x) as [o1|] eqn:Hx1.
    + left. pose proof (sh_owners _ _ _ _ Hsh _ _ Hx1). congruence.
    + right. by apply (sh_gone _ _ _ _ Hsh x o).
Qed.

(** C25: reclaiming an address space frees exactly its memory. All other address
    spaces stay well formed with all their translations; frames of other owners
    (other processes, devices, the kernel) keep their owners and contents; and unless the stack of
    recycled frames overflows, which needs more recycled and used frames than it
    has room for, every page table of the address space and every frame of the
    process that it mapped is free afterwards, and the statistics count the freed
    frames. *)
Theorem reclaim_effect roots s root :
  paging_wf roots s → root ∈ roots →
  let '(r, s') := reclaim_user_address_space root s in
  paging_wf (roots ∖ {[root]}) s' ∧ others_kept (roots ∖ {[root]}) root (λ _, False) s s' ∧
  (∀ t i, pg_mem s' t i ≠ pg_mem s t i → owners (pg_frames s) !! t = Some (owner_page_table root)) ∧
  (∀ x o, owners (pg_frames s') !! x = Some o → owners (pg_frames s) !! x = Some o) ∧
  (∀ x o, owners (pg_frames s) !! x = Some o → owners (pg_frames s') !! x = Some o ∨
     o = owner_page_table root ∨ o = owner_process_memory root) ∧
  match r with
  | Ok st =>
      (∀ p t, path_ok p → table_at (pg_mem s) root p = Some t → owners (pg_frames s') !! t = None) ∧
      (∀ va f u w, user_address va → translate (pg_mem s) root va = Some (f, u, w) →
         owners (pg_frames s') !! f ≠ Some (owner_process_memory root)) ∧
      (user_leaf_frames st + page_table_frames st =
       Z.of_nat (size (owners (pg_frames s))) - Z.of_nat (size (owners (pg_frames s'))))%Z
  | Err e => e = ReclaimFree FreeStackFull ∧
      FREE_STACK_CAPACITY < length (recycled (pg_frames s)) + size (owners (pg_frames s))
  end.
Proof. apply reclaim_all. Qed.

(** * Pruning *)

Lemma entries_empty_spec m t left : ∀ index,
  entries_empty m t index left = true ↔
  ∀ j, index ≤ j < index + left → entry_is_present (m t j) = false.
Proof.
  induction left as [|left IH]; intros index; cbn [entries_empty].
  { split; [lia|done]. }
  destruct (entry_is_present (m t index)) eqn:Hp.
  - split; [done|]. intros H. rewrite H in Hp by lia. done.
  - rewrite IH. split.
    + intros H j Hj. destruct (decide (j = index)) as [->|]; [done|apply H; lia].
    + intros H j Hj. apply H. lia.
Qed.

(** Removing empty tables: translations and other owners stay. *)
Record prunes (root : Z) (s s' : Paging) : Prop := mk_prunes {
  pn_shrinks : shrinks mappable root s s';
  pn_leaf p i : path_ok p → length p = 3 → i < ENTRY_COUNT →
    leaf_at (pg_mem s') root p i = leaf_at (pg_mem s) root p i;
  pn_gone x o : owners (pg_frames s) !! x = Some o → owners (pg_frames s') !! x = None → o = owner_page_table root
}.

Lemma prunes_refl root s : frames_wf (pg_frames s) → space_wf (pg_mem s) (pg_frames s) root → prunes root s s.
Proof. intros Hwf Hsp. constructor; [by apply shrinks_refl|done|congruence]. Qed.

Lemma prunes_trans root s1 s2 s3 : prunes root s1 s2 → prunes root s2 s3 → prunes root s1 s3.
Proof.
  intros H1 H2. constructor.
  - eapply shrinks_trans; [apply H1|apply H2].
  - intros p i Hp Hl Hi. by rewrite (pn_leaf _ _ _ H2), (pn_leaf _ _ _ H1).
  - intros x o Hx Hn. destruct (owners (pg_frames s2) !! x) as [o2|] eqn:Hx2.
    + pose proof (sh_owners _ _ _ _ (pn_shrinks _ _ _ H1) _ _ Hx2). assert (o2 = o) as -> by congruence.
      by apply (pn_gone _ _ _ H2 x).
    + by apply (pn_gone _ _ _ H1 x).
Qed.

Lemma prune_step root p t i c rs :
  frames_wf (pg_frames (rc_paging rs)) → space_wf (pg_mem (rc_paging rs)) (pg_frames (rc_paging rs)) root →
  path_ok (p ++ [i]) → table_at (pg_mem (rc_paging rs)) root p = Some t →
  table_at (pg_mem (rc_paging rs)) root (p ++ [i]) = Some c →
  (∀ j, j < ENTRY_COUNT → entry_is_present (pg_mem (rc_paging rs) c j) = false) →
  let '(r, rs') := (do! clear_entry t i; free_page_table_frame root c) rs in
  prunes root (rc_paging rs) (rc_paging rs') ∧
  table_at (pg_mem (rc_paging rs')) root p = Some t ∧
  (r = Ok tt ∨ r = Err (ReclaimFree FreeStackFull)).
Proof.
  intros Hwf Hsp Hp Ht Hc Hempty. pose proof (sw_owner _ _ _ _ Hsp _ _ Hp Hc) as Ho.
  assert (Hf : frame_ok c) by (by eapply owned_frame_ok).
  assert (Hat : table_at (write_entry t i 0 (pg_mem (rc_paging rs))) root p = Some t).
  { assert (Hp' : path_ok p) by (by apply path_ok_init in Hp as [? _]).
    by rewrite (table_at_write mappable _ _ root p t i 0 Hsp Hp' Ht p Hp' (snoc_not_prefix p i)). }
  pose proof (free_owned_spec c _ _ Hwf Ho) as Hfree.
  unfold free_page_table_frame. rewrite (frame_from_physical_ok c Hf).
  unfold rbind, rlift, reclaim_free, clear_entry, rmodify; cbn.
  destruct rs as [[m a] st]. cbn [rc_paging pg_mem pg_frames] in *.
  destruct (free_owned (mkPhysicalFrame c) (owner_page_table root) a) as [r a'].
  destruct Hfree as (Hwf' & Hus & Hcase).
  assert (Hown : owners a' = owners a ∨ owners a' = delete c (owners a)) by naive_solver.
  assert (Hpn : prunes root (mkPaging m a) (mkPaging (write_entry t i 0 m) a')).
  { assert (Hok : ∀ f, mappable a root f → mappable a' root f) by (intros f; by eapply mappable_delete).
    constructor.
    - by eapply (dt_shrinks mappable m a a' root t c p i).
    - intros q j Hq Hl Hj. by eapply (dt_leaf mappable m a a' root t c p i).
    - cbn. intros x o Hx Hn. destruct (decide (x = c)) as [->|Hne]; [congruence|].
      destruct Hown as [Hown|Hown]; rewrite Hown in Hn; [congruence|]. rewrite lookup_delete_ne in Hn by done. congruence. }
  destruct Hcase as [(-> & _ & _)|(-> & -> & _)]; cbn; split_and!; try done; auto.
Qed.

(** The tables on the way to an address, the lowest first: each entry is the end of
    a path of the tree. *)
Fixpoint on_path (m : PhysMem) (root : Z) (p : list nat) (l : list (Z * Z * nat)) : Prop :=
  match l with
  | [] => p = []
  | (c, t, i) :: rest =>
      ∃ q, p = q ++ [i] ∧ table_at m root q = Some t ∧ table_at m root p = Some c ∧ on_path m root q rest
  end.

Lemma prune_path_on_path m a root : space_wf m a root → ∀ indexes p t above,
  table_at m root p = Some t → on_path m root p above →
  path_ok (p ++ removelast indexes) → indexes ≠ [] →
  match prune_path m t indexes above with
  | Ok (Some l) => on_path m root (p ++ removelast indexes) l
  | Ok None => True
  | Err _ => False
  end.
Proof.
  intros Hsp indexes. induction indexes as [|i [|j rest] IH]; intros p t above Ht Habove Hp Hne; [done|..].
  - cbn. by rewrite app_nil_r.
  - cbn [prune_path]. destruct (entry_is_present (m t i)) eqn:Hpr; cbn [negb]; [|done].
    assert (Hpi : path_ok (p ++ [i])).
    { change (removelast (i :: j :: rest)) with ([i] ++ removelast (j :: rest)) in Hp. rewrite app_assoc in Hp.
      destruct Hp as (H1 & H2 & H3). rewrite length_app in H1. split; [lia|]. apply Forall_app in H2 as [H2 _].
      split; [done|]. intros k Hk. apply H3. destruct p; exact Hk. }
    destruct (sw_dir _ _ _ _ Hsp p t i Hpi Ht Hpr) as (Hh & _ & _). rewrite Hh.
    assert (Hc : table_at m root (p ++ [i]) = Some (entry_address (m t i))).
    { rewrite table_at_snoc, Ht. by apply next_table_Some. }
    change (removelast (i :: j :: rest)) with ([i] ++ removelast (j :: rest)) in *. rewrite app_assoc in Hp |- *.
    apply (IH (p ++ [i])); [done| |done|done]. cbn. exists p. done.
Qed.

Lemma prune_tables_spec root l : ∀ p rs,
  frames_wf (pg_frames (rc_paging rs)) → space_wf (pg_mem (rc_paging rs)) (pg_frames (rc_paging rs)) root →
  path_ok p → on_path (pg_mem (rc_paging rs)) root p l →
  let '(r, rs') := prune_tables root l rs in
  prunes root (rc_paging rs) (rc_paging rs') ∧ (r = Ok tt ∨ r = Err (ReclaimFree FreeStackFull)).
Proof.
  induction l as [|[[c t] i] rest IH]; intros p rs Hwf Hsp Hp Hon; cbn [prune_tables].
  { split; [by apply prunes_refl|by left]. }
  destruct Hon as (q & -> & Ht & Hc & Hrest).
  unfold rbind at 1, rget at 1. destruct (page_table_is_empty (pg_mem (rc_paging rs)) c) eqn:Hempty; cbn [negb].
  2: { split; [by apply prunes_refl|by left]. }
  pose proof (proj1 (entries_empty_spec _ _ _ _) Hempty) as Hem.
  pose proof Hc as Hc'. rewrite table_at_snoc, Ht in Hc'. apply next_table_Some in Hc' as (Hpr & Hh & Ha).
  rewrite Hpr, Ha, Z.eqb_refl, Hh. cbn [negb orb].
  pose proof (prune_step root q t i c rs Hwf Hsp Hp Ht Hc ltac:(intros j Hj; apply Hem; lia)) as Hst.
  rewrite <-rbind_assoc. unfold rbind at 1. unfold rbind at 1. unfold rguard at 1.
  destruct ((do! clear_entry t i; free_page_table_frame root c) rs) as [[[]|e] rs1] eqn:Hrun.
  - unfold rbind in Hrun. unfold rbind. cbn [negb].
    destruct (clear_entry t i rs) as [[[]|] rsc] eqn:Hcl; [|done]. rewrite Hrun.
    destruct Hst as (Hpn & Htq & _).
    assert (Hq : path_ok q) by (by apply path_ok_init in Hp as [? _]).
    assert (Hrest' : on_path (pg_mem (rc_paging rs1)) root q rest).
    { clear -Hrest Htq Hpn Hq. revert q t Hq Htq Hrest. induction rest as [|[[c' t'] i'] rest IHr]; intros q t Hq Htq Hrest; [done|].
      cbn in Hrest |- *. destruct Hrest as (q' & -> & Ht' & Hc' & Hr').
      pose proof (sh_tables _ _ _ _ (pn_shrinks _ _ _ Hpn) _ _ Hq Htq) as Hold.
      assert (t = c') as -> by congruence. pose proof Htq as Hsplit. rewrite table_at_snoc in Hsplit.
      destruct (table_at (pg_mem (rc_paging rs1)) root q') as [u|] eqn:Hu; [|done].
      assert (Hq' : path_ok q') by (by apply path_ok_init in Hq as [? _]).
      pose proof (sh_tables _ _ _ _ (pn_shrinks _ _ _ Hpn) _ _ Hq' Hu) as Hold'.
      assert (u = t') as -> by congruence. exists q'. split_and!; try done. by eapply IHr. }
    pose proof (IH q rs1 (sh_frames _ _ _ _ (pn_shrinks _ _ _ Hpn)) (sh_space _ _ _ _ (pn_shrinks _ _ _ Hpn)) Hq Hrest') as H2.
    destruct (prune_tables root rest rs1) as [r2 rs2]. destruct H2 as [H2 Hr]. split; [|done].
    by eapply prunes_trans.
  - unfold rbind in Hrun. unfold rbind. cbn [negb].
    destruct (clear_entry t i rs) as [[[]|] rsc] eqn:Hcl; [|done]. rewrite Hrun.
    destruct Hst as (Hpn & _ & Hr). split; [done|]. exact Hr.
Qed.

Lemma prune_prunes s root va :
  frames_wf (pg_frames s) → space_wf (pg_mem s) (pg_frames s) root → user_address va →
  let '(r, s') := prune_empty_user_page_tables root va s in
  prunes root s s' ∧ (r = Ok tt ∨ r = Err (ReclaimFree FreeStackFull)).
Proof.
  intros Hwf Hsp Hva. unfold prune_empty_user_page_tables.
  pose proof (prune_path_on_path _ _ root Hsp (page_indexes va) [] root [] eq_refl eq_refl (va_path_ok va Hva) ltac:(done)) as Hpath.
  destruct (prune_path (pg_mem s) root (page_indexes va) []) as [[l|]|e]; [|by split; [apply prunes_refl|left]|done].
  pose proof (prune_tables_spec root l _ (mkReclaiming s reclaim_stats_empty) Hwf Hsp (va_path_ok va Hva) Hpath) as H.
  destruct (prune_tables root l _) as [r t]. exact H.
Qed.

(** Pruning frees only empty page tables: whatever [prune_empty_user_page_tables]
    does for a user address, no address space loses or gains a translation, all stay
    well formed, and the only frames it frees are page tables of its address space;
    the only error is a full stack of recycled frames. *)
Lemma prune_effect roots s root va :
  paging_wf roots s → root ∈ roots → user_address va →
  let '(r, s') := prune_empty_user_page_tables root va s in
  paging_wf roots s' ∧ others_kept roots root (λ _, False) s s' ∧
  (∀ x o, owners (pg_frames s') !! x = Some o → owners (pg_frames s) !! x = Some o) ∧
  (∀ x o, owners (pg_frames s) !! x = Some o → owners (pg_frames s') !! x = Some o ∨ o = owner_page_table root) ∧
  (r = Ok tt ∨ r = Err (ReclaimFree FreeStackFull)).
Proof.
  intros Hpw Hroot Hva. pose proof (pw_spaces _ _ Hpw root Hroot) as Hsp. pose proof (pw_frames _ _ Hpw) as Hwf.
  pose proof (prune_prunes s root va Hwf Hsp Hva) as H.
  destruct (prune_empty_user_page_tables root va s) as [r s']. destruct H as [Hpn Hr].
  pose proof (pn_shrinks _ _ _ Hpn) as Hsh. destruct (shrinks_all _ _ _ _ _ Hpw Hsh) as [Hpw1 Hk1].
  assert (Hsp' : ∀ q, q ∈ roots → space_wf (pg_mem s') (pg_frames s') q).
  { intros q Hq. destruct (decide (q = root)) as [->|Hne]; [apply Hsh|]. apply (pw_spaces _ _ Hpw1). set_solver. }
  split; [by split; [apply Hsh|]|]. split; [|split_and!; [apply Hsh| |done]].
  - constructor.
    + intros q va' Hq Hva' Hn. destruct (decide (q = root)) as [->|Hne]; [|apply (ok_translate _ _ _ _ _ Hk1); set_solver].
      apply (translate_frame _ _ (pg_frames s) (pg_frames s')); [done|by apply Hsp'|done|].
      apply (pn_leaf _ _ _ Hpn); [by apply va_path_ok|done|apply page_index_lt].
    + intros q i Hq Hi. destruct (decide (q = root)) as [->|Hne]; [by apply Hsh|]. apply (ok_kernel _ _ _ _ _ Hk1); [set_solver|done].
  - intros x o Hx. destruct (owners (pg_frames s') !! x) as [o'|] eqn:Hx'.
    + left. pose proof (sh_owners _ _ _ _ Hsh _ _ Hx'). congruence.
    + right. by apply (pn_gone _ _ _ Hpn x).
Qed.

(** * New address spaces *)

Lemma copy_entries_spec from to left : ∀ index m t i, from ≠ to →
  copy_entries from to index left m t i =
  if decide (t = to ∧ index ≤ i < index + left) then m from i else m t i.
Proof.
  induction left as [|left IH]; intros index m t i Hne; cbn [copy_entries].
  { by rewrite decide_False by lia. }
  rewrite IH by done. rewrite (write_table to index _ _ from i) by done.
  destruct (decide (t = to ∧ S index ≤ i < S index + left)) as [H|H].
  { by rewrite decide_True by lia. }
  destruct (decide (t = to ∧ i = index)) as [[-> ->]|Hn].
  - rewrite write_same. by rewrite decide_True by lia.
  - rewrite write_other by (destruct (decide (t = to)), (decide (i = index)); naive_solver).
    rewrite decide_False; [done|]. intros [-> ?]. apply H. split; [done|]. lia.
Qed.

Lemma new_root_mem_spec active root m : active ≠ root →
  (∀ t i, t ≠ root → new_root_mem active root m t i = m t i) ∧
  (∀ i, i < ENTRY_COUNT / 2 → new_root_mem active root m root i = 0%Z) ∧
  (∀ i, ENTRY_COUNT / 2 ≤ i < ENTRY_COUNT → new_root_mem active root m root i = m active i).
Proof.
  intros Hne. assert (Hhalf : ENTRY_COUNT / 2 + ENTRY_COUNT / 2 = ENTRY_COUNT) by done.
  unfold new_root_mem. split_and!; intros *; rewrite copy_entries_spec by done.
  - intros Ht. rewrite decide_False by tauto. by apply zero_table_other.
  - intros Hi. rewrite decide_False by lia. apply zero_table_same. lia.
  - intros Hi. rewrite decide_True by (split; [done|lia]). by apply zero_table_other.
Qed.

Lemma new_space_core roots m m' a a2 root active :
  paging_wf roots (mkPaging m a) → frames_wf a2 → sp_usable (frame_view a2) = sp_usable (frame_view a) →
  owners a !! root = None → contains a (mkPhysicalFrame root) = true →
  owners a2 = <[root := owner_page_table root]> (owners a) →
  (∀ t i, t ≠ root → m' t i = m t i) → (∀ i, i < ENTRY_COUNT / 2 → m' root i = 0%Z) →
  (∀ i, ENTRY_COUNT / 2 ≤ i < ENTRY_COUNT → m' root i = m active i) →
  paging_wf ({[root]} ∪ roots) (mkPaging m' a2) ∧
  others_kept roots root (λ _, False) (mkPaging m a) (mkPaging m' a2) ∧
  (∀ va, user_address va → translate m' root va = None).
Proof.
  intros Hpw Hwf2 Hu Hn Hc Ho2 Hother Hlow Hhigh. pose proof (pw_frames _ _ Hpw) as Hwf. cbn in Hwf.
  assert (Hempty : ∀ p t, path_ok p → table_at m' root p = Some t → p = [] ∧ t = root).
  { intros p t. apply emptied_tree. intros j Hj. by rewrite Hlow. }
  assert (Hnew : space_wf m' a2 root).
  { constructor.
    - intros p t Hp Ht. destruct (Hempty p t Hp Ht) as [_ ->]. rewrite Ho2. apply lookup_insert_eq.
    - intros p q t Hp Hq Ht Hq'. destruct (Hempty p t Hp Ht) as [-> _], (Hempty q t Hq Hq') as [-> _]. done.
    - intros p t i Hp Ht Hpr. destruct (path_ok_init _ _ Hp) as (Hp' & _ & _).
      destruct (Hempty p t Hp' Ht) as [-> ->]. rewrite Hlow in Hpr by (by eapply path_ok_head). done.
    - intros p t i Hp Hl _ Ht _. destruct (Hempty p t Hp Ht) as [-> _]. done. }
  assert (Hold : ∀ r, r ∈ roots → r ≠ root ∧ space_wf m' a2 r ∧
    ∀ p i, path_ok p → leaf_at m' r p i = leaf_at m r p i).
  { intros r Hr. pose proof (pw_spaces _ _ Hpw r Hr) as Hsp. cbn in Hsp.
    assert (Hrr : r ≠ root).
    { intros Heq. pose proof (sw_owner _ _ _ _ Hsp [] r path_ok_nil eq_refl) as Hr'. congruence. }
    split; [done|]. apply (space_frame m m' a a2 r Hsp).
    - intros t i Ht. apply Hother. congruence.
    - intros t Ht. rewrite Ho2, lookup_insert_ne; [done|]. congruence.
    - intros f. unfold mappable. rewrite Ho2. destruct (decide (f = root)) as [->|Hf].
      + rewrite Hn, Hc. done.
      + rewrite lookup_insert_ne by done. destruct (owners a !! f); [done|]. by rewrite (contains_same a a2). }
  split; [|split].
  - split; [exact Hwf2|]. cbn. intros r [->%elem_of_singleton|Hr]%elem_of_union; [done|]. by apply Hold.
  - constructor; cbn.
    + intros r va Hr Hva _. destruct (Hold r Hr) as (_ & Hsp' & Hleaf).
      apply (translate_frame m m' a a2); [apply (pw_spaces _ _ Hpw r Hr)|done|done|]. apply Hleaf. by apply va_path_ok.
    + intros r i Hr _. apply Hother. by apply Hold.
  - intros va Hva. rewrite (translate_leaf m' a2) by done. unfold leaf, leaf_at.
    destruct (table_at m' root (va_path va)) as [t|] eqn:Ht; [|done].
    apply Hempty in Ht as [? _]; [done|by apply va_path_ok].
Qed.

(** A new address space is empty and has the kernel's mappings. From well-formed
    address spaces and a processor whose root table is not free memory,
    [new_from_active_kernel_mappings] fails only for want of frames, changing no
    table; otherwise its root is a frame nobody owned, no user address is translated
    in it, its upper half is the one of the active root table, all other address
    spaces keep their translations and all of them are well formed. *)
Lemma new_address_space_effect roots s cr3 :
  let active := Z.land cr3 ADDRESS_MASK in
  paging_wf roots s →
  (is_Some (owners (pg_frames s) !! active) ∨ contains (pg_frames s) (mkPhysicalFrame active) = false) →
  let '(r, s') := new_from_active_kernel_mappings cr3 s in
  match r with
  | Ok space =>
      let root := frame_start (as_root_frame space) in
      owners (pg_frames s) !! root = None ∧
      owners (pg_frames s') = <[root := owner_page_table root]> (owners (pg_frames s)) ∧
      paging_wf ({[root]} ∪ roots) s' ∧ others_kept roots root (λ _, False) s s' ∧
      (∀ va, user_address va → translate (pg_mem s') root va = None) ∧
      (∀ i, ENTRY_COUNT / 2 ≤ i < ENTRY_COUNT → pg_mem s' root i = pg_mem s active i) ∧
      (∀ t i, t ≠ root → pg_mem s' t i = pg_mem s t i) ∧
      sp_usable (frame_view (pg_frames s')) = sp_usable (frame_view (pg_frames s))
  | Err e => e = OutOfFrames ∧ out_of_frames (pg_frames s) ∧ pg_mem s' = pg_mem s ∧ paging_wf roots s' ∧
      owners (pg_frames s') = owners (pg_frames s) ∧
      sp_usable (frame_view (pg_frames s')) = sp_usable (frame_view (pg_frames s))
  end.
Proof.
  intros active Hpw Hact. destruct s as [m a]. cbn [pg_mem pg_frames] in *.
  pose proof (pw_frames _ _ Hpw) as Hwf. cbn in Hwf. unfold new_from_active_kernel_mappings. cbn [pg_mem pg_frames].
  pose proof (allocate_owned_spec (owner_page_table 0) a Hwf) as Ha.
  destruct (allocate_owned (owner_page_table 0) a) as [[[root]|] a1].
  2: { destruct Ha as (Hwf1 & Hu & Ho & Hout). cbn. split_and!; try done.
       split; [done|]. cbn. intros r Hr. pose proof (pw_spaces _ _ Hpw r Hr) as Hsp. cbn in Hsp.
       eapply (space_frame m m a a1 r Hsp); [done|by rewrite Ho|].
       intros f. unfold mappable. rewrite Ho. by rewrite (contains_same a a1). }
  destruct Ha as (Hwf1 & Hu1 & Hn & Ho1 & Hc & Hal). cbn [frame_start] in *.
  pose proof (set_owner_spec root (owner_page_table 0) (owner_page_table root) a1 Hwf1) as Hs.
  rewrite Ho1, lookup_insert_eq in Hs. specialize (Hs eq_refl).
  destruct (set_owner (mkPhysicalFrame root) (owner_page_table root) a1) as [r a2].
  destruct Hs as (-> & Hwf2 & Hu2 & Ho2). rewrite insert_insert_eq in Ho2. cbn [frame_start as_root_frame].
  fold active.
  assert (Hne : active ≠ root).
  { intros Heq. rewrite Heq in Hact. destruct Hact as [[o Ho]|Hf]; congruence. }
  destruct (new_root_mem_spec active root m Hne) as (Hother & Hlow & Hhigh).
  destruct (new_space_core roots m (new_root_mem active root m) a a2 root active) as (H1 & H2 & H3);
    [done|done|congruence|done|done|done|done|done|done|].
  cbn [pg_mem pg_frames set eta_Paging]. split_and!; try done. congruence.
Qed.

(** * User ranges *)

(** Whether the processor lets user mode access an address. *)
Definition user_may (m : PhysMem) (root va : Z) (access : PageAccess) : bool :=
  match translate m root va with
  | Some (_, user, writable) => user && (if decide (access = PageWrite) then writable else true)
  | None => false
  end.

Lemma validate_from_dir m a root p t i rest access :
  space_wf m a root → path_ok (p ++ [i]) → table_at m root p = Some t → rest ≠ [] →
  validate_from m t (i :: rest) access =
  match table_at m root (p ++ [i]) with Some u => validate_from m u rest access | None => Err NotPresent end.
Proof.
  intros Hsp Hp Ht Hr. rewrite table_at_snoc, Ht. cbn [validate_from]. unfold next_table.
  destruct (entry_is_present (m t i)) eqn:Hpr; [|done].
  destruct (sw_dir _ _ _ _ Hsp p t i Hp Ht Hpr) as (-> & -> & _). cbn. by destruct rest.
Qed.

Lemma validate_user_page_spec m a root va access :
  space_wf m a root → user_address va →
  validate_user_page m root va access =
  match leaf m root va with
  | Some e => if negb (entry_is_user_accessible e) then Err NotUserAccessible
              else if bool_decide (access = PageWrite) && negb (entry_is_writable e) then Err NotWritable else Ok tt
  | None => Err NotPresent
  end.
Proof.
  intros Hsp Hva. destruct (va_path_prefixes va Hva) as (P0 & P1 & P2).
  unfold validate_user_page, page_indexes, leaf, leaf_at, va_path, va_leaf.
  rewrite (validate_from_dir _ _ root [] root _ _ _ Hsp P0 eq_refl) by done. cbn [app].
  destruct (table_at _ root [page_index va 39]) as [t1|] eqn:T1.
  2: { pose proof (table_at_prefix_None _ _ _ [page_index va 30; page_index va 21] T1) as H.
       cbn [app] in H. by rewrite H. }
  rewrite (validate_from_dir _ _ root _ t1 _ _ _ Hsp P1 T1) by done. cbn [app].
  destruct (table_at _ root [page_index va 39; page_index va 30]) as [t2|] eqn:T2.
  2: { pose proof (table_at_prefix_None _ _ _ [page_index va 21] T2) as H. cbn [app] in H. by rewrite H. }
  rewrite (validate_from_dir _ _ root _ t2 _ _ _ Hsp P2 T2) by done. cbn [app].
  destruct (table_at _ root [page_index va 39; page_index va 30; page_index va 21]) as [t3|] eqn:T3; [|done].
  cbn [validate_from]. destruct (entry_is_present (m t3 (page_index va 12))) eqn:Hpr; [|done].
  destruct (sw_leaf _ _ _ _ Hsp (va_path va) t3 (page_index va 12) (va_path_ok va Hva) eq_refl (page_index_lt _ _) T3 Hpr)
    as [-> _]. cbn [negb andb]. by destruct (entry_is_user_accessible _).
Qed.

Lemma validate_page_user_may m a root va access :
  space_wf m a root → user_address va →
  validate_user_page m root va access = Ok tt ↔ user_may m root va access = true.
Proof.
  intros Hsp Hva. rewrite (validate_user_page_spec m a) by done. unfold user_may.
  rewrite (translate_leaf m a) by done. destruct (leaf m root va) as [e|]; [|done]. cbn.
  destruct (entry_is_user_accessible e), (entry_is_writable e), access; done.
Qed.

(** Addresses of one page have the same rights. *)
Lemma user_may_page m a root va va' access :
  space_wf m a root → user_address va → user_address va' → page_number va = page_number va' →
  user_may m root va access = user_may m root va' access.
Proof.
  intros Hsp Hva Hva' Hp. unfold user_may. rewrite !(translate_leaf m a) by done. unfold leaf.
  by destruct (same_page_indexes va va' Hva Hva' Hp) as [-> ->].
Qed.

Lemma page_align_down_spec v : is_u64 v →
  page_align_down v = (FRAME_SIZE * page_number v)%Z ∧ (page_align_down v ≤ v < page_align_down v + FRAME_SIZE)%Z.
Proof.
  intros Hv. destruct (align_down_spec v Hv) as (_ & H2 & H3). unfold page_align_down, page_number.
  rewrite land_not_low by done. unfold align_down in *. rewrite land_not_low in * by done. split; [done|]. lia.
Qed.

(** The loop visits the pages from the first to the last. *)
Lemma validate_pages_spec m root access n : ∀ first,
  (0 ≤ first)%Z → (FRAME_SIZE * (first + Z.of_nat n) ≤ USER_CANONICAL_LIMIT)%Z →
  validate_pages (S n) m root (FRAME_SIZE * first) (FRAME_SIZE * (first + Z.of_nat n)) access = Ok tt ↔
  ∀ k, (first ≤ k ≤ first + Z.of_nat n)%Z → validate_user_page m root (FRAME_SIZE * k) access = Ok tt.
Proof.
  induction n as [|n IH]; intros first H0 Hlim; cbn [validate_pages]; unfold res_bind.
  - replace (first + Z.of_nat 0)%Z with first by lia. rewrite Z.eqb_refl. split.
    + intros H k Hk. replace k with first by lia. by destruct (validate_user_page _ _ _ _) as [[]|].
    + intros H. by rewrite H by lia.
  - rewrite (proj2 (Z.eqb_neq _ _)) by (unfold FRAME_SIZE; lia).
    unfold checked_add. rewrite (proj2 (Z.leb_le _ _)) by (unfold FRAME_SIZE, USER_CANONICAL_LIMIT, u64_max in *; lia).
    cbn [ok_or]. replace (FRAME_SIZE * first + FRAME_SIZE)%Z with (FRAME_SIZE * (first + 1))%Z by lia.
    replace (first + Z.of_nat (S n))%Z with (first + 1 + Z.of_nat n)%Z by lia.
    replace (first + Z.of_nat (S n))%Z with (first + 1 + Z.of_nat n)%Z in Hlim by lia.
    specialize (IH (first + 1)%Z ltac:(lia) Hlim).
    destruct (validate_user_page m root (FRAME_SIZE * first) access) as [[]|e] eqn:Hv.
    + rewrite IH. split.
      * intros H k Hk. destruct (decide (k = first)) as [->|]; [done|]. apply H. lia.
      * intros H k Hk. apply H. lia.
    + split; [done|]. intros H. rewrite H in Hv by lia. done.
Qed.

(** The pages of a range below the canonical limit. *)
Lemma range_pages start len :
  (0 ≤ start)%Z → (0 < len)%Z → (start + len ≤ USER_CANONICAL_LIMIT)%Z →
  ∃ n, page_number (start + len - 1) = (page_number start + Z.of_nat n)%Z ∧ (0 ≤ page_number start)%Z ∧
  (∀ k, (page_number start ≤ k ≤ page_number start + Z.of_nat n)%Z →
     user_address (FRAME_SIZE * k) ∧ page_number (FRAME_SIZE * k) = k) ∧
  (∀ b, (start ≤ b < start + len)%Z → user_address b ∧
     (page_number start ≤ page_number b ≤ page_number start + Z.of_nat n)%Z).
Proof.
  intros H0 Hlen Hlim.
  assert (Hpg : (0 ≤ page_number start ≤ page_number (start + len - 1))%Z).
  { unfold page_number. split; [apply Z.div_pos; unfold FRAME_SIZE; lia|apply Z.div_le_mono; [done|lia]]. }
  assert (Hl : (FRAME_SIZE * page_number (start + len - 1) ≤ start + len - 1)%Z) by (by apply Z.mul_div_le).
  exists (Z.to_nat (page_number (start + len - 1) - page_number start)).
  replace (page_number start + Z.of_nat (Z.to_nat (page_number (start + len - 1) - page_number start)))%Z
    with (page_number (start + len - 1)) by lia.
  split_and!; [done|lia| |].
  - intros k Hk. split; [|unfold page_number; by rewrite Z.mul_comm, Z.div_mul].
    split; unfold FRAME_SIZE in *; lia.
  - intros b Hb. split; [split; lia|]. unfold page_number. split; apply Z.div_le_mono; (done || lia).
Qed.

(** C29: the kernel's check of user ranges is exactly what the processor would allow:
    on a well-formed address space, [validate_user_range] accepts a range if and only
    if it lies below the canonical limit (which excludes wrap-around) and every byte
    of it is one that user mode may read, or write, under the current page tables. *)
Theorem validate_user_range_exact m a root start len access :
  space_wf m a root → is_u64 start → is_u64 len →
  validate_user_range m root start len access = Ok tt ↔
  (start < USER_CANONICAL_LIMIT)%Z ∧ (start + len ≤ USER_CANONICAL_LIMIT)%Z ∧
  ∀ b, (start ≤ b < start + len)%Z → user_may m root b access = true.
Proof.
  intros Hsp Hs Hl. unfold validate_user_range, checked_add.
  destruct (Z.leb_spec (start + len) u64_max) as [Hadd|Hadd]; cbn [ok_or]; unfold res_bind at 1.
  2: { split; [done|]. intros (_ & H & _). unfold USER_CANONICAL_LIMIT, u64_max in *. lia. }
  destruct (Z.leb_spec USER_CANONICAL_LIMIT start) as [H1|H1]; cbn [orb negb res_guard res_bind].
  { split; [done|]. intros (? & _). lia. }
  destruct (Z.ltb_spec USER_CANONICAL_LIMIT (start + len)) as [H2|H2]; cbn [orb negb res_guard res_bind].
  { split; [done|]. intros (_ & ? & _). lia. }
  unfold is_u64 in *. destruct (Z.eqb_spec len 0) as [->|Hlen].
  { split; [intros _; split_and!; [done|lia|lia]|done]. }
  destruct (page_align_down_spec start ltac:(unfold is_u64; lia)) as [E1 B1].
  destruct (page_align_down_spec (start + len - 1) ltac:(unfold is_u64; lia)) as [E2 B2].
  destruct (range_pages start len ltac:(lia) ltac:(lia) H2) as (n & Hlast & Hpos & Hk & Hb).
  assert (Hn : page_span (page_align_down start) (page_align_down (start + len - 1)) = S n).
  { unfold page_span. rewrite E1, E2, <-Z.mul_sub_distr_l, Z.mul_comm, Z.div_mul by done. lia. }
  rewrite Hn, E1, E2, Hlast. rewrite validate_pages_spec; [|lia|rewrite <-Hlast; lia].
  split.
  - intros H. split_and!; [done|done|]. intros b Hbr. destruct (Hb b Hbr) as [Hub Hpb].
    destruct (Hk _ Hpb) as [Hu Hp]. rewrite <-(user_may_page m a root (FRAME_SIZE * page_number b) b) by done.
    apply (validate_page_user_may m a); [done..|]. by apply H.
  - intros (_ & _ & H) k Hkr. destruct (Hk k Hkr) as [Hu Hp]. apply (validate_page_user_may m a); [done..|].
    set (b := Z.max start (FRAME_SIZE * k)).
    assert (Hbr : (start ≤ b < start + len)%Z).
    { split; [lia|]. assert (FRAME_SIZE * k ≤ FRAME_SIZE * page_number (start + len - 1))%Z
        by (rewrite Hlast; unfold FRAME_SIZE; lia). lia. }
    assert (Hpb : page_number b = k).
    { unfold b. destruct (Z.max_spec start (FRAME_SIZE * k)) as [[? ->]|[Hle ->]]; [done|].
      assert (k ≤ page_number start)%Z; [|lia]. apply Z.div_le_lower_bound; done. }
    rewrite (user_may_page m a root (FRAME_SIZE * k) b); [by apply H|done|done|by apply Hb|congruence].
Qed.

(** * Isolation *)

(** Writing to a frame that holds no table. *)
Lemma data_write_all roots root s f m' :
  paging_wf roots s → (∀ r, owners (pg_frames s) !! f ≠ Some (owner_page_table r)) →
  (∀ t i, t ≠ f → m' t i = pg_mem s t i) →
  let s' := mkPaging m' (pg_frames s) in
  paging_wf roots s' ∧ others_kept roots root (λ _, False) s s' ∧
  ∀ r p, r ∈ roots → path_ok p → table_at m' r p = table_at (pg_mem s) r p ∧
    ∀ i, leaf_at m' r p i = leaf_at (pg_mem s) r p i.
Proof.
  intros [Hwf Hall] Hf Hm s'.
  assert (Hq : ∀ r t i, owners (pg_frames s) !! t = Some (owner_page_table r) → m' t i = pg_mem s t i).
  { intros r t i Ht. apply Hm. intros ->. by eapply Hf. }
  assert (Hsp : ∀ r, r ∈ roots → space_wf m' (pg_frames s) r ∧
    ∀ p i, path_ok p → leaf_at m' r p i = leaf_at (pg_mem s) r p i).
  { intros r Hr. apply (space_frame (pg_mem s) m' (pg_frames s)); [by apply Hall|by apply Hq|done|done]. }
  split; [|split].
  - split; [done|]. intros r Hr. by apply Hsp.
  - constructor.
    + intros r va Hr Hva _. apply (translate_frame _ _ (pg_frames s) (pg_frames s)); [by apply Hall|by apply Hsp|done|].
      apply Hsp; [done|]. by apply va_path_ok.
    + intros r i Hr _. apply (Hq r). exact (sw_owner _ _ _ _ (Hall r Hr) [] r path_ok_nil eq_refl).
  - intros r p Hr Hp. split; [|by intros i; apply Hsp]. apply table_at_frame; [|done]. intros q t i Hq' Ht. apply (Hq r). by eapply (sw_owner _ _ _ _ (Hall r Hr)).
Qed.

(** A frame that is free is mapped nowhere. *)
Lemma free_unmapped roots s f q p i e :
  paging_wf roots s → owners (pg_frames s) !! f = None → contains (pg_frames s) (mkPhysicalFrame f) = true →
  q ∈ roots → path_ok p → length p = 3 → i < ENTRY_COUNT → leaf_at (pg_mem s) q p i = Some e → entry_address e ≠ f.
Proof.
  intros Hpw Ho Hc Hq Hp Hl Hi He <-. unfold leaf_at in He.
  destruct (table_at (pg_mem s) q p) as [t|] eqn:Ht; [|done].
  destruct (entry_is_present (pg_mem s t i)) eqn:Hpr; [|done].
  destruct (sw_leaf _ _ _ _ (pw_spaces _ _ Hpw q Hq) p t i Hp Hl Hi Ht Hpr) as [Hh Hm].
  rewrite Hh in He. cbn in He. injection He as <-. unfold mappable in Hm. rewrite Ho in Hm. congruence.
Qed.

(** The small steps of the memory system, from which its operations are made: the
    operations of the page tables, each where it keeps the spaces well formed (a page
    is mapped to memory of its own or of a device), the allocation and release of
    frames that hold no table, and writes to such frames. [MachineMemory] shows that
    the loader, the mapping of device memory and the other callers only take such
    steps. *)
Inductive paging_step : gset Z * Paging → gset Z * Paging → Prop :=
| StepNew roots s cr3 space s' :
    (is_Some (owners (pg_frames s) !! Z.land cr3 ADDRESS_MASK) ∨
     contains (pg_frames s) (mkPhysicalFrame (Z.land cr3 ADDRESS_MASK)) = false) →
    new_from_active_kernel_mappings cr3 s = (Ok space, s') →
    paging_step (roots, s) ({[frame_start (as_root_frame space)]} ∪ roots, s')
| StepNoSpace roots s cr3 e s' :
    (is_Some (owners (pg_frames s) !! Z.land cr3 ADDRESS_MASK) ∨
     contains (pg_frames s) (mkPhysicalFrame (Z.land cr3 ADDRESS_MASK)) = false) →
    new_from_active_kernel_mappings cr3 s = (Err e, s') →
    paging_step (roots, s) (roots, s')
| StepMap roots s root va f flags r s' :
    root ∈ roots → user_address va → frame_ok f → mappable (pg_frames s) root f →
    flags_ok (flag_bits flags) → flags_user_accessible flags = true →
    map_page_in_root root va (mkPhysicalFrame f) flags s = (r, s') →
    paging_step (roots, s) (roots, s')
| StepUnmap roots s root va r s' :
    root ∈ roots → user_address va → unmap_page_in_root root va s = (r, s') →
    paging_step (roots, s) (roots, s')
| StepPrune roots s root va r s' :
    root ∈ roots → user_address va → prune_empty_user_page_tables root va s = (r, s') →
    paging_step (roots, s) (roots, s')
| StepReclaim roots s root r s' :
    root ∈ roots → reclaim_user_address_space root s = (r, s') →
    paging_step (roots, s) (roots ∖ {[root]}, s')
| StepAllocate roots s o f a' :
    owner_kind o ≠ OkPageTable → allocate_owned o (pg_frames s) = (f, a') →
    paging_step (roots, s) (roots, mkPaging (pg_mem s) a')
| StepBlock roots s n o f a' :
    owner_kind o ≠ OkPageTable → (0 ≤ n)%Z → allocate_contiguous_owned n o (pg_frames s) = (f, a') →
    paging_step (roots, s) (roots, mkPaging (pg_mem s) a')
| StepFree roots s x o r a' :
    owners (pg_frames s) !! x = Some o → owner_kind o ≠ OkPageTable → owner_kind o ≠ OkDma →
    (∀ q p i e, q ∈ roots → path_ok p → length p = 3 → i < ENTRY_COUNT → leaf_at (pg_mem s) q p i = Some e →
       entry_address e ≠ x) →
    free_owned (mkPhysicalFrame x) o (pg_frames s) = (r, a') →
    paging_step (roots, s) (roots, mkPaging (pg_mem s) a')
| StepWrite roots s f m' :
    (∀ r, owners (pg_frames s) !! f ≠ Some (owner_page_table r)) →
    (∀ t i, t ≠ f → m' t i = pg_mem s t i) →
    paging_step (roots, s) (roots, mkPaging m' (pg_frames s)).

(** The frames of the allocator change, no table and no mapped frame does. *)
Lemma paging_wf_frames roots m a a' :
  paging_wf roots (mkPaging m a) → frames_wf a' →
  (∀ t r, owners a !! t = Some (owner_page_table r) → owners a' !! t = Some (owner_page_table r)) →
  (∀ q p i e, q ∈ roots → path_ok p → length p = 3 → i < ENTRY_COUNT → leaf_at m q p i = Some e →
     mappable a q (entry_address e) → mappable a' q (entry_address e)) →
  paging_wf roots (mkPaging m a').
Proof.
  intros [Hwf Hall] Hwf' Hown Hmap. split; [done|]. cbn in *. intros r Hr. pose proof (Hall r Hr) as Hsp.
  constructor; try apply Hsp.
  - intros p t Hp Ht. apply Hown. by eapply sw_owner.
  - intros p t i Hp Hl Hi Ht Hpr. destruct (sw_leaf _ _ _ _ Hsp p t i Hp Hl Hi Ht Hpr) as [Hh Hm].
    split; [done|]. apply (Hmap r p i); [done|done|done|done| |done]. unfold leaf_at. rewrite Ht, Hpr, Hh. done.
Qed.

Lemma paging_step_wf x y : paging_step x y → paging_wf x.1 x.2 → paging_wf y.1 y.2.
Proof.
  intros Hstep Hpw. destruct Hstep; cbn [fst snd] in *.
  - pose proof (new_address_space_effect roots s cr3 Hpw H) as He. rewrite H0 in He. apply He.
  - pose proof (new_address_space_effect roots s cr3 Hpw H) as He. rewrite H0 in He. apply He.
  - pose proof (map_page_all roots s root va f flags Hpw H H0 H1 H2 H3 H4) as He. rewrite H5 in He. apply He.
  - pose proof (unmap_page_effect roots s root va Hpw H H0) as He. rewrite H1 in He. apply He.
  - pose proof (prune_effect roots s root va Hpw H H0) as He. rewrite H1 in He. apply He.
  - pose proof (reclaim_all roots s root Hpw H) as He. rewrite H0 in He. apply He.
  - pose proof (allocate_owned_spec o _ (pw_frames _ _ Hpw)) as Ha. rewrite H0 in Ha.
    destruct Ha as (Hwf' & Hu & Ha). destruct s as [m a]. cbn in *. apply (paging_wf_frames roots m a); [done|done| |].
    + intros t r Ht. destruct f as [[n]|]; [|destruct Ha as [-> _]; done].
      destruct Ha as (Hn & -> & _). cbn in *. rewrite lookup_insert_ne; [done|]. congruence.
    + intros q p i e _ _ _ _ _. unfold mappable. destruct f as [[n]|]; cbn [frame_start] in *.
      * destruct Ha as (Hn & -> & Hc & _). destruct (decide (entry_address e = n)) as [->|Hne].
        -- rewrite Hn, Hc. done.
        -- rewrite lookup_insert_ne by done. destruct (owners a !! entry_address e); [done|].
           by rewrite (contains_same a a' _ (pw_frames _ _ Hpw)).
      * destruct Ha as [-> _]. destruct (owners a !! entry_address e); [done|].
        by rewrite (contains_same a a' _ (pw_frames _ _ Hpw)).
  - pose proof (allocate_contiguous_spec n o _ (pw_frames _ _ Hpw) H0) as Ha. rewrite H1 in Ha.
    destruct Ha as (Hwf' & Hu & Ha). destruct s as [m a]. cbn in *. apply (paging_wf_frames roots m a); [done|done| |].
    + intros t r Ht. destruct (Ha t) as [->|(Hn & _)]; [done|congruence].
    + intros q p i e _ _ _ _ _. unfold mappable. destruct (Ha (entry_address e)) as [->|(-> & -> & _)]; [|done].
      destruct (owners a !! entry_address e); [done|]. by rewrite (contains_same a a' _ (pw_frames _ _ Hpw)).
  - pose proof (free_owned_spec x o _ (pw_frames _ _ Hpw) H) as Ha. rewrite H3 in Ha.
    destruct Ha as (Hwf' & Hu & [(_ & Hown & _)|(_ & -> & _)]); [|by destruct s].
    destruct s as [m a]. cbn in *. apply (paging_wf_frames roots m a); [done|done| |].
    + intros t r' Ht. rewrite Hown, lookup_delete_ne; [done|]. intros <-. rewrite H in Ht. by simplify_eq.
    + intros q p i e Hq Hp Hl Hi He. pose proof (H2 q p i e Hq Hp Hl Hi He) as Hne. unfold mappable.
      rewrite Hown, lookup_delete_ne by done. destruct (owners a !! entry_address e); [done|].
      by rewrite (contains_same a a' _ (pw_frames _ _ Hpw)).
  - by apply (data_write_all roots 0 s f m').
Qed.

Lemma paging_run_wf x y : rtc paging_step x y → paging_wf x.1 x.2 → paging_wf y.1 y.2.
Proof. induction 1 as [|x y z Hxy _ IH]; [done|]. intros H. by apply IH, (paging_step_wf x). Qed.

Lemma paging_reachable_wf roots s roots' s' :
  rtc paging_step (roots, s) (roots', s') → paging_wf roots s → paging_wf roots' s'.
Proof. apply (paging_run_wf (roots, s) (roots', s')). Qed.

(** What the pages of a well-formed address space show. *)
Lemma translate_mappable m a r va f u w :
  space_wf m a r → user_address va → translate m r va = Some (f, u, w) → mappable a r f.
Proof.
  intros Hsp Hva Htr. rewrite (translate_leaf m a) in Htr by done. unfold leaf, leaf_at in Htr.
  destruct (table_at m r (va_path va)) as [t|] eqn:Ht; [|done].
  destruct (entry_is_present (m t (va_leaf va))) eqn:Hpr; [|done].
  destruct (sw_leaf _ _ _ _ Hsp _ t (va_leaf va) (va_path_ok va Hva) eq_refl (page_index_lt _ _) Ht Hpr) as [Hh Hm].
  rewrite Hh in Htr. cbn in Htr. by injection Htr as <- _ _.
Qed.

(** Well-formed address spaces are isolated. *)
Lemma paging_wf_isolated roots s r va f u w :
  paging_wf roots s → r ∈ roots → user_address va → translate (pg_mem s) r va = Some (f, u, w) →
  (∀ r', owners (pg_frames s) !! f ≠ Some (owner_page_table r')) ∧
  (∀ r', r' ≠ r → owners (pg_frames s) !! f ≠ Some (owner_process_memory r')) ∧
  ∀ r' va' u' w', r' ∈ roots → r' ≠ r → user_address va' → translate (pg_mem s) r' va' = Some (f, u', w') →
    (∃ id, owners (pg_frames s) !! f = Some (owner_dma id)) ∨ contains (pg_frames s) (mkPhysicalFrame f) = false.
Proof.
  intros Hpw Hr Hva Htr.
  pose proof (translate_mappable _ _ _ _ _ _ _ (pw_spaces _ _ Hpw r Hr) Hva Htr) as Hm. unfold mappable in Hm.
  split_and!.
  - intros r' Ho. rewrite Ho in Hm. by destruct Hm.
  - intros r' Hne Ho. rewrite Ho in Hm. destruct Hm as [Hm|Hm]; [|done]. injection Hm. congruence.
  - intros r' va' u' w' Hr' Hne Hva' Htr'.
    pose proof (translate_mappable _ _ _ _ _ _ _ (pw_spaces _ _ Hpw r' Hr') Hva' Htr') as Hm'. unfold mappable in Hm'.
    destruct (owners (pg_frames s) !! f) as [[k id]|]; [left|by right].
    unfold owner_process_memory, owner_dma in *. exists id. cbn in *. naive_solver.
Qed.

(** * A machine with one process *)

(** Blank memory and the eleven frames of [small_map]; the boot loader's root table
    lies outside of them. *)
Definition machine0 : Paging := mkPaging (λ _ _, 0%Z) (boot_allocator small_map).
Definition boot_cr3 : Z := 0x7f000.
(** A new address space, a frame for it, and the frame mapped at [0x400000]. *)
Definition machine1 : Paging := (new_from_active_kernel_mappings boot_cr3 machine0).2.
Definition process_root : Z := 0x1000.
Definition machine2 : Paging :=
  mkPaging (pg_mem machine1) (allocate_owned (owner_process_memory process_root) (pg_frames machine1)).2.
Definition text_page : Z := 0x400000.
Definition machine3 : Paging :=
  (map_page_in_root process_root text_page (mkPhysicalFrame 0x2000) (user_flags true false) machine2).2.

Lemma machine1_new :
  new_from_active_kernel_mappings boot_cr3 machine0 = (Ok (mkAddressSpace (mkPhysicalFrame process_root)), machine1).
Proof.
  unfold machine1. rewrite (surjective_pairing (new_from_active_kernel_mappings boot_cr3 machine0)) at 1.
  apply (f_equal2 pair); [vm_compute|]; reflexivity.
Qed.

Lemma machine2_frame :
  allocate_owned (owner_process_memory process_root) (pg_frames machine1) =
  (Some (mkPhysicalFrame 0x2000), pg_frames machine2).
Proof.
  cbn [machine2 pg_frames].
  rewrite (surjective_pairing (allocate_owned (owner_process_memory process_root) (pg_frames machine1))) at 1.
  apply (f_equal2 pair); [vm_compute|]; reflexivity.
Qed.

Lemma machine2_owner : owners (pg_frames machine2) !! 0x2000%Z = Some (owner_process_memory process_root).
Proof. vm_compute. reflexivity. Qed.

Lemma boot_cr3_outside :
  contains (pg_frames machine0) (mkPhysicalFrame (Z.land boot_cr3 ADDRESS_MASK)) = false.
Proof. vm_compute. reflexivity. Qed.

Lemma user_flags_ok w x : flags_ok (flag_bits (user_flags w x)) ∧ flags_user_accessible (user_flags w x) = true.
Proof. destruct w, x; (split; [split|]; reflexivity). Qed.

Lemma text_page_user : user_address text_page.
Proof. unfold user_address, text_page, USER_CANONICAL_LIMIT. lia. Qed.

Lemma frame_2000_ok : frame_ok 0x2000.
Proof. split; [by exists 2%Z|]. unfold PHYSICAL_LIMIT. lia. Qed.

Lemma frame_2000_mappable : mappable (pg_frames machine2) process_root 0x2000.
Proof. unfold mappable. rewrite machine2_owner. by left. Qed.

Lemma machine2_run : rtc paging_step (∅, machine0) ({[process_root]} ∪ ∅, machine2).
Proof.
  eapply rtc_l; [eapply (StepNew _ _ boot_cr3 _ machine1); [right; exact boot_cr3_outside|exact machine1_new]|].
  eapply rtc_l; [eapply (StepAllocate _ machine1 (owner_process_memory process_root)); [done|exact machine2_frame]|].
  apply rtc_refl.
Qed.

Lemma machine0_wf : paging_wf ∅ machine0.
Proof.
  split; [exact (st_inv _ _ (boot_allocator_starting small_map small_map_ok small_map_boots))|]. intros q Hq. set_solver.
Qed.

Lemma process_root_in : process_root ∈ ({[process_root]} ∪ ∅ : gset Z).
Proof. set_solver. Qed.

Lemma machine2_wf : paging_wf ({[process_root]} ∪ ∅) machine2.
Proof. exact (paging_reachable_wf _ _ _ _ machine2_run machine0_wf). Qed.

Lemma machine3_map :
  map_page_in_root process_root text_page (mkPhysicalFrame 0x2000) (user_flags true false) machine2 = (Ok tt, machine3).
Proof.
  unfold machine3. rewrite (surjective_pairing (map_page_in_root _ _ _ _ machine2)) at 1.
  apply (f_equal2 pair); [vm_compute|]; reflexivity.
Qed.

Lemma map_page_effect_witness :
  translate (pg_mem machine3) process_root text_page = Some (0x2000%Z, true, true).
Proof.
  pose proof (map_page_effect ({[process_root]} ∪ ∅) machine2 process_root text_page 0x2000 (user_flags true false)
    machine2_wf process_root_in text_page_user frame_2000_ok frame_2000_mappable
    (proj1 (user_flags_ok true false)) (proj2 (user_flags_ok true false))) as H.
  rewrite machine3_map in H. destruct H as (_ & _ & _ & H). exact (H text_page text_page_user eq_refl).
Defined.

Lemma machine3_run : rtc paging_step (∅, machine0) ({[process_root]} ∪ ∅, machine3).
Proof.
  eapply rtc_r; [exact machine2_run|].
  eapply (StepMap _ machine2 process_root text_page 0x2000 (user_flags true false)).
  - exact process_root_in.
  - exact text_page_user.
  - exact frame_2000_ok.
  - exact frame_2000_mappable.
  - exact (proj1 (user_flags_ok true false)).
  - exact (proj2 (user_flags_ok true false)).
  - exact machine3_map.
Qed.

Lemma machine3_translate : translate (pg_mem machine3) process_root text_page = Some (0x2000%Z, true, true).
Proof. vm_compute. reflexivity. Qed.

Lemma machine3_wf : paging_wf ({[process_root]} ∪ ∅) machine3.
Proof. exact (paging_reachable_wf _ _ _ _ machine3_run machine0_wf). Qed.

Lemma machine3_range : validate_user_range (pg_mem machine3) process_root 0x400ff0 16 PageWrite = Ok tt.
Proof. vm_compute. reflexivity. Qed.

Lemma range_u64 : is_u64 0x400ff0 ∧ is_u64 16.
Proof. unfold is_u64, u64_max. lia. Qed.

Lemma validate_user_range_exact_witness : user_may (pg_mem machine3) process_root 0x400fff PageWrite = true.
Proof.
  pose proof (proj1 (validate_user_range_exact (pg_mem machine3) (pg_frames machine3) process_root 0x400ff0 16 PageWrite
    (pw_spaces _ _ machine3_wf process_root process_root_in) (proj1 range_u64) (proj2 range_u64)) machine3_range) as (_ & _ & H).
  apply H. lia.
Defined.

Definition machine4 : Paging := (reclaim_user_address_space process_root machine3).2.

Lemma machine4_reclaim :
  reclaim_user_address_space process_root machine3 = (Ok (mkReclaimStats 1 4 0), machine4).
Proof.
  unfold machine4. rewrite (surjective_pairing (reclaim_user_address_space process_root machine3)) at 1.
  apply (f_equal2 pair); [vm_compute|]; reflexivity.
Qed.

Lemma reclaim_effect_witness :
  owners (pg_frames machine4) !! 0x2000%Z ≠ Some (owner_process_memory process_root).
Proof.
  pose proof (reclaim_effect ({[process_root]} ∪ ∅) machine3 process_root machine3_wf process_root_in) as H.
  rewrite machine4_reclaim in H. destruct H as (_ & _ & _ & _ & _ & _ & H & _).
  exact (H text_page 0x2000%Z true true text_page_user machine3_translate).
Defined.
