(* ===== verification/UserImage.v ===== *)
(** Loading programs ([userspace.rs]): a new address space is filled with the
    segments of an ELF file and a stack; when anything fails it is torn down again.

    The loader writes bytes to the frames it maps. Physical memory is the one of
    [Paging], where it is read as tables of 64-bit entries: the byte at an offset in a
    frame is one of the eight bytes of an entry. *)

From S2P Require Import Prelude Elf Frames Paging.

(** * Bytes of physical memory *)

Definition byte_weight (offset : nat) : Z := (256 ^ Z.of_nat (offset mod 8))%Z.

(** The byte at [offset] in the frame at [frame]. *)
Definition memory_byte (m : PhysMem) (frame : Z) (offset : nat) : byte :=
  (m frame (offset / 8) / byte_weight offset) mod 256.

Definition write_byte (frame : Z) (offset : nat) (b : byte) (m : PhysMem) : PhysMem :=
  write_entry frame (offset / 8)
    (m frame (offset / 8) + (b - memory_byte m frame offset) * byte_weight offset) m.

(** [ptr::copy_nonoverlapping] into a frame. *)
Fixpoint write_memory (frame : Z) (offset : nat) (bytes : list byte) (m : PhysMem) : PhysMem :=
  match bytes with
  | [] => m
  | b :: rest => write_memory frame (S offset) rest (write_byte frame offset b m)
  end.

(** * Loading *)

Definition USER_STACK_TOP : Z := 0x0000700000000000.
Definition USER_STACK_PAGES : Z := 8.

Record UserImage := mkUserImage { ui_cr3 : Z; ui_entry : Z; ui_stack_top : Z }.

Inductive LoadError :=
| LoadElf (e : ElfError)
| LoadAddressSpace (e : MapError)
| LoadMap (e : MapError)
| LoadOutOfFrames
| BadSegment.

(** [.map_err(f)] on a call. *)
Definition with_error {S E F A} (f : E → F) (c : M S E A) : M S F A := λ s,
  let '(r, s') := c s in (map_err f r, s').

(** [allocator.allocate_owned(owner).ok_or(LoadError::OutOfFrames)?]. *)
Definition take_user_frame (owner : FrameOwner) : M Paging LoadError PhysicalFrame := λ s,
  let '(f, frames) := allocate_owned owner (pg_frames s) in
  (ok_or f LoadOutOfFrames, s <| pg_frames := frames |>).

(** [if let Err(error) = c { let _ = allocator.free_owned(frame, owner); return Err(error) }]. *)
Definition or_free (frame : PhysicalFrame) (owner : FrameOwner) (c : M Paging LoadError unit) :
    M Paging LoadError unit := λ s,
  let '(r, s') := c s in
  match r with
  | Ok _ => (Ok tt, s')
  | Err e => (Err e, s' <| pg_frames := (free_owned frame owner (pg_frames s')).2 |>)
  end.

(** [zero_frame]: all 4096 bytes, that is all entries. *)
Definition zero_frame (frame : PhysicalFrame) : M Paging LoadError unit :=
  rmodify (λ s, s <| pg_mem ::= zero_table (frame_start frame) |>).

(** [align_up]. *)
Definition image_align_up (value align : Z) : option Z :=
  v ← checked_add value (align - 1); Some (Z.land v (not_u64 (align - 1))).

(** [copy_segment_bytes]. *)
Definition copy_segment_bytes (bytes : list byte) (frame : PhysicalFrame) (header : ProgramHeader)
    (page copy_start copy_end : Z) : M Paging LoadError unit :=
  let copy_len := Z.to_nat (copy_end - copy_start) in
  let! source_offset :=
    rlift (ok_or (checked_add (ph_offset header) (copy_start - ph_vaddr header)) BadSegment) in
  let destination_offset := (copy_start - page)%Z in
  rmodify (λ s, s <| pg_mem ::= write_memory (frame_start frame) (Z.to_nat destination_offset)
                                  (take copy_len (drop (Z.to_nat source_offset) bytes)) |>).

(** The loop of [load_segment]. *)
Fixpoint load_pages (fuel : nat) (bytes : list byte) (space : AddressSpace) (header : ProgramHeader)
    (flags : PageFlags) (owner : FrameOwner) (page page_end : Z) : M Paging LoadError unit :=
  if (page <? page_end)%Z then
    match fuel with
    | 0 => rfail BadSegment
    | S fuel' =>
        let! frame := take_user_frame owner in
        do! zero_frame frame;
        let copy_start := Z.max page (ph_vaddr header) in
        let copy_end := Z.min (page + FRAME_SIZE) (ph_vaddr header + ph_filesz header) in
        do! (if (copy_start <? copy_end)%Z
             then or_free frame owner (copy_segment_bytes bytes frame header page copy_start copy_end)
             else rret tt);
        do! or_free frame owner (with_error LoadMap (address_space_map_page space page frame flags));
        load_pages fuel' bytes space header flags owner (page + FRAME_SIZE) page_end
    end
  else rret tt.

(** The rounds a loop over the pages from [first] to [last] takes. *)
Definition page_rounds (first last : Z) : nat := Z.to_nat ((last - first) / FRAME_SIZE).

(** [load_segment]. *)
Definition load_segment (bytes : list byte) (space : AddressSpace) (header : ProgramHeader) :
    M Paging LoadError unit :=
  do! rguard (negb ((ph_memsz header <? ph_filesz header)%Z || (USER_CANONICAL_LIMIT <=? ph_vaddr header)%Z))
    BadSegment;
  let! file_end := rlift (ok_or (checked_add (ph_offset header) (ph_filesz header)) BadSegment) in
  do! rguard (negb (Z.of_nat (length bytes) <? file_end)%Z) BadSegment;
  let page_start := page_align_down (ph_vaddr header) in
  let! segment_end := rlift (ok_or (checked_add (ph_vaddr header) (ph_memsz header)) BadSegment) in
  let! page_end := rlift (ok_or (image_align_up segment_end FRAME_SIZE) BadSegment) in
  do! rguard (negb (USER_CANONICAL_LIMIT <? page_end)%Z) BadSegment;
  let flags := user_flags (negb (Z.land (ph_flags header) PF_W =? 0)%Z)
                          (negb (Z.land (ph_flags header) PF_X =? 0)%Z) in
  let owner := owner_process_memory (frame_start (as_root_frame space)) in
  load_pages (page_rounds page_start page_end) bytes space header flags owner page_start page_end.

(** The loop of [map_user_stack]. *)
Fixpoint stack_pages (fuel : nat) (space : AddressSpace) (owner : FrameOwner) (page : Z) :
    M Paging LoadError unit :=
  if (page <? USER_STACK_TOP)%Z then
    match fuel with
    | 0 => rfail BadSegment
    | S fuel' =>
        let! frame := take_user_frame owner in
        do! zero_frame frame;
        do! or_free frame owner
              (with_error LoadMap (address_space_map_page space page frame (user_flags true false)));
        stack_pages fuel' space owner (page + FRAME_SIZE)
    end
  else rret tt.

(** [map_user_stack]. *)
Definition map_user_stack (space : AddressSpace) : M Paging LoadError unit :=
  let stack_bottom := (USER_STACK_TOP - USER_STACK_PAGES * FRAME_SIZE)%Z in
  let owner := owner_process_memory (frame_start (as_root_frame space)) in
  stack_pages (page_rounds stack_bottom USER_STACK_TOP) space owner stack_bottom.

(** The loop of [load_into_address_space] over the program headers. *)
Fixpoint load_segments (left : nat) (bytes : list byte) (space : AddressSpace) (e : Elf) (index : Z) :
    M Paging LoadError unit :=
  match left with
  | 0 => rret tt
  | S left' =>
      do! (match program_header e index with
           | Some header =>
               if (ph_typ header =? PT_LOAD)%Z then load_segment bytes space header else rret tt
           | None => rret tt
           end);
      load_segments left' bytes space e (index + 1)
  end.

(** [load_into_address_space]. *)
Definition load_into_address_space (bytes : list byte) (space : AddressSpace) (e : Elf) :
    M Paging LoadError UserImage :=
  do! load_segments (Z.to_nat (elf_phnum e)) bytes space e 0;
  do! map_user_stack space;
  rret (mkUserImage (frame_start (as_root_frame space)) (elf_entry e) USER_STACK_TOP).

(** [userspace::load], with the page tables the processor uses. *)
Definition load (cr3 : Z) (bytes : list byte) : M Paging LoadError UserImage :=
  let! e := rlift (map_err LoadElf (elf_parse bytes)) in
  let! space := with_error LoadAddressSpace (new_from_active_kernel_mappings cr3) in
  λ s,
    let '(r, s1) := load_into_address_space bytes space e s in
    match r with
    | Ok image => (Ok image, s1)
    | Err error => (Err error, (reclaim_user_address_space (frame_start (as_root_frame space)) s1).2)
    end.
