(* ===== verification/UserImageProofs.v ===== *)
(** What loading a program does: a successful load shows the program exactly what
    its file says, and a failed one leaves no trace. *)

From S2P Require Import Prelude Elf Frames FrameProofs Paging PagingProofs AddressSpaces UserImage.

(** * Bytes of physical memory *)

Lemma byte_weight_pos o : (0 < byte_weight o)%Z.
Proof. unfold byte_weight. apply Z.pow_pos_nonneg; lia. Qed.

(** Replacing one byte of a number. *)
Lemma replace_byte_same e w b : (0 < w)%Z → is_byte b → (((e + (b - (e / w) mod 256) * w) / w) mod 256 = b)%Z.
Proof.
  intros Hw Hb. rewrite Z.div_add by lia.
  replace (e / w + (b - (e / w) mod 256))%Z with (b + (e / w / 256) * 256)%Z
    by (pose proof (Z.div_mod (e / w) 256); lia).
  rewrite Z.mod_add by lia. by apply Z.mod_small.
Qed.

Lemma replace_byte_above e w b n : (0 < w)%Z → is_byte b → (0 ≤ n)%Z →
  ((e + (b - (e / w) mod 256) * w) / (w * 256 * 256 ^ n) = e / (w * 256 * 256 ^ n))%Z.
Proof.
  intros Hw Hb Hn. pose proof (Z.pow_pos_nonneg 256 n). rewrite <-!Z.div_div by lia. f_equal.
  rewrite Z.div_add by lia.
  replace (e / w + (b - (e / w) mod 256))%Z with (b + (e / w / 256) * 256)%Z
    by (pose proof (Z.div_mod (e / w) 256); lia).
  rewrite Z.div_add by lia. rewrite (Z.div_small b) by done. lia.
Qed.

Lemma replace_byte_below e d v n : (0 < v)%Z → (0 ≤ n)%Z →
  (((e + d * (v * 256 * 256 ^ n)) / v) mod 256 = (e / v) mod 256)%Z.
Proof.
  intros Hv Hn. replace (d * (v * 256 * 256 ^ n))%Z with ((d * 256 ^ n * 256) * v)%Z by lia.
  rewrite Z.div_add by lia. by apply Z.mod_add.
Qed.

Lemma memory_byte_written f o b m : is_byte b → memory_byte (write_byte f o b m) f o = b.
Proof.
  intros Hb. unfold memory_byte at 1, write_byte. rewrite write_same. apply replace_byte_same; [apply byte_weight_pos|done].
Qed.

Lemma memory_byte_kept f o b m f' o' : is_byte b → f' ≠ f ∨ o' ≠ o →
  memory_byte (write_byte f o b m) f' o' = memory_byte m f' o'.
Proof.
  intros Hb Hne. unfold memory_byte at 1, write_byte.
  destruct (decide (f' = f)) as [->|Hf]; [|by rewrite write_table].
  destruct (decide (o' / 8 = o / 8)) as [Hd|Hd]; [|by rewrite write_other by auto].
  destruct Hne as [|Hne]; [done|]. rewrite Hd, write_same. unfold memory_byte. rewrite <-Hd.
  assert (Hm : o' mod 8 ≠ o mod 8).
  { intros Hm. apply Hne. rewrite (Nat.div_mod_eq o 8), (Nat.div_mod_eq o' 8). congruence. }
  set (e := m f (o' / 8)).
  assert (Hw : ∀ p q, p mod 8 < q mod 8 →
    byte_weight q = (byte_weight p * 256 * 256 ^ Z.of_nat (q mod 8 - p mod 8 - 1))%Z).
  { intros p q Hpq. unfold byte_weight. rewrite <-(Z.mul_comm 256), <-Z.pow_succ_r, <-Z.pow_add_r by lia. f_equal. lia. }
  destruct (decide (o' mod 8 < o mod 8)) as [Hlt|Hge].
  - rewrite (Hw o' o Hlt). apply replace_byte_below; [apply byte_weight_pos|lia].
  - rewrite (Hw o o') by lia. rewrite replace_byte_above; [done|apply byte_weight_pos|done|lia].
Qed.

Lemma write_memory_entries f bs : ∀ o m t i, t ≠ f → write_memory f o bs m t i = m t i.
Proof.
  induction bs as [|b bs IH]; intros o m t i Ht; cbn; [done|]. rewrite IH by done. by apply write_table.
Qed.

Lemma write_memory_byte f bs : Forall is_byte bs → ∀ o m f' o',
  memory_byte (write_memory f o bs m) f' o' =
  if decide (f' = f ∧ o ≤ o' < o + length bs) then default 0%Z (bs !! (o' - o)) else memory_byte m f' o'.
Proof.
  induction 1 as [|b bs Hb Hbs IH]; intros o m f' o'; cbn [write_memory length].
  { by rewrite decide_False by lia. }
  rewrite IH. destruct (decide (f' = f ∧ S o ≤ o' < S o + length bs)) as [[-> Hin]|Hout].
  - rewrite decide_True by (split; [done|lia]). replace (o' - o) with (S (o' - S o)) by lia. done.
  - destruct (decide (f' = f ∧ o' = o)) as [[-> ->]|Hne].
    + rewrite decide_True by (split; [done|lia]). rewrite Nat.sub_diag. by apply memory_byte_written.
    + rewrite memory_byte_kept by (done || destruct (decide (f' = f)), (decide (o' = o)); naive_solver).
      rewrite decide_False; [done|]. intros [-> ?]. apply Hout. split; [done|]. destruct (decide (o' = o)); [naive_solver|lia].
Qed.

Lemma zero_table_byte f m o : (Z.of_nat o < FRAME_SIZE)%Z → memory_byte (zero_table f m) f o = 0%Z.
Proof.
  intros Ho. unfold memory_byte. rewrite zero_table_same; [by rewrite Z.div_0_l by (pose proof (byte_weight_pos o); lia)|].
  unfold ENTRY_COUNT, FRAME_SIZE in *. apply Nat.Div0.div_lt_upper_bound. lia.
Qed.

(** * Frames of data *)

(** The number of usable frames. *)
Definition usable_frames (a : FrameAllocator) : Z :=
  zsum ((λ r, ((r.2 - r.1) / FRAME_SIZE)%Z) <$> sp_usable (frame_view a)).

Lemma zsum_nonneg {A} (f : A → nat) (l : list A) : (0 ≤ zsum ((λ x, Z.of_nat (f x)) <$> l))%Z.
Proof.
  induction l as [|x l IH]; [done|]. cbn [fmap list_fmap].
  change (0 ≤ Z.of_nat (f x) + zsum ((λ x, Z.of_nat (f x)) <$> l))%Z. lia.
Qed.

Lemma usable_frames_bound a : frames_wf a →
  (Z.of_nat (length (recycled a) + size (owners a)) ≤ usable_frames a)%Z.
Proof.
  intros [Hwf _]. assert (Hu : usable_frames a = fa_total_frames a).
  { unfold usable_frames. cbn [frame_view sp_usable]. rewrite <-list_fmap_compose. by rewrite (fw_total _ _ Hwf). }
  rewrite Hu, (total_split a Hwf), size_owners, (length_recycled []) by done.
  pose proof (zsum_nonneg (λ r, length (unused r)) (live_ranges a)). lia.
Qed.

Lemma usable_frames_same a a' : sp_usable (frame_view a') = sp_usable (frame_view a) →
  usable_frames a' = usable_frames a.
Proof. unfold usable_frames. by intros ->. Qed.

(** * Mapping, seen from the frames *)

Record extends (root : Z) (s s' : Paging) : Prop := mk_extends {
  ex_usable : sp_usable (frame_view (pg_frames s')) = sp_usable (frame_view (pg_frames s));
  ex_owners x o : owners (pg_frames s) !! x = Some o → owners (pg_frames s') !! x = Some o;
  ex_new x o : owners (pg_frames s') !! x = Some o → owners (pg_frames s) !! x = Some o ∨ o = owner_page_table root;
  ex_mem t i : pg_mem s' t i ≠ pg_mem s t i → owners (pg_frames s') !! t = Some (owner_page_table root);
  ex_placed : tables_placed root s → tables_placed root s'
}.

Lemma grows_extends root s s' : frames_wf (pg_frames s) → grows root s s' → extends root s s'.
Proof.
  intros Hwf Hg. constructor; try by destruct Hg.
  intros x o Hx. destruct (gr_new _ _ _ Hg x o Hx) as [|[-> _]]; auto.
Qed.

Lemma map_extends root s va f flags :
  frames_wf (pg_frames s) → space_wf (pg_mem s) (pg_frames s) root → user_address va →
  flags_user_accessible flags = true →
  extends root s (map_page_in_root root va (mkPhysicalFrame f) flags s).2.
Proof.
  intros Hwf Hsp Hva Hu. pose proof (map_page_spec root s va f flags Hwf Hsp Hva Hu) as H.
  destruct (map_page_in_root root va _ flags s) as [[u|e] s']; cbn [snd].
  2: { by apply grows_extends; [|apply H]. }
  destruct H as (_ & s1 & t & Hg & Hfr & Ht & Hm). destruct (grows_extends root s s1 Hwf Hg) as [E1 E2 E3 E4 E5].
  pose proof (gr_space _ _ _ Hg) as Hsp1. pose proof (va_path_ok va Hva) as Hp.
  constructor; rewrite ?Hfr; try done.
  - intros u' i. rewrite Hm. intros Hne. destruct (decide (u' = t)) as [->|Hut].
    + by eapply (sw_owner _ _ _ _ Hsp1).
    + rewrite write_table in Hne by done. by apply (E4 u' i).
  - intros Hpl u' Hu'. rewrite Hfr in Hu'. destruct (E5 Hpl u' Hu') as (q & Hq & Hat). exists q. split; [done|].
    rewrite Hm. rewrite (table_at_write mappable (pg_mem s1) (pg_frames s1) root (va_path va) t); try done.
    intros Hpre%prefix_length. rewrite length_app in Hpre. destruct Hq as [? _]. cbn in Hpre. lia.
Qed.

(** * The contents of an address space *)

(** What a program sees at an address: whether it may write there, and the byte. *)
Definition user_view (m : PhysMem) (root va : Z) : option (bool * byte) :=
  match translate m root va with
  | Some (f, true, w) => Some (w, memory_byte m f (Z.to_nat (va mod FRAME_SIZE)))
  | _ => None
  end.

(** The frames of the address space [root]. *)
Definition root_owned (root : Z) (o : FrameOwner) : Prop := o = owner_page_table root ∨ o = owner_process_memory root.

(** From [s] to [s'] only the address space [root] changed. *)
Record filled (roots : gset Z) (root : Z) (s s' : Paging) : Prop := mk_filled {
  fl_usable : sp_usable (frame_view (pg_frames s')) = sp_usable (frame_view (pg_frames s));
  fl_owners x o : owners (pg_frames s) !! x = Some o → owners (pg_frames s') !! x = Some o;
  fl_new x o : owners (pg_frames s') !! x = Some o → owners (pg_frames s) !! x = Some o ∨ root_owned root o;
  fl_mem t i o : owners (pg_frames s) !! t = Some o → ¬ root_owned root o → pg_mem s' t i = pg_mem s t i;
  fl_others : others_kept roots root (λ _, True) s s'
}.

Lemma others_kept_refl roots root P s : others_kept roots root P s s.
Proof. by constructor. Qed.

Lemma others_kept_weaken roots root (P Q : Z → Prop) s s' :
  others_kept roots root P s s' → (∀ va, P va → Q va) → others_kept roots root Q s s'.
Proof. intros H HPQ. eapply others_kept_trans; [exact H|apply others_kept_refl|done]. Qed.

Lemma filled_refl roots root s : filled roots root s s.
Proof. constructor; auto using others_kept_refl. Qed.

Lemma filled_trans roots root s1 s2 s3 : filled roots root s1 s2 → filled roots root s2 s3 → filled roots root s1 s3.
Proof.
  intros H1 H2. constructor.
  - by rewrite (fl_usable _ _ _ _ H2), (fl_usable _ _ _ _ H1).
  - intros x o Hx. by apply (fl_owners _ _ _ _ H2), (fl_owners _ _ _ _ H1).
  - intros x o Hx. destruct (fl_new _ _ _ _ H2 x o Hx) as [Hx'|]; [|auto]. by apply (fl_new _ _ _ _ H1).
  - intros t i o Ht Ho. rewrite (fl_mem _ _ _ _ H2 t i o), (fl_mem _ _ _ _ H1 t i o); try done.
    by apply (fl_owners _ _ _ _ H1).
  - eapply others_kept_trans; [apply H1|apply H2|done].
Qed.

(** The address space [root] shows the bytes [img], in frames of its own, and has no
    other frames (unless a frame could not be recycled because the stack of recycled
    frames is smaller than the memory). *)
Record image_inv (roots : gset Z) (root : Z) (img : Z → option (bool * byte)) (s : Paging) : Prop := mk_image_inv {
  im_wf : paging_wf roots s;
  im_root : root ∈ roots;
  im_placed : tables_placed root s;
  im_mapped va f u w : user_address va → translate (pg_mem s) root va = Some (f, u, w) →
    u = true ∧ owners (pg_frames s) !! f = Some (owner_process_memory root);
  im_view va : user_address va → user_view (pg_mem s) root va = img va;
  im_owned x : (usable_frames (pg_frames s) ≤ Z.of_nat FREE_STACK_CAPACITY)%Z →
    owners (pg_frames s) !! x = Some (owner_process_memory root) →
    ∃ va u w, user_address va ∧ translate (pg_mem s) root va = Some (x, u, w)
}.

Lemma image_inv_ext roots root img img' s : (∀ va, user_address va → img' va = img va) →
  image_inv roots root img s → image_inv roots root img' s.
Proof. intros He H. constructor; try apply H. intros va Hva. rewrite He by done. by apply H. Qed.

Definition add_page (img : Z → option (bool * byte)) (page : Z) (w : bool) (data : Z → byte) : Z → option (bool * byte) :=
  λ va, if (page_number va =? page_number page)%Z then Some (w, data va) else img va.

(** The view does not change when neither translations nor the mapped frames do. *)
Lemma user_view_same m m' root va : 
  translate m' root va = translate m root va →
  (∀ f u w, translate m root va = Some (f, u, w) → ∀ i, m' f i = m f i) →
  user_view m' root va = user_view m root va.
Proof.
  intros Ht Hm. unfold user_view. rewrite Ht. destruct (translate m root va) as [[[f [|]] w]|]; [|done..].
  unfold memory_byte. by rewrite (Hm f true w).
Qed.

Lemma translate_same_page m a root va va' : space_wf m a root → user_address va → user_address va' →
  page_number va = page_number va' → translate m root va = translate m root va'.
Proof.
  intros Hsp Hva Hva' Hpg. rewrite !(translate_leaf m a) by done. unfold leaf.
  by destruct (same_page_indexes va va' Hva Hva' Hpg) as [-> ->].
Qed.

(** * One page *)

Section page.
Context (roots : gset Z) (root : Z) (img : Z → option (bool * byte)) (s : Paging) (page f : Z) (a1 : FrameAllocator)
  (m1 : PhysMem) (flags : PageFlags) (data : Z → byte).
Hypothesis Hinv : image_inv roots root img s.
Hypothesis Hpage : user_address page.
Hypothesis Halloc : allocate_owned (owner_process_memory root) (pg_frames s) = (Some (mkPhysicalFrame f), a1).
Hypothesis Hm : ∀ t i, t ≠ f → m1 t i = pg_mem s t i.
Hypothesis Hdata : ∀ va, user_address va → page_number va = page_number page →
  memory_byte m1 f (Z.to_nat (va mod FRAME_SIZE)) = data va.
Hypothesis Hflags : flags_ok (flag_bits flags).
Hypothesis Huser : flags_user_accessible flags = true.

Let s2 : Paging := mkPaging m1 a1.

Lemma ps_alloc : frames_wf a1 ∧ sp_usable (frame_view a1) = sp_usable (frame_view (pg_frames s)) ∧
  owners (pg_frames s) !! f = None ∧ owners a1 = <[f := owner_process_memory root]> (owners (pg_frames s)) ∧
  contains (pg_frames s) (mkPhysicalFrame f) = true.
Proof using Hinv Halloc.
  pose proof (allocate_owned_spec (owner_process_memory root) _ (pw_frames _ _ (im_wf _ _ _ _ Hinv))) as H.
  rewrite Halloc in H. cbn in H. tauto.
Qed.

Lemma ps_f : owners a1 !! f = Some (owner_process_memory root).
Proof using Hinv Halloc. destruct ps_alloc as (_ & _ & _ & -> & _). apply lookup_insert_eq. Qed.

Lemma ps_old x o : owners (pg_frames s) !! x = Some o → x ≠ f ∧ owners a1 !! x = Some o.
Proof using Hinv Halloc.
  destruct ps_alloc as (_ & _ & Hn & -> & _). intros Hx.
  assert (x ≠ f) by congruence. by rewrite lookup_insert_ne.
Qed.

Lemma ps_new x o : owners a1 !! x = Some o → owners (pg_frames s) !! x = Some o ∨ x = f ∧ o = owner_process_memory root.
Proof using Hinv Halloc.
  destruct ps_alloc as (_ & _ & _ & -> & _). destruct (decide (x = f)) as [->|Hne].
  - rewrite lookup_insert_eq. intros [= <-]. auto.
  - rewrite lookup_insert_ne by done. auto.
Qed.

Lemma ps_wf1 : paging_wf roots (mkPaging (pg_mem s) a1).
Proof using Hinv Halloc.
  apply (paging_step_wf (roots, s) (roots, mkPaging (pg_mem s) a1)); [|apply Hinv].
  by eapply (StepAllocate _ _ (owner_process_memory root)).
Qed.

Lemma ps_data : paging_wf roots s2 ∧ others_kept roots root (λ _, False) (mkPaging (pg_mem s) a1) s2 ∧
  ∀ r p, r ∈ roots → path_ok p → table_at m1 r p = table_at (pg_mem s) r p ∧
    ∀ i, leaf_at m1 r p i = leaf_at (pg_mem s) r p i.
Proof using Hinv Halloc Hm.
  apply (data_write_all roots root (mkPaging (pg_mem s) a1) f m1 ps_wf1); [|done].
  intros r. cbn. by rewrite ps_f.
Qed.

Lemma ps_translate r va : r ∈ roots → user_address va → translate m1 r va = translate (pg_mem s) r va.
Proof using Hinv Halloc Hm. intros Hr Hva. apply (ok_translate _ _ _ _ _ (proj1 (proj2 ps_data))); tauto. Qed.

Lemma ps_placed : tables_placed root s2.
Proof using Hinv Halloc Hm.
  intros t Ht. destruct (ps_new t _ Ht) as [Ht'|[_ ?]]; [|done].
  destruct (im_placed _ _ _ _ Hinv t Ht') as (p & Hp & Hat). exists p. split; [done|].
  cbn. by rewrite (proj1 (proj2 (proj2 ps_data) root p (im_root _ _ _ _ Hinv) Hp)).
Qed.

(** Every frame that was mapped stays as it was. *)
Lemma ps_kept va g u w : user_address va → translate (pg_mem s) root va = Some (g, u, w) →
  u = true ∧ g ≠ f ∧ owners a1 !! g = Some (owner_process_memory root) ∧ ∀ i, m1 g i = pg_mem s g i.
Proof using Hinv Halloc Hm.
  intros Hva Htr. destruct (im_mapped _ _ _ _ Hinv va g u w Hva Htr) as [-> Hg].
  destruct (ps_old g _ Hg) as [Hne Hg']. split_and!; auto.
Qed.

(** The frame owners and the memory after a call that extends [s2]. *)
Lemma ps_filled s3 : extends root s2 s3 → others_kept roots root (λ va, page_number va = page_number page) s2 s3 →
  filled roots root s s3.
Proof using Hinv Halloc Hm.
  intros He Hk. destruct ps_alloc as (_ & Hu & Hn & Hown & _). constructor.
  - rewrite (ex_usable _ _ _ He). exact Hu.
  - intros x o Hx. apply (ex_owners _ _ _ He). by apply ps_old.
  - intros x o Hx. unfold root_owned. destruct (ex_new _ _ _ He x o Hx) as [Hx'|]; [|auto].
    destruct (ps_new x o Hx') as [|[_ ?]]; auto.
  - intros t i o Ht Hno. destruct (ps_old t o Ht) as [Hne Ht'].
    destruct (decide (pg_mem s3 t i = m1 t i)) as [->|Hd]; [by apply Hm|].
    apply (ex_mem _ _ _ He) in Hd. apply (ex_owners _ _ _ He) in Ht'. rewrite Ht' in Hd. injection Hd as ->.
    exfalso. apply Hno. by left.
  - eapply others_kept_weaken; [eapply (others_kept_trans _ _ (λ _, False)); [|exact Hk|by intros va []]|done].
    constructor.
    + intros r va Hr Hva _. by apply ps_translate.
    + intros r i Hr Hi. exact (ok_kernel _ _ _ _ _ (proj1 (proj2 ps_data)) r i Hr Hi).
Qed.

Lemma ps_mapped s3 : map_page_in_root root page (mkPhysicalFrame f) flags s2 = (Ok tt, s3) →
  filled roots root s s3 ∧ (∀ va, user_address va → page_number va = page_number page → img va = None) ∧
  image_inv roots root (add_page img page (entry_is_writable (flag_bits flags)) data) s3.
Proof using All.
  intros Hmap. pose proof (im_root _ _ _ _ Hinv) as Hroot. destruct ps_data as (Hpw2 & Hk2 & _).
  assert (Hfok : frame_ok f) by (by eapply (owned_frame_ok a1); [apply ps_alloc|apply ps_f]).
  assert (Hmp : mappable a1 root f) by (unfold mappable; rewrite ps_f; by left).
  pose proof (map_page_all roots s2 root page f flags Hpw2 Hroot Hpage Hfok Hmp Hflags Huser) as H.
  pose proof (map_extends root s2 page f flags (pw_frames _ _ Hpw2) (pw_spaces _ _ Hpw2 root Hroot) Hpage Huser) as He.
  rewrite Hmap in H, He. cbn [snd] in He. destruct H as (Hpw3 & Hnone & Hk3 & Hnew).
  assert (Hold : ∀ va, user_address va → page_number va ≠ page_number page →
    translate (pg_mem s3) root va = translate (pg_mem s) root va).
  { intros va Hva Hne. rewrite (ok_translate _ _ _ _ _ Hk3) by tauto. by apply ps_translate. }
  assert (Hkeep : ∀ g i, owners a1 !! g = Some (owner_process_memory root) → pg_mem s3 g i = m1 g i).
  { intros g i Hg. destruct (decide (pg_mem s3 g i = m1 g i)) as [|Hd]; [done|].
    apply (ex_mem _ _ _ He) in Hd. apply (ex_owners _ _ _ He) in Hg. rewrite Hg in Hd. done. }
  split; [by apply ps_filled|]. split.
  - intros va Hva Hpg. rewrite <-(im_view _ _ _ _ Hinv va Hva). unfold user_view.
    rewrite <-ps_translate by done.
    rewrite (translate_same_page m1 a1 root va page (pw_spaces _ _ Hpw2 root Hroot)) by done. change (pg_mem s2) with m1 in Hnone. by rewrite Hnone.
  - constructor; [done|done|by apply (ex_placed _ _ _ He), ps_placed| | |].
    + intros va g u w Hva Htr. destruct (decide (page_number va = page_number page)) as [Hpg|Hpg].
      * rewrite Hnew in Htr by done. injection Htr as <- <- <-. split; [done|]. apply (ex_owners _ _ _ He), ps_f.
      * rewrite Hold in Htr by done. destruct (ps_kept va g u w Hva Htr) as (-> & _ & Hg & _).
        split; [done|]. by apply (ex_owners _ _ _ He).
    + intros va Hva. unfold add_page. destruct (Z.eqb_spec (page_number va) (page_number page)) as [Hpg|Hpg].
      * unfold user_view. rewrite Hnew by done. do 2 f_equal. rewrite <-Hdata by done. unfold memory_byte.
        by rewrite Hkeep by apply ps_f.
      * rewrite <-(im_view _ _ _ _ Hinv va Hva). apply user_view_same; [by apply Hold|].
        intros g u w Htr i. destruct (ps_kept va g u w Hva Htr) as (_ & _ & Hg & Hmg). by rewrite Hkeep, Hmg.
    + intros x Hsmall Hx. destruct (ex_new _ _ _ He x _ Hx) as [Hx'|]; [|done].
      destruct (ps_new x _ Hx') as [Hx''|[-> _]].
      * destruct (im_owned _ _ _ _ Hinv x) as (va & u & w & Hva & Htr); [|done|].
        { rewrite <-(usable_frames_same (pg_frames s) (pg_frames s3)); [done|].
          rewrite (ex_usable _ _ _ He). apply ps_alloc. }
        exists va, u, w. split; [done|]. rewrite Hold; [done|done|]. intros Hpg.
        rewrite <-ps_translate in Htr by done.
        rewrite (translate_same_page m1 a1 root va page (pw_spaces _ _ Hpw2 root Hroot)) in Htr by done. change (pg_mem s2) with m1 in Hnone.
        congruence.
      * exists page, true, (entry_is_writable (flag_bits flags)). split; [done|]. by apply Hnew.
Qed.

(** A failed mapping gives the frame back. *)
Lemma ps_failed e s3 : map_page_in_root root page (mkPhysicalFrame f) flags s2 = (Err e, s3) →
  let s4 := mkPaging (pg_mem s3) (free_owned (mkPhysicalFrame f) (owner_process_memory root) (pg_frames s3)).2 in
  filled roots root s s4 ∧ image_inv roots root img s4 ∧
  (e = AlreadyMapped ∧ is_Some (img page) ∨ e = OutOfFrames ∧ ∃ s', filled roots root s s' ∧ out_of_frames (pg_frames s')).
Proof using All.
  intros Hmap s4. pose proof (im_root _ _ _ _ Hinv) as Hroot. destruct ps_data as (Hpw2 & Hk2 & Htab).
  pose proof (pw_spaces _ _ Hpw2 root Hroot) as Hsp2. pose proof (pw_frames _ _ Hpw2) as Hwf2.
  pose proof (map_page_spec root s2 page f flags Hwf2 Hsp2 Hpage Huser) as H. rewrite Hmap in H.
  destruct H as [Hg He]. destruct (grows_all roots root s2 s3 Hpw2 Hroot Hg) as [Hpw3 Hk3].
  pose proof (grows_extends root s2 s3 Hwf2 Hg) as Hex.
  assert (Hf3 : owners (pg_frames s3) !! f = Some (owner_process_memory root)) by (apply (ex_owners _ _ _ Hex), ps_f).
  assert (Htr : ∀ va, user_address va → translate (pg_mem s3) root va = translate (pg_mem s) root va).
  { intros va Hva. rewrite (ok_translate _ _ _ _ _ Hk3) by tauto. by apply ps_translate. }
  pose proof (free_owned_spec f _ _ (pw_frames _ _ Hpw3) Hf3) as Hfree. unfold s4.
  destruct (free_owned (mkPhysicalFrame f) _ (pg_frames s3)) as [fr a4] eqn:Hfr. cbn [snd].
  destruct Hfree as (Hwf4 & Hu4 & Hcase).
  assert (Hpw4 : paging_wf roots (mkPaging (pg_mem s3) a4)).
  { apply (paging_step_wf (roots, s3) (roots, mkPaging (pg_mem s3) a4)); [|done].
    eapply (StepFree _ _ f (owner_process_memory root)); [done|done|done| |exact Hfr].
    intros q p i e' Hq Hp Hl Hi Hle. destruct ps_alloc as (_ & _ & Hn & _ & Hc).
    apply (free_unmapped roots s f q p i e' (im_wf _ _ _ _ Hinv) Hn Hc Hq Hp Hl Hi).
    rewrite <-(proj2 (Htab q p Hq Hp)), <-Hle. symmetry.
    destruct (decide (q = root)) as [->|Hne]; [by apply (gr_leaf _ _ _ Hg)|].
    by apply (grows_other root s2 s3 q Hwf2 Hg Hne); [apply (pw_spaces _ _ Hpw2)|]. }
  assert (Hown : ∀ x o, owners a4 !! x = Some o → owners (pg_frames s3) !! x = Some o).
  { intros x o. destruct Hcase as [(_ & -> & _)|(_ & -> & _)]; [|done]. intros Hx. by apply lookup_delete_Some in Hx as [_ Hx]. }
  assert (Hkeep : ∀ x o, x ≠ f → owners (pg_frames s3) !! x = Some o → owners a4 !! x = Some o).
  { intros x o Hx Ho. destruct Hcase as [(_ & -> & _)|(_ & -> & _)]; [|done]. by rewrite lookup_delete_ne. }
  pose proof (ps_filled s3 Hex (others_kept_weaken _ _ _ _ _ _ Hk3 ltac:(by intros va []))) as Hfl.
  split; [|split].
  - constructor; cbn [pg_mem pg_frames].
    + rewrite Hu4. apply Hfl.
    + intros x o Hx. apply Hkeep; [by apply (ps_old x o)|]. by apply (fl_owners _ _ _ _ Hfl).
    + intros x o Hx. by apply (fl_new _ _ _ _ Hfl), Hown.
    + apply Hfl.
    + destruct (fl_others _ _ _ _ Hfl) as [H1 H2]. by constructor.
  - constructor; cbn [pg_mem pg_frames].
    + done.
    + done.
    + intros t Ht. apply Hown in Ht. destruct (ex_placed _ _ _ Hex ps_placed t Ht) as (p & Hp & Hat). by exists p.
    + intros va g u w Hva Ht. rewrite Htr in Ht by done. destruct (ps_kept va g u w Hva Ht) as (-> & Hne & Hg' & _).
      split; [done|]. apply Hkeep; [done|]. by apply (ex_owners _ _ _ Hex).
    + intros va Hva. rewrite <-(im_view _ _ _ _ Hinv va Hva). apply user_view_same; [by apply Htr|].
      intros g u w Ht i. destruct (ps_kept va g u w Hva Ht) as (_ & _ & Hg' & Hmg). rewrite <-Hmg.
      destruct (decide (pg_mem s3 g i = m1 g i)) as [|Hd]; [done|].
      apply (ex_mem _ _ _ Hex) in Hd. apply (ex_owners _ _ _ Hex) in Hg'. by rewrite Hg' in Hd.
    + intros x Hsmall Hx. destruct Hcase as [(_ & Hd & _)|(_ & -> & Hfull)].
      * rewrite Hd in Hx. apply lookup_delete_Some in Hx as [Hxf Hx].
        destruct (ex_new _ _ _ Hex x _ Hx) as [Hx'|]; [|done]. destruct (ps_new x _ Hx') as [Hx''|[-> _]]; [|done].
        destruct (im_owned _ _ _ _ Hinv x) as (va & u & w & Hva & Ht); [|done|].
        { rewrite <-(usable_frames_same (pg_frames s) a4); [done|]. rewrite Hu4. apply Hfl. }
        exists va, u, w. split; [done|]. by rewrite Htr.
      * exfalso. pose proof (usable_frames_bound _ (pw_frames _ _ Hpw3)) as Hb. rewrite Hfull in Hb.
        assert (size (owners (pg_frames s3)) ≠ 0) by (intros Hz%map_size_empty_inv; by rewrite Hz in Hf3). lia.
  - destruct e; [right|left|done].
    + split; [done|]. destruct He as (s' & Hg' & Hout). exists s'. split; [|done].
      destruct (grows_all roots root s2 s' Hpw2 Hroot Hg') as [_ Hk'].
      apply ps_filled; [by apply grows_extends|]. by eapply others_kept_weaken; [exact Hk'|intros va []].
    + split; [done|]. rewrite <-(im_view _ _ _ _ Hinv page Hpage). unfold user_view.
      rewrite <-ps_translate, (translate_leaf m1 a1) by done. change (pg_mem s2) with m1 in He.
      destruct He as [e He]. rewrite He. unfold leaf_view. cbn [fmap option_fmap option_map].
      destruct (im_mapped _ _ _ _ Hinv page (entry_address e) (entry_is_user_accessible e) (entry_is_writable e) Hpage)
        as [-> _]; [|by eexists].
      rewrite <-ps_translate, (translate_leaf m1 a1) by done. by rewrite He.
Qed.
End page.

(** * Runs of pages *)

Definition join_view (img v : Z → option (bool * byte)) : Z → option (bool * byte) :=
  λ va, match img va with Some x => Some x | None => v va end.

(** The pages from [lo] up to [hi] with the bytes [data]. *)
Definition range_view (lo hi : Z) (w : bool) (data : Z → byte) : Z → option (bool * byte) :=
  λ va, if (lo <=? va)%Z && (va <? hi)%Z then Some (w, data va) else None.

Definition views_overlap (img v : Z → option (bool * byte)) : Prop :=
  ∃ va, user_address va ∧ is_Some (img va) ∧ is_Some (v va).

(** No frame was left at some point of the load. *)
Definition exhausted_from (roots : gset Z) (root : Z) (s : Paging) : Prop :=
  ∃ s', filled roots root s s' ∧ out_of_frames (pg_frames s').

Definition memory_error (e : LoadError) : bool :=
  match e with LoadOutOfFrames | LoadMap OutOfFrames => true | _ => false end.

(** The reasons for which adding the pages [v] fails. *)
Definition page_failure (roots : gset Z) (root : Z) (img v : Z → option (bool * byte)) (s : Paging) (e : LoadError) : Prop :=
  e = LoadMap AlreadyMapped ∧ views_overlap img v ∨ memory_error e = true ∧ exhausted_from roots root s.

Lemma page_number_aligned lo k va : (FRAME_SIZE | lo)%Z → (0 ≤ k)%Z →
  page_number va = page_number (lo + FRAME_SIZE * k) ↔ (lo + FRAME_SIZE * k ≤ va < lo + FRAME_SIZE * (k + 1))%Z.
Proof.
  intros [n ->] Hk. unfold page_number. replace (n * FRAME_SIZE + FRAME_SIZE * k)%Z with ((n + k) * FRAME_SIZE)%Z by lia.
  rewrite Z.div_mul by done. pose proof (Z.div_mod va FRAME_SIZE ltac:(done)) as Hdm.
  pose proof (Z.mod_pos_bound va FRAME_SIZE ltac:(done)) as Hb. split; [intros He; rewrite He in Hdm; lia|].
  intros Hr. assert (Hq : (va / FRAME_SIZE = n + k)%Z); [|done].
  symmetry. apply (Z.div_unique_pos _ _ _ (va - FRAME_SIZE * (n + k))); lia.
Qed.


Section runs.
Context (roots : gset Z) (space : AddressSpace).
Let root : Z := frame_start (as_root_frame space).
Let owner : FrameOwner := owner_process_memory root.

(** The body of both loops: a new frame is zeroed, [copy] writes to it, and it is
    mapped. *)
Definition fill_page (copy : PhysicalFrame → M Paging LoadError unit) (flags : PageFlags) (page : Z) :
    M Paging LoadError unit :=
  let! frame := take_user_frame owner in
  do! zero_frame frame;
  do! copy frame;
  or_free frame owner (with_error LoadMap (address_space_map_page space page frame flags)).

(** [copy] succeeds and puts the bytes [data] of the page into the frame. *)
Definition copies (copy : PhysicalFrame → M Paging LoadError unit) (page : Z) (data : Z → byte) : Prop :=
  ∀ f m a, ∃ m', copy (mkPhysicalFrame f) (mkPaging (zero_table f m) a) = (Ok tt, mkPaging m' a) ∧
    (∀ t i, t ≠ f → m' t i = m t i) ∧
    ∀ va, user_address va → page_number va = page_number page →
      memory_byte m' f (Z.to_nat (va mod FRAME_SIZE)) = data va.

Lemma fill_page_spec copy w x page data img s :
  image_inv roots root img s → user_address page → copies copy page data →
  let '(r, s') := fill_page copy (user_flags w x) page s in
  filled roots root s s' ∧
  match r with
  | Ok _ => (∀ va, user_address va → page_number va = page_number page → img va = None) ∧
            image_inv roots root (add_page img page w data) s'
  | Err e => image_inv roots root img s' ∧
      (e = LoadMap AlreadyMapped ∧ is_Some (img page) ∨ memory_error e = true ∧ exhausted_from roots root s)
  end.
Proof.
  intros Hinv Hpage Hcopy. destruct (user_flags_ok w x) as [Hfl Hus].
  assert (Hw : entry_is_writable (flag_bits (user_flags w x)) = w) by (by destruct w, x).
  destruct s as [m a]. unfold fill_page, rbind at 1, take_user_frame. cbn [pg_frames].
  destruct (allocate_owned owner a) as [[[f]|] a1] eqn:Ha; cbn [ok_or].
  - destruct (Hcopy f m a1) as (m1 & Hc & Hm & Hd). unfold zero_frame, rbind, rmodify.
    change (set pg_frames (λ _, a1) (mkPaging m a)) with (mkPaging m a1).
    change (set pg_mem (zero_table (frame_start (mkPhysicalFrame f))) (mkPaging m a1)) with (mkPaging (zero_table f m) a1).
    rewrite Hc. unfold or_free, with_error.
    change (address_space_map_page space page) with (map_page_in_root root page).
    destruct (map_page_in_root root page (mkPhysicalFrame f) (user_flags w x) (mkPaging m1 a1)) as [[[]|e] s3] eqn:Hmap; cbn [map_err].
    + destruct (ps_mapped roots root img (mkPaging m a) page f a1 m1 _ data Hinv Hpage Ha Hm Hd Hfl Hus s3 Hmap) as (H1 & H2 & H3).
      rewrite Hw in H3. done.
    + destruct (ps_failed roots root img (mkPaging m a) page f a1 m1 _ data Hinv Hpage Ha Hm Hd Hfl Hus e s3 Hmap) as (H1 & H2 & H3).
      change (set pg_frames _ s3) with (mkPaging (pg_mem s3) (free_owned (mkPhysicalFrame f) owner (pg_frames s3)).2).
      split; [done|]. split; [done|]. destruct H3 as [[-> ?]|[-> ?]]; [left|right]; done.
  - pose proof (allocate_owned_spec owner a (pw_frames _ _ (im_wf _ _ _ _ Hinv))) as Hs. rewrite Ha in Hs.
    destruct Hs as (Hwf & Hu & Ho & Hout). change (set pg_frames (λ _, a1) (mkPaging m a)) with (mkPaging m a1).
    assert (Hpw : paging_wf roots (mkPaging m a1)).
    { apply (paging_step_wf (roots, mkPaging m a) (roots, mkPaging m a1)); [|apply Hinv].
      by eapply (StepAllocate _ (mkPaging m a) owner). }
    split; [|split].
    + constructor; cbn [pg_frames pg_mem]; rewrite ?Ho; auto. by constructor.
    + destruct Hinv as [I1 I2 I3 I4 I5 I6]. constructor; try done.
      * intros t. cbn. rewrite Ho. apply I3.
      * cbn. rewrite Ho. done.
      * cbn [pg_frames pg_mem] in *. rewrite Ho, (usable_frames_same a a1 Hu). done.
    + right. split; [done|]. exists (mkPaging m a). split; [apply filled_refl|done].
Qed.

Lemma exhausted_trans s s1 : filled roots root s s1 → exhausted_from roots root s1 → exhausted_from roots root s.
Proof. intros Hf (s' & Hf' & Ho). exists s'. split; [by eapply filled_trans|done]. Qed.

Section loop.
Context (copy : Z → PhysicalFrame → M Paging LoadError unit) (w x : bool) (lo : Z) (N : nat) (data : Z → byte)
  (img : Z → option (bool * byte)) (loop : nat → Z → M Paging LoadError unit).
Let at_page (k : nat) : Z := (lo + FRAME_SIZE * Z.of_nat k)%Z.
Hypothesis Hlo : (FRAME_SIZE | lo)%Z ∧ (0 ≤ lo)%Z ∧ (at_page N ≤ USER_CANONICAL_LIMIT)%Z.
Hypothesis Hstep : ∀ n k s, k < N →
  loop (S n) (at_page k) s = (do! fill_page (copy (at_page k)) (user_flags w x) (at_page k); loop n (at_page (S k))) s.
Hypothesis Hend : ∀ n s, loop n (at_page N) s = (Ok tt, s).
Hypothesis Hcopies : ∀ k, k < N → copies (copy (at_page k)) (at_page k) data.

Lemma page_of_va k va : page_number va = page_number (at_page k) ↔ (at_page k ≤ va < at_page (S k))%Z.
Proof using All.
  unfold at_page. rewrite page_number_aligned; [|apply Hlo|lia]. by rewrite Nat2Z.inj_succ, Z.add_1_r.
Qed.

Lemma fill_loop n : ∀ k s, k + n = N →
  image_inv roots root (join_view img (range_view lo (at_page k) w data)) s →
  (∀ va, user_address va → (lo ≤ va < at_page k)%Z → img va = None) →
  let '(r, s') := loop n (at_page k) s in
  filled roots root s s' ∧
  match r with
  | Ok _ => (∀ va, user_address va → (lo ≤ va < at_page N)%Z → img va = None) ∧
            image_inv roots root (join_view img (range_view lo (at_page N) w data)) s'
  | Err e => (∃ img', image_inv roots root img' s') ∧ page_failure roots root img (range_view lo (at_page N) w data) s e
  end.
Proof using All.
  induction n as [|n IH]; intros k s Hk Hinv Hdis.
  { assert (k = N) as -> by lia. rewrite Hend. split; [apply filled_refl|done]. }
  assert (Hkn : k < N) by lia.
  assert (Hb : (lo ≤ at_page k)%Z ∧ (at_page (S k) ≤ at_page N)%Z ∧ (at_page k < at_page (S k))%Z)
    by (unfold at_page, FRAME_SIZE; lia).
  assert (Hpage : user_address (at_page k)) by (unfold user_address; lia).
  rewrite Hstep by done. unfold rbind.
  pose proof (fill_page_spec (copy (at_page k)) w x (at_page k) data _ s Hinv Hpage (Hcopies k Hkn)) as H.
  destruct (fill_page _ _ _ s) as [[[]|e] s1].
  - destruct H as (Hf1 & Hnone & Hinv1).
    assert (Hnone' : ∀ va, user_address va → (at_page k ≤ va < at_page (S k))%Z → img va = None).
    { intros va Hva Hin. specialize (Hnone va Hva (proj2 (page_of_va k va) Hin)). unfold join_view in Hnone.
      by destruct (img va). }
    assert (Hinv1' : image_inv roots root (join_view img (range_view lo (at_page (S k)) w data)) s1).
    { eapply image_inv_ext; [|exact Hinv1]. intros va Hva. unfold add_page, join_view, range_view.
      destruct (Z.eqb_spec (page_number va) (page_number (at_page k))) as [Hpg|Hpg].
      - apply page_of_va in Hpg. rewrite Hnone' by done. by rewrite (proj2 (Z.leb_le lo va)), (proj2 (Z.ltb_lt va _)) by lia.
      - rewrite page_of_va in Hpg. destruct (img va); [done|].
        destruct (Z.leb_spec lo va), (Z.ltb_spec va (at_page (S k))), (Z.ltb_spec va (at_page k)); (done || lia). }
    specialize (IH (S k) s1 ltac:(lia) Hinv1').
    assert (Hdis' : ∀ va, user_address va → (lo ≤ va < at_page (S k))%Z → img va = None).
    { intros va Hva Hin. destruct (decide (va < at_page k)%Z); [apply Hdis|apply Hnone']; (done || lia). }
    specialize (IH Hdis'). destruct (loop n (at_page (S k)) s1) as [[[]|e] s2].
    + destruct IH as [Hf2 IH]. split; [by eapply filled_trans|done].
    + destruct IH as (Hf2 & Hi2 & Hfail). split; [by eapply filled_trans|]. split; [done|].
      destruct Hfail as [|[? ?]]; [by left|right]. split; [done|]. by eapply exhausted_trans.
  - destruct H as (Hf1 & Hinv1 & Hfail). split; [done|]. split; [eauto|].
    destruct Hfail as [[-> [z Hz]]|[? ?]]; [left|by right]. split; [done|]. exists (at_page k). split; [done|].
    unfold join_view, range_view in Hz |- *. rewrite (proj2 (Z.ltb_ge (at_page k) (at_page k))), andb_false_r in Hz by lia.
    rewrite (proj2 (Z.leb_le lo (at_page k))), (proj2 (Z.ltb_lt (at_page k) (at_page N))) by lia.
    destruct (img (at_page k)); [by split; eexists|done].
Qed.
End loop.
End runs.

(** * Segments and the stack *)

Definition header_writable (h : ProgramHeader) : bool := negb (Z.land (ph_flags h) PF_W =? 0)%Z.
Definition header_start (h : ProgramHeader) : Z := (FRAME_SIZE * (ph_vaddr h / FRAME_SIZE))%Z.
Definition header_end (h : ProgramHeader) : Z :=
  (FRAME_SIZE * ((ph_vaddr h + ph_memsz h + (FRAME_SIZE - 1)) / FRAME_SIZE))%Z.

(** The bytes of the file, then zeros. *)
Definition segment_byte (bytes : list byte) (h : ProgramHeader) (va : Z) : byte :=
  if (ph_vaddr h <=? va)%Z && (va <? ph_vaddr h + ph_filesz h)%Z
  then default 0%Z (bytes !! Z.to_nat (ph_offset h + (va - ph_vaddr h))) else 0%Z.
Definition segment_view (bytes : list byte) (h : ProgramHeader) : Z → option (bool * byte) :=
  range_view (header_start h) (header_end h) (header_writable h) (segment_byte bytes h).
Definition stack_view : Z → option (bool * byte) :=
  range_view (USER_STACK_TOP - USER_STACK_PAGES * FRAME_SIZE) USER_STACK_TOP true (λ _, 0%Z).

(** The bytes of a segment lie in the file, and its pages below the limit. *)
Record segment_ok (bytes : list byte) (h : ProgramHeader) : Prop := mk_segment_ok {
  so_size : (ph_filesz h ≤ ph_memsz h)%Z;
  so_vaddr : (ph_vaddr h < USER_CANONICAL_LIMIT)%Z;
  so_file : (ph_offset h + ph_filesz h ≤ Z.of_nat (length bytes))%Z;
  so_end : (header_end h ≤ USER_CANONICAL_LIMIT)%Z
}.

Record header_u64 (h : ProgramHeader) : Prop := mk_header_u64 {
  hu_offset : is_u64 (ph_offset h);
  hu_vaddr : is_u64 (ph_vaddr h);
  hu_filesz : is_u64 (ph_filesz h);
  hu_memsz : is_u64 (ph_memsz h)
}.

Definition segment_copy (bytes : list byte) (owner : FrameOwner) (h : ProgramHeader) (page : Z)
    (frame : PhysicalFrame) : M Paging LoadError unit :=
  let copy_start := Z.max page (ph_vaddr h) in
  let copy_end := Z.min (page + FRAME_SIZE) (ph_vaddr h + ph_filesz h) in
  if (copy_start <? copy_end)%Z
  then or_free frame owner (copy_segment_bytes bytes frame h page copy_start copy_end)
  else rret tt.

Lemma page_offset k lo va : (FRAME_SIZE | lo)%Z → (0 ≤ k)%Z →
  page_number va = page_number (lo + FRAME_SIZE * k) →
  (va mod FRAME_SIZE = va - (lo + FRAME_SIZE * k))%Z ∧ (0 ≤ va mod FRAME_SIZE < FRAME_SIZE)%Z.
Proof.
  intros Hlo Hk Hp. pose proof (proj1 (page_number_aligned lo k va Hlo Hk) Hp) as Hr.
  pose proof (Z.div_mod va FRAME_SIZE ltac:(done)) as Hdm. pose proof (Z.mod_pos_bound va FRAME_SIZE ltac:(done)) as Hb.
  split; [|done]. unfold page_number in Hp. rewrite Hp in Hdm. destruct Hlo as [n ->].
  replace (n * FRAME_SIZE + FRAME_SIZE * k)%Z with ((n + k) * FRAME_SIZE)%Z in * by lia.
  rewrite Z.div_mul in Hdm by done. lia.
Qed.

(** The copy stays within the file and the frame, and writes what the segment shows. *)
Lemma segment_copies bytes owner h lo k :
  Forall is_byte bytes → is_u64 (Z.of_nat (length bytes)) → header_u64 h →
  (ph_offset h + ph_filesz h ≤ Z.of_nat (length bytes))%Z → (FRAME_SIZE | lo)%Z → (0 ≤ k)%Z →
  copies (segment_copy bytes owner h (lo + FRAME_SIZE * k)) (lo + FRAME_SIZE * k) (segment_byte bytes h).
Proof.
  intros Hb Hlen [[Ho _] [Hv _] [Hfs _] _] Hfile Hlo Hk f m a. unfold segment_copy.
  set (page := (lo + FRAME_SIZE * k)%Z).
  set (cs := Z.max page (ph_vaddr h)). set (ce := Z.min (page + FRAME_SIZE) (ph_vaddr h + ph_filesz h)).
  assert (Hz : ∀ va, page_number va = page_number page → ¬ (cs ≤ va < ce)%Z → segment_byte bytes h va = 0%Z).
  { intros va Hp Hn. apply page_number_aligned in Hp; [|done|done]. unfold segment_byte.
    destruct (Z.leb_spec (ph_vaddr h) va), (Z.ltb_spec va (ph_vaddr h + ph_filesz h)); try done. subst page. lia. }
  destruct (Z.ltb_spec cs ce) as [Hc|Hc].
  - unfold or_free, copy_segment_bytes, rbind, rlift, checked_add.
    rewrite (proj2 (Z.leb_le (ph_offset h + (cs - ph_vaddr h)) u64_max)) by (unfold is_u64 in Hlen; lia).
    cbn [ok_or]. unfold rmodify. eexists. split; [reflexivity|]. cbn [set eta_Paging pg_mem frame_start]. split.
    + intros t i Ht. rewrite write_memory_entries by done. by apply zero_table_other.
    + intros va Hva Hp. destruct (page_offset k lo va Hlo Hk Hp) as [Hoff Hrng]. fold page in Hoff.
      rewrite write_memory_byte by (by apply Forall_take, Forall_drop).
      assert (Hl : length (take (Z.to_nat (ce - cs)) (drop (Z.to_nat (ph_offset h + (cs - ph_vaddr h))) bytes)) = Z.to_nat (ce - cs))
        by (rewrite length_take, length_drop; lia).
      rewrite Hl. case_decide as Hin.
      * assert (Hva' : (cs ≤ va < ce)%Z) by lia. unfold segment_byte.
        rewrite (proj2 (Z.leb_le (ph_vaddr h) va)), (proj2 (Z.ltb_lt va _)) by lia. cbn [andb].
        rewrite lookup_take_lt by lia. rewrite lookup_drop. do 2 f_equal. lia.
      * rewrite zero_table_byte by lia. symmetry. apply Hz; [done|]. intros Hr. apply Hin. split; [done|]. lia.
  - exists (zero_table f m). split; [done|]. split; [by intros; apply zero_table_other|].
    intros va Hva Hp. destruct (page_offset k lo va Hlo Hk Hp) as [_ Hrng]. rewrite zero_table_byte by lia.
    symmetry. apply Hz; [done|lia].
Qed.

Section segments.
Context (roots : gset Z) (space : AddressSpace) (bytes : list byte).
Let root : Z := frame_start (as_root_frame space).
Let owner : FrameOwner := owner_process_memory root.
Hypothesis Hbytes : Forall is_byte bytes.
Hypothesis Hlen : is_u64 (Z.of_nat (length bytes)).

Lemma load_pages_step n h flags page page_end s : (page < page_end)%Z →
  load_pages (S n) bytes space h flags owner page page_end s =
  (do! fill_page space (segment_copy bytes owner h page) flags page;
   load_pages n bytes space h flags owner (page + FRAME_SIZE) page_end) s.
Proof.
  intros Hp. cbn [load_pages]. rewrite (proj2 (Z.ltb_lt _ _) Hp). unfold fill_page. fold root. fold owner.
  rewrite rbind_assoc. unfold rbind at 1 5. destruct (take_user_frame owner s) as [[f|e] s1]; [|done].
  rewrite rbind_assoc. unfold rbind at 1 4. destruct (zero_frame f s1) as [[[]|e] s2]; [|done].
  rewrite rbind_assoc. reflexivity.
Qed.

Lemma stack_pages_step n page s : (page < USER_STACK_TOP)%Z →
  stack_pages (S n) space owner page s =
  (do! fill_page space (λ _, rret tt) (user_flags true false) page; stack_pages n space owner (page + FRAME_SIZE)) s.
Proof.
  intros Hp. cbn [stack_pages]. rewrite (proj2 (Z.ltb_lt _ _) Hp). unfold fill_page. fold root. fold owner.
  rewrite rbind_assoc. unfold rbind at 1 4. destruct (take_user_frame owner s) as [[f|e] s1]; [|done].
  rewrite rbind_assoc. reflexivity.
Qed.

Lemma header_end_bound h : header_u64 h → (header_start h ≤ ph_vaddr h)%Z ∧
  (ph_vaddr h + ph_memsz h ≤ header_end h < ph_vaddr h + ph_memsz h + FRAME_SIZE)%Z.
Proof.
  intros [_ [Hv _] _ [Hm _]]. unfold header_start, header_end, FRAME_SIZE.
  pose proof (Z.div_mod (ph_vaddr h) 4096). pose proof (Z.mod_pos_bound (ph_vaddr h) 4096).
  pose proof (Z.div_mod (ph_vaddr h + ph_memsz h + (4096 - 1)) 4096).
  pose proof (Z.mod_pos_bound (ph_vaddr h + ph_memsz h + (4096 - 1)) 4096). lia.
Qed.

Lemma image_align_up_spec v : is_u64 v →
  image_align_up v FRAME_SIZE =
  if (v + (FRAME_SIZE - 1) <=? u64_max)%Z then Some (FRAME_SIZE * ((v + (FRAME_SIZE - 1)) / FRAME_SIZE))%Z else None.
Proof.
  intros [Hv _]. unfold image_align_up, checked_add. destruct (Z.leb_spec (v + (FRAME_SIZE - 1)) u64_max) as [Hle|Hgt]; [|done].
  cbn [mbind option_bind]. f_equal. apply land_not_low. unfold is_u64, FRAME_SIZE in *. lia.
Qed.

(** What [load_segment] checks. *)
Lemma load_segment_checks h s : header_u64 h →
  (segment_ok bytes h ∧ load_segment bytes space h s =
     load_pages (page_rounds (header_start h) (header_end h)) bytes space h
       (user_flags (header_writable h) (negb (Z.land (ph_flags h) PF_X =? 0)%Z)) owner (header_start h) (header_end h) s) ∨
  (¬ segment_ok bytes h ∧ load_segment bytes space h s = (Err BadSegment, s)).
Proof.
  intros Hh. pose proof (header_end_bound h Hh) as Hend. destruct Hh as [[Ho _] [Hv Hv'] [Hf _] [Hm _]].
  unfold load_segment, rbind, rguard, rlift, checked_add.
  destruct (Z.ltb_spec (ph_memsz h) (ph_filesz h)) as [Hsz|Hsz]; cbn [orb negb].
  { right. split; [|done]. intros [? _ _ _]. lia. }
  destruct (Z.leb_spec USER_CANONICAL_LIMIT (ph_vaddr h)) as [Hlim|Hlim]; cbn [negb].
  { right. split; [|done]. intros [_ ? _ _]. lia. }
  destruct (Z.leb_spec (ph_offset h + ph_filesz h) u64_max) as [Hfe|Hfe]; cbn [ok_or].
  2: { right. split; [|done]. intros [_ _ ? _]. unfold is_u64 in Hlen. lia. }
  destruct (Z.ltb_spec (Z.of_nat (length bytes)) (ph_offset h + ph_filesz h)) as [Hl|Hl]; cbn [negb].
  { right. split; [|done]. intros [_ _ ? _]. lia. }
  assert (Hbig : ¬ (header_end h ≤ USER_CANONICAL_LIMIT)%Z → ¬ segment_ok bytes h) by (by intros Hn [_ _ _ ?]).
  unfold USER_CANONICAL_LIMIT, FRAME_SIZE in Hbig, Hend, Hlim.
  destruct (Z.leb_spec (ph_vaddr h + ph_memsz h) u64_max) as [Hse|Hse]; cbn [ok_or].
  2: { right. split; [|done]. apply Hbig. unfold u64_max in *. lia. }
  rewrite image_align_up_spec by (unfold is_u64; lia).
  destruct (Z.leb_spec (ph_vaddr h + ph_memsz h + (FRAME_SIZE - 1)) u64_max) as [Hau|Hau]; cbn [ok_or].
  2: { right. split; [|done]. apply Hbig. unfold u64_max, FRAME_SIZE in *. lia. }
  fold (header_end h). destruct (Z.ltb_spec USER_CANONICAL_LIMIT (header_end h)) as [Hpe|Hpe]; cbn [negb].
  { right. split; [|done]. apply Hbig. unfold USER_CANONICAL_LIMIT in *. lia. }
  left. split; [constructor; unfold USER_CANONICAL_LIMIT in *; lia|]. destruct (page_align_down_spec (ph_vaddr h) (conj Hv Hv')) as [-> _]. done.
Qed.

Lemma load_segment_spec h img s : header_u64 h → image_inv roots root img s →
  let '(r, s') := load_segment bytes space h s in
  filled roots root s s' ∧
  match r with
  | Ok _ => segment_ok bytes h ∧ ¬ views_overlap img (segment_view bytes h) ∧
            image_inv roots root (join_view img (segment_view bytes h)) s'
  | Err e => (∃ img', image_inv roots root img' s') ∧
      (e = BadSegment ∧ ¬ segment_ok bytes h ∨ page_failure roots root img (segment_view bytes h) s e)
  end.
Proof.
  intros Hh Hinv. destruct (load_segment_checks h s Hh) as [[Hok ->]|[Hbad ->]].
  2: { split; [apply filled_refl|]. split; [eauto|by left]. }
  pose proof (header_end_bound h Hh) as Hend. pose proof Hh as Hh'. destruct Hh' as [_ [Hv _] [Hf _] [Hm _]].
  set (N := page_rounds (header_start h) (header_end h)).
  assert (HN : header_end h = (header_start h + FRAME_SIZE * Z.of_nat N)%Z ).
  { unfold N, page_rounds, header_start, header_end. set (p := (ph_vaddr h / FRAME_SIZE)%Z).
    set (q := ((ph_vaddr h + ph_memsz h + (FRAME_SIZE - 1)) / FRAME_SIZE)%Z).
    replace (FRAME_SIZE * q - FRAME_SIZE * p)%Z with ((q - p) * FRAME_SIZE)%Z by lia. rewrite Z.div_mul by done.
    assert (p ≤ q)%Z; [|rewrite Z2Nat.id by lia; lia]. apply Z.div_le_mono; [done|]. unfold FRAME_SIZE. lia. }
  assert (Hlo : (FRAME_SIZE | header_start h)%Z ∧ (0 ≤ header_start h)%Z) by
    (split; [apply Z.divide_factor_l|]; unfold header_start, FRAME_SIZE; pose proof (Z.div_pos (ph_vaddr h) 4096); lia).
  set (flags := user_flags (header_writable h) (negb (Z.land (ph_flags h) PF_X =? 0)%Z)).
  pose proof (fill_loop roots space (segment_copy bytes owner h) (header_writable h) (negb (Z.land (ph_flags h) PF_X =? 0)%Z)
    (header_start h) N (segment_byte bytes h) img (λ n page, load_pages n bytes space h flags owner page (header_end h))) as H.
  specialize (H ltac:(split_and!; [apply Hlo|apply Hlo|rewrite <-HN; apply Hok])).
  assert (Hz : (header_start h + FRAME_SIZE * Z.of_nat 0)%Z = header_start h) by lia.
  specialize (H ltac:(intros n k s0 Hk; cbv beta; rewrite load_pages_step by (rewrite HN; unfold FRAME_SIZE; lia);
    replace (header_start h + FRAME_SIZE * Z.of_nat (S k))%Z with (header_start h + FRAME_SIZE * Z.of_nat k + FRAME_SIZE)%Z
      by lia; reflexivity)).
  specialize (H ltac:(intros n s0; cbv beta; rewrite <-HN; destruct n; cbn [load_pages]; by rewrite Z.ltb_irrefl)).
  specialize (H ltac:(intros k Hk; apply segment_copies; [done|done|done|apply Hok|apply Hlo|lia])).
  specialize (H N 0 s eq_refl). cbv zeta beta in H. rewrite Hz, <-HN in H. specialize (H ltac:(eapply image_inv_ext; [|exact Hinv]; intros va _;
    unfold join_view, range_view; destruct (img va); [done|]; destruct (Z.leb_spec (header_start h) va), (Z.ltb_spec va (header_start h)); (done || lia))).
  specialize (H ltac:(lia)). change (load_pages N bytes space h flags owner (header_start h) (header_end h) s)
    with ((λ n page, load_pages n bytes space h flags owner page (header_end h)) N (header_start h) s).
  cbv beta in *. fold root in H. destruct (load_pages N bytes space h flags owner (header_start h) (header_end h) s) as [[[]|e] s'].
  - destruct H as (Hfl & Hdis & Hi). split; [done|]. split; [done|]. split; [|done].
    intros (va & Hva & [z Hz1] & [y Hy]). unfold segment_view, range_view in Hy.
    destruct (Z.leb_spec (header_start h) va), (Z.ltb_spec va (header_end h)); try done. cbn in Hy.
    rewrite Hdis in Hz1 by (done || lia). done.
  - destruct H as (Hfl & Hi & Hfail). split; [done|]. split; [done|]. by right.
Qed.

Lemma map_user_stack_spec img s : image_inv roots root img s →
  let '(r, s') := map_user_stack space s in
  filled roots root s s' ∧
  match r with
  | Ok _ => ¬ views_overlap img stack_view ∧ image_inv roots root (join_view img stack_view) s'
  | Err e => (∃ img', image_inv roots root img' s') ∧ page_failure roots root img stack_view s e
  end.
Proof.
  intros Hinv. unfold map_user_stack. fold root. fold owner.
  set (lo := (USER_STACK_TOP - USER_STACK_PAGES * FRAME_SIZE)%Z).
  assert (Hhi : USER_STACK_TOP = (lo + FRAME_SIZE * Z.of_nat 8)%Z) by done.
  assert (Hlo : (FRAME_SIZE | lo)%Z ∧ (0 ≤ lo)%Z) by (split; [by exists 30064771064%Z|done]).
  pose proof (fill_loop roots space (λ _ _, rret tt) true false lo 8 (λ _, 0%Z) img (λ n page, stack_pages n space owner page)) as H.
  specialize (H ltac:(split_and!; [apply Hlo|apply Hlo|done])).
  specialize (H ltac:(intros n k s0 Hk; cbv beta; rewrite stack_pages_step by (rewrite Hhi; unfold FRAME_SIZE; lia);
    replace (lo + FRAME_SIZE * Z.of_nat (S k))%Z with (lo + FRAME_SIZE * Z.of_nat k + FRAME_SIZE)%Z by lia; reflexivity)).
  specialize (H ltac:(intros n s0; cbv beta; rewrite <-Hhi; destruct n; cbn [stack_pages]; by rewrite Z.ltb_irrefl)).
  specialize (H ltac:(intros k Hk f m a; exists (zero_table f m); split; [done|]; split; [by intros; apply zero_table_other|];
    intros va _ Hp; destruct (page_offset (Z.of_nat k) lo va (proj1 Hlo) ltac:(lia) Hp); apply zero_table_byte; lia)).
  specialize (H 8 0 s eq_refl). cbv zeta beta in H.
  replace (lo + FRAME_SIZE * Z.of_nat 0)%Z with lo in H by lia. rewrite <-Hhi in H.
  specialize (H ltac:(eapply image_inv_ext; [|exact Hinv]; intros va _;
    unfold join_view, range_view; destruct (img va); [done|]; destruct (Z.leb_spec lo va), (Z.ltb_spec va lo); (done || lia))).
  specialize (H ltac:(lia)). change (page_rounds lo USER_STACK_TOP) with 8. fold root in H.
  destruct (stack_pages 8 space owner lo s) as [[[]|e] s'].
  - destruct H as (Hfl & Hdis & Hi). split; [done|]. split; [|done].
    intros (va & Hva & [z Hz1] & [y Hy]). unfold stack_view, range_view in Hy. fold lo in Hy.
    destruct (Z.leb_spec lo va), (Z.ltb_spec va USER_STACK_TOP); try done. cbn in Hy.
    rewrite Hdis in Hz1 by (done || lia). done.
  - destruct H as (Hfl & Hi & Hfail). done.
Qed.
End segments.

(** * The whole program *)

(** The headers of an ELF file that are loaded, from [index] on. *)
Fixpoint load_headers_from (e : Elf) (index : Z) (left : nat) : list ProgramHeader :=
  match left with
  | 0 => []
  | S left' =>
      match program_header e index with
      | Some h => if (ph_typ h =? PT_LOAD)%Z then [h] else []
      | None => []
      end ++ load_headers_from e (index + 1) left'
  end.
Definition load_headers (e : Elf) : list ProgramHeader := load_headers_from e 0 (Z.to_nat (elf_phnum e)).

(** The parts of a program's memory, and what they show together. *)
Definition program_views (bytes : list byte) (e : Elf) : list (Z → option (bool * byte)) :=
  (segment_view bytes <$> load_headers e) ++ [stack_view].
Definition joined (l : list (Z → option (bool * byte))) : Z → option (bool * byte) := foldl join_view (λ _, None) l.
Definition program_view (bytes : list byte) (e : Elf) : Z → option (bool * byte) := joined (program_views bytes e).

Definition overlapping (l : list (Z → option (bool * byte))) : Prop :=
  ∃ i j v v', i < j ∧ l !! i = Some v ∧ l !! j = Some v' ∧ views_overlap v v'.

Lemma joined_snoc l v : joined (l ++ [v]) = join_view (joined l) v.
Proof. unfold joined. by rewrite foldl_app. Qed.

Lemma joined_is_Some l va : is_Some (joined l va) → ∃ i v, l !! i = Some v ∧ is_Some (v va).
Proof.
  induction l as [|v l IH] using rev_ind; [by intros [? ?]|]. rewrite joined_snoc. unfold join_view.
  destruct (joined l va) as [x|] eqn:Hj.
  - intros _. destruct IH as (i & v' & Hi & Hv'); [by eexists|]. exists i, v'. split; [|done].
    by apply lookup_app_l_Some.
  - intros Hv. exists (length l), v. split; [|done]. by rewrite list_lookup_middle.
Qed.

Lemma joined_overlap l v : views_overlap (joined l) v → overlapping (l ++ [v]).
Proof.
  intros (va & Hva & Hj & Hv). destruct (joined_is_Some l va Hj) as (i & v' & Hi & Hv').
  exists i, (length l), v', v. split_and!; [by eapply lookup_lt_Some|by apply lookup_app_l_Some|by rewrite list_lookup_middle|].
  by exists va.
Qed.

Lemma overlapping_app l l' : overlapping l → overlapping (l ++ l').
Proof.
  intros (i & j & v & v' & Hij & Hi & Hj & Ho). exists i, j, v, v'. split_and!; [done|by apply lookup_app_l_Some..|done].
Qed.

(** Without overlaps every part is shown. *)
Lemma joined_part l i w va x : ¬ overlapping l → user_address va → l !! i = Some w → w va = Some x → joined l va = Some x.
Proof.
  revert i. induction l as [|u l IH] using rev_ind; [done|]. intros i Hno Hva Hi Hw.
  rewrite joined_snoc. unfold join_view. apply lookup_app_Some in Hi as [Hi|[_ Hi]].
  - rewrite (IH i); try done. intros Ho. by apply Hno, overlapping_app.
  - apply list_lookup_singleton_Some in Hi as [_ ->]. destruct (joined l va) as [y|] eqn:Hy; [|done].
    exfalso. apply Hno, joined_overlap. exists va. split_and!; [done|by rewrite Hy|by rewrite Hw].
Qed.

Lemma apart_snoc l v : ¬ overlapping l → ¬ views_overlap (joined l) v → ¬ overlapping (l ++ [v]).
Proof.
  intros Hno Hdis (i & j & u & u' & Hij & Hi & Hj & Ho). apply lookup_app_Some in Hj as [Hj|[Hlj Hj]].
  - apply Hno. exists i, j, u, u'. split_and!; try done. rewrite lookup_app_l in Hi; [done|].
    apply lookup_lt_Some in Hj. lia.
  - apply list_lookup_singleton_Some in Hj as [Hj <-]. rewrite lookup_app_l in Hi by lia.
    apply Hdis. destruct Ho as (va & Hva & Hv & Hv'). exists va. split_and!; [done| |done].
    destruct Hv as [x Hx]. by rewrite (joined_part l i u va x).
Qed.

(** Why a load fails. *)
Definition load_reason (roots : gset Z) (root : Z) (bytes : list byte) (e : Elf) (s : Paging) (err : LoadError) : Prop :=
  err = BadSegment ∧ (∃ h, h ∈ load_headers e ∧ ¬ segment_ok bytes h) ∨
  err = LoadMap AlreadyMapped ∧ overlapping (program_views bytes e) ∨
  memory_error err = true ∧ exhausted_from roots root s.

Section program.
Context (roots : gset Z) (space : AddressSpace) (bytes : list byte) (e : Elf).
Let root : Z := frame_start (as_root_frame space).
Hypothesis Hbytes : Forall is_byte bytes.
Hypothesis Hlen : is_u64 (Z.of_nat (length bytes)).
Hypothesis He : elf_ok e.

Fixpoint run_segments (hs : list ProgramHeader) : M Paging LoadError unit :=
  match hs with
  | [] => rret tt
  | h :: hs' => do! load_segment bytes space h; run_segments hs'
  end.

Lemma load_segments_run left : ∀ index s,
  load_segments left bytes space e index s = run_segments (load_headers_from e index left) s.
Proof.
  induction left as [|left IH]; intros index s; [done|]. cbn [load_segments load_headers_from].
  destruct (program_header e index) as [h|]; [|unfold rbind, rret; cbn; apply IH].
  destruct (ph_typ h =? PT_LOAD)%Z; [|unfold rbind, rret; cbn; apply IH].
  cbn [app run_segments]. unfold rbind. destruct (load_segment bytes space h s) as [[[]|err] s1]; [apply IH|done].
Qed.

Lemma load_headers_u64 : Forall header_u64 (load_headers e).
Proof.
  unfold load_headers. destruct (eo_table e He) as [_ Hn].
  assert (H : ∀ left index, (0 ≤ index)%Z → (index + Z.of_nat left ≤ elf_phnum e)%Z →
    Forall header_u64 (load_headers_from e index left)); [|apply H; lia].
  induction left as [|left IH]; intros index H0 H1; [constructor|]. cbn [load_headers_from].
  apply Forall_app. split; [|apply IH; lia].
  destruct (program_header_Some e index He ltac:(lia)) as (h & -> & ? & ? & ? & ?).
  destruct (_ =? _)%Z; [|constructor]. constructor; [by constructor|constructor].
Qed.

Lemma run_segments_spec hs : ∀ l s, Forall header_u64 hs → image_inv roots root (joined l) s → ¬ overlapping l →
  let '(r, s') := run_segments hs s in
  filled roots root s s' ∧
  match r with
  | Ok _ => Forall (segment_ok bytes) hs ∧ ¬ overlapping (l ++ (segment_view bytes <$> hs)) ∧
            image_inv roots root (joined (l ++ (segment_view bytes <$> hs))) s'
  | Err err => (∃ img', image_inv roots root img' s') ∧
      (err = BadSegment ∧ (∃ h, h ∈ hs ∧ ¬ segment_ok bytes h) ∨
       err = LoadMap AlreadyMapped ∧ overlapping (l ++ (segment_view bytes <$> hs)) ∨
       memory_error err = true ∧ exhausted_from roots root s)
  end.
Proof using Hbytes Hlen.
  induction hs as [|h hs IH]; intros l s Hhs Hinv Hno; cbn [run_segments].
  { rewrite app_nil_r. split; [apply filled_refl|]. split; [constructor|done]. }
  inversion Hhs as [|? ? Hh Hhs']; subst. unfold rbind.
  pose proof (load_segment_spec roots space bytes Hbytes Hlen h _ s Hh Hinv) as H.
  destruct (load_segment bytes space h s) as [[[]|err] s1].
  - destruct H as (Hf1 & Hok & Hdis & Hi1). rewrite <-joined_snoc in Hi1.
    specialize (IH _ s1 Hhs' Hi1 (apart_snoc _ _ Hno Hdis)). rewrite <-app_assoc in IH.
    destruct (run_segments hs s1) as [[[]|err] s2].
    + destruct IH as (Hf2 & Hoks & IH). split; [by eapply filled_trans|]. split; [by constructor|done].
    + destruct IH as (Hf2 & Hi2 & Hr). split; [by eapply filled_trans|]. split; [done|].
      destruct Hr as [[-> (h' & Hin & Hb)]|[?|[? ?]]]; [left|by right; left|right; right].
      * split; [done|]. exists h'. split; [by constructor|done].
      * split; [done|]. by eapply exhausted_trans.
  - destruct H as (Hf1 & Hi1 & Hr). split; [done|]. split; [done|].
    destruct Hr as [[-> Hb]|[[-> Ho]|?]]; [left|right; left|by right; right].
    + split; [done|]. exists h. split; [by constructor|done].
    + split; [done|]. rewrite fmap_cons, cons_middle, app_assoc. by apply overlapping_app, joined_overlap.
Qed.

Lemma load_into_spec s : image_inv roots root (λ _, None) s →
  let '(r, s') := load_into_address_space bytes space e s in
  filled roots root s s' ∧
  match r with
  | Ok image => image = mkUserImage root (elf_entry e) USER_STACK_TOP ∧ Forall (segment_ok bytes) (load_headers e) ∧
      ¬ overlapping (program_views bytes e) ∧ image_inv roots root (program_view bytes e) s'
  | Err err => (∃ img', image_inv roots root img' s') ∧ load_reason roots root bytes e s err
  end.
Proof using Hbytes Hlen He.
  intros Hinv. unfold load_into_address_space, rbind. rewrite load_segments_run. fold (load_headers e).
  pose proof (run_segments_spec (load_headers e) [] s load_headers_u64 Hinv) as H.
  specialize (H ltac:(by intros (i & j & v & v' & _ & Hi & _))). cbn [app] in H. unfold load_reason, program_views.
  destruct (run_segments (load_headers e) s) as [[[]|err] s1].
  - destruct H as (Hf1 & Hok & Hno & Hi1).
    pose proof (map_user_stack_spec roots space _ s1 Hi1) as Hs. fold root in Hs.
    destruct (map_user_stack space s1) as [[[]|err] s2].
    + destruct Hs as (Hf2 & Hdis & Hi2). split; [by eapply filled_trans|]. rewrite <-joined_snoc in Hi2.
      split_and!; [done|done|by apply apart_snoc|done].
    + destruct Hs as (Hf2 & Hi2 & Hr). split; [by eapply filled_trans|]. split; [done|].
      destruct Hr as [[-> Ho]|[Hm Hx]]; [right; left|right; right].
      * split; [done|]. by apply joined_overlap.
      * split; [done|]. by eapply exhausted_trans.
  - destruct H as (Hf1 & Hi1 & Hr). split; [done|]. split; [done|].
    destruct Hr as [?|[[-> Ho]|?]]; [by left| |by right; right]. right; left. split; [done|]. by apply overlapping_app.
Qed.
End program.

(** * Loading a program *)

(** Every frame of tables or of process memory belongs to a live address space. *)
Definition no_orphans (roots : gset Z) (s : Paging) : Prop := ∀ x o r,
  owners (pg_frames s) !! x = Some o → root_owned r o → r ∈ roots.

(** The page tables the processor uses: an address space of the allocator or tables
    outside of its memory. *)
Definition active_ok (cr3 : Z) (s : Paging) : Prop :=
  is_Some (owners (pg_frames s) !! Z.land cr3 ADDRESS_MASK) ∨
  contains (pg_frames s) (mkPhysicalFrame (Z.land cr3 ADDRESS_MASK)) = false.

(** The state in which the segments are loaded. *)
Lemma new_space_inv roots s cr3 space s1 : paging_wf roots s → no_orphans roots s → active_ok cr3 s →
  new_from_active_kernel_mappings cr3 s = (Ok space, s1) →
  let root := frame_start (as_root_frame space) in
  (root ∉ roots) ∧ image_inv ({[root]} ∪ roots) root (λ _, None) s1 ∧ filled roots root s s1.
Proof.
  intros Hpw Hno Hact Hnew root. pose proof (new_address_space_effect roots s cr3 Hpw Hact) as H. rewrite Hnew in H.
  destruct H as (Hn & Hown & Hpw1 & Hk & Hnone & _ & Hmem & Hu). fold root in Hn, Hown, Hpw1, Hk, Hnone, Hmem.
  assert (Hr : root ∉ roots).
  { intros Hr. pose proof (sw_owner _ _ _ _ (pw_spaces _ _ Hpw root Hr) [] root path_ok_nil eq_refl). congruence. }
  split; [done|]. split; constructor.
  - done.
  - set_solver.
  - intros t. rewrite Hown. destruct (decide (t = root)) as [->|Hne].
    + intros _. exists []. split; [apply path_ok_nil|done].
    + rewrite lookup_insert_ne by done. intros Ht. exfalso. apply Hr. apply (Hno t _ root Ht). by left.
  - intros va f u w Hva Htr. by rewrite Hnone in Htr.
  - intros va Hva. unfold user_view. by rewrite Hnone.
  - intros x _. rewrite Hown. destruct (decide (x = root)) as [->|Hne]; [by rewrite lookup_insert_eq|].
    rewrite lookup_insert_ne by done. intros Hx. exfalso. apply Hr. apply (Hno x _ root Hx). by right.
  - done.
  - intros x o Hx. rewrite Hown, lookup_insert_ne; [done|]. congruence.
  - intros x o. rewrite Hown. destruct (decide (x = root)) as [->|Hne].
    + rewrite lookup_insert_eq. intros [= <-]. right. by left.
    + rewrite lookup_insert_ne by done. auto.
  - intros t i o Ht _. apply Hmem. congruence.
  - by eapply others_kept_weaken.
Qed.

Lemma filled_subset roots roots' root s s' : roots ⊆ roots' → filled roots' root s s' → filled roots root s s'.
Proof.
  intros Hsub [H1 H2 H3 H4 [H5 H6]]. constructor; try done. constructor.
  - intros r va Hr. apply H5. set_solver.
  - intros r i Hr. apply H6. set_solver.
Qed.

(** Tearing down what was loaded. *)
Lemma reclaim_image roots root img s : root ∉ roots → image_inv ({[root]} ∪ roots) root img s →
  let s' := (reclaim_user_address_space root s).2 in
  paging_wf roots s' ∧ others_kept roots root (λ _, False) s s' ∧
  (∀ t i o, owners (pg_frames s) !! t = Some o → ¬ root_owned root o → pg_mem s' t i = pg_mem s t i) ∧
  ((usable_frames (pg_frames s) ≤ Z.of_nat FREE_STACK_CAPACITY)%Z →
   ∀ x o, owners (pg_frames s') !! x = Some o ↔ owners (pg_frames s) !! x = Some o ∧ ¬ root_owned root o).
Proof.
  intros Hr Hinv s'. pose proof (reclaim_all _ s root (im_wf _ _ _ _ Hinv) (im_root _ _ _ _ Hinv)) as H.
  unfold s'. clear s'. destruct (reclaim_user_address_space root s) as [r s']. cbn [snd].
  replace (({[root]} ∪ roots) ∖ {[root]}) with roots in H by set_solver.
  destruct H as (Hpw & Hk & Hmem & Hsub & Hdrop & H). split_and!; [done|done| |].
  { intros t i o Ht Ho. destruct (decide (pg_mem s' t i = pg_mem s t i)) as [|Hne]; [done|].
    apply Hmem in Hne. exfalso. apply Ho. left. congruence. }
  intros Hsmall x o. destruct r as [st|err].
  2: { exfalso. destruct H as [_ H]. pose proof (usable_frames_bound _ (pw_frames _ _ (im_wf _ _ _ _ Hinv))). lia. }
  destruct H as (Htab & Hleaf & _). split.
  - intros Hx. split; [by apply Hsub|]. intros [->| ->]; pose proof (Hsub _ _ Hx) as Hx'.
    + destruct (im_placed _ _ _ _ Hinv x Hx') as (p & Hp & Hat). by rewrite (Htab p x Hp Hat) in Hx.
    + destruct (im_owned _ _ _ _ Hinv x Hsmall Hx') as (va & u & w & Hva & Htr). by apply (Hleaf va x u w Hva Htr) in Hx.
  - intros [Hx Hno]. destruct (Hdrop x o Hx) as [|Hro]; [done|]. by destruct Hno.
Qed.

Lemma no_orphans_filled roots root s s' : no_orphans roots s → filled roots root s s' → no_orphans ({[root]} ∪ roots) s'.
Proof.
  intros Hno Hf x o r Hx Hro. destruct (fl_new _ _ _ _ Hf x o Hx) as [Hx'|Hro'].
  - apply elem_of_union_r. by apply (Hno x o r).
  - assert (r = root) as ->; [|set_solver]. unfold root_owned, owner_page_table, owner_process_memory in *. naive_solver.
Qed.

Section load.
Context (roots : gset Z) (s : Paging) (cr3 : Z) (bytes : list byte).
Hypothesis Hpw : paging_wf roots s.
Hypothesis Hno : no_orphans roots s.
Hypothesis Hact : active_ok cr3 s.
Hypothesis Hbytes : Forall is_byte bytes.
Hypothesis Hlen : is_u64 (Z.of_nat (length bytes)).

Lemma load_ok image s' : load cr3 bytes s = (Ok image, s') →
  let root := ui_cr3 image in
  ∃ e, elf_parse bytes = Ok e ∧ image = mkUserImage root (elf_entry e) USER_STACK_TOP ∧ (root ∉ roots) ∧
    Forall (segment_ok bytes) (load_headers e) ∧ ¬ overlapping (program_views bytes e) ∧
    filled roots root s s' ∧ image_inv ({[root]} ∪ roots) root (program_view bytes e) s'.
Proof using All.
  unfold load, rbind, rlift, with_error. destruct (elf_parse bytes) as [e|pe] eqn:Hparse; cbn [map_err]; [|done].
  destruct (new_from_active_kernel_mappings cr3 s) as [[space|me] s1] eqn:Hnew; cbn [map_err]; [|done].
  destruct (new_space_inv roots s cr3 space s1 Hpw Hno Hact Hnew) as (Hr & Hinv & Hf1).
  destruct (elf_parse_ok bytes e Hbytes Hparse) as [_ He].
  pose proof (load_into_spec _ space bytes e Hbytes Hlen He s1 Hinv) as H.
  destruct (load_into_address_space bytes space e s1) as [[image'|err] s2]; [|done]. intros [= -> ->].
  destruct H as (Hf2 & -> & Hok & Hap & Hi). cbn [ui_cr3]. exists e. split_and!; try done.
  eapply filled_trans; [exact Hf1|]. eapply filled_subset; [|exact Hf2]. set_solver.
Qed.

Lemma load_err err s' : load cr3 bytes s = (Err err, s') →
  (∃ pe, err = LoadElf pe ∧ elf_parse bytes = Err pe ∧ s' = s) ∨
  (err = LoadAddressSpace OutOfFrames ∧ out_of_frames (pg_frames s) ∧ pg_mem s' = pg_mem s ∧
   paging_wf roots s' ∧ owners (pg_frames s') = owners (pg_frames s)) ∨
  ∃ e root img s1, elf_parse bytes = Ok e ∧ (root ∉ roots) ∧ load_reason roots root bytes e s err ∧
    filled roots root s s1 ∧ image_inv ({[root]} ∪ roots) root img s1 ∧
    s' = (reclaim_user_address_space root s1).2.
Proof using All.
  unfold load, rbind, rlift, with_error. destruct (elf_parse bytes) as [e|pe] eqn:Hparse; cbn [map_err].
  2: { intros [= <- <-]. left. eauto. }
  pose proof (new_address_space_effect roots s cr3 Hpw Hact) as Hns.
  destruct (new_from_active_kernel_mappings cr3 s) as [[space|me] s1] eqn:Hnew; cbn [map_err].
  2: { intros [= <- <-]. right; left. destruct Hns as (-> & ? & ? & ? & ? & _). done. }
  destruct (new_space_inv roots s cr3 space s1 Hpw Hno Hact Hnew) as (Hr & Hinv & Hf1).
  destruct (elf_parse_ok bytes e Hbytes Hparse) as [_ He].
  pose proof (load_into_spec _ space bytes e Hbytes Hlen He s1 Hinv) as H.
  destruct (load_into_address_space bytes space e s1) as [[image'|err'] s2]; [done|]. intros [= -> <-].
  destruct H as (Hf2 & [img Hi] & Hreason). right; right.
  assert (Hf2' : filled roots (frame_start (as_root_frame space)) s1 s2) by (eapply filled_subset; [|exact Hf2]; set_solver).
  exists e, (frame_start (as_root_frame space)), img, s2. split_and!; try done; [|by eapply filled_trans].
  destruct Hreason as [?|[?|[? (s3 & Hf3 & Hout)]]]; [by left|by right; left|]. right; right. split; [done|].
  exists s3. split; [|done]. eapply filled_trans; [exact Hf1|]. eapply filled_subset; [|exact Hf3]. set_solver.
Qed.
End load.

(** C27: a loaded program finds exactly its file in memory. When [load] succeeds on
    well-formed address spaces, with every frame of tables and process memory belonging
    to one of them, the file is a valid executable whose segments lie in the file, below the limit of
    user addresses and apart from each other and the stack; in the new address space
    the processor shows, at every address of a segment, the byte of the file, or zero
    beyond the file's part, writable as the segment says, zeros at every address of
    the stack, and nothing anywhere else. All other address spaces keep their
    translations, and memory of other owners is untouched. *)
Theorem load_maps_program roots s cr3 bytes image s' :
  paging_wf roots s → no_orphans roots s → active_ok cr3 s →
  Forall is_byte bytes → is_u64 (Z.of_nat (length bytes)) →
  load cr3 bytes s = (Ok image, s') →
  let root := ui_cr3 image in
  ∃ e, elf_parse bytes = Ok e ∧ image = mkUserImage root (elf_entry e) USER_STACK_TOP ∧ (root ∉ roots) ∧
    Forall (segment_ok bytes) (load_headers e) ∧ ¬ overlapping (program_views bytes e) ∧
    paging_wf ({[root]} ∪ roots) s' ∧ no_orphans ({[root]} ∪ roots) s' ∧ filled roots root s s' ∧
    (∀ v va x, v ∈ program_views bytes e → user_address va → v va = Some x →
       user_view (pg_mem s') root va = Some x) ∧
    (∀ va, user_address va → (∀ v, v ∈ program_views bytes e → v va = None) →
       user_view (pg_mem s') root va = None).
Proof.
  intros Hpw Hno Hact Hb Hl Hload root.
  destruct (load_ok roots s cr3 bytes Hpw Hno Hact Hb Hl image s' Hload) as (e & Hp & Him & Hr & Hok & Hap & Hf & Hi).
  fold root in Him, Hr, Hf, Hi. exists e.
  split_and!; try done; [apply Hi|by eapply no_orphans_filled|..].
  - intros v va x Hv Hva Hx. rewrite (im_view _ _ _ _ Hi) by done. apply list_elem_of_lookup in Hv as [i Hi'].
    by eapply joined_part.
  - intros va Hva Hnone. rewrite (im_view _ _ _ _ Hi) by done.
    destruct (program_view bytes e va) as [x|] eqn:Hx; [|done].
    destruct (joined_is_Some (program_views bytes e) va) as (i & v & Hv & [y Hy]); [by eexists|].
    rewrite Hnone in Hy; [done|]. by eapply list_elem_of_lookup_2.
Qed.

(** What a failed load leaves. *)
Lemma load_failure_spec roots s cr3 bytes err s' :
  paging_wf roots s → no_orphans roots s → active_ok cr3 s →
  Forall is_byte bytes → is_u64 (Z.of_nat (length bytes)) →
  (usable_frames (pg_frames s) ≤ Z.of_nat FREE_STACK_CAPACITY)%Z →
  load cr3 bytes s = (Err err, s') →
  owners (pg_frames s') = owners (pg_frames s) ∧ paging_wf roots s' ∧
  (∀ r va, r ∈ roots → user_address va → translate (pg_mem s') r va = translate (pg_mem s) r va) ∧
  (∀ t i, is_Some (owners (pg_frames s) !! t) → pg_mem s' t i = pg_mem s t i) ∧
  ((∃ pe, err = LoadElf pe ∧ elf_parse bytes = Err pe) ∨
   (err = LoadAddressSpace OutOfFrames ∧ out_of_frames (pg_frames s)) ∨
   ∃ e root, elf_parse bytes = Ok e ∧ load_reason roots root bytes e s err).
Proof.
  intros Hpw Hno Hact Hb Hl Hsmall Hload.
  destruct (load_err roots s cr3 bytes Hpw Hno Hact Hb Hl err s' Hload)
    as [(pe & -> & Hp & ->)|[(-> & Hout & Hm & Hpw' & Ho)|(e & root & img & s1 & Hp & Hr & Hre & Hf & Hi & ->)]].
  - split_and!; try done. left. eauto.
  - rewrite Hm. split_and!; try done. right; left. done.
  - destruct (reclaim_image roots root img s1 Hr Hi) as (Hpw' & Hk & Hmem & Hown).
    rewrite (usable_frames_same (pg_frames s) (pg_frames s1)) in Hown by apply Hf. specialize (Hown Hsmall).
    assert (Hother : ∀ x o, owners (pg_frames s) !! x = Some o → ¬ root_owned root o).
    { intros x o Hx Hro. apply Hr. by apply (Hno x o root). }
    split_and!; [|done| | |by right; right; eauto].
    + apply map_eq. intros x. apply option_eq. intros o. rewrite Hown. split.
      * intros [Hx Hn]. by destruct (fl_new _ _ _ _ Hf x o Hx).
      * intros Hx. split; [by apply (fl_owners _ _ _ _ Hf)|by eapply Hother].
    + intros r va Hr' Hva. rewrite (ok_translate _ _ _ _ _ Hk) by tauto.
      apply (ok_translate _ _ _ _ _ (fl_others _ _ _ _ Hf)); [done|done|]. by intros [-> _].
    + intros t i [o Ht]. rewrite (Hmem t i o); [|by apply (fl_owners _ _ _ _ Hf)|by eapply Hother].
      apply (fl_mem _ _ _ _ Hf t i o); [done|by eapply Hother].
Qed.

(** C28: a failed load leaves no trace. When [load] fails, on a machine that has no
    more frames than the stack of recycled frames holds, every frame has the owner
    it had before, all address spaces keep their translations and no memory in use
    changed; and it fails only for a reason: the file is not a valid executable, a
    segment lies outside of the file or of user memory, two segments or a segment
    and the stack overlap, or no frame was left. *)
Theorem load_failure_undone roots s cr3 bytes err s' :
  paging_wf roots s → no_orphans roots s → active_ok cr3 s →
  Forall is_byte bytes → is_u64 (Z.of_nat (length bytes)) →
  (usable_frames (pg_frames s) ≤ Z.of_nat FREE_STACK_CAPACITY)%Z →
  load cr3 bytes s = (Err err, s') →
  owners (pg_frames s') = owners (pg_frames s) ∧ paging_wf roots s' ∧
  (∀ r va, r ∈ roots → user_address va → translate (pg_mem s') r va = translate (pg_mem s) r va) ∧
  (∀ t i, is_Some (owners (pg_frames s) !! t) → pg_mem s' t i = pg_mem s t i) ∧
  ((∃ pe, err = LoadElf pe ∧ elf_parse bytes = Err pe) ∨
   (err = LoadAddressSpace OutOfFrames ∧ out_of_frames (pg_frames s)) ∨
   ∃ e root, elf_parse bytes = Ok e ∧ load_reason roots root bytes e s err).
Proof. apply load_failure_spec. Qed.

(** * A program *)

(** Thirty-two frames. *)
Definition loader_map : list (option MemmapEntry) := [Some (mkMemmapEntry 0x1000 0x20000 MEMMAP_USABLE)].
Definition loader_machine : Paging := mkPaging (λ _ _, 0%Z) (boot_allocator loader_map).

(** An executable with one read-only segment of three bytes at [vaddr]. *)
Definition tiny_elf (vaddr : Z) : list byte :=
  ELF_MAGIC ++ [2; 1; 1; 0]%Z ++ replicate 8 0%Z ++
  le_bytes 2 2 ++ le_bytes 2 0x3e ++ le_bytes 4 1 ++ le_bytes 8 vaddr ++ le_bytes 8 64 ++ le_bytes 8 0 ++
  le_bytes 4 0 ++ le_bytes 2 64 ++ le_bytes 2 56 ++ le_bytes 2 1 ++ replicate 6 0%Z ++
  le_bytes 4 1 ++ le_bytes 4 5 ++ le_bytes 8 120 ++ le_bytes 8 vaddr ++ le_bytes 8 0 ++ le_bytes 8 3 ++
  le_bytes 8 0x1001 ++ le_bytes 8 0x1000 ++
  [144; 235; 254]%Z.
Definition tiny_header (vaddr : Z) : ProgramHeader := mkProgramHeader 1 5 120 vaddr 3 0x1001.

Definition tiny_loaded : Paging := (load boot_cr3 (tiny_elf 0x400000) loader_machine).2.
Definition kernel_segment : list byte := tiny_elf USER_CANONICAL_LIMIT.
Definition tiny_refused : Paging := (load boot_cr3 kernel_segment loader_machine).2.
Definition tiny_image : UserImage := mkUserImage 0x1000 0x400000 USER_STACK_TOP.

Lemma loader_map_ok : memmap_ok loader_map.
Proof.
  split.
  - intros i e H. unfold PHYSICAL_LIMIT. destruct i as [|i]; [by simplify_eq/=|done].
  - intros i j e f Hi Hj Hne. destruct i as [|i], j as [|j]; done.
Qed.

Lemma loader_machine_wf : paging_wf ∅ loader_machine.
Proof.
  split; [|intros q Hq; set_solver].
  apply (st_inv _ _ (boot_allocator_starting loader_map loader_map_ok ltac:(vm_compute; reflexivity))).
Qed.

Lemma loader_machine_owners : owners (pg_frames loader_machine) = ∅.
Proof. vm_compute. reflexivity. Qed.

Lemma loader_machine_no_orphans : no_orphans ∅ loader_machine.
Proof. intros x o r Hx. rewrite loader_machine_owners in Hx. done. Qed.

Lemma loader_machine_active : active_ok boot_cr3 loader_machine.
Proof. right. vm_compute. reflexivity. Qed.

Lemma loader_machine_small : (usable_frames (pg_frames loader_machine) ≤ Z.of_nat FREE_STACK_CAPACITY)%Z.
Proof. vm_compute. discriminate. Qed.

Lemma tiny_bytes vaddr : Forall is_byte (tiny_elf vaddr) ∧ is_u64 (Z.of_nat (length (tiny_elf vaddr))).
Proof.
  split; [|by split].
  assert (Hle : ∀ n v, Forall is_byte (le_bytes n v)).
  { induction n as [|n IH]; intros v; constructor; [apply Z.mod_pos_bound; lia|apply IH]. }
  unfold tiny_elf, ELF_MAGIC. repeat (apply Forall_app; split); try apply Hle; try (by apply Forall_replicate);
    repeat (apply Forall_nil_2 || (apply Forall_cons; split; [done|])).
Qed.

Lemma tiny_load : load boot_cr3 (tiny_elf 0x400000) loader_machine = (Ok tiny_image, tiny_loaded).
Proof.
  unfold tiny_loaded. rewrite (surjective_pairing (load _ _ _)) at 1. apply (f_equal2 pair); [vm_compute|]; reflexivity.
Qed.

Lemma tiny_refusal : load boot_cr3 kernel_segment loader_machine = (Err BadSegment, tiny_refused).
Proof.
  unfold tiny_refused. rewrite (surjective_pairing (load _ _ _)) at 1. apply (f_equal2 pair); [vm_compute|]; reflexivity.
Qed.

Lemma tiny_parsed e : elf_parse (tiny_elf 0x400000) = Ok e → load_headers e = [tiny_header 0x400000].
Proof. intros H. vm_compute in H. injection H as <-. vm_compute. reflexivity. Qed.

Lemma tiny_header_view : segment_view (tiny_elf 0x400000) (tiny_header 0x400000) 0x400001 = Some (false, 235%Z).
Proof. vm_compute. reflexivity. Qed.

Lemma tiny_text_user : user_address 0x400001.
Proof. unfold user_address, USER_CANONICAL_LIMIT. lia. Qed.

Lemma load_maps_program_witness : user_view (pg_mem tiny_loaded) (ui_cr3 tiny_image) 0x400001 = Some (false, 235%Z).
Proof.
  destruct (load_maps_program ∅ loader_machine boot_cr3 (tiny_elf 0x400000) tiny_image tiny_loaded loader_machine_wf
    loader_machine_no_orphans loader_machine_active (proj1 (tiny_bytes _)) (proj2 (tiny_bytes _)) tiny_load)
    as (e & Hp & _ & _ & _ & _ & _ & _ & _ & Hv & _).
  apply (Hv (segment_view (tiny_elf 0x400000) (tiny_header 0x400000))); [|exact tiny_text_user|exact tiny_header_view].
  unfold program_views. rewrite (tiny_parsed e Hp). constructor.
Defined.

Lemma load_failure_undone_witness : owners (pg_frames tiny_refused) = owners (pg_frames loader_machine).
Proof.
  exact (proj1 (load_failure_undone ∅ loader_machine boot_cr3 kernel_segment BadSegment tiny_refused loader_machine_wf
    loader_machine_no_orphans loader_machine_active (proj1 (tiny_bytes _)) (proj2 (tiny_bytes _)) loader_machine_small
    tiny_refusal)).
Defined.
