(* ===== verification/KernelBase.v ===== *)
(** Identifiers, error types, right bits, status codes and the saved register
    frame shared by the whole kernel model: [kernel/error.rs],
    [kernel/process.rs], [kernel/runtime.rs], the constants of [capability.rs]
    and of [ipc.rs]. *)

From S2P Require Import Prelude.

(** * Identifiers *)

(** [KernelObjectId(u64)], [ProcessId(u64)], [VfsNodeId(u64)] and
    [FileDescriptionId(u64)] are newtypes of [u64]. *)
Abbreviation KernelObjectId := Z (only parsing).
Abbreviation ProcessId := Z (only parsing).
Abbreviation VfsNodeId := Z (only parsing).
Abbreviation FileDescriptionId := Z (only parsing).

(** [ProcessId::empty()]. *)
Definition pid_empty : ProcessId := 0%Z.

Definition BOOT_ENDPOINT_ID : KernelObjectId := 1%Z.
Definition MAX_OBJECTS : nat := 128.
Definition MAX_PROCESSES : nat := 16.
Definition MAX_CAPS : nat := 32.
Definition MAX_FILE_HANDLES : nat := 16.
Definition MAX_OPEN_FILE_DESCRIPTIONS : nat := MAX_PROCESSES * MAX_FILE_HANDLES.
Definition MAX_CAP_LINEAGE : nat := 1024.
Definition MAX_REVOKED_CAPS : nat := MAX_CAP_LINEAGE.
Definition MAX_MESSAGE_BYTES : nat := 512.
Definition MESSAGE_QUEUE_CAPACITY : nat := 4.

(** Comparison of [&'static str]: two names are equal when their bytes are. *)
Definition str_eqb (a b : string) : bool := bool_decide (a = b).

(** * Errors *)

Inductive InitError :=
| ObjectTableFull
| ProcessTableFull
| CapabilityTableFull
| InvalidBootManifest.

Inductive IpcError :=
| BadCapability
| InvalidUserBuffer
| MessageTooLarge
| Empty
| VfsPermission
| VfsBadPath
| VfsNotFound
| VfsNotDirectory
| VfsNotFile
| VfsBusy
| VfsBadHandle
| VfsUnsupported
| VfsNoSpace
| VfsExists.

#[export] Instance InitError_eq_dec : EqDecision InitError.
Proof. solve_decision. Defined.
#[export] Instance IpcError_eq_dec : EqDecision IpcError.
Proof. solve_decision. Defined.

(** * Rights *)

Definition RIGHT_READ : Z := Z.shiftl 1 0.
Definition RIGHT_WRITE : Z := Z.shiftl 1 1.
Definition RIGHT_MAP : Z := Z.shiftl 1 2.
Definition RIGHT_EXECUTE : Z := Z.shiftl 1 3.
Definition RIGHT_SEND : Z := Z.shiftl 1 4.
Definition RIGHT_RECEIVE : Z := Z.shiftl 1 5.
Definition RIGHT_CONTROL : Z := Z.shiftl 1 6.
Definition RIGHT_ALLOCATE : Z := Z.shiftl 1 7.
Definition RIGHT_SNAPSHOT : Z := Z.shiftl 1 8.
Definition RIGHT_RESTORE : Z := Z.shiftl 1 9.
Definition RIGHT_BIND : Z := Z.shiftl 1 10.
Definition RIGHT_LISTEN : Z := Z.shiftl 1 11.
Definition RIGHT_DELEGATE : Z := Z.shiftl 1 12.
Definition RIGHT_REVOKE : Z := Z.shiftl 1 13.
Definition RIGHT_INSPECT : Z := Z.shiftl 1 14.
Definition RIGHT_CREATE : Z := Z.shiftl 1 15.
Definition RIGHT_START : Z := Z.shiftl 1 16.
Definition RIGHT_KILL : Z := Z.shiftl 1 17.
Definition RIGHT_WAIT : Z := Z.shiftl 1 18.
Definition RIGHT_INSPECT_METADATA : Z := Z.shiftl 1 22.
Definition RIGHT_RESOLVE : Z := Z.shiftl 1 23.
Definition RIGHT_UNLINK : Z := Z.shiftl 1 24.
Definition RIGHT_RENAME : Z := Z.shiftl 1 25.
Definition RIGHT_MOUNT : Z := Z.shiftl 1 26.

(** [rights & required == required]. *)
Definition has_rights (rights required : Z) : bool :=
  (Z.land rights required =? required)%Z.

(** [a] carries no right that [b] does not. *)
Definition rights_le (a b : Z) : Prop :=
  ∀ i, (0 ≤ i)%Z → Z.testbit a i = true → Z.testbit b i = true.

#[export] Instance rights_le_preorder : PreOrder rights_le.
Proof. split; [by intros a i|]. intros a b c H1 H2 i Hi Ha. eauto. Qed.

(** [mask == 0 || mask & !rights != 0] is the test every derivation makes. *)
Definition mask_exceeds (mask rights : Z) : bool :=
  (mask =? 0)%Z || negb (Z.land mask (not_u64 rights) =? 0)%Z.

Lemma mask_exceeds_false mask rights :
  is_u64 mask → is_u64 rights → mask_exceeds mask rights = false →
  mask ≠ 0%Z ∧ rights_le mask rights.
Proof.
  unfold mask_exceeds. intros Hm Hr [H0 H1]%orb_false_iff.
  apply negb_false_iff in H1. split; [lia|].
  apply Z.eqb_eq in H1. intros i Hi Hb. by apply (land_not_u64_zero mask).
Qed.

Lemma has_rights_le rights required :
  has_rights rights required = true ↔ rights_le required rights.
Proof.
  unfold has_rights, rights_le. rewrite Z.eqb_eq. split.
  - intros <- i Hi. rewrite Z.land_spec. by intros [??]%andb_true_iff.
  - intros H. apply Z.bits_inj_iff'. intros i Hi. rewrite Z.land_spec.
    destruct (Z.testbit required i) eqn:Hb; [by rewrite H|by rewrite andb_false_r].
Qed.

(** * Status codes *)

Definition STATUS_OK : Z := 0.
Definition STATUS_BAD_CAPABILITY : Z := u64_max - 1.
Definition STATUS_BAD_BUFFER : Z := u64_max - 2.
Definition STATUS_TIMEOUT : Z := u64_max - 9.
Definition STATUS_PROCESS_FAULT : Z := u64_max - 10.
Definition STATUS_VFS_BAD_HANDLE : Z := u64_max - 38.
Definition STATUS_VFS_UNSUPPORTED : Z := u64_max - 39.

(** * Processor context *)

Record ProcessContext := mkProcessContext {
  cr3 : Z;
  entry : Z;
  stack_top : Z
}.

Record SyscallFrame := mkSyscallFrame {
  r15 : Z; r14 : Z; r13 : Z; r12 : Z; r11 : Z; r10 : Z; r9 : Z; r8 : Z;
  rsi : Z; rdi : Z; rbp : Z; rdx : Z; rcx : Z; rbx : Z;
  rax : Z;
  user_rip : Z; user_cs : Z; user_rflags : Z; user_rsp : Z; user_ss : Z
}.
#[export] Instance eta_SyscallFrame : Eta SyscallFrame := λ f,
  mkSyscallFrame (r15 f) (r14 f) (r13 f) (r12 f) (r11 f) (r10 f) (r9 f) (r8 f)
    (rsi f) (rdi f) (rbp f) (rdx f) (rcx f) (rbx f) (rax f)
    (user_rip f) (user_cs f) (user_rflags f) (user_rsp f) (user_ss f).

(** [SyscallFrame::empty()]. *)
Definition frame_empty : SyscallFrame :=
  mkSyscallFrame 0 0 0 0 0 0 0 0 0 0 0 0 0 0 0 0 0 0 0 0.

Definition INITIAL_USER_RFLAGS : Z := 514.

(** [gdt::USER_DATA_SELECTOR] and [gdt::USER_CODE_SELECTOR]. *)
Definition USER_DATA_SELECTOR : Z := 27.
Definition USER_CODE_SELECTOR : Z := 35.

(** [SyscallFrame::from_context]. *)
Definition from_context (context : ProcessContext) : SyscallFrame :=
  frame_empty
    <| user_rip := entry context |>
    <| user_cs := USER_CODE_SELECTOR |>
    <| user_rflags := INITIAL_USER_RFLAGS |>
    <| user_rsp := stack_top context |>
    <| user_ss := USER_DATA_SELECTOR |>.

(** [ScheduleResult]. *)
Inductive ScheduleResult :=
| Continue
| Switched
| Halt (ok : bool).
