(* ===== verification/Transport.v ===== *)
(** The IPC message queue and endpoint ([kernel/transport.rs]): bounded arrays
    of fixed-size messages, refined to plain lists of messages. *)

From S2P Require Import Prelude KernelBase.

(** * Data *)

Record IpcMessage := mkIpcMessage {
  msg_sender : ProcessId;
  msg_len : nat;
  msg_bytes : list byte
}.
#[export] Instance eta_IpcMessage : Eta IpcMessage := λ m,
  mkIpcMessage (msg_sender m) (msg_len m) (msg_bytes m).

(** [IpcMessage::empty]. *)
Definition msg_empty : IpcMessage :=
  mkIpcMessage pid_empty 0 (replicate MAX_MESSAGE_BYTES 0%Z).

Definition byte_at (l : list byte) (i : nat) : Z := default 0%Z (l !! i).

(** [IpcMessage::u64_le_at]. [usize::saturating_add] only differs from [+] for
    offsets above [usize::MAX - 8], where both tests reject. *)
Definition u64_le_at (m : IpcMessage) (offset : nat) : option Z :=
  if msg_len m <? offset + 8 then None
  else Some
    (Z.lor (Z.lor (Z.lor (Z.lor (Z.lor (Z.lor (Z.lor
      (byte_at (msg_bytes m) offset)
      (Z.shiftl (byte_at (msg_bytes m) (offset + 1)) 8))
      (Z.shiftl (byte_at (msg_bytes m) (offset + 2)) 16))
      (Z.shiftl (byte_at (msg_bytes m) (offset + 3)) 24))
      (Z.shiftl (byte_at (msg_bytes m) (offset + 4)) 32))
      (Z.shiftl (byte_at (msg_bytes m) (offset + 5)) 40))
      (Z.shiftl (byte_at (msg_bytes m) (offset + 6)) 48))
      (Z.shiftl (byte_at (msg_bytes m) (offset + 7)) 56)).

Record MessageQueue := mkMessageQueue {
  q_messages : list IpcMessage;
  q_len : nat
}.
#[export] Instance eta_MessageQueue : Eta MessageQueue := λ q,
  mkMessageQueue (q_messages q) (q_len q).

(** * Queue operations *)

(** [MessageQueue::empty]. *)
Definition queue_empty : MessageQueue :=
  mkMessageQueue (replicate MESSAGE_QUEUE_CAPACITY msg_empty) 0.

(** The message [enqueue] builds: [bytes[..len]] copied over zeroes. *)
Definition queued_message (sender : ProcessId) (bytes : list byte) (len : nat) : IpcMessage :=
  msg_empty
    <| msg_sender := sender |>
    <| msg_len := len |>
    <| msg_bytes := take len bytes ++ drop len (msg_bytes msg_empty) |>.

(** [MessageQueue::enqueue]. *)
Definition queue_enqueue (q : MessageQueue) (sender : ProcessId) (bytes : list byte)
    (len : nat) : Result IpcError unit * MessageQueue :=
  if q_len q =? MESSAGE_QUEUE_CAPACITY then (Err MessageTooLarge, q)
  else
    (Ok tt,
     q <| q_messages := <[q_len q := queued_message sender bytes len]> (q_messages q) |>
       <| q_len := S (q_len q) |>).

(** [MessageQueue::remove_at]. *)
Definition queue_remove_at (q : MessageQueue) (index : nat) : IpcMessage * MessageQueue :=
  let message := default msg_empty (q_messages q !! index) in
  let shifted := shift_down (q_messages q) index (q_len q - 1 - index) in
  let len := q_len q - 1 in
  (message, mkMessageQueue (<[len := msg_empty]> shifted) len).

Definition queue_remove_first (p : IpcMessage → bool) (q : MessageQueue) :
    option IpcMessage * MessageQueue :=
  match first_index p (q_messages q) (q_len q) with
  | Some index => let '(m, q') := queue_remove_at q index in (Some m, q')
  | None => (None, q)
  end.

(** [self.messages[index].sender != receiver]. *)
Definition eligible (receiver : ProcessId) (m : IpcMessage) : bool :=
  negb (msg_sender m =? receiver)%Z.

(** [... && self.messages[index].u64_le_at(0) == Some(transaction_id)]. *)
Definition transaction_is (transaction_id : Z) (m : IpcMessage) : bool :=
  bool_decide (u64_le_at m 0 = Some transaction_id).

(** [MessageQueue::has_message_for]. *)
Definition queue_has_message_for (q : MessageQueue) (receiver : ProcessId) : bool :=
  bool_decide (is_Some (first_index (eligible receiver) (q_messages q) (q_len q))).

(** [MessageQueue::dequeue_for]. *)
Definition queue_dequeue_for (q : MessageQueue) (receiver : ProcessId) :
    option IpcMessage * MessageQueue :=
  queue_remove_first (eligible receiver) q.

(** [MessageQueue::has_transaction_reply_for]. *)
Definition queue_has_transaction_reply_for (q : MessageQueue) (receiver : ProcessId)
    (transaction_id : Z) : bool :=
  bool_decide (is_Some (first_index
    (λ m, eligible receiver m && transaction_is transaction_id m)
    (q_messages q) (q_len q))).

(** [MessageQueue::dequeue_transaction_reply_for]. *)
Definition queue_dequeue_transaction_reply_for (q : MessageQueue) (receiver : ProcessId)
    (transaction_id : Z) : option IpcMessage * MessageQueue :=
  queue_remove_first (λ m, eligible receiver m && transaction_is transaction_id m) q.

(** [MessageQueue::remove_transaction_from_sender]. *)
Definition queue_remove_transaction_from_sender (q : MessageQueue) (sender : ProcessId)
    (transaction_id : Z) : bool * MessageQueue :=
  match queue_remove_first
          (λ m, (msg_sender m =? sender)%Z && transaction_is transaction_id m) q with
  | (Some _, q') => (true, q')
  | (None, q') => (false, q')
  end.

(** The loop of [MessageQueue::remove_all_from_sender]: the index only moves
    when nothing was removed, so [len - index] decreases and [len] rounds of
    fuel are enough. *)
Fixpoint remove_all_loop (fuel : nat) (sender : ProcessId) (q : MessageQueue)
    (index removed : nat) : nat * MessageQueue :=
  match fuel with
  | 0 => (removed, q)
  | S fuel' =>
      if index <? q_len q then
        if (msg_sender (default msg_empty (q_messages q !! index)) =? sender)%Z then
          remove_all_loop fuel' sender (queue_remove_at q index).2 index (S removed)
        else remove_all_loop fuel' sender q (S index) removed
      else (removed, q)
  end.

(** [MessageQueue::remove_all_from_sender]. *)
Definition queue_remove_all_from_sender (q : MessageQueue) (sender : ProcessId) :
    nat * MessageQueue :=
  remove_all_loop (q_len q) sender q 0 0.

(** [MessageQueue::dequeue_fifo]. *)
Definition queue_dequeue_fifo (q : MessageQueue) : option IpcMessage * MessageQueue :=
  if q_len q =? 0 then (None, q)
  else let '(m, q') := queue_remove_at q 0 in (Some m, q').

(** * Endpoints *)

Record IpcEndpoint := mkIpcEndpoint {
  ep_id : KernelObjectId;
  ep_name : string;
  ep_owner : ProcessId;
  ep_queue : MessageQueue
}.
#[export] Instance eta_IpcEndpoint : Eta IpcEndpoint := λ e,
  mkIpcEndpoint (ep_id e) (ep_name e) (ep_owner e) (ep_queue e).

(** [IpcEndpoint::new]. *)
Definition endpoint_new (id : KernelObjectId) (name : string) (owner : ProcessId) : IpcEndpoint :=
  mkIpcEndpoint id name owner queue_empty.

(** [IpcEndpoint::enqueue]. *)
Definition endpoint_enqueue (e : IpcEndpoint) (sender : ProcessId) (bytes : list byte)
    (len : nat) : Result IpcError unit * IpcEndpoint :=
  let '(r, q) := queue_enqueue (ep_queue e) sender bytes len in
  (r, e <| ep_queue := q |>).

(** [IpcEndpoint::has_message_for]. *)
Definition endpoint_has_message_for (e : IpcEndpoint) (receiver : ProcessId) : bool :=
  queue_has_message_for (ep_queue e) receiver.

(** [IpcEndpoint::dequeue_for]. *)
Definition endpoint_dequeue_for (e : IpcEndpoint) (receiver : ProcessId) :
    option IpcMessage * IpcEndpoint :=
  let '(m, q) := queue_dequeue_for (ep_queue e) receiver in
  (m, e <| ep_queue := q |>).

(** [IpcEndpoint::has_vfs_state_reply_for], [IpcEndpoint::dequeue_vfs_state_reply_for]. *)
Definition endpoint_has_vfs_state_reply_for (e : IpcEndpoint) (receiver : ProcessId)
    (transaction_id : Z) : bool :=
  queue_has_transaction_reply_for (ep_queue e) receiver transaction_id.
Definition endpoint_dequeue_vfs_state_reply_for (e : IpcEndpoint) (receiver : ProcessId)
    (transaction_id : Z) : option IpcMessage * IpcEndpoint :=
  let '(m, q) := queue_dequeue_transaction_reply_for (ep_queue e) receiver transaction_id in
  (m, e <| ep_queue := q |>).

(** [IpcEndpoint::remove_vfs_state_request], [IpcEndpoint::remove_all_from_sender];
    their results are only printed. *)
Definition endpoint_remove_vfs_state_request (e : IpcEndpoint) (sender : ProcessId)
    (transaction_id : Z) : IpcEndpoint :=
  e <| ep_queue ::= λ q, (queue_remove_transaction_from_sender q sender transaction_id).2 |>.
Definition endpoint_remove_all_from_sender (e : IpcEndpoint) (sender : ProcessId) : IpcEndpoint :=
  e <| ep_queue ::= λ q, (queue_remove_all_from_sender q sender).2 |>.

(** * Invariant and abstraction *)

(** A message as the kernel stores it. *)
Definition msg_wf (m : IpcMessage) : Prop :=
  length (msg_bytes m) = MAX_MESSAGE_BYTES ∧ msg_len m ≤ MAX_MESSAGE_BYTES.

(** The pending messages, oldest first. *)
Definition queue_contents (q : MessageQueue) : list IpcMessage :=
  take (q_len q) (q_messages q).

Definition queue_wf (q : MessageQueue) : Prop :=
  length (q_messages q) = MESSAGE_QUEUE_CAPACITY ∧
  q_len q ≤ MESSAGE_QUEUE_CAPACITY ∧
  Forall msg_wf (queue_contents q).

(** What a store of messages promises to the IPC layer: a bounded list, oldest
    first, from which a receiver takes the first message it did not send. *)
Class MessageStore (Q : Type) := {
  ms_wf : Q → Prop;
  ms_contents : Q → list IpcMessage;
  ms_enqueue : Q → ProcessId → list byte → nat → Result IpcError unit * Q;
  ms_dequeue_for : Q → ProcessId → option IpcMessage * Q;
  ms_has_message_for : Q → ProcessId → bool;
  ms_bounded q : ms_wf q → length (ms_contents q) ≤ MESSAGE_QUEUE_CAPACITY;
  ms_enqueue_full q s b n :
    ms_wf q → length (ms_contents q) = MESSAGE_QUEUE_CAPACITY →
    ms_enqueue q s b n = (Err MessageTooLarge, q);
  ms_enqueue_ok q s b n :
    ms_wf q → length (ms_contents q) < MESSAGE_QUEUE_CAPACITY →
    n ≤ MAX_MESSAGE_BYTES → length b = MAX_MESSAGE_BYTES →
    ∃ q', ms_enqueue q s b n = (Ok tt, q') ∧ ms_wf q' ∧
          ms_contents q' = ms_contents q ++ [queued_message s b n];
  ms_dequeue_none q r :
    ms_wf q → take_first (eligible r) (ms_contents q) = None →
    ms_dequeue_for q r = (None, q);
  ms_dequeue_some q r m l :
    ms_wf q → take_first (eligible r) (ms_contents q) = Some (m, l) →
    ∃ q', ms_dequeue_for q r = (Some m, q') ∧ ms_wf q' ∧ ms_contents q' = l;
  ms_has_message q r :
    ms_wf q →
    ms_has_message_for q r = bool_decide (is_Some (take_first (eligible r) (ms_contents q)))
}.

(** * Proofs *)

Lemma queue_empty_wf : queue_wf queue_empty ∧ queue_contents queue_empty = [].
Proof. unfold queue_wf, queue_contents; simpl. repeat split; [lia|done]. Qed.

Lemma length_queue_contents q : queue_wf q → length (queue_contents q) = q_len q.
Proof. intros (Hl & Hn & _). unfold queue_contents. rewrite length_take. lia. Qed.

Lemma queued_message_wf s b n :
  n ≤ MAX_MESSAGE_BYTES → length b = MAX_MESSAGE_BYTES → msg_wf (queued_message s b n).
Proof.
  intros Hn Hb. split; [|done]. unfold queued_message, set; simpl msg_bytes.
  rewrite length_app, length_take, length_drop, Hb.
  change (length _) with MAX_MESSAGE_BYTES. lia.
Qed.

(** Deleting one entry of the prefix is what [remove_at] does. *)
Lemma queue_remove_at_spec q i m :
  queue_wf q → queue_contents q !! i = Some m →
  queue_remove_at q i = (m, (queue_remove_at q i).2) ∧
  queue_wf (queue_remove_at q i).2 ∧
  queue_contents (queue_remove_at q i).2 = delete i (queue_contents q).
Proof.
  intros (Hl & Hn & Hall) Hi. unfold queue_contents in Hi.
  apply lookup_take_Some in Hi as [Hi Hlt].
  assert (Hc : queue_contents (queue_remove_at q i).2 = delete i (queue_contents q)).
  { unfold queue_contents at 1; simpl.
    rewrite take_insert_ge by lia. apply take_shift_down; lia. }
  split; [unfold queue_remove_at; by rewrite Hi|]. split; [|done].
  split; [simpl; by rewrite length_insert, length_shift_down|].
  split; [simpl; lia|]. rewrite Hc. by apply Forall_delete.
Qed.

Lemma queue_remove_first_spec p q :
  queue_wf q →
  match take_first p (queue_contents q) with
  | Some (m, l) =>
      ∃ q', queue_remove_first p q = (Some m, q') ∧ queue_wf q' ∧ queue_contents q' = l
  | None => queue_remove_first p q = (None, q)
  end.
Proof.
  intros Hwf. pose proof Hwf as (Hl & Hn & _). unfold queue_remove_first, queue_contents.
  destruct (first_index p (q_messages q) (q_len q)) as [i|] eqn:Hi.
  - pose proof Hi as (Hlt & (m & Hm & _) & _)%first_index_Some.
    rewrite (first_index_take_first _ _ _ _ _ Hi Hm) by lia.
    destruct (queue_remove_at_spec q i m) as (-> & Hwf' & Hc); [done| |].
    { unfold queue_contents. by rewrite lookup_take_lt. }
    eexists. split; [reflexivity|]. split; [exact Hwf'|exact Hc].
  - by rewrite (first_index_take_first_None _ _ _ Hi).
Qed.

Lemma queue_has_first p q :
  queue_wf q →
  bool_decide (is_Some (first_index p (q_messages q) (q_len q))) =
  bool_decide (is_Some (take_first p (queue_contents q))).
Proof.
  intros (Hl & Hn & _). apply bool_decide_ext. unfold queue_contents.
  destruct (first_index p (q_messages q) (q_len q)) as [i|] eqn:Hi.
  - pose proof Hi as (Hlt & (m & Hm & _) & _)%first_index_Some.
    rewrite (first_index_take_first _ _ _ _ _ Hi Hm) by lia. split; eauto.
  - by rewrite (first_index_take_first_None _ _ _ Hi).
Qed.

Lemma queue_enqueue_spec q s b n :
  queue_wf q → q_len q < MESSAGE_QUEUE_CAPACITY →
  n ≤ MAX_MESSAGE_BYTES → length b = MAX_MESSAGE_BYTES →
  ∃ q', queue_enqueue q s b n = (Ok tt, q') ∧ queue_wf q' ∧
        queue_contents q' = queue_contents q ++ [queued_message s b n].
Proof.
  intros Hwf Hlt Hn Hb. pose proof Hwf as (Hl & Hle & Hall).
  unfold queue_enqueue. destruct (Nat.eqb_spec (q_len q) MESSAGE_QUEUE_CAPACITY); [lia|].
  eexists. split; [reflexivity|].
  assert (Hc : take (S (q_len q)) (<[q_len q := queued_message s b n]> (q_messages q)) =
               queue_contents q ++ [queued_message s b n]).
  { rewrite (take_S_r _ _ (queued_message s b n)) by (apply list_lookup_insert_eq; lia).
    by rewrite take_insert_ge by lia. }
  split; [|exact Hc]. split; [cbn; by rewrite length_insert|]. split; [cbn; lia|].
  unfold queue_contents at 1; cbn -[take]. rewrite Hc. apply Forall_app. split; [done|].
  by apply Forall_singleton, queued_message_wf.
Qed.

#[export, refine] Instance queue_store : MessageStore MessageQueue := {|
  ms_wf := queue_wf;
  ms_contents := queue_contents;
  ms_enqueue := queue_enqueue;
  ms_dequeue_for := queue_dequeue_for;
  ms_has_message_for := queue_has_message_for
|}.
Proof.
  - intros q Hwf. rewrite length_queue_contents by done. apply Hwf.
  - intros q s b n Hwf Hfull. rewrite length_queue_contents in Hfull by done.
    unfold queue_enqueue. by rewrite Hfull.
  - intros q s b n Hwf Hlt Hn Hb. rewrite length_queue_contents in Hlt by done.
    by apply queue_enqueue_spec.
  - intros q r Hwf H. pose proof (queue_remove_first_spec (eligible r) q Hwf) as Hs.
    by rewrite H in Hs.
  - intros q r m l Hwf H. pose proof (queue_remove_first_spec (eligible r) q Hwf) as Hs.
    by rewrite H in Hs.
  - intros q r Hwf. by apply queue_has_first.
Defined.

Definition endpoint_wf (e : IpcEndpoint) : Prop := queue_wf (ep_queue e).

#[export, refine] Instance endpoint_store : MessageStore IpcEndpoint := {|
  ms_wf := endpoint_wf;
  ms_contents e := queue_contents (ep_queue e);
  ms_enqueue := endpoint_enqueue;
  ms_dequeue_for := endpoint_dequeue_for;
  ms_has_message_for := endpoint_has_message_for
|}.
Proof.
  - intros e Hwf. exact (@ms_bounded _ queue_store (ep_queue e) Hwf).
  - intros e s b n Hwf Hfull. unfold endpoint_enqueue.
    pose proof (@ms_enqueue_full _ queue_store (ep_queue e) s b n Hwf Hfull) as H; simpl in H.
    rewrite H. by destruct e.
  - intros e s b n Hwf Hlt Hn Hb.
    destruct (@ms_enqueue_ok _ queue_store (ep_queue e) s b n Hwf Hlt Hn Hb) as (q' & H & ? & ?).
    unfold endpoint_enqueue. simpl in H. rewrite H. eauto.
  - intros e r Hwf H. unfold endpoint_dequeue_for.
    pose proof (@ms_dequeue_none _ queue_store (ep_queue e) r Hwf H) as Hd; simpl in Hd.
    rewrite Hd. by destruct e.
  - intros e r m l Hwf H.
    destruct (@ms_dequeue_some _ queue_store (ep_queue e) r m l Hwf H) as (q' & Hd & ? & ?).
    unfold endpoint_dequeue_for. simpl in Hd. rewrite Hd. eauto.
  - intros e r Hwf. exact (@ms_has_message _ queue_store (ep_queue e) r Hwf).
Defined.

(** The loop of [remove_all_from_sender] is a filter: entries before [index]
    are kept, and the removed ones are counted. *)
Lemma remove_all_loop_spec fuel sender q index removed :
  queue_wf q → q_len q - index ≤ fuel → index ≤ q_len q →
  Forall (λ m, (msg_sender m =? sender)%Z = false) (take index (queue_contents q)) →
  let '(n, q') := remove_all_loop fuel sender q index removed in
  queue_wf q' ∧
  queue_contents q' = filter (λ m, (msg_sender m =? sender)%Z = false) (queue_contents q) ∧
  n + length (queue_contents q') = removed + length (queue_contents q).
Proof.
  revert q index removed; induction fuel as [|fuel IH];
    intros q index removed Hwf Hfuel Hle Hpre; cbn [remove_all_loop].
  - assert (index = q_len q) as -> by lia.
    rewrite <-(length_queue_contents q) in Hpre by done. rewrite take_ge in Hpre by lia.
    split; [done|]. split; [|lia]. symmetry. by apply filter_all.
  - destruct (Nat.ltb_spec index (q_len q)) as [Hlt|Hge].
    2:{ assert (index = q_len q) as -> by lia.
        rewrite <-(length_queue_contents q) in Hpre by done. rewrite take_ge in Hpre by lia.
        split; [done|]. split; [|lia]. symmetry. by apply filter_all. }
    destruct (lookup_lt_is_Some_2 (queue_contents q) index) as [m Hm];
      [by rewrite length_queue_contents|].
    pose proof Hm as Hm'. unfold queue_contents in Hm'.
    apply lookup_take_Some in Hm' as [Hm' _]. rewrite Hm'; simpl default.
    destruct (msg_sender m =? sender)%Z eqn:Hs.
    + destruct (queue_remove_at_spec q index m Hwf Hm) as (_ & Hwf' & Hc).
      specialize (IH (queue_remove_at q index).2 index (S removed) Hwf').
      destruct (remove_all_loop fuel sender _ index (S removed)) as [n q'].
      destruct IH as (Hw & Hcont & Hn).
      { simpl. lia. }
      { simpl. lia. }
      { rewrite Hc, delete_take_drop, take_app_le
          by (rewrite length_take, length_queue_contents by done; lia).
        by rewrite take_take, Nat.min_id. }
      split; [done|]. rewrite Hc in Hcont, Hn. rewrite length_delete in Hn by eauto.
      split; [|rewrite Hn; apply lookup_lt_Some in Hm; lia].
      rewrite Hcont, delete_take_drop, filter_app.
      rewrite <-(take_drop_middle _ _ _ Hm) at 3.
      rewrite filter_app, filter_cons_False by congruence. done.
    + specialize (IH q (S index) removed Hwf).
      destruct (remove_all_loop fuel sender q (S index) removed) as [n q'].
      apply IH; [lia..|].
      rewrite (take_S_r _ _ m) by done. apply Forall_app. split; [done|].
      by apply Forall_singleton.
Qed.

(** * Refinement to a list of messages *)

(** One call on a queue, and what it returns. *)
Inductive QueueOp :=
| OpEnqueue (sender : ProcessId) (bytes : list byte) (len : nat)
| OpDequeueFor (receiver : ProcessId)
| OpHasMessageFor (receiver : ProcessId)
| OpDequeueReply (receiver : ProcessId) (transaction_id : Z)
| OpHasReply (receiver : ProcessId) (transaction_id : Z)
| OpRemoveTransaction (sender : ProcessId) (transaction_id : Z)
| OpRemoveAll (sender : ProcessId)
| OpDequeueFifo.

Inductive QueueAnswer :=
| AnsResult (r : Result IpcError unit)
| AnsMessage (m : option IpcMessage)
| AnsBool (b : bool)
| AnsCount (n : nat).

(** What the kernel does. *)
Definition queue_step (q : MessageQueue) (op : QueueOp) : QueueAnswer * MessageQueue :=
  match op with
  | OpEnqueue s b n => let '(r, q') := queue_enqueue q s b n in (AnsResult r, q')
  | OpDequeueFor r => let '(m, q') := queue_dequeue_for q r in (AnsMessage m, q')
  | OpHasMessageFor r => (AnsBool (queue_has_message_for q r), q)
  | OpDequeueReply r t =>
      let '(m, q') := queue_dequeue_transaction_reply_for q r t in (AnsMessage m, q')
  | OpHasReply r t => (AnsBool (queue_has_transaction_reply_for q r t), q)
  | OpRemoveTransaction s t =>
      let '(b, q') := queue_remove_transaction_from_sender q s t in (AnsBool b, q')
  | OpRemoveAll s => let '(n, q') := queue_remove_all_from_sender q s in (AnsCount n, q')
  | OpDequeueFifo => let '(m, q') := queue_dequeue_fifo q in (AnsMessage m, q')
  end.

(** The contract: a list, oldest first, of at most four messages. *)
Definition remove_first_spec (p : IpcMessage → bool) (l : list IpcMessage) :
    option IpcMessage * list IpcMessage :=
  match take_first p l with Some (m, l') => (Some m, l') | None => (None, l) end.

Definition spec_step (l : list IpcMessage) (op : QueueOp) : QueueAnswer * list IpcMessage :=
  match op with
  | OpEnqueue s b n =>
      if length l =? MESSAGE_QUEUE_CAPACITY then (AnsResult (Err MessageTooLarge), l)
      else (AnsResult (Ok tt), l ++ [queued_message s b n])
  | OpDequeueFor r =>
      let '(m, l') := remove_first_spec (eligible r) l in (AnsMessage m, l')
  | OpHasMessageFor r => (AnsBool (bool_decide (is_Some (take_first (eligible r) l))), l)
  | OpDequeueReply r t =>
      let '(m, l') := remove_first_spec (λ m, eligible r m && transaction_is t m) l in
      (AnsMessage m, l')
  | OpHasReply r t =>
      (AnsBool (bool_decide (is_Some
         (take_first (λ m, eligible r m && transaction_is t m) l))), l)
  | OpRemoveTransaction s t =>
      let '(m, l') :=
        remove_first_spec (λ m, (msg_sender m =? s)%Z && transaction_is t m) l in
      (AnsBool (bool_decide (is_Some m)), l')
  | OpRemoveAll s =>
      let l' := filter (λ m, (msg_sender m =? s)%Z = false) l in
      (AnsCount (length l - length l'), l')
  | OpDequeueFifo => match l with [] => (AnsMessage None, []) | m :: l' => (AnsMessage (Some m), l') end
  end.

(** Callers pass a whole 512-byte buffer and a length within it. *)
Definition op_ok (op : QueueOp) : Prop :=
  match op with
  | OpEnqueue _ b n => n ≤ MAX_MESSAGE_BYTES ∧ length b = MAX_MESSAGE_BYTES
  | _ => True
  end.

Fixpoint run_steps {Q} (step : Q → QueueOp → QueueAnswer * Q) (q : Q) (ops : list QueueOp) :
    list QueueAnswer * Q :=
  match ops with
  | [] => ([], q)
  | op :: ops' =>
      let '(a, q') := step q op in
      let '(l, q'') := run_steps step q' ops' in
      (a :: l, q'')
  end.

Lemma queue_step_refines q op :
  queue_wf q → op_ok op →
  ∃ q', queue_step q op = ((spec_step (queue_contents q) op).1, q') ∧ queue_wf q' ∧
        queue_contents q' = (spec_step (queue_contents q) op).2.
Proof.
  intros Hwf Hop.
  destruct op as [s b n|r|r|r t|r t|s t|s|]; cbn [queue_step spec_step op_ok] in *.
  - rewrite length_queue_contents by done. destruct Hop as [Hn Hb].
    destruct (Nat.eqb_spec (q_len q) MESSAGE_QUEUE_CAPACITY) as [Hf|Hf].
    + unfold queue_enqueue. rewrite Hf. eauto.
    + destruct (queue_enqueue_spec q s b n) as (q' & -> & ? & ?); [done| |done|done|eauto].
      destruct Hwf as (_ & ? & _). lia.
  - pose proof (queue_remove_first_spec (eligible r) q Hwf) as H.
    unfold queue_dequeue_for, remove_first_spec.
    destruct (take_first _ _) as [[m l]|]; [destruct H as (q' & -> & ? & ?)|rewrite H]; eauto.
  - unfold queue_has_message_for. rewrite queue_has_first by done. eauto.
  - match goal with |- context [take_first ?p] => idtac | _ => idtac end.
    unfold queue_dequeue_transaction_reply_for, remove_first_spec.
    pose proof (queue_remove_first_spec
      (λ m, eligible r m && transaction_is t m) q Hwf) as H.
    destruct (take_first _ _) as [[m l]|]; [destruct H as (q' & -> & ? & ?)|rewrite H]; eauto.
  - unfold queue_has_transaction_reply_for. rewrite queue_has_first by done. eauto.
  - unfold queue_remove_transaction_from_sender, remove_first_spec.
    pose proof (queue_remove_first_spec
      (λ m, (msg_sender m =? s)%Z && transaction_is t m) q Hwf) as H.
    destruct (take_first _ _) as [[m l]|]; [destruct H as (q' & -> & ? & ?)|rewrite H]; eauto.
  - pose proof (remove_all_loop_spec (q_len q) s q 0 0 Hwf ltac:(lia) ltac:(lia)
      ltac:(by rewrite take_0)) as H.
    unfold queue_remove_all_from_sender.
    destruct (remove_all_loop (q_len q) s q 0 0) as [n q'].
    destruct H as (? & Hc & Hn). exists q'. cbn. split; [|done].
    do 2 f_equal. rewrite <-Hc. lia.
  - unfold queue_dequeue_fifo. pose proof (length_queue_contents q Hwf) as Hlen.
    destruct (queue_contents q) as [|m l] eqn:Hc; simpl in Hlen.
    + rewrite <-Hlen. simpl. rewrite <-Hc. eauto.
    + destruct (Nat.eqb_spec (q_len q) 0) as [|_]; [lia|].
      destruct (queue_remove_at_spec q 0 m) as (-> & ? & Hd); [done|by rewrite Hc|].
      rewrite Hc in Hd. eauto.
Qed.

(** C31: every sequence of queue calls of the kernel, started on an empty queue,
    returns the answers of a bounded list of messages (oldest first) and ends
    in the queue that holds that list: enqueue appends or reports a full queue,
    the dequeues remove the oldest message that qualifies and keep the order of
    the others, and removing a sender's messages is a filter. *)
Theorem queue_trace_refines_list ops :
  Forall op_ok ops →
  ∃ q, run_steps queue_step queue_empty ops = ((run_steps spec_step [] ops).1, q) ∧
       queue_wf q ∧ queue_contents q = (run_steps spec_step [] ops).2.
Proof.
  intros Hops. destruct queue_empty_wf as [Hwf Hc]. rewrite <-Hc.
  generalize queue_empty, Hwf. clear Hc Hwf.
  induction Hops as [|op ops Hop _ IH]; intros q Hwf; [eauto|].
  destruct (queue_step_refines q op Hwf Hop) as (q1 & Hs & Hwf1 & Hc1).
  cbn [run_steps]. rewrite Hs.
  destruct (spec_step (queue_contents q) op) as [a l] eqn:Hl. cbn in Hc1 |- *.
  destruct (IH q1 Hwf1) as (q2 & -> & Hwf2 & Hc2). rewrite Hc1 in *.
  exists q2. destruct (run_steps spec_step l ops); cbn in *. done.
Qed.

Lemma queue_trace_refines_list_witness :
  ∃ q, run_steps queue_step queue_empty
         [OpEnqueue 2 (replicate 512 97%Z) 1; OpEnqueue 3 (replicate 512 98%Z) 1;
          OpDequeueFor 2; OpRemoveAll 2] =
       ((run_steps spec_step []
         [OpEnqueue 2 (replicate 512 97%Z) 1; OpEnqueue 3 (replicate 512 98%Z) 1;
          OpDequeueFor 2; OpRemoveAll 2]).1, q) ∧ queue_wf q ∧
       queue_contents q = [].
Proof.
  apply (queue_trace_refines_list
    [OpEnqueue 2 (replicate 512 97%Z) 1; OpEnqueue 3 (replicate 512 98%Z) 1;
     OpDequeueFor 2; OpRemoveAll 2]).
  repeat constructor; unfold MAX_MESSAGE_BYTES; lia.
Defined.

(** [dequeue_for] hands a receiver the oldest message it did not send
    itself, leaves every other message in place and in order, and reports
    nothing exactly when all pending messages are the receiver's own. *)
Theorem dequeue_for_oldest_foreign e receiver :
  endpoint_wf e →
  match endpoint_dequeue_for e receiver with
  | (Some m, e') =>
      ∃ pre post,
        queue_contents (ep_queue e) = pre ++ m :: post ∧
        queue_contents (ep_queue e') = pre ++ post ∧
        msg_sender m ≠ receiver ∧
        Forall (λ m', msg_sender m' = receiver) pre ∧ endpoint_wf e'
  | (None, e') =>
      e' = e ∧ Forall (λ m', msg_sender m' = receiver) (queue_contents (ep_queue e))
  end.
Proof.
  intros Hwf.
  assert (Hel : ∀ m, eligible receiver m = false ↔ msg_sender m = receiver)
    by (intros m; unfold eligible; rewrite negb_false_iff; apply Z.eqb_eq).
  destruct (take_first (eligible receiver) (queue_contents (ep_queue e))) as [[m l]|] eqn:H.
  - destruct (@ms_dequeue_some _ endpoint_store e receiver m l Hwf H) as (e' & Hd & Hwf' & Hc).
    cbn in Hd, Hc. rewrite Hd.
    apply take_first_Some in H as (pre & post & -> & -> & Hm & Hpre).
    exists pre, post. repeat split; [done| |by setoid_rewrite Hel in Hpre|apply Hwf'..].
    intros Heq%Hel. congruence.
  - pose proof (@ms_dequeue_none _ endpoint_store e receiver Hwf H) as Hd. cbn in Hd.
    rewrite Hd. split; [done|]. apply take_first_None in H. by setoid_rewrite Hel in H.
Qed.

Lemma dequeue_for_oldest_foreign_witness :
  endpoint_dequeue_for (endpoint_new 1 "readiness" 0) 7 = (None, endpoint_new 1 "readiness" 0) ∧
  queue_contents (ep_queue (endpoint_new 1 "readiness" 0)) = [].
Proof.
  split; [reflexivity|].
  pose proof (dequeue_for_oldest_foreign (endpoint_new 1 "readiness" 0) 7
    (proj1 queue_empty_wf)) as [_ H].
  reflexivity.
Defined.
