(* ===== verification/VfsPath.v ===== *)
(** VFS names and paths ([vfs/path.rs]), authority coverage
    ([vfs/namespace.rs]) and path resolution under a process's mount root
    ([ipc/vfs_paths.rs]). *)

From S2P Require Import Prelude KernelBase.

Definition MAX_VFS_PATH_BYTES : nat := 128.
Definition MAX_VFS_NAME_BYTES : nat := 64.
Definition slash : byte := 47%Z.
Definition dot : byte := 46%Z.

(** Equality of byte slices. *)
Definition bytes_eqb (a b : list byte) : bool := bool_decide (a = b).

(** The bytes of a string literal or of a [&'static str]. *)
Definition string_bytes (s : string) : list byte :=
  Z.of_N ∘ Ascii.N_of_ascii <$> String.list_ascii_of_string s.

(** * Names *)

Record VfsName := mkVfsName { name_bytes : list byte; name_len : nat }.

(** [VfsName::as_bytes]. *)
Definition name_as_bytes (n : VfsName) : list byte := take (name_len n) (name_bytes n).

(** [VfsName::from_bytes]: the copy loop stops at the first slash or NUL. *)
Definition name_from_bytes (value : list byte) : option VfsName :=
  if bytes_eqb value [] || (MAX_VFS_NAME_BYTES <? length value) then None
  else
    let stored := value ++ replicate (MAX_VFS_NAME_BYTES - length value) 0%Z in
    if bytes_eqb value [slash] then Some (mkVfsName stored 1)
    else if existsb (λ c, (c =? slash)%Z || (c =? 0)%Z) value then None
    else Some (mkVfsName stored (length value)).

(** [VfsName::from_static]. *)
Definition name_from_static (value : string) : Result InitError VfsName :=
  ok_or (name_from_bytes (string_bytes value)) InvalidBootManifest.

(** [VfsName::from_user_component]. *)
Definition name_from_user_component (value : list byte) : Result IpcError VfsName :=
  if bytes_eqb value [dot] || bytes_eqb value [dot; dot] then Err VfsBadPath
  else ok_or (name_from_bytes value) BadCapability.

(** * Paths *)

Record VfsPath := mkVfsPath { path_bytes : list byte; path_len : nat }.

(** [VfsPath::as_bytes]. *)
Definition path_as_bytes (p : VfsPath) : list byte := take (path_len p) (path_bytes p).

(** [VfsPath::empty]. *)
Definition path_empty : VfsPath := mkVfsPath (replicate MAX_VFS_PATH_BYTES 0%Z) 0.

(** The inner loop of the component scans: bytes up to the next slash or the
    end; [None] is the early return on a NUL byte. *)
Fixpoint component_end (l : list byte) : option nat :=
  match l with
  | [] => Some 0
  | c :: l' =>
      if (c =? slash)%Z then Some 0
      else if (c =? 0)%Z then None
      else S <$> component_end l'
  end.

(** The outer loop, on the bytes from [start] on. A round consumes at least one
    byte, so the length of the path is enough fuel. *)
Fixpoint components_valid (fuel : nat) (l : list byte) : bool :=
  match fuel with
  | 0 => bytes_eqb l []
  | S fuel' =>
      match l with
      | [] => true
      | _ =>
          match component_end l with
          | None => false
          | Some n =>
              if (n =? 0) || (MAX_VFS_NAME_BYTES <? n)
                 || bytes_eqb (take n l) [dot] || bytes_eqb (take n l) [dot; dot]
              then false
              else components_valid fuel' (drop (S n) l)
          end
      end
  end.

(** [valid_vfs_root_path]. *)
Definition valid_vfs_root_path (path : list byte) : bool :=
  if bytes_eqb path [] || negb (bool_decide (head path = Some slash))
     || ((1 <? length path) && bool_decide (last path = Some slash))
  then false
  else if bytes_eqb path [slash] then true
  else components_valid (length path) (drop 1 path).

(** The copy loops of [from_root_path] and [from_boot_root_path]. *)
Definition path_store (path : list byte) : VfsPath :=
  mkVfsPath (path ++ replicate (MAX_VFS_PATH_BYTES - length path) 0%Z) (length path).

(** [VfsPath::from_root_path]. *)
Definition from_root_path (path : list byte) : Result IpcError VfsPath :=
  if (MAX_VFS_PATH_BYTES <? length path) || negb (valid_vfs_root_path path)
  then Err VfsBadPath else Ok (path_store path).

(** [VfsPath::from_boot_root_path]. *)
Definition from_boot_root_path (path : string) : Result InitError VfsPath :=
  if (MAX_VFS_PATH_BYTES <? length (string_bytes path))
     || negb (valid_vfs_root_path (string_bytes path))
  then Err InvalidBootManifest else Ok (path_store (string_bytes path)).

(** [vfs_authority_path_covers]. *)
Definition vfs_authority_path_covers (authority path : list byte) : bool :=
  if bytes_eqb authority [slash] then bool_decide (head path = Some slash)
  else if bytes_eqb authority path then true
  else (length authority <? length path)
       && bytes_eqb (take (length authority) path) authority
       && bool_decide (path !! length authority = Some slash).

(** * Resolution *)

(** [validate_vfs_absolute_path]. *)
Definition validate_vfs_absolute_path (path : list byte) : Result IpcError unit :=
  if (length path <? 2) || negb (bool_decide (head path = Some slash))
     || bool_decide (last path = Some slash)
  then Err VfsBadPath
  else if components_valid (length path) (drop 1 path) then Ok tt else Err VfsBadPath.

(** The backward search for the last slash: the index where the loop stops,
    0 when it runs out. *)
Fixpoint last_slash (path : list byte) (index : nat) : nat :=
  match index with
  | 0 => 0
  | S index' =>
      if bool_decide (path !! index' = Some slash) then index' else last_slash path index'
  end.

(** [split_vfs_parent_child]. *)
Definition split_vfs_parent_child (path : list byte) :
    Result IpcError (list byte * list byte) :=
  match validate_vfs_absolute_path path with
  | Err e => Err e
  | Ok _ =>
      let i := last_slash path (length path) in
      if i =? 0 then Ok (take 1 path, drop 1 path)
      else Ok (take i path, drop (S i) path)
  end.

(** [resolve_vfs_path_under_root]; [resolve_process_vfs_path] is this function
    at the mount root of the running process. *)
Definition resolve_vfs_path_under_root (root : VfsPath) (path : list byte) :
    Result IpcError VfsPath :=
  if bytes_eqb path [slash] then Ok root
  else
    match validate_vfs_absolute_path path with
    | Err e => Err e
    | Ok _ =>
        if bytes_eqb (path_as_bytes root) [slash] then from_root_path path
        else
          let combined_len := path_len root + length path in
          if MAX_VFS_PATH_BYTES <? combined_len then Err VfsBadPath
          else
            Ok (mkVfsPath
                  (path_as_bytes root ++ path ++
                   replicate (MAX_VFS_PATH_BYTES - combined_len) 0%Z)
                  combined_len)
    end.

(** * Reference reading of a path *)

(** A path as the sequence of its components. *)
Definition join_components (comps : list (list byte)) : list byte :=
  comps ≫= (cons slash).

(** What a component may be. *)
Definition valid_component (c : list byte) : Prop :=
  c ≠ [] ∧ length c ≤ MAX_VFS_NAME_BYTES ∧ c ≠ [dot] ∧ c ≠ [dot; dot] ∧
  (slash ∉ c) ∧ (0%Z ∉ c).

(** A canonical absolute path: the root, or components that are all valid. *)
Definition canonical_path (path : list byte) : Prop :=
  path = [slash] ∨
  ∃ comps, comps ≠ [] ∧ Forall valid_component comps ∧ path = join_components comps.

(** * Component scans *)

Lemma component_end_Some l n :
  component_end l = Some n →
  n ≤ length l ∧ (slash ∉ take n l) ∧ (0%Z ∉ take n l) ∧
  (n = length l ∨ l !! n = Some slash).
Proof.
  revert n; induction l as [|c l IH]; intros n; simpl.
  { intros [= <-]. simpl. set_solver by lia. }
  destruct (Z.eqb_spec c slash) as [->|Hs].
  { intros [= <-]. simpl. split; [lia|]. set_solver. }
  destruct (Z.eqb_spec c 0) as [->|H0]; [done|].
  intros (m & Hm & ->)%fmap_Some. destruct (IH m Hm) as (? & ? & ? & Hend).
  simpl. split; [lia|]. set_unfold. split; [naive_solver|]. split; [naive_solver|].
  destruct Hend as [->|?]; auto.
Qed.

Lemma component_end_app c l :
  slash ∉ c → 0%Z ∉ c → (l = [] ∨ head l = Some slash) →
  component_end (c ++ l) = Some (length c).
Proof.
  induction c as [|x c IH]; intros Hs H0 Hl; simpl.
  { destruct Hl as [->|Hl]; [done|]. destruct l as [|y l]; simplify_eq/=. done. }
  set_unfold. destruct (Z.eqb_spec x slash); [naive_solver|].
  destruct (Z.eqb_spec x 0); [naive_solver|].
  rewrite IH; [done|naive_solver..].
Qed.

Lemma head_join comps : join_components comps = [] ∨ head (join_components comps) = Some slash.
Proof. destruct comps; [by left|by right]. Qed.

Lemma component_test c l :
  valid_component c → (l = [] ∨ head l = Some slash) →
  ((length c =? 0) || (MAX_VFS_NAME_BYTES <? length c)
   || bytes_eqb (take (length c) (c ++ l)) [dot]
   || bytes_eqb (take (length c) (c ++ l)) [dot; dot]) = false.
Proof.
  intros (Hne & Hlen & Hd & Hdd & _) Hl. rewrite take_app_length.
  unfold bytes_eqb. rewrite !orb_false_iff. repeat split.
  - apply Nat.eqb_neq. by destruct c.
  - apply Nat.ltb_ge. lia.
  - by apply bool_decide_eq_false.
  - by apply bool_decide_eq_false.
Qed.

Lemma component_test_valid l n :
  component_end l = Some n →
  ((n =? 0) || (MAX_VFS_NAME_BYTES <? n)
   || bytes_eqb (take n l) [dot] || bytes_eqb (take n l) [dot; dot]) = false →
  valid_component (take n l).
Proof.
  intros (Hn & Hs & H0 & _)%component_end_Some.
  unfold bytes_eqb. rewrite !orb_false_iff, !bool_decide_eq_false, Nat.eqb_neq, Nat.ltb_ge.
  intros [[[? ?] ?] ?]. split; [destruct l, n; simpl in *; naive_solver lia|].
  rewrite length_take. split; [lia|]. done.
Qed.

Lemma last_drop_tail (l : list byte) n :
  n < length l → last (drop n l) = last l.
Proof.
  intros Hn. rewrite !last_lookup, lookup_drop, length_drop. f_equal. lia.
Qed.

(** The scan accepts exactly the joins of valid components. *)
Lemma components_valid_spec fuel l :
  length l ≤ fuel → l ≠ [] → last l ≠ Some slash →
  components_valid fuel l = true ↔
  ∃ comps, comps ≠ [] ∧ Forall valid_component comps ∧ slash :: l = join_components comps.
Proof.
  revert l; induction fuel as [|fuel IH]; intros l Hf Hne Hlast.
  { destruct l; simpl in *; [done|lia]. }
  destruct l as [|x l0] eqn:Hl; [done|]. rewrite <-Hl in *. cbn [components_valid].
  replace (match l with [] => true | _ :: _ => _ end) with
    (match component_end l with
     | None => false
     | Some n =>
         if (n =? 0) || (MAX_VFS_NAME_BYTES <? n)
            || bytes_eqb (take n l) [dot] || bytes_eqb (take n l) [dot; dot]
         then false else components_valid fuel (drop (S n) l)
     end) by (by rewrite Hl).
  clear Hl x l0. split.
  - destruct (component_end l) as [n|] eqn:He; [|done].
    destruct ((n =? 0) || _ || _ || _) eqn:Ht; [done|]. intros Hc.
    pose proof (component_test_valid l n He Ht) as Hv.
    pose proof (component_end_Some l n He) as (Hn & _ & _ & Hend).
    destruct (decide (n = length l)) as [->|Hnn].
    + exists [l]. split; [done|]. rewrite take_ge in Hv by lia.
      split; [by apply Forall_singleton|]. by unfold join_components; simpl; rewrite app_nil_r.
    + destruct Hend as [|Hsl]; [done|].
      assert (Hsplit : l = take n l ++ slash :: drop (S n) l) by (symmetry; by apply take_drop_middle).
      assert (Hrest : drop (S n) l ≠ []).
      { intros Hz. apply Hlast. rewrite Hsplit, Hz. by rewrite last_snoc. }
      apply IH in Hc as (comps & Hcne & Hcv & Hcj); [| |done|].
      * exists (take n l :: comps). split; [done|]. split; [by constructor|].
        simpl. rewrite <-Hcj. by f_equal.
      * rewrite length_drop. lia.
      * rewrite last_drop_tail; [done|].
        destruct (decide (S n < length l)); [done|].
        destruct Hrest. apply drop_ge. lia.
  - intros (comps & Hcne & Hcv & Hcj). destruct comps as [|c comps]; [done|].
    apply Forall_cons in Hcv as [Hv Hcv]. simpl in Hcj. injection Hcj as Hcj.
    pose proof Hv as (Hcne' & _ & _ & _ & Hs & H0). change (comps ≫= (cons slash)) with (join_components comps) in Hcj.
    rewrite Hcj, component_end_app by (done || apply head_join).
    rewrite component_test by (done || apply head_join).
    destruct comps as [|c' comps].
    + rewrite drop_ge by (rewrite app_nil_r; lia). by destruct fuel.
    + apply IH.
      * rewrite Hcj in Hf. rewrite length_drop. lia.
      * simpl. rewrite drop_app_ge, Nat.sub_succ_l, Nat.sub_diag by lia. simpl.
        inversion Hcv as [|? ? (Hz & _) _]; subst. by destruct c'.
      * rewrite last_drop_tail.
        -- by rewrite <-Hcj.
        -- rewrite length_app; simpl. inversion Hcv as [|? ? (Hz & _) _]; subst.
           rewrite length_app. destruct c'; simpl; [done|lia].
      * exists (c' :: comps). split; [done|]. split; [done|].
        simpl. rewrite drop_app_ge, Nat.sub_succ_l, Nat.sub_diag by lia. done.
Qed.

Lemma join_app a b : join_components (a ++ b) = join_components a ++ join_components b.
Proof. unfold join_components. apply bind_app. Qed.

Lemma last_join_snoc comps c :
  valid_component c → last (join_components (comps ++ [c])) ≠ Some slash.
Proof.
  intros (Hne & _ & _ & _ & Hs & _). rewrite join_app.
  unfold join_components at 2; simpl. rewrite app_nil_r.
  destruct c as [|x c _] using rev_ind; [done|].
  rewrite app_comm_cons, app_assoc, last_snoc. intros [= ->]. set_solver.
Qed.

Lemma last_join comps :
  comps ≠ [] → Forall valid_component comps → last (join_components comps) ≠ Some slash.
Proof.
  destruct comps as [|c comps _] using rev_ind; [done|]. intros _ [_ Hc]%Forall_app.
  rewrite Forall_singleton in Hc. by apply last_join_snoc.
Qed.

Lemma length_join_ge2 comps :
  comps ≠ [] → Forall valid_component comps → 2 ≤ length (join_components comps).
Proof.
  destruct comps as [|c comps]; [done|]. intros _ [(Hne & _) _]%Forall_cons.
  simpl. rewrite length_app. destruct c; simpl; [done|lia].
Qed.

Lemma canonical_head path : canonical_path path → head path = Some slash.
Proof. intros [->|(comps & Hne & _ & ->)]; [done|]. by destruct comps. Qed.

Lemma validate_join path :
  validate_vfs_absolute_path path = Ok tt ↔
  ∃ comps, comps ≠ [] ∧ Forall valid_component comps ∧ path = join_components comps.
Proof.
  unfold validate_vfs_absolute_path. split.
  - destruct ((length path <? 2) || _ || _) eqn:Ht; [done|].
    apply orb_false_iff in Ht as [[Hlen%Nat.ltb_ge Hh]%orb_false_iff Hl].
    apply negb_false_iff, bool_decide_eq_true in Hh. apply bool_decide_eq_false in Hl.
    destruct path as [|x l]; [done|]. simpl in Hh, Hlen. injection Hh as ->.
    destruct (components_valid _ _) eqn:Hc; [|done]. intros _.
    change (drop 1 (slash :: l)) with l in Hc.
    assert (l ≠ []) by (destruct l; simpl in Hlen; [lia|done]).
    rewrite components_valid_spec in Hc; [done|simpl; lia|done|].
    intros Hz. apply Hl. destruct l; [done|exact Hz].
  - intros (comps & Hne & Hv & ->).
    pose proof (length_join_ge2 comps Hne Hv) as Hlen.
    pose proof (last_join comps Hne Hv) as Hlast.
    destruct comps as [|c comps]; [done|].
    set (l := c ++ join_components comps).
    change (join_components (c :: comps)) with (slash :: l) in *.
    rewrite (proj2 (Nat.ltb_ge _ _)) by done.
    rewrite (bool_decide_eq_true_2 (head _ = _)) by done.
    rewrite bool_decide_eq_false_2 by done. simpl orb.
    change (drop 1 (slash :: l)) with l.
    assert (l ≠ []) by (destruct l; simpl in *; [lia|done]).
    rewrite (proj2 (components_valid_spec (length (slash :: l)) l ltac:(simpl; lia) H
      ltac:(destruct l; [done|exact Hlast]))); [done|].
    exists (c :: comps). done.
Qed.

Lemma valid_root_path_canonical path :
  valid_vfs_root_path path = true ↔ canonical_path path.
Proof.
  unfold valid_vfs_root_path, canonical_path, bytes_eqb.
  destruct (decide (path = [slash])) as [->|Hroot]; [by split; [left|]|].
  rewrite (bool_decide_eq_false_2 (path = [slash])) by done.
  pose proof (validate_join path) as Hv. unfold validate_vfs_absolute_path in Hv.
  destruct (decide (length path < 2)) as [Hlen|Hlen].
  - destruct path as [|x [|y l]]; simpl in Hlen; [| |lia].
    + split; [done|]. intros [?|(comps & ? & ? & Hj)]; [done|].
      pose proof (length_join_ge2 comps). rewrite <-Hj in *. naive_solver lia.
    + split.
      * simpl head. destruct (decide (x = slash)) as [->|Hx]; [done|].
        rewrite (bool_decide_eq_false_2 (Some x = Some slash)) by congruence.
        by rewrite orb_true_r.
      * intros [?|(comps & ? & ? & Hj)]; [done|].
        pose proof (length_join_ge2 comps). rewrite <-Hj in *. simpl in *. naive_solver lia.
  - rewrite (proj2 (Nat.ltb_ge (length path) 2)) in Hv by lia.
    rewrite (proj2 (Nat.ltb_lt 1 (length path))) by lia.
    rewrite (bool_decide_eq_false_2 (path = [])) by (intros ->; simpl in Hlen; lia).
    simpl orb in *. simpl andb.
    destruct (negb _ || _).
    + split; [done|]. intros [?|H]; [done|]. apply Hv in H. done.
    + destruct (components_valid _ _); [split; [|done]; right; by apply Hv|].
      split; [done|]. intros [?|H]; [done|]. apply Hv in H. done.
Qed.

Definition path_wf (p : VfsPath) : Prop :=
  length (path_bytes p) = MAX_VFS_PATH_BYTES ∧ path_len p ≤ MAX_VFS_PATH_BYTES ∧
  canonical_path (path_as_bytes p).

Lemma path_store_as_bytes path : path_as_bytes (path_store path) = path.
Proof. unfold path_as_bytes, path_store; simpl. by rewrite take_app_length. Qed.

Lemma from_root_path_ok path p :
  from_root_path path = Ok p → path_wf p ∧ path_as_bytes p = path.
Proof.
  unfold from_root_path. destruct (_ || _) eqn:Ht; [done|]. intros [= <-].
  apply orb_false_iff in Ht as [Hl%Nat.ltb_ge Hv%negb_false_iff].
  apply valid_root_path_canonical in Hv.
  split; [|apply path_store_as_bytes]. split; [|split; [done|by rewrite path_store_as_bytes]].
  unfold path_store; simpl. rewrite length_app, length_replicate. lia.
Qed.

Lemma covers_self_or_below authority path :
  authority ≠ [slash] →
  vfs_authority_path_covers authority path = true ↔
  path = authority ∨ ∃ rest, path = authority ++ slash :: rest.
Proof.
  intros Hr. unfold vfs_authority_path_covers, bytes_eqb.
  rewrite (bool_decide_eq_false_2 (authority = [slash])) by done.
  destruct (decide (authority = path)) as [->|Hne].
  { rewrite bool_decide_eq_true_2 by done. naive_solver. }
  rewrite (bool_decide_eq_false_2 (authority = path)) by done.
  rewrite !andb_true_iff, !bool_decide_eq_true, Nat.ltb_lt. split.
  - intros [[Hlt Ht] Hs]. right. exists (drop (S (length authority)) path).
    rewrite <-Ht at 1. symmetry. by apply take_drop_middle.
  - intros [?|[rest ->]]; [done|]. rewrite length_app. simpl.
    rewrite take_app_length, lookup_app_r, Nat.sub_diag by lia. split; [split|]; [lia|done..].
Qed.

Lemma canonical_nonempty_join path :
  canonical_path path → path ≠ [slash] →
  ∃ comps, comps ≠ [] ∧ Forall valid_component comps ∧ path = join_components comps.
Proof. by intros [->|?]. Qed.

Definition slash_tail (t : list byte) : Prop := t = [] ∨ head t = Some slash.

Lemma component_app_inj c c' t t' :
  slash ∉ c → slash ∉ c' → slash_tail t → slash_tail t' →
  c ++ t = c' ++ t' → c = c' ∧ t = t'.
Proof.
  revert c'; induction c as [|x c IH]; intros [|y c'] Hc Hc' Ht Ht' H; simpl in H.
  - done.
  - subst t. destruct Ht as [?|[= ->]]; [done|]. set_solver.
  - subst t'. destruct Ht' as [?|[= ->]]; [done|]. set_solver.
  - injection H as -> H. destruct (IH c') as [-> ->]; [set_solver..|done].
Qed.

Lemma slash_tail_join comps rest :
  slash_tail rest → slash_tail (join_components comps ++ rest).
Proof. destruct comps; [done|]. by right. Qed.

(** Canonical paths have one reading as components. *)
Lemma join_prefix a p rest :
  Forall valid_component a → Forall valid_component p → slash_tail rest →
  join_components a ++ rest = join_components p →
  ∃ b, p = a ++ b ∧ rest = join_components b.
Proof.
  revert p; induction a as [|c a IH]; intros p Ha Hp Hrest H.
  { exists p. done. }
  destruct p as [|c' p]; [done|]. cbn in H. injection H as H. rewrite <-app_assoc in H.
  apply Forall_cons in Ha as [(_ & _ & _ & _ & Hs & _) Ha].
  apply Forall_cons in Hp as [(_ & _ & _ & _ & Hs' & _) Hp].
  apply component_app_inj in H as [-> H]; [|done..|by apply slash_tail_join|].
  - destruct (IH p Ha Hp Hrest H) as (b & -> & ->). by exists b.
  - rewrite <-(app_nil_r (p ≫= _)). apply slash_tail_join. by left.
Qed.

Lemma covers_join a p :
  a ≠ [] → Forall valid_component a → Forall valid_component p →
  vfs_authority_path_covers (join_components a) (join_components p) = true ↔ a `prefix_of` p.
Proof.
  intros Hne Ha Hp. rewrite covers_self_or_below.
  2:{ pose proof (length_join_ge2 a Hne Ha). intros Hz. rewrite Hz in *. simpl in *. lia. }
  split.
  - intros [H|[rest H]].
    + destruct (join_prefix a p [] Ha Hp) as (b & -> & _); [by left|by rewrite app_nil_r|].
      by exists b.
    + destruct (join_prefix a p (slash :: rest) Ha Hp) as (b & -> & _); [by right|done|].
      by exists b.
  - intros [b ->]. rewrite join_app. destruct b as [|c b]; [left; apply app_nil_r|].
    right. eexists. reflexivity.
Qed.

Lemma resolve_combined root path :
  path_wf root → path_as_bytes root ≠ [slash] → validate_vfs_absolute_path path = Ok tt →
  canonical_path (path_as_bytes root ++ path) ∧
  vfs_authority_path_covers (path_as_bytes root) (path_as_bytes root ++ path) = true.
Proof.
  intros (_ & _ & Hc) Hr Hv. apply validate_join in Hv as (p & Hpne & Hp & ->).
  destruct (canonical_nonempty_join _ Hc Hr) as (a & Hane & Ha & ->).
  rewrite <-join_app. split.
  - right. exists (a ++ p). split; [by destruct a|]. split; [by apply Forall_app|done].
  - apply covers_join; [done..|by apply Forall_app|]. by exists p.
Qed.

(** * Properties *)

(** the byte scanner that admits VFS root paths accepts exactly the
    canonical absolute paths: the root, or a slash-separated sequence of
    components of 1 to 64 bytes, none of them a dot or dot-dot and none
    containing a slash or a NUL. *)
Theorem valid_root_path_iff_canonical path :
  valid_vfs_root_path path = true ↔ canonical_path path.
Proof. apply valid_root_path_canonical. Qed.

Lemma resolve_under_root_confined root path resolved :
  path_wf root →
  resolve_vfs_path_under_root root path = Ok resolved →
  path_wf resolved ∧
  vfs_authority_path_covers (path_as_bytes root) (path_as_bytes resolved) = true.
Proof.
  intros Hroot. pose proof Hroot as (Hrl & Hrn & Hrc).
  assert (Hself : ∀ q, canonical_path q →
            path_as_bytes root = [slash] → vfs_authority_path_covers (path_as_bytes root) q = true).
  { intros q Hq ->. unfold vfs_authority_path_covers, bytes_eqb.
    rewrite bool_decide_eq_true_2 by done. apply bool_decide_eq_true_2.
    by apply canonical_head. }
  unfold resolve_vfs_path_under_root, bytes_eqb.
  case_bool_decide as Hp.
  { intros [= <-]. split; [done|]. unfold vfs_authority_path_covers, bytes_eqb.
    case_bool_decide as Hr; [apply bool_decide_eq_true_2; by rewrite Hr|].
    by rewrite bool_decide_eq_true_2. }
  destruct (validate_vfs_absolute_path path) as [[]|e] eqn:Hv; [|done].
  case_bool_decide as Hr.
  { intros [Hwf Heq]%from_root_path_ok. split; [done|]. apply Hself; [apply Hwf|done]. }
  destruct (resolve_combined root path Hroot Hr Hv) as [Hc Hcov].
  destruct (Nat.ltb_spec MAX_VFS_PATH_BYTES (path_len root + length path)); [done|].
  intros [= <-].
  assert (Hlen : length (path_as_bytes root) = path_len root)
    by (unfold path_as_bytes; rewrite length_take; lia).
  assert (Hab : path_as_bytes (mkVfsPath (path_as_bytes root ++ path ++
            replicate (MAX_VFS_PATH_BYTES - (path_len root + length path)) 0%Z)
            (path_len root + length path)) = path_as_bytes root ++ path).
  { unfold path_as_bytes at 1; simpl. rewrite app_assoc, take_app_le
      by (rewrite length_app; lia). apply take_ge. rewrite length_app. lia. }
  rewrite Hab. split; [|done]. split; [|by rewrite Hab].
  simpl. rewrite !length_app, length_replicate. lia.
Qed.

(** C30: resolving a path a process asks for never leaves its mount root: the
    resolved path is again canonical, fits the 128-byte buffer, and is covered
    by the authority of the root. *)
Theorem resolve_confined_to_mount_root root path resolved :
  path_wf root →
  resolve_vfs_path_under_root root path = Ok resolved →
  path_wf resolved ∧
  vfs_authority_path_covers (path_as_bytes root) (path_as_bytes resolved) = true.
Proof. apply resolve_under_root_confined. Qed.

(** On canonical paths, the byte-level authority test is component-wise
    prefix order: a root authority path covers a path exactly when its
    components are the first components of the path, so a name that merely
    starts with the same bytes is not covered. *)
Theorem authority_covers_iff_component_prefix a p :
  a ≠ [] → Forall valid_component a → Forall valid_component p →
  vfs_authority_path_covers (join_components a) (join_components p) = true ↔ a `prefix_of` p.
Proof. apply covers_join. Qed.

Lemma last_slash_spec l c n :
  slash ∉ c → length l < n ≤ length l + 1 + length c →
  last_slash (l ++ slash :: c) n = length l.
Proof.
  intros Hc. induction n as [|n IH]; [lia|]. intros Hn. cbn [last_slash].
  destruct (decide (n = length l)) as [->|Hne].
  - rewrite bool_decide_eq_true_2; [done|].
    by rewrite lookup_app_r, Nat.sub_diag by lia.
  - rewrite bool_decide_eq_false_2; [apply IH; lia|].
    rewrite lookup_app_r by lia. destruct (n - length l) as [|k] eqn:Hk; [lia|].
    simpl. intros Hz%list_elem_of_lookup_2. done.
Qed.

(** Splitting a valid absolute path gives the last component and the
    canonical path of its parent directory, and the two rebuild the path. *)
Theorem split_parent_child_of_join comps child :
  Forall valid_component (comps ++ [child]) →
  split_vfs_parent_child (join_components (comps ++ [child])) =
    Ok (if decide (comps = []) then [slash] else join_components comps, child).
Proof.
  intros Hv. unfold split_vfs_parent_child.
  rewrite (proj2 (validate_join _)); [|exists (comps ++ [child]); by destruct comps].
  apply Forall_app in Hv as [Hv Hc]. rewrite Forall_singleton in Hc.
  pose proof Hc as (Hcne & _ & _ & _ & Hs & _).
  assert (Hj : join_components (comps ++ [child]) = join_components comps ++ slash :: child).
  { rewrite join_app. unfold join_components at 2. simpl. by rewrite app_nil_r. }
  rewrite Hj, last_slash_spec by (done || rewrite length_app; simpl; lia).
  case_decide as Hd.
  - subst comps. done.
  - pose proof (length_join_ge2 comps Hd Hv). destruct (Nat.eqb_spec (length (join_components comps)) 0); [lia|].
    rewrite take_app_length, drop_app_ge, Nat.sub_succ_l, Nat.sub_diag by lia. done.
Qed.

(** ["state"] and ["app"] as components. *)
Definition comp_state : list byte := string_bytes "state".
Definition comp_app : list byte := string_bytes "app".

Lemma comp_valid : Forall valid_component [comp_state; comp_app].
Proof.
  repeat constructor; try done; try (unfold MAX_VFS_NAME_BYTES; simpl; lia);
    intros Hin; repeat (apply elem_of_cons in Hin as [Hin|Hin]; [done|]);
    by apply elem_of_nil in Hin.
Qed.

Lemma resolve_confined_to_mount_root_witness :
  resolve_vfs_path_under_root (path_store (string_bytes "/state")) (string_bytes "/app") =
    Ok (path_store (string_bytes "/state/app")) ∧
  vfs_authority_path_covers (string_bytes "/state") (string_bytes "/state/app") = true.
Proof.
  assert (H : resolve_vfs_path_under_root (path_store (string_bytes "/state"))
                (string_bytes "/app") = Ok (path_store (string_bytes "/state/app")))
    by (vm_compute; reflexivity).
  split; [exact H|].
  assert (Hwf : path_wf (path_store (string_bytes "/state"))).
  { split; [reflexivity|]. split; [vm_compute; lia|]. rewrite path_store_as_bytes.
    apply valid_root_path_canonical. vm_compute. reflexivity. }
  pose proof (resolve_confined_to_mount_root _ _ _ Hwf H) as [_ Hc].
  rewrite !path_store_as_bytes in Hc. exact Hc.
Defined.

Lemma authority_covers_iff_component_prefix_witness :
  vfs_authority_path_covers (join_components [comp_state])
    (join_components [comp_state; comp_app]) = true.
Proof.
  apply (authority_covers_iff_component_prefix [comp_state] [comp_state; comp_app]).
  - discriminate.
  - pose proof comp_valid as H. by inversion H; subst; constructor.
  - exact comp_valid.
  - by exists [comp_app].
Defined.

Lemma split_parent_child_of_join_witness :
  split_vfs_parent_child (string_bytes "/state/app") = Ok (string_bytes "/state", comp_app).
Proof. exact (split_parent_child_of_join [comp_state] comp_app comp_valid). Defined.
