(* ===== verification/KernelObjects.v ===== *)
(** Kernel objects ([kernel/object.rs], [device/object.rs],
    [device/network.rs], [vfs/namespace.rs]) and the kernel object table
    ([kernel/object_table.rs]), refined to a finite map from object
    identifiers to objects. *)

From S2P Require Import Prelude KernelBase Transport VfsPath.

(** * Objects *)

Record BootModuleObject := mkBootModuleObject {
  bm_id : KernelObjectId; bm_name : string; bm_base : Z; bm_length : Z }.

Record StoreObject := mkStoreObject {
  so_id : KernelObjectId; so_name : string; so_base : Z; so_length : Z; so_hash : string }.

Record BootStateVolumeConfig := mkBootStateVolumeConfig {
  svc_id : string; svc_owner : string; svc_schema_version : string;
  svc_storage_class : string; svc_migration_policy : string;
  svc_retention_policy : string; svc_sharing_policy : string }.

Record StateVolumeObject := mkStateVolumeObject {
  sv_id : KernelObjectId; sv_name : string; sv_owner : string;
  sv_schema_version : string; sv_storage_class : string; sv_migration_policy : string;
  sv_retention_policy : string; sv_sharing_policy : string }.

(** [StateVolumeObject::new]. *)
Definition state_volume_new (id : KernelObjectId) (state : BootStateVolumeConfig) :
    StateVolumeObject :=
  mkStateVolumeObject id (svc_id state) (svc_owner state) (svc_schema_version state)
    (svc_storage_class state) (svc_migration_policy state) (svc_retention_policy state)
    (svc_sharing_policy state).

Record TimerObject := mkTimerObject { tm_id : KernelObjectId; tm_name : string }.

Record NetworkPortObject := mkNetworkPortObject {
  np_id : KernelObjectId; np_name : string; np_queue : MessageQueue }.
#[export] Instance eta_NetworkPortObject : Eta NetworkPortObject := λ p,
  mkNetworkPortObject (np_id p) (np_name p) (np_queue p).

(** [NetworkPortObject::new]. *)
Definition network_port_new (id : KernelObjectId) (name : string) : NetworkPortObject :=
  mkNetworkPortObject id name queue_empty.

(** [NetworkPortObject::enqueue_udp]. *)
Definition enqueue_udp (p : NetworkPortObject) (sender : ProcessId) (bytes : list byte)
    (len : nat) : Result IpcError unit * NetworkPortObject :=
  let '(r, q) := queue_enqueue (np_queue p) sender bytes len in (r, p <| np_queue := q |>).

(** [NetworkPortObject::dequeue_udp]. *)
Definition dequeue_udp (p : NetworkPortObject) : option IpcMessage * NetworkPortObject :=
  let '(m, q) := queue_dequeue_fifo (np_queue p) in (m, p <| np_queue := q |>).

(** [NetworkPortObject::has_pending_udp]. *)
Definition has_pending_udp (p : NetworkPortObject) : bool := 0 <? q_len (np_queue p).

Record IoPortRangeObject := mkIoPortRangeObject {
  io_id : KernelObjectId; io_name : string; io_base : Z; io_length : Z }.

Record MmioRegionObject := mkMmioRegionObject {
  mmio_id : KernelObjectId; mmio_name : string; mmio_base : Z; mmio_length : Z }.

Record FramebufferObject := mkFramebufferObject {
  fb_id : KernelObjectId; fb_name : string; fb_physical_base : Z; fb_length : Z;
  fb_width : Z; fb_height : Z; fb_pitch : Z; fb_bpp : Z;
  fb_red_mask_size : Z; fb_red_mask_shift : Z; fb_green_mask_size : Z;
  fb_green_mask_shift : Z; fb_blue_mask_size : Z; fb_blue_mask_shift : Z }.

Record InterruptLineObject := mkInterruptLineObject {
  il_id : KernelObjectId; il_name : string; il_line : Z;
  il_pending_count : Z; il_delivered_count : Z; il_spurious_count : Z }.
#[export] Instance eta_InterruptLineObject : Eta InterruptLineObject := λ l,
  mkInterruptLineObject (il_id l) (il_name l) (il_line l) (il_pending_count l)
    (il_delivered_count l) (il_spurious_count l).

Record DmaRegionObject := mkDmaRegionObject {
  dma_id : KernelObjectId; dma_name : string; dma_base : Z; dma_length : Z;
  dma_mapped_by : ProcessId; dma_map_count : Z; dma_release_count : Z }.
#[export] Instance eta_DmaRegionObject : Eta DmaRegionObject := λ r,
  mkDmaRegionObject (dma_id r) (dma_name r) (dma_base r) (dma_length r) (dma_mapped_by r) (dma_map_count r)
    (dma_release_count r).

Record PciDeviceObject := mkPciDeviceObject {
  pci_id : KernelObjectId; pci_name : string; pci_kind : string }.

Record VirtioDeviceObject := mkVirtioDeviceObject {
  vd_id : KernelObjectId; vd_name : string; vd_transport : string; vd_owner : ProcessId;
  vd_queue_size : Z; vd_avail_idx : Z; vd_used_idx : Z; vd_submissions : Z;
  vd_completions : Z; vd_timeouts : Z; vd_reset_count : Z; vd_last_error : string }.
#[export] Instance eta_VirtioDeviceObject : Eta VirtioDeviceObject := λ d,
  mkVirtioDeviceObject (vd_id d) (vd_name d) (vd_transport d) (vd_owner d) (vd_queue_size d) (vd_avail_idx d)
    (vd_used_idx d) (vd_submissions d) (vd_completions d) (vd_timeouts d) (vd_reset_count d) (vd_last_error d).

Definition MAX_NAMESPACE_ENTRIES : nat := 4.

Record NamespaceEntry := mkNamespaceEntry {
  ne_path : string; ne_object : KernelObjectId; ne_rights : Z }.

Record NamespaceObject := mkNamespaceObject {
  ns_id : KernelObjectId; ns_name : string;
  ns_entries : list (option NamespaceEntry); ns_entry_count : nat }.

(** [NamespaceObject::resolve]. *)
Definition namespace_lookup (ns : NamespaceObject) (path : list byte) : option NamespaceEntry :=
  first_some
    (λ e, match e with
          | Some entry => if bytes_eqb (string_bytes (ne_path entry)) path then Some entry else None
          | None => None
          end)
    (ns_entries ns) (ns_entry_count ns).

Record VfsRootObject := mkVfsRootObject {
  vr_id : KernelObjectId; vr_name : string; vr_root_path : VfsPath; vr_derived : bool }.

Inductive VfsMountSourceKind :=
| MsRoot | MsStore | MsState | MsDevice | MsProc | MsVertexFs | MsServiceFs | MsStateFs
| MsVolatile | MsUnknown.

Record VfsMountSource := mkVfsMountSource { ms_kind : VfsMountSourceKind; ms_id : Z }.

(** [vfs_mount_source_kind]. *)
Definition vfs_mount_source_kind (source : string) : VfsMountSourceKind :=
  if str_eqb source "rootfs" then MsRoot
  else if str_eqb source "storefs" then MsStore
  else if str_eqb source "devfs" then MsDevice
  else if str_eqb source "procfs" then MsProc
  else if str_eqb source "vertexfs" then MsVertexFs
  else if str_eqb source "servicefs" then MsServiceFs
  else if str_eqb source "statefs" then MsStateFs
  else if str_eqb source "volatilefs" || str_eqb source "state:volatile" then MsVolatile
  else if String.prefix "state:" source then MsState
  else MsUnknown.

Record VfsMountObject := mkVfsMountObject {
  vm_id : KernelObjectId; vm_name : string; vm_root_node : VfsNodeId; vm_root_path : VfsPath;
  vm_source : string; vm_source_info : VfsMountSource; vm_flags : Z; vm_dynamic : bool;
  vm_owner : ProcessId }.

(** [VfsMountObject::new] with [VfsMountSource::from_label]. *)
Definition vfs_mount_new (id : KernelObjectId) (name : string) (root_node : VfsNodeId)
    (root_path : VfsPath) (source : string) (flags : Z) (dynamic : bool) (owner : ProcessId) :
    VfsMountObject :=
  mkVfsMountObject id name root_node root_path source
    (mkVfsMountSource (vfs_mount_source_kind source) root_node) flags dynamic owner.

Record ProcessControlObject := mkProcessControlObject {
  pc_id : KernelObjectId; pc_name : string }.

Record SecretObject := mkSecretObject {
  sec_id : KernelObjectId; sec_name : string; sec_value : list byte }.

Inductive KernelObject :=
| OIpcEndpoint (o : IpcEndpoint)
| OBootModule (o : BootModuleObject)
| OStoreObject (o : StoreObject)
| OStateVolume (o : StateVolumeObject)
| OTimer (o : TimerObject)
| ONetworkPort (o : NetworkPortObject)
| OIoPortRange (o : IoPortRangeObject)
| OMmioRegion (o : MmioRegionObject)
| OFramebuffer (o : FramebufferObject)
| OInterruptLine (o : InterruptLineObject)
| ODmaRegion (o : DmaRegionObject)
| OPciDevice (o : PciDeviceObject)
| OVirtioDevice (o : VirtioDeviceObject)
| ONamespace (o : NamespaceObject)
| OVfsRoot (o : VfsRootObject)
| OVfsMount (o : VfsMountObject)
| OProcessControl (o : ProcessControlObject)
| OSecret (o : SecretObject).

(** [KernelObject::id]. *)
Definition object_id (o : KernelObject) : KernelObjectId :=
  match o with
  | OIpcEndpoint o => ep_id o
  | OBootModule o => bm_id o
  | OStoreObject o => so_id o
  | OStateVolume o => sv_id o
  | OTimer o => tm_id o
  | ONetworkPort o => np_id o
  | OIoPortRange o => io_id o
  | OMmioRegion o => mmio_id o
  | OFramebuffer o => fb_id o
  | OInterruptLine o => il_id o
  | ODmaRegion o => dma_id o
  | OPciDevice o => pci_id o
  | OVirtioDevice o => vd_id o
  | ONamespace o => ns_id o
  | OVfsRoot o => vr_id o
  | OVfsMount o => vm_id o
  | OProcessControl o => pc_id o
  | OSecret o => sec_id o
  end.

(** * The object table *)

Record ObjectTable := mkObjectTable {
  objects : list (option KernelObject);
  count : nat;
  next_id : Z
}.
#[export] Instance eta_ObjectTable : Eta ObjectTable := λ t,
  mkObjectTable (objects t) (count t) (next_id t).

(** [ObjectTable::new]. *)
Definition table_new : ObjectTable :=
  mkObjectTable (replicate MAX_OBJECTS None) 0 BOOT_ENDPOINT_ID.

(** [ObjectTable::reset]: the slots keep their stale contents. *)
Definition table_reset (t : ObjectTable) : ObjectTable :=
  t <| count := 0 |> <| next_id := BOOT_ENDPOINT_ID |>.

(** [ObjectTable::insert_object]: the first hole below [count], else the next
    free slot. *)
Definition insert_object (t : ObjectTable) (object : KernelObject) :
    Result InitError unit * ObjectTable :=
  match first_index (λ o : option KernelObject, bool_decide (o = None)) (objects t) (count t) with
  | Some index => (Ok tt, t <| objects := <[index := Some object]> (objects t) |>)
  | None =>
      if count t =? length (objects t) then (Err ObjectTableFull, t)
      else (Ok tt, t <| objects := <[count t := Some object]> (objects t) |>
                     <| count := S (count t) |>)
  end.

(** The body the [add_*] functions share: refuse when [count] has reached the
    array length, take the next identifier, and append. *)
Definition push_object (t : ObjectTable) (mk : KernelObjectId → KernelObject) :
    Result InitError KernelObjectId * ObjectTable :=
  if count t =? length (objects t) then (Err ObjectTableFull, t)
  else
    let id := next_id t in
    (Ok id, t <| next_id := wrap_u64 (id + 1) |>
              <| objects := <[count t := Some (mk id)]> (objects t) |>
              <| count := S (count t) |>).

(** [ObjectTable::add_endpoint_owned]: the identifier is only consumed when the
    insertion succeeds. *)
Definition add_endpoint_owned (t : ObjectTable) (name : string) (owner : ProcessId) :
    Result InitError KernelObjectId * ObjectTable :=
  let id := next_id t in
  match insert_object t (OIpcEndpoint (endpoint_new id name owner)) with
  | (Err e, t') => (Err e, t')
  | (Ok _, t') => (Ok id, t' <| next_id := wrap_u64 (id + 1) |>)
  end.

(** [ObjectTable::add_endpoint]. *)
Definition add_endpoint (t : ObjectTable) (name : string) :
    Result InitError KernelObjectId * ObjectTable :=
  add_endpoint_owned t name pid_empty.

(** [ObjectTable::add_boot_module]. *)
Definition add_boot_module (t : ObjectTable) (name : string) (base length : Z) :
    Result InitError KernelObjectId * ObjectTable :=
  push_object t (λ id, OBootModule (mkBootModuleObject id name base length)).

(** [ObjectTable::add_store_object]. *)
Definition add_store_object (t : ObjectTable) (name : string) (base length : Z) (hash : string) :
    Result InitError KernelObjectId * ObjectTable :=
  push_object t (λ id, OStoreObject (mkStoreObject id name base length hash)).

(** [ObjectTable::add_state_volume]. *)
Definition add_state_volume (t : ObjectTable) (state : BootStateVolumeConfig) :
    Result InitError KernelObjectId * ObjectTable :=
  push_object t (λ id, OStateVolume (state_volume_new id state)).

(** [ObjectTable::add_timer]. *)
Definition add_timer (t : ObjectTable) (name : string) :
    Result InitError KernelObjectId * ObjectTable :=
  push_object t (λ id, OTimer (mkTimerObject id name)).

(** [ObjectTable::add_network_port]. *)
Definition add_network_port (t : ObjectTable) (name : string) :
    Result InitError KernelObjectId * ObjectTable :=
  push_object t (λ id, ONetworkPort (network_port_new id name)).

(** [ObjectTable::add_io_port]. *)
Definition add_io_port (t : ObjectTable) (name : string) (base length : Z) :
    Result InitError KernelObjectId * ObjectTable :=
  push_object t (λ id, OIoPortRange (mkIoPortRangeObject id name base length)).

(** [ObjectTable::add_mmio_region]. *)
Definition add_mmio_region (t : ObjectTable) (name : string) (base length : Z) :
    Result InitError KernelObjectId * ObjectTable :=
  push_object t (λ id, OMmioRegion (mkMmioRegionObject id name base length)).

(** [ObjectTable::add_framebuffer]. *)
Definition add_framebuffer (t : ObjectTable) (name : string)
    (physical_base length width height pitch bpp red_mask_size red_mask_shift
     green_mask_size green_mask_shift blue_mask_size blue_mask_shift : Z) :
    Result InitError KernelObjectId * ObjectTable :=
  push_object t (λ id, OFramebuffer (mkFramebufferObject id name physical_base length
    width height pitch bpp red_mask_size red_mask_shift green_mask_size green_mask_shift
    blue_mask_size blue_mask_shift)).

(** [ObjectTable::add_interrupt_line]. *)
Definition add_interrupt_line (t : ObjectTable) (name : string) (line : Z) :
    Result InitError KernelObjectId * ObjectTable :=
  push_object t (λ id, OInterruptLine (mkInterruptLineObject id name line 0 0 0)).

(** [ObjectTable::add_dma_region]. *)
Definition add_dma_region (t : ObjectTable) (name : string) (base length : Z) :
    Result InitError KernelObjectId * ObjectTable :=
  push_object t (λ id, ODmaRegion (mkDmaRegionObject id name base length pid_empty 0 0)).

(** [ObjectTable::add_pci_device]. *)
Definition add_pci_device (t : ObjectTable) (name kind : string) :
    Result InitError KernelObjectId * ObjectTable :=
  push_object t (λ id, OPciDevice (mkPciDeviceObject id name kind)).

(** [ObjectTable::add_virtio_device]. *)
Definition add_virtio_device (t : ObjectTable) (name transport : string) :
    Result InitError KernelObjectId * ObjectTable :=
  push_object t (λ id, OVirtioDevice
    (mkVirtioDeviceObject id name transport pid_empty 0 0 0 0 0 0 0 "none")).

(** [ObjectTable::add_namespace]. *)
Definition add_namespace (t : ObjectTable) (name : string)
    (entries : list (option NamespaceEntry)) (entry_count : nat) :
    Result InitError KernelObjectId * ObjectTable :=
  push_object t (λ id, ONamespace (mkNamespaceObject id name entries entry_count)).

(** [ObjectTable::add_vfs_root]: the full table is reported before the path is
    parsed. *)
Definition add_vfs_root (t : ObjectTable) (name root_path : string) :
    Result InitError KernelObjectId * ObjectTable :=
  if count t =? length (objects t) then (Err ObjectTableFull, t)
  else
    match from_boot_root_path root_path with
    | Err e => (Err e, t)
    | Ok p => push_object t (λ id, OVfsRoot (mkVfsRootObject id name p false))
    end.

(** [ObjectTable::add_derived_vfs_root]. *)
Definition add_derived_vfs_root (t : ObjectTable) (root_path : VfsPath) :
    Result IpcError KernelObjectId * ObjectTable :=
  let '(r, t') := push_object t (λ id,
    OVfsRoot (mkVfsRootObject id "vfs-root:derived" root_path true)) in
  (map_err (λ _, BadCapability) r, t').

(** [ObjectTable::add_vfs_mount]: refused when [count] is at the limit, then
    stored in the first hole. *)
Definition add_vfs_mount (t : ObjectTable) (name : string) (root_node : VfsNodeId)
    (root_path : VfsPath) (source : string) (flags : Z) (dynamic : bool) (owner : ProcessId) :
    Result InitError KernelObjectId * ObjectTable :=
  if count t =? length (objects t) then (Err ObjectTableFull, t)
  else
    let id := next_id t in
    let t1 := t <| next_id := wrap_u64 (id + 1) |> in
    match insert_object t1
            (OVfsMount (vfs_mount_new id name root_node root_path source flags dynamic owner)) with
    | (Err e, t2) => (Err e, t2)
    | (Ok _, t2) => (Ok id, t2)
    end.

(** [ObjectTable::add_process_control]. *)
Definition add_process_control (t : ObjectTable) (name : string) :
    Result InitError KernelObjectId * ObjectTable :=
  push_object t (λ id, OProcessControl (mkProcessControlObject id name)).

(** [ObjectTable::add_secret]. *)
Definition add_secret (t : ObjectTable) (name : string) (value : list byte) :
    Result InitError KernelObjectId * ObjectTable :=
  push_object t (λ id, OSecret (mkSecretObject id name value)).

(** [ObjectTable::trim_empty_tail]. *)
Definition trim_empty_tail (t : ObjectTable) : ObjectTable :=
  t <| count := trim_count (objects t) (count t) |>.

(** * Removal *)

(** Drop the first object [p] selects, and trim; [None] when there is none. *)
Definition remove_first_object (p : KernelObject → bool) (t : ObjectTable) :
    option KernelObject * ObjectTable :=
  match first_index (λ o, match o with Some o => p o | None => false end)
          (objects t) (count t) with
  | Some index =>
      (mjoin (objects t !! index),
       trim_empty_tail (t <| objects := <[index := None]> (objects t) |>))
  | None => (None, t)
  end.

(** The endpoint pattern of [remove_owned_endpoints]. *)
Definition is_endpoint_of (owner : ProcessId) (o : KernelObject) : bool :=
  match o with OIpcEndpoint e => (ep_owner e =? owner)%Z | _ => false end.

(** [ObjectTable::endpoint_count]. *)
Definition endpoint_count (t : ObjectTable) : nat :=
  count_upto (λ o, match o with Some (OIpcEndpoint _) => true | _ => false end)
    (objects t) (count t).

(** [ObjectTable::remove_owned_endpoints]. *)
Definition remove_owned_endpoints (t : ObjectTable) (owner : ProcessId) : nat * ObjectTable :=
  let owned := λ o, match o with Some o => is_endpoint_of owner o | None => false end in
  (count_upto owned (objects t) (count t),
   trim_empty_tail
     (t <| objects := map_upto (λ o, if owned o then None else o) (objects t) (count t) |>)).

(** [ObjectTable::remove_owned_endpoint]. *)
Definition remove_owned_endpoint (t : ObjectTable) (id : KernelObjectId) (owner : ProcessId) :
    bool * ObjectTable :=
  let '(r, t') := remove_first_object
    (λ o, match o with
          | OIpcEndpoint e => (ep_id e =? id)%Z && (ep_owner e =? owner)%Z
          | _ => false
          end) t in
  (bool_decide (is_Some r), t').

(** [ObjectTable::remove_derived_vfs_root]. *)
Definition remove_derived_vfs_root (t : ObjectTable) (id : KernelObjectId) : bool * ObjectTable :=
  let '(r, t') := remove_first_object
    (λ o, match o with OVfsRoot r => (vr_id r =? id)%Z && vr_derived r | _ => false end) t in
  (bool_decide (is_Some r), t').

(** [ObjectTable::remove_dynamic_vfs_mount]. *)
Definition remove_dynamic_vfs_mount (t : ObjectTable) (root_node : VfsNodeId) :
    option KernelObjectId * ObjectTable :=
  let '(r, t') := remove_first_object
    (λ o, match o with
          | OVfsMount m => (vm_root_node m =? root_node)%Z && vm_dynamic m
          | _ => false
          end) t in
  (object_id <$> r, t').

(** [ObjectTable::remove_dynamic_vfs_mount_by_path]. *)
Definition remove_dynamic_vfs_mount_by_path (t : ObjectTable) (root_path : list byte) :
    option KernelObjectId * ObjectTable :=
  let '(r, t') := remove_first_object
    (λ o, match o with
          | OVfsMount m => bytes_eqb (path_as_bytes (vm_root_path m)) root_path && vm_dynamic m
          | _ => false
          end) t in
  (object_id <$> r, t').

(** [ObjectTable::live_count]. *)
Definition live_count (t : ObjectTable) : nat :=
  count_upto (λ o : option KernelObject, bool_decide (is_Some o)) (objects t) (count t).

(** * Lookup *)

(** The scan of the [get_*] functions: the first live entry [sel] accepts. *)
Definition find_object {A} (sel : KernelObject → option A) (t : ObjectTable) : option A :=
  first_some (λ o, match o with Some o => sel o | None => None end) (objects t) (count t).

(** Keep a payload when its identifier is the one asked for. *)
Definition with_id {A} (get_id : A → KernelObjectId) (id : KernelObjectId) (a : A) : option A :=
  if (get_id a =? id)%Z then Some a else None.

(** [ObjectTable::get_endpoint]. *)
Definition get_endpoint (t : ObjectTable) (id : KernelObjectId) : option IpcEndpoint :=
  find_object (λ o, match o with OIpcEndpoint a => with_id ep_id id a | _ => None end) t.

(** [ObjectTable::get_boot_module]. *)
Definition get_boot_module (t : ObjectTable) (id : KernelObjectId) : option BootModuleObject :=
  find_object (λ o, match o with OBootModule a => with_id bm_id id a | _ => None end) t.

(** [ObjectTable::get_store_object]. *)
Definition get_store_object (t : ObjectTable) (id : KernelObjectId) : option StoreObject :=
  find_object (λ o, match o with OStoreObject a => with_id so_id id a | _ => None end) t.

(** [ObjectTable::get_state_volume]. *)
Definition get_state_volume (t : ObjectTable) (id : KernelObjectId) : option StateVolumeObject :=
  find_object (λ o, match o with OStateVolume a => with_id sv_id id a | _ => None end) t.

(** [ObjectTable::get_network_port]. *)
Definition get_network_port (t : ObjectTable) (id : KernelObjectId) : option NetworkPortObject :=
  find_object (λ o, match o with ONetworkPort a => with_id np_id id a | _ => None end) t.

(** [ObjectTable::get_timer]. *)
Definition get_timer (t : ObjectTable) (id : KernelObjectId) : option TimerObject :=
  find_object (λ o, match o with OTimer a => with_id tm_id id a | _ => None end) t.

(** [ObjectTable::get_io_port]. *)
Definition get_io_port (t : ObjectTable) (id : KernelObjectId) : option IoPortRangeObject :=
  find_object (λ o, match o with OIoPortRange a => with_id io_id id a | _ => None end) t.

(** [ObjectTable::get_mmio_region]. *)
Definition get_mmio_region (t : ObjectTable) (id : KernelObjectId) : option MmioRegionObject :=
  find_object (λ o, match o with OMmioRegion a => with_id mmio_id id a | _ => None end) t.

(** [ObjectTable::get_framebuffer]. *)
Definition get_framebuffer (t : ObjectTable) (id : KernelObjectId) : option FramebufferObject :=
  find_object (λ o, match o with OFramebuffer a => with_id fb_id id a | _ => None end) t.

(** [ObjectTable::get_interrupt_line]. *)
Definition get_interrupt_line (t : ObjectTable) (id : KernelObjectId) : option InterruptLineObject :=
  find_object (λ o, match o with OInterruptLine a => with_id il_id id a | _ => None end) t.

(** [ObjectTable::get_dma_region]. *)
Definition get_dma_region (t : ObjectTable) (id : KernelObjectId) : option DmaRegionObject :=
  find_object (λ o, match o with ODmaRegion a => with_id dma_id id a | _ => None end) t.

(** [ObjectTable::get_virtio_device]. *)
Definition get_virtio_device (t : ObjectTable) (id : KernelObjectId) : option VirtioDeviceObject :=
  find_object (λ o, match o with OVirtioDevice a => with_id vd_id id a | _ => None end) t.

(** [ObjectTable::get_namespace]. *)
Definition get_namespace (t : ObjectTable) (id : KernelObjectId) : option NamespaceObject :=
  find_object (λ o, match o with ONamespace a => with_id ns_id id a | _ => None end) t.

(** [ObjectTable::get_vfs_root]. *)
Definition get_vfs_root (t : ObjectTable) (id : KernelObjectId) : option VfsRootObject :=
  find_object (λ o, match o with OVfsRoot a => with_id vr_id id a | _ => None end) t.

(** [ObjectTable::get_process_control]. *)
Definition get_process_control (t : ObjectTable) (id : KernelObjectId) : option ProcessControlObject :=
  find_object (λ o, match o with OProcessControl a => with_id pc_id id a | _ => None end) t.

(** [ObjectTable::get_secret]. *)
Definition get_secret (t : ObjectTable) (id : KernelObjectId) : option SecretObject :=
  find_object (λ o, match o with OSecret a => with_id sec_id id a | _ => None end) t.

(** [ObjectTable::get_interrupt_line_by_number]. *)
Definition get_interrupt_line_by_number (t : ObjectTable) (irq_line : Z) :
    option InterruptLineObject :=
  find_object (λ o, match o with OInterruptLine a => with_id il_line irq_line a | _ => None end) t.

(** [ObjectTable::get_vfs_mount_by_root_node]. *)
Definition get_vfs_mount_by_root_node (t : ObjectTable) (root_node : VfsNodeId) :
    option VfsMountObject :=
  find_object (λ o, match o with OVfsMount a => with_id vm_root_node root_node a | _ => None end) t.

(** [ObjectTable::get_vfs_mount_by_exact_path]. *)
Definition get_vfs_mount_by_exact_path (t : ObjectTable) (path : list byte) :
    option VfsMountObject :=
  find_object (λ o, match o with
                    | OVfsMount m =>
                        if bytes_eqb (path_as_bytes (vm_root_path m)) path then Some m else None
                    | _ => None
                    end) t.

(** One round of the loop of [get_vfs_mount_by_path]. *)
Definition better_mount (path : list byte) (best : option VfsMountObject * nat)
    (o : option KernelObject) : option VfsMountObject * nat :=
  match o with
  | Some (OVfsMount mount) =>
      let root_path := path_as_bytes (vm_root_path mount) in
      if vfs_authority_path_covers root_path path && (best.2 <=? length root_path)
      then (Some mount, length root_path) else best
  | _ => best
  end.

(** [ObjectTable::get_vfs_mount_by_path]. *)
Definition get_vfs_mount_by_path (t : ObjectTable) (path : list byte) : option VfsMountObject :=
  (foldl (better_mount path) (None, 0) (take (count t) (objects t))).1.

(** [get_endpoint_mut], [get_network_port_mut], [get_interrupt_line_mut],
    [get_dma_region_mut] and [get_virtio_device_mut] return a reference to the
    payload of the first matching slot; the model returns the slot and its
    payload, and writes the payload back with [set_object]. *)
Definition find_object_mut {A} (sel : KernelObject → option A) (t : ObjectTable) :
    option (nat * A) :=
  match first_index (λ o, match o with Some o => bool_decide (is_Some (sel o)) | None => false end)
          (objects t) (count t) with
  | Some index => pair index <$> (mjoin (objects t !! index) ≫= sel)
  | None => None
  end.

Definition set_object (t : ObjectTable) (index : nat) (o : KernelObject) : ObjectTable :=
  t <| objects := <[index := Some o]> (objects t) |>.

(** [ObjectTable::get_endpoint_mut]. *)
Definition get_endpoint_mut (t : ObjectTable) (id : KernelObjectId) : option (nat * IpcEndpoint) :=
  find_object_mut (λ o, match o with OIpcEndpoint a => with_id ep_id id a | _ => None end) t.

(** [ObjectTable::get_network_port_mut]. *)
Definition get_network_port_mut (t : ObjectTable) (id : KernelObjectId) :
    option (nat * NetworkPortObject) :=
  find_object_mut (λ o, match o with ONetworkPort a => with_id np_id id a | _ => None end) t.

(** [ObjectTable::get_interrupt_line_mut]. *)
Definition get_interrupt_line_mut (t : ObjectTable) (id : KernelObjectId) :
    option (nat * InterruptLineObject) :=
  find_object_mut (λ o, match o with OInterruptLine a => with_id il_id id a | _ => None end) t.

(** [ObjectTable::get_dma_region_mut]. *)
Definition get_dma_region_mut (t : ObjectTable) (id : KernelObjectId) : option (nat * DmaRegionObject) :=
  find_object_mut (λ o, match o with ODmaRegion a => with_id dma_id id a | _ => None end) t.

(** [ObjectTable::get_virtio_device_mut]. *)
Definition get_virtio_device_mut (t : ObjectTable) (id : KernelObjectId) : option (nat * VirtioDeviceObject) :=
  find_object_mut (λ o, match o with OVirtioDevice a => with_id vd_id id a | _ => None end) t.
