(* ===== verification/Store.v ===== *)
(** The read-only store objects of a generation ([ipc/vfs_nodes.rs],
    [ipc/generation.rs]): their bytes lie in memory the boot loader filled, and
    every access checks them against the BLAKE3 hash the boot manifest names. *)

From S2P Require Import Prelude KernelBase Transport VfsPath KernelObjects.

(** The memory the boot loader left behind the kernel's image, and the hash
    function of the [blake3] crate: 32 bytes for every input. *)
Class StoreMemory := mkStoreMemory {
  loaded_bytes : Z → nat → list byte;
  blake3 : list byte → list byte;
  loaded_bytes_length base n : length (loaded_bytes base n) = n;
  blake3_length bytes : length (blake3 bytes) = 32;
  blake3_bytes bytes : Forall (λ b, 0 ≤ b < 256)%Z (blake3 bytes)
}.

(** The digits [b"0123456789abcdef"]. *)
Definition hex_digit (n : Z) : byte := if (n <? 10)%Z then (48 + n)%Z else (87 + n)%Z.

(** [store_hash_hex]. *)
Definition store_hash_hex (bytes : list byte) : list byte :=
  mjoin ((λ b, [hex_digit (Z.shiftr b 4); hex_digit (Z.land b 15)]) <$> bytes).

Section store.
Context `{StoreMemory}.

(** [store_hash_matches]. *)
Definition store_hash_matches (bytes : list byte) (expected : string) : bool :=
  if negb (String.length expected =? 64) then false
  else bytes_eqb (store_hash_hex (blake3 bytes)) (string_bytes expected).

(** [store_object_bytes]; the length is a [u64], so [store_object_len] never
    fails on the 64-bit target. *)
Definition store_object_bytes (object : StoreObject) : Result IpcError (list byte) :=
  let bytes := loaded_bytes (so_base object) (Z.to_nat (so_length object)) in
  if store_hash_matches bytes (so_hash object) then Ok bytes else Err BadCapability.
End store.

(** * Hexadecimal text is injective *)

Lemma hex_digit_inj a b : (0 ≤ a < 16)%Z → (0 ≤ b < 16)%Z → hex_digit a = hex_digit b → a = b.
Proof. unfold hex_digit. intros ??. repeat case_match; lia. Qed.

Lemma byte_nibbles b : (0 ≤ b < 256)%Z → (0 ≤ Z.shiftr b 4 < 16)%Z ∧ (0 ≤ Z.land b 15 < 16)%Z ∧
  b = (16 * Z.shiftr b 4 + Z.land b 15)%Z.
Proof.
  intros Hb. change 15%Z with (Z.ones 4). rewrite Z.land_ones, Z.shiftr_div_pow2 by lia.
  change (2 ^ 4)%Z with 16%Z. pose proof (Z.mod_pos_bound b 16). pose proof (Z.div_mod b 16).
  split_and!; [apply Z.div_pos; lia|apply Z.div_lt_upper_bound; lia|lia|lia|lia].
Qed.

(** Two byte strings with the same text are equal: the comparison of texts in
    [store_hash_matches] is a comparison of the hashes. *)
Lemma store_hash_hex_inj a b :
  Forall (λ x, 0 ≤ x < 256)%Z a → Forall (λ x, 0 ≤ x < 256)%Z b →
  store_hash_hex a = store_hash_hex b → a = b.
Proof.
  intros Ha. revert b. induction Ha as [|x a Hx Ha IH]; intros b Hb; destruct Hb as [|y b Hy Hb];
    cbn; try done. intros [= H1 H2 H3]. f_equal; [|by apply IH].
  destruct (byte_nibbles x Hx) as (Hx1 & Hx2 & ->), (byte_nibbles y Hy) as (Hy1 & Hy2 & ->).
  apply hex_digit_inj in H1; [|done..]. apply hex_digit_inj in H2; [|done..]. lia.
Qed.

(** An instance: no modules were loaded, and the hash of every input is zero. *)
#[export, refine] Instance empty_store : StoreMemory :=
  mkStoreMemory (λ _ n, replicate n 0%Z) (λ _, replicate 32 0%Z) _ _ _.
Proof.
  - intros. apply length_replicate.
  - done.
  - intros. by apply Forall_replicate.
Defined.
