(* ===== verification/ObjectTableProofs.v ===== *)
(** The object table refines a finite map from identifiers to objects: the
    invariant, the effect of every addition and removal on the map, and the
    lookups. *)

From S2P Require Import Prelude KernelBase Transport VfsPath KernelObjects.

(** * Abstraction and invariant *)

(** Slot [i] is in use and holds [o]. *)
Definition live_at (t : ObjectTable) (i : nat) (o : KernelObject) : Prop :=
  i < count t ∧ objects t !! i = Some (Some o).

Definition live_objects (t : ObjectTable) : list KernelObject :=
  omap id (take (count t) (objects t)).

(** The objects by identifier. *)
Definition table_map (t : ObjectTable) : gmap Z KernelObject :=
  list_to_map ((λ o, (object_id o, o)) <$> live_objects t).

Record table_wf (t : ObjectTable) : Prop := mk_table_wf {
  tw_length : length (objects t) = MAX_OBJECTS;
  tw_count : count t ≤ MAX_OBJECTS;
  tw_next : (1 ≤ next_id t ≤ u64_max)%Z;
  tw_ids i o : live_at t i o → (1 ≤ object_id o < next_id t)%Z;
  tw_unique i j o o' :
    live_at t i o → live_at t j o' → object_id o = object_id o' → i = j
}.

Lemma elem_of_live_objects t o : o ∈ live_objects t ↔ ∃ i, live_at t i o.
Proof.
  unfold live_objects, live_at. rewrite list_elem_of_omap. split.
  - intros (y & Hy & [= ->]). apply list_elem_of_lookup in Hy as [i Hi].
    apply lookup_take_Some in Hi as [? ?]. eauto.
  - intros (i & Hlt & Hi). exists (Some o). split; [|done].
    apply list_elem_of_lookup. exists i. by rewrite lookup_take_lt.
Qed.

Lemma table_map_lookup t k o :
  table_wf t → table_map t !! k = Some o ↔ ∃ i, live_at t i o ∧ object_id o = k.
Proof.
  intros Hwf. unfold table_map. rewrite <-elem_of_list_to_map.
  - rewrite list_elem_of_fmap. split.
    + intros (o' & [= -> ->] & Hin). apply elem_of_live_objects in Hin as [i ?]. eauto.
    + intros (i & Hi & <-). exists o. split; [done|]. apply elem_of_live_objects. eauto.
  - rewrite <-list_fmap_compose. apply (NoDup_fmap_omap object_id). intros i j x x' Hi Hj Hid.
    apply lookup_take_Some in Hi as [??]. apply lookup_take_Some in Hj as [??].
    eapply (tw_unique t Hwf); unfold live_at; eauto.
Qed.

Lemma table_map_None t k :
  table_wf t → table_map t !! k = None ↔ ∀ i o, live_at t i o → object_id o ≠ k.
Proof.
  intros Hwf. rewrite eq_None_not_Some. split.
  - intros Hn i o Hi Hk. apply Hn. exists o. apply table_map_lookup; eauto.
  - intros H [o (i & Hi & Hk)%table_map_lookup]; [|done]. naive_solver.
Qed.

Lemma table_map_fresh t : table_wf t → table_map t !! next_id t = None.
Proof.
  intros Hwf. apply table_map_None; [done|]. intros i o Hi Hk.
  pose proof (tw_ids t Hwf i o Hi). lia.
Qed.

Lemma table_new_wf : table_wf table_new.
Proof.
  split; [done|simpl; lia|cbn; unfold BOOT_ENDPOINT_ID, u64_max; lia|..];
    intros; unfold live_at, table_new in *; simpl in *; lia.
Qed.

Lemma table_reset_wf t : table_wf t → table_wf (table_reset t).
Proof.
  intros [Hl _ _ _ _]. split; [done|simpl; lia|cbn; unfold BOOT_ENDPOINT_ID, u64_max; lia|..];
    intros; unfold live_at, table_reset in *; simpl in *; lia.
Qed.

(** * Insertion *)

(** A table that differs from [t] by a new object in a slot that was free. *)
Definition placed (t t' : ObjectTable) (o : KernelObject) : Prop :=
  length (objects t') = length (objects t) ∧ count t' ≤ length (objects t) ∧
  ∃ i, (∀ x, ¬ live_at t i x) ∧
       ∀ j x, live_at t' j x ↔ (j = i ∧ x = o) ∨ (j ≠ i ∧ live_at t j x).

Lemma place_at t i o n :
  table_wf t → i < MAX_OBJECTS → (∀ x, ¬ live_at t i x) →
  (i < count t ∧ n = count t) ∨ (i = count t ∧ n = S i) →
  placed t (t <| objects := <[i := Some o]> (objects t) |> <| count := n |>) o.
Proof.
  intros [Hl Hc _ _ _] Hi Hfree Hn. unfold placed, live_at, set in *; cbn in *.
  rewrite length_insert. split; [done|]. split; [lia|]. exists i.
  split; [exact Hfree|]. intros j x.
  destruct (decide (j = i)) as [->|Hne].
  - rewrite list_lookup_insert_eq by lia. naive_solver lia.
  - rewrite list_lookup_insert_ne by done. split; [|naive_solver lia].
    intros [Hj Hx]. right. split; [done|]. split; [|done]. lia.
Qed.

Lemma insert_object_placed t o :
  table_wf t →
  match insert_object t o with
  | (Ok _, t') => placed t t' o ∧ next_id t' = next_id t
  | (Err e, t') => t' = t ∧ e = ObjectTableFull ∧ count t = MAX_OBJECTS ∧
                   ∀ i, i < count t → ∃ x, objects t !! i = Some (Some x)
  end.
Proof.
  intros Hwf. pose proof Hwf as [Hl Hc _ _ _]. unfold insert_object.
  destruct (first_index _ (objects t) (count t)) as [i|] eqn:Hi.
  - apply first_index_Some in Hi as (Hlt & (x & Hx & Hp) & _).
    apply bool_decide_eq_true in Hp as ->. split; [|done].
    assert (H : placed t (t <| objects := <[i := Some o]> (objects t) |>
                            <| count := count t |>) o)
      by (apply place_at; [done|lia|intros x [_ ?]; congruence|by left]).
    by destruct t.
  - destruct (Nat.eqb_spec (count t) (length (objects t))) as [Hfull|Hfull].
    + split; [done|]. split; [done|]. split; [lia|]. intros i Hi'.
      destruct (lookup_lt_is_Some_2 (objects t) i ltac:(lia)) as [[x|] Hx]; [eauto|].
      apply first_index_None with (j := i) (y := None) in Hi; [|done..].
      by apply bool_decide_eq_false in Hi.
    + split; [|done]. apply place_at; [done|lia|intros x [? _]; lia|by right].
Qed.

Lemma push_object_placed t mk :
  table_wf t →
  match push_object t mk with
  | (Ok id, t') => id = next_id t ∧ placed t t' (mk id) ∧ next_id t' = wrap_u64 (id + 1)
  | (Err e, t') => t' = t ∧ e = ObjectTableFull ∧ count t = MAX_OBJECTS
  end.
Proof.
  intros Hwf. pose proof Hwf as [Hl Hc _ _ _]. unfold push_object.
  destruct (Nat.eqb_spec (count t) (length (objects t))) as [Hfull|Hfull]; [naive_solver lia|].
  split; [done|]. split; [|done].
  apply (place_at t (count t) (mk (next_id t)) (S (count t)));
    [done|lia|intros x [? _]; lia|by right].
Qed.

Lemma placed_map t t' o :
  table_wf t → placed t t' o → object_id o = next_id t →
  (next_id t < u64_max)%Z → next_id t' = wrap_u64 (next_id t + 1) →
  table_wf t' ∧ table_map t' = <[next_id t := o]> (table_map t) ∧
  next_id t' = (next_id t + 1)%Z.
Proof.
  intros Hwf (Hl & Hc & i & Hfree & Hlive) Hid Hmax Hnext. pose proof Hwf as [Hl0 Hc0 Hn Hids Hu].
  rewrite wrap_u64_small in Hnext by (unfold is_u64; lia).
  assert (Hwf' : table_wf t').
  { split; [lia|lia|lia|..].
    - intros j x [[-> ->]|[_ Hx]]%Hlive; [lia|]. specialize (Hids j x Hx). lia.
    - intros j k x y [[-> ->]|[? Hx]]%Hlive [[-> ->]|[? Hy]]%Hlive Heq; [done|..].
      + specialize (Hids _ _ Hy). lia.
      + specialize (Hids _ _ Hx). lia.
      + eauto. }
  split; [done|]. split; [|done]. apply map_eq; intros k. apply option_eq; intros x.
  rewrite table_map_lookup by done. rewrite lookup_insert_Some, table_map_lookup by done.
  split.
  - intros (j & [[-> ->]|[? Hx]]%Hlive & <-); [left; done|]. right.
    pose proof (Hids _ _ Hx). split; [lia|eauto].
  - intros [[<- ->]|(Hne & j & Hx & <-)]; [exists i; rewrite Hlive; auto|].
    exists j. split; [|done]. apply Hlive. right. split; [|done].
    intros ->. by apply (Hfree x).
Qed.

(** * Removal *)

(** A table that keeps exactly the objects [keep] selects. *)
Definition pruned (t t' : ObjectTable) (keep : nat → KernelObject → Prop) : Prop :=
  length (objects t') = length (objects t) ∧ count t' ≤ count t ∧ next_id t' = next_id t ∧
  ∀ j x, live_at t' j x ↔ live_at t j x ∧ keep j x.

Lemma trim_live t j x : live_at (trim_empty_tail t) j x ↔ live_at t j x.
Proof.
  unfold live_at, trim_empty_tail, set; cbn. split.
  - intros [Hj Hx]. pose proof (trim_count_le (objects t) (count t)). split; [lia|done].
  - intros [Hj Hx]. split; [|done].
    destruct (decide (j < trim_count (objects t) (count t))); [done|].
    exfalso. eapply trim_count_above; [|exact Hj|exact Hx]. lia.
Qed.

Lemma pruned_wf t t' keep : table_wf t → pruned t t' keep → table_wf t'.
Proof.
  intros [Hl Hc Hn Hids Hu] (Hl' & Hc' & Hn' & Hlive). split; [lia..| |].
  - intros i o [Ho _]%Hlive. rewrite Hn'. eauto.
  - intros i j o o' [Ho _]%Hlive [Ho' _]%Hlive. eauto.
Qed.

Lemma remove_first_object_pruned p t :
  table_wf t →
  match remove_first_object p t with
  | (Some o, t') =>
      ∃ i, live_at t i o ∧ p o = true ∧ pruned t t' (λ j _, j ≠ i) ∧
           ∀ j x, j < i → live_at t j x → p x = false
  | (None, t') => t' = t ∧ ∀ i o, live_at t i o → p o = false
  end.
Proof.
  intros [Hl Hc _ _ _]. unfold remove_first_object.
  destruct (first_index _ (objects t) (count t)) as [i|] eqn:Hi.
  - apply first_index_Some in Hi as (Hlt & (x & Hx & Hp) & Hmin).
    destruct x as [o|]; [|done]. rewrite Hx; cbn. exists i. split; [done|]. split; [done|].
    split.
    + split; [cbn; by rewrite length_insert|].
      split; [apply trim_count_le|]. split; [done|]. intros j y.
      rewrite trim_live. unfold live_at, set; cbn.
      destruct (decide (j = i)) as [->|Hne].
      * rewrite list_lookup_insert_eq by lia. naive_solver.
      * rewrite list_lookup_insert_ne by done. naive_solver.
    + intros j y Hj [_ Hy]. exact (Hmin j (Some y) Hj Hy).
  - split; [done|]. intros i o [Hlt Ho].
    exact (proj1 (first_index_None _ _ _) Hi i (Some o) Hlt Ho).
Qed.

Lemma remove_owned_endpoints_pruned t owner :
  pruned t (remove_owned_endpoints t owner).2 (λ _ o, is_endpoint_of owner o = false).
Proof.
  unfold remove_owned_endpoints; cbn [snd].
  split; [unfold trim_empty_tail, set; cbn; apply length_map_upto|].
  split; [unfold trim_empty_tail, set; cbn; apply trim_count_le|].
  split; [done|]. intros j x. rewrite trim_live. unfold live_at, set; cbn.
  rewrite lookup_map_upto. case_bool_decide as Hj; [|naive_solver].
  destruct (objects t !! j) as [[o|]|]; cbn; [|naive_solver..].
  destruct (is_endpoint_of owner o) eqn:Ho; split; naive_solver congruence.
Qed.

Lemma pruned_map t t' keep :
  table_wf t → pruned t t' keep →
  ∀ k o, table_map t' !! k = Some o ↔
         ∃ i, live_at t i o ∧ object_id o = k ∧ keep i o.
Proof.
  intros Hwf Hp k o. rewrite table_map_lookup by eauto using pruned_wf.
  destruct Hp as (_ & _ & _ & Hlive). setoid_rewrite Hlive. naive_solver.
Qed.

(** * Lookup *)

Lemma find_object_map {A} (sel : KernelObject → option A) t id :
  table_wf t → (∀ o a, sel o = Some a → object_id o = id) →
  find_object sel t = table_map t !! id ≫= sel.
Proof.
  intros Hwf Hsel. unfold find_object. destruct (table_map t !! id) as [o|] eqn:Hm; cbn.
  - apply table_map_lookup in Hm as (i & [Hlt Hi] & Hid); [|done].
    destruct (sel o) as [a|] eqn:Ha.
    + apply first_some_Some. exists i, (Some o). repeat split; [done..|].
      intros j [y|] Hj Hy; [|done]. destruct (sel y) as [b|] eqn:Hb; [|done].
      apply Hsel in Hb. exfalso.
      pose proof (tw_unique t Hwf i j o y) as Hu. unfold live_at in Hu.
      assert (i = j); [apply Hu; [done|split; [lia|done]|congruence]|lia].
    + apply first_some_None. intros j [y|] Hj Hy; [|done].
      destruct (sel y) as [b|] eqn:Hb; [|done]. exfalso. pose proof (Hsel _ _ Hb) as Hid'.
      pose proof (tw_unique t Hwf i j o y) as Hu. unfold live_at in Hu.
      assert (i = j) as <-; [apply Hu; [done|done|congruence]|]. congruence.
  - apply first_some_None. intros j [y|] Hj Hy; [|done].
    destruct (sel y) as [b|] eqn:Hb; [|done]. exfalso. apply Hsel in Hb.
    by apply (proj1 (table_map_None t id Hwf) Hm j y).
Qed.

Lemma with_id_Some {A} (get_id : A → Z) id a b :
  with_id get_id id a = Some b ↔ b = a ∧ get_id a = id.
Proof. unfold with_id. destruct (Z.eqb_spec (get_id a) id); naive_solver. Qed.

(** * Requests *)

(** Every way an object enters the table. *)
Inductive AddRequest :=
| AddEndpoint (name : string) (owner : ProcessId)
| AddBootModule (name : string) (base len : Z)
| AddStoreObject (name : string) (base len : Z) (hash : string)
| AddStateVolume (state : BootStateVolumeConfig)
| AddTimer (name : string)
| AddNetworkPort (name : string)
| AddIoPort (name : string) (base len : Z)
| AddMmioRegion (name : string) (base len : Z)
| AddFramebuffer (name : string) (base len w h pitch bpp rs rsh gs gsh bs bsh : Z)
| AddInterruptLine (name : string) (line : Z)
| AddDmaRegion (name : string) (base len : Z)
| AddPciDevice (name kind : string)
| AddVirtioDevice (name transport : string)
| AddNamespace (name : string) (entries : list (option NamespaceEntry)) (n : nat)
| AddVfsRoot (name path : string)
| AddDerivedVfsRoot (path : VfsPath)
| AddVfsMount (name : string) (root_node : Z) (path : VfsPath) (source : string)
    (flags : Z) (dynamic : bool) (owner : ProcessId)
| AddProcessControl (name : string)
| AddSecret (name : string) (value : list byte).

Definition ok_option {E A} (r : Result E A) : option A :=
  match r with Ok a => Some a | Err _ => None end.

(** The table function that serves a request; the kind of error is dropped. *)
Definition run_add (t : ObjectTable) (req : AddRequest) : option KernelObjectId * ObjectTable :=
  match req with
  | AddEndpoint n o => let '(r, t') := add_endpoint_owned t n o in (ok_option r, t')
  | AddBootModule n b l => let '(r, t') := add_boot_module t n b l in (ok_option r, t')
  | AddStoreObject n b l h => let '(r, t') := add_store_object t n b l h in (ok_option r, t')
  | AddStateVolume s => let '(r, t') := add_state_volume t s in (ok_option r, t')
  | AddTimer n => let '(r, t') := add_timer t n in (ok_option r, t')
  | AddNetworkPort n => let '(r, t') := add_network_port t n in (ok_option r, t')
  | AddIoPort n b l => let '(r, t') := add_io_port t n b l in (ok_option r, t')
  | AddMmioRegion n b l => let '(r, t') := add_mmio_region t n b l in (ok_option r, t')
  | AddFramebuffer n b l w h p bpp rs rsh gs gsh bs bsh =>
      let '(r, t') := add_framebuffer t n b l w h p bpp rs rsh gs gsh bs bsh in (ok_option r, t')
  | AddInterruptLine n l => let '(r, t') := add_interrupt_line t n l in (ok_option r, t')
  | AddDmaRegion n b l => let '(r, t') := add_dma_region t n b l in (ok_option r, t')
  | AddPciDevice n k => let '(r, t') := add_pci_device t n k in (ok_option r, t')
  | AddVirtioDevice n k => let '(r, t') := add_virtio_device t n k in (ok_option r, t')
  | AddNamespace n e c => let '(r, t') := add_namespace t n e c in (ok_option r, t')
  | AddVfsRoot n p => let '(r, t') := add_vfs_root t n p in (ok_option r, t')
  | AddDerivedVfsRoot p => let '(r, t') := add_derived_vfs_root t p in (ok_option r, t')
  | AddVfsMount n rn p s f d o =>
      let '(r, t') := add_vfs_mount t n rn p s f d o in (ok_option r, t')
  | AddProcessControl n => let '(r, t') := add_process_control t n in (ok_option r, t')
  | AddSecret n v => let '(r, t') := add_secret t n v in (ok_option r, t')
  end.

(** The object a request asks for; [None] for a root path the parser refuses. *)
Definition requested_object (req : AddRequest) (id : KernelObjectId) : option KernelObject :=
  match req with
  | AddEndpoint n o => Some (OIpcEndpoint (mkIpcEndpoint id n o queue_empty))
  | AddBootModule n b l => Some (OBootModule (mkBootModuleObject id n b l))
  | AddStoreObject n b l h => Some (OStoreObject (mkStoreObject id n b l h))
  | AddStateVolume s => Some (OStateVolume (state_volume_new id s))
  | AddTimer n => Some (OTimer (mkTimerObject id n))
  | AddNetworkPort n => Some (ONetworkPort (mkNetworkPortObject id n queue_empty))
  | AddIoPort n b l => Some (OIoPortRange (mkIoPortRangeObject id n b l))
  | AddMmioRegion n b l => Some (OMmioRegion (mkMmioRegionObject id n b l))
  | AddFramebuffer n b l w h p bpp rs rsh gs gsh bs bsh =>
      Some (OFramebuffer (mkFramebufferObject id n b l w h p bpp rs rsh gs gsh bs bsh))
  | AddInterruptLine n l => Some (OInterruptLine (mkInterruptLineObject id n l 0 0 0))
  | AddDmaRegion n b l => Some (ODmaRegion (mkDmaRegionObject id n b l pid_empty 0 0))
  | AddPciDevice n k => Some (OPciDevice (mkPciDeviceObject id n k))
  | AddVirtioDevice n k =>
      Some (OVirtioDevice (mkVirtioDeviceObject id n k pid_empty 0 0 0 0 0 0 0 "none"))
  | AddNamespace n e c => Some (ONamespace (mkNamespaceObject id n e c))
  | AddVfsRoot n p =>
      match from_boot_root_path p with
      | Ok path => Some (OVfsRoot (mkVfsRootObject id n path false))
      | Err _ => None
      end
  | AddDerivedVfsRoot p => Some (OVfsRoot (mkVfsRootObject id "vfs-root:derived" p true))
  | AddVfsMount n rn p s f d o => Some (OVfsMount (vfs_mount_new id n rn p s f d o))
  | AddProcessControl n => Some (OProcessControl (mkProcessControlObject id n))
  | AddSecret n v => Some (OSecret (mkSecretObject id n v))
  end.

(** What an addition does, seen on the map. *)
Definition added (t t' : ObjectTable) (id : KernelObjectId) (o : KernelObject) : Prop :=
  id = next_id t ∧ object_id o = id ∧ table_map t !! id = None ∧
  table_wf t' ∧ table_map t' = <[id := o]> (table_map t) ∧ next_id t' = (id + 1)%Z.

(** Why an addition is refused: the bump count is at the limit, or the path of
    a VFS root does not parse. *)
Definition add_refused (t : ObjectTable) (req : AddRequest) : Prop :=
  count t = MAX_OBJECTS ∨ requested_object req (next_id t) = None.

Section add.
Context (t : ObjectTable) (Hwf : table_wf t) (Hmax : (next_id t < u64_max)%Z).

Lemma added_intro t' o :
  object_id o = next_id t → table_wf t' →
  table_map t' = <[next_id t := o]> (table_map t) → next_id t' = (next_id t + 1)%Z →
  added t t' (next_id t) o.
Proof. intros. split_and!; try done. by apply table_map_fresh. Qed.

Lemma push_added mk :
  object_id (mk (next_id t)) = next_id t →
  match push_object t mk with
  | (Ok id, t') => added t t' id (mk id)
  | (Err e, t') => t' = t ∧ e = ObjectTableFull ∧ count t = MAX_OBJECTS
  end.
Proof.
  intros Hid. pose proof (push_object_placed t mk Hwf) as H.
  destruct (push_object t mk) as [[id|e] t']; [|done].
  destruct H as (-> & Hp & Hn).
  destruct (placed_map t t' _ Hwf Hp Hid Hmax Hn) as (? & ? & ?).
  by eapply added_intro.
Qed.

Lemma endpoint_added name owner :
  match add_endpoint_owned t name owner with
  | (Ok id, t') => added t t' id (OIpcEndpoint (endpoint_new id name owner))
  | (Err e, t') => t' = t ∧ e = ObjectTableFull ∧ count t = MAX_OBJECTS
  end.
Proof.
  unfold add_endpoint_owned.
  pose proof (insert_object_placed t (OIpcEndpoint (endpoint_new (next_id t) name owner)) Hwf) as H.
  destruct (insert_object _ _) as [[[]|e] t']; [|naive_solver].
  destruct H as [Hp Hn].
  pose (t2 := t' <| next_id := wrap_u64 (next_id t + 1) |>).
  destruct (placed_map t t2 _ Hwf Hp eq_refl Hmax eq_refl) as (? & ? & ?).
  by eapply added_intro.
Qed.

Lemma mount_added name rn path source flags dynamic owner :
  match add_vfs_mount t name rn path source flags dynamic owner with
  | (Ok id, t') =>
      added t t' id (OVfsMount (vfs_mount_new id name rn path source flags dynamic owner))
  | (Err e, t') => t' = t ∧ e = ObjectTableFull ∧ count t = MAX_OBJECTS
  end.
Proof.
  unfold add_vfs_mount. pose proof (tw_length t Hwf) as Hl.
  destruct (Nat.eqb_spec (count t) (length (objects t))) as [Hf|Hf]; [naive_solver lia|].
  set (o := OVfsMount _). set (t1 := t <| next_id := _ |>).
  assert (Hins : insert_object t1 o =
    ((insert_object t o).1, (insert_object t o).2 <| next_id := wrap_u64 (next_id t + 1) |>)).
  { unfold insert_object, t1, set; cbn. by repeat case_match. }
  rewrite Hins. pose proof (insert_object_placed t o Hwf) as H.
  destruct (insert_object t o) as [[[]|e] t']; cbn.
  2:{ destruct H as (_ & _ & Hc & _). lia. }
  destruct H as [Hp Hn].
  pose (t2 := t' <| next_id := wrap_u64 (next_id t + 1) |>).
  destruct (placed_map t t2 _ Hwf Hp eq_refl Hmax eq_refl) as (? & ? & ?).
  by eapply added_intro.
Qed.
End add.

Ltac push_case Hwf Hmax :=
  match goal with
  | |- context [push_object ?t ?mk] =>
      let H := fresh in
      pose proof (push_added t Hwf Hmax mk eq_refl) as H; cbn beta in H;
      destruct (push_object t mk) as [[?|?] ?]; cbn;
      [eexists; split; [reflexivity|exact H]
      |destruct H as (? & _ & ?); split; [done|by left]]
  end.

Lemma run_add_spec t req :
  table_wf t → (next_id t < u64_max)%Z →
  match run_add t req with
  | (Some id, t') => ∃ o, requested_object req id = Some o ∧ added t t' id o
  | (None, t') => t' = t ∧ add_refused t req
  end.
Proof.
  intros Hwf Hmax.
  destruct req; cbn [run_add requested_object]; unfold add_refused;
    unfold add_boot_module, add_store_object, add_state_volume, add_timer, add_network_port,
      add_io_port, add_mmio_region, add_framebuffer, add_interrupt_line, add_dma_region,
      add_pci_device, add_virtio_device, add_namespace, add_derived_vfs_root,
      add_process_control, add_secret, network_port_new;
    try push_case Hwf Hmax.
  - pose proof (endpoint_added t Hwf Hmax name owner) as H.
    destruct (add_endpoint_owned t name owner) as [[id|e] t']; cbn; [eauto|naive_solver].
  - unfold add_vfs_root. destruct (_ =? _) eqn:Hc.
    { cbn. split; [done|]. left. apply Nat.eqb_eq in Hc. rewrite Hc. apply Hwf. }
    cbn [requested_object]. destruct (from_boot_root_path path) as [p|e]; [|cbn; auto].
    push_case Hwf Hmax.
  - pose proof (mount_added t Hwf Hmax name root_node path source flags dynamic owner) as H.
    destruct (add_vfs_mount _ _ _ _ _ _ _ _) as [[id|e] t']; cbn; [eauto|naive_solver].
Qed.

(** * The lookups, through the map *)

Definition as_endpoint (o : KernelObject) : option IpcEndpoint :=
  match o with OIpcEndpoint a => Some a | _ => None end.
Definition as_vfs_root (o : KernelObject) : option VfsRootObject :=
  match o with OVfsRoot a => Some a | _ => None end.
Definition as_process_control (o : KernelObject) : option ProcessControlObject :=
  match o with OProcessControl a => Some a | _ => None end.
Definition as_namespace (o : KernelObject) : option NamespaceObject :=
  match o with ONamespace a => Some a | _ => None end.
Definition as_secret (o : KernelObject) : option SecretObject :=
  match o with OSecret a => Some a | _ => None end.
Definition as_state_volume (o : KernelObject) : option StateVolumeObject :=
  match o with OStateVolume a => Some a | _ => None end.
Definition as_store_object (o : KernelObject) : option StoreObject :=
  match o with OStoreObject a => Some a | _ => None end.
Definition as_boot_module (o : KernelObject) : option BootModuleObject :=
  match o with OBootModule a => Some a | _ => None end.
Definition as_interrupt_line (o : KernelObject) : option InterruptLineObject :=
  match o with OInterruptLine a => Some a | _ => None end.
Definition as_dma_region (o : KernelObject) : option DmaRegionObject :=
  match o with ODmaRegion a => Some a | _ => None end.
Definition as_network_port (o : KernelObject) : option NetworkPortObject :=
  match o with ONetworkPort a => Some a | _ => None end.
Definition as_timer (o : KernelObject) : option TimerObject :=
  match o with OTimer a => Some a | _ => None end.
Definition as_io_port (o : KernelObject) : option IoPortRangeObject :=
  match o with OIoPortRange a => Some a | _ => None end.
Definition as_mmio_region (o : KernelObject) : option MmioRegionObject :=
  match o with OMmioRegion a => Some a | _ => None end.
Definition as_framebuffer (o : KernelObject) : option FramebufferObject :=
  match o with OFramebuffer a => Some a | _ => None end.
Definition as_virtio_device (o : KernelObject) : option VirtioDeviceObject :=
  match o with OVirtioDevice a => Some a | _ => None end.

Lemma get_typed_map {A} (get_id : A → Z) (as_A : KernelObject → option A) t id :
  table_wf t → (∀ o a, as_A o = Some a → object_id o = get_id a) →
  find_object (λ o, as_A o ≫= with_id get_id id) t = table_map t !! id ≫= as_A.
Proof.
  intros Hwf Has.
  rewrite (find_object_map (λ o, as_A o ≫= with_id get_id id) t id Hwf).
  - destruct (table_map t !! id) as [o|] eqn:Hm; [|done]. cbn.
    apply table_map_lookup in Hm as (_ & _ & Hid); [|done].
    destruct (as_A o) as [a|] eqn:Ha; [|done]. cbn. unfold with_id.
    rewrite (proj2 (Z.eqb_eq _ _)); [done|]. by rewrite <-(Has o a Ha).
  - intros o a. destruct (as_A o) as [b|] eqn:Hb; [|done]. cbn.
    intros [-> <-]%with_id_Some. by apply Has.
Qed.

Lemma find_object_ext {A} (f g : KernelObject → option A) t :
  (∀ o, f o = g o) → find_object f t = find_object g t.
Proof.
  intros H. unfold find_object. apply first_some_ext. intros [o|]; [apply H|done].
Qed.

Ltac get_typed Hwf get_id as_A :=
  etransitivity; [|apply (get_typed_map get_id as_A _ _ Hwf); by intros [] ? [= ->]];
  apply find_object_ext; by intros [].

(** * Writing through a mutable lookup *)

(** A mutable lookup finds what the lookup finds, and a write through it
    changes what that lookup finds and no other. *)
Lemma find_object_mut_Some {A} (sel : KernelObject → option A) t i a :
  find_object_mut sel t = Some (i, a) →
  ∃ o, objects t !! i = Some (Some o) ∧ sel o = Some a ∧ find_object sel t = Some a ∧
    (∀ o' b, sel o' = Some b → find_object sel (set_object t i o') = Some b) ∧
    ∀ B (sel' : KernelObject → option B) o', sel' o = None → sel' o' = None →
      find_object sel' (set_object t i o') = find_object sel' t.
Proof.
  unfold find_object_mut. destruct (first_index _ _ _) as [j|] eqn:Hj; [|done].
  apply first_index_Some in Hj as (Hlt & ([o|] & Ho & Hs) & Hmin); [|done].
  rewrite Ho. cbn. intros (b & Hb & [= -> ->])%fmap_Some. exists o.
  set (f := λ o : option KernelObject, match o with Some o => sel o | None => None end).
  assert (Hskip : ∀ k z, k < j → objects t !! k = Some z → f z = None).
  { intros k [z|] Hk Hz; [|done]. specialize (Hmin k _ Hk Hz). cbn in *.
    destruct (sel z); [|done]. by rewrite bool_decide_eq_true_2 in Hmin. }
  split_and!; [done|done|..].
  - by apply (first_some_insert_hit f (objects t) (count t) j (Some o) (Some o) b b).
  - intros o' c Hc. by apply (first_some_insert_hit f (objects t) (count t) j (Some o) (Some o') b c).
  - intros B sel' o' H1 H2. unfold find_object, set_object. by apply first_some_insert_skip with (Some o).
Qed.

Lemma find_object_mut_None {A} (sel : KernelObject → option A) t :
  find_object_mut sel t = None → find_object sel t = None.
Proof.
  unfold find_object_mut. destruct (first_index _ _ _) as [j|] eqn:Hj.
  - apply first_index_Some in Hj as (Hlt & ([o|] & Ho & Hs) & Hmin); [|done].
    rewrite Ho. cbn. apply bool_decide_eq_true in Hs as [a Ha]. by rewrite Ha.
  - intros _. apply first_some_None. intros j [o|] Hlt Ho; [|done].
    pose proof (proj1 (first_index_None _ _ _) Hj j _ Hlt Ho) as Hf. cbn in Hf.
    destruct (sel o); [|done]. by rewrite bool_decide_eq_true_2 in Hf.
Qed.

(** * Every removal, through the map *)

(** [remove_first_object] deletes one identifier from the map, that of the
    first object selected, or changes nothing when none is selected. *)
Lemma remove_first_object_map p t :
  table_wf t →
  match remove_first_object p t with
  | (Some o, t') =>
      table_wf t' ∧ p o = true ∧ table_map t !! object_id o = Some o ∧
      table_map t' = delete (object_id o) (table_map t) ∧ next_id t' = next_id t
  | (None, t') => t' = t ∧ ∀ k o, table_map t !! k = Some o → p o = false
  end.
Proof.
  intros Hwf. pose proof (remove_first_object_pruned p t Hwf) as H.
  destruct (remove_first_object p t) as [[o|] t'].
  - destruct H as (i & Hi & Hp & Hpr & _).
    split; [by eapply pruned_wf|]. split; [done|].
    split; [apply table_map_lookup; eauto|]. split; [|apply Hpr].
    apply map_eq; intros k. apply option_eq; intros x.
    rewrite (pruned_map t t' _ Hwf Hpr), lookup_delete_Some, table_map_lookup by done.
    split.
    + intros (j & Hj & <- & Hne). split; [|eauto]. intros Heq.
      apply Hne. by eapply (tw_unique t Hwf).
    + intros (Hne & j & Hj & <-). exists j. split; [done|]. split; [done|]. intros ->.
      destruct Hj as [_ Hj], Hi as [_ Hi]. congruence.
  - destruct H as [-> H]. split; [done|]. intros k o (i & Hi & _)%table_map_lookup; eauto.
Qed.

Lemma remove_owned_endpoints_map t owner :
  table_wf t →
  table_wf (remove_owned_endpoints t owner).2 ∧
  table_map (remove_owned_endpoints t owner).2 =
    filter (λ kv, is_endpoint_of owner kv.2 = false) (table_map t) ∧
  next_id (remove_owned_endpoints t owner).2 = next_id t.
Proof.
  intros Hwf. pose proof (remove_owned_endpoints_pruned t owner) as Hp.
  split; [by eapply pruned_wf|]. split; [|apply Hp].
  apply map_eq; intros k. apply option_eq; intros x.
  rewrite (pruned_map _ _ _ Hwf Hp), map_lookup_filter_Some, table_map_lookup by done.
  naive_solver.
Qed.

(** * Traces of table operations *)

(** The operations that change the table's population. *)
Inductive TableOp :=
| TopAdd (req : AddRequest)
| TopRemoveOwnedEndpoints (owner : ProcessId)
| TopRemoveOwnedEndpoint (id : KernelObjectId) (owner : ProcessId)
| TopRemoveDerivedRoot (id : KernelObjectId)
| TopRemoveMount (root_node : VfsNodeId)
| TopRemoveMountByPath (root_path : list byte).

(** One operation: the identifier it grants, if any, and the table after it. *)
Definition table_step (t : ObjectTable) (op : TableOp) : option KernelObjectId * ObjectTable :=
  match op with
  | TopAdd req => run_add t req
  | TopRemoveOwnedEndpoints owner => (None, (remove_owned_endpoints t owner).2)
  | TopRemoveOwnedEndpoint id owner => (None, (remove_owned_endpoint t id owner).2)
  | TopRemoveDerivedRoot id => (None, (remove_derived_vfs_root t id).2)
  | TopRemoveMount node => (None, (remove_dynamic_vfs_mount t node).2)
  | TopRemoveMountByPath p => (None, (remove_dynamic_vfs_mount_by_path t p).2)
  end.

(** A sequence of operations: the identifiers granted in order, each with the
    object it was granted for, and the final table. *)
Fixpoint run_table (t : ObjectTable) (ops : list TableOp) :
    list (KernelObjectId * KernelObject) * ObjectTable :=
  match ops with
  | [] => ([], t)
  | op :: ops' =>
      let '(r, t1) := table_step t op in
      let '(g, t2) := run_table t1 ops' in
      match op, r with
      | TopAdd req, Some id =>
          match requested_object req id with
          | Some o => ((id, o) :: g, t2)
          | None => (g, t2)
          end
      | _, _ => (g, t2)
      end
  end.

(** A removal keeps the invariant and the identifier counter, and only takes
    objects away. *)
Definition shrunk (t t' : ObjectTable) : Prop :=
  table_wf t' ∧ table_map t' ⊆ table_map t ∧ next_id t' = next_id t.

Lemma remove_first_object_shrunk p t : table_wf t → shrunk t (remove_first_object p t).2.
Proof.
  intros Hwf. pose proof (remove_first_object_map p t Hwf) as H.
  destruct (remove_first_object p t) as [[o|] t']; cbn.
  - destruct H as (? & _ & _ & Hm & ?). split_and!; [done| |done].
    rewrite Hm. apply delete_subseteq.
  - destruct H as [-> _]. by split_and!.
Qed.

Lemma table_step_remove t op :
  table_wf t → (∀ req, op ≠ TopAdd req) →
  (table_step t op).1 = None ∧ shrunk t (table_step t op).2.
Proof.
  intros Hwf Hop. destruct op; [naive_solver| |..]; (split; [done|]); cbn [table_step snd].
  1:{ destruct (remove_owned_endpoints_map t owner Hwf) as (? & Hm & ?).
      split_and!; [done| |done]. rewrite Hm. apply map_filter_subseteq. }
  all: unfold remove_owned_endpoint, remove_derived_vfs_root, remove_dynamic_vfs_mount,
         remove_dynamic_vfs_mount_by_path.
  all: match goal with |- context [remove_first_object ?p ?t] =>
         pose proof (remove_first_object_shrunk p t ltac:(assumption)); by destruct (remove_first_object p t)
       end.
Qed.

Lemma seqZ_snoc_front n (k : nat) : seqZ n (Z.of_nat (S k)) = n :: seqZ (n + 1) (Z.of_nat k).
Proof. rewrite seqZ_cons by lia. do 2 f_equal; lia. Qed.

Lemma classify_op op : (∃ req, op = TopAdd req) ∨ (∀ req, op ≠ TopAdd req).
Proof. destruct op; [left; eauto|right; done..]. Qed.

Lemma run_table_history t ops :
  table_wf t → (next_id t + Z.of_nat (length ops) ≤ u64_max)%Z →
  let '(g, t') := run_table t ops in
  g.*1 = seqZ (next_id t) (Z.of_nat (length g)) ∧ table_wf t' ∧ next_id t' = (next_id t + Z.of_nat (length g))%Z ∧
  length g ≤ length ops ∧
  ∀ k o, table_map t' !! k = Some o → (k, o) ∈ g ∨ table_map t !! k = Some o.
Proof.
  revert t. induction ops as [|op ops IH]; intros t Hwf Hb; cbn [run_table].
  { split_and!; [done|done|cbn; lia|done|auto]. }
  assert (Hrm : ∀ t1, shrunk t t1 →
    let '(g, t') := run_table t1 ops in
    g.*1 = seqZ (next_id t) (Z.of_nat (length g)) ∧ table_wf t' ∧ next_id t' = (next_id t + Z.of_nat (length g))%Z ∧
    length g ≤ length (op :: ops) ∧
    ∀ k o, table_map t' !! k = Some o → (k, o) ∈ g ∨ table_map t !! k = Some o).
  { intros t1 (Hwf1 & Hsub & Hn). specialize (IH t1 Hwf1). rewrite Hn in IH. cbn in Hb.
    destruct (run_table t1 ops) as [g t']. destruct IH as (Hg & Hwf' & Hn' & Hl & Hm); [lia|].
    split_and!; [done|done|done|cbn; lia|]. intros k o [?|?]%Hm; [by left|right].
    by eapply lookup_weaken. }
  destruct (classify_op op) as [[req ->]|Hno].
  - clear Hrm. cbn [table_step]. cbn in Hb. pose proof (run_add_spec t req Hwf ltac:(lia)) as H.
    destruct (run_add t req) as [[id|] t1].
    + destruct H as (o & Ho & -> & _ & _ & Hwf1 & Hm1 & Hn1). specialize (IH t1 Hwf1).
      rewrite Hn1 in IH. destruct (run_table t1 ops) as [g t'].
      destruct IH as (Hg & Hwf' & Hn' & Hl & Hm); [lia|]. rewrite Ho.
      split_and!; [|done|rewrite Hn'; cbn; lia|cbn; lia|].
      * rewrite fmap_cons, Hg. cbn [length]. by rewrite seqZ_snoc_front.
      * intros k x [?|Hx]%Hm; [left; by right|]. rewrite Hm1 in Hx.
        apply lookup_insert_Some in Hx as [[<- <-]|[_ ?]]; [left; by left|by right].
    + destruct H as [-> _]. specialize (IH t Hwf). destruct (run_table t ops) as [g t'].
      destruct IH as (? & ? & ? & ? & ?); [lia|]. split_and!; try done. cbn; lia.
  - destruct (table_step_remove t op Hwf Hno) as [Hr Hs].
    specialize (Hrm _ Hs). destruct (table_step t op) as [r t1]. cbn in Hr, Hrm. subst r.
    destruct (run_table t1 ops) as [g t']. by destruct op.
Qed.

(** * Mount lookup by path *)

(** A live mount whose root covers the path. *)
Definition covering_mount (t : ObjectTable) (path : list byte) (m : VfsMountObject) : Prop :=
  (∃ i, live_at t i (OVfsMount m)) ∧
  vfs_authority_path_covers (path_as_bytes (vm_root_path m)) path = true.

Definition mount_depth (m : VfsMountObject) : nat := length (path_as_bytes (vm_root_path m)).

Definition covers_in (path : list byte) (l : list (option KernelObject)) (m : VfsMountObject) :=
  Some (OVfsMount m) ∈ l ∧
  vfs_authority_path_covers (path_as_bytes (vm_root_path m)) path = true.

(** [best] is a deepest covering mount of the entries scanned so far. *)
Definition best_of (path : list byte) (l : list (option KernelObject))
    (best : option VfsMountObject * nat) : Prop :=
  match best with
  | (Some m, n) => covers_in path l m ∧ n = mount_depth m ∧
                   ∀ m', covers_in path l m' → mount_depth m' ≤ n
  | (None, n) => n = 0 ∧ ∀ m', ¬ covers_in path l m'
  end.

Lemma covers_in_snoc path l o m :
  covers_in path (l ++ [o]) m ↔ covers_in path l m ∨ covers_in path [o] m.
Proof. unfold covers_in. rewrite elem_of_app. naive_solver. Qed.

Lemma best_of_skip path l o best :
  best_of path l best → (∀ m, covers_in path [o] m → best.2 > mount_depth m ∧ is_Some best.1) →
  best_of path (l ++ [o]) best.
Proof.
  destruct best as [[m|] n]; cbn; intros H Ho.
  - destruct H as (Hc & -> & Hmax). split_and!; [apply covers_in_snoc; by left|done|].
    intros m' [?|?%Ho]%covers_in_snoc; [auto|lia].
  - destruct H as [-> Hn]. split; [done|].
    intros m' [?|[_ [? ?]]%Ho]%covers_in_snoc; [by eapply Hn|done].
Qed.

Lemma better_mount_best path l : best_of path l (foldl (better_mount path) (None, 0) l).
Proof.
  induction l as [|o l IH] using rev_ind.
  { split; [done|]. by intros m' [?%elem_of_nil _]. }
  rewrite foldl_app; cbn. revert IH. generalize (foldl (better_mount path) (None, 0) l).
  intros best IH.
  destruct o as [[]|];
    try (apply best_of_skip; [done|by intros m [[= ]%list_elem_of_singleton _]]).
  cbn. destruct (vfs_authority_path_covers _ _ && _) eqn:Hc.
  - apply andb_true_iff in Hc as [Hc Hl%Nat.leb_le].
    split_and!; [split; [apply elem_of_app; right; by left|done]|done|].
    intros m' [Hm'|[[= ->]%list_elem_of_singleton _]]%covers_in_snoc; [|done].
    etransitivity; [|exact Hl]. destruct best as [[b|] n]; cbn in *; [by apply IH|].
    by destruct (proj2 IH m').
  - apply best_of_skip; [done|]. intros m [[= <-]%list_elem_of_singleton Hm].
    rewrite Hm in Hc. apply Nat.leb_gt in Hc. split; [unfold mount_depth; lia|].
    destruct best as [[b|] n]; [done|]. destruct IH as [-> _]. cbn in Hc. lia.
Qed.

Lemma covers_in_take t path m :
  covers_in path (take (count t) (objects t)) m ↔ covering_mount t path m.
Proof.
  unfold covers_in, covering_mount, live_at. rewrite list_elem_of_lookup.
  setoid_rewrite lookup_take_Some. naive_solver.
Qed.

(** * Claims *)

(** Adding to the object table, through any of its nineteen [add_*]
    functions, either binds the next identifier, which was free, to exactly the
    object asked for and nothing else, keeping the table well formed, or
    changes nothing, and then the table is at its limit or the root path of the
    request is not a valid path. *)
Theorem table_add_refines (t : ObjectTable) (req : AddRequest) :
  table_wf t → (next_id t < u64_max)%Z →
  match run_add t req with
  | (Some id, t') => ∃ o, requested_object req id = Some o ∧ added t t' id o
  | (None, t') => t' = t ∧ add_refused t req
  end.
Proof. apply run_add_spec. Qed.

Lemma table_add_refines_witness :
  match run_add table_new (AddVfsRoot "root" "/srv") with
  | (Some id, t') => ∃ o, requested_object (AddVfsRoot "root" "/srv") id = Some o ∧
                          added table_new t' id o
  | (None, t') => t' = table_new ∧ add_refused table_new (AddVfsRoot "root" "/srv")
  end ∧ (run_add table_new (AddVfsRoot "root" "/srv")).1 = Some 1%Z.
Proof.
  split; [apply (table_add_refines table_new); [apply table_new_wf|reflexivity]|].
  vm_compute. reflexivity.
Defined.

(** On a well-formed table every typed lookup is the lookup of the map
    followed by the check of the object's type: the linear scans never confuse
    two objects. *)
Theorem table_get_refines (t : ObjectTable) (id : KernelObjectId) :
  table_wf t →
  get_endpoint t id = table_map t !! id ≫= as_endpoint ∧
  get_vfs_root t id = table_map t !! id ≫= as_vfs_root ∧
  get_process_control t id = table_map t !! id ≫= as_process_control ∧
  get_namespace t id = table_map t !! id ≫= as_namespace ∧
  get_secret t id = table_map t !! id ≫= as_secret ∧
  get_state_volume t id = table_map t !! id ≫= as_state_volume ∧
  get_store_object t id = table_map t !! id ≫= as_store_object ∧
  get_boot_module t id = table_map t !! id ≫= as_boot_module ∧
  get_interrupt_line t id = table_map t !! id ≫= as_interrupt_line ∧
  get_dma_region t id = table_map t !! id ≫= as_dma_region ∧
  get_network_port t id = table_map t !! id ≫= as_network_port ∧
  get_timer t id = table_map t !! id ≫= as_timer ∧
  get_io_port t id = table_map t !! id ≫= as_io_port ∧
  get_mmio_region t id = table_map t !! id ≫= as_mmio_region ∧
  get_framebuffer t id = table_map t !! id ≫= as_framebuffer ∧
  get_virtio_device t id = table_map t !! id ≫= as_virtio_device.
Proof.
  intros Hwf. split_and!;
    [get_typed Hwf ep_id as_endpoint
    |get_typed Hwf vr_id as_vfs_root
    |get_typed Hwf pc_id as_process_control
    |get_typed Hwf ns_id as_namespace
    |get_typed Hwf sec_id as_secret
    |get_typed Hwf sv_id as_state_volume
    |get_typed Hwf so_id as_store_object
    |get_typed Hwf bm_id as_boot_module
    |get_typed Hwf il_id as_interrupt_line
    |get_typed Hwf dma_id as_dma_region
    |get_typed Hwf np_id as_network_port
    |get_typed Hwf tm_id as_timer
    |get_typed Hwf io_id as_io_port
    |get_typed Hwf mmio_id as_mmio_region
    |get_typed Hwf fb_id as_framebuffer
    |get_typed Hwf vd_id as_virtio_device].
Qed.

Lemma table_get_refines_witness :
  get_timer (run_add table_new (AddTimer "t")).2 1 = Some (mkTimerObject 1 "t") ∧
  get_endpoint (run_add table_new (AddTimer "t")).2 1 = None ∧
  get_endpoint table_new 1 = table_map table_new !! 1%Z ≫= as_endpoint.
Proof.
  split; [vm_compute; reflexivity|]. split; [vm_compute; reflexivity|].
  apply (table_get_refines table_new 1 table_new_wf).
Defined.

(** C33: an identifier is never handed out twice before the 64 bits of the counter
    run out: over any sequence of additions and removals that does not take the
    next identifier beyond 2^64 - 1, the identifiers granted are consecutive, so
    distinct from each other and from all earlier ones, and at the end a live
    identifier still names the object it was granted for. *)
Theorem object_ids_never_reused (t : ObjectTable) (ops : list TableOp) :
  table_wf t → (next_id t + Z.of_nat (length ops) ≤ u64_max)%Z →
  let '(granted, t') := run_table t ops in
  granted.*1 = seqZ (next_id t) (Z.of_nat (length granted)) ∧
  table_wf t' ∧
  ∀ k o, table_map t' !! k = Some o → (k, o) ∈ granted ∨ table_map t !! k = Some o.
Proof.
  intros Hwf Hb. pose proof (run_table_history t ops Hwf Hb) as H.
  destruct (run_table t ops) as [g t']. naive_solver.
Qed.

Lemma object_ids_never_reused_witness :
  (run_table table_new [TopAdd (AddEndpoint "a" 7); TopRemoveOwnedEndpoints 7;
                        TopAdd (AddEndpoint "b" 7)]).1.*1 = [1%Z; 2%Z] ∧
  let '(granted, t') := run_table table_new [TopAdd (AddEndpoint "a" 7); TopRemoveOwnedEndpoints 7;
                        TopAdd (AddEndpoint "b" 7)] in
  granted.*1 = seqZ (next_id table_new) (Z.of_nat (length granted)) ∧
  table_wf t' ∧
  ∀ k o, table_map t' !! k = Some o → (k, o) ∈ granted ∨ table_map table_new !! k = Some o.
Proof.
  split; [vm_compute; reflexivity|].
  apply (object_ids_never_reused table_new); [apply table_new_wf|vm_compute; discriminate].
Defined.

(** Looking a mount up by path finds a live mount whose root covers the
    path and is at least as deep as every other live mount that covers it, and
    fails only when no live mount covers the path. *)
Theorem mount_by_path_longest (t : ObjectTable) (path : list byte) :
  match get_vfs_mount_by_path t path with
  | Some m => covering_mount t path m ∧
              ∀ m', covering_mount t path m' → mount_depth m' ≤ mount_depth m
  | None => ∀ m', ¬ covering_mount t path m'
  end.
Proof.
  unfold get_vfs_mount_by_path.
  pose proof (better_mount_best path (take (count t) (objects t))) as H.
  destruct (foldl _ _ _) as [[m|] n]; cbn in *.
  - destruct H as (Hc & -> & Hmax). split; [by apply covers_in_take|].
    intros m' ?%covers_in_take. auto.
  - intros m' ?%covers_in_take. by eapply (proj2 H).
Qed.
