(* ===== verification/ProcessRuntime.v ===== *)
(** Processes ([kernel/process_runtime.rs], [vfs/handle.rs]): capability
    spaces, quotas, DMA mappings, file handles and the process table with its
    round-robin choice. *)

From S2P Require Import Prelude KernelBase Transport VfsPath KernelObjects.

(** * Process state *)

(** [VfsStateOperation] of [vfs/state.rs]. *)
Inductive VfsStateOperation := VsoRead | VsoStat | VsoWrite | VsoControl | VsoServiceRead.

#[export] Instance VfsStateOperation_eq_dec : EqDecision VfsStateOperation.
Proof. solve_decision. Defined.

(** [ProcessState]. *)
Inductive ProcessState :=
| PsEmpty
| PsDeclared
| PsReady
| PsRunning
| PsBlockedOnEndpoint (endpoint : KernelObjectId) (cap_id destination max_len : Z)
    (timeout_tsc : option Z)
| PsBlockedOnInterrupt (interrupt : KernelObjectId) (timeout_tsc : option Z)
| PsBlockedOnVfsRead (node : VfsNodeId) (description : FileDescriptionId)
    (destination max_len : Z)
| PsBlockedOnVfsState (reply_endpoint : KernelObjectId) (node : VfsNodeId)
    (description : FileDescriptionId) (operation : VfsStateOperation)
    (transaction_id offset destination max_len write_len : Z) (update_offset : bool)
| PsBlockedOnVertexFsSync (request_endpoint reply_endpoint : KernelObjectId)
    (backing inode_id checksum write_count next_write expected_sector : Z)
| PsBlockedOnNetworkPort (port : KernelObjectId) (destination max_len : Z)
| PsSleeping (wake_tsc : Z)
| PsExited.

#[export] Instance ProcessState_eq_dec : EqDecision ProcessState.
Proof. solve_decision. Defined.

(** [ProcessState::label]. *)
Definition state_label (s : ProcessState) : string :=
  match s with
  | PsEmpty => "empty"
  | PsDeclared => "declared"
  | PsReady => "ready"
  | PsRunning => "running"
  | PsBlockedOnEndpoint _ _ _ _ _ => "blocked"
  | PsBlockedOnInterrupt _ _ => "blocked-irq"
  | PsBlockedOnVfsRead _ _ _ _ => "blocked-vfs"
  | PsBlockedOnVfsState _ _ _ _ _ _ _ _ _ _ => "blocked-vfs-state"
  | PsBlockedOnVertexFsSync _ _ _ _ _ _ _ _ => "blocked-vertexfs-sync"
  | PsBlockedOnNetworkPort _ _ _ => "blocked-net"
  | PsSleeping _ => "sleeping"
  | PsExited => "exited"
  end.

(** * Capabilities *)

Record Capability := mkCapability {
  c_id : Z;
  c_object : KernelObjectId;
  c_rights : Z;
  c_owner : ProcessId;
  c_parent : Z;
  c_generation : string;
  c_delegated_by : ProcessId;
  c_revoked : bool
}.
#[export] Instance eta_Capability : Eta Capability := λ c,
  mkCapability (c_id c) (c_object c) (c_rights c) (c_owner c) (c_parent c) (c_generation c)
    (c_delegated_by c) (c_revoked c).
#[export] Instance Capability_eq_dec : EqDecision Capability.
Proof. solve_decision. Defined.

(** [CapabilitySpace], an array of [MAX_CAPS] slots. *)
Abbreviation CapabilitySpace := (list (option Capability)) (only parsing).

(** [CapabilitySpace::new]. *)
Definition cspace_new : CapabilitySpace := replicate MAX_CAPS None.

(** A slot number as an index of the array: [usize::try_from] cannot fail on
    the 64-bit target, so the length test decides. *)
Definition slot_index (s : CapabilitySpace) (slot : Z) : option nat :=
  if (0 <=? slot)%Z && (slot <? Z.of_nat (length s))%Z then Some (Z.to_nat slot) else None.

(** [CapabilitySpace::grant]. *)
Definition cspace_grant (s : CapabilitySpace) (slot : Z) (cap : Capability) :
    Result InitError unit * CapabilitySpace :=
  match slot_index s slot with
  | None => (Err CapabilityTableFull, s)
  | Some i =>
      match s !! i with
      | Some (Some _) => (Err InvalidBootManifest, s)
      | _ => (Ok tt, <[i := Some cap]> s)
      end
  end.

(** [CapabilitySpace::lookup]. *)
Definition cspace_lookup (s : CapabilitySpace) (slot : Z) : option Capability :=
  match slot_index s slot with
  | None => None
  | Some i => mjoin (s !! i)
  end.

(** [CapabilitySpace::clear]. *)
Definition cspace_clear (s : CapabilitySpace) (slot : Z) :
    Result IpcError Capability * CapabilitySpace :=
  match slot_index s slot with
  | None => (Err BadCapability, s)
  | Some i =>
      match s !! i with
      | Some (Some cap) => (Ok cap, <[i := None]> s)
      | _ => (Err BadCapability, s)
      end
  end.

(** [CapabilitySpace::can_grant]. *)
Definition cspace_can_grant (s : CapabilitySpace) (slot : Z) : bool :=
  match slot_index s slot with
  | None => false
  | Some i => bool_decide (s !! i = Some None)
  end.

(** [CapabilitySpace::mark_revoked]. *)
Definition mark_cap (cap_id : Z) (o : option Capability) : option Capability :=
  match o with
  | Some cap => if (c_id cap =? cap_id)%Z then Some (cap <| c_revoked := true |>) else Some cap
  | None => None
  end.
Definition cspace_mark_revoked (s : CapabilitySpace) (cap_id : Z) : CapabilitySpace :=
  map_upto (mark_cap cap_id) s (length s).

(** * Quotas *)

Record ProcessQuota := mkProcessQuota {
  max_caps : Z; max_endpoints : Z; max_memory_pages : Z; max_child_processes : Z;
  max_ipc_bytes : Z; used_endpoints : Z }.
#[export] Instance eta_ProcessQuota : Eta ProcessQuota := λ q,
  mkProcessQuota (max_caps q) (max_endpoints q) (max_memory_pages q) (max_child_processes q)
    (max_ipc_bytes q) (used_endpoints q).

(** [ProcessQuota::initial]. *)
Definition quota_initial : ProcessQuota :=
  mkProcessQuota (Z.of_nat MAX_CAPS) 1 0 (Z.of_nat MAX_PROCESSES) (Z.of_nat MAX_MESSAGE_BYTES) 0.

(** [ProcessQuota::service]. *)
Definition quota_service : ProcessQuota :=
  mkProcessQuota (Z.of_nat MAX_CAPS) 0 0 0 (Z.of_nat MAX_MESSAGE_BYTES) 0.

(** * Processes *)

Record DmaUserMapping := mkDmaUserMapping {
  dm_region : KernelObjectId; dm_virtual_base : Z; dm_physical_base : Z; dm_length : Z }.

(** [FileHandle] wraps the identifier of its open file description. *)
Record FileHandle := mkFileHandle { fh_description : FileDescriptionId }.
Record FileHandleSlot := mkFileHandleSlot { fs_generation : Z; fs_handle : option FileHandle }.
#[export] Instance eta_FileHandleSlot : Eta FileHandleSlot := λ s,
  mkFileHandleSlot (fs_generation s) (fs_handle s).

Record Process := mkProcess {
  p_pid : ProcessId;
  p_name : string;
  p_context : ProcessContext;
  p_image_base : Z;
  p_image_length : Z;
  p_context_reaped : bool;
  p_state : ProcessState;
  p_caps : CapabilitySpace;
  p_initial_caps : CapabilitySpace;
  p_saved_frame : SyscallFrame;
  p_has_saved_frame : bool;
  p_exit_status : Z;
  p_has_exited : bool;
  p_start_count : Z;
  p_quota : ProcessQuota;
  p_initial_quota : ProcessQuota;
  p_mount_root : VfsPath;
  p_dma_mappings : list (option DmaUserMapping);
  p_file_handles : list FileHandleSlot
}.
#[export] Instance eta_Process : Eta Process := λ p,
  mkProcess (p_pid p) (p_name p) (p_context p) (p_image_base p) (p_image_length p)
    (p_context_reaped p) (p_state p) (p_caps p) (p_initial_caps p) (p_saved_frame p)
    (p_has_saved_frame p) (p_exit_status p) (p_has_exited p) (p_start_count p) (p_quota p)
    (p_initial_quota p) (p_mount_root p) (p_dma_mappings p) (p_file_handles p).

(** [FileHandleSlot::empty]. *)
Definition handle_slot_empty : FileHandleSlot := mkFileHandleSlot 0 None.

(** [Process::empty]. *)
Definition process_empty : Process :=
  mkProcess pid_empty "" (mkProcessContext 0 0 0) 0 0 true PsEmpty cspace_new cspace_new
    frame_empty false 0 false 0 quota_service quota_service path_empty
    (replicate MAX_OBJECTS None) (replicate MAX_FILE_HANDLES handle_slot_empty).

(** [Process::new]. *)
Definition process_new (pid : ProcessId) (name : string) (context : ProcessContext)
    (image_base image_length : Z) (state : ProcessState) (caps : CapabilitySpace)
    (mount_root : VfsPath) : Process :=
  let initial := bool_decide (state = PsRunning) in
  let start_count := if initial then 1%Z else 0%Z in
  let quota := if initial then quota_initial else quota_service in
  mkProcess pid name context image_base image_length false state caps caps
    frame_empty false 0 false start_count quota quota mount_root
    (replicate MAX_OBJECTS None) (replicate MAX_FILE_HANDLES handle_slot_empty).

(** [Process::dma_mapping]. *)
Definition dma_mapping (p : Process) (region : KernelObjectId) : option DmaUserMapping :=
  first_some (λ o, match o with
                   | Some m => if (dm_region m =? region)%Z then Some m else None
                   | None => None
                   end) (p_dma_mappings p) (length (p_dma_mappings p)).

(** [Process::add_dma_mapping]. *)
Definition add_dma_mapping (p : Process) (m : DmaUserMapping) : Result IpcError unit * Process :=
  match dma_mapping p (dm_region m) with
  | Some _ => (Ok tt, p)
  | None =>
      match first_index (λ o, match o with None => true | Some _ => false end)
              (p_dma_mappings p) (length (p_dma_mappings p)) with
      | Some i => (Ok tt, p <| p_dma_mappings := <[i := Some m]> (p_dma_mappings p) |>)
      | None => (Err VfsNoSpace, p)
      end
  end.

(** [Process::clear_dma_mappings]. *)
Definition clear_dma_mappings (p : Process) : Process :=
  p <| p_dma_mappings ::= λ l, map_upto (λ _, None) l (length l) |>.

(** [Process::take_dma_mapping]. *)
Definition take_dma_mapping (p : Process) (index : nat) : option DmaUserMapping * Process :=
  if length (p_dma_mappings p) <=? index then (None, p)
  else (mjoin (p_dma_mappings p !! index),
        p <| p_dma_mappings := <[index := None]> (p_dma_mappings p) |>).

(** ** File handles *)

Definition FILE_HANDLE_SLOT_BITS : Z := 8.
Definition FILE_HANDLE_SLOT_MASK : Z := Z.shiftl 1 FILE_HANDLE_SLOT_BITS - 1.

(** [(generation << FILE_HANDLE_SLOT_BITS) | (index + 1)]; the shift of a [u64]
    drops the bits it moves out. *)
Definition encode_file_handle (generation : Z) (index : nat) : Z :=
  Z.lor (wrap_u64 (Z.shiftl generation FILE_HANDLE_SLOT_BITS)) (Z.of_nat index + 1).

(** [decode_file_handle]. *)
Definition decode_file_handle (raw : Z) : Result IpcError (nat * Z) :=
  let slot := Z.land raw FILE_HANDLE_SLOT_MASK in
  let generation := Z.shiftr raw FILE_HANDLE_SLOT_BITS in
  if (raw =? 0)%Z || (slot =? 0)%Z || (generation =? 0)%Z then Err VfsBadHandle
  else Ok (Z.to_nat (slot - 1), generation).

(** [Process::open_file_handle]. *)
Definition open_file_handle (p : Process) (handle : FileHandle) : Result IpcError Z * Process :=
  match first_index (λ s, match fs_handle s with None => true | Some _ => false end)
          (p_file_handles p) (length (p_file_handles p)) with
  | None => (Err VfsNoSpace, p)
  | Some index =>
      let old := default 0%Z (fs_generation <$> p_file_handles p !! index) in
      let generation := sat_add old 1 in
      let generation := if (generation =? 0)%Z then 1%Z else generation in
      (Ok (encode_file_handle generation index),
       p <| p_file_handles :=
              <[index := mkFileHandleSlot generation (Some handle)]> (p_file_handles p) |>)
  end.

(** [Process::file_handle]. *)
Definition file_handle (p : Process) (raw : Z) : Result IpcError (nat * FileHandle) :=
  match decode_file_handle raw with
  | Err e => Err e
  | Ok (index, generation) =>
      match p_file_handles p !! index with
      | None => Err VfsBadHandle
      | Some slot =>
          if negb (fs_generation slot =? generation)%Z then Err VfsBadHandle
          else match fs_handle slot with
               | None => Err VfsBadHandle
               | Some handle => Ok (index, handle)
               end
      end
  end.

(** [Process::close_file_handle]. *)
Definition close_file_handle (p : Process) (raw : Z) : Result IpcError FileHandle * Process :=
  match file_handle p raw with
  | Err e => (Err e, p)
  | Ok (index, handle) =>
      (Ok handle,
       p <| p_file_handles ::= alter (λ s, s <| fs_handle := None |>) index |>)
  end.

(** [Process::clear_file_handles]. *)
Definition clear_file_handles (p : Process) : Process :=
  p <| p_file_handles ::= λ l, map_upto (λ s, s <| fs_handle := None |>) l (length l) |>.

(** * The process table *)

Record ProcessTable := mkProcessTable {
  pt_processes : list (option Process);
  pt_count : nat;
  pt_current : option ProcessId;
  pt_next_id : Z
}.
#[export] Instance eta_ProcessTable : Eta ProcessTable := λ t,
  mkProcessTable (pt_processes t) (pt_count t) (pt_current t) (pt_next_id t).

(** [ProcessTable::new]. *)
Definition ptable_new : ProcessTable :=
  mkProcessTable (replicate MAX_PROCESSES (Some process_empty)) 0 None 1.

(** [ProcessTable::reset]. *)
Definition ptable_reset (t : ProcessTable) : ProcessTable :=
  t <| pt_count := 0 |> <| pt_current := None |> <| pt_next_id := 1%Z |>.

(** [ProcessTable::add_process]. *)
Definition add_process (t : ProcessTable) (name : string) (context : ProcessContext)
    (image_base image_length : Z) (state : ProcessState) (caps : CapabilitySpace)
    (mount_root : VfsPath) : Result InitError ProcessId * ProcessTable :=
  if pt_count t =? length (pt_processes t) then (Err ProcessTableFull, t)
  else
    let pid := pt_next_id t in
    (Ok pid,
     t <| pt_next_id := wrap_u64 (pid + 1) |>
       <| pt_processes ::= <[pt_count t := Some (process_new pid name context image_base
                              image_length state caps mount_root)]> |>
       <| pt_count := S (pt_count t) |>).

(** [ProcessTable::remove_last_process]. *)
Definition remove_last_process (t : ProcessTable) (pid : ProcessId) :
    Result InitError unit * ProcessTable :=
  match pt_count t with
  | 0 => (Err InvalidBootManifest, t)
  | S index =>
      match pt_processes t !! index with
      | Some (Some process) =>
          if (p_pid process =? pid)%Z then
            (Ok tt,
             t <| pt_processes ::= <[index := Some process_empty]> |>
               <| pt_count := index |>
               <| pt_next_id ::= λ n, if (n =? wrap_u64 (pid + 1))%Z then pid else n |>)
          else (Err InvalidBootManifest, t)
      | _ => (Err InvalidBootManifest, t)
      end
  end.

(** The test every scan for a process makes. *)
Definition has_pid (pid : ProcessId) (o : option Process) : bool :=
  match o with Some p => (p_pid p =? pid)%Z | None => false end.

(** The index the scans of [process], [process_mut] and [remove_process] stop at. *)
Definition process_index (t : ProcessTable) (pid : ProcessId) : option nat :=
  first_index (has_pid pid) (pt_processes t) (pt_count t).

(** [ProcessTable::remove_process]. *)
Definition remove_process (t : ProcessTable) (pid : ProcessId) :
    Result InitError unit * ProcessTable :=
  match process_index t pid with
  | None => (Err InvalidBootManifest, t)
  | Some index =>
      if bool_decide (pt_current t = Some pid) then (Err InvalidBootManifest, t)
      else
        let n := pt_count t - 1 in
        (Ok tt,
         t <| pt_processes := <[n := Some process_empty]>
                (shift_down (pt_processes t) index (n - index)) |>
           <| pt_count := n |>)
  end.

(** [ProcessTable::set_current]. *)
Definition set_current (t : ProcessTable) (pid : ProcessId) : ProcessTable :=
  t <| pt_current := Some pid |>.

(** [ProcessTable::process]. *)
Definition process (t : ProcessTable) (pid : ProcessId) : option Process :=
  first_some (λ o, match o with
                   | Some p => if (p_pid p =? pid)%Z then Some p else None
                   | None => None
                   end) (pt_processes t) (pt_count t).

(** [ProcessTable::current_process]. *)
Definition current_process (t : ProcessTable) : option Process :=
  pt_current t ≫= process t.

(** A write through the reference [self.processes[index]]. *)
Definition modify_process_at (t : ProcessTable) (index : nat) (f : Process → Process) :
    ProcessTable :=
  t <| pt_processes ::= alter (fmap f) index |>.

(** [ProcessTable::process_mut] followed by a write through the reference;
    the flag says whether there was a process to write to. *)
Definition modify_process (t : ProcessTable) (pid : ProcessId) (f : Process → Process) :
    bool * ProcessTable :=
  match process_index t pid with
  | Some index => (true, modify_process_at t index f)
  | None => (false, t)
  end.

(** [ProcessTable::current_process_mut] followed by a write. *)
Definition modify_current (t : ProcessTable) (f : Process → Process) : bool * ProcessTable :=
  match pt_current t with
  | Some pid => modify_process t pid f
  | None => (false, t)
  end.

(** [ProcessTable::current_index]. *)
Definition current_index (t : ProcessTable) : option nat :=
  pt_current t ≫= process_index t.

Definition is_ready (o : option Process) : bool :=
  match o with Some p => bool_decide (p_state p = PsReady) | None => false end.

(** The loop of [next_ready_index_round_robin], from [offset], with the
    [pt_count t - offset] rounds that are left. *)
Fixpoint ready_scan (t : ProcessTable) (include_current : bool) (current : option nat)
    (start offset fuel : nat) : option nat :=
  match fuel with
  | 0 => None
  | S fuel' =>
      let index := (start + offset) mod pt_count t in
      if negb include_current && bool_decide (current = Some index)
      then ready_scan t include_current current start (S offset) fuel'
      else if is_ready (mjoin (pt_processes t !! index)) then Some index
      else ready_scan t include_current current start (S offset) fuel'
  end.

(** [ProcessTable::next_ready_index_round_robin]. *)
Definition next_ready_index_round_robin (t : ProcessTable) (include_current : bool) :
    option nat :=
  if pt_count t =? 0 then None
  else
    let current := current_index t in
    let start := match current with Some index => S index mod pt_count t | None => 0 end in
    ready_scan t include_current current start 0 (pt_count t).

(** [ProcessTable::all_exited_successfully]. *)
Definition all_exited_successfully (t : ProcessTable) : bool :=
  match first_index (λ o, match o with
                          | Some p => negb (bool_decide (p_state p = PsExited)) ||
                                      negb (p_exit_status p =? 0)%Z
                          | None => false
                          end) (pt_processes t) (pt_count t) with
  | Some _ => false
  | None => true
  end.
