(* ===== verification/FileHandles.v ===== *)
(** The file-handle numbers of a process ([Process::open_file_handle] and its
    relatives): a handle packs a slot and the slot's generation, and the slots
    refine a finite map from handle numbers to open file descriptions. *)

From S2P Require Import Prelude KernelBase Transport VfsPath KernelObjects ProcessRuntime.

(** * The encoding *)

(** Generations below this bound keep all their bits in a handle. *)
Definition generation_limit : Z := 2 ^ 56.

Lemma encode_file_handle_arith g i :
  (0 ≤ g < generation_limit)%Z → i < 255 →
  encode_file_handle g i = (g * 256 + Z.of_nat i + 1)%Z.
Proof.
  unfold generation_limit, encode_file_handle, FILE_HANDLE_SLOT_BITS. intros Hg Hi.
  rewrite Z.shiftl_mul_pow2 by lia.
  rewrite wrap_u64_small by (unfold is_u64, u64_max; lia).
  rewrite <-Z.add_nocarry_lor; [lia|].
  apply Z.bits_inj_iff'. intros k Hk. rewrite Z.land_spec, Z.bits_0.
  destruct (decide (k < 8)%Z).
  - by rewrite Z.mul_pow2_bits_low.
  - rewrite (Z.bits_above_log2 (Z.of_nat i + 1)); [apply andb_false_r|lia|].
    assert (Z.of_nat i + 1 < 2 ^ 8)%Z as H by lia. apply Z.log2_lt_pow2 in H; lia.
Qed.

Lemma decode_file_handle_arith raw i g :
  decode_file_handle raw = Ok (i, g) ↔ raw = (g * 256 + Z.of_nat i + 1)%Z ∧ i < 255 ∧ g ≠ 0%Z.
Proof.
  unfold decode_file_handle, FILE_HANDLE_SLOT_MASK, FILE_HANDLE_SLOT_BITS.
  change (Z.shiftl 1 8 - 1)%Z with (Z.ones 8). rewrite Z.land_ones, Z.shiftr_div_pow2 by lia.
  change (2 ^ 8)%Z with 256%Z. pose proof (Z.div_mod raw 256 ltac:(lia)) as Hdm.
  pose proof (Z.mod_pos_bound raw 256 ltac:(lia)) as Hb. split.
  - case_match eqn:Hc; [done|]. intros [= <- <-].
    apply orb_false_iff in Hc as [[? ?]%orb_false_iff ?]. lia.
  - intros (Hr & Hi & Hg).
    assert (Hq : (raw / 256 = g)%Z) by (symmetry; apply (Z.div_unique_pos _ _ _ (Z.of_nat i + 1)); lia).
    assert (Hm : (raw mod 256 = Z.of_nat i + 1)%Z) by lia.
    rewrite Hq, Hm. rewrite (proj2 (Z.eqb_neq raw 0)) by lia.
    rewrite (proj2 (Z.eqb_neq (Z.of_nat i + 1) 0)), (proj2 (Z.eqb_neq g 0)) by lia.
    cbn. do 2 f_equal. lia.
Qed.

Lemma decode_encode g i :
  (1 ≤ g < generation_limit)%Z → i < 255 → decode_file_handle (encode_file_handle g i) = Ok (i, g).
Proof.
  intros ??. apply decode_file_handle_arith. rewrite encode_file_handle_arith by lia.
  split; [done|lia].
Qed.

(** * The slots as a map *)

(** What a handle number names. *)
Definition lookup_handle (p : Process) (raw : Z) : option FileHandle :=
  match file_handle p raw with Ok (_, h) => Some h | Err _ => None end.

(** At most [k] handles were opened so far. *)
Record handles_wf (k : Z) (p : Process) : Prop := mk_handles_wf {
  hw_length : length (p_file_handles p) = MAX_FILE_HANDLES;
  hw_generation i s : p_file_handles p !! i = Some s → (0 ≤ fs_generation s ≤ k)%Z
}.

Lemma lookup_handle_Some p raw h :
  lookup_handle p raw = Some h ↔
  ∃ i g, decode_file_handle raw = Ok (i, g) ∧
         p_file_handles p !! i = Some (mkFileHandleSlot g (Some h)).
Proof.
  unfold lookup_handle, file_handle. split.
  - destruct (decode_file_handle raw) as [[i g]|] eqn:Hd; [|done].
    destruct (p_file_handles p !! i) as [[g' o]|] eqn:Hs; [|done]. cbn.
    destruct (Z.eqb_spec g' g) as [->|]; [|done]. cbn. destruct o as [h'|]; [|done].
    intros [= ->]. eauto.
  - intros (i & g & -> & ->). cbn. by rewrite Z.eqb_refl.
Qed.

(** Number [raw] was handed out by the slots of [p] at some time. *)
Definition issued_by (p : Process) (raw : Z) : Prop :=
  ∃ i g s, decode_file_handle raw = Ok (i, g) ∧ p_file_handles p !! i = Some s ∧
           (g ≤ fs_generation s)%Z.

Section ops.
Context (k : Z) (p : Process) (Hwf : handles_wf k p).

Lemma open_file_handle_spec h :
  (k + 1 < generation_limit)%Z →
  match open_file_handle p h with
  | (Ok raw, p') =>
      handles_wf (k + 1) p' ∧ ¬ issued_by p raw ∧ issued_by p' raw ∧
      (∀ r, issued_by p r → issued_by p' r) ∧
      ∀ r, lookup_handle p' r = if decide (r = raw) then Some h else lookup_handle p r
  | (Err e, p') => p' = p ∧ e = VfsNoSpace ∧
      ∀ i s, p_file_handles p !! i = Some s → is_Some (fs_handle s)
  end.
Proof using Hwf.
  intros Hk. destruct Hwf as [Hl Hg]. unfold open_file_handle.
  destruct (first_index _ _ _) as [i|] eqn:Hi.
  2:{ split; [done|]. split; [done|]. intros i s Hs.
      pose proof (proj1 (first_index_None _ _ _) Hi i s (lookup_lt_Some _ _ _ Hs) Hs) as Hn.
      cbn in Hn. destruct (fs_handle s); [eauto|done]. }
  pose proof (first_index_lt _ _ _ _ Hi) as [_ Hlt].
  apply first_index_Some in Hi as (_ & (s & Hs & Hfree) & _). rewrite Hs; cbn.
  specialize (Hg i s Hs) as Hgs. unfold MAX_FILE_HANDLES in Hl.
  assert (Hsat : sat_add (fs_generation s) 1 = (fs_generation s + 1)%Z)
    by (unfold sat_add, generation_limit, u64_max in *; lia).
  rewrite Hsat, (proj2 (Z.eqb_neq _ 0)) by lia. set (g := (fs_generation s + 1)%Z).
  assert (Hd : decode_file_handle (encode_file_handle g i) = Ok (i, g))
    by (apply decode_encode; lia).
  assert (Hins : ∀ j, p_file_handles
      (p <| p_file_handles := <[i := mkFileHandleSlot g (Some h)]> (p_file_handles p) |>) !! j =
      if decide (j = i) then Some (mkFileHandleSlot g (Some h)) else p_file_handles p !! j).
  { intros j. unfold set; cbn. case_decide; subst.
    - by rewrite list_lookup_insert_eq by lia.
    - by rewrite list_lookup_insert_ne. }
  split_and!.
  - split; [unfold set; cbn; rewrite length_insert; done|].
    intros j s'. rewrite Hins. case_decide; [intros [= <-]; cbn; lia|].
    intros Hs'. specialize (Hg j s' Hs'). lia.
  - intros (i' & g' & s' & Hd' & Hs' & Hle). rewrite Hd in Hd'. simplify_eq. lia.
  - exists i, g, (mkFileHandleSlot g (Some h)). rewrite Hins, decide_True by done. done.
  - intros r (i' & g' & s' & Hd' & Hs' & Hle).
    destruct (decide (i' = i)) as [->|Hne].
    + exists i, g', (mkFileHandleSlot g (Some h)). rewrite Hins, decide_True by done.
      simplify_eq. split_and!; [done..|]. cbn. lia.
    + exists i', g', s'. by rewrite Hins, decide_False.
  - intros r. apply option_eq; intros h'. rewrite lookup_handle_Some. setoid_rewrite Hins.
    case_decide as Hr.
    + subst r. rewrite Hd. split.
      * intros (i' & g' & [= <- <-] & Hs'). rewrite decide_True in Hs' by done. naive_solver.
      * intros [= ->]. exists i, g. by rewrite decide_True.
    + rewrite lookup_handle_Some. split; intros (i' & g' & Hd' & Hs'); exists i', g';
        (split; [done|]); revert Hs'; case_decide; subst; try done.
      * intros [= <-]. exfalso. apply Hr. apply decode_file_handle_arith in Hd, Hd'. lia.
      * intros Hs'. rewrite Hs in Hs'. by simplify_eq/=.
Qed.

Lemma close_file_handle_spec raw :
  match close_file_handle p raw with
  | (Ok h, p') =>
      lookup_handle p raw = Some h ∧ handles_wf k p' ∧
      (∀ r, issued_by p' r ↔ issued_by p r) ∧
      ∀ r, lookup_handle p' r = if decide (r = raw) then None else lookup_handle p r
  | (Err e, p') => p' = p ∧ e = VfsBadHandle ∧ lookup_handle p raw = None
  end.
Proof using Hwf.
  destruct Hwf as [Hl Hg]. unfold close_file_handle.
  destruct (file_handle p raw) as [[i h]|e] eqn:Hf.
  2:{ unfold lookup_handle. rewrite Hf. split; [done|]. split; [|done]. revert Hf.
      unfold file_handle, decode_file_handle. repeat case_match; intros; simplify_eq; done. }
  assert (Hlk : lookup_handle p raw = Some h) by (unfold lookup_handle; by rewrite Hf).
  revert Hf. unfold file_handle. destruct (decode_file_handle raw) as [[i' g]|] eqn:Hd; [|done].
  destruct (p_file_handles p !! i') as [[g' o]|] eqn:Hs; [|done]. cbn.
  destruct (Z.eqb_spec g' g) as [->|]; [|done]. cbn. destruct o as [h'|]; [|done].
  intros [= -> ->].
  assert (Hins : ∀ j, p_file_handles
      (p <| p_file_handles ::= alter (λ s, s <| fs_handle := None |>) i |>) !! j =
      if decide (j = i) then Some (mkFileHandleSlot g None) else p_file_handles p !! j).
  { intros j. unfold set; cbn. case_decide; subst.
    - rewrite list_lookup_alter_eq, Hs. done.
    - by rewrite list_lookup_alter_ne. }
  split_and!; [done|..].
  - split; [unfold set; cbn; by rewrite length_alter|].
    intros j s. rewrite Hins. case_decide; [|by apply Hg].
    intros [= <-]. apply (Hg i _ Hs).
  - intros r. unfold issued_by. setoid_rewrite Hins. split; intros (j & gg & s & ? & ? & ?).
    + exists j, gg. case_decide; simplify_eq; eauto.
    + exists j, gg. case_decide; simplify_eq; eauto.
  - intros r. apply option_eq; intros x. rewrite lookup_handle_Some. setoid_rewrite Hins.
    case_decide as Hr.
    + subst r. rewrite Hd. split; [|done]. intros (j & gg & [= <- <-] & H).
      by rewrite decide_True in H.
    + rewrite lookup_handle_Some. split; intros (j & gg & Hj & H); exists j, gg;
        (split; [done|]); revert H; case_decide; subst; try done.
      intros ?. simplify_eq. exfalso. apply Hr.
      apply decode_file_handle_arith in Hd, Hj. lia.
Qed.

Lemma clear_file_handles_spec :
  handles_wf k (clear_file_handles p) ∧
  (∀ r, issued_by (clear_file_handles p) r ↔ issued_by p r) ∧
  ∀ r, lookup_handle (clear_file_handles p) r = None.
Proof using Hwf.
  destruct Hwf as [Hl Hg].
  assert (Hins : ∀ j, p_file_handles (clear_file_handles p) !! j =
      (λ s, mkFileHandleSlot (fs_generation s) None) <$> p_file_handles p !! j).
  { intros j. unfold clear_file_handles, set; cbn. rewrite lookup_map_upto.
    case_bool_decide as Hj; [by destruct (p_file_handles p !! j) as [[]|]|].
    by rewrite lookup_ge_None_2 by lia. }
  split_and!.
  - split; [unfold clear_file_handles, set; cbn; by rewrite length_map_upto|].
    intros i s. rewrite Hins. intros (s0 & Hs & ->)%fmap_Some. exact (Hg i s0 Hs).
  - intros r. unfold issued_by. setoid_rewrite Hins. setoid_rewrite fmap_Some.
    split; intros (i & g & s & Hd & Hs & Hle).
    + destruct Hs as (s0 & Hs0 & ->). eauto 6.
    + exists i, g, (mkFileHandleSlot (fs_generation s) None). eauto 6.
  - intros r. destruct (lookup_handle _ r) as [h|] eqn:Hh; [|done].
    apply lookup_handle_Some in Hh as (i & g & _ & Hs).
    rewrite Hins in Hs. by apply fmap_Some in Hs as (s & _ & ?).
Qed.
End ops.

(** * Traces *)

Inductive HandleOp :=
| HandleOpen (h : FileHandle)
| HandleClose (raw : Z)
| HandleClear.

(** One call, with the number it hands out. *)
Definition handle_step (p : Process) (op : HandleOp) : option Z * Process :=
  match op with
  | HandleOpen h =>
      match open_file_handle p h with (Ok raw, p') => (Some raw, p') | (Err _, p') => (None, p') end
  | HandleClose raw => (None, (close_file_handle p raw).2)
  | HandleClear => (None, clear_file_handles p)
  end.

(** The same call on the map from handle numbers to file handles. *)
Definition handle_spec (m : gmap Z FileHandle) (op : HandleOp) (issued : option Z) :
    gmap Z FileHandle :=
  match op, issued with
  | HandleOpen h, Some raw => <[raw := h]> m
  | HandleOpen _, None => m
  | HandleClose raw, _ => delete raw m
  | HandleClear, _ => ∅
  end.

(** A run: the numbers handed out, the abstract map and the process. *)
Fixpoint run_handles (p : Process) (m : gmap Z FileHandle) (ops : list HandleOp) :
    list Z * gmap Z FileHandle * Process :=
  match ops with
  | [] => ([], m, p)
  | op :: ops' =>
      let '(issued, p1) := handle_step p op in
      let '(rest, m', p') := run_handles p1 (handle_spec m op issued) ops' in
      (option_list issued ++ rest, m', p')
  end.

Lemma handle_step_refines k p m op :
  handles_wf k p → (k + 1 < generation_limit)%Z → (∀ raw, lookup_handle p raw = m !! raw) →
  let '(issued, p') := handle_step p op in
  handles_wf (k + 1) p' ∧ (∀ raw, lookup_handle p' raw = handle_spec m op issued !! raw) ∧
  (∀ raw, issued = Some raw → ¬ issued_by p raw ∧ issued_by p' raw) ∧
  (∀ r, issued_by p r → issued_by p' r).
Proof.
  intros Hwf Hk Hm.
  assert (Hmono : ∀ p', handles_wf k p' → handles_wf (k + 1) p').
  { intros p' [Hl Hg]. split; [done|]. intros i s Hs. specialize (Hg i s Hs). lia. }
  destruct op as [h|raw|]; cbn [handle_step handle_spec].
  - pose proof (open_file_handle_spec k p Hwf h Hk) as H.
    destruct (open_file_handle p h) as [[raw|e] p'].
    + destruct H as (Hwf' & Hni & Hi & Hmon & Hlk). split_and!; [done| |naive_solver|done].
      intros r. rewrite Hlk. case_decide as Hr; [by rewrite Hr, lookup_insert_eq|].
      rewrite lookup_insert_ne by done. apply Hm.
    + destruct H as (-> & _). split_and!; auto. done.
  - pose proof (close_file_handle_spec k p Hwf raw) as H.
    destruct (close_file_handle p raw) as [[h|e] p']; cbn.
    + destruct H as (Hlk0 & Hwf' & Hi & Hlk).
      split_and!; [by apply Hmono| |done|intros r; apply Hi].
      intros r. rewrite Hlk. case_decide as Hr; [by rewrite Hr, lookup_delete_eq|].
      rewrite lookup_delete_ne by done. apply Hm.
    + destruct H as (-> & _ & Hn). split_and!; [by apply Hmono| |done|done].
      intros r. rewrite Hm. destruct (decide (r = raw)) as [->|].
      * by rewrite lookup_delete_eq, <-Hm.
      * by rewrite lookup_delete_ne.
  - destruct (clear_file_handles_spec k p Hwf) as (Hwf' & Hi & Hlk).
    split_and!; [by apply Hmono| |done|intros r; apply Hi].
    intros r. by rewrite Hlk, lookup_empty.
Qed.

Lemma run_handles_refines k p m ops :
  handles_wf k p → (k + Z.of_nat (length ops) < generation_limit)%Z →
  (∀ raw, lookup_handle p raw = m !! raw) →
  let '(issued, m', p') := run_handles p m ops in
  NoDup issued ∧ Forall (λ raw, ¬ issued_by p raw) issued ∧
  ∀ raw, lookup_handle p' raw = m' !! raw.
Proof.
  revert k p m. induction ops as [|op ops IH]; intros k p m Hwf Hk Hm; cbn [run_handles].
  { split_and!; [constructor|constructor|done]. }
  cbn [length] in Hk. pose proof (handle_step_refines k p m op Hwf ltac:(lia) Hm) as H.
  destruct (handle_step p op) as [o p1]. destruct H as (Hwf1 & Hm1 & Ho & Hmon).
  specialize (IH (k + 1)%Z p1 (handle_spec m op o) Hwf1 ltac:(lia) Hm1).
  destruct (run_handles p1 (handle_spec m op o) ops) as [[rest m'] p'].
  destruct IH as (Hnd & Hfresh & Hlk).
  assert (Hrest : Forall (λ raw, ¬ issued_by p raw) rest).
  { eapply Forall_impl; [exact Hfresh|]. naive_solver. }
  destruct o as [raw|]; cbn; [|done]. destruct (Ho raw eq_refl) as [Hn1 Hn2].
  split_and!; [|by constructor|done]. constructor; [|done].
  intros Hin. by apply (proj1 (Forall_forall _ _) Hfresh raw Hin).
Qed.

Lemma process_new_handles pid name ctx b l s c r :
  handles_wf 0 (process_new pid name ctx b l s c r) ∧
  ∀ raw, lookup_handle (process_new pid name ctx b l s c r) raw = None.
Proof.
  split.
  - split; [done|]. intros i h. cbn [process_new p_file_handles]. intros [-> _]%lookup_replicate. cbn. lia.
  - intros raw. destruct (lookup_handle _ raw) eqn:H; [|done].
    apply lookup_handle_Some in H as (i & g & _ & Hs). cbn [process_new p_file_handles] in Hs.
    by apply lookup_replicate in Hs as [? _].
Qed.

(** * Claims *)

(** for a new process, over any sequence of opens, closes and clears (fewer
    than 2^56 of them, so that a generation fits above the slot bits), no handle
    number is handed out twice, and the slots answer exactly as a map from
    handle numbers to files does: a number that was closed is never valid
    again, even when its slot is in use for another file. *)
Theorem file_handles_refine_map pid name ctx base len st caps root (ops : list HandleOp) :
  (Z.of_nat (length ops) < generation_limit)%Z →
  let '(issued, m, p') := run_handles (process_new pid name ctx base len st caps root) ∅ ops in
  NoDup issued ∧ ∀ raw, lookup_handle p' raw = m !! raw.
Proof.
  intros Hlen. destruct (process_new_handles pid name ctx base len st caps root) as [Hwf Hn].
  pose proof (run_handles_refines 0 _ ∅ ops Hwf ltac:(lia)) as H.
  destruct (run_handles _ ∅ ops) as [[issued m] p'].
  destruct H as (? & _ & ?); [|done]. intros raw. by rewrite Hn, lookup_empty.
Qed.

Definition sample_process : Process :=
  process_new 1 "sample" (mkProcessContext 0 0 0) 0 0 PsReady cspace_new path_empty.

Lemma file_handles_refine_map_witness :
  let ops := [HandleOpen (mkFileHandle 7); HandleClose 257; HandleOpen (mkFileHandle 8)] in
  (run_handles sample_process ∅ ops).1.1 = [257%Z; 513%Z] ∧
  let '(issued, m, p') := run_handles sample_process ∅ ops in
  NoDup issued ∧ ∀ raw, lookup_handle p' raw = m !! raw.
Proof.
  intros ops. split; [vm_compute; reflexivity|].
  apply (file_handles_refine_map 1 "sample"). reflexivity.
Defined.

(** C40: a handle number packs its slot and generation without loss: for a slot
    below [MAX_FILE_HANDLES] and a generation from 1 to 2^56 - 1, decoding the
    encoded pair gives the pair back, and every 64-bit number that decodes is
    the encoding of what it decodes to, so two numbers never name the same slot
    and generation. *)
Theorem file_handle_roundtrip :
  (∀ g i, (1 ≤ g < generation_limit)%Z → i < MAX_FILE_HANDLES →
          decode_file_handle (encode_file_handle g i) = Ok (i, g)) ∧
  (∀ raw i g, is_u64 raw → decode_file_handle raw = Ok (i, g) → raw = encode_file_handle g i).
Proof.
  split.
  - intros g i Hg Hi. apply decode_encode; [done|]. unfold MAX_FILE_HANDLES in Hi. lia.
  - intros raw i g [Hr0 Hr1] (-> & Hi & Hg)%decode_file_handle_arith.
    rewrite encode_file_handle_arith; [done| |done].
    unfold generation_limit, u64_max in *. lia.
Qed.

Lemma file_handle_roundtrip_witness :
  decode_file_handle (encode_file_handle 3 2) = Ok (2, 3%Z) ∧
  771%Z = encode_file_handle 3 2.
Proof.
  split.
  - apply (proj1 file_handle_roundtrip); [vm_compute; split; congruence|].
    unfold MAX_FILE_HANDLES. lia.
  - apply (proj2 file_handle_roundtrip); [vm_compute; split; congruence|reflexivity].
Defined.
