(* ===== verification/ProcessTableProofs.v ===== *)
(** The process table refines a list of processes, and its round-robin choice
    is fair. *)

From S2P Require Import Prelude KernelBase Transport VfsPath KernelObjects ProcessRuntime.

(** * Abstraction and invariant *)

(** The processes in table order. *)
Definition live_processes (t : ProcessTable) : list Process :=
  omap id (take (pt_count t) (pt_processes t)).

Record ptable_wf (t : ProcessTable) : Prop := mk_ptable_wf {
  pw_length : length (pt_processes t) = MAX_PROCESSES;
  pw_count : pt_count t ≤ MAX_PROCESSES;
  pw_filled i : i < pt_count t → ∃ p, pt_processes t !! i = Some (Some p);
  pw_next : (1 ≤ pt_next_id t ≤ u64_max)%Z;
  pw_pids : Forall (λ p, (1 ≤ p_pid p < pt_next_id t)%Z) (live_processes t);
  pw_nodup : NoDup (p_pid <$> live_processes t)
}.

(** All slots of a prefix are filled. *)
Lemma omap_id_filled (l : list (option Process)) :
  (∀ i, i < length l → ∃ p, l !! i = Some (Some p)) → l = Some <$> omap id l.
Proof.
  induction l as [|o l IH]; intros H; [done|].
  destruct (H 0 ltac:(cbn; lia)) as [p [= ->]]. cbn. f_equal. apply IH.
  intros i Hi. apply (H (S i)). cbn; lia.
Qed.

Lemma take_live t :
  ptable_wf t → take (pt_count t) (pt_processes t) = Some <$> live_processes t.
Proof.
  intros Hwf. apply omap_id_filled. intros i Hi. rewrite length_take in Hi.
  destruct (pw_filled t Hwf i ltac:(lia)) as [p Hp]. exists p. by rewrite lookup_take_lt by lia.
Qed.

Lemma live_lookup t i p :
  ptable_wf t →
  live_processes t !! i = Some p ↔ i < pt_count t ∧ pt_processes t !! i = Some (Some p).
Proof.
  intros Hwf. pose proof (take_live t Hwf) as Ht.
  assert (He : Some <$> live_processes t !! i = take (pt_count t) (pt_processes t) !! i)
    by (by rewrite Ht, list_lookup_fmap).
  destruct (decide (i < pt_count t)) as [Hi|Hi].
  - rewrite lookup_take_lt in He by done. rewrite <-He.
    destruct (live_processes t !! i); cbn; naive_solver.
  - rewrite lookup_take_ge in He by lia. destruct (live_processes t !! i); [done|].
    split; [done|lia].
Qed.

Lemma live_length t : ptable_wf t → length (live_processes t) = pt_count t.
Proof.
  intros Hwf. pose proof (f_equal length (take_live t Hwf)) as H.
  rewrite length_fmap, length_take in H. destruct Hwf as [? ? _ _ _ _]. lia.
Qed.

Lemma ptable_new_wf : ptable_wf ptable_new.
Proof.
  split; cbn; try lia; [done|unfold u64_max; lia|constructor|constructor].
Qed.

(** ** Building a well-formed table from its prefix *)

Lemma ptable_wf_intro t l :
  length (pt_processes t) = MAX_PROCESSES → pt_count t = length l → length l ≤ MAX_PROCESSES →
  take (pt_count t) (pt_processes t) = Some <$> l →
  (1 ≤ pt_next_id t ≤ u64_max)%Z → Forall (λ p, (1 ≤ p_pid p < pt_next_id t)%Z) l →
  NoDup (p_pid <$> l) →
  ptable_wf t ∧ live_processes t = l.
Proof.
  intros Hl Hc Hm Ht Hn Hf Hnd.
  assert (Hlive : live_processes t = l).
  { unfold live_processes. rewrite Ht. clear. induction l; cbn; [done|by f_equal]. }
  split; [|done]. split; [done|lia| |done|by rewrite Hlive|by rewrite Hlive].
  intros i Hi. destruct (lookup_lt_is_Some_2 l i ltac:(lia)) as [p Hp]. exists p.
  assert (take (pt_count t) (pt_processes t) !! i = Some (Some p)) as H
    by (by rewrite Ht, list_lookup_fmap, Hp).
  by rewrite lookup_take_lt in H by done.
Qed.

(** * Scans *)

Lemma process_index_live t pid i :
  ptable_wf t →
  process_index t pid = Some i ↔ ∃ p, live_processes t !! i = Some p ∧ p_pid p = pid.
Proof.
  intros Hwf. unfold process_index. rewrite first_index_Some. split.
  - intros (Hi & (o & Ho & Hp) & _). destruct o as [p|]; [|done]. exists p.
    split; [by apply live_lookup|]. by apply Z.eqb_eq.
  - intros (p & Hp & Hpid). pose proof (proj1 (live_lookup t i p Hwf) Hp) as [Hi Hs].
    split; [done|]. split; [exists (Some p); split; [done|cbn; lia]|].
    intros j [q|] Hj Hq; [|done]. cbn. apply Z.eqb_neq. intros Heq.
    assert (Hlq : live_processes t !! j = Some q) by (apply live_lookup; [done|split; [lia|done]]).
    assert (j = i); [|lia].
    apply (NoDup_lookup (p_pid <$> live_processes t) j i pid); [apply Hwf|..];
      rewrite list_lookup_fmap, ?Hlq, ?Hp; cbn; congruence.
Qed.

Lemma process_index_None t pid :
  ptable_wf t → process_index t pid = None ↔ pid ∉ (p_pid <$> live_processes t).
Proof.
  intros Hwf. rewrite eq_None_not_Some. split; intros H Hin; apply H.
  - apply list_elem_of_fmap in Hin as (p & -> & Hp).
    apply list_elem_of_lookup in Hp as [i Hi]. exists i. apply process_index_live; eauto.
  - destruct Hin as [i (p & Hp & <-)%process_index_live]; [|done].
    apply list_elem_of_fmap. exists p. split; [done|]. by eapply list_elem_of_lookup_2.
Qed.

Lemma process_via_index t pid :
  process t pid = process_index t pid ≫= λ i, mjoin (pt_processes t !! i).
Proof.
  unfold process, process_index. generalize (pt_count t) as n, (pt_processes t) as l.
  induction n as [|n IH]; intros [|o l]; [done..|]. cbn. destruct o as [p|]; cbn.
  - destruct (p_pid p =? pid)%Z; cbn; [done|]. rewrite IH.
    by destruct (first_index (has_pid pid) l n).
  - rewrite IH. by destruct (first_index (has_pid pid) l n).
Qed.

(** A lookup by identifier finds the one process with it. *)
Lemma process_live t pid p :
  ptable_wf t → process t pid = Some p ↔ p ∈ live_processes t ∧ p_pid p = pid.
Proof.
  intros Hwf. rewrite process_via_index, bind_Some. split.
  - intros (i & (q & Hq & Hpid)%process_index_live & Hp); [|done].
    pose proof (proj1 (live_lookup t i q Hwf) Hq) as [_ Hs]. rewrite Hs in Hp. cbn in Hp.
    simplify_eq. split; [by eapply list_elem_of_lookup_2|done].
  - intros [[i Hi]%list_elem_of_lookup Hpid]. exists i.
    split; [apply process_index_live; eauto|].
    pose proof (proj1 (live_lookup t i p Hwf) Hi) as [_ Hs]. by rewrite Hs.
Qed.

(** * Operations *)

Lemma Forall_pid_weaken n m (l : list Process) :
  (n ≤ m)%Z → Forall (λ p, (1 ≤ p_pid p < n)%Z) l → Forall (λ p, (1 ≤ p_pid p < m)%Z) l.
Proof. intros Hnm H. eapply Forall_impl; [exact H|]. cbn. intros p ?. lia. Qed.

(** Keeping all keys but one of a list with distinct keys deletes one entry. *)
Lemma filter_key_delete (l : list Process) i x :
  NoDup (p_pid <$> l) → l !! i = Some x → filter (λ y, p_pid y ≠ p_pid x) l = delete i l.
Proof.
  revert i. induction l as [|y l IH]; intros [|i] Hnd Hi; [done..| |]; cbn in Hi;
    rewrite fmap_cons, NoDup_cons in Hnd; destruct Hnd as [Hy Hnd].
  - simplify_eq. rewrite filter_cons_False by naive_solver. cbn. apply filter_all, Forall_forall.
    intros z Hz Heq. apply Hy. rewrite <-Heq. by apply list_elem_of_fmap_2.
  - rewrite filter_cons_True.
    + change (delete (S i) (y :: l)) with (y :: delete i l). f_equal. by apply IH.
    + intros Heq. apply Hy. rewrite Heq. apply list_elem_of_fmap_2.
      by eapply list_elem_of_lookup_2.
Qed.

Section ops.
Context (t : ProcessTable) (Hwf : ptable_wf t).

Lemma add_process_live name ctx base len st caps root :
  (pt_next_id t < u64_max)%Z →
  match add_process t name ctx base len st caps root with
  | (Ok pid, t') =>
      pid = pt_next_id t ∧ ptable_wf t' ∧ pt_current t' = pt_current t ∧
      (pid ∉ (p_pid <$> live_processes t)) ∧
      live_processes t' = live_processes t ++ [process_new pid name ctx base len st caps root]
  | (Err e, t') => t' = t ∧ e = ProcessTableFull ∧ length (live_processes t) = MAX_PROCESSES
  end.
Proof using Hwf.
  intros Hn. pose proof Hwf as [Hl Hc Hf Hnx Hp Hnd]. unfold add_process.
  destruct (Nat.eqb_spec (pt_count t) (length (pt_processes t))) as [Hfull|Hfull].
  { rewrite live_length by done. naive_solver congruence. }
  assert (Hfresh : pt_next_id t ∉ (p_pid <$> live_processes t)).
  { intros (p & Heq & Hin)%list_elem_of_fmap. rewrite Forall_forall in Hp.
    specialize (Hp p Hin). lia. }
  split; [done|].
  set (p := process_new _ _ _ _ _ _ _ _). set (t' := _ <| pt_count := _ |>).
  assert (Hnx' : pt_next_id t' = (pt_next_id t + 1)%Z).
  { unfold t', set; cbn. apply wrap_u64_small. unfold is_u64. lia. }
  destruct (ptable_wf_intro t' (live_processes t ++ [p])) as [Hwf' Hlive].
  - unfold t', set; cbn. by rewrite length_insert.
  - unfold t', set; cbn. rewrite length_app, live_length by done. cbn. lia.
  - rewrite length_app, live_length by done. cbn. lia.
  - unfold t', set; cbn [pt_count pt_processes]. rewrite fmap_app, <-take_live by done.
    rewrite (take_S_r _ _ (Some p)) by (apply list_lookup_insert_eq; lia).
    by rewrite take_insert_ge by lia.
  - lia.
  - rewrite Hnx'. apply Forall_app. split; [eapply Forall_pid_weaken; [|done]; lia|].
    apply Forall_singleton. cbn. lia.
  - rewrite fmap_app. apply NoDup_app. split_and!; [done| |cbn; apply NoDup_singleton].
    intros x Hx Hin. cbn in Hin. apply list_elem_of_singleton in Hin as ->. done.
  - split_and!; done.
Qed.

Lemma remove_last_process_live pid :
  match remove_last_process t pid with
  | (Ok _, t') =>
      ptable_wf t' ∧ pt_current t' = pt_current t ∧
      ∃ p, p_pid p = pid ∧ live_processes t = live_processes t' ++ [p]
  | (Err e, t') =>
      t' = t ∧ e = InvalidBootManifest ∧ (p_pid <$> last (live_processes t)) ≠ Some pid
  end.
Proof using Hwf.
  pose proof Hwf as [Hl Hc Hf Hnx Hp Hnd]. unfold remove_last_process.
  pose proof (live_length t Hwf) as Hlen.
  destruct (pt_count t) as [|n] eqn:Hn.
  { apply nil_length_inv in Hlen. by rewrite Hlen. }
  destruct (Hf n ltac:(lia)) as [p Hpn]. rewrite Hpn.
  assert (Hlast : live_processes t !! n = Some p)
    by (apply live_lookup; [done|rewrite Hn; split; [lia|done]]).
  assert (Hsplit : live_processes t = take n (live_processes t) ++ [p]).
  { rewrite <-take_S_r by done. rewrite take_ge; [done|lia]. }
  destruct (Z.eqb_spec (p_pid p) pid) as [Hpid|Hpid].
  2:{ rewrite Hsplit, last_snoc. cbn. naive_solver. }
  set (t' := _ <| pt_next_id ::= _ |>).
  assert (Hnx' : pt_next_id t' = pt_next_id t ∨ (pt_next_id t' = pid ∧ pt_next_id t = (pid + 1)%Z)).
  { unfold t', set; cbn. destruct (Z.eqb_spec (pt_next_id t) (wrap_u64 (pid + 1))) as [He|]; [|by left].
    right. split; [done|]. rewrite He. apply wrap_u64_small.
    rewrite Forall_forall in Hp. specialize (Hp p (list_elem_of_lookup_2 _ _ _ Hlast)).
    unfold is_u64. lia. }
  rewrite Hsplit, fmap_app, NoDup_app in Hnd. destruct Hnd as (Hnd & Hdis & _).
  pose proof Hp as Hp'. rewrite Hsplit, Forall_app, Forall_singleton in Hp'.
  destruct Hp' as [Hp1 Hp2].
  destruct (ptable_wf_intro t' (take n (live_processes t))) as [Hwf' Hlive].
  - unfold t', set; cbn. by rewrite length_insert.
  - unfold t', set; cbn. rewrite length_take. lia.
  - rewrite length_take. lia.
  - unfold t', set; cbn. rewrite take_insert_ge by lia.
    rewrite fmap_take, <-take_live, Hn, take_take by done. f_equal. lia.
  - destruct Hnx' as [?|[? ?]]; lia.
  - destruct Hnx' as [->|[-> Hpn']]; [done|]. rewrite Forall_forall in Hp1 |- *.
    intros q Hq. specialize (Hp1 q Hq). assert (p_pid q ≠ pid); [|lia].
    intros Heq. apply (Hdis (p_pid q)); [by apply list_elem_of_fmap_2|].
    cbn. rewrite Heq, <-Hpid. by left.
  - done.
  - split; [done|]. split; [done|]. exists p. rewrite Hlive. done.
Qed.

Lemma remove_process_live pid :
  match remove_process t pid with
  | (Ok _, t') =>
      ptable_wf t' ∧ pt_current t' = pt_current t ∧ pt_current t ≠ Some pid ∧
      (pid ∈ (p_pid <$> live_processes t)) ∧
      live_processes t' = filter (λ p, p_pid p ≠ pid) (live_processes t)
  | (Err e, t') =>
      t' = t ∧ e = InvalidBootManifest ∧
      ((pid ∉ (p_pid <$> live_processes t)) ∨ pt_current t = Some pid)
  end.
Proof using Hwf.
  pose proof Hwf as [Hl Hc Hf Hnx Hp Hnd]. unfold remove_process.
  destruct (process_index t pid) as [i|] eqn:Hi.
  2:{ apply process_index_None in Hi; [|done]. naive_solver. }
  case_bool_decide as Hcur; [naive_solver|].
  apply process_index_live in Hi as (p & Hlp & Hpid); [|done].
  pose proof (proj1 (live_lookup t i p Hwf) Hlp) as [Hlt _].
  pose proof (filter_key_delete _ _ _ Hnd Hlp) as Hdel. rewrite Hpid in Hdel.
  pose proof (live_length t Hwf) as Hlen. set (t' := _ <| pt_count := _ |>).
  destruct (ptable_wf_intro t' (delete i (live_processes t))) as [Hwf' Hlive].
  - unfold t', set; cbn. by rewrite length_insert, length_shift_down.
  - unfold t', set; cbn. rewrite length_delete; [lia|eauto].
  - rewrite length_delete; [lia|eauto].
  - unfold t', set; cbn. rewrite take_insert_ge by lia.
    rewrite take_shift_down, take_live, list_fmap_delete by (done || lia). done.
  - done.
  - rewrite <-Hdel. apply Forall_forall. intros q [_ Hq]%list_elem_of_filter.
    by apply (proj1 (Forall_forall _ _) Hp).
  - rewrite <-Hdel. eapply sublist_NoDup; [exact Hnd|]. apply fmap_sublist, sublist_filter.
  - split_and!; [done..| |by rewrite Hlive].
    rewrite <-Hpid. apply list_elem_of_fmap_2. by eapply list_elem_of_lookup_2.
Qed.
End ops.

(** * The round-robin choice *)

(** Slot [i] may be chosen. *)
Definition may_run (t : ProcessTable) (include_current : bool) (i : nat) : Prop :=
  is_ready (mjoin (pt_processes t !! i)) = true ∧
  (include_current = true ∨ current_index t ≠ Some i).

(** Where the search starts: the slot after the current one. *)
Definition search_start (t : ProcessTable) : nat :=
  match current_index t with Some index => S index mod pt_count t | None => 0 end.

(** How many slots the search passes before it looks at slot [i]. *)
Definition search_rank (t : ProcessTable) (i : nat) : nat :=
  (i + pt_count t - search_start t) mod pt_count t.

Lemma search_start_lt t : 0 < pt_count t → search_start t < pt_count t.
Proof.
  intros Hn. unfold search_start. destruct (current_index t); [|done].
  apply Nat.mod_upper_bound. lia.
Qed.

Lemma cyclic_index n s o i :
  s < n → o < n → i < n → (s + o) mod n = i ↔ o = (i + n - s) mod n.
Proof.
  intros Hs Ho Hi. destruct (decide (s + o < n)).
  - rewrite Nat.mod_small by lia. split; intros He.
    + replace (i + n - s) with (o + 1 * n) by lia. by rewrite Nat.Div0.mod_add, Nat.mod_small.
    + destruct (decide (s ≤ i)).
      * replace (i + n - s) with ((i - s) + 1 * n) in He by lia.
        rewrite Nat.Div0.mod_add, Nat.mod_small in He by lia. lia.
      * rewrite Nat.mod_small in He by lia. lia.
  - replace (s + o) with ((s + o - n) + 1 * n) by lia.
    rewrite Nat.Div0.mod_add, (Nat.mod_small (s + o - n)) by lia. split; intros He.
    + rewrite Nat.mod_small by lia. lia.
    + destruct (decide (s ≤ i)).
      * replace (i + n - s) with ((i - s) + 1 * n) in He by lia.
        rewrite Nat.Div0.mod_add, Nat.mod_small in He by lia. lia.
      * rewrite Nat.mod_small in He by lia. lia.
Qed.

Lemma search_rank_lt t i : 0 < pt_count t → search_rank t i < pt_count t.
Proof. intros. unfold search_rank. apply Nat.mod_upper_bound. lia. Qed.

Lemma search_rank_index t i :
  i < pt_count t → (search_start t + search_rank t i) mod pt_count t = i.
Proof.
  intros Hi. apply cyclic_index; [apply search_start_lt; lia|apply search_rank_lt; lia|done|done].
Qed.

Lemma search_rank_of t o :
  o < pt_count t → search_rank t ((search_start t + o) mod pt_count t) = o.
Proof.
  intros Ho. symmetry. apply cyclic_index; [apply search_start_lt; lia|done| |done].
  apply Nat.mod_upper_bound. lia.
Qed.

Lemma ready_scan_test t inc i :
  negb inc && bool_decide (current_index t = Some i) = false →
  is_ready (mjoin (pt_processes t !! i)) = true → may_run t inc i.
Proof.
  intros Hc Hr. split; [done|]. destruct inc; [by left|right].
  cbn in Hc. by apply bool_decide_eq_false in Hc.
Qed.

Lemma ready_scan_spec t inc o fuel :
  match ready_scan t inc (current_index t) (search_start t) o fuel with
  | Some i => ∃ k, o ≤ k < o + fuel ∧ i = (search_start t + k) mod pt_count t ∧
                   may_run t inc i ∧
                   ∀ j, o ≤ j < k → ¬ may_run t inc ((search_start t + j) mod pt_count t)
  | None => ∀ j, o ≤ j < o + fuel → ¬ may_run t inc ((search_start t + j) mod pt_count t)
  end.
Proof.
  revert o. induction fuel as [|fuel IH]; intros o; cbn [ready_scan]; [lia|].
  assert (Hskip : ¬ may_run t inc ((search_start t + o) mod pt_count t) →
    match ready_scan t inc (current_index t) (search_start t) (S o) fuel with
    | Some i => ∃ k, o ≤ k < o + S fuel ∧ i = (search_start t + k) mod pt_count t ∧
                     may_run t inc i ∧
                     ∀ j, o ≤ j < k → ¬ may_run t inc ((search_start t + j) mod pt_count t)
    | None => ∀ j, o ≤ j < o + S fuel → ¬ may_run t inc ((search_start t + j) mod pt_count t)
    end).
  { intros Hno. specialize (IH (S o)). destruct (ready_scan _ _ _ _ _ _) as [i|].
    - destruct IH as (k & Hk & -> & He & Hmin). exists k. split_and!; [lia|lia|done|done|].
      intros j Hj. destruct (decide (j = o)) as [->|]; [done|]. apply Hmin. lia.
    - intros j Hj. destruct (decide (j = o)) as [->|]; [done|]. apply IH. lia. }
  set (i := (search_start t + o) mod pt_count t) in *.
  destruct (negb inc && bool_decide (current_index t = Some i)) eqn:Hc.
  - apply Hskip. intros [_ [->|Hne]]; [done|]. apply andb_true_iff in Hc as [_ Hc].
    by apply bool_decide_eq_true in Hc.
  - destruct (is_ready _) eqn:Hr; [|apply Hskip; intros [? _]; congruence].
    exists o. split_and!; [lia|lia|done|by apply ready_scan_test|lia].
Qed.

(** The choice is an eligible slot of least rank. *)
Lemma next_ready_spec t inc :
  match next_ready_index_round_robin t inc with
  | Some i => i < pt_count t ∧ may_run t inc i ∧
              ∀ j, j < pt_count t → may_run t inc j → search_rank t i ≤ search_rank t j
  | None => ∀ j, j < pt_count t → ¬ may_run t inc j
  end.
Proof.
  unfold next_ready_index_round_robin.
  destruct (Nat.eqb_spec (pt_count t) 0) as [Hz|Hz]; [lia|].
  fold (search_start t). pose proof (ready_scan_spec t inc 0 (pt_count t)) as H.
  destruct (ready_scan _ _ _ _ _ _) as [i|].
  - destruct H as (k & Hk & -> & He & Hmin). split; [apply Nat.mod_upper_bound; lia|].
    split; [done|]. intros j Hj Hej. rewrite search_rank_of by lia.
    destruct (decide (search_rank t j < k)) as [Hlt|]; [|lia].
    exfalso. apply (Hmin (search_rank t j)); [lia|]. by rewrite search_rank_index.
  - intros j Hj Hej. apply (H (search_rank t j)).
    + pose proof (search_rank_lt t j ltac:(lia)). lia.
    + by rewrite search_rank_index.
Qed.

Lemma search_rank_inj t i j :
  i < pt_count t → j < pt_count t → search_rank t i = search_rank t j → i = j.
Proof.
  intros Hi Hj He. rewrite <-(search_rank_index t i), <-(search_rank_index t j) by done.
  by rewrite He.
Qed.

(** Choosing another slot brings slot [i] nearer to the front. *)
Lemma search_rank_decreases t t' k i :
  pt_count t' = pt_count t → current_index t' = Some k → k < pt_count t → i < pt_count t →
  search_rank t k < search_rank t i → search_rank t' i < search_rank t i.
Proof.
  intros Hc Hcur Hk Hi Hlt. pose proof (search_rank_lt t i ltac:(lia)) as Hri.
  assert (Hs : search_start t' = S k mod pt_count t) by (unfold search_start; by rewrite Hcur, Hc).
  set (d := search_rank t i - search_rank t k - 1).
  enough (search_rank t' i = d) by lia. unfold search_rank at 1. rewrite Hs, Hc. symmetry.
  apply cyclic_index; [apply Nat.mod_upper_bound; lia|lia|done|].
  rewrite Nat.Div0.add_mod_idemp_l.
  replace (S k + d) with (k + (1 + d)) by lia.
  rewrite <-(search_rank_index t k Hk) at 1. rewrite Nat.Div0.add_mod_idemp_l.
  replace (search_start t + search_rank t k + (1 + d)) with (search_start t + search_rank t i) by lia.
  by apply search_rank_index.
Qed.

(** Step [m] of a schedule of a table with [n] slots chooses slot [k m] and
    makes its process the current one; the processes may change otherwise. *)
Definition schedule_run (n : nat) (t : nat → ProcessTable) (inc : nat → bool) (k : nat → nat) :
    Prop :=
  ∀ m, pt_count (t m) = n ∧ next_ready_index_round_robin (t m) (inc m) = Some (k m) ∧
       current_index (t (S m)) = Some (k m).

Lemma schedule_run_rank n t inc k i r :
  schedule_run n t inc k → i < n → (∀ m, m < n → may_run (t m) (inc m) i) →
  ∀ m, search_rank (t m) i = r → m + r < n → ∃ m', m ≤ m' ≤ m + r ∧ k m' = i.
Proof.
  intros Hrun Hi He. induction r as [r IH] using lt_wf_ind. intros m Hr Hm.
  destruct (Hrun m) as (Hn & Hnext & Hcur).
  pose proof (next_ready_spec (t m) (inc m)) as Hs. rewrite Hnext in Hs.
  destruct Hs as (Hk & _ & Hmin). specialize (Hmin i ltac:(lia) (He m ltac:(lia))).
  destruct (decide (k m = i)) as [|Hne]; [exists m; split; [lia|done]|].
  assert (Hlt : search_rank (t m) (k m) < search_rank (t m) i).
  { destruct (decide (search_rank (t m) (k m) = search_rank (t m) i)) as [Heq|]; [|lia].
    apply search_rank_inj in Heq; lia. }
  pose proof (search_rank_decreases (t m) (t (S m)) (k m) i) as Hd.
  destruct (Hrun (S m)) as (Hn' & _ & _).
  specialize (Hd ltac:(congruence) Hcur Hk ltac:(lia) Hlt).
  destruct (IH (search_rank (t (S m)) i) ltac:(lia) (S m) eq_refl ltac:(lia)) as (m' & Hm' & Hkm).
  exists m'. split; [lia|done].
Qed.

(** * Claims *)

(** The operations that change which processes the table holds. *)
Inductive PtableOp :=
| PtAdd (name : string) (ctx : ProcessContext) (base len : Z) (st : ProcessState)
    (caps : CapabilitySpace) (root : VfsPath)
| PtRemoveLast (pid : ProcessId)
| PtRemove (pid : ProcessId).

Definition ptable_step (t : ProcessTable) (op : PtableOp) : bool * ProcessTable :=
  match op with
  | PtAdd name ctx base len st caps root =>
      let '(r, t') := add_process t name ctx base len st caps root in (is_ok r, t')
  | PtRemoveLast pid => let '(r, t') := remove_last_process t pid in (is_ok r, t')
  | PtRemove pid => let '(r, t') := remove_process t pid in (is_ok r, t')
  end.

(** The same operation on the list of processes; [None] when it is refused. *)
Definition ptable_spec (next : Z) (current : option ProcessId) (l : list Process) (op : PtableOp) :
    option (list Process) :=
  match op with
  | PtAdd name ctx base len st caps root =>
      if decide (length l < MAX_PROCESSES)
      then Some (l ++ [process_new next name ctx base len st caps root]) else None
  | PtRemoveLast pid =>
      if decide ((p_pid <$> last l) = Some pid) then Some (take (length l - 1) l) else None
  | PtRemove pid =>
      if decide ((pid ∈ (p_pid <$> l)) ∧ current ≠ Some pid)
      then Some (filter (λ p, p_pid p ≠ pid) l) else None
  end.

(** Adding, rolling back and removing a process act on the table as
    appending, dropping the last and filtering out do on the list of processes;
    each succeeds exactly when the list operation is defined, a refused call
    changes nothing, the current process stays, and the invariant (no holes,
    distinct identifiers below the next one) is kept. *)
Theorem process_table_refines_list (t : ProcessTable) (op : PtableOp) :
  ptable_wf t → (pt_next_id t < u64_max)%Z →
  let '(ok, t') := ptable_step t op in
  ptable_wf t' ∧ pt_current t' = pt_current t ∧
  match ptable_spec (pt_next_id t) (pt_current t) (live_processes t) op with
  | Some l' => ok = true ∧ live_processes t' = l'
  | None => ok = false ∧ t' = t
  end.
Proof.
  intros Hwf Hn. pose proof (live_length t Hwf) as Hlen. pose proof (pw_count t Hwf) as Hc.
  destruct op as [name ctx base len st caps root|pid|pid]; cbn [ptable_step ptable_spec].
  - pose proof (add_process_live t Hwf name ctx base len st caps root Hn) as H.
    destruct (add_process t _ _ _ _ _ _ _) as [[q|e] t']; cbn [is_ok].
    + destruct H as (-> & Hwf' & Hcur & _ & Hl).
      pose proof (live_length t' Hwf') as Hlen'. rewrite Hl, length_app in Hlen'.
      pose proof (pw_count t' Hwf'). cbn in Hlen'. rewrite decide_True by lia. done.
    + destruct H as (-> & _ & Hfull). by rewrite decide_False by lia.
  - pose proof (remove_last_process_live t Hwf pid) as H.
    destruct (remove_last_process t pid) as [[[]|e] t']; cbn [is_ok].
    + destruct H as (Hwf' & Hcur & p & Hp & Hl). rewrite Hl, last_snoc, length_app.
      rewrite decide_True by (cbn; congruence). split_and!; [done..|].
      cbn. rewrite Nat.add_sub, take_app_length. done.
    + destruct H as (-> & _ & Hne). by rewrite decide_False.
  - pose proof (remove_process_live t Hwf pid) as H.
    destruct (remove_process t pid) as [[[]|e] t']; cbn [is_ok].
    + destruct H as (Hwf' & Hcur & Hnc & Hin & Hl). by rewrite decide_True.
    + destruct H as (-> & _ & Hor). rewrite decide_False; [done|]. naive_solver.
Qed.

Definition sample_table : ProcessTable :=
  (ptable_step (ptable_step ptable_new
     (PtAdd "a" (mkProcessContext 0 0 0) 0 0 PsReady cspace_new path_empty)).2
     (PtAdd "b" (mkProcessContext 0 0 0) 0 0 PsReady cspace_new path_empty)).2.

Lemma sample_table_wf : ptable_wf sample_table.
Proof.
  unfold sample_table, ptable_step.
  pose proof (add_process_live ptable_new ptable_new_wf "a" (mkProcessContext 0 0 0) 0 0 PsReady
    cspace_new path_empty ltac:(done)) as H.
  destruct (add_process ptable_new _ _ _ _ _ _ _) as [[q|e] t'] eqn:He; [|done].
  destruct H as (-> & Hwf & _). cbn [snd is_ok].
  assert (pt_next_id t' = 2)%Z by (vm_compute in He; injection He as <-; done).
  pose proof (add_process_live t' Hwf "b" (mkProcessContext 0 0 0) 0 0 PsReady
    cspace_new path_empty ltac:(unfold u64_max; lia)) as H'.
  destruct (add_process t' _ _ _ _ _ _ _) as [[q|e] t2]; [apply H'|].
  by destruct H' as (-> & _).
Qed.

Lemma process_table_refines_list_witness :
  (p_pid <$> live_processes (ptable_step sample_table (PtRemove 1)).2) = [2%Z] ∧
  let '(ok, t') := ptable_step sample_table (PtRemove 1) in
  ptable_wf t' ∧ pt_current t' = pt_current sample_table ∧
  match ptable_spec (pt_next_id sample_table) (pt_current sample_table)
          (live_processes sample_table) (PtRemove 1) with
  | Some l' => ok = true ∧ live_processes t' = l'
  | None => ok = false ∧ t' = sample_table
  end.
Proof.
  split; [vm_compute; reflexivity|].
  apply (process_table_refines_list sample_table (PtRemove 1));
    [apply sample_table_wf|vm_compute; reflexivity].
Defined.

(** The round-robin search returns an eligible slot, the first one in
    cyclic order after the current process, and fails only when no slot is
    eligible. *)
Theorem round_robin_first_eligible (t : ProcessTable) (inc : bool) :
  match next_ready_index_round_robin t inc with
  | Some i => i < pt_count t ∧ may_run t inc i ∧
              ∀ j, j < pt_count t → may_run t inc j → search_rank t i ≤ search_rank t j
  | None => ∀ j, j < pt_count t → ¬ may_run t inc j
  end.
Proof. apply next_ready_spec. Qed.

(** C39: the round robin is fair: whatever the other processes do, a process
    that stays eligible is chosen within as many choices as the table has
    processes. *)
Theorem round_robin_bounded_wait (n : nat) (t : nat → ProcessTable) (inc : nat → bool)
    (k : nat → nat) (i : nat) :
  schedule_run n t inc k → i < n → (∀ m, m < n → may_run (t m) (inc m) i) →
  ∃ m, m < n ∧ k m = i.
Proof.
  intros Hrun Hi He. destruct (Hrun 0) as (Hn & _).
  pose proof (search_rank_lt (t 0) i ltac:(lia)) as Hr.
  destruct (schedule_run_rank n t inc k i _ Hrun Hi He 0 eq_refl ltac:(lia)) as (m & Hm & Hk).
  exists m. split; [lia|done].
Qed.

(** Two processes that stay ready alternate. *)
Definition alternating (m : nat) : ProcessTable :=
  set_current sample_table (if Nat.even m then 1%Z else 2%Z).

Lemma round_robin_bounded_wait_witness :
  ∃ m, m < 2 ∧ (if Nat.even m then 1 else 0) = 0.
Proof.
  apply (round_robin_bounded_wait 2 alternating (λ _, true) (λ m, if Nat.even m then 1 else 0) 0);
    [|lia|].
  - intros m. unfold alternating. rewrite Nat.even_succ, <-Nat.negb_even.
    destruct (Nat.even m); vm_compute; auto.
  - intros m _. unfold alternating. destruct (Nat.even m); vm_compute; auto.
Defined.
