(* ===== verification/BootConfig.v ===== *)
(** The boot configuration ([kernel/runtime_config.rs]): the tables the boot
    manifest is parsed into, the functions that fill them, and the invariant
    that these functions keep. *)

From S2P Require Import Prelude KernelBase Transport VfsPath KernelObjects ProcessRuntime.

(** * Counted arrays *)

(** An array of options with the number of entries in use: every pair of fields
    [xs : [Option<X>; N]], [x_count] of the configuration. *)
Record Counted (A : Type) := mkCounted { cn_slots : list (option A); cn_used : nat }.
Global Arguments mkCounted {A}.
Global Arguments cn_slots {A}.
Global Arguments cn_used {A}.

Definition counted_new {A} (n : nat) : Counted A := mkCounted (replicate n None) 0.
Definition counted_reset {A} (c : Counted A) : Counted A := mkCounted (cn_slots c) 0.
Definition counted_full {A} (c : Counted A) : bool := cn_used c =? length (cn_slots c).
(** [xs[x_count] = Some(x); x_count += 1]. *)
Definition counted_push {A} (x : A) (c : Counted A) : Counted A :=
  mkCounted (<[cn_used c := Some x]> (cn_slots c)) (S (cn_used c)).
(** The entries in use. *)
Definition counted {A} (c : Counted A) : list (option A) := take (cn_used c) (cn_slots c).
(** The entry at [index], if it is there. *)
Definition counted_get {A} (c : Counted A) (index : nat) : option A := mjoin (cn_slots c !! index).
(** [xs[index].ok_or(InvalidBootManifest)?].  An index outside the array, where
    the code would stop, gives the error as well; see [config_wf]. *)
Definition config_entry {A} (c : Counted A) (index : nat) : Result InitError A :=
  ok_or (counted_get c index) InvalidBootManifest.

(** * Loops over entries *)

(** Loops that skip empty entries. *)
Fixpoint any_present {A} (f : A → bool) (l : list (option A)) : bool :=
  match l with
  | [] => false
  | Some x :: l' => f x || any_present f l'
  | None :: l' => any_present f l'
  end.
Fixpoint find_present {A} (f : A → bool) (l : list (option A)) : option A :=
  match l with
  | [] => None
  | Some x :: l' => if f x then Some x else find_present f l'
  | None :: l' => find_present f l'
  end.

(** Loops that fail at an empty entry. *)
Fixpoint find_entry {A} (f : A → Result InitError bool) (l : list (option A)) : Result InitError (option A) :=
  match l with
  | [] => Ok None
  | None :: _ => Err InvalidBootManifest
  | Some x :: l' =>
      let? b := f x in
      if b : bool then Ok (Some x) else find_entry f l'
  end.
Definition any_entry {A} (f : A → Result InitError bool) (l : list (option A)) : Result InitError bool :=
  let? o := find_entry f l in Ok (bool_decide (is_Some o)).

(** * Entries *)

Definition MAX_BOOT_GRANTS : nat := 128.
Definition MAX_BOOT_NAMESPACES : nat := 4.
Definition MAX_BOOT_VFS_ROOTS : nat := 8.
Definition MAX_BOOT_STATE_VOLUMES : nat := 4.
Definition MAX_BOOT_PROCESS_MOUNTS : nat := 4.
Definition MAX_BOOT_GRAPH_NODES : nat := 128.
Definition MAX_BOOT_GRAPH_EDGES : nat := 224.
Definition MAX_BOOT_POLICY_CAPABILITIES : nat := 128.
Definition MAX_BOOT_POLICY_REQUIREMENTS : nat := 160.
Definition MAX_BOOT_POLICY_PROVIDES : nat := 64.
Definition MAX_BOOT_POLICY_MOUNTS : nat := 96.
Definition MAX_BOOT_POLICY_STATE_PATHS : nat := 96.
Definition MAX_BOOT_POLICY_BOOTSTRAPS : nat := 96.
Definition BOOT_POLICY_VERSION : Z := 3.
Definition BOOT_PROCESS_MOUNT_BIND : Z := 1.
Definition BOOT_PROCESS_MOUNT_READ_ONLY : Z := Z.shiftl 1 1.
(** [graph_abi::EDGE_CAPABILITY], [GRAPH_NODE_GENERATION], [GRAPH_NODE_SERVICE]. *)
Definition GRAPH_EDGE_CAPABILITY : Z := 2.
Definition GRAPH_NODE_GENERATION : Z := 1.
Definition GRAPH_NODE_SERVICE : Z := 2.

Definition BOOT_OBJECT_ENDPOINT : Z := 1.
Definition BOOT_OBJECT_STORE : Z := 2.
Definition BOOT_OBJECT_STATE : Z := 3.
Definition BOOT_OBJECT_TIMER : Z := 4.
Definition BOOT_OBJECT_NETWORK_PORT : Z := 5.
Definition BOOT_OBJECT_IO_PORT_RANGE : Z := 6.
Definition BOOT_OBJECT_MMIO_REGION : Z := 7.
Definition BOOT_OBJECT_INTERRUPT_LINE : Z := 8.
Definition BOOT_OBJECT_DMA_REGION : Z := 9.
Definition BOOT_OBJECT_PCI_DEVICE : Z := 10.
Definition BOOT_OBJECT_VIRTIO_DEVICE : Z := 11.
Definition BOOT_OBJECT_NAMESPACE : Z := 12.
Definition BOOT_OBJECT_VFS_ROOT : Z := 13.
Definition BOOT_OBJECT_FRAMEBUFFER : Z := 14.
Definition BOOT_OBJECT_SECRET : Z := 15.

Record BootProcessMountConfig := mkBootProcessMountConfig {
  bpm_path : string; bpm_source : string; bpm_flags : Z }.

Record BootProcessConfig := mkBootProcessConfig {
  bp_name : string;
  bp_graph_node : string;
  bp_image_base : Z;
  bp_image_length : Z;
  bp_initial : bool;
  bp_restart_policy : Z;
  bp_mount_root : string;
  bp_mounts : Counted BootProcessMountConfig
}.

Record BootEndpointConfig := mkBootEndpointConfig { bep_name : string }.
Record BootModuleConfig := mkBootModuleConfig { bmo_name : string; bmo_base : Z; bmo_length : Z }.
Record BootStoreObjectConfig := mkBootStoreObjectConfig {
  bso_id : string; bso_base : Z; bso_length : Z; bso_hash : string }.
Record BootNetworkPortConfig := mkBootNetworkPortConfig { bnp_id : string }.
Record BootIoPortRangeConfig := mkBootIoPortRangeConfig { bio_id : string; bio_base : Z; bio_length : Z }.
Record BootMmioRegionConfig := mkBootMmioRegionConfig { bmm_id : string; bmm_base : Z; bmm_length : Z }.
Record BootFramebufferConfig := mkBootFramebufferConfig { bfb_id : string }.
Record BootInterruptLineConfig := mkBootInterruptLineConfig { bil_id : string; bil_line : Z }.
Record BootDmaRegionConfig := mkBootDmaRegionConfig { bdm_id : string; bdm_base : Z; bdm_length : Z }.
Record BootPciDeviceConfig := mkBootPciDeviceConfig { bpd_id : string; bpd_kind : string }.
Record BootVirtioDeviceConfig := mkBootVirtioDeviceConfig { bvd_id : string; bvd_transport : string }.
Record BootNamespaceEntryConfig := mkBootNamespaceEntryConfig {
  bne_path : string; bne_object_kind : Z; bne_object_index : nat; bne_rights : Z }.
Record BootNamespaceConfig := mkBootNamespaceConfig {
  bns_id : string; bns_entries : Counted BootNamespaceEntryConfig }.
Record BootVfsRootConfig := mkBootVfsRootConfig { bvr_id : string; bvr_root_path : string }.
Record BootGraphNodeConfig := mkBootGraphNodeConfig {
  bgn_kind : Z; bgn_object_kind : Z; bgn_id : string; bgn_label : string }.
Record BootGraphEdgeConfig := mkBootGraphEdgeConfig {
  bge_kind : Z; bge_from_index : nat; bge_to_index : nat; bge_rights : Z; bge_id : string }.
Record BootGrantConfig := mkBootGrantConfig {
  bg_process_index : nat; bg_cap_slot : Z; bg_object_kind : Z; bg_object_index : nat; bg_rights : Z }.
Record BootPolicyCapabilityConfig := mkBootPolicyCapabilityConfig {
  bpc_id : string; bpc_provider : string; bpc_object_kind : Z; bpc_object_index : nat; bpc_rights : Z }.
Record BootPolicyRequirementConfig := mkBootPolicyRequirementConfig {
  bpr_service : string; bpr_capability : string; bpr_rights : Z }.
Record BootPolicyProvideConfig := mkBootPolicyProvideConfig { bpv_service : string; bpv_capability : string }.
Record BootPolicyMountConfig := mkBootPolicyMountConfig {
  bpo_service : string; bpo_mount_root : string; bpo_path : string; bpo_source : string; bpo_flags : Z }.
Record BootPolicyStatePathConfig := mkBootPolicyStatePathConfig {
  bps_service : string; bps_state : string; bps_root : string; bps_rights : Z }.
Record BootPolicyBootstrapConfig := mkBootPolicyBootstrapConfig {
  bpb_service : string; bpb_authority : string; bpb_rule : string; bpb_rights : Z }.

(** * The configuration *)

Record BootRuntimeConfig := mkBootRuntimeConfig {
  cf_generation_id : string;
  cf_manifest_hash : list byte;
  cf_graph_store_hash : list byte;
  cf_graph_store_checksum : Z;
  cf_graph_store_source : string;
  cf_policy_version : Z;
  cf_policy_hash : list byte;
  cf_manifest_module : option BootModuleConfig;
  cf_processes : Counted BootProcessConfig;
  cf_endpoints : Counted BootEndpointConfig;
  cf_store_objects : Counted BootStoreObjectConfig;
  cf_state_volumes : Counted BootStateVolumeConfig;
  cf_network_ports : Counted BootNetworkPortConfig;
  cf_io_ports : Counted BootIoPortRangeConfig;
  cf_mmio_regions : Counted BootMmioRegionConfig;
  cf_framebuffers : Counted BootFramebufferConfig;
  cf_interrupt_lines : Counted BootInterruptLineConfig;
  cf_dma_regions : Counted BootDmaRegionConfig;
  cf_pci_devices : Counted BootPciDeviceConfig;
  cf_virtio_devices : Counted BootVirtioDeviceConfig;
  cf_namespaces : Counted BootNamespaceConfig;
  cf_vfs_roots : Counted BootVfsRootConfig;
  cf_graph_nodes : Counted BootGraphNodeConfig;
  cf_graph_edges : Counted BootGraphEdgeConfig;
  cf_grants : Counted BootGrantConfig;
  cf_policy_capabilities : Counted BootPolicyCapabilityConfig;
  cf_policy_requirements : Counted BootPolicyRequirementConfig;
  cf_policy_provides : Counted BootPolicyProvideConfig;
  cf_policy_mounts : Counted BootPolicyMountConfig;
  cf_policy_state_paths : Counted BootPolicyStatePathConfig;
  cf_policy_bootstraps : Counted BootPolicyBootstrapConfig
}.
#[export] Instance eta_BootRuntimeConfig : Eta BootRuntimeConfig := λ c,
  mkBootRuntimeConfig (cf_generation_id c) (cf_manifest_hash c) (cf_graph_store_hash c)
  (cf_graph_store_checksum c) (cf_graph_store_source c) (cf_policy_version c) (cf_policy_hash c)
  (cf_manifest_module c) (cf_processes c) (cf_endpoints c) (cf_store_objects c) (cf_state_volumes c)
  (cf_network_ports c) (cf_io_ports c) (cf_mmio_regions c) (cf_framebuffers c) (cf_interrupt_lines c)
  (cf_dma_regions c) (cf_pci_devices c) (cf_virtio_devices c) (cf_namespaces c) (cf_vfs_roots c)
  (cf_graph_nodes c) (cf_graph_edges c) (cf_grants c) (cf_policy_capabilities c) (cf_policy_requirements c)
  (cf_policy_provides c) (cf_policy_mounts c) (cf_policy_state_paths c) (cf_policy_bootstraps c).

(** [BootRuntimeConfig::new]. *)
Definition boot_config_new : BootRuntimeConfig :=
  mkBootRuntimeConfig "" (replicate 64 0%Z) (replicate 64 0%Z) 0 "" 0 (replicate 64 0%Z) None
  (counted_new MAX_PROCESSES) (counted_new MAX_OBJECTS) (counted_new MAX_OBJECTS)
  (counted_new MAX_BOOT_STATE_VOLUMES) (counted_new MAX_OBJECTS) (counted_new MAX_OBJECTS)
  (counted_new MAX_OBJECTS) (counted_new MAX_OBJECTS) (counted_new MAX_OBJECTS) (counted_new MAX_OBJECTS)
  (counted_new MAX_OBJECTS) (counted_new MAX_OBJECTS) (counted_new MAX_BOOT_NAMESPACES)
  (counted_new MAX_BOOT_VFS_ROOTS) (counted_new MAX_BOOT_GRAPH_NODES) (counted_new MAX_BOOT_GRAPH_EDGES)
  (counted_new MAX_BOOT_GRANTS) (counted_new MAX_BOOT_POLICY_CAPABILITIES)
  (counted_new MAX_BOOT_POLICY_REQUIREMENTS) (counted_new MAX_BOOT_POLICY_PROVIDES)
  (counted_new MAX_BOOT_POLICY_MOUNTS) (counted_new MAX_BOOT_POLICY_STATE_PATHS)
  (counted_new MAX_BOOT_POLICY_BOOTSTRAPS).

(** [BootRuntimeConfig::reset]: the counts are cleared, the entries stay. *)
Definition boot_config_reset (c : BootRuntimeConfig) : BootRuntimeConfig :=
  mkBootRuntimeConfig "" (replicate 64 0%Z) (replicate 64 0%Z) 0 "" 0 (replicate 64 0%Z) None
  (counted_reset (cf_processes c)) (counted_reset (cf_endpoints c)) (counted_reset (cf_store_objects c))
  (counted_reset (cf_state_volumes c)) (counted_reset (cf_network_ports c)) (counted_reset (cf_io_ports c))
  (counted_reset (cf_mmio_regions c)) (counted_reset (cf_framebuffers c))
  (counted_reset (cf_interrupt_lines c)) (counted_reset (cf_dma_regions c))
  (counted_reset (cf_pci_devices c)) (counted_reset (cf_virtio_devices c)) (counted_reset (cf_namespaces c))
  (counted_reset (cf_vfs_roots c)) (counted_reset (cf_graph_nodes c)) (counted_reset (cf_graph_edges c))
  (counted_reset (cf_grants c)) (counted_reset (cf_policy_capabilities c))
  (counted_reset (cf_policy_requirements c)) (counted_reset (cf_policy_provides c))
  (counted_reset (cf_policy_mounts c)) (counted_reset (cf_policy_state_paths c))
  (counted_reset (cf_policy_bootstraps c)).

(** * Filling the configuration *)

Abbreviation Config := (M BootRuntimeConfig InitError) (only parsing).

Definition str_empty (s : string) : bool := str_eqb s "".

(** [set_generation_id] and the other setters. *)
Definition set_generation_id (id : string) (c : BootRuntimeConfig) : BootRuntimeConfig :=
  c <| cf_generation_id := id |>.
Definition set_manifest_hash (hash : list byte) (c : BootRuntimeConfig) : BootRuntimeConfig :=
  c <| cf_manifest_hash := hash |>.
Definition set_graph_store_hash (hash : list byte) (c : BootRuntimeConfig) : BootRuntimeConfig :=
  c <| cf_graph_store_hash := hash |>.
Definition set_graph_store_checksum (checksum : Z) (c : BootRuntimeConfig) : BootRuntimeConfig :=
  c <| cf_graph_store_checksum := checksum |>.
Definition set_graph_store_source (source : string) (c : BootRuntimeConfig) : BootRuntimeConfig :=
  c <| cf_graph_store_source := source |>.
Definition set_policy_version (version : Z) (c : BootRuntimeConfig) : BootRuntimeConfig :=
  c <| cf_policy_version := version |>.
Definition set_policy_hash (hash : list byte) (c : BootRuntimeConfig) : BootRuntimeConfig :=
  c <| cf_policy_hash := hash |>.
Definition set_manifest_module (module : BootModuleConfig) (c : BootRuntimeConfig) : BootRuntimeConfig :=
  c <| cf_manifest_module := Some module |>.

(** [known_boot_process_mount_flags]. *)
Definition known_boot_process_mount_flags : Z := Z.lor BOOT_PROCESS_MOUNT_BIND BOOT_PROCESS_MOUNT_READ_ONLY.

(** The conditions on a declared mount: [path], [source] and [flags]. *)
Definition valid_bind (path source : string) (flags : Z) : bool :=
  valid_vfs_root_path (string_bytes path) && valid_vfs_root_path (string_bytes source) &&
  negb (str_eqb path "/") && (Z.ldiff flags known_boot_process_mount_flags =? 0)%Z &&
  negb (Z.land flags BOOT_PROCESS_MOUNT_BIND =? 0)%Z.

(** [valid_boot_process_mounts]; [prior] are the mounts before [l]. *)
Fixpoint valid_mounts_from (prior l : list (option BootProcessMountConfig)) : bool :=
  match l with
  | [] => true
  | None :: _ => false
  | Some mount :: l' =>
      valid_bind (bpm_path mount) (bpm_source mount) (bpm_flags mount) &&
      negb (any_present (λ existing, str_eqb (bpm_path existing) (bpm_path mount)) prior) &&
      valid_mounts_from (prior ++ [Some mount]) l'
  end.
Definition valid_boot_process_mounts (process : BootProcessConfig) : bool :=
  (cn_used (bp_mounts process) <=? MAX_BOOT_PROCESS_MOUNTS) &&
  valid_mounts_from [] (counted (bp_mounts process)).

(** [add_process]. *)
Definition config_add_process (process : BootProcessConfig) : Config unit :=
  let! c := rget in
  do! rguard (negb (counted_full (cf_processes c))) ProcessTableFull;
  do! rguard (valid_vfs_root_path (string_bytes (bp_mount_root process))) InvalidBootManifest;
  do! rguard (valid_boot_process_mounts process) InvalidBootManifest;
  rmodify (λ c, c <| cf_processes ::= counted_push process |>).

(** [add_endpoint]. *)
Definition config_add_endpoint (x : BootEndpointConfig) : Config unit :=
  let! c := rget in
  do! rguard (negb (counted_full (cf_endpoints c))) ObjectTableFull;
  rmodify (λ c, c <| cf_endpoints ::= counted_push x |>).

(** [add_store_object]. *)
Definition config_add_store_object (x : BootStoreObjectConfig) : Config unit :=
  let! c := rget in
  do! rguard (negb (counted_full (cf_store_objects c))) ObjectTableFull;
  rmodify (λ c, c <| cf_store_objects ::= counted_push x |>).

(** [add_network_port]. *)
Definition config_add_network_port (x : BootNetworkPortConfig) : Config unit :=
  let! c := rget in
  do! rguard (negb (counted_full (cf_network_ports c))) ObjectTableFull;
  rmodify (λ c, c <| cf_network_ports ::= counted_push x |>).

(** [add_io_port]. *)
Definition config_add_io_port (x : BootIoPortRangeConfig) : Config unit :=
  let! c := rget in
  do! rguard (negb (counted_full (cf_io_ports c))) ObjectTableFull;
  rmodify (λ c, c <| cf_io_ports ::= counted_push x |>).

(** [add_mmio_region]. *)
Definition config_add_mmio_region (x : BootMmioRegionConfig) : Config unit :=
  let! c := rget in
  do! rguard (negb (counted_full (cf_mmio_regions c))) ObjectTableFull;
  rmodify (λ c, c <| cf_mmio_regions ::= counted_push x |>).

(** [add_framebuffer]. *)
Definition config_add_framebuffer (x : BootFramebufferConfig) : Config unit :=
  let! c := rget in
  do! rguard (negb (counted_full (cf_framebuffers c))) ObjectTableFull;
  rmodify (λ c, c <| cf_framebuffers ::= counted_push x |>).

(** [add_interrupt_line]. *)
Definition config_add_interrupt_line (x : BootInterruptLineConfig) : Config unit :=
  let! c := rget in
  do! rguard (negb (counted_full (cf_interrupt_lines c))) ObjectTableFull;
  rmodify (λ c, c <| cf_interrupt_lines ::= counted_push x |>).

(** [add_dma_region]. *)
Definition config_add_dma_region (x : BootDmaRegionConfig) : Config unit :=
  let! c := rget in
  do! rguard (negb (counted_full (cf_dma_regions c))) ObjectTableFull;
  rmodify (λ c, c <| cf_dma_regions ::= counted_push x |>).

(** [add_pci_device]. *)
Definition config_add_pci_device (x : BootPciDeviceConfig) : Config unit :=
  let! c := rget in
  do! rguard (negb (counted_full (cf_pci_devices c))) ObjectTableFull;
  rmodify (λ c, c <| cf_pci_devices ::= counted_push x |>).

(** [add_virtio_device]. *)
Definition config_add_virtio_device (x : BootVirtioDeviceConfig) : Config unit :=
  let! c := rget in
  do! rguard (negb (counted_full (cf_virtio_devices c))) ObjectTableFull;
  rmodify (λ c, c <| cf_virtio_devices ::= counted_push x |>).

(** [str::strip_prefix]. *)
Fixpoint strip_prefix (prefix s : string) : option string :=
  match prefix, s with
  | EmptyString, _ => Some s
  | String a prefix', String b s' => if bool_decide (a = b) then strip_prefix prefix' s' else None
  | String _ _, EmptyString => None
  end.

(** [state_volume_mount_component] of [vfs/state.rs]. *)
Definition state_volume_mount_component (id : string) : Result InitError string :=
  match strip_prefix "state:" id with
  | None => Err InvalidBootManifest
  | Some component =>
      do? res_guard (negb (str_empty component || (MAX_VFS_NAME_BYTES <? length (string_bytes component))))
            InvalidBootManifest;
      do? res_guard (forallb (λ b, negb ((b =? slash) || (b =? 0))%Z) (string_bytes component))
            InvalidBootManifest;
      Ok component
  end.

(** [add_state_volume]. *)
Definition config_add_state_volume (state : BootStateVolumeConfig) : Config unit :=
  let! c := rget in
  do! rguard (negb (counted_full (cf_state_volumes c)) && is_ok (state_volume_mount_component (svc_id state)))
        InvalidBootManifest;
  rmodify (λ c, c <| cf_state_volumes ::= counted_push state |>).

(** [add_namespace]. *)
Definition config_add_namespace (namespace : BootNamespaceConfig) : Config unit :=
  let! c := rget in
  do! rguard (negb (counted_full (cf_namespaces c))) ObjectTableFull;
  do! rguard (cn_used (bns_entries namespace) <=? MAX_NAMESPACE_ENTRIES) InvalidBootManifest;
  rmodify (λ c, c <| cf_namespaces ::= counted_push namespace |>).

(** [add_vfs_root]. *)
Definition config_add_vfs_root (root : BootVfsRootConfig) : Config unit :=
  let! c := rget in
  do! rguard (negb (counted_full (cf_vfs_roots c))) ObjectTableFull;
  do! rguard (valid_vfs_root_path (string_bytes (bvr_root_path root))) InvalidBootManifest;
  rmodify (λ c, c <| cf_vfs_roots ::= counted_push root |>).

(** [add_graph_node]. *)
Definition config_add_graph_node (node : BootGraphNodeConfig) : Config unit :=
  let! c := rget in
  do! rguard (negb (counted_full (cf_graph_nodes c) || (bgn_kind node =? 0)%Z || str_empty (bgn_id node)))
        InvalidBootManifest;
  do! rguard (negb (any_present (λ existing, str_eqb (bgn_id existing) (bgn_id node))
                      (counted (cf_graph_nodes c)))) InvalidBootManifest;
  rmodify (λ c, c <| cf_graph_nodes ::= counted_push node |>).

(** The test of an edge [add_graph_edge] and [validate_boot_config_graph_store]
    share, with [nodes] nodes. *)
Definition graph_edge_ok (nodes : nat) (edge : BootGraphEdgeConfig) : bool :=
  negb (bge_kind edge =? 0)%Z && negb (str_empty (bge_id edge)) &&
  (bge_from_index edge <? nodes) && (bge_to_index edge <? nodes) &&
  negb ((bge_kind edge =? GRAPH_EDGE_CAPABILITY)%Z && (bge_rights edge =? 0)%Z).

(** [add_graph_edge]. *)
Definition config_add_graph_edge (edge : BootGraphEdgeConfig) : Config unit :=
  let! c := rget in
  do! rguard (negb (counted_full (cf_graph_edges c)) && graph_edge_ok (cn_used (cf_graph_nodes c)) edge)
        InvalidBootManifest;
  do! rguard (negb (any_present (λ existing, str_eqb (bge_id existing) (bge_id edge))
                      (counted (cf_graph_edges c)))) InvalidBootManifest;
  rmodify (λ c, c <| cf_graph_edges ::= counted_push edge |>).

(** [object_ref_valid]. *)
Definition object_ref_valid (c : BootRuntimeConfig) (object_kind : Z) (object_index : nat) : bool :=
  if (object_kind =? BOOT_OBJECT_ENDPOINT)%Z then object_index <? cn_used (cf_endpoints c)
  else if (object_kind =? BOOT_OBJECT_STORE)%Z then object_index <? cn_used (cf_store_objects c)
  else if (object_kind =? BOOT_OBJECT_TIMER)%Z then object_index =? 0
  else if (object_kind =? BOOT_OBJECT_NETWORK_PORT)%Z then object_index <? cn_used (cf_network_ports c)
  else if (object_kind =? BOOT_OBJECT_IO_PORT_RANGE)%Z then object_index <? cn_used (cf_io_ports c)
  else if (object_kind =? BOOT_OBJECT_MMIO_REGION)%Z then object_index <? cn_used (cf_mmio_regions c)
  else if (object_kind =? BOOT_OBJECT_FRAMEBUFFER)%Z then object_index <? cn_used (cf_framebuffers c)
  else if (object_kind =? BOOT_OBJECT_INTERRUPT_LINE)%Z then object_index <? cn_used (cf_interrupt_lines c)
  else if (object_kind =? BOOT_OBJECT_DMA_REGION)%Z then object_index <? cn_used (cf_dma_regions c)
  else if (object_kind =? BOOT_OBJECT_PCI_DEVICE)%Z then object_index <? cn_used (cf_pci_devices c)
  else if (object_kind =? BOOT_OBJECT_VIRTIO_DEVICE)%Z then object_index <? cn_used (cf_virtio_devices c)
  else if (object_kind =? BOOT_OBJECT_NAMESPACE)%Z then object_index <? cn_used (cf_namespaces c)
  else if (object_kind =? BOOT_OBJECT_VFS_ROOT)%Z then object_index <? cn_used (cf_vfs_roots c)
  else false.

(** [policy_object_ref_valid]. *)
Definition policy_object_ref_valid (c : BootRuntimeConfig) (object_kind : Z) (object_index : nat) : bool :=
  if (object_kind =? BOOT_OBJECT_SECRET)%Z then object_index =? 0
  else object_ref_valid c object_kind object_index.

(** [state_volume_ref_valid]. *)
Definition state_volume_ref_valid (c : BootRuntimeConfig) (state_id : string) : bool :=
  any_present (λ state, str_eqb (svc_id state) state_id) (counted (cf_state_volumes c)).

(** [add_grant]; its match on the kind is the test of [object_ref_valid]. *)
Definition config_add_grant (grant : BootGrantConfig) : Config unit :=
  let! c := rget in
  do! rguard (negb (counted_full (cf_grants c))) CapabilityTableFull;
  do! rguard (bg_process_index grant <? cn_used (cf_processes c)) InvalidBootManifest;
  do! rguard (negb (any_present (λ existing, (bg_process_index existing =? bg_process_index grant) &&
                                             (bg_cap_slot existing =? bg_cap_slot grant)%Z)
                      (counted (cf_grants c)))) InvalidBootManifest;
  do! rguard (object_ref_valid c (bg_object_kind grant) (bg_object_index grant)) InvalidBootManifest;
  rmodify (λ c, c <| cf_grants ::= counted_push grant |>).

(** [add_policy_capability]. *)
Definition config_add_policy_capability (capability : BootPolicyCapabilityConfig) : Config unit :=
  let! c := rget in
  do! rguard (negb (counted_full (cf_policy_capabilities c) || str_empty (bpc_id capability) ||
                    str_empty (bpc_provider capability) || (bpc_rights capability =? 0)%Z ||
                    negb (policy_object_ref_valid c (bpc_object_kind capability) (bpc_object_index capability))))
        InvalidBootManifest;
  do! rguard (negb (any_present (λ existing, str_eqb (bpc_id existing) (bpc_id capability))
                      (counted (cf_policy_capabilities c)))) InvalidBootManifest;
  rmodify (λ c, c <| cf_policy_capabilities ::= counted_push capability |>).

(** [add_policy_requirement]. *)
Definition config_add_policy_requirement (requirement : BootPolicyRequirementConfig) : Config unit :=
  let! c := rget in
  do! rguard (negb (counted_full (cf_policy_requirements c) || str_empty (bpr_service requirement) ||
                    str_empty (bpr_capability requirement) || (bpr_rights requirement =? 0)%Z))
        InvalidBootManifest;
  rmodify (λ c, c <| cf_policy_requirements ::= counted_push requirement |>).

(** [add_policy_provide]. *)
Definition config_add_policy_provide (provide : BootPolicyProvideConfig) : Config unit :=
  let! c := rget in
  do! rguard (negb (counted_full (cf_policy_provides c) || str_empty (bpv_service provide) ||
                    str_empty (bpv_capability provide))) InvalidBootManifest;
  rmodify (λ c, c <| cf_policy_provides ::= counted_push provide |>).

(** [add_policy_mount]. *)
Definition config_add_policy_mount (mount : BootPolicyMountConfig) : Config unit :=
  let! c := rget in
  do! rguard (negb (counted_full (cf_policy_mounts c) || str_empty (bpo_service mount) ||
                    str_empty (bpo_mount_root mount) ||
                    negb (valid_vfs_root_path (string_bytes (bpo_mount_root mount))))) InvalidBootManifest;
  do! (if str_empty (bpo_path mount) || str_empty (bpo_source mount) then
         rguard (str_empty (bpo_path mount) && str_empty (bpo_source mount) && (bpo_flags mount =? 0)%Z)
           InvalidBootManifest
       else rguard (valid_bind (bpo_path mount) (bpo_source mount) (bpo_flags mount)) InvalidBootManifest);
  rmodify (λ c, c <| cf_policy_mounts ::= counted_push mount |>).

(** [add_policy_state_path]. *)
Definition config_add_policy_state_path (state_path : BootPolicyStatePathConfig) : Config unit :=
  let! c := rget in
  do! rguard (negb (counted_full (cf_policy_state_paths c) || str_empty (bps_service state_path) ||
                    str_empty (bps_state state_path) || str_empty (bps_root state_path) ||
                    (bps_rights state_path =? 0)%Z ||
                    negb (valid_vfs_root_path (string_bytes (bps_root state_path))) ||
                    negb (state_volume_ref_valid c (bps_state state_path)))) InvalidBootManifest;
  rmodify (λ c, c <| cf_policy_state_paths ::= counted_push state_path |>).

(** [add_policy_bootstrap]. *)
Definition config_add_policy_bootstrap (bootstrap : BootPolicyBootstrapConfig) : Config unit :=
  let! c := rget in
  do! rguard (negb (counted_full (cf_policy_bootstraps c) || str_empty (bpb_service bootstrap) ||
                    str_empty (bpb_authority bootstrap) || str_empty (bpb_rule bootstrap) ||
                    (bpb_rights bootstrap =? 0)%Z)) InvalidBootManifest;
  rmodify (λ c, c <| cf_policy_bootstraps ::= counted_push bootstrap |>).

(** * Well-formed configurations *)

Record counted_wf {A} (n : nat) (c : Counted A) : Prop := mk_counted_wf {
  cw_length : length (cn_slots c) = n;
  cw_used : cn_used c ≤ n;
  cw_filled : ∀ i, i < cn_used c → is_Some (counted_get c i)
}.

(** The entries themselves. *)
Definition entries {A} (c : Counted A) : list A := omap id (counted c).

Lemma counted_new_wf {A} n : counted_wf n (counted_new (A:=A) n).
Proof. split; [apply length_replicate|cbn; lia|cbn; lia]. Qed.
Lemma counted_reset_wf {A} n (c : Counted A) : counted_wf n c → counted_wf n (counted_reset c).
Proof. intros [H1 H2 H3]. split; [done|cbn; lia|cbn; lia]. Qed.
Lemma counted_full_false {A} n (c : Counted A) :
  counted_wf n c → counted_full c = false → cn_used c < n.
Proof. intros [H1 H2 _]. unfold counted_full. intros ?%Nat.eqb_neq. lia. Qed.
Lemma counted_push_wf {A} n (x : A) c :
  counted_wf n c → counted_full c = false → counted_wf n (counted_push x c).
Proof.
  intros H Hf. pose proof (counted_full_false n c H Hf). destruct H as [H1 H2 H3].
  split; cbn; [by rewrite length_insert|lia|]. intros i Hi. unfold counted_get. cbn.
  destruct (decide (i = cn_used c)) as [->|Hne].
  - rewrite list_lookup_insert_eq by lia. eauto.
  - rewrite list_lookup_insert_ne by done. apply H3. lia.
Qed.
Lemma entries_push {A} n (x : A) c :
  counted_wf n c → counted_full c = false → entries (counted_push x c) = entries c ++ [x].
Proof.
  intros H Hf. pose proof (counted_full_false n c H Hf). destruct H as [H1 H2 H3]. unfold entries, counted. cbn.
  rewrite (take_S_r _ _ (Some x)) by (apply list_lookup_insert_eq; lia).
  rewrite take_insert_ge by lia. by rewrite omap_app.
Qed.
Lemma entries_reset {A} (c : Counted A) : entries (counted_reset c) = [].
Proof. done. Qed.
Lemma entries_new {A} n : entries (counted_new (A:=A) n) = [].
Proof. done. Qed.

Lemma any_present_spec {A} (f : A → bool) l :
  any_present f l = true ↔ ∃ x, x ∈ omap id l ∧ f x = true.
Proof.
  induction l as [|[x|] l IH]; cbn.
  - split; [done|]. intros (x & Hx & _). by apply elem_of_nil in Hx.
  - rewrite orb_true_iff, IH. setoid_rewrite elem_of_cons. naive_solver.
  - exact IH.
Qed.
Lemma any_present_false {A} (f : A → bool) l :
  any_present f l = false ↔ ∀ x, x ∈ omap id l → f x = false.
Proof.
  rewrite <-not_true_iff_false, any_present_spec. split.
  - intros H x Hx. destruct (f x) eqn:Hf; [|done]. exfalso. eauto.
  - intros H (x & Hx & Hf). rewrite H in Hf by done. done.
Qed.

Lemma elem_of_entries {A} (c : Counted A) x :
  x ∈ entries c ↔ ∃ i, i < cn_used c ∧ counted_get c i = Some x.
Proof.
  unfold entries, counted, counted_get. rewrite list_elem_of_omap. split.
  - intros (o & Ho & Hx). apply list_elem_of_lookup in Ho as (i & Hi). apply lookup_take_Some in Hi as [Hi Hlt].
    exists i. rewrite Hi. cbn. destruct o; [|done]. done.
  - intros (i & Hi & Hx). destruct (cn_slots c !! i) as [o|] eqn:Ho; [|done]. cbn in Hx. subst o.
    exists (Some x). split; [|done]. apply list_elem_of_lookup. exists i. by rewrite lookup_take_lt.
Qed.

(** Every number of entries is bounded by its array. *)
Record sizes_ok (c : BootRuntimeConfig) : Prop := mk_sizes_ok {
  sz_processes : counted_wf MAX_PROCESSES (cf_processes c);
  sz_endpoints : counted_wf MAX_OBJECTS (cf_endpoints c);
  sz_store_objects : counted_wf MAX_OBJECTS (cf_store_objects c);
  sz_state_volumes : counted_wf MAX_BOOT_STATE_VOLUMES (cf_state_volumes c);
  sz_network_ports : counted_wf MAX_OBJECTS (cf_network_ports c);
  sz_io_ports : counted_wf MAX_OBJECTS (cf_io_ports c);
  sz_mmio_regions : counted_wf MAX_OBJECTS (cf_mmio_regions c);
  sz_framebuffers : counted_wf MAX_OBJECTS (cf_framebuffers c);
  sz_interrupt_lines : counted_wf MAX_OBJECTS (cf_interrupt_lines c);
  sz_dma_regions : counted_wf MAX_OBJECTS (cf_dma_regions c);
  sz_pci_devices : counted_wf MAX_OBJECTS (cf_pci_devices c);
  sz_virtio_devices : counted_wf MAX_OBJECTS (cf_virtio_devices c);
  sz_namespaces : counted_wf MAX_BOOT_NAMESPACES (cf_namespaces c);
  sz_vfs_roots : counted_wf MAX_BOOT_VFS_ROOTS (cf_vfs_roots c);
  sz_graph_nodes : counted_wf MAX_BOOT_GRAPH_NODES (cf_graph_nodes c);
  sz_graph_edges : counted_wf MAX_BOOT_GRAPH_EDGES (cf_graph_edges c);
  sz_grants : counted_wf MAX_BOOT_GRANTS (cf_grants c);
  sz_policy_capabilities : counted_wf MAX_BOOT_POLICY_CAPABILITIES (cf_policy_capabilities c);
  sz_policy_requirements : counted_wf MAX_BOOT_POLICY_REQUIREMENTS (cf_policy_requirements c);
  sz_policy_provides : counted_wf MAX_BOOT_POLICY_PROVIDES (cf_policy_provides c);
  sz_policy_mounts : counted_wf MAX_BOOT_POLICY_MOUNTS (cf_policy_mounts c);
  sz_policy_state_paths : counted_wf MAX_BOOT_POLICY_STATE_PATHS (cf_policy_state_paths c);
  sz_policy_bootstraps : counted_wf MAX_BOOT_POLICY_BOOTSTRAPS (cf_policy_bootstraps c)
}.

(** What the [add_*] functions guarantee of a configuration. *)
Record config_wf (c : BootRuntimeConfig) : Prop := mk_config_wf {
  wf_sizes : sizes_ok c;
  wf_processes : ∀ p, p ∈ entries (cf_processes c) →
    valid_vfs_root_path (string_bytes (bp_mount_root p)) = true ∧ valid_boot_process_mounts p = true;
  wf_state_volumes : ∀ s, s ∈ entries (cf_state_volumes c) → is_ok (state_volume_mount_component (svc_id s)) = true;
  wf_vfs_roots : ∀ r, r ∈ entries (cf_vfs_roots c) → valid_vfs_root_path (string_bytes (bvr_root_path r)) = true;
  wf_nodes : NoDup (bgn_id <$> entries (cf_graph_nodes c));
  wf_edges : NoDup (bge_id <$> entries (cf_graph_edges c)) ∧
    ∀ e, e ∈ entries (cf_graph_edges c) → graph_edge_ok (cn_used (cf_graph_nodes c)) e = true;
  wf_grants : NoDup ((λ g, (bg_process_index g, bg_cap_slot g)) <$> entries (cf_grants c)) ∧
    ∀ g, g ∈ entries (cf_grants c) → bg_process_index g < cn_used (cf_processes c) ∧
      object_ref_valid c (bg_object_kind g) (bg_object_index g) = true;
  wf_capabilities : NoDup (bpc_id <$> entries (cf_policy_capabilities c)) ∧
    ∀ k, k ∈ entries (cf_policy_capabilities c) → bpc_rights k ≠ 0%Z ∧
      policy_object_ref_valid c (bpc_object_kind k) (bpc_object_index k) = true;
  wf_state_paths : ∀ s, s ∈ entries (cf_policy_state_paths c) → state_volume_ref_valid c (bps_state s) = true
}.

(** The configurations a parser can build: it starts from an empty
    configuration and calls these functions, whatever they answer. *)
Inductive config_step (c : BootRuntimeConfig) : BootRuntimeConfig → Prop :=
| step_reset : config_step c (boot_config_reset c)
| step_set_generation_id (x : string) : config_step c (set_generation_id x c)
| step_set_manifest_hash (x : list byte) : config_step c (set_manifest_hash x c)
| step_set_graph_store_hash (x : list byte) : config_step c (set_graph_store_hash x c)
| step_set_graph_store_checksum (x : Z) : config_step c (set_graph_store_checksum x c)
| step_set_graph_store_source (x : string) : config_step c (set_graph_store_source x c)
| step_set_policy_version (x : Z) : config_step c (set_policy_version x c)
| step_set_policy_hash (x : list byte) : config_step c (set_policy_hash x c)
| step_set_manifest_module (x : BootModuleConfig) : config_step c (set_manifest_module x c)
| step_add_process x r c' : config_add_process x c = (r, c') → config_step c c'
| step_add_endpoint x r c' : config_add_endpoint x c = (r, c') → config_step c c'
| step_add_store_object x r c' : config_add_store_object x c = (r, c') → config_step c c'
| step_add_network_port x r c' : config_add_network_port x c = (r, c') → config_step c c'
| step_add_io_port x r c' : config_add_io_port x c = (r, c') → config_step c c'
| step_add_mmio_region x r c' : config_add_mmio_region x c = (r, c') → config_step c c'
| step_add_framebuffer x r c' : config_add_framebuffer x c = (r, c') → config_step c c'
| step_add_interrupt_line x r c' : config_add_interrupt_line x c = (r, c') → config_step c c'
| step_add_dma_region x r c' : config_add_dma_region x c = (r, c') → config_step c c'
| step_add_pci_device x r c' : config_add_pci_device x c = (r, c') → config_step c c'
| step_add_virtio_device x r c' : config_add_virtio_device x c = (r, c') → config_step c c'
| step_add_state_volume x r c' : config_add_state_volume x c = (r, c') → config_step c c'
| step_add_namespace x r c' : config_add_namespace x c = (r, c') → config_step c c'
| step_add_vfs_root x r c' : config_add_vfs_root x c = (r, c') → config_step c c'
| step_add_graph_node x r c' : config_add_graph_node x c = (r, c') → config_step c c'
| step_add_graph_edge x r c' : config_add_graph_edge x c = (r, c') → config_step c c'
| step_add_grant x r c' : config_add_grant x c = (r, c') → config_step c c'
| step_add_policy_capability x r c' : config_add_policy_capability x c = (r, c') → config_step c c'
| step_add_policy_requirement x r c' : config_add_policy_requirement x c = (r, c') → config_step c c'
| step_add_policy_provide x r c' : config_add_policy_provide x c = (r, c') → config_step c c'
| step_add_policy_mount x r c' : config_add_policy_mount x c = (r, c') → config_step c c'
| step_add_policy_state_path x r c' : config_add_policy_state_path x c = (r, c') → config_step c c'
| step_add_policy_bootstrap x r c' : config_add_policy_bootstrap x c = (r, c') → config_step c c'.

(** No count gets smaller. *)
Record counts_le (c c' : BootRuntimeConfig) : Prop := mk_counts_le {
  cl_processes : cn_used (cf_processes c) ≤ cn_used (cf_processes c');
  cl_endpoints : cn_used (cf_endpoints c) ≤ cn_used (cf_endpoints c');
  cl_store_objects : cn_used (cf_store_objects c) ≤ cn_used (cf_store_objects c');
  cl_network_ports : cn_used (cf_network_ports c) ≤ cn_used (cf_network_ports c');
  cl_io_ports : cn_used (cf_io_ports c) ≤ cn_used (cf_io_ports c');
  cl_mmio_regions : cn_used (cf_mmio_regions c) ≤ cn_used (cf_mmio_regions c');
  cl_framebuffers : cn_used (cf_framebuffers c) ≤ cn_used (cf_framebuffers c');
  cl_interrupt_lines : cn_used (cf_interrupt_lines c) ≤ cn_used (cf_interrupt_lines c');
  cl_dma_regions : cn_used (cf_dma_regions c) ≤ cn_used (cf_dma_regions c');
  cl_pci_devices : cn_used (cf_pci_devices c) ≤ cn_used (cf_pci_devices c');
  cl_virtio_devices : cn_used (cf_virtio_devices c) ≤ cn_used (cf_virtio_devices c');
  cl_namespaces : cn_used (cf_namespaces c) ≤ cn_used (cf_namespaces c');
  cl_vfs_roots : cn_used (cf_vfs_roots c) ≤ cn_used (cf_vfs_roots c');
  cl_graph_nodes : cn_used (cf_graph_nodes c) ≤ cn_used (cf_graph_nodes c')
}.

Lemma object_ref_valid_mono c c' kind index :
  counts_le c c' → object_ref_valid c kind index = true → object_ref_valid c' kind index = true.
Proof.
  intros []. unfold object_ref_valid.
  repeat (case_match; [rewrite ?Nat.ltb_lt; (lia || done)|]). done.
Qed.
Lemma policy_ref_valid_mono c c' kind index :
  counts_le c c' → policy_object_ref_valid c kind index = true → policy_object_ref_valid c' kind index = true.
Proof. unfold policy_object_ref_valid. case_match; [done|]. apply object_ref_valid_mono. Qed.
Lemma graph_edge_ok_mono n m edge : n ≤ m → graph_edge_ok n edge = true → graph_edge_ok m edge = true.
Proof. unfold graph_edge_ok. rewrite !andb_true_iff, !Nat.ltb_lt. intuition lia. Qed.

Lemma NoDup_snoc_fresh {A B} (f : A → B) l x :
  NoDup (f <$> l) → (∀ y, y ∈ l → f y ≠ f x) → NoDup (f <$> (l ++ [x])).
Proof.
  intros Hl Hx. rewrite fmap_app. apply NoDup_app. split_and!; [done| |apply NoDup_singleton].
  intros y Hy%list_elem_of_fmap Hin. destruct Hy as (z & -> & Hz). apply list_elem_of_singleton in Hin.
  by apply (Hx z).
Qed.

(** [c'] has the entries of [c] and at most one more, which satisfies [P]. *)
Definition grows {A} (P : A → Prop) (c c' : Counted A) : Prop :=
  entries c' = entries c ∨ ∃ x, entries c' = entries c ++ [x] ∧ P x.

Lemma grows_same {A} (P : A → Prop) c : grows P c c.
Proof. by left. Qed.
Lemma grows_push {A} (P : A → Prop) n x c :
  counted_wf n c → counted_full c = false → P x → grows P c (counted_push x c).
Proof. intros H1 H2 HP. right. exists x. split; [by eapply entries_push|done]. Qed.
Lemma grows_forall {A} (P Q : A → Prop) c c' :
  grows P c c' → (∀ x, x ∈ entries c → Q x) → (∀ x, P x → Q x) → ∀ x, x ∈ entries c' → Q x.
Proof.
  intros [->|(y & -> & Hy)] HQ HPQ x Hx; [by apply HQ|].
  apply elem_of_app in Hx as [Hx|Hx]; [by apply HQ|]. apply list_elem_of_singleton in Hx as ->. by apply HPQ.
Qed.
Lemma grows_NoDup {A B} (f : A → B) (P : A → Prop) c c' :
  grows P c c' → NoDup (f <$> entries c) → (∀ x, P x → ∀ y, y ∈ entries c → f y ≠ f x) →
  NoDup (f <$> entries c').
Proof. intros [->|(x & -> & Hx)] Hn Hf; [done|]. apply NoDup_snoc_fresh; [done|by apply Hf]. Qed.

(** What a new entry of each table satisfies, in the configuration [c]. *)
Definition good_process (p : BootProcessConfig) : Prop :=
  valid_vfs_root_path (string_bytes (bp_mount_root p)) = true ∧ valid_boot_process_mounts p = true.
Definition good_node (c : BootRuntimeConfig) (n : BootGraphNodeConfig) : Prop :=
  ∀ y, y ∈ entries (cf_graph_nodes c) → bgn_id y ≠ bgn_id n.
Definition good_edge (c : BootRuntimeConfig) (e : BootGraphEdgeConfig) : Prop :=
  (∀ y, y ∈ entries (cf_graph_edges c) → bge_id y ≠ bge_id e) ∧
  graph_edge_ok (cn_used (cf_graph_nodes c)) e = true.
Definition good_grant (c : BootRuntimeConfig) (g : BootGrantConfig) : Prop :=
  (∀ y, y ∈ entries (cf_grants c) → (bg_process_index y, bg_cap_slot y) ≠ (bg_process_index g, bg_cap_slot g)) ∧
  bg_process_index g < cn_used (cf_processes c) ∧
  object_ref_valid c (bg_object_kind g) (bg_object_index g) = true.
Definition good_capability (c : BootRuntimeConfig) (k : BootPolicyCapabilityConfig) : Prop :=
  (∀ y, y ∈ entries (cf_policy_capabilities c) → bpc_id y ≠ bpc_id k) ∧
  bpc_rights k ≠ 0%Z ∧ policy_object_ref_valid c (bpc_object_kind k) (bpc_object_index k) = true.

Record config_grows (c c' : BootRuntimeConfig) : Prop := mk_config_grows {
  gr_counts : counts_le c c';
  gr_processes : grows good_process (cf_processes c) (cf_processes c');
  gr_states : grows (λ s, is_ok (state_volume_mount_component (svc_id s)) = true)
    (cf_state_volumes c) (cf_state_volumes c');
  gr_roots : grows (λ r, valid_vfs_root_path (string_bytes (bvr_root_path r)) = true) (cf_vfs_roots c) (cf_vfs_roots c');
  gr_nodes : grows (good_node c) (cf_graph_nodes c) (cf_graph_nodes c');
  gr_edges : grows (good_edge c) (cf_graph_edges c) (cf_graph_edges c');
  gr_grants : grows (good_grant c) (cf_grants c) (cf_grants c');
  gr_capabilities : grows (good_capability c) (cf_policy_capabilities c) (cf_policy_capabilities c');
  gr_state_paths : grows (λ s, state_volume_ref_valid c (bps_state s) = true)
    (cf_policy_state_paths c) (cf_policy_state_paths c')
}.

Lemma config_grows_wf c c' : config_wf c → sizes_ok c' → config_grows c c' → config_wf c'.
Proof.
  intros [W1 W2 W3 W4 W5 [W6 W6'] [W7 W7'] [W8 W8'] W9] Hs [G1 G2 G3 G4 G5 G6 G7 G8 G9].
  pose proof (cl_processes _ _ G1). pose proof (cl_graph_nodes _ _ G1).
  split; try done.
  - eapply grows_forall; eauto.
  - eapply grows_forall; eauto.
  - eapply grows_forall; eauto.
  - eapply grows_NoDup; [exact G5|done|]. auto.
  - split; [eapply grows_NoDup; [exact G6|done|by intros x [? _]]|].
    eapply grows_forall; [exact G6| |]; intros x; [intros Hx%W6'|intros [_ Hx]]; by eapply graph_edge_ok_mono.
  - split; [eapply grows_NoDup; [exact G7|done|by intros x [? _]]|].
    eapply grows_forall; [exact G7| |]; intros x; [intros [Hx Hr]%W7'|intros (_ & Hx & Hr)];
      (split; [lia|by eapply object_ref_valid_mono]).
  - split; [eapply grows_NoDup; [exact G8|done|by intros x [? _]]|].
    eapply grows_forall; [exact G8| |]; intros x; [intros [Hx Hr]%W8'|intros (_ & Hx & Hr)];
      (split; [done|by eapply policy_ref_valid_mono]).
  - assert (Hv : ∀ id, state_volume_ref_valid c id = true → state_volume_ref_valid c' id = true).
    { intros id. unfold state_volume_ref_valid. rewrite !any_present_spec. intros (x & Hx & Hid).
      exists x. split; [|done]. fold (entries (cf_state_volumes c')). fold (entries (cf_state_volumes c)) in Hx.
      destruct G3 as [->|(y & -> & _)]; [done|]. apply elem_of_app. by left. }
    eapply grows_forall; [exact G9| |]; auto.
Qed.

(** An [add_*] function fails and changes nothing, or its checks passed. *)
Ltac config_run H :=
  unfold rbind, rget, rguard, rmodify in H;
  repeat match type of H with
  | context [if ?b then _ else _] => let E := fresh "E" in destruct b eqn:E
  end; injection H as <- <-.

Ltac checks :=
  repeat match goal with
  | H : negb _ = true |- _ => apply negb_true_iff in H
  | H : (_ || _) = false |- _ => apply orb_false_iff in H as [??]
  | H : (_ && _) = true |- _ => apply andb_true_iff in H as [??]
  | H : negb _ = false |- _ => apply negb_false_iff in H
  end.

Lemma config_wf_new : config_wf boot_config_new.
Proof.
  split; [split; apply counted_new_wf|..]; try (by intros x Hx%elem_of_nil); try apply NoDup_nil_2;
    (split; [apply NoDup_nil_2|by intros x Hx%elem_of_nil]).
Qed.

Lemma config_wf_reset c : config_wf c → config_wf (boot_config_reset c).
Proof.
  intros [[] _ _ _ _ _ _ _ _]. split; [split; by apply counted_reset_wf|..];
    try (by intros x Hx%elem_of_nil); try apply NoDup_nil_2;
    (split; [apply NoDup_nil_2|by intros x Hx%elem_of_nil]).
Qed.

Lemma counts_le_refl c : counts_le c c.
Proof. by split. Qed.

Lemma str_eqb_false a b : str_eqb a b = false ↔ a ≠ b.
Proof. unfold str_eqb. apply bool_decide_eq_false. Qed.
Lemma str_eqb_true a b : str_eqb a b = true ↔ a = b.
Proof. unfold str_eqb. apply bool_decide_eq_true. Qed.

Lemma any_present_id {A} (f : A → string) (c : Counted A) x :
  any_present (λ y, str_eqb (f y) (f x)) (counted c) = false → ∀ y, y ∈ entries c → f y ≠ f x.
Proof. intros Hn y Hy. by apply str_eqb_false, (proj1 (any_present_false _ _) Hn y Hy). Qed.

(** A step leaves the tables alone, clears them, or adds a checked entry to one. *)
Lemma config_step_grows c c' :
  config_wf c → config_step c c' → c' = boot_config_reset c ∨ sizes_ok c' ∧ config_grows c c'.
Proof.
  intros [HS _ _ _ _ _ _ _ _]. destruct HS. intros Hstep.
  destruct Hstep as [| | | | | | | | |x r c' H|x r c' H|x r c' H|x r c' H|x r c' H|x r c' H|x r c' H|x r c' H|x r c' H
    |x r c' H|x r c' H|x r c' H|x r c' H|x r c' H|x r c' H|x r c' H|x r c' H|x r c' H|x r c' H|x r c' H|x r c' H
    |x r c' H|x r c' H]; [by left|..]; right.
  all: try (split; [by split|]; split; [by split|..]; apply grows_same).
  all: match type of H with ?f _ _ = _ => unfold f in H end; config_run H; checks.
  all: try (split; [by split|]; split; [by split|..]; apply grows_same).
  all: (split; [split; unfold set; cbn; try done; by apply counted_push_wf|]).
  all: (split; [split; unfold set; cbn; lia|..]); unfold set; cbn.
  all: try apply grows_same.
  all: eapply grows_push; try done.
  - intros y Hy. by eapply any_present_id in E0.
  - split; [|done]. intros y Hy. by eapply any_present_id in E0.
  - split; [|split; [by apply Nat.ltb_lt|done]]. intros y Hy [= H1 H2].
    pose proof (proj1 (any_present_false _ _) E1 y Hy) as Hf. cbn in Hf.
    by rewrite H1, H2, Nat.eqb_refl, Z.eqb_refl in Hf.
  - split; [|split; [by apply Z.eqb_neq|done]]. intros y Hy. by eapply any_present_id in E0.
Qed.

Lemma reachable_config_wf c : rtc config_step boot_config_new c → config_wf c.
Proof.
  intros Hr. assert (H : ∀ c c', rtc config_step c c' → config_wf c → config_wf c').
  { clear. intros c c' Hr. induction Hr as [|c1 c2 c3 Hstep _ IH]; [done|]. intros Hwf. apply IH.
    destruct (config_step_grows _ _ Hwf Hstep) as [->|[Hs Hg]]; [by apply config_wf_reset|].
    by eapply config_grows_wf. }
  apply (H _ _ Hr config_wf_new).
Qed.

(** A configuration filled by a list of calls. *)
Definition config_call (op : Config unit) : Prop := ∀ c, config_step c (op c).2.
Definition config_calls (ops : list (Config unit)) (c : BootRuntimeConfig) : BootRuntimeConfig :=
  foldl (λ c op, (op c).2) c ops.

Lemma config_calls_wf ops : Forall config_call ops → config_wf (config_calls ops boot_config_new).
Proof.
  intros Hops. apply reachable_config_wf. generalize boot_config_new as c.
  induction Hops as [|op ops Hop _ IH]; intros c; [apply rtc_refl|]. eapply rtc_l; [apply Hop|apply IH].
Qed.

(** C37: Whatever the boot code calls, and in whatever order, to fill a
    configuration, the result is well formed: no table overflows its array and
    every used entry is present; mount roots, declared mounts, VFS roots and
    state volume names are valid; graph nodes, graph edges, policy capabilities
    and granted slots are unique; and every reference from an edge, a grant or a
    policy capability to another table is in range. *)
Theorem built_config_wf c : rtc config_step boot_config_new c → config_wf c.
Proof. apply reachable_config_wf. Qed.

(** Witness of [built_config_wf]: a configuration with a process and a grant of
    an endpoint to it. *)
Lemma built_config_wf_witness :
  let process := mkBootProcessConfig "init" "svc:init" 4096 4096 true 0 "/" (counted_new 4) in
  let grant := mkBootGrantConfig 0 1 BOOT_OBJECT_ENDPOINT 0 RIGHT_SEND in
  let c1 := (config_add_process process boot_config_new).2 in
  let c2 := (config_add_endpoint (mkBootEndpointConfig "serial-log") c1).2 in
  let c3 := (config_add_grant grant c2).2 in
  entries (cf_grants c3) = [grant] ∧ config_wf c3.
Proof.
  intros process grant c1 c2 c3. split; [reflexivity|]. apply built_config_wf.
  eapply rtc_l; [apply (step_add_process _ process (Ok tt)); reflexivity|].
  eapply rtc_l; [apply (step_add_endpoint _ (mkBootEndpointConfig "serial-log") (Ok tt)); reflexivity|].
  eapply rtc_l; [apply (step_add_grant _ grant (Ok tt)); reflexivity|]. apply rtc_refl.
Defined.
