(* ===== verification/BootPolicy.v ===== *)
(** Admission of a boot configuration ([ipc/boot_runtime.rs]): the checks of the
    tables, of the hardware ranges, of the dependency graph and of the policy
    that must authorise every grant, with the log of policy denials
    ([ipc/runtime_state.rs]). *)

From S2P Require Import Prelude Frames KernelBase Transport VfsPath KernelObjects ProcessRuntime BootConfig.

(** * The log of policy denials *)

Definition MAX_POLICY_DENIAL_RECORDS : nat := 8.
Definition POLICY_DENIAL_FIELD_BYTES : nat := 64.

(** A text field: its bytes, cut at the size of the field, and their number. *)
Record DenialField := mkDenialField { df_bytes : list byte; df_len : nat }.

Record PolicyDenialRecord := mkPolicyDenialRecord {
  pd_sequence : Z;
  pd_generation : DenialField;
  pd_policy_hash : list byte;
  pd_source : DenialField;
  pd_target : DenialField;
  pd_rule : DenialField;
  pd_reason : DenialField
}.

(** [copy_policy_denial_field], over a field of zeros. *)
Definition denial_byte (b : byte) : byte := if ((b =? 10) || (b =? 13) || (b =? 9))%Z then 63%Z else b.
Definition copy_policy_denial_field (source : string) : DenialField :=
  let copied := denial_byte <$> take POLICY_DENIAL_FIELD_BYTES (string_bytes source) in
  mkDenialField (copied ++ replicate (POLICY_DENIAL_FIELD_BYTES - length copied) 0%Z) (length copied).

(** [copy_policy_hash]; 48 is ['0']. *)
Definition copy_policy_hash (source : list byte) : list byte :=
  if length source =? POLICY_DENIAL_FIELD_BYTES then source else replicate POLICY_DENIAL_FIELD_BYTES 48%Z.

(** [PolicyDenialRecord::empty] and [PolicyDenialRecord::new]. *)
Definition denial_field_empty : DenialField := mkDenialField (replicate POLICY_DENIAL_FIELD_BYTES 0%Z) 0.
Definition denial_record_empty : PolicyDenialRecord :=
  mkPolicyDenialRecord 0 denial_field_empty (replicate POLICY_DENIAL_FIELD_BYTES 0%Z) denial_field_empty
    denial_field_empty denial_field_empty denial_field_empty.
Definition denial_record_new (sequence : Z) (generation : string) (policy_hash : list byte)
    (source target rule reason : string) : PolicyDenialRecord :=
  mkPolicyDenialRecord sequence (copy_policy_denial_field generation) (copy_policy_hash policy_hash)
    (copy_policy_denial_field source) (copy_policy_denial_field target) (copy_policy_denial_field rule)
    (copy_policy_denial_field reason).

Record PolicyDenialLog := mkPolicyDenialLog {
  dl_records : list PolicyDenialRecord;
  dl_count : nat;
  dl_next : nat;
  dl_sequence : Z
}.

(** [PolicyDenialLog::new]. *)
Definition denial_log_new : PolicyDenialLog :=
  mkPolicyDenialLog (replicate MAX_POLICY_DENIAL_RECORDS denial_record_empty) 0 0 0.

(** [PolicyDenialLog::record]. *)
Definition denial_log_record (generation : string) (policy_hash : list byte) (source target rule reason : string)
    (log : PolicyDenialLog) : PolicyDenialLog :=
  let sequence := sat_add (dl_sequence log) 1 in
  mkPolicyDenialLog
    (<[dl_next log := denial_record_new sequence generation policy_hash source target rule reason]> (dl_records log))
    (if dl_count log <? MAX_POLICY_DENIAL_RECORDS then S (dl_count log) else dl_count log)
    (S (dl_next log) mod MAX_POLICY_DENIAL_RECORDS) sequence.

(** [PolicyDenialLog::record_at]. *)
Definition denial_record_at (log : PolicyDenialLog) (offset : nat) : option PolicyDenialRecord :=
  if dl_count log <=? offset then None
  else
    let start := if dl_count log =? MAX_POLICY_DENIAL_RECORDS then dl_next log else 0 in
    dl_records log !! ((start + offset) mod MAX_POLICY_DENIAL_RECORDS).

(** * Checks that log *)

Abbreviation Check := (M PolicyDenialLog InitError) (only parsing).

(** [log_policy_denial], and the error that follows it. *)
Definition log_policy_denial (c : BootRuntimeConfig) (source target rule reason : string) : Check unit :=
  rmodify (denial_log_record (cf_generation_id c) (cf_policy_hash c) source target rule reason).
Definition deny {A} (c : BootRuntimeConfig) (source target rule reason : string) : Check A :=
  do! log_policy_denial c source target rule reason;
  rfail InvalidBootManifest.

(** A loop over the entries in use; [f] also gets the entries before. *)
Fixpoint each_from {A S} (f : list (option A) → A → M S InitError unit) (prior l : list (option A)) :
    M S InitError unit :=
  match l with
  | [] => rret tt
  | None :: _ => rfail InvalidBootManifest
  | Some x :: l' =>
      do! f prior x;
      each_from f (prior ++ [Some x]) l'
  end.
Definition each_entry {A S} (f : list (option A) → A → M S InitError unit) (c : Counted A) : M S InitError unit :=
  each_from f [] (counted c).

(** * Names and capability slots of the built-in services ([ipc.rs]) *)

Definition LOG_ENDPOINT_NAME : string := "serial-log".
Definition STATE_VFS_REQUEST_ENDPOINT_NAME : string := "state-vfs-request".
Definition STATE_VFS_REPLY_ENDPOINT_NAME : string := "state-vfs-reply".
Definition VERTEXFS_DEVICE_REQUEST_ENDPOINT_NAME : string := "vertexfs-device-request".
Definition VERTEXFS_DEVICE_REPLY_ENDPOINT_NAME : string := "vertexfs-device-reply".
Definition GENERATION_METADATA_BLOCK_REQUEST_ENDPOINT_NAME : string := "generation-metadata-block-request".
Definition GENERATION_METADATA_BLOCK_REPLY_ENDPOINT_NAME : string := "generation-metadata-block-reply".
Definition BLOCK_DRIVER_PROCESS_NAME : string := "block-driver".
Definition GENERATION_MANAGER_PROCESS_NAME : string := "gen-manager".
Definition VERTEX_STATE_PROCESS_NAME : string := "vertex-state".
Definition VERTEX_STATE_VFS_REPLY_CAP_SLOT : Z := 6.
Definition VERTEX_STATE_VFS_REQUEST_CAP_SLOT : Z := 7.
Definition BLOCK_DRIVER_VERTEXFS_REQUEST_CAP_SLOT : Z := 13.
Definition BLOCK_DRIVER_VERTEXFS_REPLY_CAP_SLOT : Z := 14.
Definition BLOCK_DRIVER_GENERATION_METADATA_REQUEST_CAP_SLOT : Z := 16.
Definition BLOCK_DRIVER_GENERATION_METADATA_REPLY_CAP_SLOT : Z := 17.
Definition GENERATION_MANAGER_METADATA_REQUEST_CAP_SLOT : Z := 4.
Definition GENERATION_MANAGER_METADATA_REPLY_CAP_SLOT : Z := 5.
Definition INIT_TIMER_CAP_SLOT : Z := 30.
Definition BUILTIN_VFS_MOUNTS : nat := 7.
Definition MAX_VFS_MOUNTS : nat := 16.
Definition USER_DEVICE_MAPPING_STRIDE : Z := Z.shiftl 1 30.

(** * Rights *)

(** [rights & !allowed == 0]. *)
Definition rights_within (rights allowed : Z) : bool := (Z.land rights (not_u64 allowed) =? 0)%Z.

Definition lor_all (rights : list Z) : Z := foldr Z.lor 0%Z rights.

(** [known_policy_rights]. *)
Definition policy_rights : Z := lor_all
  [RIGHT_SEND; RIGHT_RECEIVE; RIGHT_READ; RIGHT_WRITE; RIGHT_SNAPSHOT; RIGHT_RESTORE; RIGHT_CONTROL;
   RIGHT_BIND; RIGHT_LISTEN; RIGHT_MAP; RIGHT_RESOLVE; RIGHT_CREATE; RIGHT_UNLINK; RIGHT_RENAME; RIGHT_MOUNT].
Definition known_policy_rights (rights : Z) : bool := rights_within rights policy_rights.

(** [known_bootstrap_rights]. *)
Definition bootstrap_rights : Z := lor_all
  [RIGHT_SEND; RIGHT_RECEIVE; RIGHT_READ; RIGHT_WRITE; RIGHT_SNAPSHOT; RIGHT_RESTORE; RIGHT_CONTROL;
   RIGHT_BIND; RIGHT_LISTEN; RIGHT_MAP; RIGHT_RESOLVE; RIGHT_CREATE; RIGHT_UNLINK; RIGHT_RENAME; RIGHT_MOUNT;
   RIGHT_ALLOCATE; RIGHT_DELEGATE; RIGHT_REVOKE; RIGHT_INSPECT; RIGHT_START; RIGHT_KILL; RIGHT_WAIT;
   RIGHT_INSPECT_METADATA].
Definition known_bootstrap_rights (rights : Z) : bool := rights_within rights bootstrap_rights.

(** [initial_process_control_rights]. *)
Definition initial_process_control_rights : Z := lor_all
  [RIGHT_CONTROL; RIGHT_ALLOCATE; RIGHT_DELEGATE; RIGHT_REVOKE; RIGHT_INSPECT; RIGHT_CREATE; RIGHT_START;
   RIGHT_KILL; RIGHT_WAIT].

(** * Lookups in the configuration *)

(** [boot_config_has_service], [boot_config_has_process]. *)
Definition boot_config_has_service (c : BootRuntimeConfig) (service : string) : Result InitError bool :=
  any_entry (λ process, Ok (str_eqb (bp_graph_node process) service)) (counted (cf_processes c)).
Definition boot_config_has_process (c : BootRuntimeConfig) (name : string) : Result InitError bool :=
  any_entry (λ process, Ok (str_eqb (bp_name process) name)) (counted (cf_processes c)).

(** [boot_service_is_initial], [boot_service_process_name],
    [boot_process_graph_node_by_name]. *)
Definition boot_service_is_initial (c : BootRuntimeConfig) (service : string) : Result InitError bool :=
  let? found := find_entry (λ process, Ok (str_eqb (bp_graph_node process) service)) (counted (cf_processes c)) in
  Ok (match found with Some process => bp_initial process | None => false end).
Definition boot_service_process_name (c : BootRuntimeConfig) (service : string) : Result InitError (option string) :=
  let? found := find_entry (λ process, Ok (str_eqb (bp_graph_node process) service)) (counted (cf_processes c)) in
  Ok (bp_name <$> found).
Definition boot_process_graph_node_by_name (c : BootRuntimeConfig) (name : string) :
    Result InitError (option string) :=
  let? found := find_entry (λ process, Ok (str_eqb (bp_name process) name)) (counted (cf_processes c)) in
  Ok (bp_graph_node <$> found).

(** [boot_state_volume_by_id]. *)
Definition boot_state_volume_by_id (c : BootRuntimeConfig) (state_id : string) :
    Result InitError (option BootStateVolumeConfig) :=
  find_entry (λ state, Ok (str_eqb (svc_id state) state_id)) (counted (cf_state_volumes c)).

(** [boot_policy_capability_by_id]. *)
Definition boot_policy_capability_by_id (c : BootRuntimeConfig) (capability : string) :
    option BootPolicyCapabilityConfig :=
  find_present (λ candidate, str_eqb (bpc_id candidate) capability) (counted (cf_policy_capabilities c)).

(** [boot_policy_provides], [boot_policy_requirement_allows]. *)
Definition boot_policy_provides (c : BootRuntimeConfig) (service capability : string) : bool :=
  any_present (λ provide, str_eqb (bpv_service provide) service && str_eqb (bpv_capability provide) capability)
    (counted (cf_policy_provides c)).
Definition boot_policy_requirement_allows (c : BootRuntimeConfig) (service capability : string) (rights : Z) : bool :=
  any_present (λ requirement, str_eqb (bpr_service requirement) service &&
                              str_eqb (bpr_capability requirement) capability &&
                              rights_within rights (bpr_rights requirement)) (counted (cf_policy_requirements c)).

(** [boot_bootstrap_authority_allows]. *)
Definition boot_bootstrap_authority_allows (c : BootRuntimeConfig) (service authority rule : string) (rights : Z) :
    bool :=
  any_present (λ bootstrap, str_eqb (bpb_service bootstrap) service && str_eqb (bpb_authority bootstrap) authority &&
                            str_eqb (bpb_rule bootstrap) rule && rights_within rights (bpb_rights bootstrap))
    (counted (cf_policy_bootstraps c)).

(** [boot_config_has_endpoint]. *)
Definition boot_config_has_endpoint (c : BootRuntimeConfig) (endpoint : string) : Result InitError bool :=
  let? declared := any_entry (λ candidate, Ok (str_eqb (bep_name candidate) endpoint)) (counted (cf_endpoints c)) in
  if declared : bool then Ok true
  else if str_eqb endpoint STATE_VFS_REQUEST_ENDPOINT_NAME || str_eqb endpoint STATE_VFS_REPLY_ENDPOINT_NAME then
    Ok (0 <? cn_used (cf_state_volumes c))
  else if str_eqb endpoint VERTEXFS_DEVICE_REQUEST_ENDPOINT_NAME ||
          str_eqb endpoint VERTEXFS_DEVICE_REPLY_ENDPOINT_NAME then Ok true
  else if str_eqb endpoint GENERATION_METADATA_BLOCK_REQUEST_ENDPOINT_NAME ||
          str_eqb endpoint GENERATION_METADATA_BLOCK_REPLY_ENDPOINT_NAME then
    boot_config_has_process c BLOCK_DRIVER_PROCESS_NAME
  else Ok false.

(** [boot_object_config_ref_valid] (the same test as [object_ref_valid], with
    its explicit refusal of state volumes) and
    [boot_policy_object_config_ref_valid]. *)
Definition boot_object_config_ref_valid (c : BootRuntimeConfig) (object_kind : Z) (object_index : nat) : bool :=
  if (object_kind =? BOOT_OBJECT_STATE)%Z then false else object_ref_valid c object_kind object_index.
Definition boot_policy_object_config_ref_valid (c : BootRuntimeConfig) (object_kind : Z) (object_index : nat) : bool :=
  if (object_kind =? BOOT_OBJECT_SECRET)%Z then object_index =? 0
  else boot_object_config_ref_valid c object_kind object_index.

(** [boot_config_object_label]. *)
Definition boot_config_object_label (c : BootRuntimeConfig) (grant : BootGrantConfig) : option string :=
  let kind := bg_object_kind grant in
  let index := bg_object_index grant in
  if (kind =? BOOT_OBJECT_ENDPOINT)%Z then bep_name <$> counted_get (cf_endpoints c) index
  else if (kind =? BOOT_OBJECT_STORE)%Z then bso_id <$> counted_get (cf_store_objects c) index
  else if (kind =? BOOT_OBJECT_TIMER)%Z then Some "monotonic-timer"
  else if (kind =? BOOT_OBJECT_NETWORK_PORT)%Z then bnp_id <$> counted_get (cf_network_ports c) index
  else if (kind =? BOOT_OBJECT_IO_PORT_RANGE)%Z then bio_id <$> counted_get (cf_io_ports c) index
  else if (kind =? BOOT_OBJECT_MMIO_REGION)%Z then bmm_id <$> counted_get (cf_mmio_regions c) index
  else if (kind =? BOOT_OBJECT_FRAMEBUFFER)%Z then bfb_id <$> counted_get (cf_framebuffers c) index
  else if (kind =? BOOT_OBJECT_INTERRUPT_LINE)%Z then bil_id <$> counted_get (cf_interrupt_lines c) index
  else if (kind =? BOOT_OBJECT_DMA_REGION)%Z then bdm_id <$> counted_get (cf_dma_regions c) index
  else if (kind =? BOOT_OBJECT_PCI_DEVICE)%Z then bpd_id <$> counted_get (cf_pci_devices c) index
  else if (kind =? BOOT_OBJECT_VIRTIO_DEVICE)%Z then bvd_id <$> counted_get (cf_virtio_devices c) index
  else if (kind =? BOOT_OBJECT_NAMESPACE)%Z then bns_id <$> counted_get (cf_namespaces c) index
  else if (kind =? BOOT_OBJECT_VFS_ROOT)%Z then bvr_id <$> counted_get (cf_vfs_roots c) index
  else None.

(** * State volumes and VFS roots *)

(** The text before the first ['/']. *)
Fixpoint before_slash (s : string) : string :=
  match s with
  | EmptyString => EmptyString
  | String a s' => if bool_decide (Ascii.nat_of_ascii a = 47) then EmptyString else String a (before_slash s')
  end.

(** [boot_state_volume_covered_by_root_path]. *)
Definition boot_state_volume_covered_by_root_path (root : string) (state : BootStateVolumeConfig) :
    Result InitError bool :=
  if str_eqb root "/state" then Ok true
  else
    match strip_prefix "/state/" root with
    | None => Ok false
    | Some rest =>
        let? component := state_volume_mount_component (svc_id state) in
        Ok (str_eqb (before_slash rest) component)
    end.

(** [boot_grant_covers_state_volume_path]. *)
Definition boot_grant_covers_state_volume_path (c : BootRuntimeConfig) (grant : BootGrantConfig) :
    Result InitError bool :=
  if negb (bg_object_kind grant =? BOOT_OBJECT_VFS_ROOT)%Z then Ok false
  else
    let? root := config_entry (cf_vfs_roots c) (bg_object_index grant) in
    any_entry (boot_state_volume_covered_by_root_path (bvr_root_path root)) (counted (cf_state_volumes c)).

(** [boot_policy_state_path_allows]. *)
Definition boot_policy_state_path_allows (c : BootRuntimeConfig) (service state_id root : string) (rights : Z) : bool :=
  any_present (λ state_path, str_eqb (bps_service state_path) service && str_eqb (bps_state state_path) state_id &&
                             str_eqb (bps_root state_path) root && rights_within rights (bps_rights state_path))
    (counted (cf_policy_state_paths c)).

(** [boot_state_path_policy_allows_grant]: no volume below the root forbids it. *)
Definition state_volume_forbids (c : BootRuntimeConfig) (service root : string) (rights : Z)
    (state : BootStateVolumeConfig) : Result InitError bool :=
  let? covered := boot_state_volume_covered_by_root_path root state in
  Ok ((covered : bool) &&
      ((str_eqb (svc_sharing_policy state) "owner-only" && negb (str_eqb (svc_owner state) service)) ||
       negb (boot_policy_state_path_allows c service (svc_id state) root rights))).
Definition boot_state_path_policy_allows_grant (c : BootRuntimeConfig) (service : string) (grant : BootGrantConfig) :
    Result InitError bool :=
  if negb (bg_object_kind grant =? BOOT_OBJECT_VFS_ROOT)%Z then Ok true
  else
    let? root := config_entry (cf_vfs_roots c) (bg_object_index grant) in
    let? forbidden := any_entry (state_volume_forbids c service (bvr_root_path root) (bg_rights grant))
                        (counted (cf_state_volumes c)) in
    Ok (negb forbidden).

(** [valid_boot_policy_state_path_fact]. *)
Definition valid_boot_policy_state_path_fact (c : BootRuntimeConfig) (state_path : BootPolicyStatePathConfig) :
    Result InitError bool :=
  let? found := boot_state_volume_by_id c (bps_state state_path) in
  match found with
  | None => Ok false
  | Some state =>
      let? service := boot_config_has_service c (bps_service state_path) in
      Ok ((service : bool) && negb (str_empty (bps_root state_path)) &&
          valid_vfs_root_path (string_bytes (bps_root state_path)) && negb (bps_rights state_path =? 0)%Z &&
          known_policy_rights (bps_rights state_path) &&
          (negb (str_eqb (svc_sharing_policy state) "owner-only") ||
           str_eqb (svc_owner state) (bps_service state_path)))
  end.

(** [boot_policy_state_path_matches_grant]: the rights of the grants the entry
    covers. *)
Fixpoint state_path_matched_rights (c : BootRuntimeConfig) (state_path : BootPolicyStatePathConfig)
    (state : BootStateVolumeConfig) (matched : Z) (l : list (option BootGrantConfig)) : Result InitError Z :=
  match l with
  | [] => Ok matched
  | None :: _ => Err InvalidBootManifest
  | Some grant :: l' =>
      if (bg_object_kind grant =? BOOT_OBJECT_VFS_ROOT)%Z then
        let? process := config_entry (cf_processes c) (bg_process_index grant) in
        if str_eqb (bp_graph_node process) (bps_service state_path) then
          let? root := config_entry (cf_vfs_roots c) (bg_object_index grant) in
          if str_eqb (bvr_root_path root) (bps_root state_path) then
            let? covered := boot_state_volume_covered_by_root_path (bvr_root_path root) state in
            state_path_matched_rights c state_path state
              (if covered : bool then Z.lor matched (bg_rights grant) else matched) l'
          else state_path_matched_rights c state_path state matched l'
        else state_path_matched_rights c state_path state matched l'
      else state_path_matched_rights c state_path state matched l'
  end.
Definition boot_policy_state_path_matches_grant (c : BootRuntimeConfig) (state_path : BootPolicyStatePathConfig) :
    Result InitError bool :=
  let? found := boot_state_volume_by_id c (bps_state state_path) in
  match found with
  | None => Ok false
  | Some state =>
      let? matched := state_path_matched_rights c state_path state 0 (counted (cf_grants c)) in
      Ok (negb (matched =? 0)%Z && rights_within (bps_rights state_path) matched)
  end.

(** * Mounts *)

(** [valid_boot_policy_mount_fact]. *)
Definition valid_boot_policy_mount_fact (c : BootRuntimeConfig) (mount : BootPolicyMountConfig) :
    Result InitError bool :=
  let? service := boot_config_has_service c (bpo_service mount) in
  if negb service || negb (valid_vfs_root_path (string_bytes (bpo_mount_root mount))) then Ok false
  else if str_empty (bpo_path mount) && str_empty (bpo_source mount) then Ok (bpo_flags mount =? 0)%Z
  else Ok (negb (str_empty (bpo_path mount)) && negb (str_empty (bpo_source mount)) &&
           valid_bind (bpo_path mount) (bpo_source mount) (bpo_flags mount)).

(** [boot_policy_mount_root_allows]. *)
Definition boot_policy_mount_root_allows (c : BootRuntimeConfig) (service mount_root : string) : bool :=
  any_present (λ mount, str_eqb (bpo_service mount) service && str_eqb (bpo_mount_root mount) mount_root &&
                        str_empty (bpo_path mount) && str_empty (bpo_source mount) && (bpo_flags mount =? 0)%Z)
    (counted (cf_policy_mounts c)).

(** The comparison of a policy entry with a declared mount. *)
Definition mount_matches (mount : BootPolicyMountConfig) (process_mount : BootProcessMountConfig) : bool :=
  str_eqb (bpo_path mount) (bpm_path process_mount) && str_eqb (bpo_source mount) (bpm_source process_mount) &&
  (bpo_flags mount =? bpm_flags process_mount)%Z.

(** [boot_policy_mount_allows]. *)
Definition boot_policy_mount_allows (c : BootRuntimeConfig) (service mount_root : string)
    (process_mount : BootProcessMountConfig) : bool :=
  any_present (λ mount, str_eqb (bpo_service mount) service && str_eqb (bpo_mount_root mount) mount_root &&
                        mount_matches mount process_mount) (counted (cf_policy_mounts c)).

(** [boot_policy_mount_matches_process]. *)
Definition boot_policy_mount_matches_process (c : BootRuntimeConfig) (mount : BootPolicyMountConfig) :
    Result InitError bool :=
  any_entry (λ process,
      if str_eqb (bp_graph_node process) (bpo_service mount) &&
         str_eqb (bp_mount_root process) (bpo_mount_root mount) then
        if str_empty (bpo_path mount) && str_empty (bpo_source mount) && (bpo_flags mount =? 0)%Z then Ok true
        else any_entry (λ process_mount, Ok (mount_matches mount process_mount)) (counted (bp_mounts process))
      else Ok false) (counted (cf_processes c)).

(** * Grants *)

(** [boot_authority_matches_endpoint], [boot_policy_bootstrap_allows_endpoint]. *)
Definition boot_authority_matches_endpoint (authority endpoint : string) : bool :=
  bool_decide (strip_prefix "endpoint:" authority = Some endpoint).
Definition boot_policy_bootstrap_allows_endpoint (c : BootRuntimeConfig) (service endpoint rule : string) (rights : Z) :
    bool :=
  any_present (λ bootstrap, str_eqb (bpb_service bootstrap) service && str_eqb (bpb_rule bootstrap) rule &&
                            rights_within rights (bpb_rights bootstrap) &&
                            boot_authority_matches_endpoint (bpb_authority bootstrap) endpoint)
    (counted (cf_policy_bootstraps c)).

(** [boot_builtin_endpoint_rule_for_grant]. *)
Definition boot_builtin_endpoint_rule_for_grant (process : BootProcessConfig) (endpoint_name : string)
    (grant : BootGrantConfig) : option string :=
  if str_eqb endpoint_name LOG_ENDPOINT_NAME && (bg_rights grant =? RIGHT_SEND)%Z then Some "serial-log"
  else if str_eqb endpoint_name "readiness" && bp_initial process && (bg_rights grant =? RIGHT_RECEIVE)%Z then
    Some "readiness-receive"
  else if str_eqb endpoint_name "readiness" && negb (bp_initial process) && (bg_rights grant =? RIGHT_SEND)%Z then
    Some "readiness-send"
  else if bp_initial process && (bg_rights grant =? RIGHT_SEND)%Z then Some "init-endpoint-delegation"
  else None.

(** [boot_builtin_grant_authorized]. *)
Definition boot_builtin_grant_authorized (c : BootRuntimeConfig) (process : BootProcessConfig)
    (grant : BootGrantConfig) : Result InitError bool :=
  if negb (bg_object_kind grant =? BOOT_OBJECT_ENDPOINT)%Z then Ok false
  else
    let? endpoint := config_entry (cf_endpoints c) (bg_object_index grant) in
    match boot_builtin_endpoint_rule_for_grant process (bep_name endpoint) grant with
    | None => Ok false
    | Some rule =>
        Ok (boot_policy_bootstrap_allows_endpoint c (bp_graph_node process) (bep_name endpoint) rule (bg_rights grant))
    end.

(** The loop of [boot_grant_authorized_by_policy] over the capabilities. *)
Fixpoint policy_capability_scan (c : BootRuntimeConfig) (process : BootProcessConfig) (grant : BootGrantConfig)
    (l : list (option BootPolicyCapabilityConfig)) : Result InitError bool :=
  match l with
  | [] => Ok false
  | None :: _ => Err InvalidBootManifest
  | Some capability :: l' =>
      if (bpc_object_kind capability =? bg_object_kind grant)%Z &&
         (bpc_object_index capability =? bg_object_index grant) &&
         rights_within (bg_rights grant) (bpc_rights capability) then
        if (bg_object_kind grant =? BOOT_OBJECT_ENDPOINT)%Z && (bg_rights grant =? RIGHT_RECEIVE)%Z then
          if boot_policy_provides c (bp_graph_node process) (bpc_id capability) &&
             str_eqb (bpc_provider capability) (bp_graph_node process) then Ok true
          else policy_capability_scan c process grant l'
        else if boot_policy_requirement_allows c (bp_graph_node process) (bpc_id capability) (bg_rights grant) then
          boot_state_path_policy_allows_grant c (bp_graph_node process) grant
        else policy_capability_scan c process grant l'
      else policy_capability_scan c process grant l'
  end.

(** [boot_grant_authorized_by_policy]. *)
Definition boot_grant_authorized_by_policy (c : BootRuntimeConfig) (grant : BootGrantConfig) : Result InitError bool :=
  let? process := config_entry (cf_processes c) (bg_process_index grant) in
  let? builtin := boot_builtin_grant_authorized c process grant in
  if builtin : bool then Ok true
  else policy_capability_scan c process grant (counted (cf_policy_capabilities c)).

(** * Bootstrap authority *)

(** [valid_boot_policy_bootstrap_fact]. *)
Definition valid_boot_policy_bootstrap_fact (c : BootRuntimeConfig) (bootstrap : BootPolicyBootstrapConfig) :
    Result InitError bool :=
  let? service := boot_config_has_service c (bpb_service bootstrap) in
  Ok ((service : bool) && negb (str_empty (bpb_authority bootstrap)) && negb (str_empty (bpb_rule bootstrap)) &&
      negb (bpb_rights bootstrap =? 0)%Z && known_bootstrap_rights (bpb_rights bootstrap)).

(** [boot_policy_bootstrap_matches_builtin_grant]. *)
Definition boot_policy_bootstrap_matches_builtin_grant (c : BootRuntimeConfig) (bootstrap : BootPolicyBootstrapConfig)
    (endpoint : string) : Result InitError bool :=
  any_entry (λ grant,
      if (bg_object_kind grant =? BOOT_OBJECT_ENDPOINT)%Z && (bg_rights grant =? bpb_rights bootstrap)%Z then
        let? process := config_entry (cf_processes c) (bg_process_index grant) in
        let? grant_endpoint := config_entry (cf_endpoints c) (bg_object_index grant) in
        Ok (str_eqb (bp_graph_node process) (bpb_service bootstrap) && str_eqb (bep_name grant_endpoint) endpoint &&
            bool_decide (boot_builtin_endpoint_rule_for_grant process (bep_name grant_endpoint) grant =
                         Some (bpb_rule bootstrap)))
      else Ok false) (counted (cf_grants c)).

(** The rights of the kernel's own endpoints: process, endpoint, rule. *)
Definition internal_endpoint_rights (process_name endpoint rule : string) : option Z :=
  let entry p e r := str_eqb process_name p && str_eqb endpoint e && str_eqb rule r in
  if entry VERTEX_STATE_PROCESS_NAME STATE_VFS_REQUEST_ENDPOINT_NAME "state-vfs-request" then Some RIGHT_RECEIVE
  else if entry VERTEX_STATE_PROCESS_NAME STATE_VFS_REPLY_ENDPOINT_NAME "state-vfs-reply" then Some RIGHT_SEND
  else if entry BLOCK_DRIVER_PROCESS_NAME VERTEXFS_DEVICE_REQUEST_ENDPOINT_NAME "vertexfs-device-request" then
    Some RIGHT_RECEIVE
  else if entry BLOCK_DRIVER_PROCESS_NAME VERTEXFS_DEVICE_REPLY_ENDPOINT_NAME "vertexfs-device-reply" then
    Some RIGHT_SEND
  else if entry BLOCK_DRIVER_PROCESS_NAME GENERATION_METADATA_BLOCK_REQUEST_ENDPOINT_NAME
            "generation-metadata-block-request" then Some RIGHT_RECEIVE
  else if entry BLOCK_DRIVER_PROCESS_NAME GENERATION_METADATA_BLOCK_REPLY_ENDPOINT_NAME
            "generation-metadata-block-reply" then Some RIGHT_SEND
  else if entry GENERATION_MANAGER_PROCESS_NAME GENERATION_METADATA_BLOCK_REQUEST_ENDPOINT_NAME
            "generation-metadata-block-request" then Some RIGHT_SEND
  else if entry GENERATION_MANAGER_PROCESS_NAME GENERATION_METADATA_BLOCK_REPLY_ENDPOINT_NAME
            "generation-metadata-block-reply" then Some RIGHT_RECEIVE
  else None.

(** [boot_policy_bootstrap_matches_internal_endpoint]. *)
Definition boot_policy_bootstrap_matches_internal_endpoint (c : BootRuntimeConfig)
    (bootstrap : BootPolicyBootstrapConfig) (endpoint : string) : Result InitError bool :=
  let? found := boot_service_process_name c (bpb_service bootstrap) in
  Ok (match found with
      | None => false
      | Some process_name =>
          match internal_endpoint_rights process_name endpoint (bpb_rule bootstrap) with
          | None => false
          | Some expected => (bpb_rights bootstrap =? expected)%Z
          end
      end).

(** [boot_policy_bootstrap_matches_runtime]. *)
Definition initial_authority (c : BootRuntimeConfig) (bootstrap : BootPolicyBootstrapConfig) (rule : string)
    (rights : Z) : Result InitError bool :=
  if str_eqb (bpb_rule bootstrap) rule && (bpb_rights bootstrap =? rights)%Z then
    boot_service_is_initial c (bpb_service bootstrap)
  else Ok false.
Definition secret_authority (c : BootRuntimeConfig) (bootstrap : BootPolicyBootstrapConfig) : Result InitError bool :=
  match boot_policy_capability_by_id c "secret:logd-token" with
  | None => Ok false
  | Some capability =>
      if str_eqb (bpb_rule bootstrap) "native-secret" &&
         (bpb_rights bootstrap =? Z.lor RIGHT_READ RIGHT_INSPECT_METADATA)%Z then
        let? name := boot_service_process_name c (bpb_service bootstrap) in
        Ok (bool_decide (name = Some "logd") && (bpc_object_kind capability =? BOOT_OBJECT_SECRET)%Z &&
            (bpc_object_index capability =? 0) && negb (Z.land (bpc_rights capability) RIGHT_READ =? 0)%Z &&
            boot_policy_requirement_allows c (bpb_service bootstrap) "secret:logd-token" RIGHT_READ)
      else Ok false
  end.
Definition boot_policy_bootstrap_matches_runtime (c : BootRuntimeConfig) (bootstrap : BootPolicyBootstrapConfig) :
    Result InitError bool :=
  if str_eqb (bpb_authority bootstrap) "boot-module:krustboot-manifest" then
    initial_authority c bootstrap "initial-manifest" RIGHT_READ
  else if str_eqb (bpb_authority bootstrap) "process-control" then
    initial_authority c bootstrap "initial-process-control" initial_process_control_rights
  else if str_eqb (bpb_authority bootstrap) "timer:monotonic-timer" then
    initial_authority c bootstrap "initial-restart-timer" RIGHT_CONTROL
  else if str_eqb (bpb_authority bootstrap) "secret:logd-token" then secret_authority c bootstrap
  else
    match strip_prefix "endpoint:" (bpb_authority bootstrap) with
    | None => Ok false
    | Some endpoint =>
        let? declared := boot_config_has_endpoint c endpoint in
        if negb declared then Ok false
        else
          let? internal := boot_policy_bootstrap_matches_internal_endpoint c bootstrap endpoint in
          if internal : bool then Ok true else boot_policy_bootstrap_matches_builtin_grant c bootstrap endpoint
    end.

(** * The initial process *)

(** [initial_process_index]. *)
Fixpoint initial_index_from (index : nat) (found : option nat) (l : list (option BootProcessConfig)) :
    Result InitError nat :=
  match l with
  | [] => ok_or found InvalidBootManifest
  | None :: _ => Err InvalidBootManifest
  | Some process :: l' =>
      if bp_initial process then
        match found with
        | Some _ => Err InvalidBootManifest
        | None => initial_index_from (S index) (Some index) l'
        end
      else initial_index_from (S index) found l'
  end.
Definition initial_process_index (c : BootRuntimeConfig) : Result InitError nat :=
  initial_index_from 0 None (counted (cf_processes c)).

(** [initial_process_reserved_cap_slot]. *)
Definition initial_process_reserved_cap_slot (c : BootRuntimeConfig) (slot : Z) : bool :=
  (slot =? 2)%Z || (slot =? INIT_TIMER_CAP_SLOT)%Z || ((slot =? 0)%Z && bool_decide (is_Some (cf_manifest_module c))).

(** [require_bootstrap_authority]. *)
Definition require_bootstrap_authority (c : BootRuntimeConfig) (service authority rule : string) (rights : Z) :
    Check unit :=
  if boot_bootstrap_authority_allows c service authority rule rights then rret tt
  else deny c service authority rule "missing-bootstrap-authority".

(** [validate_bootstrap_authority_policy]. *)
Definition validate_bootstrap_authority_policy (c : BootRuntimeConfig) : Check unit :=
  let! initial_index := rlift (initial_process_index c) in
  let! initial := rlift (config_entry (cf_processes c) initial_index) in
  do! (if bool_decide (is_Some (cf_manifest_module c)) then
         require_bootstrap_authority c (bp_graph_node initial) "boot-module:krustboot-manifest" "initial-manifest"
           RIGHT_READ
       else rret tt);
  do! require_bootstrap_authority c (bp_graph_node initial) "process-control" "initial-process-control"
        initial_process_control_rights;
  do! require_bootstrap_authority c (bp_graph_node initial) "timer:monotonic-timer" "initial-restart-timer"
        RIGHT_CONTROL;
  let! logd := rlift (boot_config_has_process c "logd") in
  do! (if logd : bool then
         require_bootstrap_authority c "svc:logd" "secret:logd-token" "native-secret"
           (Z.lor RIGHT_READ RIGHT_INSPECT_METADATA)
       else rret tt);
  do! (if 0 <? cn_used (cf_state_volumes c) then
         let! service := rlift (boot_process_graph_node_by_name c VERTEX_STATE_PROCESS_NAME) in
         match service with
         | None => rret tt
         | Some service =>
             do! require_bootstrap_authority c service "endpoint:state-vfs-request" "state-vfs-request" RIGHT_RECEIVE;
             require_bootstrap_authority c service "endpoint:state-vfs-reply" "state-vfs-reply" RIGHT_SEND
         end
       else rret tt);
  let! driver := rlift (boot_process_graph_node_by_name c BLOCK_DRIVER_PROCESS_NAME) in
  do! match driver with
      | None => rret tt
      | Some service =>
          do! require_bootstrap_authority c service "endpoint:vertexfs-device-request" "vertexfs-device-request"
                RIGHT_RECEIVE;
          do! require_bootstrap_authority c service "endpoint:vertexfs-device-reply" "vertexfs-device-reply"
                RIGHT_SEND;
          do! require_bootstrap_authority c service "endpoint:generation-metadata-block-request"
                "generation-metadata-block-request" RIGHT_RECEIVE;
          require_bootstrap_authority c service "endpoint:generation-metadata-block-reply"
            "generation-metadata-block-reply" RIGHT_SEND
      end;
  let! has_driver := rlift (boot_config_has_process c BLOCK_DRIVER_PROCESS_NAME) in
  if has_driver : bool then
    let! manager := rlift (boot_process_graph_node_by_name c GENERATION_MANAGER_PROCESS_NAME) in
    match manager with
    | None => rret tt
    | Some service =>
        do! require_bootstrap_authority c service "endpoint:generation-metadata-block-request"
              "generation-metadata-block-request" RIGHT_SEND;
        require_bootstrap_authority c service "endpoint:generation-metadata-block-reply"
          "generation-metadata-block-reply" RIGHT_RECEIVE
    end
  else rret tt.

(** * The policy *)

(** The loops of [validate_boot_config_policy]. *)
Definition check_policy_capability (c : BootRuntimeConfig) (prior : list (option BootPolicyCapabilityConfig))
    (capability : BootPolicyCapabilityConfig) : Check unit :=
  if str_empty (bpc_id capability) || str_empty (bpc_provider capability) || (bpc_rights capability =? 0)%Z ||
     negb (known_policy_rights (bpc_rights capability)) ||
     negb (boot_policy_object_config_ref_valid c (bpc_object_kind capability) (bpc_object_index capability))
  then deny c (bpc_provider capability) (bpc_id capability) "capability-fact" "invalid-capability"
  else
    let! duplicate := rlift (any_entry (λ existing, Ok (str_eqb (bpc_id existing) (bpc_id capability))) prior) in
    if duplicate : bool then
      deny c (bpc_provider capability) (bpc_id capability) "capability-fact" "duplicate-capability"
    else rret tt.

Definition check_policy_requirement (c : BootRuntimeConfig) (prior : list (option BootPolicyRequirementConfig))
    (requirement : BootPolicyRequirementConfig) : Check unit :=
  match boot_policy_capability_by_id c (bpr_capability requirement) with
  | None => deny c (bpr_service requirement) (bpr_capability requirement) "requirement-fact" "unknown-capability"
  | Some capability =>
      let! service := rlift (boot_config_has_service c (bpr_service requirement)) in
      if negb service || (bpr_rights requirement =? 0)%Z || negb (known_policy_rights (bpr_rights requirement)) ||
         negb (rights_within (bpr_rights requirement) (bpc_rights capability))
      then deny c (bpr_service requirement) (bpr_capability requirement) "requirement-fact" "excess-or-invalid-rights"
      else rret tt
  end.

Definition check_policy_provide (c : BootRuntimeConfig) (prior : list (option BootPolicyProvideConfig))
    (provide : BootPolicyProvideConfig) : Check unit :=
  match boot_policy_capability_by_id c (bpv_capability provide) with
  | None => deny c (bpv_service provide) (bpv_capability provide) "provide-fact" "unknown-capability"
  | Some capability =>
      let! service := rlift (boot_config_has_service c (bpv_service provide)) in
      if negb service || negb (str_eqb (bpc_provider capability) (bpv_service provide))
      then deny c (bpv_service provide) (bpv_capability provide) "provide-fact" "provider-mismatch"
      else rret tt
  end.

Definition mount_target (mount : BootPolicyMountConfig) : string :=
  if str_empty (bpo_path mount) then bpo_mount_root mount else bpo_path mount.

Definition check_policy_mount (c : BootRuntimeConfig) (prior : list (option BootPolicyMountConfig))
    (mount : BootPolicyMountConfig) : Check unit :=
  let! valid := rlift (valid_boot_policy_mount_fact c mount) in
  if negb valid then deny c (bpo_service mount) (mount_target mount) "mount-fact" "invalid-mount"
  else
    let! duplicate := rlift (any_entry (λ existing,
      Ok (str_eqb (bpo_service existing) (bpo_service mount) &&
          str_eqb (bpo_mount_root existing) (bpo_mount_root mount) && str_eqb (bpo_path existing) (bpo_path mount) &&
          str_eqb (bpo_source existing) (bpo_source mount) && (bpo_flags existing =? bpo_flags mount)%Z)) prior) in
    if duplicate : bool then deny c (bpo_service mount) (bpo_mount_root mount) "mount-fact" "duplicate" else rret tt.

Definition check_policy_state_path (c : BootRuntimeConfig) (prior : list (option BootPolicyStatePathConfig))
    (state_path : BootPolicyStatePathConfig) : Check unit :=
  let! valid := rlift (valid_boot_policy_state_path_fact c state_path) in
  if negb valid then
    deny c (bps_service state_path) (bps_root state_path) "state-path-fact" "invalid-state-path"
  else
    let! duplicate := rlift (any_entry (λ existing,
      Ok (str_eqb (bps_service existing) (bps_service state_path) &&
          str_eqb (bps_state existing) (bps_state state_path) &&
          str_eqb (bps_root existing) (bps_root state_path))) prior) in
    if duplicate : bool then deny c (bps_service state_path) (bps_root state_path) "state-path-fact" "duplicate"
    else rret tt.

Definition check_policy_bootstrap (c : BootRuntimeConfig) (prior : list (option BootPolicyBootstrapConfig))
    (bootstrap : BootPolicyBootstrapConfig) : Check unit :=
  let! valid := rlift (valid_boot_policy_bootstrap_fact c bootstrap) in
  if negb valid then
    deny c (bpb_service bootstrap) (bpb_authority bootstrap) (bpb_rule bootstrap) "invalid-bootstrap"
  else
    let! duplicate := rlift (any_entry (λ existing,
      Ok (str_eqb (bpb_service existing) (bpb_service bootstrap) &&
          str_eqb (bpb_authority existing) (bpb_authority bootstrap) &&
          str_eqb (bpb_rule existing) (bpb_rule bootstrap))) prior) in
    if duplicate : bool then deny c (bpb_service bootstrap) (bpb_authority bootstrap) (bpb_rule bootstrap) "duplicate"
    else rret tt.

Definition check_policy_grant (c : BootRuntimeConfig) (prior : list (option BootGrantConfig))
    (grant : BootGrantConfig) : Check unit :=
  let! authorized := rlift (boot_grant_authorized_by_policy c grant) in
  if authorized : bool then rret tt
  else
    let source := match counted_get (cf_processes c) (bg_process_index grant) with
                  | Some process => bp_graph_node process
                  | None => "<invalid>"
                  end in
    let target := default "<invalid>" (boot_config_object_label c grant) in
    let! covers := rlift (boot_grant_covers_state_volume_path c grant) in
    deny c source target (if covers : bool then "state-path" else "grant-authorized") "no-policy-edge".

Definition check_policy_process (c : BootRuntimeConfig) (prior : list (option BootProcessConfig))
    (process : BootProcessConfig) : Check unit :=
  if negb (boot_policy_mount_root_allows c (bp_graph_node process) (bp_mount_root process)) then
    deny c (bp_graph_node process) (bp_mount_root process) "mount-root" "no-policy-edge"
  else
    each_entry (λ _ mount,
      if boot_policy_mount_allows c (bp_graph_node process) (bp_mount_root process) mount then rret tt
      else deny c (bp_graph_node process) (bpm_path mount) "declared-mount" "no-policy-edge") (bp_mounts process).

Definition check_mount_used (c : BootRuntimeConfig) (prior : list (option BootPolicyMountConfig))
    (mount : BootPolicyMountConfig) : Check unit :=
  let! used := rlift (boot_policy_mount_matches_process c mount) in
  if used : bool then rret tt
  else deny c (bpo_service mount) (mount_target mount) "mount-fact" "unused-policy-edge".

Definition check_state_path_used (c : BootRuntimeConfig) (prior : list (option BootPolicyStatePathConfig))
    (state_path : BootPolicyStatePathConfig) : Check unit :=
  let! used := rlift (boot_policy_state_path_matches_grant c state_path) in
  if used : bool then rret tt
  else deny c (bps_service state_path) (bps_root state_path) "state-path-fact" "unused-policy-edge".

Definition check_bootstrap_used (c : BootRuntimeConfig) (prior : list (option BootPolicyBootstrapConfig))
    (bootstrap : BootPolicyBootstrapConfig) : Check unit :=
  let! used := rlift (boot_policy_bootstrap_matches_runtime c bootstrap) in
  if used : bool then rret tt
  else deny c (bpb_service bootstrap) (bpb_authority bootstrap) (bpb_rule bootstrap) "unused-policy-edge".

(** [hash[0] == 0]. *)
Definition hash_unset (hash : list byte) : bool := bool_decide (head hash = Some 0%Z).

(** [validate_boot_config_policy]. *)
Definition validate_boot_config_policy (c : BootRuntimeConfig) : Check unit :=
  do! (if negb (cf_policy_version c =? BOOT_POLICY_VERSION)%Z || hash_unset (cf_policy_hash c)
       then deny c "<boot>" "<policy>" "policy-version" "unknown-or-empty" else rret tt);
  do! each_entry (check_policy_capability c) (cf_policy_capabilities c);
  do! each_entry (check_policy_requirement c) (cf_policy_requirements c);
  do! each_entry (check_policy_provide c) (cf_policy_provides c);
  do! each_entry (check_policy_mount c) (cf_policy_mounts c);
  do! each_entry (check_policy_state_path c) (cf_policy_state_paths c);
  do! each_entry (check_policy_bootstrap c) (cf_policy_bootstraps c);
  do! each_entry (check_policy_grant c) (cf_grants c);
  do! each_entry (check_policy_process c) (cf_processes c);
  do! each_entry (check_mount_used c) (cf_policy_mounts c);
  do! each_entry (check_state_path_used c) (cf_policy_state_paths c);
  do! validate_bootstrap_authority_policy c;
  each_entry (check_bootstrap_used c) (cf_policy_bootstraps c).

(** * The graph *)

(** [boot_graph_has_node]. *)
Definition boot_graph_has_node (c : BootRuntimeConfig) (kind : Z) (id : string) : bool :=
  any_present (λ node, (bgn_kind node =? kind)%Z && str_eqb (bgn_id node) id) (counted (cf_graph_nodes c)).

(** [validate_boot_config_graph_store]; the nodes of the generation are counted
    in the state of the first loop. *)
Definition check_graph_node (c : BootRuntimeConfig) (prior : list (option BootGraphNodeConfig))
    (node : BootGraphNodeConfig) : M nat InitError unit :=
  do! rguard (negb ((bgn_kind node =? 0)%Z || str_empty (bgn_id node))) InvalidBootManifest;
  do! (if (bgn_kind node =? GRAPH_NODE_GENERATION)%Z then
         do! rmodify S;
         rguard (str_eqb (bgn_id node) (cf_generation_id c)) InvalidBootManifest
       else rret tt);
  let! duplicate := rlift (any_entry (λ existing, Ok (str_eqb (bgn_id existing) (bgn_id node))) prior) in
  rguard (negb duplicate) InvalidBootManifest.
Definition check_graph_edge (c : BootRuntimeConfig) (prior : list (option BootGraphEdgeConfig))
    (edge : BootGraphEdgeConfig) : M nat InitError unit :=
  do! rguard (graph_edge_ok (cn_used (cf_graph_nodes c)) edge) InvalidBootManifest;
  let! duplicate := rlift (any_entry (λ existing, Ok (str_eqb (bge_id existing) (bge_id edge))) prior) in
  rguard (negb duplicate) InvalidBootManifest.
Definition validate_boot_config_graph_store (c : BootRuntimeConfig) : Result InitError unit :=
  fst ((do! rguard (negb ((cn_used (cf_graph_nodes c) =? 0) || hash_unset (cf_graph_store_hash c) ||
                     str_empty (cf_graph_store_source c))) InvalidBootManifest;
   do! each_entry (check_graph_node c) (cf_graph_nodes c);
   let! generation_nodes := rget in
   do! rguard (generation_nodes =? 1) InvalidBootManifest;
   do! each_entry (check_graph_edge c) (cf_graph_edges c);
   each_entry (λ _ process,
     rguard (boot_graph_has_node c GRAPH_NODE_SERVICE (bp_graph_node process)) InvalidBootManifest)
     (cf_processes c)) 0).

(** * Hardware *)

(** [validate_io_boot_range], [validate_device_boot_range], [boot_ranges_overlap]. *)
Definition validate_io_boot_range (base length : Z) : Result InitError unit :=
  do? res_guard (negb (length =? 0)%Z) InvalidBootManifest;
  let? last := ok_or (checked_add base (length - 1)) InvalidBootManifest in
  res_guard (last <=? 65535)%Z InvalidBootManifest.
Definition validate_device_boot_range (base length : Z) (page_aligned_base : bool) : Result InitError unit :=
  do? res_guard (negb ((length =? 0)%Z || (USER_DEVICE_MAPPING_STRIDE <? length)%Z)) InvalidBootManifest;
  do? ok_or (checked_add base (length - 1)) InvalidBootManifest;
  res_guard (negb (page_aligned_base && negb (base mod FRAME_SIZE =? 0)%Z)) InvalidBootManifest.
Definition boot_ranges_overlap (base length other_base other_length : Z) : Result InitError bool :=
  if (length =? 0)%Z || (other_length =? 0)%Z then Ok false
  else
    let? e := ok_or (checked_add base length) InvalidBootManifest in
    let? other_end := ok_or (checked_add other_base other_length) InvalidBootManifest in
    Ok ((base <? other_end)%Z && (other_base <? e)%Z).

(** The loops of [validate_boot_config_hardware_authority]; none of them logs. *)
Definition check_range {A} (base len : A → Z) (validate : A → Result InitError unit) (prior : list (option A)) (x : A) :
    M unit InitError unit :=
  do! rlift (validate x);
  let! overlap := rlift (any_entry (λ p, boot_ranges_overlap (base x) (len x) (base p) (len p)) prior) in
  rguard (negb overlap) InvalidBootManifest.
Definition check_interrupt_line (prior : list (option BootInterruptLineConfig)) (line : BootInterruptLineConfig) :
    M unit InitError unit :=
  do! rguard (negb (15 <? bil_line line)%Z) InvalidBootManifest;
  let! duplicate := rlift (any_entry (λ p, Ok (bil_line p =? bil_line line)%Z) prior) in
  rguard (negb duplicate) InvalidBootManifest.
Definition validate_boot_config_hardware_authority (c : BootRuntimeConfig) : Result InitError unit :=
  fst ((do! each_entry (check_range bio_base bio_length (λ r, validate_io_boot_range (bio_base r) (bio_length r)))
         (cf_io_ports c);
   do! each_entry (check_range bmm_base bmm_length (λ r, validate_device_boot_range (bmm_base r) (bmm_length r) false))
         (cf_mmio_regions c);
   do! each_entry check_interrupt_line (cf_interrupt_lines c);
   each_entry (check_range bdm_base bdm_length (λ r,
       do? validate_device_boot_range (bdm_base r) (bdm_length r) true;
       res_guard (negb (negb (bdm_length r mod FRAME_SIZE =? 0)%Z || (USER_DEVICE_MAPPING_STRIDE <? bdm_length r)%Z))
         InvalidBootManifest)) (cf_dma_regions c)) tt).

(** * The whole configuration *)

(** [validate_counted_config_entries]. *)
Definition validate_counted_config_entries {A} (c : Counted A) : Result InitError unit :=
  do? res_guard (negb (length (cn_slots c) <? cn_used c)) InvalidBootManifest;
  res_guard (forallb (λ o, bool_decide (is_Some o)) (counted c)) InvalidBootManifest.

(** [validate_boot_config_state_volumes]. *)
Definition check_state_volume (prior : list (option BootStateVolumeConfig)) (state : BootStateVolumeConfig) :
    M unit InitError unit :=
  let! component := rlift (state_volume_mount_component (svc_id state)) in
  do! rguard (negb (str_empty (svc_owner state) || str_empty (svc_schema_version state) ||
                    str_empty (svc_storage_class state) || str_empty (svc_migration_policy state) ||
                    str_empty (svc_retention_policy state) || str_empty (svc_sharing_policy state)) &&
              bool_decide (svc_storage_class state ∈ ["vertexdisk-v1"; "hosted-local-directory"]) &&
              bool_decide (svc_migration_policy state ∈ ["preserve"; "migrate"; "fork"; "discard"]) &&
              bool_decide (svc_retention_policy state ∈ ["retain-while-referenced"; "retain-forever"]) &&
              bool_decide (svc_sharing_policy state ∈ ["owner-only"; "explicit"])) InvalidBootManifest;
  let! duplicate := rlift (any_entry (λ existing,
    if str_eqb (svc_id existing) (svc_id state) then Ok true
    else
      let? other := state_volume_mount_component (svc_id existing) in
      Ok (str_eqb other component)) prior) in
  rguard (negb duplicate) InvalidBootManifest.
Definition validate_boot_config_state_volumes (c : BootRuntimeConfig) : Result InitError unit :=
  do? res_guard (BUILTIN_VFS_MOUNTS + cn_used (cf_state_volumes c) <=? MAX_VFS_MOUNTS) ObjectTableFull;
  (each_entry check_state_volume (cf_state_volumes c) tt).1.

(** [boot_config_object_count]: the objects [build_boot_config_runtime] makes. *)
Definition boot_config_object_count (c : BootRuntimeConfig) : option Z :=
  let volumes := cn_used (cf_state_volumes c) in
  foldl (λ acc n, acc ≫= λ total, checked_add total (Z.of_nat n)) (Some 0%Z)
    [cn_used (cf_endpoints c); if 0 <? volumes then 2 else 0; cn_used (cf_store_objects c); volumes;
     cn_used (cf_network_ports c); cn_used (cf_io_ports c); cn_used (cf_mmio_regions c); cn_used (cf_framebuffers c);
     cn_used (cf_interrupt_lines c); cn_used (cf_dma_regions c); cn_used (cf_pci_devices c);
     cn_used (cf_virtio_devices c); cn_used (cf_namespaces c); cn_used (cf_vfs_roots c); BUILTIN_VFS_MOUNTS; volumes;
     1; 1; 1; match cf_manifest_module c with Some _ => 1 | None => 0 end].

(** [namespace_entry_object_kind_allowed]. *)
Definition namespace_entry_object_kind_allowed (object_kind : Z) : bool :=
  bool_decide (object_kind ∈ [BOOT_OBJECT_ENDPOINT; BOOT_OBJECT_STORE; BOOT_OBJECT_TIMER; BOOT_OBJECT_NETWORK_PORT]).

(** The loops of [validate_boot_config_installable]. *)
Definition check_namespace (c : BootRuntimeConfig) (prior : list (option BootNamespaceConfig))
    (namespace : BootNamespaceConfig) : Check unit :=
  do! rguard (cn_used (bns_entries namespace) <=? MAX_NAMESPACE_ENTRIES) InvalidBootManifest;
  do! rlift (validate_counted_config_entries (bns_entries namespace));
  each_entry (λ _ entry,
    rguard (namespace_entry_object_kind_allowed (bne_object_kind entry) &&
            boot_object_config_ref_valid c (bne_object_kind entry) (bne_object_index entry)) InvalidBootManifest)
    (bns_entries namespace).

Definition check_grant (c : BootRuntimeConfig) (initial_index : nat) (prior : list (option BootGrantConfig))
    (grant : BootGrantConfig) : Check unit :=
  do! rguard (bg_process_index grant <? cn_used (cf_processes c)) InvalidBootManifest;
  do! rguard ((bg_cap_slot grant <? Z.of_nat MAX_CAPS)%Z &&
              boot_object_config_ref_valid c (bg_object_kind grant) (bg_object_index grant)) InvalidBootManifest;
  do! rguard (negb ((bg_process_index grant =? initial_index) &&
                    initial_process_reserved_cap_slot c (bg_cap_slot grant))) InvalidBootManifest;
  let! duplicate := rlift (any_entry (λ existing,
    Ok ((bg_process_index existing =? bg_process_index grant) &&
        (bg_cap_slot existing =? bg_cap_slot grant)%Z)) prior) in
  rguard (negb duplicate) InvalidBootManifest.

Definition validate_tables (c : BootRuntimeConfig) : Result InitError unit :=
  do? validate_counted_config_entries (cf_processes c);
  do? validate_counted_config_entries (cf_endpoints c);
  do? validate_counted_config_entries (cf_store_objects c);
  do? validate_counted_config_entries (cf_state_volumes c);
  do? validate_counted_config_entries (cf_network_ports c);
  do? validate_counted_config_entries (cf_io_ports c);
  do? validate_counted_config_entries (cf_mmio_regions c);
  do? validate_counted_config_entries (cf_framebuffers c);
  do? validate_counted_config_entries (cf_interrupt_lines c);
  do? validate_counted_config_entries (cf_dma_regions c);
  do? validate_counted_config_entries (cf_pci_devices c);
  do? validate_counted_config_entries (cf_virtio_devices c);
  do? validate_counted_config_entries (cf_namespaces c);
  do? validate_counted_config_entries (cf_vfs_roots c);
  do? validate_counted_config_entries (cf_graph_nodes c);
  do? validate_counted_config_entries (cf_graph_edges c);
  do? validate_counted_config_entries (cf_grants c);
  do? validate_counted_config_entries (cf_policy_capabilities c);
  do? validate_counted_config_entries (cf_policy_requirements c);
  do? validate_counted_config_entries (cf_policy_provides c);
  do? validate_counted_config_entries (cf_policy_mounts c);
  do? validate_counted_config_entries (cf_policy_state_paths c);
  validate_counted_config_entries (cf_policy_bootstraps c).

(** [validate_boot_config_installable]. *)
Definition validate_boot_config_installable (c : BootRuntimeConfig) : Check unit :=
  do! rlift (validate_tables c);
  do! rguard (negb (cn_used (cf_endpoints c) =? 0)) InvalidBootManifest;
  let! log_endpoint := rlift (config_entry (cf_endpoints c) 0) in
  do! rguard (str_eqb (bep_name log_endpoint) LOG_ENDPOINT_NAME) InvalidBootManifest;
  do! each_from (λ _ endpoint, rguard (negb (str_eqb (bep_name endpoint) LOG_ENDPOINT_NAME)) InvalidBootManifest)
        [] (drop 1 (counted (cf_endpoints c)));
  let! initial_index := rlift (initial_process_index c) in
  do! rlift (validate_boot_config_state_volumes c);
  let! object_count := rlift (ok_or (boot_config_object_count c) ObjectTableFull) in
  do! rguard (object_count <=? Z.of_nat MAX_OBJECTS)%Z ObjectTableFull;
  do! rlift (validate_boot_config_hardware_authority c);
  do! rlift (validate_boot_config_graph_store c);
  do! validate_boot_config_policy c;
  do! each_entry (check_namespace c) (cf_namespaces c);
  do! each_entry (λ _ root, rguard (valid_vfs_root_path (string_bytes (bvr_root_path root))) InvalidBootManifest)
        (cf_vfs_roots c);
  each_entry (check_grant c initial_index) (cf_grants c).
