(* ===== verification/BootPolicyProofs.v ===== *)
(** What the admission of a boot configuration guarantees: every grant is
    authorised by the policy, state volumes that are not shared stay with their
    owner, and hardware ranges are disjoint. *)

From S2P Require Import Prelude Frames KernelBase Transport VfsPath KernelObjects ProcessRuntime BootConfig BootPolicy.

(** * Loops *)

Lemma each_from_ok {A S} (f : list (option A) → A → M S InitError unit) l : ∀ prior s u s',
  each_from f prior l s = (Ok u, s') →
  ∀ i o, l !! i = Some o → ∃ x s1 s2, o = Some x ∧ f (prior ++ take i l) x s1 = (Ok tt, s2).
Proof.
  induction l as [|[y|] l IH]; intros prior s u s' Hrun i o Hi; [done| |done].
  cbn [each_from] in Hrun. unfold rbind in Hrun. destruct (f prior y s) as [[[]|] s1] eqn:Hf; [|done].
  destruct i as [|i]; cbn in Hi.
  - injection Hi as <-. exists y, s, s1. split; [done|]. cbn. by rewrite app_nil_r.
  - destruct (IH _ _ _ _ Hrun i o Hi) as (x & s2 & s3 & Ho & Hx). exists x, s2, s3. split; [done|].
    cbn. by rewrite <-app_assoc in Hx.
Qed.

Lemma each_entry_ok {A S} (f : list (option A) → A → M S InitError unit) c s u s' x :
  each_entry f c s = (Ok u, s') → x ∈ entries c →
  ∃ i s1 s2, counted c !! i = Some (Some x) ∧ f (take i (counted c)) x s1 = (Ok tt, s2).
Proof.
  intros Hrun Hx. unfold entries in Hx. apply list_elem_of_omap in Hx as (o & Ho & Hx). cbn in Hx. subst o.
  apply list_elem_of_lookup in Ho as (i & Hi).
  destruct (each_from_ok f _ _ _ _ _ Hrun i _ Hi) as (y & s1 & s2 & [= <-] & Hf). by exists i, s1, s2.
Qed.

(** Two entries of a checked table: the first is among the prior entries of the
    second. *)
Lemma each_entry_pair {A S} (f : list (option A) → A → M S InitError unit) c s u s' i j x y :
  each_entry f c s = (Ok u, s') → i < j → counted c !! i = Some (Some x) → counted c !! j = Some (Some y) →
  ∃ s1 s2, f (take j (counted c)) y s1 = (Ok tt, s2) ∧ Some x ∈ take j (counted c).
Proof.
  intros Hrun Hij Hi Hj. destruct (each_from_ok f _ _ _ _ _ Hrun j _ Hj) as (y' & s1 & s2 & [= <-] & Hf).
  exists s1, s2. split; [done|]. apply list_elem_of_lookup. exists i. by rewrite lookup_take_lt.
Qed.

Lemma find_entry_none {A} (f : A → Result InitError bool) l :
  find_entry f l = Ok None → ∀ x, Some x ∈ l → f x = Ok false.
Proof.
  induction l as [|[y|] l IH]; intros H x Hx; [by apply elem_of_nil in Hx| |done].
  cbn [find_entry] in H. apply res_bind_ok in H as ([] & Hf & H); [done|].
  apply elem_of_cons in Hx as [[= ->]|Hx]; [done|by apply IH].
Qed.
Lemma find_entry_some {A} (f : A → Result InitError bool) l x :
  find_entry f l = Ok (Some x) → Some x ∈ l ∧ f x = Ok true.
Proof.
  induction l as [|[y|] l IH]; intros H; [done| |done]. cbn [find_entry] in H.
  apply res_bind_ok in H as ([] & Hf & H).
  - injection H as ->. split; [left|done].
  - destruct (IH H) as [H1 H2]. split; [by right|done].
Qed.
Lemma any_entry_false {A} (f : A → Result InitError bool) l :
  any_entry f l = Ok false → ∀ x, Some x ∈ l → f x = Ok false.
Proof.
  unfold any_entry. intros (o & Ho & H)%res_bind_ok. destruct o as [y|]; [done|]. by apply find_entry_none.
Qed.
Lemma any_entry_true {A} (f : A → Result InitError bool) l :
  any_entry f l = Ok true → ∃ x, Some x ∈ l ∧ f x = Ok true.
Proof.
  unfold any_entry. intros (o & Ho & H)%res_bind_ok. destruct o as [y|]; [|done].
  exists y. by apply find_entry_some.
Qed.
Lemma any_entry_total {A} (f : A → Result InitError bool) l :
  (∀ x, Some x ∈ l → is_ok (f x) = true) → (∀ o, o ∈ l → is_Some o) → is_ok (any_entry f l) = true.
Proof.
  unfold any_entry. intros Hf Hs. induction l as [|[y|] l IH]; [done| |].
  - cbn [find_entry]. pose proof (Hf y ltac:(left)) as Hy. destruct (f y) as [[]|]; [done| |done].
    cbn [res_bind]. apply IH; [intros x Hx; apply Hf; by right|intros o Ho; apply Hs; by right].
  - destruct (Hs None) as [? ?]; [left|done].
Qed.

Lemma some_in_counted {A} (c : Counted A) x : Some x ∈ counted c ↔ x ∈ entries c.
Proof.
  unfold entries. rewrite list_elem_of_omap. split; [intros H; by exists (Some x)|].
  intros (o & Ho & Hx). cbn in Hx. by subst.
Qed.
Lemma counted_filled {A} n (c : Counted A) : counted_wf n c → ∀ o, o ∈ counted c → is_Some o.
Proof.
  intros [H1 H2 H3] o Ho. apply list_elem_of_lookup in Ho as (i & Hi). apply lookup_take_Some in Hi as [Hi Hlt].
  specialize (H3 i Hlt). unfold counted_get in H3. by rewrite Hi in H3.
Qed.
Lemma config_entry_ok {A} n (c : Counted A) i :
  counted_wf n c → i < cn_used c → ∃ x, config_entry c i = Ok x ∧ counted_get c i = Some x ∧ x ∈ entries c.
Proof.
  intros [H1 H2 H3] Hi. destruct (H3 i Hi) as [x Hx]. exists x. unfold config_entry. rewrite Hx.
  split_and!; [done|done|]. apply elem_of_entries. eauto.
Qed.

(** * Rights *)

Lemma rights_within_le rights allowed :
  is_u64 rights → is_u64 allowed → rights_within rights allowed = true ↔ rights_le rights allowed.
Proof.
  intros Hr Ha. unfold rights_within. rewrite Z.eqb_eq. split.
  - intros H0 i Hi Hb. by apply (land_not_u64_zero rights).
  - intros Hle. apply Z.bits_inj_iff'. intros i Hi. rewrite Z.land_spec, Z.bits_0.
    destruct (Z.testbit rights i) eqn:Hb; [|done]. rewrite andb_true_l. unfold not_u64. rewrite Z.lxor_spec.
    rewrite (Hle i Hi Hb). rewrite u64_max_ones. rewrite (Z.testbit_ones_nonneg 64 i) by lia.
    destruct (Z.ltb_spec i 64) as [|H64]; [done|]. exfalso.
    rewrite (Z.bits_above_log2 rights i) in Hb; [done|unfold is_u64 in Hr; lia|].
    unfold is_u64, u64_max in Hr. destruct (decide (rights = 0%Z)) as [->|]; [cbn; lia|].
    apply Z.log2_lt_pow2; [lia|]. apply Z.lt_le_trans with (2 ^ 64)%Z; [lia|]. apply Z.pow_le_mono_r; lia.
Qed.

(** The rights of a configuration are machine words. *)
Record rights_u64 (c : BootRuntimeConfig) : Prop := mk_rights_u64 {
  ru_grants : ∀ g, g ∈ entries (cf_grants c) → is_u64 (bg_rights g);
  ru_capabilities : ∀ k, k ∈ entries (cf_policy_capabilities c) → is_u64 (bpc_rights k);
  ru_requirements : ∀ r, r ∈ entries (cf_policy_requirements c) → is_u64 (bpr_rights r);
  ru_state_paths : ∀ s, s ∈ entries (cf_policy_state_paths c) → is_u64 (bps_rights s);
  ru_bootstraps : ∀ b, b ∈ entries (cf_policy_bootstraps c) → is_u64 (bpb_rights b)
}.

(** * What it means for a grant to be authorised *)

(** The root is the directory of all state volumes, the directory of this volume, or
    lies in it. The root directory [/], which has all of them below it, is none of
    these. *)
Definition root_in_state (root : string) (state : BootStateVolumeConfig) : Prop :=
  root = "/state" ∨ ∃ component, state_volume_mount_component (svc_id state) = Ok component ∧
    (root = "/state/" +:+ component ∨ ∃ sub, root = "/state/" +:+ component +:+ "/" +:+ sub).

(** The policy lets [service] use the volumes below [root] with [rights]. *)
Definition state_allowed (c : BootRuntimeConfig) (service root : string) (rights : Z) : Prop :=
  ∀ state, state ∈ entries (cf_state_volumes c) → root_in_state root state →
    (svc_sharing_policy state = "owner-only" → svc_owner state = service) ∧
    ∃ s, s ∈ entries (cf_policy_state_paths c) ∧ bps_service s = service ∧ bps_state s = svc_id state ∧
      bps_root s = root ∧ rights_le rights (bps_rights s).

(** A built-in rule for an endpoint, allowed by a bootstrap entry. *)
Definition builtin_authorized (c : BootRuntimeConfig) (process : BootProcessConfig) (g : BootGrantConfig) : Prop :=
  bg_object_kind g = BOOT_OBJECT_ENDPOINT ∧
  ∃ endpoint rule b, counted_get (cf_endpoints c) (bg_object_index g) = Some endpoint ∧
    boot_builtin_endpoint_rule_for_grant process (bep_name endpoint) g = Some rule ∧
    b ∈ entries (cf_policy_bootstraps c) ∧ bpb_service b = bp_graph_node process ∧ bpb_rule b = rule ∧
    strip_prefix "endpoint:" (bpb_authority b) = Some (bep_name endpoint) ∧ rights_le (bg_rights g) (bpb_rights b).

(** A declared capability: its provider may receive on it, a service that
    requires it may use it with the rights it requires. *)
Definition declared_authorized (c : BootRuntimeConfig) (process : BootProcessConfig) (g : BootGrantConfig) : Prop :=
  ∃ k, k ∈ entries (cf_policy_capabilities c) ∧ bpc_object_kind k = bg_object_kind g ∧
    bpc_object_index k = bg_object_index g ∧ rights_le (bg_rights g) (bpc_rights k) ∧
    if decide (bg_object_kind g = BOOT_OBJECT_ENDPOINT ∧ bg_rights g = RIGHT_RECEIVE) then
      bpc_provider k = bp_graph_node process ∧
      ∃ v, v ∈ entries (cf_policy_provides c) ∧ bpv_service v = bp_graph_node process ∧ bpv_capability v = bpc_id k
    else
      (∃ r, r ∈ entries (cf_policy_requirements c) ∧ bpr_service r = bp_graph_node process ∧
         bpr_capability r = bpc_id k ∧ rights_le (bg_rights g) (bpr_rights r)) ∧
      (bg_object_kind g = BOOT_OBJECT_VFS_ROOT → ∀ root,
         counted_get (cf_vfs_roots c) (bg_object_index g) = Some root →
         state_allowed c (bp_graph_node process) (bvr_root_path root) (bg_rights g)).

Definition grant_authorized (c : BootRuntimeConfig) (g : BootGrantConfig) : Prop :=
  ∃ process, counted_get (cf_processes c) (bg_process_index g) = Some process ∧
    (builtin_authorized c process g ∨ declared_authorized c process g).

(** * The checks decide it *)

Lemma any_present_counted {A} (f : A → bool) (c : Counted A) :
  any_present f (counted c) = true ↔ ∃ x, x ∈ entries c ∧ f x = true.
Proof. apply any_present_spec. Qed.

Ltac strings := repeat first
  [ rewrite andb_true_iff | rewrite str_eqb_true | rewrite bool_decide_eq_true | rewrite Z.eqb_eq | rewrite Nat.eqb_eq ].

Section authorised.
Context (c : BootRuntimeConfig) (Hwf : config_wf c) (Hr : rights_u64 c).

Lemma strip_prefix_iff prefix s rest : strip_prefix prefix s = Some rest ↔ s = prefix +:+ rest.
Proof using.
  revert s. induction prefix as [|a prefix IH]; intros s; [split; [by intros [= ->]|by intros ->]|].
  destruct s as [|b s]; [done|]. cbn. case_bool_decide as Hab.
  - subst b. rewrite IH. split; [by intros ->|by intros [= ->]].
  - split; [done|]. by intros [= -> _].
Qed.

Lemma before_slash_iff rest component :
  forallb (λ b, negb ((b =? slash) || (b =? 0))%Z) (string_bytes component) = true →
  before_slash rest = component ↔ rest = component ∨ ∃ sub, rest = component +:+ "/" +:+ sub.
Proof using.
  revert component. induction rest as [|a rest IH]; intros component Hc; cbn.
  { split; [intros <-; by left|]. intros [<-|[sub Hs]]; [done|]. by destruct component. }
  case_bool_decide as Ha.
  - assert (a = Ascii.ascii_of_nat 47) as -> by (rewrite <-(Ascii.ascii_nat_embedding a), Ha; reflexivity). split.
    + intros <-. right. by exists rest.
    + intros [He|[sub Hs]]; (destruct component as [|x component]; [done|]).
      * injection He as <- <-. by vm_compute in Hc.
      * injection Hs as <- _. by vm_compute in Hc.
  - destruct component as [|x component].
    { split; [done|]. intros [?|[sub Hs]]; [done|]. injection Hs as -> _. by destruct Ha. }
    assert (Hc' : forallb (λ b, negb ((b =? slash) || (b =? 0))%Z) (string_bytes component) = true).
    { by apply andb_true_iff in Hc as [_ ?]. }
    specialize (IH component Hc'). split.
    + intros [= -> H]. apply IH in H as [->|[sub ->]]; [by left|right; by exists sub].
    + intros [[= -> ->]|[sub [= -> ->]]]; f_equal; apply IH; eauto.
Qed.

Lemma component_no_slash id component : state_volume_mount_component id = Ok component →
  forallb (λ b, negb ((b =? slash) || (b =? 0))%Z) (string_bytes component) = true.
Proof using.
  unfold state_volume_mount_component. destruct (strip_prefix _ _) as [x|]; [|done].
  intros H. apply res_bind_ok in H as (? & _ & H). apply res_bind_ok in H as (? & Hg%res_guard_ok & H). by injection H as <-.
Qed.

Lemma covered_below root state :
  is_ok (state_volume_mount_component (svc_id state)) = true →
  ∃ b, boot_state_volume_covered_by_root_path root state = Ok b ∧ (b = true ↔ root_in_state root state).
Proof.
  intros Hc. unfold boot_state_volume_covered_by_root_path, root_in_state.
  destruct (str_eqb root "/state") eqn:Hs.
  { apply str_eqb_true in Hs. exists true. split; [done|]. split; [by left|done]. }
  apply str_eqb_false in Hs. destruct (state_volume_mount_component (svc_id state)) as [component|] eqn:E; [|done].
  destruct (strip_prefix "/state/" root) as [rest|] eqn:Hp.
  - cbn [res_bind]. eexists. split; [done|]. apply strip_prefix_iff in Hp as ->.
    rewrite str_eqb_true, (before_slash_iff rest component) by (by eapply component_no_slash). split.
    + intros H. right. exists component. split; [done|]. destruct H as [->|[sub ->]]; [by left|right; by exists sub].
    + intros [?|(x & [= <-] & H)]; [done|]. destruct H as [H|[sub H]]; injection H as H; [left; exact H|right; exists sub; exact H].
  - exists false. split; [done|]. split; [done|]. intros [?|(x & _ & H)]; [done|]. exfalso.
    destruct H as [H|[sub H]]; apply strip_prefix_iff in H; congruence.
Qed.

Lemma state_path_allows service id root rights :
  is_u64 rights →
  boot_policy_state_path_allows c service id root rights = true ↔
  ∃ s, s ∈ entries (cf_policy_state_paths c) ∧ bps_service s = service ∧ bps_state s = id ∧
    bps_root s = root ∧ rights_le rights (bps_rights s).
Proof.
  intros Hu. unfold boot_policy_state_path_allows. rewrite any_present_counted.
  split; intros (s & Hs & H); exists s; (split; [done|]); revert H; strings;
    rewrite (rights_within_le _ _ Hu (ru_state_paths _ Hr s Hs)); naive_solver.
Qed.

Lemma state_path_policy service g :
  is_u64 (bg_rights g) → (bg_object_kind g = BOOT_OBJECT_VFS_ROOT → bg_object_index g < cn_used (cf_vfs_roots c)) →
  ∃ b, boot_state_path_policy_allows_grant c service g = Ok b ∧
    (b = true ↔ (bg_object_kind g = BOOT_OBJECT_VFS_ROOT → ∀ root,
       counted_get (cf_vfs_roots c) (bg_object_index g) = Some root →
       state_allowed c service (bvr_root_path root) (bg_rights g))).
Proof.
  intros Hu Hi. unfold boot_state_path_policy_allows_grant.
  destruct (Z.eqb_spec (bg_object_kind g) BOOT_OBJECT_VFS_ROOT) as [Hk|Hk]; cbn [negb]; [|exists true; naive_solver].
  destruct (config_entry_ok _ _ _ (sz_vfs_roots _ (wf_sizes _ Hwf)) (Hi Hk)) as (root & -> & Hroot & _). cbn [res_bind].
  set (f := state_volume_forbids c service (bvr_root_path root) (bg_rights g)).
  assert (Hf : ∀ state, state ∈ entries (cf_state_volumes c) → ∃ b, f state = Ok b ∧
    (b = false ↔ (root_in_state (bvr_root_path root) state →
       (svc_sharing_policy state = "owner-only" → svc_owner state = service) ∧
       boot_policy_state_path_allows c service (svc_id state) (bvr_root_path root) (bg_rights g) = true))).
  { intros state Hs. destruct (covered_below (bvr_root_path root) state) as (b & Hb & Hiff); [by apply Hwf|].
    unfold f, state_volume_forbids. rewrite Hb. cbn [res_bind]. eexists. split; [done|].
    destruct b; cbn [andb]; [|naive_solver]. rewrite orb_false_iff, andb_false_iff, negb_false_iff, negb_false_iff.
    rewrite str_eqb_true, str_eqb_false. destruct (decide (svc_sharing_policy state = "owner-only")); naive_solver. }
  assert (Hok : is_ok (any_entry f (counted (cf_state_volumes c))) = true).
  { apply any_entry_total.
    - intros state Hs%some_in_counted. by destruct (Hf state Hs) as (b & -> & _).
    - apply (counted_filled _ _ (sz_state_volumes _ (wf_sizes _ Hwf))). }
  destruct (any_entry f _) as [b|] eqn:Hany; [|done]. cbn [res_bind]. eexists. split; [done|].
  unfold state_allowed. destruct b; cbn [negb].
  - split; [done|]. intros H. destruct (any_entry_true _ _ Hany) as (state & Hs%some_in_counted & Ht).
    destruct (Hf state Hs) as (b & Hb & Hiff). rewrite Ht in Hb. injection Hb as <-.
    destruct (proj2 Hiff); [|done]. intros Hv. specialize (H Hk root Hroot state Hs Hv).
    rewrite (state_path_allows _ _ _ _ Hu). exact H.
  - split; [intros _|done]. intros _ root' Hroot' state Hs Hv. rewrite Hroot in Hroot'. injection Hroot' as <-.
    pose proof (any_entry_false _ _ Hany state (proj2 (some_in_counted _ _) Hs)) as Hfalse.
    destruct (Hf state Hs) as (b & Hb & Hiff). rewrite Hfalse in Hb. injection Hb as <-.
    rewrite <-(state_path_allows _ _ _ _ Hu). by apply Hiff.
Qed.

Lemma requirement_allows service id rights :
  is_u64 rights →
  boot_policy_requirement_allows c service id rights = true ↔
  ∃ r, r ∈ entries (cf_policy_requirements c) ∧ bpr_service r = service ∧ bpr_capability r = id ∧
    rights_le rights (bpr_rights r).
Proof.
  intros Hu. unfold boot_policy_requirement_allows. rewrite any_present_counted.
  split; intros (s & Hs & H); exists s; (split; [done|]); revert H; strings;
    rewrite (rights_within_le _ _ Hu (ru_requirements _ Hr s Hs)); naive_solver.
Qed.

Lemma provides_iff service id :
  boot_policy_provides c service id = true ↔
  ∃ v, v ∈ entries (cf_policy_provides c) ∧ bpv_service v = service ∧ bpv_capability v = id.
Proof.
  unfold boot_policy_provides. rewrite any_present_counted.
  split; intros (v & Hv & H); exists v; (split; [done|]); revert H; by strings.
Qed.

Lemma builtin_iff process g :
  is_u64 (bg_rights g) → (bg_object_kind g = BOOT_OBJECT_ENDPOINT → bg_object_index g < cn_used (cf_endpoints c)) →
  ∃ b, boot_builtin_grant_authorized c process g = Ok b ∧ (b = true ↔ builtin_authorized c process g).
Proof.
  intros Hu Hi. unfold boot_builtin_grant_authorized, builtin_authorized.
  destruct (Z.eqb_spec (bg_object_kind g) BOOT_OBJECT_ENDPOINT) as [Hk|Hk]; cbn [negb]; [|exists false; naive_solver].
  destruct (config_entry_ok _ _ _ (sz_endpoints _ (wf_sizes _ Hwf)) (Hi Hk)) as (e & -> & He & _). cbn [res_bind].
  destruct (boot_builtin_endpoint_rule_for_grant process (bep_name e) g) as [rule|] eqn:Hrule.
  2: { exists false. split; [done|]. split; [done|]. intros (_ & e' & rule & b & He' & Hr' & _).
       rewrite He in He'. injection He' as <-. by rewrite Hrule in Hr'. }
  eexists. split; [done|]. unfold boot_policy_bootstrap_allows_endpoint, boot_authority_matches_endpoint.
  rewrite any_present_counted. split.
  - intros (b & Hb & H). revert H. strings. rewrite (rights_within_le _ _ Hu (ru_bootstraps _ Hr b Hb)).
    intros H. split; [done|]. exists e, rule, b. naive_solver.
  - intros (_ & e' & rule' & b & He' & Hrule' & Hb & H). rewrite He in He'. injection He' as <-.
    rewrite Hrule in Hrule'. injection Hrule' as <-. exists b. split; [done|]. strings.
    rewrite (rights_within_le _ _ Hu (ru_bootstraps _ Hr b Hb)). naive_solver.
Qed.

(** The capabilities that match a grant and admit it. *)
Definition capability_admits (process : BootProcessConfig) (g : BootGrantConfig) (k : BootPolicyCapabilityConfig) : Prop :=
  bpc_object_kind k = bg_object_kind g ∧ bpc_object_index k = bg_object_index g ∧
  rights_le (bg_rights g) (bpc_rights k) ∧
  if decide (bg_object_kind g = BOOT_OBJECT_ENDPOINT ∧ bg_rights g = RIGHT_RECEIVE) then
    bpc_provider k = bp_graph_node process ∧
    ∃ v, v ∈ entries (cf_policy_provides c) ∧ bpv_service v = bp_graph_node process ∧ bpv_capability v = bpc_id k
  else
    (∃ r, r ∈ entries (cf_policy_requirements c) ∧ bpr_service r = bp_graph_node process ∧
       bpr_capability r = bpc_id k ∧ rights_le (bg_rights g) (bpr_rights r)) ∧
    (bg_object_kind g = BOOT_OBJECT_VFS_ROOT → ∀ root,
       counted_get (cf_vfs_roots c) (bg_object_index g) = Some root →
       state_allowed c (bp_graph_node process) (bvr_root_path root) (bg_rights g)).

Lemma scan_iff process g l :
  is_u64 (bg_rights g) → (bg_object_kind g = BOOT_OBJECT_VFS_ROOT → bg_object_index g < cn_used (cf_vfs_roots c)) →
  (∀ o, o ∈ l → is_Some o) → (∀ k, Some k ∈ l → is_u64 (bpc_rights k)) →
  ∃ b, policy_capability_scan c process g l = Ok b ∧ (b = true ↔ ∃ k, Some k ∈ l ∧ capability_admits process g k).
Proof.
  intros Hu Hi Hs Hk. destruct (state_path_policy (bp_graph_node process) g Hu Hi) as (sb & Hsb & Hsiff).
  induction l as [|[k|] l IH].
  { exists false. split; [done|]. split; [done|]. intros (k & Hin & _). by apply elem_of_nil in Hin. }
  2: { destruct (Hs None) as [? ?]; [left|done]. }
  destruct IH as (b & Hb & Hiff); [intros o Ho; apply Hs; by right|intros k' Hk'; apply Hk; by right|].
  assert (Hcons : ∀ bk, (bk = true ↔ capability_admits process g k) →
    (bk || b = true ↔ ∃ k0, Some k0 ∈ Some k :: l ∧ capability_admits process g k0)).
  { intros bk Hbk. rewrite orb_true_iff, Hbk, Hiff. setoid_rewrite elem_of_cons. naive_solver. }
  cbn [policy_capability_scan]. unfold capability_admits in Hcons at 1.
  destruct (_ && _ && _) eqn:Hmatch; revert Hmatch.
  2: { rewrite <-not_true_iff_false. strings. rewrite (rights_within_le _ _ Hu (Hk k ltac:(left))). intros Hno.
       exists b. split; [done|]. apply (Hcons false). split; [done|]. intros (H1 & H2 & H3 & _). destruct Hno; done. }
  strings. rewrite (rights_within_le _ _ Hu (Hk k ltac:(left))). intros [[M1 M2] M3].
  destruct (decide _) as [[D1 D2]|D].
  - rewrite (proj2 (Z.eqb_eq _ _) D1), (proj2 (Z.eqb_eq _ _) D2). cbn [andb].
    destruct (_ && _) eqn:Hp.
    + exists true. split; [done|]. apply (Hcons true). split; [|done]. intros _. revert Hp. strings.
      rewrite provides_iff. naive_solver.
    + exists b. split; [done|]. apply (Hcons false). split; [done|]. intros (_ & _ & _ & H1 & H2).
      apply not_true_iff_false in Hp. destruct Hp. strings. by rewrite provides_iff.
  - rewrite (proj2 (andb_false_iff _ _)).
    2: { rewrite !Z.eqb_neq. destruct (decide (bg_object_kind g = BOOT_OBJECT_ENDPOINT)); [right|by left]. naive_solver. }
    destruct (boot_policy_requirement_allows _ _ _ _) eqn:Hreq.
    + apply (requirement_allows _ _ _ Hu) in Hreq. exists sb. split; [done|].
      destruct sb; [by apply (Hcons true); naive_solver|]. split; [done|].
      intros (k' & _ & _ & _ & _ & Hlast). rewrite decide_False in Hlast by done. by apply Hsiff, Hlast.
    + exists b. split; [done|]. apply (Hcons false). split; [done|]. intros (_ & _ & _ & Hex & _).
      apply (requirement_allows _ _ _ Hu) in Hex. by rewrite Hex in Hreq.
Qed.

Lemma ref_endpoint g :
  g ∈ entries (cf_grants c) → bg_object_kind g = BOOT_OBJECT_ENDPOINT → bg_object_index g < cn_used (cf_endpoints c).
Proof.
  intros Hg Hk. destruct (wf_grants _ Hwf) as [_ H]. destruct (H g Hg) as [_ Hv]. rewrite Hk in Hv.
  by apply Nat.ltb_lt in Hv.
Qed.
Lemma ref_vfs_root g :
  g ∈ entries (cf_grants c) → bg_object_kind g = BOOT_OBJECT_VFS_ROOT → bg_object_index g < cn_used (cf_vfs_roots c).
Proof.
  intros Hg Hk. destruct (wf_grants _ Hwf) as [_ H]. destruct (H g Hg) as [_ Hv]. rewrite Hk in Hv.
  by apply Nat.ltb_lt in Hv.
Qed.

Lemma grant_authorized_iff g :
  g ∈ entries (cf_grants c) →
  ∃ b, boot_grant_authorized_by_policy c g = Ok b ∧ (b = true ↔ grant_authorized c g).
Proof.
  intros Hg. pose proof (ru_grants _ Hr g Hg) as Hu. destruct (wf_grants _ Hwf) as [_ Hv].
  destruct (Hv g Hg) as [Hp _].
  destruct (config_entry_ok _ _ _ (sz_processes _ (wf_sizes _ Hwf)) Hp) as (process & Hpe & Hget & _).
  unfold boot_grant_authorized_by_policy. rewrite Hpe. cbn [res_bind].
  destruct (builtin_iff process g Hu (ref_endpoint g Hg)) as (bb & -> & Hbb). cbn [res_bind].
  destruct (scan_iff process g (counted (cf_policy_capabilities c)) Hu (ref_vfs_root g Hg)) as (sb & Hsb & Hsiff).
  { apply (counted_filled _ _ (sz_policy_capabilities _ (wf_sizes _ Hwf))). }
  { intros k Hk%some_in_counted. by apply (ru_capabilities _ Hr). }
  assert (Hspec : grant_authorized c g ↔ bb = true ∨ sb = true).
  { rewrite Hbb, Hsiff. unfold grant_authorized, declared_authorized, capability_admits. rewrite Hget.
    setoid_rewrite some_in_counted. naive_solver. }
  destruct bb; [exists true; naive_solver|]. exists sb. naive_solver.
Qed.
End authorised.

(** * Successful checks are silent *)

Definition silent {S A} (m : M S InitError A) : Prop := ∀ s a s', m s = (Ok a, s') → s' = s.

Lemma silent_ret {S A} (a : A) : silent (S:=S) (rret a).
Proof. by intros s b s' [= _ <-]. Qed.
Lemma silent_lift {S A} (r : Result InitError A) : silent (S:=S) (rlift r).
Proof. by intros s b s' [= _ <-]. Qed.
Lemma silent_guard {S} b e : silent (S:=S) (rguard b e).
Proof. intros s a s'. unfold rguard. case_match; by intros [=]. Qed.
Lemma silent_bind {S A B} (m : M S InitError A) (k : A → M S InitError B) :
  silent m → (∀ a, silent (k a)) → silent (rbind m k).
Proof.
  intros Hm Hk s b s'. unfold rbind. destruct (m s) as [[a|] s1] eqn:E; [|done].
  intros H%Hk. apply Hm in E. congruence.
Qed.
Lemma silent_deny {A} c source target rule reason : silent (deny (A:=A) c source target rule reason).
Proof. by intros s a s' [=]. Qed.
Lemma silent_each {A S} (f : list (option A) → A → M S InitError unit) l : ∀ prior,
  (∀ prior x, silent (f prior x)) → silent (each_from f prior l).
Proof.
  induction l as [|[x|] l IH]; intros prior Hf; [apply silent_ret| |by intros s a s' [=]].
  apply silent_bind; [done|]. intros _. by apply IH.
Qed.
Lemma silent_each_entry {A S} (f : list (option A) → A → M S InitError unit) c :
  (∀ prior x, silent (f prior x)) → silent (each_entry f c).
Proof. intros Hf. by apply silent_each. Qed.

Create HintDb silent.
#[export] Hint Resolve silent_ret silent_lift silent_guard silent_deny : silent.
Ltac silence := repeat first
  [ progress auto with silent | apply silent_bind; [|intros ?] | apply silent_each_entry; intros ? ?
  | apply silent_each; intros ? ? | case_match ].

Lemma silent_authority c service authority rule rights :
  silent (require_bootstrap_authority c service authority rule rights).
Proof. unfold require_bootstrap_authority. silence. Qed.
#[export] Hint Resolve silent_authority : silent.

Lemma silent_policy c : silent (validate_boot_config_policy c).
Proof.
  unfold validate_boot_config_policy, validate_bootstrap_authority_policy, check_policy_capability,
    check_policy_requirement, check_policy_provide, check_policy_mount, check_policy_state_path,
    check_policy_bootstrap, check_policy_grant, check_policy_process, check_mount_used, check_state_path_used,
    check_bootstrap_used. silence.
Qed.
Lemma silent_installable c : silent (validate_boot_config_installable c).
Proof.
  pose proof (silent_policy c). unfold validate_boot_config_installable, check_namespace, check_grant. silence.
Qed.

(** * What admission implies *)


(** The checks that passed when a configuration was admitted. *)
Record admitted (c : BootRuntimeConfig) : Prop := mk_admitted {
  ad_initial : ∃ i, initial_process_index c = Ok i ∧
    ∃ s s', each_entry (check_grant c i) (cf_grants c) s = (Ok tt, s');
  ad_objects : ∃ n, boot_config_object_count c = Some n ∧ (n ≤ Z.of_nat MAX_OBJECTS)%Z;
  ad_hardware : validate_boot_config_hardware_authority c = Ok tt;
  ad_grants : ∃ s s', each_entry (check_policy_grant c) (cf_grants c) s = (Ok tt, s');
  ad_processes : ∃ s s', each_entry (check_policy_process c) (cf_processes c) s = (Ok tt, s')
}.

Lemma installable_admitted c log log' :
  validate_boot_config_installable c log = (Ok tt, log') → admitted c.
Proof.
  unfold validate_boot_config_installable. intros H.
  apply rbind_ok in H as (? & ? & _ & H). apply rbind_ok in H as (? & ? & _ & H).
  apply rbind_ok in H as (? & ? & _ & H). apply rbind_ok in H as (? & ? & _ & H).
  apply rbind_ok in H as (? & ? & _ & H). apply rbind_ok in H as (i & ? & [Hi _]%rlift_ok & H).
  apply rbind_ok in H as (? & ? & _ & H). apply rbind_ok in H as (n & ? & [Hn _]%rlift_ok & H).
  apply rbind_ok in H as (? & ? & (Hle & _ & _)%rguard_ok & H). apply rbind_ok in H as ([] & ? & [Hhw _]%rlift_ok & H).
  apply rbind_ok in H as (? & ? & _ & H). apply rbind_ok in H as (? & ? & Hp & H).
  apply rbind_ok in H as (? & ? & _ & H). apply rbind_ok in H as (? & ? & _ & Hg).
  unfold validate_boot_config_policy in Hp. do 7 apply rbind_ok in Hp as (? & ? & _ & Hp).
  apply rbind_ok in Hp as ([] & ? & Hgr & Hp). apply rbind_ok in Hp as ([] & ? & Hpr & _).
  split; eauto. apply Z.leb_le in Hle. destruct (boot_config_object_count c); [|done]. injection Hn as ->. eauto.
Qed.

(** The verdict of a check that passed. *)
Lemma policy_grant_passed c log log' g :
  config_wf c → rights_u64 c → validate_boot_config_installable c log = (Ok tt, log') →
  g ∈ entries (cf_grants c) → grant_authorized c g.
Proof.
  intros Hwf Hr Hv Hg. destruct (ad_grants _ (installable_admitted _ _ _ Hv)) as (s & s' & Hrun).
  destruct (each_entry_ok _ _ _ _ _ _ Hrun Hg) as (i & s1 & s2 & _ & Hc). unfold check_policy_grant in Hc.
  apply rbind_ok in Hc as (b & s3 & [Hb ->]%rlift_ok & Hc).
  destruct (grant_authorized_iff c Hwf Hr g Hg) as (b' & Hb' & Hiff). rewrite Hb in Hb'. injection Hb' as <-.
  destruct b; [by apply Hiff|]. apply rbind_ok in Hc as (? & ? & _ & Hc). done.
Qed.

(** C35: The policy check decides the policy.  For every grant of a well-formed
    configuration [boot_grant_authorized_by_policy] answers without an error, and
    answers yes exactly when the grant is authorised: by a built-in rule that a
    bootstrap entry allows for that service and endpoint, or by a declared
    capability on the same object with at least these rights, which the service
    provides (to receive) or requires with at least these rights, and, for a VFS
    root that is the state directory [/state], the directory of a state volume or
    one in it, when every such volume is shared with the service and listed for it
    with this root and these rights. Any other root, [/] among them, needs no more
    than the declared capability, although the volumes lie below [/]. *)
Theorem policy_check_exact c g :
  config_wf c → rights_u64 c → g ∈ entries (cf_grants c) →
  is_ok (boot_grant_authorized_by_policy c g) = true ∧
  (boot_grant_authorized_by_policy c g = Ok true ↔ grant_authorized c g).
Proof.
  intros Hwf Hr Hg. destruct (grant_authorized_iff c Hwf Hr g Hg) as (b & -> & Hiff).
  split; [done|]. rewrite <-Hiff. naive_solver.
Qed.

(** C16: Only authorised grants are admitted.  When a configuration passes
    [validate_boot_config_installable], every grant in it is authorised by its
    policy, names a slot of the capability space, and no grant takes a slot the
    kernel reserves for the initial process; and no denial was logged. *)
Theorem admitted_grants_authorized c log log' :
  config_wf c → rights_u64 c → validate_boot_config_installable c log = (Ok tt, log') →
  log' = log ∧
  ∃ initial, initial_process_index c = Ok initial ∧
    ∀ g, g ∈ entries (cf_grants c) →
      grant_authorized c g ∧ (bg_cap_slot g < Z.of_nat MAX_CAPS)%Z ∧
      (bg_process_index g = initial → initial_process_reserved_cap_slot c (bg_cap_slot g) = false).
Proof.
  intros Hwf Hr Hv. split; [by apply (silent_installable c _ _ _ Hv)|].
  destruct (ad_initial _ (installable_admitted _ _ _ Hv)) as (i & Hi & s & s' & Hrun).
  exists i. split; [done|]. intros g Hg. split; [by eapply policy_grant_passed|].
  destruct (each_entry_ok _ _ _ _ _ _ Hrun Hg) as (j & s1 & s2 & _ & Hc). unfold check_grant in Hc.
  apply rbind_ok in Hc as (? & ? & _ & Hc). apply rbind_ok in Hc as (? & ? & ([H1 _]%andb_prop & _ & _)%rguard_ok & Hc).
  apply rbind_ok in Hc as (? & ? & (H2 & _ & _)%rguard_ok & _). split; [by apply Z.ltb_lt|].
  intros Hidx. apply negb_true_iff in H2. rewrite (proj2 (Nat.eqb_eq _ _) Hidx) in H2. done.
Qed.

(** C19: Directories of owner-only state volumes go to their owner.  In an admitted
    configuration a process that is granted the state directory [/state] as a VFS root,
    or the directory of an owner-only state volume or one below it, belongs to the
    service that owns the volume.  A grant of the root directory [/] is not bound by
    this. *)
Theorem owner_only_volumes_isolated c log log' g process root state :
  config_wf c → rights_u64 c → validate_boot_config_installable c log = (Ok tt, log') →
  g ∈ entries (cf_grants c) → bg_object_kind g = BOOT_OBJECT_VFS_ROOT →
  counted_get (cf_processes c) (bg_process_index g) = Some process →
  counted_get (cf_vfs_roots c) (bg_object_index g) = Some root →
  state ∈ entries (cf_state_volumes c) → svc_sharing_policy state = "owner-only" →
  root_in_state (bvr_root_path root) state → bp_graph_node process = svc_owner state.
Proof.
  intros Hwf Hr Hv Hg Hk Hp Hroot Hs Hpol Hb.
  destruct (policy_grant_passed c log log' g Hwf Hr Hv Hg) as (p' & Hp' & [Hbuiltin|Hdecl]);
    rewrite Hp in Hp'; injection Hp' as <-.
  - destruct Hbuiltin as [Hk' _]. by rewrite Hk in Hk'.
  - destruct Hdecl as (k & _ & _ & _ & _ & Hk'). rewrite decide_False in Hk' by (rewrite Hk; naive_solver).
    destruct Hk' as [_ Hst]. destruct (Hst Hk root Hroot state Hs Hb) as [Ho _]. by rewrite Ho.
Qed.

(** * Hardware *)

(** Half-open ranges of addresses. *)
Definition disjoint_ranges (b1 l1 b2 l2 : Z) : Prop := (b1 + l1 ≤ b2)%Z ∨ (b2 + l2 ≤ b1)%Z.

Lemma range_checked {A} (base len : A → Z) validate c s u s' x :
  each_entry (check_range base len validate) c s = (Ok u, s') → x ∈ entries c → validate x = Ok tt.
Proof.
  intros Hrun Hx. destruct (each_entry_ok _ _ _ _ _ _ Hrun Hx) as (i & s1 & s2 & _ & Hc).
  unfold check_range in Hc. by apply rbind_ok in Hc as ([] & ? & [Hv _]%rlift_ok & _).
Qed.
Lemma ranges_checked {A} (base len : A → Z) validate c s u s' i j x y :
  each_entry (check_range base len validate) c s = (Ok u, s') → i ≠ j →
  (∀ z, validate z = Ok tt → (len z ≠ 0)%Z) →
  counted c !! i = Some (Some x) → counted c !! j = Some (Some y) →
  disjoint_ranges (base x) (len x) (base y) (len y).
Proof.
  intros Hrun Hij Hlen Hi Hj.
  assert (Hone : ∀ i j x y, i < j → counted c !! i = Some (Some x) → counted c !! j = Some (Some y) →
    boot_ranges_overlap (base y) (len y) (base x) (len x) = Ok false).
  { intros i' j' x' y' Hlt Hx Hy. destruct (each_entry_pair _ _ _ _ _ _ _ _ _ Hrun Hlt Hx Hy) as (s1 & s2 & Hc & Hin).
    unfold check_range in Hc. apply rbind_ok in Hc as (? & ? & _ & Hc).
    apply rbind_ok in Hc as (b & ? & [Hb _]%rlift_ok & (Hc & _)%rguard_ok).
    destruct b; [done|]. by apply (any_entry_false _ _ Hb). }
  assert (Hne : ∀ i x, counted c !! i = Some (Some x) → (len x ≠ 0)%Z).
  { intros i' x' Hx. apply Hlen. eapply range_checked; [exact Hrun|]. apply some_in_counted, list_elem_of_lookup. eauto. }
  pose proof (Hne _ _ Hi). pose proof (Hne _ _ Hj).
  unfold disjoint_ranges. destruct (decide (i < j)) as [Hlt|Hge].
  - pose proof (Hone _ _ _ _ Hlt Hi Hj) as Ho. unfold boot_ranges_overlap, checked_add in Ho.
    repeat case_match; simplify_eq/=; lia.
  - pose proof (Hone j i y x ltac:(lia) Hj Hi) as Ho. unfold boot_ranges_overlap, checked_add in Ho.
    repeat case_match; simplify_eq/=; lia.
Qed.

Lemma io_range_ok base len : validate_io_boot_range base len = Ok tt → (len ≠ 0)%Z ∧ (base + len - 1 ≤ 65535)%Z.
Proof.
  unfold validate_io_boot_range, checked_add. intros H. apply res_bind_ok in H as (? & H1%res_guard_ok & H).
  apply res_bind_ok in H as (l & H2%ok_or_ok & H3%res_guard_ok). case_match; simplify_eq. lia.
Qed.
Lemma device_range_ok base len aligned :
  validate_device_boot_range base len aligned = Ok tt →
  (len ≠ 0)%Z ∧ (len ≤ USER_DEVICE_MAPPING_STRIDE)%Z ∧ (base + len - 1 ≤ u64_max)%Z ∧
  (aligned = true → base mod FRAME_SIZE = 0)%Z.
Proof.
  unfold validate_device_boot_range, checked_add. intros H. apply res_bind_ok in H as (? & H1%res_guard_ok & H).
  apply res_bind_ok in H as (l & H2%ok_or_ok & H3%res_guard_ok). case_match; simplify_eq.
  apply negb_true_iff, orb_false_iff in H1 as [H1 H1']. apply negb_true_iff in H3.
  split_and!; [lia|lia|lia|]. intros ->. cbn in H3. apply negb_false_iff in H3. lia.
Qed.

(** C36: Admitted hardware authority is exclusive.  In an admitted configuration
    two different I/O port ranges, MMIO regions or DMA regions never overlap and
    two interrupt lines differ; port ranges stay within 16 bits, lines within the
    legacy controller, and DMA regions are aligned frames of bounded length. *)
Theorem admitted_hardware_exclusive c log log' :
  validate_boot_config_installable c log = (Ok tt, log') →
  (∀ i j x y, i ≠ j → counted (cf_io_ports c) !! i = Some (Some x) → counted (cf_io_ports c) !! j = Some (Some y) →
     disjoint_ranges (bio_base x) (bio_length x) (bio_base y) (bio_length y)) ∧
  (∀ x, x ∈ entries (cf_io_ports c) → (bio_base x + bio_length x ≤ 65536)%Z) ∧
  (∀ i j x y, i ≠ j → counted (cf_mmio_regions c) !! i = Some (Some x) →
     counted (cf_mmio_regions c) !! j = Some (Some y) →
     disjoint_ranges (bmm_base x) (bmm_length x) (bmm_base y) (bmm_length y)) ∧
  (∀ i j x y, i ≠ j → counted (cf_dma_regions c) !! i = Some (Some x) →
     counted (cf_dma_regions c) !! j = Some (Some y) →
     disjoint_ranges (bdm_base x) (bdm_length x) (bdm_base y) (bdm_length y)) ∧
  (∀ x, x ∈ entries (cf_dma_regions c) → (bdm_base x mod FRAME_SIZE = 0)%Z ∧ (bdm_length x mod FRAME_SIZE = 0)%Z ∧
     (bdm_length x ≤ USER_DEVICE_MAPPING_STRIDE)%Z) ∧
  (∀ i j x y, i ≠ j → counted (cf_interrupt_lines c) !! i = Some (Some x) →
     counted (cf_interrupt_lines c) !! j = Some (Some y) → bil_line x ≠ bil_line y) ∧
  (∀ x, x ∈ entries (cf_interrupt_lines c) → (bil_line x ≤ 15)%Z).
Proof.
  intros Hv. pose proof (ad_hardware _ (installable_admitted _ _ _ Hv)) as Hhw.
  unfold validate_boot_config_hardware_authority in Hhw.
  match type of Hhw with fst ?r = _ => destruct r as [r0 s0] eqn:Hrun end. cbn in Hhw. subst r0.
  apply rbind_ok in Hrun as ([] & s1 & Hio & Hrun). apply rbind_ok in Hrun as ([] & s2 & Hmm & Hrun).
  apply rbind_ok in Hrun as ([] & s3 & Hirq & Hdma).
  split_and!.
  - intros i j x y Hij. apply (ranges_checked _ _ _ _ _ _ _ _ _ _ _ Hio Hij). by intros z [? _]%io_range_ok.
  - intros x Hx. apply (range_checked _ _ _ _ _ _ _ _ Hio) in Hx. apply io_range_ok in Hx. lia.
  - intros i j x y Hij. apply (ranges_checked _ _ _ _ _ _ _ _ _ _ _ Hmm Hij). by intros z [? _]%device_range_ok.
  - intros i j x y Hij. apply (ranges_checked _ _ _ _ _ _ _ _ _ _ _ Hdma Hij).
    intros z Hz. apply res_bind_ok in Hz as ([] & [? _]%device_range_ok & _). done.
  - intros x Hx. apply (range_checked _ _ _ _ _ _ _ _ Hdma) in Hx.
    apply res_bind_ok in Hx as ([] & (H1 & H2 & H3 & H4)%device_range_ok & H5%res_guard_ok).
    apply negb_true_iff, orb_false_iff in H5 as [H5%negb_false_iff _]. split_and!; [by apply H4|lia|done].
  - assert (Hone : ∀ i j x y, i < j → counted (cf_interrupt_lines c) !! i = Some (Some x) →
      counted (cf_interrupt_lines c) !! j = Some (Some y) → bil_line x ≠ bil_line y).
    { intros i j x y Hlt Hi Hj. destruct (each_entry_pair _ _ _ _ _ _ _ _ _ Hirq Hlt Hi Hj) as (t1 & t2 & Hc & Hin).
      unfold check_interrupt_line in Hc. apply rbind_ok in Hc as (? & ? & _ & Hc).
      apply rbind_ok in Hc as (b & ? & [Hb _]%rlift_ok & (Hc & _)%rguard_ok). destruct b; [done|].
      pose proof (any_entry_false _ _ Hb x Hin) as Hx. injection Hx. lia. }
    intros i j x y Hij Hi Hj. destruct (decide (i < j)); [by apply (Hone i j)|]. intros Heq.
    by apply (Hone j i y x ltac:(lia) Hj Hi).
  - intros x Hx. destruct (each_entry_ok _ _ _ _ _ _ Hirq Hx) as (i & t1 & t2 & _ & Hc).
    unfold check_interrupt_line in Hc. apply rbind_ok in Hc as (? & ? & (Hc & _)%rguard_ok & _). lia.
Qed.

(** * A configuration *)

Definition sample_process (name node : string) (initial : bool) : BootProcessConfig :=
  mkBootProcessConfig name node 4096 4096 initial 0 "/" (counted_new MAX_BOOT_PROCESS_MOUNTS).

(** Two services and two serial ports; [svc:app] owns a state volume and is
    granted its directory. *)
Definition sample_calls : list (Config unit) :=
  [rmodify (set_generation_id "gen-1"); rmodify (set_graph_store_hash (replicate 64 49%Z));
   rmodify (set_graph_store_source "store"); rmodify (set_policy_version BOOT_POLICY_VERSION);
   rmodify (set_policy_hash (replicate 64 49%Z));
   config_add_process (sample_process "init" "svc:init" true);
   config_add_process (sample_process "app" "svc:app" false);
   config_add_endpoint (mkBootEndpointConfig LOG_ENDPOINT_NAME);
   config_add_state_volume (mkBootStateVolumeConfig "state:a" "svc:app" "1" "vertexdisk-v1" "preserve"
     "retain-forever" "owner-only");
   config_add_io_port (mkBootIoPortRangeConfig "com1" 1016 8);
   config_add_io_port (mkBootIoPortRangeConfig "com2" 760 8);
   config_add_vfs_root (mkBootVfsRootConfig "vfs:a" "/state/a");
   config_add_graph_node (mkBootGraphNodeConfig GRAPH_NODE_GENERATION 0 "gen-1" "");
   config_add_graph_node (mkBootGraphNodeConfig GRAPH_NODE_SERVICE 0 "svc:init" "");
   config_add_graph_node (mkBootGraphNodeConfig GRAPH_NODE_SERVICE 0 "svc:app" "");
   config_add_grant (mkBootGrantConfig 1 3 BOOT_OBJECT_VFS_ROOT 0 RIGHT_READ);
   config_add_policy_capability (mkBootPolicyCapabilityConfig "cap:a" "svc:app" BOOT_OBJECT_VFS_ROOT 0 RIGHT_READ);
   config_add_policy_requirement (mkBootPolicyRequirementConfig "svc:app" "cap:a" RIGHT_READ);
   config_add_policy_mount (mkBootPolicyMountConfig "svc:init" "/" "" "" 0);
   config_add_policy_mount (mkBootPolicyMountConfig "svc:app" "/" "" "" 0);
   config_add_policy_state_path (mkBootPolicyStatePathConfig "svc:app" "state:a" "/state/a" RIGHT_READ);
   config_add_policy_bootstrap (mkBootPolicyBootstrapConfig "svc:init" "process-control" "initial-process-control"
     initial_process_control_rights);
   config_add_policy_bootstrap (mkBootPolicyBootstrapConfig "svc:init" "timer:monotonic-timer"
     "initial-restart-timer" RIGHT_CONTROL)].
Definition sample_config : BootRuntimeConfig := config_calls sample_calls boot_config_new.

Lemma sample_config_wf : config_wf sample_config.
Proof.
  apply config_calls_wf. repeat (apply Forall_cons; split; [intros c; econstructor; apply surjective_pairing|]).
  apply Forall_nil_2.
Qed.
Lemma sample_admitted :
  validate_boot_config_installable sample_config denial_log_new = (Ok tt, denial_log_new).
Proof. vm_compute. reflexivity. Qed.
Lemma sample_rights : rights_u64 sample_config.
Proof.
  split; intros x Hx; vm_compute in Hx;
    repeat (apply elem_of_cons in Hx as [->|Hx]; [vm_compute; split; discriminate|]); by apply elem_of_nil in Hx.
Qed.

Definition sample_grant : BootGrantConfig := mkBootGrantConfig 1 3 BOOT_OBJECT_VFS_ROOT 0 RIGHT_READ.
Lemma sample_grant_in : sample_grant ∈ entries (cf_grants sample_config).
Proof. replace (entries (cf_grants sample_config)) with [sample_grant] by (vm_compute; reflexivity). left. Qed.

(** Witness of [policy_check_exact]. *)
Lemma policy_check_exact_witness :
  boot_grant_authorized_by_policy sample_config sample_grant = Ok true ∧ grant_authorized sample_config sample_grant.
Proof.
  assert (H : boot_grant_authorized_by_policy sample_config sample_grant = Ok true) by (vm_compute; reflexivity).
  split; [exact H|].
  apply (policy_check_exact sample_config sample_grant sample_config_wf sample_rights sample_grant_in). exact H.
Defined.

(** Witness of [admitted_grants_authorized]. *)
Lemma admitted_grants_authorized_witness : grant_authorized sample_config sample_grant.
Proof.
  destruct (admitted_grants_authorized sample_config denial_log_new denial_log_new sample_config_wf sample_rights
              sample_admitted) as (_ & i & _ & H).
  apply H. exact sample_grant_in.
Defined.

(** Witness of [owner_only_volumes_isolated]. *)
Lemma owner_only_volumes_isolated_witness :
  let process := sample_process "app" "svc:app" false in
  let root := mkBootVfsRootConfig "vfs:a" "/state/a" in
  let state := mkBootStateVolumeConfig "state:a" "svc:app" "1" "vertexdisk-v1" "preserve" "retain-forever"
                 "owner-only" in
  root_in_state (bvr_root_path root) state ∧ bp_graph_node process = svc_owner state.
Proof.
  intros process root state.
  assert (Hb : root_in_state (bvr_root_path root) state).
  { right. exists "a"%string. split; [vm_compute; reflexivity|]. left. reflexivity. }
  split; [exact Hb|].
  apply (owner_only_volumes_isolated sample_config denial_log_new denial_log_new sample_grant process root state
           sample_config_wf sample_rights sample_admitted sample_grant_in);
    [reflexivity|vm_compute; reflexivity|vm_compute; reflexivity| |reflexivity|exact Hb].
  replace (entries (cf_state_volumes sample_config)) with [state] by (vm_compute; reflexivity). left.
Defined.

(** Witness of [admitted_hardware_exclusive]. *)
Lemma admitted_hardware_exclusive_witness : disjoint_ranges 1016 8 760 8.
Proof.
  destruct (admitted_hardware_exclusive sample_config denial_log_new denial_log_new sample_admitted) as (H & _).
  apply (H 0 1 (mkBootIoPortRangeConfig "com1" 1016 8) (mkBootIoPortRangeConfig "com2" 760 8));
    [discriminate|vm_compute; reflexivity|vm_compute; reflexivity].
Defined.

(** The same configuration, with the root directory granted to [svc:init]. *)
Definition root_grant : BootGrantConfig := mkBootGrantConfig 0 5 BOOT_OBJECT_VFS_ROOT 1 RIGHT_READ.
Definition root_config : BootRuntimeConfig := config_calls
  (sample_calls ++
   [config_add_vfs_root (mkBootVfsRootConfig "vfs:root" "/"); config_add_grant root_grant;
    config_add_policy_capability (mkBootPolicyCapabilityConfig "cap:root" "svc:init" BOOT_OBJECT_VFS_ROOT 1 RIGHT_READ);
    config_add_policy_requirement (mkBootPolicyRequirementConfig "svc:init" "cap:root" RIGHT_READ)]) boot_config_new.

(** The isolation of state volumes ends at the root directory.  There is an
    admitted configuration in which a service that does not own an owner-only
    state volume is granted the VFS root [/]: the policy does not count it as
    covering the volume, while the path authority of the VFS does. *)
Theorem root_grant_escapes_isolation :
  validate_boot_config_installable root_config denial_log_new = (Ok tt, denial_log_new) ∧
  ∃ process root state,
    root_grant ∈ entries (cf_grants root_config) ∧
    counted_get (cf_processes root_config) (bg_process_index root_grant) = Some process ∧
    counted_get (cf_vfs_roots root_config) (bg_object_index root_grant) = Some root ∧
    state ∈ entries (cf_state_volumes root_config) ∧ svc_sharing_policy state = "owner-only" ∧
    svc_owner state ≠ bp_graph_node process ∧
    boot_state_volume_covered_by_root_path (bvr_root_path root) state = Ok false ∧
    vfs_authority_path_covers (string_bytes (bvr_root_path root)) (string_bytes "/state/a") = true.
Proof.
  split; [vm_compute; reflexivity|].
  exists (sample_process "init" "svc:init" true), (mkBootVfsRootConfig "vfs:root" "/"),
    (mkBootStateVolumeConfig "state:a" "svc:app" "1" "vertexdisk-v1" "preserve" "retain-forever" "owner-only").
  split_and!; try (vm_compute; reflexivity); [vm_compute; right; left|vm_compute; left|discriminate].
Qed.

(** * The log of denials *)

(** A denial, and the record of the [i]-th one. *)
Record Denial := mkDenial {
  dn_generation : string; dn_hash : list byte; dn_source : string; dn_target : string; dn_rule : string;
  dn_reason : string }.
Definition record_denial (log : PolicyDenialLog) (d : Denial) : PolicyDenialLog :=
  denial_log_record (dn_generation d) (dn_hash d) (dn_source d) (dn_target d) (dn_rule d) (dn_reason d) log.
Definition denial_record (i : nat) (d : Denial) : PolicyDenialRecord :=
  denial_record_new (Z.min (Z.of_nat i + 1) u64_max) (dn_generation d) (dn_hash d) (dn_source d) (dn_target d)
    (dn_rule d) (dn_reason d).

(** The log after the records [h]. *)
Record log_holds (h : list PolicyDenialRecord) (log : PolicyDenialLog) : Prop := mk_log_holds {
  lh_length : length (dl_records log) = MAX_POLICY_DENIAL_RECORDS;
  lh_count : dl_count log = Nat.min (length h) MAX_POLICY_DENIAL_RECORDS;
  lh_next : dl_next log = length h mod MAX_POLICY_DENIAL_RECORDS;
  lh_sequence : dl_sequence log = Z.min (Z.of_nat (length h)) u64_max;
  lh_records : ∀ i, i < length h → length h ≤ i + MAX_POLICY_DENIAL_RECORDS →
    dl_records log !! (i mod MAX_POLICY_DENIAL_RECORDS) = h !! i
}.

Lemma mod_window a b : a < b → b < a + 8 → a mod 8 ≠ b mod 8.
Proof. intros H1 H2 H. pose proof (Nat.div_mod a 8). pose proof (Nat.div_mod b 8). nia. Qed.

Lemma log_holds_record h log d :
  log_holds h log → log_holds (h ++ [denial_record (length h) d]) (record_denial log d).
Proof.
  intros [L1 L2 L3 L4 L5]. unfold record_denial, denial_log_record. unfold MAX_POLICY_DENIAL_RECORDS in *.
  assert (Hb : length h mod 8 < 8) by (apply Nat.mod_upper_bound; lia).
  assert (Hseq : sat_add (dl_sequence log) 1 = Z.min (Z.of_nat (length h) + 1) u64_max).
  { unfold sat_add, u64_max in *. lia. }
  split; unfold MAX_POLICY_DENIAL_RECORDS; cbn [dl_records dl_count dl_next dl_sequence]; rewrite ?length_insert, ?length_app, ?Hseq; cbn [length].
  - done.
  - destruct (Nat.ltb_spec (dl_count log) 8); lia.
  - rewrite L3. replace (length h + 1) with (S (length h)) by lia.
    rewrite <-(Nat.add_1_r (length h mod 8)), <-(Nat.add_1_r (length h)). by rewrite Nat.Div0.add_mod_idemp_l.
  - unfold u64_max. lia.
  - intros i Hi Hw. rewrite L3. destruct (decide (i = length h)) as [->|Hne].
    + rewrite list_lookup_insert_eq by lia. rewrite lookup_app_r by lia. rewrite Nat.sub_diag. done.
    + rewrite list_lookup_insert_ne by (apply not_eq_sym, mod_window; lia).
      rewrite lookup_app_l by lia. apply L5; lia.
Qed.

Lemma log_holds_all ds : log_holds (imap denial_record ds) (foldl record_denial denial_log_new ds).
Proof.
  induction ds as [|d ds IH] using rev_ind; [split; try done; cbn; lia|].
  rewrite foldl_app, imap_app. cbn [foldl imap]. pose proof (log_holds_record _ _ d IH) as H.
  rewrite length_imap in H. unfold compose. by rewrite Nat.add_0_r.
Qed.

(** The denial log keeps the last eight denials.  After any sequence of
    denials [record_at] returns the last [MAX_POLICY_DENIAL_RECORDS] of them,
    oldest first and numbered from the start, and nothing else. *)
Theorem denial_log_keeps_last ds offset :
  denial_record_at (foldl record_denial denial_log_new ds) offset =
  drop (length ds - MAX_POLICY_DENIAL_RECORDS) (imap denial_record ds) !! offset.
Proof.
  destruct (log_holds_all ds) as [L1 L2 L3 _ L5]. rewrite !length_imap in *. set (log := foldl _ _ ds) in *.
  unfold denial_record_at. rewrite L2, L3, lookup_drop. unfold MAX_POLICY_DENIAL_RECORDS in *.
  destruct (Nat.leb_spec (Nat.min (length ds) 8) offset) as [Hge|Hlt].
  { symmetry. apply lookup_ge_None_2. rewrite length_imap. lia. }
  rewrite <-L5 by lia. f_equal. destruct (Nat.eqb_spec (Nat.min (length ds) 8) 8) as [H8|H8].
  - rewrite Nat.Div0.add_mod_idemp_l. replace (length ds + offset) with (length ds - 8 + offset + 1 * 8) by lia.
    by rewrite Nat.Div0.mod_add.
  - by replace (length ds - 8 + offset) with (0 + offset) by lia.
Qed.
