(* ===== verification/CapRegistry.v ===== *)
(** The capability registry of [RuntimeState] ([ipc/runtime_state.rs]): fresh
    identifiers, the derivation lineage and the set of revoked identifiers. *)

From S2P Require Import Prelude KernelBase ProcessRuntime.
From stdpp Require Import relations.

Record CapabilityLineage := mkCapabilityLineage { cl_cap_id : Z; cl_parent : Z }.

(** The fields [next_cap_id], [revoked_caps], [revoked_cap_count],
    [cap_lineage] and [cap_lineage_count] of [RuntimeState]. *)
Record CapRegistry := mkCapRegistry {
  next_cap_id : Z;
  revoked_caps : list Z;
  revoked_cap_count : nat;
  cap_lineage : list (option CapabilityLineage);
  cap_lineage_count : nat
}.
#[export] Instance eta_CapRegistry : Eta CapRegistry := λ r,
  mkCapRegistry (next_cap_id r) (revoked_caps r) (revoked_cap_count r) (cap_lineage r)
    (cap_lineage_count r).

(** The registry's part of [RuntimeState::new]. *)
Definition registry_new : CapRegistry :=
  mkCapRegistry 1 (replicate MAX_REVOKED_CAPS 0%Z) 0 (replicate MAX_CAP_LINEAGE None) 0.

(** The registry's part of [RuntimeState::reset_capability_lifecycle]. *)
Definition registry_reset (r : CapRegistry) : CapRegistry :=
  r <| next_cap_id := 1%Z |>
    <| revoked_cap_count := 0 |>
    <| cap_lineage_count := 0 |>
    <| revoked_caps ::= λ l, map_upto (λ _, 0%Z) l (length l) |>
    <| cap_lineage ::= λ l, map_upto (λ _, None) l (length l) |>.

(** [RuntimeState::can_allocate_capability]. *)
Definition can_allocate_capability (r : CapRegistry) : bool :=
  negb (next_cap_id r =? 0)%Z && negb (next_cap_id r =? u64_max)%Z &&
  (cap_lineage_count r <? length (cap_lineage r)).

(** [RuntimeState::record_cap_lineage]. *)
Definition record_cap_lineage (r : CapRegistry) (cap_id parent_cap_id : Z) :
    Result IpcError unit * CapRegistry :=
  if cap_lineage_count r =? length (cap_lineage r) then (Err BadCapability, r)
  else
    (Ok tt,
     r <| cap_lineage ::= <[cap_lineage_count r :=
            Some (mkCapabilityLineage cap_id parent_cap_id)]> |>
       <| cap_lineage_count := S (cap_lineage_count r) |>).

(** [RuntimeState::new_capability]; [generation_id] is the runtime's. *)
Definition new_capability (generation_id : string) (r : CapRegistry) (object : KernelObjectId)
    (rights : Z) (owner_process : ProcessId) (parent_cap_id : Z) (delegated_by : ProcessId) :
    Result IpcError Capability * CapRegistry :=
  if (next_cap_id r =? 0)%Z || (next_cap_id r =? u64_max)%Z then (Err BadCapability, r)
  else
    let cap_id := next_cap_id r in
    match record_cap_lineage r cap_id parent_cap_id with
    | (Err e, r1) => (Err e, r1)
    | (Ok _, r1) =>
        (Ok (mkCapability cap_id object rights owner_process parent_cap_id generation_id
               delegated_by false),
         r1 <| next_cap_id := (cap_id + 1)%Z |>)
    end.

(** [RuntimeState::rollback_last_capability]. *)
Definition rollback_last_capability (r : CapRegistry) (cap : Capability) : CapRegistry :=
  let r1 := if (next_cap_id r =? sat_add (c_id cap) 1)%Z
            then r <| next_cap_id := c_id cap |> else r in
  match cap_lineage_count r1 with
  | 0 => r1
  | S n =>
      match cap_lineage r1 !! n with
      | Some (Some lineage) =>
          if (cl_cap_id lineage =? c_id cap)%Z
          then r1 <| cap_lineage_count := n |> <| cap_lineage ::= <[n := None]> |>
          else r1
      | _ => r1
      end
  end.

(** [RuntimeState::cap_parent_from_lineage], the same scan as
    [RuntimeState::cap_parent_id]. *)
Definition cap_parent_from_lineage (r : CapRegistry) (cap_id : Z) : option Z :=
  first_some (λ o, match o with
                   | Some lineage => if (cl_cap_id lineage =? cap_id)%Z
                                     then Some (cl_parent lineage) else None
                   | None => None
                   end) (cap_lineage r) (cap_lineage_count r).

(** [RuntimeState::cap_id_revoked]. *)
Definition cap_id_revoked (r : CapRegistry) (cap_id : Z) : bool :=
  match first_index (λ x, (x =? cap_id)%Z) (revoked_caps r) (revoked_cap_count r) with
  | Some _ => true
  | None => false
  end.

(** [RuntimeState::add_revoked_cap]. *)
Definition add_revoked_cap (r : CapRegistry) (cap_id : Z) : Result IpcError bool * CapRegistry :=
  if (cap_id =? 0)%Z || cap_id_revoked r cap_id then (Ok false, r)
  else if revoked_cap_count r =? length (revoked_caps r) then (Err BadCapability, r)
  else
    (Ok true,
     r <| revoked_caps ::= <[revoked_cap_count r := cap_id]> |>
       <| revoked_cap_count := S (revoked_cap_count r) |>).

(** One pass of the inner loop of [revoke_cap_id], over the [fuel] entries
    left from [index]; the flag is [changed]. *)
Fixpoint revoke_pass (r : CapRegistry) (index fuel : nat) (changed : bool) :
    Result IpcError bool * CapRegistry :=
  match fuel with
  | 0 => (Ok changed, r)
  | S fuel' =>
      match mjoin (cap_lineage r !! index) with
      | Some lineage =>
          if negb (cl_parent lineage =? 0)%Z && cap_id_revoked r (cl_parent lineage)
          then match add_revoked_cap r (cl_cap_id lineage) with
               | (Err e, r1) => (Err e, r1)
               | (Ok added, r1) => revoke_pass r1 (S index) fuel' (changed || added)
               end
          else revoke_pass r (S index) fuel' changed
      | None => revoke_pass r (S index) fuel' changed
      end
  end.

(** The [while changed] loop of [revoke_cap_id]; [None] when [fuel] passes do
    not reach the end of the loop. *)
Fixpoint revoke_loop (fuel : nat) (r : CapRegistry) : option (Result IpcError unit * CapRegistry) :=
  match fuel with
  | 0 => None
  | S fuel' =>
      match revoke_pass r 0 (cap_lineage_count r) false with
      | (Err e, r1) => Some (Err e, r1)
      | (Ok true, r1) => revoke_loop fuel' r1
      | (Ok false, r1) => Some (Ok tt, r1)
      end
  end.

(** A changing pass adds an identifier to the revoked ones, so there are at
    most as many as the array has room for, and one pass without change. *)
Definition revoke_fuel : nat := S MAX_REVOKED_CAPS.

(** [RuntimeState::revoke_cap_id] up to its call of [mark_all_revoked_caps]. *)
Definition revoke_cap_id (r : CapRegistry) (cap_id : Z) : Result IpcError unit * CapRegistry :=
  if (cap_id =? 0)%Z then (Err BadCapability, r)
  else
    match add_revoked_cap r cap_id with
    | (Err e, r1) => (Err e, r1)
    | (Ok _, r1) => default (Err BadCapability, r1) (revoke_loop revoke_fuel r1)
    end.

(** The loop of [cap_id_revoked_or_has_revoked_ancestor] and, with another
    [parent] function, of [capability_has_revoked_ancestor]: [None] when
    [fuel] rounds do not reach its end. *)
Fixpoint ancestor_walk (parent : Z → option Z) (r : CapRegistry) (fuel : nat) (current : Z) :
    option bool :=
  match fuel with
  | 0 => None
  | S fuel' =>
      if (current =? 0)%Z then Some false
      else if cap_id_revoked r current then Some true
      else match parent current with
           | None => Some false
           | Some p => ancestor_walk parent r fuel' p
           end
  end.

(** Identifiers only decrease along the walk and are bounded by the number of
    lineage entries. *)
Definition walk_fuel (r : CapRegistry) : nat := cap_lineage_count r + 2.

(** [RuntimeState::cap_id_revoked_or_has_revoked_ancestor]. *)
Definition cap_id_revoked_or_has_revoked_ancestor (r : CapRegistry) (cap_id : Z) : bool :=
  default true (ancestor_walk (cap_parent_from_lineage r) r (walk_fuel r) cap_id).

(** * Invariant *)

(** The lineage entries in use, as a list of parents: entry [i] describes
    identifier [i + 1]. *)
Record registry_wf (r : CapRegistry) : Prop := mk_registry_wf {
  rw_lineage_length : length (cap_lineage r) = MAX_CAP_LINEAGE;
  rw_lineage_count : cap_lineage_count r ≤ MAX_CAP_LINEAGE;
  rw_next : next_cap_id r = (Z.of_nat (cap_lineage_count r) + 1)%Z;
  rw_entry i : i < cap_lineage_count r →
    ∃ p, cap_lineage r !! i = Some (Some (mkCapabilityLineage (Z.of_nat i + 1) p)) ∧
         (0 ≤ p ≤ Z.of_nat i)%Z;
  rw_revoked_length : length (revoked_caps r) = MAX_REVOKED_CAPS;
  rw_revoked_count : revoked_cap_count r ≤ MAX_REVOKED_CAPS;
  rw_revoked_range : Forall (λ x, (1 ≤ x < next_cap_id r)%Z)
                       (take (revoked_cap_count r) (revoked_caps r));
  rw_revoked_nodup : NoDup (take (revoked_cap_count r) (revoked_caps r))
}.

(** Identifiers in use. *)
Definition known_cap (r : CapRegistry) (cap_id : Z) : Prop := (1 ≤ cap_id < next_cap_id r)%Z.

(** The edges of the derivation forest: [p] is the parent of [c]. *)
Definition derived_from (r : CapRegistry) (c p : Z) : Prop :=
  cap_parent_from_lineage r c = Some p ∧ p ≠ 0%Z.

Definition revoked (r : CapRegistry) (cap_id : Z) : Prop := cap_id_revoked r cap_id = true.

(** Children of revoked capabilities are revoked. *)
Definition revocation_closed (r : CapRegistry) : Prop :=
  ∀ c p, derived_from r c p → revoked r p → revoked r c.

(** * Basic facts *)

Lemma revoked_elem r id :
  revoked r id ↔ id ∈ take (revoked_cap_count r) (revoked_caps r).
Proof.
  unfold revoked, cap_id_revoked. rewrite list_elem_of_lookup. split.
  - destruct (first_index _ _ _) as [i|] eqn:Hi; [|done]. intros _.
    apply first_index_Some in Hi as (Hlt & (x & Hx & ->%Z.eqb_eq) & _).
    exists i. by rewrite lookup_take_lt.
  - intros (i & Hi). apply lookup_take_Some in Hi as [Hi Hlt].
    destruct (first_index _ _ _) eqn:Hn; [done|].
    pose proof (proj1 (first_index_None _ _ _) Hn i id Hlt Hi) as Hc. cbn in Hc. lia.
Qed.

#[export] Instance revoked_dec r id : Decision (revoked r id).
Proof. unfold revoked. apply _. Defined.

Section wf.
Context (r : CapRegistry) (Hwf : registry_wf r).

Lemma revoked_known id : revoked r id → known_cap r id.
Proof using Hwf.
  intros Hr%revoked_elem. exact (proj1 (Forall_forall _ _) (rw_revoked_range r Hwf) id Hr).
Qed.

Lemma parent_lookup c p :
  cap_parent_from_lineage r c = Some p ↔
  ∃ i, i < cap_lineage_count r ∧ c = (Z.of_nat i + 1)%Z ∧
       cap_lineage r !! i = Some (Some (mkCapabilityLineage c p)).
Proof using Hwf.
  unfold cap_parent_from_lineage. rewrite first_some_Some. split.
  - intros (i & o & Hi & Ho & Hp & _). destruct (rw_entry r Hwf i Hi) as (q & Hq & _).
    rewrite Hq in Ho. simplify_eq/=. destruct (Z.eqb_spec (Z.of_nat i + 1) c) as [<-|]; [|done].
    simplify_eq. eauto.
  - intros (i & Hi & -> & Hl). exists i, (Some (mkCapabilityLineage (Z.of_nat i + 1) p)).
    cbn. rewrite Z.eqb_refl. split_and!; [done..|].
    intros j o Hj Ho. destruct (rw_entry r Hwf j ltac:(lia)) as (q & Hq & _).
    rewrite Hq in Ho. simplify_eq/=. destruct (Z.eqb_spec (Z.of_nat j + 1) (Z.of_nat i + 1)); [lia|done].
Qed.

Lemma parent_bounds c p :
  cap_parent_from_lineage r c = Some p → (0 ≤ p < c)%Z ∧ known_cap r c.
Proof using Hwf.
  intros (i & Hi & -> & Hl)%parent_lookup. destruct (rw_entry r Hwf i Hi) as (q & Hq & Hb).
  simplify_eq. unfold known_cap. rewrite (rw_next r Hwf). lia.
Qed.

Lemma parent_of_known c :
  known_cap r c → ∃ p, cap_parent_from_lineage r c = Some p.
Proof using Hwf.
  unfold known_cap. rewrite (rw_next r Hwf). intros Hc.
  set (i := Z.to_nat (c - 1)). destruct (rw_entry r Hwf i ltac:(lia)) as (p & Hp & _).
  exists p. apply parent_lookup. exists i. replace (Z.of_nat i + 1)%Z with c in Hp by lia.
  split_and!; [lia|lia|done].
Qed.

Lemma derived_from_lt c p : derived_from r c p → (1 ≤ p < c)%Z ∧ known_cap r c ∧ known_cap r p.
Proof using Hwf.
  intros [Hp Hne]. destruct (parent_bounds c p Hp) as [Hb Hk]. unfold known_cap in *. lia.
Qed.

Lemma ancestor_le c a : rtc (derived_from r) c a → (0 ≤ c → 0 ≤ a ≤ c)%Z.
Proof using Hwf. induction 1 as [|x y z [? _]%derived_from_lt _ IH]; lia. Qed.

(** The walk ends and decides whether a capability or an ancestor of it is
    revoked. *)
Lemma ancestor_walk_decides cur fuel :
  (0 ≤ cur)%Z → Z.to_nat cur + 1 ≤ fuel ∨ walk_fuel r ≤ fuel →
  ∃ b, ancestor_walk (cap_parent_from_lineage r) r fuel cur = Some b ∧
       (b = true ↔ ∃ a, rtc (derived_from r) cur a ∧ revoked r a).
Proof using Hwf.
  revert cur. induction fuel as [|fuel IH]; intros cur H0 Hf.
  { unfold walk_fuel in Hf. lia. }
  cbn [ancestor_walk]. destruct (Z.eqb_spec cur 0) as [->|Hne].
  { exists false. split; [done|]. split; [done|]. intros (a & Ha & Hr).
    apply ancestor_le in Ha; [|done]. apply revoked_known in Hr. unfold known_cap in Hr. lia. }
  destruct (cap_id_revoked r cur) eqn:Hr.
  { exists true. split; [done|]. split; [|done]. intros _. exists cur. by split; [apply rtc_refl|]. }
  assert (Hself : ∀ a, rtc (derived_from r) cur a → revoked r a →
            ∃ p, derived_from r cur p ∧ rtc (derived_from r) p a).
  { intros a Ha Hra. inversion Ha as [|x p z Hp Hpa]; subst; [|eauto].
    unfold revoked in Hra. congruence. }
  destruct (cap_parent_from_lineage r cur) as [p|] eqn:Hp.
  - destruct (parent_bounds cur p Hp) as [Hb Hk].
    destruct (IH p ltac:(lia)) as (b & Hw & Hb').
    { unfold known_cap in Hk. rewrite (rw_next r Hwf) in Hk. unfold walk_fuel in Hf. lia. }
    exists b. split; [done|]. rewrite Hb'. split.
    + intros (a & Ha & Hra). exists a. split; [|done].
      destruct (decide (p = 0%Z)) as [->|Hp0]; [|eapply rtc_l; [split|]; eauto].
      apply ancestor_le in Ha; [|done]. apply revoked_known in Hra. unfold known_cap in Hra. lia.
    + intros (a & Ha & Hra). destruct (Hself a Ha Hra) as (q & [Hq _] & Hqa).
      simplify_eq. eauto.
  - exists false. split; [done|]. split; [done|]. intros (a & Ha & Hra).
    destruct (Hself a Ha Hra) as (q & [Hq _] & _). congruence.
Qed.

(** Under a closed revoked set the walk agrees with the direct test. *)
Lemma closed_ancestor c a :
  revocation_closed r → rtc (derived_from r) c a → revoked r a → revoked r c.
Proof using. intros Hc. induction 1; eauto. Qed.
End wf.

(** * Fresh capabilities *)

Lemma registry_new_wf : registry_wf registry_new ∧ revocation_closed registry_new.
Proof.
  split.
  - split; cbn -[replicate MAX_CAP_LINEAGE MAX_REVOKED_CAPS];
      rewrite ?length_replicate; try done; try lia; constructor.
  - intros c p [H _] _. done.
Qed.

Lemma new_capability_spec gen r object rights owner parent by_ :
  registry_wf r →
  match new_capability gen r object rights owner parent by_ with
  | (Ok cap, r') =>
      cap = mkCapability (next_cap_id r) object rights owner parent gen by_ false ∧
      cap_lineage_count r < MAX_CAP_LINEAGE ∧
      r' = r <| cap_lineage ::= <[cap_lineage_count r :=
                  Some (mkCapabilityLineage (next_cap_id r) parent)]> |>
             <| cap_lineage_count := S (cap_lineage_count r) |>
             <| next_cap_id := (next_cap_id r + 1)%Z |>
  | (Err e, r') => r' = r ∧ e = BadCapability ∧ cap_lineage_count r = MAX_CAP_LINEAGE
  end.
Proof.
  intros Hwf. pose proof Hwf as [Hl Hc Hn _ _ _ _ _]. unfold new_capability, record_cap_lineage.
  rewrite (proj2 (Z.eqb_neq (next_cap_id r) 0)) by lia.
  rewrite (proj2 (Z.eqb_neq (next_cap_id r) u64_max))
    by (unfold u64_max, MAX_CAP_LINEAGE in *; lia). cbn [orb].
  destruct (Nat.eqb_spec (cap_lineage_count r) (length (cap_lineage r))) as [Hf|Hf].
  - split_and!; [done|done|lia].
  - split_and!; [done|lia|done].
Qed.

(** A new capability keeps the registry well formed, does not change which
    capabilities are revoked, and only adds its own edge to the forest. *)
Lemma new_capability_wf gen r object rights owner parent by_ cap r' :
  registry_wf r → (0 ≤ parent < next_cap_id r)%Z →
  new_capability gen r object rights owner parent by_ = (Ok cap, r') →
  registry_wf r' ∧ next_cap_id r' = (next_cap_id r + 1)%Z ∧
  (∀ x, revoked r' x ↔ revoked r x) ∧
  (∀ c, cap_parent_from_lineage r' c =
        if decide (c = next_cap_id r) then Some parent else cap_parent_from_lineage r c).
Proof.
  intros Hwf Hpar Hnew. pose proof (new_capability_spec gen r object rights owner parent by_ Hwf) as H.
  rewrite Hnew in H. destruct H as (_ & Hlt & ->). pose proof Hwf as [Hl Hc Hn He Hrl Hrc Hrr Hrn].
  set (r' := _ <| next_cap_id := _ |>).
  assert (Hget : ∀ i, cap_lineage r' !! i =
    if decide (i = cap_lineage_count r)
    then Some (Some (mkCapabilityLineage (next_cap_id r) parent)) else cap_lineage r !! i).
  { intros i. unfold r', set; cbn. case_decide; subst.
    - by rewrite list_lookup_insert_eq by lia.
    - by rewrite list_lookup_insert_ne. }
  assert (Hwf' : registry_wf r').
  { split; try done.
    - unfold r', set; cbn. by rewrite length_insert.
    - change (next_cap_id r') with (next_cap_id r + 1)%Z.
      change (cap_lineage_count r') with (S (cap_lineage_count r)). lia.
    - intros i Hi. change (cap_lineage_count r') with (S (cap_lineage_count r)) in Hi.
      rewrite Hget. case_decide as Hd.
      + subst i. exists parent. rewrite <-Hn. split; [done|lia].
      + apply He. lia.
    - change (next_cap_id r') with (next_cap_id r + 1)%Z.
      eapply Forall_impl; [exact Hrr|]. cbn. intros x ?. lia. }
  split_and!; [done|done|done|]. intros c. apply option_eq; intros p.
  rewrite parent_lookup by done. change (cap_lineage_count r') with (S (cap_lineage_count r)).
  setoid_rewrite Hget. case_decide as Hd.
  - subst c. split.
    + intros (i & Hi & Hc' & Hg). assert (i = cap_lineage_count r) as -> by lia.
      rewrite decide_True in Hg by done. by simplify_eq.
    + intros [= <-]. exists (cap_lineage_count r). rewrite decide_True by done.
      split_and!; [lia|lia|done].
  - rewrite parent_lookup by done. split; intros (i & Hi & Hc' & Hg); exists i.
    + rewrite decide_False in Hg by lia. split_and!; [lia|done|done].
    + rewrite decide_False by lia. split_and!; [lia|done|done].
Qed.

Lemma new_capability_closed gen r object rights owner parent by_ cap r' :
  registry_wf r → revocation_closed r → (0 ≤ parent < next_cap_id r)%Z → ¬ revoked r parent →
  new_capability gen r object rights owner parent by_ = (Ok cap, r') → revocation_closed r'.
Proof.
  intros Hwf Hcl Hpar Hlive Hnew.
  destruct (new_capability_wf _ _ _ _ _ _ _ _ _ Hwf Hpar Hnew) as (_ & _ & Hrev & Hparent).
  intros c p [Hp Hp0] Hr. rewrite Hparent in Hp. apply Hrev. apply Hrev in Hr.
  case_decide; [by simplify_eq|]. apply (Hcl c p); [by split|done].
Qed.

(** Rolling back the capability made last undoes [new_capability]. *)
Lemma rollback_new_capability gen r object rights owner parent by_ cap r' :
  registry_wf r → cap_lineage r !! cap_lineage_count r = Some None →
  new_capability gen r object rights owner parent by_ = (Ok cap, r') →
  rollback_last_capability r' cap = r.
Proof.
  intros Hwf Hfree Hnew. pose proof (new_capability_spec gen r object rights owner parent by_ Hwf) as H.
  rewrite Hnew in H. destruct H as (-> & Hlt & ->). pose proof Hwf as [Hl Hc Hn _ _ _ _ _].
  unfold rollback_last_capability, set; cbn.
  assert (Hs : sat_add (next_cap_id r) 1 = (next_cap_id r + 1)%Z)
    by (unfold sat_add, u64_max, MAX_CAP_LINEAGE in *; lia).
  rewrite Hs, Z.eqb_refl. cbn. rewrite list_lookup_insert_eq by lia. cbn. rewrite Z.eqb_refl.
  destruct r; cbn in *. f_equal. rewrite list_insert_insert_eq. by apply list_insert_id.
Qed.

(** * Revocation *)

(** [r'] differs from [r] only in its revoked identifiers. *)
Definition same_forest (r r' : CapRegistry) : Prop :=
  next_cap_id r' = next_cap_id r ∧ cap_lineage r' = cap_lineage r ∧
  cap_lineage_count r' = cap_lineage_count r.

#[export] Instance same_forest_preorder : PreOrder same_forest.
Proof. split; [by intros r|]. intros r1 r2 r3 (?&?&?) (?&?&?). split_and!; congruence. Qed.

Lemma same_forest_parent r r' c :
  same_forest r r' → cap_parent_from_lineage r' c = cap_parent_from_lineage r c.
Proof. intros (_ & Hl & Hc). unfold cap_parent_from_lineage. by rewrite Hl, Hc. Qed.

Lemma same_forest_derived r r' c p : same_forest r r' → derived_from r' c p ↔ derived_from r c p.
Proof. intros H. unfold derived_from. by rewrite (same_forest_parent r r'). Qed.

Lemma same_forest_rtc r r' c p :
  same_forest r r' → rtc (derived_from r') c p ↔ rtc (derived_from r) c p.
Proof.
  intros H. split; apply rtc_subrel; intros x y; by rewrite (same_forest_derived r r').
Qed.

(** Distinct numbers between 1 and [n] are at most [n]. *)
Lemma NoDup_range_length (l : list Z) (n : nat) :
  NoDup l → Forall (λ x, (1 ≤ x ≤ Z.of_nat n)%Z) l → length l ≤ n.
Proof.
  intros Hnd Hr. rewrite <-(Nat2Z.id n), <-(length_seqZ 1 (Z.of_nat n)).
  apply submseteq_length, NoDup_submseteq; [done|]. intros x Hx.
  rewrite Forall_forall in Hr. specialize (Hr x Hx). apply elem_of_seqZ. lia.
Qed.

Lemma add_revoked_cap_spec r id :
  registry_wf r → known_cap r id →
  ∃ b r', add_revoked_cap r id = (Ok b, r') ∧ registry_wf r' ∧ same_forest r r' ∧
          (∀ x, revoked r' x ↔ revoked r x ∨ x = id) ∧
          (revoked r id → b = false ∧ r' = r) ∧ (¬ revoked r id → b = true).
Proof.
  intros Hwf Hk. pose proof Hwf as [Hl Hc Hn He Hrl Hrc Hrr Hrn]. unfold add_revoked_cap.
  rewrite (proj2 (Z.eqb_neq id 0)) by (unfold known_cap in Hk; lia). cbn [orb].
  destruct (cap_id_revoked r id) eqn:Hr.
  { exists false, r. split_and!; try done.
    intros x. split; [by left|]. intros [?| ->]; [done|exact Hr]. }
  assert (Hnot : ¬ revoked r id) by (unfold revoked; congruence).
  assert (Hroom : revoked_cap_count r < MAX_REVOKED_CAPS).
  { pose proof (NoDup_range_length (id :: take (revoked_cap_count r) (revoked_caps r))
      (cap_lineage_count r)) as Hp. cbn [length] in Hp. rewrite length_take in Hp.
    unfold MAX_REVOKED_CAPS in *. enough (S (revoked_cap_count r `min` length (revoked_caps r)) ≤
      cap_lineage_count r) by lia. apply Hp.
    - constructor; [|done]. intros Hin. by apply Hnot, revoked_elem.
    - constructor; [unfold known_cap in Hk; lia|]. eapply Forall_impl; [exact Hrr|].
      cbn. intros x ?. lia. }
  rewrite (proj2 (Nat.eqb_neq _ _)) by lia. eexists true, _. split; [done|].
  set (r' := _ <| revoked_cap_count := _ |>).
  assert (Htake : take (revoked_cap_count r') (revoked_caps r') =
                  take (revoked_cap_count r) (revoked_caps r) ++ [id]).
  { change (take (S (revoked_cap_count r)) (<[revoked_cap_count r := id]> (revoked_caps r)) =
            take (revoked_cap_count r) (revoked_caps r) ++ [id]).
    rewrite (take_S_r _ _ id) by (apply list_lookup_insert_eq; lia).
    by rewrite take_insert_ge by lia. }
  split_and!; try done.
  - split; [done..| | |rewrite Htake|rewrite Htake].
    + unfold r', set; cbn. by rewrite length_insert.
    + change (S (revoked_cap_count r) ≤ MAX_REVOKED_CAPS). lia.
    + apply Forall_app. split; [done|]. apply Forall_singleton. exact Hk.
    + apply NoDup_app. split_and!; [done| |apply NoDup_singleton].
      intros x Hx ->%list_elem_of_singleton. by apply Hnot, revoked_elem.
  - intros x. rewrite !revoked_elem, Htake, elem_of_app, list_elem_of_singleton. done.
Qed.

(** One pass from [index] on: it never fails, only revokes descendants of
    revoked capabilities, leaves no entry from [index] on unrevoked with a
    revoked parent, and reports whether it changed anything. *)
Lemma revoke_pass_spec fuel : ∀ r index ch,
  registry_wf r → index + fuel = cap_lineage_count r →
  ∃ ch' r', revoke_pass r index fuel ch = (Ok ch', r') ∧ registry_wf r' ∧ same_forest r r' ∧
    (∀ x, revoked r x → revoked r' x) ∧
    (∀ x, revoked r' x → ∃ a, rtc (derived_from r) x a ∧ revoked r a) ∧
    (∀ x, revoked r' x → (x ≤ Z.of_nat index)%Z → revoked r x) ∧
    (∀ c p, (Z.of_nat index < c)%Z → derived_from r c p → revoked r' p → revoked r' c).
Proof.
  induction fuel as [|fuel IH]; intros r index ch Hwf Hidx; cbn [revoke_pass].
  { eexists ch, r. split_and!; try done.
    - intros x Hx. exists x. split; [apply rtc_refl|done].
    - intros c p Hc (_ & Hk & _)%derived_from_lt; [|done].
      unfold known_cap in Hk. rewrite (rw_next r Hwf) in Hk. lia. }
  destruct (rw_entry r Hwf index ltac:(lia)) as (p & Hp & Hb). rewrite Hp. cbn [mjoin option_join].
  cbn [cl_parent cl_cap_id]. set (id := (Z.of_nat index + 1)%Z) in *.
  assert (Hid : known_cap r id) by (unfold known_cap; rewrite (rw_next r Hwf); lia).
  assert (Hpar : cap_parent_from_lineage r id = Some p).
  { apply parent_lookup; [done|]. exists index. split_and!; [lia|done|done]. }
  destruct (negb (p =? 0)%Z && cap_id_revoked r p) eqn:Hc.
  - apply andb_true_iff in Hc as [Hp0%negb_true_iff%Z.eqb_neq Hrp].
    destruct (add_revoked_cap_spec r id Hwf Hid) as (b & r1 & Hadd & Hwf1 & Hsf & Hrev & _).
    rewrite Hadd. destruct (IH r1 (S index) (ch || b) Hwf1) as
      (ch' & r' & Hrun & Hwf' & Hsf' & Hup & Hdown & Hlow & Hcl).
    { destruct Hsf as (_ & _ & ->). lia. }
    exists ch', r'. split_and!; [done|done|by etransitivity| | | |].
    + intros x Hx. apply Hup, Hrev. by left.
    + intros x (a & Ha & Hra)%Hdown. apply (same_forest_rtc r r1) in Ha; [|done].
      apply Hrev in Hra as [Hra| ->]; [eauto|].
      exists p. split; [|done]. eapply rtc_r; [exact Ha|]. by split.
    + intros x Hx Hle. apply Hlow in Hx; [|lia]. apply Hrev in Hx as [?| ->]; [done|lia].
    + intros c q Hlt Hd Hq. destruct (decide (c = id)) as [->|Hne].
      * apply Hup, Hrev. by right.
      * apply (Hcl c q); [lia| |done]. by apply (same_forest_derived r r1).
  - destruct (IH r (S index) ch Hwf ltac:(lia)) as
      (ch' & r' & Hrun & Hwf' & Hsf' & Hup & Hdown & Hlow & Hcl).
    exists ch', r'. split_and!; [done|done|done|done|done| |].
    + intros x Hx Hle. apply (Hlow x Hx). lia.
    + intros c q Hlt Hd Hq. destruct (decide (c = id)) as [->|Hne]; [|apply (Hcl c q); [lia|done..]].
      destruct Hd as [Hq1 Hq0]. simplify_eq.
      apply (Hlow p) in Hq; [|lia]. unfold revoked in Hq. rewrite Hq in Hc.
      rewrite (proj2 (Z.eqb_neq p 0)) in Hc by done. done.
Qed.

(** A pass over a closed set changes nothing. *)
Lemma revoke_pass_closed fuel : ∀ r index ch,
  registry_wf r → revocation_closed r → index + fuel = cap_lineage_count r →
  revoke_pass r index fuel ch = (Ok ch, r).
Proof.
  induction fuel as [|fuel IH]; intros r index ch Hwf Hcl Hidx; cbn [revoke_pass]; [done|].
  destruct (rw_entry r Hwf index ltac:(lia)) as (p & Hp & Hb). rewrite Hp.
  cbn [mjoin option_join cl_parent cl_cap_id].
  destruct (negb (p =? 0)%Z && cap_id_revoked r p) eqn:Hc; [|apply IH; [done|done|lia]].
  apply andb_true_iff in Hc as [Hp0%negb_true_iff%Z.eqb_neq Hrp].
  set (id := (Z.of_nat index + 1)%Z) in *.
  assert (Hr : revoked r id).
  { apply (Hcl id p); [|done]. split; [|done]. apply parent_lookup; [done|].
    exists index. split_and!; [lia|done|done]. }
  unfold add_revoked_cap. unfold revoked in Hr. rewrite Hr, orb_true_r, orb_false_r.
  apply IH; [done|done|lia].
Qed.

(** Two passes end the loop. *)
Lemma revoke_loop_spec r fuel :
  registry_wf r → 2 ≤ fuel →
  ∃ r', revoke_loop fuel r = Some (Ok tt, r') ∧ registry_wf r' ∧ same_forest r r' ∧
        revocation_closed r' ∧
        ∀ x, revoked r' x ↔ ∃ a, rtc (derived_from r) x a ∧ revoked r a.
Proof.
  intros Hwf Hf. destruct fuel as [|[|fuel]]; [lia..|]. cbn [revoke_loop].
  destruct (revoke_pass_spec (cap_lineage_count r) r 0 false Hwf eq_refl) as
    (ch & r1 & Hrun & Hwf1 & Hsf & Hup & Hdown & _ & Hcl). rewrite Hrun.
  assert (Hclosed : revocation_closed r1).
  { intros c p Hd Hp. apply (same_forest_derived r r1) in Hd; [|done].
    apply (Hcl c p); [|done|done]. apply derived_from_lt in Hd; [|done]. lia. }
  assert (Hex : ∀ x, revoked r1 x ↔ ∃ a, rtc (derived_from r) x a ∧ revoked r a).
  { intros x. split; [apply Hdown|]. intros (a & Ha & Hra).
    apply (closed_ancestor r1 x a Hclosed); [by apply (same_forest_rtc r r1)|by apply Hup]. }
  destruct ch.
  - rewrite (revoke_pass_closed (cap_lineage_count r1) r1 0 false Hwf1 Hclosed eq_refl). eauto 7.
  - eauto 7.
Qed.

(** The whole of [revoke_cap_id]: it succeeds on every known identifier, and
    revokes it and everything derived from it, and nothing else. *)
Lemma revoke_cap_id_spec r id :
  registry_wf r → revocation_closed r → known_cap r id →
  ∃ r', revoke_cap_id r id = (Ok tt, r') ∧ registry_wf r' ∧ same_forest r r' ∧
        revocation_closed r' ∧
        ∀ x, revoked r' x ↔ revoked r x ∨ rtc (derived_from r) x id.
Proof.
  intros Hwf Hcl Hk. unfold revoke_cap_id.
  rewrite (proj2 (Z.eqb_neq id 0)) by (unfold known_cap in Hk; lia).
  destruct (add_revoked_cap_spec r id Hwf Hk) as (b & r1 & Hadd & Hwf1 & Hsf & Hrev & _).
  rewrite Hadd. destruct (revoke_loop_spec r1 revoke_fuel Hwf1) as (r' & -> & Hwf' & Hsf' & Hcl' & Hex).
  { unfold revoke_fuel, MAX_REVOKED_CAPS, MAX_CAP_LINEAGE. lia. }
  exists r'. cbn [default]. split_and!; [done|done|by etransitivity|done|].
  intros x. rewrite Hex. setoid_rewrite Hrev. split.
  - intros (a & Ha & Hor). apply (same_forest_rtc r r1) in Ha; [|done].
    destruct Hor as [Hra| ->]; [left; by eapply closed_ancestor|by right].
  - intros [Hx|Hx].
    + exists x. split; [apply rtc_refl|by left].
    + exists id. split; [by apply (same_forest_rtc r r1)|by right].
Qed.

(** * Claims *)

(** Revoking a capability always succeeds, its loop ends (within two
    passes, far below the fuel of the model) and cannot overflow the revoked
    array; afterwards exactly the capabilities revoked before, the capability
    itself and every capability derived from it, directly or not, are revoked,
    and no derivation edge changed. *)
Theorem revoke_cap_id_exact (r : CapRegistry) (id : Z) :
  registry_wf r → revocation_closed r → known_cap r id →
  ∃ r', revoke_cap_id r id = (Ok tt, r') ∧ registry_wf r' ∧ same_forest r r' ∧
        revocation_closed r' ∧
        ∀ x, revoked r' x ↔ revoked r x ∨ rtc (derived_from r) x id.
Proof. apply revoke_cap_id_spec. Qed.

(** Two capabilities, the second derived from the first. *)
Definition sample_registry : CapRegistry :=
  (new_capability "g" (new_capability "g" registry_new 1 3 1 0 1).2 1 1 1 1 1).2.

Lemma sample_registry_wf : registry_wf sample_registry ∧ revocation_closed sample_registry.
Proof.
  destruct registry_new_wf as [Hwf Hcl].
  unfold sample_registry.
  destruct (new_capability "g" registry_new 1 3 1 0 1) as [[cap|e] r1] eqn:H1; [|vm_compute in H1; done].
  destruct (new_capability_wf "g" _ 1 3 1 0 1 _ _ Hwf ltac:(done) H1) as (Hwf1 & Hn1 & Hrev1 & _).
  assert (Hcl1 : revocation_closed r1).
  { apply (new_capability_closed "g" registry_new 1 3 1 0 1 cap r1 Hwf Hcl); [done| |done].
    vm_compute. done. }
  cbn [snd]. destruct (new_capability "g" r1 1 1 1 1 1) as [[cap2|e] r2] eqn:H2.
  - assert (Hb : (0 ≤ 1 < next_cap_id r1)%Z) by (rewrite Hn1; done).
    split; [apply (new_capability_wf "g" r1 1 1 1 1 1 cap2 r2 Hwf1 Hb H2)|].
    apply (new_capability_closed "g" r1 1 1 1 1 1 cap2 r2 Hwf1 Hcl1 Hb); [|done].
    intros Hx%Hrev1. by vm_compute in Hx.
  - pose proof (new_capability_spec "g" r1 1 1 1 1 1 Hwf1) as Hs. rewrite H2 in Hs.
    by destruct Hs as (-> & _).
Qed.

Lemma revoke_cap_id_exact_witness :
  ∃ r', revoke_cap_id sample_registry 1 = (Ok tt, r') ∧ registry_wf r' ∧
        same_forest sample_registry r' ∧ revocation_closed r' ∧
        ∀ x, revoked r' x ↔ revoked sample_registry x ∨ rtc (derived_from sample_registry) x 1%Z.
Proof.
  apply (revoke_cap_id_exact sample_registry 1);
    [apply sample_registry_wf|apply sample_registry_wf|vm_compute; split; congruence].
Defined.

(** The walk over ancestors that authorises a capability always ends, and
    answers whether the capability or one of its ancestors is revoked; when
    the revoked set is closed, as every revocation leaves it, that is the
    same as the capability being revoked itself. *)
Theorem ancestor_walk_correct (r : CapRegistry) (id : Z) :
  registry_wf r → (0 ≤ id)%Z →
  is_Some (ancestor_walk (cap_parent_from_lineage r) r (walk_fuel r) id) ∧
  (cap_id_revoked_or_has_revoked_ancestor r id = true ↔
   ∃ a, rtc (derived_from r) id a ∧ revoked r a) ∧
  (revocation_closed r →
   cap_id_revoked_or_has_revoked_ancestor r id = cap_id_revoked r id).
Proof.
  intros Hwf H0. unfold cap_id_revoked_or_has_revoked_ancestor.
  destruct (ancestor_walk_decides r Hwf id (walk_fuel r) H0 ltac:(by right)) as (b & -> & Hb).
  cbn [default]. split; [eauto|]. split; [done|]. intros Hcl.
  assert (Heq : b = true ↔ cap_id_revoked r id = true).
  { rewrite Hb. split; [intros (a & Ha & Hr); by apply (closed_ancestor r id a)|].
    intros Hr. exists id. split; [apply rtc_refl|done]. }
  destruct b, (cap_id_revoked r id); naive_solver.
Qed.

Lemma ancestor_walk_correct_witness :
  cap_id_revoked_or_has_revoked_ancestor (revoke_cap_id sample_registry 1).2 2 = true ∧
  is_Some (ancestor_walk (cap_parent_from_lineage sample_registry) sample_registry
             (walk_fuel sample_registry) 2).
Proof.
  split; [vm_compute; reflexivity|].
  apply (ancestor_walk_correct sample_registry 2); [apply sample_registry_wf|discriminate].
Defined.
