(* ===== verification/VfsState.v ===== *)
(** The VFS part of [RuntimeState] ([ipc/runtime_state.rs] with the records of
    [vfs/node.rs], [vfs/handle.rs], [vfs/storage.rs] and [vfs/vertexfs.rs]):
    nodes, memory files, VertexFS files with their page cache, open file
    descriptions, range locks and events. *)

From S2P Require Import Prelude KernelBase VfsPath.

Definition MAX_VFS_NODES : nat := 96.
Definition MAX_VFS_MEM_FILES : nat := 8.
Definition MAX_VFS_MEM_FILE_BYTES : nat := 512.
Definition MAX_VFS_LOCKS : nat := MAX_OPEN_FILE_DESCRIPTIONS.
Definition MAX_VFS_EVENTS : nat := 64.
Definition MAX_VERTEXFS_FILES : nat := 48.
Definition MAX_VERTEXFS_FILE_BYTES : nat := 512.
Definition MAX_VERTEXFS_PAGE_CACHE_PAGES : nat := 8.
Definition VERTEXFS_SECTOR_SIZE : nat := 512.

(** * Records *)

(** [VfsNodeKind]. *)
Inductive VfsNodeKind := NkRegularFile | NkDirectory | NkDeviceNode | NkPipe | NkSyntheticNode.
#[export] Instance VfsNodeKind_eq_dec : EqDecision VfsNodeKind.
Proof. solve_decision. Defined.

(** [VfsBacking]. *)
Inductive VfsBacking :=
| VbNone
| VbStoreObject (id : KernelObjectId)
| VbStateVolume (id : KernelObjectId)
| VbStateVolumeValue (id : KernelObjectId)
| VbStateVolumeControl (id : KernelObjectId)
| VbMemoryFile (index : nat)
| VbVertexFsFile (index : nat)
| VbDevice (id : KernelObjectId)
| VbSynthetic (bytes : list byte)
| VbFsServiceReport
| VbPipe.

Record VfsNode := mkVfsNode {
  vn_id : VfsNodeId;
  vn_name : VfsName;
  vn_parent : option VfsNodeId;
  vn_kind : VfsNodeKind;
  vn_backing : VfsBacking;
  vn_mount_source : string;
  vn_metadata_version : Z
}.
#[export] Instance eta_VfsNode : Eta VfsNode := λ n,
  mkVfsNode (vn_id n) (vn_name n) (vn_parent n) (vn_kind n) (vn_backing n) (vn_mount_source n)
    (vn_metadata_version n).

Record VfsMemoryFile := mkVfsMemoryFile { mf_name : string; mf_bytes : list byte; mf_len : nat }.

(** [VfsMemoryFile::empty]. *)
Definition memory_file_empty : VfsMemoryFile :=
  mkVfsMemoryFile "" (replicate MAX_VFS_MEM_FILE_BYTES 0%Z) 0.

(** [dst[start + cursor] = src[cursor]] for every [cursor] of [src]. *)
Fixpoint write_bytes (dst : list byte) (start : nat) (src : list byte) : list byte :=
  match src with
  | [] => dst
  | b :: src' => write_bytes (<[start := b]> dst) (S start) src'
  end.

(** [VfsMemoryFile::new]. *)
Definition memory_file_new (name : string) (initial : list byte) : Result InitError VfsMemoryFile :=
  if MAX_VFS_MEM_FILE_BYTES <? length initial then Err InvalidBootManifest
  else Ok (mkVfsMemoryFile name
             (write_bytes (replicate MAX_VFS_MEM_FILE_BYTES 0%Z) 0 initial) (length initial)).

Record VfsVertexFsFile := mkVfsVertexFsFile {
  vf_name : string;
  vf_vfs_name : VfsName;
  vf_inode_id : Z;
  vf_parent_inode_id : Z;
  vf_first_sector : Z;
  vf_sector_count : Z;
  vf_bytes : list byte;
  vf_len : nat;
  vf_dirty : bool;
  vf_checksum : Z
}.
#[export] Instance eta_VfsVertexFsFile : Eta VfsVertexFsFile := λ f,
  mkVfsVertexFsFile (vf_name f) (vf_vfs_name f) (vf_inode_id f) (vf_parent_inode_id f)
    (vf_first_sector f) (vf_sector_count f) (vf_bytes f) (vf_len f) (vf_dirty f) (vf_checksum f).

Definition name_empty : VfsName := mkVfsName (replicate MAX_VFS_NAME_BYTES 0%Z) 0.

(** [VfsVertexFsFile::empty]. *)
Definition vertexfs_file_empty : VfsVertexFsFile :=
  mkVfsVertexFsFile "" name_empty 0 0 0 0 (replicate MAX_VERTEXFS_FILE_BYTES 0%Z) 0 false 0.

Record VfsPageCachePage := mkVfsPageCachePage {
  pg_valid : bool;
  pg_dirty : bool;
  pg_pinned : bool;
  pg_writeback : bool;
  pg_writeback_error : bool;
  pg_mount_id : Z;
  pg_inode_id : Z;
  pg_backing : nat;
  pg_page_offset : Z;
  pg_len : nat;
  pg_bytes : list byte
}.
#[export] Instance eta_VfsPageCachePage : Eta VfsPageCachePage := λ p,
  mkVfsPageCachePage (pg_valid p) (pg_dirty p) (pg_pinned p) (pg_writeback p)
    (pg_writeback_error p) (pg_mount_id p) (pg_inode_id p) (pg_backing p) (pg_page_offset p)
    (pg_len p) (pg_bytes p).

(** [VfsPageCachePage::empty]. *)
Definition page_empty : VfsPageCachePage :=
  mkVfsPageCachePage false false false false false 0 0 0 0 0 (replicate VERTEXFS_SECTOR_SIZE 0%Z).

Record VfsPageCacheStats := mkVfsPageCacheStats {
  read_hits : Z; read_misses : Z; readahead_hits : Z; clean_evictions : Z;
  dirty_eviction_blocks : Z; dirty_limit_rejections : Z; writeback_started : Z;
  writeback_completed : Z; writeback_errors : Z; high_water_dirty_bytes : Z;
  last_read_valid : bool; last_read_backing : nat; last_read_next_offset : Z;
  last_read_page_offset : Z }.
#[export] Instance eta_VfsPageCacheStats : Eta VfsPageCacheStats := λ s,
  mkVfsPageCacheStats (read_hits s) (read_misses s) (readahead_hits s) (clean_evictions s)
    (dirty_eviction_blocks s) (dirty_limit_rejections s) (writeback_started s)
    (writeback_completed s) (writeback_errors s) (high_water_dirty_bytes s) (last_read_valid s)
    (last_read_backing s) (last_read_next_offset s) (last_read_page_offset s).

(** [VfsPageCacheStats::empty]. *)
Definition page_stats_empty : VfsPageCacheStats :=
  mkVfsPageCacheStats 0 0 0 0 0 0 0 0 0 0 false 0 0 0.

Record OpenFileDescription := mkOpenFileDescription {
  fd_id : FileDescriptionId;
  fd_node : VfsNodeId;
  fd_rights : Z;
  fd_flags : Z;
  fd_offset : Z;
  fd_ref_count : Z;
  fd_owner : ProcessId;
  fd_authority_cap_id : Z;
  fd_watch_cursor : nat
}.
#[export] Instance eta_OpenFileDescription : Eta OpenFileDescription := λ d,
  mkOpenFileDescription (fd_id d) (fd_node d) (fd_rights d) (fd_flags d) (fd_offset d)
    (fd_ref_count d) (fd_owner d) (fd_authority_cap_id d) (fd_watch_cursor d).

(** [OpenFileDescription::new]. *)
Definition file_description_new (id : FileDescriptionId) (node : VfsNodeId) (rights flags : Z)
    (owner : ProcessId) (authority_cap_id : Z) (watch_cursor : nat) : OpenFileDescription :=
  mkOpenFileDescription id node rights flags 0 1 owner authority_cap_id watch_cursor.

(** [VfsLockMode]. *)
Inductive VfsLockMode := LockShared | LockExclusive.
#[export] Instance VfsLockMode_eq_dec : EqDecision VfsLockMode.
Proof. solve_decision. Defined.

Record VfsLock := mkVfsLock {
  lk_node : VfsNodeId;
  lk_owner : ProcessId;
  lk_description : FileDescriptionId;
  lk_mode : VfsLockMode;
  lk_start : Z;
  lk_len : Z
}.

Record VfsEvent := mkVfsEvent {
  ev_parent : VfsNodeId; ev_kind : Z; ev_name : VfsName; ev_metadata_version : Z }.

Definition MAX_VFS_PIPE_BYTES : nat := 128.
Definition VERTEXFS_SECTORS : nat := 64.
Definition VERTEXFS_IMAGE_BYTES : nat := VERTEXFS_SECTOR_SIZE * VERTEXFS_SECTORS.
Definition VERTEXFS_SYNC_MAX_DEVICE_WRITES : nat := 24.

(** [VfsPipeBuffer]. *)
Record VfsPipeBuffer := mkVfsPipeBuffer { pipe_bytes : list byte; pipe_len : nat }.
#[export] Instance eta_VfsPipeBuffer : Eta VfsPipeBuffer := λ b,
  mkVfsPipeBuffer (pipe_bytes b) (pipe_len b).

(** [VfsPipeBuffer::empty]. *)
Definition pipe_empty : VfsPipeBuffer := mkVfsPipeBuffer (replicate MAX_VFS_PIPE_BYTES 0%Z) 0.

(** [VfsPipeBuffer::enqueue]. *)
Definition pipe_enqueue (b : VfsPipeBuffer) (bytes : list byte) :
    Result IpcError nat * VfsPipeBuffer :=
  if negb (pipe_len b =? 0) then (Err VfsBusy, b)
  else if length (pipe_bytes b) <? length bytes then (Err VfsNoSpace, b)
  else (Ok (length bytes),
        b <| pipe_bytes := write_bytes (pipe_bytes b) 0 bytes |> <| pipe_len := length bytes |>).

(** [VertexFsDeviceWrite] and its [empty]. *)
Record VertexFsDeviceWrite := mkVertexFsDeviceWrite { dw_sector : Z; dw_bytes : list byte }.
#[export] Instance eta_VertexFsDeviceWrite : Eta VertexFsDeviceWrite := λ w,
  mkVertexFsDeviceWrite (dw_sector w) (dw_bytes w).
Definition device_write_empty : VertexFsDeviceWrite :=
  mkVertexFsDeviceWrite 0 (replicate VERTEXFS_SECTOR_SIZE 0%Z).

(** The VFS fields of [RuntimeState]. *)
Record VfsState := mkVfsState {
  vfs_nodes : list (option VfsNode);
  vfs_node_count : nat;
  next_vfs_node_id : Z;
  next_vfs_metadata_version : Z;
  vfs_mem_files : list VfsMemoryFile;
  vfs_mem_file_count : nat;
  vertexfs_image : list byte;
  vertexfs_image_loaded : bool;
  vertexfs_files : list VfsVertexFsFile;
  vertexfs_file_count : nat;
  vfs_page_cache : list VfsPageCachePage;
  vfs_page_cache_stats : VfsPageCacheStats;
  open_file_descriptions : list (option OpenFileDescription);
  next_file_description_id : Z;
  vfs_locks : list (option VfsLock);
  vfs_events : list (option VfsEvent);
  vfs_event_count : nat;
  vfs_pipe : VfsPipeBuffer;
  vertexfs_sync_writes : list VertexFsDeviceWrite;
  vertexfs_sync_write_count : nat
}.
#[export] Instance eta_VfsState : Eta VfsState := λ v,
  mkVfsState (vfs_nodes v) (vfs_node_count v) (next_vfs_node_id v) (next_vfs_metadata_version v)
    (vfs_mem_files v) (vfs_mem_file_count v) (vertexfs_image v) (vertexfs_image_loaded v)
    (vertexfs_files v) (vertexfs_file_count v)
    (vfs_page_cache v) (vfs_page_cache_stats v) (open_file_descriptions v)
    (next_file_description_id v) (vfs_locks v) (vfs_events v) (vfs_event_count v) (vfs_pipe v)
    (vertexfs_sync_writes v) (vertexfs_sync_write_count v).

(** The VFS part of [RuntimeState::new]. *)
Definition vfs_state_new : VfsState :=
  mkVfsState (replicate MAX_VFS_NODES None) 0 1 1
    (replicate MAX_VFS_MEM_FILES memory_file_empty) 0
    (replicate VERTEXFS_IMAGE_BYTES 0%Z) false
    (replicate MAX_VERTEXFS_FILES vertexfs_file_empty) 0
    (replicate MAX_VERTEXFS_PAGE_CACHE_PAGES page_empty) page_stats_empty
    (replicate MAX_OPEN_FILE_DESCRIPTIONS None) 1 (replicate MAX_VFS_LOCKS None)
    (replicate MAX_VFS_EVENTS None) 0 pipe_empty
    (replicate VERTEXFS_SYNC_MAX_DEVICE_WRITES device_write_empty) 0.

(** The VFS part of [RuntimeState::reset_capability_lifecycle]. *)
Definition vfs_state_reset (v : VfsState) : VfsState :=
  v <| vfs_node_count := 0 |>
    <| next_vfs_node_id := 1%Z |>
    <| next_vfs_metadata_version := 1%Z |>
    <| vfs_mem_file_count := 0 |>
    <| vertexfs_file_count := 0 |>
    <| next_file_description_id := 1%Z |>
    <| vfs_event_count := 0 |>
    <| vfs_pipe := pipe_empty |>
    <| vertexfs_sync_write_count := 0 |>
    <| vfs_nodes ::= λ l, map_upto (λ _, None) l (length l) |>
    <| vfs_mem_files ::= λ l, map_upto (λ _, memory_file_empty) l (length l) |>
    <| vertexfs_image ::= λ l, map_upto (λ _, 0%Z) l (length l) |>
    <| vertexfs_image_loaded := false |>
    <| vertexfs_files ::= λ l, map_upto (λ _, vertexfs_file_empty) l (length l) |>
    <| vfs_page_cache ::= λ l, map_upto (λ _, page_empty) l (length l) |>
    <| vfs_page_cache_stats := page_stats_empty |>
    <| vertexfs_sync_writes ::= λ l, map_upto (λ _, device_write_empty) l (length l) |>
    <| open_file_descriptions ::= λ l, map_upto (λ _, None) l (length l) |>
    <| vfs_locks ::= λ l, map_upto (λ _, None) l (length l) |>
    <| vfs_events ::= λ l, map_upto (λ _, None) l (length l) |>.

(** * Nodes *)

(** [RuntimeState::allocate_vfs_metadata_version]. *)
Definition allocate_vfs_metadata_version (v : VfsState) : Z * VfsState :=
  (next_vfs_metadata_version v,
   v <| next_vfs_metadata_version := sat_add (next_vfs_metadata_version v) 1 |>).

(** [RuntimeState::add_vfs_node_with_name]. *)
Definition add_vfs_node_with_name (v : VfsState) (name : VfsName) (parent : option VfsNodeId)
    (kind : VfsNodeKind) (backing : VfsBacking) (mount_source : string) :
    Result InitError VfsNodeId * VfsState :=
  match first_index (λ o : option VfsNode, match o with None => true | Some _ => false end) (vfs_nodes v)
          (length (vfs_nodes v)) with
  | None => (Err ObjectTableFull, v)
  | Some slot =>
      let id := next_vfs_node_id v in
      let v1 := v <| next_vfs_node_id := sat_add id 1 |> in
      let '(metadata_version, v2) := allocate_vfs_metadata_version v1 in
      (Ok id,
       v2 <| vfs_nodes ::= <[slot := Some (mkVfsNode id name parent kind backing mount_source
                              metadata_version)]> |>
          <| vfs_node_count ::= λ n, if n <=? slot then S slot else n |>)
  end.

(** [RuntimeState::add_vfs_node]. *)
Definition add_vfs_node (v : VfsState) (name : string) (parent : option VfsNodeId)
    (kind : VfsNodeKind) (backing : VfsBacking) (mount_source : string) :
    Result InitError VfsNodeId * VfsState :=
  match name_from_static name with
  | Err e => (Err e, v)
  | Ok name => add_vfs_node_with_name v name parent kind backing mount_source
  end.

(** The scans over the nodes in use. *)
Definition find_node {A} (f : VfsNode → option A) (v : VfsState) : option A :=
  first_some (λ o, o ≫= f) (vfs_nodes v) (vfs_node_count v).
Definition any_node (p : VfsNode → bool) (v : VfsState) : bool :=
  match first_index (λ o, match o with Some n => p n | None => false end)
          (vfs_nodes v) (vfs_node_count v) with
  | Some _ => true
  | None => false
  end.

(** [RuntimeState::vfs_node]. *)
Definition vfs_node (v : VfsState) (id : VfsNodeId) : option VfsNode :=
  find_node (λ n, if (vn_id n =? id)%Z then Some n else None) v.

(** [RuntimeState::vfs_node_by_parent_name]. *)
Definition vfs_node_by_parent_name (v : VfsState) (parent : VfsNodeId) (name : list byte) :
    option VfsNode :=
  find_node (λ n, if bool_decide (vn_parent n = Some parent) &&
                     bytes_eqb (name_as_bytes (vn_name n)) name then Some n else None) v.

(** [RuntimeState::vfs_node_index]. *)
Definition vfs_node_index (v : VfsState) (id : VfsNodeId) : option nat :=
  first_index (λ o, match o with Some n => (vn_id n =? id)%Z | None => false end)
    (vfs_nodes v) (vfs_node_count v).

(** [RuntimeState::vfs_node_has_children]. *)
Definition vfs_node_has_children (v : VfsState) (id : VfsNodeId) : bool :=
  any_node (λ n, bool_decide (vn_parent n = Some id)) v.

(** [RuntimeState::vfs_child_by_entry_index]. *)
Definition vfs_child_by_entry_index (v : VfsState) (parent : VfsNodeId) (entry_index : nat) :
    option VfsNode :=
  (filter (λ n, vn_parent n = Some parent)
    (omap id (take (vfs_node_count v) (vfs_nodes v)))) !! entry_index.

(** [RuntimeState::remove_vfs_node]. *)
Definition remove_vfs_node (v : VfsState) (id : VfsNodeId) : Result IpcError unit * VfsState :=
  match vfs_node_index v id with
  | None => (Err BadCapability, v)
  | Some index =>
      let nodes := <[index := None]> (vfs_nodes v) in
      (Ok tt, v <| vfs_nodes := nodes |> <| vfs_node_count := trim_count nodes (vfs_node_count v) |>)
  end.

(** [RuntimeState::detach_vfs_node]. *)
Definition detach_vfs_node (v : VfsState) (id : VfsNodeId) : Result IpcError VfsNode * VfsState :=
  match vfs_node_index v id with
  | None => (Err VfsBadHandle, v)
  | Some index =>
      let '(version, v1) := allocate_vfs_metadata_version v in
      match mjoin (vfs_nodes v1 !! index) with
      | None => (Err VfsBadHandle, v1)
      | Some node =>
          let node := node <| vn_parent := None |> <| vn_metadata_version := version |> in
          (Ok node, v1 <| vfs_nodes ::= <[index := Some node]> |>)
      end
  end.

(** [RuntimeState::rename_vfs_node]. *)
Definition rename_vfs_node (v : VfsState) (id new_parent : VfsNodeId) (new_name : VfsName) :
    Result IpcError VfsNode * VfsState :=
  match vfs_node_index v id with
  | None => (Err VfsBadHandle, v)
  | Some index =>
      let '(version, v1) := allocate_vfs_metadata_version v in
      match mjoin (vfs_nodes v1 !! index) with
      | None => (Err VfsBadHandle, v1)
      | Some node =>
          let node := node <| vn_parent := Some new_parent |> <| vn_name := new_name |>
                           <| vn_metadata_version := version |> in
          (Ok node, v1 <| vfs_nodes ::= <[index := Some node]> |>)
      end
  end.

(** * Memory files *)

Definition backed_by_memory (file_index : nat) (n : VfsNode) : bool :=
  match vn_backing n with VbMemoryFile i => i =? file_index | _ => false end.

(** [RuntimeState::vfs_memory_file_in_use]. *)
Definition vfs_memory_file_in_use (v : VfsState) (file_index : nat) : bool :=
  any_node (backed_by_memory file_index) v.

(** [RuntimeState::add_vfs_memory_file]. *)
Definition add_vfs_memory_file (v : VfsState) (name : string) (initial : list byte) :
    Result InitError nat * VfsState :=
  let index := vfs_mem_file_count v in
  if index =? length (vfs_mem_files v) then (Err ObjectTableFull, v)
  else
    match memory_file_new name initial with
    | Err e => (Err e, v)
    | Ok file => (Ok index, v <| vfs_mem_files ::= <[index := file]> |>
                              <| vfs_mem_file_count := S index |>)
    end.

(** [RuntimeState::add_vfs_empty_memory_file]. *)
Definition add_vfs_empty_memory_file (v : VfsState) : Result InitError nat * VfsState :=
  match first_index (λ i, negb (vfs_memory_file_in_use v i)) (seq 0 (length (vfs_mem_files v)))
          (length (vfs_mem_files v)) with
  | Some index =>
      (Ok index, v <| vfs_mem_files ::= <[index := memory_file_empty]> |>
                   <| vfs_mem_file_count ::= λ n, if n <=? index then S index else n |>)
  | None => (Err ObjectTableFull, v)
  end.

(** [while count > 0 && !in_use(count - 1) { count -= 1 }]. *)
Fixpoint trim_unused (in_use : nat → bool) (count : nat) : nat :=
  match count with
  | 0 => 0
  | S n => if in_use n then count else trim_unused in_use n
  end.

(** [RuntimeState::release_vfs_memory_file]. *)
Definition release_vfs_memory_file (v : VfsState) (file_index : nat) :
    Result IpcError unit * VfsState :=
  if (length (vfs_mem_files v) <=? file_index) || vfs_memory_file_in_use v file_index
  then (Err BadCapability, v)
  else
    let v1 := v <| vfs_mem_files ::= <[file_index := memory_file_empty]> |> in
    (Ok tt, v1 <| vfs_mem_file_count := trim_unused (vfs_memory_file_in_use v1)
                                          (vfs_mem_file_count v1) |>).

(** [RuntimeState::vfs_memory_file_link_count]. *)
Definition vfs_memory_file_link_count (v : VfsState) (backing : nat) : nat :=
  count_upto (λ o, match o with
                   | Some n => backed_by_memory backing n && bool_decide (is_Some (vn_parent n))
                   | None => false
                   end) (vfs_nodes v) (vfs_node_count v).

(** [RuntimeState::touch_vfs_memory_file_nodes]. *)
Definition touch_vfs_memory_file_nodes (v : VfsState) (backing : nat) :
    Result IpcError Z * VfsState :=
  if negb (any_node (backed_by_memory backing) v) then (Err VfsBadHandle, v)
  else
    let '(version, v1) := allocate_vfs_metadata_version v in
    (Ok version,
     v1 <| vfs_nodes ::= λ l, map_upto (fmap (λ n, if backed_by_memory backing n
             then n <| vn_metadata_version := version |> else n)) l (vfs_node_count v1) |>).

(** * VertexFS files *)

Definition backed_by_vertexfs (file_index : nat) (n : VfsNode) : bool :=
  match vn_backing n with VbVertexFsFile i => i =? file_index | _ => false end.

(** [RuntimeState::vertexfs_file_in_use]. *)
Definition vertexfs_file_in_use (v : VfsState) (file_index : nat) : bool :=
  any_node (backed_by_vertexfs file_index) v.

(** [RuntimeState::vertexfs_file_link_count]. *)
Definition vertexfs_file_link_count (v : VfsState) (backing : nat) : nat :=
  count_upto (λ o, match o with
                   | Some n => backed_by_vertexfs backing n && bool_decide (is_Some (vn_parent n))
                   | None => false
                   end) (vfs_nodes v) (vfs_node_count v).

(** [RuntimeState::touch_vertexfs_file_nodes]. *)
Definition touch_vertexfs_file_nodes (v : VfsState) (backing : nat) :
    Result IpcError Z * VfsState :=
  if negb (any_node (backed_by_vertexfs backing) v) then (Err VfsBadHandle, v)
  else
    let '(version, v1) := allocate_vfs_metadata_version v in
    (Ok version,
     v1 <| vfs_nodes ::= λ l, map_upto (fmap (λ n, if backed_by_vertexfs backing n
             then n <| vn_metadata_version := version |> else n)) l (vfs_node_count v1) |>).

(** [RuntimeState::invalidate_vertexfs_page_cache]. *)
Definition invalidate_vertexfs_page_cache (v : VfsState) (backing : nat) : VfsState :=
  v <| vfs_page_cache ::= λ l, map_upto (λ p, if pg_valid p && (pg_backing p =? backing)
                                              then page_empty else p) l (length l) |>
    <| vfs_page_cache_stats ::= λ s, if last_read_backing s =? backing
                                     then s <| last_read_valid := false |> else s |>.

(** [RuntimeState::release_vertexfs_file]. *)
Definition release_vertexfs_file (v : VfsState) (file_index : nat) :
    Result IpcError unit * VfsState :=
  if (length (vertexfs_files v) <=? file_index) || vertexfs_file_in_use v file_index
  then (Err BadCapability, v)
  else
    let v1 := invalidate_vertexfs_page_cache v file_index in
    let v2 := v1 <| vertexfs_files ::= <[file_index := vertexfs_file_empty]> |> in
    (Ok tt, v2 <| vertexfs_file_count := trim_unused (vertexfs_file_in_use v2)
                                           (vertexfs_file_count v2) |>).

(** * Locks *)

(** [ranges_overlap] of [ipc/memory_mapping.rs]. *)
Definition ranges_overlap (left_start left_len right_start right_len : Z) : bool :=
  if (left_len =? 0)%Z || (right_len =? 0)%Z then false
  else
    let left_end := sat_add left_start left_len in
    let right_end := sat_add right_start right_len in
    (left_start <? right_end)%Z && (right_start <? left_end)%Z.

(** The scan of [acquire_vfs_lock]: the own lock's slot, the first free slot,
    or the early return on a conflict. *)
Fixpoint lock_scan (locks : list (option VfsLock)) (d : OpenFileDescription) (mode : VfsLockMode)
    (start len : Z) (index : nat) (own free : option nat) :
    Result IpcError (option nat * option nat) :=
  match locks with
  | [] => Ok (own, free)
  | Some lock :: locks' =>
      if (lk_description lock =? fd_id d)%Z
      then lock_scan locks' d mode start len (S index) (Some index) free
      else if (lk_node lock =? fd_node d)%Z &&
              (ranges_overlap start len (lk_start lock) (lk_len lock) &&
               (bool_decide (mode = LockExclusive) || bool_decide (lk_mode lock = LockExclusive)))
      then Err VfsBusy
      else lock_scan locks' d mode start len (S index) own free
  | None :: locks' =>
      lock_scan locks' d mode start len (S index) own
        (match free with None => Some index | Some _ => free end)
  end.

(** [RuntimeState::acquire_vfs_lock]. *)
Definition acquire_vfs_lock (v : VfsState) (d : OpenFileDescription) (mode : VfsLockMode)
    (start len : Z) : Result IpcError unit * VfsState :=
  match lock_scan (vfs_locks v) d mode start len 0 None None with
  | Err e => (Err e, v)
  | Ok (own_lock, free_lock) =>
      let lock := mkVfsLock (fd_node d) (fd_owner d) (fd_id d) mode start len in
      match own_lock, free_lock with
      | Some index, _ => (Ok tt, v <| vfs_locks ::= <[index := Some lock]> |>)
      | None, Some index => (Ok tt, v <| vfs_locks ::= <[index := Some lock]> |>)
      | None, None => (Err VfsNoSpace, v)
      end
  end.

(** [RuntimeState::release_vfs_lock]. *)
Definition release_vfs_lock (v : VfsState) (description : FileDescriptionId) : bool * VfsState :=
  let held := λ o, match o with
                   | Some lock => (lk_description lock =? description)%Z
                   | None => false
                   end in
  (0 <? count_upto held (vfs_locks v) (length (vfs_locks v)),
   v <| vfs_locks ::= λ l, map_upto (λ o, if held o then None else o) l (length l) |>).

(** [RuntimeState::release_vfs_locks_for_description]. *)
Definition release_vfs_locks_for_description (v : VfsState) (description : FileDescriptionId) :
    VfsState :=
  (release_vfs_lock v description).2.

(** [RuntimeState::release_vfs_locks_for_process]. *)
Definition release_vfs_locks_for_process (v : VfsState) (pid : ProcessId) : VfsState :=
  v <| vfs_locks ::= λ l, map_upto (λ o, match o with
                                         | Some lock => if (lk_owner lock =? pid)%Z then None else o
                                         | None => None
                                         end) l (length l) |>.

(** * Open file descriptions *)

(** [RuntimeState::open_file_description]. *)
Definition open_file_description (v : VfsState) (node : VfsNodeId) (rights flags : Z)
    (owner : ProcessId) (authority_cap_id : Z) : Result IpcError FileDescriptionId * VfsState :=
  match first_index (λ o : option OpenFileDescription, match o with None => true | _ => false end)
          (open_file_descriptions v) (length (open_file_descriptions v)) with
  | None => (Err BadCapability, v)
  | Some index =>
      let next := if (next_file_description_id v =? 0)%Z then 1%Z else next_file_description_id v in
      (Ok next,
       v <| next_file_description_id := sat_add next 1 |>
         <| open_file_descriptions ::= <[index := Some (file_description_new next node rights flags
              owner authority_cap_id (vfs_event_count v))]> |>)
  end.

Definition has_description_id (id : FileDescriptionId) (o : option OpenFileDescription) : bool :=
  match o with Some d => (fd_id d =? id)%Z | None => false end.

(** The slot the scans for a description stop at. *)
Definition file_description_index (v : VfsState) (id : FileDescriptionId) : option nat :=
  first_index (has_description_id id) (open_file_descriptions v)
    (length (open_file_descriptions v)).

(** [RuntimeState::file_description]. *)
Definition file_description (v : VfsState) (id : FileDescriptionId) : option OpenFileDescription :=
  file_description_index v id ≫= λ i, mjoin (open_file_descriptions v !! i).

(** [RuntimeState::retain_file_description]. *)
Definition retain_file_description (v : VfsState) (id : FileDescriptionId) :
    Result IpcError unit * VfsState :=
  match file_description_index v id with
  | None => (Err VfsBadHandle, v)
  | Some index =>
      match mjoin (open_file_descriptions v !! index) with
      | None => (Err VfsBadHandle, v)
      | Some d =>
          match checked_add (fd_ref_count d) 1 with
          | None => (Err VfsNoSpace, v)
          | Some n => (Ok tt, v <| open_file_descriptions ::=
                                     <[index := Some (d <| fd_ref_count := n |>)]> |>)
          end
      end
  end.

(** [RuntimeState::vfs_node_has_open_description]. *)
Definition vfs_node_has_open_description (v : VfsState) (id : VfsNodeId) : bool :=
  match first_index (λ o, match o with Some d => (fd_node d =? id)%Z | None => false end)
          (open_file_descriptions v) (length (open_file_descriptions v)) with
  | Some _ => true
  | None => false
  end.

(** [RuntimeState::reap_unlinked_vfs_node_if_idle]. *)
Definition reap_unlinked_vfs_node_if_idle (v : VfsState) (id : VfsNodeId) : VfsState :=
  if vfs_node_has_open_description v id then v
  else
    match vfs_node v id with
    | None => v
    | Some node =>
        match vn_parent node with
        | Some _ => v
        | None =>
            match vn_backing node with
            | VbMemoryFile backing =>
                (release_vfs_memory_file (remove_vfs_node v (vn_id node)).2 backing).2
            | VbVertexFsFile backing =>
                (release_vertexfs_file (remove_vfs_node v (vn_id node)).2 backing).2
            | _ => v
            end
        end
    end.

(** [RuntimeState::release_file_description]. *)
Definition release_file_description (v : VfsState) (id : FileDescriptionId) :
    Result IpcError unit * VfsState :=
  match file_description_index v id with
  | None => (Err VfsBadHandle, v)
  | Some index =>
      match mjoin (open_file_descriptions v !! index) with
      | None => (Err VfsBadHandle, v)
      | Some d =>
          if (fd_ref_count d <=? 1)%Z then
            let v1 := release_vfs_locks_for_description v id in
            let v2 := v1 <| open_file_descriptions ::= <[index := None]> |> in
            (Ok tt, reap_unlinked_vfs_node_if_idle v2 (fd_node d))
          else
            (Ok tt, v <| open_file_descriptions ::=
                           <[index := Some (d <| fd_ref_count := (fd_ref_count d - 1)%Z |>)]> |>)
      end
  end.

(** The loop of [release_process_file_descriptions] over the [fuel] slots left
    from [index]. *)
Fixpoint release_descriptions_from (v : VfsState) (pid : ProcessId) (index fuel : nat) : VfsState :=
  match fuel with
  | 0 => v
  | S fuel' =>
      let v' := match mjoin (open_file_descriptions v !! index) with
                | Some d =>
                    if (fd_owner d =? pid)%Z
                    then reap_unlinked_vfs_node_if_idle
                           (v <| open_file_descriptions ::= <[index := None]> |>) (fd_node d)
                    else v
                | None => v
                end in
      release_descriptions_from v' pid (S index) fuel'
  end.

(** [RuntimeState::release_process_file_descriptions]. *)
Definition release_process_file_descriptions (v : VfsState) (pid : ProcessId) : VfsState :=
  let v1 := release_vfs_locks_for_process v pid in
  release_descriptions_from v1 pid 0 (length (open_file_descriptions v1)).

(** * Events *)

(** [RuntimeState::record_vfs_event]. *)
Definition record_vfs_event (v : VfsState) (parent : VfsNodeId) (kind : Z) (name : VfsName) :
    VfsState :=
  let '(version, v1) := allocate_vfs_metadata_version v in
  let event := Some (mkVfsEvent parent kind name version) in
  let n := length (vfs_events v1) in
  if vfs_event_count v1 <? n then
    v1 <| vfs_events ::= <[vfs_event_count v1 := event]> |>
       <| vfs_event_count := S (vfs_event_count v1) |>
  else
    v1 <| vfs_events := <[n - 1 := event]> (shift_down (vfs_events v1) 0 (n - 1)) |>
       <| open_file_descriptions ::= λ l, map_upto (fmap (λ d,
            if 0 <? fd_watch_cursor d
            then d <| fd_watch_cursor := fd_watch_cursor d - 1 |> else d)) l (length l) |>.
