(* ===== verification/VfsFiles.v ===== *)
(** Open file descriptions and range locks: the invariant that ties every lock
    to an open description and keeps conflicting locks apart, over every
    operation that touches either. *)

From S2P Require Import Prelude KernelBase VfsPath VfsState.
From stdpp Require Import relations.

(** * Views *)

Definition desc_at (v : VfsState) (i : nat) (d : OpenFileDescription) : Prop :=
  open_file_descriptions v !! i = Some (Some d).
Definition lock_at (v : VfsState) (i : nat) (l : VfsLock) : Prop :=
  vfs_locks v !! i = Some (Some l).

(** Two locks that may not be held together. *)
Definition locks_conflict (l l' : VfsLock) : bool :=
  (lk_node l =? lk_node l')%Z &&
  (ranges_overlap (lk_start l) (lk_len l) (lk_start l') (lk_len l') &&
   (bool_decide (lk_mode l = LockExclusive) || bool_decide (lk_mode l' = LockExclusive))).

(** The lock a description asks for. *)
Definition lock_of (d : OpenFileDescription) (mode : VfsLockMode) (start len : Z) : VfsLock :=
  mkVfsLock (fd_node d) (fd_owner d) (fd_id d) mode start len.

Record files_wf (v : VfsState) : Prop := mk_files_wf {
  fw_desc_length : length (open_file_descriptions v) = MAX_OPEN_FILE_DESCRIPTIONS;
  fw_lock_length : length (vfs_locks v) = MAX_VFS_LOCKS;
  fw_next : (1 ≤ next_file_description_id v ≤ u64_max)%Z;
  fw_ids i d : desc_at v i d → (1 ≤ fd_id d < next_file_description_id v)%Z;
  fw_ids_unique i j d d' : desc_at v i d → desc_at v j d' → fd_id d = fd_id d' → i = j;
  fw_lock_owner i l : lock_at v i l → ∃ j d, desc_at v j d ∧ fd_id d = lk_description l ∧
                        fd_node d = lk_node l ∧ fd_owner d = lk_owner l;
  fw_lock_one i j l l' : lock_at v i l → lock_at v j l' →
                         lk_description l = lk_description l' → i = j;
  fw_lock_exclusive i j l l' : lock_at v i l → lock_at v j l' → i ≠ j →
                               locks_conflict l l' = false
}.

Lemma ranges_overlap_comm a b c d : ranges_overlap a b c d = ranges_overlap c d a b.
Proof.
  unfold ranges_overlap. rewrite (orb_comm (b =? 0)%Z). case_match; [done|]. apply andb_comm.
Qed.

Lemma locks_conflict_comm l l' : locks_conflict l l' = locks_conflict l' l.
Proof.
  unfold locks_conflict. rewrite (Z.eqb_sym (lk_node l)), ranges_overlap_comm. f_equal. f_equal.
  apply orb_comm.
Qed.

(** [v'] has the descriptions, locks and identifier counter of [v]. *)
Definition same_files (v v' : VfsState) : Prop :=
  open_file_descriptions v' = open_file_descriptions v ∧ vfs_locks v' = vfs_locks v ∧
  next_file_description_id v' = next_file_description_id v.

#[export] Instance same_files_preorder : PreOrder same_files.
Proof. split; [by intros v|]. intros x y z (?&?&?) (?&?&?). split_and!; congruence. Qed.

Lemma same_files_wf v v' : same_files v v' → files_wf v → files_wf v'.
Proof.
  intros (Hd & Hl & Hn) []. split; unfold desc_at, lock_at in *; rewrite ?Hd, ?Hl, ?Hn; auto.
Qed.

(** ** Operations on nodes and files leave descriptions and locks alone *)

Lemma remove_vfs_node_same v id : same_files v (remove_vfs_node v id).2.
Proof. unfold remove_vfs_node. by destruct (vfs_node_index v id). Qed.

Lemma release_vfs_memory_file_same v i : same_files v (release_vfs_memory_file v i).2.
Proof. unfold release_vfs_memory_file. by case_match. Qed.

Lemma release_vertexfs_file_same v i : same_files v (release_vertexfs_file v i).2.
Proof. unfold release_vertexfs_file. by case_match. Qed.

Lemma reap_same v id : same_files v (reap_unlinked_vfs_node_if_idle v id).
Proof.
  unfold reap_unlinked_vfs_node_if_idle. repeat case_match; try reflexivity.
  - etransitivity; [apply remove_vfs_node_same|apply release_vfs_memory_file_same].
  - etransitivity; [apply remove_vfs_node_same|apply release_vertexfs_file_same].
Qed.

(** * Removing descriptions and locks *)

(** [v'] keeps a part of the descriptions and of the locks of [v]. *)
Definition files_shrunk (v v' : VfsState) (keep_d : OpenFileDescription → Prop)
    (keep_l : VfsLock → Prop) : Prop :=
  length (open_file_descriptions v') = length (open_file_descriptions v) ∧
  length (vfs_locks v') = length (vfs_locks v) ∧
  next_file_description_id v' = next_file_description_id v ∧
  (∀ i d, desc_at v' i d ↔ desc_at v i d ∧ keep_d d) ∧
  (∀ i l, lock_at v' i l ↔ lock_at v i l ∧ keep_l l).

Lemma files_shrunk_wf v v' keep_d keep_l :
  files_wf v → files_shrunk v v' keep_d keep_l →
  (∀ i d j l, desc_at v i d → lock_at v j l → fd_id d = lk_description l → fd_owner d = lk_owner l →
              keep_l l → keep_d d) →
  files_wf v'.
Proof.
  intros [Hdl Hll Hn Hid Hu Ho H1 Hx] (Hdl' & Hll' & Hn' & Hd & Hl) Hkeep. split; [lia|lia|lia|..].
  - intros i d [? _]%Hd. rewrite Hn'. eauto.
  - intros i j d d' [? _]%Hd [? _]%Hd. eauto.
  - intros i l [Hli Hkl]%Hl. destruct (Ho i l Hli) as (j & d & Hdj & ? & ? & ?).
    exists j, d. split; [|done]. apply Hd. split; [done|]. by eapply Hkeep.
  - intros i j l l' [? _]%Hl [? _]%Hl. eauto.
  - intros i j l l' [? _]%Hl [? _]%Hl. eauto.
Qed.

Lemma drop_locks_at (p : VfsLock → bool) (l : list (option VfsLock)) i x :
  map_upto (λ o, match o with Some lock => if p lock then None else o | None => None end)
    l (length l) !! i = Some (Some x) ↔ l !! i = Some (Some x) ∧ p x = false.
Proof.
  rewrite lookup_map_upto. case_bool_decide as Hi.
  - destruct (l !! i) as [[y|]|]; cbn; [|split; [done|by intros [? _]]..].
    destruct (p y) eqn:Hp.
    + split; [done|]. intros [[= ->] ?]. congruence.
    + split; [intros [= ->]; done|by intros [? _]].
  - rewrite lookup_ge_None_2 by lia. split; [done|by intros [? _]].
Qed.

Lemma release_vfs_lock_shrunk v id :
  files_shrunk v (release_vfs_lock v id).2 (λ _, True) (λ l, lk_description l ≠ id).
Proof.
  unfold release_vfs_lock; cbn [snd]. split_and!; try done.
  - unfold set; cbn. apply length_map_upto.
  - naive_solver.
  - intros i l. unfold lock_at, set; cbn.
    rewrite <-(Z.eqb_neq (lk_description l) id),
      <-(drop_locks_at (λ l, (lk_description l =? id)%Z)).
    erewrite map_upto_ext; [done|]. intros [x|]; [|done]. by cbn; case_match.
Qed.

Lemma release_process_locks_shrunk v pid :
  files_shrunk v (release_vfs_locks_for_process v pid) (λ _, True) (λ l, lk_owner l ≠ pid).
Proof.
  unfold release_vfs_locks_for_process. split_and!; try done.
  - unfold set; cbn. apply length_map_upto.
  - naive_solver.
  - intros i l. unfold lock_at, set; cbn.
    by rewrite <-(Z.eqb_neq (lk_owner l) pid), <-(drop_locks_at (λ l, (lk_owner l =? pid)%Z)).
Qed.

(** * Descriptions *)

Lemma description_index_Some v id i :
  files_wf v →
  file_description_index v id = Some i ↔ ∃ d, desc_at v i d ∧ fd_id d = id.
Proof.
  intros Hwf. unfold file_description_index, desc_at. rewrite first_index_Some. split.
  - intros (_ & ([d|] & Hd & Hp) & _); [|done]. exists d. split; [done|]. by apply Z.eqb_eq.
  - intros (d & Hd & Hid). split; [by eapply lookup_lt_Some|].
    split; [exists (Some d); split; [done|cbn; lia]|].
    intros j [d'|] Hj Hd'; [|done]. cbn. apply Z.eqb_neq. intros Heq.
    assert (j = i); [|lia]. eapply (fw_ids_unique v Hwf); [exact Hd'|exact Hd|congruence].
Qed.

Lemma file_description_Some v id d :
  files_wf v → file_description v id = Some d ↔ ∃ i, desc_at v i d ∧ fd_id d = id.
Proof.
  intros Hwf. unfold file_description. rewrite bind_Some. split.
  - intros (i & (d' & Hd & Hid)%description_index_Some & Hj); [|done].
    unfold desc_at in Hd. rewrite Hd in Hj. cbn in Hj. simplify_eq. eauto.
  - intros (i & Hd & Hid). exists i. split; [apply description_index_Some; eauto|].
    unfold desc_at in Hd. by rewrite Hd.
Qed.

(** A description that changes only in its offset, reference count or cursor. *)
Definition same_identity (d d' : OpenFileDescription) : Prop :=
  fd_id d' = fd_id d ∧ fd_node d' = fd_node d ∧ fd_owner d' = fd_owner d.

Lemma files_updated_wf v v' :
  files_wf v → length (open_file_descriptions v') = length (open_file_descriptions v) →
  vfs_locks v' = vfs_locks v → next_file_description_id v' = next_file_description_id v →
  (∀ i d', desc_at v' i d' → ∃ d, desc_at v i d ∧ same_identity d d') →
  (∀ i d, desc_at v i d → ∃ d', desc_at v' i d' ∧ same_identity d d') →
  files_wf v'.
Proof.
  intros [Hdl Hll Hn Hid Hu Ho H1 Hx] Hl' Hk Hn' Hback Hforth.
  unfold lock_at in *. split; unfold lock_at; rewrite ?Hk, ?Hn'; [lia|lia|lia|..].
  - intros i d' (d & Hd & -> & _)%Hback. eauto.
  - intros i j d d' (e & He & Hi & _)%Hback (e' & He' & Hi' & _)%Hback Heq.
    eapply Hu; [exact He|exact He'|congruence].
  - intros i l Hl. destruct (Ho i l Hl) as (j & d & Hd & ? & ? & ?).
    destruct (Hforth j d Hd) as (d' & Hd' & E1 & E2 & E3).
    exists j, d'. split; [done|]. split_and!; congruence.
  - eauto.
  - eauto.
Qed.

Lemma retain_wf v id : files_wf v → files_wf (retain_file_description v id).2.
Proof.
  intros Hwf. unfold retain_file_description.
  destruct (file_description_index v id) as [i|] eqn:Hi; [|done].
  apply description_index_Some in Hi as (d & Hd & Hid); [|done].
  unfold desc_at in Hd. rewrite Hd. cbn [mjoin option_join].
  destruct (checked_add (fd_ref_count d) 1) as [n|]; [|done]. cbn [snd].
  apply (files_updated_wf v); [done|unfold set; cbn; by rewrite length_insert|done|done|..];
    unfold desc_at, set; cbn; intros j e.
  - destruct (decide (j = i)) as [->|Hne].
    + rewrite list_lookup_insert_eq by (by eapply lookup_lt_Some). intros [= <-]. by exists d.
    + rewrite list_lookup_insert_ne by done. intros. by exists e.
  - intros He. destruct (decide (j = i)) as [->|Hne].
    + rewrite list_lookup_insert_eq by (by eapply lookup_lt_Some). eexists. split; [done|].
      rewrite Hd in He. by simplify_eq.
    + rewrite list_lookup_insert_ne by done. by exists e.
Qed.

Lemma record_vfs_event_wf v parent kind name :
  files_wf v → files_wf (record_vfs_event v parent kind name).
Proof.
  intros Hwf. unfold record_vfs_event, allocate_vfs_metadata_version. case_match.
  { by apply (same_files_wf v). }
  set (f := λ d : OpenFileDescription, if 0 <? fd_watch_cursor d
              then d <| fd_watch_cursor := fd_watch_cursor d - 1 |> else d).
  assert (Hf : ∀ d, same_identity d (f d)) by (intros d; unfold f; by case_match).
  apply (files_updated_wf v); [done|unfold set; cbn; by rewrite length_map_upto|done|done|..];
    unfold desc_at, set; cbn; intros j e; rewrite lookup_map_upto.
  - case_bool_decide as Hj; [|by rewrite lookup_ge_None_2 by lia].
    destruct (open_file_descriptions v !! j) as [[d|]|]; cbn; [|done..]. intros [= <-]. eauto.
  - intros He. rewrite bool_decide_eq_true_2 by (by eapply lookup_lt_Some). rewrite He. cbn. eauto.
Qed.

(** Opening a description: a fresh identifier, one reference, no other change. *)
Lemma open_file_description_spec v node rights flags owner cap :
  files_wf v → (next_file_description_id v < u64_max)%Z →
  match open_file_description v node rights flags owner cap with
  | (Ok id, v') =>
      id = next_file_description_id v ∧ files_wf v' ∧
      file_description v id = None ∧
      file_description v' id =
        Some (file_description_new id node rights flags owner cap (vfs_event_count v)) ∧
      vfs_locks v' = vfs_locks v ∧
      ∀ x, x ≠ id → file_description v' x = file_description v x
  | (Err e, v') => v' = v ∧ e = BadCapability ∧ ∀ i, i < MAX_OPEN_FILE_DESCRIPTIONS →
                   ∃ d, desc_at v i d
  end.
Proof.
  intros Hwf Hmax. pose proof Hwf as [Hdl Hll Hn Hid Hu Ho H1 Hx]. unfold open_file_description.
  destruct (first_index _ _ _) as [i|] eqn:Hi.
  2:{ split; [done|]. split; [done|]. intros i Hlt.
      destruct (lookup_lt_is_Some_2 (open_file_descriptions v) i ltac:(lia)) as [[d|] Hd];
        [by exists d|]. exfalso.
      pose proof (proj1 (first_index_None _ _ _) Hi i None ltac:(lia) Hd) as Hc. by cbn in Hc. }
  pose proof (first_index_lt _ _ _ _ Hi) as [Hlt _].
  apply first_index_Some in Hi as (_ & ([d0|] & Hfree & Hp) & _); [done|]. clear Hp.
  rewrite (proj2 (Z.eqb_neq (next_file_description_id v) 0)) by lia.
  set (id := next_file_description_id v) in *.
  set (nd := file_description_new _ _ _ _ _ _ _).
  set (v' := _ <| open_file_descriptions ::= _ |>).
  assert (Hs : sat_add id 1 = (id + 1)%Z) by (unfold sat_add; lia).
  assert (Hn' : next_file_description_id v' = (id + 1)%Z) by exact Hs.
  assert (Hdesc : ∀ j d, desc_at v' j d ↔ (j = i ∧ d = nd) ∨ (j ≠ i ∧ desc_at v j d)).
  { intros j d. unfold desc_at, v', set; cbn. destruct (decide (j = i)) as [->|Hne].
    - rewrite list_lookup_insert_eq by done. naive_solver.
    - rewrite list_lookup_insert_ne by done. naive_solver. }
  assert (Hkeep : ∀ j d, desc_at v j d → desc_at v' j d).
  { intros j d Hd. apply Hdesc. right. split; [|done]. intros ->. unfold desc_at in Hd. congruence. }
  assert (Hwf' : files_wf v').
  { split; [unfold v', set; cbn; by rewrite length_insert|done|lia|..].
    - intros j d [[-> ->]|[_ Hd]]%Hdesc; [cbn; lia|]. specialize (Hid j d Hd). lia.
    - intros j k d d' [[-> ->]|[? Hd]]%Hdesc [[-> ->]|[? Hd']]%Hdesc Heq; [done|..].
      + specialize (Hid _ _ Hd'). cbn in Heq. lia.
      + specialize (Hid _ _ Hd). cbn in Heq. lia.
      + eauto.
    - intros j l Hl. destruct (Ho j l Hl) as (k & d & Hd & Hrest). exists k, d. eauto.
    - exact H1.
    - exact Hx. }
  split_and!; [done|done| | |done|].
  - destruct (file_description v id) as [d|] eqn:Hd; [|done].
    apply file_description_Some in Hd as (j & Hd & Heq); [|done]. specialize (Hid j d Hd). lia.
  - apply file_description_Some; [done|]. exists i. split; [|done]. apply Hdesc. by left.
  - intros x Hxi. apply option_eq; intros d. rewrite !file_description_Some by done.
    setoid_rewrite Hdesc. split.
    + intros (j & [[-> ->]|[_ Hd]] & <-); [done|eauto].
    + intros (j & Hd & <-). exists j. split; [|done]. right. split; [|done].
      intros ->. unfold desc_at in Hd. congruence.
Qed.

(** Dropping a reference: the last one takes the description and all its locks
    with it. *)
Lemma release_file_description_spec v id :
  files_wf v →
  match release_file_description v id with
  | (Ok _, v') =>
      files_wf v' ∧ ∃ d, file_description v id = Some d ∧
      if decide (fd_ref_count d ≤ 1)%Z
      then files_shrunk v v' (λ d, fd_id d ≠ id) (λ l, lk_description l ≠ id)
      else vfs_locks v' = vfs_locks v ∧
           file_description v' id = Some (d <| fd_ref_count := (fd_ref_count d - 1)%Z |>)
  | (Err e, v') => v' = v ∧ e = VfsBadHandle ∧ file_description v id = None
  end.
Proof.
  intros Hwf. unfold release_file_description.
  destruct (file_description_index v id) as [i|] eqn:Hi.
  2:{ unfold file_description. by rewrite Hi. }
  pose proof Hi as Hi'. apply description_index_Some in Hi as (d & Hd & Hid); [|done].
  assert (Hdat : desc_at v i d) by done. unfold desc_at in Hd. rewrite Hd. cbn [mjoin option_join].
  assert (Hlk : file_description v id = Some d)
    by (apply file_description_Some; [done|]; by exists i).
  pose proof (lookup_lt_Some _ _ _ Hd) as Hlt.
  destruct (Z.leb_spec (fd_ref_count d) 1) as [Hr|Hr].
  - set (v2 := _ <| open_file_descriptions ::= _ |>).
    assert (Hsh : files_shrunk v v2 (λ d, fd_id d ≠ id) (λ l, lk_description l ≠ id)).
    { destruct (release_vfs_lock_shrunk v id) as (_ & Hl2 & _ & _ & Hk).
      split_and!; [unfold v2, set; cbn; by rewrite length_insert|exact Hl2|done| |exact Hk].
      intros j e. unfold desc_at, v2, set; cbn. destruct (decide (j = i)) as [->|Hne].
      - rewrite list_lookup_insert_eq by done. rewrite Hd. naive_solver.
      - rewrite list_lookup_insert_ne by done. split; [|naive_solver]. intros He. split; [done|].
        intros Heq. apply Hne. eapply (fw_ids_unique v Hwf); [exact He|exact Hdat|congruence]. }
    assert (Hwf2 : files_wf v2).
    { eapply files_shrunk_wf; [exact Hwf|exact Hsh|]. cbn. naive_solver congruence. }
    split; [by eapply same_files_wf; [apply reap_same|]|]. exists d. split; [done|].
    rewrite decide_True by lia. destruct (reap_same v2 (fd_node d)) as (Ha & Hb & Hc).
    destruct Hsh as (S1 & S2 & S3 & S4 & S5).
    unfold files_shrunk, desc_at, lock_at in *. by rewrite Ha, Hb, Hc.
  - set (v' := v <| open_file_descriptions ::= _ |>).
    assert (Hget : ∀ j, open_file_descriptions v' !! j = if decide (j = i)
      then Some (Some (d <| fd_ref_count := (fd_ref_count d - 1)%Z |>)) else open_file_descriptions v !! j).
    { intros j. unfold v', set; cbn. case_decide as Hj; [subst; by rewrite list_lookup_insert_eq|].
      by rewrite list_lookup_insert_ne. }
    assert (Hwf' : files_wf v').
    { apply (files_updated_wf v); [done|unfold v', set; cbn; by rewrite length_insert|done|done|..];
        unfold desc_at; intros j e; rewrite Hget; case_decide as Hj; subst.
      - intros [= <-]. by exists d.
      - intros. by exists e.
      - intros He. eexists. split; [done|]. rewrite Hd in He. by simplify_eq.
      - intros. by exists e. }
    split; [done|]. exists d. split; [done|]. rewrite decide_False by lia. split; [done|].
    apply file_description_Some; [done|]. exists i. split; [|done]. unfold desc_at.
    by rewrite Hget, decide_True.
Qed.

(** A process that ends loses all its descriptions and locks, and only its. *)
Lemma release_descriptions_from_spec pid fuel : ∀ v index,
  let v' := release_descriptions_from v pid index fuel in
  length (open_file_descriptions v') = length (open_file_descriptions v) ∧
  vfs_locks v' = vfs_locks v ∧ next_file_description_id v' = next_file_description_id v ∧
  ∀ i d, desc_at v' i d ↔ desc_at v i d ∧ (index ≤ i < index + fuel → fd_owner d ≠ pid).
Proof.
  induction fuel as [|fuel IH]; intros v index; cbn [release_descriptions_from].
  { split_and!; try done. intros i d. split; [|naive_solver]. intros. split; [done|lia]. }
  set (v1 := match _ with Some _ => _ | None => _ end).
  assert (H1 : length (open_file_descriptions v1) = length (open_file_descriptions v) ∧
    vfs_locks v1 = vfs_locks v ∧ next_file_description_id v1 = next_file_description_id v ∧
    ∀ i d, desc_at v1 i d ↔ desc_at v i d ∧ (i = index → fd_owner d ≠ pid)).
  { unfold v1. destruct (open_file_descriptions v !! index) as [[d|]|] eqn:Hd; cbn [mjoin option_join].
    2,3: split_and!; try done; intros i e; (split; [|naive_solver]); intros He; split; [done|];
         intros ->; unfold desc_at in He; congruence.
    destruct (Z.eqb_spec (fd_owner d) pid) as [Ho|Ho].
    - destruct (reap_same (v <| open_file_descriptions ::= <[index := None]> |>) (fd_node d))
        as (Ha & Hb & Hc). unfold desc_at. rewrite Ha, Hb, Hc. unfold set; cbn.
      rewrite length_insert. split_and!; try done. intros i e.
      destruct (decide (i = index)) as [->|Hne].
      + rewrite list_lookup_insert_eq by (by eapply lookup_lt_Some). rewrite Hd. naive_solver.
      + rewrite list_lookup_insert_ne by done. naive_solver.
    - split_and!; try done. intros i e. split; [|naive_solver]. intros He. split; [done|].
      intros ->. unfold desc_at in He. rewrite Hd in He. by simplify_eq. }
  destruct H1 as (L1 & K1 & N1 & D1). destruct (IH v1 (S index)) as (L2 & K2 & N2 & D2).
  split_and!; [congruence|congruence|congruence|]. intros i d. rewrite D2, D1. split.
  - intros [[? Hi] Hr]. split; [done|]. intros Hb. destruct (decide (i = index)); [auto|].
    apply Hr. lia.
  - intros [? Hr]. split; [split; [done|intros ->; apply Hr; lia]|]. intros. apply Hr. lia.
Qed.

Lemma release_process_spec v pid :
  files_wf v →
  files_wf (release_process_file_descriptions v pid) ∧
  files_shrunk v (release_process_file_descriptions v pid)
    (λ d, fd_owner d ≠ pid) (λ l, lk_owner l ≠ pid).
Proof.
  intros Hwf. unfold release_process_file_descriptions.
  set (v1 := release_vfs_locks_for_process v pid).
  destruct (release_process_locks_shrunk v pid) as (_ & Hl1 & _ & Hd1 & Hk1).
  destruct (release_descriptions_from_spec pid (length (open_file_descriptions v1)) v1 0)
    as (L2 & K2 & N2 & D2).
  assert (Hsh : files_shrunk v (release_descriptions_from v1 pid 0 (length (open_file_descriptions v1)))
    (λ d, fd_owner d ≠ pid) (λ l, lk_owner l ≠ pid)).
  { split_and!; [by rewrite L2|by rewrite K2|by rewrite N2| |].
    - intros i d. rewrite D2. split.
      + intros [Hd Hr]. split; [exact Hd|]. apply Hr. unfold desc_at in Hd.
        apply lookup_lt_Some in Hd. lia.
      + intros [Hd Hr]. split; [exact Hd|done].
    - intros i l. unfold lock_at. rewrite K2. apply Hk1. }
  split; [|done]. eapply files_shrunk_wf; [exact Hwf|exact Hsh|]. cbn. naive_solver congruence.
Qed.

(** * Acquiring a lock *)

Section acquire.
Context (d : OpenFileDescription) (mode : VfsLockMode) (start len : Z).
Let own (l : VfsLock) : Prop := lk_description l = fd_id d.
Let blocks (l : VfsLock) : Prop :=
  lk_description l ≠ fd_id d ∧ locks_conflict (lock_of d mode start len) l = true.

Lemma lock_scan_spec locks : ∀ index o f,
  match lock_scan locks d mode start len index o f with
  | Err e => e = VfsBusy ∧ ∃ i l, locks !! i = Some (Some l) ∧ blocks l
  | Ok (o', f') =>
      (∀ i l, locks !! i = Some (Some l) → ¬ blocks l) ∧
      (∀ k, o' = Some k → o = Some k ∨
            ∃ i l, k = index + i ∧ locks !! i = Some (Some l) ∧ own l) ∧
      (o' = None → o = None ∧ ∀ i l, locks !! i = Some (Some l) → ¬ own l) ∧
      (∀ k, f' = Some k → f = Some k ∨ ∃ i, k = index + i ∧ locks !! i = Some None) ∧
      (f' = None → f = None ∧ ∀ i, locks !! i ≠ Some None)
  end.
Proof using.
  induction locks as [|[l|] locks IH]; intros index o f; cbn [lock_scan].
  - split_and!; try done; naive_solver.
  - destruct (Z.eqb_spec (lk_description l) (fd_id d)) as [Ho|Ho].
    + specialize (IH (S index) (Some index) f).
      destruct (lock_scan _ _ _ _ _ _ _ _) as [[o' f']|e].
      2:{ destruct IH as (-> & i & l' & ? & ?). split; [done|]. by exists (S i), l'. }
      destruct IH as (I1 & I2 & I3 & I4 & I5). split_and!.
      * intros [|i] l' Hl; [cbn in Hl; simplify_eq; by intros [? _]|by apply (I1 i)].
      * intros k [[= <-]|(i & l' & -> & ? & ?)]%I2; right.
        -- exists 0, l. split_and!; [lia|done|done].
        -- exists (S i), l'. split_and!; [lia|done|done].
      * intros Hn. by destruct (I3 Hn).
      * intros k [?|(i & -> & ?)]%I4; [by left|]. right. exists (S i). split; [lia|done].
      * intros [? Hf]%I5. split; [done|]. intros [|i]; [done|apply Hf].
    + destruct ((lk_node l =? fd_node d)%Z && _) eqn:Hc.
      * split; [done|]. exists 0, l. split; [done|]. split; [done|].
        unfold locks_conflict, lock_of; cbn. by rewrite Z.eqb_sym.
      * specialize (IH (S index) o f). destruct (lock_scan _ _ _ _ _ _ _ _) as [[o' f']|e].
        2:{ destruct IH as (-> & i & l' & ? & ?). split; [done|]. by exists (S i), l'. }
        destruct IH as (I1 & I2 & I3 & I4 & I5). split_and!.
        -- intros [|i] l' Hl; [|by apply (I1 i)]. cbn in Hl; simplify_eq. intros [_ Hb].
           unfold locks_conflict, lock_of in Hb; cbn in Hb. rewrite Z.eqb_sym in Hb. congruence.
        -- intros k [?|(i & l' & -> & ? & ?)]%I2; [by left|right].
           exists (S i), l'. split_and!; [lia|done|done].
        -- intros [? Hn]%I3. split; [done|]. intros [|i] l' Hl; [cbn in Hl; by simplify_eq|eauto].
        -- intros k [?|(i & -> & ?)]%I4; [by left|]. right. exists (S i). split; [lia|done].
        -- intros [? Hf]%I5. split; [done|]. intros [|i]; [done|apply Hf].
  - specialize (IH (S index) o (match f with None => Some index | Some _ => f end)).
    destruct (lock_scan _ _ _ _ _ _ _ _) as [[o' f']|e].
    2:{ destruct IH as (-> & i & l' & ? & ?). split; [done|]. by exists (S i), l'. }
    destruct IH as (I1 & I2 & I3 & I4 & I5). split_and!.
    + intros [|i] l' Hl; [done|by apply (I1 i)].
    + intros k [?|(i & l' & -> & ? & ?)]%I2; [by left|right].
      exists (S i), l'. split_and!; [lia|done|done].
    + intros [? Hn]%I3. split; [done|]. intros [|i] l' Hl; [done|eauto].
    + intros k [Hf|(i & -> & ?)]%I4.
      * destruct f; [by left|]. simplify_eq. right. exists 0. split; [lia|done].
      * right. exists (S i). split; [lia|done].
    + intros [Hf _]%I5. by destruct f.
Qed.

Context (v : VfsState) (Hwf : files_wf v) (Hopen : file_description v (fd_id d) = Some d).

(** Writing the lock into a slot that is free or holds the own lock. *)
Lemma put_lock_wf k :
  k < MAX_VFS_LOCKS →
  (∀ i l, lock_at v i l → ¬ blocks l) →
  (∀ l, lock_at v k l → own l) →
  (∀ i l, lock_at v i l → own l → i = k) →
  files_wf (v <| vfs_locks ::= <[k := Some (lock_of d mode start len)]> |>).
Proof using Hwf Hopen.
  intros Hk Hfree Hown Huniq. pose proof Hwf as [Hdl Hll Hn Hid Hu Ho H1 Hx].
  set (v' := v <| vfs_locks ::= _ |>). set (nl := lock_of d mode start len) in *.
  assert (Hlock : ∀ i l, lock_at v' i l ↔ (i = k ∧ l = nl) ∨ (i ≠ k ∧ lock_at v i l)).
  { intros i l. unfold lock_at, v', set; cbn. destruct (decide (i = k)) as [->|Hne].
    - rewrite list_lookup_insert_eq by lia. naive_solver.
    - rewrite list_lookup_insert_ne by done. naive_solver. }
  assert (Hother : ∀ i l, i ≠ k → lock_at v i l → locks_conflict nl l = false).
  { intros i l Hi Hl. destruct (locks_conflict nl l) eqn:Hc; [|done].
    exfalso. apply (Hfree i l Hl). split; [|done]. intros Heq. apply Hi. by eapply Huniq. }
  split; [done|unfold v', set; cbn; by rewrite length_insert|done|exact Hid|exact Hu|..].
  - intros i l [[-> ->]|[_ Hl]]%Hlock; [|by apply Ho with i].
    apply file_description_Some in Hopen as (j & Hd & _); [|done]. by exists j, d.
  - intros i j l l' [[-> ->]|[Hi Hl]]%Hlock [[-> ->]|[Hj Hl']]%Hlock Heq; [done|..].
    + exfalso. apply Hj. by eapply Huniq.
    + exfalso. apply Hi. by eapply Huniq.
    + eauto.
  - intros i j l l' [[-> ->]|[Hi Hl]]%Hlock [[-> ->]|[Hj Hl']]%Hlock Hne; [done|..].
    + by apply (Hother j).
    + rewrite locks_conflict_comm. by apply (Hother i).
    + eauto.
Qed.

(** There is always a slot for one more lock: every lock belongs to an open
    description and no description holds two. *)
Lemma free_lock_slot :
  (∀ i l, lock_at v i l → ¬ own l) → ∃ i, vfs_locks v !! i = Some None.
Proof using Hwf Hopen.
  intros Hno. pose proof Hwf as [Hdl Hll Hn Hid Hu Ho H1 Hx].
  destruct (decide (Exists (λ o, o = None) (vfs_locks v))) as [Hex|Hall].
  { apply Exists_exists in Hex as (o & Hin & ->). by apply list_elem_of_lookup in Hin as [i ?]; eauto. }
  exfalso.
  assert (Hfull : ∀ i, i < MAX_VFS_LOCKS → ∃ l, lock_at v i l).
  { intros i Hi. destruct (lookup_lt_is_Some_2 (vfs_locks v) i ltac:(lia)) as [[l|] Hl].
    - by exists l.
    - exfalso. apply Hall, Exists_exists. exists None. split; [|done].
      by eapply list_elem_of_lookup_2. }
  set (ids := lk_description <$> omap id (vfs_locks v)).
  set (open := fd_id <$> omap id (open_file_descriptions v)).
  assert (Hlen : length ids = MAX_VFS_LOCKS).
  { unfold ids. rewrite length_fmap, <-Hll. clear -Hall.
    induction (vfs_locks v) as [|o l IH]; [done|]. destruct o as [x|]; cbn.
    - f_equal. apply IH. intros He. apply Hall. by right.
    - exfalso. apply Hall. by left. }
  assert (Hnd : NoDup (fd_id d :: ids)).
  { constructor.
    - intros (l & Heq & Hin)%list_elem_of_fmap.
      apply list_elem_of_omap in Hin as (o & Hin & [= ->]).
      apply list_elem_of_lookup in Hin as [i Hi]. by apply (Hno i l).
    - apply NoDup_fmap_omap. intros i j l l' Hi Hj. by apply (H1 i j l l'). }
  assert (Hsub : (fd_id d :: ids) ⊆+ open).
  { apply NoDup_submseteq; [done|]. intros x [->|Hin]%elem_of_cons.
    - apply file_description_Some in Hopen as (j & Hd & _); [|done].
      apply list_elem_of_fmap_2, list_elem_of_omap. exists (Some d). split; [|done].
      by eapply list_elem_of_lookup_2.
    - apply list_elem_of_fmap in Hin as (l & -> & Hin).
      apply list_elem_of_omap in Hin as (o & Hin & [= ->]).
      apply list_elem_of_lookup in Hin as [i Hi].
      destruct (Ho i l Hi) as (j & e & He & <- & _).
      apply list_elem_of_fmap_2, list_elem_of_omap. exists (Some e). split; [|done].
      by eapply list_elem_of_lookup_2. }
  apply submseteq_length in Hsub. cbn [length] in Hsub. rewrite Hlen in Hsub.
  unfold open in Hsub. rewrite length_fmap in Hsub.
  pose proof (length_omap_le (open_file_descriptions v)) as Hle. unfold MAX_VFS_LOCKS in *. lia.
Qed.

(** The call succeeds exactly when no other description holds a conflicting
    lock, and then the description's lock is the one asked for. *)
Lemma acquire_vfs_lock_spec :
  match acquire_vfs_lock v d mode start len with
  | (Ok _, v') =>
      files_wf v' ∧ open_file_descriptions v' = open_file_descriptions v ∧
      (∀ i l, lock_at v i l → ¬ blocks l) ∧
      ∀ l, (∃ i, lock_at v' i l) ↔
           l = lock_of d mode start len ∨ ((∃ i, lock_at v i l) ∧ ¬ own l)
  | (Err e, v') => v' = v ∧ e = VfsBusy ∧ ∃ i l, lock_at v i l ∧ blocks l
  end.
Proof using Hwf Hopen.
  unfold acquire_vfs_lock. pose proof (lock_scan_spec (vfs_locks v) 0 None None) as H.
  destruct (lock_scan _ _ _ _ _ _ _ _) as [[o f]|e]; [|done].
  destruct H as (Hfree & Hown & Hnone & Hf & Hfn). pose proof Hwf as [Hdl Hll _ _ _ _ H1 _].
  assert (Hput : ∀ k, k < MAX_VFS_LOCKS → (∀ l, lock_at v k l → own l) →
    (∀ i l, lock_at v i l → own l → i = k) →
    files_wf (v <| vfs_locks ::= <[k := Some (lock_of d mode start len)]> |>) ∧
    open_file_descriptions (v <| vfs_locks ::= <[k := Some (lock_of d mode start len)]> |>) =
      open_file_descriptions v ∧
    (∀ i l, lock_at v i l → ¬ blocks l) ∧
    ∀ l, (∃ i, lock_at (v <| vfs_locks ::= <[k := Some (lock_of d mode start len)]> |>) i l) ↔
         l = lock_of d mode start len ∨ ((∃ i, lock_at v i l) ∧ ¬ own l)).
  { intros k Hk Hko Hku. split_and!; [by apply put_lock_wf|done|done|].
    intros l. unfold lock_at, set; cbn. split.
    - intros (i & Hi). destruct (decide (i = k)) as [->|Hne].
      + rewrite list_lookup_insert_eq in Hi by lia. left. by simplify_eq.
      + rewrite list_lookup_insert_ne in Hi by done. right. split; [by exists i|].
        intros Hl. apply Hne. by eapply Hku.
    - intros [->|((i & Hi) & Hl)]; [exists k; by rewrite list_lookup_insert_eq by lia|].
      exists i. rewrite list_lookup_insert_ne; [done|]. intros ->. by apply Hl, Hko. }
  destruct o as [k|].
  - destruct (Hown k eq_refl) as [?|(i & l & Hki & Hl & Hlo)]; [done|]. cbn in Hki. subst i.
    apply Hput.
    + rewrite <-Hll. by eapply lookup_lt_Some.
    + intros l' Hl'. unfold lock_at in Hl'. by simplify_eq.
    + intros j l' Hl' Hlo'. eapply H1; [exact Hl'|exact Hl|]. unfold own in *. congruence.
  - destruct (Hnone eq_refl) as [_ Hno]. destruct f as [k|].
    + destruct (Hf k eq_refl) as [?|(i & Hki & Hl)]; [done|]. cbn in Hki. subst i.
      apply Hput.
      * rewrite <-Hll. by eapply lookup_lt_Some.
      * intros l' Hl'. unfold lock_at in Hl'. congruence.
      * intros j l' Hl' Hlo'. exfalso. by eapply Hno.
    + exfalso. destruct (free_lock_slot Hno) as [i Hi]. by apply (proj2 (Hfn eq_refl) i).
Qed.
End acquire.

(** * Lock requests *)

Definition VFS_LOCK_SHARED : Z := 1.
Definition VFS_LOCK_EXCLUSIVE : Z := 2.
Definition VFS_LOCK_RANGE : Z := Z.shiftl 1 8.
Definition VFS_LOCK_MODE_MASK : Z := Z.lor VFS_LOCK_SHARED VFS_LOCK_EXCLUSIVE.

(** The arguments of [vfs_lock] as it decodes them: mode, start and length. *)
Definition decode_lock_request (flags packed_range : Z) : Result IpcError (VfsLockMode * Z * Z) :=
  let m := Z.land flags VFS_LOCK_MODE_MASK in
  let mode := if (m =? VFS_LOCK_SHARED)%Z then Some LockShared
              else if (m =? VFS_LOCK_EXCLUSIVE)%Z then Some LockExclusive else None in
  match mode with
  | None => Err VfsUnsupported
  | Some mode =>
      if negb (Z.land flags (not_u64 (Z.lor VFS_LOCK_MODE_MASK VFS_LOCK_RANGE)) =? 0)%Z
      then Err VfsUnsupported
      else if negb (Z.land flags VFS_LOCK_RANGE =? 0)%Z then
        let len := Z.shiftr packed_range 32 in
        let start := Z.land packed_range (Z.ones 32) in
        if (len =? 0)%Z then Err VfsUnsupported else Ok (mode, start, len)
      else Ok (mode, 0%Z, u64_max)
  end.

Lemma decode_lock_request_range flags packed mode start len :
  is_u64 packed → decode_lock_request flags packed = Ok (mode, start, len) →
  (0 ≤ start)%Z ∧ (0 < len)%Z ∧ (start + len ≤ u64_max)%Z.
Proof.
  intros [H0 Hm]. unfold decode_lock_request.
  destruct (if (_ =? VFS_LOCK_SHARED)%Z then _ else _) as [m|]; [|done].
  case_match; [done|]. case_match.
  - case_match eqn:Hz; [done|]. intros [= <- <- <-].
    rewrite Z.land_ones, Z.shiftr_div_pow2 in * by lia.
    pose proof (Z.mod_pos_bound packed (2 ^ 32) ltac:(lia)).
    pose proof (Z.div_pos packed (2 ^ 32) H0 ltac:(lia)).
    assert (packed / 2 ^ 32 < 2 ^ 32)%Z
      by (apply Z.div_lt_upper_bound; unfold u64_max in Hm; lia).
    unfold u64_max. lia.
  - intros [= <- <- <-]. unfold u64_max. lia.
Qed.

Lemma ranges_overlap_spec a b c d :
  (0 ≤ a)%Z → (0 ≤ c)%Z → (0 < b)%Z → (0 < d)%Z → (a + b ≤ u64_max)%Z → (c + d ≤ u64_max)%Z →
  ranges_overlap a b c d = true ↔ ∃ p, (a ≤ p < a + b)%Z ∧ (c ≤ p < c + d)%Z.
Proof.
  intros Ha Hc Hb Hd H1 H2. unfold ranges_overlap, sat_add.
  rewrite (proj2 (Z.eqb_neq b 0)), (proj2 (Z.eqb_neq d 0)) by lia. cbn [orb].
  rewrite andb_true_iff, !Z.ltb_lt, !Z.min_l by lia. split.
  - intros. exists (Z.max a c). lia.
  - intros (p & ? & ?). lia.
Qed.

(** * Reachable states *)

(** Every operation that touches descriptions or locks; [fs_nodes] stands for
    those that touch neither. *)
Inductive file_step : VfsState → VfsState → Prop :=
| fs_open v node rights flags owner cap :
    (next_file_description_id v < u64_max)%Z →
    file_step v (open_file_description v node rights flags owner cap).2
| fs_retain v id : file_step v (retain_file_description v id).2
| fs_release v id : file_step v (release_file_description v id).2
| fs_lock v d mode start len :
    file_description v (fd_id d) = Some d →
    file_step v (acquire_vfs_lock v d mode start len).2
| fs_unlock v id : file_step v (release_vfs_lock v id).2
| fs_exit v pid : file_step v (release_process_file_descriptions v pid)
| fs_event v parent kind name : file_step v (record_vfs_event v parent kind name)
| fs_nodes v v' : same_files v v' → file_step v v'.

Lemma vfs_state_new_wf : files_wf vfs_state_new.
Proof.
  split; cbn [vfs_state_new open_file_descriptions vfs_locks next_file_description_id];
    rewrite ?length_replicate; try done.
  all: unfold desc_at, lock_at; cbn [vfs_state_new open_file_descriptions vfs_locks].
  all: intros *; intros [[=] _]%lookup_replicate.
Qed.

Lemma file_step_wf v v' : file_step v v' → files_wf v → files_wf v'.
Proof.
  destruct 1 as [v node rights flags owner cap Hn|v id|v id|v d mode start len Ho|v id|v pid
                |v parent kind name|v v' Hs]; intros Hwf.
  - pose proof (open_file_description_spec v node rights flags owner cap Hwf Hn) as H.
    destruct (open_file_description _ _ _ _ _ _) as [[id|e] v']; [apply H|by destruct H as [-> _]].
  - by apply retain_wf.
  - pose proof (release_file_description_spec v id Hwf) as H.
    destruct (release_file_description v id) as [[[]|e] v']; [apply H|by destruct H as [-> _]].
  - pose proof (acquire_vfs_lock_spec d mode start len v Hwf Ho) as H.
    destruct (acquire_vfs_lock _ _ _ _ _) as [[[]|e] v']; [apply H|by destruct H as [-> _]].
  - eapply files_shrunk_wf; [exact Hwf|apply release_vfs_lock_shrunk|done].
  - by apply release_process_spec.
  - by apply record_vfs_event_wf.
  - by eapply same_files_wf.
Qed.

Lemma reachable_files_wf v : rtc file_step vfs_state_new v → files_wf v.
Proof.
  intros H. remember vfs_state_new as v0 eqn:Hv0.
  assert (Hwf : files_wf v0) by (subst; apply vfs_state_new_wf). clear Hv0.
  induction H as [|x y z Hstep _ IH]; [done|]. apply IH. by eapply file_step_wf.
Qed.

(** * Claims *)

(** The bytes of a lock; the end of a range saturates at the largest offset. *)
Definition lock_covers (l : VfsLock) (offset : Z) : Prop :=
  (lk_start l ≤ offset < lk_start l + lk_len l)%Z ∧ (offset < u64_max)%Z.

(** Ranges overlap just when they have a byte in common. *)
Lemma ranges_overlap_common l l' offset :
  lock_covers l offset → lock_covers l' offset →
  ranges_overlap (lk_start l) (lk_len l) (lk_start l') (lk_len l') = true.
Proof.
  unfold lock_covers. intros [H1 H2] [H3 _]. unfold ranges_overlap, sat_add.
  rewrite (proj2 (Z.eqb_neq (lk_len l) 0)), (proj2 (Z.eqb_neq (lk_len l') 0)) by lia. cbn [orb].
  rewrite andb_true_iff, !Z.ltb_lt. lia.
Qed.

Lemma ranges_overlap_iff l l' :
  (0 ≤ lk_len l)%Z → (0 ≤ lk_len l')%Z →
  ranges_overlap (lk_start l) (lk_len l) (lk_start l') (lk_len l') = true ↔
    ∃ offset, lock_covers l offset ∧ lock_covers l' offset.
Proof.
  intros Hl Hl'. split; [|by intros (p & ? & ?); eapply ranges_overlap_common].
  unfold ranges_overlap, sat_add, lock_covers.
  destruct (Z.eqb_spec (lk_len l) 0), (Z.eqb_spec (lk_len l') 0); cbn [orb]; try done.
  rewrite andb_true_iff, !Z.ltb_lt. intros. exists (Z.max (lk_start l) (lk_start l')). lia.
Qed.

(** C32: locks exclude each other on a vnode. In every state that opens, dups,
    closes, locks, unlocks, process exits and events can lead to, two locks on
    one vnode that have a byte in common belong to different descriptions and
    are both shared, no description holds two locks, and every lock belongs to
    an open description of the same vnode and process: none outlives it. A
    file with several links has a vnode for each, and locks taken through
    different links do not exclude each other. *)
Theorem vfs_locks_exclude (v : VfsState) :
  rtc file_step vfs_state_new v →
  (∀ i j l l', lock_at v i l → lock_at v j l' → i ≠ j →
     lk_description l ≠ lk_description l' ∧
     (lk_node l = lk_node l' → ∀ offset, lock_covers l offset → lock_covers l' offset →
      lk_mode l = LockShared ∧ lk_mode l' = LockShared)) ∧
  (∀ i l, lock_at v i l → ∃ d, file_description v (lk_description l) = Some d ∧
     fd_node d = lk_node l ∧ fd_owner d = lk_owner l).
Proof.
  intros Hwf%reachable_files_wf. split.
  - intros i j l l' Hl Hl' Hne. split; [intros Heq; apply Hne; by eapply (fw_lock_one v Hwf)|].
    intros Hnode offset Ho Ho'. pose proof (ranges_overlap_common _ _ _ Ho Ho') as Hov. pose proof (fw_lock_exclusive v Hwf i j l l' Hl Hl' Hne) as Hc.
    unfold locks_conflict in Hc. rewrite Hnode, Z.eqb_refl, Hov in Hc. cbn in Hc.
    apply orb_false_iff in Hc as [H1%bool_decide_eq_false H2%bool_decide_eq_false].
    by destruct (lk_mode l), (lk_mode l').
  - intros i l Hl. destruct (fw_lock_owner v Hwf i l Hl) as (j & d & Hd & H1 & H2 & H3).
    exists d. split; [|done]. apply file_description_Some; eauto.
Qed.

(** Two processes with shared locks on overlapping ranges of one file. *)
Definition one_open : VfsState := (open_file_description vfs_state_new 3 1 0 1 9).2.
Definition two_open : VfsState := (open_file_description one_open 3 1 0 2 9).2.
Definition one_reader : VfsState :=
  (acquire_vfs_lock two_open (file_description_new 1 3 1 0 1 9 0) LockShared 0 10).2.
Definition two_readers : VfsState :=
  (acquire_vfs_lock one_reader (file_description_new 2 3 1 0 2 9 0) LockShared 5 10).2.

Lemma two_readers_run : rtc file_step vfs_state_new two_readers.
Proof.
  apply (rtc_l _ _ one_open);
    [exact (fs_open vfs_state_new 3 1 0 1 9 (eq_refl : (1 ?= u64_max)%Z = Lt))|].
  apply (rtc_l _ _ two_open);
    [exact (fs_open one_open 3 1 0 2 9 ltac:(vm_compute; reflexivity))|].
  apply (rtc_l _ _ one_reader);
    [exact (fs_lock two_open (file_description_new 1 3 1 0 1 9 0) LockShared 0 10
              ltac:(vm_compute; reflexivity))|].
  apply (rtc_l _ _ two_readers);
    [exact (fs_lock one_reader (file_description_new 2 3 1 0 2 9 0) LockShared 5 10
              ltac:(vm_compute; reflexivity))|].
  apply rtc_refl.
Qed.

Lemma two_readers_wf : files_wf two_readers.
Proof. apply reachable_files_wf, two_readers_run. Qed.

Lemma vfs_locks_exclude_witness :
  lock_at two_readers 1 (mkVfsLock 3 2 2 LockShared 5 10) ∧
  ∃ d, file_description two_readers 2 = Some d ∧ fd_node d = 3%Z ∧ fd_owner d = 2%Z.
Proof.
  split; [vm_compute; reflexivity|].
  refine (proj2 (vfs_locks_exclude two_readers two_readers_run) 1 (mkVfsLock 3 2 2 LockShared 5 10) _).
  vm_compute. reflexivity.
Defined.

(** Asking for a lock succeeds exactly when no other description holds a
    conflicting one, then replaces the description's own lock and changes no
    other; it is refused as busy otherwise, changing nothing, and never for
    lack of space. *)
Theorem acquire_vfs_lock_exact (v : VfsState) (d : OpenFileDescription) (mode : VfsLockMode)
    (start len : Z) :
  files_wf v → file_description v (fd_id d) = Some d →
  match acquire_vfs_lock v d mode start len with
  | (Ok _, v') =>
      files_wf v' ∧ open_file_descriptions v' = open_file_descriptions v ∧
      (∀ i l, lock_at v i l → lk_description l ≠ fd_id d →
              locks_conflict (lock_of d mode start len) l = false) ∧
      ∀ l, (∃ i, lock_at v' i l) ↔
           l = lock_of d mode start len ∨ ((∃ i, lock_at v i l) ∧ lk_description l ≠ fd_id d)
  | (Err e, v') => v' = v ∧ e = VfsBusy ∧
      ∃ i l, lock_at v i l ∧ lk_description l ≠ fd_id d ∧
             locks_conflict (lock_of d mode start len) l = true
  end.
Proof.
  intros Hwf Ho. pose proof (acquire_vfs_lock_spec d mode start len v Hwf Ho) as H.
  destruct (acquire_vfs_lock _ _ _ _ _) as [[[]|e] v']; [|done].
  destruct H as (H1 & H2 & H3 & H4). split_and!; [done|done| |done].
  intros i l Hl Hd. destruct (locks_conflict _ l) eqn:Hc; [|done].
  exfalso. by apply (H3 i l Hl).
Qed.

Lemma acquire_vfs_lock_exact_witness :
  (acquire_vfs_lock two_readers (file_description_new 1 3 1 0 1 9 0) LockExclusive 0 6).1
    = Err VfsBusy ∧
  let v := one_open in
  let d := file_description_new 1 3 1 0 1 9 0 in
  match acquire_vfs_lock v d LockExclusive 0 6 with
  | (Ok _, v') =>
      files_wf v' ∧ open_file_descriptions v' = open_file_descriptions v ∧
      (∀ i l, lock_at v i l → lk_description l ≠ fd_id d →
              locks_conflict (lock_of d LockExclusive 0 6) l = false) ∧
      ∀ l, (∃ i, lock_at v' i l) ↔
           l = lock_of d LockExclusive 0 6 ∨ ((∃ i, lock_at v i l) ∧ lk_description l ≠ fd_id d)
  | (Err e, v') => v' = v ∧ e = VfsBusy ∧
      ∃ i l, lock_at v i l ∧ lk_description l ≠ fd_id d ∧
             locks_conflict (lock_of d LockExclusive 0 6) l = true
  end.
Proof.
  split; [vm_compute; reflexivity|]. intros v d.
  apply (acquire_vfs_lock_exact v d LockExclusive 0 6); [|vm_compute; reflexivity].
  apply (file_step_wf vfs_state_new); [|apply vfs_state_new_wf].
  exact (fs_open vfs_state_new 3 1 0 1 9 ltac:(vm_compute; reflexivity)).
Defined.

(** Dropping the last reference of a description removes it and all its
    locks and nothing else of either table; dropping another reference leaves
    its locks in place. When a process ends, exactly its own descriptions and
    locks go. *)
Theorem release_removes_own_locks (v : VfsState) (id : FileDescriptionId) (pid : ProcessId) :
  files_wf v →
  match release_file_description v id with
  | (Ok _, v') =>
      files_wf v' ∧ ∃ d, file_description v id = Some d ∧
      if decide (fd_ref_count d ≤ 1)%Z
      then files_shrunk v v' (λ d, fd_id d ≠ id) (λ l, lk_description l ≠ id)
      else vfs_locks v' = vfs_locks v ∧
           file_description v' id = Some (d <| fd_ref_count := (fd_ref_count d - 1)%Z |>)
  | (Err e, v') => v' = v ∧ e = VfsBadHandle ∧ file_description v id = None
  end ∧
  files_shrunk v (release_process_file_descriptions v pid)
    (λ d, fd_owner d ≠ pid) (λ l, lk_owner l ≠ pid).
Proof.
  intros Hwf. split; [by apply release_file_description_spec|by apply release_process_spec].
Qed.

Lemma release_removes_own_locks_witness :
  files_shrunk vfs_state_new (release_process_file_descriptions vfs_state_new 1)
    (λ d, fd_owner d ≠ 1%Z) (λ l, lk_owner l ≠ 1%Z).
Proof. apply (release_removes_own_locks vfs_state_new 1 1), vfs_state_new_wf. Defined.

(** two lock requests the kernel accepts overlap, by its saturating
    comparison, exactly when some byte offset lies in both ranges. *)
Theorem lock_ranges_overlap_exact (f1 p1 f2 p2 : Z) m1 s1 l1 m2 s2 l2 :
  is_u64 p1 → is_u64 p2 →
  decode_lock_request f1 p1 = Ok (m1, s1, l1) → decode_lock_request f2 p2 = Ok (m2, s2, l2) →
  ranges_overlap s1 l1 s2 l2 = true ↔ ∃ p, (s1 ≤ p < s1 + l1)%Z ∧ (s2 ≤ p < s2 + l2)%Z.
Proof.
  intros H1 H2 E1%decode_lock_request_range E2%decode_lock_request_range; [|done..].
  apply ranges_overlap_spec; lia.
Qed.

Lemma lock_ranges_overlap_exact_witness :
  ranges_overlap 5 10 0 u64_max = true ↔ ∃ p, (5 ≤ p < 5 + 10)%Z ∧ (0 ≤ p < 0 + u64_max)%Z.
Proof.
  apply (lock_ranges_overlap_exact 257 (10 * 2 ^ 32 + 5) 2 0 LockShared 5 10 LockExclusive 0 u64_max);
    [vm_compute; split; congruence|vm_compute; split; congruence|vm_compute; reflexivity
    |vm_compute; reflexivity].
Defined.
