(* ===== verification/VfsWire.v ===== *)
(** The little-endian records the kernel exchanges with user programs and
    services ([ipc/vfs_wire.rs]), and the file identity and link count that the
    stat record holds. *)

From S2P Require Import Prelude KernelBase Transport VfsPath KernelObjects ProcessRuntime.
From S2P Require Import CapRegistry VfsState.

(** * Integers in bytes *)

(** [write_u64_le], [write_u16_le]; the callers stay within the record. *)
Definition write_u64_le (destination : list byte) (offset : nat) (value : Z) : list byte :=
  write_bytes destination offset (le_bytes 8 value).
Definition write_u16_le (destination : list byte) (offset : nat) (value : Z) : list byte :=
  write_bytes destination offset (le_bytes 2 value).

(** [read_u64_le], [read_u16_le]. *)
Definition read_u64_le (source : list byte) (offset : nat) : Z := le_value (take 8 (drop offset source)).
Definition read_u16_le (source : list byte) (offset : nat) : Z := le_value (take 2 (drop offset source)).

(** * Identity of files *)

(** The smallest identifier among the nodes [sel] selects; the fallback when
    there is none. *)
Definition smallest_node_id (sel : VfsNode → bool) (v : VfsState) (fallback : VfsNodeId) : Z :=
  let identity := foldl (λ identity o,
    match o with
    | Some node => if sel node && (vn_id node <? identity)%Z then vn_id node else identity
    | None => identity
    end) u64_max (take (vfs_node_count v) (vfs_nodes v)) in
  if (identity =? u64_max)%Z then fallback else identity.

(** [vfs_memory_file_identity]. *)
Definition vfs_memory_file_identity (v : VfsState) (backing : nat) (fallback : VfsNodeId) : Z :=
  smallest_node_id (backed_by_memory backing) v fallback.

(** [vertexfs_file_identity]. *)
Definition vertexfs_file_identity (v : VfsState) (backing : nat) (fallback : VfsNodeId) : Z :=
  match vertexfs_files v !! backing with
  | Some file =>
      if negb (vf_inode_id file =? 0)%Z then vf_inode_id file
      else smallest_node_id (backed_by_vertexfs backing) v fallback
  | None => smallest_node_id (backed_by_vertexfs backing) v fallback
  end.

(** [vfs_node_link_count]. *)
Definition vfs_node_link_count (v : VfsState) (node : VfsNode) : Z :=
  match vn_backing node with
  | VbMemoryFile backing => Z.of_nat (vfs_memory_file_link_count v backing)
  | VbVertexFsFile backing => Z.of_nat (vertexfs_file_link_count v backing)
  | _ => 1
  end.

(** [vfs_node_stat_identity]. *)
Definition vfs_node_stat_identity (v : VfsState) (node : VfsNode) : Z :=
  match vn_backing node with
  | VbMemoryFile backing => vfs_memory_file_identity v backing (vn_id node)
  | VbVertexFsFile backing => vertexfs_file_identity v backing (vn_id node)
  | _ => vn_id node
  end.

(** * Records *)

Definition VFS_STAT_BYTES : nat := 64.
Definition VFS_DIRENT_BYTES : nat := 96.
Definition VFS_WATCH_EVENT_BYTES : nat := 96.

(** [vfs_node_kind_value]. *)
Definition vfs_node_kind_value (kind : VfsNodeKind) : Z :=
  match kind with
  | NkRegularFile => 1
  | NkDirectory => 2
  | NkDeviceNode => 3
  | NkPipe => 4
  | NkSyntheticNode => 5
  end.

(** [write_vfs_stat_record], over a record of zeros. *)
Definition write_vfs_stat_record (v : VfsState) (node : VfsNode) (size rights : Z) : list byte :=
  let stat := replicate VFS_STAT_BYTES 0%Z in
  let stat := write_u64_le stat 0 (vfs_node_kind_value (vn_kind node)) in
  let stat := write_u64_le stat 8 size in
  let stat := write_u64_le stat 16 (vfs_node_stat_identity v node) in
  let stat := write_u64_le stat 24 rights in
  let stat := write_u64_le stat 32 (vn_metadata_version node) in
  let stat := write_u64_le stat 40 (vfs_node_link_count v node) in
  let stat := write_u64_le stat 48 0 in
  write_u64_le stat 56 0.

(** [write_vfs_dirent_record], over a record of zeros; a name has at most 64
    bytes, so it fits. *)
Definition write_vfs_dirent_record (child : VfsNode) : list byte :=
  let dirent := replicate VFS_DIRENT_BYTES 0%Z in
  let dirent := write_u64_le dirent 0 (vfs_node_kind_value (vn_kind child)) in
  let dirent := write_u64_le dirent 8 (vn_id child) in
  let dirent := write_u64_le dirent 16 (Z.of_nat (name_len (vn_name child))) in
  write_bytes dirent 24 (name_as_bytes (vn_name child)).

(** [write_vfs_watch_event_record], over a record of zeros. *)
Definition write_vfs_watch_event_record (event : VfsEvent) : list byte :=
  let record := replicate VFS_WATCH_EVENT_BYTES 0%Z in
  let record := write_u64_le record 0 (ev_kind event) in
  let record := write_u64_le record 8 (ev_metadata_version event) in
  let record := write_u64_le record 16 (Z.of_nat (name_len (ev_name event))) in
  write_bytes record 24 (take (VFS_WATCH_EVENT_BYTES - 24) (name_as_bytes (ev_name event))).
