(* ===== verification/Runtime.v ===== *)
(** The kernel's runtime state ([ipc/runtime_state.rs]), the lookup of
    capabilities and of the objects they name ([ipc/object_lookup.rs],
    [ipc/runtime_access.rs]) and the reachability test of
    [ipc/inspect_report.rs]. *)

From S2P Require Import Prelude KernelBase Transport VfsPath KernelObjects ProcessRuntime.
From S2P Require Import BootConfig BootPolicy CapRegistry VfsState.

Definition MAX_SERVICE_LIFECYCLE_EVENTS : nat := 128.

(** [ServiceLifecycleState] and [ServiceLifecycleEvent] of [ipc.rs]. *)
Inductive ServiceLifecycleState :=
| SlDeclared | SlStarting | SlReady | SlFailed | SlRestarting | SlExited.
Record ServiceLifecycleEvent := mkServiceLifecycleEvent {
  sl_service : string; sl_state : ServiceLifecycleState; sl_status : Z; sl_has_status : bool }.

(** The identifiers of the objects the boot code made, by their index in the
    boot configuration. *)
Record BootObjectIds := mkBootObjectIds {
  endpoint_ids : list (option KernelObjectId);
  store_object_ids : list (option KernelObjectId);
  state_volume_ids : list (option KernelObjectId);
  network_port_ids : list (option KernelObjectId);
  io_port_ids : list (option KernelObjectId);
  mmio_region_ids : list (option KernelObjectId);
  framebuffer_ids : list (option KernelObjectId);
  interrupt_line_ids : list (option KernelObjectId);
  dma_region_ids : list (option KernelObjectId);
  pci_device_ids : list (option KernelObjectId);
  virtio_device_ids : list (option KernelObjectId);
  namespace_ids : list (option KernelObjectId);
  vfs_root_ids : list (option KernelObjectId);
  timer_id : option KernelObjectId;
  process_control_id : option KernelObjectId;
  secret_id : option KernelObjectId
}.
#[export] Instance eta_BootObjectIds : Eta BootObjectIds := λ i,
  mkBootObjectIds (endpoint_ids i) (store_object_ids i) (state_volume_ids i) (network_port_ids i) (io_port_ids i)
    (mmio_region_ids i) (framebuffer_ids i) (interrupt_line_ids i) (dma_region_ids i) (pci_device_ids i)
    (virtio_device_ids i) (namespace_ids i) (vfs_root_ids i) (timer_id i) (process_control_id i) (secret_id i).
Definition boot_object_ids_new : BootObjectIds :=
  let per_object := replicate MAX_OBJECTS None in
  mkBootObjectIds per_object per_object (replicate MAX_BOOT_STATE_VOLUMES None) per_object per_object
    per_object per_object per_object per_object per_object per_object
    (replicate MAX_BOOT_NAMESPACES None) (replicate MAX_BOOT_VFS_ROOTS None) None None None.

(** The endpoints of the block and state services, and the counter of their
    transactions. *)
Record ServiceEndpoints := mkServiceEndpoints {
  state_vfs_request_endpoint : option KernelObjectId;
  state_vfs_reply_endpoint : option KernelObjectId;
  vertexfs_device_request_endpoint : option KernelObjectId;
  vertexfs_device_reply_endpoint : option KernelObjectId;
  generation_metadata_block_request_endpoint : option KernelObjectId;
  generation_metadata_block_reply_endpoint : option KernelObjectId;
  next_vfs_state_transaction_id : Z
}.
#[export] Instance eta_ServiceEndpoints : Eta ServiceEndpoints := λ e,
  mkServiceEndpoints (state_vfs_request_endpoint e) (state_vfs_reply_endpoint e)
    (vertexfs_device_request_endpoint e) (vertexfs_device_reply_endpoint e)
    (generation_metadata_block_request_endpoint e) (generation_metadata_block_reply_endpoint e)
    (next_vfs_state_transaction_id e).
Definition service_endpoints_new : ServiceEndpoints := mkServiceEndpoints None None None None None None 1.

(** [RuntimeState]; the registry of capabilities, the VFS fields, the boot
    identifiers and the service endpoints are grouped in records of their own. *)
Record RuntimeState := mkRuntimeState {
  rt_objects : ObjectTable;
  rt_processes : ProcessTable;
  rt_generation_id : string;
  rt_active_config : option BootRuntimeConfig;
  rt_caps : CapRegistry;
  rt_vfs : VfsState;
  rt_boot_ids : BootObjectIds;
  rt_vfs_mount_ids : list (option KernelObjectId);
  rt_vfs_mount_count : nat;
  rt_services : ServiceEndpoints;
  rt_process_template_pids : list (option ProcessId);
  rt_service_lifecycle_events : list (option ServiceLifecycleEvent);
  rt_service_lifecycle_event_count : nat
}.
#[export] Instance eta_RuntimeState : Eta RuntimeState := λ r,
  mkRuntimeState (rt_objects r) (rt_processes r) (rt_generation_id r) (rt_active_config r)
    (rt_caps r) (rt_vfs r) (rt_boot_ids r) (rt_vfs_mount_ids r) (rt_vfs_mount_count r) (rt_services r)
    (rt_process_template_pids r) (rt_service_lifecycle_events r)
    (rt_service_lifecycle_event_count r).

(** [RuntimeState::new]. *)
Definition runtime_new : RuntimeState :=
  mkRuntimeState table_new ptable_new "" None registry_new vfs_state_new boot_object_ids_new
    (replicate MAX_VFS_MOUNTS None) 0 service_endpoints_new (replicate MAX_PROCESSES None)
    (replicate MAX_SERVICE_LIFECYCLE_EVENTS None) 0.

(** [RuntimeState::reset_capability_lifecycle]. *)
Definition reset_capability_lifecycle (config : BootRuntimeConfig) (rt : RuntimeState) : RuntimeState :=
  rt <| rt_generation_id := cf_generation_id config |>
     <| rt_active_config := Some config |>
     <| rt_caps ::= registry_reset |>
     <| rt_vfs ::= vfs_state_reset |>
     <| rt_boot_ids := boot_object_ids_new |>
     <| rt_vfs_mount_count := 0 |>
     <| rt_vfs_mount_ids ::= λ l, map_upto (λ _, None) l (length l) |>
     <| rt_services := service_endpoints_new |>
     <| rt_process_template_pids ::= λ l, map_upto (λ _, None) l (length l) |>
     <| rt_service_lifecycle_event_count := 0 |>
     <| rt_service_lifecycle_events ::= λ l, map_upto (λ _, None) l (length l) |>.

(** The kernel's calls run on the runtime state and may fail. *)
Abbreviation RT := (M RuntimeState IpcError) (only parsing).

(** * Small operations *)

(** [current_process_name]. *)
Definition current_process_name (rt : RuntimeState) : string :=
  match current_process (rt_processes rt) with Some p => p_name p | None => "<none>" end.

(** [current_process_id]. *)
Definition current_process_id (rt : RuntimeState) : ProcessId :=
  match current_process (rt_processes rt) with Some p => p_pid p | None => pid_empty end.

(** [RuntimeState::record_service_lifecycle]. *)
Definition record_service_lifecycle (rt : RuntimeState) (service : string)
    (state : ServiceLifecycleState) (status : option Z) : RuntimeState :=
  let event := Some (mkServiceLifecycleEvent service state (default 0%Z status)
                       (bool_decide (is_Some status))) in
  if rt_service_lifecycle_event_count rt <? MAX_SERVICE_LIFECYCLE_EVENTS then
    rt <| rt_service_lifecycle_events ::= <[rt_service_lifecycle_event_count rt := event]> |>
       <| rt_service_lifecycle_event_count := S (rt_service_lifecycle_event_count rt) |>
  else
    rt <| rt_service_lifecycle_events ::= λ l,
            <[MAX_SERVICE_LIFECYCLE_EVENTS - 1 := event]>
              (shift_down l 0 (MAX_SERVICE_LIFECYCLE_EVENTS - 1)) |>.

(** [RuntimeState::new_capability] on the whole state. *)
Definition rt_new_capability (object : KernelObjectId) (rights : Z) (owner : ProcessId)
    (parent_cap_id : Z) (delegated_by : ProcessId) : RT Capability := λ rt,
  let '(r, reg) := new_capability (rt_generation_id rt) (rt_caps rt) object rights owner
                     parent_cap_id delegated_by in
  (r, rt <| rt_caps := reg |>).

(** [RuntimeState::mark_cap_revoked]. *)
Definition mark_process (cap_id : Z) (p : Process) : Process :=
  p <| p_caps ::= λ s, cspace_mark_revoked s cap_id |>
    <| p_initial_caps ::= λ s, cspace_mark_revoked s cap_id |>.
Definition mark_cap_revoked (t : ProcessTable) (cap_id : Z) : ProcessTable :=
  t <| pt_processes ::= λ l, map_upto (fmap (mark_process cap_id)) l (pt_count t) |>.

(** [RuntimeState::mark_all_revoked_caps]. *)
Definition mark_all_revoked_caps (r : CapRegistry) (t : ProcessTable) : ProcessTable :=
  foldl mark_cap_revoked t (take (revoked_cap_count r) (revoked_caps r)).

(** [RuntimeState::revoke_cap_id]. *)
Definition rt_revoke_cap_id (cap_id : Z) : RT unit := λ rt,
  match revoke_cap_id (rt_caps rt) cap_id with
  | (Ok _, reg) =>
      (Ok tt, rt <| rt_caps := reg |> <| rt_processes ::= mark_all_revoked_caps reg |>)
  | (Err e, reg) => (Err e, rt <| rt_caps := reg |>)
  end.

(** [generation_cap_count_in_space]. *)
Definition generation_cap_count_in_space (s : CapabilitySpace) (generation_id : string) : nat :=
  count_upto (λ o, match o with
                   | Some cap => str_eqb (c_generation cap) generation_id && negb (c_revoked cap)
                   | None => false
                   end) s MAX_CAPS.

(** [RuntimeState::generation_cap_count]. *)
Definition generation_cap_count (rt : RuntimeState) (generation_id : string) : nat :=
  sum_list ((λ o, match o with
                  | Some p => generation_cap_count_in_space (p_caps p) generation_id +
                              generation_cap_count_in_space (p_initial_caps p) generation_id
                  | None => 0
                  end) <$> take (pt_count (rt_processes rt)) (pt_processes (rt_processes rt))).

(** * Liveness of capabilities *)

(** [find_cap_parent_in_space]. *)
Definition find_cap_parent_in_space (s : CapabilitySpace) (cap_id : Z) : option Z :=
  first_some (λ o, match o with
                   | Some cap => if (c_id cap =? cap_id)%Z then Some (c_parent cap) else None
                   | None => None
                   end) s MAX_CAPS.

(** [find_cap_parent]: the lineage, then the capabilities of every process. *)
Definition find_cap_parent (rt : RuntimeState) (cap_id : Z) : option Z :=
  match cap_parent_from_lineage (rt_caps rt) cap_id with
  | Some parent => Some parent
  | None =>
      first_some (λ o, match o with
                       | Some p =>
                           match find_cap_parent_in_space (p_caps p) cap_id with
                           | Some parent => Some parent
                           | None => find_cap_parent_in_space (p_initial_caps p) cap_id
                           end
                       | None => None
                       end) (pt_processes (rt_processes rt)) (pt_count (rt_processes rt))
  end.

(** [capability_has_revoked_ancestor]. *)
Definition capability_has_revoked_ancestor (rt : RuntimeState) (cap : Capability) : bool :=
  default true (ancestor_walk (find_cap_parent rt) (rt_caps rt) (walk_fuel (rt_caps rt))
                  (c_parent cap)).

(** The test [lookup_capability], [process_has_live_endpoint_cap] and
    [cap_space_reaches_live_object] share. *)
Definition capability_live (rt : RuntimeState) (cap : Capability) : bool :=
  negb (c_revoked cap) && negb (cap_id_revoked (rt_caps rt) (c_id cap)) &&
  negb (capability_has_revoked_ancestor rt cap) &&
  str_eqb (c_generation cap) (rt_generation_id rt).

(** [lookup_capability]. *)
Definition lookup_capability (cap_slot required_right : Z) : RT Capability :=
  let! rt := rget in
  let! process := rlift (ok_or (current_process (rt_processes rt)) BadCapability) in
  let! cap := rlift (ok_or (cspace_lookup (p_caps process) cap_slot) BadCapability) in
  do! rguard (capability_live rt cap) BadCapability;
  do! rguard ((required_right =? 0)%Z || has_rights (c_rights cap) required_right) BadCapability;
  rret cap.

(** The shape of the [*_from_cap] functions. *)
Definition object_from_cap {A} (get : ObjectTable → KernelObjectId → option A)
    (cap_slot required_right : Z) : RT A :=
  let! cap := lookup_capability cap_slot required_right in
  let! rt := rget in
  rlift (ok_or (get (rt_objects rt) (c_object cap)) BadCapability).

(** [endpoint_cap_from_slot]. *)
Definition endpoint_cap_from_slot (cap_slot required_right : Z) : RT Capability :=
  let! cap := lookup_capability cap_slot required_right in
  let! rt := rget in
  match get_endpoint (rt_objects rt) (c_object cap) with
  | Some _ => rret cap
  | None => rfail BadCapability
  end.

(** [endpoint_from_cap]. *)
Definition endpoint_from_cap (cap_slot required_right : Z) : RT KernelObjectId :=
  let! cap := endpoint_cap_from_slot cap_slot required_right in
  rret (c_object cap).

(** [serial_log_endpoint_from_cap]. *)
Definition serial_log_endpoint_from_cap (cap_slot required_right : Z) : RT IpcEndpoint :=
  let! cap := lookup_capability cap_slot required_right in
  let! rt := rget in
  let! log_endpoint_id := rlift (ok_or (mjoin (endpoint_ids (rt_boot_ids rt) !! 0)) BadCapability) in
  do! rguard (c_object cap =? log_endpoint_id)%Z BadCapability;
  let! endpoint := rlift (ok_or (get_endpoint (rt_objects rt) (c_object cap)) BadCapability) in
  do! rguard (str_eqb (ep_name endpoint) LOG_ENDPOINT_NAME) BadCapability;
  rret endpoint.

(** [boot_module_from_cap] and the other typed lookups. *)
Definition boot_module_from_cap := object_from_cap get_boot_module.
Definition timer_from_cap := object_from_cap get_timer.
Definition network_port_from_cap := object_from_cap get_network_port.
Definition io_port_from_cap := object_from_cap get_io_port.
Definition mmio_region_from_cap := object_from_cap get_mmio_region.
Definition framebuffer_from_cap := object_from_cap get_framebuffer.
Definition interrupt_line_from_cap := object_from_cap get_interrupt_line.
Definition dma_region_from_cap := object_from_cap get_dma_region.
Definition virtio_device_from_cap := object_from_cap get_virtio_device.
Definition namespace_from_cap := object_from_cap get_namespace.
Definition process_control_from_cap := object_from_cap get_process_control.
Definition secret_from_cap := object_from_cap get_secret.

(** [port_in_range]. *)
Definition port_in_range (range : IoPortRangeObject) (port : Z) : bool :=
  (io_base range <=? port)%Z && (port - io_base range <? io_length range)%Z.

(** [port_span_in_range]. *)
Definition port_span_in_range (range : IoPortRangeObject) (port width : Z) : bool :=
  if (width =? 0)%Z then false
  else
    match checked_add port (width - 1) with
    | None => false
    | Some last_port =>
        if (65535 <? last_port)%Z then false
        else port_in_range range port && port_in_range range last_port
    end.

(** * Reachability of objects *)

(** [cap_space_reaches_live_object]. *)
Definition cap_space_reaches_live_object (rt : RuntimeState) (s : CapabilitySpace)
    (object_id : KernelObjectId) : bool :=
  match first_index (λ o, match o with
                          | Some cap => (c_object cap =? object_id)%Z && capability_live rt cap
                          | None => false
                          end) s MAX_CAPS with
  | Some _ => true
  | None => false
  end.

(** [object_reachable_by_cap]. *)
Definition object_reachable_by_cap (rt : RuntimeState) (object_id : KernelObjectId) : bool :=
  match first_index (λ o, match o with
      | Some p =>
          negb (bool_decide (p_state p = PsEmpty)) &&
          ((negb (bool_decide (p_state p = PsExited)) &&
            cap_space_reaches_live_object rt (p_caps p) object_id) ||
           cap_space_reaches_live_object rt (p_initial_caps p) object_id)
      | None => false
      end) (pt_processes (rt_processes rt)) (pt_count (rt_processes rt)) with
  | Some _ => true
  | None => false
  end.

(** [release_unreferenced_derived_vfs_root]. *)
Definition release_unreferenced_derived_vfs_root (object : KernelObjectId) (rt : RuntimeState) :
    RuntimeState :=
  if object_reachable_by_cap rt object then rt
  else rt <| rt_objects := (remove_derived_vfs_root (rt_objects rt) object).2 |>.

(** The loop of [release_unreferenced_derived_vfs_roots] from [index]; a
    removal looks at the same index again. [None] when [fuel] rounds do not
    reach the end. *)
Fixpoint release_roots_loop (fuel index : nat) (rt : RuntimeState) : option RuntimeState :=
  match fuel with
  | 0 => None
  | S fuel' =>
      if index <? count (rt_objects rt) then
        match mjoin (objects (rt_objects rt) !! index) with
        | Some (OVfsRoot root) =>
            if vr_derived root && negb (object_reachable_by_cap rt (vr_id root)) then
              match remove_derived_vfs_root (rt_objects rt) (vr_id root) with
              | (true, t) => release_roots_loop fuel' index (rt <| rt_objects := t |>)
              | (false, _) => release_roots_loop fuel' (S index) rt
              end
            else release_roots_loop fuel' (S index) rt
        | _ => release_roots_loop fuel' (S index) rt
        end
      else Some rt
  end.

(** Every round moves on or empties a slot of the table. *)
Definition release_roots_fuel : nat := 2 * MAX_OBJECTS + 1.

(** [release_unreferenced_derived_vfs_roots]. *)
Definition release_unreferenced_derived_vfs_roots (rt : RuntimeState) : RuntimeState :=
  default rt (release_roots_loop release_roots_fuel 0 rt).

(** * Mount identifiers *)

(** [RuntimeState::add_vfs_mount]. *)
Definition rt_add_vfs_mount (rt : RuntimeState) (name : string) (root_node : VfsNodeId)
    (root_path : VfsPath) (source : string) (flags : Z) (dynamic : bool) (owner : ProcessId) :
    Result InitError KernelObjectId * RuntimeState :=
  match first_index (λ o : option Z, match o with None => true | Some _ => false end)
          (rt_vfs_mount_ids rt) (length (rt_vfs_mount_ids rt)) with
  | None => (Err ObjectTableFull, rt)
  | Some free_slot =>
      match add_vfs_mount (rt_objects rt) name root_node root_path source flags dynamic owner with
      | (Err e, t) => (Err e, rt <| rt_objects := t |>)
      | (Ok id, t) =>
          (Ok id,
           rt <| rt_objects := t |>
              <| rt_vfs_mount_ids ::= <[free_slot := Some id]> |>
              <| rt_vfs_mount_count ::= λ n, if n <=? free_slot then S free_slot else n |>)
      end
  end.

(** [RuntimeState::remove_vfs_mount_id]. *)
Definition remove_vfs_mount_id (id : KernelObjectId) (rt : RuntimeState) : RuntimeState :=
  let ids := map_upto (λ o, if bool_decide (o = Some id) then None else o)
               (rt_vfs_mount_ids rt) (rt_vfs_mount_count rt) in
  rt <| rt_vfs_mount_ids := ids |> <| rt_vfs_mount_count := trim_count ids (rt_vfs_mount_count rt) |>.

Definition VFS_MOUNT_BIND : Z := Z.shiftl 1 1.

(** The mounts [remove_owned_dynamic_bind_mounts] ([dynamic = true]) and
    [remove_owned_declared_bind_mounts] ([dynamic = false]) select. *)
Definition is_owned_bind_mount (dynamic : bool) (owner : ProcessId) (m : VfsMountObject) : bool :=
  eqb (vm_dynamic m) dynamic && (vm_owner m =? owner)%Z &&
  negb (Z.land (vm_flags m) VFS_MOUNT_BIND =? 0)%Z.

(** Their loop over the [fuel] slots left from [index]. *)
Fixpoint remove_bind_mounts_from (dynamic : bool) (owner : ProcessId) (rt : RuntimeState)
    (index fuel : nat) (removed : nat) : nat * RuntimeState :=
  match fuel with
  | 0 => (removed, rt)
  | S fuel' =>
      match mjoin (objects (rt_objects rt) !! index) with
      | Some (OVfsMount m) =>
          if is_owned_bind_mount dynamic owner m then
            remove_bind_mounts_from dynamic owner
              (remove_vfs_mount_id (vm_id m)
                 (rt <| rt_objects ::= λ t, t <| objects ::= <[index := None]> |> |>))
              (S index) fuel' (S removed)
          else remove_bind_mounts_from dynamic owner rt (S index) fuel' removed
      | _ => remove_bind_mounts_from dynamic owner rt (S index) fuel' removed
      end
  end.

(** [RuntimeState::remove_owned_dynamic_bind_mounts] and
    [RuntimeState::remove_owned_declared_bind_mounts]. *)
Definition remove_owned_bind_mounts (dynamic : bool) (rt : RuntimeState) (owner : ProcessId) :
    nat * RuntimeState :=
  let '(removed, rt1) := remove_bind_mounts_from dynamic owner rt 0 (count (rt_objects rt)) 0 in
  (removed, rt1 <| rt_objects ::= trim_empty_tail |>).
