(* ===== verification/MemoryMapping.v ===== *)
(** Physical ranges in the address space of a process ([ipc/memory_mapping.rs]): device
    and DMA memory is mapped page by page, and taken back when a page cannot be
    mapped. *)

From S2P Require Import Prelude Frames Paging KernelBase ProcessRuntime BootPolicy.

Abbreviation Mapping := (M Paging IpcError) (only parsing).

(** The first loop of [rollback_current_process_physical_range], from [offset] on. *)
Fixpoint unmap_pages (fuel : nat) (root virtual_base length offset : Z) (s : Paging) : Paging :=
  match fuel with
  | 0 => s
  | S fuel' =>
      if (offset <? length)%Z then
        let s1 := match checked_add virtual_base offset with
                  | Some virtual_address => (unmap_page_in_root root virtual_address s).2
                  | None => s
                  end in
        match checked_add offset FRAME_SIZE with
        | Some next_offset => unmap_pages fuel' root virtual_base length next_offset s1
        | None => s1
        end
      else s
  end.

(** The second loop. *)
Fixpoint prune_pages (fuel : nat) (root virtual_base length offset : Z) (s : Paging) : Paging :=
  match fuel with
  | 0 => s
  | S fuel' =>
      if (offset <? length)%Z then
        let s1 := match checked_add virtual_base offset with
                  | Some virtual_address => (prune_empty_user_page_tables root virtual_address s).2
                  | None => s
                  end in
        match checked_add offset FRAME_SIZE with
        | Some next_offset => prune_pages fuel' root virtual_base length next_offset s1
        | None => s1
        end
      else s
  end.

(** The rounds of a loop that advances by a frame up to [length]. *)
Definition range_rounds (length : Z) : nat := Z.to_nat ((length + FRAME_SIZE - 1) / FRAME_SIZE).

(** [rollback_current_process_physical_range]; an addition that overflows in the first
    loop ends the function. *)
Definition rollback_physical_range (root virtual_base length : Z) (s : Paging) : Paging :=
  let s1 := unmap_pages (range_rounds length) root virtual_base length 0 s in
  if (length <=? u64_max - (FRAME_SIZE - 1))%Z
  then prune_pages (range_rounds length) root virtual_base length 0 s1 else s1.

(** The loop of [map_current_process_physical_range]. *)
Fixpoint map_pages (fuel : nat) (root virtual_base physical_base length : Z) (flags : PageFlags)
    (offset mapped_length : Z) : Mapping unit :=
  if (offset <? length)%Z then
    match fuel with
    | 0 => rfail BadCapability
    | S fuel' =>
        let! physical := rlift (ok_or (checked_add physical_base offset) BadCapability) in
        let! frame := rlift (ok_or (frame_from_start physical) BadCapability) in
        let! virtual_address := rlift (ok_or (checked_add virtual_base offset) BadCapability) in
        let! next_offset := rlift (ok_or (checked_add offset FRAME_SIZE) BadCapability) in
        λ s,
          match map_page_in_root root virtual_address frame flags s with
          | (Ok _, s1) => map_pages fuel' root virtual_base physical_base length flags next_offset next_offset s1
          | (Err _, s1) => (Err BadCapability, rollback_physical_range root virtual_base mapped_length s1)
          end
    end
  else rret tt.

(** [map_current_process_physical_range], for the process whose root table is [root]. *)
Definition map_physical_range (root virtual_base physical_base length : Z) (flags : PageFlags) : Mapping unit :=
  do! rguard (negb ((length =? 0)%Z || negb (length mod FRAME_SIZE =? 0)%Z ||
                    negb (virtual_base mod FRAME_SIZE =? 0)%Z || negb (physical_base mod FRAME_SIZE =? 0)%Z)) BadCapability;
  let! virtual_end := rlift (ok_or (checked_add virtual_base length) BadCapability) in
  do! rguard (negb ((USER_CANONICAL_LIMIT <=? virtual_base)%Z || (USER_CANONICAL_LIMIT <? virtual_end)%Z)) BadCapability;
  do! rlift (ok_or (checked_add physical_base length) BadCapability);
  let! s := rget in
  let! unmapped := rlift (map_err (λ _, BadCapability) (user_range_is_unmapped (pg_mem s) root virtual_base length)) in
  do! rguard unmapped BadCapability;
  map_pages (range_rounds length) root virtual_base physical_base length flags 0 0.

(** [unmap_current_process_physical_range]. *)
Definition unmap_physical_range (root virtual_base length : Z) : Paging → Paging :=
  rollback_physical_range root virtual_base length.

(** * Addresses *)

Definition USER_MMIO_MAPPING_BASE : Z := 0x0000500000000000.
Definition USER_DMA_MAPPING_BASE : Z := 0x0000600000000000.
Definition USER_FRAMEBUFFER_MAPPING_BASE : Z := 0x0000700000000000.

(** [device_user_mapping_base]. *)
Definition device_user_mapping_base (window_base : Z) (object : KernelObjectId) (length : Z) : Result IpcError Z :=
  do? res_guard (negb ((length =? 0)%Z || (USER_DEVICE_MAPPING_STRIDE <? length)%Z)) BadCapability;
  let? offset := ok_or (checked_mul object USER_DEVICE_MAPPING_STRIDE) BadCapability in
  let? base := ok_or (checked_add window_base offset) BadCapability in
  let? end_ := ok_or (checked_add base length) BadCapability in
  do? res_guard (negb ((USER_CANONICAL_LIMIT <=? base)%Z || (USER_CANONICAL_LIMIT <? end_)%Z)) BadCapability;
  Ok base.

(** [align_up] and [align_down] of [memory_mapping.rs]. *)
Definition mapping_align_up (value align : Z) : option Z :=
  v ← checked_add value (align - 1); Some (Z.land v (not_u64 (align - 1))).
Definition mapping_align_down (value align : Z) : Z := Z.land value (not_u64 (align - 1)).

(** [u64::checked_sub]. *)
Definition checked_sub (a b : Z) : option Z := if (b <=? a)%Z then Some (a - b)%Z else None.

(** [write_dma_mapping_info]. *)
Definition dma_mapping_info (mapping : DmaUserMapping) : list byte :=
  le_bytes 8 (dm_virtual_base mapping) ++ le_bytes 8 (dm_physical_base mapping) ++ le_bytes 8 (dm_length mapping).
