(* ===== verification/MemoryMappingProofs.v ===== *)
(** Mapping a physical range is all or nothing: either every page of the range is
    mapped, or the address space translates as before. *)

From S2P Require Import Prelude Frames FrameProofs Paging PagingProofs AddressSpaces UserImageProofs KernelBase.
From S2P Require Import ProcessRuntime BootPolicy MemoryMapping.

(** A frame of a device: a buffer the allocator gave out for DMA, or memory that it
    does not hand out. *)
Definition device_frame (a : FrameAllocator) (f : Z) : Prop :=
  match owners a !! f with
  | Some o => owner_kind o = OkDma
  | None => contains a (mkPhysicalFrame f) = false
  end.

(** Physical memory that lies in frames of devices. *)
Definition device_range (a : FrameAllocator) (base length : Z) : Prop :=
  (0 ≤ base)%Z ∧ (base + length ≤ PHYSICAL_LIMIT)%Z ∧
  ∀ x, (base ≤ x < base + length)%Z → device_frame a (FRAME_SIZE * page_number x).

Lemma owned_contained a f o : frames_wf a → owners a !! f = Some o → contains a (mkPhysicalFrame f) = true.
Proof.
  intros Hwf Ho. apply (in_use_contained [] a (proj1 Hwf)). cbn [app]. apply elem_of_app. left.
  apply owners_in_use. eauto.
Qed.

(** The allocator may hand out other frames meanwhile. *)
Lemma device_frame_kept a a' f :
  frames_wf a → frames_wf a' → sp_usable (frame_view a') = sp_usable (frame_view a) →
  (∀ o, owners a !! f = Some o → owner_kind o = OkDma → owners a' !! f = Some o) →
  device_frame a f → device_frame a' f.
Proof.
  intros Hwf Hwf' Hu Ho. unfold device_frame. destruct (owners a !! f) as [o|] eqn:Hf.
  - intros Hd. by rewrite (Ho o).
  - intros Hc. destruct (owners a' !! f) as [o|] eqn:Hf'.
    + apply owned_contained in Hf'; [|done]. rewrite (contains_same a a' f) in Hf' by done. congruence.
    + by rewrite (contains_same a a' f).
Qed.

Lemma device_range_kept a a' base length :
  frames_wf a → frames_wf a' → sp_usable (frame_view a') = sp_usable (frame_view a) →
  (∀ f o, owners a !! f = Some o → owner_kind o = OkDma → owners a' !! f = Some o) →
  device_range a base length → device_range a' base length.
Proof. intros Hwf Hwf' Hu Ho (H1 & H2 & H3). split_and!; [done..|]. intros x Hx.
  apply (device_frame_kept a); [done..| |by apply H3]. intros o. apply Ho.
Qed.

Lemma device_mappable a root base length f :
  device_range a base length → (FRAME_SIZE | f)%Z → (base ≤ f < base + length)%Z → mappable a root f.
Proof.
  intros (_ & _ & Hd) [k ->] Hf. specialize (Hd _ Hf). unfold page_number in Hd.
  rewrite Z.div_mul, Z.mul_comm in Hd by done. unfold device_frame, mappable in *.
  by destruct (owners a !! (k * FRAME_SIZE)%Z); [right|].
Qed.

Section ranges.
Context (roots : gset Z) (root vb : Z).
Hypothesis Hroot : root ∈ roots.
Hypothesis Hvb : (FRAME_SIZE | vb)%Z.
Hypothesis Hvb0 : (0 ≤ vb)%Z.

(** The addresses of pages [k] up to [n] of the range. *)
Definition pages (k n : nat) (va : Z) : Prop :=
  (vb + FRAME_SIZE * Z.of_nat k ≤ va < vb + FRAME_SIZE * Z.of_nat n)%Z.

(** The range ends below the limit of user addresses. *)
Definition pages_fit (n : nat) : Prop := (vb + FRAME_SIZE * Z.of_nat n ≤ USER_CANONICAL_LIMIT)%Z.

Lemma pages_user k n va : pages_fit n → pages k n va → user_address va.
Proof using Hvb0. unfold pages_fit, pages, user_address, FRAME_SIZE. lia. Qed.

Lemma page_of k va : page_number va = page_number (vb + FRAME_SIZE * Z.of_nat k) ↔ pages k (S k) va.
Proof using Hvb Hvb0.
  rewrite page_number_aligned by (done || lia). unfold pages. rewrite Nat2Z.inj_succ, <-Z.add_1_r. done.
Qed.

Lemma pages_split k n va : k ≤ n → pages k (S n) va ↔ pages k n va ∨ pages n (S n) va.
Proof using. unfold pages, FRAME_SIZE. lia. Qed.

Lemma page_start_user n k : pages_fit n → k < n → user_address (vb + FRAME_SIZE * Z.of_nat k).
Proof using Hvb0. unfold pages_fit, user_address, FRAME_SIZE. lia. Qed.

Lemma range_add n k : pages_fit n → k < n →
  checked_add vb (FRAME_SIZE * Z.of_nat k) = Some (vb + FRAME_SIZE * Z.of_nat k)%Z ∧
  checked_add (FRAME_SIZE * Z.of_nat k) FRAME_SIZE = Some (FRAME_SIZE * Z.of_nat (S k))%Z.
Proof using Hvb0.
  unfold pages_fit, checked_add, FRAME_SIZE, USER_CANONICAL_LIMIT, u64_max. intros Hf Hk.
  rewrite !(proj2 (Z.leb_le _ _)) by lia. split; [done|]. f_equal. lia.
Qed.

Lemma range_step n k : k < n → (FRAME_SIZE * Z.of_nat k <? FRAME_SIZE * Z.of_nat n)%Z = true.
Proof using. intros Hk. apply Z.ltb_lt. unfold FRAME_SIZE. lia. Qed.

Lemma range_stop n : (FRAME_SIZE * Z.of_nat n <? FRAME_SIZE * Z.of_nat n)%Z = false.
Proof using. apply Z.ltb_irrefl. Qed.

(** * Taking a range back *)

Lemma unmap_pages_spec n : pages_fit n → ∀ j k s, k + j = n → paging_wf roots s →
  let s' := unmap_pages j root vb (FRAME_SIZE * Z.of_nat n) (FRAME_SIZE * Z.of_nat k) s in
  paging_wf roots s' ∧ pg_frames s' = pg_frames s ∧ others_kept roots root (pages k n) s s' ∧
  ∀ va, pages k n va → translate (pg_mem s') root va = None.
Proof using All.
  intros Hfit j. induction j as [|j IH]; intros k s Hk Hpw s'.
  - unfold s'. cbn. split_and!; [done|done|by constructor|]. intros va Hva. unfold pages in Hva. assert (k = n) by lia. subst. lia.
  - unfold s'. clear s'. cbn [unmap_pages]. rewrite range_step by lia.
    destruct (range_add n k Hfit ltac:(lia)) as [-> ->].
    pose proof (unmap_page_effect roots s root _ Hpw Hroot (page_start_user n k Hfit ltac:(lia))) as H.
    destruct (unmap_page_in_root root _ s) as [r s1]. cbn [snd].
    destruct H as (Hpw1 & Hfr1 & Hr).
    assert (Hstep : others_kept roots root (pages k (S k)) s s1 ∧
                    ∀ va, pages k (S k) va → translate (pg_mem s1) root va = None).
    { destruct r as [u|e].
      - destruct Hr as (_ & [K1 K2] & Hn). split.
        + constructor; [|done]. intros r va Hin Hva Hne. apply K1; [done|done|]. by rewrite page_of.
        + intros va Hva. apply Hn; [eapply (pages_user k (S k)); [|done]|by apply page_of].
          unfold pages_fit, FRAME_SIZE in *. lia.
      - destruct Hr as (_ & -> & Hn). split; [by constructor|]. intros va Hva.
        assert (Hu : user_address va) by (eapply (pages_user k (S k)); [unfold pages_fit, FRAME_SIZE in *; lia|done]).
        rewrite (translate_same_page _ (pg_frames s) root va (vb + FRAME_SIZE * Z.of_nat k)); [done| |done| |].
        + by apply Hpw.
        + apply (page_start_user n); [done|lia].
        + by apply page_of. }
    destruct Hstep as [Hk1 Hn1]. destruct (IH (S k) s1 ltac:(lia) Hpw1) as (Hpw2 & Hfr2 & Hk2 & Hn2).
    split_and!; [done|congruence| |].
    + constructor.
      * intros q va Hin Hva Hne. rewrite (ok_translate _ _ _ _ _ Hk2), (ok_translate _ _ _ _ _ Hk1); try done;
          intros [-> Hp]; apply Hne; (split; [done|]); unfold pages, FRAME_SIZE in *; lia.
      * intros q i Hin Hi. by rewrite (ok_kernel _ _ _ _ _ Hk2), (ok_kernel _ _ _ _ _ Hk1).
    + intros va Hva. destruct (decide (vb + FRAME_SIZE * Z.of_nat (S k) ≤ va)%Z) as [Hle|Hle].
      * apply Hn2. unfold pages in *. lia.
      * rewrite (ok_translate _ _ _ _ _ Hk2); [apply Hn1|done|by eapply pages_user|].
        -- unfold pages in *. lia.
        -- intros [_ Hp]. unfold pages in Hp. lia.
Qed.

(** What a run of prunes does. *)
Record pruned (s s' : Paging) : Prop := mk_pruned {
  pd_wf : paging_wf roots s';
  pd_kept : others_kept roots root (λ _, False) s s';
  pd_usable : sp_usable (frame_view (pg_frames s')) = sp_usable (frame_view (pg_frames s));
  pd_owners x o : owners (pg_frames s') !! x = Some o → owners (pg_frames s) !! x = Some o;
  pd_gone x o : owners (pg_frames s) !! x = Some o → owners (pg_frames s') !! x = Some o ∨ o = owner_page_table root
}.

Lemma prune_pages_spec n : pages_fit n → ∀ j k s, k + j = n → paging_wf roots s →
  pruned s (prune_pages j root vb (FRAME_SIZE * Z.of_nat n) (FRAME_SIZE * Z.of_nat k) s).
Proof using All.
  intros Hfit j. induction j as [|j IH]; intros k s Hk Hpw; cbn [prune_pages].
  - constructor; [done|by constructor|done|done|auto].
  - rewrite range_step by lia. destruct (range_add n k Hfit ltac:(lia)) as [-> ->].
    pose proof (page_start_user n k Hfit ltac:(lia)) as Hu.
    pose proof (prune_effect roots s root _ Hpw Hroot Hu) as H.
    pose proof (prune_prunes s root _ (pw_frames _ _ Hpw) (pw_spaces _ _ Hpw root Hroot) Hu) as H'.
    destruct (prune_empty_user_page_tables root _ s) as [r s1]. cbn [snd].
    destruct H as (Hpw1 & Hk1 & Ho1 & Hg1 & _). destruct H' as [[Hsh _ _] _].
    destruct (IH (S k) s1 ltac:(lia) Hpw1) as [Hpw2 Hk2 Hu2 Ho2 Hg2]. constructor.
    + done.
    + eapply others_kept_trans; [exact Hk1|exact Hk2|done].
    + rewrite Hu2. apply Hsh.
    + auto.
    + intros x o [Hx| ->]%Hg1; [by apply Hg2|by right].
Qed.

Lemma range_rounds_pages n : range_rounds (FRAME_SIZE * Z.of_nat n) = n.
Proof using.
  unfold range_rounds. replace ((FRAME_SIZE * Z.of_nat n + FRAME_SIZE - 1) / FRAME_SIZE)%Z with (Z.of_nat n); [lia|].
  apply (Z.div_unique_pos _ _ _ (FRAME_SIZE - 1)); unfold FRAME_SIZE; lia.
Qed.

(** [rollback_current_process_physical_range] of a range below the limit. *)
Lemma rollback_spec n s : pages_fit n → paging_wf roots s →
  let s' := rollback_physical_range root vb (FRAME_SIZE * Z.of_nat n) s in
  paging_wf roots s' ∧ others_kept roots root (pages 0 n) s s' ∧
  sp_usable (frame_view (pg_frames s')) = sp_usable (frame_view (pg_frames s)) ∧
  (∀ va, pages 0 n va → translate (pg_mem s') root va = None) ∧
  (∀ x o, owners (pg_frames s') !! x = Some o → owners (pg_frames s) !! x = Some o) ∧
  (∀ x o, owners (pg_frames s) !! x = Some o → owners (pg_frames s') !! x = Some o ∨ o = owner_page_table root).
Proof using All.
  intros Hfit Hpw s'. unfold s', rollback_physical_range. rewrite range_rounds_pages.
  rewrite (proj2 (Z.leb_le _ _)) by (unfold pages_fit, FRAME_SIZE, USER_CANONICAL_LIMIT, u64_max in *; lia).
  destruct (unmap_pages_spec n Hfit n 0 s eq_refl Hpw) as (Hpw1 & Hfr1 & Hk1 & Hn1).
  change (FRAME_SIZE * Z.of_nat 0)%Z with 0%Z in *.
  destruct (prune_pages_spec n Hfit n 0 _ eq_refl Hpw1) as [Hpw2 Hk2 Hu2 Ho2 Hg2].
  change (FRAME_SIZE * Z.of_nat 0)%Z with 0%Z in *. rewrite Hfr1 in *. split_and!; [done| |done| |done|done].
  - constructor.
    + intros r va Hin Hva Hne. rewrite (ok_translate _ _ _ _ _ Hk2); [|done|done|by intros [_ []]].
      by apply (ok_translate _ _ _ _ _ Hk1).
    + intros r i Hin Hi. by rewrite (ok_kernel _ _ _ _ _ Hk2), (ok_kernel _ _ _ _ _ Hk1).
  - intros va Hva. rewrite (ok_translate _ _ _ _ _ Hk2); [by apply Hn1|done|by eapply pages_user|by intros [_ []]].
Qed.

(** * Mapping a range *)

Section mapping.
Context (pb : Z) (flags : PageFlags) (n : nat).
Hypothesis Hpb : (FRAME_SIZE | pb)%Z.
Hypothesis Hfit : pages_fit n.
Hypothesis Hflags : flags_ok (flag_bits flags).
Hypothesis Huser : flags_user_accessible flags = true.

(** The frame behind an address of the range. *)
Definition frame_behind (va : Z) : Z := (pb + FRAME_SIZE * (page_number va - page_number vb))%Z.

Lemma frame_behind_page k va : pages k (S k) va → frame_behind va = (pb + FRAME_SIZE * Z.of_nat k)%Z.
Proof using Hvb Hvb0.
  intros Hva%page_of. unfold frame_behind. rewrite Hva. unfold page_number. destruct Hvb as [v ->].
  replace (v * FRAME_SIZE + FRAME_SIZE * Z.of_nat k)%Z with ((v + Z.of_nat k) * FRAME_SIZE)%Z by lia.
  rewrite !Z.div_mul by done. lia.
Qed.

(** The state after [k] pages. *)
Record mapped (k : nat) (s s' : Paging) : Prop := mk_mapped {
  mp_wf : paging_wf roots s';
  mp_usable : sp_usable (frame_view (pg_frames s')) = sp_usable (frame_view (pg_frames s));
  mp_kept : others_kept roots root (pages 0 k) s s';
  mp_before va : pages 0 k va → translate (pg_mem s) root va = None;
  mp_after va : pages 0 k va →
    translate (pg_mem s') root va = Some (frame_behind va, true, entry_is_writable (flag_bits flags));
  mp_owners x o : owners (pg_frames s) !! x = Some o → owners (pg_frames s') !! x = Some o;
  mp_new x o : owners (pg_frames s') !! x = Some o → owners (pg_frames s) !! x = Some o ∨ o = owner_page_table root
}.

Lemma mapped_refl s : paging_wf roots s → mapped 0 s s.
Proof using.
  intros Hpw. constructor; [done|done|by constructor| | |done|by left];
    intros va Hva; unfold pages in Hva; lia.
Qed.

Lemma pages_none k va : pages k k va → False.
Proof using. unfold pages. lia. Qed.

Lemma mapped_step k s s1 : k < n → paging_wf roots s → device_range (pg_frames s) pb (FRAME_SIZE * Z.of_nat n) →
  mapped k s s1 →
  match map_page_in_root root (vb + FRAME_SIZE * Z.of_nat k) (mkPhysicalFrame (pb + FRAME_SIZE * Z.of_nat k)) flags s1 with
  | (Ok _, s2) => mapped (S k) s s2
  | (Err _, s2) => mapped k s s2
  end.
Proof using Hvb Hvb0 Hroot Hpb Hfit Hflags Huser.
  intros Hk Hs Hdev [Hpw Hus Hkept Hb Ha Ho Hn]. set (f := (pb + FRAME_SIZE * Z.of_nat k)%Z).
  pose proof (page_start_user n k Hfit Hk) as Hu. pose proof Hdev as (Hd0 & Hd1 & Hd2).
  assert (Hf : frame_ok f).
  { split; [unfold f; destruct Hpb as [v ->]; exists (v + Z.of_nat k)%Z; lia|]. unfold f, FRAME_SIZE in *. lia. }
  assert (Hmap : mappable (pg_frames s1) root f).
  { apply (device_mappable _ root pb (FRAME_SIZE * Z.of_nat n)); [|apply Hf|unfold f, FRAME_SIZE; lia].
    apply (device_range_kept (pg_frames s)); [apply Hs|apply Hpw|done| |done]. intros g o Hg _. by apply Ho. }
  pose proof (map_page_all roots s1 root _ f flags Hpw Hroot Hu Hf Hmap Hflags Huser) as H.
  pose proof (map_extends root s1 _ f flags (pw_frames _ _ Hpw) (pw_spaces _ _ Hpw root Hroot) Hu Huser) as Hex.
  fold f. destruct (map_page_in_root root _ _ flags s1) as [r s2]. cbn [snd] in Hex. destruct H as [Hpw2 Hr].
  assert (Hkeep : ∀ P, others_kept roots root P s1 s2 → (∀ va, P va → pages k (S k) va) →
    others_kept roots root (λ va, pages 0 k va ∨ P va) s s2 ∧
    (∀ va, user_address va → ¬ P va → translate (pg_mem s2) root va = translate (pg_mem s1) root va)).
  { intros P HP _. split; [|intros va Hva Hnp; apply (ok_translate _ _ _ _ _ HP); [done|done|by intros [_ ?]]].
    constructor.
    - intros q va Hq Hva Hne. rewrite (ok_translate _ _ _ _ _ HP), (ok_translate _ _ _ _ _ Hkept); try done;
        intros [-> ?]; apply Hne; auto.
    - intros q i Hq Hi. by rewrite (ok_kernel _ _ _ _ _ HP), (ok_kernel _ _ _ _ _ Hkept). }
  destruct r as [u|e].
  - destruct Hr as (Hnone & Hk2 & Htr).
    destruct (Hkeep _ Hk2) as [Hks Hsame]; [by intros va ?%page_of|]. constructor.
    + done.
    + rewrite <-Hus. apply Hex.
    + constructor; [|apply Hks]. intros q va Hq Hva Hne. apply (ok_translate _ _ _ _ _ Hks); [done|done|].
      rewrite page_of. intros [-> Hp]. apply Hne. split; [done|]. apply pages_split; [lia|done].
    + intros va [Hva|Hva]%pages_split; [by apply Hb| |lia].
      assert (Hu' : user_address va) by (eapply pages_user; [|exact Hva]; unfold pages_fit, FRAME_SIZE in *; lia).
      rewrite <-(ok_translate _ _ _ _ _ Hkept); [|done|done|intros [_ ?]; unfold pages, FRAME_SIZE in *; lia].
      rewrite (translate_same_page _ (pg_frames s1) root va (vb + FRAME_SIZE * Z.of_nat k)); [done|by apply Hpw|done|done|].
      by apply page_of.
    + intros va [Hva|Hva]%pages_split; [| |lia].
      * rewrite Hsame; [by apply Ha|eapply pages_user; [|exact Hva]; unfold pages_fit, FRAME_SIZE in *; lia|].
        rewrite page_of. unfold pages, FRAME_SIZE in *. lia.
      * rewrite Htr; [|eapply pages_user; [|exact Hva]; unfold pages_fit, FRAME_SIZE in *; lia|by apply page_of].
        by rewrite (frame_behind_page k).
    + intros x o Hx%Ho. by apply (ex_owners _ _ _ Hex).
    + intros x o [Hx| ->]%(ex_new _ _ _ Hex); [by apply Hn|by right].
  - destruct Hr as [Hk2 _]. destruct (Hkeep _ Hk2) as [Hks Hsame]; [done|]. constructor.
    + done.
    + rewrite <-Hus. apply Hex.
    + constructor; [|apply Hks]. intros q va Hq Hva Hne. apply (ok_translate _ _ _ _ _ Hks); [done|done|].
      intros [-> [Hp|[]]]. by apply Hne.
    + done.
    + intros va Hva. rewrite Hsame; [by apply Ha|eapply pages_user; [|exact Hva]; unfold pages_fit, FRAME_SIZE in *; lia|by intros []].
    + intros x o Hx%Ho. by apply (ex_owners _ _ _ Hex).
    + intros x o [Hx| ->]%(ex_new _ _ _ Hex); [by apply Hn|by right].
Qed.

(** Nothing is left of a range that was mapped in part. *)
Definition range_undone (s s' : Paging) : Prop :=
  paging_wf roots s' ∧ others_kept roots root (λ _, False) s s' ∧
  sp_usable (frame_view (pg_frames s')) = sp_usable (frame_view (pg_frames s)) ∧
  (∀ x o, owners (pg_frames s') !! x = Some o → owners (pg_frames s) !! x = Some o ∨ o = owner_page_table root) ∧
  (∀ x o, owners (pg_frames s) !! x = Some o → owners (pg_frames s') !! x = Some o ∨ o = owner_page_table root).

Lemma rollback_mapped k s s1 : k ≤ n → mapped k s s1 →
  range_undone s (rollback_physical_range root vb (FRAME_SIZE * Z.of_nat k) s1).
Proof using Hvb Hvb0 Hroot Hfit.
  intros Hk [Hpw Hus Hkept Hb Ha Ho Hn].
  destruct (rollback_spec k s1 ltac:(unfold pages_fit, FRAME_SIZE in *; lia) Hpw) as (Hpw2 & Hk2 & Hu2 & Hn2 & Ho2 & Hg2).
  split_and!; [done| |congruence| |].
  - constructor.
    + intros q va Hq Hva _. destruct (decide (q = root ∧ (vb ≤ va < vb + FRAME_SIZE * Z.of_nat k)%Z)) as [[-> Hin]|Hout].
      * assert (Hp : pages 0 k va) by (unfold pages, FRAME_SIZE in *; lia). by rewrite Hn2, Hb.
      * assert (Hp : ¬ (q = root ∧ pages 0 k va)) by (intros [-> ?]; apply Hout; unfold pages, FRAME_SIZE in *; split; [done|lia]).
        by rewrite (ok_translate _ _ _ _ _ Hk2), (ok_translate _ _ _ _ _ Hkept).
    + intros q i Hq Hi. by rewrite (ok_kernel _ _ _ _ _ Hk2), (ok_kernel _ _ _ _ _ Hkept).
  - intros x o Hx%Ho2. by apply Hn.
  - intros x o Hx%Ho. by apply Hg2.
Qed.

Lemma map_pages_spec s : paging_wf roots s → device_range (pg_frames s) pb (FRAME_SIZE * Z.of_nat n) →
  ∀ j k s1, k + j = n → mapped k s s1 →
  match map_pages j root vb pb (FRAME_SIZE * Z.of_nat n) flags (FRAME_SIZE * Z.of_nat k) (FRAME_SIZE * Z.of_nat k) s1 with
  | (Ok _, s2) => mapped n s s2
  | (Err e, s2) => e = BadCapability ∧ range_undone s s2
  end.
Proof using Hvb Hvb0 Hroot Hpb Hfit Hflags Huser.
  intros Hs Hdev j. induction j as [|j IH]; intros k s1 Hk Hm; cbn [map_pages].
  - assert (k = n) as -> by lia. rewrite range_stop. exact Hm.
  - rewrite range_step by lia. pose proof Hdev as (Hd0 & Hd1 & _).
    destruct (range_add n k Hfit ltac:(lia)) as [Hv Hnx].
    assert (Hp : checked_add pb (FRAME_SIZE * Z.of_nat k) = Some (pb + FRAME_SIZE * Z.of_nat k)%Z).
    { unfold checked_add. rewrite (proj2 (Z.leb_le _ _)); [done|].
      unfold FRAME_SIZE, PHYSICAL_LIMIT, u64_max in *. lia. }
    assert (Hfs : frame_from_start (pb + FRAME_SIZE * Z.of_nat k) = Some (mkPhysicalFrame (pb + FRAME_SIZE * Z.of_nat k))).
    { unfold frame_from_start. destruct Hpb as [v ->].
      replace (v * FRAME_SIZE + FRAME_SIZE * Z.of_nat k)%Z with ((v + Z.of_nat k) * FRAME_SIZE)%Z by lia.
      by rewrite Z.mod_mul. }
    unfold rbind at 1, rlift at 1. rewrite Hp. cbn [ok_or]. unfold rbind at 1, rlift at 1. rewrite Hfs. cbn [ok_or].
    unfold rbind at 1, rlift at 1. rewrite Hv. cbn [ok_or]. unfold rbind at 1, rlift at 1. rewrite Hnx. cbn [ok_or].
    pose proof (mapped_step k s s1 ltac:(lia) Hs Hdev Hm) as Hstep.
    destruct (map_page_in_root root _ _ flags s1) as [[u|e] s2].
    + apply IH; [lia|done].
    + split; [done|]. apply rollback_mapped; [lia|done].
Qed.
End mapping.
End ranges.

(** * Theorem *)

Definition in_range (base length va : Z) : Prop := (base ≤ va < base + length)%Z.

Lemma aligned_pages x : (0 ≤ x)%Z → (x mod FRAME_SIZE =? 0)%Z = true → ∃ n, x = (FRAME_SIZE * Z.of_nat n)%Z.
Proof.
  intros H0 H%Z.eqb_eq. exists (Z.to_nat (x / FRAME_SIZE)).
  rewrite Z2Nat.id by (apply Z.div_pos; [done|done]). by apply Z_div_exact_full_2.
Qed.

(** C26: mapping a device range is all or nothing. On well-formed address spaces and a
    range of device memory (DMA buffers, or memory outside of the allocator's),
    [map_current_process_physical_range] succeeds only for page-aligned user addresses that were not mapped; then the
    processor translates every address of the range to its counterpart in the
    device's memory, for user mode and writable as asked. When it fails, the only
    error is [BadCapability], no address space translates any address differently and
    no frame is lost or gained but page tables of the process. In both cases nothing
    outside of the range changes and all address spaces stay well formed. *)
Theorem map_range_effect roots s root vb pb len flags :
  paging_wf roots s → root ∈ roots → (0 ≤ vb)%Z → (0 ≤ len)%Z → device_range (pg_frames s) pb len →
  flags_ok (flag_bits flags) → flags_user_accessible flags = true →
  let '(r, s') := map_physical_range root vb pb len flags s in
  paging_wf roots s' ∧
  match r with
  | Ok _ =>
      others_kept roots root (in_range vb len) s s' ∧
      ∀ va, in_range vb len va → user_address va ∧ translate (pg_mem s) root va = None ∧
        translate (pg_mem s') root va =
          Some (FRAME_SIZE * page_number (pb + (va - vb)), true, entry_is_writable (flag_bits flags))%Z
  | Err e =>
      e = BadCapability ∧ others_kept roots root (λ _, False) s s' ∧
      (∀ x o, owners (pg_frames s') !! x = Some o → owners (pg_frames s) !! x = Some o ∨ o = owner_page_table root) ∧
      (∀ x o, owners (pg_frames s) !! x = Some o → owners (pg_frames s') !! x = Some o ∨ o = owner_page_table root)
  end.
Proof.
  intros Hpw Hroot Hvb Hlen Hdev Hfl Hu.
  assert (Hsame : paging_wf roots s ∧ BadCapability = BadCapability ∧ others_kept roots root (λ _, False) s s ∧
    (∀ x o, owners (pg_frames s) !! x = Some o → owners (pg_frames s) !! x = Some o ∨ o = owner_page_table root) ∧
    (∀ x o, owners (pg_frames s) !! x = Some o → owners (pg_frames s) !! x = Some o ∨ o = owner_page_table root)).
  { split_and!; [done|done|by constructor|by left|by left]. }
  unfold map_physical_range. unfold rbind at 1, rguard, rret, rfail.
  destruct (negb (_ || _ || _ || _)) eqn:Hal; [|exact Hsame].
  apply negb_true_iff, orb_false_iff in Hal as [[[Hl0 Hla]%orb_false_iff Hva]%orb_false_iff Hpa].
  apply negb_false_iff in Hla, Hva, Hpa. destruct (aligned_pages len Hlen Hla) as [n ->].
  unfold rbind at 1, rlift at 1. destruct (checked_add vb _) as [ve|] eqn:Hve; cbn [ok_or]; [|exact Hsame].
  assert (ve = vb + FRAME_SIZE * Z.of_nat n)%Z as -> by (unfold checked_add in Hve; repeat case_match; by simplify_eq).
  unfold rbind at 1. destruct (negb (_ || _)) eqn:Hc; [|exact Hsame]. apply negb_true_iff, orb_false_iff in Hc as [Hc1 Hc2].
  unfold rbind at 1, rlift at 1. destruct (checked_add pb _) as [pe|]; cbn [ok_or]; [|exact Hsame].
  unfold rbind at 1, rget at 1. unfold rbind at 1, rlift at 1.
  destruct (user_range_is_unmapped _ _ _ _) as [b|e]; cbn [map_err]; [|exact Hsame].
  unfold rbind at 1. destruct b; [|exact Hsame].
  assert (Hdv : (FRAME_SIZE | vb)%Z) by (apply Z.mod_divide; [done|by apply Z.eqb_eq]).
  assert (Hdp : (FRAME_SIZE | pb)%Z) by (apply Z.mod_divide; [done|by apply Z.eqb_eq]).
  assert (Hfit : pages_fit vb n) by (unfold pages_fit; lia).
  pose proof (map_pages_spec roots root vb Hroot Hdv Hvb pb flags n Hdp Hfit Hfl Hu s Hpw Hdev n 0 s eq_refl
                (mapped_refl roots root vb pb flags s Hpw)) as H.
  rewrite range_rounds_pages. change (FRAME_SIZE * Z.of_nat 0)%Z with 0%Z in H.
  destruct (map_pages _ _ _ _ _ _ _ _ s) as [[u|e] s'].
  - destruct H as [Hpw' _ Hk Hb Ha _ _].
    assert (Hpg : ∀ va, in_range vb (FRAME_SIZE * Z.of_nat n) va ↔ pages vb 0 n va)
      by (intros va; unfold in_range, pages; lia).
    split; [done|]. split.
    + constructor; [|apply Hk]. intros q va Hq Hva' Hne. apply (ok_translate _ _ _ _ _ Hk); [done|done|]. by rewrite <-Hpg.
    + intros va Hin%Hpg. split_and!; [by apply (pages_user vb Hvb 0 n)|by apply Hb|]. rewrite (Ha va Hin). do 3 f_equal.
      unfold frame_behind, page_number. destruct Hdp as [q ->], Hdv as [v ->].
      replace (q * FRAME_SIZE + (va - v * FRAME_SIZE))%Z with (va + (q - v) * FRAME_SIZE)%Z by lia.
      rewrite Z.div_add, Z.div_mul by done. lia.
  - destruct H as (-> & Hpw' & Hk & _ & Ho & Hg). done.
Qed.

(** A page of a device above the memory of [machine3]. *)
Definition device_mapped : Paging :=
  (map_physical_range process_root USER_MMIO_MAPPING_BASE 0xfee00000 4096 user_device machine3).2.

Lemma device_mapped_ok :
  map_physical_range process_root USER_MMIO_MAPPING_BASE 0xfee00000 4096 user_device machine3 = (Ok tt, device_mapped).
Proof.
  unfold device_mapped. rewrite (surjective_pairing (map_physical_range _ _ _ _ _ _)) at 1.
  apply (f_equal2 pair); [vm_compute|]; reflexivity.
Qed.

Lemma machine3_device : device_range (pg_frames machine3) 0xfee00000 4096.
Proof.
  split_and!; [done|done|]. intros x Hx. assert (page_number x = 0xfee00)%Z as ->.
  { unfold page_number. symmetry. apply (Z.div_unique_pos _ _ _ (x - 0xfee00000)); unfold FRAME_SIZE; lia. }
  unfold device_frame. replace (owners (pg_frames machine3) !! (FRAME_SIZE * 0xfee00)%Z) with (@None FrameOwner)
    by (vm_compute; reflexivity). vm_compute. reflexivity.
Qed.

(** Witness of [map_range_effect]. *)
Lemma map_range_effect_witness :
  translate (pg_mem device_mapped) process_root (USER_MMIO_MAPPING_BASE + 16) = Some (0xfee00000, true, true)%Z.
Proof.
  pose proof (map_range_effect ({[process_root]} ∪ ∅) machine3 process_root USER_MMIO_MAPPING_BASE 0xfee00000 4096
                user_device machine3_wf process_root_in ltac:(done) ltac:(done) machine3_device
                ltac:(by constructor) ltac:(done)) as H.
  rewrite device_mapped_ok in H. destruct H as (_ & _ & H).
  exact (proj2 (proj2 (H (USER_MMIO_MAPPING_BASE + 16)%Z ltac:(split; vm_compute; [discriminate|reflexivity])))).
Defined.
