(* ===== verification/MachineMemory.v ===== *)
(** The memory of the whole machine: what the loader, the release of address spaces and
    the mapping of device memory do is a run of the small steps of [AddressSpaces], so
    that address spaces stay isolated and accounted for whatever their callers do. *)

From S2P Require Import Prelude Elf Frames FrameProofs Paging PagingProofs AddressSpaces UserImage UserImageProofs.
From S2P Require Import KernelBase ProcessRuntime BootPolicy MemoryMapping MemoryMappingProofs.
From stdpp Require Import relations.

(** * Loading is a run of small steps *)

Section runs.
Context (roots : gset Z) (root : Z) (Hroot : root ∈ roots).

Definition runs (s s' : Paging) : Prop := rtc paging_step (roots, s) (roots, s').

#[export] Instance runs_trans : Transitive runs.
Proof using. intros s1 s2 s3 H1 H2. unfold runs in *. by etransitivity. Qed.

Lemma runs_wf s s' : runs s s' → paging_wf roots s → paging_wf roots s'.
Proof using. apply paging_reachable_wf. Qed.

(** The frame is the process's and nothing maps it. *)
Definition unmapped (f : Z) (s : Paging) : Prop :=
  owners (pg_frames s) !! f = Some (owner_process_memory root) ∧
  ∀ q p i e, q ∈ roots → path_ok p → length p = 3 → i < ENTRY_COUNT → leaf_at (pg_mem s) q p i = Some e →
    entry_address e ≠ f.

(** What a command does that works on such a frame, whatever it returns. *)
Definition works {A} (f : Z) (c : M Paging LoadError A) : Prop := ∀ s, paging_wf roots s → unmapped f s →
  runs s (c s).2 ∧ unmapped f (c s).2.

Lemma take_user_frame_runs s :
  paging_wf roots s →
  match take_user_frame (owner_process_memory root) s with
  | (Ok frame, s') => runs s s' ∧ unmapped (frame_start frame) s'
  | (Err _, s') => runs s s'
  end.
Proof using.
  intros Hpw. unfold take_user_frame.
  pose proof (allocate_owned_spec (owner_process_memory root) _ (pw_frames _ _ Hpw)) as Ha.
  destruct (allocate_owned _ (pg_frames s)) as [f a] eqn:Hal.
  assert (Hrun : runs s (mkPaging (pg_mem s) a)).
  { apply rtc_once. by eapply (StepAllocate roots s (owner_process_memory root)). }
  destruct f as [f|]; cbn; [|exact Hrun]. split; [exact Hrun|].
  destruct Ha as (_ & _ & Hn & Ho & Hc & _). destruct f as [f]. cbn in *. split.
  - cbn. rewrite Ho. apply lookup_insert_eq.
  - intros q p i e Hq Hp Hl Hi He. by apply (free_unmapped roots s f q p i e).
Qed.

Lemma write_works f (g : PhysMem → PhysMem) :
  (∀ m t i, t ≠ f → g m t i = m t i) → works f (rmodify (λ s, s <| pg_mem ::= g |>)).
Proof using.
  intros Hg s Hpw [Ho Hu].
  assert (Hf : ∀ r, owners (pg_frames s) !! f ≠ Some (owner_page_table r)) by (intros r; by rewrite Ho).
  destruct (data_write_all roots 0 s f (g (pg_mem s)) Hpw Hf (Hg _)) as (_ & _ & Hsame).
  change ((rmodify (λ s, s <| pg_mem ::= g |>) s).2) with (mkPaging (g (pg_mem s)) (pg_frames s)).
  split; [apply rtc_once; eapply StepWrite; [exact Hf|apply Hg]|]. split; [done|].
  intros q p i e Hq Hp Hl Hi He. apply (Hu q p i e Hq Hp Hl Hi).
  by rewrite <-(proj2 (Hsame q p Hq Hp)).
Qed.

Lemma zero_frame_works f : works f (zero_frame (mkPhysicalFrame f)).
Proof using. apply write_works. intros m t i Ht. by apply zero_table_other. Qed.

Lemma copy_segment_works bytes f header page copy_start copy_end :
  works f (copy_segment_bytes bytes (mkPhysicalFrame f) header page copy_start copy_end).
Proof using.
  intros s Hpw Hu. unfold copy_segment_bytes, rbind, rlift.
  destruct (checked_add _ _); cbn [ok_or]; [|split; [apply rtc_refl|done]].
  apply (write_works f (write_memory f _ _)); [|done..]. intros m t i. apply write_memory_entries.
Qed.

Lemma map_runs s f page flags :
  paging_wf roots s → unmapped f s → user_address page →
  flags_ok (flag_bits flags) → flags_user_accessible flags = true →
  match map_page_in_root root page (mkPhysicalFrame f) flags s with
  | (Ok _, s') => runs s s'
  | (Err _, s') => runs s s' ∧ unmapped f s'
  end.
Proof using Hroot.
  intros Hpw [Ho Hu] Hpage Hfl Hus. pose proof (pw_frames _ _ Hpw) as Hwf.
  pose proof (map_page_spec root s page f flags Hwf (pw_spaces _ _ Hpw root Hroot) Hpage Hus) as H.
  destruct (map_page_in_root root page _ flags s) as [r s'] eqn:Hmap.
  assert (Hrun : runs s s').
  { apply rtc_once. eapply (StepMap roots s root page f flags); try done; [by eapply owned_frame_ok|].
    unfold mappable. rewrite Ho. by left. }
  destruct r; [done|]. split; [done|]. destruct H as [Hg _]. split; [by apply (gr_owners _ _ _ Hg)|].
  intros q p i en Hq Hp Hl Hi He. apply (Hu q p i en Hq Hp Hl Hi). rewrite <-He. symmetry.
  destruct (decide (q = root)) as [->|Hne]; [by apply (gr_leaf _ _ _ Hg)|].
  by apply (grows_other root s s' q Hwf Hg Hne); [apply (pw_spaces _ _ Hpw)|].
Qed.

Lemma free_runs s f :
  unmapped f s →
  runs s (s <| pg_frames := (free_owned (mkPhysicalFrame f) (owner_process_memory root) (pg_frames s)).2 |>).
Proof using.
  intros [Ho Hu]. destruct (free_owned (mkPhysicalFrame f) _ (pg_frames s)) as [r a] eqn:Hf. cbn.
  apply rtc_once. change (s <| pg_frames := a |>) with (mkPaging (pg_mem s) a).
  by eapply (StepFree roots s f (owner_process_memory root)).
Qed.

(** A command that may fail, with the release of the frame. *)
Lemma or_free_runs s f c :
  paging_wf roots s → unmapped f s →
  match c s with
  | (Ok _, s') => runs s s'
  | (Err _, s') => runs s s' ∧ unmapped f s'
  end →
  runs s (or_free (mkPhysicalFrame f) (owner_process_memory root) c s).2.
Proof using.
  intros Hpw Hu. unfold or_free. destruct (c s) as [[[]|e] s']; cbn; [done|].
  intros [Hr Hu']. etransitivity; [exact Hr|]. by apply free_runs.
Qed.

(** One page: a frame, its contents and its mapping. *)
Lemma page_runs s copy page flags :
  paging_wf roots s → user_address page → flags_ok (flag_bits flags) → flags_user_accessible flags = true →
  (∀ f, match copy f with None => True | Some c => works (frame_start f) c end) →
  runs s ((let! frame := take_user_frame (owner_process_memory root) in
           do! zero_frame frame;
           do! (match copy frame with
                | Some c => or_free frame (owner_process_memory root) c
                | None => rret tt
                end);
           or_free frame (owner_process_memory root)
             (with_error LoadMap (map_page_in_root root page frame flags))) s).2.
Proof using Hroot.
  intros Hpw Hpage Hfl Hus Hcopy. unfold rbind at 1.
  pose proof (take_user_frame_runs s Hpw) as Ht.
  destruct (take_user_frame _ s) as [[[f]|e] s1]; [|exact Ht]. destruct Ht as [R1 U1].
  pose proof (runs_wf _ _ R1 Hpw) as W1. unfold rbind at 1.
  destruct (zero_frame_works f s1 W1 U1) as [R2 U2].
  destruct (zero_frame (mkPhysicalFrame f) s1) as [r s2] eqn:Hz. cbn [snd frame_start] in *.
  assert (r = Ok tt) as -> by (unfold zero_frame, rmodify in Hz; congruence).
  pose proof (runs_wf _ _ R2 W1) as W2. specialize (Hcopy (mkPhysicalFrame f)). cbn [frame_start] in Hcopy.
  assert (Hmap : ∀ s3, paging_wf roots s3 → unmapped f s3 →
    runs s3 (or_free (mkPhysicalFrame f) (owner_process_memory root)
      (with_error LoadMap (map_page_in_root root page (mkPhysicalFrame f) flags)) s3).2).
  { intros s3 W3 U3. apply or_free_runs; [done..|]. unfold with_error.
    pose proof (map_runs s3 f page flags W3 U3 Hpage Hfl Hus) as H.
    by destruct (map_page_in_root root page _ flags s3) as [[]]. }
  unfold rbind. destruct (copy (mkPhysicalFrame f)) as [c|].
  - destruct (Hcopy s2 W2 U2) as [R3 U3]. pose proof (runs_wf _ _ R3 W2) as W3. unfold or_free at 1.
    destruct (c s2) as [[[]|e] s3]; cbn [snd] in *.
    + etransitivity; [exact R1|]. etransitivity; [exact R2|]. etransitivity; [exact R3|]. by apply Hmap.
    + etransitivity; [exact R1|]. etransitivity; [exact R2|]. etransitivity; [exact R3|]. by apply free_runs.
  - etransitivity; [exact R1|]. etransitivity; [exact R2|]. by apply Hmap.
Qed.

(** The loops. *)
Lemma load_pages_runs bytes header flags fuel : ∀ page page_end s,
  paging_wf roots s → (0 ≤ page)%Z → (page_end ≤ USER_CANONICAL_LIMIT)%Z →
  flags_ok (flag_bits flags) → flags_user_accessible flags = true →
  runs s (load_pages fuel bytes (mkAddressSpace (mkPhysicalFrame root)) header flags
            (owner_process_memory root) page page_end s).2.
Proof using Hroot.
  induction fuel as [|fuel IH]; intros page page_end s Hpw Hp Hend Hfl Hus; cbn [load_pages];
    (destruct (Z.ltb_spec page page_end) as [Hlt|_]; [|apply rtc_refl]); [apply rtc_refl|].
  set (copy := λ frame, if (Z.max page (ph_vaddr header) <? Z.min (page + FRAME_SIZE) (ph_vaddr header + ph_filesz header))%Z
    then Some (copy_segment_bytes bytes frame header page (Z.max page (ph_vaddr header))
                 (Z.min (page + FRAME_SIZE) (ph_vaddr header + ph_filesz header))) else None).
  assert (Hpage : user_address page) by (unfold user_address; lia).
  pose proof (page_runs s copy page flags Hpw Hpage Hfl Hus) as Hrun.
  assert (Hcopy : ∀ f, match copy f with None => True | Some c => works (frame_start f) c end).
  { intros [f]. unfold copy. destruct (_ <? _)%Z; [apply copy_segment_works|done]. }
  specialize (Hrun Hcopy).
  match type of Hrun with runs _ (?c s).2 =>
    match goal with |- runs _ (?d s).2 =>
      assert (He : d s = (do! c; load_pages fuel bytes (mkAddressSpace (mkPhysicalFrame root)) header flags
                            (owner_process_memory root) (page + FRAME_SIZE) page_end) s) end end.
  { rewrite !rbind_assoc. unfold rbind. destruct (take_user_frame _ s) as [[f|e] s1]; [|done].
    destruct (zero_frame f s1) as [[[]|e] s2]; [|done]. unfold copy.
    destruct (Z.max _ _ <? Z.min _ _)%Z; [destruct (or_free f _ _ s2) as [[[]|e] s3]; [|done]|];
      (change (address_space_map_page (mkAddressSpace (mkPhysicalFrame root)) page f flags) with
         (map_page_in_root root page f flags)); done. }
  rewrite He. unfold rbind at 1. destruct (rbind _ _ s) as [[[]|e] s1]; cbn [snd] in *; [|done].
  etransitivity; [exact Hrun|]. apply IH; try done; [by eapply runs_wf|unfold FRAME_SIZE; lia].
Qed.

Lemma stack_pages_runs fuel : ∀ page s,
  paging_wf roots s → (0 ≤ page)%Z →
  runs s (stack_pages fuel (mkAddressSpace (mkPhysicalFrame root)) (owner_process_memory root) page s).2.
Proof using Hroot.
  induction fuel as [|fuel IH]; intros page s Hpw Hp; cbn [stack_pages];
    (destruct (Z.ltb_spec page USER_STACK_TOP) as [Hlt|_]; [|apply rtc_refl]); [apply rtc_refl|].
  assert (Hpage : user_address page) by (unfold user_address, USER_STACK_TOP, USER_CANONICAL_LIMIT in *; lia).
  destruct (user_flags_ok true false) as [Hfl Hus].
  pose proof (page_runs s (λ _, None) page (user_flags true false) Hpw Hpage Hfl Hus (λ _, I)) as Hrun.
  match type of Hrun with runs _ (?c s).2 =>
    match goal with |- runs _ (?d s).2 =>
      assert (He : d s = (do! c; stack_pages fuel (mkAddressSpace (mkPhysicalFrame root))
                            (owner_process_memory root) (page + FRAME_SIZE)) s) end end.
  { rewrite !rbind_assoc. unfold rbind. destruct (take_user_frame _ s) as [[f|e] s1]; [|done].
    by destruct (zero_frame f s1) as [[[]|e] s2]. }
  rewrite He. unfold rbind at 1. destruct (rbind _ _ s) as [[[]|e] s1]; cbn [snd] in *; [|done].
  etransitivity; [exact Hrun|]. apply IH; [by eapply runs_wf|unfold FRAME_SIZE; lia].
Qed.

Lemma page_align_down_nonneg x : (0 ≤ page_align_down x)%Z.
Proof using. unfold page_align_down. apply Z.land_nonneg. right. by vm_compute. Qed.

Lemma load_segment_runs bytes header s :
  paging_wf roots s → runs s (load_segment bytes (mkAddressSpace (mkPhysicalFrame root)) header s).2.
Proof using Hroot.
  intros Hpw. unfold load_segment, rbind, rguard, rlift, rret, rfail.
  destruct (negb _); [|apply rtc_refl]. destruct (checked_add _ (ph_filesz header)); cbn [ok_or]; [|apply rtc_refl].
  destruct (negb _); [|apply rtc_refl]. destruct (checked_add _ (ph_memsz header)); cbn [ok_or]; [|apply rtc_refl].
  destruct (image_align_up _ _) as [page_end|]; cbn [ok_or]; [|apply rtc_refl].
  destruct (Z.ltb_spec USER_CANONICAL_LIMIT page_end) as [|Hend]; cbn [negb]; [apply rtc_refl|].
  destruct (user_flags_ok (negb (Z.land (ph_flags header) PF_W =? 0)%Z) (negb (Z.land (ph_flags header) PF_X =? 0)%Z)).
  apply load_pages_runs; try done. apply page_align_down_nonneg.
Qed.

Lemma load_segments_runs bytes e left : ∀ index s,
  paging_wf roots s → runs s (load_segments left bytes (mkAddressSpace (mkPhysicalFrame root)) e index s).2.
Proof using Hroot.
  induction left as [|left IH]; intros index s Hpw; cbn [load_segments]; [apply rtc_refl|].
  unfold rbind. set (c := match program_header e index with Some _ => _ | None => _ end).
  assert (Hc : runs s (c s).2).
  { unfold c. destruct (program_header e index) as [header|]; [|apply rtc_refl].
    destruct (_ =? _)%Z; [by apply load_segment_runs|apply rtc_refl]. }
  destruct (c s) as [[[]|err] s1]; cbn [snd] in *; [|done]. etransitivity; [exact Hc|]. apply IH. by eapply runs_wf.
Qed.

Lemma load_into_runs bytes e s :
  paging_wf roots s → runs s (load_into_address_space bytes (mkAddressSpace (mkPhysicalFrame root)) e s).2.
Proof using Hroot.
  intros Hpw. unfold load_into_address_space, rbind, rret.
  pose proof (load_segments_runs bytes e (Z.to_nat (elf_phnum e)) 0 s Hpw) as R1.
  destruct (load_segments _ bytes _ e 0 s) as [[[]|err] s1]; cbn [snd] in *; [|done].
  pose proof (stack_pages_runs (page_rounds (USER_STACK_TOP - USER_STACK_PAGES * FRAME_SIZE) USER_STACK_TOP)
    (USER_STACK_TOP - USER_STACK_PAGES * FRAME_SIZE) s1 (runs_wf _ _ R1 Hpw) ltac:(by vm_compute)) as R2.
  unfold map_user_stack. cbn [as_root_frame frame_start] in *.
  destruct (stack_pages _ _ _ _ s1) as [[[]|err] s2]; cbn [snd] in *; by etransitivity.
Qed.
End runs.

(** The whole load: a new address space, or none. *)
Lemma load_runs roots s cr3 bytes :
  paging_wf roots s → active_ok cr3 s →
  match load cr3 bytes s with
  | (Ok image, s') => (ui_cr3 image ∉ roots) ∧ rtc paging_step (roots, s) ({[ui_cr3 image]} ∪ roots, s')
  | (Err _, s') => rtc paging_step (roots, s) (roots, s')
  end.
Proof.
  intros Hpw Hact. unfold load, rbind, rlift, with_error.
  destruct (elf_parse bytes) as [e|pe]; cbn [map_err]; [|apply rtc_refl].
  pose proof (new_address_space_effect roots s cr3 Hpw Hact) as Hn.
  destruct (new_from_active_kernel_mappings cr3 s) as [[[[root]]|me] s1] eqn:Hnew; cbn [map_err].
  2: { apply rtc_once. by eapply StepNoSpace. }
  cbn [as_root_frame frame_start] in *. destruct Hn as (Hfree & _ & Hpw1 & _).
  assert (Hr : root ∉ roots).
  { intros Hr. pose proof (sw_owner _ _ _ _ (pw_spaces _ _ Hpw root Hr) [] root path_ok_nil eq_refl). congruence. }
  assert (R1 : rtc paging_step (roots, s) ({[root]} ∪ roots, s1))
    by (apply rtc_once; by eapply (StepNew roots s cr3 (mkAddressSpace (mkPhysicalFrame root)))).
  pose proof (load_into_runs ({[root]} ∪ roots) root ltac:(set_solver) bytes e s1 Hpw1) as R2. unfold runs in R2.
  assert (Him : ∀ image s2, load_into_address_space bytes (mkAddressSpace (mkPhysicalFrame root)) e s1 = (Ok image, s2) →
    ui_cr3 image = root).
  { unfold load_into_address_space, rbind, rret. intros image s2.
    destruct (load_segments _ _ _ _ _ _) as [[[]|]]; [|done]. destruct (map_user_stack _ _) as [[[]|]]; [|done].
    by intros [= <- _]. }
  destruct (load_into_address_space _ _ e s1) as [[image|err] s2]; cbn [snd] in R2.
  - rewrite (Him image s2 eq_refl). split; [done|]. by etransitivity.
  - destruct (reclaim_user_address_space root s2) as [r s3] eqn:Hrec. cbn [snd].
    etransitivity; [exact R1|]. etransitivity; [exact R2|]. apply rtc_once.
    replace (roots, s3) with ((({[root]} ∪ roots) ∖ {[root]} : gset Z), s3) by (f_equal; set_solver).
    eapply StepReclaim; [set_solver|exact Hrec].
Qed.

(** * What every small step keeps *)

(** The allocator has the same memory, and buffers for devices stay theirs. *)
Record steady (a a' : FrameAllocator) : Prop := mk_steady {
  st_usable : sp_usable (frame_view a') = sp_usable (frame_view a);
  st_dma f o : owners a !! f = Some o → owner_kind o = OkDma → owners a' !! f = Some o
}.

#[export] Instance steady_preorder : PreOrder steady.
Proof.
  split; [by split|]. intros a b c [U1 D1] [U2 D2]. split; [congruence|]. intros f o Hf Hk. by apply D2; [apply D1|].
Qed.

Lemma reclaim_usable s root :
  frames_wf (pg_frames s) → space_wf (pg_mem s) (pg_frames s) root →
  sp_usable (frame_view (pg_frames (reclaim_user_address_space root s).2)) = sp_usable (frame_view (pg_frames s)).
Proof.
  intros Hwf Hsp. pose proof (reclaim_spec s root Hwf Hsp) as H.
  destruct (reclaim_user_address_space root s) as [[st|e] s']; destruct H as (s1 & Hsh & H); cbn [snd].
  - destruct H as (_ & _ & _ & _ & -> & _). apply Hsh.
  - destruct H as (-> & _). apply Hsh.
Qed.

Lemma paging_step_steady x y :
  paging_step x y → paging_wf x.1 x.2 → steady (pg_frames x.2) (pg_frames y.2).
Proof.
  intros Hstep Hpw. destruct Hstep; cbn [fst snd pg_frames] in *.
  - pose proof (new_address_space_effect roots s cr3 Hpw H) as He. rewrite H0 in He.
    destruct He as (Hn & Ho & _ & _ & _ & _ & _ & Hu). split; [done|]. intros f o Hf _.
    rewrite Ho, lookup_insert_ne; [done|]. congruence.
  - pose proof (new_address_space_effect roots s cr3 Hpw H) as He. rewrite H0 in He.
    destruct He as (_ & _ & _ & _ & Ho & Hu). split; [done|]. intros g o Hg _. by rewrite Ho.
  - pose proof (map_extends root s va f flags (pw_frames _ _ Hpw) (pw_spaces _ _ Hpw root H) H0 H4) as He.
    rewrite H5 in He. split; [apply He|]. intros g o Hg _. by apply He.
  - pose proof (unmap_page_effect roots s root va Hpw H H0) as He. rewrite H1 in He. destruct He as (_ & -> & _). done.
  - pose proof (prune_effect roots s root va Hpw H H0) as He.
    pose proof (prune_prunes s root va (pw_frames _ _ Hpw) (pw_spaces _ _ Hpw root H) H0) as Hp.
    rewrite H1 in He, Hp. split; [apply Hp|]. intros g o Hg Hk. destruct He as (_ & _ & _ & He & _).
    by destruct (He g o Hg) as [| ->].
  - pose proof (reclaim_all roots s root Hpw H) as He. pose proof (reclaim_usable s root (pw_frames _ _ Hpw) (pw_spaces _ _ Hpw root H)) as Hu.
    rewrite H0 in He, Hu. split; [done|]. intros g o Hg Hk.
    destruct He as (_ & _ & _ & _ & He & _). destruct (He g o Hg) as [|[->| ->]]; done.
  - pose proof (allocate_owned_spec o _ (pw_frames _ _ Hpw)) as Ha. rewrite H0 in Ha. destruct Ha as (_ & Hu & Ha).
    split; [done|]. intros g o' Hg _. destruct f as [f|]; [|by destruct Ha as [-> _]].
    destruct Ha as (Hn & -> & _). rewrite lookup_insert_ne; [done|]. congruence.
  - pose proof (allocate_contiguous_spec n o _ (pw_frames _ _ Hpw) H0) as Ha. rewrite H1 in Ha. destruct Ha as (_ & Hu & Ha).
    split; [done|]. intros g o' Hg _. destruct (Ha g) as [->|(Hn & _)]; [done|congruence].
  - pose proof (free_owned_spec x o _ (pw_frames _ _ Hpw) H) as Ha. rewrite H3 in Ha.
    destruct Ha as (_ & Hu & Ha). split; [done|]. intros g o' Hg Hk.
    destruct Ha as [(_ & -> & _)|(_ & -> & _)]; [|done]. rewrite lookup_delete_ne; [done|]. intros <-. congruence.
  - done.
Qed.

Lemma paging_run_steady x y :
  rtc paging_step x y → paging_wf x.1 x.2 → steady (pg_frames x.2) (pg_frames y.2).
Proof.
  induction 1 as [|x y z Hxy _ IH]; intros Hpw; [done|].
  etransitivity; [by apply paging_step_steady|]. by apply IH, (paging_step_wf x).
Qed.

(** * Ranges *)

Section range.
Context (roots : gset Z) (root vb length : Z).
Hypothesis Hroot : root ∈ roots.
Hypothesis Hvb : (0 ≤ vb)%Z.

Lemma checked_add_some a b c : checked_add a b = Some c → c = (a + b)%Z.
Proof using. unfold checked_add. case_match; by intros [=]. Qed.

(** The loops that take a range back. *)
Lemma unmap_pages_runs fuel : ∀ offset s,
  (0 ≤ offset)%Z → (vb + length ≤ USER_CANONICAL_LIMIT)%Z → runs roots s (unmap_pages fuel root vb length offset s).
Proof using Hroot Hvb.
  induction fuel as [|fuel IH]; intros offset s Ho Hfit; cbn [unmap_pages]; [apply rtc_refl|].
  destruct (Z.ltb_spec offset length) as [Hlt|]; [|apply rtc_refl].
  set (s1 := match checked_add vb offset with Some _ => _ | None => _ end).
  assert (R1 : runs roots s s1).
  { unfold s1. destruct (checked_add vb offset) as [va|] eqn:Hva; [|apply rtc_refl].
    apply checked_add_some in Hva as ->. apply rtc_once.
    destruct (unmap_page_in_root root (vb + offset) s) as [r s2] eqn:Hu. cbn [snd].
    eapply StepUnmap; [exact Hroot| |exact Hu]. unfold user_address. lia. }
  destruct (checked_add offset FRAME_SIZE) as [next|] eqn:Hn; [|done].
  apply checked_add_some in Hn as ->. etransitivity; [exact R1|]. apply IH; [unfold FRAME_SIZE; lia|done].
Qed.

Lemma prune_pages_runs fuel : ∀ offset s,
  (0 ≤ offset)%Z → (vb + length ≤ USER_CANONICAL_LIMIT)%Z → runs roots s (prune_pages fuel root vb length offset s).
Proof using Hroot Hvb.
  induction fuel as [|fuel IH]; intros offset s Ho Hfit; cbn [prune_pages]; [apply rtc_refl|].
  destruct (Z.ltb_spec offset length) as [Hlt|]; [|apply rtc_refl].
  set (s1 := match checked_add vb offset with Some _ => _ | None => _ end).
  assert (R1 : runs roots s s1).
  { unfold s1. destruct (checked_add vb offset) as [va|] eqn:Hva; [|apply rtc_refl].
    apply checked_add_some in Hva as ->. apply rtc_once.
    destruct (prune_empty_user_page_tables root (vb + offset) s) as [r s2] eqn:Hu. cbn [snd].
    eapply StepPrune; [exact Hroot| |exact Hu]. unfold user_address. lia. }
  destruct (checked_add offset FRAME_SIZE) as [next|] eqn:Hn; [|done].
  apply checked_add_some in Hn as ->. etransitivity; [exact R1|]. apply IH; [unfold FRAME_SIZE; lia|done].
Qed.

Lemma rollback_runs s :
  (vb + length ≤ USER_CANONICAL_LIMIT)%Z → runs roots s (rollback_physical_range root vb length s).
Proof using Hroot Hvb.
  intros Hfit. unfold rollback_physical_range.
  pose proof (unmap_pages_runs (range_rounds length) 0 s ltac:(done) Hfit) as R1.
  destruct (_ <=? _)%Z; [|exact R1]. etransitivity; [exact R1|]. by apply prune_pages_runs.
Qed.
End range.

(** Device memory stays device memory. *)
Lemma device_range_runs roots s s' base length :
  paging_wf roots s → runs roots s s' → device_range (pg_frames s) base length →
  device_range (pg_frames s') base length.
Proof.
  intros Hpw Hr. pose proof (paging_run_steady _ _ Hr Hpw) as [Hu Hd]. cbn [fst snd] in *.
  apply device_range_kept; [apply Hpw|by eapply pw_frames, runs_wf|done|done].
Qed.

(** The loop that maps a range. *)
Lemma map_pages_runs roots root vb pb length flags fuel : ∀ offset mapped s,
  root ∈ roots → (0 ≤ vb)%Z → (0 ≤ offset)%Z → (mapped ≤ length)%Z → (offset = mapped)%Z →
  (vb + length ≤ USER_CANONICAL_LIMIT)%Z →
  paging_wf roots s → device_range (pg_frames s) pb length →
  flags_ok (flag_bits flags) → flags_user_accessible flags = true → (FRAME_SIZE | length)%Z → (FRAME_SIZE | offset)%Z →
  runs roots s (map_pages fuel root vb pb length flags offset mapped s).2.
Proof.
  induction fuel as [|fuel IH]; intros offset mapped s Hroot Hvb Ho Hm -> Hfit Hpw Hdev Hfl Hus Hdl Hdo;
    cbn [map_pages]; (destruct (Z.ltb_spec mapped length) as [Hlt|]; [|apply rtc_refl]); [apply rtc_refl|].
  unfold rbind, rlift.
  destruct (checked_add pb mapped) as [pa|] eqn:Hpa; cbn [ok_or]; [|apply rtc_refl].
  apply checked_add_some in Hpa as ->.
  destruct (frame_from_start (pb + mapped)) as [frame|] eqn:Hfr; cbn [ok_or]; [|apply rtc_refl].
  destruct (checked_add vb mapped) as [va|] eqn:Hva; cbn [ok_or]; [|apply rtc_refl].
  apply checked_add_some in Hva as ->.
  destruct (checked_add mapped FRAME_SIZE) as [next|] eqn:Hn; cbn [ok_or]; [|apply rtc_refl].
  apply checked_add_some in Hn as ->.
  unfold frame_from_start in Hfr. destruct (_ =? 0)%Z eqn:Hal; [|done]. injection Hfr as <-.
  apply Z.eqb_eq in Hal. apply Z.mod_divide in Hal; [|done].
  destruct (map_page_in_root root (vb + mapped) _ flags s) as [r s1] eqn:Hmap.
  assert (R1 : runs roots s s1).
  { apply rtc_once. pose proof Hdev as (H0 & H1 & _).
    eapply (StepMap roots s root (vb + mapped) (pb + mapped) flags); try done.
    - unfold user_address. lia.
    - split; [done|lia].
    - apply (device_mappable _ root pb length); [done|done|lia]. }
  pose proof (runs_wf _ _ _ R1 Hpw) as Hpw1. destruct r as [[]|e]; cbn [snd].
  - etransitivity; [exact R1|]. assert (mapped + FRAME_SIZE ≤ length)%Z.
    { destruct Hdl as [n ->], Hdo as [k ->]. unfold FRAME_SIZE in *. lia. }
    pose proof (device_range_runs roots s s1 pb length Hpw R1 Hdev) as Hdev1.
    apply IH; try done; [unfold FRAME_SIZE; lia|]. apply Z.divide_add_r; [done|apply Z.divide_refl].
  - etransitivity; [exact R1|]. apply rollback_runs; [done|done|lia].
Qed.

Lemma map_range_runs roots root vb pb len flags s :
  root ∈ roots → (0 ≤ vb)%Z → (0 ≤ len)%Z → paging_wf roots s → device_range (pg_frames s) pb len →
  flags_ok (flag_bits flags) → flags_user_accessible flags = true →
  runs roots s (map_physical_range root vb pb len flags s).2.
Proof.
  intros Hroot Hvb Hlen Hpw Hdev Hfl Hus. unfold map_physical_range, rbind, rguard, rlift, rget, rret, rfail.
  destruct (negb (_ || _ || _ || _)) eqn:Hal; [|apply rtc_refl].
  apply negb_true_iff, orb_false_iff in Hal as [[[Hl0 Hla]%orb_false_iff Hva]%orb_false_iff Hpa].
  apply negb_false_iff, Z.eqb_eq, Z.mod_divide in Hla; [|done].
  destruct (checked_add vb len) as [ve|] eqn:Hve; cbn [ok_or]; [|apply rtc_refl]. apply checked_add_some in Hve as ->.
  destruct (Z.leb_spec USER_CANONICAL_LIMIT vb); cbn [orb negb]; [apply rtc_refl|].
  destruct (Z.ltb_spec USER_CANONICAL_LIMIT (vb + len)); cbn [orb negb]; [apply rtc_refl|].
  destruct (checked_add pb len); cbn [ok_or]; [|apply rtc_refl].
  destruct (user_range_is_unmapped _ _ _ _) as [[]|e]; cbn [map_err]; [|apply rtc_refl..].
  apply map_pages_runs; try done. apply Z.divide_0_r.
Qed.

(** * What the kernel does with memory *)

(** The page tables that are in use when a program is loaded: those of an address space,
    or the boot loader's, which the allocator does not hand out. *)
Definition active (cr3 : Z) (roots : gset Z) (s : Paging) : Prop :=
  cr3 ∈ roots ∨ contains (pg_frames s) (mkPhysicalFrame (Z.land cr3 ADDRESS_MASK)) = false.

(** A frame for data: what an address space shows, a frame the kernel or a device was
    given, or memory outside of the allocator's. *)
Definition data_frame (roots : gset Z) (s : Paging) (f : Z) : Prop :=
  (∃ r va u w, r ∈ roots ∧ user_address va ∧ translate (pg_mem s) r va = Some (f, u, w)) ∨
  match owners (pg_frames s) !! f with
  | Some o => owner_kind o = OkKernel ∨ owner_kind o = OkScratch ∨ owner_kind o = OkDma
  | None => contains (pg_frames s) (mkPhysicalFrame f) = false
  end.

(** The callers of the page tables and the allocator, whole: [userspace::load], from a
    file or in vain; [reclaim_user_address_space]; the mapping and unmapping of device
    memory by [ipc/memory_mapping.rs]; the allocations of the kernel and of DMA buffers
    ([main.rs], [allocate_virtio_dma]), and the releases of kernel frames; and stores to
    data, by programs, by the kernel and by devices. Of a range to map, the kernel
    checks alignment and addresses; that it is device memory is the configuration's
    part. *)
Inductive memory_step : gset Z * Paging → gset Z * Paging → Prop :=
| MemLoad roots s cr3 bytes image s' :
    active cr3 roots s → load cr3 bytes s = (Ok image, s') →
    memory_step (roots, s) ({[ui_cr3 image]} ∪ roots, s')
| MemLoadFailed roots s cr3 bytes e s' :
    active cr3 roots s → load cr3 bytes s = (Err e, s') → memory_step (roots, s) (roots, s')
| MemReclaim roots s root r s' :
    root ∈ roots → reclaim_user_address_space root s = (r, s') →
    memory_step (roots, s) (roots ∖ {[root]}, s')
| MemMap roots s root virtual_base physical_base len flags r s' :
    root ∈ roots → (0 ≤ virtual_base)%Z → (0 ≤ len)%Z → device_range (pg_frames s) physical_base len →
    flags = user_device ∨ flags = user_flags true false →
    map_physical_range root virtual_base physical_base len flags s = (r, s') →
    memory_step (roots, s) (roots, s')
| MemUnmap roots s root virtual_base len :
    root ∈ roots → (0 ≤ virtual_base)%Z → (virtual_base + len ≤ USER_CANONICAL_LIMIT)%Z →
    memory_step (roots, s) (roots, unmap_physical_range root virtual_base len s)
| MemAllocate roots s o f a' :
    (∃ id, o = owner_kernel id) ∨ o = owner_scratch → allocate_owned o (pg_frames s) = (f, a') →
    memory_step (roots, s) (roots, mkPaging (pg_mem s) a')
| MemBuffer roots s n id f a' :
    (0 ≤ n)%Z → allocate_contiguous_owned n (owner_dma id) (pg_frames s) = (f, a') →
    memory_step (roots, s) (roots, mkPaging (pg_mem s) a')
| MemFree roots s x o r a' :
    owners (pg_frames s) !! x = Some o → (∃ id, o = owner_kernel id) ∨ o = owner_scratch →
    free_owned (mkPhysicalFrame x) o (pg_frames s) = (r, a') →
    memory_step (roots, s) (roots, mkPaging (pg_mem s) a')
| MemStore roots s f m' :
    data_frame roots s f → (∀ t i, t ≠ f → m' t i = pg_mem s t i) →
    memory_step (roots, s) (roots, mkPaging m' (pg_frames s)).

Lemma active_root_ok cr3 roots s : paging_wf roots s → active cr3 roots s → active_ok cr3 s.
Proof.
  intros Hpw [Hr|Hc]; [left|by right].
  pose proof (sw_owner _ _ _ _ (pw_spaces _ _ Hpw cr3 Hr) [] cr3 path_ok_nil eq_refl) as Ho.
  rewrite frame_address; [by eexists|]. by eapply owned_frame_ok, Ho; apply Hpw.
Qed.

(** Frames of no process and no device are mapped nowhere. *)
Lemma kernel_frame_unmapped roots s x o q p i e :
  paging_wf roots s → owners (pg_frames s) !! x = Some o → (∃ id, o = owner_kernel id) ∨ o = owner_scratch →
  q ∈ roots → path_ok p → length p = 3 → i < ENTRY_COUNT → leaf_at (pg_mem s) q p i = Some e → entry_address e ≠ x.
Proof.
  intros Hpw Ho Hk Hq Hp Hl Hi He <-. unfold leaf_at in He.
  destruct (table_at (pg_mem s) q p) as [t|] eqn:Ht; [|done].
  destruct (entry_is_present (pg_mem s t i)) eqn:Hpr; [|done].
  destruct (sw_leaf _ _ _ _ (pw_spaces _ _ Hpw q Hq) p t i Hp Hl Hi Ht Hpr) as [Hh Hm].
  rewrite Hh in He. cbn in He. injection He as <-. unfold mappable in Hm. rewrite Ho in Hm.
  destruct Hk as [[id ->]| ->], Hm as [Hm|Hm]; done.
Qed.

Lemma data_frame_no_table roots s f r :
  paging_wf roots s → data_frame roots s f → owners (pg_frames s) !! f ≠ Some (owner_page_table r).
Proof.
  intros Hpw [(q & va & u & w & Hq & Hva & Htr)|Hd] Ho.
  - by destruct (paging_wf_isolated roots s q va f u w Hpw Hq Hva Htr) as [Hn _]; apply (Hn r).
  - rewrite Ho in Hd. by destruct Hd as [|[|]].
Qed.

Lemma device_flags flags : flags = user_device ∨ flags = user_flags true false →
  flags_ok (flag_bits flags) ∧ flags_user_accessible flags = true.
Proof. intros [->| ->]; [|apply user_flags_ok]. split; [split|]; reflexivity. Qed.

(** The callers take small steps only. *)
Lemma memory_step_runs x y : memory_step x y → paging_wf x.1 x.2 → rtc paging_step x y.
Proof.
  intros Hstep Hpw. destruct Hstep; cbn [fst snd] in *.
  - pose proof (load_runs roots s cr3 bytes Hpw (active_root_ok _ _ _ Hpw H)) as Hl. rewrite H0 in Hl. apply Hl.
  - pose proof (load_runs roots s cr3 bytes Hpw (active_root_ok _ _ _ Hpw H)) as Hl. by rewrite H0 in Hl.
  - apply rtc_once. by eapply StepReclaim.
  - destruct (device_flags flags H3) as [Hf Hu].
    pose proof (map_range_runs roots root virtual_base physical_base len flags s H H0 H1 Hpw H2 Hf Hu) as Hr.
    by rewrite H4 in Hr.
  - by apply rollback_runs.
  - apply rtc_once. eapply StepAllocate; [|done]. by destruct H as [[id ->]| ->].
  - apply rtc_once. by eapply (StepBlock roots s n (owner_dma id)).
  - apply rtc_once. eapply StepFree; [done|by destruct H0 as [[id ->]| ->]..| |done].
    intros q p i e. by apply (kernel_frame_unmapped roots s x o).
  - apply rtc_once. apply (StepWrite roots s f); [|done]. intros r. by apply (data_frame_no_table roots).
Qed.

Lemma memory_run_wf x y : rtc memory_step x y → paging_wf x.1 x.2 → paging_wf y.1 y.2.
Proof.
  induction 1 as [|x y z Hxy _ IH]; [done|]. intros Hpw. apply IH. eapply paging_run_wf; [|done]. by apply memory_step_runs.
Qed.

Lemma boot_wf map m : memmap_ok map → init_outcome map = Ok tt → paging_wf ∅ (mkPaging m (boot_allocator map)).
Proof. intros Hmap Hboot. split; [by apply boot_allocator_starting|]. intros q Hq. set_solver. Qed.

(** C22: address spaces are isolated. Whatever a machine does with memory after boot, in
    any order: programs are loaded or fail to load, address spaces are reclaimed, ranges
    of device memory are mapped and ranges of addresses unmapped, the kernel and devices
    are given frames and kernel frames are freed, and programs, kernel and devices write
    to data. Then no address of an address space is translated to a page table, nor to
    memory of another address space, and two address spaces translate to the same frame
    only if it is a buffer for a device or not allocatable memory at all. The one
    condition on these operations that the kernel does not check itself is that the
    ranges mapped for devices lie in DMA buffers or outside of the allocator's
    memory. *)
Theorem address_spaces_isolated map m roots s :
  memmap_ok map → init_outcome map = Ok tt →
  rtc memory_step (∅, mkPaging m (boot_allocator map)) (roots, s) →
  ∀ r va f u w, r ∈ roots → user_address va → translate (pg_mem s) r va = Some (f, u, w) →
  (∀ r', owners (pg_frames s) !! f ≠ Some (owner_page_table r')) ∧
  (∀ r', r' ≠ r → owners (pg_frames s) !! f ≠ Some (owner_process_memory r')) ∧
  ∀ r' va' u' w', r' ∈ roots → r' ≠ r → user_address va' → translate (pg_mem s) r' va' = Some (f, u', w') →
    (∃ id, owners (pg_frames s) !! f = Some (owner_dma id)) ∨ contains (pg_frames s) (mkPhysicalFrame f) = false.
Proof.
  intros Hmap Hboot Hrun r va f u w Hr Hva Htr.
  apply (paging_wf_isolated roots s r va f u w); [|done..]. exact (memory_run_wf _ _ Hrun (boot_wf map m Hmap Hboot)).
Qed.

(** The small program, loaded after boot. *)
Lemma loader_map_boots : init_outcome loader_map = Ok tt.
Proof. vm_compute. reflexivity. Qed.

Lemma tiny_loaded_run : rtc memory_step (∅, loader_machine) ({[ui_cr3 tiny_image]} ∪ ∅, tiny_loaded).
Proof.
  apply rtc_once. eapply (MemLoad ∅ loader_machine boot_cr3 (tiny_elf 0x400000)); [|exact tiny_load].
  right. vm_compute. reflexivity.
Qed.

Lemma tiny_text_frame :
  match translate (pg_mem tiny_loaded) (ui_cr3 tiny_image) 0x400000 with Some (f, true, false) => (f =? 0x2000)%Z | _ => false end = true.
Proof. vm_compute. reflexivity. Qed.

Lemma tiny_text_translated :
  ∃ f, translate (pg_mem tiny_loaded) (ui_cr3 tiny_image) 0x400000 = Some (f, true, false).
Proof.
  pose proof tiny_text_frame as Hf. destruct (translate _ _ _) as [[[f [|]] [|]]|]; try discriminate. by exists f.
Qed.

Lemma tiny_root_in : ui_cr3 tiny_image ∈ ({[ui_cr3 tiny_image]} ∪ ∅ : gset Z).
Proof. set_solver. Qed.

Lemma address_spaces_isolated_witness :
  ∃ f, translate (pg_mem tiny_loaded) (ui_cr3 tiny_image) 0x400000 = Some (f, true, false) ∧
    owners (pg_frames tiny_loaded) !! f ≠ Some (owner_page_table (ui_cr3 tiny_image)).
Proof.
  destruct tiny_text_translated as [f Hf]. exists f. split; [exact Hf|].
  refine (proj1 (address_spaces_isolated loader_map (λ _ _, 0%Z) ({[ui_cr3 tiny_image]} ∪ ∅) tiny_loaded loader_map_ok
    loader_map_boots tiny_loaded_run (ui_cr3 tiny_image) 0x400000 f true false tiny_root_in _ Hf) (ui_cr3 tiny_image)).
  unfold user_address, USER_CANONICAL_LIMIT. lia.
Defined.
