(* ===== verification/Virtio.v ===== *)
(** The state of the virtio devices the kernel drives itself ([device/virtio.rs]) and
    the ports and DMA memory their driver uses ([ipc/device_syscalls.rs]). *)

From S2P Require Import Prelude KernelBase.

(** * State *)

Record VirtioQueueState := mkVirtioQueueState {
  vq_dma_physical : Z;
  vq_dma_virtual : Z;
  vq_queue_size : Z;
  vq_avail_offset : Z;
  vq_used_offset : Z;
  vq_data_offset : Z;
  vq_avail_idx : Z;
  vq_used_idx : Z;
  vq_submissions : Z;
  vq_completions : Z;
  vq_interrupt_waits : Z;
  vq_timeouts : Z;
  vq_last_error : string
}.
#[export] Instance eta_VirtioQueueState : Eta VirtioQueueState := λ q,
  mkVirtioQueueState (vq_dma_physical q) (vq_dma_virtual q) (vq_queue_size q) (vq_avail_offset q) (vq_used_offset q)
    (vq_data_offset q) (vq_avail_idx q) (vq_used_idx q) (vq_submissions q) (vq_completions q) (vq_interrupt_waits q)
    (vq_timeouts q) (vq_last_error q).

(** [VirtioQueueState::new] and [VirtioQueueState::empty]. *)
Definition virtio_queue_new (dma_physical dma_virtual : Z) : VirtioQueueState :=
  mkVirtioQueueState dma_physical dma_virtual 0 0 0 0 0 0 0 0 0 0 "none".
Definition virtio_queue_empty : VirtioQueueState := virtio_queue_new 0 0.

Record VirtioRngState := mkVirtioRngState {
  rng_initialized : bool;
  rng_io_base : Z;
  rng_queue : VirtioQueueState;
  rng_owner : ProcessId;
  rng_reset_count : Z;
  rng_last_error : string
}.
#[export] Instance eta_VirtioRngState : Eta VirtioRngState := λ s,
  mkVirtioRngState (rng_initialized s) (rng_io_base s) (rng_queue s) (rng_owner s) (rng_reset_count s)
    (rng_last_error s).
Definition rng_new : VirtioRngState := mkVirtioRngState false 0 virtio_queue_empty pid_empty 0 "none".

Record VirtioNetState := mkVirtioNetState {
  net_initialized : bool;
  net_io_base : Z;
  net_rx : VirtioQueueState;
  net_tx : VirtioQueueState;
  net_rx_posted : bool;
  net_owner : ProcessId;
  net_reset_count : Z;
  net_last_error : string
}.
#[export] Instance eta_VirtioNetState : Eta VirtioNetState := λ s,
  mkVirtioNetState (net_initialized s) (net_io_base s) (net_rx s) (net_tx s) (net_rx_posted s) (net_owner s)
    (net_reset_count s) (net_last_error s).
Definition net_new : VirtioNetState :=
  mkVirtioNetState false 0 virtio_queue_empty virtio_queue_empty false pid_empty 0 "none".

(** * Ports *)

(** A write to an I/O port: its number, its width in bytes and the value. *)
Record PortWrite := mkPortWrite { pw_port : Z; pw_width : Z; pw_value : Z }.

(** The two drivers, and the writes to I/O ports so far, the last one first. *)
Record Devices := mkDevices {
  dev_rng : VirtioRngState;
  dev_net : VirtioNetState;
  dev_ports : list PortWrite
}.
#[export] Instance eta_Devices : Eta Devices := λ d, mkDevices (dev_rng d) (dev_net d) (dev_ports d).
Definition devices_new : Devices := mkDevices rng_new net_new [].

Definition out_port (port width value : Z) (d : Devices) : Devices :=
  d <| dev_ports ::= cons (mkPortWrite port width value) |>.

Definition VIRTIO_PCI_STATUS : Z := 18.
Definition VIRTIO_RNG_DEVICE_ID : string := "device:virtio-rng0".
Definition VIRTIO_NET_DEVICE_ID : string := "device:virtio-net0".
Definition VIRTIO_PCI_IO_TRANSPORT_ID : string := "virtio-pci-io".

(** [virtio_write8]: a [u16] sum. *)
Definition virtio_write8 (io_base offset value : Z) : Devices → Devices :=
  out_port ((io_base + offset) mod 65536) 1 value.

(** * Release *)

(** The block of [release_process_kernel_virtio_ownership] for the random number
    generator. *)
Definition release_rng (pid : ProcessId) (d : Devices) : Devices :=
  let rng := dev_rng d in
  if (rng_owner rng =? pid)%Z then
    (if negb (rng_io_base rng =? 0)%Z then virtio_write8 (rng_io_base rng) VIRTIO_PCI_STATUS 0 d else d)
      <| dev_rng := rng <| rng_initialized := false |> <| rng_owner := pid_empty |>
                        <| rng_reset_count ::= λ n, sat_add n 1 |> <| rng_last_error := "owner-release"%string |>
                        <| rng_queue ::= λ q, q <| vq_last_error := "owner-release"%string |> |> |>
  else d.

(** The block for the network device. *)
Definition release_net (pid : ProcessId) (d : Devices) : Devices :=
  let net := dev_net d in
  if (net_owner net =? pid)%Z then
    (if negb (net_io_base net =? 0)%Z then virtio_write8 (net_io_base net) VIRTIO_PCI_STATUS 0 d else d)
      <| dev_net := net <| net_initialized := false |> <| net_rx_posted := false |> <| net_owner := pid_empty |>
                        <| net_reset_count ::= λ n, sat_add n 1 |> <| net_last_error := "owner-release"%string |>
                        <| net_rx ::= λ q, q <| vq_last_error := "owner-release"%string |> |>
                        <| net_tx ::= λ q, q <| vq_last_error := "owner-release"%string |> |> |>
  else d.

(** [release_process_kernel_virtio_ownership]. *)
Definition release_process_kernel_virtio_ownership (pid : ProcessId) (d : Devices) : Devices :=
  release_net pid (release_rng pid d).
