(* ===== verification/Kernel.v ===== *)
(** The machine around the runtime state: user memory ([usercopy.rs]) behind an
    interface, the time stamp counter and the interrupts as an environment,
    and the monad of kernel calls, which may fail and may also not return
    while the processor waits for an interrupt. *)

From S2P Require Import Prelude KernelBase Transport VfsPath KernelObjects ProcessRuntime.
From S2P Require Import CapRegistry VfsState Runtime Virtio.

(** * User memory *)

(** [paging::UserAccess]. *)
Inductive UserAccess := UserRead | UserWrite.

(** What the kernel needs of the memory of user processes, by the physical
    address of the root page table ([cr3]): [um_valid] is the answer of
    [paging::validate_user_range], [um_load] and [um_store] are the copies of
    [usercopy.rs]. *)
Class UserMemory := mkUserMemory {
  umem : Type;
  um_valid : umem → Z → Z → Z → UserAccess → bool;
  um_load : umem → Z → Z → nat → list byte;
  um_store : umem → Z → Z → list byte → umem;
  um_load_length m root ptr n : length (um_load m root ptr n) = n
}.

(** * The environment *)

(** What an interrupt taken while the kernel waits does: a tick of the timer
    ([krust_timer_kernel_dispatch]) or a line of the interrupt controller
    ([krust_irq_kernel_dispatch]). *)
Inductive IrqEvent := IrqTimer | IrqLine (line : Z).

(** The successive readings of the time stamp counter, the interrupts of each
    wait, and the frequency the processor reports. *)
Record Env := mkEnv {
  env_tsc : nat → Z;
  env_irqs : nat → list IrqEvent;
  env_ticks_per_ms : Z
}.

(** * Kernel state and calls *)

Record KernelState `{UserMemory} := mkKernelState {
  ks_rt : RuntimeState;
  ks_mem : umem;
  ks_cr3 : Z;
  ks_frame : SyscallFrame;
  ks_reads : nat;
  ks_waits : nat;
  ks_devices : Devices
}.
Global Arguments mkKernelState {_}.
#[export] Instance eta_KernelState `{UserMemory} : Eta KernelState := λ k,
  mkKernelState (ks_rt k) (ks_mem k) (ks_cr3 k) (ks_frame k) (ks_reads k) (ks_waits k) (ks_devices k).

(** A kernel call: [None] when it never returns. *)
Definition K `{UserMemory} (A : Type) : Type := KernelState → option (Result IpcError A * KernelState).

Section calls.
Context `{UserMemory} {A B : Type}.

Definition kret (a : A) : K A := λ k, Some (Ok a, k).
Definition kfail (e : IpcError) : K A := λ k, Some (Err e, k).
Definition kbind (c : K A) (f : A → K B) : K B := λ k,
  match c k with
  | Some (Ok a, k') => f a k'
  | Some (Err e, k') => Some (Err e, k')
  | None => None
  end.
(** Run both, ignoring the error of the first: [let _ = c;]. *)
Definition kget (f : KernelState → A) : K A := λ k, Some (Ok (f k), k).
Definition kmodify (f : KernelState → KernelState) : K unit := λ k, Some (Ok tt, f k).
(** A call that only touches the runtime state. *)
Definition on_rt (c : M RuntimeState IpcError A) : K A := λ k,
  let '(r, rt) := c (ks_rt k) in Some (r, k <| ks_rt := rt |>).
Definition klift (r : Result IpcError A) : K A := λ k, Some (r, k).
End calls.

Notation "'let*' x ':=' c 'in' f" := (kbind c (λ x, f))
  (at level 10, x pattern, c at level 200, f at level 200,
   format "'[v' 'let*'  x  ':='  c  'in' '/' f ']'") : krust_scope.
Notation "'do*' c ';' f" := (kbind c (λ _, f))
  (at level 10, c at level 200, f at level 200,
   format "'[v' 'do*'  c ';' '/' f ']'") : krust_scope.

Section machine.
Context `{UserMemory} (env : Env).

Definition modify_rt (f : RuntimeState → RuntimeState) : K unit :=
  kmodify (λ k, k <| ks_rt ::= f |>).
Definition kguard (c : bool) (e : IpcError) : K unit := if c then kret tt else kfail e.

(** [read_tsc]. *)
Definition read_tsc : K Z := λ k,
  Some (Ok (env_tsc env (ks_reads k)), k <| ks_reads ::= S |>).

(** [gdt::switch_address_space]. *)
Definition switch_address_space (cr3 : Z) : K unit := kmodify (λ k, k <| ks_cr3 := cr3 |>).

(** [usercopy::validate_user_buffer]. *)
Definition validate_user_buffer (ptr len : Z) (access : UserAccess) : K bool :=
  kget (λ k, um_valid (ks_mem k) (ks_cr3 k) ptr len access).

(** [usercopy::copy_from_user] into a buffer of [cap] bytes; [None] is its
    error. *)
Definition copy_from_user (cap : nat) (ptr len : Z) : K (option (list byte)) := λ k,
  if (Z.of_nat cap <? len)%Z then Some (Ok None, k)
  else if um_valid (ks_mem k) (ks_cr3 k) ptr len UserRead
  then Some (Ok (Some (um_load (ks_mem k) (ks_cr3 k) ptr (Z.to_nat len))), k)
  else Some (Ok None, k).

(** [usercopy::copy_to_user]; the flag says whether it succeeded. *)
Definition copy_to_user (ptr : Z) (src : list byte) : K bool := λ k,
  if um_valid (ks_mem k) (ks_cr3 k) ptr (Z.of_nat (length src)) UserWrite
  then Some (Ok true, k <| ks_mem := um_store (ks_mem k) (ks_cr3 k) ptr src |>)
  else Some (Ok false, k).
End machine.

(** ** Inversion of successful runs *)

Section inversion.
Context `{UserMemory} {A B : Type}.

Lemma kbind_ok (c : K A) (f : A → K B) k b k' :
  kbind c f k = Some (Ok b, k') ↔ ∃ a k1, c k = Some (Ok a, k1) ∧ f a k1 = Some (Ok b, k').
Proof.
  unfold kbind. split.
  - destruct (c k) as [[[a|e] k1]|]; [eauto|done..].
  - intros (a & k1 & -> & Hf). done.
Qed.

(** Every run of a sequence is a run of its first part, followed by a run of
    the rest when that part succeeds. *)
Lemma kbind_run (c : K A) (f : A → K B) k r k' :
  kbind c f k = Some (r, k') ↔
  (∃ a k1, c k = Some (Ok a, k1) ∧ f a k1 = Some (r, k')) ∨
  (∃ e, c k = Some (Err e, k') ∧ r = Err e).
Proof.
  unfold kbind. destruct (c k) as [[[a|e] k1]|]; naive_solver.
Qed.

Lemma on_rt_run (c : M RuntimeState IpcError A) k r k' :
  on_rt c k = Some (r, k') ↔ ∃ rt, c (ks_rt k) = (r, rt) ∧ k' = k <| ks_rt := rt |>.
Proof. unfold on_rt. destruct (c (ks_rt k)) as [r0 rt]. naive_solver. Qed.
End inversion.

(** * An instance: flat address spaces *)

(** Bytes by root table and address, and the ranges a process may use: every
    address below [flat_limit]. *)
Definition flat_limit : Z := 2 ^ 47.

Definition flat_valid (ptr n : Z) : bool := (0 <=? ptr)%Z && (ptr + n <=? flat_limit)%Z.
Definition flat_load (m : Z → Z → Z) (root ptr : Z) (n : nat) : list byte :=
  (λ i, m root (ptr + Z.of_nat i)%Z) <$> seq 0 n.
Definition flat_store (m : Z → Z → Z) (root ptr : Z) (bs : list byte) : Z → Z → Z := λ root' a,
  if (root' =? root)%Z && (ptr <=? a)%Z
  then default (m root' a) (bs !! Z.to_nat (a - ptr)) else m root' a.

#[export, refine] Instance flat_memory : UserMemory :=
  mkUserMemory (Z → Z → Z) (λ _ _ ptr n _, flat_valid ptr n) flat_load flat_store _.
Proof. intros. unfold flat_load. by rewrite length_fmap, length_seq. Defined.
