(* ===== verification/ProcessMemory.v ===== *)
(** What the calls on processes and devices need of memory beyond user copies: address
    spaces are built from a program image and torn down again, and device memory is
    cleared. The laws say which address spaces are in being. *)

From S2P Require Import Prelude Frames Paging KernelBase ProcessRuntime Virtio Kernel.

(** [pm_load active base length] is [userspace::load] of the image at [base], run with
    the root table [active]; [pm_reclaim] is [paging::reclaim_user_address_space],
    [pm_zero] is the clearing of [zero_dma_physical_range], and [pm_map] and [pm_unmap]
    are the functions of [ipc/memory_mapping.rs] on the address space of a root table
    ([MemoryMapping]). [pm_spaces roots m] says that exactly the address spaces of
    [roots] are in being in [m]; [pm_device] holds of physical ranges that may be
    cleared, those of device memory. The kernel's own functions satisfy the laws on a
    machine with no more usable frames than the stack of recycled frames has room for,
    8192: [RealMemory] proves it of [load], [reclaim_user_address_space] and the page
    tables of [Paging]. With more frames [reclaim_user_address_space] can stop halfway
    with [FreeStackFull], and what is proved from these laws does not apply. *)
Class ProcessMemory `{UserMemory} := mkProcessMemory {
  pm_load : Z → Z → Z → umem → option ProcessContext * umem;
  pm_reclaim : Z → umem → bool * umem;
  pm_zero : Z → Z → umem → bool * umem;
  pm_map : Z → Z → Z → Z → PageFlags → umem → bool * umem;
  pm_unmap : Z → Z → Z → umem → umem;
  pm_spaces : gset Z → umem → Prop;
  pm_device : Z → Z → Prop;
  pm_load_ok active base len roots m c m' :
    pm_spaces roots m → active ∈ roots → pm_load active base len m = (Some c, m') →
    (cr3 c ∉ roots) ∧ cr3 c ≠ 0%Z ∧ pm_spaces ({[cr3 c]} ∪ roots) m';
  pm_load_failed active base len roots m m' :
    pm_spaces roots m → active ∈ roots → pm_load active base len m = (None, m') → pm_spaces roots m';
  pm_reclaim_ok root roots m :
    pm_spaces roots m → root ∈ roots →
    ∃ m', pm_reclaim root m = (true, m') ∧ pm_spaces (roots ∖ {[root]}) m';
  pm_zero_spaces base len roots m :
    pm_spaces roots m → pm_device base len → pm_spaces roots (pm_zero base len m).2
}.

(** * An instance: counted address spaces *)

(** Flat memory with the set of address spaces in being; a new space takes the first
    free number, and a program is only loaded while there are fewer than [limit]. *)
Record SpaceMemory := mkSpaceMemory { sm_bytes : Z → Z → Z; sm_spaces : gset Z }.
#[export] Instance eta_SpaceMemory : Eta SpaceMemory := λ m, mkSpaceMemory (sm_bytes m) (sm_spaces m).

Definition fresh_space (m : SpaceMemory) : Z := 1 + Z.of_nat (max_list (Z.to_nat <$> elements (sm_spaces m))).

Lemma fresh_space_new m : fresh_space m ∉ sm_spaces m.
Proof.
  intros Hin. unfold fresh_space in Hin.
  pose proof (max_list_elem_of_le _ _ (list_elem_of_fmap_2 Z.to_nat _ _ (proj2 (elem_of_elements _ _) Hin))). lia.
Qed.

Definition space_limit : nat := 8.

#[local, refine] Instance space_memory : UserMemory :=
  mkUserMemory SpaceMemory (λ _ _ ptr n _, flat_valid ptr n)
    (λ m root ptr n, flat_load (sm_bytes m) root ptr n)
    (λ m root ptr bs, m <| sm_bytes := flat_store (sm_bytes m) root ptr bs |>) _.
Proof. intros m root ptr n. apply (um_load_length (UserMemory := flat_memory)). Defined.

Definition space_load (active base len : Z) (m : SpaceMemory) : option ProcessContext * SpaceMemory :=
  if size (sm_spaces m) <? space_limit
  then (Some (mkProcessContext (fresh_space m) base 4096), m <| sm_spaces ::= λ s, {[fresh_space m]} ∪ s |>)
  else (None, m).

#[local, refine] Instance space_process_memory : ProcessMemory :=
  mkProcessMemory space_memory space_load
    (λ root m, (bool_decide (root ∈ sm_spaces m), m <| sm_spaces ::= λ s, s ∖ {[root]} |>))
    (λ _ _ m, (true, m)) (λ _ _ _ _ _ m, (true, m)) (λ _ _ _ m, m)
    (λ roots m, sm_spaces m = roots) (λ _ _, True) _ _ _ _.
Proof.
  - intros active base len roots m c m' <- _. unfold space_load. destruct (_ <? _); [|done].
    intros [= <- <-]. cbn. split_and!; [apply fresh_space_new| |done]. unfold fresh_space. lia.
  - intros active base len roots m m' <- _. unfold space_load. destruct (_ <? _); [done|]. by intros [= <-].
  - intros root roots m <- Hin. eexists. rewrite bool_decide_eq_true_2 by done. done.
  - done.
Defined.
