(* ===== verification/RealMemory.v ===== *)
(** The kernel's own memory management behind the interfaces [UserMemory] and
    [ProcessMemory]: page tables, frames and the loader of [Paging], [Frames] and
    [UserImage] satisfy their laws on a machine with no more usable frames than the stack
    of recycled frames has room for. *)

From S2P Require Import Prelude Elf Frames FrameProofs Paging PagingProofs AddressSpaces UserImage UserImageProofs.
From S2P Require Import KernelBase ProcessRuntime BootPolicy MemoryMapping MemoryMappingProofs MachineMemory Virtio Kernel ProcessMemory.
From stdpp Require Import relations.

(** * Every frame in its place *)

(** Every frame of an address space belongs to one of [roots], and is a page table of its
    tree or a page that it maps. *)
Definition accounted (roots : gset Z) (s : Paging) : Prop := ∀ x r,
  (owners (pg_frames s) !! x = Some (owner_page_table r) →
     r ∈ roots ∧ ∃ p, path_ok p ∧ table_at (pg_mem s) r p = Some x) ∧
  (owners (pg_frames s) !! x = Some (owner_process_memory r) →
     r ∈ roots ∧ ∃ va u w, user_address va ∧ translate (pg_mem s) r va = Some (x, u, w)).

Lemma accounted_no_orphans roots s : accounted roots s → no_orphans roots s.
Proof. intros Ha x o r Hx [->| ->]; [by apply (proj1 (Ha x r))|by apply (proj2 (Ha x r))]. Qed.

(** The other address spaces, while [root] comes or goes. *)
Lemma accounted_kept roots roots' root s s' :
  paging_wf roots s → accounted roots s →
  (∀ r, r ∈ roots → r ≠ root → r ∈ roots') →
  (∀ x o r, r ≠ root → root_owned r o → owners (pg_frames s') !! x = Some o → owners (pg_frames s) !! x = Some o) →
  (∀ t i r, r ≠ root → owners (pg_frames s) !! t = Some (owner_page_table r) → pg_mem s' t i = pg_mem s t i) →
  (∀ r va, r ∈ roots → r ≠ root → user_address va → translate (pg_mem s') r va = translate (pg_mem s) r va) →
  (∀ x, (owners (pg_frames s') !! x = Some (owner_page_table root) →
           root ∈ roots' ∧ ∃ p, path_ok p ∧ table_at (pg_mem s') root p = Some x) ∧
        (owners (pg_frames s') !! x = Some (owner_process_memory root) →
           root ∈ roots' ∧ ∃ va u w, user_address va ∧ translate (pg_mem s') root va = Some (x, u, w))) →
  accounted roots' s'.
Proof.
  intros Hpw Ha Hroots Hown Hmem Htr Hroot x r. destruct (decide (r = root)) as [->|Hne]; [apply Hroot|]. split; intros Hx.
  - apply (Hown _ _ r) in Hx; [|done|by left]. destruct (proj1 (Ha x r) Hx) as (Hr & p & Hp & Hat).
    split; [by apply Hroots|]. exists p. split; [done|]. rewrite <-Hat. apply table_at_frame; [|done].
    intros q t i Hq Ht. apply (Hmem t i r); [done|]. by eapply (sw_owner _ _ _ _ (pw_spaces _ _ Hpw r Hr)).
  - apply (Hown _ _ r) in Hx; [|done|by right]. destruct (proj2 (Ha x r) Hx) as (Hr & va & u & w & Hva & Hat).
    split; [by apply Hroots|]. exists va, u, w. split; [done|]. by rewrite Htr.
Qed.

Lemma root_owned_same r r' o : root_owned r o → root_owned r' o → r = r'.
Proof. unfold root_owned, owner_page_table, owner_process_memory. naive_solver. Qed.

(** ** Loading *)

Section load.
Context (roots : gset Z) (s : Paging) (cr3 : Z) (bytes : list byte).
Hypothesis Hpw : paging_wf roots s.
Hypothesis Hacc : accounted roots s.
Hypothesis Hact : active_ok cr3 s.
Hypothesis Hbytes : Forall is_byte bytes.
Hypothesis Hlen : is_u64 (Z.of_nat (length bytes)).
Hypothesis Hsmall : (usable_frames (pg_frames s) ≤ Z.of_nat FREE_STACK_CAPACITY)%Z.

Lemma load_accounted image s' : load cr3 bytes s = (Ok image, s') → accounted ({[ui_cr3 image]} ∪ roots) s'.
Proof using All.
  intros Hload. destruct (load_ok roots s cr3 bytes Hpw (accounted_no_orphans _ _ Hacc) Hact Hbytes Hlen image s' Hload)
    as (e & _ & _ & Hr & _ & _ & Hf & Hi).
  apply (accounted_kept roots _ (ui_cr3 image) s); [done|done|set_solver| | | |].
  - intros x o r Hne Ho Hx. destruct (fl_new _ _ _ _ Hf x o Hx) as [|Ho']; [done|]. by destruct (Hne (root_owned_same _ _ _ Ho Ho')).
  - intros t i r Hne Ht. apply (fl_mem _ _ _ _ Hf t i _ Ht). intros Ho. apply Hne. eapply root_owned_same; [|exact Ho]. by left.
  - intros r va Hr' Hne Hva. apply (ok_translate _ _ _ _ _ (fl_others _ _ _ _ Hf)); [done|done|]. by intros [].
  - intros x. split; intros Hx; (split; [set_solver|]).
    + exact (im_placed _ _ _ _ Hi x Hx).
    + apply (im_owned _ _ _ _ Hi x); [|done]. by rewrite (usable_frames_same (pg_frames s)) by apply Hf.
Qed.

Lemma load_failed_accounted e s' : load cr3 bytes s = (Err e, s') → accounted roots s'.
Proof using All.
  intros Hload. pose proof (accounted_no_orphans _ _ Hacc) as Hno.
  destruct (load_failure_spec roots s cr3 bytes e s' Hpw Hno Hact Hbytes Hlen Hsmall Hload) as (Ho & _ & Htr & Hmem & _).
  intros x r. rewrite Ho. split; intros Hx.
  - destruct (proj1 (Hacc x r) Hx) as (Hr & p & Hp & Hat). split; [done|]. exists p. split; [done|]. rewrite <-Hat.
    apply table_at_frame; [|done]. intros q t i Hq Ht. apply Hmem. eexists. by eapply (sw_owner _ _ _ _ (pw_spaces _ _ Hpw r Hr)).
  - destruct (proj2 (Hacc x r) Hx) as (Hr & va & u & w & Hva & Hat). split; [done|]. exists va, u, w. split; [done|]. by rewrite Htr.
Qed.
End load.

(** ** Reclaiming *)

Lemma reclaim_accounted roots s root :
  paging_wf roots s → accounted roots s → root ∈ roots →
  (usable_frames (pg_frames s) ≤ Z.of_nat FREE_STACK_CAPACITY)%Z →
  ∃ st s', reclaim_user_address_space root s = (Ok st, s') ∧ accounted (roots ∖ {[root]}) s'.
Proof.
  intros Hpw Hacc Hroot Hsmall. pose proof (reclaim_all roots s root Hpw Hroot) as H.
  destruct (reclaim_user_address_space root s) as [[st|e] s']; destruct H as (_ & Hk & Hmem & Hsub & _ & H).
  2: { exfalso. destruct H as [_ H]. pose proof (usable_frames_bound _ (pw_frames _ _ Hpw)). lia. }
  destruct H as (Htab & Hleaf & _). exists st, s'. split; [done|].
  apply (accounted_kept roots _ root s); [done|done|set_solver|by intros x o r _ _; apply Hsub| | |].
  - intros t i r Hne Ht. destruct (decide (pg_mem s' t i = pg_mem s t i)) as [|Hm]; [done|]. apply Hmem in Hm.
    exfalso. apply Hne. eapply root_owned_same; [left; done|]. left. congruence.
  - intros r va Hr Hne Hva. apply (ok_translate _ _ _ _ _ Hk); [set_solver|done|]. tauto.
  - intros x. split; intros Hx; exfalso; pose proof (Hsub _ _ Hx) as Hx'.
    + destruct (proj1 (Hacc x root) Hx') as (_ & p & Hp & Hat). by rewrite (Htab p x Hp Hat) in Hx.
    + destruct (proj2 (Hacc x root) Hx') as (_ & va & u & w & Hva & Htr). by apply (Hleaf va x u w Hva Htr) in Hx.
Qed.

(** ** Writing *)

Lemma write_accounted roots s f m' :
  paging_wf roots s → accounted roots s → (∀ r, owners (pg_frames s) !! f ≠ Some (owner_page_table r)) →
  (∀ t i, t ≠ f → m' t i = pg_mem s t i) → accounted roots (mkPaging m' (pg_frames s)).
Proof.
  intros Hpw Hacc Hf Hm. destruct (data_write_all roots 0 s f m' Hpw Hf Hm) as (_ & Hk & Hsame). intros x r. split; intros Hx.
  - destruct (proj1 (Hacc x r) Hx) as (Hr & p & Hp & Hat). split; [done|]. exists p. split; [done|].
    cbn [pg_mem]. by rewrite (proj1 (Hsame r p Hr Hp)).
  - destruct (proj2 (Hacc x r) Hx) as (Hr & va & u & w & Hva & Hat). split; [done|]. exists va, u, w. split; [done|].
    rewrite <-Hat. apply (ok_translate _ _ _ _ _ Hk); [done|done|]. by intros [].
Qed.

(** * The machine *)

(** The physical memory behind user addresses, as [usercopy.rs] reads and writes it. *)
Definition access_of (a : UserAccess) : PageAccess := match a with UserRead => PageRead | UserWrite => PageWrite end.

Definition machine_valid (s : Paging) (root ptr len : Z) (a : UserAccess) : bool :=
  match validate_user_range (pg_mem s) root ptr len (access_of a) with Ok _ => true | Err _ => false end.

Definition machine_load (s : Paging) (root ptr : Z) (n : nat) : list byte :=
  (λ i, match user_view (pg_mem s) root (ptr + Z.of_nat i) with Some (_, b) => b | None => 0%Z end) <$> seq 0 n.

Fixpoint machine_store (s : Paging) (root ptr : Z) (bs : list byte) : Paging :=
  match bs with
  | [] => s
  | b :: rest =>
      let s1 := match translate (pg_mem s) root ptr with
                | Some (f, _, _) => s <| pg_mem ::= write_byte f (Z.to_nat (ptr mod FRAME_SIZE)) b |>
                | None => s
                end in
      machine_store s1 root (ptr + 1) rest
  end.

#[refine] Definition machine_user_memory : UserMemory := mkUserMemory Paging machine_valid machine_load machine_store _.
Proof. intros. unfold machine_load. by rewrite length_fmap, length_seq. Defined.

(** [ptr::write_bytes] with zeros at the physical addresses from [base] on. *)
Fixpoint machine_clear (base : Z) (n : nat) (s : Paging) : Paging :=
  match n with
  | 0 => s
  | S n' => machine_clear (base + 1) n'
              (s <| pg_mem ::= write_byte (FRAME_SIZE * page_number base) (Z.to_nat (base mod FRAME_SIZE)) 0 |>)
  end.

Section machine.
(** The memory map of the boot loader, the bytes of the images at their addresses, which
    the allocator does not hand out, and the frames of the DMA buffers. *)
Context (map : list (option MemmapEntry)) (image : Z → byte) (dma : gset Z).
Hypothesis Hmap : memmap_ok map.
Hypothesis Hboot : init_outcome map = Ok tt.
(** The boot loader never lists the first page as usable. *)
Hypothesis Hzero : contains (boot_allocator map) (mkPhysicalFrame 0) = false.
Hypothesis Hsmall : (usable_frames (boot_allocator map) ≤ Z.of_nat FREE_STACK_CAPACITY)%Z.
Hypothesis Himage : ∀ a, is_byte (image a).

Definition image_bytes (base len : Z) : list byte := (λ i, image (base + Z.of_nat i)) <$> seq 0 (Z.to_nat len).

(** [userspace::load] as [load_process_context] calls it; the length is a [usize]. *)
Definition machine_load_image (active base len : Z) (s : Paging) : option ProcessContext * Paging :=
  if (len <=? u64_max)%Z then
    match load active (image_bytes base len) s with
    | (Ok im, s') => (Some (mkProcessContext (ui_cr3 im) (ui_entry im) (ui_stack_top im)), s')
    | (Err _, s') => (None, s')
    end
  else (None, s).

Definition machine_reclaim (root : Z) (s : Paging) : bool * Paging :=
  match reclaim_user_address_space root s with (Ok _, s') => (true, s') | (Err _, s') => (false, s') end.

Definition machine_map (root virtual_base physical_base len : Z) (flags : PageFlags) (s : Paging) : bool * Paging :=
  match map_physical_range root virtual_base physical_base len flags s with
  | (Ok _, s') => (true, s')
  | (Err _, s') => (false, s')
  end.

(** Exactly the address spaces of [roots] are in being: their tables and pages are well
    formed, and no frame of any other address space is left. *)
Record machine_spaces (roots : gset Z) (s : Paging) : Prop := mk_machine_spaces {
  ms_wf : paging_wf roots s;
  ms_accounted : accounted roots s;
  ms_usable : sp_usable (frame_view (pg_frames s)) = sp_usable (frame_view (boot_allocator map));
  ms_dma f : f ∈ dma → ∃ id, owners (pg_frames s) !! f = Some (owner_dma id)
}.

(** The frames of a device: DMA buffers, or memory that is not handed out. *)
Definition machine_device (base len : Z) : Prop :=
  ∀ x, (base ≤ x < base + len)%Z →
    (FRAME_SIZE * page_number x)%Z ∈ dma ∨
    contains (boot_allocator map) (mkPhysicalFrame (FRAME_SIZE * page_number x)) = false.

Lemma spaces_small roots s : machine_spaces roots s → (usable_frames (pg_frames s) ≤ Z.of_nat FREE_STACK_CAPACITY)%Z.
Proof using Hsmall. intros [_ _ Hu _]. by rewrite (usable_frames_same (boot_allocator map)). Qed.

Lemma spaces_contains roots s f : machine_spaces roots s →
  contains (pg_frames s) (mkPhysicalFrame f) = contains (boot_allocator map) (mkPhysicalFrame f).
Proof using Hmap Hboot.
  intros [Hpw _ Hu _]. apply contains_same; [exact (pw_frames _ _ (boot_wf map (pg_mem s) Hmap Hboot))|apply Hpw|done].
Qed.

(** A run of small steps after which everything is accounted for. *)
Lemma spaces_run roots s roots' s' :
  machine_spaces roots s → rtc paging_step (roots, s) (roots', s') → accounted roots' s' → machine_spaces roots' s'.
Proof using.
  intros [Hpw Ha Hu Hd] Hrun Ha'. pose proof (paging_run_steady _ _ Hrun Hpw) as [Su Sd]. cbn [fst snd] in *.
  split; [by eapply paging_reachable_wf|done|congruence|]. intros f Hf. destruct (Hd f Hf) as [id Ho]. exists id. by apply Sd.
Qed.

Lemma spaces_active roots s active : machine_spaces roots s → active ∈ roots → active_ok active s.
Proof using. intros Hs Ha. apply (active_root_ok active roots s); [apply Hs|by left]. Qed.

Lemma image_bytes_ok base len : (len ≤ u64_max)%Z →
  Forall is_byte (image_bytes base len) ∧ is_u64 (Z.of_nat (length (image_bytes base len))).
Proof using Himage.
  intros Hl. unfold image_bytes. rewrite length_fmap, length_seq. split; [|unfold is_u64, u64_max in *; lia].
  apply Forall_fmap, Forall_true. intros i. apply Himage.
Qed.

Lemma machine_load_ok active base len roots s c s' :
  machine_spaces roots s → active ∈ roots → machine_load_image active base len s = (Some c, s') →
  (cr3 c ∉ roots) ∧ cr3 c ≠ 0%Z ∧ machine_spaces ({[cr3 c]} ∪ roots) s'.
Proof using All.
  intros Hs Ha. unfold machine_load_image. destruct (Z.leb_spec len u64_max) as [Hl|]; [|done].
  destruct (image_bytes_ok base len Hl) as [Hb Hu]. pose proof (spaces_active _ _ _ Hs Ha) as Hact.
  pose proof (load_runs roots s active (image_bytes base len) (ms_wf _ _ Hs) Hact) as Hrun.
  destruct (load active _ s) as [[im|e] s1] eqn:Hload; [|done]. intros [= <- <-]. cbn [cr3]. destruct Hrun as [Hr Hrun].
  assert (Hs' : machine_spaces ({[ui_cr3 im]} ∪ roots) s1).
  { apply (spaces_run roots s); [done|done|].
    eapply (load_accounted roots s active); [apply Hs|apply Hs|done|exact Hb|exact Hu|by eapply spaces_small|exact Hload]. }
  split_and!; [done| |done]. intros Hz.
  pose proof (sw_owner _ _ _ _ (pw_spaces _ _ (ms_wf _ _ Hs') (ui_cr3 im) ltac:(set_solver)) [] _ path_ok_nil eq_refl) as Ho.
  apply owned_contained in Ho; [|apply Hs']. rewrite (spaces_contains _ _ _ Hs'), Hz in Ho. congruence.
Qed.

Lemma machine_load_failed active base len roots s s' :
  machine_spaces roots s → active ∈ roots → machine_load_image active base len s = (None, s') → machine_spaces roots s'.
Proof using All.
  intros Hs Ha. unfold machine_load_image. destruct (Z.leb_spec len u64_max) as [Hl|]; [|by intros [= <-]].
  destruct (image_bytes_ok base len Hl) as [Hb Hu]. pose proof (spaces_active _ _ _ Hs Ha) as Hact.
  pose proof (load_runs roots s active (image_bytes base len) (ms_wf _ _ Hs) Hact) as Hrun.
  destruct (load active _ s) as [[im|e] s1] eqn:Hload; [done|]. intros [= <-].
  apply (spaces_run roots s); [done|done|].
  eapply (load_failed_accounted roots s active); [apply Hs|apply Hs|done|exact Hb|exact Hu|by eapply spaces_small|exact Hload].
Qed.

Lemma machine_reclaim_ok root roots s :
  machine_spaces roots s → root ∈ roots →
  ∃ s', machine_reclaim root s = (true, s') ∧ machine_spaces (roots ∖ {[root]}) s'.
Proof using All.
  intros Hs Hr. destruct (reclaim_accounted roots s root) as (st & s' & Hrec & Ha'); [apply Hs|apply Hs|done|by eapply spaces_small|].
  exists s'. unfold machine_reclaim. rewrite Hrec. split; [done|]. apply (spaces_run roots s); [done| |done].
  apply rtc_once. by eapply StepReclaim.
Qed.

Lemma machine_clear_spaces n : ∀ base roots s,
  machine_spaces roots s → machine_device base (Z.of_nat n) → machine_spaces roots (machine_clear base n s).
Proof using Hmap Hboot.
  induction n as [|n IH]; intros base roots s Hs Hd; cbn [machine_clear]; [done|]. apply IH.
  - set (f := (FRAME_SIZE * page_number base)%Z).
    assert (Hf : ∀ r, owners (pg_frames s) !! f ≠ Some (owner_page_table r)).
    { intros r Ho. destruct (Hd base ltac:(lia)) as [Hin|Hc].
      - destruct (ms_dma _ _ Hs f Hin) as [id Hid]. by rewrite Hid in Ho.
      - apply owned_contained in Ho; [|apply Hs]. rewrite (spaces_contains _ _ _ Hs) in Ho. unfold f in Ho. congruence. }
    assert (Hm : ∀ t i, t ≠ f → write_byte f (Z.to_nat (base mod FRAME_SIZE)) 0 (pg_mem s) t i = pg_mem s t i).
    { intros t i. apply (write_memory_entries f [0%Z]). }
    change (s <| pg_mem ::= _ |>) with (mkPaging (write_byte f (Z.to_nat (base mod FRAME_SIZE)) 0 (pg_mem s)) (pg_frames s)).
    apply (spaces_run roots s); [done|apply rtc_once; by eapply StepWrite|]. by apply (write_accounted roots s f); [apply Hs|apply Hs|..].
  - intros x Hx. apply Hd. lia.
Qed.

(** The kernel's memory management satisfies the laws of [ProcessMemory]. *)
#[refine] Definition machine_process_memory : @ProcessMemory machine_user_memory :=
  @mkProcessMemory machine_user_memory machine_load_image machine_reclaim
    (λ base len s, (true, machine_clear base (Z.to_nat len) s)) machine_map unmap_physical_range
    machine_spaces machine_device _ _ _ _.
Proof using All.
  - apply machine_load_ok.
  - apply machine_load_failed.
  - apply machine_reclaim_ok.
  - intros base len roots s Hs Hd. apply machine_clear_spaces; [done|]. intros x Hx. apply Hd. lia.
Defined.
End machine.

(** * A small machine *)

(** Ninety-six frames, and the small program of [UserImageProofs] at address 4096. *)
Definition tiny_map : list (option MemmapEntry) := [Some (mkMemmapEntry 0x1000 0x60000 MEMMAP_USABLE)].
Definition tiny_file : list byte := Eval vm_compute in tiny_elf 0x400000.
Definition tiny_image_at (a : Z) : byte := if (a <? 4096)%Z then 0%Z else nth (Z.to_nat (a - 4096)) tiny_file 0%Z.

Lemma tiny_map_ok : memmap_ok tiny_map.
Proof.
  split.
  - intros i e H. unfold PHYSICAL_LIMIT. destruct i as [|i]; [by simplify_eq/=|done].
  - intros i j e f Hi Hj Hne. destruct i as [|i], j as [|j]; done.
Qed.
Lemma tiny_map_boots : init_outcome tiny_map = Ok tt.
Proof. vm_compute. reflexivity. Qed.
Lemma tiny_map_zero : contains (boot_allocator tiny_map) (mkPhysicalFrame 0) = false.
Proof. vm_compute. reflexivity. Qed.
Lemma tiny_map_small : (usable_frames (boot_allocator tiny_map) ≤ Z.of_nat FREE_STACK_CAPACITY)%Z.
Proof. apply Z.leb_le. vm_compute. reflexivity. Qed.
Lemma tiny_image_byte a : is_byte (tiny_image_at a).
Proof.
  unfold tiny_image_at. destruct (_ <? _)%Z; [by vm_compute|]. set (i := Z.to_nat _).
  destruct (decide (i < length tiny_file)) as [Hi|Hi]; [|by rewrite nth_overflow by lia].
  assert (Hb : Forall is_byte tiny_file) by exact (proj1 (tiny_bytes 0x400000)).
  rewrite Forall_forall in Hb. apply Hb. apply list_elem_of_In. by apply nth_In.
Qed.

Definition tiny_memory : @ProcessMemory machine_user_memory :=
  machine_process_memory tiny_map tiny_image_at ∅ tiny_map_ok tiny_map_boots tiny_map_zero tiny_map_small tiny_image_byte.

(** The machine after boot, and with the address space of its first program. *)
Definition tiny_boot : Paging := mkPaging (λ _ _, 0%Z) (boot_allocator tiny_map).
Definition tiny_first : Paging := (load boot_cr3 tiny_file tiny_boot).2.

Lemma tiny_boot_spaces : machine_spaces tiny_map ∅ ∅ tiny_boot.
Proof.
  split; [apply (boot_wf _ _ tiny_map_ok tiny_map_boots)| |done|set_solver].
  assert (Ho : owners (pg_frames tiny_boot) = ∅) by (vm_compute; reflexivity).
  intros x r. rewrite Ho. split; intros Hx; discriminate Hx.
Qed.

Lemma tiny_first_loaded : load boot_cr3 tiny_file tiny_boot = (Ok (mkUserImage 0x1000 0x400000 USER_STACK_TOP), tiny_first).
Proof.
  unfold tiny_first. rewrite (surjective_pairing (load boot_cr3 tiny_file tiny_boot)) at 1.
  apply (f_equal2 pair); [vm_compute|]; reflexivity.
Qed.

Lemma tiny_first_spaces : machine_spaces tiny_map ∅ {[0x1000%Z]} tiny_first.
Proof.
  assert (Hact : active_ok boot_cr3 tiny_boot) by (right; vm_compute; reflexivity).
  pose proof (load_runs ∅ tiny_boot boot_cr3 tiny_file (ms_wf _ _ _ _ tiny_boot_spaces) Hact) as Hrun.
  rewrite tiny_first_loaded in Hrun. destruct Hrun as [_ Hrun]. cbn [ui_cr3] in Hrun. rewrite (right_id_L ∅ (∪)) in Hrun.
  apply (spaces_run tiny_map ∅ ∅ tiny_boot); [exact tiny_boot_spaces|exact Hrun|].
  pose proof (load_accounted ∅ tiny_boot boot_cr3 tiny_file (ms_wf _ _ _ _ tiny_boot_spaces)
    (ms_accounted _ _ _ _ tiny_boot_spaces) Hact (proj1 (tiny_bytes 0x400000)) (proj2 (tiny_bytes 0x400000)) tiny_map_small
    _ _ tiny_first_loaded) as Ha.
  cbn [ui_cr3] in Ha. by rewrite (right_id_L ∅ (∪)) in Ha.
Qed.
