(* ===== verification/PageCache.v ===== *)
(** The page cache of the VertexFS files ([ipc/runtime_state.rs]): pages of one
    sector over files that fit one sector, with a limit on dirty pages and
    write-back to the block device. *)

From S2P Require Import Prelude KernelBase Transport VfsPath KernelObjects ProcessRuntime.
From S2P Require Import CapRegistry VfsState Runtime Kernel.

(** In sectors of [VERTEXFS_SECTOR_SIZE] bytes. *)
Definition VERTEXFS_PAGE_CACHE_DIRTY_BYTE_LIMIT : Z := Z.of_nat VERTEXFS_SECTOR_SIZE * 6.
Definition VERTEXFS_PAGE_CACHE_PER_MOUNT_DIRTY_BYTE_LIMIT : Z := Z.of_nat VERTEXFS_SECTOR_SIZE * 6.
Definition u32_max : Z := 4294967295.

(** [vertexfs_checksum32] from position [index]. *)
Fixpoint checksum_from (checksum : Z) (index : nat) (bytes : list byte) : Z :=
  match bytes with
  | [] => checksum
  | b :: rest =>
      let term := (b * (Z.of_nat index + 1)) mod (u32_max + 1) in
      checksum_from ((checksum + term) mod (u32_max + 1)) (S index) rest
  end%Z.
Definition vertexfs_checksum32 (bytes : list byte) : Z := checksum_from 0 0 bytes.

(** * Looking up pages *)

(** [vertexfs_page_cache_mount_id]. *)
Definition vertexfs_page_cache_mount_id (rt : RuntimeState) : Z :=
  default 0%Z (first_some (λ o, match o with
    | Some (OVfsMount mount) =>
        if str_eqb (vm_source mount) "vertexfs" then Some (vm_id mount) else None
    | _ => None
    end) (objects (rt_objects rt)) (count (rt_objects rt))).

(** The file in slot [backing]. *)
Definition vertexfs_file (v : VfsState) (backing : nat) : VfsVertexFsFile :=
  default vertexfs_file_empty (vertexfs_files v !! backing).

(** The page in slot [index]. *)
Definition cache_page (v : VfsState) (index : nat) : VfsPageCachePage :=
  default page_empty (vfs_page_cache v !! index).

(** [vertexfs_page_cache_inode_key]. *)
Definition vertexfs_page_cache_inode_key (v : VfsState) (backing : nat) : Result IpcError Z :=
  if vertexfs_file_count v <=? backing then Err VfsBadHandle
  else
    let inode_id := vf_inode_id (vertexfs_file v backing) in
    if negb (inode_id =? 0)%Z then Ok inode_id else Ok (Z.max 0 (u32_max - Z.of_nat backing)).

(** [vertexfs_page_cache_lookup]. *)
Definition page_matches (backing : nat) (mount_id inode_id page_offset : Z) (p : VfsPageCachePage) :
    bool :=
  pg_valid p && (pg_backing p =? backing) && (pg_mount_id p =? mount_id)%Z &&
  (pg_inode_id p =? inode_id)%Z && (pg_page_offset p =? page_offset)%Z.
Definition vertexfs_page_cache_lookup (v : VfsState) (backing : nat)
    (mount_id inode_id page_offset : Z) : option nat :=
  first_index (page_matches backing mount_id inode_id page_offset) (vfs_page_cache v)
    (length (vfs_page_cache v)).

(** [vertexfs_page_cache_dirty_bytes] and
    [vertexfs_page_cache_dirty_bytes_for_mount]; the sums are far from
    saturating. *)
Definition dirty_page (p : VfsPageCachePage) : bool := pg_valid p && pg_dirty p.
Definition vertexfs_page_cache_dirty_bytes (v : VfsState) : Z :=
  Z.of_nat (VERTEXFS_SECTOR_SIZE * count_upto dirty_page (vfs_page_cache v) (length (vfs_page_cache v))).
Definition vertexfs_page_cache_dirty_bytes_for_mount (v : VfsState) (mount_id : Z) : Z :=
  Z.of_nat (VERTEXFS_SECTOR_SIZE *
    count_upto (λ p, dirty_page p && (pg_mount_id p =? mount_id)%Z) (vfs_page_cache v)
      (length (vfs_page_cache v))).

(** [update_vertexfs_page_cache_high_water]. *)
Definition update_vertexfs_page_cache_high_water (v : VfsState) : VfsState :=
  let dirty_bytes := vertexfs_page_cache_dirty_bytes v in
  if (high_water_dirty_bytes (vfs_page_cache_stats v) <? dirty_bytes)%Z
  then v <| vfs_page_cache_stats ::= λ s, s <| high_water_dirty_bytes := dirty_bytes |> |> else v.

(** [vertexfs_page_cache_victim]; its two arguments are only printed. *)
Definition may_evict (p : VfsPageCachePage) : bool :=
  pg_valid p && negb (pg_dirty p) && negb (pg_pinned p) && negb (pg_writeback p).
Definition vertexfs_page_cache_victim (v : VfsState) : Result IpcError nat * VfsState :=
  match first_index (λ p, negb (pg_valid p)) (vfs_page_cache v) (length (vfs_page_cache v)) with
  | Some index => (Ok index, v)
  | None =>
      match first_index may_evict (vfs_page_cache v) (length (vfs_page_cache v)) with
      | Some index =>
          (Ok index, v <| vfs_page_cache_stats ::= λ s,
                            s <| clean_evictions := sat_add (clean_evictions s) 1 |> |>)
      | None =>
          (Err VfsNoSpace, v <| vfs_page_cache_stats ::= λ s,
             s <| dirty_eviction_blocks := sat_add (dirty_eviction_blocks s) 1 |> |>)
      end
  end.

(** A write through [self.vfs_page_cache[index]] or [self.vertexfs_files[index]]. *)
Definition modify_page (v : VfsState) (index : nat) (f : VfsPageCachePage → VfsPageCachePage) : VfsState :=
  v <| vfs_page_cache ::= alter f index |>.
Definition modify_file (v : VfsState) (backing : nat) (f : VfsVertexFsFile → VfsVertexFsFile) : VfsState :=
  v <| vertexfs_files ::= alter f backing |>.

(** The page [ensure_vertexfs_page_cache_page] loads from [file]. *)
Definition loaded_page (file : VfsVertexFsFile) (mount_id inode_id : Z) (backing page : nat) :
    VfsPageCachePage :=
  let page_start := page * VERTEXFS_SECTOR_SIZE in
  let len := if page_start <? vf_len file
             then Nat.min VERTEXFS_SECTOR_SIZE (vf_len file - page_start) else 0 in
  mkVfsPageCachePage true (vf_dirty file) false false false mount_id inode_id backing
    (Z.of_nat page) len
    (write_bytes (replicate VERTEXFS_SECTOR_SIZE 0%Z) 0 (take len (drop page_start (vf_bytes file)))).

(** [ensure_vertexfs_page_cache_page], on the VFS part of the state;
    [page_offset] is a quotient of a position in a file, so its conversions do
    not overflow. *)
Definition ensure_vertexfs_page_cache_page (mount_id : Z) (backing page : nat) (v : VfsState) :
    Result IpcError (nat * bool) * VfsState :=
  if vertexfs_file_count v <=? backing then (Err VfsBadHandle, v)
  else
    match vertexfs_page_cache_inode_key v backing with
    | Err e => (Err e, v)
    | Ok inode_id =>
        match vertexfs_page_cache_lookup v backing mount_id inode_id (Z.of_nat page) with
        | Some index => (Ok (index, true), v)
        | None =>
            match vertexfs_page_cache_victim v with
            | (Err e, v1) => (Err e, v1)
            | (Ok slot, v1) =>
                (Ok (slot, false),
                 update_vertexfs_page_cache_high_water
                   (v1 <| vfs_page_cache ::=
                      <[slot := loaded_page (vertexfs_file v1 backing) mount_id inode_id backing page]> |>))
            end
        end
    end.

(** [ensure_vertexfs_page_cache_dirty]. *)
Definition ensure_vertexfs_page_cache_dirty (page_index : nat) (v : VfsState) :
    Result IpcError unit * VfsState :=
  let page := cache_page v page_index in
  if (length (vfs_page_cache v) <=? page_index) || negb (pg_valid page) then (Err VfsBadHandle, v)
  else if pg_dirty page then (Ok tt, v)
  else
    let next_global := (vertexfs_page_cache_dirty_bytes v + Z.of_nat VERTEXFS_SECTOR_SIZE)%Z in
    let next_mount := (vertexfs_page_cache_dirty_bytes_for_mount v (pg_mount_id page) +
                       Z.of_nat VERTEXFS_SECTOR_SIZE)%Z in
    if (VERTEXFS_PAGE_CACHE_DIRTY_BYTE_LIMIT <? next_global)%Z ||
       (VERTEXFS_PAGE_CACHE_PER_MOUNT_DIRTY_BYTE_LIMIT <? next_mount)%Z
    then (Err VfsNoSpace, v <| vfs_page_cache_stats ::= λ s,
            s <| dirty_limit_rejections := sat_add (dirty_limit_rejections s) 1 |> |>)
    else (Ok tt, v).

(** * Writing *)

(** The flags a write or a truncation leaves on the page. *)
Definition dirtied (p : VfsPageCachePage) : VfsPageCachePage :=
  p <| pg_dirty := true |> <| pg_pinned := false |> <| pg_writeback := false |>
    <| pg_writeback_error := false |>.

(** The file after a write or a truncation: dirty, with its checksum. *)
Definition file_changed (f : VfsVertexFsFile) : VfsVertexFsFile :=
  f <| vf_dirty := true |> <| vf_checksum := vertexfs_checksum32 (take (vf_len f) (vf_bytes f)) |>.

(** [write_vertexfs_page_cache]. *)
Definition write_page (page_start : nat) (bytes : list byte) (p : VfsPageCachePage) : VfsPageCachePage :=
  dirtied (p <| pg_bytes := write_bytes (pg_bytes p) page_start bytes |>
             <| pg_len := Nat.max (pg_len p) (page_start + length bytes) |>).
Definition write_file (start : nat) (bytes : list byte) (f : VfsVertexFsFile) : VfsVertexFsFile :=
  file_changed (f <| vf_bytes := write_bytes (vf_bytes f) start bytes |>
                  <| vf_len := Nat.max (vf_len f) (start + length bytes) |>).
Definition write_vertexfs_page_cache (mount_id : Z) (backing : nat) (offset : Z) (bytes : list byte)
    (v : VfsState) : Result IpcError (nat * Z) * VfsState :=
  if MAX_VERTEXFS_FILE_BYTES <? length bytes then (Err VfsNoSpace, v)
  else
    let end_ := (offset + Z.of_nat (length bytes))%Z in
    if (Z.of_nat MAX_VERTEXFS_FILE_BYTES <? end_)%Z then (Err VfsNoSpace, v)
    else if vertexfs_file_count v <=? backing then (Err VfsBadHandle, v)
    else if length bytes =? 0 then (Ok (0, offset), v)
    else
      let start := Z.to_nat offset in
      let page := start / VERTEXFS_SECTOR_SIZE in
      let page_start := start mod VERTEXFS_SECTOR_SIZE in
      match ensure_vertexfs_page_cache_page mount_id backing page v with
      | (Err e, v1) => (Err e, v1)
      | (Ok (page_index, _), v1) =>
          match ensure_vertexfs_page_cache_dirty page_index v1 with
          | (Err e, v2) => (Err e, v2)
          | (Ok _, v2) =>
              (Ok (length bytes, end_),
               update_vertexfs_page_cache_high_water
                 (modify_file (modify_page v2 page_index (write_page page_start bytes)) backing
                    (write_file start bytes)))
          end
      end.

(** The loops that clear the bytes from [clear_start] to [clear_end]. *)
Definition clear_bytes (l : list byte) (clear_start clear_end : nat) : list byte :=
  write_bytes l clear_start (replicate (clear_end - clear_start) 0%Z).

(** [truncate_vertexfs_page_cache]. *)
Definition truncate_vertexfs_page_cache (mount_id : Z) (backing len : nat) (v : VfsState) :
    Result IpcError unit * VfsState :=
  if MAX_VERTEXFS_FILE_BYTES <? len then (Err VfsNoSpace, v)
  else if vertexfs_file_count v <=? backing then (Err VfsBadHandle, v)
  else
    let old_len := vf_len (vertexfs_file v backing) in
    if old_len =? len then (Ok tt, v)
    else
      match ensure_vertexfs_page_cache_page mount_id backing 0 v with
      | (Err e, v1) => (Err e, v1)
      | (Ok (page_index, _), v1) =>
          match ensure_vertexfs_page_cache_dirty page_index v1 with
          | (Err e, v2) => (Err e, v2)
          | (Ok _, v2) =>
              let lo := Nat.min old_len len in
              let hi := Nat.max old_len len in
              (Ok tt,
               update_vertexfs_page_cache_high_water
                 (modify_file
                    (modify_page v2 page_index (λ p,
                       dirtied (p <| pg_bytes := clear_bytes (pg_bytes p) lo hi |> <| pg_len := len |>)))
                    backing (λ f,
                       file_changed (f <| vf_bytes := clear_bytes (vf_bytes f) lo hi |>
                                       <| vf_len := len |>))))
          end
      end.

(** * Write-back *)

(** Pages of a file, and those of them that are dirty. *)
Definition page_of (backing : nat) (p : VfsPageCachePage) : bool :=
  pg_valid p && (pg_backing p =? backing).

(** Apply [f] to the pages [sel] selects; say whether [seen] holds of one. *)
Definition update_pages (sel seen : VfsPageCachePage → bool) (f : VfsPageCachePage → VfsPageCachePage)
    (v : VfsState) : bool * VfsState :=
  (existsb (λ p, sel p && seen p) (vfs_page_cache v),
   v <| vfs_page_cache ::= λ l, map_upto (λ p, if sel p then f p else p) l (length l) |>).

(** [begin_vertexfs_page_cache_writeback]. *)
Definition begin_vertexfs_page_cache_writeback (backing : nat) (v : VfsState) :
    Result IpcError unit * VfsState :=
  if vertexfs_file_count v <=? backing then (Err VfsBadHandle, v)
  else
    let '(dirty, v1) := update_pages (λ p, page_of backing p && pg_dirty p) (λ _, true)
      (λ p, p <| pg_pinned := true |> <| pg_writeback := true |>) v in
    (Ok tt, if dirty : bool then v1 <| vfs_page_cache_stats ::= λ s,
              s <| writeback_started := sat_add (writeback_started s) 1 |> |> else v1).

(** [finish_vertexfs_page_cache_writeback]. *)
Definition finish_vertexfs_page_cache_writeback (backing : nat) (v : VfsState) :
    Result IpcError unit * VfsState :=
  if vertexfs_file_count v <=? backing then (Err VfsBadHandle, v)
  else
    let '(completed, v1) := update_pages (page_of backing) pg_dirty
      (λ p, p <| pg_dirty := false |> <| pg_pinned := false |> <| pg_writeback := false |>
              <| pg_writeback_error := false |>
              <| pg_len := vf_len (vertexfs_file v backing) |>) v in
    (Ok tt, if completed : bool then v1 <| vfs_page_cache_stats ::= λ s,
              s <| writeback_completed := sat_add (writeback_completed s) 1 |> |> else v1).

(** [record_vertexfs_page_cache_writeback_error]; the status is only printed. *)
Definition record_vertexfs_page_cache_writeback_error (backing : nat) (v : VfsState) : VfsState :=
  if vertexfs_file_count v <=? backing then v
  else
    let v0 := modify_file v backing (λ f, f <| vf_dirty := true |>) in
    let '(recorded, v1) := update_pages (page_of backing) (λ _, true)
      (λ p, p <| pg_dirty := true |> <| pg_pinned := false |> <| pg_writeback := false |>
              <| pg_writeback_error := true |>) v0 in
    if recorded : bool then
      update_vertexfs_page_cache_high_water
        (v1 <| vfs_page_cache_stats ::= λ s, s <| writeback_errors := sat_add (writeback_errors s) 1 |> |>)
    else v1.

(** [finish_vertexfs_sync_file]. *)
Definition finish_vertexfs_sync_file (backing : nat) (checksum : Z) (v : VfsState) :
    Result IpcError unit * VfsState :=
  if vertexfs_file_count v <=? backing then (Err VfsBadHandle, v)
  else finish_vertexfs_page_cache_writeback backing
         (modify_file v backing (λ f, f <| vf_checksum := checksum |> <| vf_dirty := false |>)).

(** [load_vertexfs_image]. *)
Definition load_vertexfs_image (image : list byte) (v : VfsState) : Result InitError unit * VfsState :=
  if negb (length image =? length (vertexfs_image v)) then (Err InvalidBootManifest, v)
  else (Ok tt, v <| vertexfs_image := image |>
                 <| vfs_page_cache ::= λ l, map_upto (λ _, page_empty) l (length l) |>
                 <| vfs_page_cache_stats := page_stats_empty |>
                 <| vertexfs_image_loaded := true |>).

(** * Reading *)

(** The statistics of [read_vertexfs_page_cache] before the copy to the user. *)
Definition count_read (hit : bool) (backing start page : nat) (s : VfsPageCacheStats) :
    VfsPageCacheStats :=
  let s1 := if hit then s <| read_hits := sat_add (read_hits s) 1 |>
            else s <| read_misses := sat_add (read_misses s) 1 |> in
  if last_read_valid s1 && (last_read_backing s1 =? backing) &&
     (last_read_next_offset s1 =? Z.of_nat start)%Z && (last_read_page_offset s1 =? Z.of_nat page)%Z
  then s1 <| readahead_hits := sat_add (readahead_hits s1) 1 |> else s1.

Section read.
Context `{UserMemory}.

Definition modify_vfs (f : VfsState → VfsState) : K unit := modify_rt (λ rt, rt <| rt_vfs ::= f |>).

(** An operation on the VFS part of the state. *)
Definition on_vfs {A} (c : M VfsState IpcError A) : K A := λ k,
  let '(r, v) := c (rt_vfs (ks_rt k)) in
  Some (r, k <| ks_rt ::= λ rt, rt <| rt_vfs := v |> |>).

(** [read_vertexfs_page_cache]. *)
Definition read_vertexfs_page_cache (backing : nat) (offset destination max_len : Z) : K (nat * Z) :=
  let* rt := kget ks_rt in
  let v := rt_vfs rt in
  if vertexfs_file_count v <=? backing then kfail VfsBadHandle
  else
    let file_len := vf_len (vertexfs_file v backing) in
    let start := Z.to_nat (Z.min offset (Z.of_nat file_len)) in
    let copy_len := Z.to_nat (Z.min (Z.of_nat (file_len - start)) max_len) in
    if copy_len =? 0 then kret (0, offset)
    else
      let page := start / VERTEXFS_SECTOR_SIZE in
      let page_start := start mod VERTEXFS_SECTOR_SIZE in
      let* slot := on_vfs (ensure_vertexfs_page_cache_page
                             (vertexfs_page_cache_mount_id rt) backing page) in
      let '(page_index, hit) := slot : nat * bool in
      do* modify_vfs (λ v, v <| vfs_page_cache_stats ::= count_read hit backing start page |>);
      let* k := kget (λ k, cache_page (rt_vfs (ks_rt k)) page_index) in
      let* copied := copy_to_user destination (take copy_len (drop page_start (pg_bytes k))) in
      if negb copied then kfail InvalidUserBuffer
      else
        match checked_add offset (Z.of_nat copy_len) with
        | None => kfail VfsUnsupported
        | Some next_offset =>
            do* modify_vfs (λ v, v <| vfs_page_cache_stats ::= λ s,
                  s <| last_read_valid := true |> <| last_read_backing := backing |>
                    <| last_read_next_offset := next_offset |>
                    <| last_read_page_offset := Z.of_nat page |> |>);
            kret (copy_len, next_offset)
        end.
End read.
