(* ===== verification/PageCacheProofs.v ===== *)
(** The page cache is coherent with the files it caches, and reads and writes
    through it behave as on plain byte strings. *)

From S2P Require Import Prelude KernelBase Transport VfsPath KernelObjects ProcessRuntime.
From S2P Require Import CapRegistry VfsState Runtime Virtio Kernel PageCache.

(** * Byte arrays *)

Lemma length_write_bytes l s src : length (write_bytes l s src) = length l.
Proof. revert l s. induction src as [|b src IH]; intros l s; cbn; [done|]. by rewrite IH, length_insert. Qed.

Lemma write_bytes_splice l s src :
  s + length src ≤ length l →
  write_bytes l s src = take s l ++ src ++ drop (s + length src) l.
Proof.
  revert l s. induction src as [|b src IH]; intros l s Hl; cbn in *.
  { rewrite Nat.add_0_r. by rewrite take_drop. }
  rewrite IH by (rewrite length_insert; lia). rewrite (take_S_r _ _ b)
    by (apply list_lookup_insert_eq; lia). rewrite take_insert_ge by lia.
  rewrite <-app_assoc. cbn. rewrite drop_insert_lt by lia. by rewrite Nat.add_succ_r.
Qed.

(** * The invariant *)

(** Bytes of a file past its length are zero. *)
Definition file_ok (f : VfsVertexFsFile) : Prop :=
  length (vf_bytes f) = MAX_VERTEXFS_FILE_BYTES ∧ vf_len f ≤ MAX_VERTEXFS_FILE_BYTES ∧
  drop (vf_len f) (vf_bytes f) = replicate (MAX_VERTEXFS_FILE_BYTES - vf_len f) 0%Z.

(** A valid page is an exact copy of its file, dirty when the file is. *)
Record page_ok (mount : Z) (v : VfsState) (p : VfsPageCachePage) : Prop := mk_page_ok {
  pk_backing : pg_backing p < vertexfs_file_count v;
  pk_mount : pg_mount_id p = mount;
  pk_offset : pg_page_offset p = 0%Z;
  pk_inode : vertexfs_page_cache_inode_key v (pg_backing p) = Ok (pg_inode_id p);
  pk_bytes : pg_bytes p = vf_bytes (vertexfs_file v (pg_backing p));
  pk_len : pg_len p = vf_len (vertexfs_file v (pg_backing p));
  pk_dirty : pg_dirty p = vf_dirty (vertexfs_file v (pg_backing p))
}.

Record cache_ok (mount : Z) (v : VfsState) : Prop := mk_cache_ok {
  ck_count : vertexfs_file_count v ≤ length (vertexfs_files v);
  ck_files : Forall file_ok (vertexfs_files v);
  ck_pages i p : vfs_page_cache v !! i = Some p → pg_valid p = true → page_ok mount v p;
  ck_unique i j p q : vfs_page_cache v !! i = Some p → vfs_page_cache v !! j = Some q →
    pg_valid p = true → pg_valid q = true → pg_backing p = pg_backing q → i = j
}.

(** The contents of a file. *)
Definition file_contents (v : VfsState) (backing : nat) : list byte :=
  take (vf_len (vertexfs_file v backing)) (vf_bytes (vertexfs_file v backing)).

Lemma file_empty_ok : file_ok vertexfs_file_empty.
Proof. split; [done|]. split; [vm_compute; lia|]. done. Qed.

Lemma vertexfs_file_ok mount v b : cache_ok mount v → file_ok (vertexfs_file v b).
Proof.
  intros Hok. unfold vertexfs_file. destruct (vertexfs_files v !! b) as [f|] eqn:Hf; cbn.
  - eapply Forall_lookup_1; [apply Hok|done].
  - apply file_empty_ok.
Qed.

Lemma vfs_state_new_ok : cache_ok 0 vfs_state_new.
Proof.
  split.
  - cbn. lia.
  - apply Forall_replicate, file_empty_ok.
  - intros i p Hp Hv. apply lookup_replicate in Hp as [-> _]. done.
  - intros i j p q Hp _ Hv. apply lookup_replicate in Hp as [-> _]. done.
Qed.

(** Statistics do not matter. *)
Definition same_cache (v v' : VfsState) : Prop :=
  vertexfs_files v' = vertexfs_files v ∧ vertexfs_file_count v' = vertexfs_file_count v ∧
  vfs_page_cache v' = vfs_page_cache v.

#[export] Instance same_cache_equivalence : Equivalence same_cache.
Proof.
  split; [by intros v|by intros v w (?&?&?)|]. intros u v w (?&?&?) (?&?&?). split_and!; congruence.
Qed.

Lemma same_cache_key v v' b :
  same_cache v v' → vertexfs_page_cache_inode_key v' b = vertexfs_page_cache_inode_key v b.
Proof. intros (Hf & Hc & _). unfold vertexfs_page_cache_inode_key, vertexfs_file. by rewrite Hf, Hc. Qed.

Lemma same_cache_file v v' b : same_cache v v' → vertexfs_file v' b = vertexfs_file v b.
Proof. intros (Hf & _). unfold vertexfs_file. by rewrite Hf. Qed.

Lemma same_cache_ok mount v v' : same_cache v v' → cache_ok mount v → cache_ok mount v'.
Proof.
  intros Hs [H1 H2 H3 H4]. pose proof Hs as (Hf & Hc & Hp). split.
  - congruence.
  - by rewrite Hf.
  - intros i p. rewrite Hp. intros Hi Hv. destruct (H3 i p Hi Hv) as [B1 B2 B3 B4 B5 B6 B7].
    split; rewrite ?Hc, ?(same_cache_key v v'), ?(same_cache_file v v') by done; done.
  - intros i j p q. rewrite Hp. apply H4.
Qed.

#[export] Instance cache_ok_proper mount : Proper (same_cache ==> iff) (cache_ok mount).
Proof. intros v v' Hs. split; [by apply same_cache_ok|]. by apply same_cache_ok; symmetry. Qed.

Lemma high_water_same v : same_cache v (update_vertexfs_page_cache_high_water v).
Proof. unfold update_vertexfs_page_cache_high_water. by case_match. Qed.

(** No page can be replaced. *)
Definition cache_full (v : VfsState) : Prop :=
  ∀ i p, vfs_page_cache v !! i = Some p → pg_valid p = true ∧ may_evict p = false.

Lemma victim_cases v :
  match vertexfs_page_cache_victim v with
  | (Ok i, v') => same_cache v v' ∧ ∃ p, vfs_page_cache v !! i = Some p ∧
      (pg_valid p = false ∨ may_evict p = true)
  | (Err e, v') => same_cache v v' ∧ e = VfsNoSpace ∧ cache_full v
  end.
Proof.
  unfold vertexfs_page_cache_victim.
  destruct (first_index (λ p, negb (pg_valid p)) _ _) as [i|] eqn:Hi.
  - apply first_index_Some in Hi as (_ & (p & Hp & Hv) & _). split; [done|].
    exists p. split; [done|left; by apply negb_true_iff].
  - destruct (first_index may_evict _ _) as [i|] eqn:He.
    2: { split_and!; [done..|]. intros i p Hp.
         pose proof (proj1 (first_index_None _ _ _) Hi i p (lookup_lt_Some _ _ _ Hp) Hp) as Hv.
         pose proof (proj1 (first_index_None _ _ _) He i p (lookup_lt_Some _ _ _ Hp) Hp) as Hm.
         split; [by apply negb_false_iff|done]. }
    apply first_index_Some in He as (_ & (p & Hp & Hv) & _). split; [done|]. eauto.
Qed.

(** * Loading a page *)

Lemma loaded_page_copy file mount inode backing :
  file_ok file →
  let p := loaded_page file mount inode backing 0 in
  pg_bytes p = vf_bytes file ∧ pg_len p = vf_len file.
Proof.
  intros (Hl & Hle & Hz). unfold loaded_page.
  change (0 * VERTEXFS_SECTOR_SIZE) with 0. cbn [pg_bytes pg_len].
  assert (Hlen : (if 0 <? vf_len file
                  then Nat.min VERTEXFS_SECTOR_SIZE (vf_len file - 0) else 0) = vf_len file).
  { change VERTEXFS_SECTOR_SIZE with MAX_VERTEXFS_FILE_BYTES.
    destruct (Nat.ltb_spec 0 (vf_len file)); lia. }
  rewrite Hlen. split; [|done]. rewrite drop_0.
  change VERTEXFS_SECTOR_SIZE with MAX_VERTEXFS_FILE_BYTES.
  rewrite write_bytes_splice by (rewrite length_replicate, length_take; lia). cbn [take app].
  rewrite drop_replicate, length_take, (Nat.min_l _ (length _)) by lia.
  rewrite Nat.add_0_l, <-Hz. apply take_drop.
Qed.

Lemma lookup_page_Some v backing mount inode off i :
  vertexfs_page_cache_lookup v backing mount inode off = Some i →
  ∃ p, vfs_page_cache v !! i = Some p ∧ pg_valid p = true ∧ pg_backing p = backing.
Proof.
  intros (_ & (p & Hp & Hm) & _)%first_index_Some. exists p.
  unfold page_matches in Hm. rewrite !andb_true_iff in Hm. split_and!; [done|tauto|].
  apply Nat.eqb_eq. tauto.
Qed.

Lemma lookup_page_None mount v backing inode i p :
  cache_ok mount v → vertexfs_page_cache_inode_key v backing = Ok inode →
  vertexfs_page_cache_lookup v backing mount inode 0 = None →
  vfs_page_cache v !! i = Some p → pg_valid p = true → pg_backing p ≠ backing.
Proof.
  intros Hok Hkey Hn Hi Hv <-. pose proof (ck_pages _ _ Hok i p Hi Hv) as [_ Hm Ho Hin _ _ _].
  pose proof (proj1 (first_index_None _ _ _) Hn i p (lookup_lt_Some _ _ _ Hi) Hi) as Hf.
  unfold page_matches in Hf. rewrite Hkey in Hin. injection Hin as ->.
  by rewrite Hv, Hm, Ho, Nat.eqb_refl, !Z.eqb_refl in Hf.
Qed.

(** What [ensure_vertexfs_page_cache_page] gives for the one page of a file. *)
Lemma ensure_page_cases mount v backing :
  cache_ok mount v → backing < vertexfs_file_count v →
  match ensure_vertexfs_page_cache_page mount backing 0 v with
  | (Ok (i, _), v') =>
      cache_ok mount v' ∧ vertexfs_files v' = vertexfs_files v ∧
      vertexfs_file_count v' = vertexfs_file_count v ∧
      ∃ p, vfs_page_cache v' !! i = Some p ∧ pg_valid p = true ∧ pg_backing p = backing
  | (Err e, v') => same_cache v v' ∧ e = VfsNoSpace ∧ cache_full v
  end.
Proof.
  intros Hok Hb. unfold ensure_vertexfs_page_cache_page.
  rewrite (proj2 (Nat.leb_gt _ _)) by done.
  destruct (vertexfs_page_cache_inode_key v backing) as [inode|e] eqn:Hkey.
  2: { unfold vertexfs_page_cache_inode_key in Hkey.
       rewrite (proj2 (Nat.leb_gt _ _)) in Hkey by done. by case_match. }
  change (Z.of_nat 0) with 0%Z.
  destruct (vertexfs_page_cache_lookup v backing mount inode 0) as [i|] eqn:Hlk.
  { split_and!; try done. by eapply lookup_page_Some. }
  pose proof (victim_cases v) as Hvic.
  destruct (vertexfs_page_cache_victim v) as [[slot|e] v1]; [|done].
  destruct Hvic as (Hs & old & Hold & Hfree). rewrite (same_cache_file v v1) by done.
  set (page := loaded_page (vertexfs_file v backing) mount inode backing 0).
  set (v2 := v1 <| vfs_page_cache ::= <[slot := page]> |>).
  destruct (loaded_page_copy (vertexfs_file v backing) mount inode backing
              (vertexfs_file_ok mount v backing Hok)) as [Hbytes Hlen].
  pose proof Hs as (Hf & Hc & Hp).
  assert (Hget : ∀ j, vfs_page_cache v2 !! j =
            if decide (j = slot) then Some page else vfs_page_cache v !! j).
  { intros j. unfold v2, set; cbn. rewrite Hp. case_decide; subst.
    - rewrite list_lookup_insert_eq by (by eapply lookup_lt_Some). done.
    - by rewrite list_lookup_insert_ne. }
  assert (Hfile : ∀ b, vertexfs_file v2 b = vertexfs_file v b) by (intros b; unfold vertexfs_file; cbn; by rewrite Hf).
  assert (Hkeys : ∀ b, vertexfs_page_cache_inode_key v2 b = vertexfs_page_cache_inode_key v b)
    by (intros b; unfold vertexfs_page_cache_inode_key; by rewrite Hfile; cbn; rewrite Hc).
  assert (Hnew : ∀ j p, j ≠ slot → vfs_page_cache v !! j = Some p → pg_valid p = true →
                        pg_backing p ≠ backing).
  { intros j p _ Hj Hv. by eapply lookup_page_None. }
  assert (Hok2 : cache_ok mount v2).
  { split.
    - unfold v2, set; cbn. rewrite Hc, Hf. apply Hok.
    - unfold v2, set; cbn. rewrite Hf. apply Hok.
    - intros j p Hj Hv. rewrite Hget in Hj. case_decide as Hd.
      + injection Hj as <-. split; rewrite ?Hkeys, ?Hfile; try done. unfold v2, set; cbn. lia.
      + destruct (ck_pages _ _ Hok j p Hj Hv). split; rewrite ?Hkeys, ?Hfile; try done.
        unfold v2, set; cbn. lia.
    - intros j1 j2 p q H1 H2 V1 V2 Hbk. rewrite Hget in H1, H2.
      destruct (decide (j1 = slot)), (decide (j2 = slot)); [congruence|..].
      + injection H1 as <-. exfalso. by eapply (Hnew j2 q).
      + injection H2 as <-. exfalso. by eapply (Hnew j1 p).
      + by eapply (ck_unique _ _ Hok). }
  pose proof (high_water_same v2) as Hh. split; [by rewrite <-Hh|].
  destruct Hh as (Hf2 & Hc2 & Hp2). rewrite Hf2, Hc2, Hp2.
  split; [done|]. split; [done|]. exists page. rewrite Hget, decide_True by done. done.
Qed.

Lemma ensure_dirty_cases v i :
  match ensure_vertexfs_page_cache_dirty i v with
  | (Ok _, v') => v' = v
  | (Err e, v') => same_cache v v'
  end.
Proof.
  unfold ensure_vertexfs_page_cache_dirty. case (_ || _); [done|]. case (pg_dirty _); [done|].
  by case (_ || _).
Qed.

(** * Changing a file and its page together *)

Lemma modify_both_ok mount v i b f g p :
  cache_ok mount v → vfs_page_cache v !! i = Some p → pg_valid p = true → pg_backing p = b →
  b < vertexfs_file_count v →
  file_ok (f (vertexfs_file v b)) → vf_inode_id (f (vertexfs_file v b)) = vf_inode_id (vertexfs_file v b) →
  (pg_valid (g p), pg_backing (g p), pg_mount_id (g p), pg_page_offset (g p), pg_inode_id (g p)) =
  (true, b, pg_mount_id p, pg_page_offset p, pg_inode_id p) →
  pg_bytes (g p) = vf_bytes (f (vertexfs_file v b)) → pg_len (g p) = vf_len (f (vertexfs_file v b)) →
  pg_dirty (g p) = vf_dirty (f (vertexfs_file v b)) →
  let v' := modify_file (modify_page v i g) b f in
  cache_ok mount v' ∧ vertexfs_file v' b = f (vertexfs_file v b) ∧
  ∀ b', b' ≠ b → vertexfs_file v' b' = vertexfs_file v b'.
Proof.
  intros Hok Hi Hv Hb Hlt Hfok Hino [= Sv Sb Sm So Si] Hbytes Hlen Hdirty v'.
  assert (Hfile : vertexfs_file v' b = f (vertexfs_file v b)).
  { unfold v', vertexfs_file, modify_file, modify_page, set; cbn. rewrite list_lookup_alter_eq.
    destruct (lookup_lt_is_Some_2 (vertexfs_files v) b) as [x ->]; [|done].
    pose proof (ck_count _ _ Hok). lia. }
  assert (Hother : ∀ b', b' ≠ b → vertexfs_file v' b' = vertexfs_file v b').
  { intros b' Hne. unfold v', vertexfs_file, modify_file, modify_page, set; cbn.
    by rewrite list_lookup_alter_ne. }
  assert (Hkeys : ∀ b', vertexfs_page_cache_inode_key v' b' = vertexfs_page_cache_inode_key v b').
  { intros b'. unfold vertexfs_page_cache_inode_key.
    change (vertexfs_file_count v') with (vertexfs_file_count v).
    destruct (decide (b' = b)) as [->|Hne]; [by rewrite Hfile, Hino|by rewrite Hother]. }
  assert (Hget : ∀ j q, vfs_page_cache v' !! j = Some q →
            (j = i ∧ q = g p) ∨ (j ≠ i ∧ vfs_page_cache v !! j = Some q)).
  { intros j q. unfold v', modify_file, modify_page, set; cbn. destruct (decide (i = j)) as [->|Hne].
    - rewrite list_lookup_alter_eq, Hi. intros [= <-]. by left.
    - rewrite list_lookup_alter_ne by done. by right. }
  split_and!; [|done|done]. split.
  - unfold v', modify_file, modify_page, set; cbn. rewrite length_alter. apply Hok.
  - unfold v', modify_file, modify_page, set; cbn. apply Forall_alter; [apply Hok|].
    intros x Hx _. revert Hfok. unfold vertexfs_file. by rewrite Hx.
  - intros j q [[-> ->]|[Hne Hq]]%Hget Hvq.
    + destruct (ck_pages _ _ Hok i p Hi Hv) as [B1 B2 B3 B4 B5 B6 B7].
      split; rewrite ?Hkeys, ?Sb, ?Hfile, ?Sm, ?So, ?Si; try done. by rewrite <-Hb.
    + destruct (ck_pages _ _ Hok j q Hq Hvq) as [B1 B2 B3 B4 B5 B6 B7].
      assert (pg_backing q ≠ b) by (intros Heq; apply Hne, (ck_unique _ _ Hok j i q p); congruence).
      split; rewrite ?Hkeys, ?Hother by done; done.
  - intros j1 j2 q1 q2 [[-> ->]|[N1 H1]]%Hget [[-> ->]|[N2 H2]]%Hget V1 V2 Hbk; [done|..].
    + exfalso. apply N2. symmetry. apply (ck_unique _ _ Hok i j2 p q2); try done. congruence.
    + exfalso. apply N1. apply (ck_unique _ _ Hok j1 i q1 p); try done. congruence.
    + by eapply (ck_unique _ _ Hok).
Qed.

(** * File contents *)

(** [l] with [src] written at [start], zero bytes filling a gap. *)
Definition splice (l : list byte) (start : nat) (src : list byte) : list byte :=
  resize start 0%Z l ++ src ++ drop (start + length src) l.

(** A file that stores [l], zero-padded to a sector. *)
Definition stores (f : VfsVertexFsFile) (l : list byte) : Prop :=
  vf_len f = length l ∧ length l ≤ MAX_VERTEXFS_FILE_BYTES ∧
  vf_bytes f = l ++ replicate (MAX_VERTEXFS_FILE_BYTES - length l) 0%Z.

Lemma file_ok_stores f : file_ok f → stores f (take (vf_len f) (vf_bytes f)).
Proof.
  intros (Hl & Hle & Hz). unfold stores. rewrite length_take, Hl, Nat.min_l by done.
  split_and!; [done..|]. by rewrite <-Hz, take_drop.
Qed.

Lemma stores_ok f l : stores f l → file_ok f ∧ take (vf_len f) (vf_bytes f) = l.
Proof.
  intros (Hn & Hle & Hb). unfold file_ok.
  rewrite Hb, Hn, length_app, length_replicate, take_app_length, drop_app_length.
  split_and!; [lia|done..].
Qed.

Lemma length_splice l s src : length (splice l s src) = Nat.max (length l) (s + length src).
Proof. unfold splice. rewrite !length_app, length_resize, length_drop. lia. Qed.

Lemma write_stored l s src :
  length l ≤ MAX_VERTEXFS_FILE_BYTES → s + length src ≤ MAX_VERTEXFS_FILE_BYTES →
  write_bytes (l ++ replicate (MAX_VERTEXFS_FILE_BYTES - length l) 0%Z) s src =
  splice l s src ++ replicate (MAX_VERTEXFS_FILE_BYTES - length (splice l s src)) 0%Z.
Proof.
  intros Hl Hs. rewrite write_bytes_splice by (rewrite length_app, length_replicate; lia).
  rewrite length_splice. unfold splice.
  rewrite resize_spec, take_app, drop_app, take_replicate, drop_replicate, <-!app_assoc.
  f_equal. f_equal; [f_equal; lia|]. f_equal. f_equal. f_equal. lia.
Qed.

Lemma clear_stored l len :
  length l ≤ MAX_VERTEXFS_FILE_BYTES → len ≤ MAX_VERTEXFS_FILE_BYTES →
  clear_bytes (l ++ replicate (MAX_VERTEXFS_FILE_BYTES - length l) 0%Z)
    (Nat.min (length l) len) (Nat.max (length l) len) =
  resize len 0%Z l ++ replicate (MAX_VERTEXFS_FILE_BYTES - len) 0%Z.
Proof.
  intros Hl Hs. unfold clear_bytes.
  rewrite write_bytes_splice by (rewrite length_app, !length_replicate; lia).
  rewrite resize_spec, take_app, drop_app, take_replicate, drop_replicate, length_replicate.
  rewrite (drop_ge l) by lia. rewrite app_nil_l, <-!app_assoc, <-!replicate_add.
  replace (take (Nat.min (length l) len) l) with (take len l).
  2: { destruct (Nat.min_spec (length l) len) as [[? ->]|[? ->]]; [|done]. by rewrite !take_ge by lia. }
  f_equal. f_equal. lia.
Qed.

Lemma write_file_stores f l s src :
  stores f l → s + length src ≤ MAX_VERTEXFS_FILE_BYTES →
  stores (write_file s src f) (splice l s src).
Proof.
  intros (Hn & Hle & Hb) Hs. unfold stores, write_file, file_changed.
  cbn -[MAX_VERTEXFS_FILE_BYTES splice write_bytes]. rewrite Hb, Hn, length_splice.
  split_and!; [done|lia|]. rewrite write_stored by done. by rewrite length_splice.
Qed.

(** What truncation does to a file. *)
Definition truncate_file (old_len len : nat) (f : VfsVertexFsFile) : VfsVertexFsFile :=
  file_changed (f <| vf_bytes := clear_bytes (vf_bytes f) (Nat.min old_len len) (Nat.max old_len len) |>
                  <| vf_len := len |>).

Lemma truncate_file_stores f l len :
  stores f l → len ≤ MAX_VERTEXFS_FILE_BYTES →
  stores (truncate_file (length l) len f) (resize len 0%Z l).
Proof.
  intros (Hn & Hle & Hb) Hs. unfold stores, truncate_file, file_changed.
  cbn -[MAX_VERTEXFS_FILE_BYTES clear_bytes resize]. rewrite Hb, length_resize.
  split_and!; [done..|]. by apply clear_stored.
Qed.

(** * Operations *)

(** The files are as they were. *)
Definition unchanged (mount : Z) (v v' : VfsState) : Prop :=
  cache_ok mount v' ∧ vertexfs_files v' = vertexfs_files v ∧
  vertexfs_file_count v' = vertexfs_file_count v.

(** File [b] now is dirty and stores [l]; the others are as they were. *)
Definition changed (mount : Z) (b : nat) (l : list byte) (v v' : VfsState) : Prop :=
  cache_ok mount v' ∧ vertexfs_file_count v' = vertexfs_file_count v ∧
  file_contents v' b = l ∧ vf_dirty (vertexfs_file v' b) = true ∧
  vf_checksum (vertexfs_file v' b) = vertexfs_checksum32 l ∧
  ∀ b', b' ≠ b → vertexfs_file v' b' = vertexfs_file v b'.

Lemma unchanged_same mount v v' : cache_ok mount v → same_cache v v' → unchanged mount v v'.
Proof. intros Hok Hs. split_and!; [by rewrite <-Hs|apply Hs..]. Qed.

Lemma unchanged_file mount v v' b : unchanged mount v v' → vertexfs_file v' b = vertexfs_file v b.
Proof. intros (_ & Hf & _). unfold vertexfs_file. by rewrite Hf. Qed.

(** [g] does to a clean copy of [file] what [f] does to [file]. *)
Definition follows (file : VfsVertexFsFile) (g : VfsPageCachePage → VfsPageCachePage)
    (f : VfsVertexFsFile → VfsVertexFsFile) : Prop :=
  ∀ p, pg_bytes p = vf_bytes file → pg_len p = vf_len file →
     (pg_valid (g p), pg_backing (g p), pg_mount_id (g p), pg_page_offset (g p), pg_inode_id (g p)) =
     (pg_valid p, pg_backing p, pg_mount_id p, pg_page_offset p, pg_inode_id p) ∧
     pg_bytes (g p) = vf_bytes (f file) ∧ pg_len (g p) = vf_len (f file) ∧ pg_dirty (g p) = true.

Lemma write_follows s src file : follows file (write_page s src) (write_file s src).
Proof.
  intros p Hp1 Hp2. split_and!; [reflexivity|..|reflexivity].
  - change (write_bytes (pg_bytes p) s src = write_bytes (vf_bytes file) s src). by rewrite Hp1.
  - change (Nat.max (pg_len p) (s + length src) = Nat.max (vf_len file) (s + length src)). by rewrite Hp2.
Qed.

Lemma truncate_follows old len file :
  follows file (λ p, dirtied (p
      <| pg_bytes := clear_bytes (pg_bytes p) (Nat.min old len) (Nat.max old len) |> <| pg_len := len |>))
    (truncate_file old len).
Proof.
  intros p Hp1 Hp2. split_and!; [reflexivity|..|reflexivity]; [|reflexivity].
  change (clear_bytes (pg_bytes p) (Nat.min old len) (Nat.max old len) =
          clear_bytes (vf_bytes file) (Nat.min old len) (Nat.max old len)). by rewrite Hp1.
Qed.

Lemma write_file_meta s src f :
  let f' := write_file s src f in
  vf_dirty f' = true ∧ vf_checksum f' = vertexfs_checksum32 (take (vf_len f') (vf_bytes f')) ∧
  vf_inode_id f' = vf_inode_id f.
Proof. done. Qed.

Lemma truncate_file_meta old len f :
  let f' := truncate_file old len f in
  vf_dirty f' = true ∧ vf_checksum f' = vertexfs_checksum32 (take (vf_len f') (vf_bytes f')) ∧
  vf_inode_id f' = vf_inode_id f.
Proof. done. Qed.

(** The shape of a write and of a truncation: load the page, account for it,
    change the page and the file the same way. *)
Lemma change_cases mount v b (g : VfsPageCachePage → VfsPageCachePage) f l :
  cache_ok mount v → b < vertexfs_file_count v →
  follows (vertexfs_file v b) g f →
  stores (f (vertexfs_file v b)) l → vf_dirty (f (vertexfs_file v b)) = true →
  vf_checksum (f (vertexfs_file v b)) = vertexfs_checksum32 l →
  vf_inode_id (f (vertexfs_file v b)) = vf_inode_id (vertexfs_file v b) →
  match ensure_vertexfs_page_cache_page mount b 0 v with
  | (Err e, v1) => unchanged mount v v1
  | (Ok (i, _), v1) =>
      match ensure_vertexfs_page_cache_dirty i v1 with
      | (Err e, v2) => unchanged mount v v2
      | (Ok _, v2) => changed mount b l v
          (update_vertexfs_page_cache_high_water (modify_file (modify_page v2 i g) b f))
      end
  end.
Proof.
  intros Hok Hb Hg Hst Hd Hck Hino. pose proof (ensure_page_cases mount v b Hok Hb) as He.
  destruct (ensure_vertexfs_page_cache_page mount b 0 v) as [[[i hit]|e] v1].
  2: by apply unchanged_same; [|apply He].
  destruct He as (Hok1 & Hf1 & Hc1 & p & Hp & Hv & Hbk).
  pose proof (ensure_dirty_cases v1 i) as Hed.
  destruct (ensure_vertexfs_page_cache_dirty i v1) as [[[]|e] v2].
  2: { destruct (unchanged_same mount v1 v2 Hok1 Hed) as (? & ? & ?). split_and!; congruence. }
  subst v2. assert (Hfile : ∀ b', vertexfs_file v1 b' = vertexfs_file v b')
    by (intros b'; unfold vertexfs_file; by rewrite Hf1).
  destruct (stores_ok _ _ Hst) as [Hfok Hl].
  destruct (ck_pages _ _ Hok1 i p Hp Hv) as [B1 B2 B3 B4 B5 B6 B7].
  rewrite Hbk, Hfile in B5, B6. destruct (Hg p B5 B6) as (Ht & G1 & G2 & G3).
  destruct (modify_both_ok mount v1 i b f g p) as (Hok2 & F1 & F2); rewrite ?Hfile; try done.
  - by rewrite Hc1.
  - by rewrite Ht, Hv, Hbk.
  - by rewrite G3, Hd.
  - set (v2 := modify_file _ _ _) in *. pose proof (high_water_same v2) as Hh.
    split; [by rewrite <-Hh|]. split; [by rewrite (proj1 (proj2 Hh))|].
    unfold file_contents. rewrite (same_cache_file _ _ _ Hh), F1, Hfile.
    split_and!; [done..|]. intros b' Hne. by rewrite (same_cache_file _ _ _ Hh), F2, Hfile.
Qed.

(** The contents a write leaves: writing nothing does not extend the file. *)
Definition write_contents (l : list byte) (offset : Z) (src : list byte) : list byte :=
  match src with [] => l | _ => splice l (Z.to_nat offset) src end.

Lemma write_cases mount v b offset bytes :
  cache_ok mount v → (0 ≤ offset)%Z →
  match write_vertexfs_page_cache mount b offset bytes v with
  | (Ok (n, next), v') =>
      n = length bytes ∧ next = (offset + Z.of_nat n)%Z ∧ b < vertexfs_file_count v ∧
      (bytes = [] ∧ v' = v ∨
       bytes ≠ [] ∧ changed mount b (splice (file_contents v b) (Z.to_nat offset) bytes) v v')
  | (Err _, v') => unchanged mount v v'
  end.
Proof.
  intros Hok Hoff. unfold write_vertexfs_page_cache.
  destruct (Nat.ltb_spec MAX_VERTEXFS_FILE_BYTES (length bytes)) as [|Hlen]; [done|].
  destruct (Z.ltb_spec (Z.of_nat MAX_VERTEXFS_FILE_BYTES) (offset + Z.of_nat (length bytes))) as [|Hend];
    [done|].
  destruct (Nat.leb_spec (vertexfs_file_count v) b) as [|Hb]; [done|].
  destruct (Nat.eqb_spec (length bytes) 0) as [Hnil|Hne].
  { rewrite Hnil. apply nil_length_inv in Hnil as ->. split_and!; [done|lia|done|by left]. }
  assert (Hstart : Z.to_nat offset + length bytes ≤ MAX_VERTEXFS_FILE_BYTES) by lia.
  rewrite Nat.div_small, Nat.mod_small by (change VERTEXFS_SECTOR_SIZE with MAX_VERTEXFS_FILE_BYTES; lia).
  pose proof (file_ok_stores _ (vertexfs_file_ok mount v b Hok)) as Hst.
  pose proof (write_file_stores _ _ (Z.to_nat offset) bytes Hst Hstart) as Hst'.
  opose proof (change_cases mount v b (write_page (Z.to_nat offset) bytes)
    (write_file (Z.to_nat offset) bytes) _ Hok Hb _ Hst' _ _ _) as Hc.
  - apply write_follows.
  - apply write_file_meta.
  - destruct (stores_ok _ _ Hst') as [_ <-]. apply write_file_meta.
  - apply write_file_meta.
  - destruct (ensure_vertexfs_page_cache_page mount b 0 v) as [[[i hit]|e] v1]; [|done].
    destruct (ensure_vertexfs_page_cache_dirty i v1) as [[[]|e] v2]; [|done].
    split_and!; try done. right. split; [by intros ->|done].
Qed.

Lemma truncate_cases mount v b len :
  cache_ok mount v →
  match truncate_vertexfs_page_cache mount b len v with
  | (Ok _, v') =>
      b < vertexfs_file_count v ∧ len ≤ MAX_VERTEXFS_FILE_BYTES ∧
      (length (file_contents v b) = len ∧ v' = v ∨
       changed mount b (resize len 0%Z (file_contents v b)) v v')
  | (Err _, v') => unchanged mount v v'
  end.
Proof.
  intros Hok. unfold truncate_vertexfs_page_cache.
  destruct (Nat.ltb_spec MAX_VERTEXFS_FILE_BYTES len) as [|Hlen]; [done|].
  destruct (Nat.leb_spec (vertexfs_file_count v) b) as [|Hb]; [done|].
  pose proof (file_ok_stores _ (vertexfs_file_ok mount v b Hok)) as Hst.
  fold (file_contents v b) in Hst. pose proof Hst as (Hn & _).
  destruct (Nat.eqb_spec (vf_len (vertexfs_file v b)) len) as [Heq|Hne].
  { split_and!; [done..|left]. split; [congruence|done]. }
  pose proof (truncate_file_stores _ _ len Hst Hlen) as Hst'. rewrite <-Hn in Hst'.
  set (old := vf_len (vertexfs_file v b)) in *.
  opose proof (change_cases mount v b (λ p, dirtied (p
      <| pg_bytes := clear_bytes (pg_bytes p) (Nat.min old len) (Nat.max old len) |> <| pg_len := len |>))
    (truncate_file old len) _ Hok Hb _ Hst' _ _ _) as Hc.
  - apply truncate_follows.
  - apply truncate_file_meta.
  - destruct (stores_ok _ _ Hst') as [_ <-]. apply truncate_file_meta.
  - apply truncate_file_meta.
  - destruct (ensure_vertexfs_page_cache_page mount b 0 v) as [[[i hit]|e] v1]; [|done].
    destruct (ensure_vertexfs_page_cache_dirty i v1) as [[[]|e] v2]; [|done].
    split_and!; try done. by right.
Qed.

(** * Write-back *)

(** A pass over all pages. *)
Lemma map_pages_ok mount v v' (h : VfsPageCachePage → VfsPageCachePage) :
  cache_ok mount v → vertexfs_file_count v' = vertexfs_file_count v →
  length (vertexfs_files v') = length (vertexfs_files v) → Forall file_ok (vertexfs_files v') →
  vfs_page_cache v' = map_upto h (vfs_page_cache v) (length (vfs_page_cache v)) →
  (∀ p, pg_valid (h p) = true → pg_valid p = true ∧ pg_backing (h p) = pg_backing p) →
  (∀ p, pg_valid (h p) = true → page_ok mount v p → page_ok mount v' (h p)) →
  cache_ok mount v'.
Proof.
  intros Hok Hc Hl Hf Hp Hv Hpg.
  assert (Hget : ∀ i q, vfs_page_cache v' !! i = Some q →
            ∃ p, vfs_page_cache v !! i = Some p ∧ q = h p).
  { intros i q. rewrite Hp, lookup_map_upto. case_bool_decide as Hi.
    - intros (p & -> & ?)%fmap_Some. eauto.
    - intros H%lookup_lt_Some. lia. }
  split.
  - rewrite Hc, Hl. apply Hok.
  - done.
  - intros i q (p & Hi & ->)%Hget V. apply Hpg; [done|]. eapply Hok; [done|]. by apply Hv.
  - intros i j q1 q2 (p1 & H1 & ->)%Hget (p2 & H2 & ->)%Hget V1 V2 Hb.
    destruct (Hv p1 V1) as [W1 B1], (Hv p2 V2) as [W2 B2].
    apply (ck_unique _ _ Hok i j p1 p2); congruence.
Qed.

(** A file whose flags alone change. *)
Definition same_data (f : VfsVertexFsFile → VfsVertexFsFile) : Prop :=
  ∀ x, vf_bytes (f x) = vf_bytes x ∧ vf_len (f x) = vf_len x ∧ vf_inode_id (f x) = vf_inode_id x.

Lemma modify_file_eq v b f b' :
  b < length (vertexfs_files v) →
  vertexfs_file (modify_file v b f) b' = if decide (b' = b) then f (vertexfs_file v b) else vertexfs_file v b'.
Proof.
  intros Hb. unfold vertexfs_file, modify_file, set; cbn. case_decide as Hd; [subst|].
  - rewrite list_lookup_alter_eq. by destruct (lookup_lt_is_Some_2 (vertexfs_files v) b Hb) as [x ->].
  - by rewrite list_lookup_alter_ne.
Qed.

Lemma same_data_contents v b f b' :
  b < length (vertexfs_files v) → same_data f →
  file_contents (modify_file v b f) b' = file_contents v b'.
Proof.
  intros Hb Hf. unfold file_contents. rewrite modify_file_eq by done. case_decide; [subst|done].
  destruct (Hf (vertexfs_file v b)) as (-> & -> & _). done.
Qed.

(** Set the flags of file [b] and of its pages. *)
Lemma flags_ok mount v v' b f (h : VfsPageCachePage → VfsPageCachePage) :
  cache_ok mount v → b < vertexfs_file_count v → same_data f →
  vertexfs_file_count v' = vertexfs_file_count v →
  vertexfs_files v' = vertexfs_files (modify_file v b f) →
  vfs_page_cache v' = map_upto h (vfs_page_cache v) (length (vfs_page_cache v)) →
  (∀ p, (pg_valid (h p), pg_backing (h p), pg_mount_id (h p), pg_page_offset (h p), pg_inode_id (h p),
         pg_bytes (h p)) =
        (pg_valid p, pg_backing p, pg_mount_id p, pg_page_offset p, pg_inode_id p, pg_bytes p)) →
  (∀ p, pg_len p = vf_len (vertexfs_file v (pg_backing p)) → pg_len (h p) = pg_len p) →
  (∀ p, pg_valid p = true → pg_dirty p = vf_dirty (vertexfs_file v (pg_backing p)) →
        pg_dirty (h p) = vf_dirty (if decide (pg_backing p = b) then f (vertexfs_file v b)
                                   else vertexfs_file v (pg_backing p))) →
  cache_ok mount v' ∧ ∀ b', file_contents v' b' = file_contents v b'.
Proof.
  intros Hok Hb Hf Hc Hfs Hp Hh Hlen Hd.
  assert (Hbl : b < length (vertexfs_files v)) by (pose proof (ck_count _ _ Hok); lia).
  assert (Hfile : ∀ b', vertexfs_file v' b' = vertexfs_file (modify_file v b f) b')
    by (intros b'; unfold vertexfs_file; by rewrite Hfs).
  assert (Hkey : ∀ b', vertexfs_page_cache_inode_key v' b' = vertexfs_page_cache_inode_key v b').
  { intros b'. unfold vertexfs_page_cache_inode_key. rewrite Hc, Hfile, modify_file_eq by done.
    case_decide; [subst|done]. by rewrite (proj2 (proj2 (Hf (vertexfs_file v b)))). }
  split.
  - apply (map_pages_ok mount v v' h); try done.
    + rewrite Hfs. apply length_alter.
    + rewrite Hfs. apply Forall_alter; [apply Hok|]. intros x _ Hx. unfold file_ok.
      by destruct (Hf x) as (-> & -> & _).
    + intros p Hv. pose proof (Hh p) as [= Sv Sb _ _ _ _]. split; congruence.
    + intros p Hv [B1 B2 B3 B4 B5 B6 B7]. pose proof (Hh p) as [= Sv Sb Sm So Si Sby].
      assert (Hval : pg_valid p = true) by congruence.
      split; rewrite ?Sb, ?Hc, ?Sm, ?So, ?Hkey, ?Si, ?Sby, ?(Hlen p B6), ?(Hd p Hval B7), ?Hfile,
        ?modify_file_eq by done; try done; case_decide; try done; subst.
      * by destruct (Hf (vertexfs_file v (pg_backing p))) as (-> & _ & _).
      * by destruct (Hf (vertexfs_file v (pg_backing p))) as (_ & -> & _).
  - intros b'. rewrite <-(same_data_contents v b f b' Hbl Hf). unfold file_contents. by rewrite Hfile.
Qed.

Lemma begin_ok mount v b :
  cache_ok mount v →
  let v' := snd (begin_vertexfs_page_cache_writeback b v) in
  cache_ok mount v' ∧ ∀ b', file_contents v' b' = file_contents v b'.
Proof.
  intros Hok. unfold begin_vertexfs_page_cache_writeback.
  destruct (Nat.leb_spec (vertexfs_file_count v) b) as [|Hb]; [done|]. cbn [update_pages snd].
  apply (flags_ok mount v _ b (λ x, x) (λ p, if page_of b p && pg_dirty p
    then p <| pg_pinned := true |> <| pg_writeback := true |> else p)); try done.
  - by case_match.
  - unfold modify_file, set; cbn. rewrite list_alter_id by done. by case_match.
  - by case_match.
  - intros p. by case_match.
  - intros p _. by case_match.
  - intros p _ Hd. case_decide as Hdb; [rewrite <-Hdb, <-Hd|rewrite <-Hd]; by case_match.
Qed.

Lemma finish_ok mount v b checksum :
  cache_ok mount v →
  let v' := snd (finish_vertexfs_sync_file b checksum v) in
  cache_ok mount v' ∧ ∀ b', file_contents v' b' = file_contents v b'.
Proof.
  intros Hok. unfold finish_vertexfs_sync_file, finish_vertexfs_page_cache_writeback.
  destruct (Nat.leb_spec (vertexfs_file_count v) b) as [|Hb]; [done|].
  set (f := λ x : VfsVertexFsFile, x <| vf_checksum := checksum |> <| vf_dirty := false |>).
  change (vertexfs_file_count (modify_file v b f)) with (vertexfs_file_count v).
  rewrite (proj2 (Nat.leb_gt _ _)) by done. cbn [update_pages snd].
  assert (Hbl : b < length (vertexfs_files v)) by (pose proof (ck_count _ _ Hok); lia).
  rewrite modify_file_eq, decide_True by done.
  apply (flags_ok mount v _ b f (λ p, if page_of b p
    then p <| pg_dirty := false |> <| pg_pinned := false |> <| pg_writeback := false |>
           <| pg_writeback_error := false |> <| pg_len := vf_len (f (vertexfs_file v b)) |>
    else p)); try done.
  - by case_match.
  - by case_match.
  - by case_match.
  - intros p. by case_match.
  - intros p Hl. destruct (page_of b p) eqn:Hpo; [|done]. apply andb_true_iff in Hpo as [_ Heq%Nat.eqb_eq].
    rewrite Heq in Hl. by rewrite Hl.
  - intros p Hv Hd. unfold page_of. rewrite Hv. cbn [andb].
    destruct (Nat.eqb_spec (pg_backing p) b); case_decide; done.
Qed.

Lemma error_ok mount v b :
  cache_ok mount v →
  let v' := record_vertexfs_page_cache_writeback_error b v in
  cache_ok mount v' ∧ ∀ b', file_contents v' b' = file_contents v b'.
Proof.
  intros Hok. unfold record_vertexfs_page_cache_writeback_error.
  destruct (Nat.leb_spec (vertexfs_file_count v) b) as [|Hb]; [done|]. cbn [update_pages].
  set (f := λ x : VfsVertexFsFile, x <| vf_dirty := true |>).
  set (h := λ p, if page_of b p then p <| pg_dirty := true |> <| pg_pinned := false |>
      <| pg_writeback := false |> <| pg_writeback_error := true |> else p).
  set (v1 := (modify_file v b f) <| vfs_page_cache ::= λ l, map_upto h l (length l) |>).
  assert (Hv1 : cache_ok mount v1 ∧ ∀ b', file_contents v1 b' = file_contents v b').
  { apply (flags_ok mount v v1 b f h); try done.
    - intros p. unfold h. by case_match.
    - intros p _. unfold h. by case_match.
    - intros p Hv Hd. unfold h, page_of. rewrite Hv. cbn [andb].
      destruct (Nat.eqb_spec (pg_backing p) b); case_decide; done. }
  case_match; [|done]. set (v2 := v1 <| vfs_page_cache_stats ::= _ |>).
  assert (Hs : same_cache v1 v2) by done.
  assert (Hh : same_cache v1 (update_vertexfs_page_cache_high_water v2))
    by (etrans; [exact Hs|apply high_water_same]).
  split; [by rewrite <-Hh; apply Hv1|].
  intros b'. rewrite <-(proj2 Hv1 b'). unfold file_contents. by rewrite (same_cache_file _ _ _ Hh).
Qed.

Lemma load_image_ok mount v image :
  cache_ok mount v →
  let v' := snd (load_vertexfs_image image v) in
  cache_ok mount v' ∧ ∀ b', file_contents v' b' = file_contents v b'.
Proof.
  intros Hok. unfold load_vertexfs_image. case_match; [done|]. cbn [snd]. split; [|done].
  apply (map_pages_ok mount v _ (λ _, page_empty)); try done. apply Hok.
Qed.

(** * Traces of cache operations *)

(** The operations on the cache; [OpLoad] is the part of a read that loads a page. *)
Inductive cache_op :=
  | OpLoad (backing : nat)
  | OpWrite (backing : nat) (offset : Z) (bytes : list byte)
  | OpTruncate (backing len : nat)
  | OpBegin (backing : nat)
  | OpFinish (backing : nat) (checksum : Z)
  | OpError (backing : nat)
  | OpImage (image : list byte).

Definition succeeds {E A} (r : Result E A * VfsState) : bool * VfsState :=
  (match fst r with Ok _ => true | Err _ => false end, snd r).

Definition run_op (mount : Z) (op : cache_op) (v : VfsState) : bool * VfsState :=
  match op with
  | OpLoad b => succeeds (ensure_vertexfs_page_cache_page mount b 0 v)
  | OpWrite b offset bytes => succeeds (write_vertexfs_page_cache mount b offset bytes v)
  | OpTruncate b len => succeeds (truncate_vertexfs_page_cache mount b len v)
  | OpBegin b => succeeds (begin_vertexfs_page_cache_writeback b v)
  | OpFinish b checksum => succeeds (finish_vertexfs_sync_file b checksum v)
  | OpError b => (true, record_vertexfs_page_cache_writeback_error b v)
  | OpImage image => succeeds (load_vertexfs_image image v)
  end.

(** What an operation does to the byte string of file [b]. *)
Definition op_effect (b : nat) (op : cache_op) (ok : bool) (l : list byte) : list byte :=
  match op with
  | OpWrite b' offset bytes => if ok && (b =? b') then write_contents l offset bytes else l
  | OpTruncate b' len => if ok && (b =? b') then resize len 0%Z l else l
  | _ => l
  end.

Fixpoint run_ops (mount : Z) (ops : list cache_op) (v : VfsState) : list bool * VfsState :=
  match ops with
  | [] => ([], v)
  | op :: ops' =>
      let '(ok, v1) := run_op mount op v in
      let '(oks, v2) := run_ops mount ops' v1 in (ok :: oks, v2)
  end.

Fixpoint ops_effect (b : nat) (ops : list cache_op) (oks : list bool) (l : list byte) : list byte :=
  match ops, oks with
  | op :: ops', ok :: oks' => ops_effect b ops' oks' (op_effect b op ok l)
  | _, _ => l
  end.

(** Offsets are unsigned. *)
Definition op_wf (op : cache_op) : Prop :=
  match op with OpWrite _ offset _ => (0 ≤ offset)%Z | _ => True end.

Lemma unchanged_contents mount v v' b : unchanged mount v v' → file_contents v' b = file_contents v b.
Proof. intros Hu. unfold file_contents. by rewrite (unchanged_file mount v v'). Qed.

Lemma changed_contents mount b l v v' b' :
  changed mount b l v v' → file_contents v' b' = if b' =? b then l else file_contents v b'.
Proof.
  intros (_ & _ & Hl & _ & _ & Ho). destruct (Nat.eqb_spec b' b) as [->|Hne]; [done|].
  unfold file_contents. by rewrite Ho.
Qed.

Lemma ensure_page_unchanged mount v b :
  cache_ok mount v → unchanged mount v (snd (ensure_vertexfs_page_cache_page mount b 0 v)).
Proof.
  intros Hok. destruct (decide (b < vertexfs_file_count v)) as [Hb|Hb].
  - pose proof (ensure_page_cases mount v b Hok Hb) as He.
    destruct (ensure_vertexfs_page_cache_page mount b 0 v) as [[[i hit]|e] v1]; cbn.
    + destruct He as (? & ? & ? & _). done.
    + by apply unchanged_same; [|apply He].
  - unfold ensure_vertexfs_page_cache_page. rewrite (proj2 (Nat.leb_le _ _)) by lia. done.
Qed.

Lemma run_op_refines mount op v :
  cache_ok mount v → op_wf op →
  let '(ok, v') := run_op mount op v in
  cache_ok mount v' ∧ ∀ b, file_contents v' b = op_effect b op ok (file_contents v b).
Proof.
  intros Hok Hwf. destruct op as [b|b offset bytes|b len|b|b checksum|b|image]; cbn [run_op succeeds].
  - pose proof (ensure_page_unchanged mount v b Hok) as Hu.
    split; [apply Hu|]. intros b'. by apply (unchanged_contents mount).
  - pose proof (write_cases mount v b offset bytes Hok Hwf) as Hw.
    destruct (write_vertexfs_page_cache mount b offset bytes v) as [[[n next]|e] v']; cbn.
    2: { split; [apply Hw|]. intros b'. by apply (unchanged_contents mount). }
    destruct Hw as (_ & _ & _ & [[-> ->]|[Hne Hc]]).
    + split; [done|]. intros b'. by destruct (b' =? b).
    + split; [apply Hc|]. intros b'. rewrite (changed_contents _ _ _ _ _ b' Hc).
      destruct (Nat.eqb_spec b' b) as [->|]; [by destruct bytes|done].
  - pose proof (truncate_cases mount v b len Hok) as Hw.
    destruct (truncate_vertexfs_page_cache mount b len v) as [[[]|e] v']; cbn.
    2: { split; [apply Hw|]. intros b'. by apply (unchanged_contents mount). }
    destruct Hw as (_ & _ & [[Hlen ->]|Hc]).
    + split; [done|]. intros b'. destruct (Nat.eqb_spec b' b) as [->|]; [|done].
      by rewrite resize_all_alt.
    + split; [apply Hc|]. intros b'. rewrite (changed_contents _ _ _ _ _ b' Hc).
      by destruct (Nat.eqb_spec b' b) as [->|].
  - by apply begin_ok.
  - by apply finish_ok.
  - by apply error_ok.
  - by apply load_image_ok.
Qed.

(** C21: whatever sequence of page loads, writes, truncations, write-back
    starts, completions and errors runs, the cache stays coherent with the
    files, one page per file, and every file holds exactly the byte string that
    the successful writes and truncations describe: eviction and write-back
    never lose or change data in memory. What reaches the disk is not part of
    this statement. *)
Theorem page_cache_refines_files mount ops v :
  cache_ok mount v → Forall op_wf ops →
  let '(oks, v') := run_ops mount ops v in
  cache_ok mount v' ∧ ∀ b, file_contents v' b = ops_effect b ops oks (file_contents v b).
Proof.
  revert v. induction ops as [|op ops IH]; intros v Hok Hwf; cbn; [done|].
  apply Forall_cons in Hwf as [Hop Hops]. pose proof (run_op_refines mount op v Hok Hop) as H1.
  destruct (run_op mount op v) as [ok v1]. destruct H1 as [Hok1 E1].
  specialize (IH v1 Hok1 Hops). destruct (run_ops mount ops v1) as [oks v2].
  destruct IH as [Hok2 E2]. split; [done|]. intros b. cbn. by rewrite E2, E1.
Qed.

(** * Reading *)

Section reading.
Context `{UserMemory}.

Lemma read_loaded v b mount p (start n : nat) i :
  cache_ok mount v → vfs_page_cache v !! i = Some p →
  pg_valid p = true → pg_backing p = b → start + n ≤ vf_len (vertexfs_file v b) →
  take n (drop start (pg_bytes (cache_page v i))) = take n (drop start (file_contents v b)).
Proof.
  intros Hok Hi Hv <- Hn. unfold cache_page. rewrite Hi.
  change (default page_empty (Some p)) with p.
  destruct (ck_pages _ _ Hok i p Hi Hv) as [_ _ _ _ -> _ _]. unfold file_contents.
  rewrite skipn_firstn_comm, take_take. by rewrite Nat.min_l by lia.
Qed.

Definition with_vfs (k : KernelState) (v : VfsState) : KernelState :=
  k <| ks_rt ::= λ rt, rt <| rt_vfs := v |> |>.

(** The read, once a page is needed, with its binds run. *)
Lemma read_runs k b offset destination max_len v1 r :
  let v := rt_vfs (ks_rt k) in
  let n := Nat.min (length (drop (Z.to_nat offset) (file_contents v b))) (Z.to_nat max_len) in
  file_ok (vertexfs_file v b) → (0 ≤ offset)%Z → (0 ≤ max_len)%Z →
  b < vertexfs_file_count v → n ≠ 0 →
  ensure_vertexfs_page_cache_page (vertexfs_page_cache_mount_id (ks_rt k)) b 0 v = (r, v1) →
  Z.to_nat offset + n ≤ vf_len (vertexfs_file v b) ∧
  ∃ s1 s2,
  let v2 := v1 <| vfs_page_cache_stats := s1 |> in
  let v3 := v1 <| vfs_page_cache_stats := s2 |> in
  read_vertexfs_page_cache b offset destination max_len k =
  match r with
  | Err e => Some (Err e, with_vfs k v1)
  | Ok (i, _) =>
      let data := take n (drop (Z.to_nat offset) (pg_bytes (cache_page v1 i))) in
      if um_valid (ks_mem k) (ks_cr3 k) destination (Z.of_nat (length data)) UserWrite
      then Some (Ok (n, (offset + Z.of_nat n)%Z),
                 (with_vfs k v3) <| ks_mem := um_store (ks_mem k) (ks_cr3 k) destination data |>)
      else Some (Err InvalidUserBuffer, with_vfs k v2)
  end.
Proof.
  intros v n Hfok Hoff Hmax Hb Hn0 He. unfold read_vertexfs_page_cache, kbind at 1, kget at 1.
  fold v. rewrite (proj2 (Nat.leb_gt _ _)) by done.
  destruct (file_ok_stores _ Hfok) as (Hlen & Hle & _).
  fold (file_contents v b) in Hlen, Hle. set (start := Z.to_nat (Z.min offset _)).
  replace (Z.to_nat (Z.min (Z.of_nat (vf_len (vertexfs_file v b) - start)) max_len)) with n
    by (unfold n; rewrite length_drop; unfold start; lia).
  rewrite (proj2 (Nat.eqb_neq n 0)) by done.
  assert (Hstart : start = Z.to_nat offset ∧ start + n ≤ vf_len (vertexfs_file v b)).
  { unfold n in *. rewrite length_drop in *. unfold start. lia. }
  destruct Hstart as [Hs Hsn]. clearbody start. subst start. split; [done|].
  rewrite Nat.div_small, Nat.mod_small by (change VERTEXFS_SECTOR_SIZE with MAX_VERTEXFS_FILE_BYTES; lia).
  unfold kbind at 1, on_vfs. fold v. rewrite He. destruct r as [[i hit]|e].
  2: { by exists (vfs_page_cache_stats v1), (vfs_page_cache_stats v1). }
  eexists _, _. unfold kbind at 1, modify_vfs at 1, modify_rt at 1, kmodify at 1.
  unfold kbind at 1, kget at 1, kbind at 1, copy_to_user.
  change (cache_page (rt_vfs (ks_rt _)) i) with (cache_page v1 i).
  set (data := take n _). 
  repeat match goal with
  | |- context [ks_mem ?x] => assert_fails (constr_eq x k); change (ks_mem x) with (ks_mem k)
  | |- context [ks_cr3 ?x] => assert_fails (constr_eq x k); change (ks_cr3 x) with (ks_cr3 k)
  end.
  destruct (um_valid (ks_mem k) (ks_cr3 k) destination (Z.of_nat (length data)) UserWrite);
    [|reflexivity].
  unfold checked_add.
  rewrite (proj2 (Z.leb_le _ _)) by (unfold u64_max, MAX_VERTEXFS_FILE_BYTES in *; lia).
  reflexivity.
Qed.

Lemma read_empty k b offset destination max_len :
  let v := rt_vfs (ks_rt k) in
  file_ok (vertexfs_file v b) → b < vertexfs_file_count v → (0 ≤ offset)%Z →
  Nat.min (length (drop (Z.to_nat offset) (file_contents v b))) (Z.to_nat max_len) = 0 →
  read_vertexfs_page_cache b offset destination max_len k = Some (Ok (0, offset), k).
Proof.
  intros v Hfok Hb Hoff Hn. unfold read_vertexfs_page_cache, kbind at 1, kget at 1. fold v.
  rewrite (proj2 (Nat.leb_gt _ _)) by done. destruct (file_ok_stores _ Hfok) as (Hlen & Hle & _).
  fold (file_contents v b) in Hlen, Hle. rewrite length_drop in Hn.
  rewrite (proj2 (Nat.eqb_eq _ 0)) by lia. done.
Qed.

(** [read_vertexfs_page_cache] always returns. On success it
    has stored exactly the bytes of the file from the offset on in the user's buffer,
    as many as the file has and the buffer takes, and the offset has advanced by as
    many; it fails only for a bad handle, for a cache whose pages are all
    dirty or being written, or for a bad buffer, and then writes nothing.
    Either way every file is as it was and the cache stays coherent. *)
Theorem read_returns_slice k b offset destination max_len :
  let v := rt_vfs (ks_rt k) in
  let mount := vertexfs_page_cache_mount_id (ks_rt k) in
  let l := drop (Z.to_nat offset) (file_contents v b) in
  let n := Nat.min (length l) (Z.to_nat max_len) in
  cache_ok mount v → (0 ≤ offset)%Z → (0 ≤ max_len)%Z →
  ∃ r k', read_vertexfs_page_cache b offset destination max_len k = Some (r, k') ∧
    cache_ok mount (rt_vfs (ks_rt k')) ∧
    (∀ b', vertexfs_file (rt_vfs (ks_rt k')) b' = vertexfs_file v b') ∧
    match r with
    | Ok (copied, next) =>
        copied = n ∧ next = (offset + Z.of_nat n)%Z ∧
        ks_mem k' = if decide (n = 0) then ks_mem k else um_store (ks_mem k) (ks_cr3 k) destination (take n l)
    | Err e =>
        ks_mem k' = ks_mem k ∧
        (e = VfsBadHandle ∧ vertexfs_file_count v ≤ b ∨
         e = VfsNoSpace ∧ cache_full v ∨
         e = InvalidUserBuffer ∧
           um_valid (ks_mem k) (ks_cr3 k) destination (Z.of_nat n) UserWrite = false)
    end.
Proof.
  intros v mount l n Hok Hoff Hmax.
  pose proof (vertexfs_file_ok mount v b Hok) as Hfok.
  destruct (decide (vertexfs_file_count v ≤ b)) as [Hb|Hb].
  { exists (Err VfsBadHandle), k. unfold read_vertexfs_page_cache, kbind at 1, kget at 1. fold v.
    rewrite (proj2 (Nat.leb_le _ _)) by done. split_and!; try done. by left. }
  destruct (decide (n = 0)) as [Hn0|Hn0].
  { exists (Ok (0, offset)), k. assert (b < vertexfs_file_count v) by lia.
    split; [by apply read_empty|].
    split_and!; try done; rewrite Hn0; lia. }
  assert (Hlt : b < vertexfs_file_count v) by lia.
  pose proof (ensure_page_cases mount v b Hok Hlt) as He.
  destruct (ensure_vertexfs_page_cache_page mount b 0 v) as [r v1] eqn:Hens.
  destruct (read_runs k b offset destination max_len v1 r) as (Hsn & s1 & s2 & ->); try done.
  destruct r as [[i hit]|e].
  2: { destruct He as (Hsame & -> & Hfull). eexists _, _. split; [reflexivity|].
       split_and!; [by apply (same_cache_ok mount v)|by intros b'; apply same_cache_file|done|auto]. }
  destruct He as (Hok1 & Hf1 & Hc1 & p & Hp & Hv & Hbk). cbv zeta.
  assert (Hfile : ∀ b', vertexfs_file v1 b' = vertexfs_file v b')
    by (intros b'; unfold vertexfs_file; by rewrite Hf1).
  rewrite (read_loaded v1 b mount p); try done; [|by rewrite Hfile].
  assert (Hcont : file_contents v1 b = file_contents v b) by (unfold file_contents; by rewrite Hfile).
  rewrite Hcont. fold v l n.
  assert (Hl : length (take n l) = n) by (rewrite length_take; unfold n; lia). rewrite Hl.
  destruct (um_valid (ks_mem k) (ks_cr3 k) destination (Z.of_nat n) UserWrite) eqn:Hval;
    eexists _, _; (split; [reflexivity|]); split_and!; try done; try (by apply (same_cache_ok mount v1)).
  auto.
Qed.
End reading.

(** * The limit on dirty pages *)

Definition dirty_count (v : VfsState) : nat :=
  count_upto dirty_page (vfs_page_cache v) (length (vfs_page_cache v)).

Definition page_limit : nat := 6.

Lemma dirty_limit_count v :
  (vertexfs_page_cache_dirty_bytes v ≤ VERTEXFS_PAGE_CACHE_DIRTY_BYTE_LIMIT)%Z ↔
  dirty_count v ≤ page_limit.
Proof.
  unfold vertexfs_page_cache_dirty_bytes, VERTEXFS_PAGE_CACHE_DIRTY_BYTE_LIMIT. fold (dirty_count v).
  unfold VERTEXFS_SECTOR_SIZE, page_limit. lia.
Qed.

(** Every dirty file has its page in the cache. *)
Definition dirty_cached (v : VfsState) : Prop :=
  ∀ b, b < vertexfs_file_count v → vf_dirty (vertexfs_file v b) = true →
  ∃ i p, vfs_page_cache v !! i = Some p ∧ pg_valid p = true ∧ pg_backing p = b.

Lemma count_upto_insert {A} (P : A → bool) (l : list A) i x y :
  l !! i = Some y →
  count_upto P (<[i := x]> l) (length l) + (if P y then 1 else 0) =
  count_upto P l (length l) + (if P x then 1 else 0).
Proof.
  revert i. induction l as [|z l IH]; intros [|i] Hi; simplify_eq/=; [lia|].
  specialize (IH i Hi). lia.
Qed.

Lemma count_upto_map {A} (P : A → bool) (h : A → A) (l : list A) :
  (∀ x, P (h x) = true → P x = true) →
  count_upto P (map_upto h l (length l)) (length l) ≤ count_upto P l (length l).
Proof.
  intros Hh. induction l as [|z l IH]; cbn; [done|]. specialize (Hh z).
  destruct (P (h z)), (P z); lia.
Qed.

(** Loading a page dirties nothing: it replaces a clean page by a clean one. *)
Lemma ensure_page_limit mount v b r v1 :
  cache_ok mount v → dirty_cached v → b < vertexfs_file_count v →
  ensure_vertexfs_page_cache_page mount b 0 v = (r, v1) →
  dirty_count v1 ≤ dirty_count v ∧ dirty_cached v1.
Proof.
  intros Hok Hdc Hb. unfold ensure_vertexfs_page_cache_page.
  rewrite (proj2 (Nat.leb_gt _ _)) by done.
  destruct (vertexfs_page_cache_inode_key v b) as [inode|e] eqn:Hkey; [|by intros [= <- <-]].
  change (Z.of_nat 0) with 0%Z.
  destruct (vertexfs_page_cache_lookup v b mount inode 0) as [i|] eqn:Hlk; [by intros [= <- <-]|].
  pose proof (victim_cases v) as Hvic.
  destruct (vertexfs_page_cache_victim v) as [[slot|e] v2].
  2: { intros [= <- <-]. destruct Hvic as ((Hf & Hc & Hp) & _). unfold dirty_count, dirty_cached, vertexfs_file.
       by rewrite Hf, Hc, Hp. }
  destruct Hvic as (Hs & old & Hold & Hfree). rewrite (same_cache_file v v2) by done.
  intros [= <- <-]. set (page := loaded_page _ _ _ _ _).
  set (v3 := v2 <| vfs_page_cache ::= <[slot := page]> |>).
  assert (Hclean : vf_dirty (vertexfs_file v b) = false).
  { apply not_true_iff_false. intros Hd. destruct (Hdc b Hb Hd) as (i & p & Hi & Hv & Hbk).
    by eapply (lookup_page_None mount v b inode i p). }
  assert (Hnd : dirty_page old = false).
  { unfold dirty_page. destruct Hfree as [->|Hm]; [done|]. unfold may_evict in Hm.
    destruct (pg_valid old), (pg_dirty old); done. }
  pose proof (high_water_same v3) as (Hf3 & Hc3 & Hp3). destruct Hs as (Hf & Hc & Hp).
  assert (Hp4 : vfs_page_cache v3 = <[slot := page]> (vfs_page_cache v)) by (unfold v3, set; cbn; by rewrite Hp).
  split.
  - unfold dirty_count. rewrite Hp3, Hp4, length_insert.
    pose proof (count_upto_insert dirty_page _ slot page old Hold) as Hcnt. rewrite Hnd in Hcnt.
    change (dirty_page page) with (true && vf_dirty (vertexfs_file v b)) in Hcnt.
    rewrite Hclean in Hcnt. cbn in Hcnt. lia.
  - intros b' Hb' Hd'. rewrite Hc3 in Hb'. unfold vertexfs_file in Hd'. rewrite Hf3 in Hd'.
    change (vertexfs_file_count v2) with (vertexfs_file_count v3) in Hc.
    change (vertexfs_files v3) with (vertexfs_files v2) in Hd'. rewrite Hf in Hd'.
    rewrite Hc in Hb'. fold (vertexfs_file v b') in Hd'.
    destruct (Hdc b' Hb' Hd') as (i & p & Hi & Hv & Hbk).
    assert (i ≠ slot).
    { intros ->. assert (p = old) as -> by congruence. unfold dirty_page in Hnd. rewrite Hv in Hnd.
      destruct (ck_pages _ _ Hok slot old Hi Hv) as [_ _ _ _ _ _ Hdo]. rewrite Hbk, Hd' in Hdo. by rewrite Hdo in Hnd. }
    exists i, p. rewrite Hp3, Hp4, list_lookup_insert_ne by done. done.
Qed.

(** A page is dirtied only while the limit allows one more. *)
Lemma dirty_page_limit mount v i p b g f :
  cache_ok mount v → dirty_cached v → dirty_count v ≤ page_limit →
  vfs_page_cache v !! i = Some p → pg_valid p = true → pg_backing p = b →
  ensure_vertexfs_page_cache_dirty i v = (Ok tt, v) →
  (∀ q, pg_valid (g q) = pg_valid q ∧ pg_backing (g q) = pg_backing q) →
  let v' := update_vertexfs_page_cache_high_water (modify_file (modify_page v i g) b f) in
  dirty_count v' ≤ page_limit ∧ dirty_cached v'.
Proof.
  intros Hok Hdc Hlim Hi Hv Hbk Hed Hg v'.
  pose proof (high_water_same (modify_file (modify_page v i g) b f)) as (Hf & Hc & Hp).
  fold v' in Hf, Hc, Hp. cbn in Hp.
  assert (Hup : vfs_page_cache v' = <[i := g p]> (vfs_page_cache v)).
  { rewrite Hp. rewrite list_insert_alter. apply list_alter_ext; [congruence|done]. }
  split.
  - unfold dirty_count. rewrite Hup, length_insert.
    pose proof (count_upto_insert dirty_page _ i (g p) p Hi) as Hcnt. fold (dirty_count v) in Hcnt.
    unfold ensure_vertexfs_page_cache_dirty, cache_page in Hed. rewrite Hi in Hed.
    change (default page_empty (Some p)) with p in Hed. rewrite Hv, orb_false_r in Hed.
    unfold dirty_page at 2 in Hcnt. rewrite Hv in Hcnt.
    rewrite (proj2 (Nat.leb_gt _ _) (lookup_lt_Some _ _ _ Hi)) in Hed. cbn [negb orb] in Hed.
    destruct (pg_dirty p) eqn:Hd; [cbn in Hcnt; destruct (dirty_page (g p)); lia|].
    destruct (Z.ltb_spec VERTEXFS_PAGE_CACHE_DIRTY_BYTE_LIMIT
      (vertexfs_page_cache_dirty_bytes v + Z.of_nat VERTEXFS_SECTOR_SIZE)) as [|Hle]; [done|].
    assert (dirty_count v < page_limit).
    { unfold vertexfs_page_cache_dirty_bytes, VERTEXFS_PAGE_CACHE_DIRTY_BYTE_LIMIT in Hle.
      fold (dirty_count v) in Hle. unfold VERTEXFS_SECTOR_SIZE, page_limit in *. lia. }
    cbn in Hcnt. destruct (dirty_page (g p)); lia.
  - intros b' Hb' Hd'. destruct (decide (b' = b)) as [->|Hne].
    + exists i, (g p). rewrite Hup, list_lookup_insert_eq by (by eapply lookup_lt_Some).
      destruct (Hg p). split_and!; congruence.
    + unfold vertexfs_file in Hd'. rewrite Hf in Hd'. unfold modify_file, set in Hd'. cbn in Hd'.
      rewrite list_lookup_alter_ne in Hd' by done. rewrite Hc in Hb'.
      destruct (Hdc b' Hb' Hd') as (j & q & Hj & Hvq & Hbq). exists j, q.
      rewrite Hup, list_lookup_insert_ne by congruence. done.
Qed.

Definition within_limit (v : VfsState) : Prop := dirty_count v ≤ page_limit ∧ dirty_cached v.

#[export] Instance within_limit_proper : Proper (same_cache ==> impl) within_limit.
Proof.
  intros v v' (Hf & Hc & Hp). unfold within_limit, dirty_count, dirty_cached, vertexfs_file.
  by rewrite Hf, Hc, Hp.
Qed.

Lemma change_limit mount v b g f :
  cache_ok mount v → within_limit v → b < vertexfs_file_count v →
  (∀ q, pg_valid (g q) = pg_valid q ∧ pg_backing (g q) = pg_backing q) →
  match ensure_vertexfs_page_cache_page mount b 0 v with
  | (Err e, v1) => within_limit v1
  | (Ok (i, _), v1) =>
      match ensure_vertexfs_page_cache_dirty i v1 with
      | (Err e, v2) => within_limit v2
      | (Ok _, v2) =>
          within_limit (update_vertexfs_page_cache_high_water (modify_file (modify_page v2 i g) b f))
      end
  end.
Proof.
  intros Hok [Hlim Hdc] Hb Hg. pose proof (ensure_page_cases mount v b Hok Hb) as He.
  destruct (ensure_vertexfs_page_cache_page mount b 0 v) as [r v1] eqn:Hens.
  destruct (ensure_page_limit mount v b r v1 Hok Hdc Hb Hens) as [Hl1 Hd1].
  assert (Hw1 : within_limit v1) by (split; [lia|done]).
  destruct r as [[i hit]|e]; [|done]. destruct He as (Hok1 & _ & _ & p & Hp & Hv & Hbk).
  pose proof (ensure_dirty_cases v1 i) as Hed.
  destruct (ensure_vertexfs_page_cache_dirty i v1) as [[[]|e] v2] eqn:Hed'.
  - subst v2. apply (dirty_page_limit mount v1 i p); [done..|lia|done|done|done|done|done].
  - by rewrite <-Hed.
Qed.

(** A pass over the pages that keeps them and dirties neither a page nor a file. *)
Lemma map_pages_limit v v' (h : VfsPageCachePage → VfsPageCachePage) :
  within_limit v → vertexfs_file_count v' = vertexfs_file_count v →
  (∀ b, vf_dirty (vertexfs_file v' b) = true → vf_dirty (vertexfs_file v b) = true) →
  vfs_page_cache v' = map_upto h (vfs_page_cache v) (length (vfs_page_cache v)) →
  (∀ p, pg_valid (h p) = pg_valid p ∧ pg_backing (h p) = pg_backing p ∧
        (pg_dirty (h p) = true → pg_dirty p = true)) →
  within_limit v'.
Proof.
  intros [Hlim Hdc] Hc Hf Hp Hh. split.
  - unfold dirty_count. rewrite Hp, length_map_upto. etrans; [|exact Hlim]. apply count_upto_map.
    intros x. unfold dirty_page. destruct (Hh x) as (-> & _ & Hd).
    rewrite !andb_true_iff. intros [??]. auto.
  - intros b Hb Hd. rewrite Hc in Hb. destruct (Hdc b Hb (Hf b Hd)) as (i & p & Hi & Hv & Hbk).
    exists i, (h p). rewrite Hp, lookup_map_upto, Hi, bool_decide_true by (by eapply lookup_lt_Some).
    destruct (Hh p) as (-> & -> & _). done.
Qed.

Lemma begin_limit v b : within_limit v → within_limit (snd (begin_vertexfs_page_cache_writeback b v)).
Proof.
  intros Hw. unfold begin_vertexfs_page_cache_writeback. case_match; [done|]. cbn [update_pages snd].
  apply (map_pages_limit v _ (λ p, if page_of b p && pg_dirty p
    then p <| pg_pinned := true |> <| pg_writeback := true |> else p)); try done.
  - by case_match.
  - intros b'. by case_match.
  - by case_match.
  - intros p. by case_match.
Qed.

Lemma finish_limit v b checksum :
  vertexfs_file_count v ≤ length (vertexfs_files v) →
  within_limit v → within_limit (snd (finish_vertexfs_sync_file b checksum v)).
Proof.
  intros Hcnt Hw. unfold finish_vertexfs_sync_file, finish_vertexfs_page_cache_writeback.
  destruct (Nat.leb_spec (vertexfs_file_count v) b) as [|Hb]; [done|].
  set (f := λ x : VfsVertexFsFile, x <| vf_checksum := checksum |> <| vf_dirty := false |>).
  change (vertexfs_file_count (modify_file v b f)) with (vertexfs_file_count v).
  rewrite (proj2 (Nat.leb_gt _ _)) by done. cbn [update_pages snd].
  set (h := λ p, if page_of b p
    then p <| pg_dirty := false |> <| pg_pinned := false |> <| pg_writeback := false |>
           <| pg_writeback_error := false |> <| pg_len := vf_len (vertexfs_file (modify_file v b f) b) |>
    else p).
  apply (map_pages_limit v _ h); try done.
  - by case_match.
  - intros b'. assert (Hm : vf_dirty (vertexfs_file (modify_file v b f) b') = true →
                          vf_dirty (vertexfs_file v b') = true).
    { rewrite modify_file_eq by lia. by case_decide. }
    by case_match.
  - by case_match.
  - intros p. unfold h. by case_match.
Qed.

(** Neither a write-back error, which dirties a file whether or not it is
    cached, nor the loading of an image, which empties the cache. *)
Definition op_accounted (op : cache_op) : Prop :=
  op_wf op ∧ match op with OpError _ | OpImage _ => False | _ => True end.

Lemma write_limit mount v b offset bytes :
  cache_ok mount v → within_limit v → (0 ≤ offset)%Z →
  within_limit (snd (write_vertexfs_page_cache mount b offset bytes v)).
Proof.
  intros Hok Hw Hoff. unfold write_vertexfs_page_cache.
  destruct (Nat.ltb_spec MAX_VERTEXFS_FILE_BYTES (length bytes)) as [|Hlen]; [done|].
  destruct (Z.ltb_spec (Z.of_nat MAX_VERTEXFS_FILE_BYTES) (offset + Z.of_nat (length bytes))) as [|Hend];
    [done|].
  destruct (Nat.leb_spec (vertexfs_file_count v) b) as [|Hb]; [done|].
  destruct (Nat.eqb_spec (length bytes) 0) as [Hnil|Hne]; [done|].
  rewrite Nat.div_small, Nat.mod_small by (change VERTEXFS_SECTOR_SIZE with MAX_VERTEXFS_FILE_BYTES; lia).
  pose proof (change_limit mount v b (write_page (Z.to_nat offset) bytes)
    (write_file (Z.to_nat offset) bytes) Hok Hw Hb (λ q, conj eq_refl eq_refl)) as Hc.
  destruct (ensure_vertexfs_page_cache_page mount b 0 v) as [[[i hit]|e] v1]; [|done].
  by destruct (ensure_vertexfs_page_cache_dirty i v1) as [[[]|e] v2].
Qed.

Lemma truncate_limit mount v b len :
  cache_ok mount v → within_limit v →
  within_limit (snd (truncate_vertexfs_page_cache mount b len v)).
Proof.
  intros Hok Hw. unfold truncate_vertexfs_page_cache. destruct (_ <? len); [done|].
  destruct (Nat.leb_spec (vertexfs_file_count v) b) as [|Hb]; [done|]. destruct (_ =? len); [done|].
  set (old := vf_len (vertexfs_file v b)).
  pose proof (change_limit mount v b (λ p, dirtied (p
      <| pg_bytes := clear_bytes (pg_bytes p) (Nat.min old len) (Nat.max old len) |> <| pg_len := len |>))
    (truncate_file old len) Hok Hw Hb) as Hc. specialize (Hc (λ q, conj eq_refl eq_refl)).
  destruct (ensure_vertexfs_page_cache_page mount b 0 v) as [[[i hit]|e] v1]; [|done].
  destruct (ensure_vertexfs_page_cache_dirty i v1) as [[[]|e] v2]; exact Hc.
Qed.

Lemma run_op_limit mount op v :
  cache_ok mount v → within_limit v → op_accounted op → within_limit (snd (run_op mount op v)).
Proof.
  intros Hok Hw [Hwf Hop]. destruct op as [b|b offset bytes|b len|b|b checksum|b|image]; try done;
    cbn [run_op succeeds snd].
  - destruct (decide (b < vertexfs_file_count v)) as [Hb|Hb].
    + destruct (ensure_vertexfs_page_cache_page mount b 0 v) as [r v1] eqn:Hens.
      destruct (ensure_page_limit mount v b r v1 Hok (proj2 Hw) Hb Hens) as [Hl Hd].
      split; [|done]. cbn [snd]. pose proof (proj1 Hw). lia.
    + unfold ensure_vertexfs_page_cache_page. by rewrite (proj2 (Nat.leb_le _ _)) by lia.
  - by apply write_limit.
  - by apply truncate_limit.
  - by apply begin_limit.
  - apply finish_limit; [apply Hok|done].
Qed.

(** As long as every dirty file has its page in the cache, no sequence of
    loads, writes, truncations, write-back starts and completions makes more
    than [VERTEXFS_PAGE_CACHE_DIRTY_BYTE_LIMIT] bytes of the cache dirty, and
    every dirty file keeps its page. *)
Theorem dirty_limit_kept mount ops v :
  cache_ok mount v → dirty_cached v → Forall op_accounted ops →
  (vertexfs_page_cache_dirty_bytes v ≤ VERTEXFS_PAGE_CACHE_DIRTY_BYTE_LIMIT)%Z →
  let v' := snd (run_ops mount ops v) in
  (vertexfs_page_cache_dirty_bytes v' ≤ VERTEXFS_PAGE_CACHE_DIRTY_BYTE_LIMIT)%Z ∧ dirty_cached v'.
Proof.
  intros Hok Hdc Hops Hlim%dirty_limit_count. cbv zeta. rewrite dirty_limit_count.
  assert (Hw : within_limit v) by done. clear Hdc Hlim. revert v Hok Hw.
  induction ops as [|op ops IH]; intros v Hok Hw; [exact Hw|]. cbn [run_ops].
  apply Forall_cons in Hops as [Hop Hops].
  pose proof (run_op_refines mount op v Hok (proj1 Hop)) as Hr.
  pose proof (run_op_limit mount op v Hok Hw Hop) as Hl.
  destruct (run_op mount op v) as [ok v1]. specialize (IH Hops v1 (proj1 Hr) Hl).
  by destruct (run_ops mount ops v1).
Qed.

(** * Examples *)

(** Two empty files, nothing cached. *)
Definition two_files : VfsState := vfs_state_new <| vertexfs_file_count := 2 |>.

Lemma two_files_ok : cache_ok 0 two_files.
Proof.
  destruct vfs_state_new_ok as [_ H2 H3 H4]. split.
  - vm_compute. lia.
  - exact H2.
  - intros i p Hp Hv. apply lookup_replicate in Hp as [-> _]. done.
  - exact H4.
Qed.

(** A write, its write-back, a write while it is under way, and a truncation. *)
Definition two_files_ops : list cache_op :=
  [OpWrite 0 2 [7; 8]%Z; OpBegin 0; OpWrite 1 0 [5]%Z; OpWrite 0 1 [9]%Z; OpFinish 0 99; OpTruncate 0 3].

Lemma two_files_wf : Forall op_accounted two_files_ops.
Proof. repeat constructor; cbn; lia. Qed.

Lemma page_cache_refines_files_witness :
  let '(oks, v') := run_ops 0 two_files_ops two_files in
  cache_ok 0 v' ∧ oks = replicate 6 true ∧
  file_contents v' 0 = [0; 9; 7]%Z ∧ file_contents v' 1 = [5]%Z.
Proof.
  assert (Hwf : Forall op_wf two_files_ops) by (repeat constructor; cbn; lia).
  pose proof (page_cache_refines_files 0 two_files_ops two_files two_files_ok Hwf) as H.
  assert (Hoks : fst (run_ops 0 two_files_ops two_files) = replicate 6 true)
    by (vm_compute; reflexivity).
  destruct (run_ops 0 two_files_ops two_files) as [oks v']. destruct H as [Hok Hc].
  cbn [fst] in Hoks. subst oks. rewrite !Hc. split; [exact Hok|]. split_and!; vm_compute; reflexivity.
Defined.

Lemma dirty_limit_kept_witness :
  (vertexfs_page_cache_dirty_bytes (snd (run_ops 0 two_files_ops two_files)) ≤
   VERTEXFS_PAGE_CACHE_DIRTY_BYTE_LIMIT)%Z.
Proof.
  refine (proj1 (dirty_limit_kept 0 two_files_ops two_files two_files_ok _ two_files_wf _)).
  - intros b Hb Hd. exfalso. cbn in Hb. destruct b as [|[|b]]; [discriminate Hd..|lia].
  - vm_compute. discriminate.
Defined.

(** A kernel whose first file holds [0; 0; 7; 8]. *)
Definition written_files : VfsState := snd (run_op 0 (OpWrite 0 2 [7; 8]%Z) two_files).
Definition reading_kernel : KernelState :=
  mkKernelState (runtime_new <| rt_vfs := written_files |>) (λ _ _, 0%Z) 0 frame_empty 0 0 devices_new.

Lemma written_files_ok : cache_ok 0 written_files.
Proof.
  pose proof (run_op_refines 0 (OpWrite 0 2 [7; 8]%Z) two_files two_files_ok ltac:(cbn; lia)) as H.
  unfold written_files. destruct (run_op 0 (OpWrite 0 2 [7; 8]%Z) two_files). apply H.
Qed.

Lemma reading_vfs : rt_vfs (ks_rt reading_kernel) = written_files.
Proof. reflexivity. Qed.

Lemma reading_mount : vertexfs_page_cache_mount_id (ks_rt reading_kernel) = 0%Z.
Proof. vm_compute. reflexivity. Qed.

Lemma reading_slice : drop (Z.to_nat 1) (file_contents written_files 0) = [0; 7; 8]%Z.
Proof. vm_compute. reflexivity. Qed.

Lemma reading_succeeds :
  match read_vertexfs_page_cache 0 1 4096 16 reading_kernel with
  | Some (Ok _, _) => true
  | _ => false
  end = true.
Proof. vm_compute. reflexivity. Qed.

Lemma read_returns_slice_witness :
  ∃ r k', read_vertexfs_page_cache 0 1 4096 16 reading_kernel = Some (r, k') ∧
    cache_ok 0 (rt_vfs (ks_rt k')) ∧
    ks_mem k' = um_store (ks_mem reading_kernel) (ks_cr3 reading_kernel) 4096 [0; 7; 8]%Z.
Proof.
  pose proof (read_returns_slice reading_kernel 0 1 4096 16) as H. cbv zeta in H.
  rewrite reading_vfs, reading_mount, reading_slice in H.
  destruct (H written_files_ok ltac:(lia) ltac:(lia)) as (r & k' & Hk & Hok & _ & Hr). clear H.
  exists r, k'. split; [exact Hk|]. split; [exact Hok|].
  pose proof reading_succeeds as Hs. rewrite Hk in Hs.
  destruct r as [[n next]|e]; [exact (proj2 (proj2 Hr))|discriminate Hs].
Defined.

(** ** Limits of the guarantees *)

(** A completion after a later write reports that write as synced: the file is
    clean, under the checksum of the contents that were written back. *)
Example later_write_reported_clean :
  let v := snd (run_ops 0 [OpWrite 0 0 [1]%Z; OpBegin 0; OpWrite 0 0 [2]%Z;
                           OpFinish 0 (vertexfs_checksum32 [1]%Z)] two_files) in
  vf_dirty (vertexfs_file v 0) = false ∧ file_contents v 0 = [2]%Z ∧
  vf_checksum (vertexfs_file v 0) ≠ vertexfs_checksum32 (file_contents v 0).
Proof. vm_compute. done. Qed.

(** After an error on a file that is not cached, loading its page goes over the
    limit that writes respect. *)
Example error_exceeds_dirty_limit :
  let v := snd (run_ops 0 ([OpError 6] ++ ((λ b, OpWrite b 0 [1]%Z) <$> seq 0 6) ++ [OpLoad 6])
                  (vfs_state_new <| vertexfs_file_count := 7 |>)) in
  (VERTEXFS_PAGE_CACHE_DIRTY_BYTE_LIMIT < vertexfs_page_cache_dirty_bytes v)%Z.
Proof. vm_compute. done. Qed.
