(* ===== verification/VertexFs.v ===== *)
(** The on-disk image of VertexFS ([vfs/vertexfs.rs]): layouts, the parser that
    checks an image, the writers of the journal, of file data and of metadata,
    and the ordered list of sector writes with which [ipc/runtime_state.rs]
    commits a file. *)

From S2P Require Import Prelude KernelBase Transport VfsPath KernelObjects ProcessRuntime.
From S2P Require Import CapRegistry VfsState VfsWire Runtime Kernel PageCache.

(** * Layouts *)

Inductive VertexFsFormat := FormatV1 | FormatV2.

#[export] Instance VertexFsFormat_eq_dec : EqDecision VertexFsFormat.
Proof. solve_decision. Defined.

(** A magic string padded with zeros to 16 bytes. *)
Definition magic (s : string) : list byte :=
  string_bytes s ++ replicate (16 - length (string_bytes s)) 0%Z.

Record VertexFsLayout := mkVertexFsLayout {
  vl_format : VertexFsFormat;
  superblock_magic : list byte;
  inode_magic : list byte;
  directory_magic : list byte;
  free_map_magic : list byte;
  journal_magic : list byte;
  vl_version : Z;
  feature_flags : Z;
  generation_offset : nat;
  section_table_offset : nat;
  inode_table_sector : Z;
  inode_table_sectors : Z;
  inode_table_bytes : nat;
  directory_sector : Z;
  directory_sectors : Z;
  directory_bytes : nat;
  free_map_sector : Z;
  journal_sector : Z;
  data_sector : Z;
  data_sectors : Z;
  dynamic_file_capacity : nat;
  directory_dynamic_file_capacity : nat
}.

Definition VERTEXFS_CHECKSUM_OFFSET : nat := 20.
Definition VERTEXFS_V2_VOLUME_OFFSET : nat := 32.
Definition VERTEXFS_SECTION_RECORD_LEN : nat := 16.
Definition VERTEXFS_INODE_ENTRY_OFFSET : nat := 32.
Definition VERTEXFS_INODE_ENTRY_LEN : nat := 64.
Definition VERTEXFS_DIRECTORY_ENTRY_OFFSET : nat := 32.
Definition VERTEXFS_DIRECTORY_ENTRY_LEN : nat := 64.
Definition VERTEXFS_DIRECTORY_NAME_BYTES : nat := VERTEXFS_DIRECTORY_ENTRY_LEN - 12.
Definition VERTEXFS_INODE_ROOT : Z := 1.
Definition VERTEXFS_INODE_README : Z := 2.
Definition VERTEXFS_INODE_APP_DIR : Z := 3.
Definition VERTEXFS_INODE_APP_A : Z := 4.
Definition VERTEXFS_BASE_INODE_COUNT : nat := 4.
Definition VERTEXFS_BASE_DIRECTORY_COUNT : nat := 3.
Definition VERTEXFS_DYNAMIC_INODE_FIRST : Z := 5.
Definition VERTEXFS_KIND_DIR : Z := 1.
Definition VERTEXFS_KIND_FILE : Z := 2.
Definition VERTEXFS_JOURNAL_STATE_CLEAN : Z := 0.
Definition VERTEXFS_JOURNAL_STATE_PENDING : Z := 1.
Definition VERTEXFS_JOURNAL_PAYLOAD_OFFSET : nat := 64.

(** [VERTEXFS_LAYOUT_V1]: two sectors of inodes and two of directory entries;
    sectors 7 to 63 hold data. *)
Definition VERTEXFS_LAYOUT_V1 : VertexFsLayout := {|
  vl_format := FormatV1;
  superblock_magic := magic "VERTEXFSV1";
  inode_magic := magic "VFSINODEV1";
  directory_magic := magic "VFSDIRV1";
  free_map_magic := magic "VFSFREEV1";
  journal_magic := magic "VFSJOURNALV1";
  vl_version := 1;
  feature_flags := Z.lor 1 (Z.lor (Z.shiftl 1 1) (Z.lor (Z.shiftl 1 2) (Z.shiftl 1 3)));
  generation_offset := 32;
  section_table_offset := 128;
  inode_table_sector := 1;
  inode_table_sectors := 2;
  inode_table_bytes := VERTEXFS_SECTOR_SIZE * 2;
  directory_sector := 3;
  directory_sectors := 2;
  directory_bytes := VERTEXFS_SECTOR_SIZE * 2;
  free_map_sector := 5;
  journal_sector := 6;
  data_sector := 7;
  data_sectors := Z.of_nat VERTEXFS_SECTORS - 7;
  dynamic_file_capacity :=
    (VERTEXFS_SECTOR_SIZE * 2 - VERTEXFS_INODE_ENTRY_OFFSET) / VERTEXFS_INODE_ENTRY_LEN -
    VERTEXFS_BASE_INODE_COUNT;
  directory_dynamic_file_capacity :=
    (VERTEXFS_SECTOR_SIZE * 2 - VERTEXFS_DIRECTORY_ENTRY_OFFSET) / VERTEXFS_DIRECTORY_ENTRY_LEN -
    VERTEXFS_BASE_DIRECTORY_COUNT
|}.

(** [VERTEXFS_LAYOUT_V2]: eight sectors of each; sectors 19 to 63 hold data. *)
Definition VERTEXFS_LAYOUT_V2 : VertexFsLayout := {|
  vl_format := FormatV2;
  superblock_magic := magic "VERTEXFSV2";
  inode_magic := magic "VFSINODEV2";
  directory_magic := magic "VFSDIRV2";
  free_map_magic := magic "VFSFREEV2";
  journal_magic := magic "VFSJOURNALV2";
  vl_version := 2;
  feature_flags := Z.lor 1 (Z.lor (Z.shiftl 1 1) (Z.lor (Z.shiftl 1 2)
                     (Z.lor (Z.shiftl 1 3) (Z.shiftl 1 4))));
  generation_offset := 96;
  section_table_offset := 192;
  inode_table_sector := 1;
  inode_table_sectors := 8;
  inode_table_bytes := VERTEXFS_SECTOR_SIZE * 8;
  directory_sector := 9;
  directory_sectors := 8;
  directory_bytes := VERTEXFS_SECTOR_SIZE * 8;
  free_map_sector := 17;
  journal_sector := 18;
  data_sector := 19;
  data_sectors := Z.of_nat VERTEXFS_SECTORS - 19;
  dynamic_file_capacity := VERTEXFS_SECTORS - 19 - 2;
  directory_dynamic_file_capacity :=
    (VERTEXFS_SECTOR_SIZE * 8 - VERTEXFS_DIRECTORY_ENTRY_OFFSET) / VERTEXFS_DIRECTORY_ENTRY_LEN -
    VERTEXFS_BASE_DIRECTORY_COUNT
|}.

(** * Inodes, files and journal records *)

Record VertexFsInode := mkVertexFsInode {
  in_id : Z;
  in_kind : Z;
  in_size : Z;
  in_first_sector : Z;
  in_sector_count : Z;
  in_checksum : Z;
  in_parent : Z
}.

Record VertexFsBootFile := mkVertexFsBootFile { bf_inode : VertexFsInode; bf_payload : list byte }.

Record VertexFsBootFiles := mkVertexFsBootFiles {
  boot_generation : list byte;
  boot_readme : VertexFsBootFile;
  boot_app_a : VertexFsBootFile;
  journal_replayed : bool
}.

Record VertexFsParsedInodes := mkVertexFsParsedInodes {
  pi_readme : VertexFsInode;
  pi_app_a : VertexFsInode;
  pi_dynamic : list (option VertexFsInode)
}.

Record VertexFsJournalRecord := mkVertexFsJournalRecord {
  jr_target_inode : Z;
  jr_payload : list byte
}.

Inductive VertexFsSyncResult :=
| SyncJournaled (inode_id checksum : Z) (write_count : nat)
| SyncCached (checksum : Z).

(** * Reading slices *)

(** [image.get(start..end)]. *)
Definition get_range (image : list byte) (start end_ : Z) : option (list byte) :=
  if ((start <=? end_) && (end_ <=? Z.of_nat (length image)))%Z
  then Some (take (Z.to_nat (end_ - start)) (drop (Z.to_nat start) image))
  else None.

(** [count] sectors from [first], with the checked products and sum. *)
Definition sector_range {E} (image : list byte) (first count : Z) (e : E) : Result E (list byte) :=
  match checked_mul first (Z.of_nat VERTEXFS_SECTOR_SIZE),
        checked_mul count (Z.of_nat VERTEXFS_SECTOR_SIZE) with
  | Some start, Some len =>
      match checked_add start len with
      | Some end_ => ok_or (get_range image start end_) e
      | None => Err e
      end
  | _, _ => Err e
  end.

(** [vertexfs_sector] and [vertexfs_section]; every rejection is the same error. *)
Definition vertexfs_sector (image : list byte) (sector : Z) : Result InitError (list byte) :=
  sector_range image sector 1 InvalidBootManifest.
Definition vertexfs_section (image : list byte) (first_sector sector_count : Z) :
    Result InitError (list byte) :=
  sector_range image first_sector sector_count InvalidBootManifest.

(** [vertexfs_image_sector] and [vertexfs_image_section]. *)
Definition vertexfs_image_sector (image : list byte) (sector : Z) : Result IpcError (list byte) :=
  sector_range image sector 1 VfsNoSpace.
Definition vertexfs_image_section (image : list byte) (first_sector sector_count : Z) :
    Result IpcError (list byte) :=
  sector_range image first_sector sector_count VfsNoSpace.

(** [read_u32_le] and [write_u32_le]. *)
Definition read_u32_le (source : list byte) (offset : nat) : Z := le_value (take 4 (drop offset source)).
Definition write_u32_le (destination : list byte) (offset : nat) (value : Z) : list byte :=
  write_bytes destination offset (le_bytes 4 value).

(** [vertexfs_magic_matches]. *)
Definition vertexfs_magic_matches (sector magic : list byte) : bool :=
  bytes_eqb (take (length magic) sector) magic.

(** [u8::is_ascii_graphic]. *)
Definition is_ascii_graphic (b : byte) : bool := (33 <=? b)%Z && (b <=? 126)%Z.

(** The first loop of [vertexfs_fixed_string]: the bytes before the first zero,
    [None] when one of them is not printable. *)
Fixpoint fixed_string_len (field : list byte) : option nat :=
  match field with
  | [] => Some 0
  | b :: rest =>
      if (b =? 0)%Z then Some 0
      else if negb (is_ascii_graphic b) && negb (b =? 32)%Z then None
      else S <$> fixed_string_len rest
  end.

(** [vertexfs_fixed_string]. *)
Definition vertexfs_fixed_string (buffer : list byte) (offset max_len : nat) :
    Result InitError (list byte) :=
  if length buffer <? offset + max_len then Err InvalidBootManifest
  else
    let field := take max_len (drop offset buffer) in
    match fixed_string_len field with
    | None => Err InvalidBootManifest
    | Some len =>
        if len =? 0 then Err InvalidBootManifest
        else if forallb (λ b, (b =? 0)%Z) (drop len field) then Ok (take len field)
        else Err InvalidBootManifest
    end.

(** [vertexfs_fixed_string_eq]. *)
Definition vertexfs_fixed_string_eq (buffer : list byte) (offset max_len : nat) (expected : list byte) :
    bool :=
  let field := take max_len (drop offset buffer) in
  negb (bytes_eqb expected [] || (max_len <? length expected) || (length buffer <? offset + max_len)) &&
  bytes_eqb (take (length expected) field) expected &&
  forallb (λ b, (b =? 0)%Z) (drop (length expected) field).

(** [vertexfs_checksum_valid]: the stored checksum counts as zeros. *)
Definition checksum_zeroed (index : nat) (b : byte) : byte :=
  if (VERTEXFS_CHECKSUM_OFFSET <=? index) && (index <? VERTEXFS_CHECKSUM_OFFSET + 4) then 0%Z else b.
Definition vertexfs_checksum_valid (bytes : list byte) : bool :=
  (vertexfs_checksum32 (imap checksum_zeroed bytes) =? read_u32_le bytes VERTEXFS_CHECKSUM_OFFSET)%Z.

(** [write_vertexfs_sector_checksum]. *)
Definition write_vertexfs_sector_checksum (sector : list byte) : list byte :=
  let sector := write_u32_le sector VERTEXFS_CHECKSUM_OFFSET 0 in
  write_u32_le sector VERTEXFS_CHECKSUM_OFFSET (vertexfs_checksum32 sector).

(** [vertexfs_layout_from_superblock] and [vertexfs_layout_for_image]. *)
Definition vertexfs_layout_from_superblock (superblock : list byte) : Result InitError VertexFsLayout :=
  if vertexfs_magic_matches superblock (superblock_magic VERTEXFS_LAYOUT_V2) then Ok VERTEXFS_LAYOUT_V2
  else if vertexfs_magic_matches superblock (superblock_magic VERTEXFS_LAYOUT_V1) then Ok VERTEXFS_LAYOUT_V1
  else Err InvalidBootManifest.

Definition vertexfs_layout_for_image (image : list byte) : Result InitError VertexFsLayout :=
  let? superblock := vertexfs_sector image 0 in
  vertexfs_layout_from_superblock superblock.

(** * Inode table, directory and free map *)

(** [vertexfs_read_inode]. *)
Definition vertexfs_read_inode (sector : list byte) (index : nat) : VertexFsInode :=
  let offset := VERTEXFS_INODE_ENTRY_OFFSET + index * VERTEXFS_INODE_ENTRY_LEN in
  mkVertexFsInode (read_u32_le sector offset) (read_u16_le sector (offset + 4))
    (read_u64_le sector (offset + 8)) (read_u64_le sector (offset + 16))
    (read_u32_le sector (offset + 24)) (read_u32_le sector (offset + 28))
    (read_u32_le sector (offset + 32)).

(** [vertexfs_inode_name_offset], [vertexfs_inode_name_eq],
    [vertexfs_inode_reserved_zero]. *)
Definition vertexfs_inode_name_offset (index : nat) : nat :=
  VERTEXFS_INODE_ENTRY_OFFSET + index * VERTEXFS_INODE_ENTRY_LEN + 36.
Definition vertexfs_inode_name_eq (sector : list byte) (index : nat) (expected : list byte) : bool :=
  vertexfs_fixed_string_eq sector (vertexfs_inode_name_offset index) 28 expected.
Definition vertexfs_inode_reserved_zero (sector : list byte) (index : nat) : bool :=
  (read_u16_le sector (VERTEXFS_INODE_ENTRY_OFFSET + index * VERTEXFS_INODE_ENTRY_LEN + 6) =? 0)%Z.

(** [vertexfs_directory_entry_eq]. *)
Definition vertexfs_directory_entry_eq (sector : list byte) (index : nat) (parent child kind : Z)
    (name : list byte) : bool :=
  let offset := VERTEXFS_DIRECTORY_ENTRY_OFFSET + index * VERTEXFS_DIRECTORY_ENTRY_LEN in
  (read_u32_le sector offset =? parent)%Z && (read_u32_le sector (offset + 4) =? child)%Z &&
  (read_u16_le sector (offset + 8) =? kind)%Z && (read_u16_le sector (offset + 10) =? 0)%Z &&
  vertexfs_fixed_string_eq sector (offset + 12) VERTEXFS_DIRECTORY_NAME_BYTES name.

(** The sectors from [first] up to the checked sum with [count]:
    [vertexfs_inode_covers_sector] and [vertexfs_sector_in_section]. *)
Definition vertexfs_sector_in_section (sector first_sector sector_count : Z) : bool :=
  match checked_add first_sector sector_count with
  | Some end_ => (first_sector <=? sector)%Z && (sector <? end_)%Z
  | None => false
  end.
Definition vertexfs_inode_covers_sector (inode : VertexFsInode) (sector : Z) : bool :=
  vertexfs_sector_in_section sector (in_first_sector inode) (in_sector_count inode).

(** [vertexfs_section_matches]. *)
Definition vertexfs_section_matches (layout : VertexFsLayout) (superblock : list byte) (index : nat)
    (first_sector sector_count : Z) : bool :=
  let offset := section_table_offset layout + index * VERTEXFS_SECTION_RECORD_LEN in
  (read_u64_le superblock offset =? first_sector)%Z &&
  (read_u64_le superblock (offset + 8) =? sector_count)%Z.

(** The header that starts every metadata section. *)
Definition metadata_valid (layout : VertexFsLayout) (sector magic : list byte) : bool :=
  vertexfs_magic_matches sector magic &&
  (read_u16_le sector 16 =? vl_version layout)%Z && vertexfs_checksum_valid sector.

(** A directory inode of [vertexfs_parse_inode_table]. *)
Definition directory_inode_ok (sector : list byte) (index : nat) (id parent : Z) (name : list byte) : bool :=
  let inode := vertexfs_read_inode sector index in
  (in_id inode =? id)%Z && (in_kind inode =? VERTEXFS_KIND_DIR)%Z && (in_size inode =? 0)%Z &&
  (in_first_sector inode =? 0)%Z && (in_sector_count inode =? 0)%Z && (in_checksum inode =? 0)%Z &&
  (in_parent inode =? parent)%Z && vertexfs_inode_reserved_zero sector index &&
  vertexfs_inode_name_eq sector index name.

(** A base file inode of [vertexfs_parse_inode_table]. *)
Definition file_inode_ok (sector : list byte) (index : nat) (id parent : Z) (name : list byte) : bool :=
  let inode := vertexfs_read_inode sector index in
  (in_id inode =? id)%Z && (in_kind inode =? VERTEXFS_KIND_FILE)%Z && (in_parent inode =? parent)%Z &&
  vertexfs_inode_reserved_zero sector index && vertexfs_inode_name_eq sector index name.

(** A dynamic file inode of [vertexfs_parse_inode_table]. *)
Definition dynamic_inode_ok (layout : VertexFsLayout) (sector : list byte) (dynamic_index : nat) : bool :=
  let inode_index := VERTEXFS_BASE_INODE_COUNT + dynamic_index in
  let inode := vertexfs_read_inode sector inode_index in
  (in_id inode =? VERTEXFS_DYNAMIC_INODE_FIRST + Z.of_nat dynamic_index)%Z &&
  (in_kind inode =? VERTEXFS_KIND_FILE)%Z && (in_parent inode =? VERTEXFS_INODE_APP_DIR)%Z &&
  (in_first_sector inode =? data_sector layout + 2 + Z.of_nat dynamic_index)%Z &&
  (in_sector_count inode =? 1)%Z && vertexfs_inode_reserved_zero sector inode_index &&
  is_ok (vertexfs_fixed_string sector (vertexfs_inode_name_offset inode_index) 28).

(** [vertexfs_parse_inode_table]. *)
Definition vertexfs_parse_inode_table (layout : VertexFsLayout) (image : list byte) :
    Result InitError VertexFsParsedInodes :=
  let? sector := vertexfs_section image (inode_table_sector layout) (inode_table_sectors layout) in
  do? res_guard (metadata_valid layout sector (inode_magic layout)) InvalidBootManifest;
  let count := Z.to_nat (read_u16_le sector 18) in
  do? res_guard (negb ((count <? VERTEXFS_BASE_INODE_COUNT) ||
                       (VERTEXFS_BASE_INODE_COUNT + dynamic_file_capacity layout <? count)))
        InvalidBootManifest;
  do? res_guard (directory_inode_ok sector 0 VERTEXFS_INODE_ROOT 0 (string_bytes "/")) InvalidBootManifest;
  do? res_guard (file_inode_ok sector 1 VERTEXFS_INODE_README VERTEXFS_INODE_ROOT (string_bytes "readme"))
        InvalidBootManifest;
  do? res_guard (directory_inode_ok sector 2 VERTEXFS_INODE_APP_DIR VERTEXFS_INODE_ROOT (string_bytes "app"))
        InvalidBootManifest;
  do? res_guard (file_inode_ok sector 3 VERTEXFS_INODE_APP_A VERTEXFS_INODE_APP_DIR (string_bytes "a"))
        InvalidBootManifest;
  let dynamic_count := count - VERTEXFS_BASE_INODE_COUNT in
  do? res_guard (forallb (dynamic_inode_ok layout sector) (seq 0 dynamic_count)) InvalidBootManifest;
  Ok (mkVertexFsParsedInodes (vertexfs_read_inode sector 1) (vertexfs_read_inode sector 3)
        (((λ i, Some (vertexfs_read_inode sector (VERTEXFS_BASE_INODE_COUNT + i))) <$> seq 0 dynamic_count) ++
         replicate (MAX_VERTEXFS_FILES - dynamic_count) None)).

(** The length of the run of present entries, at most [n]. *)
Fixpoint leading_some {A} (l : list (option A)) (n : nat) : nat :=
  match n, l with
  | S n', Some _ :: l' => S (leading_some l' n')
  | _, _ => 0
  end.

(** The last loop of [vertexfs_validate_directory]. *)
Definition dynamic_entry_ok (sector inode_sector : list byte) (dynamic : list (option VertexFsInode))
    (dynamic_index : nat) : bool :=
  match mjoin (dynamic !! dynamic_index),
        vertexfs_fixed_string inode_sector
          (vertexfs_inode_name_offset (VERTEXFS_BASE_INODE_COUNT + dynamic_index)) 28 with
  | Some dynamic_inode, Ok inode_name =>
      vertexfs_directory_entry_eq sector (VERTEXFS_BASE_DIRECTORY_COUNT + dynamic_index)
        VERTEXFS_INODE_APP_DIR (in_id dynamic_inode) VERTEXFS_KIND_FILE inode_name
  | _, _ => false
  end.

(** [vertexfs_validate_directory]. *)
Definition vertexfs_validate_directory (layout : VertexFsLayout) (image : list byte)
    (dynamic : list (option VertexFsInode)) : Result InitError unit :=
  let? sector := vertexfs_section image (directory_sector layout) (directory_sectors layout) in
  do? res_guard (metadata_valid layout sector (directory_magic layout)) InvalidBootManifest;
  let count := Z.to_nat (read_u16_le sector 18) in
  do? res_guard (negb ((count <? VERTEXFS_BASE_DIRECTORY_COUNT) ||
                       (VERTEXFS_BASE_DIRECTORY_COUNT + directory_dynamic_file_capacity layout <? count)))
        InvalidBootManifest;
  let dynamic_count := leading_some dynamic (dynamic_file_capacity layout) in
  do? res_guard (count =? VERTEXFS_BASE_DIRECTORY_COUNT + dynamic_count) InvalidBootManifest;
  do? res_guard
        (vertexfs_directory_entry_eq sector 0 VERTEXFS_INODE_ROOT VERTEXFS_INODE_README VERTEXFS_KIND_FILE
           (string_bytes "readme") &&
         vertexfs_directory_entry_eq sector 1 VERTEXFS_INODE_ROOT VERTEXFS_INODE_APP_DIR VERTEXFS_KIND_DIR
           (string_bytes "app") &&
         vertexfs_directory_entry_eq sector 2 VERTEXFS_INODE_APP_DIR VERTEXFS_INODE_APP_A VERTEXFS_KIND_FILE
           (string_bytes "a")) InvalidBootManifest;
  let? inode_sector := vertexfs_section image (inode_table_sector layout) (inode_table_sectors layout) in
  res_guard (forallb (dynamic_entry_ok sector inode_sector dynamic) (seq 0 dynamic_count))
    InvalidBootManifest.

(** The sectors the free map must mark. *)
Definition sector_expected (layout : VertexFsLayout) (readme app_a : VertexFsInode)
    (dynamic : list (option VertexFsInode)) (sector : Z) : bool :=
  (sector =? 0)%Z ||
  vertexfs_sector_in_section sector (inode_table_sector layout) (inode_table_sectors layout) ||
  vertexfs_sector_in_section sector (directory_sector layout) (directory_sectors layout) ||
  (sector =? free_map_sector layout)%Z || (sector =? journal_sector layout)%Z ||
  vertexfs_inode_covers_sector readme sector || vertexfs_inode_covers_sector app_a sector ||
  existsb (λ o, match o with Some inode => vertexfs_inode_covers_sector inode sector | None => false end)
    (take (dynamic_file_capacity layout) dynamic).

(** One round of the loop of [vertexfs_validate_free_map]. *)
Definition free_map_entry_ok (layout : VertexFsLayout) (sector : list byte) (readme app_a : VertexFsInode)
    (dynamic : list (option VertexFsInode)) (index : nat) : bool :=
  let allocated := default 0%Z (sector !! (32 + index)) in
  ((allocated =? 0)%Z || (allocated =? 1)%Z) &&
  Bool.eqb (allocated =? 1)%Z (sector_expected layout readme app_a dynamic (Z.of_nat index)).

(** [vertexfs_validate_free_map]. *)
Definition vertexfs_validate_free_map (layout : VertexFsLayout) (image : list byte)
    (readme app_a : VertexFsInode) (dynamic : list (option VertexFsInode)) : Result InitError unit :=
  let? sector := vertexfs_sector image (free_map_sector layout) in
  do? res_guard (metadata_valid layout sector (free_map_magic layout)) InvalidBootManifest;
  do? res_guard (read_u16_le sector 18 =? Z.of_nat VERTEXFS_SECTORS)%Z InvalidBootManifest;
  res_guard (forallb (free_map_entry_ok layout sector readme app_a dynamic) (seq 0 VERTEXFS_SECTORS))
    InvalidBootManifest.

(** * File data and journal *)

(** [vertexfs_file_extent_payload]: the data with its first sector and the end
    of its extent. *)
Definition vertexfs_file_extent_payload (image : list byte) (inode : VertexFsInode) :
    Result InitError (list byte * Z * Z) :=
  do? res_guard (negb (in_sector_count inode =? 0)%Z) InvalidBootManifest;
  let? end_sector := ok_or (checked_add (in_first_sector inode) (in_sector_count inode)) InvalidBootManifest in
  let? layout := vertexfs_layout_for_image image in
  do? res_guard (negb ((in_first_sector inode <? data_sector layout)%Z ||
                       (data_sector layout + data_sectors layout <? end_sector)%Z)) InvalidBootManifest;
  let max_len := (in_sector_count inode * Z.of_nat VERTEXFS_SECTOR_SIZE)%Z in
  do? res_guard (negb ((max_len <? in_size inode)%Z || (Z.of_nat MAX_VERTEXFS_FILE_BYTES <? in_size inode)%Z))
        InvalidBootManifest;
  let? start := ok_or (checked_mul (in_first_sector inode) (Z.of_nat VERTEXFS_SECTOR_SIZE)) InvalidBootManifest in
  let? end_ := ok_or (checked_add start (in_size inode)) InvalidBootManifest in
  let? data := ok_or (get_range image start end_) InvalidBootManifest in
  Ok (data, in_first_sector inode, end_sector).

(** [vertexfs_file_payload]. *)
Definition vertexfs_file_payload (image : list byte) (inode : VertexFsInode) :
    Result InitError (list byte * Z * Z) :=
  let? extent := vertexfs_file_extent_payload image inode in
  let '(data, first_sector, end_sector) := extent in
  do? res_guard (vertexfs_checksum32 data =? in_checksum inode)%Z InvalidBootManifest;
  Ok (data, first_sector, end_sector).

(** [vertexfs_extent_starts_with]. *)
Definition vertexfs_extent_starts_with (image : list byte) (inode : VertexFsInode) (payload : list byte) :
    bool :=
  match checked_mul (in_first_sector inode) (Z.of_nat VERTEXFS_SECTOR_SIZE) with
  | None => false
  | Some start =>
      match checked_add start (Z.of_nat (length payload)) with
      | None => false
      | Some end_ => match get_range image start end_ with
                     | Some stored => bytes_eqb stored payload
                     | None => false
                     end
      end
  end.

(** [vertexfs_recoverable_file_payload]. *)
Definition vertexfs_recoverable_file_payload (image : list byte) (inode : VertexFsInode)
    (journal : option VertexFsJournalRecord) : Result InitError (list byte * Z * Z) :=
  let? extent := vertexfs_file_extent_payload image inode in
  let '(data, first_sector, end_sector) := extent in
  if (vertexfs_checksum32 data =? in_checksum inode)%Z then Ok (data, first_sector, end_sector)
  else
    match journal with
    | Some record =>
        if (jr_target_inode record =? in_id inode)%Z &&
           vertexfs_extent_starts_with image inode (jr_payload record)
        then Ok (jr_payload record, first_sector, end_sector)
        else Err InvalidBootManifest
    | None => Err InvalidBootManifest
    end.

(** [vertexfs_parse_journal]. *)
Definition vertexfs_parse_journal (layout : VertexFsLayout) (image : list byte) :
    Result InitError (option VertexFsJournalRecord) :=
  let? sector := vertexfs_sector image (journal_sector layout) in
  do? res_guard (metadata_valid layout sector (journal_magic layout)) InvalidBootManifest;
  let state := read_u16_le sector 18 in
  if (state =? VERTEXFS_JOURNAL_STATE_CLEAN)%Z then Ok None
  else
    do? res_guard (state =? VERTEXFS_JOURNAL_STATE_PENDING)%Z InvalidBootManifest;
    let target_inode := read_u32_le sector 24 in
    let payload_len := read_u32_le sector 28 in
    let payload_checksum := read_u32_le sector 32 in
    do? res_guard
          (negb (bool_decide (vl_format layout = FormatV2)) ||
           ((read_u32_le sector 48 =? target_inode)%Z && (read_u32_le sector 52 =? payload_len)%Z &&
            (read_u32_le sector 56 =? payload_checksum)%Z && negb (read_u64_le sector 40 =? 0)%Z))
          InvalidBootManifest;
    let offset := Z.of_nat VERTEXFS_JOURNAL_PAYLOAD_OFFSET in
    let? end_ := ok_or (checked_add offset payload_len) InvalidBootManifest in
    let? payload := ok_or (get_range sector offset end_) InvalidBootManifest in
    do? res_guard (vertexfs_checksum32 payload =? payload_checksum)%Z InvalidBootManifest;
    Ok (Some (mkVertexFsJournalRecord target_inode payload)).

(** [vertexfs_replay_journal]. *)
Definition vertexfs_replay_journal (app_a_inode : VertexFsInode) (base_app_a : list byte)
    (journal : option VertexFsJournalRecord) : Result InitError (list byte * bool) :=
  match journal with
  | None => Ok (base_app_a, false)
  | Some record =>
      do? res_guard ((jr_target_inode record =? VERTEXFS_INODE_APP_A)%Z &&
                     (in_id app_a_inode =? VERTEXFS_INODE_APP_A)%Z) InvalidBootManifest;
      do? res_guard (length (jr_payload record) <=? MAX_VERTEXFS_FILE_BYTES) InvalidBootManifest;
      do? res_guard (Z.of_nat (length (jr_payload record)) <=?
                     in_sector_count app_a_inode * Z.of_nat VERTEXFS_SECTOR_SIZE)%Z InvalidBootManifest;
      Ok (jr_payload record, true)
  end.

(** * The parser *)

(** The superblock checks of [parse_vertexfs_image]. *)
Definition superblock_ok (layout : VertexFsLayout) (superblock : list byte) : bool :=
  (negb (bool_decide (vl_format layout = FormatV2)) ||
   is_ok (vertexfs_fixed_string superblock VERTEXFS_V2_VOLUME_OFFSET 64)) &&
  vertexfs_magic_matches superblock (superblock_magic layout) &&
  (read_u16_le superblock 16 =? vl_version layout)%Z &&
  (read_u16_le superblock 18 =? Z.of_nat VERTEXFS_SECTOR_SIZE)%Z &&
  vertexfs_checksum_valid superblock &&
  (read_u32_le superblock 24 =? Z.of_nat VERTEXFS_SECTORS)%Z &&
  (read_u32_le superblock 28 =? feature_flags layout)%Z &&
  vertexfs_section_matches layout superblock 0 (inode_table_sector layout) (inode_table_sectors layout) &&
  vertexfs_section_matches layout superblock 1 (directory_sector layout) (directory_sectors layout) &&
  vertexfs_section_matches layout superblock 2 (free_map_sector layout) 1 &&
  vertexfs_section_matches layout superblock 3 (journal_sector layout) 1 &&
  vertexfs_section_matches layout superblock 4 (data_sector layout) (data_sectors layout).

Definition extents_overlap (first end_ first' end_' : Z) : bool := (first <? end_')%Z && (first' <? end_)%Z.

(** The loop over the dynamic files of [parse_vertexfs_image], with the extents
    seen so far. *)
Fixpoint dynamic_extents_ok (image : list byte) (seen : list (Z * Z)) (dynamic : list (option VertexFsInode)) :
    Result InitError unit :=
  match dynamic with
  | [] => Ok tt
  | None :: rest => dynamic_extents_ok image seen rest
  | Some inode :: rest =>
      let? extent := vertexfs_file_payload image inode in
      let '(_, first, end_) := extent in
      do? res_guard (negb (existsb (λ '(first', end_'), extents_overlap first end_ first' end_') seen))
            InvalidBootManifest;
      dynamic_extents_ok image (seen ++ [(first, end_)]) rest
  end.

(** [parse_vertexfs_image]. *)
Definition parse_vertexfs_image (image : list byte) : Result InitError VertexFsBootFiles :=
  let? superblock := vertexfs_sector image 0 in
  let? layout := vertexfs_layout_from_superblock superblock in
  do? res_guard (superblock_ok layout superblock) InvalidBootManifest;
  let? generation := vertexfs_fixed_string superblock (generation_offset layout) 64 in
  let? journal := vertexfs_parse_journal layout image in
  let? inodes := vertexfs_parse_inode_table layout image in
  do? vertexfs_validate_directory layout image (pi_dynamic inodes);
  let? readme_extent := vertexfs_file_payload image (pi_readme inodes) in
  let '(readme, readme_first, readme_end) := readme_extent in
  let? app_a_extent := vertexfs_recoverable_file_payload image (pi_app_a inodes) journal in
  let '(base_app_a, app_a_first, app_a_end) := app_a_extent in
  do? res_guard (negb (extents_overlap readme_first readme_end app_a_first app_a_end)) InvalidBootManifest;
  do? dynamic_extents_ok image [(readme_first, readme_end); (app_a_first, app_a_end)]
        (take (dynamic_file_capacity layout) (pi_dynamic inodes));
  do? vertexfs_validate_free_map layout image (pi_readme inodes) (pi_app_a inodes) (pi_dynamic inodes);
  let? replay := vertexfs_replay_journal (pi_app_a inodes) base_app_a journal in
  let '(app_a, replayed) := replay in
  Ok (mkVertexFsBootFiles generation (mkVertexFsBootFile (pi_readme inodes) readme)
        (mkVertexFsBootFile (pi_app_a inodes) app_a) replayed).

(** * Queries on the image *)

Definition layout_of_image (image : list byte) : Result IpcError VertexFsLayout :=
  map_err (λ _, VfsUnsupported) (vertexfs_layout_for_image image).

(** [vertexfs_inode_table_section], [vertexfs_directory_section],
    [vertexfs_free_map_sector], [vertexfs_journal_sector]. *)
Definition vertexfs_inode_table_section (image : list byte) : Result IpcError (Z * Z) :=
  let? layout := layout_of_image image in
  Ok (inode_table_sector layout, inode_table_sectors layout).
Definition vertexfs_directory_section (image : list byte) : Result IpcError (Z * Z) :=
  let? layout := layout_of_image image in
  Ok (directory_sector layout, directory_sectors layout).
Definition vertexfs_free_map_sector (image : list byte) : Result IpcError Z :=
  let? layout := layout_of_image image in Ok (free_map_sector layout).
Definition vertexfs_journal_sector (image : list byte) : Result IpcError Z :=
  let? layout := layout_of_image image in Ok (journal_sector layout).

(** [vertexfs_dynamic_inode_at], [vertexfs_dynamic_data_sector_at]. *)
Definition vertexfs_dynamic_inode_at (image : list byte) (index : nat) : Result IpcError Z :=
  let? layout := layout_of_image image in
  do? res_guard (index <? dynamic_file_capacity layout) VfsUnsupported;
  Ok (VERTEXFS_DYNAMIC_INODE_FIRST + Z.of_nat index)%Z.
Definition vertexfs_dynamic_data_sector_at (image : list byte) (index : nat) : Result IpcError Z :=
  let? layout := layout_of_image image in
  do? res_guard (index <? dynamic_file_capacity layout) VfsUnsupported;
  Ok (data_sector layout + 2 + Z.of_nat index)%Z.

(** [vertexfs_inode_offset], [vertexfs_directory_offset]. *)
Definition vertexfs_inode_offset (layout : VertexFsLayout) (index : nat) : Result IpcError nat :=
  let offset := VERTEXFS_INODE_ENTRY_OFFSET + index * VERTEXFS_INODE_ENTRY_LEN in
  do? res_guard (offset + VERTEXFS_INODE_ENTRY_LEN <=? inode_table_bytes layout) VfsUnsupported;
  Ok offset.
Definition vertexfs_directory_offset (layout : VertexFsLayout) (index : nat) : Result IpcError nat :=
  let offset := VERTEXFS_DIRECTORY_ENTRY_OFFSET + index * VERTEXFS_DIRECTORY_ENTRY_LEN in
  do? res_guard (offset + VERTEXFS_DIRECTORY_ENTRY_LEN <=? directory_bytes layout) VfsUnsupported;
  Ok offset.

(** The loop of [vertexfs_inode_offset_by_id], from [index] with [fuel] entries
    left. *)
Fixpoint inode_scan (layout : VertexFsLayout) (sector : list byte) (inode_id : Z) (index fuel : nat) :
    Result IpcError (option nat) :=
  match fuel with
  | 0 => Ok None
  | S fuel' =>
      let? offset := vertexfs_inode_offset layout index in
      if (read_u32_le sector offset =? inode_id)%Z then Ok (Some offset)
      else inode_scan layout sector inode_id (S index) fuel'
  end.

(** [vertexfs_inode_offset_by_id]. *)
Definition vertexfs_inode_offset_by_id (layout : VertexFsLayout) (sector : list byte) (inode_id : Z) :
    Result IpcError nat :=
  let? found := inode_scan layout sector inode_id 0 (Z.to_nat (read_u16_le sector 18)) in
  ok_or found VfsUnsupported.

(** [vertexfs_image_has_inode]. *)
Definition vertexfs_image_has_inode (image : list byte) (inode_id : Z) : Result IpcError bool :=
  let? layout := layout_of_image image in
  let? sector := vertexfs_image_section image (inode_table_sector layout) (inode_table_sectors layout) in
  let? found := inode_scan layout sector inode_id 0 (Z.to_nat (read_u16_le sector 18)) in
  Ok (bool_decide (is_Some found)).

(** [vertexfs_dynamic_index_for_inode]. *)
Definition vertexfs_dynamic_index_for_inode (layout : VertexFsLayout) (inode_id : Z) : Result IpcError nat :=
  do? res_guard (VERTEXFS_DYNAMIC_INODE_FIRST <=? inode_id)%Z VfsUnsupported;
  let index := Z.to_nat (inode_id - VERTEXFS_DYNAMIC_INODE_FIRST) in
  do? res_guard (index <? dynamic_file_capacity layout) VfsUnsupported;
  Ok index.

(** * Writers *)

(** A change of the bytes of [count] sectors from [first], in place:
    [vertexfs_image_sector_mut] and [vertexfs_image_section_mut]. *)
Definition on_sectors {A} (first count : Z) (f : M (list byte) IpcError A) : M (list byte) IpcError A :=
  λ image,
    match sector_range image first count VfsNoSpace with
    | Err e => (Err e, image)
    | Ok bytes =>
        let '(r, bytes') := f bytes in
        let start := Z.to_nat first * VERTEXFS_SECTOR_SIZE in
        (r, take start image ++ bytes' ++ drop (start + length bytes) image)
    end.

(** The header of a journal sector, over zeros. *)
Definition journal_header (layout : VertexFsLayout) (size : nat) (state : Z) : list byte :=
  let sector := write_bytes (replicate size 0%Z) 0 (journal_magic layout) in
  let sector := write_u16_le sector 16 (vl_version layout) in
  write_u16_le sector 18 state.

(** The journal sector of [write_vertexfs_journal_pending]. *)
Definition journal_pending_sector (layout : VertexFsLayout) (size : nat) (inode_id : Z) (payload : list byte) :
    list byte :=
  let len := Z.of_nat (length payload) in
  let sector := journal_header layout size VERTEXFS_JOURNAL_STATE_PENDING in
  let sector := write_u32_le sector 24 inode_id in
  let sector := write_u32_le sector 28 len in
  let sector := write_u32_le sector 32 (vertexfs_checksum32 payload) in
  let sector :=
    if bool_decide (vl_format layout = FormatV2) then
      let sector := write_u64_le sector 40 1 in
      let sector := write_u32_le sector 48 inode_id in
      let sector := write_u32_le sector 52 len in
      write_u32_le sector 56 (vertexfs_checksum32 payload)
    else sector in
  let sector := write_bytes sector VERTEXFS_JOURNAL_PAYLOAD_OFFSET payload in
  write_vertexfs_sector_checksum sector.

(** [write_vertexfs_journal_pending]; the callers keep the payload within the
    sector. *)
Definition write_vertexfs_journal_pending (inode_id : Z) (payload : list byte) : M (list byte) IpcError unit :=
  let! image := rget in
  let! layout := rlift (layout_of_image image) in
  on_sectors (journal_sector layout) 1
    (rmodify (λ sector, journal_pending_sector layout (length sector) inode_id payload)).

(** [write_vertexfs_journal_clean]. *)
Definition write_vertexfs_journal_clean : M (list byte) IpcError unit :=
  let! image := rget in
  let! layout := rlift (layout_of_image image) in
  on_sectors (journal_sector layout) 1 (rmodify (λ sector,
    write_vertexfs_sector_checksum (journal_header layout (length sector) VERTEXFS_JOURNAL_STATE_CLEAN))).

(** [write_vertexfs_file_extent]; the product with the sector size is a [u32]. *)
Definition write_vertexfs_file_extent (file : VfsVertexFsFile) : M (list byte) IpcError unit :=
  do! rguard (vf_sector_count file * Z.of_nat VERTEXFS_SECTOR_SIZE <=? u32_max)%Z VfsNoSpace;
  on_sectors (vf_first_sector file) (vf_sector_count file) (rmodify (λ extent,
    write_bytes (replicate (length extent) 0%Z) 0 (take (vf_len file) (vf_bytes file)))).

(** [write_vertexfs_inode_record]. *)
Definition write_vertexfs_inode_record (file : VfsVertexFsFile) (checksum : Z) : M (list byte) IpcError unit :=
  let! image := rget in
  let! layout := rlift (layout_of_image image) in
  on_sectors (inode_table_sector layout) (inode_table_sectors layout)
    (let! sector := rget in
     let! offset := rlift (vertexfs_inode_offset_by_id layout sector (vf_inode_id file)) in
     do! rmodify (λ s, write_u64_le s (offset + 8) (Z.of_nat (vf_len file)));
     do! rmodify (λ s, write_u32_le s (offset + 28) checksum);
     rmodify write_vertexfs_sector_checksum).

(** [write_vertexfs_fixed_vfs_name]. *)
Definition write_vertexfs_fixed_vfs_name (offset max_len : nat) (name : VfsName) : M (list byte) IpcError unit :=
  let! sector := rget in
  do! rguard (negb ((name_len name =? 0) || (max_len <? name_len name) || (length sector <? offset + max_len)))
        VfsUnsupported;
  rmodify (λ s, write_bytes (write_bytes s offset (replicate max_len 0%Z)) offset (name_as_bytes name)).

(** The inode entry of [write_vertexfs_dynamic_metadata]. *)
Definition write_dynamic_inode (layout : VertexFsLayout) (dynamic_index : nat) (file : VfsVertexFsFile)
    (checksum : Z) : M (list byte) IpcError unit :=
  let expected := VERTEXFS_BASE_INODE_COUNT + dynamic_index in
  let! sector := rget in
  do! rguard (read_u16_le sector 18 =? Z.of_nat expected)%Z VfsUnsupported;
  do! rmodify (λ s, write_u16_le s 18 (Z.of_nat (expected + 1)));
  let! offset := rlift (vertexfs_inode_offset layout (VERTEXFS_BASE_INODE_COUNT + dynamic_index)) in
  do! rmodify (λ s, write_u32_le s offset (vf_inode_id file));
  do! rmodify (λ s, write_u16_le s (offset + 4) VERTEXFS_KIND_FILE);
  do! rmodify (λ s, write_u16_le s (offset + 6) 0);
  do! rmodify (λ s, write_u64_le s (offset + 8) (Z.of_nat (vf_len file)));
  do! rmodify (λ s, write_u64_le s (offset + 16) (vf_first_sector file));
  do! rmodify (λ s, write_u32_le s (offset + 24) (vf_sector_count file));
  do! rmodify (λ s, write_u32_le s (offset + 28) checksum);
  do! rmodify (λ s, write_u32_le s (offset + 32) (vf_parent_inode_id file));
  do! write_vertexfs_fixed_vfs_name (offset + 36) 28 (vf_vfs_name file);
  rmodify write_vertexfs_sector_checksum.

(** Its directory entry. *)
Definition write_dynamic_entry (layout : VertexFsLayout) (dynamic_index : nat) (file : VfsVertexFsFile) :
    M (list byte) IpcError unit :=
  let expected := VERTEXFS_BASE_DIRECTORY_COUNT + dynamic_index in
  let! sector := rget in
  do! rguard (read_u16_le sector 18 =? Z.of_nat expected)%Z VfsUnsupported;
  do! rmodify (λ s, write_u16_le s 18 (Z.of_nat (expected + 1)));
  let! offset := rlift (vertexfs_directory_offset layout (VERTEXFS_BASE_DIRECTORY_COUNT + dynamic_index)) in
  do! rmodify (λ s, write_u32_le s offset (vf_parent_inode_id file));
  do! rmodify (λ s, write_u32_le s (offset + 4) (vf_inode_id file));
  do! rmodify (λ s, write_u16_le s (offset + 8) VERTEXFS_KIND_FILE);
  do! rmodify (λ s, write_u16_le s (offset + 10) 0);
  do! write_vertexfs_fixed_vfs_name (offset + 12) VERTEXFS_DIRECTORY_NAME_BYTES (vf_vfs_name file);
  rmodify write_vertexfs_sector_checksum.

(** Its mark in the free map. *)
Definition mark_allocated (sector_index : Z) : M (list byte) IpcError unit :=
  let! sector := rget in
  let! byte := rlift (ok_or (sector !! (32 + Z.to_nat sector_index)) VfsUnsupported) in
  do! rguard (byte =? 0)%Z VfsNoSpace;
  do! rmodify (λ s, <[32 + Z.to_nat sector_index := 1%Z]> s);
  rmodify write_vertexfs_sector_checksum.

(** [write_vertexfs_dynamic_metadata]. *)
Definition write_vertexfs_dynamic_metadata (file : VfsVertexFsFile) (checksum : Z) : M (list byte) IpcError unit :=
  let! image := rget in
  let! layout := rlift (layout_of_image image) in
  let! dynamic_index := rlift (vertexfs_dynamic_index_for_inode layout (vf_inode_id file)) in
  do! rguard (vf_parent_inode_id file =? VERTEXFS_INODE_APP_DIR)%Z VfsUnsupported;
  let! expected_sector := rlift (vertexfs_dynamic_data_sector_at image dynamic_index) in
  do! rguard ((vf_first_sector file =? expected_sector)%Z && (vf_sector_count file =? 1)%Z) VfsUnsupported;
  do! on_sectors (inode_table_sector layout) (inode_table_sectors layout)
        (write_dynamic_inode layout dynamic_index file checksum);
  do! on_sectors (directory_sector layout) (directory_sectors layout)
        (write_dynamic_entry layout dynamic_index file);
  on_sectors (free_map_sector layout) 1 (mark_allocated (vf_first_sector file)).

(** * Committing a file *)

Definition on_image {A} (c : M (list byte) IpcError A) : M VfsState IpcError A := λ v,
  let '(r, image) := c (vertexfs_image v) in (r, v <| vertexfs_image := image |>).

(** [record_vertexfs_sync_sector]. *)
Definition record_vertexfs_sync_sector (sector : Z) : M VfsState IpcError unit :=
  let! v := rget in
  do! rguard (negb (vertexfs_sync_write_count v =? length (vertexfs_sync_writes v))) VfsNoSpace;
  let! bytes := rlift (vertexfs_image_sector (vertexfs_image v) sector) in
  rmodify (λ v, v <| vertexfs_sync_writes ::=
                      <[vertexfs_sync_write_count v := mkVertexFsDeviceWrite sector bytes]> |>
                  <| vertexfs_sync_write_count ::= S |>).

(** [record_vertexfs_sync_section], and the loop over the data sectors. *)
Fixpoint record_vertexfs_sync_section (first_sector : Z) (sector_count : nat) : M VfsState IpcError unit :=
  match sector_count with
  | 0 => rret tt
  | S n =>
      do! record_vertexfs_sync_sector first_sector;
      record_vertexfs_sync_section (first_sector + 1) n
  end.

(** [commit_vertexfs_file_to_image]. *)
Definition commit_vertexfs_file_to_image (file : VfsVertexFsFile) (checksum : Z) : M VfsState IpcError nat :=
  let extent_len := (vf_sector_count file * Z.of_nat VERTEXFS_SECTOR_SIZE)%Z in
  do! rguard (extent_len <=? u32_max)%Z VfsNoSpace;
  do! rguard (negb ((extent_len <? Z.of_nat (vf_len file))%Z ||
                    (VERTEXFS_SECTOR_SIZE - VERTEXFS_JOURNAL_PAYLOAD_OFFSET <? vf_len file))) VfsNoSpace;
  do! rmodify (λ v, v <| vertexfs_sync_write_count := 0 |>);
  let! v := rget in
  let! journal_sector := rlift (vertexfs_journal_sector (vertexfs_image v)) in
  do! on_image (write_vertexfs_journal_pending (vf_inode_id file) (take (vf_len file) (vf_bytes file)));
  do! record_vertexfs_sync_sector journal_sector;
  do! on_image (write_vertexfs_file_extent file);
  do! record_vertexfs_sync_section (vf_first_sector file) (Z.to_nat (vf_sector_count file));
  let! v := rget in
  let! known := rlift (vertexfs_image_has_inode (vertexfs_image v) (vf_inode_id file)) in
  let! inode_section := rlift (vertexfs_inode_table_section (vertexfs_image v)) in
  do! (if known : bool then
         do! on_image (write_vertexfs_inode_record file checksum);
         record_vertexfs_sync_section inode_section.1 (Z.to_nat inode_section.2)
       else
         let! directory_section := rlift (vertexfs_directory_section (vertexfs_image v)) in
         let! free_map_sector := rlift (vertexfs_free_map_sector (vertexfs_image v)) in
         do! on_image (write_vertexfs_dynamic_metadata file checksum);
         do! record_vertexfs_sync_section inode_section.1 (Z.to_nat inode_section.2);
         do! record_vertexfs_sync_section directory_section.1 (Z.to_nat directory_section.2);
         record_vertexfs_sync_sector free_map_sector);
  do! on_image write_vertexfs_journal_clean;
  do! record_vertexfs_sync_sector journal_sector;
  let! v := rget in
  let! _ := rlift (map_err (λ _, VfsUnsupported) (parse_vertexfs_image (vertexfs_image v))) in
  rret (vertexfs_sync_write_count v).

(** [prepare_vertexfs_sync_file]. *)
Definition prepare_vertexfs_sync_file (backing : nat) : M VfsState IpcError VertexFsSyncResult :=
  let! v := rget in
  do! rguard (backing <? vertexfs_file_count v) VfsBadHandle;
  do! begin_vertexfs_page_cache_writeback backing;
  let! file := rgets (λ v, vertexfs_file v backing) in
  let checksum := vertexfs_checksum32 (take (vf_len file) (vf_bytes file)) in
  if (vf_inode_id file =? 0)%Z then
    do! finish_vertexfs_sync_file backing checksum;
    rret (SyncCached checksum)
  else if negb (vertexfs_image_loaded v) then
    do! rmodify (record_vertexfs_page_cache_writeback_error backing);
    rfail VfsUnsupported
  else λ v,
    match commit_vertexfs_file_to_image file checksum v with
    | (Ok write_count, v') => (Ok (SyncJournaled (vf_inode_id file) checksum write_count), v')
    | (Err e, v') => (Err e, record_vertexfs_page_cache_writeback_error backing v')
    end.

(** * Files of the image *)

(** [VfsVertexFsFile::new]. *)
Definition vertexfs_file_new (name : string) (initial : list byte) (inode : option VertexFsInode) :
    Result InitError VfsVertexFsFile :=
  do? res_guard (length initial <=? MAX_VERTEXFS_FILE_BYTES) InvalidBootManifest;
  let? vfs_name := name_from_static name in
  let file := vertexfs_file_empty <| vf_name := name |> <| vf_vfs_name := vfs_name |> in
  let file := match inode with
              | Some inode =>
                  file <| vf_inode_id := in_id inode |> <| vf_parent_inode_id := in_parent inode |>
                       <| vf_first_sector := in_first_sector inode |>
                       <| vf_sector_count := in_sector_count inode |>
              | None => file
              end in
  Ok (file <| vf_bytes := write_bytes (vf_bytes file) 0 initial |> <| vf_len := length initial |>
           <| vf_checksum := vertexfs_checksum32 initial |>).

(** [RuntimeState::add_vertexfs_file]. *)
Definition add_vertexfs_file (name : string) (initial : list byte) (inode : option VertexFsInode) :
    M VfsState InitError nat :=
  let! v := rget in
  do! rguard (negb (vertexfs_file_count v =? length (vertexfs_files v))) ObjectTableFull;
  let index := vertexfs_file_count v in
  let! file := rlift (vertexfs_file_new name initial inode) in
  do! rmodify (λ v, v <| vertexfs_files ::= <[index := file]> |> <| vertexfs_file_count ::= S |>);
  rret index.

(** [RuntimeState::vertexfs_dynamic_inode_in_use]. *)
Definition vertexfs_dynamic_inode_in_use (v : VfsState) (inode_id : Z) : bool :=
  existsb (λ f, (vf_inode_id f =? inode_id)%Z) (take (vertexfs_file_count v) (vertexfs_files v)).

(** The search of [add_empty_vertexfs_file] for an inode, from [index]. *)
Fixpoint free_dynamic_inode (v : VfsState) (index fuel : nat) : Result IpcError (option (Z * Z)) :=
  match fuel with
  | 0 => Ok None
  | S fuel' =>
      match vertexfs_dynamic_inode_at (vertexfs_image v) index with
      | Err _ => Ok None
      | Ok candidate =>
          if vertexfs_dynamic_inode_in_use v candidate then free_dynamic_inode v (S index) fuel'
          else
            let? stored := vertexfs_image_has_inode (vertexfs_image v) candidate in
            if stored : bool then free_dynamic_inode v (S index) fuel'
            else
              let? first_sector := vertexfs_dynamic_data_sector_at (vertexfs_image v) index in
              Ok (Some (candidate, first_sector))
      end
  end.

(** [RuntimeState::add_empty_vertexfs_file]. *)
Definition add_empty_vertexfs_file (name : VfsName) (parent_inode_id : Z) : M VfsState IpcError nat :=
  do! rguard (negb ((28 <? name_len name) || negb (parent_inode_id =? VERTEXFS_INODE_APP_DIR)%Z)) VfsUnsupported;
  let! v := rget in
  do! rguard (vertexfs_image_loaded v) VfsUnsupported;
  let! found := rlift (free_dynamic_inode v 0 MAX_VERTEXFS_FILES) in
  let! free := rlift (ok_or found VfsNoSpace) in
  let! index := rlift (ok_or (list_find (λ i, vertexfs_file_in_use v i = false)
                                (seq 0 (length (vertexfs_files v)))) VfsNoSpace) in
  let index := index.2 in
  do! rmodify (λ v,
    (invalidate_vertexfs_page_cache v index)
      <| vertexfs_files ::= <[index := vertexfs_file_empty <| vf_vfs_name := name |>
           <| vf_inode_id := free.1 |> <| vf_parent_inode_id := parent_inode_id |>
           <| vf_first_sector := free.2 |> <| vf_sector_count := 1%Z |>]> |>
      <| vertexfs_file_count ::= λ n, if n <=? index then S index else n |>);
  rret index.
