(* ===== verification/VertexFsProofs.v ===== *)
(** VertexFS survives a crash at any point of the synchronisation of its
    journaled file: whatever prefix of the sector writes reached the disk, the
    image parses and the file has its old or its new contents. *)

From S2P Require Import Prelude KernelBase Transport VfsPath KernelObjects ProcessRuntime.
From S2P Require Import CapRegistry VfsState VfsWire Runtime Kernel PageCache PageCacheProofs VertexFs.

(** * Slices of byte strings *)

Definition slice (l : list byte) (off n : nat) : list byte := take n (drop off l).

Lemma length_slice l off n : off + n ≤ length l → length (slice l off n) = n.
Proof. intros. unfold slice. rewrite length_take, length_drop. lia. Qed.

Lemma lookup_slice l off n i : i < n → slice l off n !! i = l !! (off + i).
Proof. intros. unfold slice. rewrite lookup_take_lt by done. apply lookup_drop. Qed.

Lemma lookup_write_bytes l s src i :
  s + length src ≤ length l →
  write_bytes l s src !! i =
  if decide (s ≤ i < s + length src) then src !! (i - s) else l !! i.
Proof.
  intros Hl. rewrite write_bytes_splice by done. case_decide as Hd.
  - rewrite lookup_app_r by (rewrite length_take; lia). rewrite length_take, Nat.min_l by lia.
    by rewrite lookup_app_l by lia.
  - destruct (decide (i < s)) as [Hlt|Hge].
    + rewrite lookup_app_l by (rewrite length_take; lia). by rewrite lookup_take_lt.
    + rewrite lookup_app_r by (rewrite length_take; lia). rewrite length_take, Nat.min_l by lia.
      rewrite lookup_app_r by lia. rewrite lookup_drop. f_equal. lia.
Qed.

(** Two byte strings of one length that agree on a set of positions. *)
Record agree (P : nat → Prop) (l l' : list byte) : Prop := mk_agree {
  ag_length : length l' = length l;
  ag_bytes i : P i → l' !! i = l !! i
}.

Lemma agree_slice P l l' off n :
  agree P l l' → (∀ i, off ≤ i < off + n → P i) → slice l' off n = slice l off n.
Proof.
  intros [Hl Hb] HP. apply list_eq. intros i. destruct (decide (i < n)) as [Hi|Hi].
  - rewrite !lookup_slice by done. apply Hb, HP. lia.
  - rewrite !lookup_ge_None_2; [done|..]; unfold slice; rewrite length_take; lia.
Qed.

Lemma agree_trans P l1 l2 l3 : agree P l1 l2 → agree P l2 l3 → agree P l1 l3.
Proof. intros [L1 B1] [L2 B2]. split; [congruence|]. intros i Hi. rewrite B2, B1 by done. done. Qed.

Lemma agree_sub (P Q : nat → Prop) l l' : (∀ i, Q i → P i) → agree P l l' → agree Q l l'.
Proof. intros HP [L B]. split; [done|auto]. Qed.

Lemma agree_write l s src :
  s + length src ≤ length l → agree (λ i, ¬ (s ≤ i < s + length src)) l (write_bytes l s src).
Proof.
  intros Hl. split; [apply length_write_bytes|]. intros i Hi. rewrite lookup_write_bytes by done.
  by rewrite decide_False.
Qed.

Lemma slice_write_other l s src off n :
  s + length src ≤ length l → off + n ≤ s ∨ s + length src ≤ off →
  slice (write_bytes l s src) off n = slice l off n.
Proof. intros Hl Hd. eapply agree_slice; [by apply agree_write|]. cbn. lia. Qed.

Lemma slice_write_within l s src off n :
  s + length src ≤ length l → s ≤ off → off + n ≤ s + length src →
  slice (write_bytes l s src) off n = slice src (off - s) n.
Proof.
  intros Hl H1 H2. apply list_eq. intros i. destruct (decide (i < n)) as [Hi|Hi].
  - rewrite !lookup_slice, lookup_write_bytes by done. rewrite decide_True by lia. f_equal. lia.
  - rewrite !lookup_ge_None_2; [done|..]; unfold slice; rewrite length_take; lia.
Qed.

Lemma slice_all l n : length l = n → slice l 0 n = l.
Proof. intros <-. unfold slice. by rewrite drop_0, firstn_all. Qed.

Lemma slice_write_same l s src n :
  s + length src ≤ length l → n = length src → slice (write_bytes l s src) s n = src.
Proof. intros Hl ->. rewrite slice_write_within by lia. rewrite Nat.sub_diag. by apply slice_all. Qed.

(** Overwriting a region with what it holds already. *)
Lemma write_slice_id l s n : s + n ≤ length l → write_bytes l s (slice l s n) = l.
Proof.
  intros Hl. pose proof (length_slice l s n Hl) as Hn. apply list_eq. intros i.
  rewrite lookup_write_bytes by lia. case_decide as Hd; [|done].
  rewrite lookup_slice by lia. f_equal. lia.
Qed.

(** * Fields *)

Lemma read_u16_slice l off : read_u16_le l off = le_value (slice l off 2).
Proof. done. Qed.
Lemma read_u32_slice l off : read_u32_le l off = le_value (slice l off 4).
Proof. done. Qed.
Lemma read_u64_slice l off : read_u64_le l off = le_value (slice l off 8).
Proof. done. Qed.

(** Evaluate a slice of a string built by writes, the length of which [len]
    computes. *)
Ltac len := rewrite ?length_write_bytes, ?length_le_bytes, ?length_replicate; cbn [length]; try lia.
Ltac slices :=
  repeat first
    [ rewrite slice_write_same by len
    | rewrite slice_write_other by len ].

Lemma checksum_from_range bytes : ∀ c i, (0 ≤ c ≤ u32_max)%Z → (0 ≤ checksum_from c i bytes ≤ u32_max)%Z.
Proof.
  induction bytes as [|b bytes IH]; intros c i Hc; [done|]. cbn [checksum_from]. apply IH.
  pose proof (Z.mod_pos_bound (c + (b * (Z.of_nat i + 1)) mod (u32_max + 1)) (u32_max + 1)).
  unfold u32_max in *. lia.
Qed.

Lemma checksum_range bytes : (0 ≤ vertexfs_checksum32 bytes ≤ u32_max)%Z.
Proof. apply checksum_from_range. done. Qed.

(** A section that was sealed has a valid checksum. *)
Lemma sealed_valid s : 24 ≤ length s → vertexfs_checksum_valid (write_vertexfs_sector_checksum s) = true.
Proof.
  intros Hs. unfold vertexfs_checksum_valid, write_vertexfs_sector_checksum, write_u32_le.
  change VERTEXFS_CHECKSUM_OFFSET with 20. set (s0 := write_bytes s 20 (le_bytes 4 0)).
  assert (Hs0 : length s0 = length s) by apply length_write_bytes.
  rewrite read_u32_slice. slices. rewrite le_value_bytes.
  2: { pose proof (checksum_range s0). change (256 ^ Z.of_nat 4)%Z with (u32_max + 1)%Z. lia. }
  assert (Heq : imap checksum_zeroed (write_bytes s0 20 (le_bytes 4 (vertexfs_checksum32 s0))) = s0).
  { apply list_eq. intros i. rewrite list_lookup_imap, lookup_write_bytes by len.
    rewrite length_le_bytes. unfold checksum_zeroed, VERTEXFS_CHECKSUM_OFFSET.
    assert (Hz : (20 <=? i) && (i <? 20 + 4) = bool_decide (20 ≤ i < 20 + 4)).
    { destruct (Nat.leb_spec 20 i), (Nat.ltb_spec i (20 + 4)); case_bool_decide; lia || done. }
    rewrite Hz. destruct (decide (20 ≤ i < 20 + 4)) as [Hd|Hd].
    - rewrite bool_decide_true by lia.
      destruct (lookup_lt_is_Some_2 (le_bytes 4 (vertexfs_checksum32 s0)) (i - 20)) as [b ->]; [len|].
      unfold s0. rewrite lookup_write_bytes by len. rewrite length_le_bytes, decide_True by lia.
      assert (Hcases : i = 20 ∨ i = 21 ∨ i = 22 ∨ i = 23) by lia.
      by destruct Hcases as [->|[->|[->| ->]]].
    - rewrite bool_decide_false by lia. by destruct (s0 !! i). }
  rewrite Heq. apply Z.eqb_refl.
Qed.

(** Sealing changes the checksum field only. *)
Lemma slice_sealed s off n :
  24 ≤ length s → off + n ≤ 20 ∨ 24 ≤ off → slice (write_vertexfs_sector_checksum s) off n = slice s off n.
Proof.
  intros Hs Hd. unfold write_vertexfs_sector_checksum, write_u32_le, VERTEXFS_CHECKSUM_OFFSET. slices. done.
Qed.

Lemma length_sealed s : length (write_vertexfs_sector_checksum s) = length s.
Proof. unfold write_vertexfs_sector_checksum, write_u32_le. by rewrite !length_write_bytes. Qed.

(** * Ranges of an image *)

Lemma get_range_Some l a b x :
  get_range l a b = Some x ↔
  (a ≤ b ≤ Z.of_nat (length l))%Z ∧ x = slice l (Z.to_nat a) (Z.to_nat (b - a)).
Proof.
  unfold get_range. destruct (Z.leb_spec a b), (Z.leb_spec b (Z.of_nat (length l))); cbn;
    split; try done; try lia; [by intros [= <-]|by intros [_ ->]|intros [? _]; lia..].
Qed.

Lemma get_range_agree P l l' a b :
  agree P l l' → (0 ≤ a)%Z → (∀ i, (a ≤ Z.of_nat i < b)%Z → P i) → get_range l' a b = get_range l a b.
Proof.
  intros Hag Ha HP. unfold get_range. rewrite (ag_length _ _ _ Hag).
  destruct (_ && _) eqn:Hc; [|done]. f_equal. apply (agree_slice _ _ _ _ _ Hag).
  intros i Hi. apply HP. apply andb_true_iff in Hc as [?%Z.leb_le ?%Z.leb_le]. lia.
Qed.

Abbreviation byte_of sector := ((sector) * Z.of_nat VERTEXFS_SECTOR_SIZE)%Z.

Lemma sector_range_agree {E} P l l' first count (e : E) :
  agree P l l' → (0 ≤ first)%Z → (∀ i, (byte_of first ≤ Z.of_nat i < byte_of (first + count))%Z → P i) →
  sector_range l' first count e = sector_range l first count e.
Proof.
  intros Hag Hf HP. unfold sector_range, checked_mul, checked_add.
  repeat case_match; try done; simplify_eq. f_equal. apply (get_range_agree P); [done|lia|].
  intros i Hi. apply HP. lia.
Qed.

Lemma sector_range_slice {E} l first count (e : E) :
  (0 ≤ first)%Z → (0 ≤ count)%Z → (first + count ≤ 1024)%Z →
  (byte_of (first + count) ≤ Z.of_nat (length l))%Z →
  sector_range l first count e =
  Ok (slice l (Z.to_nat first * VERTEXFS_SECTOR_SIZE) (Z.to_nat count * VERTEXFS_SECTOR_SIZE)).
Proof.
  intros Hf Hc Hs Hl. unfold sector_range, checked_mul, checked_add, u64_max.
  unfold VERTEXFS_SECTOR_SIZE in *.
  rewrite (proj2 (Z.leb_le (first * _) _)), (proj2 (Z.leb_le (count * _) _)) by lia.
  rewrite (proj2 (Z.leb_le _ _)) by lia. unfold get_range.
  rewrite (proj2 (Z.leb_le _ _)), (proj2 (Z.leb_le _ _)) by lia. cbn [andb ok_or]. unfold slice.
  f_equal. f_equal; [|f_equal]; lia.
Qed.

Lemma sector_range_Ok {E} l first count (e : E) b :
  (0 ≤ first)%Z → (0 ≤ count)%Z → sector_range l first count e = Ok b →
  (byte_of (first + count) ≤ Z.of_nat (length l))%Z ∧
  b = slice l (Z.to_nat first * VERTEXFS_SECTOR_SIZE) (Z.to_nat count * VERTEXFS_SECTOR_SIZE).
Proof.
  intros Hf Hc. unfold sector_range, checked_mul, checked_add, ok_or.
  repeat case_match; try done; simplify_eq. intros [= <-].
  match goal with H : get_range _ _ _ = Some _ |- _ => apply get_range_Some in H as [? ->] end.
  split; [lia|]. f_equal; lia.
Qed.

(** * What the parser reads *)

Record parsed (image : list byte) (L : VertexFsLayout) (sb gen : list byte)
    (j : option VertexFsJournalRecord) (ino : VertexFsParsedInodes) (rd base : list byte * Z * Z)
    (app : list byte * bool) : Prop := mk_parsed {
  pd_sb : vertexfs_sector image 0 = Ok sb;
  pd_layout : vertexfs_layout_from_superblock sb = Ok L;
  pd_super : superblock_ok L sb = true;
  pd_gen : vertexfs_fixed_string sb (generation_offset L) 64 = Ok gen;
  pd_journal : vertexfs_parse_journal L image = Ok j;
  pd_inodes : vertexfs_parse_inode_table L image = Ok ino;
  pd_dir : vertexfs_validate_directory L image (pi_dynamic ino) = Ok tt;
  pd_readme : vertexfs_file_payload image (pi_readme ino) = Ok rd;
  pd_app : vertexfs_recoverable_file_payload image (pi_app_a ino) j = Ok base;
  pd_disjoint : extents_overlap rd.1.2 rd.2 base.1.2 base.2 = false;
  pd_dynamic : dynamic_extents_ok image [(rd.1.2, rd.2); (base.1.2, base.2)]
                 (take (dynamic_file_capacity L) (pi_dynamic ino)) = Ok tt;
  pd_free : vertexfs_validate_free_map L image (pi_readme ino) (pi_app_a ino) (pi_dynamic ino) = Ok tt;
  pd_replay : vertexfs_replay_journal (pi_app_a ino) base.1.1 j = Ok app
}.

Definition boot_of (gen : list byte) (ino : VertexFsParsedInodes) (rd : list byte * Z * Z)
    (app : list byte * bool) : VertexFsBootFiles :=
  mkVertexFsBootFiles gen (mkVertexFsBootFile (pi_readme ino) rd.1.1)
    (mkVertexFsBootFile (pi_app_a ino) app.1) app.2.

Lemma parse_parsed image boot :
  parse_vertexfs_image image = Ok boot ↔
  ∃ L sb gen j ino rd base app, parsed image L sb gen j ino rd base app ∧ boot = boot_of gen ino rd app.
Proof.
  unfold parse_vertexfs_image. split.
  - intros (sb & Hsb & (L & HL & (u1 & H1%res_guard_ok & (gen & Hgen & (j & Hj & (ino & Hi & (u2 & Hd &
      H)%res_bind_ok)%res_bind_ok)%res_bind_ok)%res_bind_ok)%res_bind_ok)%res_bind_ok)%res_bind_ok.
    apply res_bind_ok in H as ([[rd rf] re] & Hrd & H). apply res_bind_ok in H as ([[ba af] ae] & Hba & H).
    apply res_bind_ok in H as (u3 & H3%res_guard_ok & H). apply res_bind_ok in H as (u4 & H4 & H).
    apply res_bind_ok in H as (u5 & H5 & H). apply res_bind_ok in H as ([app re'] & H6 & H).
    injection H as <-. destruct u2, u4, u5. apply negb_true_iff in H3.
    exists L, sb, gen, j, ino, (rd, rf, re), (ba, af, ae), (app, re'). by split.
  - intros (L & sb & gen & j & ino & [[rd rf] re] & [[ba af] ae] & [app re'] &
      [H1 H2 H3 H4 H5 H6 H7 H8 H9 H10 H11 H12 H13] & ->). cbn in *.
    rewrite H1; cbn [res_bind]. rewrite H2; cbn [res_bind]. rewrite H3; cbn [res_bind res_guard].
    rewrite H4; cbn [res_bind]. rewrite H5; cbn [res_bind]. rewrite H6; cbn [res_bind].
    rewrite H7; cbn [res_bind]. rewrite H8; cbn [res_bind]. rewrite H9; cbn [res_bind].
    rewrite H10; cbn [res_bind res_guard negb]. rewrite H11; cbn [res_bind].
    rewrite H12; cbn [res_bind]. rewrite H13. done.
Qed.

(** * Layouts *)

Record layout_ok (L : VertexFsLayout) : Prop := mk_layout_ok {
  lo_inodes : inode_table_sector L = 1%Z;
  lo_inode_sectors : (2 ≤ inode_table_sectors L ≤ 8)%Z;
  lo_inode_bytes : inode_table_bytes L = Z.to_nat (inode_table_sectors L) * VERTEXFS_SECTOR_SIZE;
  lo_directory : directory_sector L = (1 + inode_table_sectors L)%Z;
  lo_directory_sectors : directory_sectors L = inode_table_sectors L;
  lo_free_map : free_map_sector L = (1 + 2 * inode_table_sectors L)%Z;
  lo_journal : journal_sector L = (2 + 2 * inode_table_sectors L)%Z;
  lo_data : data_sector L = (3 + 2 * inode_table_sectors L)%Z;
  lo_end : (data_sector L + data_sectors L = 64)%Z;
  lo_capacity : VERTEXFS_INODE_ENTRY_OFFSET +
    (VERTEXFS_BASE_INODE_COUNT + dynamic_file_capacity L) * VERTEXFS_INODE_ENTRY_LEN ≤ inode_table_bytes L;
  lo_magic : length (journal_magic L) = 16 ∧ length (inode_magic L) = 16;
  lo_version : (0 ≤ vl_version L < 256)%Z
}.

Lemma layout_from_superblock_ok sb L : vertexfs_layout_from_superblock sb = Ok L → layout_ok L.
Proof.
  unfold vertexfs_layout_from_superblock. repeat case_match; intros [= <-];
    (split; [done|done|vm_compute; reflexivity|done|done|done|done|done|done| |done|done]);
    apply Nat.leb_le; vm_compute; reflexivity.
Qed.

(** * The inode table *)

(** The table after [write_vertexfs_inode_record] on the entry of [app/a]. *)
Definition table_update (t : list byte) (len c : Z) : list byte :=
  write_vertexfs_sector_checksum (write_u32_le (write_u64_le t (224 + 8) len) (224 + 28) c).

Lemma length_table_update t len c : length (table_update t len c) = length t.
Proof. unfold table_update, write_u32_le, write_u64_le. by rewrite length_sealed, !length_write_bytes. Qed.

Lemma table_update_slice t len c off n :
  1024 ≤ length t →
  off + n ≤ 20 ∨ 24 ≤ off ∧ off + n ≤ 232 ∨ 240 ≤ off ∧ off + n ≤ 252 ∨ 256 ≤ off →
  slice (table_update t len c) off n = slice t off n.
Proof.
  intros Ht Hd. unfold table_update, write_u32_le, write_u64_le. rewrite slice_sealed by len.
  slices. done.
Qed.

Lemma fixed_string_len_ext l l' off n :
  length l' = length l → slice l' off n = slice l off n →
  vertexfs_fixed_string l' off n = vertexfs_fixed_string l off n.
Proof. intros Hl Hs. unfold vertexfs_fixed_string. fold (slice l' off n) (slice l off n). by rewrite Hs, Hl. Qed.

Lemma fixed_string_eq_ext l l' off n x :
  length l' = length l → slice l' off n = slice l off n →
  vertexfs_fixed_string_eq l' off n x = vertexfs_fixed_string_eq l off n x.
Proof. intros Hl Hs. unfold vertexfs_fixed_string_eq. fold (slice l' off n) (slice l off n). by rewrite Hs, Hl. Qed.

Section table.
Context (L : VertexFsLayout) (t : list byte) (len c : Z).
Context (Ht : 1024 ≤ length t).

Lemma update_inode i :
  i ≠ 3 → vertexfs_read_inode (table_update t len c) i = vertexfs_read_inode t i.
Proof.
  intros Hi. unfold vertexfs_read_inode, VERTEXFS_INODE_ENTRY_OFFSET, VERTEXFS_INODE_ENTRY_LEN.
  rewrite !read_u32_slice, !read_u16_slice, !read_u64_slice, !table_update_slice by lia. done.
Qed.

Lemma update_inode_3 :
  (0 ≤ len < 256 ^ 8)%Z → (0 ≤ c ≤ u32_max)%Z →
  let inode := vertexfs_read_inode t 3 in
  vertexfs_read_inode (table_update t len c) 3 =
  mkVertexFsInode (in_id inode) (in_kind inode) len (in_first_sector inode) (in_sector_count inode) c
    (in_parent inode).
Proof.
  intros Hlen Hc. unfold vertexfs_read_inode.
  change (VERTEXFS_INODE_ENTRY_OFFSET + 3 * VERTEXFS_INODE_ENTRY_LEN) with 224. cbn [in_id in_kind in_first_sector in_sector_count in_parent].
  rewrite !read_u32_slice, !read_u16_slice, !read_u64_slice.
  rewrite (table_update_slice _ _ _ 224), (table_update_slice _ _ _ (224 + 4)),
    (table_update_slice _ _ _ (224 + 16)), (table_update_slice _ _ _ (224 + 24)),
    (table_update_slice _ _ _ (224 + 32)) by lia.
  f_equal; unfold table_update, write_u32_le, write_u64_le; rewrite slice_sealed by len; slices;
    apply le_value_bytes; [done|]. change (256 ^ Z.of_nat 4)%Z with (u32_max + 1)%Z. lia.
Qed.

Lemma update_name_eq i x :
  vertexfs_inode_name_eq (table_update t len c) i x = vertexfs_inode_name_eq t i x.
Proof.
  apply fixed_string_eq_ext; [apply length_table_update|]. apply table_update_slice; [done|].
  unfold vertexfs_inode_name_offset, VERTEXFS_INODE_ENTRY_OFFSET, VERTEXFS_INODE_ENTRY_LEN. lia.
Qed.

Lemma update_name_string i :
  vertexfs_fixed_string (table_update t len c) (vertexfs_inode_name_offset i) 28 =
  vertexfs_fixed_string t (vertexfs_inode_name_offset i) 28.
Proof.
  apply fixed_string_len_ext; [apply length_table_update|]. apply table_update_slice; [done|].
  unfold vertexfs_inode_name_offset, VERTEXFS_INODE_ENTRY_OFFSET, VERTEXFS_INODE_ENTRY_LEN. lia.
Qed.

Lemma update_reserved i :
  vertexfs_inode_reserved_zero (table_update t len c) i = vertexfs_inode_reserved_zero t i.
Proof.
  unfold vertexfs_inode_reserved_zero, VERTEXFS_INODE_ENTRY_OFFSET, VERTEXFS_INODE_ENTRY_LEN.
  rewrite !read_u16_slice, table_update_slice by lia. done.
Qed.

Lemma update_metadata m :
  length m = 16 → metadata_valid L t m = true → metadata_valid L (table_update t len c) m = true.
Proof.
  unfold metadata_valid, vertexfs_magic_matches. intros Hm.
  rewrite !andb_true_iff. intros [[H1 H2] _]. split_and!.
  - rewrite Hm in *. change (take 16 ?l) with (slice l 0 16) in *. by rewrite table_update_slice by lia.
  - rewrite read_u16_slice in *. by rewrite table_update_slice by lia.
  - apply sealed_valid. unfold write_u32_le, write_u64_le. len.
Qed.
End table.

(** The inode with a new size and checksum. *)
Definition resized (inode : VertexFsInode) (len c : Z) : VertexFsInode :=
  mkVertexFsInode (in_id inode) (in_kind inode) len (in_first_sector inode) (in_sector_count inode) c
    (in_parent inode).

(** What a table that parses contains. *)
Record table_ok (L : VertexFsLayout) (t : list byte) (ino : VertexFsParsedInodes) : Prop := mk_table_ok {
  tb_metadata : metadata_valid L t (inode_magic L) = true;
  tb_count : VERTEXFS_BASE_INODE_COUNT ≤ Z.to_nat (read_u16_le t 18) ≤
             VERTEXFS_BASE_INODE_COUNT + dynamic_file_capacity L;
  tb_root : directory_inode_ok t 0 VERTEXFS_INODE_ROOT 0 (string_bytes "/") = true;
  tb_readme : file_inode_ok t 1 VERTEXFS_INODE_README VERTEXFS_INODE_ROOT (string_bytes "readme") = true;
  tb_app_dir : directory_inode_ok t 2 VERTEXFS_INODE_APP_DIR VERTEXFS_INODE_ROOT (string_bytes "app") = true;
  tb_app_a : file_inode_ok t 3 VERTEXFS_INODE_APP_A VERTEXFS_INODE_APP_DIR (string_bytes "a") = true;
  tb_dynamic : forallb (dynamic_inode_ok L t)
                 (seq 0 (Z.to_nat (read_u16_le t 18) - VERTEXFS_BASE_INODE_COUNT)) = true;
  tb_result : ino = mkVertexFsParsedInodes (vertexfs_read_inode t 1) (vertexfs_read_inode t 3)
    (((λ i, Some (vertexfs_read_inode t (VERTEXFS_BASE_INODE_COUNT + i))) <$>
        seq 0 (Z.to_nat (read_u16_le t 18) - VERTEXFS_BASE_INODE_COUNT)) ++
     replicate (MAX_VERTEXFS_FILES - (Z.to_nat (read_u16_le t 18) - VERTEXFS_BASE_INODE_COUNT)) None)
}.

Lemma parse_inode_table_ok L image ino :
  vertexfs_parse_inode_table L image = Ok ino ↔
  ∃ t, vertexfs_section image (inode_table_sector L) (inode_table_sectors L) = Ok t ∧ table_ok L t ino.
Proof.
  unfold vertexfs_parse_inode_table. split.
  - intros (t & Ht & H)%res_bind_ok. exists t. split; [done|].
    apply res_bind_ok in H as (? & H1%res_guard_ok & H). apply res_bind_ok in H as (? & H2%res_guard_ok & H).
    apply res_bind_ok in H as (? & H3%res_guard_ok & H). apply res_bind_ok in H as (? & H4%res_guard_ok & H).
    apply res_bind_ok in H as (? & H5%res_guard_ok & H). apply res_bind_ok in H as (? & H6%res_guard_ok & H).
    apply res_bind_ok in H as (? & H7%res_guard_ok & H). injection H as <-.
    apply negb_true_iff, orb_false_iff in H2 as [?%Nat.ltb_ge ?%Nat.ltb_ge]. by split.
  - intros (t & -> & [H1 [H2 H2'] H3 H4 H5 H6 H7 ->]). cbn [res_bind].
    rewrite H1. cbn [res_guard res_bind].
    rewrite (proj2 (Nat.ltb_ge _ _) H2), (proj2 (Nat.ltb_ge _ _) H2'). cbn [res_guard res_bind orb negb].
    rewrite H3. cbn [res_guard res_bind]. rewrite H4. cbn [res_guard res_bind].
    rewrite H5. cbn [res_guard res_bind]. rewrite H6. cbn [res_guard res_bind].
    rewrite H7. cbn [res_guard res_bind]. done.
Qed.

Lemma table_update_ok L t ino len c :
  length (inode_magic L) = 16 → 1024 ≤ length t → (0 ≤ len < 256 ^ 8)%Z → (0 ≤ c ≤ u32_max)%Z →
  table_ok L t ino →
  table_ok L (table_update t len c)
    (mkVertexFsParsedInodes (pi_readme ino) (resized (pi_app_a ino) len c) (pi_dynamic ino)).
Proof.
  intros Hm Ht Hlen Hc [H1 H2 H3 H4 H5 H6 H7 ->].
  assert (Hcount : read_u16_le (table_update t len c) 18 = read_u16_le t 18).
  { rewrite !read_u16_slice, table_update_slice by lia. done. }
  assert (Hdyn : ∀ i, vertexfs_read_inode (table_update t len c) (VERTEXFS_BASE_INODE_COUNT + i) =
                      vertexfs_read_inode t (VERTEXFS_BASE_INODE_COUNT + i)).
  { intros i. apply update_inode; [done|]. unfold VERTEXFS_BASE_INODE_COUNT. lia. }
  split; rewrite ?Hcount.
  - by apply update_metadata.
  - done.
  - revert H3. unfold directory_inode_ok. by rewrite update_inode, update_reserved, update_name_eq.
  - revert H4. unfold file_inode_ok. by rewrite update_inode, update_reserved, update_name_eq.
  - revert H5. unfold directory_inode_ok. by rewrite update_inode, update_reserved, update_name_eq.
  - revert H6. unfold file_inode_ok. by rewrite update_inode_3, update_reserved, update_name_eq.
  - rewrite forallb_forall in *. intros i Hi. specialize (H7 i Hi). revert H7. unfold dynamic_inode_ok.
    by rewrite Hdyn, update_reserved, update_name_string.
  - cbn [pi_readme pi_app_a pi_dynamic]. rewrite update_inode, update_inode_3 by done. f_equal. f_equal.
    apply list_fmap_ext. intros i x _. by rewrite Hdyn.
Qed.

(** The entry of [app/a] is the fourth. *)
Lemma table_ids L t ino :
  table_ok L t ino →
  read_u32_le t 32 = 1%Z ∧ read_u32_le t 96 = 2%Z ∧ read_u32_le t 160 = 3%Z ∧ read_u32_le t 224 = 4%Z.
Proof.
  intros [_ _ H3 H4 H5 H6 _ _].
  unfold directory_inode_ok, file_inode_ok in *. rewrite !andb_true_iff, !Z.eqb_eq in *.
  destruct_and!. done.
Qed.

Lemma scan_app_a L t ino :
  layout_ok L → table_ok L t ino →
  inode_scan L t VERTEXFS_INODE_APP_A 0 (Z.to_nat (read_u16_le t 18)) = Ok (Some 224).
Proof.
  intros HL Ht. destruct (table_ids _ _ _ Ht) as (I0 & I1 & I2 & I3). destruct (tb_count _ _ _ Ht) as [Hc _].
  destruct (Z.to_nat (read_u16_le t 18)) as [|[|[|[|n]]]]; try (unfold VERTEXFS_BASE_INODE_COUNT in Hc; lia).
  pose proof (lo_capacity _ HL) as Hcap.
  assert (Hoff : ∀ i, i < 4 → vertexfs_inode_offset L i = Ok (32 + i * 64)).
  { intros i Hi. unfold vertexfs_inode_offset.
    unfold VERTEXFS_INODE_ENTRY_OFFSET, VERTEXFS_INODE_ENTRY_LEN, VERTEXFS_BASE_INODE_COUNT in *.
    rewrite (proj2 (Nat.leb_le _ _)) by lia. done. }
  unfold inode_scan. rewrite !Hoff by lia. cbn [res_bind].
  change (32 + 0 * 64) with 32. change (32 + 1 * 64) with 96.
  change (32 + 2 * 64) with 160. change (32 + 3 * 64) with 224. by rewrite I0, I1, I2, I3.
Qed.

(** * The journal sector *)

Lemma length_journal_header L size state : length (journal_header L size state) = size.
Proof. unfold journal_header, write_u16_le. len. Qed.

Lemma journal_header_fields L size state :
  layout_ok L → 24 ≤ size → (0 ≤ state < 65536)%Z →
  slice (journal_header L size state) 0 16 = journal_magic L ∧
  slice (journal_header L size state) 16 2 = le_bytes 2 (vl_version L) ∧
  slice (journal_header L size state) 18 2 = le_bytes 2 state.
Proof.
  intros HL Hs Hst. destruct (lo_magic _ HL) as [Hm _]. unfold journal_header, write_u16_le.
  split_and!; slices; try done. all: rewrite ?slice_write_other, ?slice_write_same by (rewrite ?Hm; len; rewrite ?Hm; lia); done.
Qed.

Section journal.
Context (L : VertexFsLayout) (HL : layout_ok L).

(** A sealed sector whose header is that of the journal. *)
Lemma journal_metadata s state :
  24 ≤ length s → (0 ≤ state < 65536)%Z →
  slice s 0 16 = journal_magic L → slice s 16 2 = le_bytes 2 (vl_version L) → slice s 18 2 = le_bytes 2 state →
  metadata_valid L (write_vertexfs_sector_checksum s) (journal_magic L) = true ∧
  read_u16_le (write_vertexfs_sector_checksum s) 18 = state.
Proof.
  intros Hs Hst H1 H2 H3. split.
  - unfold metadata_valid, vertexfs_magic_matches. destruct (lo_magic _ HL) as [-> _].
    rewrite !andb_true_iff. split_and!.
    + change (take 16 ?l) with (slice l 0 16). rewrite slice_sealed, H1 by lia. by apply bool_decide_eq_true.
    + rewrite read_u16_slice, slice_sealed, H2 by lia. rewrite le_value_bytes; [apply Z.eqb_refl|].
      pose proof (lo_version _ HL). change (256 ^ Z.of_nat 2)%Z with 65536%Z. lia.
    + by apply sealed_valid.
  - rewrite read_u16_slice, slice_sealed, H3 by lia. by apply le_value_bytes.
Qed.

Lemma parse_journal_clean image size :
  24 ≤ size →
  vertexfs_sector image (journal_sector L) =
    Ok (write_vertexfs_sector_checksum (journal_header L size VERTEXFS_JOURNAL_STATE_CLEAN)) →
  vertexfs_parse_journal L image = Ok None.
Proof.
  intros Hs H. unfold vertexfs_parse_journal. rewrite H. cbn [res_bind].
  destruct (journal_header_fields L size VERTEXFS_JOURNAL_STATE_CLEAN HL Hs ltac:(done)) as (H1 & H2 & H3).
  destruct (journal_metadata (journal_header L size VERTEXFS_JOURNAL_STATE_CLEAN) VERTEXFS_JOURNAL_STATE_CLEAN)
    as [Hm Hst]; try done; [by rewrite length_journal_header|].
  rewrite Hm. cbn [res_guard res_bind]. by rewrite Hst.
Qed.

(** The pending sector before it is sealed. *)
Definition pending_body (size : nat) (inode_id : Z) (payload : list byte) : list byte :=
  let len := Z.of_nat (length payload) in
  let sector := journal_header L size VERTEXFS_JOURNAL_STATE_PENDING in
  let sector := write_u32_le sector 24 inode_id in
  let sector := write_u32_le sector 28 len in
  let sector := write_u32_le sector 32 (vertexfs_checksum32 payload) in
  let sector :=
    if bool_decide (vl_format L = FormatV2) then
      let sector := write_u64_le sector 40 1 in
      let sector := write_u32_le sector 48 inode_id in
      let sector := write_u32_le sector 52 len in
      write_u32_le sector 56 (vertexfs_checksum32 payload)
    else sector in
  write_bytes sector VERTEXFS_JOURNAL_PAYLOAD_OFFSET payload.

Lemma length_pending_body size id payload : length (pending_body size id payload) = size.
Proof.
  unfold pending_body, write_u32_le, write_u64_le. destruct (bool_decide _); rewrite !length_write_bytes;
    apply length_journal_header.
Qed.

Ltac plen := rewrite ?length_write_bytes, ?length_le_bytes, ?length_journal_header; try lia.
Ltac pslices := repeat first [rewrite slice_write_same by plen | rewrite slice_write_other by plen].

Lemma pending_fields size id payload :
  64 + length payload ≤ size →
  let s := pending_body size id payload in
  let len := Z.of_nat (length payload) in
  slice s 0 16 = journal_magic L ∧ slice s 16 2 = le_bytes 2 (vl_version L) ∧
  slice s 18 2 = le_bytes 2 VERTEXFS_JOURNAL_STATE_PENDING ∧
  slice s 24 4 = le_bytes 4 id ∧ slice s 28 4 = le_bytes 4 len ∧
  slice s 32 4 = le_bytes 4 (vertexfs_checksum32 payload) ∧
  (vl_format L = FormatV2 →
     slice s 40 8 = le_bytes 8 1 ∧ slice s 48 4 = le_bytes 4 id ∧ slice s 52 4 = le_bytes 4 len ∧
     slice s 56 4 = le_bytes 4 (vertexfs_checksum32 payload)) ∧
  slice s 64 (length payload) = payload.
Proof.
  intros Hs. destruct (journal_header_fields L size VERTEXFS_JOURNAL_STATE_PENDING HL) as (H1 & H2 & H3);
    [lia|done|]. unfold pending_body, write_u32_le, write_u64_le, VERTEXFS_JOURNAL_PAYLOAD_OFFSET.
  destruct (bool_decide (vl_format L = FormatV2)) eqn:Hf;
    [|apply bool_decide_eq_false in Hf]; cbn zeta; split_and!; pslices; try done;
    intros _; split_and!; pslices; done.
Qed.

(** What is written is what is read back. *)
Lemma parse_journal_pending image size id payload :
  64 + length payload ≤ size → size ≤ 4096 → (0 ≤ id ≤ u32_max)%Z →
  vertexfs_sector image (journal_sector L) = Ok (journal_pending_sector L size id payload) →
  vertexfs_parse_journal L image = Ok (Some (mkVertexFsJournalRecord id payload)).
Proof.
  intros Hs Hsz Hid H. unfold vertexfs_parse_journal. rewrite H. cbn [res_bind].
  change (journal_pending_sector L size id payload) with
    (write_vertexfs_sector_checksum (pending_body size id payload)).
  destruct (pending_fields size id payload Hs) as (H1 & H2 & H3 & H4 & H5 & H6 & H7 & H8).
  pose proof (length_pending_body size id payload) as Hl.
  destruct (journal_metadata (pending_body size id payload) VERTEXFS_JOURNAL_STATE_PENDING)
    as [Hm Hst]; try done; [lia|]. rewrite Hm. cbn [res_guard res_bind]. rewrite Hst.
  change (VERTEXFS_JOURNAL_STATE_PENDING =? VERTEXFS_JOURNAL_STATE_CLEAN)%Z with false.
  rewrite Z.eqb_refl. cbn [res_guard res_bind].
  assert (E4 : ∀ v, (0 ≤ v ≤ u32_max)%Z → le_value (le_bytes 4 v) = v).
  { intros v Hv. apply le_value_bytes. change (256 ^ Z.of_nat 4)%Z with (u32_max + 1)%Z. lia. }
  pose proof (checksum_range payload) as Hck.
  assert (Hlen : (0 ≤ Z.of_nat (length payload) ≤ u32_max)%Z) by (unfold u32_max; lia).
  rewrite !read_u32_slice, !read_u64_slice, !slice_sealed by lia. rewrite H4, H5, H6, !E4 by done.
  assert (Hg : negb (bool_decide (vl_format L = FormatV2)) ||
    ((le_value (slice (pending_body size id payload) 48 4) =? id)%Z &&
     (le_value (slice (pending_body size id payload) 52 4) =? Z.of_nat (length payload))%Z &&
     (le_value (slice (pending_body size id payload) 56 4) =? vertexfs_checksum32 payload)%Z &&
     negb (le_value (slice (pending_body size id payload) 40 8) =? 0)%Z) = true).
  { destruct (bool_decide_reflect (vl_format L = FormatV2)) as [Hf|]; [|done].
    destruct (H7 Hf) as (-> & -> & -> & ->). rewrite !E4 by done. by rewrite !Z.eqb_refl. }
  rewrite Hg. cbn [res_guard res_bind]. unfold checked_add.
  change (Z.of_nat VERTEXFS_JOURNAL_PAYLOAD_OFFSET) with 64%Z.
  rewrite (proj2 (Z.leb_le _ _)) by (unfold u64_max; lia). cbn [ok_or res_bind].
  unfold get_range. rewrite length_sealed, Hl.
  rewrite (proj2 (Z.leb_le _ _)), (proj2 (Z.leb_le _ _)) by lia. cbn [andb ok_or res_bind].
  replace (Z.to_nat (64 + Z.of_nat (length payload) - 64)) with (length payload) by lia.
  change (Z.to_nat 64) with 64.
  fold (slice (write_vertexfs_sector_checksum (pending_body size id payload)) 64 (length payload)).
  rewrite slice_sealed, H8 by lia. by rewrite Z.eqb_refl.
Qed.
End journal.

(** * Images that differ in the journal, the inode table and one extent *)

Section extent.
Context (L : VertexFsLayout) (HL : layout_ok L).

(** The extent of a file is within the data section, and holds its data. *)
Record extent_ok (image : list byte) (inode : VertexFsInode) (d : list byte) : Prop := mk_extent_ok {
  ex_count : (1 ≤ in_sector_count inode)%Z;
  ex_first : (data_sector L ≤ in_first_sector inode)%Z;
  ex_end : (in_first_sector inode + in_sector_count inode ≤ 64)%Z;
  ex_size : (0 ≤ in_size inode ≤ Z.of_nat MAX_VERTEXFS_FILE_BYTES)%Z;
  ex_fits : (byte_of (in_first_sector inode) + in_size inode ≤ Z.of_nat (length image))%Z;
  ex_data : d = slice image (Z.to_nat (in_first_sector inode) * VERTEXFS_SECTOR_SIZE) (Z.to_nat (in_size inode))
}.

Lemma file_extent_iff image inode d f e :
  vertexfs_layout_for_image image = Ok L →
  vertexfs_file_extent_payload image inode = Ok (d, f, e) ↔
  f = in_first_sector inode ∧ e = (in_first_sector inode + in_sector_count inode)%Z ∧ extent_ok image inode d.
Proof.
  intros Hl. pose proof (lo_data _ HL) as Ld. pose proof (lo_end _ HL) as Le.
  pose proof (lo_inode_sectors _ HL) as Li. unfold vertexfs_file_extent_payload. split.
  - intros H0. apply res_bind_ok in H0 as (? & H1%res_guard_ok & H0).
    apply res_bind_ok in H0 as (e' & H2%ok_or_ok & H0). rewrite Hl in H0. cbn [res_bind] in H0.
    apply res_bind_ok in H0 as (? & H3%res_guard_ok & H0). apply res_bind_ok in H0 as (? & H4%res_guard_ok & H0).
    apply res_bind_ok in H0 as (s & H5%ok_or_ok & H0). apply res_bind_ok in H0 as (e2 & H6%ok_or_ok & H0).
    apply res_bind_ok in H0 as (d' & H7%ok_or_ok & H0). injection H0 as <- <- <-.
    apply negb_true_iff in H1, H3, H4. apply Z.eqb_neq in H1.
    apply orb_false_iff in H3 as [H3%Z.ltb_ge H3'%Z.ltb_ge]. apply orb_false_iff in H4 as [H4%Z.ltb_ge H4'%Z.ltb_ge].
    unfold checked_add, checked_mul in *. repeat case_match; simplify_eq.
    apply get_range_Some in H7 as [H7 ->]. split_and!; [done|done|].
    unfold VERTEXFS_SECTOR_SIZE, MAX_VERTEXFS_FILE_BYTES in *. split; unfold VERTEXFS_SECTOR_SIZE, MAX_VERTEXFS_FILE_BYTES; try lia.
    f_equal; lia.
  - intros (-> & -> & [E1 E2 E3 E4 E5 ->]). unfold VERTEXFS_SECTOR_SIZE, MAX_VERTEXFS_FILE_BYTES in *.
    assert (Hc : (in_sector_count inode =? 0)%Z = false) by (apply Z.eqb_neq; lia). rewrite Hc.
    cbn [negb res_guard res_bind]. unfold checked_add at 1, u64_max.
    rewrite (proj2 (Z.leb_le _ _)) by lia. cbn [ok_or res_bind]. rewrite Hl. cbn [res_bind].
    rewrite (proj2 (Z.ltb_ge _ _)), (proj2 (Z.ltb_ge _ _)) by lia. cbn [orb negb res_guard res_bind].
    rewrite (proj2 (Z.ltb_ge _ _)), (proj2 (Z.ltb_ge _ _)) by lia. cbn [orb negb res_guard res_bind].
    unfold checked_mul, u64_max. rewrite (proj2 (Z.leb_le _ _)) by lia. cbn [ok_or res_bind].
    unfold checked_add, u64_max. rewrite (proj2 (Z.leb_le _ _)) by lia. cbn [ok_or res_bind].
    unfold get_range. rewrite (proj2 (Z.leb_le _ _)), (proj2 (Z.leb_le _ _)) by lia.
    cbn [andb ok_or res_bind]. unfold slice. repeat f_equal; lia.
Qed.

Lemma file_payload_iff image inode d f e :
  vertexfs_layout_for_image image = Ok L →
  vertexfs_file_payload image inode = Ok (d, f, e) ↔
  f = in_first_sector inode ∧ e = (in_first_sector inode + in_sector_count inode)%Z ∧
  extent_ok image inode d ∧ vertexfs_checksum32 d = in_checksum inode.
Proof.
  intros Hl. unfold vertexfs_file_payload. split.
  - intros ([[d' f'] e'] & H1 & H)%res_bind_ok. apply res_bind_ok in H as (? & H2%res_guard_ok & H).
    injection H as -> -> ->. apply Z.eqb_eq in H2. by apply file_extent_iff in H1 as (-> & -> & H1).
  - intros (-> & -> & H1 & H2). rewrite (proj2 (file_extent_iff image inode d _ _ Hl) (conj eq_refl (conj eq_refl H1))).
    cbn [res_bind]. rewrite (proj2 (Z.eqb_eq _ _) H2). done.
Qed.

Lemma extent_agree P image image' inode d :
  agree P image image' →
  (∀ i, (byte_of (in_first_sector inode) ≤ Z.of_nat i <
         byte_of (in_first_sector inode + in_sector_count inode))%Z → P i) →
  extent_ok image inode d → extent_ok image' inode d.
Proof.
  intros Hag HP [E1 E2 E3 E4 E5 E6]. pose proof (lo_data _ HL). pose proof (lo_inode_sectors _ HL).
  split; try done; [by rewrite (ag_length _ _ _ Hag)|]. rewrite E6. symmetry.
  apply (agree_slice _ _ _ _ _ Hag). intros i Hi. apply HP.
  unfold VERTEXFS_SECTOR_SIZE, MAX_VERTEXFS_FILE_BYTES in *. lia.
Qed.

(** Positions outside the journal, the inode table and the extent of [a]. *)
Definition elsewhere (a : VertexFsInode) (i : nat) : Prop :=
  ¬ (byte_of (journal_sector L) ≤ Z.of_nat i < byte_of (journal_sector L + 1))%Z ∧
  ¬ (byte_of (inode_table_sector L) ≤ Z.of_nat i < byte_of (inode_table_sector L + inode_table_sectors L))%Z ∧
  ¬ (byte_of (in_first_sector a) ≤ Z.of_nat i < byte_of (in_first_sector a + in_sector_count a))%Z.

Lemma disjoint_elsewhere image a inode d :
  extent_ok image inode d →
  extents_overlap (in_first_sector inode) (in_first_sector inode + in_sector_count inode)
    (in_first_sector a) (in_first_sector a + in_sector_count a) = false →
  ∀ i, (byte_of (in_first_sector inode) ≤ Z.of_nat i <
        byte_of (in_first_sector inode + in_sector_count inode))%Z → elsewhere a i.
Proof.
  intros [E1 E2 E3 E4 E5 _] Ho i Hi. pose proof (lo_data _ HL). pose proof (lo_inode_sectors _ HL).
  pose proof (lo_journal _ HL). pose proof (lo_inodes _ HL). unfold elsewhere, VERTEXFS_SECTOR_SIZE in *.
  unfold extents_overlap in Ho. apply andb_false_iff in Ho as [?%Z.ltb_ge|?%Z.ltb_ge]; split_and!; lia.
Qed.

(** A file outside the extent of [a] is read as before. *)
Lemma payload_agree a image image' inode d f e :
  vertexfs_layout_for_image image = Ok L → vertexfs_layout_for_image image' = Ok L →
  agree (elsewhere a) image image' →
  vertexfs_file_payload image inode = Ok (d, f, e) →
  extents_overlap f e (in_first_sector a) (in_first_sector a + in_sector_count a) = false →
  vertexfs_file_payload image' inode = Ok (d, f, e).
Proof.
  intros Hl Hl' Hag Hp Ho. apply (file_payload_iff _ _ _ _ _ Hl) in Hp as (-> & -> & He & Hc).
  apply (file_payload_iff _ _ _ _ _ Hl'). split_and!; try done.
  eapply extent_agree; [done|by eapply disjoint_elsewhere|done].
Qed.
End extent.

Section crash.
Context (L : VertexFsLayout) (HL : layout_ok L).

Lemma dynamic_extents_agree a image image' l : ∀ seen,
  vertexfs_layout_for_image image = Ok L → vertexfs_layout_for_image image' = Ok L →
  agree (elsewhere L a) image image' →
  (in_first_sector a, (in_first_sector a + in_sector_count a)%Z) ∈ seen →
  dynamic_extents_ok image seen l = Ok tt → dynamic_extents_ok image' seen l = Ok tt.
Proof.
  induction l as [|[inode|] l IH]; intros seen Hl Hl' Hag Hin; [done| |by apply IH].
  cbn [dynamic_extents_ok]. intros ([[d f] e] & Hp & H)%res_bind_ok.
  apply res_bind_ok in H as (u & Hg%res_guard_ok & H). apply negb_true_iff in Hg.
  assert (Ho : extents_overlap f e (in_first_sector a) (in_first_sector a + in_sector_count a) = false).
  { apply not_true_iff_false. intros Ho. apply not_true_iff_false in Hg. apply Hg. apply existsb_exists.
    exists (in_first_sector a, (in_first_sector a + in_sector_count a)%Z). split; [by apply list_elem_of_In|done]. }
  rewrite (payload_agree L HL a image image' inode d f e) by done. cbn [res_bind]. rewrite Hg.
  cbn [negb res_guard res_bind]. apply IH; try done. apply elem_of_app. by left.
Qed.

Lemma layout_for_sector image sb :
  vertexfs_sector image 0 = Ok sb → vertexfs_layout_from_superblock sb = Ok L →
  vertexfs_layout_for_image image = Ok L.
Proof. intros Hs Hl. unfold vertexfs_layout_for_image. by rewrite Hs. Qed.

Lemma layout_of_layout_for image : layout_of_image image = Ok L → vertexfs_layout_for_image image = Ok L.
Proof. unfold layout_of_image. destruct (vertexfs_layout_for_image image); cbn [map_err]; congruence. Qed.

(** An image that agrees elsewhere with one that parses, and whose journal,
    inode table and extent are consistent, parses too. *)
Lemma crash_state image image' sb gen j ino rd base app t t' ino' j' b' app' :
  parsed image L sb gen j ino rd base app →
  agree (elsewhere L (pi_app_a ino)) image image' →
  vertexfs_section image (inode_table_sector L) (inode_table_sectors L) = Ok t →
  vertexfs_section image' (inode_table_sector L) (inode_table_sectors L) = Ok t' →
  table_ok L t' ino' →
  pi_readme ino' = pi_readme ino → pi_dynamic ino' = pi_dynamic ino →
  in_first_sector (pi_app_a ino') = in_first_sector (pi_app_a ino) →
  in_sector_count (pi_app_a ino') = in_sector_count (pi_app_a ino) →
  (∀ i, vertexfs_fixed_string t' (vertexfs_inode_name_offset i) 28 =
        vertexfs_fixed_string t (vertexfs_inode_name_offset i) 28) →
  vertexfs_parse_journal L image' = Ok j' →
  vertexfs_recoverable_file_payload image' (pi_app_a ino') j' =
    Ok (b', in_first_sector (pi_app_a ino), (in_first_sector (pi_app_a ino) + in_sector_count (pi_app_a ino))%Z) →
  vertexfs_replay_journal (pi_app_a ino') b' j' = Ok app' →
  parse_vertexfs_image image' = Ok (boot_of gen ino' rd app').
Proof.
  intros [P1 P2 P3 P4 P5 P6 P7 P8 P9 P10 P11 P12 P13] Hag Ht Ht' Hok Hr Hd Hf Hc Hn Hj Happ Hre.
  pose proof (lo_inodes _ HL) as Li. pose proof (lo_inode_sectors _ HL) as Lis.
  pose proof (lo_directory _ HL) as Ld. pose proof (lo_directory_sectors _ HL) as Lds.
  pose proof (lo_free_map _ HL) as Lf. pose proof (lo_journal _ HL) as Lj. pose proof (lo_data _ HL) as Lda.
  destruct rd as [[rdd rf] re], base as [[ba af] ae]. cbn [fst snd] in *.
  pose proof (layout_for_sector _ _ P1 P2) as Hl.
  assert (Hbase : af = in_first_sector (pi_app_a ino) ∧
                  ae = (in_first_sector (pi_app_a ino) + in_sector_count (pi_app_a ino))%Z ∧
                  ∃ d, extent_ok L image (pi_app_a ino) d).
  { unfold vertexfs_recoverable_file_payload in P9. apply res_bind_ok in P9 as ([[d f] e] & He & H).
    apply (file_extent_iff L HL _ _ _ _ _ Hl) in He as (-> & -> & He).
    repeat case_match; simplify_eq; eauto. }
  destruct Hbase as (-> & -> & d & He).
  assert (Hmeta : ∀ first count, (0 ≤ first)%Z → (first + count ≤ data_sector L)%Z →
    (first + count ≤ 1 ∨ 1 + inode_table_sectors L ≤ first)%Z → (first + count ≤ journal_sector L)%Z →
    ∀ i, (byte_of first ≤ Z.of_nat i < byte_of (first + count))%Z → elsewhere L (pi_app_a ino) i).
  { intros first count F1 F2 F3 F4 i Hi. destruct He as [E1 E2 E3 _ _ _].
    unfold elsewhere, VERTEXFS_SECTOR_SIZE in *. split_and!; lia. }
  assert (S0 : vertexfs_sector image' 0 = Ok sb).
  { unfold vertexfs_sector. rewrite (sector_range_agree _ _ _ _ _ _ Hag); [done|lia|]. apply Hmeta; lia. }
  pose proof (layout_for_sector _ _ S0 P2) as Hl'.
  apply parse_parsed.
  exists L, sb, gen, j', ino', (rdd, rf, re),
    (b', in_first_sector (pi_app_a ino), (in_first_sector (pi_app_a ino) + in_sector_count (pi_app_a ino))%Z), app'.
  split; [|done]. split; cbn [fst snd]; try done.
  - apply parse_inode_table_ok. eauto.
  - rewrite Hd. revert P7. unfold vertexfs_validate_directory.
    unfold vertexfs_section at 1 3. rewrite (sector_range_agree _ _ _ _ _ _ Hag); [|lia|apply Hmeta; lia].
    rewrite Ht, Ht'. destruct (sector_range image (directory_sector L) _ _) as [dir|]; [|done].
    cbn [res_bind]. unfold dynamic_entry_ok.
    assert (Hfa : ∀ n, forallb (dynamic_entry_ok dir t' (pi_dynamic ino)) (seq 0 n) =
                       forallb (dynamic_entry_ok dir t (pi_dynamic ino)) (seq 0 n)).
    { intros n. induction (seq 0 n) as [|x xs IHxs]; [done|]. cbn [forallb]. rewrite IHxs. f_equal.
      unfold dynamic_entry_ok. by rewrite Hn. }
    unfold dynamic_entry_ok in Hfa. by rewrite Hfa.
  - rewrite Hr. apply (payload_agree L HL (pi_app_a ino) image image' _ _ _ _ Hl Hl' Hag P8 P10).
  - rewrite Hd. eapply dynamic_extents_agree; [exact Hl|exact Hl'|exact Hag| |done].
    right. by left.
  - rewrite Hd, Hr. revert P12. unfold vertexfs_validate_free_map.
    unfold vertexfs_sector. rewrite (sector_range_agree _ _ _ _ _ _ Hag); [|lia|apply Hmeta; lia].
    unfold free_map_entry_ok, sector_expected, vertexfs_inode_covers_sector. by rewrite Hf, Hc.
Qed.
End crash.

(** * The disk *)

(** A sector write that reached the disk; writes of one sector are atomic. *)
Definition apply_write (disk : list byte) (w : VertexFsDeviceWrite) : list byte :=
  write_bytes disk (Z.to_nat (dw_sector w) * VERTEXFS_SECTOR_SIZE) (dw_bytes w).
Definition disk_after (disk : list byte) (ws : list VertexFsDeviceWrite) : list byte := foldl apply_write disk ws.

(** The writes of [n] sectors of an image from [first]. *)
Fixpoint sector_writes (image : list byte) (first : Z) (n : nat) : list VertexFsDeviceWrite :=
  match n with
  | 0 => []
  | S n' => mkVertexFsDeviceWrite first
              (slice image (Z.to_nat first * VERTEXFS_SECTOR_SIZE) VERTEXFS_SECTOR_SIZE) ::
            sector_writes image (first + 1) n'
  end.

Lemma length_sector_writes image first n : length (sector_writes image first n) = n.
Proof. revert first. induction n as [|n IH]; intros first; cbn; [done|]. by rewrite IH. Qed.

Lemma take_sector_writes image first n k : take k (sector_writes image first n) = sector_writes image first (Nat.min k n).
Proof.
  revert first k. induction n as [|n IH]; intros first [|k]; cbn [sector_writes take Nat.min]; try done. by rewrite IH.
Qed.

Lemma slice_split l off n m : off + (n + m) ≤ length l → slice l off (n + m) = slice l off n ++ slice l (off + n) m.
Proof.
  intros Hl. unfold slice. rewrite <-(take_drop n (take (n + m) (drop off l))).
  rewrite take_take, Nat.min_l by lia. f_equal. rewrite <-take_drop_commute. by rewrite drop_drop.
Qed.

Lemma write_bytes_app l s a b :
  s + length (a ++ b) ≤ length l → write_bytes (write_bytes l s a) (s + length a) b = write_bytes l s (a ++ b).
Proof.
  intros Hl. rewrite length_app in Hl. apply list_eq. intros i.
  rewrite !lookup_write_bytes by (rewrite ?length_write_bytes, ?length_app; lia). rewrite length_app.
  repeat case_decide; try lia; try done.
  - rewrite lookup_app_r by lia. f_equal. lia.
  - by rewrite lookup_app_l by lia.
Qed.

(** Writing the sectors of a region one by one writes the region. *)
Lemma disk_after_sectors image n : ∀ disk first,
  (0 ≤ first)%Z → length disk = length image → (Z.to_nat first + n) * VERTEXFS_SECTOR_SIZE ≤ length image →
  disk_after disk (sector_writes image first n) =
  write_bytes disk (Z.to_nat first * VERTEXFS_SECTOR_SIZE)
    (slice image (Z.to_nat first * VERTEXFS_SECTOR_SIZE) (n * VERTEXFS_SECTOR_SIZE)).
Proof.
  induction n as [|n IH]; intros disk first Hf Hl Hb; [done|].
  unfold disk_after. cbn [sector_writes foldl]. unfold apply_write at 2. cbn [dw_sector dw_bytes].
  change (foldl apply_write ?d ?w) with (disk_after d w). unfold VERTEXFS_SECTOR_SIZE in *.
  rewrite IH by (rewrite ?length_write_bytes; lia).
  replace (Z.to_nat (first + 1)) with (S (Z.to_nat first)) by lia.
  replace (S (Z.to_nat first) * 512) with (Z.to_nat first * 512 + 512) by lia.
  replace (S n * 512) with (512 + n * 512) by lia.
  rewrite (slice_split _ _ 512) by lia.
  rewrite <-write_bytes_app by (rewrite length_app, !length_slice by lia; lia).
  by rewrite length_slice by lia.
Qed.

(** * Running the commit *)

(** The state of a commit: the image in memory and the writes recorded so far. *)
Record sync_state (v : VfsState) (cap : nat) (image : list byte) (ws : list VertexFsDeviceWrite) : Prop :=
  mk_sync_state {
  ss_image : vertexfs_image v = image;
  ss_count : vertexfs_sync_write_count v = length ws;
  ss_writes : take (length ws) (vertexfs_sync_writes v) = ws;
  ss_cap : length (vertexfs_sync_writes v) = cap
}.

Lemma record_sector_run v cap image ws s :
  sync_state v cap image ws → length ws < cap → (0 ≤ s ≤ 1000)%Z →
  (Z.to_nat s + 1) * VERTEXFS_SECTOR_SIZE ≤ length image →
  ∃ v', record_vertexfs_sync_sector s v = (Ok tt, v') ∧
    sync_state v' cap image (ws ++ sector_writes image s 1).
Proof.
  intros [Hi Hc Hw Hcap] Hlt Hs Hb. unfold record_vertexfs_sync_sector, rbind, rget, rguard, rlift, rmodify.
  rewrite Hc, Hcap. rewrite (proj2 (Nat.eqb_neq _ _)) by lia. cbn [negb].
  unfold vertexfs_image_sector. rewrite Hi, sector_range_slice by (unfold VERTEXFS_SECTOR_SIZE in *; lia).
  eexists. split; [done|]. cbn [sector_writes]. change (Z.to_nat 1 * VERTEXFS_SECTOR_SIZE) with VERTEXFS_SECTOR_SIZE.
  split; unfold set; cbn -[VERTEXFS_SECTOR_SIZE slice].
  - done.
  - rewrite Hc, length_app. cbn. lia.
  - rewrite length_app. cbn [length]. rewrite Hc.
    rewrite Nat.add_1_r, (take_S_r _ _ (mkVertexFsDeviceWrite s
      (slice image (Z.to_nat s * VERTEXFS_SECTOR_SIZE) VERTEXFS_SECTOR_SIZE)))
      by (apply list_lookup_insert_eq; lia).
    rewrite take_insert_ge by lia. by rewrite Hw.
  - by rewrite length_insert.
Qed.

Lemma record_section_run n : ∀ v cap image ws first,
  sync_state v cap image ws → length ws + n ≤ cap → (0 ≤ first)%Z → (first + Z.of_nat n ≤ 1000)%Z →
  (Z.to_nat first + n) * VERTEXFS_SECTOR_SIZE ≤ length image →
  ∃ v', record_vertexfs_sync_section first n v = (Ok tt, v') ∧
    sync_state v' cap image (ws ++ sector_writes image first n).
Proof.
  induction n as [|n IH]; intros v cap image ws first Hv Hc Hf Hs Hb.
  { exists v. split; [done|]. cbn. by rewrite app_nil_r. }
  unfold VERTEXFS_SECTOR_SIZE in *. destruct (record_sector_run v cap image ws first) as (v1 & Hr & Hv1);
    [done|lia|lia|unfold VERTEXFS_SECTOR_SIZE; lia|].
  destruct (IH v1 cap image (ws ++ sector_writes image first 1) (first + 1)%Z) as (v2 & Hr2 & Hv2);
    [done|rewrite length_app, length_sector_writes; lia|lia|lia|lia|].
  exists v2. cbn [record_vertexfs_sync_section]. unfold rbind. rewrite Hr, Hr2. split; [done|].
  by rewrite <-app_assoc in Hv2.
Qed.

Lemma on_image_run {A} (c : M (list byte) IpcError A) v cap image ws r image' :
  sync_state v cap image ws → c image = (r, image') →
  ∃ v', on_image c v = (r, v') ∧ sync_state v' cap image' ws.
Proof.
  intros [Hi Hc Hw Hcap] Hrun. unfold on_image. rewrite Hi, Hrun. eexists. split; [done|]. by split.
Qed.

Lemma on_sectors_run {A} (f : M (list byte) IpcError A) image first count r bytes' :
  (0 ≤ first)%Z → (0 ≤ count)%Z → (first + count ≤ 1000)%Z →
  (Z.to_nat first + Z.to_nat count) * VERTEXFS_SECTOR_SIZE ≤ length image →
  f (slice image (Z.to_nat first * VERTEXFS_SECTOR_SIZE) (Z.to_nat count * VERTEXFS_SECTOR_SIZE)) = (r, bytes') →
  length bytes' = Z.to_nat count * VERTEXFS_SECTOR_SIZE →
  on_sectors first count f image = (r, write_bytes image (Z.to_nat first * VERTEXFS_SECTOR_SIZE) bytes').
Proof.
  intros Hf Hc Hs Hb Hrun Hl. unfold on_sectors.
  rewrite sector_range_slice by (unfold VERTEXFS_SECTOR_SIZE in *; lia).
  rewrite Hrun. rewrite length_slice by lia. rewrite write_bytes_splice by lia. by rewrite Hl.
Qed.

(** * Synchronising [app/a] *)

Lemma rbind_step {S E A B} (c : M S E A) (k : A → M S E B) s a s1 :
  c s = (Ok a, s1) → rbind c k s = k a s1.
Proof. intros H. unfold rbind. by rewrite H. Qed.

Section sync.
Context (L : VertexFsLayout) (HL : layout_ok L).
Context (img sb gen : list byte) (ino : VertexFsParsedInodes) (rd base : list byte * Z * Z)
  (recovered : list byte * bool) (t old : list byte).
Context (HP : parsed img L sb gen None ino rd base recovered).
Context (Ht : vertexfs_section img (inode_table_sector L) (inode_table_sectors L) = Ok t).
Context (Htok : table_ok L t ino).
Let a : VertexFsInode := pi_app_a ino.
Context (He : extent_ok L img a old).
Context (Hfit : (byte_of (in_first_sector a + in_sector_count a) ≤ Z.of_nat (length img))%Z).
Context (p : list byte) (Hp : length p ≤ 448).

Let joff : nat := Z.to_nat (journal_sector L) * VERTEXFS_SECTOR_SIZE.
Let aoff : nat := Z.to_nat (in_first_sector a) * VERTEXFS_SECTOR_SIZE.
Let ioff : nat := Z.to_nat (inode_table_sector L) * VERTEXFS_SECTOR_SIZE.
Let alen : nat := Z.to_nat (in_sector_count a) * VERTEXFS_SECTOR_SIZE.
Let ilen : nat := Z.to_nat (inode_table_sectors L) * VERTEXFS_SECTOR_SIZE.

(** The contents the sync writes, and the images it goes through. *)
Definition new_journal : list byte := journal_pending_sector L VERTEXFS_SECTOR_SIZE VERTEXFS_INODE_APP_A p.
Definition new_extent : list byte := write_bytes (replicate alen 0%Z) 0 p.
Definition new_table : list byte := table_update t (Z.of_nat (length p)) (vertexfs_checksum32 p).
Definition clean_journal : list byte :=
  write_vertexfs_sector_checksum (journal_header L VERTEXFS_SECTOR_SIZE VERTEXFS_JOURNAL_STATE_CLEAN).
Definition img1 : list byte := write_bytes img joff new_journal.
Definition img2 : list byte := write_bytes img1 aoff new_extent.
Definition img3 : list byte := write_bytes img2 ioff new_table.
Definition img4 : list byte := write_bytes img3 joff clean_journal.

(** Where the regions are. *)
Record regions : Prop := mk_regions {
  rg_journal : joff + 512 ≤ length img;
  rg_inodes : ioff = 512 ∧ 1024 ≤ ilen ∧ ioff + ilen ≤ joff;
  rg_extent : joff + 512 ≤ aoff ∧ 512 ≤ alen ∧ aoff + alen ≤ length img;
  rg_table : length t = ilen ∧ t = slice img ioff ilen
}.

Lemma regions_ok : regions.
Proof.
  pose proof (lo_inodes _ HL). pose proof (lo_inode_sectors _ HL). pose proof (lo_journal _ HL).
  pose proof (lo_data _ HL). destruct He as [E1 E2 E3 E4 E5 _].
  assert (Hj : joff + 512 ≤ length img).
  { destruct HP as [_ _ _ _ Hj _ _ _ _ _ _ _ _]. unfold vertexfs_parse_journal in Hj.
    apply res_bind_ok in Hj as (s & Hs & _). apply sector_range_Ok in Hs as [Hs _]; [|lia|lia].
    unfold joff, VERTEXFS_SECTOR_SIZE in *. lia. }
  apply sector_range_Ok in Ht as [Hb Htt]; [|lia|lia].
  split; unfold joff, aoff, ioff, alen, ilen, VERTEXFS_SECTOR_SIZE in *; try lia.
  rewrite Htt, length_slice by lia. done.
Qed.

Lemma length_new_journal : length new_journal = 512.
Proof.
  unfold new_journal. change (journal_pending_sector L _ _ p) with
    (write_vertexfs_sector_checksum (pending_body L VERTEXFS_SECTOR_SIZE VERTEXFS_INODE_APP_A p)).
  by rewrite length_sealed, length_pending_body.
Qed.
Lemma length_new_extent : length new_extent = alen.
Proof. unfold new_extent. by rewrite length_write_bytes, length_replicate. Qed.
Lemma length_new_table : length new_table = ilen.
Proof. unfold new_table. rewrite length_table_update. apply regions_ok. Qed.
Lemma length_clean_journal : length clean_journal = 512.
Proof. unfold clean_journal. by rewrite length_sealed, length_journal_header. Qed.

Lemma length_images : length img1 = length img ∧ length img2 = length img ∧ length img3 = length img.
Proof. unfold img3, img2, img1. by rewrite !length_write_bytes. Qed.

(** A write within one of the regions is invisible elsewhere. *)
Lemma agree_region image s src :
  length image = length img →
  (joff ≤ s ∧ s + length src ≤ joff + 512 ∨ aoff ≤ s ∧ s + length src ≤ aoff + alen ∨
   ioff ≤ s ∧ s + length src ≤ ioff + ilen) →
  agree (elsewhere L a) image (write_bytes image s src).
Proof.
  intros Hl Hs. destruct regions_ok as [R1 R2 R3 _].
  pose proof (lo_inodes _ HL). pose proof (lo_inode_sectors _ HL). pose proof (lo_journal _ HL).
  pose proof (lo_data _ HL). destruct He as [E1 E2 E3 _ _ _].
  eapply agree_sub; [|apply agree_write; lia]. intros i (N1 & N2 & N3).
  unfold joff, aoff, ioff, alen, ilen, VERTEXFS_SECTOR_SIZE in *. lia.
Qed.

(** Images that agree with the original elsewhere have its layout. *)
Lemma layout_agree image : agree (elsewhere L a) img image → layout_of_image image = Ok L.
Proof.
  intros Hag. unfold layout_of_image. rewrite (layout_for_sector L image sb); [done| |apply HP].
  pose proof (lo_inodes _ HL). pose proof (lo_inode_sectors _ HL). pose proof (lo_journal _ HL).
  pose proof (lo_data _ HL). destruct He as [E1 E2 E3 _ _ _].
  unfold vertexfs_sector. rewrite (sector_range_agree _ _ _ _ _ _ Hag); [apply HP|lia|].
  intros i Hi. unfold elsewhere, VERTEXFS_SECTOR_SIZE in *. lia.
Qed.

Lemma agree_images : agree (elsewhere L a) img img1 ∧ agree (elsewhere L a) img img2 ∧ agree (elsewhere L a) img img3.
Proof.
  destruct length_images as (L1 & L2 & L3). pose proof length_new_journal. pose proof length_new_extent.
  pose proof length_new_table.
  assert (A1 : agree (elsewhere L a) img img1) by (apply agree_region; [done|lia]).
  assert (A2 : agree (elsewhere L a) img img2).
  { eapply agree_trans; [exact A1|]. apply agree_region; [done|lia]. }
  split_and!; [done|done|]. eapply agree_trans; [exact A2|]. apply agree_region; [done|lia].
Qed.

(** The inode table before its record is written. *)
Lemma table_before : slice img2 ioff ilen = t.
Proof.
  destruct regions_ok as [R1 R2 R3 [R4 R5]]. destruct length_images as (L1 & L2 & L3).
  pose proof length_new_journal. pose proof length_new_extent.
  unfold img2. rewrite slice_write_other by lia. unfold img1. rewrite slice_write_other by lia. done.
Qed.

(** ** The runs of the writers *)

Lemma run_pending :
  write_vertexfs_journal_pending VERTEXFS_INODE_APP_A p img = (Ok tt, img1).
Proof.
  destruct regions_ok as [R1 R2 R3 _]. pose proof (lo_journal _ HL). pose proof (lo_inode_sectors _ HL).
  unfold write_vertexfs_journal_pending, rbind, rget, rlift.
  rewrite (layout_agree img) by (by split). unfold img1. apply on_sectors_run; [lia..| | |].
  - unfold joff, VERTEXFS_SECTOR_SIZE in *. lia.
  - unfold rmodify. rewrite length_slice; [done|]. unfold joff, VERTEXFS_SECTOR_SIZE in *. lia.
  - apply length_new_journal.
Qed.

Lemma run_extent file :
  vf_first_sector file = in_first_sector a → vf_sector_count file = in_sector_count a →
  take (vf_len file) (vf_bytes file) = p →
  write_vertexfs_file_extent file img1 = (Ok tt, img2).
Proof.
  intros Hf Hc Hb. destruct regions_ok as [R1 R2 R3 _]. destruct He as [E1 E2 E3 _ _ _].
  destruct length_images as (L1 & _ & _). pose proof (lo_data _ HL). pose proof (lo_inode_sectors _ HL).
  unfold write_vertexfs_file_extent, rbind, rguard. rewrite Hf, Hc, Hb.
  rewrite (proj2 (Z.leb_le _ _)) by (unfold VERTEXFS_SECTOR_SIZE, u32_max; lia).
  unfold img2. apply on_sectors_run; [lia..| | |].
  - unfold aoff, alen in *. lia.
  - unfold rmodify. rewrite length_slice; [done|]. unfold aoff, alen in *. lia.
  - apply length_new_extent.
Qed.

Lemma run_has_inode : vertexfs_image_has_inode img2 VERTEXFS_INODE_APP_A = Ok true.
Proof.
  destruct regions_ok as [R1 R2 R3 _]. destruct agree_images as (_ & A2 & _).
  destruct length_images as (_ & L2 & _). pose proof (lo_inodes _ HL). pose proof (lo_inode_sectors _ HL).
  unfold vertexfs_image_has_inode. rewrite (layout_agree _ A2). cbn [res_bind].
  unfold vertexfs_image_section. rewrite sector_range_slice
    by (unfold ioff, ilen, VERTEXFS_SECTOR_SIZE in *; lia).
  fold ioff. fold ilen. rewrite table_before. cbn [res_bind]. by rewrite (scan_app_a L t ino).
Qed.

Lemma run_record file :
  vf_inode_id file = VERTEXFS_INODE_APP_A → vf_len file = length p →
  write_vertexfs_inode_record file (vertexfs_checksum32 p) img2 = (Ok tt, img3).
Proof.
  intros Hi Hn. destruct regions_ok as [R1 R2 R3 _]. destruct agree_images as (_ & A2 & _).
  destruct length_images as (_ & L2 & _). pose proof (lo_inodes _ HL). pose proof (lo_inode_sectors _ HL).
  unfold write_vertexfs_inode_record. unfold rbind at 1, rget at 1. unfold rbind at 1, rlift at 1.
  rewrite (layout_agree _ A2). unfold img3. apply on_sectors_run; [lia..| | |].
  - unfold ioff, ilen in *. lia.
  - fold ioff. fold ilen. rewrite table_before. unfold rbind, rget, rlift, rmodify.
    unfold vertexfs_inode_offset_by_id. rewrite Hi, (scan_app_a L t ino HL Htok). cbn [res_bind ok_or].
    rewrite Hn. done.
  - apply length_new_table.
Qed.

Lemma run_clean : write_vertexfs_journal_clean img3 = (Ok tt, img4).
Proof.
  destruct regions_ok as [R1 R2 R3 _]. pose proof (lo_journal _ HL). pose proof (lo_inode_sectors _ HL).
  destruct agree_images as (_ & _ & A3). destruct length_images as (_ & _ & L3).
  unfold write_vertexfs_journal_clean, rbind, rget, rlift. rewrite (layout_agree _ A3).
  unfold img4. apply on_sectors_run; [lia..| | |].
  - unfold joff, VERTEXFS_SECTOR_SIZE in *. lia.
  - unfold rmodify. rewrite length_slice; [done|]. unfold joff, VERTEXFS_SECTOR_SIZE in *. lia.
  - apply length_clean_journal.
Qed.

(** ** The recorded writes *)

Definition sync_writes : list VertexFsDeviceWrite :=
  sector_writes img1 (journal_sector L) 1 ++
  sector_writes img2 (in_first_sector a) (Z.to_nat (in_sector_count a)) ++
  sector_writes img3 (inode_table_sector L) (Z.to_nat (inode_table_sectors L)) ++
  sector_writes img4 (journal_sector L) 1.

Lemma commit_run v cap file :
  vertexfs_image v = img → length (vertexfs_sync_writes v) = cap →
  vf_inode_id file = VERTEXFS_INODE_APP_A →
  vf_first_sector file = in_first_sector a → vf_sector_count file = in_sector_count a →
  take (vf_len file) (vf_bytes file) = p → vf_len file = length p →
  length sync_writes ≤ cap →
  is_ok (parse_vertexfs_image img4) = true →
  ∃ v', commit_vertexfs_file_to_image file (vertexfs_checksum32 p) v = (Ok (length sync_writes), v') ∧
    sync_state v' cap img4 sync_writes.
Proof.
  intros Hv Hcap Hi Hf Hc Hb Hn Hle Hparse. destruct regions_ok as [R1 R2 R3 _]. destruct He as [E1 E2 E3 _ _ _].
  destruct length_images as (L1 & L2 & L3). destruct agree_images as (A1 & A2 & A3).
  assert (L4 : length img4 = length img) by (unfold img4; by rewrite length_write_bytes).
  pose proof (lo_inodes _ HL) as Li. pose proof (lo_inode_sectors _ HL) as Lis.
  pose proof (lo_journal _ HL) as Lj. pose proof (lo_data _ HL) as Ld.
  unfold sync_writes in *. rewrite !length_app, !length_sector_writes in *.
  assert (Hsz : VERTEXFS_SECTOR_SIZE = 512) by done.
  unfold commit_vertexfs_file_to_image. rewrite Hc, Hf, Hi, Hn.
  rewrite (rbind_step _ _ _ tt v) by (unfold rguard; rewrite (proj2 (Z.leb_le _ _)); [done|unfold u32_max; lia]).
  rewrite (rbind_step _ _ _ tt v).
  2: { unfold rguard. rewrite (proj2 (Z.ltb_ge _ _)), (proj2 (Nat.ltb_ge _ _)); [done| |lia].
       unfold VERTEXFS_JOURNAL_PAYLOAD_OFFSET. lia. }
  unfold rbind at 1, rmodify at 1. unfold rbind at 1, rget at 1. set (v0 := v <| vertexfs_sync_write_count := 0 |>).
  assert (S0 : sync_state v0 cap img []) by (by split).
  rewrite (rbind_step _ _ _ (journal_sector L) v0).
  2: { unfold rlift, vertexfs_journal_sector. rewrite (ss_image _ _ _ _ S0). by rewrite (layout_agree img). }
  rewrite <-Hn, Hb.
  destruct (on_image_run _ v0 cap img [] _ _ S0 run_pending) as (v1 & Hr1 & S1). rewrite (rbind_step _ _ _ _ _ Hr1).
  destruct (record_sector_run v1 cap img1 [] (journal_sector L) S1) as (v2 & Hr2 & S2);
    [cbn; lia|lia|unfold joff in *; lia|]. rewrite (rbind_step _ _ _ _ _ Hr2).
  destruct (on_image_run _ v2 cap img1 _ _ _ S2 (run_extent file Hf Hc Hb)) as (v3 & Hr3 & S3).
  rewrite (rbind_step _ _ _ _ _ Hr3).
  destruct (record_section_run (Z.to_nat (in_sector_count a)) v3 cap img2 _ (in_first_sector a) S3)
    as (v4 & Hr4 & S4); [cbn [app length sector_writes]; lia|lia|lia|unfold aoff, alen in *; lia|].
  rewrite (rbind_step _ _ _ _ _ Hr4). unfold rbind at 1, rget at 1.
  rewrite (rbind_step _ _ _ true v4) by (unfold rlift; by rewrite (ss_image _ _ _ _ S4), run_has_inode).
  rewrite (rbind_step _ _ _ (inode_table_sector L, inode_table_sectors L) v4).
  2: { unfold rlift, vertexfs_inode_table_section. rewrite (ss_image _ _ _ _ S4). by rewrite (layout_agree _ A2). }
  destruct (on_image_run _ v4 cap img2 _ _ _ S4 (run_record file Hi Hn)) as (v5 & Hr5 & S5).
  destruct (record_section_run (Z.to_nat (inode_table_sectors L)) v5 cap img3 _ (inode_table_sector L) S5)
    as (v6 & Hr6 & S6);
    [rewrite length_app, length_sector_writes; cbn [app length sector_writes]; lia|lia|lia
    |unfold ioff, ilen in *; lia|].
  rewrite (rbind_step _ _ _ tt v6) by (by rewrite (rbind_step _ _ _ _ _ Hr5)).
  destruct (on_image_run _ v6 cap img3 _ _ _ S6 run_clean) as (v7 & Hr7 & S7). rewrite (rbind_step _ _ _ _ _ Hr7).
  destruct (record_sector_run v7 cap img4 _ (journal_sector L) S7) as (v8 & Hr8 & S8);
    [rewrite !length_app, !length_sector_writes; cbn [app length sector_writes]; lia|lia
    |unfold joff in *; lia|].
  rewrite (rbind_step _ _ _ _ _ Hr8). unfold rbind, rget, rlift, rret. rewrite (ss_image _ _ _ _ S8).
  destruct (parse_vertexfs_image img4); [|done]. exists v8. cbn [map_err app] in *.
  rewrite (ss_count _ _ _ _ S8), <-!app_assoc in *. rewrite !length_app, !length_sector_writes. done.
Qed.

(** ** The states of the disk *)

Lemma disk_after_app disk ws ws' : disk_after disk (ws ++ ws') = disk_after (disk_after disk ws) ws'.
Proof. unfold disk_after. by rewrite foldl_app. Qed.

Lemma region_write image image' first off len src n :
  off = Z.to_nat first * VERTEXFS_SECTOR_SIZE → len = length src → off + len ≤ length image →
  image' = write_bytes image off src → (0 ≤ first)%Z → n * VERTEXFS_SECTOR_SIZE ≤ len →
  disk_after image (sector_writes image' first n) = write_bytes image off (take (n * VERTEXFS_SECTOR_SIZE) src).
Proof.
  intros Hoff Hlen Hb -> Hf Hn. rewrite disk_after_sectors; [|done|by rewrite length_write_bytes|
    rewrite length_write_bytes; unfold VERTEXFS_SECTOR_SIZE in *; lia].
  rewrite <-Hoff. rewrite slice_write_within by lia. rewrite Nat.sub_diag. unfold slice. by rewrite drop_0.
Qed.

(** What is on disk after [k] of the writes. *)
Lemma disk_prefix k :
  k ≤ length sync_writes →
  let sc := Z.to_nat (in_sector_count a) in
  let ns := Z.to_nat (inode_table_sectors L) in
  disk_after img (take k sync_writes) =
  if decide (k = 0) then img
  else if decide (k ≤ 1 + sc) then write_bytes img1 aoff (take ((k - 1) * VERTEXFS_SECTOR_SIZE) new_extent)
  else if decide (k ≤ 1 + sc + ns) then
    write_bytes img2 ioff (take ((k - 1 - sc) * VERTEXFS_SECTOR_SIZE) new_table)
  else img4.
Proof.
  intros Hk sc ns. destruct regions_ok as [R1 R2 R3 _]. destruct He as [E1 E2 E3 _ _ _].
  destruct length_images as (L1 & L2 & L3). pose proof (lo_inodes _ HL). pose proof (lo_inode_sectors _ HL).
  pose proof (lo_journal _ HL). pose proof (lo_data _ HL).
  pose proof length_new_journal as N1. pose proof length_new_extent as N2. pose proof length_new_table as N3.
  pose proof length_clean_journal as N4. assert (Hsz : VERTEXFS_SECTOR_SIZE = 512) by done.
  assert (W1 : disk_after img (sector_writes img1 (journal_sector L) 1) = img1).
  { rewrite (region_write img img1 _ joff 512 new_journal); try done; try lia.
    rewrite take_ge by lia. done. }
  assert (W2 : ∀ m, m ≤ sc → disk_after img1 (sector_writes img2 (in_first_sector a) m) =
                             write_bytes img1 aoff (take (m * VERTEXFS_SECTOR_SIZE) new_extent)).
  { intros m Hm. apply (region_write _ _ _ aoff alen new_extent); done || (unfold alen in *; nia). }
  assert (W3 : ∀ m, m ≤ ns → disk_after img2 (sector_writes img3 (inode_table_sector L) m) =
                             write_bytes img2 ioff (take (m * VERTEXFS_SECTOR_SIZE) new_table)).
  { intros m Hm. apply (region_write _ _ _ ioff ilen new_table); done || (unfold ilen in *; nia). }
  assert (W4 : disk_after img3 (sector_writes img4 (journal_sector L) 1) = img4).
  { rewrite (region_write img3 img4 _ joff 512 clean_journal); try done; try lia.
    rewrite take_ge by lia. done. }
  unfold sync_writes in *. rewrite !length_app, !length_sector_writes in Hk.
  rewrite !take_app, !length_sector_writes, !take_sector_writes, !disk_after_app.
  fold sc ns in Hk |- *. repeat case_decide; try lia.
  - subst k. done.
  - replace (Nat.min k 1) with 1 by lia. rewrite W1. replace (Nat.min (k - 1) sc) with (k - 1) by lia.
    rewrite W2 by lia. replace (k - 1 - sc) with 0 by lia. done.
  - replace (Nat.min k 1) with 1 by lia. rewrite W1. replace (Nat.min (k - 1) sc) with sc by lia.
    rewrite W2 by lia. rewrite (take_ge new_extent) by (unfold alen in *; lia). fold img2.
    replace (Nat.min (k - 1 - sc) ns) with (k - 1 - sc) by lia. rewrite W3 by lia.
    replace (k - 1 - sc - ns) with 0 by lia. done.
  - replace (Nat.min k 1) with 1 by lia. rewrite W1. replace (Nat.min (k - 1) sc) with sc by lia.
    rewrite W2 by lia. rewrite (take_ge new_extent) by (unfold alen in *; lia). fold img2.
    replace (Nat.min (k - 1 - sc) ns) with ns by lia. rewrite W3 by lia.
    rewrite (take_ge new_table) by (unfold ilen in *; lia). fold img3.
    replace (Nat.min (k - 1 - sc - ns) 1) with 1 by lia. done.
Qed.

(** A table written in part is written in full: the rest is what was there. *)
Lemma table_prefix m :
  1 ≤ m → m ≤ Z.to_nat (inode_table_sectors L) →
  write_bytes img2 ioff (take (m * VERTEXFS_SECTOR_SIZE) new_table) = img3.
Proof.
  intros Hm Hm'. destruct regions_ok as [R1 R2 R3 [R4 R5]]. destruct length_images as (L1 & L2 & L3).
  pose proof length_new_table as N3. assert (Hsz : VERTEXFS_SECTOR_SIZE = 512) by done.
  assert (Hn : length (take (m * VERTEXFS_SECTOR_SIZE) new_table) = m * VERTEXFS_SECTOR_SIZE).
  { rewrite length_take, N3. unfold ilen. nia. }
  assert (Hle : m * VERTEXFS_SECTOR_SIZE ≤ ilen) by (unfold ilen; nia).
  apply list_eq. intros i. unfold img3. rewrite !lookup_write_bytes by lia. rewrite Hn, N3.
  repeat case_decide; try lia; [by rewrite lookup_take_lt by lia| |done].
  assert (Hnt : new_table !! (i - ioff) = t !! (i - ioff)).
  { assert (Hs : slice new_table 512 (ilen - 512) = slice t 512 (ilen - 512)).
    { unfold new_table. apply table_update_slice; lia. }
    apply (f_equal (λ l, l !! (i - ioff - 512))) in Hs. rewrite !lookup_slice in Hs by lia.
    by replace (512 + (i - ioff - 512)) with (i - ioff) in Hs by lia. }
  rewrite Hnt. rewrite <-table_before. rewrite lookup_slice by lia. f_equal. lia.
Qed.

(** ** Recovery *)

Lemma app_a_id : in_id a = VERTEXFS_INODE_APP_A.
Proof.
  pose proof (tb_result _ _ _ Htok) as Hr. pose proof (table_ids _ _ _ Htok) as (_ & _ & _ & Hid).
  unfold a. rewrite Hr. exact Hid.
Qed.

Lemma old_checksum : vertexfs_checksum32 old = in_checksum a.
Proof.
  pose proof (layout_for_sector _ _ _ (pd_sb _ _ _ _ _ _ _ _ _ HP) (pd_layout _ _ _ _ _ _ _ _ _ HP)) as Hl.
  pose proof (pd_app _ _ _ _ _ _ _ _ _ HP) as Hr. unfold vertexfs_recoverable_file_payload in Hr.
  apply res_bind_ok in Hr as ([[d f] e] & Hd & Hr). apply (file_extent_iff L HL _ _ _ _ _ Hl) in Hd as (_ & _ & [_ _ _ _ _ Hd]).
  destruct He as [_ _ _ _ _ Ho]. fold a in Hd. rewrite <-Ho in Hd. subst d.
  destruct (Z.eqb_spec (vertexfs_checksum32 old) (in_checksum (pi_app_a ino))); done.
Qed.

(** Data is found if it matches the inode, or if the journal holds what the
    extent starts with. *)
Lemma recover image inode d :
  vertexfs_layout_for_image image = Ok L → extent_ok L image inode d → in_id inode = VERTEXFS_INODE_APP_A →
  vertexfs_checksum32 d = in_checksum inode ∨
  slice image (Z.to_nat (in_first_sector inode) * VERTEXFS_SECTOR_SIZE) (length p) = p ∧
    (byte_of (in_first_sector inode) + Z.of_nat (length p) ≤ Z.of_nat (length image))%Z →
  ∃ b, vertexfs_recoverable_file_payload image inode (Some (mkVertexFsJournalRecord VERTEXFS_INODE_APP_A p)) =
    Ok (b, in_first_sector inode, (in_first_sector inode + in_sector_count inode)%Z).
Proof.
  intros Hl Hex Hid Hor. unfold vertexfs_recoverable_file_payload.
  rewrite (proj2 (file_extent_iff L HL image inode d _ _ Hl) (conj eq_refl (conj eq_refl Hex))). cbn [res_bind].
  destruct (Z.eqb_spec (vertexfs_checksum32 d) (in_checksum inode)) as [|Hne]; [by eexists|].
  destruct Hor as [|[Hs Hb]]; [done|]. cbn [jr_target_inode jr_payload]. rewrite Hid. change (4 =? 4)%Z with true.
  assert (Hst : vertexfs_extent_starts_with image inode p = true).
  { destruct Hex as [E1 E2 E3 _ _ _]. pose proof (lo_data _ HL). pose proof (lo_inode_sectors _ HL).
    unfold vertexfs_extent_starts_with, checked_mul, checked_add, u64_max, VERTEXFS_SECTOR_SIZE in *.
    rewrite (proj2 (Z.leb_le _ _)) by lia. rewrite (proj2 (Z.leb_le _ _)) by lia.
    unfold get_range. rewrite (proj2 (Z.leb_le _ _)), (proj2 (Z.leb_le _ _)) by lia. cbn [andb].
    apply bool_decide_eq_true. rewrite <-Hs at 2. unfold slice. f_equal; [lia|]. f_equal. lia. }
  rewrite Hst. by eexists.
Qed.

(** The new inode of [app/a]. *)
Definition new_inodes : VertexFsParsedInodes :=
  mkVertexFsParsedInodes (pi_readme ino) (resized a (Z.of_nat (length p)) (vertexfs_checksum32 p)) (pi_dynamic ino).

(** A disk on which the journal is pending, with the table [t'] and [inodes']. *)
Lemma pending_parses image t' ino' d :
  agree (elsewhere L a) img image → slice image joff 512 = new_journal →
  slice image ioff ilen = t' → table_ok L t' ino' →
  (t' = t ∧ ino' = ino ∨ t' = new_table ∧ ino' = new_inodes) →
  extent_ok L image (pi_app_a ino') d →
  vertexfs_checksum32 d = in_checksum (pi_app_a ino') ∨ slice image aoff (length p) = p →
  parse_vertexfs_image image = Ok (boot_of gen ino' rd (p, true)).
Proof.
  intros Hag Hj Hi Hok Hcase Hex Hor. destruct regions_ok as [R1 R2 R3 [R4 R5]]. destruct He as [E1 E2 E3 _ _ _].
  pose proof (lo_inodes _ HL). pose proof (lo_inode_sectors _ HL). pose proof (lo_journal _ HL). pose proof (lo_data _ HL).
  pose proof (ag_length _ _ _ Hag) as Hlen. assert (Hsz : VERTEXFS_SECTOR_SIZE = 512) by done.
  pose proof (layout_of_layout_for L image (layout_agree image Hag)) as Hlay.
  assert (Hsame : in_first_sector (pi_app_a ino') = in_first_sector a ∧
                  in_sector_count (pi_app_a ino') = in_sector_count a ∧
                  in_id (pi_app_a ino') = VERTEXFS_INODE_APP_A ∧ pi_readme ino' = pi_readme ino ∧
                  pi_dynamic ino' = pi_dynamic ino).
  { pose proof app_a_id. by destruct Hcase as [[_ ->]|[_ ->]]. }
  destruct Hsame as (Hf & Hc & Hid & Hrd & Hdy).
  destruct (recover image (pi_app_a ino') d Hlay Hex Hid) as [b Hb].
  { destruct Hor as [|Hs]; [by left|right]. rewrite Hf. split; [done|]. unfold aoff, alen in *. lia. }
  eapply (crash_state L HL img image sb gen None ino rd base recovered t t' ino'); try done.
  - unfold vertexfs_section. rewrite sector_range_slice; [|lia|lia|lia|unfold ioff, ilen in *; lia].
    fold ioff ilen. by rewrite Hi.
  - intros i. destruct Hcase as [[-> _]|[-> _]]; [done|]. apply update_name_string. lia.
  - eapply (parse_journal_pending L HL image VERTEXFS_SECTOR_SIZE VERTEXFS_INODE_APP_A p);
      [rewrite Hsz; lia|rewrite Hsz; lia|done|].
    unfold vertexfs_sector. rewrite sector_range_slice; [|lia|lia|lia|unfold joff in *; lia].
    fold joff. change (Z.to_nat 1 * VERTEXFS_SECTOR_SIZE) with 512. by rewrite Hj.
  - fold a. rewrite Hb. by rewrite Hf, Hc.
  - unfold vertexfs_replay_journal. cbn [jr_target_inode jr_payload]. rewrite Hid, Hc.
    change (VERTEXFS_INODE_APP_A =? VERTEXFS_INODE_APP_A)%Z with true. cbn [andb res_guard res_bind].
    rewrite (proj2 (Nat.leb_le _ _)) by (unfold MAX_VERTEXFS_FILE_BYTES; lia). cbn [res_guard res_bind].
    rewrite (proj2 (Z.leb_le _ _)) by lia. done.
Qed.

Lemma new_table_ok : table_ok L new_table new_inodes.
Proof.
  destruct regions_ok as [R1 R2 R3 [R4 R5]].
  apply table_update_ok; try done; [apply HL|lia|lia|apply checksum_range].
Qed.

Lemma section_of image t' :
  length image = length img → slice image ioff ilen = t' →
  vertexfs_section image (inode_table_sector L) (inode_table_sectors L) = Ok t'.
Proof.
  intros Hl Hs. destruct regions_ok as [R1 R2 R3 _]. pose proof (lo_inodes _ HL). pose proof (lo_inode_sectors _ HL).
  unfold vertexfs_section. rewrite sector_range_slice; [|lia|lia|lia|unfold ioff, ilen in *; lia].
  fold ioff ilen. by rewrite Hs.
Qed.

Lemma same_extent image d len c :
  length image = length img → (0 ≤ len ≤ Z.of_nat MAX_VERTEXFS_FILE_BYTES)%Z →
  (byte_of (in_first_sector a) + len ≤ Z.of_nat (length img))%Z →
  slice image aoff (Z.to_nat len) = d → extent_ok L image (resized a len c) d.
Proof. intros Hl Hlen Hb Hd. destruct He as [E1 E2 E3 _ _ _]. split; try done. by rewrite Hl. Qed.

(** The journal is written, or a part of the data as well. *)
Lemma data_written m :
  m ≤ Z.to_nat (in_sector_count a) →
  parse_vertexfs_image (write_bytes img1 aoff (take (m * VERTEXFS_SECTOR_SIZE) new_extent)) =
  Ok (boot_of gen ino rd (p, true)).
Proof.
  intros Hm. destruct regions_ok as [R1 R2 R3 [R4 R5]]. destruct length_images as (L1 & L2 & L3).
  destruct agree_images as (A1 & _). pose proof length_new_journal as N1. pose proof length_new_extent as N2.
  assert (Hsz : VERTEXFS_SECTOR_SIZE = 512) by done. set (w := take _ new_extent).
  assert (Hw : length w = m * 512) by (unfold w; rewrite length_take, N2, Hsz; unfold alen in *; lia).
  assert (Hml : m * 512 ≤ alen) by (unfold alen; lia).
  assert (Lw : length (write_bytes img1 aoff w) = length img) by (by rewrite length_write_bytes).
  destruct He as [E1 E2 E3 E4 E5 E6].
  eapply (pending_parses _ t ino (slice (write_bytes img1 aoff w) aoff (Z.to_nat (in_size a)))).
  - eapply agree_trans; [exact A1|]. apply agree_region; [done|]. lia.
  - rewrite slice_write_other by lia. unfold img1. apply slice_write_same; lia.
  - rewrite slice_write_other by lia. unfold img1. rewrite slice_write_other by lia. done.
  - done.
  - by left.
  - fold a. split; try done. by rewrite Lw.
  - fold a. destruct (decide (m = 0)) as [->|Hm0].
    + left. rewrite <-old_checksum, E6. f_equal. apply nil_length_inv in Hw. rewrite Hw.
      replace (write_bytes img1 aoff []) with img1.
      2: { apply list_eq. intros i. rewrite lookup_write_bytes by (cbn [length]; lia).
           rewrite decide_False by (cbn [length]; lia). done. }
      unfold img1. apply slice_write_other; [lia|]. right. lia.
    + right. rewrite slice_write_within by lia. rewrite Nat.sub_diag. unfold w.
      apply list_eq. intros i. destruct (decide (i < length p)) as [Hi|Hi].
      * rewrite lookup_slice by lia. rewrite Nat.add_0_l, lookup_take_lt by nia. unfold new_extent.
        rewrite lookup_write_bytes by (rewrite length_replicate; lia). rewrite decide_True by lia. f_equal. lia.
      * rewrite !lookup_ge_None_2; [done|lia|]. unfold slice. rewrite length_take. lia.
Qed.

Lemma extent_holds image :
  length image = length img → slice image aoff alen = new_extent → slice image aoff (length p) = p.
Proof.
  intros Hl Hs. destruct regions_ok as [R1 R2 R3 [R4 R5]].
  transitivity (slice (slice image aoff alen) 0 (length p)).
  - apply list_eq. intros i. destruct (decide (i < length p)) as [Hi|Hi].
    + by rewrite !lookup_slice by lia.
    + rewrite !lookup_ge_None_2; [done|..]; unfold slice; rewrite length_take; lia.
  - rewrite Hs. unfold new_extent. apply slice_write_same; [rewrite length_replicate; lia|done].
Qed.

(** The inode table is written as well. *)
Lemma table_written : parse_vertexfs_image img3 = Ok (boot_of gen new_inodes rd (p, true)).
Proof.
  destruct regions_ok as [R1 R2 R3 [R4 R5]]. destruct length_images as (L1 & L2 & L3).
  destruct agree_images as (_ & _ & A3). pose proof length_new_journal as N1. pose proof length_new_extent as N2.
  pose proof length_new_table as N3. destruct He as [E1 E2 E3 E4 E5 E6].
  assert (Hx : slice img3 aoff alen = new_extent).
  { unfold img3. rewrite slice_write_other by lia. unfold img2. apply slice_write_same; lia. }
  eapply (pending_parses _ new_table new_inodes p); try done.
  - unfold img3. rewrite slice_write_other by lia. unfold img2. rewrite slice_write_other by lia.
    unfold img1. apply slice_write_same; lia.
  - unfold img3. apply slice_write_same; lia.
  - apply new_table_ok.
  - by right.
  - cbn [new_inodes pi_app_a]. apply same_extent; [done|unfold MAX_VERTEXFS_FILE_BYTES; lia| |].
    + unfold aoff, alen, VERTEXFS_SECTOR_SIZE in *. lia.
    + rewrite Nat2Z.id. by apply extent_holds.
  - by left.
Qed.

(** The journal is clean again. *)
Lemma journal_cleaned : parse_vertexfs_image img4 = Ok (boot_of gen new_inodes rd (p, false)).
Proof.
  destruct regions_ok as [R1 R2 R3 [R4 R5]]. destruct length_images as (L1 & L2 & L3).
  destruct agree_images as (_ & _ & A3). pose proof length_new_journal as N1. pose proof length_new_extent as N2.
  pose proof length_new_table as N3. pose proof length_clean_journal as N4. destruct He as [E1 E2 E3 E4 E5 E6].
  pose proof (lo_journal _ HL). pose proof (lo_inode_sectors _ HL).
  assert (L4 : length img4 = length img) by (unfold img4; by rewrite length_write_bytes).
  assert (A4 : agree (elsewhere L a) img img4).
  { eapply agree_trans; [exact A3|]. apply agree_region; [done|lia]. }
  pose proof (layout_of_layout_for L img4 (layout_agree img4 A4)) as Hlay.
  assert (Hx : slice img4 aoff alen = new_extent).
  { unfold img4. rewrite slice_write_other by lia. unfold img3. rewrite slice_write_other by lia.
    unfold img2. apply slice_write_same; lia. }
  assert (Hex : extent_ok L img4 (pi_app_a new_inodes) p).
  { apply same_extent; [done|unfold MAX_VERTEXFS_FILE_BYTES; lia| |].
    + unfold aoff, alen, VERTEXFS_SECTOR_SIZE in *. lia.
    + rewrite Nat2Z.id. by apply extent_holds. }
  eapply (crash_state L HL img img4 sb gen None ino rd base recovered t new_table new_inodes None p); try done.
  - apply section_of; [done|]. unfold img4. rewrite slice_write_other by lia. unfold img3. apply slice_write_same; lia.
  - apply new_table_ok.
  - intros i. apply update_name_string. lia.
  - apply (parse_journal_clean L HL _ VERTEXFS_SECTOR_SIZE); [unfold VERTEXFS_SECTOR_SIZE; lia|].
    unfold vertexfs_sector. rewrite sector_range_slice; [|lia|lia|lia|unfold joff, VERTEXFS_SECTOR_SIZE in *; lia].
    fold joff. change (Z.to_nat 1 * VERTEXFS_SECTOR_SIZE) with 512. unfold img4.
    rewrite slice_write_same by lia. done.
  - unfold vertexfs_recoverable_file_payload.
    rewrite (proj2 (file_extent_iff L HL img4 _ p _ _ Hlay) (conj eq_refl (conj eq_refl Hex))). cbn [res_bind].
    cbn [new_inodes pi_app_a in_checksum resized]. rewrite Z.eqb_refl. done.
Qed.
End sync.

(** * The theorem *)

(** What the parser finds on a disk to which [k] of the [n] writes of a sync of
    [app/a] have been made. *)
Record recovered_boot (boot : VertexFsBootFiles) (new : list byte) (k n : nat) (boot' : VertexFsBootFiles) : Prop :=
  mk_recovered_boot {
  rb_generation : boot_generation boot' = boot_generation boot;
  rb_readme : boot_readme boot' = boot_readme boot;
  rb_app_a : bf_payload (boot_app_a boot') = if decide (k = 0) then bf_payload (boot_app_a boot) else new;
  rb_extent : in_first_sector (bf_inode (boot_app_a boot')) = in_first_sector (bf_inode (boot_app_a boot)) ∧
    in_sector_count (bf_inode (boot_app_a boot')) = in_sector_count (bf_inode (boot_app_a boot));
  rb_replayed : journal_replayed boot' = bool_decide (0 < k < n)
}.

Lemma clean_parsed image boot :
  parse_vertexfs_image image = Ok boot → journal_replayed boot = false →
  ∃ L sb gen ino rd base recovered t old,
    layout_ok L ∧ parsed image L sb gen None ino rd base recovered ∧ boot = boot_of gen ino rd recovered ∧
    recovered.2 = false ∧
    vertexfs_section image (inode_table_sector L) (inode_table_sectors L) = Ok t ∧
    table_ok L t ino ∧ extent_ok L image (pi_app_a ino) old.
Proof.
  intros (L & sb & gen & j & ino & rd & base & rc & HP & ->)%parse_parsed Hrep. cbn [boot_of journal_replayed] in Hrep.
  assert (Hj : j = None).
  { pose proof (pd_replay _ _ _ _ _ _ _ _ _ HP) as Hr. destruct j as [rec|]; [|done]. exfalso.
    unfold vertexfs_replay_journal in Hr. apply res_bind_ok in Hr as (? & _ & Hr).
    apply res_bind_ok in Hr as (? & _ & Hr). apply res_bind_ok in Hr as (? & _ & Hr). by injection Hr as <-. }
  subst j. pose proof (layout_from_superblock_ok _ _ (pd_layout _ _ _ _ _ _ _ _ _ HP)) as HL.
  destruct (proj1 (parse_inode_table_ok L image ino) (pd_inodes _ _ _ _ _ _ _ _ _ HP)) as (t & Ht & Htok).
  pose proof (layout_for_sector _ _ _ (pd_sb _ _ _ _ _ _ _ _ _ HP) (pd_layout _ _ _ _ _ _ _ _ _ HP)) as Hl.
  pose proof (pd_app _ _ _ _ _ _ _ _ _ HP) as Hp. unfold vertexfs_recoverable_file_payload in Hp.
  apply res_bind_ok in Hp as ([[old f] e] & Hd & _).
  apply (file_extent_iff L HL _ _ _ _ _ Hl) in Hd as (_ & _ & He).
  by exists L, sb, gen, ino, rd, base, rc, t, old.
Qed.

(** What a commit of [app/a] leaves behind after each of its writes. *)
Lemma sync_crash_core v file boot :
  let new := take (vf_len file) (vf_bytes file) in
  parse_vertexfs_image (vertexfs_image v) = Ok boot → journal_replayed boot = false →
  vf_inode_id file = VERTEXFS_INODE_APP_A →
  vf_first_sector file = in_first_sector (bf_inode (boot_app_a boot)) →
  vf_sector_count file = in_sector_count (bf_inode (boot_app_a boot)) →
  vf_len file ≤ length (vf_bytes file) →
  vf_len file ≤ VERTEXFS_SECTOR_SIZE - VERTEXFS_JOURNAL_PAYLOAD_OFFSET →
  (byte_of (vf_first_sector file + vf_sector_count file) ≤ Z.of_nat (length (vertexfs_image v)))%Z →
  Z.to_nat (vf_sector_count file) + 10 ≤ length (vertexfs_sync_writes v) →
  ∃ n v', commit_vertexfs_file_to_image file (vertexfs_checksum32 new) v = (Ok n, v') ∧
    vertexfs_image v' = disk_after (vertexfs_image v) (take n (vertexfs_sync_writes v')) ∧
    ∀ k, k ≤ n → ∃ boot',
      parse_vertexfs_image (disk_after (vertexfs_image v) (take k (vertexfs_sync_writes v'))) = Ok boot' ∧
      recovered_boot boot new k n boot'.
Proof.
  intros new Hparse Hrep Hi Hf Hc Hb Hn Hfit Hcap.
  destruct (clean_parsed _ _ Hparse Hrep) as (L & sb & gen & ino & rd & base & rc & t & old & HL & HP & -> & Hrc & Ht & Htok & He).
  cbn [boot_of boot_app_a bf_inode] in Hf, Hc. rewrite Hf, Hc in Hfit. rewrite Hc in Hcap.
  change (VERTEXFS_SECTOR_SIZE - VERTEXFS_JOURNAL_PAYLOAD_OFFSET) with 448 in Hn.
  assert (Hl : length new = vf_len file) by (unfold new; rewrite length_take; lia).
  assert (Hp : length new ≤ 448) by lia. pose proof (lo_inode_sectors _ HL) as Lis.
  set (img := vertexfs_image v) in *.
  set (ws := sync_writes L img ino t new).
  assert (Hlen : length ws = 2 + Z.to_nat (in_sector_count (pi_app_a ino)) + Z.to_nat (inode_table_sectors L)).
  { unfold ws, sync_writes. rewrite !length_app, !length_sector_writes. lia. }
  pose proof (journal_cleaned L HL img sb gen ino rd base rc t old HP Ht Htok He Hfit new Hp) as H4.
  destruct (commit_run L HL img sb gen ino rd base rc t old HP Ht Htok He Hfit new Hp v
              (length (vertexfs_sync_writes v)) file) as (v' & Hrun & [S1 S2 S3 S4]);
    try done; [fold ws; lia|by rewrite H4|]. fold ws in Hrun, S2, S3.
  pose proof (disk_prefix L HL img sb gen ino rd base rc t old HP Ht He Hfit new Hp) as Hdisk. fold ws in Hdisk.
  assert (Htake : ∀ k, k ≤ length ws → take k (vertexfs_sync_writes v') = take k ws).
  { intros k Hk. rewrite <-S3 at 1. rewrite take_take. f_equal. lia. }
  exists (length ws), v'. split; [done|]. split.
  { rewrite Htake by done. rewrite Hdisk by done. rewrite !decide_False by lia. done. }
  intros k Hk. rewrite Htake by done. rewrite Hdisk by done. unfold new in *.
  destruct (decide (k = 0)) as [->|Hk0].
  { eexists. split; [done|]. by split. }
  destruct (decide (k ≤ 1 + _)) as [H1|H1].
  { eexists. split; [eapply data_written; done || lia|].
    split; try done; [cbn; by rewrite decide_False|]. cbn [boot_of journal_replayed snd]. rewrite bool_decide_eq_true_2; [done|lia]. }
  destruct (decide (k ≤ 1 + _ + _)) as [H2|H2].
  { erewrite table_prefix by (done || lia). eexists. split; [eapply table_written; done|].
    split; try done; [cbn; by rewrite decide_False|]. cbn [boot_of journal_replayed snd]. rewrite bool_decide_eq_true_2; [done|lia]. }
  eexists. split; [exact H4|]. split; try done; [cbn; by rewrite decide_False|].
  cbn [boot_of journal_replayed snd]. rewrite bool_decide_eq_false_2; [done|lia].
Qed.

(** A file that the journal record cannot hold is refused. *)
Lemma commit_too_long file checksum v :
  VERTEXFS_SECTOR_SIZE - VERTEXFS_JOURNAL_PAYLOAD_OFFSET < vf_len file →
  commit_vertexfs_file_to_image file checksum v = (Err VfsNoSpace, v).
Proof.
  intros Hl. unfold commit_vertexfs_file_to_image. cbn zeta. unfold rbind at 1, rguard at 1. destruct (_ <=? _)%Z; [|done].
  cbn [rret]. unfold rbind at 1, rguard at 1. rewrite (proj2 (Nat.ltb_lt _ _) Hl), orb_true_r. done.
Qed.

(** C20: Synchronising [app/a] is crash safe.  Take a mounted image with a clean journal
    in which the extent of the file lies, and a queue of sector writes with room for the
    sectors of the file and ten more.  A file of at most 448 bytes, what the journal
    record holds, is committed, and the sector writes that are queued, replayed in order
    on the old disk, produce the image that is left in memory.  After every prefix of
    these writes (a crash anywhere between them) the disk still mounts: generation and
    [readme] are untouched, [app/a] has its old contents if no write was made and exactly
    the new contents otherwise, and the journal is reported replayed just for the proper
    prefixes.  A longer file (files may hold 512 bytes) is refused with [VfsNoSpace], and
    nothing is changed or queued. *)
Theorem sync_crash_safe v file boot :
  let new := take (vf_len file) (vf_bytes file) in
  parse_vertexfs_image (vertexfs_image v) = Ok boot → journal_replayed boot = false →
  vf_inode_id file = VERTEXFS_INODE_APP_A →
  vf_first_sector file = in_first_sector (bf_inode (boot_app_a boot)) →
  vf_sector_count file = in_sector_count (bf_inode (boot_app_a boot)) →
  vf_len file ≤ length (vf_bytes file) →
  (byte_of (vf_first_sector file + vf_sector_count file) ≤ Z.of_nat (length (vertexfs_image v)))%Z →
  Z.to_nat (vf_sector_count file) + 10 ≤ length (vertexfs_sync_writes v) →
  if decide (vf_len file ≤ 448) then
    ∃ n v', commit_vertexfs_file_to_image file (vertexfs_checksum32 new) v = (Ok n, v') ∧
      vertexfs_image v' = disk_after (vertexfs_image v) (take n (vertexfs_sync_writes v')) ∧
      ∀ k, k ≤ n → ∃ boot',
        parse_vertexfs_image (disk_after (vertexfs_image v) (take k (vertexfs_sync_writes v'))) = Ok boot' ∧
        recovered_boot boot new k n boot'
  else commit_vertexfs_file_to_image file (vertexfs_checksum32 new) v = (Err VfsNoSpace, v).
Proof.
  intros new Hparse Hrep Hi Hf Hc Hb Hfit Hcap. case_decide as Hn; [by apply sync_crash_core|].
  apply commit_too_long. change (VERTEXFS_SECTOR_SIZE - VERTEXFS_JOURNAL_PAYLOAD_OFFSET) with 448. lia.
Qed.

(** * Files other than [app/a] *)

(** Computations that only append to the queue of sector writes. *)
Definition appends {A} (c : M VfsState IpcError A) : Prop := ∀ v r v',
  c v = (r, v') → 1 ≤ vertexfs_sync_write_count v →
  1 ≤ vertexfs_sync_write_count v' ∧ vertexfs_sync_writes v' !! 0 = vertexfs_sync_writes v !! 0.

Lemma appends_pure {A} (c : M VfsState IpcError A) : (∀ v, (c v).2 = v) → appends c.
Proof. intros Hc v r v' Hrun Hn. specialize (Hc v). rewrite Hrun in Hc. cbn in Hc. by subst. Qed.
Lemma appends_bind {A B} (c : M VfsState IpcError A) (k : A → M VfsState IpcError B) :
  appends c → (∀ x, appends (k x)) → appends (rbind c k).
Proof.
  intros Hc Hk v r v' Hrun Hn. unfold rbind in Hrun. destruct (c v) as [[x|e] v1] eqn:E.
  - destruct (Hc _ _ _ E Hn) as [H1 H2]. destruct (Hk x _ _ _ Hrun H1) as [H3 H4]. split; congruence.
  - injection Hrun as <- <-. by apply (Hc _ _ _ E).
Qed.
Lemma appends_guard b e : appends (rguard b e).
Proof. apply appends_pure. intros v. by destruct b. Qed.
Lemma appends_lift {A} (r : Result IpcError A) : appends (rlift r).
Proof. by apply appends_pure. Qed.
Lemma appends_on_image {A} (c : M (list byte) IpcError A) : appends (on_image c).
Proof. intros v r v' Hrun Hn. unfold on_image in Hrun. destruct (c (vertexfs_image v)). by injection Hrun as <- <-. Qed.
Lemma appends_sector s : appends (record_vertexfs_sync_sector s).
Proof.
  unfold record_vertexfs_sync_sector. apply appends_bind; [by apply appends_pure|]. intros v0.
  apply appends_bind; [apply appends_guard|]. intros _. apply appends_bind; [apply appends_lift|]. intros bytes v r v' Hrun Hn.
  injection Hrun as <- <-. unfold set. cbn. split; [lia|]. apply list_lookup_insert_ne. lia.
Qed.
Lemma appends_section n : ∀ first, appends (record_vertexfs_sync_section first n).
Proof.
  induction n as [|n IH]; intros first; [by apply appends_pure|].
  apply appends_bind; [apply appends_sector|]. intros _. apply IH.
Qed.

Lemma appends_run {A} (c : M VfsState IpcError A) v r v' :
  c v = (r, v') → 1 ≤ vertexfs_sync_write_count v → appends c →
  1 ≤ vertexfs_sync_write_count v' ∧ vertexfs_sync_writes v' !! 0 = vertexfs_sync_writes v !! 0.
Proof. intros Hrun Hn Hc. by apply (Hc _ _ _ Hrun). Qed.

(** Computations whose result is the length of the queue. *)
Definition returns_count (c : M VfsState IpcError nat) : Prop := ∀ v n v',
  c v = (Ok n, v') → n = vertexfs_sync_write_count v'.

Lemma returns_count_bind {A} (c : M VfsState IpcError A) k :
  (∀ x, returns_count (k x)) → returns_count (rbind c k).
Proof. intros Hk v n v' Hrun. unfold rbind in Hrun. destruct (c v) as [[x|] v1]; [|done]. by apply Hk in Hrun. Qed.
Lemma returns_count_last {A} (r : VfsState → Result IpcError A) :
  returns_count (let! v := rget in let! _ := rlift (r v) in rret (vertexfs_sync_write_count v)).
Proof. intros v n v' Hrun. unfold rbind, rget, rlift, rret in Hrun. destruct (r v); [|done]. by injection Hrun as <- <-. Qed.

Lemma first_recorded v s v' :
  vertexfs_sync_write_count v = 0 → record_vertexfs_sync_sector s v = (Ok tt, v') →
  ∃ bytes, vertexfs_image_sector (vertexfs_image v) s = Ok bytes ∧
    vertexfs_sync_write_count v' = 1 ∧ vertexfs_sync_writes v' !! 0 = Some (mkVertexFsDeviceWrite s bytes).
Proof.
  intros Hc Hrun. unfold record_vertexfs_sync_sector, rbind, rget, rguard, rlift, rmodify in Hrun.
  rewrite Hc in Hrun. destruct (negb _) eqn:Hg; [|done]. apply negb_true_iff, Nat.eqb_neq in Hg.
  destruct (vertexfs_image_sector _ s) as [bytes|] eqn:Hb; [|done]. injection Hrun as <-.
  exists bytes. split; [done|]. unfold set. cbn. rewrite Hc. split; [done|]. apply list_lookup_insert_eq. lia.
Qed.

(** The first write of a commit is its pending journal record. *)
Lemma commit_first_write file checksum v n v' :
  commit_vertexfs_file_to_image file checksum v = (Ok n, v') →
  ∃ js img1 bytes, vertexfs_journal_sector (vertexfs_image v) = Ok js ∧
    length (take (vf_len file) (vf_bytes file)) ≤ 448 ∧
    write_vertexfs_journal_pending (vf_inode_id file) (take (vf_len file) (vf_bytes file)) (vertexfs_image v) =
      (Ok tt, img1) ∧
    vertexfs_image_sector img1 js = Ok bytes ∧ 1 ≤ n ∧
    take 1 (vertexfs_sync_writes v') = [mkVertexFsDeviceWrite js bytes].
Proof.
  unfold commit_vertexfs_file_to_image. intros Hrun. unfold rguard in Hrun at 1. unfold rbind in Hrun at 1.
  destruct (_ <=? _)%Z; [|done]. unfold rbind in Hrun at 1. unfold rguard in Hrun.
  destruct (negb (_ || _)) eqn:Hg; [|done]. apply negb_true_iff, orb_false_iff in Hg as [_ Hg%Nat.ltb_ge].
  unfold rbind at 1, rmodify at 1 in Hrun. unfold rbind at 1, rget at 1 in Hrun.
  set (v0 := v <| vertexfs_sync_write_count := 0 |>) in Hrun. unfold rbind at 1, rlift at 1 in Hrun.
  change (vertexfs_image v0) with (vertexfs_image v) in Hrun.
  destruct (vertexfs_journal_sector (vertexfs_image v)) as [js|] eqn:Hjs; [|done].
  unfold rbind at 1, on_image at 1 in Hrun. change (vertexfs_image v0) with (vertexfs_image v) in Hrun.
  destruct (write_vertexfs_journal_pending _ _ _) as [[[]|] image1] eqn:Hpend; [|done].
  unfold rbind at 1 in Hrun. destruct (record_vertexfs_sync_sector js _) as [[[]|] v1] eqn:Hrec; [|done].
  apply first_recorded in Hrec as (bytes & Hb & Hn1 & Hw); [|done].
  assert (Hn : n = vertexfs_sync_write_count v').
  { refine ((_ : returns_count _) v1 n v' Hrun). do 8 (apply returns_count_bind; intros ?). apply returns_count_last. }
  assert (Ha : 1 ≤ vertexfs_sync_write_count v' ∧ vertexfs_sync_writes v' !! 0 = vertexfs_sync_writes v1 !! 0).
  { eapply appends_run in Hrun; [exact Hrun|lia|].
    repeat first [ apply appends_on_image | apply appends_section | apply appends_sector | apply appends_lift
                 | apply appends_bind; [|intros ?] | progress case_match | by apply appends_pure ]. }
  destruct Ha as [Ha1 Ha2]. rewrite Hw in Ha2. exists js, image1, bytes.
  split_and!; [done| |done|done|lia|].
  - rewrite length_take. unfold VERTEXFS_SECTOR_SIZE, VERTEXFS_JOURNAL_PAYLOAD_OFFSET in Hg. lia.
  - destruct (vertexfs_sync_writes v') as [|w ws]; [done|]. by injection Ha2 as ->.
Qed.

(** After its first write the disk holds that record, under the old superblock. *)
Lemma first_write_disk v file checksum L sb gen j ino rd base rc n v' :
  parsed (vertexfs_image v) L sb gen j ino rd base rc → (0 ≤ vf_inode_id file ≤ u32_max)%Z →
  commit_vertexfs_file_to_image file checksum v = (Ok n, v') →
  let disk := disk_after (vertexfs_image v) (take 1 (vertexfs_sync_writes v')) in
  1 ≤ n ∧ vertexfs_sector disk 0 = Ok sb ∧
  vertexfs_parse_journal L disk =
    Ok (Some (mkVertexFsJournalRecord (vf_inode_id file) (take (vf_len file) (vf_bytes file)))).
Proof.
  intros HP Hid Hrun disk. unfold disk. clear disk.
  apply commit_first_write in Hrun as (js & image1 & bytes & Hjs & Hlen & Hpend & Hb & Hn & ->). split; [done|].
  pose proof (layout_from_superblock_ok _ _ (pd_layout _ _ _ _ _ _ _ _ _ HP)) as HL.
  pose proof (layout_for_sector _ _ _ (pd_sb _ _ _ _ _ _ _ _ _ HP) (pd_layout _ _ _ _ _ _ _ _ _ HP)) as Hl.
  pose proof (lo_journal _ HL). pose proof (lo_inode_sectors _ HL).
  set (img := vertexfs_image v) in *. set (p := take _ _) in *.
  assert (Hlo : layout_of_image img = Ok L) by (unfold layout_of_image; by rewrite Hl).
  unfold vertexfs_journal_sector in Hjs. rewrite Hlo in Hjs. injection Hjs as <-.
  assert (Hin : (Z.to_nat (journal_sector L) + Z.to_nat 1) * VERTEXFS_SECTOR_SIZE ≤ length img).
  { pose proof (pd_journal _ _ _ _ _ _ _ _ _ HP) as Hj. unfold vertexfs_parse_journal in Hj.
    apply res_bind_ok in Hj as (s & Hs & _). apply sector_range_Ok in Hs as [Hs _]; [|lia|lia].
    unfold VERTEXFS_SECTOR_SIZE in *. lia. }
  set (rec := journal_pending_sector L VERTEXFS_SECTOR_SIZE (vf_inode_id file) p).
  assert (Hrec : length rec = VERTEXFS_SECTOR_SIZE).
  { unfold rec. change (journal_pending_sector L _ _ p) with
      (write_vertexfs_sector_checksum (pending_body L VERTEXFS_SECTOR_SIZE (vf_inode_id file) p)).
    by rewrite length_sealed, length_pending_body. }
  assert (H1 : image1 = write_bytes img (Z.to_nat (journal_sector L) * VERTEXFS_SECTOR_SIZE) rec).
  { unfold write_vertexfs_journal_pending, rbind, rget, rlift in Hpend. rewrite Hlo in Hpend.
    erewrite on_sectors_run in Hpend; [by injection Hpend as Hpend|lia|lia|lia|done| |done].
    unfold rmodify. by rewrite length_slice by lia. }
  assert (Hjs : ∀ E (e : E), sector_range image1 (journal_sector L) 1 e = Ok rec).
  { intros E e. rewrite H1, sector_range_slice
      by (rewrite ?length_write_bytes; unfold VERTEXFS_SECTOR_SIZE in *; lia).
    rewrite slice_write_same; [done|rewrite Hrec; lia|by rewrite Hrec]. }
  unfold vertexfs_image_sector in Hb. rewrite Hjs in Hb. injection Hb as <-.
  unfold disk_after. cbn [foldl]. unfold apply_write. cbn [dw_sector dw_bytes]. rewrite <-H1. split.
  - pose proof (pd_sb _ _ _ _ _ _ _ _ _ HP) as Hs. unfold vertexfs_sector in *.
    rewrite (sector_range_agree (λ i, i < VERTEXFS_SECTOR_SIZE) img image1); [done| |lia|].
    + rewrite H1. eapply agree_sub; [|apply agree_write; rewrite Hrec; lia].
      intros i Hi. cbn beta. unfold VERTEXFS_SECTOR_SIZE in *. lia.
    + intros i Hi. unfold VERTEXFS_SECTOR_SIZE in *. lia.
  - apply (parse_journal_pending L HL image1 VERTEXFS_SECTOR_SIZE); [unfold VERTEXFS_SECTOR_SIZE; lia..|done|apply Hjs].
Qed.

(** The journal protects [app/a] only.  When any other file of the image is
    synchronised, the first queued write puts a pending record of that file
    into the journal, and a disk on which only this write was made is rejected
    by the parser, whatever the rest of the image holds. *)
Theorem other_file_crash_rejected v file checksum boot n v' :
  parse_vertexfs_image (vertexfs_image v) = Ok boot →
  (0 ≤ vf_inode_id file ≤ u32_max)%Z → vf_inode_id file ≠ VERTEXFS_INODE_APP_A →
  commit_vertexfs_file_to_image file checksum v = (Ok n, v') →
  1 ≤ n ∧ is_ok (parse_vertexfs_image (disk_after (vertexfs_image v) (take 1 (vertexfs_sync_writes v')))) = false.
Proof.
  intros (L & sb & gen & j & ino & rd & base & rc & HP & ->)%parse_parsed Hid Hne Hrun.
  destruct (first_write_disk _ _ _ _ _ _ _ _ _ _ _ _ _ HP Hid Hrun) as (Hn & Hsb & Hj). split; [done|].
  destruct (parse_vertexfs_image _) as [boot'|] eqn:Hp; [exfalso|done].
  apply parse_parsed in Hp as (L' & sb' & gen' & j' & ino' & rd' & base' & rc' & [Q1 Q2 _ _ Q5 _ _ _ _ _ _ _ Q13] & _).
  rewrite Hsb in Q1. injection Q1 as <-. rewrite (pd_layout _ _ _ _ _ _ _ _ _ HP) in Q2. injection Q2 as <-.
  rewrite Hj in Q5. injection Q5 as <-. unfold vertexfs_replay_journal in Q13.
  apply res_bind_ok in Q13 as (? & Hg%res_guard_ok & _). apply andb_prop in Hg as [Hg%Z.eqb_eq _]. done.
Qed.

(** * A small image

    Version 1, with [readme] and [app/a] in one sector each; the sectors after
    them are left out. *)

Definition section_record (layout : VertexFsLayout) (index : nat) (first count : Z) (s : list byte) : list byte :=
  let offset := section_table_offset layout + index * VERTEXFS_SECTION_RECORD_LEN in
  write_u64_le (write_u64_le s offset first) (offset + 8) count.

Definition sample_superblock (layout : VertexFsLayout) : list byte :=
  let s := write_bytes (replicate 512 0%Z) 0 (superblock_magic layout) in
  let s := write_u16_le s 16 (vl_version layout) in
  let s := write_u16_le s 18 512 in
  let s := write_u32_le s 24 64 in
  let s := write_u32_le s 28 (feature_flags layout) in
  let s := write_bytes s VERTEXFS_V2_VOLUME_OFFSET (string_bytes "vol") in
  let s := write_bytes s (generation_offset layout) (string_bytes "gen") in
  let s := section_record layout 0 (inode_table_sector layout) (inode_table_sectors layout) s in
  let s := section_record layout 1 (directory_sector layout) (directory_sectors layout) s in
  let s := section_record layout 2 (free_map_sector layout) 1 s in
  let s := section_record layout 3 (journal_sector layout) 1 s in
  let s := section_record layout 4 (data_sector layout) (data_sectors layout) s in
  write_vertexfs_sector_checksum s.

Definition sample_inode (index : nat) (inode : VertexFsInode) (name : string) (s : list byte) : list byte :=
  let offset := VERTEXFS_INODE_ENTRY_OFFSET + index * VERTEXFS_INODE_ENTRY_LEN in
  let s := write_u32_le s offset (in_id inode) in
  let s := write_u16_le s (offset + 4) (in_kind inode) in
  let s := write_u64_le s (offset + 8) (in_size inode) in
  let s := write_u64_le s (offset + 16) (in_first_sector inode) in
  let s := write_u32_le s (offset + 24) (in_sector_count inode) in
  let s := write_u32_le s (offset + 28) (in_checksum inode) in
  let s := write_u32_le s (offset + 32) (in_parent inode) in
  write_bytes s (offset + 36) (string_bytes name).

Definition sample_entry (index : nat) (parent child kind : Z) (name : string) (s : list byte) : list byte :=
  let offset := VERTEXFS_DIRECTORY_ENTRY_OFFSET + index * VERTEXFS_DIRECTORY_ENTRY_LEN in
  let s := write_u32_le s offset parent in
  let s := write_u32_le s (offset + 4) child in
  let s := write_u16_le s (offset + 8) kind in
  write_bytes s (offset + 12) (string_bytes name).

Definition sample_readme : list byte := string_bytes "hello".
Definition sample_app_a : list byte := string_bytes "old".

Definition sample_inodes (layout : VertexFsLayout) : list byte :=
  let s := write_bytes (replicate (inode_table_bytes layout) 0%Z) 0 (inode_magic layout) in
  let s := write_u16_le s 16 (vl_version layout) in
  let s := write_u16_le s 18 4 in
  let s := sample_inode 0 (mkVertexFsInode 1 1 0 0 0 0 0) "/" s in
  let s := sample_inode 1 (mkVertexFsInode 2 2 (Z.of_nat (length sample_readme)) (data_sector layout) 1
                             (vertexfs_checksum32 sample_readme) 1) "readme" s in
  let s := sample_inode 2 (mkVertexFsInode 3 1 0 0 0 0 1) "app" s in
  let s := sample_inode 3 (mkVertexFsInode 4 2 (Z.of_nat (length sample_app_a)) (data_sector layout + 1) 1
                             (vertexfs_checksum32 sample_app_a) 3) "a" s in
  write_vertexfs_sector_checksum s.

Definition sample_directory (layout : VertexFsLayout) : list byte :=
  let s := write_bytes (replicate (directory_bytes layout) 0%Z) 0 (directory_magic layout) in
  let s := write_u16_le s 16 (vl_version layout) in
  let s := write_u16_le s 18 3 in
  let s := sample_entry 0 1 2 2 "readme" s in
  let s := sample_entry 1 1 3 1 "app" s in
  let s := sample_entry 2 3 4 2 "a" s in
  write_vertexfs_sector_checksum s.

Definition sample_free_map (layout : VertexFsLayout) : list byte :=
  let s := write_bytes (replicate 512 0%Z) 0 (free_map_magic layout) in
  let s := write_u16_le s 16 (vl_version layout) in
  let s := write_u16_le s 18 64 in
  let s := write_bytes s 32 (replicate (Z.to_nat (data_sector layout) + 2) 1%Z) in
  write_vertexfs_sector_checksum s.

Definition sample_image (layout : VertexFsLayout) : list byte :=
  sample_superblock layout ++ sample_inodes layout ++ sample_directory layout ++ sample_free_map layout ++
  write_vertexfs_sector_checksum (journal_header layout 512 VERTEXFS_JOURNAL_STATE_CLEAN) ++
  write_bytes (replicate 512 0%Z) 0 sample_readme ++ write_bytes (replicate 512 0%Z) 0 sample_app_a.

Definition sample_vfs (image : list byte) : VfsState :=
  mkVfsState [] 0 1 1 [] 0 image true [] 0 [] page_stats_empty [] 1 [] [] 0 pipe_empty
    (replicate 12 device_write_empty) 0.

(** The file [inode_id], stored at [sector], with new contents. *)
Definition sample_file (inode_id sector : Z) (contents : string) : VfsVertexFsFile :=
  vertexfs_file_empty <| vf_inode_id := inode_id |> <| vf_first_sector := sector |> <| vf_sector_count := 1%Z |>
    <| vf_bytes := write_bytes (replicate 512 0%Z) 0 (string_bytes contents) |>
    <| vf_len := length (string_bytes contents) |>.

Definition sample_boot : VertexFsBootFiles :=
  mkVertexFsBootFiles (string_bytes "gen")
    (mkVertexFsBootFile (mkVertexFsInode 2 2 5 7 1 (vertexfs_checksum32 sample_readme) 1) sample_readme)
    (mkVertexFsBootFile (mkVertexFsInode 4 2 3 8 1 (vertexfs_checksum32 sample_app_a) 3) sample_app_a)
    false.

Lemma sample_parses : parse_vertexfs_image (sample_image VERTEXFS_LAYOUT_V1) = Ok sample_boot.
Proof. vm_compute. reflexivity. Qed.
Lemma length_sample : length (sample_image VERTEXFS_LAYOUT_V1) = 9 * 512.
Proof. vm_compute. reflexivity. Qed.

(** Witness of [sync_crash_safe]. *)
Lemma sync_crash_safe_witness :
  let v := sample_vfs (sample_image VERTEXFS_LAYOUT_V1) in
  let file := sample_file VERTEXFS_INODE_APP_A 8 "new" in
  ∃ n v', commit_vertexfs_file_to_image file (vertexfs_checksum32 (take (vf_len file) (vf_bytes file))) v = (Ok n, v') ∧
    ∀ k, k ≤ n → ∃ boot',
      parse_vertexfs_image (disk_after (vertexfs_image v) (take k (vertexfs_sync_writes v'))) = Ok boot' ∧
      recovered_boot sample_boot (take (vf_len file) (vf_bytes file)) k n boot'.
Proof.
  intros v file.
  assert (Hlen : vf_len file ≤ 448) by (apply Nat.leb_le; vm_compute; reflexivity).
  assert (H : parse_vertexfs_image (vertexfs_image v) = Ok sample_boot) by exact sample_parses.
  apply (sync_crash_safe v file sample_boot) in H.
  - rewrite decide_True in H by exact Hlen. destruct H as (n & v' & H1 & _ & H2). exists n, v'. split; [exact H1|exact H2].
  - reflexivity.
  - reflexivity.
  - reflexivity.
  - reflexivity.
  - apply Nat.leb_le. vm_compute. reflexivity.
  - change (vertexfs_image v) with (sample_image VERTEXFS_LAYOUT_V1). rewrite length_sample. done.
  - apply Nat.leb_le. vm_compute. reflexivity.
Defined.

Lemma sample_commit :
  (commit_vertexfs_file_to_image (sample_file 2 7 "bye") (vertexfs_checksum32 (string_bytes "bye")) (sample_vfs (sample_image VERTEXFS_LAYOUT_V1))).1 = Ok 5.
Proof. vm_compute. reflexivity. Qed.

(** Witness of [other_file_crash_rejected]: synchronising [readme]. *)
Lemma other_file_crash_rejected_witness :
  let v := sample_vfs (sample_image VERTEXFS_LAYOUT_V1) in
  ∃ v', commit_vertexfs_file_to_image (sample_file 2 7 "bye") (vertexfs_checksum32 (string_bytes "bye")) v = (Ok 5, v') ∧
    is_ok (parse_vertexfs_image (disk_after (vertexfs_image v) (take 1 (vertexfs_sync_writes v')))) = false.
Proof.
  intros v. pose proof sample_commit as Hc.
  destruct (commit_vertexfs_file_to_image (sample_file 2 7 "bye") (vertexfs_checksum32 (string_bytes "bye")) (sample_vfs (sample_image VERTEXFS_LAYOUT_V1)))
    as [r v'] eqn:E. cbn [fst] in Hc. subst r. exists v'. split; [exact E|].
  apply (other_file_crash_rejected v (sample_file 2 7 "bye") (vertexfs_checksum32 (string_bytes "bye")) sample_boot 5 v');
    [exact sample_parses|split; done|done|exact E].
Defined.

(** The disk after [k] writes of a sync of [app/a] to [contents]. *)
Definition crash_after (disk : list byte) (contents : string) (k : nat) : list byte :=
  let file := sample_file VERTEXFS_INODE_APP_A 8 contents in
  let '(_, v') := commit_vertexfs_file_to_image file (vertexfs_checksum32 (string_bytes contents)) (sample_vfs disk) in
  disk_after disk (take k (vertexfs_sync_writes v')).

(** A replayed journal is not written back at boot.  The sync of [app/a] is
    cut after its data reached the disk; the next boot replays the journal and
    mounts the new contents; but a second sync, cut after its first write, has
    then overwritten the only record that made the file readable, and the disk
    no longer mounts. *)
Theorem second_crash_loses_image :
  let disk1 := crash_after (sample_image VERTEXFS_LAYOUT_V1) "first" 2 in
  (∃ boot, parse_vertexfs_image disk1 = Ok boot ∧ journal_replayed boot = true ∧
     bf_payload (boot_app_a boot) = string_bytes "first") ∧
  parse_vertexfs_image (crash_after disk1 "second" 1) = Err InvalidBootManifest.
Proof. split; [eexists; split; [vm_compute; reflexivity|split; reflexivity]|vm_compute; reflexivity]. Qed.
