(* ===== verification/Scheduler.v ===== *)
(** The scheduler ([ipc/scheduler.rs]), the delivery of messages to blocked
    receivers, and the interrupts that wake processes
    ([ipc/device_syscalls.rs], [exceptions.rs]). *)

From S2P Require Import Prelude KernelBase Transport VfsPath KernelObjects ProcessRuntime.
From S2P Require Import CapRegistry VfsState Runtime Kernel.


(** * Deadlines *)

(** [x as i64] and the wrapping subtraction of [i64]. *)
Definition as_i64 (x : Z) : Z := if (x <? 2 ^ 63)%Z then x else (x - 2 ^ 64)%Z.
Definition i64_wrapping_sub (a b : Z) : Z := as_i64 (wrap_u64 (a - b)).

(** [deadline_reached]. *)
Definition deadline_reached (now deadline : Z) : bool :=
  (0 <=? i64_wrapping_sub (as_i64 now) (as_i64 deadline))%Z.

(** [deadline_before]. *)
Definition deadline_before (left right : Z) : bool :=
  (i64_wrapping_sub (as_i64 left) (as_i64 right) <? 0)%Z.

(** The registers of a [cpuid] leaf. *)
Record CpuidLeaf := mkCpuidLeaf { leaf_eax : Z; leaf_ebx : Z; leaf_ecx : Z }.

Definition FALLBACK_TSC_TICKS_PER_MS : Z := 1000000.

(** [tsc_ticks_per_ms], from the leaves 0x15 and 0x16. *)
Definition tsc_ticks_per_ms (leaf15 leaf16 : CpuidLeaf) : Z :=
  let hz :=
    if negb (leaf_eax leaf15 =? 0)%Z && negb (leaf_ebx leaf15 =? 0)%Z &&
       negb (leaf_ecx leaf15 =? 0)%Z
    then (sat_mul (leaf_ecx leaf15) (leaf_ebx leaf15) / leaf_eax leaf15)%Z else 0%Z in
  if negb (hz =? 0)%Z then (hz / 1000)%Z
  else if negb (leaf_eax leaf16 =? 0)%Z then sat_mul (leaf_eax leaf16) 1000
  else FALLBACK_TSC_TICKS_PER_MS.

(** [deadline_after_ms], at time [now]. *)
Definition deadline_at (now ticks_per_ms milliseconds : Z) : Z :=
  sat_add now (sat_mul milliseconds ticks_per_ms).

(** * Waking processes *)

(** [process.saved_frame.rax = status; process.state = Ready]. *)
Definition wake_with (status : Z) (p : Process) : Process :=
  p <| p_saved_frame ::= λ f, f <| rax := status |> |> <| p_state := PsReady |>.

(** The deadline of a state, and the status a process wakes with when it
    passes. *)
Definition timed_state (s : ProcessState) : option (Z * Z) :=
  match s with
  | PsSleeping wake_tsc => Some (wake_tsc, STATUS_OK)
  | PsBlockedOnEndpoint _ _ _ _ (Some timeout_tsc) => Some (timeout_tsc, STATUS_TIMEOUT)
  | PsBlockedOnInterrupt _ (Some timeout_tsc) => Some (timeout_tsc, STATUS_TIMEOUT)
  | _ => None
  end.

(** The body of the loop of [wake_timed_processes]. *)
Definition timed_out (now : Z) (p : Process) : bool :=
  match timed_state (p_state p) with
  | Some (deadline, _) => deadline_reached now deadline
  | None => false
  end.
Definition wake_timed (now : Z) (p : Process) : Process :=
  match timed_state (p_state p) with
  | Some (deadline, status) => if deadline_reached now deadline then wake_with status p else p
  | None => p
  end.

(** [wake_timed_processes]: how many it woke. *)
Definition wake_timed_processes (now : Z) (rt : RuntimeState) : nat * RuntimeState :=
  let t := rt_processes rt in
  (count_upto (λ o, match o with Some p => timed_out now p | None => false end)
     (pt_processes t) (pt_count t),
   rt <| rt_processes := t <| pt_processes := map_upto (fmap (wake_timed now)) (pt_processes t)
                                               (pt_count t) |> |>).

(** [next_deadline_tsc]. *)
Definition earlier_deadline (next : option Z) (o : option Process) : option Z :=
  match o with
  | Some p =>
      match timed_state (p_state p) with
      | Some (deadline, _) =>
          match next with
          | Some current => if deadline_before deadline current then Some deadline else next
          | None => Some deadline
          end
      | None => next
      end
  | None => next
  end.
Definition next_deadline_tsc (rt : RuntimeState) : option Z :=
  foldl earlier_deadline None (take (pt_count (rt_processes rt)) (pt_processes (rt_processes rt))).

(** * Blocked receivers *)

(** [blocked_receiver_index]. *)
Definition is_blocked_receiver (rt : RuntimeState) (endpoint : KernelObjectId) (p : Process) : bool :=
  match p_state p with
  | PsBlockedOnEndpoint waiting_endpoint _ _ _ _ =>
      (waiting_endpoint =? endpoint)%Z &&
      match get_endpoint (rt_objects rt) endpoint with
      | Some ep => endpoint_has_message_for ep (p_pid p)
      | None => false
      end
  | _ => false
  end.
Definition blocked_receiver_index (rt : RuntimeState) (endpoint : KernelObjectId) : option nat :=
  first_index (λ o, match o with Some p => is_blocked_receiver rt endpoint p | None => false end)
    (pt_processes (rt_processes rt)) (pt_count (rt_processes rt)).

(** [process_has_live_endpoint_cap]. *)
Definition process_has_live_endpoint_cap (rt : RuntimeState) (p : Process)
    (endpoint : KernelObjectId) (cap_id required_right : Z) : bool :=
  match get_endpoint (rt_objects rt) endpoint with
  | None => false
  | Some _ =>
      match first_index (λ o, match o with
          | Some cap => (c_id cap =? cap_id)%Z && (c_object cap =? endpoint)%Z &&
                        capability_live rt cap && has_rights (c_rights cap) required_right
          | None => false
          end) (p_caps p) (length (p_caps p)) with
      | Some _ => true
      | None => false
      end
  end.

(** [cancel_blocked_endpoint_waiter_at]. *)
Definition cancel_blocked_endpoint_waiter_at (rt : RuntimeState) (index : nat) (status : Z) :
    bool * RuntimeState :=
  match mjoin (pt_processes (rt_processes rt) !! index) with
  | Some p =>
      match p_state p with
      | PsBlockedOnEndpoint _ _ _ _ _ =>
          (true, rt <| rt_processes ::= λ t, modify_process_at t index (wake_with status) |>)
      | _ => (false, rt)
      end
  | None => (false, rt)
  end.

(** A receiver that waits with a capability it may no longer use. *)
Definition unauthorized_receiver (rt : RuntimeState) (p : Process) : bool :=
  match p_state p with
  | PsBlockedOnEndpoint endpoint cap_id _ _ _ =>
      negb (process_has_live_endpoint_cap rt p endpoint cap_id RIGHT_RECEIVE)
  | _ => false
  end.

(** A receiver on an endpoint of [owner], or on one that is gone. *)
Definition receiver_on_owner (owner : ProcessId) (rt : RuntimeState) (p : Process) : bool :=
  match p_state p with
  | PsBlockedOnEndpoint endpoint _ _ _ _ =>
      match get_endpoint (rt_objects rt) endpoint with
      | Some ep => (ep_owner ep =? owner)%Z
      | None => true
      end
  | _ => false
  end.

(** The loop of the two [cancel_*] functions over the [fuel] slots left from
    [index]; [cancels] sees the state at each round. *)
Fixpoint cancel_receivers_from (cancels : RuntimeState → Process → bool) (status : Z)
    (rt : RuntimeState) (index fuel canceled : nat) : nat * RuntimeState :=
  match fuel with
  | 0 => (canceled, rt)
  | S fuel' =>
      let should_cancel := match mjoin (pt_processes (rt_processes rt) !! index) with
                           | Some p => cancels rt p
                           | None => false
                           end in
      if should_cancel then
        match cancel_blocked_endpoint_waiter_at rt index status with
        | (true, rt') => cancel_receivers_from cancels status rt' (S index) fuel' (S canceled)
        | (false, rt') => cancel_receivers_from cancels status rt' (S index) fuel' canceled
        end
      else cancel_receivers_from cancels status rt (S index) fuel' canceled
  end.

(** [cancel_unauthorized_blocked_receivers]. *)
Definition cancel_unauthorized_blocked_receivers (status : Z) (rt : RuntimeState) :
    nat * RuntimeState :=
  cancel_receivers_from unauthorized_receiver status rt 0 (pt_count (rt_processes rt)) 0.

(** [cancel_blocked_receivers_for_endpoint_owner]. *)
Definition cancel_blocked_receivers_for_endpoint_owner (owner : ProcessId) (status : Z)
    (rt : RuntimeState) : nat * RuntimeState :=
  cancel_receivers_from (receiver_on_owner owner) status rt 0 (pt_count (rt_processes rt)) 0.

(** * Interrupt lines *)

(** [blocked_interrupt_waiter_index]. *)
Definition blocked_interrupt_waiter_index (rt : RuntimeState) (interrupt : KernelObjectId) :
    option nat :=
  first_index (λ o, match o with
                    | Some p => match p_state p with
                                | PsBlockedOnInterrupt i _ => (i =? interrupt)%Z
                                | _ => false
                                end
                    | None => false
                    end) (pt_processes (rt_processes rt)) (pt_count (rt_processes rt)).

(** A write through [get_interrupt_line_mut]. *)
Definition modify_interrupt_line (id : KernelObjectId) (f : InterruptLineObject → InterruptLineObject)
    (rt : RuntimeState) : RuntimeState :=
  match get_interrupt_line_mut (rt_objects rt) id with
  | Some (index, line) => rt <| rt_objects ::= λ t, set_object t index (OInterruptLine (f line)) |>
  | None => rt
  end.

(** [record_hardware_irq]. *)
Definition record_hardware_irq (irq_line : Z) (rt : RuntimeState) : RuntimeState :=
  match get_interrupt_line_by_number (rt_objects rt) irq_line with
  | None => rt
  | Some line =>
      match blocked_interrupt_waiter_index rt (il_id line) with
      | Some waiter_index =>
          modify_interrupt_line (il_id line)
            (λ l, l <| il_delivered_count ::= λ n, sat_add n 1 |>)
            (rt <| rt_processes ::= λ t, modify_process_at t waiter_index (wake_with STATUS_OK) |>)
      | None =>
          modify_interrupt_line (il_id line) (λ l, l <| il_pending_count ::= λ n, sat_add n 1 |>) rt
      end
  end.

(** [consume_pending_interrupt]. *)
Definition consume_pending_interrupt (interrupt : KernelObjectId) (rt : RuntimeState) :
    bool * RuntimeState :=
  match get_interrupt_line_mut (rt_objects rt) interrupt with
  | None => (false, rt)
  | Some (index, line) =>
      if (il_pending_count line =? 0)%Z then (false, rt)
      else (true, rt <| rt_objects ::= λ t, set_object t index (OInterruptLine
                   (line <| il_pending_count := (il_pending_count line - 1)%Z |>
                         <| il_delivered_count ::= λ n, sat_add n 1 |>)) |>)
  end.

(** * Readiness *)

Definition READY_ENVELOPE_LEN : nat := 16.
Definition PROTOCOL_HEALTH_V0 : Z := 2.
Definition MESSAGE_READY : Z := 1.

(** Little-endian numbers of the message header. *)
Definition u16_le (l : list byte) (i : nat) : Z := byte_at l i + 256 * byte_at l (i + 1).
Definition u32_le (l : list byte) (i : nat) : Z := u16_le l i + 65536 * u16_le l (i + 2).

(** [ready_service_name]. *)
Definition ready_service_name (m : IpcMessage) : option (list byte) :=
  if msg_len m <? READY_ENVELOPE_LEN then None
  else if negb (u16_le (msg_bytes m) 0 =? PROTOCOL_HEALTH_V0)%Z ||
          negb (u16_le (msg_bytes m) 2 =? MESSAGE_READY)%Z then None
  else
    let payload_len := u32_le (msg_bytes m) 4 in
    if (Z.of_nat (msg_len m - READY_ENVELOPE_LEN) <? payload_len)%Z then None
    else Some (take (Z.to_nat payload_len) (drop READY_ENVELOPE_LEN (msg_bytes m))).

(** [record_ready_lifecycle]. *)
Definition record_ready_lifecycle (endpoint : KernelObjectId) (receiver : ProcessId)
    (message : IpcMessage) (rt : RuntimeState) : RuntimeState :=
  match ready_service_name message with
  | None => rt
  | Some name =>
      match get_endpoint (rt_objects rt) endpoint with
      | None => rt
      | Some ep =>
          if negb (str_eqb (ep_name ep) "readiness") || negb (receiver =? 1)%Z then rt
          else
            match process (rt_processes rt) (msg_sender message) with
            | None => rt
            | Some p =>
                if bytes_eqb name (string_bytes (p_name p))
                then record_service_lifecycle rt (p_name p) SlReady None else rt
            end
      end
  end.

(** * Kernel calls *)

Section scheduler.
Context `{UserMemory} (env : Env).

(** [deadline_after_ms]. *)
Definition deadline_after_ms (milliseconds : Z) : K Z :=
  let* now := read_tsc env in
  kret (deadline_at now (env_ticks_per_ms env) milliseconds).

Definition wake_timed_now : K nat :=
  let* now := read_tsc env in
  λ k, let '(n, rt) := wake_timed_processes now (ks_rt k) in Some (Ok n, k <| ks_rt := rt |>).

(** A write to slot [index] of the process table. *)
Definition modify_slot (index : nat) (f : Process → Process) : K unit :=
  modify_rt (λ rt, rt <| rt_processes ::= λ t, modify_process_at t index f |>).

(** The dequeue of [wake_blocked_receiver] and of [receive_with_timeout]:
    [None] when the endpoint is gone. *)
Definition dequeue_message (endpoint : KernelObjectId) (receiver : ProcessId) :
    K (option (option IpcMessage)) := λ k,
  match get_endpoint_mut (rt_objects (ks_rt k)) endpoint with
  | None => Some (Ok None, k)
  | Some (index, ep) =>
      let '(m, ep') := endpoint_dequeue_for ep receiver in
      Some (Ok (Some m),
            k <| ks_rt ::= λ rt, rt <| rt_objects ::= λ t, set_object t index (OIpcEndpoint ep') |> |>)
  end.

(** The loop of [wake_blocked_receiver]; a round that cancels a receiver is
    followed by another one. *)
Fixpoint wake_blocked_receiver_loop (fuel : nat) (endpoint : KernelObjectId) : K unit :=
  match fuel with
  | 0 => λ _, None
  | S fuel' =>
      let* rt := kget ks_rt in
      match blocked_receiver_index rt endpoint with
      | None => kret tt
      | Some waiter_index =>
          match mjoin (pt_processes (rt_processes rt) !! waiter_index) with
          | None => kret tt
          | Some waiter =>
              match p_state waiter with
              | PsBlockedOnEndpoint waiting cap_id destination max_len _ =>
                  if negb (process_has_live_endpoint_cap rt waiter waiting cap_id RIGHT_RECEIVE)
                  then
                    do* modify_rt (λ rt, (cancel_blocked_endpoint_waiter_at rt waiter_index
                                            STATUS_BAD_CAPABILITY).2);
                    wake_blocked_receiver_loop fuel' endpoint
                  else
                    let* active := kget ks_cr3 in
                    let current_cr3 := match current_process (rt_processes rt) with
                                       | Some p => cr3 (p_context p)
                                       | None => active
                                       end in
                    let* dequeued := dequeue_message endpoint (p_pid waiter) in
                    match mjoin dequeued with
                    | None => kret tt
                    | Some message =>
                        let copy_len := Z.min (Z.of_nat (msg_len message)) max_len in
                        do* switch_address_space (cr3 (p_context waiter));
                        let* copied := copy_to_user destination
                                         (take (Z.to_nat copy_len) (msg_bytes message)) in
                        do* switch_address_space current_cr3;
                        if copied : bool then
                          do* modify_slot waiter_index (wake_with copy_len);
                          modify_rt (record_ready_lifecycle endpoint (p_pid waiter) message)
                        else modify_slot waiter_index (wake_with STATUS_BAD_BUFFER)
                    end
              | _ => kret tt
              end
          end
      end
  end.

(** A round that does not end the loop wakes one of the processes. *)
Definition wake_loop_fuel : nat := S MAX_PROCESSES.

(** [wake_blocked_receiver]. *)
Definition wake_blocked_receiver (endpoint : KernelObjectId) : K unit :=
  do* wake_timed_now;
  wake_blocked_receiver_loop wake_loop_fuel endpoint.

(** [krust_timer_kernel_dispatch] and [krust_irq_kernel_dispatch]. *)
Definition kernel_interrupt (e : IrqEvent) : K unit :=
  match e with
  | IrqTimer => do* wake_timed_now; kret tt
  | IrqLine line =>
      do* modify_rt (record_hardware_irq line);
      do* wake_timed_now;
      kret tt
  end.

Fixpoint kernel_interrupts (l : list IrqEvent) : K unit :=
  match l with
  | [] => kret tt
  | e :: l' => do* kernel_interrupt e; kernel_interrupts l'
  end.

(** [timer::wait_for_interrupt]: the interrupts taken while halted. *)
Definition wait_for_interrupt : K unit := λ k,
  kernel_interrupts (env_irqs env (ks_waits k)) (k <| ks_waits ::= S |>).

Definition no_ready (include_current : bool) (rt : RuntimeState) : bool :=
  match next_ready_index_round_robin (rt_processes rt) include_current with
  | None => true
  | Some _ => false
  end.

(** [wait_until_deadline], for at most [fuel] waits. *)
Fixpoint wait_until_deadline (fuel : nat) (deadline : Z) (include_current : bool) : K unit :=
  match fuel with
  | 0 => λ _, None
  | S fuel' =>
      let* now := read_tsc env in
      if deadline_reached now deadline then kret tt
      else
        let* idle := kget (λ k, no_ready include_current (ks_rt k)) in
        if negb idle then kret tt
        else
          let* woke := wake_timed_now in
          if negb (woke =? 0) then kret tt
          else
            do* wait_for_interrupt;
            wait_until_deadline fuel' deadline include_current
  end.

(** The frame a process continues with. *)
Definition resume_frame (p : Process) : SyscallFrame :=
  if p_has_saved_frame p then p_saved_frame p else from_context (p_context p).

(** The switch at the end of [schedule_next_ready_inner]. *)
Definition switch_to (next_index : nat) : K bool := λ k,
  match mjoin (pt_processes (rt_processes (ks_rt k)) !! next_index) with
  | None => Some (Ok false, k)
  | Some next =>
      Some (Ok true,
        k <| ks_rt ::= λ rt, rt <| rt_processes ::= λ t,
               (modify_process_at t next_index (λ p, p <| p_state := PsRunning |>))
                 <| pt_current := Some (p_pid next) |> |> |>
          <| ks_frame := resume_frame next |>
          <| ks_cr3 := cr3 (p_context next) |>)
  end.

(** [schedule_next_ready_inner]. *)
Definition schedule_next_ready_inner (fuel : nat) (include_current wait_for_deadline : bool) :
    K bool :=
  do* wake_timed_now;
  let* rt := kget ks_rt in
  do* (if wait_for_deadline && no_ready include_current rt then
         match next_deadline_tsc rt with
         | Some deadline =>
             do* wait_until_deadline fuel deadline include_current;
             do* wake_timed_now;
             kret tt
         | None => kret tt
         end
       else kret tt);
  let* rt := kget ks_rt in
  match next_ready_index_round_robin (rt_processes rt) include_current with
  | None => kret false
  | Some next_index => switch_to next_index
  end.

(** [schedule_next_ready] and its two variants. *)
Definition schedule_next_ready (fuel : nat) : K bool := schedule_next_ready_inner fuel true true.
Definition schedule_next_ready_excluding_current (fuel : nat) : K bool :=
  schedule_next_ready_inner fuel false true.
Definition schedule_next_ready_no_wait_excluding_current (fuel : nat) : K bool :=
  schedule_next_ready_inner fuel false false.

(** A write through [current_process_mut]; the flag says whether there is a
    current process. *)
Definition modify_current_process (f : Process → Process) : K bool := λ k,
  let '(found, t) := modify_current (rt_processes (ks_rt k)) f in
  Some (Ok found, k <| ks_rt ::= λ rt, rt <| rt_processes := t |> |>).

(** Save the frame of the current process and leave the processor. *)
Definition suspend (frame : SyscallFrame) (s : ProcessState) (p : Process) : Process :=
  p <| p_saved_frame := frame |> <| p_has_saved_frame := true |> <| p_state := s |>.

Definition set_running (p : Process) : Process := p <| p_state := PsRunning |>.

(** [block_current_on_endpoint]. *)
Definition block_current_on_endpoint (fuel : nat) (endpoint : KernelObjectId)
    (cap_id destination max_len : Z) (timeout_tsc : option Z) : K bool :=
  let* frame := kget ks_frame in
  let* found := modify_current_process
    (suspend frame (PsBlockedOnEndpoint endpoint cap_id destination max_len timeout_tsc)) in
  if negb found then kret false
  else
    let* switched := schedule_next_ready fuel in
    if switched : bool then kret true
    else
      do* modify_current_process set_running;
      kret false.

(** [block_current_on_interrupt]. *)
Definition block_current_on_interrupt (fuel : nat) (interrupt : KernelObjectId)
    (timeout_tsc : option Z) : K bool :=
  let* rt := kget ks_rt in
  match get_interrupt_line (rt_objects rt) interrupt with
  | None => kret false
  | Some _ =>
      let* frame := kget ks_frame in
      let* found := modify_current_process
        (suspend (frame <| rax := STATUS_OK |>) (PsBlockedOnInterrupt interrupt timeout_tsc)) in
      if negb found then kret false
      else
        let* switched := schedule_next_ready fuel in
        if switched : bool then kret true
        else
          do* modify_current_process set_running;
          kret false
  end.

Definition set_rax (v : Z) : K unit := kmodify (λ k, k <| ks_frame ::= λ f, f <| rax := v |> |>).

(** [sleep_ms]. *)
Definition sleep_ms (fuel : nat) (cap_slot milliseconds : Z) : K unit :=
  do* on_rt (timer_from_cap cap_slot RIGHT_CONTROL);
  if (milliseconds =? 0)%Z then set_rax STATUS_OK
  else
    let* wake_tsc := deadline_after_ms milliseconds in
    let* frame := kget ks_frame in
    let* found := modify_current_process
                    (suspend (frame <| rax := STATUS_OK |>) (PsSleeping wake_tsc)) in
    if negb found then kfail BadCapability
    else
      let* switched := schedule_next_ready fuel in
      if switched : bool then kret tt
      else
        do* modify_current_process set_running;
        kfail Empty.

(** [irq_wait]. *)
Definition irq_wait (fuel : nat) (cap_slot timeout_ms : Z) : K unit :=
  let* line := on_rt (interrupt_line_from_cap cap_slot RIGHT_LISTEN) in
  let* pending := (λ k, let '(b, rt) := consume_pending_interrupt (il_id line) (ks_rt k) in
                        Some (Ok b, k <| ks_rt := rt |>)) in
  if pending : bool then set_rax STATUS_OK
  else if (timeout_ms =? 0)%Z then set_rax STATUS_OK
  else
    let* timeout_tsc := deadline_after_ms timeout_ms in
    let* blocked := block_current_on_interrupt fuel (il_id line) (Some timeout_tsc) in
    if blocked : bool then kret tt else kfail Empty.
End scheduler.
