(* ===== verification/VfsTransactions.v ===== *)
(** Transactions of the kernel with user-space services
    ([ipc/vfs_transactions.rs]): requests to the state service and sector writes
    to the block driver are messages the kernel itself enqueues; the calling
    process blocks until the reply, recognised by its transaction identifier or
    sector, wakes it. *)

From S2P Require Import Prelude KernelBase Transport VfsPath KernelObjects ProcessRuntime.
From S2P Require Import CapRegistry VfsState VfsWire Runtime Kernel PageCache Scheduler.

Definition BLOCK_PROTOCOL_V1 : Z := 1.
Definition BLOCK_OP_WRITE_SECTOR : Z := 2.
Definition BLOCK_REQUEST_LEN : nat := 16.
Definition BLOCK_WRITE_ACK_LEN : nat := 16.
Definition VFS_STATE_TRANSACTION_ID_BYTES : nat := 8.
Definition VFS_STATE_REQUEST_HEADER_BYTES : nat := 8.
Definition VFS_SERVICE_REQUEST_BYTES : nat := 32.
Definition VERTEXDISK_VERTEXFS_IMAGE_SECTOR : Z := 49209.
Definition u16_max : Z := 65535.

(** [vfs_state_operation_code]: the letters R, S, W, C and R. *)
Definition vfs_state_operation_code (operation : VfsStateOperation) : Z :=
  match operation with
  | VsoRead => 82
  | VsoStat => 83
  | VsoWrite => 87
  | VsoControl => 67
  | VsoServiceRead => 82
  end.

(** The request of [start_vfs_state_transaction]: the identifier, then [VS],
    version 1, the operation, the two lengths, the name and the payload. *)
Definition vfs_state_request (transaction_id : Z) (operation : VfsStateOperation)
    (state_name payload : list byte) : list byte :=
  let request := replicate MAX_MESSAGE_BYTES 0%Z in
  let request := write_u64_le request 0 transaction_id in
  let request := write_bytes request 8 [86; 83; 1; vfs_state_operation_code operation]%Z in
  let request := write_u16_le request 12 (Z.of_nat (length state_name)) in
  let request := write_u16_le request 14 (Z.of_nat (length payload)) in
  let request := write_bytes request 16 state_name in
  write_bytes request (16 + length state_name) payload.

(** The request of [start_vfs_service_read_transaction]: the identifier, then
    [FS], version 2, the operation, the source, the node and the description. *)
Definition vfs_service_request (transaction_id : Z) (node : VfsNodeId)
    (description : FileDescriptionId) : list byte :=
  let request := replicate MAX_MESSAGE_BYTES 0%Z in
  let request := write_u64_le request 0 transaction_id in
  let request := write_bytes request 8 [70; 83; 2; 82; 7]%Z in
  let request := write_u64_le request 16 node in
  write_u64_le request 24 description.

(** [vertexfs_device_absolute_sector]. *)
Definition vertexfs_device_absolute_sector (sector : Z) : Result IpcError Z :=
  if (Z.of_nat VERTEXFS_SECTORS <=? sector)%Z then Err VfsUnsupported
  else ok_or (checked_add VERTEXDISK_VERTEXFS_IMAGE_SECTOR sector) VfsUnsupported.

(** The request of [queue_vertexfs_device_write]. *)
Definition block_write_request (absolute_sector : Z) : list byte :=
  let request := replicate MAX_MESSAGE_BYTES 0%Z in
  let request := write_u16_le request 0 BLOCK_PROTOCOL_V1 in
  let request := write_u16_le request 2 BLOCK_OP_WRITE_SECTOR in
  let request := write_u16_le request 4 0 in
  write_u64_le request 8 absolute_sector.

(** [vertexfs_device_ack_ok]. *)
Definition vertexfs_device_ack_ok (m : IpcMessage) (expected_sector : Z) : bool :=
  (msg_len m =? BLOCK_WRITE_ACK_LEN) && (read_u16_le (msg_bytes m) 0 =? BLOCK_PROTOCOL_V1)%Z &&
  (read_u16_le (msg_bytes m) 2 =? BLOCK_OP_WRITE_SECTOR)%Z && (read_u16_le (msg_bytes m) 4 =? 0)%Z &&
  (read_u64_le (msg_bytes m) 8 =? expected_sector)%Z.

(** * Waiters *)

(** The first process of the table [sel] selects. *)
Definition find_waiter (sel : Process → bool) (rt : RuntimeState) : option nat :=
  first_index (λ o, match o with Some p => sel p | None => false end)
    (pt_processes (rt_processes rt)) (pt_count (rt_processes rt)).

(** [blocked_vfs_state_waiter_index]. *)
Definition blocked_vfs_state_waiter_index (rt : RuntimeState) (endpoint : KernelObjectId) : option nat :=
  find_waiter (λ p,
    match p_state p with
    | PsBlockedOnVfsState reply_endpoint _ _ _ transaction_id _ _ _ _ _ =>
        (reply_endpoint =? endpoint)%Z &&
        match get_endpoint (rt_objects rt) endpoint with
        | Some ep => endpoint_has_vfs_state_reply_for ep (p_pid p) transaction_id
        | None => false
        end
    | _ => false
    end) rt.

(** [blocked_vertexfs_sync_waiter_index]. *)
Definition blocked_vertexfs_sync_waiter_index (rt : RuntimeState) (endpoint : KernelObjectId) :
    option nat :=
  find_waiter (λ p,
    match p_state p with
    | PsBlockedOnVertexFsSync _ reply_endpoint _ _ _ _ _ _ =>
        (reply_endpoint =? endpoint)%Z &&
        match get_endpoint (rt_objects rt) endpoint with
        | Some ep => endpoint_has_message_for ep (p_pid p)
        | None => false
        end
    | _ => false
    end) rt.

(** [blocked_vfs_pipe_reader_index]. *)
Definition blocked_vfs_pipe_reader_index (rt : RuntimeState) : option nat :=
  find_waiter (λ p,
    match p_state p with
    | PsBlockedOnVfsRead node _ _ _ =>
        match vn_backing <$> vfs_node (rt_vfs rt) node with Some VbPipe => true | _ => false end
    | _ => false
    end) rt.

(** [blocked_network_receiver_index]. *)
Definition blocked_network_receiver_index (rt : RuntimeState) (port : KernelObjectId) : option nat :=
  find_waiter (λ p,
    match p_state p with
    | PsBlockedOnNetworkPort waiting_port _ _ =>
        (waiting_port =? port)%Z &&
        match get_network_port (rt_objects rt) port with
        | Some np => has_pending_udp np
        | None => false
        end
    | _ => false
    end) rt.

(** The aborts: every waiter on [reply_endpoint] is woken with [status]. *)
Definition waits_for_vfs_state (reply_endpoint : KernelObjectId) (p : Process) : bool :=
  match p_state p with
  | PsBlockedOnVfsState waiting_endpoint _ _ _ _ _ _ _ _ _ => (waiting_endpoint =? reply_endpoint)%Z
  | _ => false
  end.

(** Remove the messages of the kernel from an endpoint. *)
Definition drop_kernel_messages (endpoint : option KernelObjectId) (rt : RuntimeState) : RuntimeState :=
  match endpoint ≫= get_endpoint_mut (rt_objects rt) with
  | Some (index, ep) =>
      rt <| rt_objects ::= λ t,
              set_object t index (OIpcEndpoint (endpoint_remove_all_from_sender ep pid_empty)) |>
  | None => rt
  end.

(** [abort_vfs_state_transactions]. *)
Definition abort_vfs_state_transactions (status : Z) (rt : RuntimeState) : RuntimeState :=
  let rt1 := drop_kernel_messages (state_vfs_request_endpoint (rt_services rt)) rt in
  match state_vfs_reply_endpoint (rt_services rt) with
  | None => rt1
  | Some reply_endpoint =>
      rt1 <| rt_processes ::= λ t, t <| pt_processes ::= λ l,
               map_upto (fmap (λ p, if waits_for_vfs_state reply_endpoint p
                                    then wake_with status p else p)) l (pt_count t) |> |>
  end.

(** The body of the loop of [abort_vertexfs_sync_transactions]. *)
Definition abort_vertexfs_sync_at (reply_endpoint : KernelObjectId) (status : Z) (rt : RuntimeState)
    (index : nat) : RuntimeState :=
  match mjoin (pt_processes (rt_processes rt) !! index) with
  | None => rt
  | Some p =>
      match p_state p with
      | PsBlockedOnVertexFsSync _ waiting_endpoint backing _ _ _ _ _ =>
          if (waiting_endpoint =? reply_endpoint)%Z then
            rt <| rt_vfs ::= record_vertexfs_page_cache_writeback_error (Z.to_nat backing) |>
               <| rt_processes ::= λ t, modify_process_at t index (wake_with status) |>
          else rt
      | _ => rt
      end
  end.

(** [abort_vertexfs_sync_transactions]. *)
Definition abort_vertexfs_sync_transactions (status : Z) (rt : RuntimeState) : RuntimeState :=
  let rt1 := drop_kernel_messages (vertexfs_device_request_endpoint (rt_services rt)) rt in
  match vertexfs_device_reply_endpoint (rt_services rt) with
  | None => rt1
  | Some reply_endpoint =>
      foldl (abort_vertexfs_sync_at reply_endpoint status) rt1 (seq 0 (pt_count (rt_processes rt1)))
  end.

(** * Kernel calls *)

Section transactions.
Context `{UserMemory} (env : Env).

(** The address space to return to after a copy into another process. *)
Definition current_cr3 : K Z :=
  kget (λ k, match current_process (rt_processes (ks_rt k)) with
             | Some p => cr3 (p_context p)
             | None => ks_cr3 k
             end).

(** Copy into the address space of a blocked process. *)
Definition copy_to_waiter (receiver_cr3 destination : Z) (bytes : list byte) : K bool :=
  let* back := current_cr3 in
  do* switch_address_space receiver_cr3;
  let* copied := copy_to_user destination bytes in
  do* switch_address_space back;
  kret copied.

(** A change of the endpoint [id]; [None] when it does not exist. *)
Definition on_endpoint {A} (id : KernelObjectId) (f : IpcEndpoint → A * IpcEndpoint) : K (option A) := λ k,
  match get_endpoint_mut (rt_objects (ks_rt k)) id with
  | None => Some (Ok None, k)
  | Some (index, ep) =>
      let '(a, ep') := f ep in
      Some (Ok (Some a),
            k <| ks_rt ::= λ rt, rt <| rt_objects ::= λ t, set_object t index (OIpcEndpoint ep') |> |>)
  end.

(** The enqueue of a message of the kernel, with the error of the queue as a value. *)
Definition enqueue_request (endpoint : KernelObjectId) (request : list byte) (len : nat) :
    K (option (Result IpcError unit)) :=
  on_endpoint endpoint (λ ep, endpoint_enqueue ep pid_empty request len).

(** [restore_current_vfs_state_waiter]. *)
Definition restore_current_vfs_state_waiter (reply_endpoint : KernelObjectId) : K unit :=
  do* modify_current_process (λ p,
    if waits_for_vfs_state reply_endpoint p then set_running p else p);
  kret tt.

(** [restore_current_vertexfs_sync_waiter]. *)
Definition restore_current_vertexfs_sync_waiter (reply_endpoint : KernelObjectId) : K unit :=
  do* modify_current_process (λ p,
    match p_state p with
    | PsBlockedOnVertexFsSync _ waiting_endpoint _ _ _ _ _ _ =>
        if (waiting_endpoint =? reply_endpoint)%Z then set_running p else p
    | _ => p
    end);
  kret tt.

(** A fresh transaction identifier. *)
Definition next_transaction_id : K Z := λ k,
  let id := next_vfs_state_transaction_id (rt_services (ks_rt k)) in
  if (id =? 0)%Z || (id =? u64_max)%Z then Some (Err VfsNoSpace, k)
  else Some (Ok id, k <| ks_rt ::= λ rt, rt <| rt_services ::= λ s,
                           s <| next_vfs_state_transaction_id := (id + 1)%Z |> |> |>).

(** The common part of the two transactions with the state service, once the
    endpoints are known: suspend the caller, send the request, let others run. *)
Definition vfs_state_transaction (fuel : nat) (request_endpoint reply_endpoint : KernelObjectId)
    (transaction_id : Z) (waiting : ProcessState) (request : list byte) (request_len : nat) : K unit :=
  let* frame := kget ks_frame in
  let* found := modify_current_process (suspend frame waiting) in
  if negb found then kfail VfsPermission
  else
    let* enqueued := enqueue_request request_endpoint request request_len in
    match enqueued with
    | None => kfail BadCapability
    | Some (Err e) =>
        do* restore_current_vfs_state_waiter reply_endpoint;
        kfail e
    | Some (Ok _) =>
        do* wake_blocked_receiver env request_endpoint;
        let* switched := schedule_next_ready env fuel in
        if switched : bool then kret tt
        else
          do* restore_current_vfs_state_waiter reply_endpoint;
          do* on_endpoint request_endpoint (λ ep,
                (tt, endpoint_remove_vfs_state_request ep pid_empty transaction_id));
          kfail Empty
    end.

(** [start_vfs_state_transaction]. *)
Definition start_vfs_state_transaction (fuel : nat) (state : KernelObjectId) (node : VfsNode)
    (description : OpenFileDescription) (operation : VfsStateOperation)
    (offset destination max_len write_len : Z) (update_offset : bool) (payload : list byte)
    (payload_len : nat) : K unit :=
  let* rt := kget ks_rt in
  let* state_object := klift (ok_or (get_state_volume (rt_objects rt) state) VfsBadHandle) in
  let* request_endpoint := klift (ok_or (state_vfs_request_endpoint (rt_services rt)) VfsUnsupported) in
  let* reply_endpoint := klift (ok_or (state_vfs_reply_endpoint (rt_services rt)) VfsUnsupported) in
  let state_name := string_bytes (sv_name state_object) in
  let request_len := VFS_STATE_TRANSACTION_ID_BYTES + VFS_STATE_REQUEST_HEADER_BYTES +
                     length state_name + payload_len in
  do* kguard (negb ((u16_max <? Z.of_nat (length state_name))%Z ||
                    (u16_max <? Z.of_nat payload_len)%Z ||
                    (MAX_MESSAGE_BYTES <? request_len))) VfsNoSpace;
  let* transaction_id := next_transaction_id in
  vfs_state_transaction fuel request_endpoint reply_endpoint transaction_id
    (PsBlockedOnVfsState reply_endpoint (vn_id node) (fd_id description) operation transaction_id
       offset destination max_len write_len update_offset)
    (vfs_state_request transaction_id operation state_name (take payload_len payload)) request_len.

(** [start_vfs_service_read_transaction]. *)
Definition start_vfs_service_read_transaction (fuel : nat) (node : VfsNode)
    (description : OpenFileDescription) (offset destination max_len : Z) (update_offset : bool) : K unit :=
  let* rt := kget ks_rt in
  let* request_endpoint := klift (ok_or (state_vfs_request_endpoint (rt_services rt)) VfsUnsupported) in
  let* reply_endpoint := klift (ok_or (state_vfs_reply_endpoint (rt_services rt)) VfsUnsupported) in
  let* transaction_id := next_transaction_id in
  vfs_state_transaction fuel request_endpoint reply_endpoint transaction_id
    (PsBlockedOnVfsState reply_endpoint (vn_id node) (fd_id description) VsoServiceRead transaction_id
       offset destination max_len 0 update_offset)
    (vfs_service_request transaction_id (vn_id node) (fd_id description)) VFS_SERVICE_REQUEST_BYTES.

(** [queue_vertexfs_device_write]: the request and the sector follow each other
    in the queue, or neither is left there. *)
Definition queue_vertexfs_device_write (request_endpoint : KernelObjectId) (write_index : Z) : K Z :=
  let* v := kget (λ k, rt_vfs (ks_rt k)) in
  do* kguard (write_index <? Z.of_nat (vertexfs_sync_write_count v))%Z VfsBadHandle;
  let write := default device_write_empty (vertexfs_sync_writes v !! Z.to_nat write_index) in
  let* absolute_sector := klift (vertexfs_device_absolute_sector (dw_sector write)) in
  let* enqueued := on_endpoint request_endpoint (λ ep,
    match endpoint_enqueue ep pid_empty (block_write_request absolute_sector) BLOCK_REQUEST_LEN with
    | (Err e, ep1) => (Err e, ep1)
    | (Ok _, ep1) =>
        match endpoint_enqueue ep1 pid_empty (dw_bytes write) VERTEXFS_SECTOR_SIZE with
        | (Err e, ep2) => (Err e, endpoint_remove_all_from_sender ep2 pid_empty)
        | (Ok _, ep2) => (Ok tt, ep2)
        end
    end) in
  let* r := klift (ok_or enqueued BadCapability) in
  do* klift r;
  kret absolute_sector.

(** [start_vertexfs_sync_transaction]. *)
Definition start_vertexfs_sync_transaction (fuel : nat) (backing inode_id checksum write_count : Z) :
    K unit :=
  do* kguard (negb ((write_count =? 0)%Z ||
                    (Z.of_nat VERTEXFS_SYNC_MAX_DEVICE_WRITES <? write_count)%Z)) VfsUnsupported;
  let* rt := kget ks_rt in
  let* request_endpoint :=
    klift (ok_or (vertexfs_device_request_endpoint (rt_services rt)) VfsUnsupported) in
  let* reply_endpoint :=
    klift (ok_or (vertexfs_device_reply_endpoint (rt_services rt)) VfsUnsupported) in
  do* kguard (bool_decide (blocked_vertexfs_sync_waiter_index rt reply_endpoint = None)) VfsBusy;
  let* first_sector := klift (vertexfs_device_absolute_sector
    (dw_sector (default device_write_empty (vertexfs_sync_writes (rt_vfs rt) !! 0)))) in
  let* frame := kget ks_frame in
  let* found := modify_current_process (suspend frame
    (PsBlockedOnVertexFsSync request_endpoint reply_endpoint backing inode_id checksum write_count 1
       first_sector)) in
  if negb found then kfail VfsPermission
  else λ k,
    match queue_vertexfs_device_write request_endpoint 0 k with
    | None => None
    | Some (Err e, k1) =>
        (do* restore_current_vertexfs_sync_waiter reply_endpoint; kfail e) k1
    | Some (Ok _, k1) =>
        (do* wake_blocked_receiver env request_endpoint;
         let* switched := schedule_next_ready env fuel in
         if switched : bool then kret tt
         else
           do* restore_current_vertexfs_sync_waiter reply_endpoint;
           do* on_endpoint request_endpoint (λ ep,
                 (tt, endpoint_remove_all_from_sender ep pid_empty));
           kfail Empty) k1
    end.

(** Suspend the current process, and resume it when nothing can run:
    [block_current_on_vfs_read] and [block_current_on_network_port]. *)
Definition block_current (fuel : nat) (waiting : ProcessState) : K bool :=
  let* frame := kget ks_frame in
  let* found := modify_current_process (suspend frame waiting) in
  if negb found then kret false
  else
    let* switched := schedule_next_ready env fuel in
    if switched : bool then kret true
    else
      do* modify_current_process set_running;
      kret false.
Definition block_current_on_vfs_read (fuel : nat) (node : VfsNodeId) (description : FileDescriptionId)
    (destination max_len : Z) : K bool :=
  block_current fuel (PsBlockedOnVfsRead node description destination max_len).
Definition block_current_on_network_port (fuel : nat) (port : KernelObjectId)
    (destination max_len : Z) : K bool :=
  block_current fuel (PsBlockedOnNetworkPort port destination max_len).

(** * Wake-ups *)

(** [wake_blocked_network_receiver]. *)
Definition wake_blocked_network_receiver (port : KernelObjectId) : K unit :=
  let* rt := kget ks_rt in
  match blocked_network_receiver_index rt port with
  | None => kret tt
  | Some waiter_index =>
      match mjoin (pt_processes (rt_processes rt) !! waiter_index) with
      | None => kret tt
      | Some waiter =>
          match p_state waiter, get_network_port_mut (rt_objects rt) port with
          | PsBlockedOnNetworkPort _ destination max_len, Some (index, np) =>
              match dequeue_udp np with
              | (None, _) => kret tt
              | (Some message, np') =>
                  do* modify_rt (λ rt, rt <| rt_objects ::= λ t, set_object t index (ONetworkPort np') |>);
                  let copy_len := Z.min (Z.of_nat (msg_len message)) max_len in
                  let* copied := copy_to_waiter (cr3 (p_context waiter)) destination
                                   (take (Z.to_nat copy_len) (msg_bytes message)) in
                  modify_slot waiter_index
                    (wake_with (if copied : bool then copy_len else STATUS_BAD_BUFFER))
              end
          | _, _ => kret tt
          end
      end
  end.

(** [wake_blocked_vfs_pipe_read]; whether a reader was woken. *)
Definition wake_blocked_vfs_pipe_read (bytes : list byte) : K bool :=
  match bytes with
  | [] => kret false
  | _ =>
      let* rt := kget ks_rt in
      match blocked_vfs_pipe_reader_index rt with
      | None => kret false
      | Some waiter_index =>
          match mjoin (pt_processes (rt_processes rt) !! waiter_index) with
          | None => kret false
          | Some waiter =>
              match p_state waiter with
              | PsBlockedOnVfsRead _ _ destination max_len =>
                  let copy_len := Z.min (Z.of_nat (length bytes)) max_len in
                  let* copied := copy_to_waiter (cr3 (p_context waiter)) destination
                                   (take (Z.to_nat copy_len) bytes) in
                  do* modify_slot waiter_index
                        (wake_with (if copied : bool then copy_len else STATUS_BAD_BUFFER));
                  kret true
              | _ => kret false
              end
          end
      end
  end.

(** Advance the offset of a description; the status when it cannot be done. *)
Definition advance_offset (update_offset : bool) (description : FileDescriptionId)
    (offset len : Z) : K (option Z) :=
  if negb update_offset then kret None
  else
    match checked_add offset len with
    | None => kret (Some STATUS_VFS_UNSUPPORTED)
    | Some new_offset =>
        let* v := kget (λ k, rt_vfs (ks_rt k)) in
        match file_description_index v description with
        | None => kret (Some STATUS_VFS_BAD_HANDLE)
        | Some index =>
            do* modify_vfs (λ v, v <| open_file_descriptions ::=
                  alter (fmap (λ d, d <| fd_offset := new_offset |>)) index |>);
            kret None
        end
    end.

(** [wake_blocked_vfs_state_read]. *)
Definition wake_blocked_vfs_state_read (receiver_cr3 destination max_len offset : Z)
    (description : FileDescriptionId) (update_offset : bool) (message : IpcMessage) : K Z :=
  if msg_len message <? VFS_STATE_TRANSACTION_ID_BYTES then kret STATUS_VFS_UNSUPPORTED
  else
    let payload_len := Z.of_nat (msg_len message - VFS_STATE_TRANSACTION_ID_BYTES) in
    let start := Z.min offset payload_len in
    let copy_len := Z.min (payload_len - start) max_len in
    let payload := drop (VFS_STATE_TRANSACTION_ID_BYTES + Z.to_nat start) (msg_bytes message) in
    let* copied := copy_to_waiter receiver_cr3 destination (take (Z.to_nat copy_len) payload) in
    if negb copied then kret STATUS_BAD_BUFFER
    else
      let* failed := advance_offset update_offset description offset copy_len in
      kret (default copy_len failed).

(** [wake_blocked_vfs_state_stat]. *)
Definition wake_blocked_vfs_state_stat (receiver_cr3 destination max_len : Z)
    (description : FileDescriptionId) (node_id : VfsNodeId) (message : IpcMessage) : K Z :=
  if (max_len <? Z.of_nat VFS_STAT_BYTES)%Z ||
     negb (msg_len message =? VFS_STATE_TRANSACTION_ID_BYTES + 8) then kret STATUS_VFS_UNSUPPORTED
  else
    let* v := kget (λ k, rt_vfs (ks_rt k)) in
    match vfs_node v node_id, file_description v description with
    | Some node, Some file =>
        let stat := write_vfs_stat_record v node
                      (read_u64_le (msg_bytes message) VFS_STATE_TRANSACTION_ID_BYTES) (fd_rights file) in
        let* copied := copy_to_waiter receiver_cr3 destination stat in
        kret (if copied : bool then Z.of_nat VFS_STAT_BYTES else STATUS_BAD_BUFFER)
    | _, _ => kret STATUS_VFS_BAD_HANDLE
    end.

(** [wake_blocked_vfs_state_write]: the reply is the letters OK. *)
Definition wake_blocked_vfs_state_write (offset : Z) (description : FileDescriptionId)
    (update_offset : bool) (write_len : Z) (message : IpcMessage) : K Z :=
  if negb (msg_len message =? VFS_STATE_TRANSACTION_ID_BYTES + 2) ||
     negb (byte_at (msg_bytes message) VFS_STATE_TRANSACTION_ID_BYTES =? 79)%Z ||
     negb (byte_at (msg_bytes message) (VFS_STATE_TRANSACTION_ID_BYTES + 1) =? 75)%Z
  then kret STATUS_VFS_UNSUPPORTED
  else
    let* failed := advance_offset update_offset description offset write_len in
    kret (default write_len failed).

(** [wake_blocked_vfs_state_reply]. *)
Definition wake_blocked_vfs_state_reply (endpoint : KernelObjectId) : K unit :=
  let* rt := kget ks_rt in
  match blocked_vfs_state_waiter_index rt endpoint with
  | None => kret tt
  | Some waiter_index =>
      match mjoin (pt_processes (rt_processes rt) !! waiter_index) with
      | None => kret tt
      | Some waiter =>
          match p_state waiter with
          | PsBlockedOnVfsState _ node description operation transaction_id offset destination max_len
              write_len update_offset =>
              let receiver_cr3 := cr3 (p_context waiter) in
              let* reply := on_endpoint endpoint (λ ep,
                endpoint_dequeue_vfs_state_reply_for ep (p_pid waiter) transaction_id) in
              match mjoin reply with
              | None => kret tt
              | Some message =>
                  let* result :=
                    match operation with
                    | VsoRead | VsoServiceRead =>
                        wake_blocked_vfs_state_read receiver_cr3 destination max_len offset description
                          update_offset message
                    | VsoStat =>
                        wake_blocked_vfs_state_stat receiver_cr3 destination max_len description node message
                    | VsoWrite | VsoControl =>
                        wake_blocked_vfs_state_write offset description update_offset write_len message
                    end in
                  modify_slot waiter_index (wake_with result)
              end
          | _ => kret tt
          end
      end
  end.

(** [wake_blocked_vertexfs_sync_reply]: check the acknowledgement, then send the
    next sector or complete the write-back. *)
Definition wake_blocked_vertexfs_sync_reply (endpoint : KernelObjectId) : K unit :=
  let* rt := kget ks_rt in
  match blocked_vertexfs_sync_waiter_index rt endpoint with
  | None => kret tt
  | Some waiter_index =>
      match mjoin (pt_processes (rt_processes rt) !! waiter_index) with
      | None => kret tt
      | Some waiter =>
          match p_state waiter with
          | PsBlockedOnVertexFsSync request_endpoint reply_endpoint backing inode_id checksum write_count
              next_write expected_sector =>
              let* reply := on_endpoint endpoint (λ ep, endpoint_dequeue_for ep (p_pid waiter)) in
              let fail_sync :=
                (do* modify_vfs (record_vertexfs_page_cache_writeback_error (Z.to_nat backing));
                 modify_slot waiter_index (wake_with STATUS_VFS_UNSUPPORTED)) in
              match mjoin reply with
              | None => kret tt
              | Some message =>
                  if negb (vertexfs_device_ack_ok message expected_sector) then fail_sync
                  else if (next_write <? write_count)%Z then λ k,
                    match queue_vertexfs_device_write request_endpoint next_write k with
                    | None => None
                    | Some (Err _, k1) => fail_sync k1
                    | Some (Ok next_sector, k1) =>
                        (do* modify_slot waiter_index (λ p, p <| p_state :=
                               PsBlockedOnVertexFsSync request_endpoint reply_endpoint backing inode_id
                                 checksum write_count (next_write + 1) next_sector |>);
                         wake_blocked_receiver env request_endpoint) k1
                    end
                  else λ k,
                    let '(r, v) := finish_vertexfs_sync_file (Z.to_nat backing) checksum (rt_vfs (ks_rt k)) in
                    (do* modify_vfs (λ _, v);
                     modify_slot waiter_index
                       (wake_with (if is_ok r then STATUS_OK else STATUS_VFS_BAD_HANDLE))) k
              end
          | _ => kret tt
          end
      end
  end.
End transactions.
