(* ===== verification/VfsNodes.v ===== *)
(** Nodes by path ([ipc/runtime_state.rs]) and the operations on single nodes
    that the VFS calls are made of ([ipc/vfs_nodes.rs], [ipc/vfs_paths.rs]):
    resolution under a capability, creation, reading, writing and truncation. *)

From S2P Require Import Prelude KernelBase Transport VfsPath KernelObjects ProcessRuntime.
From S2P Require Import CapRegistry VfsState VfsWire Runtime Kernel PageCache VertexFs Store.
From S2P Require Import Scheduler VfsTransactions.

Definition VFS_MOUNT_VOLATILE : Z := 1.
Definition VFS_MOUNT_READ_ONLY : Z := Z.shiftl 1 2.
Definition VFS_MOUNT_KNOWN_FLAGS : Z := Z.lor (Z.lor VFS_MOUNT_VOLATILE VFS_MOUNT_BIND) VFS_MOUNT_READ_ONLY.
Definition VFS_OPEN_READ : Z := 1.
Definition VFS_OPEN_WRITE : Z := Z.shiftl 1 1.
Definition VFS_OPEN_CREATE : Z := Z.shiftl 1 2.
Definition VFS_OPEN_TRUNC : Z := Z.shiftl 1 3.
Definition VFS_OPEN_APPEND : Z := Z.shiftl 1 4.
Definition VFS_POLL_READABLE : Z := 1.
Definition VFS_POLL_WRITABLE : Z := Z.shiftl 1 1.
Definition VFS_POLL_METADATA : Z := Z.shiftl 1 3.
Definition VFS_SERVICE_REPORT_BYTES : list byte :=
  string_bytes "servicefs:vertex-state-report" ++ [10%Z].

(** [flags & mask != 0]. *)
Definition any_flag (flags mask : Z) : bool := negb (Z.land flags mask =? 0)%Z.
(** [requested & !available != 0]. *)
Definition exceeds (requested available : Z) : bool := negb (Z.land requested (not_u64 available) =? 0)%Z.

(** * Nodes by path *)

(** The loop of [vfs_node_by_path_from]: [rest] is the path from [start]. *)
Fixpoint walk_components (fuel : nat) (v : VfsState) (node : VfsNode) (rest : list byte) : option VfsNode :=
  match fuel with
  | 0 => None
  | S fuel' =>
      let end_ := match list_find (λ c, c = slash) rest with Some (i, _) => i | None => length rest end in
      if end_ =? 0 then None
      else
        match vfs_node_by_parent_name v (vn_id node) (take end_ rest) with
        | None => None
        | Some node => if end_ =? length rest then Some node else walk_components fuel' v node (drop (S end_) rest)
        end
  end.

(** [vfs_node_by_path_from]; every round consumes bytes of the path. *)
Definition vfs_node_by_path_from (v : VfsState) (node : VfsNode) (path : list byte) : option VfsNode :=
  match path with
  | [] => Some node
  | c :: rest => if negb (c =? slash)%Z then None else walk_components (S (length rest)) v node rest
  end.

(** [vfs_node_by_bind_mount_path]. *)
Definition vfs_node_by_bind_mount_path (rt : RuntimeState) (path : list byte) : option VfsNode :=
  match get_vfs_mount_by_path (rt_objects rt) path with
  | None => None
  | Some mount =>
      if negb (any_flag (vm_flags mount) VFS_MOUNT_BIND) then None
      else
        let root_path := path_as_bytes (vm_root_path mount) in
        match vfs_node (rt_vfs rt) (vm_root_node mount) with
        | None => None
        | Some root =>
            if length path =? length root_path then Some root
            else vfs_node_by_path_from (rt_vfs rt) root (drop (length root_path) path)
        end
  end.

(** [vfs_node_by_path]. *)
Definition vfs_node_by_path (rt : RuntimeState) (path : list byte) : option VfsNode :=
  match vfs_node_by_bind_mount_path rt path with
  | Some node => Some node
  | None =>
      let root := mjoin (vfs_nodes (rt_vfs rt) !! 0) in
      if bytes_eqb path [slash] then root
      else if negb (bool_decide (head path = Some slash)) then None
      else match root with Some root => vfs_node_by_path_from (rt_vfs rt) root path | None => None end
  end.

(** [vfs_node_for_store_object]. *)
Definition vfs_node_for_store_object (v : VfsState) (object : KernelObjectId) : option VfsNode :=
  find_node (λ n, match vn_backing n with
                  | VbStoreObject id => if (id =? object)%Z then Some n else None
                  | _ => None
                  end) v.

(** The loop of [vfs_node_is_descendant_or_self]; [None] when [fuel] rounds do
    not reach its end. *)
Fixpoint vfs_node_is_descendant_or_self (fuel : nat) (v : VfsState) (node root : VfsNodeId) : option bool :=
  match fuel with
  | 0 => None
  | S fuel' =>
      if (node =? root)%Z then Some true
      else
        match vfs_node v node with
        | None => Some false
        | Some current =>
            match vn_parent current with
            | None => Some false
            | Some parent => vfs_node_is_descendant_or_self fuel' v parent root
            end
        end
  end.

(** A round for every node, and one for a parent that is gone. *)
Definition descendant_fuel : nat := 2 + MAX_VFS_NODES.

(** The loop of [vfs_subtree_has_open_description]. *)
Fixpoint subtree_scan (v : VfsState) (root : VfsNodeId) (l : list (option OpenFileDescription)) : option bool :=
  match l with
  | [] => Some false
  | Some d :: l' =>
      match vfs_node_is_descendant_or_self descendant_fuel v (fd_node d) root with
      | None => None
      | Some true => Some true
      | Some false => subtree_scan v root l'
      end
  | None :: l' => subtree_scan v root l'
  end.
Definition vfs_subtree_has_open_description (v : VfsState) (root : VfsNodeId) : option bool :=
  subtree_scan v root (open_file_descriptions v).

(** * Calls on the runtime state *)

(** A fallible change of the VFS fields, with its error mapped. *)
Definition vfs_call {E A} (conv : E → IpcError) (c : M VfsState E A) : RT A := λ rt,
  let '(r, v) := c (rt_vfs rt) in (map_err conv r, rt <| rt_vfs := v |>).
Definition vfs_modify (f : VfsState → VfsState) : RT unit := rmodify (λ rt, rt <| rt_vfs ::= f |>).
(** [let _ = c;]. *)
Definition ignore {S E A} (c : M S E A) : M S E unit := λ s, (Ok tt, (c s).2).

(** [current_process_mount_root]. *)
Definition current_process_mount_root : RT VfsPath :=
  let! rt := rget in
  rlift (ok_or (p_mount_root <$> current_process (rt_processes rt)) VfsPermission).

(** [resolve_process_vfs_path]; once the path is validated the rest is the body
    of [resolve_vfs_path_under_root]. *)
Definition resolve_process_vfs_path (path : list byte) : RT VfsPath :=
  if bytes_eqb path [slash] then current_process_mount_root
  else
    do! rlift (validate_vfs_absolute_path path);
    let! root := current_process_mount_root in
    rlift (resolve_vfs_path_under_root root path).

(** [if path.is_empty() { resolve("/") } else { resolve(path) }]. *)
Definition resolve_or_root (path : list byte) : RT VfsPath :=
  resolve_process_vfs_path (match path with [] => [slash] | _ => path end).

(** [vfs_path_is_read_only]. *)
Definition vfs_path_is_read_only (rt : RuntimeState) (path : list byte) : bool :=
  match get_vfs_mount_by_path (rt_objects rt) path with
  | Some mount => any_flag (vm_flags mount) VFS_MOUNT_READ_ONLY
  | None => false
  end.

(** [vfs_request_path_is_read_only]. *)
Definition vfs_request_path_is_read_only (path : list byte) : RT bool :=
  let! canonical_path := resolve_or_root path in
  rgets (λ rt, vfs_path_is_read_only rt (path_as_bytes canonical_path)).

(** [current_file_handle]. *)
Definition current_file_handle (handle : Z) : RT FileHandle :=
  let! rt := rget in
  let! process := rlift (ok_or (current_process (rt_processes rt)) VfsPermission) in
  let! found := rlift (file_handle process handle) in
  rret found.2.

(** [current_open_file]. *)
Definition current_open_file (handle : Z) : RT (OpenFileDescription * VfsNode) :=
  let! file := current_file_handle handle in
  let! rt := rget in
  let! description := rlift (ok_or (file_description (rt_vfs rt) (fh_description file)) VfsBadHandle) in
  let! node := rlift (ok_or (vfs_node (rt_vfs rt) (fd_node description)) VfsBadHandle) in
  rret (description, node).

(** [vfs_file_right_mask]. *)
Definition vfs_file_right_mask : Z :=
  foldr Z.lor 0%Z [RIGHT_READ; RIGHT_WRITE; RIGHT_CONTROL; RIGHT_CREATE; RIGHT_UNLINK; RIGHT_RENAME;
                   RIGHT_MOUNT; RIGHT_RESOLVE; RIGHT_EXECUTE; RIGHT_INSPECT_METADATA].

(** [resolve_vfs_root_authority]. *)
Definition resolve_vfs_root_authority (cap : Capability) (path : list byte) : RT Z :=
  let! rt := rget in
  let! root := rlift (ok_or (get_vfs_root (rt_objects rt) (c_object cap)) VfsPermission) in
  do! rguard (vfs_authority_path_covers (path_as_bytes (vr_root_path root)) path) VfsPermission;
  let available := Z.land (c_rights cap) vfs_file_right_mask in
  do! rguard (any_flag available RIGHT_RESOLVE) VfsPermission;
  rret available.

(** [resolve_vfs_node_from_cap]. *)
Definition resolve_vfs_node_from_cap (cap : Capability) (path : list byte) : RT (VfsNode * Z) :=
  let! rt := rget in
  let available := Z.land (c_rights cap) vfs_file_right_mask in
  match vfs_node_for_store_object (rt_vfs rt) (c_object cap) with
  | Some store_node =>
      do! rguard (bytes_eqb path [] || bytes_eqb path [dot]) VfsBadPath;
      rret (store_node, available)
  | None =>
      match get_vfs_root (rt_objects rt) (c_object cap) with
      | Some root =>
          let! canonical_path := resolve_or_root path in
          let path := path_as_bytes canonical_path in
          do! rguard (any_flag (c_rights cap) RIGHT_RESOLVE &&
                      vfs_authority_path_covers (path_as_bytes (vr_root_path root)) path) VfsPermission;
          let! node := rlift (ok_or (vfs_node_by_path rt path) VfsNotFound) in
          do! rguard (any_flag available RIGHT_RESOLVE) VfsPermission;
          rret (node, available)
      | None => rfail VfsPermission
      end
  end.

(** * Creation *)

(** [vertexfs_directory_inode_for_node]. *)
Definition vertexfs_directory_inode_for_node (node : VfsNode) : Result IpcError Z :=
  if negb (str_eqb (vn_mount_source node) "vertexfs") then Err VfsUnsupported
  else if bytes_eqb (name_as_bytes (vn_name node)) (string_bytes "app") then Ok VERTEXFS_INODE_APP_DIR
  else Err VfsUnsupported.

(** The node of a new file, whose backing [release] undoes when there is no
    room for the node. *)
Definition add_file_node (name : VfsName) (parent : VfsNode) (backing : VfsBacking)
    (release : M VfsState IpcError unit) : RT VfsNodeId := λ rt,
  match add_vfs_node_with_name (rt_vfs rt) name (Some (vn_id parent)) NkRegularFile backing
          (vn_mount_source parent) with
  | (Ok node_id, v) => (Ok node_id, rt <| rt_vfs := v |>)
  | (Err _, v) => (Err VfsNoSpace, rt <| rt_vfs := (release v).2 |>)
  end.

(** The checks [vfs_create_memory_file_node] and [vfs_create_directory_node]
    make before they add a node: the parent, the name and the rights available. *)
Definition prepare_create (cap : Capability) (path : list byte) (required_file_rights : Z) :
    RT (VfsNode * VfsName * Z) :=
  let! canonical_path := resolve_process_vfs_path path in
  let path := path_as_bytes canonical_path in
  let! split := rlift (split_vfs_parent_child path) in
  let! child_name := rlift (map_err (λ _, VfsBadPath) (name_from_user_component split.2)) in
  let! available := resolve_vfs_root_authority cap split.1 in
  do! rguard (any_flag available RIGHT_CREATE && negb (exceeds required_file_rights available)) VfsPermission;
  let! rt := rget in
  let! parent := rlift (ok_or (vfs_node_by_path rt split.1) VfsNotFound) in
  do! rguard (bool_decide (vn_kind parent = NkDirectory)) VfsNotDirectory;
  do! rguard (negb (bool_decide (is_Some (vfs_node_by_path rt path)))) VfsExists;
  rret (parent, child_name, available).

(** [vfs_create_memory_file_node]. *)
Definition vfs_create_memory_file_node (cap : Capability) (path : list byte) (required_file_rights : Z) :
    RT (VfsNode * Z) :=
  let! prepared := prepare_create cap path required_file_rights in
  let '(parent, child_name, available) := prepared : VfsNode * VfsName * Z in
  let! node_id :=
    if str_eqb (vn_mount_source parent) "vertexfs" then
      let! parent_inode := rlift (vertexfs_directory_inode_for_node parent) in
      let! backing := vfs_call id (add_empty_vertexfs_file child_name parent_inode) in
      add_file_node child_name parent (VbVertexFsFile backing) (λ v, release_vertexfs_file v backing)
    else
      let! backing := vfs_call (λ _, VfsNoSpace) add_vfs_empty_memory_file in
      add_file_node child_name parent (VbMemoryFile backing) (λ v, release_vfs_memory_file v backing) in
  let! rt := rget in
  let! node := rlift (ok_or (vfs_node (rt_vfs rt) node_id) VfsBadHandle) in
  rret (node, available).

(** [vfs_create_directory_node]: the same checks, with no further right. *)
Definition vfs_create_directory_node (cap : Capability) (path : list byte) : RT VfsNode :=
  let! prepared := prepare_create cap path 0 in
  let '(parent, child_name, _) := prepared : VfsNode * VfsName * Z in
  let! node_id := vfs_call (λ _, VfsNoSpace) (λ v,
    add_vfs_node_with_name v child_name (Some (vn_id parent)) NkDirectory VbNone (vn_mount_source parent)) in
  let! rt := rget in
  rlift (ok_or (vfs_node (rt_vfs rt) node_id) VfsBadHandle).

(** [release_created_vfs_memory_node]. *)
Definition release_created_vfs_memory_node (created_node : option VfsNode) (v : VfsState) : VfsState :=
  match created_node with
  | None => v
  | Some node =>
      if vfs_node_has_open_description v (vn_id node) then v
      else
        match vn_backing node with
        | VbMemoryFile backing => (release_vfs_memory_file (remove_vfs_node v (vn_id node)).2 backing).2
        | VbVertexFsFile backing => (release_vertexfs_file (remove_vfs_node v (vn_id node)).2 backing).2
        | _ => v
        end
  end.

(** * Rights of an open *)

(** [vfs_regular_file_open_rights]. *)
Definition vfs_regular_file_open_rights (flags : Z) : Result IpcError Z :=
  let rights := Z.lor (if any_flag flags VFS_OPEN_READ then RIGHT_READ else 0%Z)
                      (if any_flag flags VFS_OPEN_WRITE then RIGHT_WRITE else 0%Z) in
  if (rights =? 0)%Z then Err VfsUnsupported else Ok rights.

Definition create_trunc_append : Z := Z.lor (Z.lor VFS_OPEN_CREATE VFS_OPEN_TRUNC) VFS_OPEN_APPEND.
Definition write_create_trunc_append : Z := Z.lor VFS_OPEN_WRITE create_trunc_append.

Definition is_state_volume_control (b : VfsBacking) : bool :=
  match b with VbStateVolumeControl _ => true | _ => false end.

(** [vfs_open_rights]. *)
Definition vfs_open_rights (flags : Z) (node : VfsNode) : Result IpcError Z :=
  match vn_kind node with
  | NkDirectory =>
      if any_flag flags write_create_trunc_append then Err VfsNotFile
      else if negb (any_flag flags VFS_OPEN_READ) then Err VfsUnsupported
      else Ok RIGHT_RESOLVE
  | NkDeviceNode =>
      if any_flag flags create_trunc_append then Err VfsUnsupported
      else if negb (any_flag flags (Z.lor VFS_OPEN_READ VFS_OPEN_WRITE)) then Err VfsUnsupported
      else Ok RIGHT_CONTROL
  | _ =>
      if is_state_volume_control (vn_backing node) then
        if negb (flags =? VFS_OPEN_WRITE)%Z then Err VfsUnsupported else Ok RIGHT_CONTROL
      else vfs_regular_file_open_rights flags
  end.

(** [current_process_has_live_cap_for_object]. *)
Definition current_process_has_live_cap_for_object (rt : RuntimeState) (object : KernelObjectId)
    (required_rights : Z) : bool :=
  match current_process (rt_processes rt) with
  | None => false
  | Some process =>
      match first_index (λ o, match o with
          | Some cap => (c_object cap =? object)%Z && has_rights (c_rights cap) required_rights &&
                        capability_live rt cap
          | None => false
          end) (p_caps process) MAX_CAPS with
      | Some _ => true
      | None => false
      end
  end.

(** [validate_vfs_device_open]. *)
Definition validate_vfs_device_open (rt : RuntimeState) (flags available_rights : Z)
    (device_object : KernelObjectId) : Result IpcError unit :=
  let path_rights := Z.lor (if any_flag flags VFS_OPEN_READ then RIGHT_READ else 0%Z)
                           (if any_flag flags VFS_OPEN_WRITE then RIGHT_WRITE else 0%Z) in
  if (path_rights =? 0)%Z then Err VfsUnsupported
  else if exceeds path_rights available_rights then Err VfsPermission
  else if negb (current_process_has_live_cap_for_object rt device_object RIGHT_CONTROL) then Err VfsPermission
  else Ok tt.

(** * Contents *)

Definition memory_file (v : VfsState) (index : nat) : VfsMemoryFile :=
  default memory_file_empty (vfs_mem_files v !! index).

(** [vfs_node_len]. *)
Definition vfs_node_len (rt : RuntimeState) (node : VfsNode) : Result IpcError Z :=
  match vn_backing node with
  | VbStoreObject object_id => ok_or (so_length <$> get_store_object (rt_objects rt) object_id) VfsBadHandle
  | VbMemoryFile index =>
      if vfs_mem_file_count (rt_vfs rt) <=? index then Err VfsBadHandle
      else Ok (Z.of_nat (mf_len (memory_file (rt_vfs rt) index)))
  | VbVertexFsFile index =>
      if vertexfs_file_count (rt_vfs rt) <=? index then Err VfsBadHandle
      else Ok (Z.of_nat (vf_len (vertexfs_file (rt_vfs rt) index)))
  | VbSynthetic bytes => Ok (Z.of_nat (length bytes))
  | VbFsServiceReport => Ok (Z.of_nat (length VFS_SERVICE_REPORT_BYTES))
  | VbPipe => Ok (Z.of_nat (pipe_len (vfs_pipe (rt_vfs rt))))
  | VbNone | VbStateVolume _ | VbStateVolumeValue _ | VbStateVolumeControl _ | VbDevice _ => Ok 0%Z
  end.

(** [vfs_poll_ready]. *)
Definition vfs_poll_ready (rt : RuntimeState) (description : OpenFileDescription) (node : VfsNode) (events : Z) :
    Result IpcError Z :=
  let v := rt_vfs rt in
  let? readable :=
    if any_flag events VFS_POLL_READABLE then
      match vn_kind node, vn_backing node with
      | NkDirectory, _ => Ok (vfs_node_has_children v (vn_id node))
      | _, VbPipe => Ok (negb (pipe_len (vfs_pipe v) =? 0))
      | _, _ => let? len := vfs_node_len rt node in Ok (fd_offset description <? len)%Z
      end
    else Ok false in
  let writable := any_flag events VFS_POLL_WRITABLE &&
    match vn_backing node with
    | VbMemoryFile _ | VbVertexFsFile _ | VbStateVolumeValue _ | VbStateVolumeControl _ => true
    | VbPipe => pipe_len (vfs_pipe v) =? 0
    | _ => false
    end in
  let start := fd_watch_cursor description `min` vfs_event_count v in
  let changed := any_flag events VFS_POLL_METADATA &&
    existsb (λ o, match o with Some e => (ev_parent e =? vn_id node)%Z | None => false end)
      (drop start (take (vfs_event_count v) (vfs_events v))) in
  Ok (foldr Z.lor 0%Z [if readable : bool then VFS_POLL_READABLE else 0%Z;
                       if writable : bool then VFS_POLL_WRITABLE else 0%Z;
                       if changed : bool then VFS_POLL_METADATA else 0%Z]).

(** The memory-file case of [vfs_truncate_node]: only the length changes. *)
Definition truncate_memory_file (index len : nat) (v : VfsState) : VfsState :=
  v <| vfs_mem_files ::= alter (λ f, mkVfsMemoryFile (mf_name f) (mf_bytes f) len) index |>.

(** The memory-file case of [vfs_write_node]. *)
Definition write_memory_file (index start : nat) (bytes : list byte) (v : VfsState) : VfsState :=
  let end_ := start + length bytes in
  v <| vfs_mem_files ::= alter (λ f, mkVfsMemoryFile (mf_name f) (write_bytes (mf_bytes f) start bytes)
                                       (if mf_len f <? end_ then end_ else mf_len f)) index |>.

(** [vfs_truncate_node]. *)
Definition vfs_truncate_node (node : VfsNode) (len : nat) : RT unit :=
  match vn_backing node with
  | VbMemoryFile index =>
      do! rguard (len <=? MAX_VFS_MEM_FILE_BYTES) VfsNoSpace;
      let! rt := rget in
      do! rguard (negb (vfs_mem_file_count (rt_vfs rt) <=? index)) VfsBadHandle;
      do! vfs_modify (truncate_memory_file index len);
      do! vfs_call id (λ v, touch_vfs_memory_file_nodes v index);
      rret tt
  | VbVertexFsFile index =>
      let! rt := rget in
      do! vfs_call id (truncate_vertexfs_page_cache (vertexfs_page_cache_mount_id rt) index len);
      do! vfs_call id (λ v, touch_vertexfs_file_nodes v index);
      rret tt
  | _ => rfail VfsUnsupported
  end.

(** * Kernel calls *)

Section node_calls.
Context `{UserMemory} `{StoreMemory}.

(** The copy of the bytes of a file from [offset] on, and the offset after it. *)
Definition copy_slice (bytes : list byte) (offset destination max_len : Z) : K (Z * Z) :=
  let len := Z.of_nat (length bytes) in
  let start := Z.min offset len in
  let copy_len := Z.min (len - start) max_len in
  let* copied := copy_to_user destination (take (Z.to_nat copy_len) (drop (Z.to_nat start) bytes)) in
  do* kguard copied InvalidUserBuffer;
  let* next := klift (ok_or (checked_add offset copy_len) VfsUnsupported) in
  kret (copy_len, next).

(** [vfs_read_node]: how many bytes were read, and the offset after them. *)
Definition vfs_read_node (node : VfsNode) (offset destination max_len : Z) : K (Z * Z) :=
  match vn_backing node with
  | VbStoreObject object_id =>
      let* rt := kget ks_rt in
      let* object := klift (ok_or (get_store_object (rt_objects rt) object_id) VfsBadHandle) in
      let* bytes := klift (store_object_bytes object) in
      copy_slice bytes offset destination max_len
  | VbMemoryFile index =>
      let* v := kget (λ k, rt_vfs (ks_rt k)) in
      do* kguard (negb (vfs_mem_file_count v <=? index)) VfsBadHandle;
      let file := memory_file v index in
      copy_slice (take (mf_len file) (mf_bytes file)) offset destination max_len
  | VbVertexFsFile index =>
      let* r := read_vertexfs_page_cache index offset destination max_len in
      kret (Z.of_nat r.1, r.2)
  | VbSynthetic bytes => copy_slice bytes offset destination max_len
  | _ => kfail VfsNotFile
  end.

(** [vfs_write_node]: how many bytes were written, and the offset after them. *)
Definition vfs_write_node (node : VfsNode) (offset : Z) (bytes : list byte) : K (Z * Z) :=
  let len := Z.of_nat (length bytes) in
  match vn_backing node with
  | VbMemoryFile index =>
      do* kguard (length bytes <=? MAX_VFS_MEM_FILE_BYTES) VfsNoSpace;
      let* end_ := klift (ok_or (checked_add offset len) VfsNoSpace) in
      do* kguard (end_ <=? Z.of_nat MAX_VFS_MEM_FILE_BYTES)%Z VfsNoSpace;
      let* v := kget (λ k, rt_vfs (ks_rt k)) in
      do* kguard (negb (vfs_mem_file_count v <=? index)) VfsBadHandle;
      do* modify_vfs (write_memory_file index (Z.to_nat offset) bytes);
      do* on_vfs (λ v, touch_vfs_memory_file_nodes v index);
      kret (len, end_)
  | VbVertexFsFile index =>
      let* rt := kget ks_rt in
      let* result := on_vfs (write_vertexfs_page_cache (vertexfs_page_cache_mount_id rt) index offset bytes) in
      do* on_vfs (λ v, touch_vertexfs_file_nodes v index);
      kret (Z.of_nat result.1, result.2)
  | VbPipe =>
      do* kguard (length bytes <=? MAX_VFS_PIPE_BYTES) VfsNoSpace;
      let* woken := wake_blocked_vfs_pipe_read bytes in
      if woken : bool then kret (len, 0%Z)
      else
        do* on_vfs (λ v, let '(r, pipe) := pipe_enqueue (vfs_pipe v) bytes in (r, v <| vfs_pipe := pipe |>));
        kret (len, 0%Z)
  | _ => kfail VfsUnsupported
  end.
End node_calls.
