(* ===== verification/BootGrants.v ===== *)
(** The capabilities and mounts a process starts with ([ipc/boot_runtime.rs]): the
    grants of the configuration, the endpoints and the secret the kernel hands to its
    own services, and the declared bind mounts. *)

From S2P Require Import Prelude KernelBase Transport VfsPath KernelObjects ProcessRuntime.
From S2P Require Import BootConfig BootPolicy CapRegistry VfsState Runtime VfsNodes.

Abbreviation Init := (M RuntimeState InitError) (only parsing).

(** * Objects of the configuration *)

(** An entry of a table of object identifiers. *)
Definition object_slot (ids : list (option KernelObjectId)) (index : nat) : Result InitError KernelObjectId :=
  ok_or (mjoin (ids !! index)) InvalidBootManifest.

(** [grant_object_id]. *)
Definition grant_object_id (rt : RuntimeState) (grant : BootGrantConfig) : Result InitError KernelObjectId :=
  let ids := rt_boot_ids rt in
  let kind := bg_object_kind grant in
  let index := bg_object_index grant in
  if (kind =? BOOT_OBJECT_ENDPOINT)%Z then object_slot (endpoint_ids ids) index
  else if (kind =? BOOT_OBJECT_STORE)%Z then object_slot (store_object_ids ids) index
  else if (kind =? BOOT_OBJECT_STATE)%Z then Err InvalidBootManifest
  else if (kind =? BOOT_OBJECT_TIMER)%Z && (index =? 0) then ok_or (timer_id ids) InvalidBootManifest
  else if (kind =? BOOT_OBJECT_NETWORK_PORT)%Z then object_slot (network_port_ids ids) index
  else if (kind =? BOOT_OBJECT_IO_PORT_RANGE)%Z then object_slot (io_port_ids ids) index
  else if (kind =? BOOT_OBJECT_MMIO_REGION)%Z then object_slot (mmio_region_ids ids) index
  else if (kind =? BOOT_OBJECT_FRAMEBUFFER)%Z then object_slot (framebuffer_ids ids) index
  else if (kind =? BOOT_OBJECT_INTERRUPT_LINE)%Z then object_slot (interrupt_line_ids ids) index
  else if (kind =? BOOT_OBJECT_DMA_REGION)%Z then object_slot (dma_region_ids ids) index
  else if (kind =? BOOT_OBJECT_PCI_DEVICE)%Z then object_slot (pci_device_ids ids) index
  else if (kind =? BOOT_OBJECT_VIRTIO_DEVICE)%Z then object_slot (virtio_device_ids ids) index
  else if (kind =? BOOT_OBJECT_NAMESPACE)%Z then object_slot (namespace_ids ids) index
  else if (kind =? BOOT_OBJECT_VFS_ROOT)%Z then object_slot (vfs_root_ids ids) index
  else Err InvalidBootManifest.

(** [namespace_entry_object_id]. *)
Definition namespace_entry_object_id (rt : RuntimeState) (entry : BootNamespaceEntryConfig) :
    Result InitError KernelObjectId :=
  do? res_guard (namespace_entry_object_kind_allowed (bne_object_kind entry)) InvalidBootManifest;
  grant_object_id rt (mkBootGrantConfig 0 0 (bne_object_kind entry) (bne_object_index entry) (bne_rights entry)).

(** * Capabilities *)

(** [grant_process_cap_by_pid]. *)
Definition grant_process_cap_by_pid (pid : ProcessId) (slot : Z) (cap : Capability) (persist_for_restart : bool) :
    Init unit := λ rt,
  match process (rt_processes rt) pid with
  | None => (Err InvalidBootManifest, rt)
  | Some p =>
      match cspace_grant (p_caps p) slot cap with
      | (Err e, _) => (Err e, rt)
      | (Ok _, caps) =>
          match (if persist_for_restart then cspace_grant (p_initial_caps p) slot cap
                 else (Ok tt, p_initial_caps p)) with
          | (Err e, _) => (Err e, rt)
          | (Ok _, initial_caps) =>
              (Ok tt,
               rt <| rt_processes ::= λ t,
                       (modify_process t pid (λ p, p <| p_caps := caps |> <| p_initial_caps := initial_caps |>)).2 |>)
          end
      end
  end.

(** [runtime.new_capability(...).map_err(|_| InitError::CapabilityTableFull)?] of a capability without a
    parent. *)
Definition mint_capability (object : KernelObjectId) (rights : Z) (owner : ProcessId) : Init Capability := λ rt,
  let '(r, rt') := rt_new_capability object rights owner 0 pid_empty rt in
  (map_err (λ _, CapabilityTableFull) r, rt').

Definition grant_new_capability (object : KernelObjectId) (rights : Z) (owner : ProcessId) (slot : Z) : Init unit :=
  let! cap := mint_capability object rights owner in
  grant_process_cap_by_pid owner slot cap true.

(** The loop of [grant_config_caps_to_process] over the grants. *)
Fixpoint grant_config_caps (grants : list (option BootGrantConfig)) (process_index : nat) (owner : ProcessId) :
    Init unit :=
  match grants with
  | [] => rret tt
  | None :: _ => rfail InvalidBootManifest
  | Some grant :: rest =>
      if negb (bg_process_index grant =? process_index) then grant_config_caps rest process_index owner
      else
        let! rt := rget in
        let! object := rlift (grant_object_id rt grant) in
        do! grant_new_capability object (bg_rights grant) owner (bg_cap_slot grant);
        grant_config_caps rest process_index owner
  end.

(** The blocks of [grant_config_caps_to_process] for the services of the kernel: the
    process by its name, the endpoint, the fact of the bootstrap policy that must
    authorise it, the right and the slot. *)
Record NativeGrant := mkNativeGrant {
  ng_process : string;
  ng_endpoint : ServiceEndpoints → option KernelObjectId;
  ng_authority : string;
  ng_rule : string;
  ng_rights : Z;
  ng_slot : Z
}.

Definition native_grants : list NativeGrant := [
  mkNativeGrant VERTEX_STATE_PROCESS_NAME state_vfs_request_endpoint "endpoint:state-vfs-request"
    "state-vfs-request" RIGHT_RECEIVE VERTEX_STATE_VFS_REQUEST_CAP_SLOT;
  mkNativeGrant VERTEX_STATE_PROCESS_NAME state_vfs_reply_endpoint "endpoint:state-vfs-reply"
    "state-vfs-reply" RIGHT_SEND VERTEX_STATE_VFS_REPLY_CAP_SLOT;
  mkNativeGrant BLOCK_DRIVER_PROCESS_NAME vertexfs_device_request_endpoint "endpoint:vertexfs-device-request"
    "vertexfs-device-request" RIGHT_RECEIVE BLOCK_DRIVER_VERTEXFS_REQUEST_CAP_SLOT;
  mkNativeGrant BLOCK_DRIVER_PROCESS_NAME vertexfs_device_reply_endpoint "endpoint:vertexfs-device-reply"
    "vertexfs-device-reply" RIGHT_SEND BLOCK_DRIVER_VERTEXFS_REPLY_CAP_SLOT;
  mkNativeGrant BLOCK_DRIVER_PROCESS_NAME generation_metadata_block_request_endpoint
    "endpoint:generation-metadata-block-request" "generation-metadata-block-request" RIGHT_RECEIVE
    BLOCK_DRIVER_GENERATION_METADATA_REQUEST_CAP_SLOT;
  mkNativeGrant BLOCK_DRIVER_PROCESS_NAME generation_metadata_block_reply_endpoint
    "endpoint:generation-metadata-block-reply" "generation-metadata-block-reply" RIGHT_SEND
    BLOCK_DRIVER_GENERATION_METADATA_REPLY_CAP_SLOT;
  mkNativeGrant GENERATION_MANAGER_PROCESS_NAME generation_metadata_block_request_endpoint
    "endpoint:generation-metadata-block-request" "generation-metadata-block-request" RIGHT_SEND
    GENERATION_MANAGER_METADATA_REQUEST_CAP_SLOT;
  mkNativeGrant GENERATION_MANAGER_PROCESS_NAME generation_metadata_block_reply_endpoint
    "endpoint:generation-metadata-block-reply" "generation-metadata-block-reply" RIGHT_RECEIVE
    GENERATION_MANAGER_METADATA_REPLY_CAP_SLOT].

Definition grant_native (c : BootRuntimeConfig) (process : BootProcessConfig) (owner : ProcessId) (n : NativeGrant) :
    Init unit :=
  if str_eqb (bp_name process) (ng_process n) then
    let! rt := rget in
    match ng_endpoint n (rt_services rt) with
    | None => rret tt
    | Some endpoint =>
        do! rguard (boot_bootstrap_authority_allows c (bp_graph_node process) (ng_authority n) (ng_rule n) (ng_rights n))
          InvalidBootManifest;
        grant_new_capability endpoint (ng_rights n) owner (ng_slot n)
    end
  else rret tt.

Fixpoint grant_natives (c : BootRuntimeConfig) (process : BootProcessConfig) (owner : ProcessId) (l : list NativeGrant) :
    Init unit :=
  match l with
  | [] => rret tt
  | n :: l' => do! grant_native c process owner n; grant_natives c process owner l'
  end.

Definition secret_rights : Z := Z.lor RIGHT_READ RIGHT_INSPECT_METADATA.
Definition LOGD_SECRET_SLOT : Z := 6.

(** The block for [logd]. *)
Definition grant_logd_secret (c : BootRuntimeConfig) (process : BootProcessConfig) (owner : ProcessId) : Init unit :=
  if str_eqb (bp_name process) "logd" then
    do! rguard (boot_bootstrap_authority_allows c (bp_graph_node process) "secret:logd-token" "native-secret" secret_rights)
      InvalidBootManifest;
    let! rt := rget in
    let! secret := rlift (ok_or (secret_id (rt_boot_ids rt)) InvalidBootManifest) in
    grant_new_capability secret secret_rights owner LOGD_SECRET_SLOT
  else rret tt.

(** [grant_config_caps_to_process]. *)
Definition grant_config_caps_to_process (c : BootRuntimeConfig) (config_process_index : nat) (owner : ProcessId) :
    Init unit :=
  do! grant_config_caps (counted (cf_grants c)) config_process_index owner;
  let! process := rlift (config_entry (cf_processes c) config_process_index) in
  do! grant_logd_secret c process owner;
  grant_natives c process owner native_grants.

(** * Checks before a process is made *)

(** The loop of [validate_config_caps_for_process] over the grants: the slots they
    occupy. *)
Fixpoint validate_grant_slots (rt : RuntimeState) (grants : list (option BootGrantConfig)) (process_index : nat)
    (occupied : list bool) : Result InitError (list bool) :=
  match grants with
  | [] => Ok occupied
  | None :: _ => Err InvalidBootManifest
  | Some grant :: rest =>
      if negb (bg_process_index grant =? process_index) then validate_grant_slots rt rest process_index occupied
      else
        do? grant_object_id rt grant;
        do? res_guard (bg_cap_slot grant <? Z.of_nat MAX_CAPS)%Z CapabilityTableFull;
        let slot := Z.to_nat (bg_cap_slot grant) in
        match occupied !! slot with
        | Some true => Err InvalidBootManifest
        | _ => validate_grant_slots rt rest process_index (<[slot := true]> occupied)
        end
  end.

(** [slot >= MAX_CAPS || occupied_slots[slot]] is an error. *)
Definition native_slot_free (occupied : list bool) (slot : Z) : Result InitError unit :=
  res_guard (negb ((Z.of_nat MAX_CAPS <=? slot)%Z || default false (occupied !! Z.to_nat slot))) InvalidBootManifest.

(** The block of [validate_config_caps_for_process] for a pair of endpoints. *)
Definition validate_native_pair (c : BootRuntimeConfig) (process : BootProcessConfig) (occupied : list bool)
    (request reply : NativeGrant) : Result InitError unit :=
  let allowed n := boot_bootstrap_authority_allows c (bp_graph_node process) (ng_authority n) (ng_rule n) (ng_rights n) in
  do? res_guard (allowed request && allowed reply) InvalidBootManifest;
  do? native_slot_free occupied (ng_slot request);
  native_slot_free occupied (ng_slot reply).

(** The pairs, each with the process it is for; the block is taken when the reply
    endpoint exists. *)
Fixpoint validate_native_pairs (rt : RuntimeState) (c : BootRuntimeConfig) (process : BootProcessConfig)
    (occupied : list bool) (l : list NativeGrant) : Result InitError unit :=
  match l with
  | request :: reply :: rest =>
      do? (if str_eqb (bp_name process) (ng_process reply) && bool_decide (is_Some (ng_endpoint reply (rt_services rt)))
           then validate_native_pair c process occupied request reply else Ok tt);
      validate_native_pairs rt c process occupied rest
  | _ => Ok tt
  end.

(** [validate_config_caps_for_process]. *)
Definition validate_config_caps_for_process (rt : RuntimeState) (c : BootRuntimeConfig) (config_process_index : nat) :
    Result InitError unit :=
  let? process := config_entry (cf_processes c) config_process_index in
  let? occupied := validate_grant_slots rt (counted (cf_grants c)) config_process_index (replicate MAX_CAPS false) in
  do? (if str_eqb (bp_name process) "logd" then
         do? res_guard (boot_bootstrap_authority_allows c (bp_graph_node process) "secret:logd-token" "native-secret"
                          secret_rights) InvalidBootManifest;
         do? ok_or (secret_id (rt_boot_ids rt)) InvalidBootManifest;
         native_slot_free occupied LOGD_SECRET_SLOT
       else Ok tt);
  validate_native_pairs rt c process occupied native_grants.

(** * Mounts *)

(** [boot_process_mount_flags_to_vfs]. *)
Definition boot_process_mount_flags_to_vfs (flags : Z) : Result InitError Z :=
  if negb (rights_within flags known_boot_process_mount_flags) || (Z.land flags BOOT_PROCESS_MOUNT_BIND =? 0)%Z
  then Err InvalidBootManifest
  else Ok (if (Z.land flags BOOT_PROCESS_MOUNT_READ_ONLY =? 0)%Z then VFS_MOUNT_BIND
           else Z.lor VFS_MOUNT_BIND VFS_MOUNT_READ_ONLY).

Definition bad_manifest {E A} (r : Result E A) : Result InitError A := map_err (λ _, InvalidBootManifest) r.

(** The body of the loop of [install_declared_process_mounts]. *)
Definition install_declared_mount (pid : ProcessId) (mount_root : VfsPath) (mount : BootProcessMountConfig) :
    Init unit := λ rt,
  match (let? destination := bad_manifest (resolve_vfs_path_under_root mount_root (string_bytes (bpm_path mount))) in
         let? source := bad_manifest (resolve_vfs_path_under_root mount_root (string_bytes (bpm_source mount))) in
         let? split := bad_manifest (split_vfs_parent_child (path_as_bytes destination)) in
         let? parent := ok_or (vfs_node_by_path rt split.1) InvalidBootManifest in
         do? res_guard (bool_decide (vn_kind parent = NkDirectory) &&
                        negb (bool_decide (is_Some (vfs_node_by_path rt (path_as_bytes destination)))) &&
                        negb (bool_decide (is_Some (get_vfs_mount_by_exact_path (rt_objects rt)
                                                      (path_as_bytes destination))))) InvalidBootManifest;
         let? source_node := ok_or (vfs_node_by_path rt (path_as_bytes source)) InvalidBootManifest in
         do? res_guard (bool_decide (vn_kind source_node = NkDirectory)) InvalidBootManifest;
         let? source_mount := ok_or (get_vfs_mount_by_path (rt_objects rt) (path_as_bytes source)) InvalidBootManifest in
         let? flags := boot_process_mount_flags_to_vfs (bpm_flags mount) in
         Ok (source_node, destination, Z.lor flags (Z.land (vm_flags source_mount) VFS_MOUNT_READ_ONLY))) with
  | Err e => (Err e, rt)
  | Ok (source_node, destination, flags) =>
      let '(r, rt') := rt_add_vfs_mount rt "mount:declared-bind" (vn_id source_node) destination
                         (vn_mount_source source_node) flags false pid in
      (match r with Ok _ => Ok tt | Err e => Err e end, rt')
  end.

Fixpoint install_declared_mounts (pid : ProcessId) (mount_root : VfsPath) (l : list (option BootProcessMountConfig))
    (installed : Z) : Init Z :=
  match l with
  | [] => rret installed
  | None :: _ => rfail InvalidBootManifest
  | Some mount :: rest =>
      do! install_declared_mount pid mount_root mount;
      install_declared_mounts pid mount_root rest (installed + 1)
  end.

(** [install_declared_process_mounts]. *)
Definition install_declared_process_mounts (process : BootProcessConfig) (pid : ProcessId) (mount_root : VfsPath) :
    Init Z :=
  install_declared_mounts pid mount_root (counted (bp_mounts process)) 0.

(** [validate_process_mount_roots]. *)
Fixpoint validate_mount_roots (rt : RuntimeState) (l : list (option BootProcessConfig)) : Result InitError unit :=
  match l with
  | [] => Ok tt
  | None :: _ => Err InvalidBootManifest
  | Some process :: rest =>
      let? node := ok_or (vfs_node_by_path rt (string_bytes (bp_mount_root process))) InvalidBootManifest in
      do? res_guard (bool_decide (vn_kind node = NkDirectory)) InvalidBootManifest;
      validate_mount_roots rt rest
  end.
Definition validate_process_mount_roots (rt : RuntimeState) (c : BootRuntimeConfig) : Result InitError unit :=
  validate_mount_roots rt (counted (cf_processes c)).
