(* ===== verification/BootBuild.v ===== *)
(** The runtime state a generation boots with ([ipc/boot_runtime.rs]): the objects of
    its configuration, the file tree with the VertexFS image and the state volumes, and
    the initial process with its capabilities. *)

From S2P Require Import Prelude Frames KernelBase Transport VfsPath KernelObjects Store ProcessRuntime.
From S2P Require Import BootConfig BootPolicy CapRegistry VfsState Runtime VertexFs PageCache VfsNodes BootGrants.

(** * What the boot loader left *)

(** [limine::Framebuffer], the fields the kernel reads. *)
Record Framebuffer := mkFramebuffer {
  lf_address : Z;
  lf_width : Z;
  lf_height : Z;
  lf_pitch : Z;
  lf_bpp : Z;
  lf_memory_model : Z;
  lf_red_mask_size : Z;
  lf_red_mask_shift : Z;
  lf_green_mask_size : Z;
  lf_green_mask_shift : Z;
  lf_blue_mask_size : Z;
  lf_blue_mask_shift : Z
}.

(** [limine::File]: a module with the memory its [string] points to. *)
Record LoadedModule := mkLoadedModule {
  lm_address : Z;
  lm_size : Z;
  lm_string : option (nat → byte)
}.

(** The responses of the boot protocol; an entry that is a null pointer is [None]. *)
Record BootLoader := mkBootLoader {
  bl_framebuffer : option Framebuffer;
  bl_hhdm_offset : option Z;
  bl_memory_map : option (list (option MemmapEntry));
  bl_modules : option (list (option LoadedModule))
}.

Definition MEMMAP_FRAMEBUFFER : Z := 7.
Definition VFS_SYNTHETIC_INSPECT_BYTES : list byte := string_bytes "krust synthetic inspect node" ++ [10%Z].
Definition STATE_VOLUME_VALUE_FILE_NAME : string := "value".
Definition STATE_VOLUME_CONTROL_FILE_NAME : string := "control".
Definition NATIVE_SECRET_VALUE : list byte := string_bytes "native-secret-value".
Definition STATEFS_SOURCE : string := "statefs".
Definition VERTEXFS_MODULE_STRING : list byte := string_bytes "vertexfs".
Definition VERTEXFS_MODULE_STRING_V1 : list byte := string_bytes "vertexfs-v1".
Definition VERTEXFS_MODULE_STRING_V2 : list byte := string_bytes "vertexfs-v2".

(** * Parts of the runtime state *)

Definition on_objects {A} (f : ObjectTable → Result InitError A * ObjectTable) : Init A := λ rt,
  let '(r, t) := f (rt_objects rt) in (r, rt <| rt_objects := t |>).
Definition on_files {A} (f : VfsState → Result InitError A * VfsState) : Init A := λ rt,
  let '(r, v) := f (rt_vfs rt) in (r, rt <| rt_vfs := v |>).
Definition on_processes {A} (f : ProcessTable → Result InitError A * ProcessTable) : Init A := λ rt,
  let '(r, t) := f (rt_processes rt) in (r, rt <| rt_processes := t |>).
Definition set_ids (f : BootObjectIds → BootObjectIds) : Init unit := rmodify (λ rt, rt <| rt_boot_ids ::= f |>).
Definition set_services (f : ServiceEndpoints → ServiceEndpoints) : Init unit :=
  rmodify (λ rt, rt <| rt_services ::= f |>).

(** [runtime.add_vfs_node(...)?] and [runtime.add_vfs_mount(...)?] of a mount of the kernel. *)
Definition boot_node (name : string) (parent : option VfsNodeId) (kind : VfsNodeKind) (backing : VfsBacking)
    (source : string) : Init VfsNodeId :=
  on_files (λ v, add_vfs_node v name parent kind backing source).
Definition boot_directory (name : string) (parent : option VfsNodeId) (source : string) : Init VfsNodeId :=
  boot_node name parent NkDirectory VbNone source.
Definition boot_mount (name : string) (root_node : VfsNodeId) (path : VfsPath) (source : string) (flags : Z) :
    Init KernelObjectId := λ rt,
  rt_add_vfs_mount rt name root_node path source flags false pid_empty.
Definition boot_mount_at (name : string) (root_node : VfsNodeId) (path : string) (source : string) (flags : Z) :
    Init KernelObjectId :=
  let! root_path := rlift (from_boot_root_path path) in
  boot_mount name root_node root_path source flags.

(** The loops over a table of the configuration: make an object of every entry, and
    note its identifier under the index of the entry. *)
Fixpoint register_from {A} (add : A → Init KernelObjectId) (note : nat → KernelObjectId → BootObjectIds → BootObjectIds)
    (index : nat) (l : list (option A)) : Init unit :=
  match l with
  | [] => rret tt
  | None :: _ => rfail InvalidBootManifest
  | Some x :: rest =>
      let! id := add x in
      do! set_ids (note index id);
      register_from add note (S index) rest
  end.
Definition register_each {A} (add : A → Init KernelObjectId)
    (note : nat → KernelObjectId → BootObjectIds → BootObjectIds) (c : Counted A) : Init unit :=
  register_from add note 0 (counted c).

(** * The framebuffer *)

(** [validate_boot_framebuffer]. *)
Definition validate_boot_framebuffer (f : Framebuffer) : Result InitError unit :=
  do? res_guard (negb ((lf_address f =? 0) || (lf_width f =? 0) || (lf_height f =? 0) || (lf_pitch f =? 0) ||
                       negb (lf_bpp f =? 32) || negb (lf_memory_model f =? 1) || negb (lf_red_mask_size f =? 8) ||
                       negb (lf_green_mask_size f =? 8) || negb (lf_blue_mask_size f =? 8))%Z) InvalidBootManifest;
  let bytes_per_pixel := (lf_bpp f / 8)%Z in
  let? min_pitch := ok_or (checked_mul (lf_width f) bytes_per_pixel) InvalidBootManifest in
  let? length := ok_or (checked_mul (lf_pitch f) (lf_height f)) InvalidBootManifest in
  res_guard (negb ((lf_pitch f <? min_pitch) || (length =? 0) || (USER_DEVICE_MAPPING_STRIDE <? length))%Z)
    InvalidBootManifest.

(** The loop of [framebuffer_memmap_covers]. *)
Fixpoint memmap_covers (base end_ : Z) (l : list (option MemmapEntry)) : Result InitError bool :=
  match l with
  | [] => Ok false
  | None :: rest => memmap_covers base end_ rest
  | Some entry :: rest =>
      if (me_type entry =? MEMMAP_FRAMEBUFFER)%Z then
        let? entry_end := ok_or (checked_add (me_base entry) (me_length entry)) InvalidBootManifest in
        if ((me_base entry <=? base) && (end_ <=? entry_end))%Z then Ok true else memmap_covers base end_ rest
      else memmap_covers base end_ rest
  end.

Section loader.
Context (loader : BootLoader).

(** [framebuffer_memmap_covers]. *)
Definition framebuffer_memmap_covers (base length : Z) : Result InitError bool :=
  let? end_ := ok_or (checked_add base length) InvalidBootManifest in
  let? memory_map := ok_or (bl_memory_map loader) InvalidBootManifest in
  memmap_covers base end_ memory_map.

(** [framebuffer_physical_base]. *)
Definition framebuffer_physical_base (virtual_base length : Z) : Result InitError Z :=
  let by_map :=
    let? memory_map := ok_or (bl_memory_map loader) InvalidBootManifest in
    ok_or (me_base <$> find_present (λ e, (me_type e =? MEMMAP_FRAMEBUFFER) && (length <=? me_length e))%Z memory_map)
      InvalidBootManifest in
  match bl_hhdm_offset loader with
  | Some hhdm_offset =>
      if (hhdm_offset <=? virtual_base)%Z then
        let candidate := (virtual_base - hhdm_offset)%Z in
        let? covered := framebuffer_memmap_covers candidate length in
        if covered : bool then Ok candidate else by_map
      else by_map
  | None => by_map
  end.

(** [add_boot_framebuffer]. *)
Definition add_boot_framebuffer (name : string) : Init KernelObjectId :=
  let! f := rlift (ok_or (bl_framebuffer loader) InvalidBootManifest) in
  do! rlift (validate_boot_framebuffer f);
  let! length := rlift (ok_or (checked_mul (lf_pitch f) (lf_height f)) InvalidBootManifest) in
  let! physical_base := rlift (framebuffer_physical_base (lf_address f) length) in
  on_objects (λ t, add_framebuffer t name physical_base length (lf_width f) (lf_height f) (lf_pitch f) (lf_bpp f)
    (lf_red_mask_size f) (lf_red_mask_shift f) (lf_green_mask_size f) (lf_green_mask_shift f)
    (lf_blue_mask_size f) (lf_blue_mask_shift f)).

(** * The VertexFS image *)

(** [c_string_eq_bytes]. *)
Definition c_string_eq_bytes (value : option (nat → byte)) (expected : list byte) : bool :=
  match value with
  | None => false
  | Some memory =>
      forallb (λ index, bool_decide (expected !! index = Some (memory index))) (seq 0 (length expected)) &&
      (memory (length expected) =? 0)%Z
  end.

Definition is_vertexfs_module (m : LoadedModule) : bool :=
  c_string_eq_bytes (lm_string m) VERTEXFS_MODULE_STRING ||
  c_string_eq_bytes (lm_string m) VERTEXFS_MODULE_STRING_V1 ||
  c_string_eq_bytes (lm_string m) VERTEXFS_MODULE_STRING_V2.

(** The loop of [vertexfs_boot_image]. *)
Fixpoint find_vertexfs_module (found : option LoadedModule) (l : list (option LoadedModule)) :
    Result InitError (option LoadedModule) :=
  match l with
  | [] => Ok found
  | None :: rest => find_vertexfs_module found rest
  | Some m :: rest =>
      if is_vertexfs_module m then
        match found with
        | Some _ => Err InvalidBootManifest
        | None => find_vertexfs_module (Some m) rest
        end
      else find_vertexfs_module found rest
  end.

Context `{SM : StoreMemory}.

(** [vertexfs_boot_image]. *)
Definition vertexfs_boot_image : Result InitError (list byte) :=
  let? modules := ok_or (bl_modules loader) InvalidBootManifest in
  let? found := find_vertexfs_module None modules in
  let? m := ok_or found InvalidBootManifest in
  do? res_guard (negb (lm_address m =? 0)%Z) InvalidBootManifest;
  do? res_guard (lm_size m =? Z.of_nat VERTEXFS_IMAGE_BYTES)%Z InvalidBootManifest;
  Ok (loaded_bytes (lm_address m) (Z.to_nat (lm_size m))).

(** [vertexfs_format_label], [vertexfs_feature_label]. *)
Definition vertexfs_format_label (image : list byte) : Result InitError string :=
  let? layout := vertexfs_layout_for_image image in
  Ok (match vl_format layout with FormatV1 => "v1" | FormatV2 => "v2" end).
Definition vertexfs_feature_label (image : list byte) : Result InitError string :=
  let? layout := vertexfs_layout_for_image image in
  Ok (match vl_format layout with FormatV1 => "metadata-v1" | FormatV2 => "metadata-v2,journal-v2" end).

(** * The file tree *)

(** [state_volume_vfs_name]. *)
Definition state_volume_vfs_name (id : string) : Result InitError VfsName :=
  let? component := state_volume_mount_component id in
  name_from_static component.

(** [state_volume_vfs_path]. *)
Definition state_volume_vfs_path (id : string) : Result InitError VfsPath :=
  let? component := state_volume_mount_component id in
  let bytes := string_bytes "/state/" ++ string_bytes component in
  do? res_guard (length bytes <=? MAX_VFS_PATH_BYTES) InvalidBootManifest;
  map_err (λ _, InvalidBootManifest) (from_root_path bytes).

(** The directories of the kernel and their mounts: the roots of [/state], [/dev],
    [/proc], [/fs] and [/store]. *)
Record BuiltinRoots := mkBuiltinRoots {
  br_store : VfsNodeId; br_state : VfsNodeId; br_dev : VfsNodeId; br_proc : VfsNodeId; br_fs : VfsNodeId }.

Definition install_roots : Init BuiltinRoots :=
  let! root := boot_directory "/" None "rootfs" in
  do! boot_mount_at "mount:rootfs" root "/" "rootfs" 0;
  let! store_root := boot_directory "store" (Some root) "storefs" in
  do! boot_mount_at "mount:storefs" store_root "/store" "storefs" 0;
  let! state_root := boot_directory "state" (Some root) "state:volatile" in
  do! boot_mount_at "mount:state-volatile" state_root "/state" "state:volatile" VFS_MOUNT_VOLATILE;
  let! dev_root := boot_directory "dev" (Some root) "devfs" in
  do! boot_mount_at "mount:devfs" dev_root "/dev" "devfs" 0;
  let! proc_root := boot_directory "proc" (Some root) "procfs" in
  do! boot_mount_at "mount:procfs" proc_root "/proc" "procfs" 0;
  let! fs_root := boot_directory "fs" (Some root) "vertexfs" in
  do! boot_mount_at "mount:vertexfs-v1" fs_root "/fs" "vertexfs" 0;
  rret (mkBuiltinRoots store_root state_root dev_root proc_root fs_root).

(** The files of the image under [/fs]. *)
Definition install_vertexfs (fs_root : VfsNodeId) (image : list byte) (files : VertexFsBootFiles) : Init unit :=
  let! readme := on_files (add_vertexfs_file "readme" (bf_payload (boot_readme files))
                             (Some (bf_inode (boot_readme files)))) in
  do! boot_node "readme" (Some fs_root) NkRegularFile (VbVertexFsFile readme) "vertexfs";
  let! fs_app := boot_directory "app" (Some fs_root) "vertexfs" in
  let! app_a := on_files (add_vertexfs_file "a" (bf_payload (boot_app_a files)) (Some (bf_inode (boot_app_a files)))) in
  do! boot_node "a" (Some fs_app) NkRegularFile (VbVertexFsFile app_a) "vertexfs";
  do! rlift (vertexfs_format_label image);
  do! rlift (vertexfs_feature_label image);
  rret tt.

(** The volatile files under [/state]. *)
Definition install_volatile_state (state_root : VfsNodeId) : Init unit :=
  let! state_a := on_files (λ v, add_vfs_memory_file v "a" (string_bytes "state:a=0" ++ [10%Z])) in
  do! boot_node "a" (Some state_root) NkRegularFile (VbMemoryFile state_a) "state:volatile";
  let! state_sub := boot_directory "sub" (Some state_root) "state:volatile" in
  let! state_sub_a := on_files (λ v, add_vfs_memory_file v "a" (string_bytes "state:sub:a=0" ++ [10%Z])) in
  do! boot_node "a" (Some state_sub) NkRegularFile (VbMemoryFile state_sub_a) "state:volatile";
  let! service_report := boot_node "service-report" (Some state_root) NkRegularFile VbFsServiceReport "servicefs" in
  do! boot_mount_at "mount:servicefs" service_report "/state/service-report" "servicefs" VFS_MOUNT_READ_ONLY;
  rret tt.

(** The body of the loop over the state volumes. *)
Definition install_state_volume (state_root : VfsNodeId) (object_id : KernelObjectId) : Init unit :=
  let! rt := rget in
  let! state := rlift (ok_or (get_state_volume (rt_objects rt) object_id) InvalidBootManifest) in
  let! node_name := rlift (state_volume_vfs_name (sv_name state)) in
  let! root_path := rlift (state_volume_vfs_path (sv_name state)) in
  do! rguard (negb (bool_decide (is_Some (vfs_node_by_path rt (path_as_bytes root_path))))) InvalidBootManifest;
  let! root_node := on_files (λ v, add_vfs_node_with_name v node_name (Some state_root) NkDirectory
                                     (VbStateVolume object_id) STATEFS_SOURCE) in
  do! boot_node STATE_VOLUME_VALUE_FILE_NAME (Some root_node) NkRegularFile (VbStateVolumeValue object_id) STATEFS_SOURCE;
  do! boot_node STATE_VOLUME_CONTROL_FILE_NAME (Some root_node) NkRegularFile (VbStateVolumeControl object_id) STATEFS_SOURCE;
  do! boot_mount (sv_name state) root_node root_path STATEFS_SOURCE 0;
  rret tt.

(** The loops over the noted identifiers of a kind, in the order of the table. *)
Fixpoint each_noted (f : KernelObjectId → Init unit) (ids : list (option KernelObjectId)) : Init unit :=
  match ids with
  | [] => rret tt
  | None :: rest => each_noted f rest
  | Some id :: rest => do! f id; each_noted f rest
  end.

(** The bodies of the loops over the store objects and the virtio devices. *)
Definition install_store_node (store_root : VfsNodeId) (object_id : KernelObjectId) : Init unit :=
  let! rt := rget in
  let! store := rlift (ok_or (get_store_object (rt_objects rt) object_id) InvalidBootManifest) in
  do! boot_node (so_name store) (Some store_root) NkRegularFile (VbStoreObject object_id) "storefs";
  rret tt.
Definition install_device_node (dev_root : VfsNodeId) (object_id : KernelObjectId) : Init unit :=
  let! rt := rget in
  let! device := rlift (ok_or (get_virtio_device (rt_objects rt) object_id) InvalidBootManifest) in
  do! boot_node (vd_name device) (Some dev_root) NkDeviceNode (VbDevice object_id) "devfs";
  rret tt.

(** [install_vfs_nodes]. *)
Definition install_vfs_nodes : Init unit :=
  let! image := rlift vertexfs_boot_image in
  let! files := rlift (parse_vertexfs_image image) in
  do! on_files (load_vertexfs_image image);
  let! roots := install_roots in
  do! install_vertexfs (br_fs roots) image files;
  do! install_volatile_state (br_state roots);
  let! rt := rget in
  do! each_noted (install_state_volume (br_state roots)) (state_volume_ids (rt_boot_ids rt));
  do! boot_node "inspect" (Some (br_proc roots)) NkSyntheticNode (VbSynthetic VFS_SYNTHETIC_INSPECT_BYTES) "procfs";
  do! boot_node "log-stream" (Some (br_proc roots)) NkPipe VbPipe "pipefs";
  do! each_noted (install_store_node (br_store roots)) (store_object_ids (rt_boot_ids rt));
  each_noted (install_device_node (br_dev roots)) (virtio_device_ids (rt_boot_ids rt)).

(** * The objects of the configuration *)

(** The endpoints of the kernel's own services. *)
Definition add_service_endpoint (name : string) (note : KernelObjectId → ServiceEndpoints → ServiceEndpoints) : Init unit :=
  let! id := on_objects (λ t, add_endpoint t name) in
  set_services (note id).

Definition register_service_endpoints (c : BootRuntimeConfig) : Init unit :=
  do! (if 0 <? cn_used (cf_state_volumes c) then
         do! add_service_endpoint STATE_VFS_REQUEST_ENDPOINT_NAME (λ id e, e <| state_vfs_request_endpoint := Some id |>);
         add_service_endpoint STATE_VFS_REPLY_ENDPOINT_NAME (λ id e, e <| state_vfs_reply_endpoint := Some id |>)
       else rret tt);
  do! add_service_endpoint VERTEXFS_DEVICE_REQUEST_ENDPOINT_NAME (λ id e, e <| vertexfs_device_request_endpoint := Some id |>);
  do! add_service_endpoint VERTEXFS_DEVICE_REPLY_ENDPOINT_NAME (λ id e, e <| vertexfs_device_reply_endpoint := Some id |>);
  let! block_driver := rlift (boot_config_has_process c BLOCK_DRIVER_PROCESS_NAME) in
  if block_driver : bool then
    do! add_service_endpoint GENERATION_METADATA_BLOCK_REQUEST_ENDPOINT_NAME
          (λ id e, e <| generation_metadata_block_request_endpoint := Some id |>);
    add_service_endpoint GENERATION_METADATA_BLOCK_REPLY_ENDPOINT_NAME
      (λ id e, e <| generation_metadata_block_reply_endpoint := Some id |>)
  else rret tt.

(** The loops from the store objects to the virtio devices. *)
Definition register_objects (c : BootRuntimeConfig) : Init unit :=
  do! register_each (λ o, on_objects (λ t, add_store_object t (bso_id o) (bso_base o) (bso_length o) (bso_hash o)))
        (λ i id b, b <| store_object_ids ::= <[i := Some id]> |>) (cf_store_objects c);
  do! register_each (λ s, on_objects (λ t, add_state_volume t s))
        (λ i id b, b <| state_volume_ids ::= <[i := Some id]> |>) (cf_state_volumes c);
  do! register_each (λ p, on_objects (λ t, add_network_port t (bnp_id p)))
        (λ i id b, b <| network_port_ids ::= <[i := Some id]> |>) (cf_network_ports c);
  do! register_each (λ p, on_objects (λ t, add_io_port t (bio_id p) (bio_base p) (bio_length p)))
        (λ i id b, b <| io_port_ids ::= <[i := Some id]> |>) (cf_io_ports c);
  do! register_each (λ r, on_objects (λ t, add_mmio_region t (bmm_id r) (bmm_base r) (bmm_length r)))
        (λ i id b, b <| mmio_region_ids ::= <[i := Some id]> |>) (cf_mmio_regions c);
  do! register_each (λ f, add_boot_framebuffer (bfb_id f))
        (λ i id b, b <| framebuffer_ids ::= <[i := Some id]> |>) (cf_framebuffers c);
  do! register_each (λ l, on_objects (λ t, add_interrupt_line t (bil_id l) (bil_line l)))
        (λ i id b, b <| interrupt_line_ids ::= <[i := Some id]> |>) (cf_interrupt_lines c);
  do! register_each (λ r, on_objects (λ t, add_dma_region t (bdm_id r) (bdm_base r) (bdm_length r)))
        (λ i id b, b <| dma_region_ids ::= <[i := Some id]> |>) (cf_dma_regions c);
  do! register_each (λ d, on_objects (λ t, add_pci_device t (bpd_id d) (bpd_kind d)))
        (λ i id b, b <| pci_device_ids ::= <[i := Some id]> |>) (cf_pci_devices c);
  register_each (λ d, on_objects (λ t, add_virtio_device t (bvd_id d) (bvd_transport d)))
    (λ i id b, b <| virtio_device_ids ::= <[i := Some id]> |>) (cf_virtio_devices c).

(** The entries of a namespace. *)
Fixpoint namespace_entries (rt : RuntimeState) (l : list (option BootNamespaceEntryConfig)) :
    Result InitError (list (option NamespaceEntry)) :=
  match l with
  | [] => Ok []
  | None :: _ => Err InvalidBootManifest
  | Some entry :: rest =>
      let? object := namespace_entry_object_id rt entry in
      let? entries := namespace_entries rt rest in
      Ok (Some (mkNamespaceEntry (bne_path entry) object (bne_rights entry)) :: entries)
  end.

Definition add_boot_namespace (namespace : BootNamespaceConfig) : Init KernelObjectId :=
  let! rt := rget in
  let! entries := rlift (namespace_entries rt (counted (bns_entries namespace))) in
  on_objects (λ t, add_namespace t (bns_id namespace)
                     (entries ++ replicate (MAX_NAMESPACE_ENTRIES - length entries) None)
                     (cn_used (bns_entries namespace))).

(** The namespaces, the VFS roots and the secret. *)
Definition register_names (c : BootRuntimeConfig) : Init unit :=
  do! register_each add_boot_namespace (λ i id b, b <| namespace_ids ::= <[i := Some id]> |>) (cf_namespaces c);
  do! register_each (λ r, on_objects (λ t, add_vfs_root t (bvr_id r) (bvr_root_path r)))
        (λ i id b, b <| vfs_root_ids ::= <[i := Some id]> |>) (cf_vfs_roots c);
  let! secret := on_objects (λ t, add_secret t "secret:logd-token" NATIVE_SECRET_VALUE) in
  set_ids (λ b, b <| secret_id := Some secret |>).

(** * The initial process *)

(** The process, its mounts and the grants of the configuration. *)
Definition add_initial_process (c : BootRuntimeConfig) (initial_index : nat) (process : BootProcessConfig)
    (context : ProcessContext) : Init ProcessId :=
  let! mount_root := rlift (from_boot_root_path (bp_mount_root process)) in
  let! pid := on_processes (λ t, add_process t (bp_name process) context (bp_image_base process)
                                   (bp_image_length process) PsRunning cspace_new mount_root) in
  do! install_declared_process_mounts process pid mount_root;
  do! rmodify (λ rt, rt <| rt_process_template_pids ::= <[initial_index := Some pid]> |>
                        <| rt_processes ::= λ t, set_current t pid |>);
  do! grant_config_caps_to_process c initial_index pid;
  rret pid.

(** The capabilities of the initial process that facts of the bootstrap policy must allow:
    the manifest, the control of processes and the timer. *)
Definition grant_manifest (c : BootRuntimeConfig) (process : BootProcessConfig) (pid : ProcessId) : Init unit :=
  match cf_manifest_module c with
  | None => rret tt
  | Some module =>
      do! rguard (boot_bootstrap_authority_allows c (bp_graph_node process) "boot-module:krustboot-manifest"
                    "initial-manifest" RIGHT_READ) InvalidBootManifest;
      let! module_id := on_objects (λ t, add_boot_module t (bmo_name module) (bmo_base module) (bmo_length module)) in
      grant_new_capability module_id RIGHT_READ pid 0
  end.

Definition grant_process_control (c : BootRuntimeConfig) (process : BootProcessConfig) (pid : ProcessId) : Init unit :=
  let! control := on_objects (λ t, add_process_control t "process-control") in
  do! set_ids (λ b, b <| process_control_id := Some control |>);
  do! rguard (boot_bootstrap_authority_allows c (bp_graph_node process) "process-control"
                "initial-process-control" initial_process_control_rights) InvalidBootManifest;
  grant_new_capability control initial_process_control_rights pid 2.

Definition grant_restart_timer (c : BootRuntimeConfig) (process : BootProcessConfig) (pid : ProcessId) : Init unit :=
  let! rt := rget in
  let! timer := rlift (ok_or (timer_id (rt_boot_ids rt)) InvalidBootManifest) in
  do! rguard (boot_bootstrap_authority_allows c (bp_graph_node process) "timer:monotonic-timer"
                "initial-restart-timer" RIGHT_CONTROL) InvalidBootManifest;
  grant_new_capability timer RIGHT_CONTROL pid INIT_TIMER_CAP_SLOT.

(** * The whole *)

(** The resets at the start of [build_boot_config_runtime]. *)
Definition reset_runtime (c : BootRuntimeConfig) (rt : RuntimeState) : RuntimeState :=
  reset_capability_lifecycle c (rt <| rt_objects ::= table_reset |> <| rt_processes ::= ptable_reset |>).

(** Its objects and the file tree. *)
Definition build_objects (c : BootRuntimeConfig) : Init unit :=
  do! register_each (λ e, on_objects (λ t, add_endpoint t (bep_name e)))
        (λ i id b, b <| endpoint_ids ::= <[i := Some id]> |>) (cf_endpoints c);
  do! register_service_endpoints c;
  do! register_objects c;
  let! timer := on_objects (λ t, add_timer t "monotonic-timer") in
  do! set_ids (λ b, b <| timer_id := Some timer |>);
  do! install_vfs_nodes;
  let! rt := rget in
  do! rlift (validate_process_mount_roots rt c);
  register_names c.

(** [build_boot_config_runtime]. *)
Definition build_boot_config_runtime (c : BootRuntimeConfig) (initial_index : nat) (process : BootProcessConfig)
    (context : ProcessContext) : Init unit :=
  do! rmodify (reset_runtime c);
  do! build_objects c;
  let! pid := add_initial_process c initial_index process context in
  do! grant_manifest c process pid;
  do! grant_process_control c process pid;
  grant_restart_timer c process pid.
End loader.
