(* ===== verification/CapabilitySyscalls.v ===== *)
(** The capability calls of user processes ([ipc/capability_syscalls.rs]) and
    the calls of [ipc/core_syscalls.rs] that make new capabilities. *)

From S2P Require Import Prelude KernelBase Transport VfsPath KernelObjects ProcessRuntime.
From S2P Require Import CapRegistry VfsState Runtime Kernel Scheduler.

(** [current_process_mut()] followed by [caps.grant]; the error of the grant
    is mapped to [BadCapability]. *)
Definition grant_to_current (slot : Z) (cap : Capability) : RT unit := λ rt,
  match current_index (rt_processes rt) with
  | None => (Err BadCapability, rt)
  | Some i =>
      match mjoin (pt_processes (rt_processes rt) !! i) with
      | None => (Err BadCapability, rt)
      | Some p =>
          match cspace_grant (p_caps p) slot cap with
          | (Ok _, s) =>
              (Ok tt, rt <| rt_processes ::= λ t, modify_process_at t i (λ p, p <| p_caps := s |>) |>)
          | (Err _, _) => (Err BadCapability, rt)
          end
      end
  end.

(** The part [cap_derive] and [cap_copy] share after the lookup: check the
    mask and the slot, make the capability and grant it. *)
Definition grant_derived (source : Capability) (target_slot rights_mask : Z) : RT unit :=
  do! rguard (negb (mask_exceeds rights_mask (c_rights source))) BadCapability;
  let! rt := rget in
  let! process := rlift (ok_or (current_process (rt_processes rt)) BadCapability) in
  do! rguard (cspace_can_grant (p_caps process) target_slot) BadCapability;
  let! cap := rt_new_capability (c_object source) rights_mask (p_pid process) (c_id source)
                (p_pid process) in
  grant_to_current target_slot cap.

(** [cap_derive]. *)
Definition cap_derive (parent_slot new_slot rights_mask : Z) : RT unit :=
  let! parent := lookup_capability parent_slot 0 in
  grant_derived parent new_slot rights_mask.

(** [cap_copy]. *)
Definition cap_copy (source_slot target_slot rights_mask : Z) : RT unit :=
  let! source := lookup_capability source_slot 0 in
  grant_derived source target_slot rights_mask.

(** [cap_inspect]. *)
Definition cap_inspect (slot : Z) : RT Z :=
  let! cap := lookup_capability slot 0 in
  rret (c_parent cap).

(** [current_process_mut()] followed by [caps.clear]. *)
Definition clear_from_current (slot : Z) : RT Capability := λ rt,
  match current_index (rt_processes rt) with
  | None => (Err BadCapability, rt)
  | Some i =>
      match mjoin (pt_processes (rt_processes rt) !! i) with
      | None => (Err BadCapability, rt)
      | Some p =>
          match cspace_clear (p_caps p) slot with
          | (Ok cap, s) =>
              (Ok cap, rt <| rt_processes ::= λ t, modify_process_at t i (λ p, p <| p_caps := s |>) |>)
          | (Err e, _) => (Err e, rt)
          end
      end
  end.

(** [cap_drop]. *)
Definition cap_drop (slot : Z) : RT unit :=
  let! dropped := clear_from_current slot in
  rmodify (release_unreferenced_derived_vfs_root (c_object dropped)).

(** [cap_move]. *)
Definition cap_move (source_slot target_slot : Z) : RT unit :=
  let! rt := rget in
  let! process := rlift (ok_or (current_process (rt_processes rt)) BadCapability) in
  do! rguard (cspace_can_grant (p_caps process) target_slot) BadCapability;
  let! cap := clear_from_current source_slot in
  grant_to_current target_slot cap.

(** [cap_revoke]. *)
Definition cap_revoke (slot : Z) : RT unit :=
  let! cap := lookup_capability slot 0 in
  do! rt_revoke_cap_id (c_id cap);
  do! rmodify release_unreferenced_derived_vfs_roots;
  rmodify (λ rt, (cancel_unauthorized_blocked_receivers STATUS_BAD_CAPABILITY rt).2).

(** The grant at the end of [cap_transfer]: both spaces are computed before
    either is written. *)
Definition grant_transferred (target_pid : ProcessId) (target_slot : Z) (persist : bool)
    (cap : Capability) : RT unit := λ rt,
  match process_index (rt_processes rt) target_pid with
  | None => (Err BadCapability, rt)
  | Some i =>
      match mjoin (pt_processes (rt_processes rt) !! i) with
      | None => (Err BadCapability, rt)
      | Some p =>
          match cspace_grant (p_caps p) target_slot cap with
          | (Err _, _) => (Err BadCapability, rt)
          | (Ok _, next_caps) =>
              if persist then
                match cspace_grant (p_initial_caps p) target_slot cap with
                | (Err _, _) => (Err BadCapability, rt)
                | (Ok _, next_initial_caps) =>
                    (Ok tt, rt <| rt_processes ::= λ t, modify_process_at t i (λ p,
                       p <| p_caps := next_caps |> <| p_initial_caps := next_initial_caps |>) |>)
                end
              else (Ok tt, rt <| rt_processes ::= λ t, modify_process_at t i (λ p,
                      p <| p_caps := next_caps |>) |>)
          end
      end
  end.

(** [cap_transfer]. *)
Definition cap_transfer (control_slot target_pid packed_transfer : Z) : RT unit :=
  do! process_control_from_cap control_slot RIGHT_DELEGATE;
  let cap_slot := Z.land packed_transfer 65535 in
  let target_slot := Z.land (Z.shiftr packed_transfer 16) 65535 in
  let rights_mask := Z.shiftr packed_transfer 32 in
  let! cap := lookup_capability cap_slot 0 in
  do! rguard (negb (mask_exceeds rights_mask (c_rights cap))) BadCapability;
  let! rt := rget in
  let! caller := rlift (ok_or (current_process (rt_processes rt)) BadCapability) in
  let! target := rlift (ok_or (process (rt_processes rt) target_pid) BadCapability) in
  do! rguard (cspace_can_grant (p_caps target) target_slot) BadCapability;
  let persist_for_restart := bool_decide (p_state target = PsDeclared) in
  do! rguard (negb persist_for_restart || cspace_can_grant (p_initial_caps target) target_slot)
        BadCapability;
  let! transferred := rt_new_capability (c_object cap) rights_mask target_pid (c_id cap)
                        (p_pid caller) in
  grant_transferred target_pid target_slot persist_for_restart transferred.

(** ** New authority *)

(** The part of [namespace_resolve] after the path is copied from the user:
    the entry's object becomes a capability derived from the namespace's. *)
Definition namespace_grant (namespace : NamespaceObject) (cap_slot : Z) (path : list byte)
    (target_slot : Z) : RT unit :=
  let! entry := rlift (ok_or (namespace_lookup namespace path) BadCapability) in
  let! namespace_cap := lookup_capability cap_slot RIGHT_RESOLVE in
  let! rt := rget in
  let! process := rlift (ok_or (current_process (rt_processes rt)) BadCapability) in
  do! rguard (cspace_can_grant (p_caps process) target_slot) BadCapability;
  let! cap := rt_new_capability (ne_object entry) (ne_rights entry) (p_pid process)
                (c_id namespace_cap) (p_pid process) in
  grant_to_current target_slot cap.

(** The grant of [endpoint_create] with the count of endpoints: [None] when
    there is no current process, [Some false] when the slot is taken. *)
Definition grant_endpoint (cap_slot : Z) (cap : Capability) (rt : RuntimeState) :
    option bool * RuntimeState :=
  match current_index (rt_processes rt) with
  | None => (None, rt)
  | Some i =>
      match mjoin (pt_processes (rt_processes rt) !! i) with
      | None => (None, rt)
      | Some p =>
          match cspace_grant (p_caps p) cap_slot cap with
          | (Err _, _) => (Some false, rt)
          | (Ok _, s) =>
              (Some true, rt <| rt_processes ::= λ t, modify_process_at t i (λ p,
                 p <| p_caps := s |>
                   <| p_quota ::= λ q, q <| used_endpoints ::= λ n, sat_add n 1 |> |>) |>)
          end
      end
  end.

(** [endpoint_create]. *)
Definition endpoint_create (control_slot cap_slot : Z) : RT unit :=
  do! process_control_from_cap control_slot RIGHT_ALLOCATE;
  let! rt := rget in
  let! process := rlift (ok_or (current_process (rt_processes rt)) BadCapability) in
  let owner := p_pid process in
  do! rguard (used_endpoints (p_quota process) <? max_endpoints (p_quota process))%Z BadCapability;
  do! rguard (cspace_can_grant (p_caps process) cap_slot) BadCapability;
  do! rguard (can_allocate_capability (rt_caps rt)) BadCapability;
  λ rt,
    match add_endpoint_owned (rt_objects rt) "dynamic-endpoint" owner with
    | (Err _, t) => (Err BadCapability, rt <| rt_objects := t |>)
    | (Ok endpoint_id, t) =>
        let rt1 := rt <| rt_objects := t |> in
        let undo := λ rt, rt <| rt_objects ::= λ t, (remove_owned_endpoint t endpoint_id owner).2 |> in
        match rt_new_capability endpoint_id (Z.lor RIGHT_SEND RIGHT_RECEIVE) owner 0 owner rt1 with
        | (Err e, rt2) => (Err e, undo rt2)
        | (Ok cap, rt2) =>
            match grant_endpoint cap_slot cap rt2 with
            | (Some true, rt3) => (Ok tt, rt3)
            | (_, rt3) =>
                (Err BadCapability,
                 undo (rt3 <| rt_caps ::= λ r, rollback_last_capability r cap |>))
            end
        end
    end.

(** [quota_delegate]. *)
Definition quota_delegate (control_slot target_pid max : Z) : RT unit :=
  do! process_control_from_cap control_slot RIGHT_DELEGATE;
  let! rt := rget in
  let! caller := rlift (ok_or (current_process (rt_processes rt)) BadCapability) in
  do! rguard (max <=? max_endpoints (p_quota caller))%Z BadCapability;
  λ rt,
    match modify_process (rt_processes rt) target_pid (λ target,
      let persist_for_restart := bool_decide (p_state target = PsDeclared) in
      let target := target <| p_quota ::= λ q, q <| max_endpoints := max |> |> in
      if persist_for_restart then
        target <| p_quota ::= λ q, q <| used_endpoints := 0%Z |> |>
               <| p_initial_quota ::= λ q, q <| max_endpoints := max |> <| used_endpoints := 0%Z |> |>
      else target) with
    | (true, t) => (Ok tt, rt <| rt_processes := t |>)
    | (false, _) => (Err BadCapability, rt)
    end.
