(* ===== verification/VfsSyscalls.v ===== *)
(** The system calls on files ([ipc/vfs_syscalls.rs]). A call that takes a path
    copies it from the caller and then works on the runtime state alone; the
    calls on handles that may wait for a service are kernel calls. *)

From S2P Require Import Prelude KernelBase Transport VfsPath KernelObjects ProcessRuntime.
From S2P Require Import CapRegistry VfsState VfsFiles VfsWire Runtime Kernel PageCache VertexFs Store.
From S2P Require Import Scheduler VfsTransactions VfsNodes CapabilitySyscalls.

Definition VFS_OPEN_KNOWN_FLAGS : Z := Z.lor VFS_OPEN_READ write_create_trunc_append.
Definition VFS_DUP_SHARE_OFFSET : Z := 1.
Definition VFS_POLL_KNOWN_EVENTS : Z := Z.lor (Z.lor VFS_POLL_READABLE VFS_POLL_WRITABLE) VFS_POLL_METADATA.
Definition VFS_EVENT_CREATE : Z := 1.
Definition VFS_EVENT_RENAME : Z := 2.
Definition VFS_EVENT_UNLINK : Z := 3.
Definition VFS_SEEK_SET : Z := 0.
Definition VFS_SEEK_CURRENT : Z := 1.
Definition VFS_SEEK_END : Z := 2.
Definition VFS_RENAME_REQUEST_HEADER_BYTES : nat := 16.
Definition VFS_RENAME_REQUEST_MAX_BYTES : nat := VFS_RENAME_REQUEST_HEADER_BYTES + MAX_VFS_PATH_BYTES * 2.
Definition MAX_STATE_VOLUME_VALUE_BYTES : Z := 16.

(** The two halves of a packed argument. *)
Definition packed_low (packed : Z) : Z := Z.land packed (Z.ones 32).
Definition packed_high (packed : Z) : Z := Z.shiftr packed 32.

(** * Handles of the current process *)

(** [current_process_mut()] followed by a fallible change of the process. *)
Definition on_current {A} (c : Process → Result IpcError A * Process) : RT A := λ rt,
  match current_index (rt_processes rt) with
  | None => (Err VfsPermission, rt)
  | Some i =>
      match mjoin (pt_processes (rt_processes rt) !! i) with
      | None => (Err VfsPermission, rt)
      | Some p =>
          let '(r, p') := c p in
          (r, rt <| rt_processes ::= λ t, modify_process_at t i (λ _, p') |>)
      end
  end.

(** Write the offset of an open description. *)
Definition set_offset (id : FileDescriptionId) (offset : Z) : RT unit := λ rt,
  match file_description_index (rt_vfs rt) id with
  | None => (Err VfsBadHandle, rt)
  | Some index =>
      (Ok tt, rt <| rt_vfs ::= λ v, v <| open_file_descriptions ::=
                      alter (fmap (λ d, d <| fd_offset := offset |>)) index |> |>)
  end.

(** Record an event on the parent of a node, when it has one. *)
Definition record_parent_event (node : VfsNode) (kind : Z) : RT unit :=
  match vn_parent node with
  | Some parent => vfs_modify (λ v, record_vfs_event v parent kind (vn_name node))
  | None => rret tt
  end.

(** * Open *)

(** Take back a file that was created for a failing open. *)
Definition refuse {A} (created_node : option VfsNode) (e : IpcError) : RT A :=
  do! vfs_modify (release_created_vfs_memory_node created_node);
  rfail e.

Definition is_state_volume_file (b : VfsBacking) : bool :=
  match b with VbStateVolumeValue _ | VbStateVolumeControl _ => true | _ => false end.
Definition is_service_report (b : VfsBacking) : bool := match b with VbFsServiceReport => true | _ => false end.
Definition is_writable_file (b : VfsBacking) : bool :=
  match b with VbMemoryFile _ | VbVertexFsFile _ => true | _ => false end.
Definition is_device (b : VfsBacking) : bool := match b with VbDevice _ => true | _ => false end.

(** The refusals of [vfs_open] once the node is known; the rights of the handle
    otherwise. *)
Definition open_check (rt : RuntimeState) (flags available_rights : Z) (node : VfsNode) : Result IpcError Z :=
  let? requested_rights := vfs_open_rights flags node in
  do? res_guard (negb (exceeds requested_rights available_rights && negb (is_device (vn_backing node)))) VfsPermission;
  do? (match vn_backing node with
       | VbDevice device_object => validate_vfs_device_open rt flags available_rights device_object
       | _ => Ok tt
       end);
  do? res_guard (negb (is_state_volume_file (vn_backing node) && any_flag flags create_trunc_append)) VfsUnsupported;
  do? res_guard (negb (is_service_report (vn_backing node) && any_flag flags write_create_trunc_append)) VfsUnsupported;
  do? res_guard (negb (any_flag flags VFS_OPEN_TRUNC && negb (is_writable_file (vn_backing node)))) VfsUnsupported;
  Ok requested_rights.

(** The node of an open: resolved, or created when it is missing and the flags
    ask for it. *)
Definition open_node (cap : Capability) (path : list byte) (flags : Z) : RT (VfsNode * Z * option VfsNode) := λ rt,
  match resolve_vfs_node_from_cap cap path rt with
  | (Ok (node, available), rt1) => (Ok (node, available, None), rt1)
  | (Err VfsNotFound, rt1) =>
      if any_flag flags VFS_OPEN_CREATE then
        (let! requested_rights := rlift (vfs_regular_file_open_rights flags) in
         let! created := vfs_create_memory_file_node cap path requested_rights in
         rret (created.1, created.2, Some created.1)) rt1
      else (Err VfsNotFound, rt1)
  | (Err e, rt1) => (Err e, rt1)
  end.

(** The description and the handle of an open. *)
Definition open_handle (node : VfsNode) (rights flags : Z) (cap : Capability) (created : option VfsNode) :
    RT (Z * FileDescriptionId) := λ rt,
  match vfs_call id (λ v, open_file_description v (vn_id node) rights flags (current_process_id rt) (c_id cap)) rt with
  | (Err e, rt1) => refuse created e rt1
  | (Ok description, rt1) =>
      match on_current (λ p, open_file_handle p (mkFileHandle description)) rt1 with
      | (Err e, rt2) =>
          (do! ignore (vfs_call id (λ v, release_file_description v description)); refuse created e) rt2
      | (Ok raw, rt2) => (Ok (raw, description), rt2)
      end
  end.

(** The truncation of an open; the handle is taken back when it fails. *)
Definition open_truncate (node : VfsNode) (raw_handle : Z) (description : FileDescriptionId)
    (created : option VfsNode) : RT unit := λ rt,
  match vfs_truncate_node node 0 rt with
  | (Ok _, rt1) => (Ok tt, rt1)
  | (Err e, rt1) =>
      (do! ignore (on_current (λ p, close_file_handle p raw_handle));
       do! ignore (vfs_call id (λ v, release_file_description v description));
       refuse created e) rt1
  end.

(** [vfs_open] after the copy of the path. *)
Definition vfs_open_path (cap_slot : Z) (path : list byte) (flags : Z) : RT Z :=
  let! cap := λ rt, let '(r, rt1) := lookup_capability cap_slot 0 rt in (map_err (λ _, VfsPermission) r, rt1) in
  let! rt := rget in
  do! (if any_flag flags write_create_trunc_append && bool_decide (is_Some (get_vfs_root (rt_objects rt) (c_object cap))) then
         let! canonical_path := resolve_or_root path in
         rguard (negb (vfs_path_is_read_only rt (path_as_bytes canonical_path))) VfsPermission
       else rret tt);
  let! opened := open_node cap path flags in
  let '(node, available_rights, created) := opened : VfsNode * Z * option VfsNode in
  let! rt := rget in
  match open_check rt flags available_rights node with
  | Err e => refuse created e
  | Ok requested_rights =>
      let! handle := open_handle node requested_rights flags cap created in
      do! (if any_flag flags VFS_OPEN_TRUNC then open_truncate node handle.1 handle.2 created else rret tt);
      do! (match created with Some _ => record_parent_event node VFS_EVENT_CREATE | None => rret tt end);
      rret handle.1
  end.

(** * Names *)

(** [vfs_create] after the copy of the path. *)
Definition lookup_resolver (cap_slot : Z) : RT Capability := λ rt,
  let '(r, rt1) := lookup_capability cap_slot RIGHT_RESOLVE rt in (map_err (λ _, VfsPermission) r, rt1).

Definition vfs_create_path (cap_slot : Z) (path : list byte) : RT unit :=
  let! read_only := vfs_request_path_is_read_only path in
  do! rguard (negb read_only) VfsPermission;
  let! cap := lookup_resolver cap_slot in
  let! created := vfs_create_memory_file_node cap path 0 in
  record_parent_event created.1 VFS_EVENT_CREATE.

(** [vfs_mkdir] after the copy of the path. *)
Definition vfs_mkdir_path (cap_slot : Z) (path : list byte) : RT unit :=
  let! read_only := vfs_request_path_is_read_only path in
  do! rguard (negb read_only) VfsPermission;
  let! cap := lookup_resolver cap_slot in
  let! node := vfs_create_directory_node cap path in
  record_parent_event node VFS_EVENT_CREATE.

(** Drop the node of a file: it is detached while it is open, and the file is
    released with its last name. *)
Definition unlink_file (node : VfsNode) (in_use : VfsState → bool)
    (touch : VfsState → Result IpcError Z * VfsState) (release : VfsState → Result IpcError unit * VfsState) :
    RT unit :=
  let! rt := rget in
  if vfs_node_has_open_description (rt_vfs rt) (vn_id node) then
    do! vfs_call id (λ v, detach_vfs_node v (vn_id node));
    do! vfs_call id touch;
    rret tt
  else
    do! vfs_call id (λ v, remove_vfs_node v (vn_id node));
    let! rt := rget in
    if in_use (rt_vfs rt) then do! vfs_call id touch; rret tt
    else ignore (vfs_call id release).

(** [vfs_unlink] after the copy of the path. *)
Definition vfs_unlink_path (cap_slot : Z) (requested : list byte) : RT unit :=
  let! canonical_path := resolve_process_vfs_path requested in
  let path := path_as_bytes canonical_path in
  let! rt := rget in
  do! rguard (negb (vfs_path_is_read_only rt path)) VfsPermission;
  let! cap := lookup_resolver cap_slot in
  let! available := resolve_vfs_root_authority cap path in
  do! rguard (any_flag available RIGHT_UNLINK) VfsPermission;
  let! node := rlift (ok_or (vfs_node_by_path rt path) VfsNotFound) in
  do! rguard (negb (vfs_node_has_children (rt_vfs rt) (vn_id node))) VfsBusy;
  do! (match vn_backing node with
       | VbMemoryFile backing =>
           unlink_file node (λ v, vfs_memory_file_in_use v backing) (λ v, touch_vfs_memory_file_nodes v backing)
             (λ v, release_vfs_memory_file v backing)
       | VbVertexFsFile backing =>
           unlink_file node (λ v, vertexfs_file_in_use v backing) (λ v, touch_vertexfs_file_nodes v backing)
             (λ v, release_vertexfs_file v backing)
       | _ => rfail VfsUnsupported
       end);
  record_parent_event node VFS_EVENT_UNLINK.

(** [vfs_rmdir] after the copy of the path. *)
Definition vfs_rmdir_path (cap_slot : Z) (requested : list byte) : RT unit :=
  let! canonical_path := resolve_process_vfs_path requested in
  let path := path_as_bytes canonical_path in
  let! rt := rget in
  do! rguard (negb (vfs_path_is_read_only rt path)) VfsPermission;
  let! split := rlift (split_vfs_parent_child path) in
  let! cap := lookup_resolver cap_slot in
  let! available := resolve_vfs_root_authority cap split.1 in
  do! rguard (any_flag available RIGHT_UNLINK) VfsPermission;
  let! node := rlift (ok_or (vfs_node_by_path rt path) VfsNotFound) in
  do! rguard (bool_decide (vn_kind node = NkDirectory)) VfsNotDirectory;
  do! rguard (bool_decide (is_Some (vn_parent node)) &&
              negb (bool_decide (is_Some (get_vfs_mount_by_root_node (rt_objects rt) (vn_id node))))) VfsUnsupported;
  do! rguard (negb (vfs_node_has_children (rt_vfs rt) (vn_id node) ||
                    vfs_node_has_open_description (rt_vfs rt) (vn_id node))) VfsBusy;
  do! vfs_call id (λ v, remove_vfs_node v (vn_id node));
  record_parent_event node VFS_EVENT_UNLINK.

(** The decoding of the request of [vfs_rename] and [vfs_link]: the two lengths,
    then the two paths. *)
Definition decode_two_paths (request : list byte) : Result IpcError (list byte * list byte) :=
  let old_len := read_u64_le request 0 in
  let new_len := read_u64_le request 8 in
  let max := Z.of_nat MAX_VFS_PATH_BYTES in
  do? res_guard (negb ((max <? old_len)%Z || (max <? new_len)%Z)) VfsBadPath;
  let header := VFS_RENAME_REQUEST_HEADER_BYTES in
  do? res_guard (header + Z.to_nat old_len + Z.to_nat new_len =? length request) VfsBadPath;
  Ok (take (Z.to_nat old_len) (drop header request), drop (header + Z.to_nat old_len) request).

(** Both paths lie in the same mount. *)
Definition same_mount (rt : RuntimeState) (old_path new_parent_path : list byte) : Result IpcError unit :=
  let? old_mount := ok_or (get_vfs_mount_by_path (rt_objects rt) old_path) VfsUnsupported in
  let? new_mount := ok_or (get_vfs_mount_by_path (rt_objects rt) new_parent_path) VfsUnsupported in
  res_guard (vm_id old_mount =? vm_id new_mount)%Z VfsUnsupported.

(** [vfs_rename] after the copy of the request. *)
Definition vfs_rename_paths (cap_slot : Z) (old_requested new_requested : list byte) : RT unit :=
  let! old_canonical := resolve_process_vfs_path old_requested in
  let! new_canonical := resolve_process_vfs_path new_requested in
  let old_path := path_as_bytes old_canonical in
  let new_path := path_as_bytes new_canonical in
  let! rt := rget in
  do! rguard (negb (vfs_path_is_read_only rt old_path || vfs_path_is_read_only rt new_path)) VfsPermission;
  let! old_split := rlift (split_vfs_parent_child old_path) in
  let! new_split := rlift (split_vfs_parent_child new_path) in
  let! new_child_name := rlift (map_err (λ _, VfsBadPath) (name_from_user_component new_split.2)) in
  let! cap := lookup_resolver cap_slot in
  let! old_available := resolve_vfs_root_authority cap old_split.1 in
  let! new_available := resolve_vfs_root_authority cap new_split.1 in
  do! rguard (any_flag old_available RIGHT_RENAME && any_flag new_available RIGHT_RENAME) VfsPermission;
  let! old_parent := rlift (ok_or (vfs_node_by_path rt old_split.1) VfsNotFound) in
  let! new_parent := rlift (ok_or (vfs_node_by_path rt new_split.1) VfsNotFound) in
  do! rguard (bool_decide (vn_kind old_parent = NkDirectory) && bool_decide (vn_kind new_parent = NkDirectory))
        VfsNotDirectory;
  let! node := rlift (ok_or (vfs_node_by_path rt old_path) VfsNotFound) in
  do! rguard (is_writable_file (vn_backing node)) VfsUnsupported;
  do! rlift (same_mount rt old_path new_split.1);
  do! rguard (negb (bool_decide (is_Some (vfs_node_by_path rt new_path)))) VfsExists;
  do! vfs_call id (λ v, rename_vfs_node v (vn_id node) (vn_id new_parent) new_child_name);
  let! rt := rget in
  do! (match vn_backing node with
       | VbMemoryFile backing =>
           if 1 <? vfs_memory_file_link_count (rt_vfs rt) backing then
             do! vfs_call id (λ v, touch_vfs_memory_file_nodes v backing); rret tt
           else rret tt
       | VbVertexFsFile backing => do! vfs_call id (λ v, touch_vertexfs_file_nodes v backing); rret tt
       | _ => rret tt
       end);
  vfs_modify (λ v, record_vfs_event v (vn_id new_parent) VFS_EVENT_RENAME new_child_name).

(** [vfs_link] after the copy of the request. *)
Definition vfs_link_paths (cap_slot : Z) (old_requested new_requested : list byte) : RT unit :=
  let! old_canonical := resolve_process_vfs_path old_requested in
  let! new_canonical := resolve_process_vfs_path new_requested in
  let old_path := path_as_bytes old_canonical in
  let new_path := path_as_bytes new_canonical in
  let! rt := rget in
  do! rguard (negb (vfs_path_is_read_only rt new_path)) VfsPermission;
  let! old_split := rlift (split_vfs_parent_child old_path) in
  let! new_split := rlift (split_vfs_parent_child new_path) in
  let! new_child_name := rlift (map_err (λ _, VfsBadPath) (name_from_user_component new_split.2)) in
  let! cap := lookup_resolver cap_slot in
  do! resolve_vfs_root_authority cap old_split.1;
  let! new_available := resolve_vfs_root_authority cap new_split.1 in
  do! rguard (any_flag new_available RIGHT_CREATE) VfsPermission;
  let! node := rlift (ok_or (vfs_node_by_path rt old_path) VfsNotFound) in
  do! rguard (is_writable_file (vn_backing node)) VfsUnsupported;
  let! new_parent := rlift (ok_or (vfs_node_by_path rt new_split.1) VfsNotFound) in
  do! rguard (bool_decide (vn_kind new_parent = NkDirectory)) VfsNotDirectory;
  do! rlift (same_mount rt old_path new_split.1);
  do! rguard (negb (bool_decide (is_Some (vfs_node_by_path rt new_path)))) VfsExists;
  do! vfs_call (λ _, VfsNoSpace) (λ v, add_vfs_node_with_name v new_child_name (Some (vn_id new_parent))
                                         NkRegularFile (vn_backing node) (vn_mount_source node));
  do! (match vn_backing node with
       | VbMemoryFile backing => do! vfs_call id (λ v, touch_vfs_memory_file_nodes v backing); rret tt
       | VbVertexFsFile backing => do! vfs_call id (λ v, touch_vertexfs_file_nodes v backing); rret tt
       | _ => rret tt
       end);
  vfs_modify (λ v, record_vfs_event v (vn_id new_parent) VFS_EVENT_CREATE new_child_name).

(** * Mounts *)

(** The flags [vfs_mount] accepts. *)
Definition valid_mount_flags (flags : Z) : bool :=
  negb (exceeds flags VFS_MOUNT_KNOWN_FLAGS || (flags =? 0)%Z ||
        (any_flag flags VFS_MOUNT_VOLATILE && negb (flags =? VFS_MOUNT_VOLATILE)%Z) ||
        (any_flag flags VFS_MOUNT_BIND && any_flag flags VFS_MOUNT_VOLATILE) ||
        (any_flag flags VFS_MOUNT_READ_ONLY && negb (any_flag flags VFS_MOUNT_BIND))).

(** [vfs_mount] after the copy of the path. *)
Definition vfs_mount_path (cap_slot : Z) (requested : list byte) (flags : Z) : RT unit :=
  let! root_path := resolve_process_vfs_path requested in
  let path := path_as_bytes root_path in
  let! split := rlift (split_vfs_parent_child path) in
  let! child_name := rlift (map_err (λ _, VfsBadPath) (name_from_user_component split.2)) in
  let! cap := lookup_resolver cap_slot in
  let! available := resolve_vfs_root_authority cap split.1 in
  do! rguard (any_flag available RIGHT_MOUNT) VfsPermission;
  let! rt := rget in
  let! parent := rlift (ok_or (vfs_node_by_path rt split.1) VfsNotFound) in
  do! rguard (bool_decide (vn_kind parent = NkDirectory)) VfsNotDirectory;
  do! rguard (negb (bool_decide (is_Some (vfs_node_by_path rt path)))) VfsExists;
  if any_flag flags VFS_MOUNT_BIND then
    let! source_root := rlift (ok_or (get_vfs_root (rt_objects rt) (c_object cap)) VfsPermission) in
    let source_path := path_as_bytes (vr_root_path source_root) in
    let! source_node := rlift (ok_or (vfs_node_by_path rt source_path) VfsNotFound) in
    do! rguard (bool_decide (vn_kind source_node = NkDirectory)) VfsNotDirectory;
    let source_mount_flags :=
      default 0%Z (vm_flags <$> get_vfs_mount_by_path (rt_objects rt) source_path) in
    let bind_flags := Z.lor flags (Z.land source_mount_flags VFS_MOUNT_READ_ONLY) in
    λ rt, let '(r, rt1) := rt_add_vfs_mount rt "mount:bind" (vn_id source_node) root_path
                             (vn_mount_source source_node) bind_flags true (current_process_id rt) in
          (match r with Ok _ => Ok tt | Err _ => Err VfsNoSpace end, rt1)
  else
    let! node_id := vfs_call (λ _, VfsNoSpace) (λ v,
      add_vfs_node_with_name v child_name (Some (vn_id parent)) NkDirectory VbNone "volatilefs") in
    λ rt, match rt_add_vfs_mount rt "mount:volatile" node_id root_path "volatilefs" flags true
                  (current_process_id rt) with
          | (Ok _, rt1) => (Ok tt, rt1)
          | (Err _, rt1) => (Err VfsNoSpace, rt1 <| rt_vfs ::= λ v, (remove_vfs_node v node_id).2 |>)
          end.

(** The mount [vfs_unmount] selects. *)
Definition unmount_target (rt : RuntimeState) (path : list byte) : Result IpcError VfsMountObject :=
  let exact := match get_vfs_mount_by_exact_path (rt_objects rt) path with
               | Some mount => if vm_dynamic mount && any_flag (vm_flags mount) VFS_MOUNT_BIND then Some mount else None
               | None => None
               end in
  match exact with
  | Some mount => Ok mount
  | None =>
      let? node := ok_or (vfs_node_by_path rt path) VfsNotFound in
      do? res_guard (bool_decide (vn_kind node = NkDirectory)) VfsNotDirectory;
      ok_or (get_vfs_mount_by_root_node (rt_objects rt) (vn_id node)) VfsUnsupported
  end.

(** The removal at the end of [vfs_unmount]. *)
Definition remove_mount (path : list byte) (mount : VfsMountObject) (node : option VfsNode) : RT unit :=
  let bind := any_flag (vm_flags mount) VFS_MOUNT_BIND in
  do! (match node with
       | Some node => if bind then rret tt else vfs_call id (λ v, remove_vfs_node v (vn_id node))
       | None => rret tt
       end);
  rmodify (λ rt,
    let '(removed, t) := if bind then remove_dynamic_vfs_mount_by_path (rt_objects rt) path
                         else remove_dynamic_vfs_mount (rt_objects rt) (vm_root_node mount) in
    let rt1 := rt <| rt_objects := t |> in
    match removed with Some mount_id => remove_vfs_mount_id mount_id rt1 | None => rt1 end).

(** [vfs_derive_root] after the copy of the path. *)
Definition vfs_derive_root_path (cap_slot : Z) (requested : list byte) (target_slot : Z) : RT unit :=
  let! root_path := resolve_process_vfs_path requested in
  let! source := lookup_resolver cap_slot in
  let! rt := rget in
  let! source_root := rlift (ok_or (get_vfs_root (rt_objects rt) (c_object source)) VfsPermission) in
  do! rguard (vfs_authority_path_covers (path_as_bytes (vr_root_path source_root)) (path_as_bytes root_path))
        VfsPermission;
  let! node := rlift (ok_or (vfs_node_by_path rt (path_as_bytes root_path)) VfsNotFound) in
  do! rguard (bool_decide (vn_kind node = NkDirectory)) VfsNotDirectory;
  let! process := rlift (ok_or (current_process (rt_processes rt)) VfsPermission) in
  do! rguard (cspace_can_grant (p_caps process) target_slot) VfsBadHandle;
  do! rguard (can_allocate_capability (rt_caps rt)) VfsNoSpace;
  let! object := λ rt, let '(r, t) := add_derived_vfs_root (rt_objects rt) root_path in
                       (r, rt <| rt_objects := t |>) in
  let! cap := rt_new_capability object (Z.land (c_rights source) vfs_file_right_mask) (p_pid process)
                (c_id source) (p_pid process) in
  λ rt, let '(r, rt1) := grant_to_current target_slot cap rt in (map_err (λ _, VfsBadHandle) r, rt1).

(** * Handles *)

(** [vfs_close]. *)
Definition vfs_close (handle : Z) : RT unit :=
  let! file := on_current (λ p, close_file_handle p handle) in
  vfs_call id (λ v, release_file_description v (fh_description file)).

(** [vfs_seek]. *)
Definition vfs_seek (handle offset whence : Z) : RT Z :=
  let! opened := current_open_file handle in
  let '(description, node) := opened : OpenFileDescription * VfsNode in
  let! rt := rget in
  let! size := rlift (vfs_node_len rt node) in
  let! next :=
    rlift (if (whence =? VFS_SEEK_SET)%Z then Ok offset
           else if (whence =? VFS_SEEK_CURRENT)%Z then ok_or (checked_add (fd_offset description) offset) VfsUnsupported
           else if (whence =? VFS_SEEK_END)%Z then ok_or (checked_add size offset) VfsUnsupported
           else Err VfsUnsupported) in
  do! rguard (negb (size <? next)%Z) VfsUnsupported;
  do! set_offset (fd_id description) next;
  rret next.

(** [vfs_dup]. *)
Definition vfs_dup (handle flags : Z) : RT Z :=
  do! rguard (negb (exceeds flags VFS_DUP_SHARE_OFFSET)) VfsUnsupported;
  let! file := current_file_handle handle in
  let! rt := rget in
  let! description := rlift (ok_or (file_description (rt_vfs rt) (fh_description file)) VfsBadHandle) in
  do! rguard (negb (cap_id_revoked_or_has_revoked_ancestor (rt_caps rt) (fd_authority_cap_id description))) VfsPermission;
  let! new_description :=
    if any_flag flags VFS_DUP_SHARE_OFFSET then
      do! vfs_call id (λ v, retain_file_description v (fd_id description));
      rret (fd_id description)
    else
      let! new_id := vfs_call id (λ v, open_file_description v (fd_node description) (fd_rights description)
                                         (fd_flags description) (fd_owner description)
                                         (fd_authority_cap_id description)) in
      do! set_offset new_id (fd_offset description);
      rret new_id in
  λ rt,
    match on_current (λ p, open_file_handle p (mkFileHandle new_description)) rt with
    | (Ok raw, rt1) => (Ok raw, rt1)
    | (Err e, rt1) => (do! vfs_call id (λ v, release_file_description v new_description); rfail e) rt1
    end.

(** [vfs_poll]; the time-out is not used. *)
Definition vfs_poll (handle events : Z) : RT Z :=
  do! rguard (negb ((events =? 0)%Z || exceeds events VFS_POLL_KNOWN_EVENTS)) VfsUnsupported;
  let! opened := current_open_file handle in
  let '(description, node) := opened : OpenFileDescription * VfsNode in
  do! rguard (negb (any_flag events VFS_POLL_READABLE && negb (any_flag (fd_rights description) RIGHT_READ))) VfsPermission;
  do! rguard (negb (any_flag events VFS_POLL_WRITABLE && negb (any_flag (fd_rights description) RIGHT_WRITE))) VfsPermission;
  let! rt := rget in
  rlift (vfs_poll_ready rt description node events).

(** [vfs_lock]. *)
Definition vfs_lock (handle flags packed_range : Z) : RT unit :=
  let! request := rlift (decode_lock_request flags packed_range) in
  let '(mode, start, len) := request : VfsLockMode * Z * Z in
  let! opened := current_open_file handle in
  let '(description, node) := opened : OpenFileDescription * VfsNode in
  do! rguard (bool_decide (vn_kind node = NkRegularFile)) VfsNotFile;
  do! rguard (any_flag (fd_rights description) (match mode with LockShared => RIGHT_READ | LockExclusive => RIGHT_WRITE end))
        VfsPermission;
  vfs_call id (λ v, acquire_vfs_lock v description mode start len).

(** [vfs_unlock]. *)
Definition vfs_unlock (handle : Z) : RT unit :=
  let! opened := current_open_file handle in
  let description := opened.1 : OpenFileDescription in
  vfs_call id (λ v, let '(released, v1) := release_vfs_lock v (fd_id description) in
                    ((if released : bool then Ok tt else Err VfsBadHandle), v1)).

(** * Kernel calls *)

Section vfs_calls.
Context `{UserMemory} `{StoreMemory} (env : Env).

(** The copy of a path of the caller. *)
Definition user_path (path path_len : Z) : K (list byte) :=
  do* kguard (negb (Z.of_nat MAX_VFS_PATH_BYTES <? path_len)%Z) VfsBadPath;
  let* copied := copy_from_user MAX_VFS_PATH_BYTES path path_len in
  klift (ok_or copied InvalidUserBuffer).

(** [vfs_open]. *)
Definition vfs_open (cap_slot path packed_len_flags : Z) : K Z :=
  let path_len := packed_low packed_len_flags in
  let flags := packed_high packed_len_flags in
  do* kguard (negb (Z.of_nat MAX_VFS_PATH_BYTES <? path_len)%Z) VfsBadPath;
  do* kguard (negb (exceeds flags VFS_OPEN_KNOWN_FLAGS)) VfsUnsupported;
  do* kguard (negb (any_flag flags create_trunc_append && negb (any_flag flags VFS_OPEN_WRITE))) VfsPermission;
  let* bytes := user_path path path_len in
  on_rt (vfs_open_path cap_slot bytes flags).

(** [vfs_create], [vfs_mkdir]. *)
Definition vfs_create (cap_slot path packed_len_flags : Z) : K unit :=
  do* kguard (packed_high packed_len_flags =? 0)%Z VfsBadPath;
  let* bytes := user_path path (packed_low packed_len_flags) in
  on_rt (vfs_create_path cap_slot bytes).
Definition vfs_mkdir (cap_slot path packed_len_flags : Z) : K unit :=
  do* kguard (packed_high packed_len_flags =? 0)%Z VfsBadPath;
  let* bytes := user_path path (packed_low packed_len_flags) in
  on_rt (vfs_mkdir_path cap_slot bytes).

(** [vfs_unlink], [vfs_rmdir]. *)
Definition vfs_unlink (cap_slot path path_len : Z) : K unit :=
  let* bytes := user_path path path_len in
  on_rt (vfs_unlink_path cap_slot bytes).
Definition vfs_rmdir (cap_slot path path_len : Z) : K unit :=
  let* bytes := user_path path path_len in
  on_rt (vfs_rmdir_path cap_slot bytes).

(** The request of [vfs_rename] and [vfs_link]. *)
Definition user_two_paths (request request_len : Z) : K (list byte * list byte) :=
  do* kguard ((Z.of_nat VFS_RENAME_REQUEST_HEADER_BYTES <=? request_len)%Z &&
              (request_len <=? Z.of_nat VFS_RENAME_REQUEST_MAX_BYTES)%Z) VfsBadPath;
  let* copied := copy_from_user VFS_RENAME_REQUEST_MAX_BYTES request request_len in
  let* bytes := klift (ok_or copied InvalidUserBuffer) in
  klift (decode_two_paths bytes).

(** [vfs_rename], [vfs_link]. *)
Definition vfs_rename (cap_slot request request_len : Z) : K unit :=
  let* paths := user_two_paths request request_len in
  on_rt (vfs_rename_paths cap_slot paths.1 paths.2).
Definition vfs_link (cap_slot request request_len : Z) : K unit :=
  let* paths := user_two_paths request request_len in
  on_rt (vfs_link_paths cap_slot paths.1 paths.2).

(** [vfs_derive_root]. *)
Definition vfs_derive_root (cap_slot path packed_len_target : Z) : K unit :=
  let* bytes := user_path path (packed_low packed_len_target) in
  on_rt (vfs_derive_root_path cap_slot bytes (packed_high packed_len_target)).

(** [vfs_mount]. *)
Definition vfs_mount (cap_slot path packed_len_flags : Z) : K unit :=
  let path_len := packed_low packed_len_flags in
  let flags := packed_high packed_len_flags in
  do* kguard (negb (Z.of_nat MAX_VFS_PATH_BYTES <? path_len)%Z) VfsBadPath;
  do* kguard (valid_mount_flags flags) VfsUnsupported;
  let* bytes := user_path path path_len in
  on_rt (vfs_mount_path cap_slot bytes flags).

(** [vfs_unmount]; it does not return when the walk over the parents of an open
    node does not end. *)
Definition vfs_unmount (cap_slot path path_len : Z) : K unit :=
  let* requested := user_path path path_len in
  let* canonical_path := on_rt (resolve_process_vfs_path requested) in
  let path := path_as_bytes canonical_path in
  let* cap := on_rt (lookup_resolver cap_slot) in
  let* available := on_rt (resolve_vfs_root_authority cap path) in
  do* kguard (any_flag available RIGHT_MOUNT) VfsPermission;
  let* rt := kget ks_rt in
  let node := vfs_node_by_path rt path in
  let* mount := klift (unmount_target rt path) in
  do* kguard (vm_dynamic mount) VfsUnsupported;
  let* opened := λ k, match vfs_subtree_has_open_description (rt_vfs rt) (vm_root_node mount) with
                      | None => None
                      | Some b => Some (Ok b, k)
                      end in
  do* kguard (negb (opened ||
        (negb (any_flag (vm_flags mount) VFS_MOUNT_BIND) &&
         match node with Some node => vfs_node_has_children (rt_vfs rt) (vn_id node) | None => false end))) VfsBusy;
  on_rt (remove_mount path mount node).

(** ** Reading and writing *)

(** [vfs_state_value_read]. *)
Definition vfs_state_value_read (fuel : nat) (state : KernelObjectId) (node : VfsNode)
    (description : OpenFileDescription) (offset destination max_len : Z) (update_offset : bool) : K unit :=
  if (max_len =? 0)%Z then set_rax 0
  else
    let* valid := validate_user_buffer destination max_len UserWrite in
    do* kguard valid InvalidUserBuffer;
    start_vfs_state_transaction env fuel state node description VsoRead offset destination max_len 0
      update_offset [] 0.

(** [vfs_state_value_write]. *)
Definition vfs_state_value_write (fuel : nat) (state : KernelObjectId) (node : VfsNode)
    (description : OpenFileDescription) (offset source len : Z) (update_offset : bool) : K unit :=
  do* kguard (offset =? 0)%Z VfsUnsupported;
  do* kguard (len <=? MAX_STATE_VOLUME_VALUE_BYTES)%Z VfsNoSpace;
  let* copied := copy_from_user MAX_MESSAGE_BYTES source len in
  let* bytes := klift (ok_or copied InvalidUserBuffer) in
  start_vfs_state_transaction env fuel state node description VsoWrite offset 0 0 len update_offset bytes
    (Z.to_nat len).

(** [vfs_state_control_write]: the one request is the letter Q. *)
Definition vfs_state_control_write (fuel : nat) (state : KernelObjectId) (node : VfsNode)
    (description : OpenFileDescription) (offset source len : Z) (update_offset : bool) : K unit :=
  do* kguard ((offset =? 0)%Z && (len =? 1)%Z) VfsUnsupported;
  let* copied := copy_from_user 1 source len in
  let* bytes := klift (ok_or copied InvalidUserBuffer) in
  do* kguard (byte_at bytes 0 =? 81)%Z VfsUnsupported;
  start_vfs_state_transaction env fuel state node description VsoControl offset 0 0 len update_offset bytes 1.

(** [vfs_state_value_stat]. *)
Definition vfs_state_value_stat (fuel : nat) (state : KernelObjectId) (node : VfsNode)
    (description : OpenFileDescription) (destination max_len : Z) : K unit :=
  let* valid := validate_user_buffer destination (Z.of_nat VFS_STAT_BYTES) UserWrite in
  do* kguard valid InvalidUserBuffer;
  start_vfs_state_transaction env fuel state node description VsoStat 0 destination max_len 0 false [] 0.

(** The read of a pipe: what is queued, or wait for a writer. *)
Definition vfs_pipe_read (fuel : nat) (node : VfsNode) (description : OpenFileDescription)
    (destination max_len : Z) : K unit :=
  if (max_len =? 0)%Z then set_rax 0
  else
    let* valid := validate_user_buffer destination max_len UserWrite in
    do* kguard valid InvalidUserBuffer;
    let* pipe := kget (λ k, vfs_pipe (rt_vfs (ks_rt k))) in
    if negb (pipe_len pipe =? 0) then
      let copy_len := Z.min (Z.of_nat (pipe_len pipe)) max_len in
      let* copied := copy_to_user destination (take (Z.to_nat copy_len) (pipe_bytes pipe)) in
      do* kguard copied InvalidUserBuffer;
      do* modify_vfs (λ v, v <| vfs_pipe ::= λ b, b <| pipe_len := 0 |> |>);
      set_rax copy_len
    else
      let* blocked := block_current_on_vfs_read env fuel (vn_id node) (fd_id description) destination max_len in
      kguard blocked Empty.

(** [vfs_read]. *)
Definition vfs_read (fuel : nat) (handle destination max_len : Z) : K unit :=
  let* opened := on_rt (current_open_file handle) in
  let '(description, node) := opened : OpenFileDescription * VfsNode in
  do* kguard (any_flag (fd_rights description) RIGHT_READ) VfsPermission;
  match vn_backing node with
  | VbPipe => vfs_pipe_read fuel node description destination max_len
  | VbStateVolumeValue state =>
      vfs_state_value_read fuel state node description (fd_offset description) destination max_len true
  | VbFsServiceReport =>
      start_vfs_service_read_transaction env fuel node description (fd_offset description) destination max_len true
  | _ =>
      let* read := vfs_read_node node (fd_offset description) destination max_len in
      do* on_rt (set_offset (fd_id description) read.2);
      set_rax read.1
  end.

(** [vfs_pread]. *)
Definition vfs_pread (fuel : nat) (handle destination packed_len_offset : Z) : K unit :=
  let max_len := packed_low packed_len_offset in
  let offset := packed_high packed_len_offset in
  let* opened := on_rt (current_open_file handle) in
  let '(description, node) := opened : OpenFileDescription * VfsNode in
  do* kguard (any_flag (fd_rights description) RIGHT_READ) VfsPermission;
  match vn_backing node with
  | VbStateVolumeValue state => vfs_state_value_read fuel state node description offset destination max_len false
  | VbFsServiceReport =>
      start_vfs_service_read_transaction env fuel node description offset destination max_len false
  | _ =>
      let* read := vfs_read_node node offset destination max_len in
      set_rax read.1
  end.

(** The data of a write, which fits a memory file. *)
Definition user_data (source len : Z) : K (list byte) :=
  do* kguard (len <=? Z.of_nat MAX_VFS_MEM_FILE_BYTES)%Z VfsNoSpace;
  let* copied := copy_from_user MAX_VFS_MEM_FILE_BYTES source len in
  klift (ok_or copied InvalidUserBuffer).

(** [vfs_write]. *)
Definition vfs_write (fuel : nat) (handle source len : Z) : K unit :=
  let* opened := on_rt (current_open_file handle) in
  let '(description, node) := opened : OpenFileDescription * VfsNode in
  let append := any_flag (fd_flags description) VFS_OPEN_APPEND in
  match vn_backing node with
  | VbStateVolumeControl state =>
      do* kguard (any_flag (fd_rights description) RIGHT_CONTROL) VfsPermission;
      do* kguard (negb append) VfsUnsupported;
      vfs_state_control_write fuel state node description (fd_offset description) source len true
  | _ =>
      do* kguard (any_flag (fd_rights description) RIGHT_WRITE) VfsPermission;
      match vn_backing node with
      | VbStateVolumeValue state =>
          do* kguard (negb append) VfsUnsupported;
          vfs_state_value_write fuel state node description (fd_offset description) source len true
      | _ =>
          let* bytes := user_data source len in
          let* rt := kget ks_rt in
          let* offset := klift (if append then vfs_node_len rt node else Ok (fd_offset description)) in
          let* written := vfs_write_node node offset bytes in
          do* on_rt (set_offset (fd_id description) written.2);
          set_rax written.1
      end
  end.

(** [vfs_pwrite]. *)
Definition vfs_pwrite (fuel : nat) (handle source packed_len_offset : Z) : K unit :=
  let len := packed_low packed_len_offset in
  let offset := packed_high packed_len_offset in
  let* opened := on_rt (current_open_file handle) in
  let '(description, node) := opened : OpenFileDescription * VfsNode in
  match vn_backing node with
  | VbStateVolumeControl state =>
      do* kguard (any_flag (fd_rights description) RIGHT_CONTROL) VfsPermission;
      vfs_state_control_write fuel state node description offset source len false
  | _ =>
      do* kguard (any_flag (fd_rights description) RIGHT_WRITE) VfsPermission;
      match vn_backing node with
      | VbStateVolumeValue state => vfs_state_value_write fuel state node description offset source len false
      | _ =>
          let* bytes := user_data source len in
          let* written := vfs_write_node node offset bytes in
          set_rax written.1
      end
  end.

(** [vfs_stat]. *)
Definition vfs_stat (fuel : nat) (handle destination max_len : Z) : K unit :=
  do* kguard (negb (max_len <? Z.of_nat VFS_STAT_BYTES)%Z) InvalidUserBuffer;
  let* opened := on_rt (current_open_file handle) in
  let '(description, node) := opened : OpenFileDescription * VfsNode in
  match vn_backing node with
  | VbStateVolumeValue state => vfs_state_value_stat fuel state node description destination max_len
  | _ =>
      let* rt := kget ks_rt in
      let* size := klift (vfs_node_len rt node) in
      let* copied := copy_to_user destination (write_vfs_stat_record (rt_vfs rt) node size (fd_rights description)) in
      do* kguard copied InvalidUserBuffer;
      set_rax (Z.of_nat VFS_STAT_BYTES)
  end.

(** [vfs_readdir]. *)
Definition vfs_readdir (handle destination max_len : Z) : K Z :=
  do* kguard (negb (max_len <? Z.of_nat VFS_DIRENT_BYTES)%Z) InvalidUserBuffer;
  let* opened := on_rt (current_open_file handle) in
  let '(description, node) := opened : OpenFileDescription * VfsNode in
  do* kguard (bool_decide (vn_kind node = NkDirectory)) VfsNotDirectory;
  do* kguard (any_flag (fd_rights description) RIGHT_RESOLVE) VfsPermission;
  let* v := kget (λ k, rt_vfs (ks_rt k)) in
  match vfs_child_by_entry_index v (vn_id node) (Z.to_nat (fd_offset description)) with
  | None => kret 0%Z
  | Some child =>
      let* copied := copy_to_user destination (write_vfs_dirent_record child) in
      do* kguard copied InvalidUserBuffer;
      let* next := klift (ok_or (checked_add (fd_offset description) 1) VfsUnsupported) in
      do* on_rt (set_offset (fd_id description) next);
      kret (Z.of_nat VFS_DIRENT_BYTES)
  end.

(** The search of [vfs_watch] for an event, from [index]. *)
Fixpoint next_event (node : VfsNodeId) (index : nat) (l : list (option VfsEvent)) : option (nat * VfsEvent) :=
  match l with
  | [] => None
  | Some e :: l' => if (ev_parent e =? node)%Z then Some (index, e) else next_event node (S index) l'
  | None :: l' => next_event node (S index) l'
  end.

(** [vfs_watch]. *)
Definition vfs_watch (handle destination max_len : Z) : K Z :=
  do* kguard (negb (max_len <? Z.of_nat VFS_WATCH_EVENT_BYTES)%Z) InvalidUserBuffer;
  let* opened := on_rt (current_open_file handle) in
  let '(description, node) := opened : OpenFileDescription * VfsNode in
  do* kguard (bool_decide (vn_kind node = NkDirectory)) VfsNotDirectory;
  do* kguard (any_flag (fd_rights description) RIGHT_RESOLVE) VfsPermission;
  let* v := kget (λ k, rt_vfs (ks_rt k)) in
  let start := fd_watch_cursor description `min` vfs_event_count v in
  match next_event (vn_id node) start (drop start (take (vfs_event_count v) (vfs_events v))) with
  | None => kret 0%Z
  | Some (event_index, event) =>
      let* copied := copy_to_user destination (write_vfs_watch_event_record event) in
      do* kguard copied InvalidUserBuffer;
      let* index := klift (ok_or (file_description_index v (fd_id description)) VfsBadHandle) in
      do* modify_vfs (λ v, v <| open_file_descriptions ::=
            alter (fmap (λ d, d <| fd_watch_cursor := S event_index |>)) index |>);
      kret (Z.of_nat VFS_WATCH_EVENT_BYTES)
  end.

(** [vfs_sync]. *)
Definition vfs_sync (fuel : nat) (handle : Z) : K unit :=
  let* opened := on_rt (current_open_file handle) in
  let node := opened.2 : VfsNode in
  match vn_backing node with
  | VbStoreObject _ | VbStateVolumeValue _ | VbMemoryFile _ | VbSynthetic _ => set_rax STATUS_OK
  | VbVertexFsFile backing =>
      let* r := on_vfs (prepare_vertexfs_sync_file backing) in
      match r with
      | SyncJournaled inode_id checksum write_count =>
          start_vertexfs_sync_transaction env fuel (Z.of_nat backing) inode_id checksum (Z.of_nat write_count)
      | SyncCached _ => set_rax STATUS_OK
      end
  | _ => kfail VfsUnsupported
  end.
End vfs_calls.
