(* ===== verification/VfsTreeProofs.v ===== *)
(** The tree of VFS nodes under the calls on names and handles: nodes keep
    unique identifiers, parents are directories that exist, directories never
    form a cycle, every file has storage, and no open handle outlives its node. *)

From S2P Require Import Prelude KernelBase Transport VfsPath KernelObjects ProcessRuntime.
From S2P Require Import CapRegistry VfsState VfsFiles VfsWire Runtime Kernel PageCache VertexFs Store.
From S2P Require Import Scheduler VfsTransactions VfsNodes CapabilitySyscalls VfsSyscalls.
From stdpp Require Import relations.

(** * The invariant *)

(** The node table, the number of slots in use and the next identifier. *)
Record nodes_wf (l : list (option VfsNode)) (n : nat) (next : Z) : Prop := mk_nodes_wf {
  nw_len : length l = MAX_VFS_NODES;
  nw_count : n ≤ MAX_VFS_NODES;
  nw_used i m : l !! i = Some (Some m) → i < n;
  nw_ids i m : l !! i = Some (Some m) → (1 ≤ vn_id m < next)%Z;
  nw_unique i j m m' : l !! i = Some (Some m) → l !! j = Some (Some m') → vn_id m = vn_id m' → i = j;
  nw_parent i m p : l !! i = Some (Some m) → vn_parent m = Some p →
    ∃ j d, l !! j = Some (Some d) ∧ vn_id d = p ∧ vn_kind d = NkDirectory;
  nw_order i m p : l !! i = Some (Some m) → vn_kind m = NkDirectory → vn_parent m = Some p → (p < vn_id m)%Z
}.

(** Every file node has storage below the counts in use. *)
Record files_backed (l : list (option VfsNode)) (mem mem_len vfs vfs_len : nat) : Prop := mk_files_backed {
  fb_mem : mem ≤ mem_len;
  fb_vfs : vfs ≤ vfs_len;
  fb_memory i m f : l !! i = Some (Some m) → vn_backing m = VbMemoryFile f → vn_kind m = NkRegularFile ∧ f < mem;
  fb_vertexfs i m f : l !! i = Some (Some m) → vn_backing m = VbVertexFsFile f → vn_kind m = NkRegularFile ∧ f < vfs
}.

(** Every open description is of a node in the table. *)
Definition opens_exist (l : list (option VfsNode)) (ds : list (option OpenFileDescription)) : Prop :=
  ∀ k d, ds !! k = Some (Some d) → ∃ i m, l !! i = Some (Some m) ∧ vn_id m = fd_node d.

Record tree_wf (v : VfsState) : Prop := mk_tree_wf {
  tw_nodes : nodes_wf (vfs_nodes v) (vfs_node_count v) (next_vfs_node_id v);
  tw_files : files_backed (vfs_nodes v) (vfs_mem_file_count v) (length (vfs_mem_files v))
               (vertexfs_file_count v) (length (vertexfs_files v));
  tw_opens : opens_exist (vfs_nodes v) (open_file_descriptions v)
}.

(** Identifiers start at one and saturate. *)
Definition ids_ok (v : VfsState) : Prop := (1 ≤ next_vfs_node_id v ≤ u64_max)%Z.

(** A change that keeps the invariant until the identifiers run out. *)
Definition keeps (v v' : VfsState) : Prop :=
  (ids_ok v → ids_ok v' ∧ next_vfs_node_id v ≤ next_vfs_node_id v')%Z ∧
  (ids_ok v → (next_vfs_node_id v' < u64_max)%Z → tree_wf v → tree_wf v').

#[export] Instance keeps_preorder : PreOrder keeps.
Proof.
  split; [by split|]. intros v1 v2 v3 [H1 H2] [H3 H4]. split.
  - intros [? ?]%H1. destruct H3; [done|]. split; [done|lia].
  - intros Hi Hlt Hwf. destruct (H1 Hi). destruct H3; [done|]. apply H4, H2; [done..|lia|done].
Qed.

Lemma tree_wf_new : tree_wf vfs_state_new.
Proof.
  assert (Hno : ∀ i m, vfs_nodes vfs_state_new !! i ≠ Some (Some m)).
  { intros i m [? _]%lookup_replicate. done. }
  split; [split|split|]; try (intros; exfalso; by eapply Hno); try done.
  - apply Nat.le_0_l.
  - apply Nat.le_0_l.
  - apply Nat.le_0_l.
  - intros k d [? _]%lookup_replicate. done.
Qed.

(** * Looking nodes up *)

Lemma find_node_Some {A} (f : VfsNode → option A) v a :
  find_node f v = Some a → ∃ i m, vfs_nodes v !! i = Some (Some m) ∧ f m = Some a.
Proof.
  unfold find_node. intros (i & x & _ & Hi & Hx & _)%first_some_Some.
  destruct x as [m|]; [|done]. eauto.
Qed.

Lemma vfs_node_Some v id m : vfs_node v id = Some m → ∃ i, vfs_nodes v !! i = Some (Some m) ∧ vn_id m = id.
Proof.
  intros (i & n & Hi & Hn)%find_node_Some. destruct (Z.eqb_spec (vn_id n) id); [|done].
  injection Hn as ->. eauto.
Qed.

(** A node that some lookup returned is in the table. *)
Definition in_tree (v : VfsState) (m : VfsNode) : Prop := ∃ i, vfs_nodes v !! i = Some (Some m).

Lemma walk_in_tree fuel v m rest n : walk_components fuel v m rest = Some n → in_tree v n.
Proof.
  revert m rest. induction fuel as [|fuel IH]; intros m rest; cbn; [done|].
  set (e := match list_find _ _ with Some _ => _ | None => _ end). destruct (e =? 0); [done|].
  destruct (vfs_node_by_parent_name v (vn_id m) (take e rest)) as [c|] eqn:Hc; [|done].
  destruct (e =? length rest); [|apply IH]. intros [= ->].
  apply find_node_Some in Hc as (i & n' & Hi & Hn). case_match; [|done]. injection Hn as ->. by exists i.
Qed.

Lemma by_path_from_in_tree v m path n : in_tree v m → vfs_node_by_path_from v m path = Some n → in_tree v n.
Proof.
  intros Hm. destruct path as [|c path]; cbn [vfs_node_by_path_from]; [by intros [= <-]|].
  case_match; [done|]. apply walk_in_tree.
Qed.

Lemma by_path_in_tree rt path n : vfs_node_by_path rt path = Some n → in_tree (rt_vfs rt) n.
Proof.
  unfold vfs_node_by_path, vfs_node_by_bind_mount_path. intros H.
  assert (Hroot : ∀ m, mjoin (vfs_nodes (rt_vfs rt) !! 0) = Some m → in_tree (rt_vfs rt) m).
  { intros m Hm. exists 0. destruct (vfs_nodes (rt_vfs rt) !! 0) as [[x|]|]; by simplify_eq/=. }
  assert (Hdirect : (if bytes_eqb path [slash] then mjoin (vfs_nodes (rt_vfs rt) !! 0)
     else if negb (bool_decide (head path = Some slash)) then None
     else match mjoin (vfs_nodes (rt_vfs rt) !! 0) with
          | Some root => vfs_node_by_path_from (rt_vfs rt) root path | None => None end) = Some n →
     in_tree (rt_vfs rt) n).
  { clear H. case_match; [apply Hroot|]. case_match; [done|].
    destruct (mjoin (vfs_nodes (rt_vfs rt) !! 0)) as [r|] eqn:Hr; [|done].
    apply by_path_from_in_tree. by apply Hroot. }
  destruct (get_vfs_mount_by_path (rt_objects rt) path) as [mount|]; [|by apply Hdirect].
  destruct (negb (any_flag _ _)); [by apply Hdirect|].
  destruct (vfs_node (rt_vfs rt) (vm_root_node mount)) as [root|] eqn:Hr; [|by apply Hdirect].
  assert (Hin : in_tree (rt_vfs rt) root) by (apply vfs_node_Some in Hr as (i & ? & _); by exists i).
  destruct (length path =? _); [by simplify_eq|].
  destruct (vfs_node_by_path_from _ root _) as [x|] eqn:Hx; [|by apply Hdirect].
  injection H as ->. by eapply by_path_from_in_tree.
Qed.

(** * Changes of the table *)

(** What the invariant says of a node. *)
Definition shape (m : VfsNode) : VfsNodeId * option VfsNodeId * VfsNodeKind * VfsBacking :=
  (vn_id m, vn_parent m, vn_kind m, vn_backing m).
Global Arguments shape : simpl never.
Definition same_nodes (l l' : list (option VfsNode)) : Prop :=
  option_map shape <$> l = option_map shape <$> l'.

Lemma same_nodes_at l l' i m' :
  same_nodes l l' → l' !! i = Some (Some m') → ∃ m, l !! i = Some (Some m) ∧ shape m = shape m'.
Proof.
  intros Hs Hi. apply (f_equal (.!! i)) in Hs. rewrite !list_lookup_fmap, Hi in Hs. cbn in Hs.
  destruct (l !! i) as [[m|]|]; cbn in Hs; [|done..]. exists m. split; congruence.
Qed.

Lemma same_nodes_sym l l' : same_nodes l l' → same_nodes l' l.
Proof. by unfold same_nodes. Qed.

Lemma nodes_wf_same l l' n next : same_nodes l l' → nodes_wf l n next → nodes_wf l' n next.
Proof.
  intros Hs [H1 H2 H3 H4 H5 H6 H7]. pose proof (same_nodes_sym _ _ Hs) as Hs'. split.
  - rewrite <-H1. apply (f_equal length) in Hs. by rewrite !length_fmap in Hs.
  - done.
  - intros i m' (m & Hm & _)%(same_nodes_at l); eauto.
  - intros i m' (m & Hm & Heq)%(same_nodes_at l); [|done]. injection Heq as <- _ _ _. eauto.
  - intros i j m1 m2 (n1 & Hn1 & E1)%(same_nodes_at l) (n2 & Hn2 & E2)%(same_nodes_at l) Hid; [|done..].
    injection E1 as ?. injection E2 as ?. apply (H5 i j n1 n2 Hn1 Hn2). congruence.
  - intros i m' p (m & Hm & Heq)%(same_nodes_at l) Hp; [|done]. injection Heq as _ ? _ _.
    destruct (H6 i m p Hm) as (j & d & Hd & Hid & Hk); [congruence|].
    destruct (same_nodes_at l' l j d Hs' Hd) as (d' & Hd' & Heq'). injection Heq' as ? _ ? _.
    exists j, d'. split_and!; congruence.
  - intros i m' p (m & Hm & Heq)%(same_nodes_at l) Hk Hp; [|done]. injection Heq as ? ? ? _.
    specialize (H7 i m p Hm). replace (vn_id m') with (vn_id m). apply H7; congruence.
Qed.

Lemma files_backed_same l l' a b c d : same_nodes l l' → files_backed l a b c d → files_backed l' a b c d.
Proof.
  intros Hs [H1 H2 H3 H4]. split; [done|done|..]; intros i m' f (m & Hm & Heq)%(same_nodes_at l) Hb; try done;
    injection Heq as _ _ Hk Hb'; rewrite <-Hk; [eapply H3|eapply H4]; try done; congruence.
Qed.

Lemma opens_exist_same l l' ds : same_nodes l l' → opens_exist l ds → opens_exist l' ds.
Proof.
  intros Hs H k d (i & m & Hm & Hid)%H.
  destruct (same_nodes_at l' l i m (same_nodes_sym _ _ Hs) Hm) as (m' & Hm' & Heq). injection Heq as ? _ _ _.
  exists i, m'. split; congruence.
Qed.

Lemma same_nodes_map (f : VfsNode → VfsNode) l n :
  (∀ m, shape (f m) = shape m) → same_nodes l (map_upto (fmap f) l n).
Proof.
  intros Hf. unfold same_nodes. apply list_eq. intros i. rewrite !list_lookup_fmap, lookup_map_upto.
  case_bool_decide; [|done]. destruct (l !! i) as [[m|]|]; cbn; [|done..]. by rewrite Hf.
Qed.

(** A new node in a free slot. *)
Section add.
Context (l : list (option VfsNode)) (n : nat) (next : Z) (Hwf : nodes_wf l n next).
Context (slot : nat) (Hfree : l !! slot = Some None) (m : VfsNode) (Hid : vn_id m = next).

Lemma add_lookup i x :
  <[slot := Some m]> l !! i = Some (Some x) ↔ (i = slot ∧ x = m) ∨ l !! i = Some (Some x).
Proof using Hfree.
  clear n next Hwf Hid. pose proof (lookup_lt_Some _ _ _ Hfree) as Hlt.
  destruct (decide (i = slot)) as [->|Hne]; [rewrite list_lookup_insert_eq by done|rewrite list_lookup_insert_ne by done];
    rewrite ?Hfree; naive_solver.
Qed.

Lemma nodes_wf_add :
  (1 ≤ next)%Z →
  (∀ p, vn_parent m = Some p → ∃ j d, l !! j = Some (Some d) ∧ vn_id d = p ∧ vn_kind d = NkDirectory) →
  nodes_wf (<[slot := Some m]> l) (if n <=? slot then S slot else n) (next + 1).
Proof using Hwf Hfree Hid.
  pose proof (lookup_lt_Some _ _ _ Hfree) as Hlt. destruct Hwf as [H1 H2 H3 H4 H5 H6 H7].
  intros Hn Hp. split.
  - by rewrite length_insert.
  - destruct (Nat.leb_spec n slot); lia.
  - intros i x [[-> ->]|Hi]%add_lookup; [|apply H3 in Hi]; destruct (Nat.leb_spec n slot); lia.
  - intros i x [[-> ->]|Hi]%add_lookup; [lia|]. apply H4 in Hi. lia.
  - intros i j x y [[-> ->]|Hi]%add_lookup [[-> ->]|Hj]%add_lookup Heq; [done| | |eauto].
    + apply H4 in Hj. lia.
    + apply H4 in Hi. lia.
  - intros i x p [[-> ->]|Hi]%add_lookup Hxp.
    + destruct (Hp p Hxp) as (j & d & Hd & ?). exists j, d. split; [|done]. apply add_lookup. by right.
    + destruct (H6 i x p Hi Hxp) as (j & d & Hd & ?). exists j, d. split; [|done]. apply add_lookup. by right.
  - intros i x p [[-> ->]|Hi]%add_lookup Hk Hxp; [|eauto].
    destruct (Hp p Hxp) as (j & d & Hd & <- & _). apply H4 in Hd. lia.
Qed.

Lemma files_backed_add a b c d :
  files_backed l a b c d →
  (∀ f, vn_backing m = VbMemoryFile f → vn_kind m = NkRegularFile ∧ f < a) →
  (∀ f, vn_backing m = VbVertexFsFile f → vn_kind m = NkRegularFile ∧ f < c) →
  files_backed (<[slot := Some m]> l) a b c d.
Proof using Hfree.
  intros [H1 H2 H3 H4] Ha Hc.
  split; [done|done|..]; intros i x f [[-> ->]|Hi]%add_lookup Hb; eauto.
Qed.

Lemma opens_exist_add ds : opens_exist l ds → opens_exist (<[slot := Some m]> l) ds.
Proof using Hfree.
  intros H k d (i & x & Hx & ?)%H. exists i, x. split; [|done]. apply add_lookup. by right.
Qed.
End add.

(** A node that goes. *)
Lemma nodes_wf_remove l n next index m :
  nodes_wf l n next → l !! index = Some (Some m) →
  (∀ i c, l !! i = Some (Some c) → vn_parent c ≠ Some (vn_id m)) →
  nodes_wf (<[index := None]> l) (trim_count (<[index := None]> l) n) next.
Proof.
  intros [H1 H2 H3 H4 H5 H6 H7] Hm Hleaf. pose proof (lookup_lt_Some _ _ _ Hm) as Hlt.
  assert (Hat : ∀ i x, <[index := None]> l !! i = Some (Some x) ↔ i ≠ index ∧ l !! i = Some (Some x)).
  { intros i x. destruct (decide (i = index)) as [->|Hne];
      rewrite ?list_lookup_insert_eq, ?list_lookup_insert_ne by done; naive_solver. }
  split.
  - by rewrite length_insert.
  - pose proof (trim_count_le (<[index:=None]> l) n). lia.
  - intros i x Hi. destruct (decide (i < trim_count (<[index:=None]> l) n)) as [|Hge]; [done|].
    exfalso. apply Hat in Hi as Hi'. apply proj2, H3 in Hi'.
    apply (trim_count_above (<[index:=None]> l) n i x); [lia|done|done].
  - intros i x [_ Hi]%Hat. eauto.
  - intros i j x y [_ Hi]%Hat [_ Hj]%Hat. eauto.
  - intros i x p [Hne Hi]%Hat Hp. destruct (H6 i x p Hi Hp) as (j & d & Hd & <- & Hk).
    exists j, d. split; [|done]. apply Hat. split; [|done]. intros ->. rewrite Hm in Hd. injection Hd as <-.
    by eapply Hleaf.
  - intros i x p [_ Hi]%Hat. eauto.
Qed.

Lemma files_backed_remove l index a b c d :
  files_backed l a b c d → files_backed (<[index := None]> l) a b c d.
Proof.
  intros [H1 H2 H3 H4]. split; [done|done|..]; intros i x f Hi;
    apply list_lookup_insert_Some in Hi as [(_ & ? & _)|[_ Hi]]; eauto; done.
Qed.

Lemma opens_exist_remove l ds index m :
  l !! index = Some (Some m) → (∀ k d, ds !! k = Some (Some d) → fd_node d ≠ vn_id m) →
  opens_exist l ds → opens_exist (<[index := None]> l) ds.
Proof.
  intros Hm Hno H k d Hk. destruct (H k d Hk) as (i & x & Hx & Hid). exists i, x. split; [|done].
  rewrite list_lookup_insert_ne; [done|]. intros <-. rewrite Hm in Hx. injection Hx as <-.
  by apply (Hno k d Hk).
Qed.

(** A node that gets another parent. *)
Lemma nodes_wf_move l n next index m m' :
  nodes_wf l n next → l !! index = Some (Some m) → vn_id m' = vn_id m → vn_kind m' = vn_kind m →
  (∀ p, vn_parent m' = Some p →
     vn_kind m ≠ NkDirectory ∧ ∃ j d, l !! j = Some (Some d) ∧ vn_id d = p ∧ vn_kind d = NkDirectory) →
  nodes_wf (<[index := Some m']> l) n next.
Proof.
  intros [H1 H2 H3 H4 H5 H6 H7] Hm Hid Hk Hp. pose proof (lookup_lt_Some _ _ _ Hm) as Hlt.
  assert (Hat : ∀ i x, <[index := Some m']> l !! i = Some (Some x) →
                  ∃ y, l !! i = Some (Some y) ∧ vn_id x = vn_id y ∧ vn_kind x = vn_kind y ∧
                       ((i = index ∧ x = m') ∨ x = y)).
  { intros i x Hi. apply list_lookup_insert_Some in Hi as [(<- & [= ->] & _)|[_ Hi]];
      [exists m|exists x]; split_and!; auto. }
  assert (Hto : ∀ j d, l !! j = Some (Some d) → vn_kind d = NkDirectory →
                  ∃ d', <[index := Some m']> l !! j = Some (Some d') ∧ vn_id d' = vn_id d ∧ vn_kind d' = NkDirectory).
  { intros j d Hd Hkd. destruct (decide (j = index)) as [->|Hne].
    - exists m'. rewrite list_lookup_insert_eq by done. rewrite Hm in Hd. injection Hd as <-. split_and!; congruence.
    - exists d. by rewrite list_lookup_insert_ne. }
  split.
  - by rewrite length_insert.
  - done.
  - intros i x (y & Hy & _)%Hat. eauto.
  - intros i x (y & Hy & -> & _)%Hat. eauto.
  - intros i j x y (x' & Hx & Ex & _)%Hat (y' & Hy & Ey & _)%Hat Heq. eapply H5; [done..|congruence].
  - intros i x p (y & Hy & Ey & Eky & [[-> ->]| ->])%Hat Hxp.
    + destruct (Hp p Hxp) as (_ & j & d & Hd & <- & Hkd). destruct (Hto j d Hd Hkd) as (d' & ? & ? & ?). eauto.
    + destruct (H6 i y p Hy Hxp) as (j & d & Hd & <- & Hkd). destruct (Hto j d Hd Hkd) as (d' & ? & ? & ?). eauto.
  - intros i x p (y & Hy & Ey & Eky & [[-> ->]| ->])%Hat Hkx Hxp; [|eauto].
    destruct (Hp p Hxp) as (Hnd & _). congruence.
Qed.

(** * Primitive operations *)

(** An operation that changes no shape, no count and opens nothing. *)
Lemma keeps_same v v' :
  same_nodes (vfs_nodes v) (vfs_nodes v') → vfs_node_count v' = vfs_node_count v →
  next_vfs_node_id v' = next_vfs_node_id v →
  vfs_mem_file_count v' = vfs_mem_file_count v → length (vfs_mem_files v') = length (vfs_mem_files v) →
  vertexfs_file_count v' = vertexfs_file_count v → length (vertexfs_files v') = length (vertexfs_files v) →
  (∀ k d, open_file_descriptions v' !! k = Some (Some d) →
     ∃ k' d', open_file_descriptions v !! k' = Some (Some d') ∧ fd_node d' = fd_node d) →
  keeps v v'.
Proof.
  intros Hs Hc Hn H1 H2 H3 H4 Hd. split; [unfold ids_ok; lia|]. intros _ _ [Hw1 Hw2 Hw3]. split.
  - rewrite Hc, Hn. by eapply nodes_wf_same.
  - rewrite H1, H2, H3, H4. by eapply files_backed_same.
  - intros k d (k' & d' & Hk & <-)%Hd. by apply (opens_exist_same _ _ _ Hs Hw3 k').
Qed.

Lemma alter_description_from (f : OpenFileDescription → OpenFileDescription)
    (ds : list (option OpenFileDescription)) (i k : nat) d :
  (∀ d, fd_node (f d) = fd_node d) → alter (fmap f) i ds !! k = Some (Some d) →
  ∃ k' d', ds !! k' = Some (Some d') ∧ fd_node d' = fd_node d.
Proof.
  intros Hf. destruct (decide (i = k)) as [->|Hne]; [|rewrite list_lookup_alter_ne by done; eauto].
  rewrite list_lookup_alter_eq. destruct (ds !! k) as [[d'|]|] eqn:Hk; [|done..]. cbn. intros [= <-].
  exists k, d'. by rewrite Hf.
Qed.

Lemma node_index_Some v id i :
  vfs_node_index v id = Some i → ∃ m, vfs_nodes v !! i = Some (Some m) ∧ vn_id m = id.
Proof.
  intros (_ & (x & Hx & Hp) & _)%first_index_Some. destruct x as [m|]; [|done]. exists m. split; [done|]. lia.
Qed.

Lemma has_children_false v id i c :
  nodes_wf (vfs_nodes v) (vfs_node_count v) (next_vfs_node_id v) → vfs_node_has_children v id = false →
  vfs_nodes v !! i = Some (Some c) → vn_parent c ≠ Some id.
Proof.
  intros Hwf. unfold vfs_node_has_children, any_node. intros Hf Hi Hp.
  destruct (first_index _ _ _) as [j|] eqn:Hj; [done|].
  eapply (proj1 (first_index_None _ _ _)) in Hj; [|by eapply nw_used|exact Hi].
  cbn in Hj. by apply bool_decide_eq_false in Hj.
Qed.

Lemma has_open_false v id k d :
  vfs_node_has_open_description v id = false → open_file_descriptions v !! k = Some (Some d) → fd_node d ≠ id.
Proof.
  unfold vfs_node_has_open_description. intros Hf Hk.
  destruct (first_index _ _ _) as [j|] eqn:Hj; [done|].
  eapply (proj1 (first_index_None _ _ _)) in Hj; [|by eapply lookup_lt_Some|exact Hk]. cbn in Hj. lia.
Qed.

Lemma has_open_false_intro v id :
  (∀ k d, open_file_descriptions v !! k = Some (Some d) → fd_node d ≠ id) → vfs_node_has_open_description v id = false.
Proof.
  intros H. unfold vfs_node_has_open_description.
  destruct (first_index _ _ _) as [j|] eqn:Hj; [|done].
  apply first_index_Some in Hj as (_ & (x & Hx & Hp) & _). destruct x as [d|]; [|done].
  apply H in Hx. lia.
Qed.

(** A node whose children are gone, and that nothing has open. *)
Lemma keeps_remove v id :
  vfs_node_has_open_description v id = false →
  (tree_wf v → ∀ i c, vfs_nodes v !! i = Some (Some c) → vn_parent c ≠ Some id) →
  keeps v (remove_vfs_node v id).2.
Proof.
  intros Ho Hleaf. unfold remove_vfs_node. destruct (vfs_node_index v id) as [i|] eqn:Hi; [|done].
  apply node_index_Some in Hi as (m & Hm & <-). split; [done|]. intros _ _ Hwf. pose proof Hwf as [H1 H2 H3]. split.
  - eapply nodes_wf_remove; [done|done|]. by apply Hleaf.
  - by apply files_backed_remove.
  - eapply opens_exist_remove; [done| |done]. intros k d. by apply has_open_false.
Qed.

Lemma file_is_leaf v i m p :
  tree_wf v → vfs_nodes v !! i = Some (Some m) → vn_kind m = NkRegularFile →
  ∀ j c, vfs_nodes v !! j = Some (Some c) → vn_parent c = Some p → p ≠ vn_id m.
Proof.
  intros [H _ _] Hm Hk j c Hc Hp ->. destruct (nw_parent _ _ _ H j c _ Hc Hp) as (j' & d & Hd & Hid & Hkd).
  rewrite (nw_unique _ _ _ H j' i d m Hd Hm Hid) in Hd. congruence.
Qed.

Lemma keeps_detach v id : keeps v (detach_vfs_node v id).2.
Proof.
  unfold detach_vfs_node. destruct (vfs_node_index v id) as [i|] eqn:Hi; [|done].
  apply node_index_Some in Hi as (m & Hm & <-). cbn. rewrite Hm. cbn. split; [done|]. intros _ _ [H1 H2 H3].
  set (m' := m <| vn_parent := None |> <| vn_metadata_version := _ |>).
  assert (Hat : ∀ j x, <[i := Some m']> (vfs_nodes v) !! j = Some (Some x) →
    ∃ y, vfs_nodes v !! j = Some (Some y) ∧ vn_id x = vn_id y ∧ vn_kind x = vn_kind y ∧ vn_backing x = vn_backing y).
  { intros j x Hj. apply list_lookup_insert_Some in Hj as [(<- & [= <-] & _)|[_ Hj]]; eauto. }
  split.
  - apply (nodes_wf_move _ _ _ i m m'); try done.
  - destruct H2 as [F1 F2 F3 F4]. split; [done|done|..]; intros j x f (y & Hy & _ & -> & ->)%Hat; eauto.
  - intros k d (j & x & Hx & Hid)%H3. destruct (decide (j = i)) as [->|Hne].
    + exists i, m'. cbn. rewrite list_lookup_insert_eq by (by eapply lookup_lt_Some).
      rewrite Hm in Hx. injection Hx as <-. done.
    + exists j, x. cbn. by rewrite list_lookup_insert_ne.
Qed.

(** A node under an existing directory gets another parent; it is not a
    directory itself. *)
Lemma keeps_rename v id new_parent name :
  (tree_wf v → ∃ j d, vfs_nodes v !! j = Some (Some d) ∧ vn_id d = new_parent ∧ vn_kind d = NkDirectory) →
  (tree_wf v → ∀ i m, vfs_nodes v !! i = Some (Some m) → vn_id m = id → vn_kind m ≠ NkDirectory) →
  keeps v (rename_vfs_node v id new_parent name).2.
Proof.
  intros Hp Hk. unfold rename_vfs_node. destruct (vfs_node_index v id) as [i|] eqn:Hi; [|done].
  apply node_index_Some in Hi as (m & Hm & Hid). cbn. rewrite Hm. cbn. split; [done|]. intros _ _ Hwf.
  pose proof Hwf as [H1 H2 H3]. set (m' := m <| vn_parent := _ |> <| vn_name := _ |> <| vn_metadata_version := _ |>).
  assert (Hat : ∀ j x, <[i := Some m']> (vfs_nodes v) !! j = Some (Some x) →
    ∃ y, vfs_nodes v !! j = Some (Some y) ∧ vn_id x = vn_id y ∧ vn_kind x = vn_kind y ∧ vn_backing x = vn_backing y).
  { intros j x Hj. apply list_lookup_insert_Some in Hj as [(<- & [= <-] & _)|[_ Hj]]; eauto. }
  split.
  - apply (nodes_wf_move _ _ _ i m m'); try done. intros p [= <-]. split; [by eapply Hk|by apply Hp].
  - destruct H2 as [F1 F2 F3 F4]. split; [done|done|..]; intros j x f (y & Hy & _ & -> & ->)%Hat; eauto.
  - intros k d (j & x & Hx & Hxid)%H3. destruct (decide (j = i)) as [->|Hne].
    + exists i, m'. cbn. rewrite list_lookup_insert_eq by (by eapply lookup_lt_Some).
      rewrite Hm in Hx. injection Hx as <-. done.
    + exists j, x. cbn. by rewrite list_lookup_insert_ne.
Qed.

Lemma keeps_touch_memory v f : keeps v (touch_vfs_memory_file_nodes v f).2.
Proof.
  unfold touch_vfs_memory_file_nodes. destruct (negb _); [done|]. cbn. apply keeps_same; cbn; eauto.
  apply same_nodes_map. intros m. by destruct (backed_by_memory f m).
Qed.

Lemma keeps_touch_vertexfs v f : keeps v (touch_vertexfs_file_nodes v f).2.
Proof.
  unfold touch_vertexfs_file_nodes. destruct (negb _); [done|]. cbn. apply keeps_same; cbn; eauto.
  apply same_nodes_map. intros m. by destruct (backed_by_vertexfs f m).
Qed.

(** A new node below an existing directory, with storage if it is a file. *)
Lemma keeps_add v name parent kind backing source :
  (tree_wf v → ∀ p, parent = Some p → ∃ j d, vfs_nodes v !! j = Some (Some d) ∧ vn_id d = p ∧ vn_kind d = NkDirectory) →
  (tree_wf v → ∀ f, backing = VbMemoryFile f → kind = NkRegularFile ∧ f < vfs_mem_file_count v) →
  (tree_wf v → ∀ f, backing = VbVertexFsFile f → kind = NkRegularFile ∧ f < vertexfs_file_count v) →
  keeps v (add_vfs_node_with_name v name parent kind backing source).2.
Proof.
  intros Hp Hm Hv. unfold add_vfs_node_with_name. destruct (first_index _ _ _) as [slot|] eqn:Hs; [|done].
  apply first_index_Some in Hs as (_ & (x & Hx & Hnone) & _). destruct x; [done|]. cbn.
  split; unfold ids_ok; cbn; [unfold sat_add; lia|]. intros Hids Hlt Hwf. pose proof Hwf as [H1 H2 H3]. split; cbn.
  - replace (sat_add (next_vfs_node_id v) 1) with (next_vfs_node_id v + 1)%Z by (unfold sat_add in *; lia).
    apply nodes_wf_add; cbn; auto; lia.
  - apply files_backed_add; cbn; auto.
  - by apply opens_exist_add.
Qed.

(** The node that was just added. *)
Lemma added_node v name parent kind backing source id v' :
  add_vfs_node_with_name v name parent kind backing source = (Ok id, v') →
  id = next_vfs_node_id v ∧ ∃ i m, vfs_nodes v' !! i = Some (Some m) ∧ vn_id m = id ∧ vn_kind m = kind ∧
    vn_backing m = backing ∧ vn_parent m = parent.
Proof.
  unfold add_vfs_node_with_name. destruct (first_index _ _ _) as [slot|] eqn:Hs; [|done].
  apply first_index_lt in Hs as [_ Hs]. cbn. intros [= <- <-]. split; [done|]. cbn.
  eexists slot, _. rewrite list_lookup_insert_eq by done. done.
Qed.

(** ** Storage *)

Lemma keeps_add_memory v : keeps v (add_vfs_empty_memory_file v).2.
Proof.
  unfold add_vfs_empty_memory_file. destruct (first_index _ _ _) as [i|] eqn:Hi; [|done]. cbn.
  apply first_index_lt in Hi as [Hi _]. split; [done|]. intros _ _ [H1 H2 H3].
  split; cbn; [done| |done]. rewrite length_insert. destruct H2 as [F1 F2 F3 F4].
  split; [destruct (Nat.leb_spec (vfs_mem_file_count v) i); lia|done| |done].
  intros j m f Hj Hb. destruct (F3 j m f Hj Hb). split; [done|]. destruct (Nat.leb_spec (vfs_mem_file_count v) i); lia.
Qed.

Lemma added_memory v i v' :
  add_vfs_empty_memory_file v = (Ok i, v') → i < vfs_mem_file_count v' ∧ vfs_nodes v' = vfs_nodes v ∧
  next_vfs_node_id v' = next_vfs_node_id v.
Proof.
  unfold add_vfs_empty_memory_file. destruct (first_index _ _ _) as [j|]; [|done]. intros [= <- <-]. cbn.
  split; [|done]. destruct (Nat.leb_spec (vfs_mem_file_count v) j); lia.
Qed.

(** The count never falls below a file in use. *)
Lemma trim_unused_le used n : trim_unused used n ≤ n.
Proof. induction n as [|n IH]; cbn; [done|]. destruct (used n); lia. Qed.

Lemma trim_unused_above used n f : f < n → used f = true → f < trim_unused used n.
Proof.
  induction n as [|n IH]; cbn; [lia|]. intros Hf Hu. destruct (used n) eqn:Hn; [done|].
  apply IH; [|done]. destruct (decide (f = n)) as [->|]; [congruence|lia].
Qed.

Lemma any_node_true p v i m :
  nodes_wf (vfs_nodes v) (vfs_node_count v) (next_vfs_node_id v) → vfs_nodes v !! i = Some (Some m) → p m = true →
  any_node p v = true.
Proof.
  intros Hwf Hi Hp. unfold any_node. destruct (first_index _ _ _) as [j|] eqn:Hj; [done|].
  eapply (proj1 (first_index_None _ _ _)) in Hj; [|by eapply nw_used|exact Hi]. cbn in Hj. congruence.
Qed.

Lemma keeps_release_memory v f : keeps v (release_vfs_memory_file v f).2.
Proof.
  unfold release_vfs_memory_file. destruct (_ || _); [done|]. cbn. split; [done|]. intros _ _ [H1 H2 H3].
  split; cbn; [done| |done]. rewrite length_insert. destruct H2 as [F1 F2 F3 F4]. set (used := vfs_memory_file_in_use _).
  split; [pose proof (trim_unused_le used (vfs_mem_file_count v)); lia|done| |done].
  intros j m g Hj Hb. destruct (F3 j m g Hj Hb). split; [done|]. apply trim_unused_above; [done|].
  apply (any_node_true _ _ j m); [done|done|]. unfold backed_by_memory. by rewrite Hb, Nat.eqb_refl.
Qed.

Lemma keeps_release_vertexfs v f : keeps v (release_vertexfs_file v f).2.
Proof.
  unfold release_vertexfs_file. destruct (_ || _); [done|]. cbn. split; [done|]. intros _ _ [H1 H2 H3].
  split; cbn; [done| |done]. rewrite length_insert. destruct H2 as [F1 F2 F3 F4]. set (used := vertexfs_file_in_use _).
  split; [done|pose proof (trim_unused_le used (vertexfs_file_count v)); lia|done|].
  intros j m g Hj Hb. destruct (F4 j m g Hj Hb). split; [done|]. apply trim_unused_above; [done|].
  apply (any_node_true _ _ j m); [done|done|]. unfold backed_by_vertexfs. by rewrite Hb, Nat.eqb_refl.
Qed.

Lemma add_empty_vertexfs_cases name inode v :
  (∃ e, add_empty_vertexfs_file name inode v = (Err e, v)) ∨
  ∃ i free, i < length (vertexfs_files v) ∧ add_empty_vertexfs_file name inode v =
    (Ok i, (invalidate_vertexfs_page_cache v i)
       <| vertexfs_files ::= <[i := vertexfs_file_empty <| vf_vfs_name := name |> <| vf_inode_id := free.1 |>
            <| vf_parent_inode_id := inode |> <| vf_first_sector := free.2 |> <| vf_sector_count := 1%Z |>]> |>
       <| vertexfs_file_count ::= λ n, if n <=? i then S i else n |>).
Proof.
  unfold add_empty_vertexfs_file, rbind, rguard, rget, rlift, rmodify, rret.
  destruct (negb _); [|left; eauto]. destruct (vertexfs_image_loaded v); [|left; eauto].
  destruct (free_dynamic_inode v 0 MAX_VERTEXFS_FILES) as [[free|]|]; cbn; [|left; eauto..].
  destruct (list_find _ _) as [[k i]|] eqn:Hi; cbn; [|left; eauto].
  right. exists i, free. split; [|done]. apply list_find_Some in Hi as (Hi & _).
  apply lookup_seq in Hi as [-> ?]. done.
Qed.

Lemma keeps_add_vertexfs v name inode : keeps v (add_empty_vertexfs_file name inode v).2.
Proof.
  destruct (add_empty_vertexfs_cases name inode v) as [[e ->]|(i & free & Hi & ->)]; [done|]. cbn [snd].
  split; [done|]. intros _ _ [H1 H2 H3]. split; [done| |done]. cbn. rewrite length_insert.
  destruct H2 as [F1 F2 F3 F4]. split; [done|destruct (Nat.leb_spec (vertexfs_file_count v) i); lia|done|].
  intros j m f Hj Hb. destruct (F4 j m f Hj Hb). split; [done|]. destruct (Nat.leb_spec (vertexfs_file_count v) i); lia.
Qed.

Lemma added_vertexfs v name inode i v' :
  add_empty_vertexfs_file name inode v = (Ok i, v') → i < vertexfs_file_count v' ∧ vfs_nodes v' = vfs_nodes v ∧
  next_vfs_node_id v' = next_vfs_node_id v.
Proof.
  destruct (add_empty_vertexfs_cases name inode v) as [[e ->]|(j & free & Hj & ->)]; [done|].
  intros [= <- <-]. split; [|done]. cbn. destruct (Nat.leb_spec (vertexfs_file_count v) j); lia.
Qed.

(** ** Descriptions *)

Lemma keeps_open v node rights flags owner cap :
  (tree_wf v → ∃ i m, vfs_nodes v !! i = Some (Some m) ∧ vn_id m = node) →
  keeps v (open_file_description v node rights flags owner cap).2.
Proof.
  intros Hn. unfold open_file_description. destruct (first_index _ _ _) as [i|]; [|done]. cbn.
  split; [done|]. intros _ _ Hwf. pose proof Hwf as [H1 H2 H3]. split; [done|done|]. cbn.
  intros k d Hk. apply list_lookup_insert_Some in Hk as [(_ & [= <-] & _)|[_ Hk]]; [by apply Hn|by apply (H3 k)].
Qed.

Lemma keeps_drop v k :
  keeps v (v <| open_file_descriptions ::= <[k := None]> |>).
Proof.
  apply keeps_same; cbn; try done. intros j d Hj.
  apply list_lookup_insert_Some in Hj as [(_ & ? & _)|[_ Hj]]; [done|]. eauto.
Qed.

Lemma keeps_retain v id : keeps v (retain_file_description v id).2.
Proof.
  unfold retain_file_description. destruct (file_description_index v id) as [i|] eqn:Hi; [|done].
  destruct (open_file_descriptions v !! i) as [[d|]|] eqn:Hd; cbn; [|done..].
  destruct (checked_add _ _) as [n|]; [|done]. apply keeps_same; cbn; try done. intros j x Hj.
  apply list_lookup_insert_Some in Hj as [(<- & [= <-] & _)|[_ Hj]]; eauto.
Qed.

(** A change that touches no field the invariant mentions. *)
Lemma keeps_frame v v' :
  vfs_nodes v' = vfs_nodes v → vfs_node_count v' = vfs_node_count v → next_vfs_node_id v' = next_vfs_node_id v →
  vfs_mem_file_count v' = vfs_mem_file_count v → length (vfs_mem_files v') = length (vfs_mem_files v) →
  vertexfs_file_count v' = vertexfs_file_count v → length (vertexfs_files v') = length (vertexfs_files v) →
  open_file_descriptions v' = open_file_descriptions v → keeps v v'.
Proof. intros Hl ? ? ? ? ? ? Hd. apply keeps_same; try done; rewrite ?Hl, ?Hd; [done|eauto]. Qed.

Lemma keeps_locks v id : keeps v (release_vfs_locks_for_description v id).
Proof. unfold release_vfs_locks_for_description, release_vfs_lock. cbn. by apply keeps_frame. Qed.

Lemma keeps_event v parent kind name : keeps v (record_vfs_event v parent kind name).
Proof.
  unfold record_vfs_event, allocate_vfs_metadata_version. case_match; [by apply keeps_frame|]. apply keeps_same; cbn; try done.
  intros k d. rewrite lookup_map_upto. case_bool_decide; [|eauto].
  destruct (open_file_descriptions v !! k) as [[x|]|] eqn:Hk; cbn; [|done..]. intros [= <-].
  exists k, x. split; [done|]. by case_match.
Qed.

(** A node of the table, up to its name and version. *)
Definition stays (v : VfsState) (m : VfsNode) : Prop :=
  ∃ i x, vfs_nodes v !! i = Some (Some x) ∧ shape x = shape m.

Lemma in_tree_stays v m : in_tree v m → stays v m.
Proof. intros (i & Hi). by exists i, m. Qed.

(** A file node without a name that nothing has open can go, with its storage. *)
Lemma keeps_remove_file (v : VfsState) (m : VfsNode) (f : nat)
    (release : VfsState → nat → Result IpcError unit * VfsState) :
  stays v m → vfs_node_has_open_description v (vn_id m) = false →
  (vn_backing m = VbMemoryFile f ∨ vn_backing m = VbVertexFsFile f) → (∀ v', keeps v' (release v' f).2) →
  keeps v (release (remove_vfs_node v (vn_id m)).2 f).2.
Proof.
  intros (i & x & Hx & Heq) Ho Hb Hrel. injection Heq as Hid _ _ Hbk. etrans; [|apply Hrel].
  apply keeps_remove; [done|]. intros Hwf j c Hc Hp.
  assert (Hk : vn_kind x = NkRegularFile).
  { destruct (tw_files v Hwf) as [_ _ F3 F4]. rewrite <-Hbk in Hb.
    destruct Hb as [Hb|Hb]; [by destruct (F3 i x f Hx Hb)|by destruct (F4 i x f Hx Hb)]. }
  by eapply (file_is_leaf v i x _ Hwf Hx Hk).
Qed.

Lemma keeps_reap v id : keeps v (reap_unlinked_vfs_node_if_idle v id).
Proof.
  unfold reap_unlinked_vfs_node_if_idle. destruct (vfs_node_has_open_description v id) eqn:Ho; [done|].
  destruct (vfs_node v id) as [m|] eqn:Hm; [|done]. apply vfs_node_Some in Hm as (i & Hm & <-).
  destruct (vn_parent m); [done|]. destruct (vn_backing m) as [| | | | |f|f| | | |] eqn:Hb; try done.
  - apply (keeps_remove_file v m f release_vfs_memory_file); [by exists i, m|done|by left|intros v'; apply keeps_release_memory].
  - apply (keeps_remove_file v m f release_vertexfs_file); [by exists i, m|done|by right|intros v'; apply keeps_release_vertexfs].
Qed.

Lemma keeps_release_description v id : keeps v (release_file_description v id).2.
Proof.
  unfold release_file_description. destruct (file_description_index v id) as [i|] eqn:Hi; [|done].
  destruct (open_file_descriptions v !! i) as [[d|]|] eqn:Hd; cbn; [|done..]. destruct (_ <=? _)%Z; cbn.
  - etrans; [apply (keeps_locks v id)|]. etrans; [apply (keeps_drop _ i)|]. apply keeps_reap.
  - apply keeps_same; cbn; try done. intros j x Hj.
    apply list_lookup_insert_Some in Hj as [(<- & [= <-] & _)|[_ Hj]]; eauto.
Qed.

Lemma keeps_release_from pid fuel v index : keeps v (release_descriptions_from v pid index fuel).
Proof.
  revert v index. induction fuel as [|fuel IH]; intros v index; cbn; [done|]. etrans; [|apply IH].
  destruct (mjoin _) as [d|]; [|done]. destruct (_ =? _)%Z; [|done].
  etrans; [apply (keeps_drop v index)|apply keeps_reap].
Qed.

Lemma keeps_release_process v pid : keeps v (release_process_file_descriptions v pid).
Proof.
  unfold release_process_file_descriptions. etrans; [|apply keeps_release_from].
  unfold release_vfs_locks_for_process. by apply keeps_frame.
Qed.

Lemma keeps_acquire v d mode start len : keeps v (acquire_vfs_lock v d mode start len).2.
Proof. unfold acquire_vfs_lock. repeat case_match; cbn; try done; by apply keeps_frame. Qed.

(** Taking back a file that was just created. *)
Lemma keeps_release_created v created :
  (∀ m, created = Some m → stays v m) → keeps v (release_created_vfs_memory_node created v).
Proof.
  intros Hin. unfold release_created_vfs_memory_node. destruct created as [m|]; [|done]. specialize (Hin m eq_refl).
  destruct (vfs_node_has_open_description v (vn_id m)) eqn:Ho; [done|].
  destruct (vn_backing m) as [| | | | |f|f| | | |] eqn:Hb; try done.
  - apply (keeps_remove_file v m f release_vfs_memory_file); [done|done|by left|intros v'; apply keeps_release_memory].
  - apply (keeps_remove_file v m f release_vertexfs_file); [done|done|by right|intros v'; apply keeps_release_vertexfs].
Qed.

(** * Calls *)

(** A call that leaves the invariant intact, from a state; a call that changes
    nothing at all. *)
Definition kept {A} (c : M RuntimeState IpcError A) (rt : RuntimeState) : Prop := keeps (rt_vfs rt) (rt_vfs (c rt).2).
Definition silent {A} (c : M RuntimeState IpcError A) : Prop := ∀ rt, (c rt).2 = rt.

Create HintDb vfs_tree.

Section calls.
Context {A B : Type}.
Implicit Types (c : M RuntimeState IpcError A) (k : A → M RuntimeState IpcError B).

Lemma kept_bind c k rt :
  kept c rt → (∀ a rt', c rt = (Ok a, rt') → kept (k a) rt') → kept (rbind c k) rt.
Proof.
  unfold kept, rbind. intros Hc Hk. destruct (c rt) as [[a|e] rt'] eqn:E; [|done]. etrans; [exact Hc|by apply Hk].
Qed.

Lemma kept_silent_bind c k rt :
  silent c → (∀ a, c rt = (Ok a, rt) → kept (k a) rt) → kept (rbind c k) rt.
Proof.
  unfold kept, rbind. intros Hc Hk. specialize (Hc rt). destruct (c rt) as [[a|e] rt'] eqn:E; cbn in Hc; subst; [|done].
  by apply Hk.
Qed.

Lemma silent_kept c rt : silent c → kept c rt.
Proof. unfold kept. by intros ->. Qed.

Lemma rt_silent_bind c k : silent c → (∀ a, silent (k a)) → silent (rbind c k).
Proof.
  unfold rbind. intros Hc Hk rt. specialize (Hc rt). destruct (c rt) as [[a|e] rt']; cbn in Hc; subst; [|done].
  apply Hk.
Qed.

Lemma rt_silent_lift r : silent (rlift r : M RuntimeState IpcError A).
Proof. done. Qed.
Lemma rt_silent_ret a : silent (rret a : M RuntimeState IpcError A).
Proof. done. Qed.
Lemma silent_fail e : silent (rfail e : M RuntimeState IpcError A).
Proof. done. Qed.
Lemma silent_gets f : silent (rgets f : M RuntimeState IpcError A).
Proof. done. Qed.
End calls.

Lemma silent_get : silent (rget : M RuntimeState IpcError RuntimeState).
Proof. done. Qed.
Lemma rt_silent_guard b e : silent (rguard b e : M RuntimeState IpcError unit).
Proof. intros rt. unfold rguard. by destruct b. Qed.
#[export] Hint Resolve rt_silent_lift rt_silent_ret silent_fail silent_gets silent_get rt_silent_guard : vfs_tree.
#[export] Hint Extern 1 (silent (rbind _ _)) => (apply rt_silent_bind; [|intros ?]) : vfs_tree.

Lemma silent_lookup slot right : silent (lookup_capability slot right).
Proof. unfold lookup_capability. auto 20 with vfs_tree. Qed.
#[export] Hint Resolve silent_lookup : vfs_tree.

Lemma silent_resolver slot : silent (lookup_resolver slot).
Proof. intros rt. unfold lookup_resolver. pose proof (silent_lookup slot RIGHT_RESOLVE rt) as H. by destruct (lookup_capability _ _ rt). Qed.
Lemma silent_mount_root : silent current_process_mount_root.
Proof. unfold current_process_mount_root. auto with vfs_tree. Qed.
#[export] Hint Resolve silent_resolver silent_mount_root : vfs_tree.
Lemma silent_resolve path : silent (resolve_process_vfs_path path).
Proof. unfold resolve_process_vfs_path. destruct (bytes_eqb path [slash]); auto 20 with vfs_tree. Qed.
#[export] Hint Resolve silent_resolve : vfs_tree.
Lemma silent_resolve_or_root path : silent (resolve_or_root path).
Proof. unfold resolve_or_root. auto with vfs_tree. Qed.
#[export] Hint Resolve silent_resolve_or_root : vfs_tree.
Lemma rt_silent_authority cap path : silent (resolve_vfs_root_authority cap path).
Proof. unfold resolve_vfs_root_authority. auto 20 with vfs_tree. Qed.
Lemma silent_read_only path : silent (vfs_request_path_is_read_only path).
Proof. unfold vfs_request_path_is_read_only. auto 20 with vfs_tree. Qed.
Lemma silent_node_from_cap cap path : silent (resolve_vfs_node_from_cap cap path).
Proof.
  unfold resolve_vfs_node_from_cap. apply rt_silent_bind; [apply silent_get|]. intros rt.
  destruct (vfs_node_for_store_object _ _); [auto 20 with vfs_tree|].
  destruct (get_vfs_root _ _); auto 20 with vfs_tree.
Qed.
Lemma silent_file_handle handle : silent (current_file_handle handle).
Proof. unfold current_file_handle. auto 20 with vfs_tree. Qed.
#[export] Hint Resolve rt_silent_authority silent_read_only silent_node_from_cap silent_file_handle : vfs_tree.
Lemma silent_open_file handle : silent (current_open_file handle).
Proof. unfold current_open_file. auto 20 with vfs_tree. Qed.
#[export] Hint Resolve silent_open_file : vfs_tree.

(** Run the checks at the head of a call: a call that changes nothing, and the
    fact its success gives. *)
Ltac checks :=
  repeat match goal with
  | |- kept (rbind _ _) _ => apply kept_silent_bind; [by eauto 20 with vfs_tree|]; intros ? ?
  | H : rget ?rt = (Ok _, _) |- _ => injection H as <-
  | H : rguard ?b _ ?rt = (Ok _, _) |- _ => apply rguard_ok in H as (H & _ & _)
  | H : rlift _ ?rt = (Ok _, _) |- _ => apply rlift_ok in H as [H _]
  | H : ok_or _ _ = Ok _ |- _ => apply ok_or_ok in H
  | H : bool_decide _ = true |- _ => apply bool_decide_eq_true in H
  end.

Lemma kept_call {E A} (conv : E → IpcError) (c : M VfsState E A) rt :
  keeps (rt_vfs rt) (c (rt_vfs rt)).2 → kept (vfs_call conv c) rt.
Proof. unfold kept, vfs_call. by destruct (c (rt_vfs rt)). Qed.
Lemma kept_modify f rt : keeps (rt_vfs rt) (f (rt_vfs rt)) → kept (vfs_modify f) rt.
Proof. done. Qed.
Lemma kept_ignore {A} (c : M RuntimeState IpcError A) rt : kept c rt → kept (ignore c) rt.
Proof. done. Qed.

Lemma kept_parent_event node kind rt : kept (record_parent_event node kind) rt.
Proof. unfold record_parent_event. destruct (vn_parent node); [apply kept_modify, keeps_event|done]. Qed.

(** ** Creation *)

Lemma silent_prepare cap path required : silent (prepare_create cap path required).
Proof. unfold prepare_create; auto 40 with vfs_tree. Qed.
#[export] Hint Resolve silent_prepare : vfs_tree.

Lemma prepare_create_ok cap path required rt parent name available rt' :
  prepare_create cap path required rt = (Ok (parent, name, available), rt') →
  rt' = rt ∧ in_tree (rt_vfs rt) parent ∧ vn_kind parent = NkDirectory.
Proof.
  intros H. pose proof (silent_prepare cap path required rt) as Hrt. rewrite H in Hrt. cbn in Hrt. subst. split; [done|].
  unfold prepare_create in H. run_ok H.
  repeat match goal with
  | H : resolve_process_vfs_path _ _ = (_, ?r) |- _ => pose proof (silent_resolve _ _) as E; rewrite H in E; cbn in E; subst r; clear H
  | H : resolve_vfs_root_authority _ _ _ = (_, ?r) |- _ => pose proof (rt_silent_authority _ _ _) as E; rewrite H in E; cbn in E; subst r; clear H
  end.
  simplify_eq. split; [by eapply by_path_in_tree|].
  match goal with H : bool_decide (vn_kind _ = NkDirectory) = true |- _ => by apply bool_decide_eq_true in H end.
Qed.

(** A file node with its storage; the storage is released when there is no room
    for the node. *)
Lemma kept_add_file name parent backing release rt :
  in_tree (rt_vfs rt) parent → vn_kind parent = NkDirectory →
  (∀ f, backing = VbMemoryFile f → f < vfs_mem_file_count (rt_vfs rt)) →
  (∀ f, backing = VbVertexFsFile f → f < vertexfs_file_count (rt_vfs rt)) →
  (∀ v, keeps v (release v).2) → kept (add_file_node name parent backing release) rt.
Proof.
  intros (i & Hi) Hk Hm Hv Hr. unfold kept, add_file_node.
  destruct (add_vfs_node_with_name (rt_vfs rt) name _ _ _ _) as [[id|e] v] eqn:Ha; cbn;
    [|etrans; [|apply Hr]].
  all: replace v with (add_vfs_node_with_name (rt_vfs rt) name (Some (vn_id parent)) NkRegularFile backing
                         (vn_mount_source parent)).2 by (by rewrite Ha).
  all: apply keeps_add; [intros _ p [= <-]; eauto|intros _ f Hf; split; [done|by apply Hm]|
                         intros _ f Hf; split; [done|by apply Hv]].
Qed.

Lemma kept_create_file cap path required rt : kept (vfs_create_memory_file_node cap path required) rt.
Proof.
  unfold vfs_create_memory_file_node. apply kept_silent_bind; [auto with vfs_tree|].
  intros [[parent name] available] (_ & Hin & Hk)%prepare_create_ok. apply kept_bind.
  - destruct (str_eqb _ _).
    + checks. apply kept_bind; [apply kept_call, keeps_add_vertexfs|]. intros f rt' Hf.
      unfold vfs_call in Hf. destruct (add_empty_vertexfs_file _ _ _) as [r v] eqn:Ha. injection Hf as Hr <-.
      destruct r as [g|]; cbn in Hr; simplify_eq. apply added_vertexfs in Ha as (Hlt & Hn & _).
      apply kept_add_file; cbn; [|done|done|by intros ? [= <-]|intros v'; apply keeps_release_vertexfs].
      unfold in_tree. by rewrite Hn.
    + apply kept_bind; [apply kept_call, keeps_add_memory|]. intros f rt' Hf.
      unfold vfs_call in Hf. destruct (add_vfs_empty_memory_file _) as [r v] eqn:Ha. injection Hf as Hr <-.
      destruct r as [g|]; cbn in Hr; simplify_eq. apply added_memory in Ha as (Hlt & Hn & _).
      apply kept_add_file; cbn; [|done|by intros ? [= <-]|done|intros v'; apply keeps_release_memory].
      unfold in_tree. by rewrite Hn.
  - intros id rt' _. apply silent_kept. auto 20 with vfs_tree.
Qed.

(** The node a creation returns is in the table. *)
Lemma created_in_tree cap path required rt node available rt' :
  vfs_create_memory_file_node cap path required rt = (Ok (node, available), rt') → in_tree (rt_vfs rt') node.
Proof.
  unfold vfs_create_memory_file_node. intros H. apply rbind_ok in H as ([[parent name] a] & rt1 & _ & H).
  apply rbind_ok in H as (id & rt2 & _ & H). apply rbind_ok in H as (rt3 & ? & Hg & H). injection Hg as <- <-.
  apply rbind_ok in H as (m & ? & [Hm ->]%rlift_ok & H). injection H as <- <- <-.
  apply ok_or_ok, vfs_node_Some in Hm as (i & Hi & _). by exists i.
Qed.

Lemma kept_create_directory cap path rt : kept (vfs_create_directory_node cap path) rt.
Proof.
  unfold vfs_create_directory_node. apply kept_silent_bind; [auto with vfs_tree|].
  intros [[parent name] available] (_ & (i & Hi) & Hk)%prepare_create_ok. apply kept_bind.
  - apply kept_call, keeps_add; [intros _ p [= <-]; eauto|done|done].
  - intros id rt' _. apply silent_kept. auto 20 with vfs_tree.
Qed.

(** ** Names *)

Lemma kept_create slot path rt : kept (vfs_create_path slot path) rt.
Proof.
  unfold vfs_create_path. checks. apply kept_bind; [apply kept_create_file|]. intros [m av] rt' _.
  apply kept_parent_event.
Qed.

Lemma kept_mkdir slot path rt : kept (vfs_mkdir_path slot path) rt.
Proof.
  unfold vfs_mkdir_path. checks. apply kept_bind; [apply kept_create_directory|]. intros m rt' _.
  apply kept_parent_event.
Qed.

Lemma kept_unlink_file node in_use touch release rt :
  in_tree (rt_vfs rt) node →
  (tree_wf (rt_vfs rt) → ∀ i c, vfs_nodes (rt_vfs rt) !! i = Some (Some c) → vn_parent c ≠ Some (vn_id node)) →
  (∀ v, keeps v (touch v).2) → (∀ v, keeps v (release v).2) → kept (unlink_file node in_use touch release) rt.
Proof.
  intros Hin Hleaf Ht Hr. unfold unlink_file. checks.
  destruct (vfs_node_has_open_description _ _) eqn:Ho.
  - apply kept_bind; [apply kept_call, keeps_detach|]. intros ? rt' _.
    apply kept_bind; [apply kept_call, Ht|]. by intros.
  - apply kept_bind; [by apply kept_call, keeps_remove|]. intros ? rt' _. checks. destruct (in_use _).
    + apply kept_bind; [apply kept_call, Ht|]. by intros.
    + apply kept_ignore, kept_call, Hr.
Qed.

Lemma kept_unlink slot path rt : kept (vfs_unlink_path slot path) rt.
Proof.
  unfold vfs_unlink_path. apply kept_silent_bind; [auto with vfs_tree|]. intros p _. checks.
  match goal with H : vfs_node_by_path _ _ = Some ?n |- _ => rename n into node; apply by_path_in_tree in H as Hin end.
  match goal with H : negb (vfs_node_has_children _ _) = true |- _ => apply negb_true_iff in H; rename H into Hc end.
  apply kept_bind; [|intros; apply kept_parent_event].
  assert (Hleaf : tree_wf (rt_vfs rt) → ∀ i c, vfs_nodes (rt_vfs rt) !! i = Some (Some c) → vn_parent c ≠ Some (vn_id node)).
  { intros [Hwf _ _] i c. by apply has_children_false. }
  destruct (vn_backing node); try done; apply kept_unlink_file; try done; intros v;
    auto using keeps_touch_memory, keeps_touch_vertexfs, keeps_release_memory, keeps_release_vertexfs.
Qed.

Lemma kept_rmdir slot path rt : kept (vfs_rmdir_path slot path) rt.
Proof.
  unfold vfs_rmdir_path. apply kept_silent_bind; [auto with vfs_tree|]. intros p _. checks.
  match goal with H : negb (_ || _) = true |- _ => apply negb_true_iff, orb_false_iff in H as [Hc Ho] end.
  apply kept_bind; [|intros; apply kept_parent_event]. apply kept_call, keeps_remove; [done|].
  intros [Hwf _ _] i c. by apply has_children_false.
Qed.

Lemma writable_is_file v i m :
  tree_wf v → vfs_nodes v !! i = Some (Some m) → is_writable_file (vn_backing m) = true → vn_kind m = NkRegularFile.
Proof.
  intros [_ [_ _ F3 F4] _] Hm. destruct (vn_backing m) as [| | | | |f|f| | | |] eqn:Hb; try done; intros _;
    [by destruct (F3 i m f Hm Hb)|by destruct (F4 i m f Hm Hb)].
Qed.

Lemma kept_rename slot old new rt : kept (vfs_rename_paths slot old new) rt.
Proof.
  unfold vfs_rename_paths. apply kept_silent_bind; [auto with vfs_tree|]. intros po _.
  apply kept_silent_bind; [auto with vfs_tree|]. intros pn _. checks.
  match goal with H : bool_decide _ && bool_decide _ = true |- _ => apply andb_true_iff in H as [_ Hk] end.
  apply bool_decide_eq_true in Hk.
  match goal with
  | Hp : vfs_node_by_path _ _ = Some ?np, Hk : vn_kind ?np = _ |- _ => apply by_path_in_tree in Hp as (ip & Hip)
  end.
  match goal with H : vfs_node_by_path _ _ = Some ?n |- _ =>
    match goal with W : is_writable_file (vn_backing n) = true |- _ => apply by_path_in_tree in H as (i & Hi); rename W into Hw end end.
  apply kept_bind.
  { apply kept_call, keeps_rename; [eauto|]. intros Hwf j m Hm Hid.
    assert (j = i) as -> by (eapply (nw_unique _ _ _ (tw_nodes _ Hwf)); eauto).
    rewrite Hi in Hm. injection Hm as <-. rewrite (writable_is_file _ _ _ Hwf Hi Hw). done. }
  intros ? rt' _. checks. apply kept_bind; [|intros; apply kept_modify, keeps_event].
  destruct (vn_backing _); try done.
  - case_match; [|done]. apply kept_bind; [apply kept_call, keeps_touch_memory|by intros].
  - apply kept_bind; [apply kept_call, keeps_touch_vertexfs|by intros].
Qed.

Lemma kept_link slot old new rt : kept (vfs_link_paths slot old new) rt.
Proof.
  unfold vfs_link_paths. apply kept_silent_bind; [auto with vfs_tree|]. intros po _.
  apply kept_silent_bind; [auto with vfs_tree|]. intros pn _. checks.
  match goal with
  | Hp : vfs_node_by_path _ _ = Some ?np, Hk : vn_kind ?np = _ |- _ => apply by_path_in_tree in Hp as (ip & Hip)
  end.
  match goal with H : vfs_node_by_path _ _ = Some ?n |- _ =>
    match goal with W : is_writable_file (vn_backing n) = true |- _ => apply by_path_in_tree in H as (i & Hi); rename W into Hw end end.
  apply kept_bind.
  { apply kept_call, keeps_add; [intros _ p [= <-]; eauto|..]; intros Hwf f Hf; split; try done.
    - by destruct (fb_memory _ _ _ _ _ (tw_files _ Hwf) i _ f Hi Hf).
    - by destruct (fb_vertexfs _ _ _ _ _ (tw_files _ Hwf) i _ f Hi Hf). }
  intros ? rt' _. apply kept_bind; [|intros; apply kept_modify, keeps_event].
  destruct (vn_backing _); try done.
  - apply kept_bind; [apply kept_call, keeps_touch_memory|by intros].
  - apply kept_bind; [apply kept_call, keeps_touch_vertexfs|by intros].
Qed.

(** ** Handles *)

Lemma kept_on_current {A} (f : Process → Result IpcError A * Process) rt : kept (on_current f) rt.
Proof. unfold kept, on_current. repeat case_match; done. Qed.

Lemma kept_set_offset id offset rt : kept (set_offset id offset) rt.
Proof.
  unfold kept, set_offset. destruct (file_description_index _ id) as [i|]; [|done]. cbn.
  apply keeps_same; cbn; try done. intros k d. by apply alter_description_from.
Qed.

Lemma kept_close handle rt : kept (vfs_close handle) rt.
Proof.
  unfold vfs_close. apply kept_bind; [apply kept_on_current|]. intros file rt' _.
  apply kept_call, keeps_release_description.
Qed.

Lemma kept_seek handle offset whence rt : kept (vfs_seek handle offset whence) rt.
Proof.
  unfold vfs_seek. apply kept_silent_bind; [auto with vfs_tree|]. intros [d m] _. checks.
  apply kept_bind; [apply kept_set_offset|by intros].
Qed.

Lemma file_description_at v id d :
  file_description v id = Some d → ∃ k, open_file_descriptions v !! k = Some (Some d).
Proof.
  unfold file_description. intros (k & _ & Hk)%bind_Some. exists k.
  by destruct (open_file_descriptions v !! k) as [[x|]|]; simplify_eq/=.
Qed.

Lemma kept_dup handle flags rt : kept (vfs_dup handle flags) rt.
Proof.
  unfold vfs_dup. checks.
  match goal with H : file_description _ _ = Some _ |- _ => apply file_description_at in H as (k & Hk) end.
  apply kept_bind.
  - destruct (any_flag _ _).
    + apply kept_bind; [apply kept_call, keeps_retain|by intros].
    + apply kept_bind; [|intros; apply kept_bind; [apply kept_set_offset|by intros]].
      apply kept_call, keeps_open. intros [_ _ Ho]. by eapply Ho.
  - intros new rt' _. unfold kept. pose proof (kept_on_current (λ p, open_file_handle p (mkFileHandle new)) rt') as Hcur.
    unfold kept in Hcur. destruct (on_current _ rt') as [[raw|e] rt1]; [done|]. etrans; [exact Hcur|].
    eapply (kept_bind (vfs_call id (λ v, release_file_description v new)) (λ _, rfail e));
      [apply kept_call, keeps_release_description|by intros].
Qed.

Lemma kept_lock handle flags range rt : kept (vfs_lock handle flags range) rt.
Proof.
  unfold vfs_lock. apply kept_silent_bind; [auto with vfs_tree|]. intros [[mode start] len] _.
  apply kept_silent_bind; [auto with vfs_tree|]. intros [d m] _. checks. apply kept_call, keeps_acquire.
Qed.

Lemma kept_unlock handle rt : kept (vfs_unlock handle) rt.
Proof.
  unfold vfs_unlock. checks. apply kept_call. unfold release_vfs_lock. by apply keeps_frame.
Qed.

Lemma kept_grant slot cap rt : rt_vfs (grant_to_current slot cap rt).2 = rt_vfs rt.
Proof. unfold grant_to_current. repeat case_match; done. Qed.

Lemma kept_derive_root slot path target rt : kept (vfs_derive_root_path slot path target) rt.
Proof.
  unfold vfs_derive_root_path. apply kept_silent_bind; [auto with vfs_tree|]. intros p _. checks.
  apply kept_bind; [unfold kept; by destruct (add_derived_vfs_root _ _)|]. intros o rt' _.
  apply kept_bind; [unfold kept, rt_new_capability; by destruct (new_capability _ _ _ _ _ _ _)|].
  intros cap rt2 _. unfold kept. pose proof (kept_grant target cap rt2) as Hg.
  destruct (grant_to_current target cap rt2). cbn in *. by rewrite Hg.
Qed.

(** ** Contents *)

(** A change of the contents of files, of the page cache and of its statistics. *)
Definition contents_only (v v' : VfsState) : Prop :=
  vfs_nodes v' = vfs_nodes v ∧ vfs_node_count v' = vfs_node_count v ∧ next_vfs_node_id v' = next_vfs_node_id v ∧
  vfs_mem_file_count v' = vfs_mem_file_count v ∧ length (vfs_mem_files v') = length (vfs_mem_files v) ∧
  vertexfs_file_count v' = vertexfs_file_count v ∧ length (vertexfs_files v') = length (vertexfs_files v) ∧
  open_file_descriptions v' = open_file_descriptions v.

#[export] Instance contents_only_preorder : PreOrder contents_only.
Proof. split; unfold contents_only; [done|]. intros v1 v2 v3 ? ?. intuition congruence. Qed.

Lemma contents_only_keeps v v' : contents_only v v' → keeps v v'.
Proof. intros (?&?&?&?&?&?&?&?). by apply keeps_frame. Qed.

Lemma contents_high_water v : contents_only v (update_vertexfs_page_cache_high_water v).
Proof. unfold update_vertexfs_page_cache_high_water. by case_match. Qed.

Lemma contents_modify_file v b f : contents_only v (modify_file v b f).
Proof. repeat split; cbn; try done. apply length_alter. Qed.

Lemma contents_modify_page v i f : contents_only v (modify_page v i f).
Proof. done. Qed.

Lemma contents_ensure_page mount b page v : contents_only v (ensure_vertexfs_page_cache_page mount b page v).2.
Proof.
  unfold ensure_vertexfs_page_cache_page, vertexfs_page_cache_victim.
  repeat case_match; simplify_eq/=; try done; (etrans; [|apply contents_high_water]); done.
Qed.

Lemma contents_ensure_dirty i v : contents_only v (ensure_vertexfs_page_cache_dirty i v).2.
Proof. unfold ensure_vertexfs_page_cache_dirty. by repeat case_match. Qed.

(** The change at the end of a write or a truncation, after its two checks. *)
Lemma contents_dirtied {A} mount b page v (g : VfsPageCachePage → VfsPageCachePage) f (a : A) :
  contents_only v
    (match ensure_vertexfs_page_cache_page mount b page v with
     | (Err e, v1) => (Err e, v1)
     | (Ok (i, _), v1) =>
         match ensure_vertexfs_page_cache_dirty i v1 with
         | (Err e, v2) => (Err e, v2)
         | (Ok _, v2) => (Ok a, update_vertexfs_page_cache_high_water (modify_file (modify_page v2 i g) b f))
         end
     end).2.
Proof.
  pose proof (contents_ensure_page mount b page v) as H1.
  destruct (ensure_vertexfs_page_cache_page mount b page v) as [[[i hit]|e] v1]; cbn in H1; [|done].
  pose proof (contents_ensure_dirty i v1) as H2.
  destruct (ensure_vertexfs_page_cache_dirty i v1) as [[u|e] v2]; cbn in H2; (etrans; [exact H1|]); [|done].
  etrans; [exact H2|]. cbn. etrans; [|apply contents_high_water]. etrans; [|apply contents_modify_file]. done.
Qed.

Lemma contents_write mount b offset bytes v : contents_only v (write_vertexfs_page_cache mount b offset bytes v).2.
Proof.
  unfold write_vertexfs_page_cache. do 4 (case_match; [done|]). apply contents_dirtied.
Qed.

Lemma contents_truncate mount b len v : contents_only v (truncate_vertexfs_page_cache mount b len v).2.
Proof.
  unfold truncate_vertexfs_page_cache. do 3 (case_match; [done|]). apply contents_dirtied.
Qed.

Lemma contents_truncate_memory i len v : contents_only v (truncate_memory_file i len v).
Proof. repeat split; cbn; try done. apply length_alter. Qed.

Lemma contents_write_memory i start bytes v : contents_only v (write_memory_file i start bytes v).
Proof. repeat split; cbn; try done. apply length_alter. Qed.

Lemma kept_truncate node len rt : kept (vfs_truncate_node node len) rt.
Proof.
  unfold vfs_truncate_node. destruct (vn_backing node); try done; checks.
  - apply kept_bind; [apply kept_modify, contents_only_keeps, contents_truncate_memory|]. intros ? rt' _.
    apply kept_bind; [apply kept_call, keeps_touch_memory|by intros].
  - apply kept_bind; [apply kept_call, contents_only_keeps, contents_truncate|]. intros ? rt' _.
    apply kept_bind; [apply kept_call, keeps_touch_vertexfs|by intros].
Qed.

(** ** Open *)

Lemma stays_same v v' m : same_nodes (vfs_nodes v) (vfs_nodes v') → stays v m → stays v' m.
Proof.
  intros Hs (i & x & Hx & Heq). destruct (same_nodes_at (vfs_nodes v') (vfs_nodes v) i x) as (y & Hy & Hxy);
    [by apply same_nodes_sym|done|]. exists i, y. split; [done|congruence].
Qed.

(** Another node that goes leaves a node with a name. *)
Lemma stays_remove v id n m :
  vfs_node v id = Some n → vn_parent n = None → vn_parent m ≠ None → stays v m →
  stays (remove_vfs_node v (vn_id n)).2 m.
Proof.
  intros Hn Hnp Hmp (i & x & Hx & Heq). unfold remove_vfs_node.
  destruct (vfs_node_index v (vn_id n)) as [j|] eqn:Hj; cbn; [|by exists i, x].
  exists i, x. split; [|done]. cbn. rewrite list_lookup_insert_ne; [done|]. intros ->.
  unfold vfs_node, find_node in Hn. apply first_some_Some in Hn as (j' & o & Hj' & Ho & Hno & Hbefore).
  destruct o as [n'|]; [|done]. cbn in Hno. case_match eqn:Hid; [|done]. injection Hno as ->.
  apply Z.eqb_eq in Hid. unfold vfs_node_index in Hj. rewrite Hid in Hj.
  apply first_index_Some in Hj as (_ & (o & Hox & Hp) & Hmin). rewrite Hx in Hox. injection Hox as <-.
  destruct (Nat.lt_trichotomy i j') as [Hlt|[->|Hlt]].
  - specialize (Hbefore i _ Hlt Hx). cbn in Hbefore. by rewrite Hp in Hbefore.
  - rewrite Hx in Ho. injection Ho as ->. injection Heq as _ Hpar _ _. congruence.
  - specialize (Hmin j' _ Hlt Ho). cbn in Hmin. by rewrite Hid, Z.eqb_refl in Hmin.
Qed.

Lemma same_nodes_release_memory v f : vfs_nodes (release_vfs_memory_file v f).2 = vfs_nodes v.
Proof. unfold release_vfs_memory_file. by destruct (_ || _). Qed.
Lemma same_nodes_release_vertexfs v f : vfs_nodes (release_vertexfs_file v f).2 = vfs_nodes v.
Proof. unfold release_vertexfs_file. by destruct (_ || _). Qed.

Lemma stays_nodes v v' m : vfs_nodes v' = vfs_nodes v → stays v m → stays v' m.
Proof. unfold stays. by intros ->. Qed.

Lemma stays_reap v id m : vn_parent m ≠ None → stays v m → stays (reap_unlinked_vfs_node_if_idle v id) m.
Proof.
  intros Hp Hm. unfold reap_unlinked_vfs_node_if_idle. case_match; [done|].
  destruct (vfs_node v id) as [n|] eqn:Hn; [|done]. destruct (vn_parent n) eqn:Hnp; [done|].
  destruct (vn_backing n); try done;
    (eapply stays_nodes; [first [apply same_nodes_release_memory|apply same_nodes_release_vertexfs]|by eapply stays_remove]).
Qed.

Lemma stays_release v id m : vn_parent m ≠ None → stays v m → stays (release_file_description v id).2 m.
Proof.
  intros Hp Hm. unfold release_file_description. repeat case_match; cbn; try done.
  apply stays_reap; [done|]. by eapply stays_nodes.
Qed.

Lemma same_nodes_refl l : same_nodes l l.
Proof. done. Qed.

Lemma same_nodes_truncate node len rt : same_nodes (vfs_nodes (rt_vfs rt)) (vfs_nodes (rt_vfs (vfs_truncate_node node len rt).2)).
Proof.
  unfold vfs_truncate_node, rbind, rguard, rget, vfs_modify, rmodify, vfs_call.
  destruct (vn_backing node) as [| | | | |f|f| | | |]; try done.
  - destruct (len <=? _); [|done]. cbn. destruct (negb _); [|done].
    unfold touch_vfs_memory_file_nodes. destruct (negb _); [done|]. cbn. apply same_nodes_map.
    intros m. by destruct (backed_by_memory f m).
  - cbn. pose proof (contents_truncate (vertexfs_page_cache_mount_id rt) f len (rt_vfs rt)) as (Hn & _).
    destruct (truncate_vertexfs_page_cache _ f len (rt_vfs rt)) as [[[]|e] v]; cbn in *; [|by rewrite Hn].
    unfold touch_vertexfs_file_nodes. destruct (negb _); cbn; [by rewrite Hn|]. rewrite <-Hn. apply same_nodes_map.
    intros m. by destruct (backed_by_vertexfs f m).
Qed.

(** What is created for an open, as the refusal of the open needs it. *)
Definition created_ok (created : option VfsNode) (v : VfsState) : Prop :=
  ∀ m, created = Some m → stays v m ∧ vn_parent m ≠ None.

Lemma kept_refuse {A} created e rt : created_ok created (rt_vfs rt) → kept (A := A) (refuse created e) rt.
Proof.
  intros Hc. unfold refuse. apply kept_bind; [|by intros]. apply kept_modify, keeps_release_created.
  intros m Hm. by apply Hc.
Qed.

(** A description, then something that may fail: the description is released. *)
Lemma kept_release_refuse {A} description created e rt :
  created_ok created (rt_vfs rt) →
  kept (A := A) (do! ignore (vfs_call id (λ v, release_file_description v description)); refuse created e) rt.
Proof.
  intros Hc. apply kept_bind; [apply kept_ignore, kept_call, keeps_release_description|]. intros ? rt' [= _ <-].
  apply kept_refuse. intros m Hm. destruct (Hc m Hm) as [? ?]. split; [|done].
  unfold vfs_call. pose proof (stays_release (rt_vfs rt) description m) as Hs.
  destruct (release_file_description (rt_vfs rt) description). by apply Hs.
Qed.

Lemma open_description_nodes v node rights flags owner cap :
  vfs_nodes (open_file_description v node rights flags owner cap).2 = vfs_nodes v.
Proof. unfold open_file_description. repeat case_match; done. Qed.

Lemma on_current_vfs {A} (f : Process → Result IpcError A * Process) rt : rt_vfs (on_current f rt).2 = rt_vfs rt.
Proof. unfold on_current. repeat case_match; done. Qed.

(** Until the handle is there, and after it, the nodes are the same up to names. *)
Lemma kept_open_handle node rights flags cap created rt :
  in_tree (rt_vfs rt) node → created_ok created (rt_vfs rt) → kept (open_handle node rights flags cap created) rt.
Proof.
  intros (i & Hi) Hc. unfold kept, open_handle, vfs_call.
  assert (Ho : keeps (rt_vfs rt) (open_file_description (rt_vfs rt) (vn_id node) rights flags (current_process_id rt) (c_id cap)).2).
  { apply keeps_open. eauto. }
  pose proof (open_description_nodes (rt_vfs rt) (vn_id node) rights flags (current_process_id rt) (c_id cap)) as Hn.
  destruct (open_file_description _ _ _ _ _ _) as [[d|e] v]; cbn [map_err fst snd] in *.
  - match goal with |- context [on_current ?f ?r] => pose proof (on_current_vfs f r) as Hv; destruct (on_current f r) as [[raw|e] rt2] end;
      cbn in Hv; cbn [snd]; subst v; (etrans; [exact Ho|]); [done|].
    apply (kept_release_refuse (A := Z * FileDescriptionId) d created e rt2). intros m Hm. destruct (Hc m Hm) as [Hst ?]. split; [|done].
    by eapply stays_nodes.
  - etrans; [exact Ho|]. refine (kept_refuse (A := Z * FileDescriptionId) created (id e) (rt <| rt_vfs := v |>) _). intros m Hm.
    destruct (Hc m Hm) as [Hst ?]. split; [|done]. by eapply stays_nodes.
Qed.

Lemma open_handle_nodes node rights flags cap created rt h rt' :
  open_handle node rights flags cap created rt = (Ok h, rt') → vfs_nodes (rt_vfs rt') = vfs_nodes (rt_vfs rt).
Proof.
  unfold open_handle, vfs_call.
  pose proof (open_description_nodes (rt_vfs rt) (vn_id node) rights flags (current_process_id rt) (c_id cap)) as Hn.
  destruct (open_file_description _ _ _ _ _ _) as [[d|e] v]; cbn [map_err fst snd] in *; [|done].
  match goal with |- context [on_current ?f ?r] => pose proof (on_current_vfs f r) as Hv; destruct (on_current f r) as [[raw|e] rt2] end;
    [|done]. intros [= _ <-]. cbn in Hv. by rewrite Hv.
Qed.

Lemma kept_open_truncate node raw description created rt :
  created_ok created (rt_vfs rt) → kept (open_truncate node raw description created) rt.
Proof.
  intros Hc. unfold kept, open_truncate. pose proof (kept_truncate node 0 rt) as Ht. unfold kept in Ht.
  pose proof (same_nodes_truncate node 0 rt) as Hs.
  destruct (vfs_truncate_node node 0 rt) as [[u|e] rt1]; cbn [snd] in *; [done|]. etrans; [exact Ht|].
  apply (kept_bind (ignore (on_current (λ p, close_file_handle p raw))) _ rt1).
  - apply kept_ignore, kept_on_current.
  - intros u rt2 [= _ <-]. apply kept_release_refuse. rewrite on_current_vfs. intros m Hm.
    destruct (Hc m Hm) as [? ?]. split; [|done]. by eapply stays_same.
Qed.

(** After the creation nothing takes an identifier. *)
Lemma next_remove v id : next_vfs_node_id (remove_vfs_node v id).2 = next_vfs_node_id v.
Proof. unfold remove_vfs_node. by case_match. Qed.
Lemma next_release_memory v f : next_vfs_node_id (release_vfs_memory_file v f).2 = next_vfs_node_id v.
Proof. unfold release_vfs_memory_file. by destruct (_ || _). Qed.
Lemma next_release_vertexfs v f : next_vfs_node_id (release_vertexfs_file v f).2 = next_vfs_node_id v.
Proof. unfold release_vertexfs_file. by destruct (_ || _). Qed.

Lemma next_reap v id : next_vfs_node_id (reap_unlinked_vfs_node_if_idle v id) = next_vfs_node_id v.
Proof.
  unfold reap_unlinked_vfs_node_if_idle.
  repeat case_match; rewrite ?next_release_memory, ?next_release_vertexfs, ?next_remove; done.
Qed.
Lemma next_release_description v id : next_vfs_node_id (release_file_description v id).2 = next_vfs_node_id v.
Proof. unfold release_file_description. repeat case_match; cbn; rewrite ?next_reap; done. Qed.
Lemma next_open v node rights flags owner cap :
  next_vfs_node_id (open_file_description v node rights flags owner cap).2 = next_vfs_node_id v.
Proof. unfold open_file_description. repeat case_match; done. Qed.
Lemma next_release_created created v : next_vfs_node_id (release_created_vfs_memory_node created v) = next_vfs_node_id v.
Proof.
  unfold release_created_vfs_memory_node.
  repeat case_match; rewrite ?next_release_memory, ?next_release_vertexfs, ?next_remove; done.
Qed.

(** The identifier the next node gets. *)
Definition next_id (rt : RuntimeState) : Z := next_vfs_node_id (rt_vfs rt).

Lemma next_call {A} (c : M VfsState IpcError A) rt :
  next_id (vfs_call id c rt).2 = next_vfs_node_id (c (rt_vfs rt)).2.
Proof. unfold vfs_call. by destruct (c (rt_vfs rt)). Qed.

Lemma next_bind {A B} (c : RT A) (k : A → RT B) rt :
  next_id (c rt).2 = next_id rt → (∀ a rt', c rt = (Ok a, rt') → next_id (k a rt').2 = next_id rt') →
  next_id (rbind c k rt).2 = next_id rt.
Proof. unfold rbind. intros Hc Hk. destruct (c rt) as [[a|e] rt']; cbn in *; [rewrite <-Hc; eauto|done]. Qed.

Lemma next_refuse {A} created e rt : next_id (refuse (A := A) created e rt).2 = next_id rt.
Proof. apply next_release_created. Qed.

Lemma next_release_refuse {A} d created e rt :
  next_id ((do! ignore (vfs_call id (λ v, release_file_description v d)); refuse (A := A) created e) rt).2 = next_id rt.
Proof.
  apply next_bind; [|intros; apply next_refuse]. cbn. rewrite next_call. apply next_release_description.
Qed.

Lemma next_open_handle node rights flags cap created rt : next_id (open_handle node rights flags cap created rt).2 = next_id rt.
Proof.
  unfold open_handle. match goal with |- context [vfs_call id ?c rt] => pose proof (next_call c rt) as Hn end.
  cbv beta in Hn; rewrite next_open in Hn. destruct (vfs_call _ _ rt) as [[d|e] rt1]; cbn in Hn; [|by rewrite next_refuse].
  match goal with |- context [on_current ?f ?r] => pose proof (on_current_vfs f r) as Hv; destruct (on_current f r) as [[raw|e] rt2] end;
    cbn [snd] in Hv; unfold next_id in *; [cbn; congruence|].
  etrans; [apply (next_release_refuse (A := Z * FileDescriptionId))|]. unfold next_id. congruence.
Qed.

Lemma next_truncate node len rt : next_id (vfs_truncate_node node len rt).2 = next_id rt.
Proof.
  unfold vfs_truncate_node. destruct (vn_backing node) as [| | | | |f|f| | | |]; try done;
    repeat (apply next_bind; [|intros]); try done; try (unfold rguard; by case_match); rewrite next_call.
  - unfold touch_vfs_memory_file_nodes. by case_match.
  - by destruct (contents_truncate (vertexfs_page_cache_mount_id a) f len (rt_vfs rt')) as (_ & _ & -> & _).
  - unfold touch_vertexfs_file_nodes. by case_match.
Qed.

Lemma next_open_truncate node raw d created rt : next_id (open_truncate node raw d created rt).2 = next_id rt.
Proof.
  unfold open_truncate. pose proof (next_truncate node 0 rt) as Ht.
  destruct (vfs_truncate_node node 0 rt) as [[u|e] rt1]; cbn [snd] in Ht; [done|]. rewrite <-Ht.
  apply next_bind; [unfold next_id; cbn; by rewrite on_current_vfs|]. intros. apply next_release_refuse.
Qed.

Lemma next_parent_event node kind rt : next_id (record_parent_event node kind rt).2 = next_id rt.
Proof.
  unfold record_parent_event. case_match; [|done]. unfold next_id. cbn. unfold record_vfs_event. cbn. by case_match.
Qed.

(** A call after another one may rely on the invariant of the state between
    them, if it takes no identifier. *)
Lemma kept_bind_wf {A B} (c : RT A) (k : A → RT B) rt :
  kept c rt →
  (∀ a rt', c rt = (Ok a, rt') → next_id (k a rt').2 = next_id rt' ∧ (tree_wf (rt_vfs rt') → kept (k a) rt')) →
  kept (rbind c k) rt.
Proof.
  unfold kept, rbind. intros [Hc1 Hc2] Hk. destruct (c rt) as [[a|e] rt'] eqn:E; [|done]. cbn in *.
  destruct (Hk a rt' eq_refl) as [Hn Hkept]. unfold next_id in Hn. split.
  - intros Hids. destruct (Hc1 Hids) as [Hi ?]. unfold ids_ok in *. rewrite Hn. done.
  - intros Hids Hlt Hwf. destruct (Hc1 Hids) as [Hi ?]. rewrite Hn in Hlt.
    assert (Hwf' : tree_wf (rt_vfs rt')) by (by apply Hc2). apply (Hkept Hwf'); [done| |done]. by rewrite Hn.
Qed.

Lemma node_from_cap_in_tree cap path rt node available rt' :
  resolve_vfs_node_from_cap cap path rt = (Ok (node, available), rt') → in_tree (rt_vfs rt) node.
Proof.
  unfold resolve_vfs_node_from_cap. intros H. apply rbind_ok in H as (rt0 & rt1 & [= <- <-] & H).
  destruct (vfs_node_for_store_object (rt_vfs rt) (c_object cap)) as [n|] eqn:Hs.
  - run_ok H. simplify_eq. unfold vfs_node_for_store_object in Hs.
    apply find_node_Some in Hs as (i & m & Hi & Hm). exists i. repeat case_match; simplify_eq. done.
  - destruct (get_vfs_root _ _); [|done]. run_ok H. simplify_eq. by eapply by_path_in_tree.
Qed.

(** The file an open creates has the parent it was created under. *)
Lemma created_has_parent cap path required rt node available rt' :
  vfs_create_memory_file_node cap path required rt = (Ok (node, available), rt') → tree_wf (rt_vfs rt') →
  vn_parent node ≠ None.
Proof.
  unfold vfs_create_memory_file_node. intros H Hwf. apply rbind_ok in H as ([[parent name] a] & rt1 & _ & H).
  apply rbind_ok in H as (id & rt2 & Ha & H). apply rbind_ok in H as (rt3 & ? & [= <- <-] & H).
  apply rbind_ok in H as (m & ? & [Hm ->]%rlift_ok & H). injection H as <- <- <-.
  apply ok_or_ok, vfs_node_Some in Hm as (i & Hi & Hid).
  assert (Hadd : ∃ backing release rtx, add_file_node name parent backing release rtx = (Ok id, rt2)).
  { destruct (str_eqb _ _).
    - apply rbind_ok in Ha as (? & ? & _ & Ha). apply rbind_ok in Ha as (f & rtx & _ & Ha). eauto.
    - apply rbind_ok in Ha as (f & rtx & _ & Ha). eauto. }
  destruct Hadd as (backing & release & rtx & Hadd). unfold add_file_node in Hadd.
  destruct (add_vfs_node_with_name _ _ _ _ _ _) as [[nid|] v] eqn:E; [|done]. injection Hadd as -> <-. cbn in *.
  apply added_node in E as (_ & j & x & Hx & Hxid & _ & _ & Hxp).
  rewrite (nw_unique _ _ _ (tw_nodes _ Hwf) i j m x Hi Hx ltac:(congruence)) in Hi.
  rewrite Hx in Hi. injection Hi as ->. by rewrite Hxp.
Qed.

Lemma open_node_ok cap path flags rt node available created rt' :
  open_node cap path flags rt = (Ok (node, available, created), rt') →
  in_tree (rt_vfs rt') node ∧ (tree_wf (rt_vfs rt') → created_ok created (rt_vfs rt')).
Proof.
  unfold open_node. pose proof (silent_node_from_cap cap path rt) as Hs.
  destruct (resolve_vfs_node_from_cap cap path rt) as [[[n a]|e] rt1] eqn:E; cbn in Hs; subst rt1.
  - intros [= <- <- <- <-]. split; [by eapply node_from_cap_in_tree|]. by intros _ m ?.
  - destruct e; try done. destruct (any_flag flags VFS_OPEN_CREATE); [|done]. intros H.
    apply rbind_ok in H as (req & rt2 & _ & H). apply rbind_ok in H as ([m av] & rt3 & Hc & H).
    injection H as <- <- <- <-. apply created_in_tree in Hc as Hin. split; [done|].
    intros Hwf x [= <-]. split; [by apply in_tree_stays|by eapply created_has_parent].
Qed.

Lemma kept_open_node cap path flags rt : kept (open_node cap path flags) rt.
Proof.
  unfold kept, open_node. pose proof (silent_node_from_cap cap path rt) as Hs.
  destruct (resolve_vfs_node_from_cap cap path rt) as [[[n a]|e] rt1]; cbn in Hs; subst rt1; [done|].
  destruct e; try done. destruct (any_flag flags VFS_OPEN_CREATE); [|done].
  apply (kept_bind (rlift (vfs_regular_file_open_rights flags))); [done|]. intros rights rt' [_ ->]%rlift_ok.
  apply kept_bind; [apply kept_create_file|]. by intros.
Qed.

Lemma silent_lookup_open slot :
  silent (λ rt, let '(r, rt1) := lookup_capability slot 0 rt in (map_err (λ _, VfsPermission) r, rt1)).
Proof. intros rt. pose proof (silent_lookup slot 0 rt) as H. by destruct (lookup_capability _ _ rt). Qed.
#[export] Hint Resolve silent_lookup_open : vfs_tree.

Lemma kept_open slot path flags rt : kept (vfs_open_path slot path flags) rt.
Proof.
  unfold vfs_open_path. checks. apply kept_silent_bind; [destruct (any_flag _ _ && _); auto 20 with vfs_tree|]. intros ? _.
  apply kept_bind_wf; [apply kept_open_node|]. intros [[node available] created] rt' [Hin Hcr]%open_node_ok.
  split.
  - apply next_bind; [done|]. intros ? ? [= <- <-]. destruct (open_check rt' flags available node) as [rights|e]; [|apply next_refuse].
    apply next_bind; [apply next_open_handle|]. intros h rt1 _.
    apply next_bind; [destruct (any_flag _ _); [apply next_open_truncate|done]|].
    intros ? rt2 _. apply next_bind; [destruct created; [apply next_parent_event|done]|done].
  - intros Hwf. checks. destruct (open_check rt' flags available node) as [rights|e]; [|by apply kept_refuse, Hcr].
    apply kept_bind; [by apply kept_open_handle; [|apply Hcr]|]. intros h rt1 Hh%open_handle_nodes.
    apply kept_bind; [|intros; apply kept_bind; [destruct created; [apply kept_parent_event|done]|done]].
    destruct (any_flag _ _); [|done]. apply kept_open_truncate. intros m Hm. destruct (Hcr Hwf m Hm) as [Hst ?]. split; [|done].
    by eapply stays_nodes.
Qed.

(** ** Mounts *)

Lemma add_mount_vfs rt name node path source flags dynamic owner :
  rt_vfs (rt_add_vfs_mount rt name node path source flags dynamic owner).2 = rt_vfs rt.
Proof. unfold rt_add_vfs_mount. by repeat case_match. Qed.

(** A node that was just added can be taken back. *)
Lemma keeps_take_back v name parent kind backing source id v1 :
  (tree_wf v → ∀ p, parent = Some p → ∃ j d, vfs_nodes v !! j = Some (Some d) ∧ vn_id d = p ∧ vn_kind d = NkDirectory) →
  is_writable_file backing = false →
  add_vfs_node_with_name v name parent kind backing source = (Ok id, v1) → keeps v (remove_vfs_node v1 id).2.
Proof.
  intros Hp Hb Ha.
  assert (Hk : keeps v v1).
  { replace v1 with (add_vfs_node_with_name v name parent kind backing source).2 by (by rewrite Ha).
    apply keeps_add; [done|..]; intros _ f ->; done. }
  apply added_node in Ha as Hid. destruct Hid as [-> _]. destruct Hk as [Hk1 Hk2]. split.
  - unfold ids_ok. rewrite next_remove. apply Hk1.
  - rewrite next_remove. intros Hids Hlt Hwf.
    assert (Hsame : open_file_descriptions v1 = open_file_descriptions v ∧
                    ∀ i c, vfs_nodes v1 !! i = Some (Some c) → vn_parent c = Some (next_vfs_node_id v) → False).
    { destruct (tw_nodes v Hwf) as [H1 H2 H3 H4 H5 H6 H7]. specialize (Hp Hwf). unfold add_vfs_node_with_name in Ha.
      destruct (first_index _ _ _) as [slot|] eqn:Hs; [|done]. injection Ha as <-. split; [done|]. cbn.
      apply first_index_Some in Hs as (_ & (x & Hx & Hnone) & _). destruct x; [done|].
      intros i c [[-> ->]|Hc]%(add_lookup _ _ Hx) Hcp; cbn in Hcp.
      - destruct (Hp _ Hcp) as (j & d & Hd & Hdid & _). apply H4 in Hd. lia.
      - destruct (H6 i c _ Hc Hcp) as (j & d & Hd & Hdid & _). apply H4 in Hd. lia. }
    destruct Hsame as [Hd Hleaf]. apply keeps_remove; [|by eauto|by apply Hk1|by rewrite next_remove|by apply Hk2].
    apply has_open_false_intro. rewrite Hd. intros k d Hk. destruct (tw_opens v Hwf k d Hk) as (i & m & Hm & <-).
    destruct (nw_ids _ _ _ (tw_nodes v Hwf) i m Hm). lia.
Qed.

Lemma kept_mount slot path flags rt : kept (vfs_mount_path slot path flags) rt.
Proof.
  unfold vfs_mount_path. apply kept_silent_bind; [auto with vfs_tree|]. intros root_path _. checks.
  match goal with Hp : vfs_node_by_path _ _ = Some ?n |- _ => apply by_path_in_tree in Hp as (i & Hi) end.
  destruct (any_flag flags VFS_MOUNT_BIND).
  - checks. unfold kept. match goal with |- context [rt_add_vfs_mount ?r ?a ?b ?c ?d ?e ?f ?g] =>
      pose proof (add_mount_vfs r a b c d e f g) as Hm; destruct (rt_add_vfs_mount r a b c d e f g) as [r' rt1] end.
    cbn in *. by rewrite Hm.
  - match goal with H : vn_kind ?n = NkDirectory |- _ => rename n into parent; rename H into Hk end.
    unfold kept, rbind, vfs_call.
    assert (Hpar : tree_wf (rt_vfs rt) → ∀ p, Some (vn_id parent) = Some p →
      ∃ j d, vfs_nodes (rt_vfs rt) !! j = Some (Some d) ∧ vn_id d = p ∧ vn_kind d = NkDirectory).
    { intros _ p [= <-]. eauto. }
    match goal with |- context [add_vfs_node_with_name _ ?nm _ _ _ _] =>
      pose proof (keeps_add (rt_vfs rt) nm (Some (vn_id parent)) NkDirectory VbNone "volatilefs" Hpar) as Hadd;
      pose proof (λ id v1, keeps_take_back (rt_vfs rt) nm _ NkDirectory VbNone "volatilefs" id v1 Hpar eq_refl) as Hback;
      destruct (add_vfs_node_with_name (rt_vfs rt) nm _ _ _ _) as [[id|e] v1] eqn:Ha end; cbn in *; [|apply Hadd; done].
    match goal with |- context [rt_add_vfs_mount ?r ?a ?b ?c ?d ?e ?f ?g] =>
      pose proof (add_mount_vfs r a b c d e f g) as Hm; destruct (rt_add_vfs_mount r a b c d e f g) as [[r'|e'] rt1] end;
      cbn in *; rewrite Hm; [apply Hadd; done|by apply Hback].
Qed.

(** ** The walk over the parents of a node *)

(** The nodes with an identifier up to [n]. *)
Definition up_to (n : Z) (o : option VfsNode) : bool :=
  match o with Some m => (vn_id m <=? n)%Z | None => false end.
Definition nodes_up_to (v : VfsState) (n : Z) : nat := length (filter (λ o, up_to n o = true) (vfs_nodes v)).

Lemma filter_lt {A} (p q : A → bool) (l : list A) i x :
  (∀ y, p y = true → q y = true) → l !! i = Some x → p x = false → q x = true →
  length (filter (λ y, p y = true) l) < length (filter (λ y, q y = true) l).
Proof.
  intros Hpq. revert i. induction l as [|y l IH]; intros i Hi Hp Hq; [done|].
  assert (Hle : length (filter (λ y, p y = true) l) ≤ length (filter (λ y, q y = true) l)).
  { clear -Hpq. induction l as [|z l IH]; [done|]. rewrite !filter_cons.
    pose proof (Hpq z). destruct (decide (p z = true)), (decide (q z = true)); cbn; try lia; tauto. }
  rewrite !filter_cons. destruct i as [|i]; cbn in Hi.
  - injection Hi as ->. rewrite decide_False by congruence. rewrite decide_True by done. cbn. lia.
  - specialize (IH i Hi Hp Hq). pose proof (Hpq y).
    destruct (decide (p y = true)), (decide (q y = true)); cbn; try lia; tauto.
Qed.

Lemma walk_from_directory v root fuel node i m :
  tree_wf v → vfs_nodes v !! i = Some (Some m) → vn_id m = node → vn_kind m = NkDirectory →
  nodes_up_to v node ≤ fuel → is_Some (vfs_node_is_descendant_or_self fuel v node root).
Proof.
  intros Hwf. revert node i m. induction fuel as [|fuel IH]; intros node i m Hi Hid Hk Hf.
  - exfalso. unfold nodes_up_to in Hf.
    pose proof (filter_lt (λ _, false) (up_to node) (vfs_nodes v) i (Some m) ltac:(done) Hi eq_refl) as Hlt.
    cbn in Hlt. specialize (Hlt ltac:(lia)). lia.
  - cbn. destruct (node =? root)%Z; [by eexists|]. destruct (vfs_node v node) as [c|] eqn:Hc; [|by eexists].
    destruct (vn_parent c) as [p|] eqn:Hp; [|by eexists].
    apply vfs_node_Some in Hc as (j & Hj & Hcid). pose proof (tw_nodes v Hwf) as Hn.
    rewrite (nw_unique _ _ _ Hn j i c m Hj Hi ltac:(congruence)), Hi in Hj. injection Hj as ->.
    destruct (nw_parent _ _ _ Hn i c p Hi Hp) as (jd & d & Hd & Hdid & Hdk).
    pose proof (nw_order _ _ _ Hn i c p Hi Hk Hp) as Hlt. apply (IH p jd d Hd Hdid Hdk).
    enough (nodes_up_to v p < nodes_up_to v node) by lia.
    apply (filter_lt (up_to p) (up_to node) _ i (Some c)); [|done|cbn; lia|cbn; lia].
    intros [y|] Hy; [|done]. unfold up_to in *. lia.
Qed.

Lemma walk_ends v node root : tree_wf v → is_Some (vfs_node_is_descendant_or_self descendant_fuel v node root).
Proof.
  intros Hwf. unfold descendant_fuel. cbn [vfs_node_is_descendant_or_self Nat.add]. destruct (node =? root)%Z; [by eexists|].
  destruct (vfs_node v node) as [c|] eqn:Hc; [|by eexists]. destruct (vn_parent c) as [p|] eqn:Hp; [|by eexists].
  apply vfs_node_Some in Hc as (j & Hj & Hcid). pose proof (tw_nodes v Hwf) as Hn.
  destruct (nw_parent _ _ _ Hn j c p Hj Hp) as (jd & d & Hd & Hdid & Hdk).
  apply (walk_from_directory v root (S MAX_VFS_NODES) p jd d Hwf Hd Hdid Hdk).
  unfold nodes_up_to. etrans; [apply length_filter|]. rewrite (nw_len _ _ _ Hn). lia.
Qed.

(** The result is right: the walk answers whether [root] is reached from [node]
    by going up. *)
Inductive below (v : VfsState) : VfsNodeId → VfsNodeId → Prop :=
  | below_refl n : below v n n
  | below_up n m p root : vfs_node v n = Some m → vn_parent m = Some p → below v p root → below v n root.

Lemma walk_sound v root fuel node b :
  vfs_node_is_descendant_or_self fuel v node root = Some b → (b = true ↔ below v node root).
Proof.
  revert node b. induction fuel as [|fuel IH]; intros node b; cbn; [done|].
  destruct (Z.eqb_spec node root) as [->|Hne]; [intros [= <-]; split; [constructor|done]|].
  destruct (vfs_node v node) as [m|] eqn:Hm.
  - destruct (vn_parent m) as [p|] eqn:Hp.
    + intros H%IH. rewrite H. split; [by econstructor|]. inversion 1; simplify_eq; done.
    + intros [= <-]. split; [done|]. inversion 1; simplify_eq.
  - intros [= <-]. split; [done|]. inversion 1; simplify_eq.
Qed.

Lemma scan_ends v root l : tree_wf v → is_Some (subtree_scan v root l).
Proof.
  intros Hwf. induction l as [|[d|] l IH]; cbn [subtree_scan]; [by eexists| |done].
  destruct (walk_ends v (fd_node d) root Hwf) as [[] ->]; [by eexists|done].
Qed.

Lemma scan_result v root l b :
  subtree_scan v root l = Some b → (b = true ↔ ∃ k d, l !! k = Some (Some d) ∧ below v (fd_node d) root).
Proof.
  induction l as [|[d|] l IH]; cbn [subtree_scan].
  - intros [= <-]. split; [done|]. intros (k & d & Hk & _). done.
  - destruct (vfs_node_is_descendant_or_self _ v (fd_node d) root) as [c|] eqn:Hw; [|done].
    apply walk_sound in Hw. destruct c.
    + intros [= <-]. split; [|done]. intros _. exists 0, d. split; [done|by apply Hw].
    + intros Hb%IH. rewrite Hb. split; [intros (k & x & Hk & ?); by exists (S k), x|].
      intros ([|k] & x & Hk & Hx); cbn in Hk; [|by exists k, x]. injection Hk as ->. by apply Hw in Hx.
  - intros Hb%IH. rewrite Hb. split; [intros (k & x & Hk & ?); by exists (S k), x|].
    intros ([|k] & x & Hk & Hx); cbn in Hk; [done|by exists k, x].
Qed.

(** ** Unmounting *)

Lemma mount_by_root_node t node m : get_vfs_mount_by_root_node t node = Some m → vm_root_node m = node.
Proof.
  unfold get_vfs_mount_by_root_node, find_object. intros (i & x & _ & _ & Hx & _)%first_some_Some.
  destruct x as [o|]; [|done]. cbn in Hx. destruct o; try done. unfold with_id in Hx.
  case_match; simplify_eq; lia.
Qed.

(** The node of a mount that is no bind mount is the root of the mount. *)
Lemma unmount_target_root rt path mount :
  unmount_target rt path = Ok mount → any_flag (vm_flags mount) VFS_MOUNT_BIND = false →
  ∃ node, vfs_node_by_path rt path = Some node ∧ vm_root_node mount = vn_id node.
Proof.
  unfold unmount_target. intros H Hb.
  assert (Hfrom : (let? node := ok_or (vfs_node_by_path rt path) VfsNotFound in
                   do? res_guard (bool_decide (vn_kind node = NkDirectory)) VfsNotDirectory;
                   ok_or (get_vfs_mount_by_root_node (rt_objects rt) (vn_id node)) VfsUnsupported) = Ok mount →
                  ∃ node, vfs_node_by_path rt path = Some node ∧ vm_root_node mount = vn_id node).
  { clear H. intros H. apply res_bind_ok in H as (node & Hn%ok_or_ok & H).
    apply res_bind_ok in H as (_ & _ & H%ok_or_ok%mount_by_root_node). eauto. }
  destruct (get_vfs_mount_by_exact_path _ _) as [m|]; [|by apply Hfrom].
  destruct (vm_dynamic m && _) eqn:Hd; [|by apply Hfrom]. injection H as ->.
  apply andb_true_iff in Hd as [_ Hd]. congruence.
Qed.

Lemma kept_remove_mount path mount node rt :
  unmount_target rt path = Ok mount → node = vfs_node_by_path rt path →
  vfs_subtree_has_open_description (rt_vfs rt) (vm_root_node mount) = Some false →
  negb (any_flag (vm_flags mount) VFS_MOUNT_BIND) &&
    match node with Some node => vfs_node_has_children (rt_vfs rt) (vn_id node) | None => false end = false →
  kept (remove_mount path mount node) rt.
Proof.
  intros Ht -> Hscan Hch. unfold remove_mount. apply kept_bind.
  - destruct (any_flag _ _) eqn:Hb; [by case_match|].
    destruct (unmount_target_root rt path mount Ht Hb) as (n & Hn & Hroot). rewrite Hn in *. cbn in Hch.
    apply kept_call, keeps_remove; [|intros [Hwf _ _] i c; by apply has_children_false].
    apply has_open_false_intro. intros k d Hk Hd. apply scan_result in Hscan.
    assert (false = true) as ?; [|done]. apply Hscan. exists k, d. split; [done|].
    rewrite Hroot, Hd. constructor.
  - intros ? rt' _. unfold kept, rmodify. cbn. repeat case_match; done.
Qed.
