(* ===== verification/Ipc.v ===== *)
(** The system calls on endpoints and the small reads of
    [ipc/core_syscalls.rs]: send, receive with and without a timeout, the log,
    boot modules, secrets and namespaces. *)

From S2P Require Import Prelude KernelBase Transport VfsPath KernelObjects ProcessRuntime.
From S2P Require Import CapRegistry VfsState Runtime Kernel Scheduler CapabilitySyscalls.
From S2P Require Import VfsTransactions.

Definition MAX_BOOT_READ_BYTES : Z := 128 * 1024.

(** A buffer of [MAX_MESSAGE_BYTES] zeros after [copy_from_user] of [bytes]. *)
Definition message_buffer (bytes : list byte) : list byte :=
  bytes ++ replicate (MAX_MESSAGE_BYTES - length bytes) 0%Z.

Section ipc.
Context `{UserMemory} (env : Env).

(** The copy of [len] bytes of the user into a buffer of [cap]. *)
Definition user_bytes (cap : nat) (source len : Z) : K (list byte) :=
  let* copied := copy_from_user cap source len in
  klift (ok_or copied InvalidUserBuffer).

(** The enqueue of [send]. *)
Definition enqueue_message (endpoint : KernelObjectId) (sender : ProcessId) (message : list byte)
    (len : nat) : K unit :=
  let* enqueued := on_endpoint endpoint (λ ep, endpoint_enqueue ep sender message len) in
  let* r := klift (ok_or enqueued BadCapability) in
  klift r.

(** [send]. *)
Definition send (cap_slot source len : Z) : K unit :=
  do* kguard (len <=? Z.of_nat MAX_MESSAGE_BYTES)%Z MessageTooLarge;
  let* endpoint := on_rt (endpoint_from_cap cap_slot RIGHT_SEND) in
  let* bytes := user_bytes MAX_MESSAGE_BYTES source len in
  let* sender := kget (λ k, current_process_id (ks_rt k)) in
  do* enqueue_message endpoint sender (message_buffer bytes) (Z.to_nat len);
  do* wake_blocked_receiver env endpoint;
  do* wake_blocked_vfs_state_reply endpoint;
  wake_blocked_vertexfs_sync_reply env endpoint.

(** [receive_with_timeout]. *)
Definition receive_with_timeout (fuel : nat) (cap_slot destination max_len : Z)
    (timeout_tsc : option Z) : K unit :=
  let* endpoint_cap := on_rt (endpoint_cap_from_slot cap_slot RIGHT_RECEIVE) in
  let endpoint := c_object endpoint_cap in
  let* valid := validate_user_buffer destination max_len UserWrite in
  do* kguard valid InvalidUserBuffer;
  let* current_pid := kget (λ k, current_process_id (ks_rt k)) in
  let* dequeued := dequeue_message endpoint current_pid in
  let* queued_message := klift (ok_or dequeued BadCapability) in
  match queued_message with
  | None =>
      let* blocked := block_current_on_endpoint env fuel endpoint (c_id endpoint_cap) destination
                        max_len timeout_tsc in
      if blocked : bool then kret tt else kfail Empty
  | Some message =>
      let copy_len := Z.min (Z.of_nat (msg_len message)) max_len in
      let* copied := copy_to_user destination (take (Z.to_nat copy_len) (msg_bytes message)) in
      do* kguard copied InvalidUserBuffer;
      do* modify_rt (record_ready_lifecycle endpoint current_pid message);
      set_rax copy_len
  end.

(** [receive] and [receive_timeout]. *)
Definition receive (fuel : nat) (cap_slot destination max_len : Z) : K unit :=
  receive_with_timeout fuel cap_slot destination max_len None.
Definition receive_timeout (fuel : nat) (cap_slot destination max_len timeout_ms : Z) : K unit :=
  let* deadline := deadline_after_ms env timeout_ms in
  receive_with_timeout fuel cap_slot destination max_len (Some deadline).

(** [log_write]; the text goes to the serial line. *)
Definition log_write (cap_slot source len : Z) : K unit :=
  do* kguard (len <=? Z.of_nat MAX_MESSAGE_BYTES)%Z MessageTooLarge;
  do* on_rt (serial_log_endpoint_from_cap cap_slot RIGHT_SEND);
  let* bytes := user_bytes MAX_MESSAGE_BYTES source len in
  do* wake_blocked_vfs_pipe_read bytes;
  kret tt.

(** [read_boot_module], with the memory the modules were loaded into. *)
Definition read_boot_module (module_bytes : Z → nat → list byte)
    (cap_slot destination max_len : Z) : K Z :=
  do* kguard (max_len <=? MAX_BOOT_READ_BYTES)%Z MessageTooLarge;
  let* module := on_rt (boot_module_from_cap cap_slot RIGHT_READ) in
  do* kguard (bm_length module <=? max_len)%Z MessageTooLarge;
  let* copied := copy_to_user destination
                   (module_bytes (bm_base module) (Z.to_nat (bm_length module))) in
  do* kguard copied InvalidUserBuffer;
  kret (bm_length module).

(** [secret_read]. *)
Definition secret_read (cap_slot destination max_len : Z) : K Z :=
  let* secret := on_rt (secret_from_cap cap_slot RIGHT_READ) in
  let copy_len := Z.min (Z.of_nat (length (sec_value secret))) max_len in
  let* copied := copy_to_user destination (take (Z.to_nat copy_len) (sec_value secret)) in
  do* kguard copied InvalidUserBuffer;
  kret copy_len.

(** [namespace_resolve]. *)
Definition namespace_resolve (cap_slot path path_len target_slot : Z) : K unit :=
  do* kguard (path_len <=? 128)%Z MessageTooLarge;
  let* namespace := on_rt (namespace_from_cap cap_slot RIGHT_RESOLVE) in
  let* bytes := user_bytes 128 path path_len in
  on_rt (namespace_grant namespace cap_slot bytes target_slot).
End ipc.
