(* ===== verification/Devices.v ===== *)
(** The system calls on devices ([ipc/device_syscalls.rs]): ports, device memory, DMA
    regions, the network port and the ownership of virtio devices. The value a port
    answers with is an oracle [port_in] of the writes so far. *)

From S2P Require Import Prelude Frames Paging KernelBase Transport KernelObjects ProcessRuntime.
From S2P Require Import BootPolicy CapRegistry VfsState VfsWire Runtime Virtio Kernel ProcessMemory MemoryMapping.
From S2P Require Import Scheduler VfsTransactions Ipc.

Definition DMA_MAPPING_INFO_BYTES : Z := 24.
Definition FRAMEBUFFER_INFO_BYTES : Z := 64.
Definition VIRTIO_DRIVER_REPORT_BYTES : Z := 64.
Definition VIRTIO_QUEUE_MAX_SIZE : Z := 256.

(** * Objects *)

(** A write through [get_dma_region_mut]. *)
Definition set_dma_region (index : nat) (r : DmaRegionObject) (rt : RuntimeState) : RuntimeState :=
  rt <| rt_objects ::= λ t, set_object t index (ODmaRegion r) |>.

(** [claim_dma_region]. *)
Definition claim_dma_region (region_id : KernelObjectId) (owner : ProcessId) : RT unit := λ rt,
  match get_dma_region (rt_objects rt) region_id with
  | None => (Err BadCapability, rt)
  | Some region =>
      if negb (dma_mapped_by region =? pid_empty)%Z && negb (dma_mapped_by region =? owner)%Z
      then (Err BadCapability, rt)
      else if (dma_mapped_by region =? pid_empty)%Z then
        match get_dma_region_mut (rt_objects rt) region_id with
        | None => (Err BadCapability, rt)
        | Some (index, r) =>
            (Ok tt, set_dma_region index
                      (r <| dma_mapped_by := owner |> <| dma_map_count ::= λ n, sat_add n 1 |>) rt)
        end
      else (Ok tt, rt)
  end.

(** [release_dma_region_claim]. *)
Definition release_dma_region_claim (region_id : KernelObjectId) (owner : ProcessId) (rt : RuntimeState) :
    RuntimeState :=
  match get_dma_region_mut (rt_objects rt) region_id with
  | Some (index, r) =>
      if (dma_mapped_by r =? owner)%Z
      then set_dma_region index
             (r <| dma_mapped_by := pid_empty |> <| dma_release_count ::= λ n, sat_add n 1 |>) rt
      else rt
  | None => rt
  end.

(** [record_virtio_device_owner]. *)
Definition set_virtio_device (index : nat) (d : VirtioDeviceObject) (rt : RuntimeState) : RuntimeState :=
  rt <| rt_objects ::= λ t, set_object t index (OVirtioDevice d) |>.
Definition record_virtio_device_owner (device_id : KernelObjectId) : RT unit := λ rt,
  let process := current_process_id rt in
  match get_virtio_device_mut (rt_objects rt) device_id with
  | None => (Err BadCapability, rt)
  | Some (index, device) =>
      if negb (vd_owner device =? pid_empty)%Z && negb (vd_owner device =? process)%Z then (Err BadCapability, rt)
      else (Ok tt, set_virtio_device index (device <| vd_owner := process |>) rt)
  end.

(** [virtio_device_probe]. *)
Definition virtio_device_probe (cap_slot : Z) : RT unit :=
  let! device := virtio_device_from_cap cap_slot RIGHT_CONTROL in
  do! rguard (str_eqb (vd_transport device) VIRTIO_PCI_IO_TRANSPORT_ID) BadCapability;
  record_virtio_device_owner (vd_id device).

(** [virtio_error_label]. *)
Definition virtio_error_label (code : Z) : Result IpcError string :=
  if (code =? 0)%Z then Ok "none"%string
  else if (code =? 1)%Z then Ok "completion-timeout"%string
  else if (code =? 2)%Z then Ok "reset-failed"%string
  else if (code =? 3)%Z then Ok "init-failed"%string
  else if (code =? 4)%Z then Ok "status-error"%string
  else Err BadCapability.

(** [read_report_u64]. *)
Definition read_report_u64 (bytes : list byte) (offset : nat) : Z := le_value (take 8 (drop offset bytes)).

(** The part of [virtio_device_report] after the copy of the report. *)
Definition virtio_report_accept (device : VirtioDeviceObject) (bytes : list byte) : RT unit :=
  let queue_size := read_report_u64 bytes 0 in
  do! rguard (negb (VIRTIO_QUEUE_MAX_SIZE <? queue_size)%Z) BadCapability;
  let avail_idx := read_report_u64 bytes 8 in
  let used_idx := read_report_u64 bytes 16 in
  do! rguard (negb ((65535 <? avail_idx)%Z || (65535 <? used_idx)%Z)) BadCapability;
  let! last_error := rlift (virtio_error_label (read_report_u64 bytes 56)) in
  λ rt,
    let process := current_process_id rt in
    match get_virtio_device_mut (rt_objects rt) (vd_id device) with
    | None => (Err BadCapability, rt)
    | Some (index, d) =>
        if negb (vd_owner d =? pid_empty)%Z && negb (vd_owner d =? process)%Z then (Err BadCapability, rt)
        else
          (Ok tt, set_virtio_device index
             (d <| vd_owner := process |> <| vd_queue_size := queue_size |> <| vd_avail_idx := avail_idx |>
                <| vd_used_idx := used_idx |> <| vd_submissions := read_report_u64 bytes 24 |>
                <| vd_completions := read_report_u64 bytes 32 |> <| vd_timeouts := read_report_u64 bytes 40 |>
                <| vd_reset_count := read_report_u64 bytes 48 |> <| vd_last_error := last_error |>) rt)
    end.

(** The loop of [release_process_virtio_ownership] over the object table. *)
Definition release_virtio_object (pid : ProcessId) (o : option KernelObject) : option KernelObject :=
  match o with
  | Some (OVirtioDevice d) => if (vd_owner d =? pid)%Z then Some (OVirtioDevice (d <| vd_owner := pid_empty |>)) else o
  | _ => o
  end.

(** * Kernel calls *)

Section devices.
Context `{PM : ProcessMemory} (env : Env) (port_in : list PortWrite → Z → Z → Z).

Definition modify_devices (f : Devices → Devices) : K unit := kmodify (λ k, k <| ks_devices ::= f |>).

(** [virtio_device_report]. *)
Definition virtio_device_report (cap_slot source len : Z) : K unit :=
  do* kguard (len =? VIRTIO_DRIVER_REPORT_BYTES)%Z InvalidUserBuffer;
  let* device := on_rt (virtio_device_from_cap cap_slot RIGHT_CONTROL) in
  do* kguard (str_eqb (vd_transport device) VIRTIO_PCI_IO_TRANSPORT_ID) BadCapability;
  let* bytes := copy_from_user (Z.to_nat VIRTIO_DRIVER_REPORT_BYTES) source len in
  match bytes with
  | None => kfail InvalidUserBuffer
  | Some bytes => on_rt (virtio_report_accept device bytes)
  end.

(** ** Ports *)

(** The common part of [io_read], [io_read16] and [io_read32], and of the three
    writes: a port of [width] bytes. *)
Definition io_read_width (width cap_slot port : Z) : K Z :=
  let* range := on_rt (io_port_from_cap cap_slot RIGHT_READ) in
  do* kguard (negb (negb (port_span_in_range range port width) || (65535 <? port)%Z)) BadCapability;
  let* writes := kget (λ k, dev_ports (ks_devices k)) in
  kret (port_in writes port width mod 256 ^ width)%Z.
Definition io_write_width (width cap_slot port value : Z) : K unit :=
  let* range := on_rt (io_port_from_cap cap_slot RIGHT_WRITE) in
  do* kguard (negb (negb (port_span_in_range range port width) || (65535 <? port)%Z)) BadCapability;
  modify_devices (out_port port width (value mod 256 ^ width)%Z).

Definition io_read : Z → Z → K Z := io_read_width 1.
Definition io_read16 : Z → Z → K Z := io_read_width 2.
Definition io_read32 : Z → Z → K Z := io_read_width 4.
Definition io_write : Z → Z → Z → K unit := io_write_width 1.
Definition io_write16 : Z → Z → Z → K unit := io_write_width 2.
Definition io_write32 : Z → Z → Z → K unit := io_write_width 4.

(** ** Device memory *)

(** [map_current_process_physical_range] and [unmap_current_process_physical_range]. *)
Definition map_current_range (virtual_base physical_base length : Z) (flags : PageFlags) : K unit := λ k,
  match current_process (rt_processes (ks_rt k)) with
  | None => Some (Err BadCapability, k)
  | Some p =>
      let '(ok, m) := pm_map (cr3 (p_context p)) virtual_base physical_base length flags (ks_mem k) in
      Some (if ok : bool then Ok tt else Err BadCapability, k <| ks_mem := m |>)
  end.
Definition unmap_current_range (virtual_base length : Z) : K unit := λ k,
  match current_process (rt_processes (ks_rt k)) with
  | None => Some (Ok tt, k)
  | Some p => Some (Ok tt, k <| ks_mem ::= pm_unmap (cr3 (p_context p)) virtual_base length |>)
  end.

(** The pages that cover a range of device memory: the physical base, the offset of
    the range in the first page and the length of the mapping. *)
Definition covering_pages (base length : Z) : Result IpcError (Z * Z * Z) :=
  let physical_base := mapping_align_down base FRAME_SIZE in
  let? page_offset := ok_or (checked_sub base physical_base) BadCapability in
  let? sum := ok_or (checked_add length page_offset) BadCapability in
  let? map_len := ok_or (mapping_align_up sum FRAME_SIZE) BadCapability in
  Ok (physical_base, page_offset, map_len).

(** The common part of [mmio_map] and [framebuffer_map]. *)
Definition map_device (window_base : Z) (object : KernelObjectId) (base length : Z) : K Z :=
  let* pages := klift (covering_pages base length) in
  let '(physical_base, page_offset, map_len) := pages in
  let* virtual_base := klift (device_user_mapping_base window_base object map_len) in
  let* user_base := klift (ok_or (checked_add virtual_base page_offset) BadCapability) in
  do* map_current_range virtual_base physical_base map_len user_device;
  kret user_base.

(** [mmio_map]. *)
Definition mmio_map (cap_slot : Z) : K Z :=
  let* region := on_rt (mmio_region_from_cap cap_slot RIGHT_MAP) in
  map_device USER_MMIO_MAPPING_BASE (mmio_id region) (mmio_base region) (mmio_length region).

(** [write_framebuffer_info]. *)
Definition framebuffer_info_bytes (f : FramebufferObject) (user_base : Z) : list byte :=
  le_bytes 8 user_base ++ le_bytes 8 (fb_length f) ++ le_bytes 8 (fb_width f) ++ le_bytes 8 (fb_height f) ++
  le_bytes 8 (fb_pitch f) ++ le_bytes 8 (fb_bpp f) ++
  le_bytes 8 (Z.lor (fb_red_mask_size f) (Z.lor (Z.shiftl (fb_red_mask_shift f) 8)
    (Z.lor (Z.shiftl (fb_green_mask_size f) 16) (Z.lor (Z.shiftl (fb_green_mask_shift f) 24)
    (Z.lor (Z.shiftl (fb_blue_mask_size f) 32) (Z.shiftl (fb_blue_mask_shift f) 40)))))) ++
  le_bytes 8 0.
Definition write_framebuffer_info (destination max_len : Z) (f : FramebufferObject) (user_base : Z) : K unit :=
  do* kguard (negb (max_len <? FRAMEBUFFER_INFO_BYTES)%Z) InvalidUserBuffer;
  let* valid := validate_user_buffer destination FRAMEBUFFER_INFO_BYTES UserWrite in
  do* kguard valid InvalidUserBuffer;
  let* copied := copy_to_user destination (framebuffer_info_bytes f user_base) in
  kguard copied InvalidUserBuffer.

(** [framebuffer_info]. *)
Definition framebuffer_info (cap_slot destination max_len : Z) : K Z :=
  let* f := on_rt (framebuffer_from_cap cap_slot RIGHT_READ) in
  do* write_framebuffer_info destination max_len f 0;
  kret FRAMEBUFFER_INFO_BYTES.

(** [framebuffer_map]. *)
Definition framebuffer_map (cap_slot destination max_len : Z) : K Z :=
  let* f := on_rt (framebuffer_from_cap cap_slot (Z.lor RIGHT_WRITE RIGHT_MAP)) in
  let* user_base := map_device USER_FRAMEBUFFER_MAPPING_BASE (fb_id f) (fb_physical_base f) (fb_length f) in
  do* write_framebuffer_info destination max_len f user_base;
  kret FRAMEBUFFER_INFO_BYTES.

(** ** DMA *)

(** [zero_dma_physical_range]; the flag says whether it could. *)
Definition zero_dma_physical_range (physical_base length : Z) : K bool := λ k,
  if (length =? 0)%Z then Some (Ok true, k)
  else let '(ok, m) := pm_zero physical_base length (ks_mem k) in Some (Ok ok, k <| ks_mem := m |>).

(** The clean-up of [dma_map] after the range was mapped. *)
Definition undo_dma_map {A} (virtual_base map_len : Z) (region : KernelObjectId) (owner : ProcessId) (e : IpcError) : K A :=
  do* unmap_current_range virtual_base map_len;
  do* modify_rt (release_dma_region_claim region owner);
  kfail e.

(** The rest of [dma_map] when the process has no mapping of the region yet. *)
Definition dma_map_new (region : DmaRegionObject) (owner : ProcessId) (destination virtual_base map_len : Z) : K unit :=
  do* on_rt (claim_dma_region (dma_id region) owner);
  let* zeroed := zero_dma_physical_range (dma_base region) (dma_length region) in
  if negb zeroed then
    do* modify_rt (release_dma_region_claim (dma_id region) owner);
    kfail BadCapability
  else λ k,
    match map_current_range virtual_base (dma_base region) map_len (user_flags true false) k with
    | None => None
    | Some (Err e, k1) => Some (Err e, k1 <| ks_rt ::= release_dma_region_claim (dma_id region) owner |>)
    | Some (Ok _, k1) =>
        (let mapping := mkDmaUserMapping (dma_id region) virtual_base (dma_base region) (dma_length region) in
         let* copied := copy_to_user destination (dma_mapping_info mapping) in
         if negb copied then undo_dma_map virtual_base map_len (dma_id region) owner InvalidUserBuffer
         else λ k,
           match current_index (rt_processes (ks_rt k)) with
           | None => undo_dma_map virtual_base map_len (dma_id region) owner BadCapability k
           | Some i =>
               match mjoin (pt_processes (rt_processes (ks_rt k)) !! i) with
               | None => undo_dma_map virtual_base map_len (dma_id region) owner BadCapability k
               | Some p =>
                   match add_dma_mapping p mapping with
                   | (Err _, _) => undo_dma_map virtual_base map_len (dma_id region) owner BadCapability k
                   | (Ok _, p') =>
                       Some (Ok tt, k <| ks_rt ::= λ rt, rt <| rt_processes ::= λ t, modify_process_at t i (λ _, p') |> |>)
                   end
               end
           end) k1
    end.

(** [dma_map]. *)
Definition dma_map (cap_slot destination max_len : Z) : K unit :=
  do* kguard (negb (max_len <? DMA_MAPPING_INFO_BYTES)%Z) InvalidUserBuffer;
  let* region := on_rt (dma_region_from_cap cap_slot (Z.lor (Z.lor RIGHT_READ RIGHT_WRITE) RIGHT_MAP)) in
  let* current := kget (λ k, current_process (rt_processes (ks_rt k))) in
  match current with
  | None => kfail BadCapability
  | Some p =>
      do* kguard (Z.land destination 7 =? 0)%Z InvalidUserBuffer;
      let* valid := validate_user_buffer destination DMA_MAPPING_INFO_BYTES UserWrite in
      do* kguard valid InvalidUserBuffer;
      let* map_len := klift (ok_or (mapping_align_up (dma_length region) FRAME_SIZE) BadCapability) in
      let* virtual_base := klift (device_user_mapping_base USER_DMA_MAPPING_BASE (dma_id region) map_len) in
      match dma_mapping p (dma_id region) with
      | Some mapping =>
          let* copied := copy_to_user destination (dma_mapping_info mapping) in
          kguard copied InvalidUserBuffer
      | None => dma_map_new region (p_pid p) destination virtual_base map_len
      end
  end.

(** [release_dma_mapping]. *)
Definition release_dma_mapping (owner : ProcessId) (mapping : DmaUserMapping) : K unit :=
  do* zero_dma_physical_range (dm_physical_base mapping) (dm_length mapping);
  modify_rt (release_dma_region_claim (dm_region mapping) owner).

(** The loop of [release_process_dma_mappings] over the [left] slots from [slot] on. *)
Fixpoint release_dma_slots (left slot : nat) (pid : ProcessId) : K unit := λ k,
  match left with
  | 0 => Some (Ok tt, k)
  | S left' =>
      match process_index (rt_processes (ks_rt k)) pid with
      | None => Some (Ok tt, k)
      | Some i =>
          match mjoin (pt_processes (rt_processes (ks_rt k)) !! i) with
          | None => Some (Ok tt, k)
          | Some p =>
              let '(mapping, p') := take_dma_mapping p slot in
              let k1 := k <| ks_rt ::= λ rt, rt <| rt_processes ::= λ t, modify_process_at t i (λ _, p') |> |> in
              (do* (match mapping with Some m => release_dma_mapping pid m | None => kret tt end);
               release_dma_slots left' (S slot) pid) k1
          end
      end
  end.

(** [release_process_dma_mappings]. *)
Definition release_process_dma_mappings (pid : ProcessId) : K unit := release_dma_slots MAX_OBJECTS 0 pid.

(** [release_all_runtime_dma_mappings]. *)
Fixpoint release_dma_processes (left index : nat) : K unit := λ k,
  match left with
  | 0 => Some (Ok tt, k)
  | S left' =>
      if pt_count (rt_processes (ks_rt k)) <=? index then Some (Ok tt, k)
      else
        match mjoin (pt_processes (rt_processes (ks_rt k)) !! index) with
        | None => release_dma_processes left' (S index) k
        | Some p => (do* release_process_dma_mappings (p_pid p); release_dma_processes left' (S index)) k
        end
  end.
Definition release_all_runtime_dma_mappings : K unit := release_dma_processes (S MAX_PROCESSES) 0.

(** [release_process_virtio_ownership]. *)
Definition release_process_virtio_ownership (pid : ProcessId) : K unit :=
  do* modify_devices (release_process_kernel_virtio_ownership pid);
  modify_rt (λ rt, rt <| rt_objects ::= λ t,
    t <| objects := map_upto (release_virtio_object pid) (objects t) (count t) |> |>).

(** ** The network port *)

(** [network_send_udp]. *)
Definition network_send_udp (cap_slot source len : Z) : K unit :=
  do* kguard (negb (Z.of_nat MAX_MESSAGE_BYTES <? len)%Z) MessageTooLarge;
  let* port := on_rt (network_port_from_cap cap_slot (Z.lor RIGHT_BIND RIGHT_LISTEN)) in
  let* payload := copy_from_user MAX_MESSAGE_BYTES source len in
  match payload with
  | None => kfail InvalidUserBuffer
  | Some payload =>
      let* current := kget (λ k, current_process (rt_processes (ks_rt k))) in
      match current with
      | None => kfail BadCapability
      | Some p =>
          do* (λ k, match get_network_port_mut (rt_objects (ks_rt k)) (np_id port) with
                    | None => Some (Err BadCapability, k)
                    | Some (index, port) =>
                        let '(r, port') := enqueue_udp port (p_pid p) (message_buffer payload) (Z.to_nat len) in
                        Some (r, k <| ks_rt ::= λ rt, rt <| rt_objects ::= λ t,
                                        set_object t index (ONetworkPort port') |> |>)
                    end);
          wake_blocked_network_receiver (np_id port)
      end
  end.

(** [network_recv_udp]. *)
Definition network_recv_udp (fuel : nat) (cap_slot destination max_len : Z) : K unit :=
  let* port := on_rt (network_port_from_cap cap_slot RIGHT_CONTROL) in
  let* valid := validate_user_buffer destination max_len UserWrite in
  do* kguard valid InvalidUserBuffer;
  let* message := (λ k, match get_network_port_mut (rt_objects (ks_rt k)) (np_id port) with
                        | None => Some (Err BadCapability, k)
                        | Some (index, port) =>
                            let '(m, port') := dequeue_udp port in
                            Some (Ok m, k <| ks_rt ::= λ rt, rt <| rt_objects ::= λ t,
                                            set_object t index (ONetworkPort port') |> |>)
                        end) in
  match message with
  | None =>
      let* blocked := block_current_on_network_port env fuel (np_id port) destination max_len in
      if blocked : bool then kret tt else kfail Empty
  | Some message =>
      let copy_len := Z.min (Z.of_nat (msg_len message)) max_len in
      let* copied := copy_to_user destination (take (Z.to_nat copy_len) (msg_bytes message)) in
      do* kguard copied InvalidUserBuffer;
      set_rax copy_len
  end.
End devices.
