(* ===== verification/ProcessSyscalls.v ===== *)
(** The life of processes ([ipc/process_syscalls.rs], [ipc/memory_mapping.rs]): creation
    from the configuration, start and restart, yielding and preemption, exit, faults,
    waiting and killing, and the release of everything a process held. *)

From S2P Require Import Prelude KernelBase Transport VfsPath KernelObjects ProcessRuntime BootConfig BootPolicy.
From S2P Require Import CapRegistry VfsState Runtime Virtio Kernel ProcessMemory Scheduler VfsTransactions VfsNodes.
From S2P Require Import BootGrants Ipc Devices.

Definition STATUS_WAIT_PENDING : Z := u64_max - 8.
Definition STATUS_KILLED : Z := u64_max - 11.

(** * The end of a process *)

(** What [exit_current_process], [fault_current_process] and [kill_process] write to the
    process. *)
Definition end_process (status : Z) (p : Process) : Process :=
  clear_file_handles (p <| p_state := PsExited |> <| p_has_saved_frame := false |> <| p_exit_status := status |>
                        <| p_has_exited := true |>).

(** [runtime.release_process_file_descriptions(pid)]. *)
Definition release_descriptions (pid : ProcessId) (rt : RuntimeState) : RuntimeState :=
  rt <| rt_vfs ::= λ v, release_process_file_descriptions v pid |>.

(** [let _ = cancel_blocked_receivers_for_endpoint_owner(pid, STATUS_BAD_CAPABILITY)]. *)
Definition cancel_owner (pid : ProcessId) (rt : RuntimeState) : RuntimeState :=
  (cancel_blocked_receivers_for_endpoint_owner pid STATUS_BAD_CAPABILITY rt).2.

(** The aborts when a service of the kernel ends. *)
Definition abort_services (name : option string) (rt : RuntimeState) : RuntimeState :=
  let rt := if bool_decide (name = Some VERTEX_STATE_PROCESS_NAME)
            then abort_vfs_state_transactions STATUS_VFS_UNSUPPORTED rt else rt in
  if bool_decide (name = Some BLOCK_DRIVER_PROCESS_NAME)
  then abort_vertexfs_sync_transactions STATUS_VFS_UNSUPPORTED rt else rt.

(** [process_config_for_pid]. *)
Definition process_config_for_pid (rt : RuntimeState) (pid : ProcessId) : option BootProcessConfig :=
  config ← rt_active_config rt;
  index ← first_index (λ o, bool_decide (o = Some pid)) (rt_process_template_pids rt) (cn_used (cf_processes config));
  counted_get (cf_processes config) index.

Section processes.
Context `{PM : ProcessMemory} (env : Env).

(** * Release of a process *)

(** The part of [reap_process_context] before the address space. *)
Definition release_process_resources (pid : ProcessId) : K unit :=
  do* release_process_virtio_ownership pid;
  do* release_process_dma_mappings pid;
  modify_rt (λ rt,
    let rt := rt <| rt_processes ::= λ t, (modify_process t pid clear_file_handles).2 |> in
    let rt := release_descriptions pid rt in
    let rt := (remove_owned_bind_mounts true rt pid).2 in
    let rt := (remove_owned_bind_mounts false rt pid).2 in
    release_unreferenced_derived_vfs_roots rt).

(** The context of a process whose address space is gone. *)
Definition reaped_process (p : Process) : Process :=
  p <| p_context := mkProcessContext 0 0 0 |> <| p_context_reaped := true |>.

(** [reap_process_context]. *)
Definition reap_process_context (pid : ProcessId) : K unit :=
  do* modify_rt (λ rt, (cancel_owner pid rt) <| rt_objects ::= λ t, (remove_owned_endpoints t pid).2 |>);
  let* rt := kget ks_rt in
  match process (rt_processes rt) pid with
  | None => kfail BadCapability
  | Some p =>
      do* release_process_resources pid;
      if p_context_reaped p || (cr3 (p_context p) =? 0)%Z then kret tt
      else λ k,
        match pm_reclaim (cr3 (p_context p)) (ks_mem k) with
        | (false, m) => Some (Err BadCapability, k <| ks_mem := m |>)
        | (true, m) =>
            Some (Ok tt, k <| ks_mem := m |>
                           <| ks_rt ::= λ rt, rt <| rt_processes ::= λ t, (modify_process t pid reaped_process).2 |> |>)
        end
  end.

(** [let _ = reap_process_context(pid)]. *)
Definition try_reap (pid : ProcessId) : K unit := λ k,
  match reap_process_context pid k with
  | Some (_, k') => Some (Ok tt, k')
  | None => None
  end.

(** * Leaving the processor *)

(** [exit_current_process], with the generation it marks as known good. *)
Definition exit_current_process (fuel : nat) (status : Z) : K (ScheduleResult * option string) :=
  let* rt := kget ks_rt in
  let current := current_process (rt_processes rt) in
  let initial_exited := match current with Some p => (p_pid p =? 1)%Z | None => true end in
  do* (match current with
       | Some p =>
           do* modify_current_process (end_process status);
           do* modify_rt (release_descriptions (p_pid p));
           modify_rt (cancel_owner (p_pid p))
       | None => kret tt
       end);
  do* modify_rt release_unreferenced_derived_vfs_roots;
  do* (match current with
       | Some p =>
           if (p_pid p =? 1)%Z then kret tt
           else modify_rt (λ rt, record_service_lifecycle rt (p_name p)
                                   (if (status =? 0)%Z then SlExited else SlFailed) (Some status))
       | None => kret tt
       end);
  do* modify_rt (abort_services (p_name <$> current));
  if initial_exited && negb (status =? 0)%Z then kret (Halt false, None)
  else
    let* switched := schedule_next_ready env fuel in
    if switched : bool then
      do* (match current with Some p => try_reap (p_pid p) | None => kret tt end);
      kret (Switched, None)
    else
      let* rt := kget ks_rt in
      let ok := all_exited_successfully (rt_processes rt) in
      kret (Halt ok, if ok then Some (rt_generation_id rt) else None).

(** [yield_current_process]. *)
Definition yield_current_process (fuel : nat) : K ScheduleResult :=
  let* frame := kget ks_frame in
  let* found := modify_current_process (suspend frame PsReady) in
  if negb found then kret (Halt false)
  else
    let* switched := schedule_next_ready_excluding_current env fuel in
    if switched : bool then kret Switched
    else
      do* modify_current_process set_running;
      kret Continue.

(** [preempt_current_process]. *)
Definition preempt_current_process (fuel : nat) : K ScheduleResult :=
  do* wake_timed_now env;
  let* rt := kget ks_rt in
  if no_ready false rt then kret Continue
  else
    match current_process (rt_processes rt) with
    | None => kret (Halt false)
    | Some p =>
        if negb (bool_decide (p_state p = PsRunning)) then kret Continue
        else
          let* frame := kget ks_frame in
          do* modify_current_process (suspend frame PsReady);
          let* switched := schedule_next_ready_no_wait_excluding_current env fuel in
          if switched : bool then kret Switched
          else
            do* modify_current_process set_running;
            kret Continue
    end.

(** [wake_timed_from_interrupt]. *)
Definition wake_timed_from_interrupt : K unit := do* wake_timed_now env; kret tt.

(** [fault_current_process]. *)
Definition fault_current_process (fuel : nat) : K ScheduleResult :=
  let* rt := kget ks_rt in
  match current_process (rt_processes rt) with
  | None => kret (Halt false)
  | Some p =>
      let initial_faulted := (p_pid p =? 1)%Z in
      do* modify_current_process (end_process STATUS_PROCESS_FAULT);
      do* modify_rt (release_descriptions (p_pid p));
      do* modify_rt (cancel_owner (p_pid p));
      do* modify_rt release_unreferenced_derived_vfs_roots;
      do* (if initial_faulted then kret tt
           else modify_rt (λ rt, record_service_lifecycle rt (p_name p) SlFailed (Some STATUS_PROCESS_FAULT)));
      do* modify_rt (abort_services (Some (p_name p)));
      if initial_faulted then kret (Halt false)
      else
        let* switched := schedule_next_ready env fuel in
        if switched : bool then
          do* try_reap (p_pid p);
          kret Switched
        else
          let* rt := kget ks_rt in
          kret (Halt (all_exited_successfully (rt_processes rt)))
  end.

(** * Creation *)

(** [recycle_exited_process_template]. *)
Definition recycle_exited_process_template (config_process_index : nat) : K unit :=
  let* rt := kget ks_rt in
  let* config := klift (ok_or (rt_active_config rt) BadCapability) in
  do* kguard (config_process_index <? cn_used (cf_processes config)) BadCapability;
  match mjoin (rt_process_template_pids rt !! config_process_index) with
  | None => kret tt
  | Some pid =>
      let* p := klift (ok_or (process (rt_processes rt) pid) BadCapability) in
      do* kguard (bool_decide (p_state p = PsExited)) BadCapability;
      do* reap_process_context pid;
      λ k,
        match remove_process (rt_processes (ks_rt k)) pid with
        | (Err _, _) => Some (Err BadCapability, k)
        | (Ok _, t) =>
            Some (Ok tt, k <| ks_rt ::= λ rt, rt <| rt_processes := t |>
                              <| rt_process_template_pids ::= <[config_process_index := None]> |> |>)
        end
  end.

(** [load_process_context]. *)
Definition load_process_context (image_base image_length : Z) : K ProcessContext := λ k,
  if (image_base =? 0)%Z || (image_length =? 0)%Z then Some (Err BadCapability, k)
  else
    let '(c, m) := pm_load (ks_cr3 k) image_base image_length (ks_mem k) in
    Some (ok_or c BadCapability, k <| ks_mem := m |>).

(** [reclaim_detached_address_space]. *)
Definition reclaim_detached_address_space (root : Z) : K unit := λ k,
  if (root =? 0)%Z then Some (Ok tt, k)
  else Some (Ok tt, k <| ks_mem ::= λ m, (pm_reclaim root m).2 |>).

(** The checks of [create_process] before the program is loaded. *)
Definition create_checks (rt : RuntimeState) (config_process_index : nat) : Result IpcError BootProcessConfig :=
  let? config := ok_or (rt_active_config rt) BadCapability in
  do? res_guard (config_process_index <? cn_used (cf_processes config)) BadCapability;
  do? res_guard (negb (bool_decide (is_Some (mjoin (rt_process_template_pids rt !! config_process_index))))) BadCapability;
  let? process := ok_or (counted_get (cf_processes config) config_process_index) BadCapability in
  do? res_guard (negb (bp_initial process)) BadCapability;
  do? map_err (λ _, BadCapability) (validate_config_caps_for_process rt config config_process_index);
  Ok process.

(** The undoing of [create_process] once the process is in the table. *)
Definition undo_create (pid : ProcessId) (root : Z) : K ProcessId :=
  do* modify_rt (λ rt, (remove_owned_bind_mounts false rt pid).2);
  do* modify_rt (λ rt, rt <| rt_processes ::= λ t, (remove_last_process t pid).2 |>);
  do* reclaim_detached_address_space root;
  kfail BadCapability.

(** [let Err(_) = c(runtime)] on a call of the boot code; whether it succeeded. *)
Definition try_init {A} (c : Init A) : K bool := λ k,
  let '(r, rt) := c (ks_rt k) in Some (Ok (is_ok r), k <| ks_rt := rt |>).

(** The new process gets its mounts and capabilities and becomes the template's. *)
Definition equip_process (config_process_index : nat) (process : BootProcessConfig) (context : ProcessContext)
    (config : BootRuntimeConfig) (mount_root : VfsPath) (pid : ProcessId) : K ProcessId :=
  let* mounted := try_init (install_declared_process_mounts process pid mount_root) in
  if negb mounted then undo_create pid (cr3 context)
  else
    let* granted := try_init (grant_config_caps_to_process config config_process_index pid) in
    if negb granted then undo_create pid (cr3 context)
    else
      do* modify_rt (λ rt, record_service_lifecycle
            (rt <| rt_process_template_pids ::= <[config_process_index := Some pid]> |>)
            (bp_name process) SlDeclared None);
      kret pid.

(** The part of [create_process] after the program is loaded. *)
Definition create_loaded (config_process_index : nat) (process : BootProcessConfig) (context : ProcessContext) :
    K ProcessId :=
  let* rt := kget ks_rt in
  let* config := klift (ok_or (rt_active_config rt) BadCapability) in
  if bool_decide (is_Some (mjoin (rt_process_template_pids rt !! config_process_index))) then
    do* reclaim_detached_address_space (cr3 context);
    kfail BadCapability
  else
    let* mount_root := klift (map_err (λ _, BadCapability) (from_boot_root_path (bp_mount_root process))) in
    let '(r, t) := add_process (rt_processes rt) (bp_name process) context (bp_image_base process)
                     (bp_image_length process) PsDeclared cspace_new mount_root in
    do* modify_rt (λ rt, rt <| rt_processes := t |>);
    match r with
    | Err _ =>
        do* reclaim_detached_address_space (cr3 context);
        kfail BadCapability
    | Ok pid => equip_process config_process_index process context config mount_root pid
    end.

(** [create_process]. *)
Definition create_process (cap_slot config_process_index : Z) : K Z :=
  do* on_rt (process_control_from_cap cap_slot RIGHT_CREATE);
  let index := Z.to_nat config_process_index in
  do* recycle_exited_process_template index;
  let* rt := kget ks_rt in
  let* process := klift (create_checks rt index) in
  let* context := load_process_context (bp_image_base process) (bp_image_length process) in
  create_loaded index process context.

(** * Start *)

(** What [start_process] writes to the process. *)
Definition reload_process (context : ProcessContext) (p : Process) : Process :=
  clear_file_handles (clear_dma_mappings
    (p <| p_context := context |> <| p_context_reaped := false |> <| p_caps := p_initial_caps p |>
       <| p_quota := p_initial_quota p |>)).
Definition started_process (reload_context : option ProcessContext) (p : Process) : Process :=
  (match reload_context with Some context => reload_process context p | None => p end)
    <| p_state := PsReady |> <| p_has_saved_frame := false |> <| p_exit_status := 0%Z |>
    <| p_has_exited := false |> <| p_start_count ::= λ n, sat_add n 1 |>.

(** The reload of [start_process] for a process that had exited. *)
Definition reload_context (pid : ProcessId) (snapshot : Process) : K (option ProcessContext) :=
  if bool_decide (p_state snapshot = PsExited) then
    do* reap_process_context pid;
    let* context := load_process_context (p_image_base snapshot) (p_image_length snapshot) in
    let* rt := kget ks_rt in
    let* process_config := klift (ok_or (process_config_for_pid rt pid) BadCapability) in
    let* mounted := try_init (install_declared_process_mounts process_config pid (p_mount_root snapshot)) in
    if negb mounted then
      do* reclaim_detached_address_space (cr3 context);
      kfail BadCapability
    else kret (Some context)
  else kret None.

(** [start_process]. *)
Definition start_process (cap_slot pid : Z) : K unit :=
  do* on_rt (process_control_from_cap cap_slot RIGHT_START);
  let* rt := kget ks_rt in
  let* snapshot := klift (ok_or (process (rt_processes rt) pid) BadCapability) in
  do* kguard (bool_decide (p_state snapshot = PsDeclared) || bool_decide (p_state snapshot = PsExited)) BadCapability;
  let* reloaded := reload_context pid snapshot in
  let* rt := kget ks_rt in
  match process (rt_processes rt) pid with
  | None => kfail BadCapability
  | Some p =>
      do* modify_rt (λ rt, rt <| rt_processes ::= λ t, (modify_process t pid (started_process reloaded)).2 |>);
      do* (if bool_decide (is_Some reloaded) then modify_rt (release_descriptions pid) else kret tt);
      do* modify_rt release_unreferenced_derived_vfs_roots;
      modify_rt (λ rt, record_service_lifecycle rt (p_name p)
                         (if bool_decide (is_Some reloaded) then SlRestarting else SlStarting) None)
  end.

(** * Observing and ending others *)

(** [process_attempt]. *)
Definition process_attempt : K Z :=
  let* rt := kget ks_rt in
  klift (ok_or (p_start_count <$> current_process (rt_processes rt)) BadCapability).

(** [process_wait]. *)
Definition process_wait (cap_slot pid : Z) : K Z :=
  do* wake_timed_now env;
  do* on_rt (process_control_from_cap cap_slot RIGHT_WAIT);
  let* rt := kget ks_rt in
  let* p := klift (ok_or (process (rt_processes rt) pid) BadCapability) in
  if bool_decide (p_state p = PsExited) then
    do* reap_process_context pid;
    kret (p_exit_status p)
  else kret STATUS_WAIT_PENDING.

(** [kill_process]. *)
Definition kill_process (cap_slot pid : Z) : K unit :=
  do* on_rt (process_control_from_cap cap_slot RIGHT_KILL);
  let* rt := kget ks_rt in
  do* kguard (negb (bool_decide (p_pid <$> current_process (rt_processes rt) = Some pid))) BadCapability;
  match process (rt_processes rt) pid with
  | None => kfail BadCapability
  | Some p =>
      do* kguard (negb (p_pid p =? 1)%Z) BadCapability;
      do* modify_rt (λ rt, rt <| rt_processes ::= λ t, (modify_process t pid (end_process STATUS_KILLED)).2 |>);
      do* modify_rt (release_descriptions pid);
      do* modify_rt (cancel_owner pid);
      do* modify_rt release_unreferenced_derived_vfs_roots;
      do* modify_rt (abort_services (Some (p_name p)));
      reap_process_context pid
  end.
End processes.
