(* ===== verification/Generation.v ===== *)
(** The generation manager ([ipc/generation.rs]) and the switch of the runtime to another
    generation ([ipc/boot_runtime.rs]): generations are registered at boot, verified against
    the hashes of their manifest and store objects, staged in a second runtime state,
    committed over the running one, and rolled back. *)

From S2P Require Import Prelude KernelBase Transport VfsPath KernelObjects Store ProcessRuntime.
From S2P Require Import BootConfig BootPolicy CapRegistry VfsState Runtime Virtio Kernel ProcessMemory.
From S2P Require Import VfsNodes BootGrants BootBuild Devices ProcessSyscalls.

(** * Data *)

Definition MAX_GENERATION_CONFIGS : nat := 4.

(** [GenerationRuntime] and [GenerationRuntimeTable]. *)
Record GenerationRuntime := mkGenerationRuntime { gr_generation_id : string; gr_config : BootRuntimeConfig }.
Record GenerationRuntimeTable := mkGenerationRuntimeTable {
  gt_entries : list (option GenerationRuntime); gt_count : nat }.
#[export] Instance eta_GenerationRuntimeTable : Eta GenerationRuntimeTable := λ t,
  mkGenerationRuntimeTable (gt_entries t) (gt_count t).
Definition generation_table_new : GenerationRuntimeTable :=
  mkGenerationRuntimeTable (replicate MAX_GENERATION_CONFIGS None) 0.

(** [RuntimeReapTarget]; the array of targets with its count is a list. *)
Record RuntimeReapTarget := mkRuntimeReapTarget { rp_pid : ProcessId; rp_name : string; rp_cr3 : Z }.
(** [StagingBuild]. *)
Record StagingBuild := mkStagingBuild { sb_initial_context : ProcessContext; sb_old_contexts : list RuntimeReapTarget }.

(** [StagedGeneration]; its context and old contexts are the [StagingBuild]. *)
Record StagedGeneration := mkStagedGeneration {
  sg_generation_id : string;
  sg_config : BootRuntimeConfig;
  sg_previous_generation : string;
  sg_previous_config : option BootRuntimeConfig;
  sg_old_cap_count : nat;
  sg_build : StagingBuild;
  sg_rollback : bool
}.

(** [StateTransitionError]. *)
Record StateTransitionError := mkStateTransitionError {
  te_state : string; te_previous_schema : string; te_target_schema : string; te_reason : string;
  te_old_state_readable : bool }.

(** [BootManagerState]. *)
Record BootManagerState := mkBootManagerState {
  bm_selected_generation : string;
  bm_previous_generation : string;
  bm_known_good_generation : string;
  bm_last_failed_generation : string;
  bm_last_failure_reason : string;
  bm_last_failure_service : string;
  bm_last_failure_dependency : string;
  bm_last_failure_policy : string;
  bm_last_state_migration_state : string;
  bm_last_state_migration_error : string;
  bm_last_state_migration_status : string;
  bm_last_transaction_state : string;
  bm_last_transaction_target : string;
  bm_transaction_counter : Z;
  bm_boot_attempt_counter : Z
}.
#[export] Instance eta_BootManagerState : Eta BootManagerState := λ b,
  mkBootManagerState (bm_selected_generation b) (bm_previous_generation b) (bm_known_good_generation b)
    (bm_last_failed_generation b) (bm_last_failure_reason b) (bm_last_failure_service b)
    (bm_last_failure_dependency b) (bm_last_failure_policy b) (bm_last_state_migration_state b)
    (bm_last_state_migration_error b) (bm_last_state_migration_status b) (bm_last_transaction_state b)
    (bm_last_transaction_target b) (bm_transaction_counter b) (bm_boot_attempt_counter b).
(** [BootManagerState::new]. *)
Definition boot_manager_new : BootManagerState :=
  mkBootManagerState "" "" "" "" "" "" "" "" "" "" "clean" "idle" "" 0 0.

(** * The table of generations *)

(** [GenerationRuntimeTable::register]. *)
Definition generation_register (runtime : GenerationRuntime) (t : GenerationRuntimeTable) :
    Result InitError unit * GenerationRuntimeTable :=
  let same (o : option GenerationRuntime) :=
    match o with Some r => str_eqb (gr_generation_id r) (gr_generation_id runtime) | None => false end in
  match first_index same (gt_entries t) (gt_count t) with
  | Some index => (Ok tt, t <| gt_entries ::= <[index := Some runtime]> |>)
  | None =>
      if gt_count t =? length (gt_entries t) then (Err ObjectTableFull, t)
      else (Ok tt, t <| gt_entries ::= <[gt_count t := Some runtime]> |> <| gt_count ::= S |>)
  end.

(** [GenerationRuntimeTable::find]. *)
Definition generation_find (t : GenerationRuntimeTable) (generation_id : list byte) : option GenerationRuntime :=
  first_some (λ o, match o with
                   | Some r => if bytes_eqb (string_bytes (gr_generation_id r)) generation_id then Some r else None
                   | None => None
                   end) (gt_entries t) (gt_count t).

(** * The boot manager *)

(** [start_boot]. *)
Definition start_boot (generation_id : string) (b : BootManagerState) : BootManagerState :=
  b <| bm_selected_generation ::= λ s, if str_empty s then generation_id else s |>
    <| bm_boot_attempt_counter ::= λ n, sat_add n 1 |>.

(** [clear_state_migration_failure]. *)
Definition clear_state_migration_failure (b : BootManagerState) : BootManagerState :=
  b <| bm_last_state_migration_state := "" |> <| bm_last_state_migration_error := "" |>
    <| bm_last_state_migration_status := "clean" |>.

Definition clear_failure (b : BootManagerState) : BootManagerState :=
  b <| bm_last_failure_reason := "" |> <| bm_last_failure_service := "" |>
    <| bm_last_failure_dependency := "" |> <| bm_last_failure_policy := "" |>.

(** [install_selected]. *)
Definition install_selected (previous selected : string) (b : BootManagerState) : BootManagerState :=
  let b := b <| bm_previous_generation := previous |> <| bm_selected_generation := selected |> in
  let b := clear_state_migration_failure (clear_failure b) in
  b <| bm_last_transaction_state := "commit" |> <| bm_last_transaction_target := selected |>
    <| bm_transaction_counter ::= λ n, sat_add n 1 |> <| bm_boot_attempt_counter ::= λ n, sat_add n 1 |>.

(** [install_prepare]. *)
Definition install_prepare (previous target : string) (b : BootManagerState) : BootManagerState :=
  b <| bm_previous_generation := previous |> <| bm_last_transaction_state := "prepare" |>
    <| bm_last_transaction_target := target |> <| bm_transaction_counter ::= λ n, sat_add n 1 |>.

(** [record_failure_detail]. *)
Definition failure_detail (reason : string) : string * string :=
  if str_eqb reason "verification-failed" then ("store-closure", "installable-generation")
  else if str_eqb reason "runtime-build-failed" then ("service-readiness", "activation")
  else if str_eqb reason "rollback-build-failed" then ("rollback-runtime", "known-good-rollback")
  else if str_eqb reason "state-migration-failed" then ("state-schema", "state-migration")
  else ("unknown", "activation").
Definition record_failure_detail (generation reason : string) (b : BootManagerState) : BootManagerState :=
  b <| bm_last_failure_service := generation |> <| bm_last_failure_dependency := (failure_detail reason).1 |>
    <| bm_last_failure_policy := (failure_detail reason).2 |>.

(** [install_abort]. *)
Definition install_abort (target reason : string) (b : BootManagerState) : BootManagerState :=
  let b := b <| bm_last_failed_generation := target |> <| bm_last_failure_reason := reason |> in
  let b := record_failure_detail target reason b in
  b <| bm_last_transaction_state := "abort" |> <| bm_last_transaction_target := target |>
    <| bm_transaction_counter ::= λ n, sat_add n 1 |>.

(** [install_state_migration_abort]. *)
Definition install_state_migration_abort (target : string) (error : StateTransitionError) (b : BootManagerState) :
    BootManagerState :=
  install_abort target "state-migration-failed"
    (b <| bm_last_state_migration_state := te_state error |> <| bm_last_state_migration_error := te_reason error |>
       <| bm_last_state_migration_status := "failed" |>).

(** [mark_known_good]. *)
Definition mark_known_good (generation_id : string) (b : BootManagerState) : BootManagerState :=
  clear_state_migration_failure (clear_failure
    (b <| bm_known_good_generation := generation_id |> <| bm_selected_generation := generation_id |>)).

(** [mark_failed_and_fallback]. *)
Definition mark_failed_and_fallback (failed fallback : string) (b : BootManagerState) : BootManagerState :=
  let b := b <| bm_last_failed_generation := failed |> <| bm_last_failure_reason := "activation-failed" |>
             <| bm_last_failure_service := failed |> <| bm_last_failure_dependency := "service-readiness" |>
             <| bm_last_failure_policy := "known-good-rollback" |> in
  let b := clear_state_migration_failure b in
  b <| bm_previous_generation := failed |> <| bm_selected_generation := fallback |>
    <| bm_last_transaction_state := "rollback" |> <| bm_last_transaction_target := fallback |>
    <| bm_transaction_counter ::= λ n, sat_add n 1 |>.

(** [recover_from_disk]. *)
Definition recover_from_disk (selected previous known_good transaction target failure_reason : string)
    (b : BootManagerState) : BootManagerState :=
  let rollback := str_eqb transaction "rollback" in
  let culprit := if rollback && negb (str_empty previous) then previous else target in
  let b := b <| bm_selected_generation := selected |> <| bm_previous_generation := previous |>
             <| bm_known_good_generation := known_good |> <| bm_last_failure_reason := failure_reason |> in
  let b := if str_empty failure_reason then b
           else b <| bm_last_failure_service := culprit |>
                  <| bm_last_failure_dependency := if rollback then "service-readiness" else "store-closure" |>
                  <| bm_last_failure_policy := if rollback then "known-good-rollback" else "activation" |> in
  let b := b <| bm_last_transaction_state := transaction |> <| bm_last_transaction_target := target |> in
  if str_empty failure_reason then b else b <| bm_last_failed_generation := culprit |>.

(** * The migration of state *)

(** [find_state_volume]. *)
Definition find_state_volume (c : BootRuntimeConfig) (id : string) : option BootStateVolumeConfig :=
  find_present (λ s, str_eqb (svc_id s) id) (counted (cf_state_volumes c)).

(** [invalid_state_transition_error], [state_transition_error]. *)
Definition invalid_state_transition_error : StateTransitionError :=
  mkStateTransitionError "<invalid>" "<unknown>" "<unknown>" "invalid-state-transition" false.
Definition state_transition_error (previous target : BootStateVolumeConfig) (reason : string)
    (old_state_readable : bool) : StateTransitionError :=
  mkStateTransitionError (svc_id target) (svc_schema_version previous) (svc_schema_version target) reason
    old_state_readable.

(** The loop over the volumes of the target. *)
Fixpoint check_target_volumes (previous : BootRuntimeConfig) (rollback : bool) (l : list (option BootStateVolumeConfig)) :
    Result StateTransitionError unit :=
  match l with
  | [] => Ok tt
  | None :: _ => Err invalid_state_transition_error
  | Some target_state :: rest =>
      match find_state_volume previous (svc_id target_state) with
      | Some previous_state =>
          if negb (str_eqb (svc_schema_version previous_state) (svc_schema_version target_state)) &&
             negb rollback && negb (str_eqb (svc_migration_policy target_state) "migrate")
          then Err (state_transition_error previous_state target_state "missing-migrate-policy" true)
          else check_target_volumes previous rollback rest
      | None => check_target_volumes previous rollback rest
      end
  end.

(** The loop over the volumes of the previous generation. *)
Fixpoint check_previous_volumes (target : BootRuntimeConfig) (l : list (option BootStateVolumeConfig)) :
    Result StateTransitionError unit :=
  match l with
  | [] => Ok tt
  | None :: _ => Err invalid_state_transition_error
  | Some previous_state :: rest =>
      match find_state_volume target (svc_id previous_state) with
      | None =>
          if str_eqb (svc_retention_policy previous_state) "delete-when-unreferenced"
          then Err (mkStateTransitionError (svc_id previous_state) (svc_schema_version previous_state) "<removed>"
                      "unsupported-delete-retention-policy" true)
          else check_previous_volumes target rest
      | Some _ => check_previous_volumes target rest
      end
  end.

(** [validate_state_transition_policy]. *)
Definition validate_state_transition_policy (previous : option BootRuntimeConfig) (target : BootRuntimeConfig)
    (rollback : bool) : Result StateTransitionError unit :=
  match previous with
  | None => Ok tt
  | Some previous =>
      do? check_target_volumes previous rollback (counted (cf_state_volumes target));
      check_previous_volumes target (counted (cf_state_volumes previous))
  end.

(** * The state of the manager and its calls *)

(** The statics of the two files: the registered generations, the generation to roll back
    to, the staged and the failed one, the boot manager, the log of policy denials, the
    staging runtime, and the masks of the interrupt controller. *)
Record GenerationState := mkGenerationState {
  gn_runtimes : GenerationRuntimeTable;
  gn_rollback : option GenerationRuntime;
  gn_staged : option StagedGeneration;
  gn_failed : option string;
  gn_manager : BootManagerState;
  gn_denials : PolicyDenialLog;
  gn_staging : RuntimeState;
  gn_pic1_mask : Z;
  gn_pic2_mask : Z
}.
#[export] Instance eta_GenerationState : Eta GenerationState := λ g,
  mkGenerationState (gn_runtimes g) (gn_rollback g) (gn_staged g) (gn_failed g) (gn_manager g) (gn_denials g)
    (gn_staging g) (gn_pic1_mask g) (gn_pic2_mask g).

Definition PIC1_DATA : Z := 0x21.
Definition PIC2_DATA : Z := 0xa1.
Definition PIC_MASTER_IRQ0_ONLY : Z := 0xfe.
Definition PIC_SLAVE_ALL_MASKED : Z := 0xff.

(** The statics as the image has them. *)
Definition generation_state_new : GenerationState :=
  mkGenerationState generation_table_new None None None boot_manager_new denial_log_new runtime_new
    PIC_MASTER_IRQ0_ONLY PIC_SLAVE_ALL_MASKED.

Record System `{UserMemory} := mkSystem { sy_kernel : KernelState; sy_gen : GenerationState }.
Global Arguments mkSystem {_}.
#[export] Instance eta_System `{UserMemory} : Eta System := λ s, mkSystem (sy_kernel s) (sy_gen s).

(** A call on the whole system: [None] when it never returns. *)
Definition G `{UserMemory} (E A : Type) : Type := System → option (Result E A * System).

(** What a generation call does: return, or enter the initial process of another
    generation and never return to its caller. *)
Inductive GenerationOutcome := Returned | Entered.

Section system_calls.
Context `{UserMemory} {E A B : Type}.

Definition gret (a : A) : G E A := λ s, Some (Ok a, s).
Definition gfail (e : E) : G E A := λ s, Some (Err e, s).
Definition gbind (c : G E A) (f : A → G E B) : G E B := λ s,
  match c s with
  | Some (Ok a, s') => f a s'
  | Some (Err e, s') => Some (Err e, s')
  | None => None
  end.
Definition gget (f : System → A) : G E A := λ s, Some (Ok (f s), s).
Definition glift (r : Result E A) : G E A := λ s, Some (r, s).
Definition on_kernel (f : IpcError → E) (c : K A) : G E A := λ s,
  match c (sy_kernel s) with
  | Some (r, k) => Some (map_err f r, s <| sy_kernel := k |>)
  | None => None
  end.
(** [match c { Ok(a) => .., Err(_) => .. }]: the result of a call as a value. *)
Definition gtry {F} (c : G F A) : G E (Result F A) := λ s,
  match c s with Some (r, s') => Some (Ok r, s') | None => None end.
Definition on_denials (f : InitError → E) (c : Check A) : G E A := λ s,
  let '(r, log) := c (gn_denials (sy_gen s)) in
  Some (map_err f r, s <| sy_gen ::= λ g, g <| gn_denials := log |> |>).
Definition on_staging (f : InitError → E) (c : Init A) : G E A := λ s,
  let '(r, rt) := c (gn_staging (sy_gen s)) in
  Some (map_err f r, s <| sy_gen ::= λ g, g <| gn_staging := rt |> |>).
End system_calls.

Definition gmodify `{UserMemory} {E} (f : GenerationState → GenerationState) : G E unit := λ s,
  Some (Ok tt, s <| sy_gen ::= f |>).

Notation "'let^' x ':=' c 'in' f" := (gbind c (λ x, f))
  (at level 10, x pattern, c at level 200, f at level 200,
   format "'[v' 'let^'  x  ':='  c  'in' '/' f ']'") : krust_scope.
Notation "'do^' c ';' f" := (gbind c (λ _, f))
  (at level 10, c at level 200, f at level 200,
   format "'[v' 'do^'  c ';' '/' f ']'") : krust_scope.

Definition update_manager (f : BootManagerState → BootManagerState) (g : GenerationState) : GenerationState :=
  g <| gn_manager ::= f |>.

(** * Address spaces of a runtime *)

(** The loops of [snapshot_runtime_reap_targets] and of [discard_uncommitted_staged_generation]. *)
Definition reap_target (o : option Process) : option RuntimeReapTarget :=
  match o with
  | Some p =>
      if negb (p_context_reaped p) && negb (cr3 (p_context p) =? 0)%Z
      then Some (mkRuntimeReapTarget (p_pid p) (p_name p) (cr3 (p_context p)))
      else None
  | None => None
  end.
Definition runtime_reap_targets (rt : RuntimeState) : list RuntimeReapTarget :=
  omap reap_target (take (pt_count (rt_processes rt)) (pt_processes (rt_processes rt))).

Section generations.
Context `{PM : ProcessMemory, SM : StoreMemory} (loader : BootLoader).

(** [reap_runtime_contexts]. *)
Fixpoint reap_runtime_contexts (targets : list RuntimeReapTarget) : K unit :=
  match targets with
  | [] => kret tt
  | target :: rest => λ k,
      let '(reclaimed, m) := pm_reclaim (rp_cr3 target) (ks_mem k) in
      let k' := k <| ks_mem := m |> in
      if reclaimed : bool then reap_runtime_contexts rest k' else Some (Err BadCapability, k')
  end.

(** [timer::reset_legacy_irq_masks], [timer::enable_legacy_irq]. *)
Definition out_byte `{UserMemory} {E} (port value : Z) : G E unit := λ s,
  Some (Ok tt, s <| sy_kernel ::= λ k, k <| ks_devices ::= out_port port 1 value |> |>).
Definition reset_legacy_irq_masks {E} : G E unit :=
  do^ gmodify (λ g, g <| gn_pic1_mask := PIC_MASTER_IRQ0_ONLY |> <| gn_pic2_mask := PIC_SLAVE_ALL_MASKED |>);
  do^ out_byte PIC1_DATA PIC_MASTER_IRQ0_ONLY;
  out_byte PIC2_DATA PIC_SLAVE_ALL_MASKED.
Definition enable_legacy_irq {E} (line : Z) : G E unit :=
  if (line <? 8)%Z then
    do^ gmodify (λ g, g <| gn_pic1_mask ::= λ m, Z.clearbit m line |>);
    let^ g := gget sy_gen in
    out_byte PIC1_DATA (gn_pic1_mask g)
  else if (line <? 16)%Z then
    do^ gmodify (λ g, g <| gn_pic2_mask ::= λ m, Z.clearbit m (line - 8) |> <| gn_pic1_mask ::= λ m, Z.clearbit m 2 |>);
    let^ g := gget sy_gen in
    do^ out_byte PIC2_DATA (gn_pic2_mask g);
    out_byte PIC1_DATA (gn_pic1_mask g)
  else gret tt.

(** [install_runtime_interrupt_masks]; a line is cast to [u8]. *)
Fixpoint enable_lines {E} (l : list (option BootInterruptLineConfig)) : G E unit :=
  match l with
  | [] | None :: _ => gret tt
  | Some line :: rest => do^ enable_legacy_irq (bil_line line mod 256)%Z; enable_lines rest
  end.
Definition install_runtime_interrupt_masks {E} (c : BootRuntimeConfig) : G E unit :=
  do^ reset_legacy_irq_masks;
  enable_lines (counted (cf_interrupt_lines c)).

(** * Staging and committing a runtime *)

(** [stage_boot_config_runtime]. *)
Definition stage_boot_config_runtime (c : BootRuntimeConfig) : G InitError StagingBuild :=
  do^ on_denials id (validate_boot_config_installable c);
  let^ initial_index := glift (initial_process_index c) in
  let^ process := glift (ok_or (counted_get (cf_processes c) initial_index) InvalidBootManifest) in
  let^ context := on_kernel (λ _, InvalidBootManifest)
                    (load_process_context (bp_image_base process) (bp_image_length process)) in
  let^ old_contexts := gget (λ s, runtime_reap_targets (ks_rt (sy_kernel s))) in
  let^ built := gtry (on_staging id (build_boot_config_runtime loader c initial_index process context)) in
  match built with
  | Err e =>
      do^ on_kernel (λ _, InvalidBootManifest) (reclaim_detached_address_space (cr3 context));
      gfail e
  | Ok _ => gret (mkStagingBuild context old_contexts)
  end.

(** [commit_staged_boot_config_runtime]. *)
Definition commit_staged_boot_config_runtime {E} (fail : IpcError → E) (c : BootRuntimeConfig) (build : StagingBuild) :
    G E unit :=
  do^ gmodify (update_manager (start_boot (cf_generation_id c)));
  do^ on_kernel fail release_all_runtime_dma_mappings;
  let^ staging := gget (λ s, gn_staging (sy_gen s)) in
  do^ on_kernel fail (modify_rt (λ _, staging));
  do^ install_runtime_interrupt_masks c;
  if bool_decide (sb_old_contexts build = []) then gret tt
  else
    do^ on_kernel fail (switch_address_space (cr3 (sb_initial_context build)));
    do^ gtry (F := IpcError) (on_kernel id (reap_runtime_contexts (sb_old_contexts build)));
    gret tt.

(** [init_from_boot_config]. *)
Definition init_from_boot_config (c : BootRuntimeConfig) : G InitError unit :=
  let^ build := stage_boot_config_runtime c in
  commit_staged_boot_config_runtime (λ _, InvalidBootManifest) c build.

(** [gdt::enter_user_mode]: load the root table and return to user mode at the entry point;
    the other registers keep what they hold. *)
Definition enter_user_mode {E} (context : ProcessContext) : G E GenerationOutcome := λ s,
  Some (Ok Entered,
        s <| sy_kernel ::= λ k,
               k <| ks_cr3 := cr3 context |>
                 <| ks_frame ::= λ f, f <| user_rip := entry context |> <| user_cs := USER_CODE_SELECTOR |>
                                        <| user_rflags := INITIAL_USER_RFLAGS |>
                                        <| user_rsp := stack_top context |> <| user_ss := USER_DATA_SELECTOR |> |> |>).

(** [discard_uncommitted_staged_generation]. *)
Definition discard_uncommitted_staged_generation {E} : G E unit :=
  let^ g := gget sy_gen in
  match gn_staged g with
  | None => gret tt
  | Some _ =>
      do^ gtry (F := IpcError) (on_kernel id (reap_runtime_contexts (runtime_reap_targets (gn_staging g))));
      gmodify (λ g, g <| gn_staged := None |>)
  end.

(** * Verification *)

(** [verify_generation_manifest]. *)
Definition verify_generation_manifest (c : BootRuntimeConfig) : Result IpcError unit :=
  let? module := ok_or (cf_manifest_module c) BadCapability in
  do? res_guard (negb (bmo_length module =? 0)%Z) BadCapability;
  let bytes := loaded_bytes (bmo_base module) (Z.to_nat (bmo_length module)) in
  res_guard (bytes_eqb (store_hash_hex (blake3 bytes)) (cf_manifest_hash c)) BadCapability.

(** [verify_generation_store_closure]. *)
Fixpoint verify_store_objects (l : list (option BootStoreObjectConfig)) : Result IpcError unit :=
  match l with
  | [] => Ok tt
  | None :: _ => Err BadCapability
  | Some object :: rest =>
      do? res_guard (negb (bso_length object =? 0)%Z) BadCapability;
      let bytes := loaded_bytes (bso_base object) (Z.to_nat (bso_length object)) in
      do? res_guard (store_hash_matches bytes (bso_hash object)) BadCapability;
      verify_store_objects rest
  end.
Definition verify_generation_store_closure (c : BootRuntimeConfig) : Result IpcError unit :=
  do? res_guard (negb (cn_used (cf_store_objects c) =? 0)) BadCapability;
  verify_store_objects (counted (cf_store_objects c)).

(** [verify_generation_transaction]. *)
Definition verify_generation_transaction (target : GenerationRuntime) : G IpcError unit :=
  do^ on_denials (λ _, BadCapability) (validate_boot_config_installable (gr_config target));
  do^ glift (verify_generation_manifest (gr_config target));
  glift (verify_generation_store_closure (gr_config target)).

(** * The calls *)

(** [read_generation_request]. *)
Definition read_generation_request (cap_slot generation len : Z) : G IpcError (list byte) :=
  on_kernel id
    (do* kguard (len <=? Z.of_nat MAX_MESSAGE_BYTES)%Z MessageTooLarge;
     do* on_rt (process_control_from_cap cap_slot (Z.lor RIGHT_CONTROL RIGHT_REVOKE));
     let* bytes := copy_from_user MAX_MESSAGE_BYTES generation len in
     klift (ok_or bytes InvalidUserBuffer)).

(** [generation_runtimes().find(requested)]. *)
Definition find_generation (requested : list byte) : G IpcError GenerationRuntime :=
  let^ g := gget sy_gen in
  glift (ok_or (generation_find (gn_runtimes g) requested) BadCapability).

Definition failed_generation_is (g : GenerationState) (generation_id : string) : bool :=
  bool_decide (gn_failed g = Some generation_id).

(** The end of [stage_generation] and [stage_rollback_generation]: the state policy, the
    staging build, and the record of the staged generation. *)
Definition stage_checked (target : GenerationRuntime) (rollback : bool) (build_failed : string) : G IpcError unit :=
  let^ rt := gget (λ s, ks_rt (sy_kernel s)) in
  match validate_state_transition_policy (rt_active_config rt) (gr_config target) rollback with
  | Err error =>
      do^ gmodify (update_manager (install_state_migration_abort (gr_generation_id target) error));
      gfail BadCapability
  | Ok _ =>
      let^ built := gtry (stage_boot_config_runtime (gr_config target)) in
      match built with
      | Err _ =>
          do^ gmodify (update_manager (install_abort (gr_generation_id target) build_failed));
          gfail BadCapability
      | Ok build =>
          gmodify (λ g, g <| gn_staged := Some (mkStagedGeneration (gr_generation_id target) (gr_config target)
                                                  (rt_generation_id rt) (rt_active_config rt)
                                                  (generation_cap_count rt (rt_generation_id rt)) build rollback) |>)
      end
  end.

(** [stage_generation]. *)
Definition stage_generation (cap_slot generation len : Z) : G IpcError unit :=
  let^ requested := read_generation_request cap_slot generation len in
  let^ target := find_generation requested in
  let^ g := gget sy_gen in
  if failed_generation_is g (gr_generation_id target) then gfail BadCapability
  else
    let^ rt := gget (λ s, ks_rt (sy_kernel s)) in
    if str_eqb (rt_generation_id rt) (gr_generation_id target) then gret tt
    else
      do^ discard_uncommitted_staged_generation;
      do^ gmodify (update_manager (install_prepare (rt_generation_id rt) (gr_generation_id target)));
      let^ verified := gtry (verify_generation_transaction target) in
      match verified with
      | Err _ =>
          do^ gmodify (update_manager (install_abort (gr_generation_id target) "verification-failed"));
          gfail BadCapability
      | Ok _ => stage_checked target false "runtime-build-failed"
      end.

Definition staged_is (g : GenerationState) (rollback : bool) (requested : list byte) : bool :=
  match gn_staged g with
  | Some staged => bool_decide (sg_rollback staged = rollback) && bytes_eqb (string_bytes (sg_generation_id staged)) requested
  | None => false
  end.

(** The staged generation, or the error of a call that finds another one staged. *)
Definition staged_or_fail (rollback : bool) (requested : list byte) : G IpcError StagedGeneration :=
  let^ g := gget sy_gen in
  match gn_staged g with
  | None => gfail BadCapability
  | Some staged => if staged_is g rollback requested then gret staged else gfail BadCapability
  end.

Definition remember_previous (staged : StagedGeneration) (g : GenerationState) : GenerationState :=
  match sg_previous_config staged with
  | Some config => g <| gn_rollback := Some (mkGenerationRuntime (sg_previous_generation staged) config) |>
  | None => g
  end.

(** [activate_generation]. *)
Definition activate_generation (cap_slot generation len : Z) : G IpcError GenerationOutcome :=
  let^ requested := read_generation_request cap_slot generation len in
  let^ rt := gget (λ s, ks_rt (sy_kernel s)) in
  if bytes_eqb (string_bytes (rt_generation_id rt)) requested then gret Returned
  else
    let^ g := gget sy_gen in
    do^ (if staged_is g false requested then gret tt else stage_generation cap_slot generation len);
    let^ staged := staged_or_fail false requested in
    do^ gmodify (remember_previous staged);
    do^ commit_staged_boot_config_runtime id (sg_config staged) (sg_build staged);
    do^ gmodify (λ g, update_manager (install_selected (sg_previous_generation staged) (sg_generation_id staged)) g
                        <| gn_staged := None |>);
    enter_user_mode (sb_initial_context (sg_build staged)).

(** [verify_generation]. *)
Definition verify_generation (cap_slot generation len : Z) : G IpcError unit :=
  let^ requested := read_generation_request cap_slot generation len in
  let^ target := find_generation requested in
  let^ g := gget sy_gen in
  if failed_generation_is g (gr_generation_id target) then gfail BadCapability
  else verify_generation_transaction target.

(** [mark_known_good_generation]. *)
Definition mark_known_good_generation (cap_slot generation len : Z) : G IpcError unit :=
  let^ requested := read_generation_request cap_slot generation len in
  let^ target := find_generation requested in
  let^ rt := gget (λ s, ks_rt (sy_kernel s)) in
  if negb (str_eqb (gr_generation_id target) (rt_generation_id rt)) then gfail BadCapability
  else
    do^ verify_generation_transaction target;
    gmodify (update_manager (mark_known_good (gr_generation_id target))).

(** [stage_rollback_generation]. *)
Definition stage_rollback_generation (cap_slot generation len : Z) : G IpcError unit :=
  let^ requested := read_generation_request cap_slot generation len in
  let^ g := gget sy_gen in
  let^ rollback := glift (ok_or (gn_rollback g) BadCapability) in
  if negb (bytes_eqb (string_bytes (gr_generation_id rollback)) requested) then gfail BadCapability
  else
    let^ rt := gget (λ s, ks_rt (sy_kernel s)) in
    do^ discard_uncommitted_staged_generation;
    do^ gmodify (update_manager (install_prepare (rt_generation_id rt) (gr_generation_id rollback)));
    stage_checked rollback true "rollback-build-failed".

Definition mark_previous_failed (staged : StagedGeneration) (g : GenerationState) : GenerationState :=
  match sg_previous_config staged with
  | Some _ => remember_previous staged g <| gn_failed := Some (sg_previous_generation staged) |>
  | None => g
  end.

(** [rollback_generation]. *)
Definition rollback_generation (cap_slot generation len : Z) : G IpcError GenerationOutcome :=
  let^ requested := read_generation_request cap_slot generation len in
  let^ g := gget sy_gen in
  do^ (if staged_is g true requested then gret tt else stage_rollback_generation cap_slot generation len);
  let^ staged := staged_or_fail true requested in
  do^ commit_staged_boot_config_runtime id (sg_config staged) (sg_build staged);
  do^ gmodify (mark_previous_failed staged);
  do^ gmodify (λ g, update_manager (mark_failed_and_fallback (sg_previous_generation staged) (sg_generation_id staged)) g
                      <| gn_staged := None |>);
  enter_user_mode (sb_initial_context (sg_build staged)).
End generations.

(** * Boot *)

(** [register_generation_config], [generation_config_by_id], [set_rollback_boot_config],
    [set_failed_generation_id], [install_generation_recovery]. *)
Definition register_generation_config (c : BootRuntimeConfig) (g : GenerationState) : Result InitError unit * GenerationState :=
  let '(r, t) := generation_register (mkGenerationRuntime (cf_generation_id c) c) (gn_runtimes g) in
  (r, g <| gn_runtimes := t |>).
Definition generation_config_by_id (generation_id : list byte) (g : GenerationState) : option BootRuntimeConfig :=
  gr_config <$> generation_find (gn_runtimes g) generation_id.
Definition set_rollback_boot_config (c : BootRuntimeConfig) (g : GenerationState) : GenerationState :=
  g <| gn_rollback := Some (mkGenerationRuntime (cf_generation_id c) c) |>.
Definition set_failed_generation_id (generation_id : string) (g : GenerationState) : GenerationState :=
  g <| gn_failed := Some generation_id |>.
Definition install_generation_recovery (selected previous known_good transaction target failure_reason : string)
    (g : GenerationState) : GenerationState :=
  update_manager (recover_from_disk selected previous known_good transaction target failure_reason) g.
Definition registered_generation_config_at (index : nat) (g : GenerationState) : option BootRuntimeConfig :=
  if gt_count (gn_runtimes g) <=? index then None
  else gr_config <$> mjoin (gt_entries (gn_runtimes g) !! index).
