(* ===== verification/CapabilityProofs.v ===== *)
(** Capabilities as the kernel's authority: the invariant that ties the
    capabilities held by processes to the registry, what a lookup grants, and
    that the capability calls keep the invariant, never amplify authority and
    revoke completely. *)

From S2P Require Import Prelude KernelBase Transport VfsPath KernelObjects.
From S2P Require Import ObjectTableProofs ProcessRuntime ProcessTableProofs CapRegistry.
From S2P Require Import VfsState Runtime Kernel Scheduler CapabilitySyscalls.
From stdpp Require Import relations.

(** * Writes to the process table *)

Lemma ptable_same_pids t t' l :
  ptable_wf t → length (pt_processes t') = length (pt_processes t) → pt_count t' = pt_count t →
  pt_next_id t' = pt_next_id t →
  take (pt_count t) (pt_processes t') = Some <$> l →
  p_pid <$> l = p_pid <$> live_processes t →
  ptable_wf t' ∧ live_processes t' = l.
Proof.
  intros Hwf Hl Hc Hn Ht Hp. pose proof Hwf as [? ? ? ? Hr Hnd].
  assert (Hll : length l = pt_count t).
  { rewrite <-(length_fmap p_pid), Hp, length_fmap. by apply live_length. }
  apply ptable_wf_intro; rewrite ?Hc, ?Hn, ?Hp; [congruence|lia|lia|done|done| |done].
  apply Forall_fmap with (f := p_pid) (P := λ x, (1 ≤ x < pt_next_id t)%Z).
  rewrite Hp. by apply Forall_fmap.
Qed.

Lemma modify_process_at_live t i f :
  ptable_wf t → (∀ p, p_pid (f p) = p_pid p) →
  ptable_wf (modify_process_at t i f) ∧
  live_processes (modify_process_at t i f) = alter f i (live_processes t).
Proof.
  intros Hwf Hf. apply (ptable_same_pids t); try done.
  - unfold modify_process_at, set; cbn. by rewrite length_alter.
  - unfold modify_process_at, set; cbn. apply list_eq. intros j.
    pose proof (take_live t Hwf) as Ht. apply (f_equal (.!! j)) in Ht.
    rewrite list_lookup_fmap in *.
    destruct (decide (j < pt_count t)) as [Hj|Hj].
    + rewrite lookup_take_lt in * by done. destruct (decide (i = j)) as [->|Hne].
      * rewrite !list_lookup_alter_eq, Ht. by destruct (live_processes t !! j).
      * by rewrite !list_lookup_alter_ne.
    + rewrite lookup_take_ge in * by lia. symmetry in Ht. apply fmap_None in Ht.
      destruct (decide (i = j)) as [->|Hne];
        rewrite ?list_lookup_alter_eq, ?list_lookup_alter_ne by done; by rewrite Ht.
  - apply list_eq. intros j. rewrite !list_lookup_fmap.
    destruct (decide (i = j)) as [->|Hne];
      rewrite ?list_lookup_alter_eq, ?list_lookup_alter_ne by done; [|done].
    destruct (live_processes t !! j); [|done]. cbn. by rewrite Hf.
Qed.

Lemma map_processes_live t f :
  ptable_wf t → (∀ p, p_pid (f p) = p_pid p) →
  let t' := t <| pt_processes ::= λ l, map_upto (fmap f) l (pt_count t) |> in
  ptable_wf t' ∧ live_processes t' = f <$> live_processes t.
Proof.
  intros Hwf Hf t'. apply (ptable_same_pids t); try done.
  - unfold t', set; cbn. by rewrite length_map_upto.
  - unfold t', set; cbn. apply list_eq. intros j.
    pose proof (take_live t Hwf) as Ht. apply (f_equal (.!! j)) in Ht.
    rewrite !list_lookup_fmap in *.
    destruct (decide (j < pt_count t)) as [Hj|Hj].
    + rewrite lookup_take_lt in * by done. rewrite lookup_map_upto, bool_decide_true, Ht by done.
      by destruct (live_processes t !! j).
    + rewrite lookup_take_ge in * by lia. symmetry in Ht. apply fmap_None in Ht. by rewrite Ht.
  - apply list_eq. intros j. rewrite !list_lookup_fmap.
    destruct (live_processes t !! j); [|done]. cbn. by rewrite Hf.
Qed.

(** Where a lookup by identifier finds its process. *)
Lemma process_index_process t pid i :
  ptable_wf t → process_index t pid = Some i →
  ∃ p, process t pid = Some p ∧ live_processes t !! i = Some p ∧
       mjoin (pt_processes t !! i) = Some p.
Proof.
  intros Hwf Hi. pose proof Hi as (p & Hp & Hpid)%process_index_live; [|done].
  exists p. pose proof (proj1 (live_lookup t i p Hwf) Hp) as [_ Hs].
  split_and!; [|done|by rewrite Hs]. apply process_live; [done|].
  split; [by eapply list_elem_of_lookup_2|done].
Qed.

Lemma current_index_process t i :
  ptable_wf t → current_index t = Some i →
  ∃ p, current_process t = Some p ∧ live_processes t !! i = Some p ∧
       mjoin (pt_processes t !! i) = Some p.
Proof.
  unfold current_index, current_process. intros Hwf (pid & Hpid & Hi)%bind_Some.
  rewrite Hpid. by apply process_index_process.
Qed.

Lemma process_process_index t pid p :
  process t pid = Some p → is_Some (process_index t pid).
Proof. rewrite process_via_index. intros (i & Hi & _)%bind_Some. eauto. Qed.

Lemma current_process_index t p :
  current_process t = Some p → is_Some (current_index t).
Proof.
  unfold current_index, current_process. intros (pid & Hpid & Hp)%bind_Some.
  rewrite Hpid. by eapply process_process_index.
Qed.

Lemma current_process_live t p : ptable_wf t → current_process t = Some p → p ∈ live_processes t.
Proof. intros Hwf (pid & _ & [Hp _]%process_live)%bind_Some; done. Qed.

(** A write that keeps identifiers keeps the results of lookups. *)
Lemma process_index_modify t i f pid :
  ptable_wf t → (∀ p, p_pid (f p) = p_pid p) →
  process_index (modify_process_at t i f) pid = process_index t pid.
Proof.
  intros Hwf Hf. destruct (modify_process_at_live t i f Hwf Hf) as [Hwf' Hlive].
  apply option_eq. intros j. rewrite !process_index_live, Hlive by done.
  destruct (decide (i = j)) as [->|Hne];
    rewrite ?list_lookup_alter_eq, ?list_lookup_alter_ne by done; [|done].
  destruct (live_processes t !! j) as [q|]; cbn; [|naive_solver].
  split; intros (p & [= <-] & <-); eauto.
Qed.

Lemma process_modify t i f pid p :
  ptable_wf t → (∀ p, p_pid (f p) = p_pid p) → process_index t pid = Some i →
  process t pid = Some p → process (modify_process_at t i f) pid = Some (f p).
Proof.
  intros Hwf Hf Hi Hp. rewrite process_via_index, process_index_modify, Hi by done. cbn.
  rewrite list_lookup_alter_eq. rewrite process_via_index, Hi in Hp. cbn in Hp.
  destruct (pt_processes t !! i) as [[q|]|]; by simplify_eq/=.
Qed.

Lemma modify_process_at_twice t i f g :
  modify_process_at (modify_process_at t i f) i g = modify_process_at t i (g ∘ f).
Proof.
  unfold modify_process_at, set; cbn. f_equal. apply list_eq. intros j.
  destruct (decide (i = j)) as [->|Hne];
    rewrite ?list_lookup_alter_eq, ?list_lookup_alter_ne by done; [|done].
  by destruct (pt_processes t !! j) as [[q|]|].
Qed.

(** * The invariant *)

(** The capabilities of a process, for use and for its next start. *)
Definition holds (p : Process) (cap : Capability) : Prop :=
  Some cap ∈ p_caps p ∨ Some cap ∈ p_initial_caps p.

(** A held capability agrees with the registry: its parent is the recorded
    one and its mark says whether its identifier is revoked. *)
Record cap_ok (r : CapRegistry) (cap : Capability) : Prop := mk_cap_ok {
  co_parent : cap_parent_from_lineage r (c_id cap) = Some (c_parent cap);
  co_mark : c_revoked cap = cap_id_revoked r (c_id cap);
  co_rights : is_u64 (c_rights cap)
}.

Record process_ok (r : CapRegistry) (p : Process) : Prop := mk_process_ok {
  po_caps : length (p_caps p) = MAX_CAPS;
  po_initial : length (p_initial_caps p) = MAX_CAPS;
  po_held cap : holds p cap → cap_ok r cap
}.

Record caps_wf (rt : RuntimeState) : Prop := mk_caps_wf {
  cw_table : ptable_wf (rt_processes rt);
  cw_registry : registry_wf (rt_caps rt);
  cw_closed : revocation_closed (rt_caps rt);
  cw_held : Forall (process_ok (rt_caps rt)) (live_processes (rt_processes rt))
}.

(** Some process of the system holds the capability. *)
Definition held (rt : RuntimeState) (cap : Capability) : Prop :=
  ∃ p, p ∈ live_processes (rt_processes rt) ∧ holds p cap.

Definition live (rt : RuntimeState) (cap : Capability) : Prop :=
  ¬ revoked (rt_caps rt) (c_id cap) ∧ c_generation cap = rt_generation_id rt.

Lemma runtime_new_wf : caps_wf runtime_new.
Proof.
  destruct registry_new_wf. split; [apply ptable_new_wf|done|done|]. constructor.
Qed.

Lemma slot_index_Some (s : list (option Capability)) slot i :
  slot_index s slot = Some i → slot = Z.of_nat i ∧ i < length s.
Proof. unfold slot_index. destruct (_ && _) eqn:H; [|done]. intros [= <-]. lia. Qed.

Lemma cspace_lookup_elem s slot cap : cspace_lookup s slot = Some cap → Some cap ∈ s.
Proof.
  unfold cspace_lookup. destruct (slot_index s slot) as [i|]; [|done].
  destruct (s !! i) as [[c|]|] eqn:Hi; intros [= ->]. by eapply list_elem_of_lookup_2.
Qed.

Section wf.
Context (rt : RuntimeState) (Hwf : caps_wf rt).

Lemma held_ok cap : held rt cap → cap_ok (rt_caps rt) cap.
Proof using Hwf.
  intros (p & Hp & Hh). pose proof (proj1 (Forall_forall _ _) (cw_held rt Hwf) p Hp) as Hok.
  by apply Hok.
Qed.

Lemma held_known cap :
  held rt cap → known_cap (rt_caps rt) (c_id cap) ∧ (0 ≤ c_parent cap < c_id cap)%Z.
Proof using Hwf.
  intros [Hp _ _]%held_ok. apply parent_bounds in Hp; [tauto|apply Hwf].
Qed.

Lemma find_cap_parent_in_space_held s x :
  (∀ cap, Some cap ∈ s → held rt cap) → cap_parent_from_lineage (rt_caps rt) x = None →
  find_cap_parent_in_space s x = None.
Proof using Hwf.
  intros Hs Hx. apply first_some_None. intros j [cap|] Hj Hl; [|done].
  destruct (Z.eqb_spec (c_id cap) x) as [<-|]; [|done].
  destruct (held_ok cap) as [Hp _ _]; [|congruence].
  apply Hs. by eapply list_elem_of_lookup_2.
Qed.

(** The processes' capabilities add nothing to the lineage. *)
Lemma find_cap_parent_lineage x :
  find_cap_parent rt x = cap_parent_from_lineage (rt_caps rt) x.
Proof using Hwf.
  unfold find_cap_parent. destruct (cap_parent_from_lineage (rt_caps rt) x) eqn:Hx; [done|].
  apply first_some_None. intros j [p|] Hj Hl; [|done].
  assert (Hp : p ∈ live_processes (rt_processes rt)).
  { eapply list_elem_of_lookup_2. apply live_lookup; [apply Hwf|eauto]. }
  rewrite !find_cap_parent_in_space_held; [done|unfold held, holds..]; eauto.
Qed.

Lemma ancestor_walk_ext f g r fuel c :
  (∀ x, f x = g x) → ancestor_walk f r fuel c = ancestor_walk g r fuel c.
Proof using.
  intros H. revert c. induction fuel as [|fuel IH]; intros c; cbn; [done|].
  rewrite H. destruct (_ =? _)%Z, (cap_id_revoked r c), (g c); auto.
Qed.

(** The walk over ancestors and the mark say the same as the registry. *)
Lemma capability_live_iff cap :
  held rt cap → capability_live rt cap = true ↔ live rt cap.
Proof using Hwf.
  intros Hh. pose proof (held_ok cap Hh) as [Hp Hm _].
  destruct (held_known cap Hh) as [_ Hb].
  unfold capability_live, live, capability_has_revoked_ancestor, str_eqb.
  rewrite (ancestor_walk_ext _ _ _ _ _ find_cap_parent_lineage).
  destruct (ancestor_walk_decides _ (cw_registry rt Hwf) (c_parent cap)
              (walk_fuel (rt_caps rt)) ltac:(lia) ltac:(by right)) as (b & -> & Hwalk).
  cbn [default]. rewrite Hm, !andb_true_iff, !negb_true_iff, bool_decide_eq_true.
  unfold revoked. rewrite <-not_true_iff_false. split; [tauto|].
  intros [Hr Hg]. split_and!; [done|done| |done]. apply not_true_iff_false.
  rewrite Hwalk. intros (a & Ha & Hra). apply Hr.
  apply (closed_ancestor _ _ a (cw_closed rt Hwf)); [|done].
  destruct (decide (c_parent cap = 0%Z)) as [H0|H0].
  - rewrite H0 in Ha. apply ancestor_le in Ha; [|apply Hwf|done].
    apply revoked_known in Hra; [|apply Hwf]. unfold known_cap in Hra. lia.
  - eapply rtc_l; [split; eassumption|done].
Qed.

Lemma current_held p cap :
  current_process (rt_processes rt) = Some p → Some cap ∈ p_caps p → held rt cap.
Proof using Hwf.
  intros Hp Hc. exists p. split; [apply current_process_live; [apply Hwf|done]|by left].
Qed.
End wf.

(** What a lookup returns, and that it changes nothing. *)
Lemma lookup_capability_state slot right rt : (lookup_capability slot right rt).2 = rt.
Proof.
  unfold lookup_capability, rbind, rget, rlift, rguard, rret, rfail.
  repeat (case_match; simplify_eq/=; try done).
Qed.

Lemma lookup_capability_ok rt slot right cap rt' :
  caps_wf rt →
  lookup_capability slot right rt = (Ok cap, rt') ↔
  rt' = rt ∧ ∃ p, current_process (rt_processes rt) = Some p ∧
    cspace_lookup (p_caps p) slot = Some cap ∧ live rt cap ∧
    (right = 0%Z ∨ rights_le right (c_rights cap)).
Proof.
  intros Hwf. unfold lookup_capability. split.
  - intros H. run_ok H. split; [done|]. eexists. split_and!; [done|done| |].
    + apply capability_live_iff; [done| |done]. eapply current_held; [done|done|].
      by eapply cspace_lookup_elem.
    + match goal with H : _ || _ = true |- _ => apply orb_true_iff in H as [?|?] end;
        [left; lia|right]. by apply has_rights_le.
  - intros [-> (p & Hp & Hc & Hl & Hr)]. unfold rbind, rget, rlift. cbn. rewrite Hp; cbn.
    rewrite Hc; cbn. rewrite (proj2 (capability_live_iff rt Hwf cap ltac:(
      eapply current_held; [done|done|by eapply cspace_lookup_elem]))) by done. cbn.
    replace (_ || _) with true; [done|]. symmetry. apply orb_true_iff.
    destruct Hr as [->|Hr]; [by left|right; by apply has_rights_le].
Qed.

Lemma lookup_capability_err rt slot right e rt' :
  lookup_capability slot right rt = (Err e, rt') → rt' = rt ∧ e = BadCapability.
Proof.
  intros Hlk. pose proof (lookup_capability_state slot right rt) as Hs. rewrite Hlk in Hs.
  split; [done|]. unfold lookup_capability, rbind, rget, rlift, rguard, rfail, rret in Hlk.
  repeat (case_match; simplify_eq/=; try done);
    match goal with H : ok_or ?o _ = Err _ |- _ => destruct o; by simplify_eq/= end.
Qed.

(** * How authority may change *)

(** From [rt] to [rt'] revocations are kept, no derivation is forgotten, and
    every capability held afterwards comes from one held before: the same
    object, no more rights, and a derivation from it. *)
Record attenuates (rt rt' : RuntimeState) : Prop := mk_attenuates {
  at_generation : rt_generation_id rt' = rt_generation_id rt;
  at_revoked x : revoked (rt_caps rt) x → revoked (rt_caps rt') x;
  at_derived c p : derived_from (rt_caps rt) c p → derived_from (rt_caps rt') c p;
  at_held cap' : held rt' cap' → ∃ cap, held rt cap ∧
    c_object cap' = c_object cap ∧ rights_le (c_rights cap') (c_rights cap) ∧
    c_generation cap' = c_generation cap ∧
    rtc (derived_from (rt_caps rt')) (c_id cap') (c_id cap)
}.

#[export] Instance attenuates_preorder : PreOrder attenuates.
Proof.
  split.
  - intros rt. split; [done|done|done|]. intros cap Hh. exists cap.
    split_and!; [done|done|done|done|apply rtc_refl].
  - intros r1 r2 r3 [G1 R1 D1 H1] [G2 R2 D2 H2]. split; [congruence|eauto|eauto|].
    intros c3 (c2 & (c1 & Hc1 & Ho & Hr & Hg & Hd)%H1 & Ho' & Hr' & Hg' & Hd')%H2. exists c1.
    split_and!; [done|congruence|by etransitivity|congruence|].
    etransitivity; [done|]. clear -Hd D2. induction Hd; [apply rtc_refl|eapply rtc_l; eauto].
Qed.

(** The ancestor of a usable capability is usable. *)
Lemma attenuates_live rt rt' cap' :
  attenuates rt rt' → caps_wf rt' → held rt' cap' → live rt' cap' →
  ∃ cap, held rt cap ∧ live rt cap ∧ c_object cap' = c_object cap ∧
         rights_le (c_rights cap') (c_rights cap) ∧
         rtc (derived_from (rt_caps rt')) (c_id cap') (c_id cap).
Proof.
  intros [G R _ H] Hwf Hh [Hr Hg]. destruct (H cap' Hh) as (cap & Hc & Ho & Hri & Hge & Hd).
  exists cap. split_and!; try done. split; [|congruence].
  intros Hrev. apply Hr. eapply closed_ancestor; [apply Hwf|exact Hd|by apply R].
Qed.

(** ** Changes that do not touch capabilities *)

Definition same_holdings (p p' : Process) : Prop :=
  p_caps p' = p_caps p ∧ p_initial_caps p' = p_initial_caps p.

#[export] Instance same_holdings_preorder : PreOrder same_holdings.
Proof. split; [by intros p|]. intros p q r [??] [??]. split; congruence. Qed.

(** The two states hold the same capabilities, process by process. *)
Record same_caps (rt rt' : RuntimeState) : Prop := mk_same_caps {
  sc_registry : rt_caps rt' = rt_caps rt;
  sc_generation : rt_generation_id rt' = rt_generation_id rt;
  sc_table : ptable_wf (rt_processes rt) → ptable_wf (rt_processes rt');
  sc_processes : ptable_wf (rt_processes rt) →
    Forall2 same_holdings (live_processes (rt_processes rt)) (live_processes (rt_processes rt'))
}.

#[export] Instance same_caps_preorder : PreOrder same_caps.
Proof.
  split.
  - intros rt. by split.
  - intros r1 r2 r3 [E1 G1 T1 P1] [E2 G2 T2 P2]. split; [congruence|congruence|eauto|].
    intros Hwf. etransitivity; [by apply P1|]. by apply P2, T1.
Qed.

Lemma same_caps_held rt rt' cap :
  caps_wf rt → same_caps rt rt' → held rt' cap ↔ held rt cap.
Proof.
  intros Hwf [_ _ _ HF]. specialize (HF (cw_table rt Hwf)). unfold held. split.
  - intros (p' & [i Hi]%list_elem_of_lookup & Hh).
    destruct (Forall2_lookup_r _ _ _ _ _ HF Hi) as (p & Hp & [H1 H2]).
    exists p. split; [by eapply list_elem_of_lookup_2|]. unfold holds in *. by rewrite <-H1, <-H2.
  - intros (p & [i Hi]%list_elem_of_lookup & Hh).
    destruct (Forall2_lookup_l _ _ _ _ _ HF Hi) as (p' & Hp & [H1 H2]).
    exists p'. split; [by eapply list_elem_of_lookup_2|]. unfold holds in *. by rewrite H1, H2.
Qed.

Lemma same_caps_wf rt rt' : caps_wf rt → same_caps rt rt' → caps_wf rt'.
Proof.
  intros Hwf Hsc. pose proof Hsc as [Hr Hg Ht HF]. specialize (HF (cw_table rt Hwf)).
  destruct Hwf as [Htw Hrw Hcl Hh]. split; [auto|by rewrite Hr|by rewrite Hr|].
  rewrite Hr. apply Forall_forall. intros p' [i Hi]%list_elem_of_lookup.
  destruct (Forall2_lookup_r _ _ _ _ _ HF Hi) as (p & Hp & [H1 H2]).
  pose proof (Forall_lookup_1 _ _ _ _ Hh Hp) as [L1 L2 Hok].
  split; [congruence|congruence|]. unfold holds in *. by rewrite H1, H2.
Qed.

Lemma same_caps_attenuates rt rt' : caps_wf rt → same_caps rt rt' → attenuates rt rt'.
Proof.
  intros Hwf Hsc. split.
  - apply Hsc.
  - by rewrite (sc_registry _ _ Hsc).
  - by rewrite (sc_registry _ _ Hsc).
  - intros cap Hh%(same_caps_held rt rt'); [|done|done]. exists cap.
    split_and!; [done|done|done|done|apply rtc_refl].
Qed.

(** Writes to the process table that keep identifier and capabilities. *)
Lemma modify_same_caps rt i f :
  (∀ p, p_pid (f p) = p_pid p) → (∀ p, same_holdings p (f p)) →
  same_caps rt (rt <| rt_processes ::= λ t, modify_process_at t i f |>).
Proof.
  intros Hp Hs. split; [done|done| |].
  - intros Hwf. by apply modify_process_at_live.
  - intros Hwf. change (rt_processes (rt <| rt_processes ::= _ |>))
      with (modify_process_at (rt_processes rt) i f).
    destruct (modify_process_at_live (rt_processes rt) i f Hwf Hp) as [_ ->].
    apply Forall2_same_length_lookup_2; [by rewrite length_alter|].
    intros j p p' Hj. destruct (decide (i = j)) as [->|Hne].
    + rewrite list_lookup_alter_eq, Hj. intros [= <-]. apply Hs.
    + rewrite list_lookup_alter_ne by done. rewrite Hj. intros [= <-]. done.
Qed.

Lemma objects_same_caps rt t : same_caps rt (rt <| rt_objects := t |>).
Proof. by split. Qed.

(** ** Changes of what one process holds *)

Lemma list_elem_of_alter {A} (f : A → A) i (l : list A) y :
  y ∈ alter f i l → y ∈ l ∨ ∃ x, l !! i = Some x ∧ y = f x.
Proof.
  intros [j Hj]%list_elem_of_lookup. destruct (decide (i = j)) as [->|Hne].
  - rewrite list_lookup_alter_eq in Hj. apply fmap_Some in Hj as (x & Hx & ->). eauto.
  - rewrite list_lookup_alter_ne in Hj by done. left. by eapply list_elem_of_lookup_2.
Qed.

(** The shape of every grant and removal: process [i] keeps capabilities it
    had and may get [news], which agree with the registry. *)
Lemma modify_holdings rt i f (news : list Capability) :
  caps_wf rt → (∀ p, p_pid (f p) = p_pid p) → Forall (cap_ok (rt_caps rt)) news →
  (∀ p, live_processes (rt_processes rt) !! i = Some p →
        length (p_caps (f p)) = length (p_caps p) ∧
        length (p_initial_caps (f p)) = length (p_initial_caps p) ∧
        ∀ cap, holds (f p) cap → holds p cap ∨ cap ∈ news) →
  let rt' := rt <| rt_processes ::= λ t, modify_process_at t i f |> in
  caps_wf rt' ∧ ∀ cap, held rt' cap → held rt cap ∨ cap ∈ news.
Proof.
  intros Hwf Hpid Hnews Hf rt'. pose proof Hwf as [Ht Hr Hcl Hh].
  destruct (modify_process_at_live (rt_processes rt) i f Ht Hpid) as [Ht' Hlive].
  change (modify_process_at (rt_processes rt) i f) with (rt_processes rt') in *.
  split.
  - split; [done|done|done|]. rewrite Hlive. apply Forall_forall.
    intros p' [Hp|(p & Hp & ->)]%list_elem_of_alter; [by eapply Forall_forall in Hh|].
    pose proof (Forall_lookup_1 _ _ _ _ Hh Hp) as [L1 L2 Hok].
    destruct (Hf p Hp) as (F1 & F2 & F3). split; [congruence|congruence|].
    intros cap [Hc|Hc]%F3; [by apply Hok|]. by eapply Forall_forall in Hnews.
  - intros cap (p' & Hp' & Hc). rewrite Hlive in Hp'.
    apply list_elem_of_alter in Hp' as [Hp|(p & Hp & ->)]; [left; by exists p'|].
    destruct (Hf p Hp) as (_ & _ & F3). destruct (F3 cap Hc) as [Hc'|Hc']; [left|by right].
    exists p. split; [by eapply list_elem_of_lookup_2|done].
Qed.

(** A fresh capability. *)
Lemma mint_ok rt object rights owner parent by_ cap rt1 :
  caps_wf rt → is_u64 rights → (0 ≤ parent < next_cap_id (rt_caps rt))%Z →
  ¬ revoked (rt_caps rt) parent →
  rt_new_capability object rights owner parent by_ rt = (Ok cap, rt1) →
  caps_wf rt1 ∧ rt1 = rt <| rt_caps := rt_caps rt1 |> ∧
  cap = mkCapability (next_cap_id (rt_caps rt)) object rights owner parent
          (rt_generation_id rt) by_ false ∧
  cap_ok (rt_caps rt1) cap ∧
  (∀ x, revoked (rt_caps rt1) x ↔ revoked (rt_caps rt) x) ∧
  (∀ c, cap_parent_from_lineage (rt_caps rt1) c =
        if decide (c = next_cap_id (rt_caps rt)) then Some parent
        else cap_parent_from_lineage (rt_caps rt) c).
Proof.
  intros [Ht Hr Hcl Hh] Hu Hpar Hlive. unfold rt_new_capability.
  pose proof (new_capability_spec (rt_generation_id rt) (rt_caps rt) object rights owner parent by_ Hr)
    as Hspec.
  destruct (new_capability _ _ _ _ _ _ _) as [[c|e] reg] eqn:Hnew; intros [= <- <-].
  destruct Hspec as (Hc & _ & _).
  destruct (new_capability_wf _ _ _ _ _ _ _ _ _ Hr Hpar Hnew) as (Hr' & Hn & Hrev & Hpl).
  pose proof (new_capability_closed _ _ _ _ _ _ _ _ _ Hr Hcl Hpar Hlive Hnew) as Hcl'.
  change (rt_caps (rt <| rt_caps := reg |>)) with reg.
  assert (Hunrev : ∀ x, cap_id_revoked reg x = cap_id_revoked (rt_caps rt) x).
  { intros x. apply eq_bool_prop_intro. rewrite !Is_true_true. apply Hrev. }
  split_and!; [|done|done| |done|done].
  - split; [done|done|done|]. eapply Forall_impl; [exact Hh|]. intros p [L1 L2 Hok].
    split; [done|done|]. intros cap' Hc'. destruct (Hok cap' Hc') as [H1 H2 H3].
    apply parent_bounds in H1 as Hb; [|done]. destruct Hb as [_ Hk]. unfold known_cap in Hk.
    split; [|by rewrite Hunrev|done].
    change (rt_caps (rt <| rt_caps := reg |>)) with reg. by rewrite Hpl, decide_False by lia.
  - rewrite Hc. split; cbn; [by rewrite Hpl, decide_True| |done]. rewrite Hunrev.
    symmetry. apply not_true_iff_false. intros Hrv. apply revoked_known in Hrv; [|done].
    unfold known_cap in Hrv. lia.
Qed.

Lemma mint_err rt object rights owner parent by_ e rt1 :
  caps_wf rt → rt_new_capability object rights owner parent by_ rt = (Err e, rt1) →
  rt1 = rt ∧ e = BadCapability ∧ cap_lineage_count (rt_caps rt) = MAX_CAP_LINEAGE.
Proof.
  intros [_ Hr _ _]. unfold rt_new_capability.
  pose proof (new_capability_spec (rt_generation_id rt) (rt_caps rt) object rights owner parent by_ Hr)
    as Hspec.
  destruct (new_capability _ _ _ _ _ _ _) as [[c|e'] reg]; intros [= <- <-].
  destruct Hspec as (-> & -> & Hf). split_and!; [by destruct rt|done|done].
Qed.

(** The capabilities of a space after a grant and a removal. *)
Lemma cspace_grant_ok s slot cap s' :
  cspace_grant s slot cap = (Ok tt, s') →
  length s' = length s ∧ (∀ c, Some c ∈ s' → Some c ∈ s ∨ c = cap) ∧
  cspace_lookup s' slot = Some cap ∧
  (∀ slot', slot' ≠ slot → cspace_lookup s' slot' = cspace_lookup s slot').
Proof.
  unfold cspace_grant, cspace_lookup. destruct (slot_index s slot) as [i|] eqn:Hi; [|done].
  intros H. assert (s' = <[i := Some cap]> s) as -> by (repeat case_match; by simplify_eq).
  clear H. pose proof (slot_index_Some s slot i Hi) as [-> Hlt].
  assert (Hsi : ∀ z, slot_index (<[i := Some cap]> s) z = slot_index s z).
  { intros z. unfold slot_index. by rewrite length_insert. }
  split_and!.
  - by rewrite length_insert.
  - intros c [j Hj]%list_elem_of_lookup. destruct (decide (i = j)) as [->|Hne].
    + rewrite list_lookup_insert_eq in Hj by done. right. congruence.
    + rewrite list_lookup_insert_ne in Hj by done. left. by eapply list_elem_of_lookup_2.
  - by rewrite Hsi, Hi, list_lookup_insert_eq.
  - intros slot' Hne. rewrite Hsi. destruct (slot_index s slot') as [j|] eqn:Hj; [|done].
    apply slot_index_Some in Hj as [-> _]. rewrite list_lookup_insert_ne by lia. done.
Qed.

Lemma cspace_can_grant_ok s slot cap :
  cspace_can_grant s slot = true → ∃ s', cspace_grant s slot cap = (Ok tt, s').
Proof.
  unfold cspace_can_grant, cspace_grant. destruct (slot_index s slot) as [i|]; [|done].
  intros ->%bool_decide_eq_true. eauto.
Qed.

Lemma cspace_clear_cases s slot :
  match cspace_clear s slot with
  | (Ok cap, s') =>
      cspace_lookup s slot = Some cap ∧ length s' = length s ∧
      (∀ c, Some c ∈ s' → Some c ∈ s) ∧ cspace_lookup s' slot = None ∧
      (∀ slot', slot' ≠ slot → cspace_lookup s' slot' = cspace_lookup s slot')
  | (Err e, s') => s' = s ∧ e = BadCapability ∧ cspace_lookup s slot = None
  end.
Proof.
  unfold cspace_clear, cspace_lookup. destruct (slot_index s slot) as [i|] eqn:Hi; [|done].
  pose proof (slot_index_Some s slot i Hi) as [-> Hlt].
  destruct (s !! i) as [[cap|]|] eqn:Hs; [|done..].
  assert (Hsi : ∀ z, slot_index (<[i := None]> s) z = slot_index s z).
  { intros z. unfold slot_index. by rewrite length_insert. }
  split_and!; [done|by rewrite length_insert| | |].
  - intros c [j Hj]%list_elem_of_lookup. destruct (decide (i = j)) as [->|Hne].
    + by rewrite list_lookup_insert_eq in Hj.
    + rewrite list_lookup_insert_ne in Hj by done. by eapply list_elem_of_lookup_2.
  - by rewrite Hsi, Hi, list_lookup_insert_eq.
  - intros slot' Hne. rewrite Hsi. destruct (slot_index s slot') as [j|] eqn:Hj; [|done].
    apply slot_index_Some in Hj as [-> _]. rewrite list_lookup_insert_ne by lia. done.
Qed.

(** * Derivation *)

(** A fresh capability given to process [i]. *)
Lemma grant_minted rt object rights owner parent by_ cap rt1 i f :
  caps_wf rt → is_u64 rights → (0 ≤ parent < next_cap_id (rt_caps rt))%Z →
  ¬ revoked (rt_caps rt) parent →
  rt_new_capability object rights owner parent by_ rt = (Ok cap, rt1) →
  (∀ p, p_pid (f p) = p_pid p) →
  (∀ p, live_processes (rt_processes rt) !! i = Some p →
        length (p_caps (f p)) = length (p_caps p) ∧
        length (p_initial_caps (f p)) = length (p_initial_caps p) ∧
        ∀ c, holds (f p) c → holds p c ∨ c = cap) →
  let rt' := rt1 <| rt_processes ::= λ t, modify_process_at t i f |> in
  caps_wf rt' ∧ ∀ c, held rt' c → held rt c ∨ c = cap.
Proof.
  intros Hwf Hu Hb Hl Hmint Hpid Hf.
  destruct (mint_ok _ _ _ _ _ _ _ _ Hwf Hu Hb Hl Hmint) as (Hwf1 & Heq & _ & Hok & _).
  assert (Hproc : rt_processes rt1 = rt_processes rt) by (by rewrite Heq).
  destruct (modify_holdings rt1 i f [cap] Hwf1 Hpid) as [Hwf' Hheld].
  { by apply Forall_singleton. }
  { intros p. rewrite Hproc. intros (H1 & H2 & H3)%Hf. split_and!; [done|done|].
    intros c [Hc|Hc]%H3; [by left|right]. by apply list_elem_of_singleton. }
  split; [done|]. intros c [Hc| ->%list_elem_of_singleton]%Hheld; [left|by right].
  unfold held in *. by rewrite <-Hproc.
Qed.

(** A capability derived from a usable one, given to process [i]. *)
Lemma grant_attenuated rt src rights owner by_ cap rt1 i f :
  caps_wf rt → held rt src → live rt src → is_u64 rights → rights_le rights (c_rights src) →
  rt_new_capability (c_object src) rights owner (c_id src) by_ rt = (Ok cap, rt1) →
  (∀ p, p_pid (f p) = p_pid p) →
  (∀ p, live_processes (rt_processes rt) !! i = Some p →
        length (p_caps (f p)) = length (p_caps p) ∧
        length (p_initial_caps (f p)) = length (p_initial_caps p) ∧
        ∀ c, holds (f p) c → holds p c ∨ c = cap) →
  let rt' := rt1 <| rt_processes ::= λ t, modify_process_at t i f |> in
  caps_wf rt' ∧ attenuates rt rt'.
Proof.
  intros Hwf Hh [Hl Hg] Hu Hle Hmint Hpid Hf. destruct (held_known rt Hwf src Hh) as [Hk Hb].
  unfold known_cap in Hk.
  assert (Hpb : (0 ≤ c_id src < next_cap_id (rt_caps rt))%Z) by lia.
  destruct (mint_ok _ _ _ _ _ _ _ _ Hwf Hu Hpb Hl Hmint) as (_ & Heq & Hcap & _ & Hrev & Hpl).
  destruct (grant_minted _ _ _ _ _ _ _ _ i f Hwf Hu Hpb Hl Hmint Hpid Hf) as [Hwf' Hheld].
  split; [done|]. split.
  - by rewrite Heq.
  - intros x. apply Hrev.
  - intros c p [Hp Hp0]. split; [|done]. unfold set; cbn. rewrite Hpl.
    apply parent_bounds in Hp as Hb'; [|apply Hwf]. destruct Hb' as [_ Hk'].
    unfold known_cap in Hk'. by rewrite decide_False by lia.
  - intros c [Hc| ->]%Hheld.
    + exists c. split_and!; [done|done|done|done|apply rtc_refl].
    + exists src. split_and!; [done|by rewrite Hcap|by rewrite Hcap|by rewrite Hcap|].
      apply rtc_once. split; [|lia]. unfold set; cbn. rewrite Hpl, Hcap. cbn. by rewrite decide_True.
Qed.

(** A process with another capability space. *)
Definition with_caps (s : list (option Capability)) (p : Process) : Process := p <| p_caps := s |>.

(** What [cap_derive] and [cap_copy] do. *)
Definition derived_ok (src_slot dst_slot mask : Z) (rt rt' : RuntimeState) : Prop :=
  ∃ i p src s cap,
    current_index (rt_processes rt) = Some i ∧ current_process (rt_processes rt) = Some p ∧
    cspace_lookup (p_caps p) src_slot = Some src ∧ live rt src ∧
    mask ≠ 0%Z ∧ rights_le mask (c_rights src) ∧
    cspace_grant (p_caps p) dst_slot cap = (Ok tt, s) ∧
    cap = mkCapability (next_cap_id (rt_caps rt)) (c_object src) mask (p_pid p) (c_id src)
            (rt_generation_id rt) (p_pid p) false ∧
    rt_processes rt' = modify_process_at (rt_processes rt) i (with_caps s) ∧
    cap_parent_from_lineage (rt_caps rt') (c_id cap) = Some (c_id src) ∧
    caps_wf rt' ∧ attenuates rt rt'.

Lemma grant_to_current_ok rt i p s slot cap :
  caps_wf rt → current_index (rt_processes rt) = Some i →
  current_process (rt_processes rt) = Some p → cspace_grant (p_caps p) slot cap = (Ok tt, s) →
  grant_to_current slot cap rt =
  (Ok tt, rt <| rt_processes ::= λ t, modify_process_at t i (with_caps s) |>).
Proof.
  intros Hwf Hi Hp Hs. unfold grant_to_current. rewrite Hi.
  destruct (current_index_process _ i (cw_table rt Hwf) Hi) as (q & Hq & _ & ->).
  simplify_eq. by rewrite Hs.
Qed.

(** The common shape of [cap_derive] and [cap_copy]. *)
Lemma derive_cases rt src_slot dst_slot mask :
  caps_wf rt → is_u64 mask →
  match (let! src := lookup_capability src_slot 0 in grant_derived src dst_slot mask) rt with
  | (Ok _, rt') => derived_ok src_slot dst_slot mask rt rt'
  | (Err e, rt') => rt' = rt ∧ e = BadCapability
  end.
Proof.
  intros Hwf Hu. unfold rbind at 1.
  destruct (lookup_capability src_slot 0 rt) as [[src|e] rt0] eqn:Hlk.
  2: { by apply lookup_capability_err in Hlk. }
  apply lookup_capability_ok in Hlk as (-> & p & Hp & Hsrc & Hlive & _); [|done].
  unfold grant_derived, rbind, rguard, rget, rlift, rret, rfail.
  destruct (mask_exceeds mask (c_rights src)) eqn:Hm; cbn; [done|]. rewrite Hp; cbn.
  destruct (cspace_can_grant (p_caps p) dst_slot) eqn:Hcan; cbn; [|done].
  assert (Hh : held rt src).
  { eapply current_held; [done|done|by eapply cspace_lookup_elem]. }
  apply mask_exceeds_false in Hm as [Hm0 Hmle]; [|done|by apply (held_ok rt Hwf src Hh)].
  destruct (rt_new_capability _ _ _ _ _ rt) as [[cap|e] rt1] eqn:Hmint.
  2: { apply mint_err in Hmint as (-> & -> & _); done. }
  destruct (current_process_index _ _ Hp) as [i Hi].
  destruct (cspace_can_grant_ok (p_caps p) dst_slot cap Hcan) as [s Hs].
  destruct (held_known rt Hwf src Hh) as [Hk _]. unfold known_cap in Hk.
  assert (Hpb : (0 ≤ c_id src < next_cap_id (rt_caps rt))%Z) by lia.
  destruct (mint_ok _ _ _ _ _ _ _ _ Hwf Hu Hpb (proj1 Hlive) Hmint)
    as (Hwf1 & Heq & Hcap & Hok & _).
  assert (Hproc : rt_processes rt1 = rt_processes rt) by (by rewrite Heq).
  rewrite (grant_to_current_ok rt1 i p s) by (by rewrite ?Hproc).
  pose proof (cspace_grant_ok _ _ _ _ Hs) as (Hlen & Hin & _).
  assert (Hatt : let rt' := rt1 <| rt_processes ::= λ t, modify_process_at t i (with_caps s) |> in
                 caps_wf rt' ∧ attenuates rt rt').
  { apply (grant_attenuated rt src mask (p_pid p) (p_pid p) cap rt1); try done.
    intros q Hq. destruct (current_index_process _ i (cw_table rt Hwf) Hi) as (q' & Hq' & Hlk & _).
    simplify_eq. split_and!; [done|done|]. unfold holds; cbn.
    intros c [[Hc|Hc]%Hin|Hc]; tauto. }
  destruct Hatt as [Hwf' Hatt]. exists i, p, src, s, cap. split_and!; try done.
  - change (rt_processes (rt1 <| rt_processes ::= _ |>))
      with (modify_process_at (rt_processes rt1) i (with_caps s)). by rewrite Hproc.
  - pose proof (co_parent _ _ Hok) as Hpar. rewrite Hcap in Hpar |- *. exact Hpar.
Qed.

(** * Removal and move *)

Lemma clear_from_current_cases rt slot :
  caps_wf rt →
  match clear_from_current slot rt with
  | (Ok cap, rt') =>
      ∃ i p s, current_index (rt_processes rt) = Some i ∧
        current_process (rt_processes rt) = Some p ∧ cspace_clear (p_caps p) slot = (Ok cap, s) ∧
        rt' = rt <| rt_processes ::= λ t, modify_process_at t i (with_caps s) |> ∧
        caps_wf rt' ∧ attenuates rt rt'
  | (Err e, rt') => rt' = rt ∧ e = BadCapability
  end.
Proof.
  intros Hwf. unfold clear_from_current. destruct (current_index _) as [i|] eqn:Hi; [|done].
  destruct (current_index_process _ i (cw_table rt Hwf) Hi) as (p & Hp & Hlive & ->).
  pose proof (cspace_clear_cases (p_caps p) slot) as Hc.
  destruct (cspace_clear (p_caps p) slot) as [[cap|e] s] eqn:Hs; [|by destruct Hc as (_ & -> & _)].
  destruct Hc as (_ & Hlen & Hin & _). exists i, p, s.
  destruct (modify_holdings rt i (with_caps s) [] Hwf) as [Hwf' Hheld]; [done|constructor| |].
  { intros q Hq. simplify_eq. split_and!; [done|done|]. intros c [Hc|Hc]; left; [left|by right].
    by apply Hin. }
  split_and!; try done. split; [done..|].
  intros c [Hc|Hc]%Hheld; [|by apply not_elem_of_nil in Hc].
  exists c. split_and!; [done|done|done|done|apply rtc_refl].
Qed.

Lemma release_root_same_caps object rt :
  same_caps rt (release_unreferenced_derived_vfs_root object rt).
Proof.
  unfold release_unreferenced_derived_vfs_root. case_match; [done|]. apply objects_same_caps.
Qed.

Lemma cap_drop_cases rt slot :
  caps_wf rt →
  match cap_drop slot rt with
  | (Ok _, rt') =>
      ∃ i p s cap, current_index (rt_processes rt) = Some i ∧
        current_process (rt_processes rt) = Some p ∧ cspace_clear (p_caps p) slot = (Ok cap, s) ∧
        rt_processes rt' = modify_process_at (rt_processes rt) i (with_caps s) ∧
        caps_wf rt' ∧ attenuates rt rt'
  | (Err e, rt') => rt' = rt ∧ e = BadCapability
  end.
Proof.
  intros Hwf. unfold cap_drop, rbind. pose proof (clear_from_current_cases rt slot Hwf) as Hc.
  destruct (clear_from_current slot rt) as [[cap|e] rt1]; [|done].
  destruct Hc as (i & p & s & Hi & Hp & Hs & Heq & Hwf1 & Hatt). cbn.
  pose proof (release_root_same_caps (c_object cap) rt1) as Hsc.
  exists i, p, s, cap. split_and!; [done|done|done| |by eapply same_caps_wf|].
  - rewrite Heq. unfold release_unreferenced_derived_vfs_root. by case_match.
  - etransitivity; [done|]. by apply same_caps_attenuates.
Qed.

Lemma cspace_clear_can_grant s source target cap s' :
  cspace_clear s source = (Ok cap, s') → cspace_can_grant s target = true →
  cspace_can_grant s' target = true.
Proof.
  unfold cspace_clear, cspace_can_grant.
  destruct (slot_index s source) as [k|] eqn:Hk; [|done].
  destruct (s !! k) as [[c|]|] eqn:Hc; intros [= <- <-].
  assert (slot_index (<[k:=None]> s) target = slot_index s target) as ->
    by (unfold slot_index; by rewrite length_insert).
  destruct (slot_index s target) as [j|]; [|done]. rewrite !bool_decide_eq_true.
  intros Hj. rewrite list_lookup_insert_ne; [done|]. intros ->. congruence.
Qed.

(** A move takes the capability out of one slot and puts the same capability
    into another. *)
Lemma cap_move_cases rt source_slot target_slot :
  caps_wf rt →
  match cap_move source_slot target_slot rt with
  | (Ok _, rt') =>
      ∃ i p s s' cap, current_index (rt_processes rt) = Some i ∧
        current_process (rt_processes rt) = Some p ∧
        cspace_clear (p_caps p) source_slot = (Ok cap, s) ∧
        cspace_grant s target_slot cap = (Ok tt, s') ∧
        rt_processes rt' = modify_process_at (rt_processes rt) i (with_caps s') ∧
        rt_caps rt' = rt_caps rt ∧ caps_wf rt' ∧ attenuates rt rt'
  | (Err e, rt') => rt' = rt ∧ e = BadCapability
  end.
Proof.
  intros Hwf. unfold cap_move, rbind, rget, rlift, rguard, rfail, rret. cbn.
  destruct (current_process (rt_processes rt)) as [p|] eqn:Hp; cbn; [|done].
  destruct (cspace_can_grant (p_caps p) target_slot) eqn:Hcan; cbn; [|done].
  pose proof (clear_from_current_cases rt source_slot Hwf) as Hc.
  destruct (clear_from_current source_slot rt) as [[cap|e] rt1]; [|done].
  destruct Hc as (i & p' & s & Hi & Hp' & Hs & Heq & Hwf1 & Hatt).
  rewrite Hp in Hp'. injection Hp' as <-.
  pose proof (cspace_clear_cases (p_caps p) source_slot) as Hc. rewrite Hs in Hc.
  destruct Hc as (Hlk & Hlen & Hin & _).
  destruct (cspace_can_grant_ok s target_slot cap) as [s' Hs'];
    [by eapply cspace_clear_can_grant|].
  pose proof (cspace_grant_ok _ _ _ _ Hs') as (Hlen' & Hin' & _).
  assert (Hi1 : current_index (rt_processes rt1) = Some i ∧
                current_process (rt_processes rt1) = Some (with_caps s p)).
  { rewrite Heq. clear Heq. revert Hi Hp. unfold current_index, current_process.
    change (pt_current (rt_processes (rt <| rt_processes ::= _ |>))) with (pt_current (rt_processes rt)).
    destruct (pt_current (rt_processes rt)) as [pid|]; [|done]. cbn. intros Hi Hp.
    split; [|by apply process_modify; [apply Hwf|..]].
    etransitivity; [apply process_index_modify; [apply Hwf|done]|done]. }
  destruct Hi1 as [Hi1 Hp1]. rewrite (grant_to_current_ok rt1 i (with_caps s p) s') by done.
  exists i, p, s, s', cap.
  destruct (modify_holdings rt i (with_caps s') [] Hwf) as [Hwf' Hheld]; [done|constructor| |].
  { intros q Hq. destruct (current_index_process _ i (cw_table rt Hwf) Hi) as (q' & Hq' & Hlq & _).
    simplify_eq. split_and!; [cbn; congruence|done|]. unfold holds; cbn.
    intros c [[Hc| ->]%Hin'|Hc]; left; [left; by apply Hin|left; by eapply cspace_lookup_elem|by right]. }
  assert (Hst : rt1 <| rt_processes ::= λ t, modify_process_at t i (with_caps s') |> =
                rt <| rt_processes ::= λ t, modify_process_at t i (with_caps s') |>).
  { rewrite Heq. unfold set; cbn. f_equal. apply (modify_process_at_twice _ i). }
  rewrite Hst. split_and!; try done. split; [done..|].
  intros c [Hc|Hc]%Hheld; [|by apply not_elem_of_nil in Hc].
  exists c. split_and!; [done|done|done|done|apply rtc_refl].
Qed.

(** * Transfer *)

(** The effect of a transfer: the target gets a capability derived from the
    caller's, also for its next start when it is only declared. *)
Definition transferred_ok (cap_slot target_pid target_slot mask : Z) (rt rt' : RuntimeState) : Prop :=
  ∃ i caller target src cap f,
    current_process (rt_processes rt) = Some caller ∧
    process_index (rt_processes rt) target_pid = Some i ∧
    process (rt_processes rt) target_pid = Some target ∧
    cspace_lookup (p_caps caller) cap_slot = Some src ∧ live rt src ∧
    mask ≠ 0%Z ∧ rights_le mask (c_rights src) ∧
    cap = mkCapability (next_cap_id (rt_caps rt)) (c_object src) mask target_pid (c_id src)
            (rt_generation_id rt) (p_pid caller) false ∧
    rt_processes rt' = modify_process_at (rt_processes rt) i f ∧
    cspace_lookup (p_caps (f target)) target_slot = Some cap ∧
    (p_initial_caps (f target) = p_initial_caps target ∨
     p_state target = PsDeclared ∧ cspace_lookup (p_initial_caps (f target)) target_slot = Some cap) ∧
    caps_wf rt' ∧ attenuates rt rt'.

Lemma grant_transferred_ok rt i target pid slot (persist : bool) cap :
  caps_wf rt → process_index (rt_processes rt) pid = Some i →
  process (rt_processes rt) pid = Some target →
  cspace_can_grant (p_caps target) slot = true →
  negb persist || cspace_can_grant (p_initial_caps target) slot = true →
  ∃ s s', grant_transferred pid slot persist cap rt =
    (Ok tt, rt <| rt_processes ::= λ t, modify_process_at t i (λ p,
       if persist then p <| p_caps := s |> <| p_initial_caps := s' |> else p <| p_caps := s |>) |>) ∧
    cspace_grant (p_caps target) slot cap = (Ok tt, s) ∧
    (persist = true → cspace_grant (p_initial_caps target) slot cap = (Ok tt, s')).
Proof.
  intros Hwf Hi Ht Hcan Hcan'. destruct (cspace_can_grant_ok _ _ cap Hcan) as [s Hs].
  unfold grant_transferred. rewrite Hi.
  destruct (process_index_process _ pid i (cw_table rt Hwf) Hi) as (q & Hq & _ & ->).
  simplify_eq. rewrite Hs. destruct persist; cbn in Hcan'.
  - destruct (cspace_can_grant_ok _ _ cap Hcan') as [s' Hs']. rewrite Hs'. eauto.
  - exists s, s. split_and!; done.
Qed.

Lemma object_from_cap_state {A} (get : ObjectTable → KernelObjectId → option A) slot right rt r rt' :
  object_from_cap get slot right rt = (r, rt') →
  rt' = rt ∧ (∀ e, r = Err e → e = BadCapability).
Proof.
  unfold object_from_cap, rbind, rget, rlift.
  destruct (lookup_capability slot right rt) as [[cap|e] rt1] eqn:Hlk.
  - pose proof (lookup_capability_state slot right rt) as Hs. rewrite Hlk in Hs. cbn in Hs. subst rt1.
    destruct (get (rt_objects rt) (c_object cap)); cbn; naive_solver.
  - apply lookup_capability_err in Hlk as [-> ->]. naive_solver.
Qed.

Lemma is_u64_shiftr x n : is_u64 x → (0 ≤ n)%Z → is_u64 (Z.shiftr x n).
Proof.
  unfold is_u64. intros Hx Hn. rewrite Z.shiftr_div_pow2 by done.
  split; [apply Z.div_pos; lia|]. pose proof (Z.pow_pos_nonneg 2 n ltac:(lia) Hn).
  transitivity x; [|lia]. apply Z.div_le_upper_bound; nia.
Qed.

Lemma cap_transfer_cases rt control_slot target_pid packed :
  caps_wf rt → is_u64 packed →
  match cap_transfer control_slot target_pid packed rt with
  | (Ok _, rt') =>
      transferred_ok (Z.land packed 65535) target_pid (Z.land (Z.shiftr packed 16) 65535)
        (Z.shiftr packed 32) rt rt'
  | (Err e, rt') => rt' = rt ∧ e = BadCapability
  end.
Proof.
  intros Hwf Hpk. unfold cap_transfer. set (mask := Z.shiftr packed 32).
  set (dst := Z.land (Z.shiftr packed 16) 65535).
  assert (Hu : is_u64 mask) by (apply is_u64_shiftr; [done|lia]).
  unfold rbind at 1. destruct (process_control_from_cap _ _ rt) as [[c|e] rt0] eqn:Hctl;
    apply object_from_cap_state in Hctl as [-> He]; [|split; [done|by apply He]].
  unfold rbind at 1. destruct (lookup_capability _ 0 rt) as [[src|e] rt0] eqn:Hlk.
  2: { by apply lookup_capability_err in Hlk. }
  apply lookup_capability_ok in Hlk as (-> & p & Hp & Hsrc & Hlive & _); [|done].
  unfold rbind, rguard, rget, rlift, rret, rfail.
  destruct (mask_exceeds mask (c_rights src)) eqn:Hm; cbn; [done|]. rewrite Hp; cbn.
  destruct (process (rt_processes rt) target_pid) as [target|] eqn:Ht; cbn; [|done].
  destruct (cspace_can_grant (p_caps target) dst) eqn:Hcan; cbn; [|done].
  destruct (negb _ || cspace_can_grant (p_initial_caps target) dst) eqn:Hcan'; cbn; [|done].
  assert (Hh : held rt src).
  { eapply current_held; [done|done|by eapply cspace_lookup_elem]. }
  apply mask_exceeds_false in Hm as [Hm0 Hmle]; [|done|by apply (held_ok rt Hwf src Hh)].
  destruct (rt_new_capability _ _ _ _ _ rt) as [[cap|e] rt1] eqn:Hmint.
  2: { apply mint_err in Hmint as (-> & -> & _); done. }
  destruct (process_process_index _ _ _ Ht) as [i Hi].
  destruct (held_known rt Hwf src Hh) as [Hk _]. unfold known_cap in Hk.
  assert (Hpb : (0 ≤ c_id src < next_cap_id (rt_caps rt))%Z) by lia.
  destruct (mint_ok _ _ _ _ _ _ _ _ Hwf Hu Hpb (proj1 Hlive) Hmint) as (Hwf1 & Heq & Hcap & _).
  assert (Hproc : rt_processes rt1 = rt_processes rt) by (by rewrite Heq).
  set (persist := bool_decide _) in *.
  destruct (grant_transferred_ok rt1 i target target_pid dst persist cap) as (s & s' & Hrun & Hs & Hs');
    [done|by rewrite ?Hproc..|done|done|].
  rewrite Hrun. set (f := λ p : Process, if persist then _ else _) in *.
  pose proof (cspace_grant_ok _ _ _ _ Hs) as (Hlen & Hin & Hget & _).
  assert (Hatt : let rt' := rt1 <| rt_processes ::= λ t, modify_process_at t i f |> in
                 caps_wf rt' ∧ attenuates rt rt').
  { apply (grant_attenuated rt src mask target_pid (p_pid p) cap rt1); try done.
    { intros q. unfold f. by destruct persist. }
    intros q Hq. destruct (process_index_process _ _ i (cw_table rt Hwf) Hi) as (q' & Hq' & Hlq & _).
    simplify_eq. unfold f, holds. destruct persist; cbn.
    - pose proof (cspace_grant_ok _ _ _ _ (Hs' eq_refl)) as (Hlen2 & Hin2 & _).
      split_and!; [done|done|]. intros c0 [[Hc|Hc]%Hin|[Hc|Hc]%Hin2]; tauto.
    - split_and!; [done|done|]. intros c0 [[Hc|Hc]%Hin|Hc]; tauto. }
  destruct Hatt as [Hwf' Hatt]. exists i, p, target, src, cap, f. split_and!; try done.
  - change (rt_processes (rt1 <| rt_processes ::= _ |>))
      with (modify_process_at (rt_processes rt1) i f). by rewrite Hproc.
  - unfold f. by destruct persist.
  - unfold f, persist in *. case_bool_decide; cbn; [right|by left]. split; [done|].
    by apply (cspace_grant_ok _ _ _ _ (Hs' eq_refl)).
Qed.

(** * Revocation *)

(** The mark of all identifiers of a list. *)
Definition mark_in (ids : list Z) (cap : Capability) : Capability :=
  if decide (c_id cap ∈ ids) then cap <| c_revoked := true |> else cap.
Definition mark_space (ids : list Z) (s : list (option Capability)) : list (option Capability) :=
  (option_map (mark_in ids)) <$> s.
Definition mark_process_in (ids : list Z) (p : Process) : Process :=
  p <| p_caps ::= mark_space ids |> <| p_initial_caps ::= mark_space ids |>.

Lemma map_upto_length {A} (g : A → A) (l : list A) : map_upto g l (length l) = g <$> l.
Proof. induction l as [|x l IH]; cbn; [done|]. by rewrite IH. Qed.

Lemma mark_in_cons ids id cap : mark_in ids (mark_in [id] cap) = mark_in (id :: ids) cap.
Proof.
  unfold mark_in. destruct (decide (c_id cap ∈ [id])) as [H1|H1].
  - change (c_id (cap <| c_revoked := true |>)) with (c_id cap).
    rewrite (decide_True (P := c_id cap ∈ id :: ids)) by (set_solver). by case_decide.
  - destruct (decide (c_id cap ∈ ids)).
    + by rewrite decide_True by set_solver.
    + by rewrite decide_False by set_solver.
Qed.

Lemma cspace_mark_revoked_in s id : cspace_mark_revoked s id = mark_space [id] s.
Proof.
  unfold cspace_mark_revoked. rewrite map_upto_length. apply list_fmap_ext.
  intros i [cap|] _; [|done]. cbn. unfold mark_in.
  destruct (Z.eqb_spec (c_id cap) id);
    [rewrite decide_True by set_solver|rewrite decide_False by set_solver]; done.
Qed.

Lemma mark_process_in_one id p : mark_process id p = mark_process_in [id] p.
Proof.
  unfold mark_process, mark_process_in, set; cbn -[cspace_mark_revoked mark_space].
  by rewrite !cspace_mark_revoked_in.
Qed.

Lemma mark_process_in_cons ids id p :
  mark_process_in ids (mark_process_in [id] p) = mark_process_in (id :: ids) p.
Proof.
  assert (Hs : ∀ s, mark_space ids (mark_space [id] s) = mark_space (id :: ids) s).
  { intros s. unfold mark_space. rewrite <-list_fmap_compose. apply list_fmap_ext.
    intros i [cap|] _; cbn; [by rewrite mark_in_cons|done]. }
  unfold mark_process_in, set; cbn -[mark_space]. by rewrite !Hs.
Qed.

Lemma mark_process_in_nil p : mark_process_in [] p = p.
Proof.
  assert (H : ∀ s, mark_space [] s = s).
  { intros s. transitivity (id <$> s); [|apply list_fmap_id]. apply list_fmap_ext.
    by intros i [cap|]. }
  unfold mark_process_in, set; cbn -[mark_space]. rewrite !H. by destruct p.
Qed.

Lemma mark_all_live ids t :
  ptable_wf t →
  ptable_wf (foldl mark_cap_revoked t ids) ∧
  pt_current (foldl mark_cap_revoked t ids) = pt_current t ∧
  live_processes (foldl mark_cap_revoked t ids) = mark_process_in ids <$> live_processes t.
Proof.
  revert t. induction ids as [|id ids IH]; intros t Hwf; cbn [foldl].
  { split_and!; [done|done|]. symmetry. transitivity (id <$> live_processes t);
      [|apply list_fmap_id]. apply list_fmap_ext. intros. apply mark_process_in_nil. }
  destruct (map_processes_live t (mark_process id) Hwf) as [Hwf1 Hl1]; [done|].
  destruct (IH (mark_cap_revoked t id) Hwf1) as (Hwf2 & Hc2 & Hl2).
  split_and!; [done|done|]. rewrite Hl2. unfold mark_cap_revoked. rewrite Hl1.
  rewrite <-list_fmap_compose. apply list_fmap_ext. intros i p _. cbn.
  by rewrite mark_process_in_one, mark_process_in_cons.
Qed.

Lemma holds_mark ids p cap' :
  holds (mark_process_in ids p) cap' ↔ ∃ cap, holds p cap ∧ cap' = mark_in ids cap.
Proof.
  assert (Hs : ∀ s : list (option Capability),
    Some cap' ∈ mark_space ids s ↔ ∃ cap, Some cap ∈ s ∧ cap' = mark_in ids cap).
  { intros s. unfold mark_space. rewrite list_elem_of_fmap. split.
    - intros ([cap|] & Heq & Hin); simplify_eq/=. eauto.
    - intros (cap & Hin & ->). by exists (Some cap). }
  unfold holds, mark_process_in, set; cbn -[mark_space]. rewrite !Hs. naive_solver.
Qed.

(** The whole of [revoke_cap_id], registry and processes. *)
Lemma rt_revoke_ok rt id :
  caps_wf rt → known_cap (rt_caps rt) id →
  ∃ rt', rt_revoke_cap_id id rt = (Ok tt, rt') ∧ caps_wf rt' ∧ attenuates rt rt' ∧
    rt_objects rt' = rt_objects rt ∧ same_forest (rt_caps rt) (rt_caps rt') ∧
    (∀ x, revoked (rt_caps rt') x ↔ revoked (rt_caps rt) x ∨ rtc (derived_from (rt_caps rt)) x id).
Proof.
  intros Hwf Hk. pose proof Hwf as [Ht Hr Hcl Hh]. unfold rt_revoke_cap_id.
  destruct (revoke_cap_id_spec (rt_caps rt) id Hr Hcl Hk) as (reg & -> & Hr' & Hsf & Hcl' & Hrev).
  set (ids := take (revoked_cap_count reg) (revoked_caps reg)).
  destruct (mark_all_live ids (rt_processes rt) Ht) as (Ht' & _ & Hl').
  change (foldl mark_cap_revoked (rt_processes rt) ids) with
    (mark_all_revoked_caps reg (rt_processes rt)) in *.
  eexists. split; [done|].
  set (rt' := rt <| rt_caps := reg |> <| rt_processes ::= mark_all_revoked_caps reg |>).
  assert (Hhold : ∀ cap', held rt' cap' → ∃ cap, held rt cap ∧ cap' = mark_in ids cap).
  { intros cap' (p' & Hp' & Hc'). change (rt_processes rt') with
      (mark_all_revoked_caps reg (rt_processes rt)) in Hp'. rewrite Hl' in Hp'.
    apply list_elem_of_fmap in Hp' as (p & -> & Hp). apply holds_mark in Hc' as (cap & Hc & ->).
    exists cap. split; [by exists p|done]. }
  assert (Hmark : ∀ cap, c_id (mark_in ids cap) = c_id cap ∧ c_object (mark_in ids cap) = c_object cap ∧
     c_rights (mark_in ids cap) = c_rights cap ∧ c_parent (mark_in ids cap) = c_parent cap ∧
     c_generation (mark_in ids cap) = c_generation cap).
  { intros cap. unfold mark_in. by case_decide. }
  split_and!.
  - split; [done|done|done|]. change (rt_processes rt') with
      (mark_all_revoked_caps reg (rt_processes rt)). rewrite Hl'. apply Forall_fmap.
    eapply Forall_impl; [exact Hh|]. intros p [L1 L2 Hok].
    split; [unfold mark_process_in, mark_space, set; cbn; by rewrite length_fmap..|].
    intros cap' (cap & Hc & ->)%holds_mark. destruct (Hok cap Hc) as [H1 H2 H3].
    destruct (Hmark cap) as (E1 & _ & E3 & E4 & _). change (rt_caps rt') with reg. split.
    + rewrite E1, E4, (same_forest_parent (rt_caps rt)) by done. done.
    + rewrite E1. unfold mark_in. case_decide as Hd.
      * symmetry. by apply revoked_elem in Hd.
      * rewrite H2. destruct (cap_id_revoked reg (c_id cap)) eqn:Hq.
        { exfalso. by apply Hd, revoked_elem. }
        apply not_true_iff_false. intros Hold. apply not_true_iff_false in Hq. apply Hq.
        apply Hrev. by left.
    + by rewrite E3.
  - split.
    + done.
    + intros x Hx. apply Hrev. by left.
    + intros c p. by apply same_forest_derived.
    + intros cap' (cap & Hc & ->)%Hhold. exists cap.
      destruct (Hmark cap) as (-> & -> & -> & _ & ->).
      split_and!; [done|done|done|done|apply rtc_refl].
  - done.
  - done.
  - done.
Qed.
