(* ===== verification/NewAuthority.v ===== *)
(** The calls that bring authority into the running system which no held
    capability carried before: resolving a name in a namespace
    ([namespace_grant]), creating an endpoint ([endpoint_create]) and deriving
    a VFS root ([vfs_derive_root_path]). Each of them mints one capability, and
    [creates] says which. *)

From S2P Require Import Prelude KernelBase Transport VfsPath KernelObjects.
From S2P Require Import ObjectTableProofs ProcessRuntime ProcessTableProofs CapRegistry.
From S2P Require Import VfsState Runtime VfsNodes CapabilitySyscalls VfsSyscalls CapabilityProofs.
From stdpp Require Import relations.

(** * Minting *)

(** One fresh capability [cap] appears and nothing else changes in who holds
    what; the registry records its parent and forgets nothing. *)
Record mints (rt rt' : RuntimeState) (cap : Capability) : Prop := mk_mints {
  mi_wf : caps_wf rt';
  mi_generation : rt_generation_id rt' = rt_generation_id rt;
  mi_revoked x : revoked (rt_caps rt') x ↔ revoked (rt_caps rt) x;
  mi_derived c p : derived_from (rt_caps rt) c p → derived_from (rt_caps rt') c p;
  mi_parent : cap_parent_from_lineage (rt_caps rt') (c_id cap) = Some (c_parent cap);
  mi_held c : held rt' c → held rt c ∨ c = cap
}.

(** [slot] of the current process [p] holds the usable capability [cap], which
    carries [right]. *)
Definition usable (rt : RuntimeState) (slot right : Z) (p : Process) (cap : Capability) : Prop :=
  current_process (rt_processes rt) = Some p ∧ cspace_lookup (p_caps p) slot = Some cap ∧
  live rt cap ∧ (right = 0%Z ∨ rights_le right (c_rights cap)).

Lemma usable_held rt slot right p cap : caps_wf rt → usable rt slot right p cap → held rt cap.
Proof. intros Hwf (Hp & Hc & _). eapply current_held; [done|done|by eapply cspace_lookup_elem]. Qed.

(** A usable capability can be the parent of a new one. *)
Lemma usable_parent rt slot right p cap :
  caps_wf rt → usable rt slot right p cap →
  (0 ≤ c_id cap < next_cap_id (rt_caps rt))%Z ∧ ¬ revoked (rt_caps rt) (c_id cap).
Proof.
  intros Hwf Hu. destruct (held_known rt Hwf cap (usable_held _ _ _ _ _ Hwf Hu)) as [Hk _].
  unfold known_cap in Hk. destruct Hu as (_ & _ & [Hr _] & _). split; [lia|done].
Qed.

(** So can the identifier 0, which is no capability. *)
Lemma no_parent rt :
  caps_wf rt → (0 ≤ 0 < next_cap_id (rt_caps rt))%Z ∧ ¬ revoked (rt_caps rt) 0.
Proof.
  intros Hwf. split; [rewrite (rw_next _ (cw_registry _ Hwf)); lia|].
  intros Hr. apply revoked_known in Hr; [|apply Hwf]. unfold known_cap in Hr. lia.
Qed.

Lemma object_from_cap_usable {A} (get : ObjectTable → KernelObjectId → option A) slot right rt a rt' :
  caps_wf rt → object_from_cap get slot right rt = (Ok a, rt') →
  rt' = rt ∧ ∃ p cap, usable rt slot right p cap ∧ get (rt_objects rt) (c_object cap) = Some a.
Proof.
  intros Hwf. unfold object_from_cap, rbind, rget, rlift.
  destruct (lookup_capability slot right rt) as [[cap|e] rt1] eqn:Hlk; [|done].
  apply lookup_capability_ok in Hlk as (-> & p & Hlk); [|done].
  destruct (get (rt_objects rt) (c_object cap)) as [b|] eqn:Hg; cbn; [|done].
  intros [= <- <-]. split; [done|]. by exists p, cap.
Qed.

(** Minting under an admissible parent and giving the capability to process
    [i]. *)
Lemma grant_mints rt object rights owner parent by_ cap rt1 i f p s slot :
  caps_wf rt → is_u64 rights →
  (0 ≤ parent < next_cap_id (rt_caps rt))%Z ∧ ¬ revoked (rt_caps rt) parent →
  rt_new_capability object rights owner parent by_ rt = (Ok cap, rt1) →
  (∀ p, p_pid (f p) = p_pid p) →
  current_index (rt_processes rt) = Some i → current_process (rt_processes rt) = Some p →
  cspace_grant (p_caps p) slot cap = (Ok tt, s) →
  p_caps (f p) = s → p_initial_caps (f p) = p_initial_caps p →
  mints rt (rt1 <| rt_processes ::= λ t, modify_process_at t i f |>) cap.
Proof.
  intros Hwf Hu [Hb Hl] Hmint Hpid Hi Hp Hs Hf1 Hf2.
  destruct (mint_ok _ _ _ _ _ _ _ _ Hwf Hu Hb Hl Hmint) as (_ & Heq & Hcap & Hok & Hrev & Hpl).
  pose proof (cspace_grant_ok _ _ _ _ Hs) as (Hlen & Hin & _).
  destruct (grant_minted _ _ _ _ _ _ _ _ i f Hwf Hu Hb Hl Hmint Hpid) as [Hwf' Hheld].
  { intros q Hq. destruct (current_index_process _ i (cw_table rt Hwf) Hi) as (q' & Hq' & Hlq & _).
    simplify_eq. unfold holds. rewrite Hf2. split_and!; [congruence|done|].
    intros c [[Hc|Hc]%Hin|Hc]; tauto. }
  split; [done|by rewrite Heq|done| | |done].
  - intros c q [Hq Hq0]. split; [|done]. unfold set; cbn. rewrite Hpl.
    apply parent_bounds in Hq as Hb'; [|apply Hwf]. destruct Hb' as [_ Hk'].
    unfold known_cap in Hk'. by rewrite decide_False by lia.
  - apply (co_parent _ _ Hok).
Qed.

(** A mint that was checked beforehand does not fail. *)
Lemma mint_allocates rt object rights owner parent by_ :
  caps_wf rt → can_allocate_capability (rt_caps rt) = true →
  ∃ cap rt1, rt_new_capability object rights owner parent by_ rt = (Ok cap, rt1).
Proof.
  intros Hwf Halloc. destruct (rt_new_capability _ _ _ _ _ rt) as [[cap|e] rt1] eqn:Hmint; [eauto|].
  apply mint_err in Hmint as (_ & _ & Hfull); [|done]. exfalso.
  unfold can_allocate_capability in Halloc.
  rewrite (rw_lineage_length _ (cw_registry _ Hwf)), Hfull, Nat.ltb_irrefl in Halloc.
  by rewrite andb_false_r in Halloc.
Qed.

(** * What is created *)

(** In state [rt] the current process [p] may bring the capability [cap] into
    the system: for the entry of a namespace it may resolve, as the namespace
    capability's child; for an endpoint that did not exist, when it may
    allocate and its quota is not used up; for a directory root inside a VFS
    root it may resolve, with no other rights than the root's file rights. *)
Inductive creates (rt : RuntimeState) : Capability → Prop :=
| NewEntry slot p ns_cap namespace entry :
    usable rt slot RIGHT_RESOLVE p ns_cap →
    get_namespace (rt_objects rt) (c_object ns_cap) = Some namespace →
    Some entry ∈ ns_entries namespace →
    creates rt (mkCapability (next_cap_id (rt_caps rt)) (ne_object entry) (ne_rights entry) (p_pid p)
                  (c_id ns_cap) (rt_generation_id rt) (p_pid p) false)
| NewEndpoint slot p control_cap control :
    usable rt slot RIGHT_ALLOCATE p control_cap →
    get_process_control (rt_objects rt) (c_object control_cap) = Some control →
    (used_endpoints (p_quota p) < max_endpoints (p_quota p))%Z →
    (table_wf (rt_objects rt) → table_map (rt_objects rt) !! next_id (rt_objects rt) = None) →
    creates rt (mkCapability (next_cap_id (rt_caps rt)) (next_id (rt_objects rt))
                  (Z.lor RIGHT_SEND RIGHT_RECEIVE) (p_pid p) 0 (rt_generation_id rt) (p_pid p) false)
| NewRoot slot p source root root_path rights :
    usable rt slot RIGHT_RESOLVE p source →
    get_vfs_root (rt_objects rt) (c_object source) = Some root →
    vfs_authority_path_covers (path_as_bytes (vr_root_path root)) (path_as_bytes root_path) = true →
    rights_le rights (c_rights source) → rights_le rights vfs_file_right_mask →
    (table_wf (rt_objects rt) → table_map (rt_objects rt) !! next_id (rt_objects rt) = None) →
    creates rt (mkCapability (next_cap_id (rt_caps rt)) (next_id (rt_objects rt)) rights (p_pid p)
                  (c_id source) (rt_generation_id rt) (p_pid p) false).

(** A capability created in this state is usable right after. *)
Lemma creates_new rt cap :
  creates rt cap → c_id cap = next_cap_id (rt_caps rt) ∧ c_generation cap = rt_generation_id rt.
Proof. by destruct 1. Qed.

(** * Namespaces *)

Lemma namespace_lookup_entry ns path entry :
  namespace_lookup ns path = Some entry → Some entry ∈ ns_entries ns.
Proof.
  unfold namespace_lookup. intros (i & x & _ & Hi & Hx & _)%first_some_Some.
  destruct x as [e|]; [|done]. case_match; simplify_eq. by eapply list_elem_of_lookup_2.
Qed.

(** What [namespace_grant] does for the namespace the same slot names. *)
Lemma namespace_grant_cases rt namespace slot path target_slot :
  caps_wf rt → namespace_from_cap slot RIGHT_RESOLVE rt = (Ok namespace, rt) →
  (∀ entry, Some entry ∈ ns_entries namespace → is_u64 (ne_rights entry)) →
  match namespace_grant namespace slot path target_slot rt with
  | (Ok _, rt') => ∃ cap, creates rt cap ∧ mints rt rt' cap
  | (Err e, rt') => rt' = rt ∧ e = BadCapability
  end.
Proof.
  intros Hwf (_ & p & cap & Hus & Hget)%object_from_cap_usable Hu64; [|done].
  unfold namespace_grant, rbind, rlift, rget, rguard, rret, rfail.
  destruct (namespace_lookup namespace path) as [entry|] eqn:Hn; cbn -[lookup_capability]; [|done].
  apply namespace_lookup_entry in Hn.
  destruct (lookup_capability slot RIGHT_RESOLVE rt) as [[cap'|e] rt0] eqn:Hlk;
    [|apply lookup_capability_err in Hlk as [-> ->]; done].
  assert (Hlk' := Hlk). apply lookup_capability_ok in Hlk' as (-> & p' & Hp' & Hc' & _); [|done].
  assert (p' = p ∧ cap' = cap) as [-> ->]
    by (destruct Hus as (Hp & Hc & _); split; congruence).
  rewrite Hp'. cbn. destruct (cspace_can_grant (p_caps p) target_slot) eqn:Hcan; cbn; [|done].
  destruct (rt_new_capability _ _ _ _ _ rt) as [[new|e] rt1] eqn:Hmint;
    [|apply mint_err in Hmint as (-> & -> & _); done].
  destruct (usable_parent _ _ _ _ _ Hwf Hus) as [Hb Hl].
  destruct (mint_ok _ _ _ _ _ _ _ _ Hwf (Hu64 _ Hn) Hb Hl Hmint) as (Hwf1 & Heq & Hnew & _).
  assert (Hproc : rt_processes rt1 = rt_processes rt) by (by rewrite Heq).
  destruct (current_process_index _ _ Hp') as [i Hi].
  destruct (cspace_can_grant_ok (p_caps p) target_slot new Hcan) as [s Hs].
  rewrite (grant_to_current_ok rt1 i p s) by (by rewrite ?Hproc).
  exists new. split; [rewrite Hnew; by eapply NewEntry|].
  by eapply (grant_mints rt (ne_object entry) (ne_rights entry)); eauto.
Qed.

(** * Endpoints *)

Definition endpoint_owner (s : list (option Capability)) (p : Process) : Process :=
  p <| p_caps := s |> <| p_quota ::= λ q, q <| used_endpoints ::= λ n, sat_add n 1 |> |>.

Lemma add_endpoint_owned_cases t name owner :
  match add_endpoint_owned t name owner with
  | (Ok id, _) => id = next_id t
  | (Err _, t') => t' = t
  end.
Proof. unfold add_endpoint_owned, insert_object. repeat case_match; by simplify_eq. Qed.

(** The whole call: a failure changes nothing, and a success adds the endpoint,
    counts it and grants the capability. *)
Lemma endpoint_create_core rt control_slot cap_slot :
  caps_wf rt →
  match endpoint_create control_slot cap_slot rt with
  | (Ok _, rt') =>
      ∃ p i s t cap, current_process (rt_processes rt) = Some p ∧ current_index (rt_processes rt) = Some i ∧
        add_endpoint_owned (rt_objects rt) "dynamic-endpoint" (p_pid p) = (Ok (next_id (rt_objects rt)), t) ∧
        cspace_grant (p_caps p) cap_slot cap = (Ok tt, s) ∧
        rt_processes rt' = modify_process_at (rt_processes rt) i (endpoint_owner s) ∧
        rt_objects rt' = t ∧ (used_endpoints (p_quota p) < max_endpoints (p_quota p))%Z ∧
        cap = mkCapability (next_cap_id (rt_caps rt)) (next_id (rt_objects rt))
                (Z.lor RIGHT_SEND RIGHT_RECEIVE) (p_pid p) 0 (rt_generation_id rt) (p_pid p) false ∧
        creates rt cap ∧ mints rt rt' cap
  | (Err e, rt') => rt' = rt ∧ e = BadCapability
  end.
Proof.
  intros Hwf. unfold endpoint_create.
  unfold rbind at 1. destruct (process_control_from_cap _ _ rt) as [[c|e] rt0] eqn:Hctl.
  2: { apply object_from_cap_state in Hctl as [-> He]. split; [done|by apply He]. }
  apply object_from_cap_usable in Hctl as (-> & p & ctl & Hus & Hctl); [|done].
  pose proof Hus as (Hp & _). unfold rbind, rguard, rget, rlift, rret, rfail. cbn -[endpoint_new].
  rewrite Hp. cbn -[endpoint_new].
  destruct (Z.ltb_spec (used_endpoints (p_quota p)) (max_endpoints (p_quota p))) as [Hq|];
    cbn -[endpoint_new]; [|done].
  destruct (cspace_can_grant (p_caps p) cap_slot) eqn:Hcan; cbn -[endpoint_new]; [|done].
  destruct (can_allocate_capability (rt_caps rt)) eqn:Halloc; cbn -[endpoint_new]; [|done].
  pose proof (add_endpoint_owned_cases (rt_objects rt) "dynamic-endpoint" (p_pid p)) as Hadd.
  destruct (add_endpoint_owned _ _ _) as [[id|e] t] eqn:Hadd'; [|subst t; by destruct rt].
  subst id. pose proof (same_caps_wf _ _ Hwf (objects_same_caps rt t)) as Hwf1.
  set (rt1 := rt <| rt_objects := t |>) in *. set (rights := Z.lor RIGHT_SEND RIGHT_RECEIVE).
  destruct (mint_allocates rt1 (next_id (rt_objects rt)) rights (p_pid p) 0 (p_pid p) Hwf1 Halloc)
    as (cap & rt2 & Hmint). rewrite Hmint.
  assert (Hur : is_u64 rights) by (vm_compute; split; congruence).
  destruct (no_parent rt1 Hwf1) as [Hz Hnorev].
  destruct (mint_ok _ _ _ _ _ _ _ _ Hwf1 Hur Hz Hnorev Hmint) as (_ & Heq & Hcap & _).
  assert (Hproc : rt_processes rt2 = rt_processes rt) by (by rewrite Heq).
  destruct (current_process_index _ _ Hp) as [i Hi].
  destruct (cspace_can_grant_ok (p_caps p) cap_slot cap Hcan) as [s Hs].
  destruct (current_index_process _ i (cw_table rt Hwf) Hi) as (q & Hq' & _ & Hqj).
  rewrite Hp in Hq'. injection Hq' as <-.
  assert (Hrun : grant_endpoint cap_slot cap rt2 =
    (Some true, rt2 <| rt_processes ::= λ t, modify_process_at t i (endpoint_owner s) |>)).
  { unfold grant_endpoint. rewrite Hproc, Hi, Hqj, Hs. done. }
  rewrite Hrun.
  assert (Hm : mints rt1 (rt2 <| rt_processes ::= λ t, modify_process_at t i (endpoint_owner s) |>) cap)
    by (by eapply (grant_mints rt1 (next_id (rt_objects rt)) rights); eauto).
  exists p, i, s, t, cap. split_and!; try done.
  - unfold set at 1; cbn. by rewrite Hproc.
  - unfold set; cbn. by rewrite Heq.
  - rewrite Hcap. eapply (NewEndpoint rt control_slot p ctl c); try done. apply table_map_fresh.
  - destruct Hm. by split.
Qed.

(** * VFS roots *)

Lemma resolve_process_state path rt : (resolve_process_vfs_path path rt).2 = rt.
Proof.
  unfold resolve_process_vfs_path, rbind, rget, rlift, rguard, rret, rfail.
  repeat (case_match; simplify_eq/=; try done).
Qed.

Lemma lookup_resolver_cases slot rt :
  caps_wf rt →
  match lookup_resolver slot rt with
  | (Ok cap, rt') => rt' = rt ∧ ∃ p, usable rt slot RIGHT_RESOLVE p cap
  | (Err _, rt') => rt' = rt
  end.
Proof.
  intros Hwf. unfold lookup_resolver.
  destruct (lookup_capability slot RIGHT_RESOLVE rt) as [[cap|e] rt1] eqn:Hlk; cbn.
  - apply lookup_capability_ok in Hlk as (-> & p & H); [|done]. split; [done|]. by exists p.
  - by apply lookup_capability_err in Hlk as [-> _].
Qed.

Lemma land_rights_le a b : rights_le (Z.land a b) a ∧ rights_le (Z.land a b) b.
Proof. split; intros i _; rewrite Z.land_spec, andb_true_iff; tauto. Qed.

Lemma add_derived_root_cases t root_path :
  match add_derived_vfs_root t root_path with
  | (Ok id, _) => id = next_id t
  | (Err _, t') => t' = t
  end.
Proof. unfold add_derived_vfs_root, push_object. repeat case_match; by simplify_eq/=. Qed.

Ltac cbn_call := cbn -[vfs_authority_path_covers rt_new_capability add_derived_vfs_root vfs_file_right_mask].

(** A failing call changes nothing either; what it reports tells the checks
    apart. *)
Lemma derive_root_cases rt cap_slot requested target_slot :
  caps_wf rt →
  match vfs_derive_root_path cap_slot requested target_slot rt with
  | (Ok _, rt') => ∃ cap, creates rt cap ∧ mints rt rt' cap
  | (Err _, rt') => rt' = rt
  end.
Proof.
  intros Hwf. unfold vfs_derive_root_path.
  unfold rbind at 1. pose proof (resolve_process_state requested rt) as Hst.
  destruct (resolve_process_vfs_path requested rt) as [[root_path|e] rt0]; cbn in Hst; subst rt0; [|done].
  unfold rbind at 1. pose proof (lookup_resolver_cases cap_slot rt Hwf) as Hlk.
  destruct (lookup_resolver cap_slot rt) as [[src|e] rt0]; [|done]. destruct Hlk as (-> & p & Hus).
  pose proof Hus as (Hp & _). unfold rbind, rguard, rget, rlift, rret, rfail. cbn_call.
  destruct (get_vfs_root _ _) as [root|] eqn:Hroot; cbn_call; [|done].
  destruct (vfs_authority_path_covers _ _) eqn:Hcov; cbn_call; [|done].
  destruct (vfs_node_by_path rt _) as [node|]; cbn_call; [|done].
  destruct (bool_decide (vn_kind node = NkDirectory)); cbn_call; [|done]. rewrite Hp. cbn_call.
  destruct (cspace_can_grant (p_caps p) target_slot) eqn:Hcan; cbn_call; [|done].
  destruct (can_allocate_capability (rt_caps rt)) eqn:Halloc; cbn_call; [|done].
  pose proof (add_derived_root_cases (rt_objects rt) root_path) as Hadd.
  destruct (add_derived_vfs_root _ _) as [[id|e] t]; [|subst t; by destruct rt]. subst id.
  pose proof (same_caps_wf _ _ Hwf (objects_same_caps rt t)) as Hwf1.
  set (rt1 := rt <| rt_objects := t |>) in *. set (rights := Z.land (c_rights src) vfs_file_right_mask).
  destruct (mint_allocates rt1 (next_id (rt_objects rt)) rights (p_pid p) (c_id src) (p_pid p) Hwf1 Halloc)
    as (cap & rt2 & Hmint). rewrite Hmint.
  pose proof (usable_parent _ _ _ _ _ Hwf Hus) as Hpar.
  assert (Hur : is_u64 rights).
  { apply is_u64_land; [apply (held_ok rt Hwf src (usable_held _ _ _ _ _ Hwf Hus))|by vm_compute]. }
  destruct (mint_ok _ _ _ _ _ _ _ _ Hwf1 Hur (proj1 Hpar) (proj2 Hpar) Hmint) as (Hwf2 & Heq & Hcap & _).
  assert (Hproc : rt_processes rt2 = rt_processes rt) by (by rewrite Heq).
  destruct (current_process_index _ _ Hp) as [i Hi].
  destruct (cspace_can_grant_ok (p_caps p) target_slot cap Hcan) as [s Hs].
  rewrite (grant_to_current_ok rt2 i p s) by (by rewrite ?Hproc). cbn.
  assert (Hm : mints rt1 (rt2 <| rt_processes ::= λ t, modify_process_at t i (with_caps s) |>) cap)
    by (by eapply (grant_mints rt1 (next_id (rt_objects rt)) rights); eauto).
  exists cap. split; [|destruct Hm; by split].
  rewrite Hcap. destruct (land_rights_le (c_rights src) vfs_file_right_mask).
  eapply (NewRoot rt cap_slot p src root root_path); try done. apply table_map_fresh.
Qed.

(** * Quotas *)

(** Delegating a quota touches no capability. *)
Lemma quota_delegate_cases rt control_slot target_pid max :
  caps_wf rt →
  match quota_delegate control_slot target_pid max rt with
  | (Ok _, rt') => same_caps rt rt'
  | (Err e, rt') => rt' = rt ∧ e = BadCapability
  end.
Proof.
  intros Hwf. unfold quota_delegate.
  unfold rbind at 1. destruct (process_control_from_cap _ _ rt) as [[c|e] rt0] eqn:Hctl;
    apply object_from_cap_state in Hctl as [-> He]; [|split; [done|by apply He]].
  unfold rbind, rguard, rget, rlift, rret, rfail. cbn.
  destruct (current_process (rt_processes rt)) as [p|]; cbn; [|done].
  destruct (max <=? _)%Z; cbn; [|done]. unfold modify_process.
  destruct (process_index (rt_processes rt) target_pid) as [i|]; [|done].
  apply (modify_same_caps rt i); intros q; case_bool_decide; done.
Qed.
