(* ===== verification/BootGrantProofs.v ===== *)
(** The capabilities a process starts with: what [grant_config_caps_to_process]
    gives, and that its checks beforehand suffice. *)

From S2P Require Import Prelude KernelBase Transport VfsPath KernelObjects ObjectTableProofs ProcessRuntime ProcessTableProofs.
From S2P Require Import BootConfig BootPolicy BootPolicyProofs CapRegistry VfsState Runtime Kernel VfsNodes BootGrants CapabilityProofs.

(** * What a process is entitled to *)

(** The capabilities configuration [c] and the kernel's own services give to the
    process at [index], by slot, object and rights. *)
Inductive entitled (c : BootRuntimeConfig) (index : nat) (process : BootProcessConfig) (rt : RuntimeState) :
    Z → KernelObjectId → Z → Prop :=
  | entitled_grant g object :
      g ∈ entries (cf_grants c) → bg_process_index g = index → grant_object_id rt g = Ok object →
      entitled c index process rt (bg_cap_slot g) object (bg_rights g)
  | entitled_secret secret :
      bp_name process = "logd"%string → secret_id (rt_boot_ids rt) = Some secret →
      boot_bootstrap_authority_allows c (bp_graph_node process) "secret:logd-token" "native-secret" secret_rights = true →
      entitled c index process rt LOGD_SECRET_SLOT secret secret_rights
  | entitled_native n endpoint :
      n ∈ native_grants → bp_name process = ng_process n → ng_endpoint n (rt_services rt) = Some endpoint →
      boot_bootstrap_authority_allows c (bp_graph_node process) (ng_authority n) (ng_rule n) (ng_rights n) = true →
      entitled c index process rt (ng_slot n) endpoint (ng_rights n).

(** From [rt] to [rt'] process [pid] got fresh capabilities for exactly the
    entries of [E], for use and for its next start, and nothing else changed. *)
Record provides (pid : ProcessId) (E : Z → KernelObjectId → Z → Prop) (rt rt' : RuntimeState) : Prop := mk_provides {
  pv_wf : caps_wf rt';
  pv_frame : rt' = rt <| rt_caps := rt_caps rt' |> <| rt_processes := rt_processes rt' |>;
  pv_revoked x : revoked (rt_caps rt') x ↔ revoked (rt_caps rt) x;
  pv_others q : q ≠ pid → process (rt_processes rt') q = process (rt_processes rt) q;
  pv_process p : process (rt_processes rt) pid = Some p →
    ∃ caps initial,
      process (rt_processes rt') pid = Some (p <| p_caps := caps |> <| p_initial_caps := initial |>) ∧
      (∀ slot cap, cspace_lookup (p_caps p) slot = Some cap → cspace_lookup caps slot = Some cap) ∧
      (∀ slot cap, cspace_lookup caps slot = Some cap →
         cspace_lookup (p_caps p) slot = Some cap ∨
         E slot (c_object cap) (c_rights cap) ∧ c_owner cap = pid ∧ c_parent cap = 0%Z ∧ live rt' cap) ∧
      (∀ slot object rights, E slot object rights → ∃ cap,
         cspace_lookup caps slot = Some cap ∧ c_object cap = object ∧ c_rights cap = rights) ∧
      (p_initial_caps p = p_caps p → initial = caps)
}.

Lemma provides_live pid E rt rt' cap : provides pid E rt rt' → live rt cap → live rt' cap.
Proof.
  intros [_ Hf Hr _ _] [Hl Hg]. split; [by rewrite Hr|]. rewrite Hf. done.
Qed.

Lemma provides_none pid E rt : caps_wf rt → (∀ s o r, ¬ E s o r) → provides pid E rt rt.
Proof.
  intros Hwf HE. split; [done|by destruct rt|done|done|]. intros p Hp. exists (p_caps p), (p_initial_caps p).
  split_and!; [by destruct p|done|by left|by intros ??? ?%HE|done].
Qed.

Lemma provides_trans pid E1 E2 rt rt1 rt2 :
  provides pid E1 rt rt1 → provides pid E2 rt1 rt2 → provides pid (λ s o r, E1 s o r ∨ E2 s o r) rt rt2.
Proof.
  intros H1 H2. pose proof H1 as [W1 F1 R1 O1 P1]. pose proof H2 as [W2 F2 R2 O2 P2]. split.
  - done.
  - rewrite F2, F1. done.
  - intros x. by rewrite R2.
  - intros q Hq. by rewrite O2, O1.
  - intros p (caps1 & ini1 & Hp1 & K1 & S1 & C1 & I1)%P1.
    destruct (P2 _ Hp1) as (caps2 & ini2 & Hp2 & K2 & S2 & C2 & I2).
    exists caps2, ini2. split_and!.
    + exact Hp2.
    + intros slot cap Hs%K1. by apply K2.
    + intros slot cap [Hs|(HE & Ho & Hpar & Hl)]%S2; [|right; auto].
      apply S1 in Hs as [Hs|(HE & Ho & Hpar & Hl)]; [by left|right].
      split_and!; [by left|done|done|]. by eapply provides_live.
    + intros slot o r [(cap & Hs & Hc)%C1|HE%C2]; [|done]. exists cap. split; [by apply K2|done].
    + intros Hi%I1. apply I2. done.
Qed.

Lemma provides_ext pid E1 E2 rt rt' :
  (∀ s o r, E1 s o r ↔ E2 s o r) → provides pid E1 rt rt' → provides pid E2 rt rt'.
Proof.
  intros HE [W F R O P]. split; [done..|].
  intros p (caps & ini & Hp & K & S & C & I)%P. exists caps, ini. split_and!; [done|done| | |done].
  - intros slot cap [Hs|(H & ?)]%S; [by left|right]. by rewrite <-HE.
  - intros slot o r H%HE. by apply C.
Qed.

(** * One grant *)

Lemma cspace_grant_free s slot cap s' : cspace_grant s slot cap = (Ok tt, s') → cspace_lookup s slot = None.
Proof.
  unfold cspace_grant, cspace_lookup. destruct (slot_index s slot) as [i|]; [|done].
  destruct (s !! i) as [[?|]|]; done.
Qed.

Lemma cspace_grant_succeeds s slot cap :
  length s = MAX_CAPS → (0 ≤ slot < Z.of_nat MAX_CAPS)%Z → cspace_lookup s slot = None →
  ∃ s', cspace_grant s slot cap = (Ok tt, s').
Proof.
  intros Hl Hs. unfold cspace_lookup, cspace_grant, slot_index. rewrite Hl.
  rewrite (proj2 (andb_true_iff _ _)) by lia. destruct (s !! Z.to_nat slot) as [[c|]|]; cbn; eauto. done.
Qed.

(** Where [modify_process] writes. *)
Lemma modify_process_found t pid p f :
  ptable_wf t → process t pid = Some p →
  ∃ i, process_index t pid = Some i ∧ live_processes t !! i = Some p ∧ modify_process t pid f = (true, modify_process_at t i f).
Proof.
  intros Hwf Hp. pose proof Hp as Hp'. rewrite process_via_index in Hp. apply bind_Some in Hp as (i & Hi & Hl).
  exists i. unfold modify_process. rewrite Hi. split_and!; [done| |done].
  apply process_index_live in Hi as (q & Hq & Hpid); [|done].
  apply process_live in Hp' as [Hin Hpid']; [|done]. rewrite Hq. f_equal.
  pose proof (proj1 (live_lookup t i q Hwf) Hq) as [_ Hs]. rewrite Hs in Hl. by simplify_eq/=.
Qed.

Lemma process_modify_other t i f pid q :
  ptable_wf t → (∀ p, p_pid (f p) = p_pid p) → process_index t pid = Some i → q ≠ pid →
  process (modify_process_at t i f) q = process t q.
Proof.
  intros Hwf Hf Hi Hne. rewrite !process_via_index, process_index_modify by done.
  destruct (process_index t q) as [j|] eqn:Hj; [cbn|done].
  assert (i ≠ j) as Hij.
  { intros ->. apply process_index_live in Hi as (p1 & H1 & <-); [|done].
    apply process_index_live in Hj as (p2 & H2 & <-); [|done]. congruence. }
  by rewrite list_lookup_alter_ne.
Qed.

Lemma grant_by_pid_ok pid slot cap rt rt' :
  ptable_wf (rt_processes rt) → grant_process_cap_by_pid pid slot cap true rt = (Ok tt, rt') →
  ∃ p i caps initial,
    process (rt_processes rt) pid = Some p ∧ process_index (rt_processes rt) pid = Some i ∧
    live_processes (rt_processes rt) !! i = Some p ∧
    cspace_grant (p_caps p) slot cap = (Ok tt, caps) ∧ cspace_grant (p_initial_caps p) slot cap = (Ok tt, initial) ∧
    rt' = rt <| rt_processes ::= λ t, modify_process_at t i
                  (λ p, p <| p_caps := caps |> <| p_initial_caps := initial |>) |>.
Proof.
  intros Hwf H. unfold grant_process_cap_by_pid in H.
  destruct (process (rt_processes rt) pid) as [p|] eqn:Hp; [|done].
  destruct (cspace_grant (p_caps p) slot cap) as [[[]|e] caps] eqn:Hc; [|done].
  destruct (cspace_grant (p_initial_caps p) slot cap) as [[[]|e] initial] eqn:Hini; [|done].
  injection H as <-. 
  destruct (modify_process_found _ _ _ (λ p, p <| p_caps := caps |> <| p_initial_caps := initial |>) Hwf Hp)
    as (i & Hi & Hl & Hm).
  exists p, i, caps, initial. split_and!; [done..|].
  exact (f_equal (λ x, rt <| rt_processes := x.2 |>) Hm).
Qed.

(** The same capability granted to both spaces of process [i]. *)
Lemma grant_both_holds p caps initial slot cap c :
  cspace_grant (p_caps p) slot cap = (Ok tt, caps) → cspace_grant (p_initial_caps p) slot cap = (Ok tt, initial) →
  holds (p <| p_caps := caps |> <| p_initial_caps := initial |>) c → holds p c ∨ c = cap.
Proof.
  intros (_ & H1 & _)%cspace_grant_ok (_ & H2 & _)%cspace_grant_ok [Hc|Hc]; unfold holds.
  - apply H1 in Hc as [?| ->]; auto.
  - apply H2 in Hc as [?| ->]; auto.
Qed.

Lemma grant_new_capability_provides object rights pid slot rt rt' :
  caps_wf rt → is_u64 rights → grant_new_capability object rights pid slot rt = (Ok tt, rt') →
  provides pid (λ s o r, s = slot ∧ o = object ∧ r = rights) rt rt'.
Proof.
  intros Hwf Hu H. unfold grant_new_capability in H. apply rbind_ok in H as (cap & rt1 & Hm & H).
  unfold mint_capability in Hm. destruct (rt_new_capability _ _ _ _ _ _) as [[cap'|e] rt1'] eqn:Hn; [|done].
  cbn in Hm. injection Hm as -> ->.
  assert (Hnr : ¬ revoked (rt_caps rt) 0).
  { intros Hr%revoked_known; [|apply Hwf]. unfold known_cap in Hr. lia. }
  pose proof (rw_next _ (cw_registry rt Hwf)) as Hnext.
  assert (Hb : (0 ≤ 0 < next_cap_id (rt_caps rt))%Z) by lia.
  destruct (mint_ok _ _ _ _ _ _ _ _ Hwf Hu Hb Hnr Hn) as (W1 & F1 & Hcap & Hok & Hrev & _).
  assert (Hproc : rt_processes rt1 = rt_processes rt) by (by rewrite F1).
  apply grant_by_pid_ok in H as (p & i & caps & initial & Hp & Hi & Hl & Hc & Hini & ->); [|apply W1].
  rewrite Hproc in Hp, Hi, Hl.
  set (f := λ p : Process, p <| p_caps := caps |> <| p_initial_caps := initial |>).
  destruct (grant_minted _ _ _ _ _ _ _ _ i f Hwf Hu Hb Hnr Hn) as [W2 _]; [done| |].
  { intros q Hq. rewrite Hl in Hq. injection Hq as <-. apply cspace_grant_ok in Hc as Hc', Hini as Hini'.
    split_and!; [apply Hc'|apply Hini'|]. intros c. by apply grant_both_holds with slot. }
  change (λ t, modify_process_at t i _) with (λ t, modify_process_at t i f).
  split.
  - exact W2.
  - rewrite F1 at 1. unfold set; cbn. by rewrite Hproc.
  - exact Hrev.
  - intros q Hq. unfold set; cbn. rewrite Hproc. eapply process_modify_other; [apply Hwf|done|exact Hi|done].
  - intros q Hq. assert (q = p) as -> by congruence. exists caps, initial.
    pose proof (cspace_grant_free _ _ _ _ Hc) as Hfree.
    apply cspace_grant_ok in Hc as Hc'. destruct Hc' as (_ & _ & Hs & Hother). split_and!.
    + unfold set at 1; cbn. rewrite Hproc.
      by apply (process_modify _ i f pid p (cw_table rt Hwf)).
    + intros s c Hsc. rewrite Hother; [done|]. congruence.
    + intros s c Hsc. destruct (decide (s = slot)) as [->|Hne]; [right|left; by rewrite <-Hother].
      assert (c = cap) as -> by congruence. rewrite Hcap. split_and!; [done..|].
      split; cbn; [|by rewrite F1]. intros Hr. apply Hrev, revoked_known in Hr; [|apply Hwf]. unfold known_cap in Hr. lia.
    + intros s o r (-> & -> & ->). exists cap. by rewrite Hs, Hcap.
    + intros Heq. rewrite Heq in Hini. congruence.
Qed.

(** * All the grants *)

(** The objects of the configuration and the service endpoints are those of [rt]. *)
Lemma provides_entitled pid E rt rt' c index process s o r :
  provides pid E rt rt' → entitled c index process rt' s o r ↔ entitled c index process rt s o r.
Proof.
  intros H. pose proof (pv_frame _ _ _ _ H) as F.
  assert (Hids : rt_boot_ids rt' = rt_boot_ids rt) by (by rewrite F).
  assert (Hsv : rt_services rt' = rt_services rt) by (by rewrite F).
  assert (Hg : ∀ g, grant_object_id rt' g = grant_object_id rt g) by (intros g; unfold grant_object_id; by rewrite Hids).
  split; intros [g obj Hin Hidx Ho|sec Hn Hs Ha|n ep Hin Hn He Ha].
  - rewrite Hg in Ho. by constructor.
  - rewrite Hids in Hs. by constructor.
  - rewrite Hsv in He. by constructor.
  - rewrite <-Hg in Ho. by constructor.
  - rewrite <-Hids in Hs. by constructor.
  - rewrite <-Hsv in He. by constructor.
Qed.

Definition granted_by (rt : RuntimeState) (index : nat) (l : list (option BootGrantConfig)) (s : Z) (o : KernelObjectId)
    (r : Z) : Prop :=
  ∃ g, Some g ∈ l ∧ bg_process_index g = index ∧ grant_object_id rt g = Ok o ∧ s = bg_cap_slot g ∧ r = bg_rights g.

Lemma grant_config_caps_provides l index pid rt rt' :
  caps_wf rt → (∀ g, Some g ∈ l → is_u64 (bg_rights g)) →
  grant_config_caps l index pid rt = (Ok tt, rt') → provides pid (granted_by rt index l) rt rt'.
Proof.
  revert rt. induction l as [|[g|] l IH]; intros rt Hwf Hu H; [|cbn in H..].
  - injection H as <-. apply provides_none; [done|]. intros s o r (g & Hg & _). by apply not_elem_of_nil in Hg.
  - assert (Hu' : ∀ g, Some g ∈ l → is_u64 (bg_rights g)) by (intros g' Hg'; apply Hu; by right).
    destruct (Nat.eqb_spec (bg_process_index g) index) as [Hi|Hi]; cbn [negb] in H.
    + apply rbind_ok in H as (? & ? & [= -> ->] & H). apply rbind_ok in H as (obj & ? & [Ho ->]%rlift_ok & H).
      apply rbind_ok in H as ([] & rt1 & H1 & H2).
      apply grant_new_capability_provides in H1; [|done|apply Hu; by left].
      apply IH in H2; [|apply H1|done].
      eapply provides_ext; [|exact (provides_trans _ _ _ _ _ _ H1 H2)].
      assert (Hg : ∀ g, grant_object_id rt1 g = grant_object_id x0 g).
      { intros g'. unfold grant_object_id. by rewrite (pv_frame _ _ _ _ H1). }
      intros s o r. split.
      * intros [(-> & -> & ->)|(g' & Hg' & Hi' & Ho' & -> & ->)]; [exists g; split_and!; [by left|done..]|].
        rewrite Hg in Ho'. exists g'. split_and!; [by right|done..].
      * intros (g' & [[= ->]|Hg']%elem_of_cons & Hi' & Ho' & -> & ->); [left; split_and!; [done|congruence|done]|right].
        exists g'. rewrite Hg. done.
    + apply IH in H; [|done|done]. eapply provides_ext; [|exact H]. intros s o r. split.
      * intros (g' & Hg' & Hr). exists g'. split; [by right|done].
      * intros (g' & [[= ->]|Hg']%elem_of_cons & Hr); [naive_solver|]. by exists g'.
  - discriminate H.
Qed.

Definition native_for (c : BootRuntimeConfig) (process : BootProcessConfig) (rt : RuntimeState) (l : list NativeGrant)
    (s : Z) (o : KernelObjectId) (r : Z) : Prop :=
  ∃ n, n ∈ l ∧ bp_name process = ng_process n ∧ ng_endpoint n (rt_services rt) = Some o ∧
    boot_bootstrap_authority_allows c (bp_graph_node process) (ng_authority n) (ng_rule n) (ng_rights n) = true ∧
    s = ng_slot n ∧ r = ng_rights n.

Lemma grant_native_provides c process pid n rt rt' :
  caps_wf rt → is_u64 (ng_rights n) → grant_native c process pid n rt = (Ok tt, rt') →
  provides pid (native_for c process rt [n]) rt rt'.
Proof.
  intros Hwf Hu H. unfold grant_native, str_eqb in H.
  destruct (bool_decide_reflect (bp_name process = ng_process n)) as [Hn|Hn].
  2: { injection H as <-. apply provides_none; [done|].
       intros s o r (n' & ->%list_elem_of_singleton & Hn' & _). done. }
  apply rbind_ok in H as (? & ? & [= -> ->] & H).
  destruct (ng_endpoint n (rt_services x0)) as [ep|] eqn:He.
  2: { injection H as <-. apply provides_none; [done|].
       intros s o r (n' & ->%list_elem_of_singleton & _ & He' & _). congruence. }
  apply rbind_ok in H as ([] & ? & (Ha & -> & _)%rguard_ok & H).
  apply grant_new_capability_provides in H; [|done|done]. eapply provides_ext; [|exact H]. intros s o r. split.
  - intros (-> & -> & ->). exists n. split_and!; [by left|done..].
  - intros (n' & ->%list_elem_of_singleton & _ & He' & _ & -> & ->). split_and!; [done|congruence|done].
Qed.

Lemma provides_services pid E rt rt' : provides pid E rt rt' → rt_services rt' = rt_services rt.
Proof. intros H. by rewrite (pv_frame _ _ _ _ H). Qed.

Lemma grant_natives_provides c process pid l rt rt' :
  caps_wf rt → Forall (λ n, is_u64 (ng_rights n)) l → grant_natives c process pid l rt = (Ok tt, rt') →
  provides pid (native_for c process rt l) rt rt'.
Proof.
  intros Hwf Hu. revert rt Hwf. induction Hu as [|n l Hn _ IH]; intros rt Hwf H; cbn in H.
  - injection H as <-. apply provides_none; [done|]. intros s o r (n & Hn & _). by apply not_elem_of_nil in Hn.
  - apply rbind_ok in H as ([] & rt1 & H1 & H2). apply grant_native_provides in H1; [|done|done].
    apply IH in H2; [|apply H1]. eapply provides_ext; [|exact (provides_trans _ _ _ _ _ _ H1 H2)].
    intros s o r. unfold native_for. rewrite (provides_services _ _ _ _ H1). split.
    + intros [(n' & Hin & Hr)|(n' & Hin & Hr)]; exists n'; (split; [|done]).
      * apply list_elem_of_singleton in Hin as ->. by left.
      * by right.
    + intros (n' & [->|Hin]%elem_of_cons & Hr); [left|right]; eexists; (split; [|exact Hr]); [by left|done].
Qed.

Lemma native_rights_u64 : Forall (λ n, is_u64 (ng_rights n)) native_grants.
Proof. unfold native_grants, is_u64. repeat constructor; vm_compute; discriminate. Qed.

(** The three parts together. *)
Lemma grant_config_provides c index process pid rt rt' :
  caps_wf rt → (∀ g, g ∈ entries (cf_grants c) → is_u64 (bg_rights g)) →
  counted_get (cf_processes c) index = Some process →
  grant_config_caps_to_process c index pid rt = (Ok tt, rt') → provides pid (entitled c index process rt) rt rt'.
Proof.
  intros Hwf Hu Hget H. unfold grant_config_caps_to_process in H.
  apply rbind_ok in H as ([] & rt1 & H1 & H).
  unfold config_entry in H. rewrite Hget in H. apply rbind_ok in H as (? & ? & [[= <-] ->]%rlift_ok & H).
  apply rbind_ok in H as ([] & rt2 & H2 & H3).
  apply grant_config_caps_provides in H1; [|done|].
  2: { intros g Hg. apply Hu. apply list_elem_of_omap. by exists (Some g). }
  assert (P2 : provides pid (λ s o r, bp_name process = "logd"%string ∧ secret_id (rt_boot_ids rt) = Some o ∧
    boot_bootstrap_authority_allows c (bp_graph_node process) "secret:logd-token" "native-secret" secret_rights = true ∧
    s = LOGD_SECRET_SLOT ∧ r = secret_rights) rt1 rt2).
  { unfold grant_logd_secret, str_eqb in H2. destruct (bool_decide_reflect (bp_name process = "logd"%string)) as [Hn|Hn].
    2: { injection H2 as <-. apply provides_none; [apply H1|]. intros s o r (? & _). done. }
    apply rbind_ok in H2 as ([] & ? & (Ha & -> & _)%rguard_ok & H2).
    apply rbind_ok in H2 as (? & ? & [= -> ->] & H2).
    apply rbind_ok in H2 as (sec & ? & [Hs%ok_or_ok ->]%rlift_ok & H2).
    rewrite (pv_frame _ _ _ _ H1) in Hs. cbn in Hs.
    apply grant_new_capability_provides in H2; [|apply H1|by vm_compute].
    eapply provides_ext; [|exact H2]. intros s o r. split; naive_solver. }
  apply grant_natives_provides in H3; [|apply P2|apply native_rights_u64].
  eapply provides_ext; [|exact (provides_trans _ _ _ _ _ _ (provides_trans _ _ _ _ _ _ H1 P2) H3)].
  intros s o r. unfold native_for. rewrite (provides_services _ _ _ _ P2), (provides_services _ _ _ _ H1). split.
  - intros [[(g & Hg & Hi & Ho & -> & ->)|(Hn & Hs & Ha & -> & ->)]|(n & Hin & Hn & He & Ha & -> & ->)].
    + constructor; [|done|done]. apply list_elem_of_omap. by exists (Some g).
    + by constructor.
    + by constructor.
  - intros [g obj (o' & Hg & Heq)%list_elem_of_omap Hi Ho|sec Hn Hs Ha|n ep Hin Hn He Ha].
    + cbn in Heq. subst o'. left; left. by exists g.
    + left; right. done.
    + right. by exists n.
Qed.

(** * The checks suffice *)

(** Process [pid] exists, has its restart capabilities in use, the slots [F] are
    free, and the registry has room for [room] more capabilities. *)
Definition ready_for (pid : ProcessId) (F : Z → Prop) (room : nat) (rt : RuntimeState) : Prop :=
  caps_wf rt ∧ cap_lineage_count (rt_caps rt) + room ≤ MAX_CAP_LINEAGE ∧
  ∃ p, process (rt_processes rt) pid = Some p ∧ p_initial_caps p = p_caps p ∧
       ∀ s, F s → cspace_lookup (p_caps p) s = None.

Lemma ready_for_weaken pid (F F' : Z → Prop) n m rt :
  (∀ s, F' s → F s) → m ≤ n → ready_for pid F n rt → ready_for pid F' m rt.
Proof.
  intros HF Hm (Hwf & Hroom & p & Hp & Hi & Hfree). split_and!; [done|lia|].
  exists p. split_and!; [done|done|]. intros s Hs%HF. by apply Hfree.
Qed.

Lemma mint_capability_room object rights owner rt :
  caps_wf rt → cap_lineage_count (rt_caps rt) < MAX_CAP_LINEAGE →
  ∃ cap rt', mint_capability object rights owner rt = (Ok cap, rt') ∧ rt_processes rt' = rt_processes rt ∧
    cap_lineage_count (rt_caps rt') = S (cap_lineage_count (rt_caps rt)).
Proof.
  intros Hwf Hroom. unfold mint_capability, rt_new_capability.
  pose proof (new_capability_spec (rt_generation_id rt) (rt_caps rt) object rights owner 0 pid_empty
                (cw_registry rt Hwf)) as Hspec.
  destruct (new_capability _ _ _ _ _ _ _) as [[cap|e] reg]; [|lia]. destruct Hspec as (_ & _ & Hreg).
  exists cap, (rt <| rt_caps := reg |>). split_and!; [done|done|]. rewrite Hreg. done.
Qed.

Lemma grant_new_capability_succeeds object rights pid slot F room rt :
  ready_for pid F (S room) rt → is_u64 rights → F slot → (0 ≤ slot < Z.of_nat MAX_CAPS)%Z →
  ∃ rt', grant_new_capability object rights pid slot rt = (Ok tt, rt') ∧
    ready_for pid (λ s, F s ∧ s ≠ slot) room rt' ∧
    rt_boot_ids rt' = rt_boot_ids rt ∧ rt_services rt' = rt_services rt.
Proof.
  intros (Hwf & Hroom & p & Hp & Hi & Hfree) Hu HF Hs.
  destruct (mint_capability_room object rights pid rt Hwf ltac:(lia)) as (cap & rt1 & Hm & Hproc & Hcount).
  assert (Hl : length (p_caps p) = MAX_CAPS).
  { pose proof (cw_held rt Hwf) as Hh. apply process_live in Hp as [Hin _]; [|apply Hwf].
    eapply Forall_forall in Hh; [|exact Hin]. apply Hh. }
  destruct (cspace_grant_succeeds (p_caps p) slot cap Hl Hs (Hfree slot HF)) as [caps Hc].
  assert (Hrun : ∃ rt', grant_new_capability object rights pid slot rt = (Ok tt, rt') ∧ rt_caps rt' = rt_caps rt1).
  { unfold grant_new_capability, rbind. rewrite Hm. unfold grant_process_cap_by_pid. rewrite Hproc, Hp, Hi, Hc. eauto. }
  destruct Hrun as (rt' & Hrun & Hcaps). exists rt'.
  pose proof (grant_new_capability_provides _ _ _ _ _ _ Hwf Hu Hrun) as Hpv.
  pose proof (pv_frame _ _ _ _ Hpv) as Hf. split_and!; [done| |by rewrite Hf|by rewrite Hf].
  split_and!; [apply Hpv|rewrite Hcaps; lia|].
  destruct (pv_process _ _ _ _ Hpv p Hp) as (caps' & initial & Hp' & _ & Hsound & _ & Hsame).
  eexists. split_and!; [exact Hp'|exact (Hsame Hi)|].
  intros s [HFs Hne]. cbn. destruct (cspace_lookup caps' s) as [c|] eqn:Hlk; [|done].
  apply Hsound in Hlk as [Hlk|((-> & _) & _)]; [|done]. by rewrite Hfree in Hlk.
Qed.

(** The slots that [occupied] leaves free. *)
Definition slot_free (occupied : list bool) (s : Z) : Prop :=
  (0 ≤ s)%Z ∧ default false (occupied !! Z.to_nat s) = false.

Lemma slot_free_insert occupied slot s :
  (0 ≤ slot < Z.of_nat (length occupied))%Z →
  slot_free (<[Z.to_nat slot := true]> occupied) s → slot_free occupied s ∧ s ≠ slot.
Proof.
  intros Hs [H0 Hf]. destruct (decide (s = slot)) as [->|Hne].
  - rewrite list_lookup_insert_eq in Hf by lia. done.
  - split; [|done]. split; [done|]. rewrite list_lookup_insert_ne in Hf by lia. done.
Qed.

(** The grants of the list that are for process [index]. *)
Definition grants_for (index : nat) (l : list (option BootGrantConfig)) : nat :=
  length (filter (λ o, bg_process_index <$> o = Some index) l).

Lemma validate_grant_slots_ids rt rt' l index occupied :
  rt_boot_ids rt' = rt_boot_ids rt → validate_grant_slots rt' l index occupied = validate_grant_slots rt l index occupied.
Proof.
  intros Hids. assert (Hg : ∀ g, grant_object_id rt' g = grant_object_id rt g).
  { intros g. unfold grant_object_id. by rewrite Hids. }
  revert occupied. induction l as [|[g|] l IH]; intros occ; cbn; [done| |done].
  rewrite Hg, IH. destruct (negb _); [done|]. destruct (grant_object_id rt g); [cbn|done].
  destruct (res_guard _ _); [cbn|done]. destruct (occ !! _) as [[]|]; [done|apply IH..].
Qed.

Lemma grant_config_caps_succeeds l index pid room rt occupied occupied' :
  length occupied = MAX_CAPS →
  (∀ g, Some g ∈ l → is_u64 (bg_rights g) ∧ (0 ≤ bg_cap_slot g)%Z) →
  validate_grant_slots rt l index occupied = Ok occupied' →
  ready_for pid (slot_free occupied) (grants_for index l + room) rt →
  length occupied' = MAX_CAPS ∧
  ∃ rt', grant_config_caps l index pid rt = (Ok tt, rt') ∧ ready_for pid (slot_free occupied') room rt' ∧
    rt_boot_ids rt' = rt_boot_ids rt ∧ rt_services rt' = rt_services rt.
Proof.
  revert rt occupied. induction l as [|[g|] l IH]; intros rt occ Hl Hu Hv Hr; [|cbn in Hv..|done].
  - injection Hv as <-. split; [done|]. exists rt. done.
  - assert (Hu' : ∀ g, Some g ∈ l → is_u64 (bg_rights g) ∧ (0 ≤ bg_cap_slot g)%Z) by (intros g' Hg'; apply Hu; by right).
    destruct (Hu g) as [Hug Hsg]; [by left|]. unfold grants_for in Hr. rewrite filter_cons in Hr. cbn.
    destruct (Nat.eqb_spec (bg_process_index g) index) as [Hi|Hi]; cbn [negb] in *.
    + rewrite decide_True in Hr by (cbn; congruence). destruct (grant_object_id rt g) as [obj|] eqn:Ho; [|done]. cbn in Hv.
      destruct (Z.ltb_spec (bg_cap_slot g) (Z.of_nat MAX_CAPS)) as [Hlt|]; [|done]. cbn in Hv.
      destruct (occ !! Z.to_nat (bg_cap_slot g)) as [b|] eqn:Hb.
      2: { apply lookup_ge_None in Hb. lia. }
      destruct b; [done|].
      destruct (grant_new_capability_succeeds obj (bg_rights g) pid (bg_cap_slot g) _ _ rt Hr) as (rt1 & H1 & R1 & B1 & S1);
        [done|by split; [|rewrite Hb]|lia|].
      rewrite <-(validate_grant_slots_ids rt rt1) in Hv by done.
      destruct (IH rt1 _ ltac:(by rewrite length_insert) Hu' Hv) as (Hl' & rt2 & H2 & R2 & B2 & S2).
      { eapply ready_for_weaken; [|reflexivity|exact R1]. intros s Hs. eapply slot_free_insert; [lia|done]. }
      split; [done|]. exists rt2. split_and!; [|done|congruence|congruence].
      unfold rbind at 1, rget. unfold rbind at 1, rlift. rewrite Ho. cbn. unfold rbind at 1. by rewrite H1.
    + rewrite decide_False in Hr by (cbn; congruence). by apply (IH rt occ).
Qed.

(** The request endpoint of each pair exists when its reply endpoint does. *)
Definition services_paired (s : ServiceEndpoints) : Prop :=
  (is_Some (state_vfs_request_endpoint s) → is_Some (state_vfs_reply_endpoint s)) ∧
  (is_Some (vertexfs_device_request_endpoint s) → is_Some (vertexfs_device_reply_endpoint s)) ∧
  (is_Some (generation_metadata_block_request_endpoint s) → is_Some (generation_metadata_block_reply_endpoint s)).

(** What the checks establish of the native grant [n]. *)
Definition native_ok (rt : RuntimeState) (c : BootRuntimeConfig) (process : BootProcessConfig) (occupied : list bool)
    (n : NativeGrant) : Prop :=
  bp_name process = ng_process n → is_Some (ng_endpoint n (rt_services rt)) →
  boot_bootstrap_authority_allows c (bp_graph_node process) (ng_authority n) (ng_rule n) (ng_rights n) = true ∧
  slot_free occupied (ng_slot n) ∧ (0 ≤ ng_slot n < Z.of_nat MAX_CAPS)%Z.

Lemma native_slot_free_ok occupied slot :
  (0 ≤ slot)%Z → native_slot_free occupied slot = Ok tt → slot_free occupied slot ∧ (0 ≤ slot < Z.of_nat MAX_CAPS)%Z.
Proof.
  intros H0 [H1 H2]%res_guard_ok%negb_true_iff%orb_false_iff. unfold slot_free. split; [done|]. lia.
Qed.

Lemma validate_native_pair_ok c process occupied request reply :
  (0 ≤ ng_slot request)%Z → (0 ≤ ng_slot reply)%Z →
  validate_native_pair c process occupied request reply = Ok tt →
  ∀ rt, native_ok rt c process occupied request ∧ native_ok rt c process occupied reply.
Proof.
  intros H1 H2 H rt. unfold validate_native_pair in H.
  apply res_bind_ok in H as ([] & [A1 A2]%res_guard_ok%andb_prop & H).
  apply res_bind_ok in H as ([] & S1%native_slot_free_ok & S2%native_slot_free_ok); [|done|done].
  split; intros _ _; split; done.
Qed.

(** A pair whose block is skipped asks for nothing. *)
Lemma validate_pair_cases rt c process occupied request reply rest :
  ng_process request = ng_process reply → (0 ≤ ng_slot request)%Z → (0 ≤ ng_slot reply)%Z →
  (is_Some (ng_endpoint request (rt_services rt)) → is_Some (ng_endpoint reply (rt_services rt))) →
  validate_native_pairs rt c process occupied (request :: reply :: rest) = Ok tt →
  native_ok rt c process occupied request ∧ native_ok rt c process occupied reply ∧
  validate_native_pairs rt c process occupied rest = Ok tt.
Proof.
  intros Hpr H1 H2 Hpair H. cbn [validate_native_pairs] in H. apply res_bind_ok in H as ([] & Hb & H).
  unfold str_eqb in Hb. destruct (bool_decide_reflect (bp_name process = ng_process reply)) as [Hn|Hn]; cbn in Hb.
  2: { split_and!; [..|done]; intros Hn'; congruence. }
  destruct (bool_decide_reflect (is_Some (ng_endpoint reply (rt_services rt)))) as [He|He].
  - destruct (validate_native_pair_ok _ _ _ _ _ H1 H2 Hb rt) as [O1 O2]. done.
  - split_and!; [..|done]; intros _ He'; [by apply Hpair in He'|done].
Qed.

Lemma validate_native_pairs_ok rt c process occupied :
  services_paired (rt_services rt) → validate_native_pairs rt c process occupied native_grants = Ok tt →
  Forall (native_ok rt c process occupied) native_grants.
Proof.
  intros (P1 & P2 & P3) H. unfold native_grants in *.
  repeat (apply validate_pair_cases in H as (O1 & O2 & H); [|done..];
          apply Forall_cons; split; [exact O1|]; apply Forall_cons; split; [exact O2|]; clear O1 O2).
  by apply Forall_nil_2.
Qed.

Lemma grant_natives_succeeds c process pid occupied l F room rt :
  NoDup ((λ n, (ng_process n, ng_slot n)) <$> l) → Forall (λ n, is_u64 (ng_rights n)) l →
  Forall (native_ok rt c process occupied) l →
  (∀ n, n ∈ l → bp_name process = ng_process n → slot_free occupied (ng_slot n) → F (ng_slot n)) →
  ready_for pid F (length l + room) rt →
  ∃ rt', grant_natives c process pid l rt = (Ok tt, rt').
Proof.
  revert F rt. induction l as [|n l IH]; intros F rt Hnd Hu Hok HF Hr; [by exists rt|].
  rewrite fmap_cons in Hnd. apply NoDup_cons in Hnd as [Hn Hnd]. apply Forall_cons in Hu as [Hun Hu].
  apply Forall_cons in Hok as [Hokn Hok].
  assert (Hstep : ∃ rt1 F', grant_native c process pid n rt = (Ok tt, rt1) ∧ rt_services rt1 = rt_services rt ∧
    ready_for pid F' (length l + room) rt1 ∧
    ∀ s, F s → (bp_name process = ng_process n → s ≠ ng_slot n) → F' s).
  { unfold grant_native, str_eqb. destruct (bool_decide_reflect (bp_name process = ng_process n)) as [He|He].
    2: { exists rt, F. split_and!; [done|done| |done]. apply (ready_for_weaken pid F F (length (n :: l) + room)); [done|cbn; lia|done]. }
    unfold rbind at 1, rget. destruct (ng_endpoint n (rt_services rt)) as [ep|] eqn:Hep.
    2: { exists rt, F. split_and!; [done|done| |done]. apply (ready_for_weaken pid F F (length (n :: l) + room)); [done|cbn; lia|done]. }
    destruct (Hokn He ltac:(eauto)) as (Ha & Hs & Hb).
    destruct (grant_new_capability_succeeds ep (ng_rights n) pid (ng_slot n) F (length l + room) rt Hr Hun)
      as (rt1 & H1 & R1 & _ & S1); [by apply HF; [left|..]|done|].
    exists rt1, (λ s, F s ∧ s ≠ ng_slot n). split_and!; [|done|done|auto].
    unfold rbind. rewrite Ha. exact H1. }
  destruct Hstep as (rt1 & F' & H1 & S1 & R1 & HF'). cbn. unfold rbind. rewrite H1.
  apply (IH F'); [done|done| |  |done].
  - eapply Forall_impl; [exact Hok|]. intros m Hm. unfold native_ok. by rewrite S1.
  - intros m Hm Hpm Hfree. apply HF'; [by apply HF; [right|..]|]. intros Hpn Heq. apply Hn.
    apply list_elem_of_fmap. exists m. split; [congruence|done].
Qed.

Lemma native_slots_distinct : NoDup ((λ n, (ng_process n, ng_slot n)) <$> native_grants).
Proof.
  assert (H : bool_decide (NoDup ((λ n, (ng_process n, ng_slot n)) <$> native_grants)) = true) by (vm_compute; reflexivity).
  by apply bool_decide_eq_true in H.
Qed.

(** Grants of the configuration carry [u64] rights and slots. *)
Definition grants_u64 (c : BootRuntimeConfig) : Prop :=
  ∀ g, g ∈ entries (cf_grants c) → is_u64 (bg_rights g) ∧ (0 ≤ bg_cap_slot g)%Z.

(** The capabilities a fresh process of the configuration may need: its grants, one
    secret and the native endpoints. *)
Definition start_room (c : BootRuntimeConfig) (index : nat) : nat :=
  grants_for index (counted (cf_grants c)) + S (length native_grants).

Lemma validated_grants_ok c index pid rt :
  grants_u64 c → services_paired (rt_services rt) →
  validate_config_caps_for_process rt c index = Ok tt →
  ready_for pid (λ _, True) (start_room c index) rt →
  ∃ rt', grant_config_caps_to_process c index pid rt = (Ok tt, rt').
Proof.
  intros Hu Hsv Hv Hr. unfold validate_config_caps_for_process in Hv.
  apply res_bind_ok in Hv as (process & Hget & Hv). apply res_bind_ok in Hv as (occ & Hocc & Hv).
  apply res_bind_ok in Hv as ([] & Hsec & Hnat).
  assert (Hg : ∀ g, Some g ∈ counted (cf_grants c) → is_u64 (bg_rights g) ∧ (0 ≤ bg_cap_slot g)%Z).
  { intros g Hin. apply Hu, list_elem_of_omap. by exists (Some g). }
  destruct (grant_config_caps_succeeds _ index pid (S (length native_grants)) rt _ occ (length_replicate _ _) Hg Hocc)
    as (Hl & rt1 & H1 & R1 & B1 & S1).
  { eapply ready_for_weaken; [|reflexivity|exact Hr]. done. }
  assert (Hstep : ∃ rt2 F, grant_logd_secret c process pid rt1 = (Ok tt, rt2) ∧ rt_services rt2 = rt_services rt ∧
    ready_for pid F (length native_grants + 0) rt2 ∧
    ∀ s, slot_free occ s → bp_name process ≠ "logd"%string → F s).
  { unfold grant_logd_secret, str_eqb in *. destruct (bool_decide_reflect (bp_name process = "logd"%string)) as [Hn|Hn].
    2: { exists rt1, (slot_free occ). split_and!; [done|done| |done]. eapply ready_for_weaken; [| |exact R1]; [done|lia]. }
    apply res_bind_ok in Hsec as ([] & Ha%res_guard_ok & Hsec).
    apply res_bind_ok in Hsec as (sec & Hs%ok_or_ok & [Hf Hb]%native_slot_free_ok); [|by vm_compute].
    rewrite <-B1 in Hs.
    destruct (grant_new_capability_succeeds sec secret_rights pid LOGD_SECRET_SLOT _ _ rt1 R1) as (rt2 & H2 & R2 & _ & S2);
      [by vm_compute|done|done|].
    exists rt2, (λ s, slot_free occ s ∧ s ≠ LOGD_SECRET_SLOT). split_and!; [|congruence| |done].
    - unfold rbind at 1. rewrite Ha. unfold rbind at 1, rguard, rret, rget. unfold rbind at 1, rlift. rewrite Hs. exact H2.
    - eapply ready_for_weaken; [| |exact R2]; [done|lia]. }
  destruct Hstep as (rt2 & F & H2 & S2 & R2 & HF).
  destruct (grant_natives_succeeds c process pid occ native_grants F 0 rt2) as [rt3 H3]; [|apply native_rights_u64| | |done|].
  - apply native_slots_distinct.
  - apply validate_native_pairs_ok in Hnat; [|done]. eapply Forall_impl; [exact Hnat|]. intros n Hn.
    unfold native_ok. by rewrite S2.
  - intros n Hin Hpn Hfree. apply HF; [done|]. rewrite Hpn.
    assert (Hno : Forall (λ n, ng_process n ≠ "logd"%string) native_grants) by (by repeat constructor).
    by eapply Forall_forall in Hno.
  - exists rt3. unfold grant_config_caps_to_process, rbind at 1. rewrite H1. unfold rbind at 1, rlift.
    rewrite Hget. unfold rbind at 1. by rewrite H2.
Qed.

(** * A fresh process *)

(** A process with no capabilities joins the table. *)
Lemma fresh_process_wf rt name ctx base len st root pid t :
  caps_wf rt → (pt_next_id (rt_processes rt) < u64_max)%Z →
  add_process (rt_processes rt) name ctx base len st cspace_new root = (Ok pid, t) →
  let rt' := rt <| rt_processes := t |> in
  caps_wf rt' ∧ process t pid = Some (process_new pid name ctx base len st cspace_new root) ∧
  (∀ cap, held rt' cap → held rt cap) ∧
  (∀ q p, process (rt_processes rt) q = Some p → process t q = Some p).
Proof.
  intros Hwf Hn Hadd rt'. pose proof (add_process_live (rt_processes rt) (cw_table rt Hwf) name ctx base len st cspace_new root Hn) as H.
  rewrite Hadd in H. destruct H as (_ & Ht & _ & _ & Hlive).
  set (p := process_new pid name ctx base len st cspace_new root) in *.
  assert (Hp : ∀ cap, ¬ holds p cap).
  { intros cap [Hc|Hc]; change (Some cap ∈ cspace_new) in Hc; by apply elem_of_replicate in Hc as [? _]. }
  split_and!.
  - split; [done|apply Hwf|apply Hwf|]. change (rt_processes rt') with t. change (rt_caps rt') with (rt_caps rt).
    rewrite Hlive. apply Forall_app. split; [apply Hwf|]. apply Forall_singleton.
    split; [done|done|]. intros cap []%Hp.
  - apply process_live; [done|]. split; [|done]. rewrite Hlive. apply elem_of_app. right. by left.
  - intros cap (q & Hq & Hc). change (rt_processes rt') with t in Hq. rewrite Hlive in Hq.
    apply elem_of_app in Hq as [Hq|Hq]; [by exists q|]. apply list_elem_of_singleton in Hq as ->. by apply Hp in Hc.
  - intros q r [Hr Hpid]%process_live; [|apply Hwf]. apply process_live; [done|]. split; [|done].
    rewrite Hlive. apply elem_of_app. by left.
Qed.

Lemma cspace_new_lookup slot : cspace_lookup cspace_new slot = None.
Proof.
  unfold cspace_lookup. destruct (slot_index cspace_new slot) as [i|] eqn:Hi; [|done].
  apply slot_index_Some in Hi as [_ Hi]. unfold cspace_new in *. rewrite length_replicate in Hi.
  by rewrite lookup_replicate_2.
Qed.

(** * Theorems *)

(** Who authorised a start capability, by slot, object and rights: a grant of the
    configuration that its policy admits, for the object the grant names; or a fact of
    the bootstrap policy, which allows one object in one slot: the token of [logd], an
    endpoint of a kernel service, and for the initial process the manifest module, the
    process control and the timer of the kernel. *)
Inductive start_authorized (c : BootRuntimeConfig) (index : nat) (process : BootProcessConfig) (rt : RuntimeState) :
    Z → KernelObjectId → Z → Prop :=
  | authorized_grant g object :
      g ∈ entries (cf_grants c) → bg_process_index g = index → grant_object_id rt g = Ok object →
      grant_authorized c g → start_authorized c index process rt (bg_cap_slot g) object (bg_rights g)
  | authorized_secret secret :
      bp_name process = "logd"%string → secret_id (rt_boot_ids rt) = Some secret →
      boot_bootstrap_authority_allows c (bp_graph_node process) "secret:logd-token" "native-secret" secret_rights = true →
      start_authorized c index process rt LOGD_SECRET_SLOT secret secret_rights
  | authorized_native n endpoint :
      n ∈ native_grants → bp_name process = ng_process n → ng_endpoint n (rt_services rt) = Some endpoint →
      boot_bootstrap_authority_allows c (bp_graph_node process) (ng_authority n) (ng_rule n) (ng_rights n) = true →
      start_authorized c index process rt (ng_slot n) endpoint (ng_rights n)
  | authorized_manifest module object :
      cf_manifest_module c = Some module →
      table_map (rt_objects rt) !! object =
        Some (OBootModule (mkBootModuleObject object (bmo_name module) (bmo_base module) (bmo_length module))) →
      boot_bootstrap_authority_allows c (bp_graph_node process) "boot-module:krustboot-manifest" "initial-manifest"
        RIGHT_READ = true →
      start_authorized c index process rt 0 object RIGHT_READ
  | authorized_control object :
      table_map (rt_objects rt) !! object = Some (OProcessControl (mkProcessControlObject object "process-control")) →
      boot_bootstrap_authority_allows c (bp_graph_node process) "process-control" "initial-process-control"
        initial_process_control_rights = true →
      start_authorized c index process rt 2 object initial_process_control_rights
  | authorized_timer object :
      timer_id (rt_boot_ids rt) = Some object →
      boot_bootstrap_authority_allows c (bp_graph_node process) "timer:monotonic-timer" "initial-restart-timer"
        RIGHT_CONTROL = true →
      start_authorized c index process rt INIT_TIMER_CAP_SLOT object RIGHT_CONTROL.

Lemma entitled_authorized c index config_process rt slot object rights log log' :
  config_wf c → rights_u64 c → validate_boot_config_installable c log = (Ok tt, log') →
  entitled c index config_process rt slot object rights →
  start_authorized c index config_process rt slot object rights.
Proof.
  intros Hc Hu Hadm [g o Hg Hi Ho|s Hn Hs Ha|n ep Hin Hn Hep Ha].
  - apply authorized_grant; [done..|]. by eapply policy_grant_passed.
  - by apply authorized_secret.
  - by apply authorized_native.
Qed.

(** What authorises a capability is still there after new objects, and after the
    identifier of the process control is noted. *)
Lemma authorized_later c index process rt rt' x slot object rights :
  rt_boot_ids rt' = (rt_boot_ids rt) <| process_control_id := x |> → rt_services rt' = rt_services rt →
  table_map (rt_objects rt) ⊆ table_map (rt_objects rt') →
  start_authorized c index process rt slot object rights → start_authorized c index process rt' slot object rights.
Proof.
  intros Hi Hs Ht H. destruct H.
  - apply authorized_grant; try done. unfold grant_object_id in *. by rewrite Hi.
  - apply authorized_secret; try done. by rewrite Hi.
  - apply authorized_native; try done. by rewrite Hs.
  - eapply authorized_manifest; try done. by eapply lookup_weaken.
  - eapply authorized_control; try done. by eapply lookup_weaken.
  - apply authorized_timer; try done. by rewrite Hi.
Qed.

Lemma authorized_frame c index process rt rt' slot object rights :
  rt_boot_ids rt' = rt_boot_ids rt → rt_services rt' = rt_services rt → rt_objects rt' = rt_objects rt →
  start_authorized c index process rt slot object rights → start_authorized c index process rt' slot object rights.
Proof.
  intros Hi Hs Ho. apply (authorized_later _ _ _ _ _ (process_control_id (rt_boot_ids rt))); [|done|by rewrite Ho].
  rewrite Hi. by destruct (rt_boot_ids rt).
Qed.

(** C17: What a process starts with is what was authorised.  Under an admitted
    configuration, when [grant_config_caps_to_process] succeeds for a process
    without capabilities, the process holds, for use and for its restarts, a usable
    capability for exactly the objects, rights and slots that the configuration and
    the kernel's services entitle it to, each of them authorised by the admitted
    policy; no other process changes. *)
Theorem start_capabilities_authorized c index config_process pid p rt rt' log log' :
  config_wf c → rights_u64 c → validate_boot_config_installable c log = (Ok tt, log') → caps_wf rt →
  counted_get (cf_processes c) index = Some config_process →
  process (rt_processes rt) pid = Some p → p_caps p = cspace_new → p_initial_caps p = cspace_new →
  grant_config_caps_to_process c index pid rt = (Ok tt, rt') →
  caps_wf rt' ∧ (∀ q, q ≠ pid → process (rt_processes rt') q = process (rt_processes rt) q) ∧
  ∃ caps, process (rt_processes rt') pid = Some (p <| p_caps := caps |> <| p_initial_caps := caps |>) ∧
    (∀ slot object rights,
       (∃ cap, cspace_lookup caps slot = Some cap ∧ c_object cap = object ∧ c_rights cap = rights ∧
               c_owner cap = pid ∧ live rt' cap) ↔ entitled c index config_process rt slot object rights) ∧
    (∀ slot cap, cspace_lookup caps slot = Some cap →
       start_authorized c index config_process rt' slot (c_object cap) (c_rights cap)).
Proof.
  intros Hc Hu Hadm Hwf Hget Hp He1 He2 Hrun.
  pose proof (grant_config_provides _ _ _ _ _ _ Hwf (ru_grants c Hu) Hget Hrun) as Hpv.
  destruct (pv_process _ _ _ _ Hpv p Hp) as (caps & initial & Hp' & _ & Hsound & Hcomplete & Hsame).
  rewrite (Hsame (eq_trans He2 (eq_sym He1))) in Hp'. rewrite He1 in Hsound.
  assert (Hs : ∀ slot cap, cspace_lookup caps slot = Some cap →
    entitled c index config_process rt slot (c_object cap) (c_rights cap) ∧ c_owner cap = pid ∧ live rt' cap).
  { intros slot cap [H|(H & Ho & _ & Hl)]%Hsound; [by rewrite cspace_new_lookup in H|done]. }
  split_and!; [apply Hpv|apply Hpv|]. exists caps. split_and!; [done| |].
  - intros slot o r. split.
    + intros (cap & (Hent & _)%Hs & <- & <- & _). done.
    + intros (cap & Hlk & Ho & Hr)%Hcomplete. destruct (Hs _ _ Hlk) as (_ & Hown & Hl). by exists cap.
  - intros slot cap (Hent & _)%Hs. pose proof (pv_frame _ _ _ _ Hpv) as Hf.
    apply (authorized_frame _ _ _ rt); [by rewrite Hf..|]. by eapply entitled_authorized.
Qed.

(** C18: The checks before a process is made suffice.  When
    [validate_config_caps_for_process] passes, the endpoints of the services come in
    pairs and the capability registry has room, [grant_config_caps_to_process]
    cannot fail for a new process. *)
Theorem validated_grants_succeed c index rt name ctx base len st root pid t :
  caps_wf rt → grants_u64 c → services_paired (rt_services rt) → (pt_next_id (rt_processes rt) < u64_max)%Z →
  cap_lineage_count (rt_caps rt) + start_room c index ≤ MAX_CAP_LINEAGE →
  validate_config_caps_for_process rt c index = Ok tt →
  add_process (rt_processes rt) name ctx base len st cspace_new root = (Ok pid, t) →
  ∃ rt', grant_config_caps_to_process c index pid (rt <| rt_processes := t |>) = (Ok tt, rt').
Proof.
  intros Hwf Hg Hs Hn Hroom Hv Hadd. destruct (fresh_process_wf _ _ _ _ _ _ _ _ _ Hwf Hn Hadd) as (Hwf' & Hp & _ & _).
  apply validated_grants_ok; [done|done| |].
  { unfold validate_config_caps_for_process. rewrite (validate_grant_slots_ids rt (rt <| rt_processes := t |>)) by done.
    exact Hv. }
  split_and!; [done|done|].
  eexists. split_and!; [exact Hp|done|]. intros s _. apply cspace_new_lookup.
Qed.

(** * A run *)

(** A runtime with the VFS root of the sample configuration, and the same with the
    process [app] in it. *)
Definition grant_runtime : RuntimeState :=
  runtime_new <| rt_boot_ids ::= λ ids, ids <| vfs_root_ids ::= <[0 := Some 7%Z]> |> |>
              <| rt_generation_id := "gen-1"%string |>.
Definition grant_context : ProcessContext := mkProcessContext 4096 8192 12288.
Definition app_process : Process := process_new 1 "app" grant_context 4096 4096 PsDeclared cspace_new path_empty.
Definition app_table : ProcessTable :=
  (add_process (rt_processes grant_runtime) "app" grant_context 4096 4096 PsDeclared cspace_new path_empty).2.

Lemma grant_runtime_wf : caps_wf grant_runtime.
Proof. destruct runtime_new_wf as [H1 H2 H3 H4]. split; [exact H1|exact H2|exact H3|exact H4]. Qed.
Lemma app_added :
  add_process (rt_processes grant_runtime) "app" grant_context 4096 4096 PsDeclared cspace_new path_empty = (Ok 1%Z, app_table).
Proof. vm_compute. reflexivity. Qed.
Lemma app_runtime_ok :
  caps_wf (grant_runtime <| rt_processes := app_table |>) ∧ process app_table 1 = Some app_process.
Proof.
  destruct (fresh_process_wf _ _ _ _ _ _ _ _ _ grant_runtime_wf ltac:(vm_compute; reflexivity) app_added) as (H1 & H2 & _).
  done.
Qed.
Definition app_granted : RuntimeState :=
  (grant_config_caps_to_process sample_config 1 1 (grant_runtime <| rt_processes := app_table |>)).2.
Lemma app_granted_ok :
  grant_config_caps_to_process sample_config 1 1 (grant_runtime <| rt_processes := app_table |>) = (Ok tt, app_granted).
Proof.
  unfold app_granted. rewrite (surjective_pairing (grant_config_caps_to_process _ _ _ _)) at 1.
  apply (f_equal2 pair); [vm_compute|]; reflexivity.
Qed.

(** Witness of [start_capabilities_authorized]. *)
Lemma start_capabilities_authorized_witness :
  ∃ caps, process (rt_processes app_granted) 1 = Some (app_process <| p_caps := caps |> <| p_initial_caps := caps |>) ∧
    ∃ cap, cspace_lookup caps 3 = Some cap ∧ c_object cap = 7%Z ∧ c_rights cap = RIGHT_READ ∧ live app_granted cap.
Proof.
  destruct (start_capabilities_authorized sample_config 1 (sample_process "app" "svc:app" false) 1 app_process
              (grant_runtime <| rt_processes := app_table |>) app_granted denial_log_new denial_log_new
              sample_config_wf sample_rights sample_admitted (proj1 app_runtime_ok) ltac:(vm_compute; reflexivity)
              (proj2 app_runtime_ok) eq_refl eq_refl app_granted_ok) as (_ & _ & caps & Hp & Hiff & _).
  exists caps. split; [exact Hp|].
  destruct (proj2 (Hiff 3%Z 7%Z RIGHT_READ)) as (cap & H1 & H2 & H3 & _ & H4).
  - apply (entitled_grant sample_config 1 (sample_process "app" "svc:app" false) _ sample_grant 7%Z sample_grant_in);
      vm_compute; reflexivity.
  - exact (ex_intro _ cap (conj H1 (conj H2 (conj H3 H4)))).
Defined.

Lemma sample_grants_u64 : grants_u64 sample_config.
Proof.
  unfold grants_u64. replace (entries (cf_grants sample_config)) with [sample_grant] by (vm_compute; reflexivity).
  intros g ->%list_elem_of_singleton. vm_compute. split_and!; discriminate.
Qed.

(** Witness of [validated_grants_succeed]. *)
Lemma validated_grants_succeed_witness :
  ∃ rt', grant_config_caps_to_process sample_config 1 1 (grant_runtime <| rt_processes := app_table |>) = (Ok tt, rt').
Proof.
  apply (validated_grants_succeed sample_config 1 grant_runtime "app" grant_context 4096 4096 PsDeclared path_empty 1
           app_table grant_runtime_wf sample_grants_u64).
  - split_and!; intros [? ?]; discriminate.
  - vm_compute. reflexivity.
  - apply Nat.leb_le. vm_compute. reflexivity.
  - vm_compute. reflexivity.
  - exact app_added.
Defined.
