(* ===== verification/Revocation.v ===== *)
(** What the kernel does after a revocation: derived VFS roots nobody can
    reach are released and receivers that lost their authority are woken. The
    claims about the capability calls are at the end. *)

From S2P Require Import Prelude KernelBase Transport VfsPath KernelObjects.
From S2P Require Import ObjectTableProofs ProcessRuntime ProcessTableProofs CapRegistry.
From S2P Require Import VfsState Runtime Kernel Scheduler CapabilitySyscalls VfsSyscalls.
From S2P Require Import CapabilityProofs NewAuthority.
From stdpp Require Import relations.

(** * Derived roots *)

(** A derived root no usable capability names. *)
Definition garbage (rt : RuntimeState) (o : KernelObject) : Prop :=
  match o with
  | OVfsRoot root => vr_derived root = true ∧ object_reachable_by_cap rt (vr_id root) = false
  | _ => False
  end.

#[export] Instance garbage_dec rt o : Decision (garbage rt o).
Proof. destruct o; apply _. Defined.

Lemma table_map_size t : table_wf t → size (table_map t) ≤ MAX_OBJECTS.
Proof.
  intros Hwf. unfold table_map. rewrite map_size_list_to_map.
  - rewrite length_fmap. etransitivity; [apply length_omap_le|]. rewrite length_take.
    destruct Hwf. lia.
  - rewrite <-list_fmap_compose. apply (NoDup_fmap_omap object_id). intros i j x x' Hi Hj Hid.
    apply lookup_take_Some in Hi as [??]. apply lookup_take_Some in Hj as [??].
    eapply (tw_unique t Hwf); unfold live_at; eauto.
Qed.

(** Removing a root that is there. *)
Lemma remove_root_ok t i root :
  table_wf t → live_at t i (OVfsRoot root) → vr_derived root = true →
  ∃ t', remove_derived_vfs_root t (vr_id root) = (true, t') ∧ pruned t t' (λ j _, j ≠ i) ∧
        table_wf t' ∧ size (table_map t') < size (table_map t).
Proof.
  intros Hwf Hi Hd. unfold remove_derived_vfs_root. set (p := λ o : KernelObject, _).
  pose proof (remove_first_object_pruned p t Hwf) as Hp.
  pose proof (remove_first_object_map p t Hwf) as Hm.
  destruct (remove_first_object p t) as [[o|] t'].
  - destruct Hp as (j & Hj & Ho & Hpr & _). destruct Hm as (Hwf' & _ & Hk & Hdel & _).
    destruct o as [| | | | | | | | | | | | | |r| | |]; try done. cbn in Ho.
    apply andb_true_iff in Ho as [Hid%Z.eqb_eq _].
    assert (j = i) as -> by (eapply (tw_unique t Hwf); [exact Hj|exact Hi|done]).
    exists t'. split_and!; [done|done|done|]. rewrite Hdel.
    assert (Hs : size (table_map t) ≠ 0).
    { intros Hz%map_size_empty_iff. by rewrite Hz, lookup_empty in Hk. }
    rewrite map_size_delete_Some by eauto. lia.
  - destruct Hm as [_ Hm]. assert (p (OVfsRoot root) = false) as Hf.
    { apply (Hm (vr_id root)). apply table_map_lookup; eauto. }
    unfold p in Hf. rewrite Z.eqb_refl, Hd in Hf. done.
Qed.

(** The loop ends, with exactly the garbage removed. *)
Lemma release_roots_loop_spec rt0 fuel : ∀ index rt,
  rt = rt0 <| rt_objects := rt_objects rt |> →
  table_wf (rt_objects rt) →
  pruned (rt_objects rt0) (rt_objects rt) (λ j o, ¬ garbage rt0 o ∨ index ≤ j ∧ live_at (rt_objects rt) j o) →
  count (rt_objects rt) - index + size (table_map (rt_objects rt)) < fuel →
  ∃ rt', release_roots_loop fuel index rt = Some rt' ∧
         rt' = rt0 <| rt_objects := rt_objects rt' |> ∧ table_wf (rt_objects rt') ∧
         pruned (rt_objects rt0) (rt_objects rt') (λ _ o, ¬ garbage rt0 o).
Proof.
  induction fuel as [|fuel IH]; intros index rt Hrt Hwf Hpr Hf; [lia|]. cbn [release_roots_loop].
  assert (Hreach : ∀ o, object_reachable_by_cap rt o = object_reachable_by_cap rt0 o)
    by (intros o; rewrite Hrt; done).
  pose proof Hpr as (P1 & P2 & P3 & P4).
  destruct (Nat.ltb_spec index (count (rt_objects rt))) as [Hlt|Hge].
  2: { exists rt. split_and!; [done|done|done|]. split_and!; [done|done|done|]. intros j x.
       rewrite P4. split; intros [Hj H]; (split; [done|]); [|by left].
       destruct H as [H|[Hle [Hc _]]]; [done|lia]. }
  (** Moving on past a slot without garbage. *)
  assert (Hskip : (∀ o, live_at (rt_objects rt) index o → ¬ garbage rt0 o) →
    ∃ rt', release_roots_loop fuel (S index) rt = Some rt' ∧
         rt' = rt0 <| rt_objects := rt_objects rt' |> ∧ table_wf (rt_objects rt') ∧
         pruned (rt_objects rt0) (rt_objects rt') (λ _ o, ¬ garbage rt0 o)).
  { intros Hng. apply IH; [done|done| |lia]. split_and!; [done|done|done|]. intros j x. split.
    - intros Hx. apply P4 in Hx as Hx'. destruct Hx' as [Hj H]. split; [done|].
      destruct (decide (j = index)) as [->|]; [left; by apply Hng|].
      destruct H as [H|[Hle _]]; [by left|right; split; [lia|done]].
    - intros [Hj H]. apply P4. split; [done|].
      destruct H as [H|[Hle H]]; [by left|right; split; [lia|done]]. }
  destruct (objects (rt_objects rt) !! index) as [[o|]|] eqn:Ho; cbn [mjoin option_join].
  2,3: apply Hskip; intros o [_ Ho']; congruence.
  assert (Hat : live_at (rt_objects rt) index o) by done.
  destruct o as [| | | | | | | | | | | | | |root| | |];
    try (apply Hskip; intros ? [_ Ho']; rewrite Ho in Ho'; injection Ho' as <-; exact id).
  destruct (vr_derived root && negb (object_reachable_by_cap rt (vr_id root))) eqn:Hg.
  2: { apply Hskip. intros o [_ Ho']. rewrite Ho in Ho'. injection Ho' as <-. cbn.
       rewrite <-Hreach. destruct (vr_derived root), (object_reachable_by_cap rt _); naive_solver. }
  apply andb_true_iff in Hg as [Hd Hu%negb_true_iff].
  destruct (remove_root_ok _ _ _ Hwf Hat Hd) as (t' & -> & (Q1 & Q2 & Q3 & Q4) & Hwf' & Hsz).
  apply IH; [by rewrite Hrt|done| |cbn; lia].
  unfold set; cbn. split_and!; [congruence|lia|congruence|]. intros j x.
  split.
  - intros Hx%Q4. destruct Hx as [Hx Hne]. apply P4 in Hx as Hx'. destruct Hx' as [Hj H].
    split; [done|]. destruct H as [H|[Hle _]]; [by left|right].
    split; [done|]. exact (proj2 (Q4 j x) (conj Hx Hne)).
  - intros [Hj H]. apply Q4. destruct (decide (j = index)) as [->|Hne].
    + exfalso. destruct H as [H|[_ H]]; [|apply Q4 in H; naive_solver]. apply H.
      assert (Hx : live_at (rt_objects rt0) index (OVfsRoot root)) by (apply P4 in Hat; apply Hat).
      destruct Hx as [_ Hx], Hj as [_ Hj]. rewrite Hx in Hj. injection Hj as <-.
      cbn. by rewrite <-Hreach.
    + split; [|done]. apply P4. split; [done|]. destruct H as [H|[Hle H]]; [by left|right].
      split; [done|]. by apply Q4 in H as [? _].
Qed.

Lemma release_roots_spec rt :
  table_wf (rt_objects rt) →
  let rt' := release_unreferenced_derived_vfs_roots rt in
  release_roots_loop release_roots_fuel 0 rt = Some rt' ∧
  rt' = rt <| rt_objects := rt_objects rt' |> ∧ table_wf (rt_objects rt') ∧
  pruned (rt_objects rt) (rt_objects rt') (λ _ o, ¬ garbage rt o).
Proof.
  intros Hwf. unfold release_unreferenced_derived_vfs_roots.
  destruct (release_roots_loop_spec rt release_roots_fuel 0 rt) as (rt' & Hrun & Hrest).
  - by destruct rt.
  - done.
  - split_and!; [done..|]. intros j x. split; [|tauto]. intros H. split; [done|right].
    split; [lia|done].
  - pose proof (table_map_size _ Hwf). destruct Hwf as [? ? _ _ _]. unfold release_roots_fuel.
    lia.
  - rewrite Hrun. done.
Qed.

(** The loop only changes objects, whatever the table. *)
Lemma release_roots_loop_same_caps fuel : ∀ index rt rt',
  release_roots_loop fuel index rt = Some rt' → same_caps rt rt'.
Proof.
  induction fuel as [|fuel IH]; intros index rt rt'; cbn [release_roots_loop]; [done|].
  repeat case_match; intros Hrun; try (by eapply IH); simplify_eq; [|done].
  etransitivity; [apply objects_same_caps|by eapply IH].
Qed.

Lemma release_roots_same_caps rt : same_caps rt (release_unreferenced_derived_vfs_roots rt).
Proof.
  unfold release_unreferenced_derived_vfs_roots. destruct (release_roots_loop _ _ _) eqn:Hl;
    [by eapply release_roots_loop_same_caps|done].
Qed.

(** * Receivers that lost their authority *)

Definition blocked_on_endpoint (p : Process) : Prop :=
  match p_state p with PsBlockedOnEndpoint _ _ _ _ _ => True | _ => False end.

Section cancel.
Context (rt0 : RuntimeState) (Hwf : ptable_wf (rt_processes rt0)).
Context (cancels : RuntimeState → Process → bool) (status : Z).
(** The test only selects blocked receivers, and does not change when other
    processes are woken. *)
Context (Hblocked : ∀ rt p, cancels rt p = true → blocked_on_endpoint p).
Context (Hstable : ∀ rt p, same_caps rt0 rt → rt_objects rt = rt_objects rt0 →
           p ∈ live_processes (rt_processes rt0) → cancels rt p = cancels rt0 p).

Definition cancel_one (p : Process) : Process :=
  if cancels rt0 p then wake_with status p else p.

(** Everything but the process table is as in [rt0]. *)
Definition only_processes (rt : RuntimeState) : Prop :=
  rt = rt0 <| rt_processes := rt_processes rt |> ∧
  pt_current (rt_processes rt) = pt_current (rt_processes rt0).

Lemma cancel_waiter_at rt i p :
  mjoin (pt_processes (rt_processes rt) !! i) = Some p → blocked_on_endpoint p →
  cancel_blocked_endpoint_waiter_at rt i status =
  (true, rt <| rt_processes ::= λ t, modify_process_at t i (wake_with status) |>).
Proof using.
  unfold cancel_blocked_endpoint_waiter_at, blocked_on_endpoint. intros ->. by case_match.
Qed.

Lemma take_S_drop {A} (f : A → A) (l : list A) i x :
  l !! i = Some x →
  take (S i) (f <$> l) ++ drop (S i) l = alter f i (take i (f <$> l) ++ drop i l).
Proof using.
  intros Hx. assert (Hi : i < length l) by (by eapply lookup_lt_Some).
  rewrite (drop_S l x i) by done.
  rewrite (take_S_r _ _ (f x)) by (by rewrite list_lookup_fmap, Hx). rewrite <-app_assoc. cbn.
  rewrite alter_app_r_alt by (rewrite length_take, length_fmap; lia).
  rewrite length_take, length_fmap. replace (i - i `min` length l) with 0 by lia. done.
Qed.

Lemma take_S_drop_id {A} (f : A → A) (l : list A) i x :
  l !! i = Some x → f x = x →
  take (S i) (f <$> l) ++ drop (S i) l = take i (f <$> l) ++ drop i l.
Proof using.
  intros Hx Hf. rewrite (drop_S l x i) by done.
  rewrite (take_S_r _ _ (f x)) by (by rewrite list_lookup_fmap, Hx). rewrite <-app_assoc. cbn.
  by rewrite Hf.
Qed.

Lemma cancel_receivers_from_spec fuel : ∀ index rt n,
  only_processes rt → same_caps rt0 rt → ptable_wf (rt_processes rt) →
  index + fuel = pt_count (rt_processes rt0) →
  live_processes (rt_processes rt) =
    take index (cancel_one <$> live_processes (rt_processes rt0)) ++
    drop index (live_processes (rt_processes rt0)) →
  ∃ n' rt', cancel_receivers_from cancels status rt index fuel n = (n', rt') ∧
    only_processes rt' ∧ same_caps rt0 rt' ∧
    live_processes (rt_processes rt') = cancel_one <$> live_processes (rt_processes rt0).
Proof using Hwf Hblocked Hstable.
  induction fuel as [|fuel IH]; intros index rt n Ho Hsc Hw Hidx Hl; cbn [cancel_receivers_from].
  { exists n, rt. split_and!; [done|done|done|]. rewrite Hl, take_ge, drop_ge, app_nil_r;
      rewrite ?length_fmap, ?live_length by done; done || lia. }
  set (l0 := live_processes (rt_processes rt0)) in *.
  destruct (lookup_lt_is_Some_2 l0 index) as [p Hp].
  { unfold l0. rewrite live_length by done. lia. }
  assert (Hlp : live_processes (rt_processes rt) !! index = Some p).
  { rewrite Hl, lookup_app_r; rewrite length_take, length_fmap;
      pose proof (lookup_lt_Some _ _ _ Hp); [|lia].
    rewrite lookup_drop. by replace (index + _) with index by lia. }
  pose proof (proj1 (live_lookup _ _ _ Hw) Hlp) as [_ Hs]. rewrite Hs. cbn [mjoin option_join].
  assert (Hobj : rt_objects rt = rt_objects rt0) by (by destruct Ho as [-> _]).
  rewrite (Hstable rt p Hsc Hobj) by (by eapply list_elem_of_lookup_2).
  destruct (cancels rt0 p) eqn:Hc.
  - rewrite (cancel_waiter_at rt index p) by (try rewrite Hs; eauto).
    set (rt1 := rt <| rt_processes ::= _ |>).
    destruct (modify_process_at_live (rt_processes rt) index (wake_with status) Hw) as [Hw1 Hl1];
      [done|]. change (modify_process_at _ _ _) with (rt_processes rt1) in Hw1, Hl1.
    apply IH; [|etransitivity; [done|by apply modify_same_caps]|done|lia|].
    + destruct Ho as [Ho Hcur]. split; [|done]. unfold rt1. by rewrite Ho.
    + rewrite Hl1, Hl, (take_S_drop _ _ _ p) by done.
      apply list_eq. intros j. destruct (decide (index = j)) as [<-|Hne];
        [|by rewrite !list_lookup_alter_ne].
      rewrite !list_lookup_alter_eq, <-Hl, Hlp. cbn. unfold cancel_one. by rewrite Hc.
  - apply IH; [done|done|done|lia|]. rewrite Hl. symmetry. apply (take_S_drop_id _ _ _ p); [done|].
    unfold cancel_one. by rewrite Hc.
Qed.
End cancel.

(** What [process_has_live_endpoint_cap] decides. *)
Lemma has_live_endpoint_cap_iff rt p ep id right :
  caps_wf rt → p ∈ live_processes (rt_processes rt) →
  process_has_live_endpoint_cap rt p ep id right = true ↔
  is_Some (get_endpoint (rt_objects rt) ep) ∧
  ∃ cap, Some cap ∈ p_caps p ∧ c_id cap = id ∧ c_object cap = ep ∧ live rt cap ∧
         rights_le right (c_rights cap).
Proof.
  intros Hwf Hp. unfold process_has_live_endpoint_cap.
  destruct (get_endpoint (rt_objects rt) ep) as [e|]; [|split; [done|intros [[??] _]; done]].
  destruct (first_index _ _ _) as [i|] eqn:Hi.
  - apply first_index_Some in Hi as (_ & ([cap|] & Hc & Ht) & _); [|done].
    apply andb_true_iff in Ht as [[[H1%Z.eqb_eq H2%Z.eqb_eq]%andb_true_iff H3]%andb_true_iff H4].
    split; [intros _|done]. split; [eauto|]. exists cap.
    assert (Hin : Some cap ∈ p_caps p) by (by eapply list_elem_of_lookup_2).
    split_and!; [done|done|done| |by apply has_rights_le].
    apply capability_live_iff; [done| |done]. exists p. split; [done|by left].
  - split; [done|]. intros (_ & cap & Hin & H1 & H2 & H3 & H4).
    apply list_elem_of_lookup in Hin as [j Hj].
    pose proof (proj1 (first_index_None _ _ _) Hi j (Some cap) (lookup_lt_Some _ _ _ Hj) Hj) as Hn.
    cbn in Hn. rewrite (proj2 (Z.eqb_eq _ _) H1), (proj2 (Z.eqb_eq _ _) H2) in Hn.
    rewrite (proj2 (capability_live_iff rt Hwf cap ltac:(exists p; split;
      [done|left; by eapply list_elem_of_lookup_2])) H3) in Hn.
    by rewrite (proj2 (has_rights_le _ _) H4) in Hn.
Qed.

(** It does not change when other processes are woken. *)
Lemma has_live_endpoint_cap_stable rt rt' p p' ep id right :
  caps_wf rt → same_caps rt rt' → rt_objects rt' = rt_objects rt →
  p ∈ live_processes (rt_processes rt) → p_caps p' = p_caps p →
  process_has_live_endpoint_cap rt' p' ep id right = process_has_live_endpoint_cap rt p ep id right.
Proof.
  intros Hwf Hsc Hobj Hp Hc. unfold process_has_live_endpoint_cap. rewrite Hobj, Hc.
  destruct (get_endpoint _ _); [|done].
  assert (Hlive : ∀ cap, Some cap ∈ p_caps p → capability_live rt' cap = capability_live rt cap).
  { intros cap Hin. assert (Hh : held rt cap) by (exists p; split; [done|by left]).
    apply eq_bool_prop_intro. rewrite !Is_true_true.
    rewrite (capability_live_iff rt) by done.
    rewrite (capability_live_iff rt' (same_caps_wf rt rt' Hwf Hsc))
      by (by apply (same_caps_held rt)).
    destruct Hsc as [Hr Hg _ _]. unfold live. by rewrite Hr, Hg. }
  erewrite first_index_ext; [reflexivity|]. intros [cap|] Hin; [|done]. by rewrite Hlive.
Qed.

(** Every receiver that waits holds the authority it waits with. *)
Definition receivers_authorized (rt : RuntimeState) : Prop :=
  ∀ p endpoint cap_id ptr len timeout, p ∈ live_processes (rt_processes rt) →
    p_state p = PsBlockedOnEndpoint endpoint cap_id ptr len timeout →
    process_has_live_endpoint_cap rt p endpoint cap_id RIGHT_RECEIVE = true.

Lemma cancel_unauthorized_spec rt status :
  caps_wf rt →
  let rt' := (cancel_unauthorized_blocked_receivers status rt).2 in
  same_caps rt rt' ∧ only_processes rt rt' ∧
  live_processes (rt_processes rt') =
    cancel_one rt unauthorized_receiver status <$> live_processes (rt_processes rt) ∧
  receivers_authorized rt'.
Proof.
  intros Hwf rt'. unfold cancel_unauthorized_blocked_receivers in rt'.
  destruct (cancel_receivers_from_spec rt (cw_table rt Hwf) unauthorized_receiver status)
    with (fuel := pt_count (rt_processes rt)) (index := 0) (rt := rt) (n := 0)
    as (n' & rt1 & Hrun & Hop & Hsc & Hlive).
  - intros rt1 p. unfold unauthorized_receiver, blocked_on_endpoint. by destruct (p_state p).
  - intros rt1 p Hsc Hobj Hp. unfold unauthorized_receiver. case_match; try done.
    f_equal. by apply has_live_endpoint_cap_stable.
  - split; [by destruct rt|done].
  - done.
  - apply Hwf.
  - done.
  - done.
  - unfold rt'. rewrite Hrun. cbn [snd]. split_and!; [done|done|done|].
    intros p ep cid ptr len timeout Hp Hst. rewrite Hlive in Hp.
    apply list_elem_of_fmap in Hp as (q & -> & Hq). unfold cancel_one in *.
    destruct (unauthorized_receiver rt q) eqn:Hu; [done|].
    assert (Hobj : rt_objects rt1 = rt_objects rt) by (by destruct Hop as [-> _]).
    rewrite (has_live_endpoint_cap_stable rt rt1 q q) by done.
    unfold unauthorized_receiver in Hu. rewrite Hst in Hu. by apply negb_false_iff in Hu.
Qed.

Lemma cap_revoke_cases rt slot :
  caps_wf rt →
  match cap_revoke slot rt with
  | (Ok _, rt') =>
      ∃ p cap, current_process (rt_processes rt) = Some p ∧
        cspace_lookup (p_caps p) slot = Some cap ∧ live rt cap ∧
        (∀ x, revoked (rt_caps rt') x ↔
              revoked (rt_caps rt) x ∨ rtc (derived_from (rt_caps rt)) x (c_id cap)) ∧
        same_forest (rt_caps rt) (rt_caps rt') ∧
        caps_wf rt' ∧ attenuates rt rt' ∧ receivers_authorized rt'
  | (Err e, rt') => rt' = rt ∧ e = BadCapability
  end.
Proof.
  intros Hwf. unfold cap_revoke, rbind.
  destruct (lookup_capability slot 0 rt) as [[cap|e] rt0] eqn:Hlk.
  2: { by apply lookup_capability_err in Hlk. }
  apply lookup_capability_ok in Hlk as (-> & p & Hp & Hc & Hl & _); [|done].
  assert (Hh : held rt cap) by (eapply current_held; [done|done|by eapply cspace_lookup_elem]).
  destruct (held_known rt Hwf cap Hh) as [Hk _].
  destruct (rt_revoke_ok rt (c_id cap) Hwf Hk) as (rt1 & -> & Hwf1 & Hatt & _ & Hsf & Hrev).
  unfold rmodify. set (rt2 := release_unreferenced_derived_vfs_roots rt1).
  pose proof (release_roots_same_caps rt1) as Hsc2. change (release_unreferenced_derived_vfs_roots rt1)
    with rt2 in Hsc2.
  pose proof (same_caps_wf _ _ Hwf1 Hsc2) as Hwf2.
  destruct (cancel_unauthorized_spec rt2 STATUS_BAD_CAPABILITY Hwf2) as (Hsc3 & _ & _ & Hauth).
  set (rt3 := (cancel_unauthorized_blocked_receivers _ rt2).2) in *.
  assert (Hreg : rt_caps rt3 = rt_caps rt1)
    by (rewrite (sc_registry _ _ Hsc3); apply (sc_registry _ _ Hsc2)).
  exists p, cap. rewrite Hreg. split_and!; try done.
  - by eapply same_caps_wf.
  - etransitivity; [done|]. apply same_caps_attenuates; [done|]. by etransitivity.
Qed.

(** * The capability calls as steps *)

(** One call of a process, whatever it returns: every call that makes, moves
    or takes away a capability while a generation runs (a name is resolved in
    the namespace that the slot names; the rights of entries, masks and packed
    arguments are 64-bit words). [CallOther] is any other change that does not
    touch capabilities: a context switch, a message, a wake-up. *)
Inductive cap_call : RuntimeState → RuntimeState → Prop :=
| CallDerive parent_slot new_slot mask rt r rt' :
    is_u64 mask → cap_derive parent_slot new_slot mask rt = (r, rt') → cap_call rt rt'
| CallCopy source_slot target_slot mask rt r rt' :
    is_u64 mask → cap_copy source_slot target_slot mask rt = (r, rt') → cap_call rt rt'
| CallInspect slot rt r rt' : cap_inspect slot rt = (r, rt') → cap_call rt rt'
| CallDrop slot rt r rt' : cap_drop slot rt = (r, rt') → cap_call rt rt'
| CallMove source_slot target_slot rt r rt' :
    cap_move source_slot target_slot rt = (r, rt') → cap_call rt rt'
| CallRevoke slot rt r rt' : cap_revoke slot rt = (r, rt') → cap_call rt rt'
| CallTransfer control_slot target_pid packed rt r rt' :
    is_u64 packed → cap_transfer control_slot target_pid packed rt = (r, rt') → cap_call rt rt'
| CallNamespace slot namespace path target_slot rt r rt' :
    namespace_from_cap slot RIGHT_RESOLVE rt = (Ok namespace, rt) →
    (∀ entry, Some entry ∈ ns_entries namespace → is_u64 (ne_rights entry)) →
    namespace_grant namespace slot path target_slot rt = (r, rt') → cap_call rt rt'
| CallEndpoint control_slot cap_slot rt r rt' :
    endpoint_create control_slot cap_slot rt = (r, rt') → cap_call rt rt'
| CallDeriveRoot slot path target_slot rt r rt' :
    vfs_derive_root_path slot path target_slot rt = (r, rt') → cap_call rt rt'
| CallQuota control_slot target_pid max rt r rt' :
    quota_delegate control_slot target_pid max rt = (r, rt') → cap_call rt rt'
| CallOther rt rt' : same_caps rt rt' → cap_call rt rt'.

Lemma cap_inspect_cases rt slot :
  (cap_inspect slot rt).2 = rt ∧ ∀ e, (cap_inspect slot rt).1 = Err e → e = BadCapability.
Proof.
  unfold cap_inspect, rbind, rret. pose proof (lookup_capability_state slot 0 rt) as Hs.
  destruct (lookup_capability slot 0 rt) as [[cap|e] rt1] eqn:Hl; cbn in Hs |- *; [done|].
  apply lookup_capability_err in Hl as [_ ->]. split; [done|]. congruence.
Qed.

(** A step either attenuates what is held, or mints one new capability. *)
Lemma cap_call_cases rt rt' :
  caps_wf rt → cap_call rt rt' →
  (caps_wf rt' ∧ attenuates rt rt') ∨ ∃ cap, creates rt cap ∧ mints rt rt' cap.
Proof.
  intros Hwf Hc. destruct Hc as [a b m rt r rt' Hu Hr|a b m rt r rt' Hu Hr|a rt r rt' Hr|a rt r rt' Hr
    |a b rt r rt' Hr|a rt r rt' Hr|a b m rt r rt' Hu Hr|a ns m b rt r rt' Hns Hu Hr|a b rt r rt' Hr
    |a m b rt r rt' Hr|a b m rt r rt' Hr|rt rt' Hsc].
  8: { pose proof (namespace_grant_cases rt ns a m b Hwf Hns Hu) as H. rewrite Hr in H.
       destruct r; [by right|left; by destruct H as [-> _]]. }
  8: { pose proof (endpoint_create_core rt a b Hwf) as H. rewrite Hr in H.
       destruct r; [right|left; by destruct H as [-> _]].
       destruct H as (?&?&?&?&cap&?&?&?&?&?&?&?&?&?&?). by exists cap. }
  8: { pose proof (derive_root_cases rt a m b Hwf) as H. rewrite Hr in H.
       destruct r; [by right|left; by subst]. }
  all: left.
  - pose proof (derive_cases rt a b m Hwf Hu) as H. unfold cap_derive in Hr. rewrite Hr in H.
    destruct r; [destruct H as (?&?&?&?&?&H); tauto|by destruct H as [-> _]].
  - pose proof (derive_cases rt a b m Hwf Hu) as H. unfold cap_copy in Hr. rewrite Hr in H.
    destruct r; [destruct H as (?&?&?&?&?&H); tauto|by destruct H as [-> _]].
  - destruct (cap_inspect_cases rt a) as [H _]. rewrite Hr in H. by subst.
  - pose proof (cap_drop_cases rt a Hwf) as H. rewrite Hr in H.
    destruct r; [destruct H as (?&?&?&?&H); tauto|by destruct H as [-> _]].
  - pose proof (cap_move_cases rt a b Hwf) as H. rewrite Hr in H.
    destruct r; [destruct H as (?&?&?&?&?&H); tauto|by destruct H as [-> _]].
  - pose proof (cap_revoke_cases rt a Hwf) as H. rewrite Hr in H.
    destruct r; [destruct H as (?&?&H); tauto|by destruct H as [-> _]].
  - pose proof (cap_transfer_cases rt a b m Hwf Hu) as H. rewrite Hr in H.
    destruct r; [destruct H as (?&?&?&?&?&?&H); tauto|by destruct H as [-> _]].
  - pose proof (quota_delegate_cases rt a b m Hwf) as H. rewrite Hr in H.
    destruct r; [|by destruct H as [-> _]].
    split; [by eapply same_caps_wf|by apply same_caps_attenuates].
  - split; [by eapply same_caps_wf|by apply same_caps_attenuates].
Qed.

(** Whatever happens, revocations and derivations are kept. *)
Record registry_grows (rt rt' : RuntimeState) : Prop := mk_registry_grows {
  rg_wf : caps_wf rt';
  rg_revoked x : revoked (rt_caps rt) x → revoked (rt_caps rt') x;
  rg_derived c p : derived_from (rt_caps rt) c p → derived_from (rt_caps rt') c p
}.

Lemma cap_call_step rt rt' : caps_wf rt → cap_call rt rt' → registry_grows rt rt'.
Proof.
  intros Hwf Hc. destruct (cap_call_cases rt rt' Hwf Hc) as [[Hwf' []]|(cap & _ & [Hm _ Hrev Hder _ _])];
    [by split|]. split; [done| |done]. intros x. apply Hrev.
Qed.

Lemma cap_calls_steps rt rt' : caps_wf rt → rtc cap_call rt rt' → registry_grows rt rt'.
Proof.
  intros Hwf H. revert Hwf. induction H as [rt|rt rt1 rt2 Hstep _ IH]; intros Hwf; [by split|].
  destruct (cap_call_step _ _ Hwf Hstep) as [Hwf1 R1 D1]. destruct (IH Hwf1) as [Hwf2 R2 D2].
  split; [done|eauto|eauto].
Qed.

(** [cap'] carries no more than [cap]: the same object, rights among its
    rights, and a chain of recorded derivations from it. *)
Definition within (rt : RuntimeState) (cap' cap : Capability) : Prop :=
  c_object cap' = c_object cap ∧ rights_le (c_rights cap') (c_rights cap) ∧
  rtc (derived_from (rt_caps rt)) (c_id cap') (c_id cap).

Lemma within_refl rt cap : within rt cap cap.
Proof. split_and!; [done|done|apply rtc_refl]. Qed.

Lemma within_trans rt rt' c3 c2 c1 :
  registry_grows rt rt' → within rt' c3 c2 → within rt c2 c1 → within rt' c3 c1.
Proof.
  intros [_ _ D] (Ho & Hr & Hd) (Ho' & Hr' & Hd'). split_and!; [congruence|by etransitivity|].
  etransitivity; [done|]. clear -Hd' D. induction Hd'; [apply rtc_refl|eapply rtc_l; eauto].
Qed.

(** The source of a usable capability after one step. *)
Lemma cap_call_source rt rt' cap' :
  caps_wf rt → cap_call rt rt' → held rt' cap' → live rt' cap' →
  (∃ cap, held rt cap ∧ live rt cap ∧ within rt' cap' cap) ∨ creates rt cap'.
Proof.
  intros Hwf Hc Hh Hl. destruct (cap_call_cases rt rt' Hwf Hc) as [[Hwf' Ha]|(cap & Hcr & Hm)].
  - left. destruct (attenuates_live _ _ _ Ha Hwf' Hh Hl) as (cap & H1 & H2 & H3). by exists cap.
  - destruct (mi_held _ _ _ Hm _ Hh) as [Hh0| ->]; [left|by right]. exists cap'.
    split_and!; [done| |apply within_refl]. destruct Hl as [Hr Hg]. split.
    + intros Hr'. by apply Hr, (mi_revoked _ _ _ Hm).
    + by rewrite <-(mi_generation _ _ _ Hm).
Qed.

Lemma cap_calls_source rt rt' :
  caps_wf rt → rtc cap_call rt rt' →
  ∀ cap', held rt' cap' → live rt' cap' →
    ∃ cap, (held rt cap ∧ live rt cap ∨
            ∃ mid, rtc cap_call rt mid ∧ rtc cap_call mid rt' ∧ creates mid cap) ∧
      within rt' cap' cap.
Proof.
  intros Hwf. revert rt'. refine (rtc_ind_r _ _ _ _).
  - intros cap Hh Hl. exists cap. split; [by left|apply within_refl].
  - intros rt1 rt2 Hrun Hstep IH cap2 Hh Hl. pose proof (cap_calls_steps _ _ Hwf Hrun) as [Hwf1 _ _].
    destruct (cap_call_source _ _ _ Hwf1 Hstep Hh Hl) as [(cap1 & Hh1 & Hl1 & Hw)|Hcr].
    + destruct (IH cap1 Hh1 Hl1) as (cap & Hsrc & Hw'). exists cap.
      split; [|by eapply within_trans; [apply cap_call_step|..]].
      destruct Hsrc as [?|(mid & H1 & H2 & H3)]; [by left|right]. exists mid.
      split_and!; [done|by eapply rtc_r|done].
    + exists cap2. split; [|apply within_refl]. right. exists rt1.
      split_and!; [done|by eapply rtc_once|done].
Qed.

(** * New endpoints *)

(** What a successful [endpoint_create] does. *)
Definition endpoint_created (cap_slot : Z) (rt rt' : RuntimeState) : Prop :=
  ∃ p p' cap,
    current_process (rt_processes rt) = Some p ∧ current_process (rt_processes rt') = Some p' ∧
    let id := next_id (rt_objects rt) in
    table_map (rt_objects rt) !! id = None ∧ table_wf (rt_objects rt') ∧
    table_map (rt_objects rt') =
      <[id := OIpcEndpoint (endpoint_new id "dynamic-endpoint" (p_pid p))]>
        (table_map (rt_objects rt)) ∧
    cap = mkCapability (next_cap_id (rt_caps rt)) id (Z.lor RIGHT_SEND RIGHT_RECEIVE) (p_pid p) 0
            (rt_generation_id rt) (p_pid p) false ∧
    cspace_lookup (p_caps p') cap_slot = Some cap ∧
    (used_endpoints (p_quota p) < max_endpoints (p_quota p))%Z ∧
    used_endpoints (p_quota p') = (used_endpoints (p_quota p) + 1)%Z ∧
    max_endpoints (p_quota p') = max_endpoints (p_quota p) ∧
    caps_wf rt' ∧ ∀ c, held rt' c → held rt c ∨ c = cap.

Lemma current_process_modify t i f p :
  ptable_wf t → (∀ p, p_pid (f p) = p_pid p) → current_index t = Some i →
  current_process t = Some p → current_process (modify_process_at t i f) = Some (f p).
Proof.
  unfold current_index, current_process. intros Hwf Hf.
  change (pt_current (modify_process_at t i f)) with (pt_current t).
  destruct (pt_current t) as [pid|]; [|done]. cbn. by apply process_modify.
Qed.

Lemma endpoint_create_cases rt control_slot cap_slot :
  caps_wf rt → table_wf (rt_objects rt) → (next_id (rt_objects rt) < u64_max)%Z →
  (∀ p, p ∈ live_processes (rt_processes rt) → is_u64 (max_endpoints (p_quota p))) →
  match endpoint_create control_slot cap_slot rt with
  | (Ok _, rt') => endpoint_created cap_slot rt rt'
  | (Err e, rt') => rt' = rt ∧ e = BadCapability
  end.
Proof.
  intros Hwf Htw Hmax Hquota. pose proof (endpoint_create_core rt control_slot cap_slot Hwf) as H.
  destruct (endpoint_create _ _ rt) as [[u|e] rt']; [|done].
  destruct H as (p & i & s & t & cap & Hp & Hi & Hadd & Hs & Hproc & Hobj & Hq & Hcap & _ & Hm).
  pose proof (endpoint_added (rt_objects rt) Htw Hmax "dynamic-endpoint" (p_pid p)) as Ha.
  rewrite Hadd in Ha. destruct Ha as (_ & _ & Hnone & Htw' & Hmap & _).
  pose proof (cspace_grant_ok _ _ _ _ Hs) as (_ & _ & Hget & _).
  assert (Hcp : current_process (rt_processes rt') = Some (endpoint_owner s p)).
  { rewrite Hproc. by apply current_process_modify; [apply Hwf|..]. }
  assert (Hu := Hquota p (current_process_live _ _ (cw_table rt Hwf) Hp)).
  exists p, (endpoint_owner s p), cap. rewrite Hobj. cbn zeta. split_and!; try done.
  - unfold endpoint_owner, set; cbn. unfold sat_add, is_u64 in *. lia.
  - apply Hm.
  - apply Hm.
Qed.

(** * Claims *)

(** C4: a lookup grants exactly the capability in the slot of the current
    process when it is usable: neither it nor anything it derives from is
    revoked, it belongs to the running generation, and it carries every
    required right; the three liveness tests of the code (mark, revoked set,
    ancestor walk) agree on every held capability, and the lookup changes
    nothing. *)
Theorem lookup_capability_exact (rt : RuntimeState) (slot right : Z) :
  caps_wf rt →
  (lookup_capability slot right rt).2 = rt ∧
  (∀ cap, (lookup_capability slot right rt).1 = Ok cap ↔
     ∃ p, current_process (rt_processes rt) = Some p ∧
       cspace_lookup (p_caps p) slot = Some cap ∧
       (∀ a, rtc (derived_from (rt_caps rt)) (c_id cap) a → ¬ revoked (rt_caps rt) a) ∧
       c_generation cap = rt_generation_id rt ∧
       (right = 0%Z ∨ rights_le right (c_rights cap))) ∧
  (∀ cap, held rt cap →
     c_revoked cap = cap_id_revoked (rt_caps rt) (c_id cap) ∧
     (capability_has_revoked_ancestor rt cap = true → c_revoked cap = true)).
Proof.
  intros Hwf. split; [apply lookup_capability_state|]. split.
  - intros cap. pose proof (lookup_capability_state slot right rt) as Hst.
    pose proof (lookup_capability_ok rt slot right cap rt Hwf) as Hok.
    destruct (lookup_capability slot right rt) as [r rt']. cbn in Hst |- *. subst rt'.
    assert (Hiff : r = Ok cap ↔ (r, rt) = (Ok cap, rt)) by naive_solver.
    rewrite Hiff, Hok. clear Hiff Hok. unfold live. split.
    + intros (_ & p & Hp & Hc & [Hr Hg] & Hri). exists p. split_and!; try done.
      intros a Ha Hra. apply Hr. by eapply closed_ancestor; [apply Hwf|..].
    + intros (p & Hp & Hc & Hr & Hg & Hri). split; [done|]. exists p. split_and!; try done.
      apply Hr, rtc_refl.
  - intros cap Hh. pose proof (held_ok rt Hwf cap Hh) as [_ Hm _]. split; [done|]. intros Ha.
    destruct (c_revoked cap) eqn:Hc; [done|]. destruct (decide (c_generation cap = rt_generation_id rt)).
    + assert (Hl : live rt cap) by (split; [unfold revoked; congruence|done]).
      apply (capability_live_iff rt Hwf cap Hh) in Hl. unfold capability_live in Hl.
      by rewrite Ha, !andb_false_r in Hl.
    + pose proof Hh as (p & Hp & Hph).
      pose (rt2 := rt <| rt_generation_id := c_generation cap |>).
      assert (Hwf2 : caps_wf rt2) by (by destruct Hwf).
      assert (Hl : live rt2 cap) by (split; [unfold revoked; cbn; congruence|done]).
      apply (capability_live_iff rt2 Hwf2 cap Hh) in Hl. unfold capability_live in Hl.
      change (capability_has_revoked_ancestor rt2 cap) with (capability_has_revoked_ancestor rt cap) in Hl.
      by rewrite Ha, !andb_false_r in Hl.
Qed.

(** ** A small system *)

(** A capability without a parent for the current process, as the boot code
    grants them. *)
Definition grant_root (slot object rights : Z) : RT unit :=
  let! rt := rget in
  let! p := rlift (ok_or (current_process (rt_processes rt)) BadCapability) in
  do! rguard (cspace_can_grant (p_caps p) slot) BadCapability;
  let! cap := rt_new_capability object rights (p_pid p) 0 pid_empty in
  grant_to_current slot cap.

Lemma grant_root_wf rt slot object rights :
  caps_wf rt → is_u64 rights → caps_wf (grant_root slot object rights rt).2.
Proof.
  intros Hwf Hu. unfold grant_root, rbind, rget, rlift, rguard, rfail, rret. cbn.
  destruct (current_process (rt_processes rt)) as [p|] eqn:Hp; cbn; [|done].
  destruct (cspace_can_grant (p_caps p) slot) eqn:Hcan; cbn; [|done].
  destruct (rt_new_capability _ _ _ _ _ rt) as [[cap|e] rt1] eqn:Hmint;
    [|by apply mint_err in Hmint as [-> _]].
  assert (Hnorev : ¬ revoked (rt_caps rt) 0).
  { intros Hr. apply revoked_known in Hr; [|apply Hwf]. unfold known_cap in Hr. lia. }
  assert (Hz : (0 ≤ 0 < next_cap_id (rt_caps rt))%Z) by (rewrite (rw_next _ (cw_registry _ Hwf)); lia).
  destruct (mint_ok _ _ _ _ _ _ _ _ Hwf Hu Hz Hnorev Hmint) as (Hwf1 & Heq & _).
  assert (Hproc : rt_processes rt1 = rt_processes rt) by (by rewrite Heq).
  destruct (current_process_index _ _ Hp) as [i Hi].
  destruct (cspace_can_grant_ok (p_caps p) slot cap Hcan) as [s Hs].
  pose proof (cspace_grant_ok _ _ _ _ Hs) as (Hlen & Hin & _).
  rewrite (grant_to_current_ok rt1 i p s) by (by rewrite ?Hproc).
  apply (grant_minted _ _ _ _ _ _ _ _ i (with_caps s) Hwf Hu Hz Hnorev Hmint); [done|].
  intros q Hq. destruct (current_index_process _ i (cw_table rt Hwf) Hi) as (q' & Hq' & Hlq & _).
  simplify_eq. split_and!; [done|done|]. unfold holds; cbn. intros c [[Hc|Hc]%Hin|Hc]; tauto.
Qed.

(** Two processes, the first running, an endpoint and a process control. *)
Definition bare_system : RuntimeState :=
  runtime_new
    <| rt_processes := set_current sample_table 1 |>
    <| rt_objects := (add_process_control (add_endpoint table_new "e").2 "ctl").2 |>.

Lemma bare_system_wf : caps_wf bare_system.
Proof.
  assert (Hw : ptable_wf (rt_processes bare_system)).
  { destruct sample_table_wf. by split. }
  destruct registry_new_wf. split; [done|done|done|].
  assert (Hl : live_processes (rt_processes bare_system) =
    [process_new 1 "a" (mkProcessContext 0 0 0) 0 0 PsReady cspace_new path_empty;
     process_new 2 "b" (mkProcessContext 0 0 0) 0 0 PsReady cspace_new path_empty])
    by (vm_compute; reflexivity).
  rewrite Hl. assert (Hno : ∀ cap, Some cap ∈ cspace_new → False).
  { intros cap Hc. unfold cspace_new in Hc. apply elem_of_replicate in Hc as [? _]. done. }
  assert (Hok : ∀ pid name, process_ok registry_new
    (process_new pid name (mkProcessContext 0 0 0) 0 0 PsReady cspace_new path_empty)).
  { intros pid name. split; [done|done|]. intros cap [H1|H1]; by apply Hno in H1. }
  apply Forall_cons. split; [apply Hok|]. apply Forall_singleton, Hok.
Qed.

(** The first process may use the endpoint (slot 0) and control processes
    (slot 1). *)
Definition small_system : RuntimeState :=
  (grant_root 1 2 (Z.lor RIGHT_DELEGATE RIGHT_ALLOCATE)
     (grant_root 0 1 (Z.lor RIGHT_SEND RIGHT_RECEIVE) bare_system).2).2.

Lemma small_system_wf : caps_wf small_system.
Proof.
  unfold small_system. apply grant_root_wf; [|vm_compute; split; congruence].
  apply grant_root_wf; [apply bare_system_wf|vm_compute; split; congruence].
Qed.

Lemma lookup_capability_exact_witness :
  is_ok (lookup_capability 0 RIGHT_SEND small_system).1 = true ∧
  (lookup_capability 0 RIGHT_SEND small_system).2 = small_system.
Proof.
  split; [vm_compute; reflexivity|].
  apply (lookup_capability_exact small_system 0 RIGHT_SEND small_system_wf).
Defined.


(** The first process derives a send-only capability, transfers it, and
    revokes its own. *)
Definition after_derive := (cap_derive 0 3 RIGHT_SEND small_system).2.
Definition transfer_args : Z := Z.lor 3 (Z.lor (Z.shiftl 5 16) (Z.shiftl RIGHT_SEND 32)).
Definition after_transfer := (cap_transfer 1 2 transfer_args after_derive).2.
Definition after_revoke := (cap_revoke 0 after_transfer).2.

Lemma small_run_calls : rtc cap_call small_system after_transfer.
Proof.
  eapply rtc_l; [exact (CallDerive 0 3 RIGHT_SEND small_system (cap_derive 0 3 RIGHT_SEND small_system).1
    after_derive ltac:(vm_compute; split; congruence) (surjective_pairing _))|].
  eapply rtc_l; [exact (CallTransfer 1 2 transfer_args after_derive
    (cap_transfer 1 2 transfer_args after_derive).1 after_transfer
    ltac:(vm_compute; split; congruence) (surjective_pairing _))|]. apply rtc_refl.
Defined.


(** C2: revocation is permanent and transitive while a generation runs: once
    an identifier is revoked, no later sequence of capability calls (the calls
    of C1) makes a capability usable that is it or derives from it, whoever
    holds it. *)
Theorem revocation_permanent (rt rt' : RuntimeState) (x : Z) :
  caps_wf rt → revoked (rt_caps rt) x → rtc cap_call rt rt' →
  revoked (rt_caps rt') x ∧
  (∀ cap, held rt' cap → rtc (derived_from (rt_caps rt')) (c_id cap) x →
          capability_live rt' cap = false) ∧
  (∀ slot right cap rt'', lookup_capability slot right rt' = (Ok cap, rt'') →
          ¬ rtc (derived_from (rt_caps rt')) (c_id cap) x).
Proof.
  intros Hwf Hx Hrun. destruct (cap_calls_steps rt rt' Hwf Hrun) as [Hwf' Hrev _].
  assert (Hx' : revoked (rt_caps rt') x) by (by apply Hrev).
  split_and!; [done| |].
  - intros cap Hh Hd. apply not_true_iff_false. intros [Hr _]%(capability_live_iff rt' Hwf' cap Hh).
    apply Hr. by eapply closed_ancestor; [apply Hwf'|..].
  - intros slot right cap rt'' Hlk Hd.
    apply lookup_capability_ok in Hlk as (_ & p & _ & _ & [Hr _] & _); [|done].
    apply Hr. by eapply closed_ancestor; [apply Hwf'|..].
Qed.

Lemma after_transfer_wf : caps_wf after_transfer.
Proof. apply (cap_calls_steps small_system after_transfer small_system_wf small_run_calls). Qed.

Lemma after_revoke_wf : caps_wf after_revoke.
Proof.
  exact (rg_wf _ _ (cap_call_step after_transfer after_revoke after_transfer_wf
    (CallRevoke 0 after_transfer (cap_revoke 0 after_transfer).1 after_revoke (surjective_pairing _)))).
Qed.

Lemma revocation_permanent_witness :
  revoked (rt_caps after_revoke) 1 ∧
  ∀ cap, held after_revoke cap → rtc (derived_from (rt_caps after_revoke)) (c_id cap) 1%Z →
         capability_live after_revoke cap = false.
Proof.
  assert (H : revoked (rt_caps after_revoke) 1) by (vm_compute; reflexivity).
  split; [exact H|].
  apply (revocation_permanent after_revoke after_revoke 1 after_revoke_wf H (rtc_refl _ _)).
Defined.

(** C3: a revocation succeeds whenever the slot holds a usable capability.
    Afterwards exactly that capability and everything derived from it are
    newly revoked, in every process, no derivation was forgotten, and no
    process stays blocked in a receive it is not authorised for. *)
Theorem cap_revoke_complete (rt : RuntimeState) (slot : Z) :
  caps_wf rt →
  match cap_revoke slot rt with
  | (Ok _, rt') =>
      ∃ p cap, current_process (rt_processes rt) = Some p ∧
        cspace_lookup (p_caps p) slot = Some cap ∧ live rt cap ∧
        (∀ x, revoked (rt_caps rt') x ↔
              revoked (rt_caps rt) x ∨ rtc (derived_from (rt_caps rt)) x (c_id cap)) ∧
        same_forest (rt_caps rt) (rt_caps rt') ∧
        caps_wf rt' ∧ attenuates rt rt' ∧ receivers_authorized rt'
  | (Err e, rt') => rt' = rt ∧ e = BadCapability
  end ∧
  (is_ok (cap_revoke slot rt).1 = true ↔ is_ok (lookup_capability slot 0 rt).1 = true).
Proof.
  intros Hwf. pose proof (cap_revoke_cases rt slot Hwf) as H. split; [done|].
  destruct (lookup_capability slot 0 rt) as [[cap|e] rt1] eqn:Hlk.
  - pose proof Hlk as (-> & p & Hp & Hc & _)%lookup_capability_ok; [|done].
    assert (Hh : held rt cap) by (eapply current_held; [done|done|by eapply cspace_lookup_elem]).
    destruct (held_known rt Hwf cap Hh) as [Hk _].
    destruct (rt_revoke_ok rt (c_id cap) Hwf Hk) as (rt2 & Hrun & _).
    unfold cap_revoke, rbind, rmodify. by rewrite Hlk, Hrun.
  - unfold cap_revoke, rbind. by rewrite Hlk.
Qed.

Lemma cap_revoke_complete_witness :
  is_ok (cap_revoke 0 after_transfer).1 = true ∧ receivers_authorized after_revoke.
Proof.
  assert (Hok : is_ok (cap_revoke 0 after_transfer).1 = true) by (vm_compute; reflexivity).
  split; [exact Hok|].
  destruct (cap_revoke_complete after_transfer 0 after_transfer_wf) as [H _].
  unfold after_revoke. destruct (cap_revoke 0 after_transfer) as [[u|e] rt']; [|discriminate Hok].
  destruct H as (p & cap & _ & _ & _ & _ & _ & _ & _ & H). exact H.
Defined.

(** [cap_derive] and [cap_copy] do the same thing: with a usable source
    capability, a non-empty mask within its rights and a free target slot the
    current process gets, in that slot only, a fresh capability on the same
    object with the mask as rights and the source as recorded parent; in every
    other case they fail and change nothing. *)
Theorem cap_derive_exact (rt : RuntimeState) (parent_slot new_slot mask : Z) :
  caps_wf rt → is_u64 mask →
  cap_copy parent_slot new_slot mask rt = cap_derive parent_slot new_slot mask rt ∧
  match cap_derive parent_slot new_slot mask rt with
  | (Ok _, rt') =>
      ∃ p p' src cap,
        current_process (rt_processes rt) = Some p ∧ current_process (rt_processes rt') = Some p' ∧
        cspace_lookup (p_caps p) parent_slot = Some src ∧ live rt src ∧
        mask ≠ 0%Z ∧ rights_le mask (c_rights src) ∧
        cspace_lookup (p_caps p) new_slot = None ∧ cspace_lookup (p_caps p') new_slot = Some cap ∧
        (∀ slot, slot ≠ new_slot → cspace_lookup (p_caps p') slot = cspace_lookup (p_caps p) slot) ∧
        cap = mkCapability (next_cap_id (rt_caps rt)) (c_object src) mask (p_pid p) (c_id src)
                (rt_generation_id rt) (p_pid p) false ∧
        cap_parent_from_lineage (rt_caps rt') (c_id cap) = Some (c_id src) ∧
        caps_wf rt' ∧ live rt' cap
  | (Err e, rt') => rt' = rt ∧ e = BadCapability
  end.
Proof.
  intros Hwf Hu. split; [done|]. pose proof (derive_cases rt parent_slot new_slot mask Hwf Hu) as H.
  unfold cap_derive. destruct (rbind _ _ rt) as [[[]|e] rt']; [|done].
  destruct H as (i & p & src & s & cap & Hi & Hp & Hc & Hl & Hm & Hle & Hs & Hcap & Hproc & Hpar & Hwf' & Hatt).
  pose proof (cspace_grant_ok _ _ _ _ Hs) as (_ & _ & Hget & Hother).
  assert (Hcp : current_process (rt_processes rt') = Some (with_caps s p)).
  { rewrite Hproc. by apply current_process_modify; [apply Hwf|..]. }
  exists p, (with_caps s p), src, cap. split_and!; try done.
  - unfold cspace_grant, cspace_lookup in *. destruct (slot_index _ new_slot); [|done].
    by destruct (p_caps p !! _) as [[?|]|].
  - assert (Hh : held rt' cap).
    { apply (current_held rt' Hwf' _ _ Hcp). by eapply cspace_lookup_elem. }
    split; [|rewrite (at_generation _ _ Hatt), Hcap; done].
    unfold revoked. rewrite <-(co_mark _ _ (held_ok rt' Hwf' cap Hh)), Hcap. done.
Qed.

Lemma right_send_u64 : is_u64 RIGHT_SEND.
Proof. vm_compute. split; congruence. Qed.

Lemma cap_derive_exact_witness :
  is_ok (cap_derive 0 3 RIGHT_SEND small_system).1 = true ∧
  cap_copy 0 3 RIGHT_SEND small_system = cap_derive 0 3 RIGHT_SEND small_system.
Proof.
  split; [vm_compute; reflexivity|].
  destruct (cap_derive_exact small_system 0 3 RIGHT_SEND small_system_wf right_send_u64) as [H _].
  exact H.
Defined.

(** C34: a capability call that fails leaves the whole runtime state as it
    was, and reports a bad capability, whichever of its checks refused it.
    This holds of derive, copy, inspect, drop, move, revoke, transfer, of
    resolving a name in the namespace the slot names (whose entries carry
    64-bit rights), of creating an endpoint and of delegating a quota. *)
Theorem cap_calls_fail_atomically (rt : RuntimeState) (a b m pid : Z) (path : list byte) :
  caps_wf rt → is_u64 m →
  let atomic {A} (o : Result IpcError A * RuntimeState) :=
    ∀ e, o.1 = Err e → o.2 = rt ∧ e = BadCapability in
  atomic (cap_derive a b m rt) ∧ atomic (cap_copy a b m rt) ∧ atomic (cap_inspect a rt) ∧
  atomic (cap_drop a rt) ∧ atomic (cap_move a b rt) ∧ atomic (cap_revoke a rt) ∧
  atomic (cap_transfer a pid m rt) ∧ atomic (endpoint_create a b rt) ∧
  atomic (quota_delegate a pid m rt) ∧
  atomic (namespace_from_cap a RIGHT_RESOLVE rt) ∧
  (∀ namespace, namespace_from_cap a RIGHT_RESOLVE rt = (Ok namespace, rt) →
     (∀ entry, Some entry ∈ ns_entries namespace → is_u64 (ne_rights entry)) →
     atomic (namespace_grant namespace a path b rt)).
Proof.
  intros Hwf Hu atomic. unfold atomic.
  pose proof (derive_cases rt a b m Hwf Hu) as H1. pose proof (cap_drop_cases rt a Hwf) as H2.
  pose proof (cap_move_cases rt a b Hwf) as H3. pose proof (cap_revoke_cases rt a Hwf) as H4.
  pose proof (cap_transfer_cases rt a pid m Hwf Hu) as H5.
  pose proof (endpoint_create_core rt a b Hwf) as H6.
  pose proof (quota_delegate_cases rt a pid m Hwf) as H7.
  pose proof (cap_inspect_cases rt a) as [H8 H9]. unfold cap_derive, cap_copy.
  split_and!; try (intros e He; match goal with |- ?o.2 = _ ∧ _ =>
    destruct o as [[?|e'] rt'] end; [discriminate He|injection He as <-; done]).
  - intros e He. split; [done|]. by apply H9.
  - intros e He. destruct (namespace_from_cap a RIGHT_RESOLVE rt) as [r rt'] eqn:Hn.
    apply object_from_cap_state in Hn as [-> Hn]. split; [done|]. by apply Hn.
  - intros ns Hns Hent e He. pose proof (namespace_grant_cases rt ns a path b Hwf Hns Hent) as H10.
    destruct (namespace_grant ns a path b rt) as [[?|e'] rt']; [discriminate He|injection He as <-; done].
Qed.

Lemma cap_calls_fail_atomically_witness :
  is_ok (cap_derive 0 1 RIGHT_SEND small_system).1 = false ∧
  ∀ e, (cap_derive 0 1 RIGHT_SEND small_system).1 = Err e →
       (cap_derive 0 1 RIGHT_SEND small_system).2 = small_system ∧ e = BadCapability.
Proof.
  split; [vm_compute; reflexivity|].
  destruct (cap_calls_fail_atomically small_system 0 1 RIGHT_SEND 2 [] small_system_wf right_send_u64)
    as [H _]. exact H.
Defined.

(** [endpoint_create] either fails and changes nothing, or adds one fresh
    endpoint owned by the caller, gives the caller a send and receive
    capability for it in the free slot asked for, and counts it against a
    quota that was not used up; its roll-back paths are never needed. *)
Theorem endpoint_create_exact (rt : RuntimeState) (control_slot cap_slot : Z) :
  caps_wf rt → table_wf (rt_objects rt) → (next_id (rt_objects rt) < u64_max)%Z →
  (∀ p, p ∈ live_processes (rt_processes rt) → is_u64 (max_endpoints (p_quota p))) →
  match endpoint_create control_slot cap_slot rt with
  | (Ok _, rt') => endpoint_created cap_slot rt rt'
  | (Err e, rt') => rt' = rt ∧ e = BadCapability
  end.
Proof. apply endpoint_create_cases. Qed.

(** The first process may create one endpoint. *)
Definition quota_system : RuntimeState :=
  small_system <| rt_processes ::= λ t,
    modify_process_at t 0 (λ p, p <| p_quota := quota_initial |>) |>.

Lemma quota_system_wf : caps_wf quota_system.
Proof.
  refine (same_caps_wf small_system quota_system small_system_wf _).
  apply (modify_same_caps small_system 0 (λ p, p <| p_quota := quota_initial |>)); by intros p.
Qed.

Lemma quota_system_table : table_wf (rt_objects quota_system).
Proof.
  change (rt_objects quota_system) with
    (add_process_control (add_endpoint table_new "e").2 "ctl").2.
  pose proof (endpoint_added table_new table_new_wf ltac:(done) "e" pid_empty) as H.
  unfold add_endpoint. destruct (add_endpoint_owned table_new "e" pid_empty) as [[id|e] t] eqn:He.
  - destruct H as (Hid & _ & _ & Hwf & _ & Hn). cbn [snd].
    pose proof (push_added t Hwf ltac:(rewrite Hn, Hid; done)
      (λ id, OProcessControl (mkProcessControlObject id "ctl")) eq_refl) as H2.
    unfold add_process_control. destruct (push_object _ _) as [[id2|e2] t2].
    + apply H2.
    + by destruct H2 as (-> & _).
  - vm_compute in He. done.
Qed.

Lemma endpoint_create_exact_witness :
  is_ok (endpoint_create 1 7 quota_system).1 = true ∧
  ∃ rt', endpoint_create 1 7 quota_system = (Ok tt, rt') ∧ endpoint_created 7 quota_system rt'.
Proof.
  assert (Hok : is_ok (endpoint_create 1 7 quota_system).1 = true) by (vm_compute; reflexivity).
  split; [exact Hok|].
  assert (Hq : Forall (λ p, is_u64 (max_endpoints (p_quota p)))
                 (live_processes (rt_processes quota_system))).
  { assert (Hb : forallb (λ p, (0 <=? max_endpoints (p_quota p)) && (max_endpoints (p_quota p) <=? u64_max))%Z
             (live_processes (rt_processes quota_system)) = true) by (vm_compute; reflexivity).
    apply Is_true_true, forallb_True in Hb. eapply Forall_impl; [exact Hb|].
    intros p Hp%Is_true_true. unfold is_u64. lia. }
  pose proof (endpoint_create_exact quota_system 1 7 quota_system_wf quota_system_table
    ltac:(vm_compute; reflexivity) (proj1 (Forall_forall _ _) Hq)) as H.
  destruct (endpoint_create 1 7 quota_system) as [[[]|e] rt']; [|discriminate Hok].
  exists rt'. split; [reflexivity|exact H].
Defined.

(** The sweep after a revocation ends (it visits a slot again after every
    removal) and removes exactly the derived VFS roots that no usable
    capability names; every other object stays in its slot. *)
Theorem release_roots_exact (rt : RuntimeState) :
  table_wf (rt_objects rt) →
  let rt' := release_unreferenced_derived_vfs_roots rt in
  release_roots_loop release_roots_fuel 0 rt = Some rt' ∧
  rt' = rt <| rt_objects := rt_objects rt' |> ∧ table_wf (rt_objects rt') ∧
  ∀ j o, live_at (rt_objects rt') j o ↔ live_at (rt_objects rt) j o ∧ ¬ garbage rt o.
Proof.
  intros Hwf rt'. destruct (release_roots_spec rt Hwf) as (H1 & H2 & H3 & _ & _ & _ & H4).
  split_and!; done.
Qed.

Lemma release_roots_exact_witness :
  release_roots_loop release_roots_fuel 0 quota_system =
  Some (release_unreferenced_derived_vfs_roots quota_system).
Proof. apply (release_roots_exact quota_system quota_system_table). Defined.
