(* ===== verification/SchedulerProofs.v ===== *)
(** Deadlines, timed wake-ups and the choice of the next process: wake-ups
    happen on time and only then, waiting ends, and the process that runs is
    the current one, in its own address space. *)

From S2P Require Import Prelude KernelBase Transport VfsPath KernelObjects.
From S2P Require Import ObjectTableProofs ProcessRuntime ProcessTableProofs CapRegistry.
From S2P Require Import VfsState Runtime Virtio Kernel Scheduler CapabilitySyscalls.
From S2P Require Import CapabilityProofs.

(** * Deadlines *)

Lemma as_i64_nonneg x : is_u64 x → (0 <=? as_i64 x)%Z = (x <? 2 ^ 63)%Z.
Proof.
  unfold as_i64, is_u64, u64_max. intros Hx.
  destruct (Z.ltb_spec x (2 ^ 63)); [apply Z.leb_le; lia|apply Z.leb_gt; lia].
Qed.

(** The wrapping difference of two counter values depends on their
    difference modulo [2 ^ 64] alone. *)
Lemma deadline_reached_mod now d :
  is_u64 now → is_u64 d → deadline_reached now d = (Z.modulo (now - d) (2 ^ 64) <? 2 ^ 63)%Z.
Proof.
  intros Hn Hd. unfold deadline_reached, i64_wrapping_sub.
  rewrite as_i64_nonneg by apply wrap_u64_range. f_equal. unfold wrap_u64.
  change (u64_max + 1)%Z with (2 ^ 64)%Z.
  assert (Hx : ∀ x, is_u64 x → ∃ k, as_i64 x = (x + k * 2 ^ 64)%Z).
  { intros x Hx. unfold as_i64. case_match; [exists 0%Z|exists (-1)%Z]; lia. }
  destruct (Hx now Hn) as [k ->], (Hx d Hd) as [k' ->].
  replace (now + k * 2 ^ 64 - (d + k' * 2 ^ 64))%Z with (now - d + (k - k') * 2 ^ 64)%Z by lia.
  by apply Z.mod_add.
Qed.

(** Within half the counter's range the comparison is the ordinary one. *)
Lemma deadline_reached_near now d :
  is_u64 now → is_u64 d → (- 2 ^ 63 ≤ now - d < 2 ^ 63)%Z →
  deadline_reached now d = (d <=? now)%Z.
Proof.
  intros Hn Hd Hb. rewrite deadline_reached_mod by done. destruct (Z.leb_spec d now) as [Hle|Hlt].
  - rewrite Z.mod_small by lia. lia.
  - replace (now - d)%Z with (now - d + 2 ^ 64 + (-1) * 2 ^ 64)%Z by lia.
    rewrite Z.mod_add, Z.mod_small by lia. lia.
Qed.

(** Beyond it, it is the opposite. *)
Lemma deadline_reached_far now d :
  is_u64 now → is_u64 d → (2 ^ 63 < d - now)%Z → deadline_reached now d = true.
Proof.
  unfold is_u64, u64_max. intros Hn Hd Hb. rewrite deadline_reached_mod by done.
  replace (now - d)%Z with (now - d + 2 ^ 64 + (-1) * 2 ^ 64)%Z by lia.
  rewrite Z.mod_add, Z.mod_small by lia. lia.
Qed.

(** * Timed wake-ups *)

Lemma filter_fmap_Some {A} (p : A → bool) (l : list A) :
  length (filter (λ o : option A, (match o with Some x => p x | None => false end) = true) (Some <$> l)) =
  length (filter (λ x, p x = true) l).
Proof.
  induction l as [|x l IH]; [done|]. rewrite fmap_cons, !filter_cons.
  by destruct (p x); repeat case_decide; cbn; rewrite ?IH.
Qed.

(** What [wake_timed_processes] does to the processes, and what it returns. *)
Lemma wake_timed_processes_live now rt :
  ptable_wf (rt_processes rt) →
  let '(n, rt') := wake_timed_processes now rt in
  ptable_wf (rt_processes rt') ∧
  live_processes (rt_processes rt') = wake_timed now <$> live_processes (rt_processes rt) ∧
  n = length (filter (λ p, timed_out now p = true) (live_processes (rt_processes rt))) ∧
  rt' = rt <| rt_processes := rt_processes rt' |> ∧
  pt_current (rt_processes rt') = pt_current (rt_processes rt) ∧
  pt_next_id (rt_processes rt') = pt_next_id (rt_processes rt).
Proof.
  intros Hwf. unfold wake_timed_processes.
  destruct (map_processes_live (rt_processes rt) (wake_timed now) Hwf) as [Hwf' Hl].
  { intros p. unfold wake_timed. by repeat case_match. }
  split_and!; [done|done| |done|done|done].
  by rewrite count_upto_filter, take_live, filter_fmap_Some by done.
Qed.

Lemma wake_timed_not_due now p : timed_out now p = false → wake_timed now p = p.
Proof.
  unfold timed_out, wake_timed. destruct (timed_state (p_state p)) as [[d s]|]; [|done].
  by intros ->.
Qed.

Lemma wake_timed_due now p :
  timed_out now p = true →
  ∃ d status, timed_state (p_state p) = Some (d, status) ∧ deadline_reached now d = true ∧
              wake_timed now p = wake_with status p.
Proof.
  unfold timed_out, wake_timed. destruct (timed_state (p_state p)) as [[d s]|]; [|done].
  intros H. rewrite H. eauto.
Qed.

(** * Waiting does not run anybody *)

(** A process is left alone, or woken from a wait. *)
Definition waiting (s : ProcessState) : Prop :=
  match s with
  | PsSleeping _ | PsBlockedOnEndpoint _ _ _ _ _ | PsBlockedOnInterrupt _ _ => True
  | _ => False
  end.
Definition woken (p p' : Process) : Prop :=
  p' = p ∨ waiting (p_state p) ∧ ∃ status, p' = wake_with status p.

#[export] Instance woken_preorder : PreOrder woken.
Proof.
  split; [by left|]. intros p q r [->|(Hw & s & ->)] [->|(Hw' & s' & ->)]; unfold woken; eauto.
Qed.

Lemma woken_pid p p' : woken p p' → p_pid p' = p_pid p.
Proof. by intros [->|(_ & s & ->)]. Qed.

Lemma wake_timed_woken now p : woken p (wake_timed now p).
Proof.
  destruct (timed_out now p) eqn:Ht; [|left; by apply wake_timed_not_due].
  destruct (wake_timed_due now p Ht) as (d & s & Hs & _ & ->). right. split; [|eauto].
  unfold timed_state, waiting in *. by repeat case_match.
Qed.

Section quiet.
Context `{UserMemory} (env : Env).

(** Between the two states the kernel only waited: memory, address space and
    frame are as before, the current process is the same, and processes were
    at most woken. *)
Record quiet (k k' : KernelState) : Prop := mk_quiet {
  qu_mem : ks_mem k' = ks_mem k;
  qu_cr3 : ks_cr3 k' = ks_cr3 k;
  qu_frame : ks_frame k' = ks_frame k;
  qu_current : pt_current (rt_processes (ks_rt k')) = pt_current (rt_processes (ks_rt k));
  qu_wf : ptable_wf (rt_processes (ks_rt k)) → ptable_wf (rt_processes (ks_rt k'));
  qu_woken : ptable_wf (rt_processes (ks_rt k)) →
    Forall2 woken (live_processes (rt_processes (ks_rt k)))
      (live_processes (rt_processes (ks_rt k')));
  qu_endpoints id :
    get_endpoint (rt_objects (ks_rt k')) id = get_endpoint (rt_objects (ks_rt k)) id;
  qu_config : rt_active_config (ks_rt k') = rt_active_config (ks_rt k);
  qu_templates : rt_process_template_pids (ks_rt k') = rt_process_template_pids (ks_rt k);
  qu_next : pt_next_id (rt_processes (ks_rt k')) = pt_next_id (rt_processes (ks_rt k))
}.

#[export] Instance quiet_preorder : PreOrder quiet.
Proof.
  split; [by split|]. intros k1 k2 k3 [M1 C1 F1 U1 W1 P1 E1 G1 T1 N1] [M2 C2 F2 U2 W2 P2 E2 G2 T2 N2].
  split; [congruence|congruence|congruence|congruence|eauto| |intros id; by rewrite E2|congruence..].
  intros Hwf. etransitivity; [by apply P1|]. by apply P2, W1.
Qed.

Lemma wake_timed_now_quiet k :
  ptable_wf (rt_processes (ks_rt k)) →
  ∃ n k', wake_timed_now env k = Some (Ok n, k') ∧ quiet k k' ∧ ks_reads k' = S (ks_reads k) ∧
    n = length (filter (λ p, timed_out (env_tsc env (ks_reads k)) p = true)
                  (live_processes (rt_processes (ks_rt k)))) ∧
    live_processes (rt_processes (ks_rt k')) =
      wake_timed (env_tsc env (ks_reads k)) <$> live_processes (rt_processes (ks_rt k)) ∧
    ks_rt k' = (ks_rt k) <| rt_processes := rt_processes (ks_rt k') |>.
Proof.
  intros Hwf. unfold wake_timed_now, kbind, read_tsc.
  set (now := env_tsc env (ks_reads k)).
  pose proof (wake_timed_processes_live now (ks_rt k) Hwf) as Hw.
  change (ks_rt (k <| ks_reads ::= S |>)) with (ks_rt k).
  destruct (wake_timed_processes now (ks_rt k)) as [n rt'].
  destruct Hw as (Hwf' & Hl & Hn & Hrt & Hcur & Hn0). exists n. eexists. split; [done|].
  split_and!; [|done|done|done|done].
  split; [done|done|done|done|done| |intros id; unfold set; cbn; by rewrite Hrt|unfold set; cbn; by rewrite Hrt|unfold set; cbn; by rewrite Hrt|exact Hn0].
  intros _. unfold set; cbn. rewrite Hl.
  apply Forall2_fmap_r, Forall_Forall2_diag, Forall_forall. intros p _. apply wake_timed_woken.
Qed.

(** A write to one slot that wakes its process, if it waits. *)
Lemma modify_at_woken t i f :
  ptable_wf t → (∀ p, p_pid (f p) = p_pid p) →
  (∀ p, live_processes t !! i = Some p → woken p (f p)) →
  Forall2 woken (live_processes t) (live_processes (modify_process_at t i f)).
Proof.
  intros Hwf Hpid Hf. destruct (modify_process_at_live t i f Hwf Hpid) as [_ ->].
  apply Forall2_same_length_lookup_2; [by rewrite length_alter|]. intros j p p' Hp Hp'.
  destruct (decide (i = j)) as [->|Hne].
  - rewrite list_lookup_alter_eq, Hp in Hp'. injection Hp' as <-. by apply Hf.
  - rewrite list_lookup_alter_ne, Hp in Hp' by done. by injection Hp' as <-.
Qed.

Lemma interrupt_line_processes id f rt :
  rt_processes (modify_interrupt_line id f rt) = rt_processes rt.
Proof. unfold modify_interrupt_line. by repeat case_match. Qed.

Lemma record_hardware_irq_processes line rt :
  rt_processes (record_hardware_irq line rt) = rt_processes rt ∨
  ∃ i p, mjoin (pt_processes (rt_processes rt) !! i) = Some p ∧ waiting (p_state p) ∧
    rt_processes (record_hardware_irq line rt) =
    modify_process_at (rt_processes rt) i (wake_with STATUS_OK).
Proof.
  unfold record_hardware_irq. destruct (get_interrupt_line_by_number _ line) as [l|]; [|by left].
  destruct (blocked_interrupt_waiter_index rt _) as [i|] eqn:Hi;
    rewrite interrupt_line_processes; [right|by left].
  apply first_index_Some in Hi as (Hlt & ([p|] & Hp & Ht) & _); [|done].
  exists i, p. split_and!; [by rewrite Hp| |done]. by destruct (p_state p).
Qed.

(** Interrupt lines are no endpoints. *)
Lemma interrupt_line_endpoints id f rt id' :
  get_endpoint (rt_objects (modify_interrupt_line id f rt)) id' = get_endpoint (rt_objects rt) id'.
Proof.
  unfold modify_interrupt_line. destruct (get_interrupt_line_mut _ id) as [[i line]|] eqn:Hm; [|done].
  apply find_object_mut_Some in Hm as (o & _ & Hsel & _ & _ & Hother).
  apply Hother; [|done]. by destruct o.
Qed.

Lemma record_hardware_irq_endpoints line rt id :
  get_endpoint (rt_objects (record_hardware_irq line rt)) id = get_endpoint (rt_objects rt) id.
Proof.
  unfold record_hardware_irq. destruct (get_interrupt_line_by_number _ line); [|done].
  by destruct (blocked_interrupt_waiter_index rt _); rewrite interrupt_line_endpoints.
Qed.

Lemma record_hardware_irq_config line rt :
  rt_active_config (record_hardware_irq line rt) = rt_active_config rt ∧
  rt_process_template_pids (record_hardware_irq line rt) = rt_process_template_pids rt.
Proof. unfold record_hardware_irq, modify_interrupt_line. by repeat case_match. Qed.

(** A hardware interrupt wakes at most one waiting process. *)
Lemma record_hardware_irq_quiet line k : quiet k (k <| ks_rt ::= record_hardware_irq line |>).
Proof.
  destruct (record_hardware_irq_processes line (ks_rt k)) as [Heq|(i & p & Hp & Hw & Heq)];
    (split; [done|done|done|..| | |intros id; apply record_hardware_irq_endpoints|
      apply record_hardware_irq_config|apply record_hardware_irq_config|]);
    unfold set; cbn; rewrite Heq; try done.
  - intros Hwf. by apply modify_process_at_live.
  - intros Hwf. apply modify_at_woken; [done|done|]. intros q [_ Hq]%live_lookup; [|done].
    rewrite Hq in Hp. injection Hp as ->. right. split; [done|eauto].
Qed.

Lemma kernel_interrupt_quiet e k :
  ptable_wf (rt_processes (ks_rt k)) →
  ∃ k', kernel_interrupt env e k = Some (Ok tt, k') ∧ quiet k k' ∧ ks_reads k ≤ ks_reads k'.
Proof.
  intros Hwf. destruct e as [|line]; unfold kernel_interrupt, kbind.
  - destruct (wake_timed_now_quiet k Hwf) as (n & k' & -> & Hq & Hr & _).
    exists k'. split_and!; [done|done|lia].
  - unfold modify_rt, kmodify. set (k1 := k <| ks_rt ::= record_hardware_irq line |>).
    pose proof (record_hardware_irq_quiet line k) as Hq1.
    destruct (wake_timed_now_quiet k1) as (n & k' & Hrun & Hq & Hr & _); [by apply Hq1|].
    change (k <| ks_rt ::= record_hardware_irq line |>) with k1 in Hq1.
    rewrite Hrun. exists k'. split_and!; [done|by etransitivity|].
    change (ks_reads k1) with (ks_reads k) in Hr. lia.
Qed.

Lemma kernel_interrupts_quiet l : ∀ k,
  ptable_wf (rt_processes (ks_rt k)) →
  ∃ k', kernel_interrupts env l k = Some (Ok tt, k') ∧ quiet k k' ∧ ks_reads k ≤ ks_reads k'.
Proof.
  induction l as [|e l IH]; intros k Hwf; cbn [kernel_interrupts]; [by exists k|].
  unfold kbind. destruct (kernel_interrupt_quiet e k Hwf) as (k1 & -> & Hq & Hr).
  destruct (IH k1) as (k' & -> & Hq' & Hr'); [by apply Hq|].
  exists k'. split_and!; [done|by etransitivity|lia].
Qed.

(** [wait_until_deadline] ends once the clock has passed the deadline for
    good, and only waits until then. *)
Lemma wait_until_deadline_ends fuel deadline inc n : ∀ k,
  ptable_wf (rt_processes (ks_rt k)) → 0 < fuel → n < ks_reads k + fuel →
  (∀ i, n ≤ i → deadline_reached (env_tsc env i) deadline = true) →
  is_Some (wait_until_deadline env fuel deadline inc k).
Proof.
  induction fuel as [|fuel IH]; intros k Hwf Hf Hn Hclock; [lia|].
  cbn [wait_until_deadline]. unfold kbind at 1, read_tsc.
  destruct (deadline_reached _ _) eqn:Hd; [by eexists|].
  assert (ks_reads k < n).
  { destruct (decide (n ≤ ks_reads k)); [|lia]. by rewrite Hclock in Hd. }
  set (k1 := k <| ks_reads ::= S |>). unfold kbind, kget.
  destruct (negb _); [by eexists|].
  destruct (wake_timed_now_quiet k1) as (w & k2 & -> & Hq2 & Hr2 & _); [done|].
  destruct (negb _); [by eexists|]. unfold wait_for_interrupt.
  set (k3 := k2 <| ks_waits ::= S |>).
  destruct (kernel_interrupts_quiet (env_irqs env (ks_waits k2)) k3) as (k4 & -> & Hq4 & Hr4).
  { by apply Hq2. }
  change (ks_reads k3) with (ks_reads k2) in Hr4. change (ks_reads k1) with (S (ks_reads k)) in Hr2.
  apply IH; [apply Hq4; by apply Hq2|lia|lia|done].
Qed.

Lemma wait_until_deadline_quiet fuel deadline inc : ∀ k r k',
  ptable_wf (rt_processes (ks_rt k)) →
  wait_until_deadline env fuel deadline inc k = Some (r, k') → r = Ok tt ∧ quiet k k'.
Proof.
  induction fuel as [|fuel IH]; intros k r k' Hwf; [done|].
  cbn [wait_until_deadline]. unfold kbind at 1, read_tsc.
  set (k1 := k <| ks_reads ::= S |>). assert (Hq1 : quiet k k1) by (by split).
  destruct (deadline_reached _ _); [by intros [= <- <-]|]. unfold kbind, kget.
  destruct (negb _); [by intros [= <- <-]|].
  destruct (wake_timed_now_quiet k1) as (w & k2 & -> & Hq2 & _); [done|].
  destruct (negb _); [intros [= <- <-]; split; [done|by etransitivity]|].
  unfold wait_for_interrupt. set (k3 := k2 <| ks_waits ::= S |>).
  assert (Hq3 : quiet k2 k3) by (by split).
  assert (Hwf3 : ptable_wf (rt_processes (ks_rt k3))) by (by apply Hq3, Hq2).
  destruct (kernel_interrupts_quiet (env_irqs env (ks_waits k2)) k3 Hwf3) as (k4 & -> & Hq4 & _).
  intros [-> Hq5]%IH; [|by apply Hq4]. split; [done|]. repeat (etransitivity; [done|]). done.
Qed.
End quiet.

(** * Choosing the next process *)

Lemma earlier_deadline_origin l next d :
  foldl earlier_deadline next l = Some d →
  next = Some d ∨ ∃ p s, Some p ∈ l ∧ timed_state (p_state p) = Some (d, s).
Proof.
  revert next. induction l as [|o l IH]; intros next; cbn [foldl]; [by left|].
  intros [Hd|(p & s & Hp & Hs)]%IH; [|right; exists p, s; split; [by apply elem_of_cons; right|done]].
  unfold earlier_deadline in Hd. destruct o as [p|]; [|by left].
  destruct (timed_state (p_state p)) as [[d' s]|] eqn:Hs; [|by left].
  assert (Hcase : next = Some d ∨ d' = d) by (repeat case_match; naive_solver).
  destruct Hcase as [?| ->]; [by left|right]. exists p, s. split; [apply elem_of_cons; by left|done].
Qed.

Section schedule.
Context `{UserMemory} (env : Env).

(** The state after the switch to process [p] in slot [i]. *)
Definition switched (i : nat) (p : Process) (k : KernelState) : KernelState :=
  k <| ks_rt ::= λ rt, rt <| rt_processes ::= λ t,
         (modify_process_at t i set_running) <| pt_current := Some (p_pid p) |> |> |>
    <| ks_frame := resume_frame p |>
    <| ks_cr3 := cr3 (p_context p) |>.

(** The outcome of a search for a process to run: the choice of the
    round-robin order, made after waiting at most. *)
Definition scheduled (inc : bool) (k : KernelState) (b : bool) (k' : KernelState) : Prop :=
  ∃ k1, quiet k k1 ∧
    if b then ∃ i p,
      next_ready_index_round_robin (rt_processes (ks_rt k1)) inc = Some i ∧
      live_processes (rt_processes (ks_rt k1)) !! i = Some p ∧ p_state p = PsReady ∧
      k' = switched i p k1
    else next_ready_index_round_robin (rt_processes (ks_rt k1)) inc = None ∧ k' = k1.

Lemma next_ready_live t inc i :
  ptable_wf t → next_ready_index_round_robin t inc = Some i →
  ∃ p, live_processes t !! i = Some p ∧ mjoin (pt_processes t !! i) = Some p ∧ p_state p = PsReady.
Proof.
  intros Hwf Hi. pose proof (next_ready_spec t inc) as Hs. rewrite Hi in Hs.
  destruct Hs as (Hlt & [Hr _] & _). destruct (pw_filled t Hwf i Hlt) as [p Hp].
  rewrite Hp in *. cbn in Hr. apply bool_decide_eq_true in Hr. exists p.
  split_and!; [by apply live_lookup|done|done].
Qed.

(** The part after waiting. *)
Lemma choose_cases k inc :
  ptable_wf (rt_processes (ks_rt k)) →
  ∃ b k', match next_ready_index_round_robin (rt_processes (ks_rt k)) inc with
          | None => kret false
          | Some next_index => switch_to next_index
          end k = Some (Ok b, k') ∧
          ∀ k0, quiet k0 k → scheduled inc k0 b k'.
Proof.
  intros Hwf. destruct (next_ready_index_round_robin _ inc) as [i|] eqn:Hi.
  - destruct (next_ready_live _ _ _ Hwf Hi) as (p & Hp & Hm & Hr). unfold switch_to. rewrite Hm.
    exists true. eexists. split; [done|]. intros k0 Hq. exists k. split; [done|]. by exists i, p.
  - exists false, k. split; [done|]. intros k0 Hq. by exists k.
Qed.

Lemma schedule_run fuel inc wait k :
  ptable_wf (rt_processes (ks_rt k)) →
  match schedule_next_ready_inner env fuel inc wait k with
  | Some (r, k') => ∃ b, r = Ok b ∧ scheduled inc k b k'
  | None => True
  end.
Proof.
  intros Hwf. unfold schedule_next_ready_inner. unfold kbind at 1.
  destruct (wake_timed_now_quiet env k Hwf) as (n & k1 & -> & Hq1 & _).
  pose proof (qu_wf _ _ Hq1 Hwf) as Hwf1. unfold kbind at 1, kget at 1.
  unfold kbind at 1.
  match goal with |- context [(if ?b then ?x else ?y) k1] => set (mid := (if b then x else y) k1) end.
  assert (Hmid : match mid with Some o => ∃ k2, o = (Ok tt, k2) ∧ quiet k1 k2 | None => True end).
  { unfold mid. destruct (wait && _); [|by exists k1].
    destruct (next_deadline_tsc (ks_rt k1)) as [d|]; [|by exists k1]. unfold kbind at 1.
    destruct (wait_until_deadline env fuel d inc k1) as [[r k2]|] eqn:Hrun; [|done].
    apply wait_until_deadline_quiet in Hrun as [-> Hq2]; [|done].
    unfold kbind. destruct (wake_timed_now_quiet env k2) as (m & k3 & -> & Hq3 & _);
      [by apply Hq2|]. exists k3. split; [done|by etransitivity]. }
  destruct mid as [o|]; [|done].
  destruct Hmid as (k2 & -> & Hq2). unfold kbind, kget.
  destruct (choose_cases k2 inc (qu_wf _ _ Hq2 Hwf1)) as (b & k' & -> & Hs).
  exists b. split; [done|]. apply Hs. by etransitivity.
Qed.

(** The clock passes [d] for good. *)
Definition clock_passes (d : Z) : Prop :=
  ∃ n, ∀ i, n ≤ i → deadline_reached (env_tsc env i) d = true.

(** Scheduling ends when the clock passes every pending deadline. *)
Lemma schedule_ends inc wait k :
  ptable_wf (rt_processes (ks_rt k)) →
  (∀ p d s, p ∈ live_processes (rt_processes (ks_rt k)) →
            timed_state (p_state p) = Some (d, s) → clock_passes d) →
  ∃ fuel0, ∀ fuel, fuel0 ≤ fuel → is_Some (schedule_next_ready_inner env fuel inc wait k).
Proof.
  intros Hwf Hpass. unfold schedule_next_ready_inner. unfold kbind at 1.
  destruct (wake_timed_now_quiet env k Hwf) as (n & k1 & -> & Hq1 & Hr1 & _ & Hl1 & _).
  pose proof (qu_wf _ _ Hq1 Hwf) as Hwf1. unfold kbind at 1, kget at 1.
  assert (Hend : ∀ k2, ptable_wf (rt_processes (ks_rt k2)) → is_Some
    ((let* rt := kget ks_rt in
      match next_ready_index_round_robin (rt_processes rt) inc with
      | None => kret false
      | Some next_index => switch_to next_index
      end) k2)).
  { intros k2 Hwf2. unfold kbind, kget.
    destruct (choose_cases k2 inc Hwf2) as (b & k' & -> & _). eauto. }
  destruct (wait && _); [|exists 0; intros fuel _; unfold kbind at 1; by apply Hend].
  destruct (next_deadline_tsc (ks_rt k1)) as [d|] eqn:Hd;
    [|exists 0; intros fuel _; unfold kbind at 1; by apply Hend].
  assert (Hd' : clock_passes d).
  { unfold next_deadline_tsc in Hd. apply earlier_deadline_origin in Hd as [|(p & s & Hp & Hs)];
      [done|]. rewrite take_live in Hp by done. apply list_elem_of_fmap in Hp as (q & [= ->] & Hq).
    rewrite Hl1 in Hq. apply list_elem_of_fmap in Hq as (p0 & -> & Hp0).
    destruct (timed_out (env_tsc env (ks_reads k)) p0) eqn:Ht.
    - destruct (wake_timed_due _ _ Ht) as (? & ? & _ & _ & Hw). by rewrite Hw in Hs.
    - rewrite wake_timed_not_due in Hs by done. by eapply Hpass. }
  destruct Hd' as [m Hm]. exists (S m). intros fuel Hf. unfold kbind at 1. unfold kbind at 1.
  destruct (wait_until_deadline_ends env fuel d inc m k1 Hwf1 ltac:(lia) ltac:(lia) Hm) as [[r k2] Hrun].
  rewrite Hrun. apply wait_until_deadline_quiet in Hrun as [-> Hq2]; [|done].
  unfold kbind at 1. destruct (wake_timed_now_quiet env k2) as (w & k3 & -> & Hq3 & _);
    [by apply Hq2|]. apply Hend. by apply Hq3, Hq2.
Qed.

(** ** Who may run, and what ends a wait *)

(** The process is ready and the search may choose it: without
    [include_current] the current process is left out. *)
Definition runnable (include_current : bool) (t : ProcessTable) (p : Process) : Prop :=
  p ∈ live_processes t ∧ p_state p = PsReady ∧
  (include_current = true ∨ pt_current t ≠ Some (p_pid p)).

Lemma runnable_slot t inc i p :
  ptable_wf t → live_processes t !! i = Some p → runnable inc t p ↔ may_run t inc i.
Proof.
  intros Hwf Hi. pose proof (proj1 (live_lookup t i p Hwf) Hi) as [_ Hs].
  assert (Hcur : current_index t = Some i ↔ pt_current t = Some (p_pid p)).
  { unfold current_index. split.
    - intros (pid & Hpid & (q & Hq & <-)%process_index_live)%bind_Some; [|done]. by simplify_eq.
    - intros ->. apply process_index_live; eauto. }
  unfold runnable, may_run. rewrite Hs, Hcur. cbn. rewrite bool_decide_eq_true. split; [tauto|].
  intros [Hr Hc]. split; [by eapply list_elem_of_lookup_2|done].
Qed.

(** The search is exact in terms of processes. *)
Lemma next_ready_runnable t inc :
  ptable_wf t →
  match next_ready_index_round_robin t inc with
  | Some i => ∃ p, live_processes t !! i = Some p ∧ runnable inc t p ∧
      ∀ j q, live_processes t !! j = Some q → runnable inc t q → search_rank t i ≤ search_rank t j
  | None => ∀ p, ¬ runnable inc t p
  end.
Proof.
  intros Hwf. pose proof (next_ready_spec t inc) as Hs.
  destruct (next_ready_index_round_robin t inc) as [i|] eqn:Hn.
  - destruct Hs as (Hlt & Hm & Hmin). destruct (next_ready_live t inc i Hwf Hn) as (p & Hp & _).
    exists p. split_and!; [done|by apply (runnable_slot t inc i)|].
    intros j q Hq Hr. apply Hmin; [by apply (live_lookup t j q Hwf)|].
    by apply (runnable_slot t inc j q Hwf Hq).
  - intros p Hr. pose proof Hr as ([j Hj]%list_elem_of_lookup & _).
    apply (Hs j); [by apply (live_lookup t j p Hwf)|]. by apply (runnable_slot t inc j p Hwf Hj).
Qed.

(** A process that waited with a deadline is ready. *)
Definition wait_ended (k k' : KernelState) : Prop :=
  ∃ j p0 p, live_processes (rt_processes (ks_rt k)) !! j = Some p0 ∧
    is_Some (timed_state (p_state p0)) ∧
    live_processes (rt_processes (ks_rt k')) !! j = Some p ∧ p_state p = PsReady ∧ woken p0 p.

Lemma quiet_lookup k k' j p :
  ptable_wf (rt_processes (ks_rt k)) → quiet k k' →
  live_processes (rt_processes (ks_rt k)) !! j = Some p →
  ∃ p', live_processes (rt_processes (ks_rt k')) !! j = Some p' ∧ woken p p'.
Proof. intros Hwf Hq Hj. by destruct (Forall2_lookup_l _ _ _ _ _ (qu_woken _ _ Hq Hwf) Hj) as (p' & ? & ?); eauto. Qed.

Lemma woken_ready p p' : woken p p' → p_state p = PsReady → p' = p.
Proof. intros [->|(Hw & _)] Hr; [done|]. by rewrite Hr in Hw. Qed.

Lemma wait_ended_later k k1 k2 :
  ptable_wf (rt_processes (ks_rt k1)) → wait_ended k k1 → quiet k1 k2 → wait_ended k k2.
Proof.
  intros Hwf (j & p0 & p & H0 & Ht & Hp & Hr & Hw) Hq. exists j, p0, p. split_and!; try done.
  destruct (quiet_lookup _ _ _ _ Hwf Hq Hp) as (p' & Hp' & Hw'). by rewrite (woken_ready _ _ Hw' Hr) in Hp'.
Qed.

Lemma wait_ended_earlier k k1 k2 :
  ptable_wf (rt_processes (ks_rt k)) → quiet k k1 → wait_ended k1 k2 → wait_ended k k2.
Proof.
  intros Hwf Hq (j & p0 & p & H0 & [[d s] Ht] & Hp).
  destruct (Forall2_lookup_r _ _ _ _ _ (qu_woken _ _ Hq Hwf) H0) as (p1 & H1 & [->|(_ & s' & ->)]); [|done].
  exists j, p1, p. split_and!; [done|by eexists|apply Hp..].
Qed.

Lemma runnable_later inc k k' p :
  ptable_wf (rt_processes (ks_rt k)) → quiet k k' →
  runnable inc (rt_processes (ks_rt k)) p → runnable inc (rt_processes (ks_rt k')) p.
Proof.
  intros Hwf Hq ([j Hj]%list_elem_of_lookup & Hr & Hc).
  destruct (quiet_lookup _ _ _ _ Hwf Hq Hj) as (p' & Hp' & Hw). rewrite (woken_ready _ _ Hw Hr) in Hp'.
  split_and!; [by eapply list_elem_of_lookup_2|done|]. by rewrite (qu_current _ _ Hq).
Qed.

Lemma no_ready_runnable inc rt :
  ptable_wf (rt_processes rt) → no_ready inc rt = true ↔ ∀ p, ¬ runnable inc (rt_processes rt) p.
Proof.
  intros Hwf. unfold no_ready. pose proof (next_ready_runnable (rt_processes rt) inc Hwf) as Hx.
  destruct (next_ready_index_round_robin _ _) as [i|]; [|done].
  destruct Hx as (p & _ & Hr & _). split; [done|]. intros Hno. by destruct (Hno p).
Qed.

(** Why [wait_until_deadline] returns. *)
Lemma wait_until_deadline_exit fuel deadline inc : ∀ k r k',
  ptable_wf (rt_processes (ks_rt k)) →
  wait_until_deadline env fuel deadline inc k = Some (r, k') →
  (∃ i, i < ks_reads k' ∧ deadline_reached (env_tsc env i) deadline = true) ∨
  no_ready inc (ks_rt k') = false ∨ wait_ended k k'.
Proof.
  induction fuel as [|fuel IH]; intros k r k' Hwf; [done|].
  cbn [wait_until_deadline]. unfold kbind at 1, read_tsc.
  set (k1 := k <| ks_reads ::= S |>). assert (Hq1 : quiet k k1) by (by split).
  destruct (deadline_reached _ _) eqn:Hd; [intros [= <- <-]; left; exists (ks_reads k); split;
    [change (ks_reads k1) with (S (ks_reads k)); lia|done]|].
  unfold kbind, kget.
  destruct (no_ready inc (ks_rt k1)) eqn:Hn; cbn [negb]; [|intros [= <- <-]; by right; left].
  destruct (wake_timed_now_quiet env k1) as (w & k2 & -> & Hq2 & _ & Hw & Hl2 & _); [done|].
  destruct (Nat.eqb_spec w 0) as [_|Hw0]; cbn [negb].
  - unfold wait_for_interrupt. set (k3 := k2 <| ks_waits ::= S |>).
    assert (Hq3 : quiet k2 k3) by (by split).
    assert (Hwf3 : ptable_wf (rt_processes (ks_rt k3))) by (by apply Hq3, Hq2).
    destruct (kernel_interrupts_quiet env (env_irqs env (ks_waits k2)) k3 Hwf3) as (k4 & -> & Hq4 & _).
    intros [?|[?|He]]%IH; [by left|by right; left| |by apply Hq4]. right; right.
    apply (wait_ended_earlier _ k4); [done| |done]. repeat (etransitivity; [done|]). done.
  - intros [= <- <-]. right; right. destruct (filter _ _) as [|p0 l] eqn:Hf; [done|].
    assert (Hp0 : p0 ∈ p0 :: l) by (apply elem_of_cons; by left). rewrite <-Hf in Hp0.
    apply list_elem_of_filter in Hp0 as [Ht [j Hj]%list_elem_of_lookup].
    destruct (wake_timed_due _ _ Ht) as (d & s & Hs & _ & Hwk).
    exists j, p0, (wake_with s p0). rewrite <-Hwk at 1 3.
    split_and!; [exact Hj|by eexists|by rewrite Hl2, list_lookup_fmap, Hj|done|apply wake_timed_woken].
Qed.

(** Once the clock has passed [d] it stays past it. *)
Definition clock_steady (d : Z) : Prop :=
  ∀ i j, i ≤ j → deadline_reached (env_tsc env i) d = true → deadline_reached (env_tsc env j) d = true.

(** A process whose deadline was passed is ready after the next wake-up. *)
Lemma deadline_ends_wait k1 k2 k3 j p0 d s :
  ptable_wf (rt_processes (ks_rt k1)) → quiet k1 k2 → clock_steady d →
  live_processes (rt_processes (ks_rt k1)) !! j = Some p0 → timed_state (p_state p0) = Some (d, s) →
  (∃ i, i < ks_reads k2 ∧ deadline_reached (env_tsc env i) d = true) →
  live_processes (rt_processes (ks_rt k3)) =
    wake_timed (env_tsc env (ks_reads k2)) <$> live_processes (rt_processes (ks_rt k2)) →
  wait_ended k1 k3.
Proof.
  intros Hwf Hq Hst Hj Hs (i & Hi & Hd) Hl. destruct (quiet_lookup _ _ _ _ Hwf Hq Hj) as (p2 & Hp2 & Hw).
  assert (Hnow : deadline_reached (env_tsc env (ks_reads k2)) d = true) by (eapply Hst; [|exact Hd]; lia).
  exists j, p0, (wake_timed (env_tsc env (ks_reads k2)) p2).
  split_and!; [done|by eexists|by rewrite Hl, list_lookup_fmap, Hp2| |].
  - destruct Hw as [->|(_ & s' & ->)]; unfold wake_timed; [by rewrite Hs, Hnow|done].
  - etransitivity; [exact Hw|apply wake_timed_woken].
Qed.

Lemma earlier_deadline_none l :
  ∀ next, foldl earlier_deadline next l = None →
  next = None ∧ ∀ p, Some p ∈ l → timed_state (p_state p) = None.
Proof.
  induction l as [|o l IH]; intros next; cbn [foldl]; [intros ->; split; [done|]; intros p Hp; by apply elem_of_nil in Hp|].
  intros [He Hall]%IH. unfold earlier_deadline in He.
  destruct o as [q|]; [destruct (timed_state (p_state q)) as [[d s]|] eqn:Hs|].
  - by repeat case_match.
  - split; [done|]. intros p [[= ->]|Hp]%elem_of_cons; [done|by apply Hall].
  - split; [done|]. intros p [[=]|Hp]%elem_of_cons. by apply Hall.
Qed.

(** The scheduler answers that nobody is there to run only when nobody is left
    to wait for, or when the wait of a process ended that it must not choose. *)
Lemma schedule_gives_up fuel inc k k' :
  ptable_wf (rt_processes (ks_rt k)) →
  (∀ p d s, p ∈ live_processes (rt_processes (ks_rt k)) →
            timed_state (p_state p) = Some (d, s) → clock_steady d) →
  schedule_next_ready_inner env fuel inc true k = Some (Ok false, k') →
  (∀ p, p ∈ live_processes (rt_processes (ks_rt k')) → timed_state (p_state p) = None) ∨ wait_ended k k'.
Proof.
  intros Hwf Hst. unfold schedule_next_ready_inner. unfold kbind at 1.
  destruct (wake_timed_now_quiet env k Hwf) as (n & k1 & -> & Hq1 & _).
  pose proof (qu_wf _ _ Hq1 Hwf) as Hwf1. unfold kbind at 1, kget at 1. cbn [andb].
  assert (Hend : ∀ k2, ptable_wf (rt_processes (ks_rt k2)) →
    (let* rt := kget ks_rt in
      match next_ready_index_round_robin (rt_processes rt) inc with
      | None => kret false
      | Some next_index => switch_to next_index
      end) k2 = Some (Ok false, k') → k' = k2 ∧ no_ready inc (ks_rt k2) = true).
  { intros k2 Hwf2. unfold kbind, kget, no_ready.
    destruct (choose_cases k2 inc Hwf2) as (b & k2' & Hrun & Hs). rewrite Hrun. intros [= -> ->].
    unfold scheduled in Hs. destruct (next_ready_index_round_robin _ inc) as [i|] eqn:Hi; [|by injection Hrun].
    destruct (next_ready_live _ _ _ Hwf2 Hi) as (p & _ & Hm & _). unfold switch_to in Hrun.
    rewrite Hm in Hrun. discriminate Hrun. }
  unfold kbind at 1. destruct (no_ready inc (ks_rt k1)) eqn:Hn;
    [|intros [-> Hno]%Hend; [congruence|done]].
  destruct (next_deadline_tsc (ks_rt k1)) as [d|] eqn:Hd.
  - unfold kbind at 1.
    destruct (wait_until_deadline env fuel d inc k1) as [[r k2]|] eqn:Hrun; [|done].
    pose proof (wait_until_deadline_exit _ _ _ _ _ _ Hwf1 Hrun) as Hexit.
    apply wait_until_deadline_quiet in Hrun as [-> Hq2]; [|done]. unfold kbind at 1.
    pose proof (qu_wf _ _ Hq2 Hwf1) as Hwf2.
    destruct (wake_timed_now_quiet env k2 Hwf2) as (m & k3 & -> & Hq3 & _ & _ & Hl3 & _).
    pose proof (qu_wf _ _ Hq3 Hwf2) as Hwf3.
    intros [-> Hno]%Hend; [|done]. right. apply (wait_ended_earlier _ k1); [done..|].
    destruct Hexit as [Hreach|[Hready|He]].
    + unfold next_deadline_tsc in Hd. apply earlier_deadline_origin in Hd as [|(p0 & s & Hp & Hs)]; [done|].
      rewrite take_live in Hp by done. apply list_elem_of_fmap in Hp as (q & [= <-] & [j Hj]%list_elem_of_lookup).
      refine (deadline_ends_wait k1 k2 k3 j p0 d s Hwf1 Hq2 _ Hj Hs Hreach Hl3).
      destruct (Forall2_lookup_r _ _ _ _ _ (qu_woken _ _ Hq1 Hwf) Hj) as (p1 & H1 & [->|(_ & s' & ->)]);
        [|done]. eapply Hst; [by eapply list_elem_of_lookup_2|exact Hs].
    + exfalso. apply not_true_iff_false in Hready. apply Hready, no_ready_runnable; [done|].
      intros p Hr. apply (proj1 (no_ready_runnable inc (ks_rt k3) Hwf3) Hno p). exact (runnable_later inc k2 k3 p Hwf2 Hq3 Hr).
    + by apply (wait_ended_later _ k2).
  - intros [-> _]%Hend; [left|done]. intros p Hp. unfold next_deadline_tsc in Hd.
    apply earlier_deadline_none in Hd as [_ Hd]. apply Hd. rewrite take_live by done.
    by apply list_elem_of_fmap_2.
Qed.
End schedule.

(** * The running process *)

Section cpu.
Context `{UserMemory} (env : Env).

(** The current process, and only it, runs, in its own address space. *)
Record cpu_ok (k : KernelState) : Prop := mk_cpu_ok {
  cpu_wf : ptable_wf (rt_processes (ks_rt k));
  cpu_current : ∃ p, current_process (rt_processes (ks_rt k)) = Some p ∧
    p_state p = PsRunning ∧ ks_cr3 k = cr3 (p_context p);
  cpu_only q : q ∈ live_processes (rt_processes (ks_rt k)) → p_state q = PsRunning →
    pt_current (rt_processes (ks_rt k)) = Some (p_pid q)
}.

(** The current process has been suspended and nobody runs yet. *)
Record parked (k : KernelState) : Prop := mk_parked {
  pk_wf : ptable_wf (rt_processes (ks_rt k));
  pk_current : ∃ p, current_process (rt_processes (ks_rt k)) = Some p ∧
    ks_cr3 k = cr3 (p_context p);
  pk_none : Forall (λ q, p_state q ≠ PsRunning) (live_processes (rt_processes (ks_rt k)))
}.

Lemma woken_context p p' : woken p p' → p_context p' = p_context p.
Proof. by intros [->|(_ & s & ->)]. Qed.

Lemma woken_not_running p p' : woken p p' → p_state p ≠ PsRunning → p_state p' ≠ PsRunning.
Proof. by intros [->|(_ & s & ->)]. Qed.

(** The current process of a table whose processes were woken. *)
Lemma current_woken t t' p :
  ptable_wf t → ptable_wf t' → pt_current t' = pt_current t →
  Forall2 woken (live_processes t) (live_processes t') → current_process t = Some p →
  ∃ p', current_process t' = Some p' ∧ woken p p'.
Proof.
  intros Hwf Hwf' Hc HF. unfold current_process. rewrite Hc.
  intros (pid & Hpid & [[i Hi]%list_elem_of_lookup <-]%process_live)%bind_Some; [|done].
  destruct (Forall2_lookup_l _ _ _ _ _ HF Hi) as (p' & Hp' & Hw). exists p'. split; [|done].
  rewrite Hpid. cbn. apply process_live; [done|].
  split; [by eapply list_elem_of_lookup_2|by apply woken_pid].
Qed.

Lemma parked_quiet k k' : parked k → quiet k k' → parked k'.
Proof.
  intros [Hwf (p & Hp & Hcr) Hn] [_ Hcr' _ Hcur Hwf' HF]. specialize (HF Hwf). split.
  - by apply Hwf'.
  - destruct (current_woken _ _ p Hwf (Hwf' Hwf) Hcur HF Hp) as (p' & Hp' & Hw).
    exists p'. split; [done|]. rewrite (woken_context _ _ Hw). congruence.
  - apply Forall_lookup. intros i q' Hq'.
    destruct (Forall2_lookup_r _ _ _ _ _ HF Hq') as (q & Hq & Hw).
    eapply woken_not_running; [done|]. exact (proj1 (Forall_lookup _ _) Hn i q Hq).
Qed.

(** A table in which one process was set running. *)
Lemma set_running_only t i p pid :
  ptable_wf t → Forall (λ q, p_state q ≠ PsRunning) (live_processes t) →
  live_processes t !! i = Some p → p_pid p = pid →
  let t' := modify_process_at t i set_running in
  ptable_wf t' ∧ process t' pid = Some (set_running p) ∧
  ∀ q, q ∈ live_processes t' → p_state q = PsRunning → p_pid q = pid.
Proof.
  intros Hwf Hn Hi Hpid t'. destruct (modify_process_at_live t i set_running Hwf) as [Hwf' Hl]; [done|].
  fold t' in Hwf', Hl. split; [done|]. split.
  - apply process_live; [done|]. rewrite Hl. split; [|done].
    eapply list_elem_of_lookup_2. by rewrite list_lookup_alter_eq, Hi.
  - intros q. rewrite Hl. intros [Hq|(x & Hx & ->)]%list_elem_of_alter Hr.
    + by eapply Forall_forall in Hn.
    + rewrite Hi in Hx. by injection Hx as <-.
Qed.

Lemma switched_cpu_ok i p k :
  parked k → live_processes (rt_processes (ks_rt k)) !! i = Some p → cpu_ok (switched i p k).
Proof.
  intros [Hwf _ Hn] Hi. destruct (set_running_only _ i p (p_pid p) Hwf Hn Hi eq_refl) as (Hwf' & Hp & Ho).
  split.
  - destruct Hwf'. by split.
  - exists (set_running p). split_and!; [|done|done]. unfold current_process; cbn. exact Hp.
  - intros q Hq Hr. cbn. by rewrite (Ho q Hq Hr).
Qed.

Lemma modify_current_ok k p f :
  ptable_wf (rt_processes (ks_rt k)) → current_process (rt_processes (ks_rt k)) = Some p →
  ∃ i, live_processes (rt_processes (ks_rt k)) !! i = Some p ∧
    current_index (rt_processes (ks_rt k)) = Some i ∧
    modify_current_process f k =
    Some (Ok true, k <| ks_rt ::= λ rt, rt <| rt_processes := modify_process_at (rt_processes (ks_rt k)) i f |> |>).
Proof.
  intros Hwf Hp. destruct (current_process_index _ _ Hp) as [i Hi]. exists i.
  destruct (current_index_process _ i Hwf Hi) as (q & Hq & Hl & _). simplify_eq.
  split_and!; [done|done|]. unfold modify_current_process, modify_current, modify_process.
  unfold current_index in Hi. destruct (pt_current _) as [pid|]; [|done]. cbn in Hi. by rewrite Hi.
Qed.

Lemma unpark k :
  parked k → ∃ k', modify_current_process set_running k = Some (Ok true, k') ∧ cpu_ok k'.
Proof.
  intros [Hwf (p & Hp & Hcr) Hn]. destruct (modify_current_ok k p set_running Hwf Hp) as (i & Hl & Hi & ->).
  eexists. split; [done|].
  destruct (set_running_only _ i p (p_pid p) Hwf Hn Hl eq_refl) as (Hwf' & Hproc & Ho).
  assert (Hc : pt_current (rt_processes (ks_rt k)) = Some (p_pid p)).
  { unfold current_process in Hp. apply bind_Some in Hp as (pid & -> & [_ <-]%process_live); done. }
  split.
  - done.
  - exists (set_running p). split_and!; [|done|done].
    unfold current_process; cbn. rewrite Hc. exact Hproc.
  - intros q Hq Hr. cbn. rewrite Hc. by rewrite (Ho q Hq Hr).
Qed.

Lemma park_with k f :
  cpu_ok k → (∀ p, p_pid (f p) = p_pid p) → (∀ p, p_context (f p) = p_context p) →
  (∀ p, p_state (f p) ≠ PsRunning) →
  ∃ k', modify_current_process f k = Some (Ok true, k') ∧ parked k'.
Proof.
  intros [Hwf (p & Hp & _ & Hcr) Ho] Hf Hctx Hs.
  destruct (modify_current_ok k p f Hwf Hp) as (i & Hl & Hi & ->).
  eexists. split; [done|].
  destruct (modify_process_at_live (rt_processes (ks_rt k)) i f Hwf) as [Hwf' Hlive];
    [done|]. assert (Hpid : p_pid p ∈ p_pid <$> live_processes (rt_processes (ks_rt k))).
  { apply list_elem_of_fmap_2. by eapply list_elem_of_lookup_2. }
  split.
  - done.
  - exists (f p). rewrite Hctx. split; [|done]. unfold current_index, current_process in *; cbn.
    destruct (pt_current _) as [pid|]; [|done]. cbn in *. by apply process_modify.
  - change (rt_processes (ks_rt (k <| ks_rt ::= _ |>))) with
      (modify_process_at (rt_processes (ks_rt k)) i f).
    rewrite Hlive. apply Forall_forall. intros q [j Hj]%list_elem_of_lookup.
    destruct (decide (i = j)) as [->|Hne].
    + rewrite list_lookup_alter_eq, Hl in Hj. by injection Hj as <-.
    + rewrite list_lookup_alter_ne in Hj by done. intros Hr.
      specialize (Ho q ltac:(by eapply list_elem_of_lookup_2) Hr).
      unfold current_process in Hp. rewrite Ho in Hp. cbn in Hp.
      apply process_live in Hp as [_ Hpq]; [|done]. apply Hne.
      apply (NoDup_lookup (p_pid <$> live_processes (rt_processes (ks_rt k))) i j (p_pid p));
        [apply Hwf|..]; rewrite list_lookup_fmap, ?Hl, ?Hj; cbn; congruence.
Qed.

Lemma park k frame s :
  cpu_ok k → s ≠ PsRunning →
  ∃ k', modify_current_process (suspend frame s) k = Some (Ok true, k') ∧ parked k'.
Proof. intros Hc Hs. by apply park_with. Qed.

(** The shape of the blocking calls: suspend, search, and run again when
    there is nobody to switch to. *)
Definition suspend_and_schedule {A} (fuel : nat) (frame : SyscallFrame) (s : ProcessState)
    (none yes no : K A) : K A :=
  let* found := modify_current_process (suspend frame s) in
  if negb found then none
  else
    let* switched := schedule_next_ready env fuel in
    if switched : bool then yes
    else do* modify_current_process set_running; no.

Lemma suspend_and_schedule_cpu {A} fuel frame s (none yes no : Result IpcError A) k r k' :
  cpu_ok k → s ≠ PsRunning →
  suspend_and_schedule fuel frame s (klift none) (klift yes) (klift no) k = Some (r, k') →
  cpu_ok k' ∧ (r = yes ∨ r = no).
Proof.
  intros Hc Hs. unfold suspend_and_schedule, kbind.
  destruct (park k frame s Hc Hs) as (k1 & -> & Hp1). cbn [negb].
  pose proof (schedule_run env fuel true true k1 (pk_wf _ Hp1)) as Hrun. unfold schedule_next_ready.
  destruct (schedule_next_ready_inner env fuel true true k1) as [[r2 k2]|]; [|done].
  destruct Hrun as (b & -> & k3 & Hq & Hb). pose proof (parked_quiet _ _ Hp1 Hq) as Hp3.
  destruct b.
  - destruct Hb as (i & p & _ & Hi & _ & ->). intros [= <- <-].
    split; [by apply switched_cpu_ok|by left].
  - destruct Hb as [_ ->]. destruct (unpark k3 Hp3) as (k4 & -> & Hc4).
    intros [= <- <-]. split; [done|by right].
Qed.
End cpu.

(** * The blocking calls *)

Section blocking.
Context `{UserMemory} (env : Env).

Lemma cpu_ok_same k k' :
  rt_processes (ks_rt k') = rt_processes (ks_rt k) → ks_cr3 k' = ks_cr3 k → cpu_ok k → cpu_ok k'.
Proof. intros Hp Hc [H1 H2 H3]. split; rewrite ?Hp, ?Hc; done. Qed.

Lemma block_on_endpoint_cpu fuel endpoint cap_id destination max_len timeout k r k' :
  cpu_ok k →
  block_current_on_endpoint env fuel endpoint cap_id destination max_len timeout k = Some (r, k') →
  cpu_ok k'.
Proof.
  intros Hc Hrun. unfold block_current_on_endpoint in Hrun. unfold kbind at 1, kget at 1 in Hrun.
  eapply (suspend_and_schedule_cpu env fuel (ks_frame k)
    (PsBlockedOnEndpoint endpoint cap_id destination max_len timeout)
    (Ok false) (Ok true) (Ok false)); [exact Hc|done|exact Hrun].
Qed.

Lemma block_on_interrupt_cpu fuel interrupt timeout k r k' :
  cpu_ok k → block_current_on_interrupt env fuel interrupt timeout k = Some (r, k') → cpu_ok k'.
Proof.
  intros Hc Hrun. unfold block_current_on_interrupt in Hrun. unfold kbind at 1, kget at 1 in Hrun.
  destruct (get_interrupt_line _ interrupt); [|by injection Hrun as <- <-].
  unfold kbind at 1, kget at 1 in Hrun.
  eapply (suspend_and_schedule_cpu env fuel ((ks_frame k) <| rax := STATUS_OK |>)
    (PsBlockedOnInterrupt interrupt timeout) (Ok false) (Ok true) (Ok false)); [exact Hc|done|exact Hrun].
Qed.

Lemma on_rt_lookup_state {A} (c : RT A) k r k' :
  (∀ rt, (c rt).2 = rt) → on_rt c k = Some (r, k') → k' = k.
Proof.
  intros Hc. unfold on_rt. specialize (Hc (ks_rt k)). destruct (c (ks_rt k)) as [r0 rt].
  cbn in Hc. subst rt. intros [= <- <-]. by destruct k.
Qed.

Lemma object_from_cap_unchanged {A} (get : ObjectTable → KernelObjectId → option A) slot right rt :
  (object_from_cap get slot right rt).2 = rt.
Proof.
  destruct (object_from_cap get slot right rt) as [r rt'] eqn:Hr.
  by apply object_from_cap_state in Hr as [-> _].
Qed.

Lemma sleep_ms_cpu fuel slot ms k r k' :
  cpu_ok k → sleep_ms env fuel slot ms k = Some (r, k') → cpu_ok k'.
Proof.
  intros Hc Hrun. unfold sleep_ms in Hrun. unfold kbind at 1 in Hrun.
  destruct (on_rt (timer_from_cap slot RIGHT_CONTROL) k) as [[r1 k1]|] eqn:Ho; [|done].
  apply on_rt_lookup_state in Ho as ->; [|intros; apply object_from_cap_unchanged].
  destruct r1 as [t|e]; [|by injection Hrun as <- <-].
  destruct (ms =? 0)%Z; [injection Hrun as <- <-; by apply (cpu_ok_same k)|].
  unfold kbind at 1, deadline_after_ms in Hrun. unfold kbind at 1, read_tsc, kret in Hrun.
  unfold kbind at 1, kget at 1 in Hrun.
  eapply (suspend_and_schedule_cpu env fuel _ _ (Err BadCapability) (Ok tt) (Err Empty));
    [| |exact Hrun]; [by apply (cpu_ok_same k)|done].
Qed.

Lemma irq_wait_cpu fuel slot ms k r k' :
  cpu_ok k → irq_wait env fuel slot ms k = Some (r, k') → cpu_ok k'.
Proof.
  intros Hc Hrun. unfold irq_wait in Hrun. unfold kbind at 1 in Hrun.
  destruct (on_rt (interrupt_line_from_cap slot RIGHT_LISTEN) k) as [[r1 k1]|] eqn:Ho; [|done].
  apply on_rt_lookup_state in Ho as ->; [|intros; apply object_from_cap_unchanged].
  destruct r1 as [line|e]; [|by injection Hrun as <- <-].
  unfold kbind at 1 in Hrun. destruct (consume_pending_interrupt _ (ks_rt k)) as [b rt] eqn:Hcons.
  assert (Hc1 : cpu_ok (k <| ks_rt := rt |>)).
  { apply (cpu_ok_same k); [|done|done]. cbn. unfold consume_pending_interrupt in Hcons.
    repeat case_match; by simplify_eq. }
  destruct b; [injection Hrun as <- <-; by apply (cpu_ok_same (k <| ks_rt := rt |>))|].
  destruct (ms =? 0)%Z; [injection Hrun as <- <-; by apply (cpu_ok_same (k <| ks_rt := rt |>))|].
  unfold kbind at 1, deadline_after_ms in Hrun. unfold kbind at 1, read_tsc, kret in Hrun.
  unfold kbind in Hrun. set (k1 := _ <| ks_reads ::= S |>) in Hrun.
  destruct (block_current_on_interrupt _ _ _ _ k1) as [[[b2|e] k2]|] eqn:Hb; [| |done].
  - apply block_on_interrupt_cpu in Hb; [|by apply (cpu_ok_same (k <| ks_rt := rt |>))].
    destruct b2; by injection Hrun as <- <-.
  - apply block_on_interrupt_cpu in Hb; [|by apply (cpu_ok_same (k <| ks_rt := rt |>))].
    by injection Hrun as <- <-.
Qed.

(** A sleep ends when the clock passes its deadline and the pending ones. *)
Lemma sleep_ms_ends slot ms k :
  cpu_ok k →
  (∀ p d s, p ∈ live_processes (rt_processes (ks_rt k)) →
            timed_state (p_state p) = Some (d, s) → clock_passes env d) →
  clock_passes env (deadline_at (env_tsc env (ks_reads k)) (env_ticks_per_ms env) ms) →
  ∃ fuel0, ∀ fuel, fuel0 ≤ fuel → is_Some (sleep_ms env fuel slot ms k).
Proof.
  intros Hc Hpass Hnew. unfold sleep_ms. unfold kbind at 1.
  destruct (on_rt (timer_from_cap slot RIGHT_CONTROL) k) as [[r1 k1]|] eqn:Ho.
  2: { unfold on_rt in Ho. by destruct (timer_from_cap _ _ _). }
  apply on_rt_lookup_state in Ho as ->; [|intros; apply object_from_cap_unchanged].
  destruct r1 as [t|e]; [|by exists 0]. destruct (ms =? 0)%Z; [by exists 0|].
  unfold kbind at 1, deadline_after_ms. unfold kbind at 1, read_tsc, kret.
  set (d := deadline_at _ _ _) in *. unfold kbind at 1, kget at 1. unfold kbind at 1.
  set (k1 := k <| ks_reads ::= S |>). set (f := suspend _ _).
  pose proof (cpu_ok_same k k1 eq_refl eq_refl Hc) as Hc1.
  destruct (cpu_current _ Hc1) as (p & Hp & _).
  destruct (modify_current_ok k1 p f (cpu_wf _ Hc1) Hp) as (i & Hl & _ & Hmod).
  destruct (park k1 ((ks_frame k1) <| rax := STATUS_OK |>) (PsSleeping d) Hc1 ltac:(done))
    as (k2 & Hrun2 & Hp2). change (suspend _ (PsSleeping d)) with f in Hrun2. rewrite Hrun2. cbn [negb].
  rewrite Hmod in Hrun2. injection Hrun2 as <-. set (k2 := k1 <| ks_rt ::= _ |>) in *.
  destruct (schedule_ends env true true k2 (pk_wf _ Hp2)) as [fuel0 Hf].
  { intros q d' s' Hq Hs. change (rt_processes (ks_rt k2)) with
      (modify_process_at (rt_processes (ks_rt k)) i f) in Hq.
    destruct (modify_process_at_live (rt_processes (ks_rt k)) i f (cpu_wf _ Hc)) as [_ Hl2]; [done|].
    rewrite Hl2 in Hq. apply list_elem_of_alter in Hq as [Hq|(x & _ & ->)]; [by eapply Hpass|].
    cbn in Hs. by injection Hs as <- _. }
  exists fuel0. intros fuel Hfuel. unfold kbind at 1. destruct (Hf fuel Hfuel) as [[r3 k3] Hrun3].
  unfold schedule_next_ready. rewrite Hrun3.
  pose proof (schedule_run env fuel true true k2 (pk_wf _ Hp2)) as Hs. rewrite Hrun3 in Hs.
  destruct Hs as (b & -> & _). destruct b; [by eexists|]. unfold kbind.
  unfold modify_current_process. by destruct (modify_current _ _).
Qed.
End blocking.

(** * Claims *)

(** a delay of less than half the counter's range that does not run over
    its end expires exactly when that many ticks have passed: a later reading
    of the counter reaches the deadline if and only if it is at least the
    reading at the start plus the delay. *)
Theorem deadline_on_time (now ticks_per_ms milliseconds later : Z) :
  is_u64 now → is_u64 later → (0 ≤ milliseconds * ticks_per_ms < 2 ^ 63)%Z →
  (now + milliseconds * ticks_per_ms ≤ u64_max)%Z → (now ≤ later)%Z →
  (later < now + milliseconds * ticks_per_ms + 2 ^ 63)%Z →
  deadline_reached later (deadline_at now ticks_per_ms milliseconds) = true ↔
  (now + milliseconds * ticks_per_ms ≤ later)%Z.
Proof.
  unfold deadline_at, sat_add, sat_mul. intros Hn Hl Hd Ho Hle Hlt.
  set (delay := (milliseconds * ticks_per_ms)%Z) in *. unfold is_u64 in *.
  assert (delay ≤ u64_max)%Z by (unfold u64_max in *; lia).
  rewrite (Z.min_l delay), (Z.min_l (now + delay)) by lia.
  rewrite deadline_reached_near; [apply Z.leb_le|unfold is_u64; lia|unfold is_u64; lia|lia].
Qed.

Lemma deadline_on_time_witness :
  deadline_reached 5999999 (deadline_at 1000000 1000 5000) = false ∧
  deadline_reached 6000000 (deadline_at 1000000 1000 5000) = true.
Proof.
  split; [vm_compute; reflexivity|].
  apply (deadline_on_time 1000000 1000 5000 6000000);
    unfold is_u64, u64_max; lia.
Defined.

(** The limit of the above is real: the deadline of a delay of more than
    half the counter's range is taken for one in the past and is reached at
    once, because it is saturated and then compared as a signed difference. *)
Theorem long_delay_expires_at_once (now ticks_per_ms milliseconds : Z) :
  (0 ≤ now < 2 ^ 63 - 1)%Z → (2 ^ 63 < milliseconds * ticks_per_ms)%Z →
  deadline_reached now (deadline_at now ticks_per_ms milliseconds) = true.
Proof.
  intros Hn Hd. unfold deadline_at, sat_add, sat_mul.
  apply deadline_reached_far; unfold is_u64, u64_max in *; lia.
Qed.

Lemma long_delay_expires_at_once_witness :
  deadline_reached 5 (deadline_at 5 FALLBACK_TSC_TICKS_PER_MS u64_max) = true.
Proof.
  apply (long_delay_expires_at_once 5 FALLBACK_TSC_TICKS_PER_MS u64_max);
    unfold FALLBACK_TSC_TICKS_PER_MS, u64_max; lia.
Defined.

(** A timer tick wakes exactly the processes whose deadline has passed:
    each becomes ready with the status of its wait (success for a sleep,
    time-out for a receive or an interrupt wait), every other process and
    everything else is unchanged, the result counts the woken ones, and none
    that is due is left. *)
Theorem wake_timed_exact (now : Z) (rt : RuntimeState) :
  ptable_wf (rt_processes rt) →
  let '(n, rt') := wake_timed_processes now rt in
  ptable_wf (rt_processes rt') ∧
  rt' = rt <| rt_processes := rt_processes rt' |> ∧
  pt_current (rt_processes rt') = pt_current (rt_processes rt) ∧
  n = length (filter (λ p, timed_out now p = true) (live_processes (rt_processes rt))) ∧
  Forall (λ p, timed_out now p = false) (live_processes (rt_processes rt')) ∧
  Forall2 (λ p p',
    match timed_state (p_state p) with
    | Some (deadline, status) =>
        if deadline_reached now deadline then p' = wake_with status p else p' = p
    | None => p' = p
    end) (live_processes (rt_processes rt)) (live_processes (rt_processes rt')).
Proof.
  intros Hwf. pose proof (wake_timed_processes_live now rt Hwf) as H.
  destruct (wake_timed_processes now rt) as [n rt']. destruct H as (Hwf' & Hl & Hn & Hrt & Hc & _).
  split_and!; [done|done|done|done| |]; rewrite Hl.
  - apply Forall_fmap, Forall_forall. intros p _. cbn.
    destruct (timed_out now p) eqn:Ht; [|by rewrite wake_timed_not_due].
    by destruct (wake_timed_due now p Ht) as (d & s & _ & _ & ->).
  - apply Forall2_fmap_r, Forall_Forall2_diag, Forall_forall. intros p _. unfold wake_timed, compose.
    destruct (timed_state (p_state p)) as [[d s]|]; [|done]. by destruct (deadline_reached now d).
Qed.

(** Two processes; the first runs, the second sleeps until 100. *)
Definition sleepy_table : ProcessTable :=
  modify_process_at (modify_process_at (set_current sample_table 1) 0 set_running) 1
    (λ p, p <| p_state := PsSleeping 100 |>).
Definition sleepy_system : RuntimeState := runtime_new <| rt_processes := sleepy_table |>.

Lemma sleepy_table_wf : ptable_wf sleepy_table.
Proof.
  unfold sleepy_table. apply modify_process_at_live; [|done]. apply modify_process_at_live; [|done].
  destruct sample_table_wf. by split.
Qed.

Lemma wake_timed_exact_witness :
  (wake_timed_processes 99 sleepy_system).1 = 0 ∧
  (wake_timed_processes 100 sleepy_system).1 = 1 ∧
  ptable_wf (rt_processes (wake_timed_processes 100 sleepy_system).2).
Proof.
  split; [vm_compute; reflexivity|]. split; [vm_compute; reflexivity|].
  exact (proj1 (wake_timed_exact 100 sleepy_system sleepy_table_wf)).
Defined.

(** C8: when exactly one process runs, it is the current one and the address
    space in use is its own, then the same holds again when [sleep_ms],
    [irq_wait], [block_current_on_endpoint] or [block_current_on_interrupt]
    returns, whatever it returns and whatever interrupts arrive while the
    kernel waits inside it. The calls that wait for a VFS service are not
    among them: an error path of theirs returns with the caller blocked. *)
Theorem blocking_calls_keep_cpu `{UserMemory} (env : Env) (fuel : nat) (k k' : KernelState)
    (r : Result IpcError unit) (b : Result IpcError bool) :
  cpu_ok k →
  (∀ slot ms, sleep_ms env fuel slot ms k = Some (r, k') → cpu_ok k') ∧
  (∀ slot ms, irq_wait env fuel slot ms k = Some (r, k') → cpu_ok k') ∧
  (∀ interrupt timeout,
     block_current_on_interrupt env fuel interrupt timeout k = Some (b, k') → cpu_ok k') ∧
  (∀ endpoint cap_id destination max_len timeout,
     block_current_on_endpoint env fuel endpoint cap_id destination max_len timeout k = Some (b, k') →
     cpu_ok k').
Proof.
  intros Hc. split_and!; intros.
  - by eapply sleep_ms_cpu.
  - by eapply irq_wait_cpu.
  - by eapply block_on_interrupt_cpu.
  - by eapply block_on_endpoint_cpu.
Qed.

(** A clock that ticks by ten, without interrupts. *)
Definition plain_env : Env := mkEnv (λ i, Z.of_nat i * 10)%Z (λ _, []) 1.
Definition sleepy_kernel : KernelState :=
  mkKernelState sleepy_system (λ _ _, 0%Z) 0 frame_empty 0 0 devices_new.

Lemma sleepy_cpu_ok : cpu_ok sleepy_kernel.
Proof.
  split.
  - exact sleepy_table_wf.
  - eexists. split; [vm_compute; reflexivity|]. done.
  - assert (Hl : map (λ q, (p_pid q, bool_decide (p_state q = PsRunning))) (live_processes sleepy_table) =
                 [(1%Z, true); (2%Z, false)]) by (vm_compute; reflexivity).
    intros q Hq Hr. change (rt_processes (ks_rt sleepy_kernel)) with sleepy_table in Hq.
    apply (list_elem_of_fmap_2 (λ q, (p_pid q, bool_decide (p_state q = PsRunning)))) in Hq.
    change (fmap ?f ?l) with (map f l) in Hq. rewrite Hl, bool_decide_true in Hq by done.
    change (pt_current (rt_processes (ks_rt sleepy_kernel))) with (Some 1%Z).
    apply elem_of_cons in Hq as [[= ->]|Hq]; [done|].
    apply list_elem_of_singleton in Hq. done.
Qed.

Lemma blocking_calls_keep_cpu_witness :
  ∃ k', block_current_on_endpoint plain_env 20 1 1 0 16 None sleepy_kernel = Some (Ok true, k') ∧
        cpu_ok k'.
Proof.
  assert (Hok : match block_current_on_endpoint plain_env 20 1 1 0 16 None sleepy_kernel with
                | Some (Ok b, _) => b
                | _ => false
                end = true) by (vm_compute; reflexivity).
  destruct (block_current_on_endpoint plain_env 20 1 1 0 16 None sleepy_kernel) as [[[[]|e] k']|] eqn:Hrun;
    try discriminate Hok.
  exists k'. split; [reflexivity|].
  destruct (blocking_calls_keep_cpu plain_env 20 sleepy_kernel k' (Ok tt) (Ok true) sleepy_cpu_ok)
    as (_ & _ & _ & H). exact (H 1%Z 1%Z 0%Z 16%Z None Hrun).
Defined.

(** C7: the scheduler first only waits (nobody runs, processes are at most
    woken). It answers that it switched when afterwards some process is ready
    that it may choose (with [include_current] unset the current process is
    left out): then it continues the first such process in round-robin order
    after the current one, with the frame that process was suspended with (or
    a fresh one), as the current and running process and in its address space.
    It answers that it did not switch only when no such process is ready, and,
    when it was asked to wait and the clock does not fall back behind a
    deadline it has passed, only when no process waits with a deadline any
    more, or when the process it must not choose is the one whose timed wait
    has ended. There is no other answer. *)
Theorem schedule_exact `{UserMemory} (env : Env) (fuel : nat) (include_current wait : bool)
    (k k' : KernelState) (r : Result IpcError bool) :
  ptable_wf (rt_processes (ks_rt k)) →
  schedule_next_ready_inner env fuel include_current wait k = Some (r, k') →
  ∃ k1, quiet k k1 ∧ let t := rt_processes (ks_rt k1) in
    ((r = Ok true ∧ ∃ i p, live_processes t !! i = Some p ∧ runnable include_current t p ∧
        (∀ j q, live_processes t !! j = Some q → runnable include_current t q →
                search_rank t i ≤ search_rank t j) ∧
        ks_frame k' = (if p_has_saved_frame p then p_saved_frame p else from_context (p_context p)) ∧
        ks_cr3 k' = cr3 (p_context p) ∧ ks_mem k' = ks_mem k1 ∧
        current_process (rt_processes (ks_rt k')) = Some (p <| p_state := PsRunning |>) ∧
        live_processes (rt_processes (ks_rt k')) = alter set_running i (live_processes t)) ∨
     (r = Ok false ∧ k' = k1 ∧ (∀ p, ¬ runnable include_current t p) ∧
        (wait = true →
         (∀ p d s, p ∈ live_processes (rt_processes (ks_rt k)) →
                   timed_state (p_state p) = Some (d, s) → clock_steady env d) →
         (∀ p, p ∈ live_processes t → timed_state (p_state p) = None) ∨
         include_current = false ∧
         ∃ p0 p, p0 ∈ live_processes (rt_processes (ks_rt k)) ∧
           is_Some (timed_state (p_state p0)) ∧ woken p0 p ∧
           p ∈ live_processes t ∧ p_state p = PsReady ∧ pt_current t = Some (p_pid p)))).
Proof.
  intros Hwf Hrun. pose proof (schedule_run env fuel include_current wait k Hwf) as Hs.
  rewrite Hrun in Hs. destruct Hs as (b & -> & k1 & Hq & Hb). exists k1. split; [done|].
  pose proof (qu_wf _ _ Hq Hwf) as Hwf1. intros t.
  pose proof (next_ready_runnable t include_current Hwf1) as Hn. destruct b; [left|right].
  - destruct Hb as (i & p & Hi & Hp & Hr & ->). unfold t in Hn. rewrite Hi in Hn.
    destruct Hn as (q & Hq' & Hrun' & Hmin). rewrite Hp in Hq'. injection Hq' as <-. split; [done|].
    destruct (modify_process_at_live (rt_processes (ks_rt k1)) i set_running Hwf1) as [Hwf2 Hl2]; [done|].
    exists i, p. split_and!; [done|done|done|done|done|done| |exact Hl2].
    unfold current_process; cbn. refine (proj2 (process_live _ _ _ Hwf2) _).
    split; [|done]. rewrite Hl2. eapply list_elem_of_lookup_2.
    by rewrite list_lookup_alter_eq, Hp.
  - destruct Hb as [Hi ->]. unfold t in Hn. rewrite Hi in Hn. split_and!; [done|done|done|].
    intros -> Hst. destruct (schedule_gives_up env fuel include_current k k1 Hwf Hst Hrun)
      as [?|(j & p0 & p & H0 & Ht & Hp & Hr & Hw)]; [by left|right].
    apply list_elem_of_lookup_2 in H0, Hp. specialize (Hn p).
    destruct include_current; [by destruct Hn; split_and!; [|..|left]|]. split; [done|].
    exists p0, p. split_and!; try done.
    destruct (decide (pt_current t = Some (p_pid p))); [done|]. destruct Hn. split_and!; [done|done|by right].
Qed.

Lemma schedule_exact_witness :
  ∃ r k' k1, schedule_next_ready_inner plain_env 20 false true sleepy_kernel = Some (r, k') ∧
    quiet sleepy_kernel k1.
Proof.
  assert (Hok : match schedule_next_ready_inner plain_env 20 false true sleepy_kernel with
                | Some (Ok b, _) => b
                | _ => false
                end = true) by (vm_compute; reflexivity).
  destruct (schedule_next_ready_inner plain_env 20 false true sleepy_kernel) as [[r k']|] eqn:Hrun;
    [|discriminate Hok].
  destruct (schedule_exact plain_env 20 false true sleepy_kernel k' r sleepy_table_wf Hrun)
    as (k1 & Hq & _).
  exists r, k', k1. split; [reflexivity|exact Hq].
Defined.

(** C38: sleeping and scheduling return: if the clock eventually passes the
    deadlines that processes wait for, and the one of the sleep itself, then
    with enough rounds (the fuel of the model) [sleep_ms] and the scheduler
    always come to an end, whatever interrupts happen meanwhile. *)
Theorem sleep_returns `{UserMemory} (env : Env) (k : KernelState) (slot ms : Z) (inc wait : bool) :
  cpu_ok k →
  (∀ p d s, p ∈ live_processes (rt_processes (ks_rt k)) →
            timed_state (p_state p) = Some (d, s) → clock_passes env d) →
  clock_passes env (deadline_at (env_tsc env (ks_reads k)) (env_ticks_per_ms env) ms) →
  ∃ fuel0, ∀ fuel, fuel0 ≤ fuel →
    is_Some (sleep_ms env fuel slot ms k) ∧
    is_Some (schedule_next_ready_inner env fuel inc wait k).
Proof.
  intros Hc Hp Hd. destruct (sleep_ms_ends env slot ms k Hc Hp Hd) as [f1 H1].
  destruct (schedule_ends env inc wait k (cpu_wf _ Hc) Hp) as [f2 H2].
  exists (max f1 f2). intros fuel Hf. split; [apply H1; lia|apply H2; lia].
Qed.

(** A clock that stops at 10000. *)
Definition stopping_env : Env := mkEnv (λ i, Z.min (Z.of_nat i * 10) 10000) (λ _, []) 1.

Lemma stopping_clock_passes d : (0 ≤ d ≤ 10000)%Z → clock_passes stopping_env d.
Proof.
  intros Hd. exists 1000. intros i Hi. cbn.
  rewrite deadline_reached_near; unfold is_u64, u64_max; lia.
Qed.

Lemma sleep_returns_witness :
  ∃ fuel0, ∀ fuel, fuel0 ≤ fuel → is_Some (sleep_ms stopping_env fuel 0 5 sleepy_kernel).
Proof.
  destruct (sleep_returns stopping_env sleepy_kernel 0 5 true true sleepy_cpu_ok) as [fuel0 H0].
  - assert (Hl : forallb (λ q, match timed_state (p_state q) with
                               | Some (d, _) => (0 <=? d) && (d <=? 10000)
                               | None => true
                               end)%Z (live_processes sleepy_table) = true) by (vm_compute; reflexivity).
    intros p d s Hp Hs. apply Is_true_true, forallb_True in Hl.
    apply (proj1 (Forall_forall _ _) Hl p), Is_true_true in Hp. rewrite Hs in Hp.
    apply stopping_clock_passes. lia.
  - apply stopping_clock_passes. vm_compute. split; congruence.
  - exists fuel0. intros fuel Hf. exact (proj1 (H0 fuel Hf)).
Defined.
