(* ===== verification/ProcessProofs.v ===== *)
(** The life of processes: every process that has not ended owns an address space of its
    own, no address space is lost or torn down while it is in use, and a process that
    was released keeps nothing. *)

From S2P Require Import Prelude Frames Paging UserImage KernelBase Transport VfsPath KernelObjects ProcessRuntime ProcessTableProofs.
From S2P Require Import BootConfig BootPolicy CapRegistry VfsState Runtime Virtio Kernel ProcessMemory RealMemory Scheduler.
From S2P Require Import VfsTransactions VfsNodes BootGrants Ipc Devices ProcessSyscalls.
From S2P Require Import BootPolicyProofs CapabilityProofs BootGrantProofs Revocation SchedulerProofs.

(** * The process table by identifier *)

Lemma process_pid t pid p : ptable_wf t → process t pid = Some p → p_pid p = pid.
Proof. by intros Hwf [_ ?]%process_live. Qed.

Lemma process_modify_process t pid f q :
  ptable_wf t → (∀ p, p_pid (f p) = p_pid p) →
  process (modify_process t pid f).2 q = if decide (q = pid) then f <$> process t q else process t q.
Proof.
  intros Hwf Hf. destruct (process t pid) as [p|] eqn:Hp.
  - destruct (modify_process_found t pid p f Hwf Hp) as (i & Hi & _ & ->). cbn. case_decide as Hq.
    + subst q. rewrite Hp. by apply process_modify.
    + by eapply process_modify_other.
  - assert (Hi : process_index t pid = None).
    { apply process_index_None; [done|]. intros (p & -> & Hin)%list_elem_of_fmap.
      by rewrite (proj2 (process_live t (p_pid p) p Hwf)) in Hp. }
    unfold modify_process. rewrite Hi. cbn. case_decide as Hq; [|done]. subst q. by rewrite Hp.
Qed.

Lemma modify_process_wf t pid f :
  ptable_wf t → (∀ p, p_pid (f p) = p_pid p) → ptable_wf (modify_process t pid f).2.
Proof.
  intros Hwf Hf. unfold modify_process. destruct (process_index t pid); [|done]. by apply modify_process_at_live.
Qed.

Lemma modify_process_current t pid f : pt_current (modify_process t pid f).2 = pt_current t.
Proof. unfold modify_process. by destruct (process_index t pid). Qed.

Lemma process_at_index t i f pid p :
  ptable_wf t → (∀ p, p_pid (f p) = p_pid p) → live_processes t !! i = Some p → p_pid p = pid →
  modify_process_at t i f = (modify_process t pid f).2.
Proof.
  intros Hwf Hf Hi Hpid. unfold modify_process.
  assert (Hx : process_index t pid = Some i) by (apply process_index_live; eauto). by rewrite Hx.
Qed.

Lemma modify_process_at_const t i p f :
  mjoin (pt_processes t !! i) = Some p → modify_process_at t i (λ _, f p) = modify_process_at t i f.
Proof.
  intros Hp. unfold modify_process_at, set; cbn. f_equal. apply list_eq. intros j.
  destruct (decide (i = j)) as [->|Hne]; [|by rewrite !list_lookup_alter_ne].
  rewrite !list_lookup_alter_eq. destruct (pt_processes t !! j) as [[q|]|]; by simplify_eq/=.
Qed.

(** * What the small steps leave alone *)

(** A process is changed at most by a wake-up, in its capabilities, its handles, and by
    the loss of DMA mappings. *)
Record kept (p p' : Process) : Prop := mk_kept {
  kp_pid : p_pid p' = p_pid p;
  kp_context : p_context p' = p_context p;
  kp_reaped : p_context_reaped p' = p_context_reaped p;
  kp_state : p_state p' = p_state p ∨ p_state p ≠ PsRunning ∧ p_state p ≠ PsExited ∧ p_state p' = PsReady;
  kp_dma m : Some m ∈ p_dma_mappings p' → Some m ∈ p_dma_mappings p
}.

#[export] Instance kept_preorder : PreOrder kept.
Proof.
  split; [intros p; by split; [..|left|]|]. intros p q r [P1 C1 R1 S1 D1] [P2 C2 R2 S2 D2].
  split; [congruence..| |eauto]. destruct S1 as [S1|(S1 & S1' & S1'')], S2 as [S2|(S2 & S2' & S2'')].
  - left. congruence.
  - right. rewrite S1 in *. done.
  - right. by rewrite S2.
  - right. done.
Qed.

Lemma kept_running p p' : kept p p' → p_state p' = PsRunning ↔ p_state p = PsRunning.
Proof. intros [_ _ _ [->|(? & ? & H)] _]; [done|]. rewrite H. naive_solver. Qed.
Lemma kept_exited p p' : kept p p' → p_state p' = PsExited ↔ p_state p = PsExited.
Proof. intros [_ _ _ [->|(? & ? & H)] _]; [done|]. rewrite H. naive_solver. Qed.

Record kept_table (t t' : ProcessTable) : Prop := mk_kept_table {
  kt_wf : ptable_wf t → ptable_wf t';
  kt_current : pt_current t' = pt_current t;
  kt_next : pt_next_id t' = pt_next_id t;
  kt_process : ptable_wf t → ∀ pid, option_Forall2 kept (process t pid) (process t' pid);
  kt_pids : ptable_wf t → p_pid <$> live_processes t' = p_pid <$> live_processes t
}.

#[export] Instance kept_table_preorder : PreOrder kept_table.
Proof.
  split; [intros t; split; [done..| |done]|].
  - intros _ pid. by destruct (process t pid); constructor.
  - intros t1 t2 t3 [W1 C1 N1 P1 L1] [W2 C2 N2 P2 L2].
    split; [eauto|congruence|congruence| |intros Hwf; by rewrite L2, L1 by eauto].
    intros Hwf pid. specialize (P1 Hwf pid). specialize (P2 (W1 Hwf) pid).
    destruct P1; inversion P2; constructor. by etransitivity.
Qed.

Lemma kept_table_map t f :
  (∀ p, kept p (f p)) → kept_table t (t <| pt_processes ::= λ l, map_upto (fmap f) l (pt_count t) |>).
Proof.
  intros Hf. assert (Hpid : ∀ p, p_pid (f p) = p_pid p) by (intros p; apply Hf). split; [|done|done| |].
  - intros Hwf. by apply map_processes_live.
  - intros Hwf pid. destruct (map_processes_live t f Hwf Hpid) as [Hwf' Hl].
    set (t' := t <| pt_processes ::= _ |>) in *. destruct (process t pid) as [p|] eqn:Hp.
    + apply process_live in Hp as [Hin <-]; [|done].
      rewrite (proj2 (process_live t' (p_pid p) (f p) Hwf')); [by constructor|].
      rewrite Hl. split; [by apply list_elem_of_fmap_2|apply Hpid].
    + destruct (process t' pid) as [q|] eqn:Hq; [|constructor].
      apply process_live in Hq as [Hin <-]; [|done]. rewrite Hl in Hin.
      apply list_elem_of_fmap in Hin as (p & -> & Hin).
      rewrite (proj2 (process_live t (p_pid (f p)) p Hwf)) in Hp; [done|]. split; [done|by rewrite Hpid].
  - intros Hwf. destruct (map_processes_live t f Hwf Hpid) as [_ ->].
    rewrite <-list_fmap_compose. apply list_fmap_ext. intros i p _. apply Hpid.
Qed.

Lemma modify_at_pids t i f :
  ptable_wf t → (∀ p, p_pid (f p) = p_pid p) →
  p_pid <$> live_processes (modify_process_at t i f) = p_pid <$> live_processes t.
Proof.
  intros Hwf Hpid. destruct (modify_process_at_live t i f Hwf Hpid) as [_ ->]. apply list_eq. intros j.
  rewrite !list_lookup_fmap. destruct (decide (i = j)) as [->|Hne]; [|by rewrite list_lookup_alter_ne].
  rewrite list_lookup_alter_eq. destruct (live_processes t !! j); cbn; [by rewrite Hpid|done].
Qed.

Lemma kept_table_modify t pid f :
  (∀ p, process t pid = Some p → kept p (f p)) → (∀ p, p_pid (f p) = p_pid p) →
  kept_table t (modify_process t pid f).2.
Proof.
  intros Hf Hpid. split; [intros Hwf; by apply modify_process_wf|apply modify_process_current|..].
  - unfold modify_process. by destruct (process_index t pid).
  - intros Hwf q. rewrite process_modify_process by done. case_decide as Hq.
    + subst q. destruct (process t pid) as [p|] eqn:Hp; constructor. by apply Hf.
    + by destruct (process t q); constructor.
  - intros Hwf. unfold modify_process. destruct (process_index t pid); [|done]. by apply modify_at_pids.
Qed.

Lemma kept_table_modify_at t i f :
  (∀ p, mjoin (pt_processes t !! i) = Some p → kept p (f p)) → (∀ p, p_pid (f p) = p_pid p) →
  kept_table t (modify_process_at t i f).
Proof.
  intros Hf Hpid.
  split; [intros Hwf; by apply modify_process_at_live|done|done| |intros Hwf; by apply modify_at_pids].
  intros Hwf pid. rewrite !process_via_index, process_index_modify by done.
  destruct (process_index t pid) as [j|]; [|constructor]. cbn.
  destruct (decide (i = j)) as [->|Hne].
  - rewrite list_lookup_alter_eq. destruct (pt_processes t !! j) as [[p|]|]; constructor. by apply Hf.
  - rewrite list_lookup_alter_ne by done. destruct (pt_processes t !! j) as [[p|]|]; constructor. done.
Qed.

(** The same for the whole runtime state. *)
Record rt_kept (rt rt' : RuntimeState) : Prop := mk_rt_kept {
  rk_table : kept_table (rt_processes rt) (rt_processes rt');
  rk_config : rt_active_config rt' = rt_active_config rt;
  rk_templates : rt_process_template_pids rt' = rt_process_template_pids rt
}.

#[export] Instance rt_kept_preorder : PreOrder rt_kept.
Proof.
  split; [by split|]. intros r1 r2 r3 [T1 C1 P1] [T2 C2 P2]. split; [by etransitivity|congruence..].
Qed.

Lemma rt_kept_same rt rt' :
  rt_processes rt' = rt_processes rt → rt_active_config rt' = rt_active_config rt →
  rt_process_template_pids rt' = rt_process_template_pids rt → rt_kept rt rt'.
Proof. intros Hp Hc Ht. split; [by rewrite Hp|done|done]. Qed.

Lemma rt_kept_table rt t : kept_table (rt_processes rt) t → rt_kept rt (rt <| rt_processes := t |>).
Proof. by intros Ht. Qed.

Lemma kept_wake status p :
  p_state p ≠ PsRunning → p_state p ≠ PsExited → kept p (wake_with status p).
Proof. intros H1 H2. split; [done..|by right|done]. Qed.

Lemma kept_handles p : kept p (clear_file_handles p).
Proof. split; [done..|by left|done]. Qed.

Lemma rt_kept_cancel cancels status fuel : ∀ index rt n,
  rt_kept rt (cancel_receivers_from cancels status rt index fuel n).2.
Proof.
  induction fuel as [|fuel IH]; intros index rt n; cbn [cancel_receivers_from]; [done|].
  destruct (mjoin _) as [p|] eqn:Hp; [|apply IH]. destruct (cancels rt p); [|apply IH].
  unfold cancel_blocked_endpoint_waiter_at. rewrite Hp.
  destruct (p_state p) eqn:Hs; try apply IH. etransitivity; [|apply IH].
  split; [|done|done]. apply kept_table_modify_at; [|done]. intros q Hq.
  rewrite Hp in Hq. injection Hq as <-. apply kept_wake; by rewrite Hs.
Qed.

Lemma rt_kept_cancel_owner pid rt : rt_kept rt (cancel_owner pid rt).
Proof. apply rt_kept_cancel. Qed.

Lemma rt_kept_descriptions pid rt : rt_kept rt (release_descriptions pid rt).
Proof. by apply rt_kept_same. Qed.

Lemma rt_kept_lifecycle rt service state status : rt_kept rt (record_service_lifecycle rt service state status).
Proof. unfold record_service_lifecycle. destruct (_ <? _); by apply rt_kept_same. Qed.

Lemma rt_kept_release_roots rt : rt_kept rt (release_unreferenced_derived_vfs_roots rt).
Proof.
  unfold release_unreferenced_derived_vfs_roots.
  assert (H : ∀ fuel index rt0, match release_roots_loop fuel index rt0 with
                                | Some rt1 => rt_kept rt0 rt1 | None => True end).
  { induction fuel as [|fuel IH]; intros index rt0; cbn [release_roots_loop]; [done|].
    destruct (index <? _); [|done]. destruct (mjoin _) as [o|]; [|apply IH]. destruct o; try apply IH.
    destruct (_ && _); [|apply IH]. destruct (remove_derived_vfs_root _ _) as [[] t]; [|apply IH].
    set (rt1 := rt0 <| rt_objects := t |>). specialize (IH index rt1).
    destruct (release_roots_loop fuel index rt1); [|done]. etransitivity; [|exact IH]. by apply rt_kept_same. }
  specialize (H release_roots_fuel 0 rt). by destruct (release_roots_loop _ _ _).
Qed.

Lemma rt_kept_bind_mounts dynamic rt pid : rt_kept rt (remove_owned_bind_mounts dynamic rt pid).2.
Proof.
  unfold remove_owned_bind_mounts.
  assert (H : ∀ fuel index removed rt0,
    rt_kept rt0 (remove_bind_mounts_from dynamic pid rt0 index fuel removed).2).
  { induction fuel as [|fuel IH]; intros index removed rt0; cbn [remove_bind_mounts_from]; [done|].
    destruct (mjoin _) as [o|]; [|apply IH]. destruct o; try apply IH.
    destruct (is_owned_bind_mount _ _ _); [|apply IH]. etransitivity; [|apply IH].
    unfold remove_vfs_mount_id. repeat case_match; by apply rt_kept_same. }
  specialize (H (count (rt_objects rt)) 0 0 rt). destruct (remove_bind_mounts_from _ _ _ _ _ _) as [n rt1].
  etransitivity; [exact H|]. by apply rt_kept_same.
Qed.

Lemma rt_kept_drop_messages id rt : rt_kept rt (drop_kernel_messages id rt).
Proof. unfold drop_kernel_messages. repeat case_match; by apply rt_kept_same. Qed.

Lemma rt_kept_abort_state status rt : rt_kept rt (abort_vfs_state_transactions status rt).
Proof.
  unfold abort_vfs_state_transactions. destruct (state_vfs_reply_endpoint _) as [reply|];
    [|apply rt_kept_drop_messages]. etransitivity; [apply rt_kept_drop_messages|].
  split; [|done|done]. apply kept_table_map. intros p. unfold waits_for_vfs_state.
  destruct (p_state p) eqn:Hs; try done. destruct (_ =? _)%Z; [|done]. by apply kept_wake; rewrite Hs.
Qed.

Lemma rt_kept_abort_sync status rt : rt_kept rt (abort_vertexfs_sync_transactions status rt).
Proof.
  unfold abort_vertexfs_sync_transactions. destruct (vertexfs_device_reply_endpoint _) as [reply|];
    [|apply rt_kept_drop_messages].
  etransitivity; [apply (rt_kept_drop_messages (vertexfs_device_request_endpoint (rt_services rt)))|].
  generalize (drop_kernel_messages (vertexfs_device_request_endpoint (rt_services rt)) rt) as rt0.
  intros rt0. generalize (seq 0 (pt_count (rt_processes rt0))) as l. intros l. revert rt0.
  induction l as [|i l IH]; intros rt0; [reflexivity|]. cbn. etransitivity; [|apply IH].
  unfold abort_vertexfs_sync_at. destruct (mjoin _) as [p|] eqn:Hp; [|done].
  destruct (p_state p) eqn:Hs; try done. destruct (_ =? _)%Z; [|done].
  split; [|done|done]. apply kept_table_modify_at; [|done]. cbn. intros q Hq.
  rewrite Hp in Hq. injection Hq as <-. by apply kept_wake; rewrite Hs.
Qed.

Lemma rt_kept_abort_services name rt : rt_kept rt (abort_services name rt).
Proof.
  unfold abort_services. etransitivity; [|case_bool_decide; [apply rt_kept_abort_sync|done]].
  case_bool_decide; [apply rt_kept_abort_state|done].
Qed.

(** A call of the boot code that keeps the runtime state, whatever it returns. *)
Definition init_keeps {A} (c : Init A) : Prop := ∀ rt, rt_kept rt (c rt).2.

Lemma init_keeps_bind {A B} (c : Init A) (f : A → Init B) :
  init_keeps c → (∀ a, init_keeps (f a)) → init_keeps (rbind c f).
Proof.
  intros Hc Hf rt. unfold rbind. specialize (Hc rt). destruct (c rt) as [[a|e] rt1]; [|done].
  etransitivity; [exact Hc|apply Hf].
Qed.

Lemma init_keeps_state {A} (c : Init A) : (∀ rt, (c rt).2 = rt) → init_keeps c.
Proof. intros Hc rt. by rewrite Hc. Qed.

Lemma install_mounts_keeps process pid root : init_keeps (install_declared_process_mounts process pid root).
Proof.
  unfold install_declared_process_mounts. generalize (counted (bp_mounts process)) as l, 0%Z as n.
  induction l as [|[m|] l IH]; intros n; cbn [install_declared_mounts]; [done| |done].
  apply init_keeps_bind; [|intros; apply IH]. intros rt. unfold install_declared_mount.
  destruct (let? _ := _ in _) as [[[source_node destination] flags]|e]; [|done].
  unfold rt_add_vfs_mount. repeat case_match; simplify_eq/=; by apply rt_kept_same.
Qed.

Lemma grant_new_capability_keeps object rights owner slot : init_keeps (grant_new_capability object rights owner slot).
Proof.
  apply init_keeps_bind.
  - intros rt. unfold mint_capability, rt_new_capability. destruct (new_capability _ _ _ _ _ _ _) as [r reg].
    by apply rt_kept_same.
  - intros cap rt. unfold grant_process_cap_by_pid. destruct (process _ owner) as [p|]; [|done].
    destruct (cspace_grant (p_caps p) slot cap) as [[] caps]; [|done].
    destruct (cspace_grant (p_initial_caps p) slot cap) as [[] initial]; [|done].
    split; [|done|done]. apply kept_table_modify; [|done]. intros q _. split; [done..|by left|done].
Qed.

(** What every single grant keeps, the grants of a process keep, also when they fail. *)
Lemma grant_caps_invariant (P : RuntimeState → Prop) c index owner :
  (∀ object rights slot rt, P rt → P (grant_new_capability object rights owner slot rt).2) →
  ∀ rt, P rt → P (grant_config_caps_to_process c index owner rt).2.
Proof.
  intros Hg.
  assert (Hbind : ∀ A B (a : Init A) (f : A → Init B), (∀ rt, P rt → P (a rt).2) → (∀ x rt, P rt → P (f x rt).2) →
                    ∀ rt, P rt → P (rbind a f rt).2).
  { intros A B a f Ha Hf rt Hrt. apply Ha in Hrt. unfold rbind. destruct (a rt) as [[x|e] rt1]; [by apply Hf|done]. }
  assert (Hguard : ∀ b e rt, P rt → P (rguard (E := InitError) b e rt).2) by (intros []; done).
  apply Hbind; [|intros _; apply Hbind; [done|]; intros process; apply Hbind; [|intros _]].
  - generalize (counted (cf_grants c)) as l. induction l as [|[g|] l IH]; cbn [grant_config_caps]; [done| |done].
    destruct (negb _); [done|]. apply Hbind; [done|]. intros rt. apply Hbind; [done|]. intros o. apply Hbind; auto.
  - unfold grant_logd_secret. destruct (str_eqb _ _); [|done]. apply Hbind; [by apply Hguard|].
    intros _. apply Hbind; [done|]. intros rt. apply Hbind; [done|]. intros o. apply Hg.
  - generalize native_grants as l. induction l as [|n l IH]; cbn [grant_natives]; [done|].
    apply Hbind; [|done]. unfold grant_native. destruct (str_eqb _ _); [|done].
    apply Hbind; [done|]. intros rt. destruct (ng_endpoint n _); [|done]. apply Hbind; [by apply Hguard|]. intros _. apply Hg.
Qed.

Lemma grant_caps_keeps c index owner : init_keeps (grant_config_caps_to_process c index owner).
Proof.
  intros rt. apply (grant_caps_invariant (rt_kept rt)); [|done].
  intros object rights slot rt1 H1. etransitivity; [exact H1|apply grant_new_capability_keeps].
Qed.

(** * Address spaces *)

(** The root tables of the processes that have one. *)
Definition live_roots (t : ProcessTable) : gset Z :=
  list_to_set (filter (λ r, r ≠ 0%Z) ((λ p, cr3 (p_context p)) <$> live_processes t)).

Lemma elem_of_live_roots t r :
  ptable_wf t → r ∈ live_roots t ↔ r ≠ 0%Z ∧ ∃ pid p, process t pid = Some p ∧ cr3 (p_context p) = r.
Proof.
  intros Hwf. unfold live_roots. rewrite elem_of_list_to_set, list_elem_of_filter, list_elem_of_fmap.
  split; intros [Hr Hx]; (split; [done|]).
  - destruct Hx as (p & -> & Hp). exists (p_pid p), p. split; [|done]. by apply process_live.
  - destruct Hx as (pid & p & [Hp _]%process_live & <-); [|done]. by exists p.
Qed.

Lemma kept_table_roots t t' : ptable_wf t → kept_table t t' → live_roots t' = live_roots t.
Proof.
  intros Hwf Hk. pose proof (kt_wf _ _ Hk Hwf) as Hwf'. apply set_eq. intros r.
  rewrite !elem_of_live_roots by done. split; intros (Hr & pid & p & Hp & Hc); (split; [done|]);
    exists pid; pose proof (kt_process _ _ Hk Hwf pid) as HF; rewrite Hp in HF; inversion HF as [q q' Hq|]; subst.
  - eexists. split; [done|]. by rewrite <-(kp_context _ _ Hq).
  - eexists. split; [done|]. by rewrite (kp_context _ _ Hq).
Qed.

Section spaces.
Context `{PM : ProcessMemory} (env : Env).

Local Abbreviation table k := (rt_processes (ks_rt k)).

(** Every process that has not ended has an address space, no two share one, and those
    are all the address spaces there are; DMA mappings are of device memory. *)
Record spaces_wf (k : KernelState) : Prop := mk_spaces_wf {
  sp_wf : ptable_wf (table k);
  sp_spaces : pm_spaces (live_roots (table k)) (ks_mem k);
  sp_own pid pid' p p' : process (table k) pid = Some p → process (table k) pid' = Some p' →
    cr3 (p_context p) ≠ 0%Z → cr3 (p_context p) = cr3 (p_context p') → pid = pid';
  sp_reaped pid p : process (table k) pid = Some p → p_context_reaped p = bool_decide (cr3 (p_context p) = 0%Z);
  sp_alive pid p : process (table k) pid = Some p → p_state p ≠ PsExited → cr3 (p_context p) ≠ 0%Z;
  sp_dma pid p m : process (table k) pid = Some p → Some m ∈ p_dma_mappings p →
    pm_device (dm_physical_base m) (dm_length m)
}.

(** The configuration is complete, and every process was made from an entry of it. *)
Definition config_ok (rt : RuntimeState) : Prop :=
  ∃ config, rt_active_config rt = Some config ∧
    cn_used (cf_processes config) ≤ length (rt_process_template_pids rt) ∧
    ∀ i, i < cn_used (cf_processes config) →
      ∃ process root, counted_get (cf_processes config) i = Some process ∧
        from_boot_root_path (bp_mount_root process) = Ok root.
Definition templates_ok (rt : RuntimeState) : Prop :=
  ∀ pid p, process (rt_processes rt) pid = Some p → is_Some (process_config_for_pid rt pid).

Record machine_ok (k : KernelState) : Prop := mk_machine_ok {
  mo_spaces : spaces_wf k;
  mo_cpu : cpu_ok k;
  mo_config : config_ok (ks_rt k);
  mo_templates : templates_ok (ks_rt k)
}.

(** The state between the suspension of the current process and the next choice. *)
Record machine_parked (k : KernelState) : Prop := mk_machine_parked {
  mp_spaces : spaces_wf k;
  mp_parked : parked k;
  mp_config : config_ok (ks_rt k);
  mp_templates : templates_ok (ks_rt k)
}.

Lemma kept_inv t t' pid p' :
  ptable_wf t → kept_table t t' → process t' pid = Some p' → ∃ p, process t pid = Some p ∧ kept p p'.
Proof. intros Hwf Hk Hp. pose proof (kt_process _ _ Hk Hwf pid) as HF. rewrite Hp in HF. inversion HF; eauto. Qed.

Lemma kept_fwd t t' pid p :
  ptable_wf t → kept_table t t' → process t pid = Some p → ∃ p', process t' pid = Some p' ∧ kept p p'.
Proof. intros Hwf Hk Hp. pose proof (kt_process _ _ Hk Hwf pid) as HF. rewrite Hp in HF. inversion HF; eauto. Qed.

Lemma spaces_kept_mem k k' :
  spaces_wf k → kept_table (table k) (table k') → pm_spaces (live_roots (table k)) (ks_mem k') → spaces_wf k'.
Proof.
  intros [W S O R A D] Hk Hm. pose proof (kt_wf _ _ Hk W) as W'. split; [done|..].
  - by rewrite (kept_table_roots _ _ W Hk).
  - intros pid pid' p1 p2 (q1 & H1 & K1)%(kept_inv _ _ _ _ W Hk) (q2 & H2 & K2)%(kept_inv _ _ _ _ W Hk).
    rewrite (kp_context _ _ K1), (kp_context _ _ K2). by eapply O.
  - intros pid p (q & Hq & K)%(kept_inv _ _ _ _ W Hk). rewrite (kp_context _ _ K), (kp_reaped _ _ K). by eapply R.
  - intros pid p (q & Hq & K)%(kept_inv _ _ _ _ W Hk). rewrite (kp_context _ _ K), (kept_exited _ _ K). by eapply A.
  - intros pid p m (q & Hq & K)%(kept_inv _ _ _ _ W Hk) Hm'%(kp_dma _ _ K). by eapply D.
Qed.

Lemma spaces_kept k k' :
  spaces_wf k → kept_table (table k) (table k') → ks_mem k' = ks_mem k → spaces_wf k'.
Proof. intros Hs Hk Hm. eapply spaces_kept_mem; [done|done|]. rewrite Hm. apply Hs. Qed.

Lemma cpu_kept k k' : cpu_ok k → kept_table (table k) (table k') → ks_cr3 k' = ks_cr3 k → cpu_ok k'.
Proof.
  intros [W (p & Hp & Hr & Hc) Ho] Hk Hcr. pose proof (kt_wf _ _ Hk W) as W'. split; [done|..].
  - unfold current_process in *. rewrite (kt_current _ _ Hk). destruct (pt_current (table k)) as [pid|]; [|done].
    cbn in *. destruct (kept_fwd _ _ _ _ W Hk Hp) as (p' & Hp' & K). exists p'.
    rewrite (kept_running _ _ K), (kp_context _ _ K), Hcr. done.
  - rewrite (kt_current _ _ Hk). intros q Hq Hqr.
    destruct (kept_inv _ _ (p_pid q) q W Hk) as (p0 & Hp0 & K); [by apply process_live|].
    rewrite (kp_pid _ _ K). apply Ho; [by apply process_live in Hp0 as []|by apply (kept_running _ _ K)].
Qed.

Lemma parked_kept k k' : parked k → kept_table (table k) (table k') → ks_cr3 k' = ks_cr3 k → parked k'.
Proof.
  intros [W (p & Hp & Hc) Hn] Hk Hcr. pose proof (kt_wf _ _ Hk W) as W'. split; [done|..].
  - unfold current_process in *. rewrite (kt_current _ _ Hk). destruct (pt_current (table k)) as [pid|]; [|done].
    cbn in *. destruct (kept_fwd _ _ _ _ W Hk Hp) as (p' & Hp' & K). exists p'.
    rewrite (kp_context _ _ K), Hcr. done.
  - apply Forall_forall. intros q Hq.
    destruct (kept_inv _ _ (p_pid q) q W Hk) as (p0 & Hp0 & K); [by apply process_live|].
    rewrite (kept_running _ _ K). rewrite Forall_forall in Hn. apply Hn. by apply process_live in Hp0 as [].
Qed.

Lemma config_kept rt rt' : config_ok rt → rt_kept rt rt' → config_ok rt'.
Proof. intros Hc [_ C T]. unfold config_ok. by rewrite C, T. Qed.

Lemma config_for_pid_kept rt rt' pid :
  rt_active_config rt' = rt_active_config rt → rt_process_template_pids rt' = rt_process_template_pids rt →
  process_config_for_pid rt' pid = process_config_for_pid rt pid.
Proof. intros C T. unfold process_config_for_pid. by rewrite C, T. Qed.

Lemma templates_kept rt rt' :
  ptable_wf (rt_processes rt) → templates_ok rt → rt_kept rt rt' → templates_ok rt'.
Proof.
  intros Hwf Ht [K C T] pid p' (p & Hp & _)%(kept_inv _ _ _ _ Hwf K).
  rewrite (config_for_pid_kept rt rt') by done. by eapply Ht.
Qed.

Lemma machine_kept k k' :
  machine_ok k → rt_kept (ks_rt k) (ks_rt k') → ks_mem k' = ks_mem k → ks_cr3 k' = ks_cr3 k → machine_ok k'.
Proof.
  intros [S C G T] K Hm Hc. split.
  - by eapply spaces_kept; [|apply K|].
  - by eapply cpu_kept; [|apply K|].
  - by eapply config_kept.
  - eapply templates_kept; [apply S|done..].
Qed.

Lemma parked_machine_kept k k' :
  machine_parked k → rt_kept (ks_rt k) (ks_rt k') → ks_mem k' = ks_mem k → ks_cr3 k' = ks_cr3 k → machine_parked k'.
Proof.
  intros [S C G T] K Hm Hc. split.
  - by eapply spaces_kept; [|apply K|].
  - by eapply parked_kept; [|apply K|].
  - by eapply config_kept.
  - eapply templates_kept; [apply S|done..].
Qed.

(** ** Scheduling *)

Lemma quiet_kept k k' : quiet k k' → rt_kept (ks_rt k) (ks_rt k').
Proof.
  intros Hq. split; [|apply Hq|apply Hq]. split; [apply Hq|apply Hq|by rewrite (qu_next _ _ Hq)| |].
  2:{ intros Hwf. pose proof (qu_woken _ _ Hq Hwf) as HF. 
      induction HF as [|p q l l' Hw _ IH]; [done|]. rewrite !fmap_cons, IH. by rewrite (woken_pid _ _ Hw). }
  intros Hwf pid. pose proof (qu_wf _ _ Hq Hwf) as Hwf'. pose proof (qu_woken _ _ Hq Hwf) as HF.
  destruct (process (table k) pid) as [p|] eqn:Hp.
  - apply process_live in Hp as [[i Hi]%list_elem_of_lookup Hpid]; [|done].
    destruct (Forall2_lookup_l _ _ _ _ _ HF Hi) as (p' & Hp' & Hw).
    rewrite (proj2 (process_live (table k') pid p' Hwf')).
    + constructor. destruct Hw as [->|(Hw & s & ->)]; [done|]. apply kept_wake; by destruct (p_state p).
    + split; [by eapply list_elem_of_lookup_2|]. by rewrite (woken_pid _ _ Hw).
  - destruct (process (table k') pid) as [p'|] eqn:Hp'; [|constructor].
    apply process_live in Hp' as [[i Hi]%list_elem_of_lookup Hpid]; [|done].
    destruct (Forall2_lookup_r _ _ _ _ _ HF Hi) as (q & Hq' & Hw).
    rewrite (proj2 (process_live (table k) pid q Hwf)) in Hp; [done|].
    split; [by eapply list_elem_of_lookup_2|]. by rewrite <-(woken_pid _ _ Hw).
Qed.

(** A change of one process that keeps its context. *)
Record kept_context (p p' : Process) : Prop := mk_kept_context {
  kc_pid : p_pid p' = p_pid p;
  kc_context : p_context p' = p_context p;
  kc_reaped : p_context_reaped p' = p_context_reaped p;
  kc_alive : p_state p' ≠ PsExited → cr3 (p_context p) ≠ 0%Z;
  kc_dma m : Some m ∈ p_dma_mappings p' →
    Some m ∈ p_dma_mappings p ∨ pm_device (dm_physical_base m) (dm_length m)
}.

Lemma spaces_modify k k' pid f :
  spaces_wf k → (∀ p, p_pid (f p) = p_pid p) →
  (∀ p, process (table k) pid = Some p → kept_context p (f p)) →
  (∀ q, process (table k') q = if decide (q = pid) then f <$> process (table k) q else process (table k) q) →
  ptable_wf (table k') → pm_spaces (live_roots (table k)) (ks_mem k') → spaces_wf k'.
Proof.
  intros [W S O R A D] Hpid Hf Hq W' Hm.
  assert (Hinv : ∀ q p', process (table k') q = Some p' →
    ∃ p, process (table k) q = Some p ∧ p_context p' = p_context p ∧ p_context_reaped p' = p_context_reaped p ∧
      (p_state p' ≠ PsExited → cr3 (p_context p) ≠ 0%Z) ∧
      (∀ m, Some m ∈ p_dma_mappings p' → Some m ∈ p_dma_mappings p ∨ pm_device (dm_physical_base m) (dm_length m))).
  { intros q p'. rewrite Hq. case_decide as Hd.
    - subst q. intros (p & Hp & ->)%fmap_Some. exists p. by destruct (Hf p Hp).
    - intros Hp. exists p'. split_and!; [done|done|done|by eapply A|by left]. }
  split; [done| | | | |].
  - assert (Hr : live_roots (table k') = live_roots (table k)); [|by rewrite Hr].
    apply set_eq. intros r. rewrite !elem_of_live_roots by done.
    split; intros (Hr & q & p & Hp & Hc); (split; [done|]).
    + apply Hinv in Hp as (p0 & Hp & Hc' & _). exists q, p0. by rewrite <-Hc'.
    + exists q. rewrite Hq. case_decide as Hd; [|eauto]. subst q. rewrite Hp. cbn. eexists. split; [done|].
      by rewrite (kc_context _ _ (Hf p Hp)).
  - intros q q' p p' (p1 & H1 & C1 & _)%Hinv (p2 & H2 & C2 & _)%Hinv. rewrite C1, C2. by eapply O.
  - intros q p (p1 & H1 & C1 & R1 & _)%Hinv. rewrite C1, R1. by eapply R.
  - intros q p (p1 & H1 & C1 & _ & A1 & _)%Hinv. by rewrite C1.
  - intros q p m (p1 & H1 & _ & _ & _ & D1)%Hinv Hin. destruct (D1 m Hin); [by eapply D|done].
Qed.

Lemma switched_machine i p k :
  machine_parked k → live_processes (table k) !! i = Some p → p_state p = PsReady → machine_ok (switched i p k).
Proof.
  intros [S P G T] Hi Hs. pose proof (sp_wf _ S) as W.
  assert (Hp : process (table k) (p_pid p) = Some p).
  { apply process_live; [done|]. split; [by eapply list_elem_of_lookup_2|done]. }
  assert (Ht : ∀ q, process (table (switched i p k)) q =
    if decide (q = p_pid p) then set_running <$> process (table k) q else process (table k) q).
  { intros q. rewrite <-process_modify_process by done.
    rewrite <-(process_at_index (table k) i set_running (p_pid p) p) by done. done. }
  pose proof (switched_cpu_ok i p k P Hi) as C. split; [|done|done|].
  - apply (spaces_modify k _ (p_pid p) set_running); [done|done| |exact Ht|apply C|apply S].
    intros q Hq. rewrite Hp in Hq. injection Hq as <-. split; [done..| |by left]. intros _. eapply sp_alive; [done..|].
    by rewrite Hs.
  - intros q p' Hp'. rewrite Ht in Hp'.
    rewrite (config_for_pid_kept (ks_rt k) (ks_rt (switched i p k))) by done.
    case_decide as Hd; [|by eapply T]. apply fmap_Some in Hp' as (p0 & Hp0 & _). by eapply T.
Qed.

(** The search for the next process. *)
Lemma schedule_machine fuel inc wait k r k' :
  machine_parked k → schedule_next_ready_inner env fuel inc wait k = Some (r, k') →
  ∃ b k1, r = Ok b ∧ quiet k k1 ∧ machine_parked k1 ∧
    if b then machine_ok k' ∧ ∃ i p, live_processes (table k1) !! i = Some p ∧ p_state p = PsReady ∧ k' = switched i p k1
    else k' = k1.
Proof.
  intros Hp Hrun. pose proof (schedule_run env fuel inc wait k (pk_wf _ (mp_parked _ Hp))) as Hs.
  rewrite Hrun in Hs. destruct Hs as (b & -> & k1 & Hq & Hb).
  assert (Hp1 : machine_parked k1).
  { eapply parked_machine_kept; [done|by apply quiet_kept|apply Hq|apply Hq]. }
  exists b, k1. split_and!; [done|done|done|]. destruct b; [|naive_solver].
  destruct Hb as (i & p & _ & Hi & Hr & ->). split; [by apply switched_machine|eauto].
Qed.

(** ** The release of what a process held *)

Record kept_spaces (k k' : KernelState) : Prop := mk_kept_spaces {
  ks_wf : spaces_wf k';
  ks_kept : rt_kept (ks_rt k) (ks_rt k');
  ks_same_cr3 : ks_cr3 k' = ks_cr3 k
}.

Lemma kept_spaces_trans k1 k2 k3 : kept_spaces k1 k2 → kept_spaces k2 k3 → kept_spaces k1 k3.
Proof. intros [_ K1 C1] [W2 K2 C2]. split; [done|by etransitivity|congruence]. Qed.

Lemma kept_spaces_rt k f : spaces_wf k → rt_kept (ks_rt k) (f (ks_rt k)) → kept_spaces k (k <| ks_rt ::= f |>).
Proof. intros Hs Hk. split; [|done|done]. by eapply spaces_kept; [|apply Hk|]. Qed.

Lemma take_dma_kept p slot : kept p (take_dma_mapping p slot).2.
Proof.
  unfold take_dma_mapping. destruct (_ <=? _); [done|]. split; [done..|by left|]. cbn.
  intros m [j Hj]%list_elem_of_lookup. apply list_lookup_insert_Some in Hj as [(_ & [=] & _)|[_ Hj]].
  by eapply list_elem_of_lookup_2.
Qed.

Lemma rt_kept_release_claim region owner rt : rt_kept rt (release_dma_region_claim region owner rt).
Proof. unfold release_dma_region_claim. repeat case_match; by apply rt_kept_same. Qed.

Lemma release_dma_mapping_spaces owner m k :
  spaces_wf k → pm_device (dm_physical_base m) (dm_length m) →
  ∃ k', release_dma_mapping owner m k = Some (Ok tt, k') ∧ kept_spaces k k'.
Proof.
  intros Hs Hd. unfold release_dma_mapping, kbind, zero_dma_physical_range.
  destruct (_ =? 0)%Z.
  - eexists. split; [done|]. apply kept_spaces_rt; [done|apply rt_kept_release_claim].
  - pose proof (pm_zero_spaces _ _ _ _ (sp_spaces _ Hs) Hd) as Hz.
    destruct (pm_zero _ _ _) as [ok mem]. cbn in Hz. eexists. split; [done|].
    eapply (kept_spaces_trans _ (k <| ks_mem := mem |>)); [split; [by eapply spaces_kept_mem|done|done]|].
    apply kept_spaces_rt; [by eapply spaces_kept_mem|apply rt_kept_release_claim].
Qed.

Lemma release_dma_slots_spaces left : ∀ slot pid k,
  spaces_wf k → ∃ k', release_dma_slots left slot pid k = Some (Ok tt, k') ∧ kept_spaces k k'.
Proof.
  induction left as [|left IH]; intros slot pid k Hs; cbn [release_dma_slots];
    [by exists k; split; [|split]|].
  destruct (process_index (table k) pid) as [i|] eqn:Hi; [|by exists k; split; [|split]].
  destruct (mjoin (pt_processes (table k) !! i)) as [p|] eqn:Hp; [|by exists k; split; [|split]].
  pose proof (take_dma_kept p slot) as Hk. destruct (take_dma_mapping p slot) as [m p'] eqn:Ht. cbn in Hk.
  set (k1 := k <| ks_rt ::= _ |>).
  assert (Hk1 : kept_spaces k k1).
  { apply (kept_spaces_rt k (λ rt, rt <| rt_processes ::= λ t, modify_process_at t i (λ _, p') |>)); [done|].
    split; [|done|done]. cbn. replace p' with ((λ q, (take_dma_mapping q slot).2) p) by (by rewrite Ht).
    rewrite (modify_process_at_const _ _ _ (λ q, (take_dma_mapping q slot).2) Hp).
    apply kept_table_modify_at; intros q; [intros _|]; apply take_dma_kept. }
  assert (Hrel : ∃ k2, match m with Some m => release_dma_mapping pid m | None => kret tt end k1 = Some (Ok tt, k2) ∧
                       kept_spaces k1 k2).
  { destruct m as [m|]; [|by exists k1; split; [|split]; [|apply Hk1|..]].
    apply release_dma_mapping_spaces; [apply Hk1|].
    assert (Hproc : process (table k) pid = Some p) by (rewrite process_via_index, Hi; exact Hp).
    apply (sp_dma _ Hs pid p); [done|]. unfold take_dma_mapping in Ht. destruct (_ <=? _); [done|].
    injection Ht as Hm _. destruct (p_dma_mappings p !! slot) as [o|] eqn:Ho; [|done]. cbn in Hm. subst o.
    by eapply list_elem_of_lookup_2. }
  unfold kbind at 1. destruct Hrel as (k2 & -> & Hk2). destruct (IH (S slot) pid k2 (ks_wf _ _ Hk2)) as (k3 & -> & Hk3).
  exists k3. split; [done|]. by eapply kept_spaces_trans, kept_spaces_trans.
Qed.

Lemma release_resources_spaces pid k :
  spaces_wf k → ∃ k', release_process_resources pid k = Some (Ok tt, k') ∧ kept_spaces k k'.
Proof.
  intros Hs. unfold release_process_resources, release_process_virtio_ownership. unfold kbind at 1, kbind at 1.
  unfold modify_devices, kmodify at 1. unfold modify_rt, kmodify at 1. set (k1 := set ks_rt _ _).
  assert (Hk1 : kept_spaces k k1) by (split; [by eapply (spaces_kept k)|by apply rt_kept_same|done]).
  unfold kbind. destruct (release_dma_slots_spaces MAX_OBJECTS 0 pid k1 (ks_wf _ _ Hk1)) as (k2 & Hrun & Hk2).
  unfold release_process_dma_mappings. rewrite Hrun. unfold kmodify. eexists. split; [done|].
  eapply kept_spaces_trans; [exact Hk1|]. eapply kept_spaces_trans; [exact Hk2|].
  apply (kept_spaces_rt k2 (λ rt, _)); [apply Hk2|]. cbn beta zeta.
  etransitivity; [|apply rt_kept_release_roots]. etransitivity; [|apply rt_kept_bind_mounts].
  etransitivity; [|apply rt_kept_bind_mounts]. etransitivity; [|apply rt_kept_descriptions].
  split; [|done|done]. apply kept_table_modify; [|done]. intros; apply kept_handles.
Qed.

(** The states before and after the release of process [pid]. *)
Record reaped (pid : ProcessId) (k k' : KernelState) : Prop := mk_reaped {
  ra_spaces : spaces_wf k';
  ra_cr3 : ks_cr3 k' = ks_cr3 k;
  ra_current : pt_current (table k') = pt_current (table k);
  ra_next : pt_next_id (table k') = pt_next_id (table k);
  ra_config : rt_active_config (ks_rt k') = rt_active_config (ks_rt k);
  ra_templates : rt_process_template_pids (ks_rt k') = rt_process_template_pids (ks_rt k);
  ra_others q : q ≠ pid → option_Forall2 kept (process (table k) q) (process (table k') q);
  ra_was : is_Some (process (table k) pid);
  ra_gone : ∃ p', process (table k') pid = Some p' ∧ p_state p' = PsExited ∧ cr3 (p_context p') = 0%Z
}.

Lemma reaped_kept pid k k1 k2 :
  spaces_wf k → rt_kept (ks_rt k) (ks_rt k1) → ks_cr3 k1 = ks_cr3 k → reaped pid k1 k2 → reaped pid k k2.
Proof.
  intros Hs [K C T] Hc [S2 C2 U2 N2 G2 T2 O2 [p2 B2] P2].
  split; [done|congruence| | |congruence|congruence| | |done].
  - by rewrite U2, (kt_current _ _ K).
  - by rewrite N2, (kt_next _ _ K).
  - intros q Hq. pose proof (kt_process _ _ K (sp_wf _ Hs) q) as H1. specialize (O2 q Hq).
    destruct H1; inversion O2; constructor. by etransitivity.
  - destruct (kept_inv _ _ _ _ (sp_wf _ Hs) K B2) as (p0 & Hp0 & _). eauto.
Qed.

(** The last step: the address space is given back. *)
Lemma reap_space pid p k m' :
  spaces_wf k → process (table k) pid = Some p → p_state p = PsExited →
  pm_spaces (live_roots (table k) ∖ {[cr3 (p_context p)]}) m' → cr3 (p_context p) ≠ 0%Z →
  reaped pid k (k <| ks_mem := m' |>
    <| ks_rt ::= λ rt, rt <| rt_processes ::= λ t, (modify_process t pid reaped_process).2 |> |>).
Proof.
  intros [W S O R A D] Hp Hx Hm Hr. set (k' := k <| ks_mem := m' |> <| ks_rt ::= _ |>).
  assert (Hq : ∀ q, process (table k') q =
    if decide (q = pid) then reaped_process <$> process (table k) q else process (table k) q).
  { intros q. by apply process_modify_process. }
  assert (W' : ptable_wf (table k')) by (by apply modify_process_wf).
  assert (Hpid : process (table k') pid = Some (reaped_process p)) by (by rewrite Hq, decide_True, Hp).
  split; [|done| |unfold k', set; cbn; unfold modify_process; by destruct (process_index _ pid)|done|done| |by eexists|by eexists].
  - split; [done|..].
    + assert (He : live_roots (table k') = live_roots (table k) ∖ {[cr3 (p_context p)]}); [|by rewrite He].
      apply set_eq. intros r. rewrite elem_of_difference, elem_of_singleton, !elem_of_live_roots by done. split.
      * intros (Hr' & q & pq & Hpq & Hc). rewrite Hq in Hpq. case_decide as Hd.
        -- subst q. rewrite Hp in Hpq. injection Hpq as <-. by rewrite <-Hc in Hr'.
        -- split; [split; [done|eauto]|]. intros ->. apply Hd. apply (O q pid pq p); congruence.
      * intros [(Hr' & q & pq & Hpq & Hc) Hne]. split; [done|]. exists q, pq. split; [|done].
        rewrite Hq, decide_False; [done|]. intros ->. rewrite Hp in Hpq. injection Hpq as <-. by rewrite Hc in Hne.
    + intros q q' p1 p2. rewrite !Hq. repeat case_decide; subst.
      * done.
      * rewrite Hp. by intros [= <-] _ ?.
      * rewrite Hp. intros _ [= <-] H1 H2. by rewrite H2 in H1.
      * by apply O.
    + intros q p1. rewrite Hq. case_decide; [|by apply R]. subst q. rewrite Hp. by intros [= <-].
    + intros q p1. rewrite Hq. case_decide; [|by apply A]. subst q. rewrite Hp. by intros [= <-].
    + intros q p1 m. rewrite Hq. case_decide; [|by apply D]. subst q. rewrite Hp. intros [= <-]. by apply (D pid p).
  - apply modify_process_current.
  - intros q Hne. rewrite Hq, decide_False by done. by destruct (process (table k) q); constructor.
Qed.

Lemma reap_ok pid p k :
  spaces_wf k → process (table k) pid = Some p → p_state p = PsExited →
  ∃ k', reap_process_context pid k = Some (Ok tt, k') ∧ reaped pid k k'.
Proof.
  intros Hs Hp Hx. unfold reap_process_context. unfold kbind at 1. unfold modify_rt, kmodify at 1.
  set (k0 := set ks_rt _ _).
  assert (K0 : kept_spaces k k0).
  { apply (kept_spaces_rt k (λ rt, (cancel_owner pid rt) <| rt_objects ::= λ t, (remove_owned_endpoints t pid).2 |>));
      [done|]. etransitivity; [apply (rt_kept_cancel_owner pid)|by apply rt_kept_same]. }
  unfold kbind at 1, kget at 1.
  destruct (kept_fwd _ _ _ _ (sp_wf _ Hs) (rk_table _ _ (ks_kept _ _ K0)) Hp) as (p0 & Hp0 & Kp0). rewrite Hp0.
  unfold kbind. destruct (release_resources_spaces pid k0 (ks_wf _ _ K0)) as (k1 & -> & K1).
  destruct (kept_fwd _ _ _ _ (sp_wf _ (ks_wf _ _ K0)) (rk_table _ _ (ks_kept _ _ K1)) Hp0) as (p1 & Hp1 & Kp1).
  assert (Hx1 : p_state p1 = PsExited) by (by apply (kept_exited _ _ Kp1), (kept_exited _ _ Kp0)).
  assert (Hfin : ∀ k2, reaped pid k1 k2 → reaped pid k k2).
  { intros k2. pose proof (kept_spaces_trans _ _ _ K0 K1) as K. by apply reaped_kept; [|apply K|apply K]. }
  rewrite (sp_reaped _ (ks_wf _ _ K0) pid p0 Hp0), <-(kp_context _ _ Kp1).
  case_bool_decide as Hz; cbn [orb].
  - exists k1. split; [done|]. apply Hfin. split; [apply K1|done..| |by eexists|by exists p1].
    intros q _. by destruct (process (table k1) q); constructor.
  - destruct (Z.eqb_spec (cr3 (p_context p1)) 0) as [|_]; [done|].
    destruct (pm_reclaim_ok (cr3 (p_context p1)) _ _ (sp_spaces _ (ks_wf _ _ K1))) as (m' & -> & Hm').
    { apply elem_of_live_roots; [apply K1|]. eauto. }
    eexists. split; [done|]. apply Hfin. apply (reap_space pid p1); [apply K1|done..].
Qed.

(** A process that is not the current one is reaped. *)
Lemma machine_reaped pid k k' :
  machine_ok k → pt_current (table k) ≠ Some pid → reaped pid k k' → machine_ok k'.
Proof.
  intros [S C G T] Hcur [S' C' U' N' G' T' O' [p0 B'] (p' & Hp' & Hx & Hz)].
  assert (Hother : ∀ q p1, q ≠ pid → process (table k') q = Some p1 →
    ∃ p, process (table k) q = Some p ∧ kept p p1).
  { intros q p1 Hne Hq. specialize (O' q Hne). rewrite Hq in O'. inversion O'; eauto. }
  split; [done| |unfold config_ok; by rewrite G', T'|].
  - destruct C as [W (p & Hp & Hr & Hc) Ho]. split; [apply S'|..].
    + unfold current_process in *. rewrite U', C'. destruct (pt_current (table k)) as [cur|]; [|done]. cbn in *.
      specialize (O' cur ltac:(congruence)). rewrite Hp in O'. inversion O' as [? q' K|]; subst.
      exists q'. rewrite (kept_running _ _ K), (kp_context _ _ K). done.
    + intros q Hq Hqr. rewrite U'.
      assert (Hq' : process (table k') (p_pid q) = Some q) by (apply process_live; [apply S'|done]).
      assert (Hne : p_pid q ≠ pid) by (intros He; rewrite He in Hq'; congruence).
      destruct (Hother _ _ Hne Hq') as (q0 & Hq0 & K). rewrite (kp_pid _ _ K).
      apply Ho; [by apply process_live in Hq0 as []|by apply (kept_running _ _ K)].
  - intros q p1 Hq. rewrite (config_for_pid_kept (ks_rt k)) by done.
    destruct (decide (q = pid)) as [->|Hne]; [by eapply T|].
    destruct (Hother _ _ Hne Hq) as (q0 & Hq0 & _). by eapply T.
Qed.

(** ** Leaving the processor *)

Lemma current_pid k p :
  ptable_wf (table k) → current_process (table k) = Some p →
  pt_current (table k) = Some (p_pid p) ∧ process (table k) (p_pid p) = Some p.
Proof.
  intros Hwf Hp. unfold current_process in Hp. apply bind_Some in Hp as (pid & Hc & Hp).
  by rewrite (process_pid _ _ _ Hwf Hp).
Qed.

(** A write to the current process. *)
Lemma modify_current_table k p f :
  ptable_wf (table k) → current_process (table k) = Some p → (∀ p, p_pid (f p) = p_pid p) →
  modify_current_process f k =
    Some (Ok true, k <| ks_rt ::= λ rt, rt <| rt_processes := (modify_process (table k) (p_pid p) f).2 |> |>).
Proof.
  intros Hwf Hp Hf. destruct (modify_current_ok k p f Hwf Hp) as (i & Hl & _ & ->).
  by rewrite (process_at_index _ i f (p_pid p) p).
Qed.

Lemma modified_templates k pid f :
  ptable_wf (table k) → (∀ p, p_pid (f p) = p_pid p) → templates_ok (ks_rt k) →
  templates_ok ((ks_rt k) <| rt_processes := (modify_process (table k) pid f).2 |>).
Proof.
  intros Hwf Hf Ht q p Hq. cbn in Hq. rewrite process_modify_process in Hq by done.
  rewrite (config_for_pid_kept (ks_rt k)) by done. case_decide; [|by eapply Ht].
  apply fmap_Some in Hq as (p0 & Hp0 & _). by eapply Ht.
Qed.

Lemma park_machine k p f :
  machine_ok k → current_process (table k) = Some p → (∀ p, p_pid (f p) = p_pid p) →
  (∀ p, p_context (f p) = p_context p) → (∀ p, p_state (f p) ≠ PsRunning) →
  (∀ p, p_context_reaped (f p) = p_context_reaped p) → (∀ p, p_dma_mappings (f p) = p_dma_mappings p) →
  ∃ k', modify_current_process f k = Some (Ok true, k') ∧ machine_parked k' ∧
    process (table k') (p_pid p) = Some (f p) ∧ pt_current (table k') = Some (p_pid p).
Proof.
  intros [S C G T] Hp Hpid Hctx Hs Hr Hd. pose proof (sp_wf _ S) as Hwf.
  destruct (park_with k f C Hpid Hctx Hs) as (k' & Hrun & Hpk). exists k'. split; [done|].
  rewrite (modify_current_table k p f Hwf Hp Hpid) in Hrun. injection Hrun as <-.
  destruct (current_pid k p Hwf Hp) as [Hcur Hproc].
  split; [split|].
  - apply (spaces_modify k _ (p_pid p) f); [done|done| | |apply Hpk|apply S].
    + intros q Hq. rewrite Hproc in Hq. injection Hq as <-. split; [done..| |intros m; rewrite Hd; by left].
      intros _. apply (sp_alive _ S (p_pid p) p Hproc). destruct (cpu_current _ C) as (q & Hq & Hqr & _). congruence.
    + intros q. by apply process_modify_process.
  - done.
  - done.
  - by apply modified_templates.
  - cbn. rewrite process_modify_process, decide_True, Hproc by done. split; [done|].
    by rewrite modify_process_current.
Qed.

Lemma unpark_machine k p :
  machine_parked k → current_process (table k) = Some p → p_state p ≠ PsExited →
  ∃ k', modify_current_process set_running k = Some (Ok true, k') ∧ machine_ok k'.
Proof.
  intros [S P G T] Hp Hx. pose proof (sp_wf _ S) as Hwf. destruct (unpark k P) as (k' & Hrun & Hc). exists k'.
  split; [done|]. rewrite (modify_current_table k p set_running Hwf Hp) in Hrun by done. injection Hrun as <-.
  destruct (current_pid k p Hwf Hp) as [Hcur Hproc]. split.
  - apply (spaces_modify k _ (p_pid p) set_running); [done|done| | |apply Hc|apply S].
    + intros q Hq. rewrite Hproc in Hq. injection Hq as <-. split; [done..| |by left]. intros _. by eapply sp_alive.
    + intros q. by apply process_modify_process.
  - done.
  - done.
  - by apply modified_templates.
Qed.

(** The end of the current process, up to the search for the next one. *)
Lemma reap_after_switch fuel pid k p b k' :
  machine_parked k → process (table k) pid = Some p → p_state p = PsExited →
  schedule_next_ready env fuel k = Some (Ok b, k') →
  if b then machine_ok k' ∧ (∃ q, process (table k') pid = Some q ∧ p_state q = PsExited) ∧
            pt_current (table k') ≠ Some pid
  else machine_parked k'.
Proof.
  intros Hm Hp Hx Hrun. apply schedule_machine in Hrun as (b' & k1 & [= <-] & Hq & Hm1 & Hb); [|done].
  destruct b; [|by subst k']. destruct Hb as (Hok & i & q & Hi & Hr & ->).
  destruct (kept_fwd _ _ _ _ (sp_wf _ (mp_spaces _ Hm)) (rk_table _ _ (quiet_kept _ _ Hq)) Hp) as (p1 & Hp1 & K1).
  assert (Hx1 : p_state p1 = PsExited) by (by apply (kept_exited _ _ K1)).
  pose proof (sp_wf _ (mp_spaces _ Hm1)) as Hwf1.
  assert (Hne : p_pid q ≠ pid).
  { intros He. assert (process (table k1) (p_pid q) = Some q); [|congruence].
    apply process_live; [done|]. split; [by eapply list_elem_of_lookup_2|done]. }
  split; [done|]. split; [|cbn; congruence]. exists p1. split; [|done].
  change (process (modify_process_at (table k1) i set_running) pid = Some p1).
  rewrite (process_at_index _ i set_running (p_pid q) q), process_modify_process, decide_False by done. done.
Qed.

(** Steps on the runtime state alone. *)
Lemma machine_rt k f : machine_ok k → rt_kept (ks_rt k) (f (ks_rt k)) → machine_ok (k <| ks_rt ::= f |>).
Proof. intros Hm Hk. by eapply machine_kept. Qed.
Lemma parked_rt k f : machine_parked k → rt_kept (ks_rt k) (f (ks_rt k)) → machine_parked (k <| ks_rt ::= f |>).
Proof. intros Hm Hk. by eapply parked_machine_kept. Qed.

(** The process [pid] has ended. *)
Definition has_ended (pid : ProcessId) (k : KernelState) : Prop :=
  ∃ p, process (table k) pid = Some p ∧ p_state p = PsExited.

Lemma ended_rt pid k f :
  ptable_wf (table k) → has_ended pid k → rt_kept (ks_rt k) (f (ks_rt k)) → has_ended pid (k <| ks_rt ::= f |>).
Proof.
  intros Hwf (p & Hp & Hx) [K _ _]. destruct (kept_fwd _ _ _ _ Hwf K Hp) as (p' & Hp' & Kp).
  exists p'. split; [done|by apply (kept_exited _ _ Kp)].
Qed.

(** The current process is on its way out: it has ended and nobody runs. *)
Definition leaving (pid : ProcessId) (k : KernelState) : Prop := machine_parked k ∧ has_ended pid k.

Lemma leaving_rt pid k f : leaving pid k → rt_kept (ks_rt k) (f (ks_rt k)) → leaving pid (k <| ks_rt ::= f |>).
Proof. intros [Hm He] Hk. split; [by apply parked_rt|]. apply ended_rt; [apply Hm|done..]. Qed.

Lemma end_current k p status :
  machine_ok k → current_process (table k) = Some p →
  ∃ k', modify_current_process (end_process status) k = Some (Ok true, k') ∧ leaving (p_pid p) k'.
Proof.
  intros Hm Hp. destruct (park_machine k p (end_process status) Hm Hp) as (k' & Hrun & Hpk & Hproc & _); try done.
  exists k'. split; [done|]. split; [done|]. by eexists.
Qed.

(** The current process made room for another one and was released, or the machine
    halts. *)
Definition left_behind (pid : ProcessId) (k : KernelState) : Prop :=
  ∃ p, process (table k) pid = Some p ∧ p_state p = PsExited ∧ cr3 (p_context p) = 0%Z.

Lemma leave_machine {A} fuel pid k (yes : A) (no : K A) r k' :
  leaving pid k →
  (let* switched := schedule_next_ready env fuel in
   if switched : bool then do* try_reap pid; kret yes else no) k = Some (r, k') →
  (r = Ok yes ∧ machine_ok k' ∧ left_behind pid k') ∨ (∃ k1, machine_parked k1 ∧ no k1 = Some (r, k')).
Proof.
  intros [Hm (p & Hp & Hx)] Hrun. unfold kbind at 1 in Hrun.
  destruct (schedule_next_ready env fuel k) as [[[b|e] k1]|] eqn:Hs; [| |done].
  - pose proof (reap_after_switch fuel pid k p b k1 Hm Hp Hx Hs) as Ha. destruct b; [left|right; eauto].
    destruct Ha as (Hm1 & (q & Hq & Hqx) & Hcur). destruct (reap_ok pid q k1 (mo_spaces _ Hm1) Hq Hqx) as (k2 & Hr & Hre).
    unfold kbind, try_reap in Hrun. rewrite Hr in Hrun. injection Hrun as <- <-.
    split_and!; [done|by eapply machine_reaped|]. apply Hre.
  - apply schedule_machine in Hs as (b & k2 & [=] & _); done.
Qed.

Lemma leaving_bind {A} pid f (c : unit → K A) k r k' :
  leaving pid k → (∀ rt, rt_kept rt (f rt)) → kbind (modify_rt f) c k = Some (r, k') →
  ∃ k1, leaving pid k1 ∧ c tt k1 = Some (r, k').
Proof. intros Hl Hf Hrun. exists (k <| ks_rt ::= f |>). split; [by apply leaving_rt|done]. Qed.

Lemma leaving_bind_if {A} (b : bool) pid f (c : unit → K A) k r k' :
  leaving pid k → (∀ rt, rt_kept rt (f rt)) → kbind (if b then kret tt else modify_rt f) c k = Some (r, k') →
  ∃ k1, leaving pid k1 ∧ c tt k1 = Some (r, k').
Proof. intros Hl Hf. destruct b; [by exists k|by apply leaving_bind]. Qed.

Lemma kbind_assoc {A B C} (c : K A) (f : A → K B) (g : B → K C) k :
  kbind (kbind c f) g k = kbind c (λ a, kbind (f a) g) k.
Proof. unfold kbind. by destruct (c k) as [[[]]|]. Qed.

Lemma exit_machine fuel status k p r k' :
  machine_ok k → current_process (table k) = Some p → exit_current_process env fuel status k = Some (r, k') →
  (r = Ok (Switched, None) ∧ machine_ok k' ∧ left_behind (p_pid p) k') ∨
  (∃ ok known_good, r = Ok (Halt ok, known_good) ∧ machine_parked k').
Proof.
  intros Hm Hp Hrun. unfold exit_current_process in Hrun. unfold kbind at 1, kget at 1 in Hrun. rewrite Hp in Hrun.
  destruct (end_current k p status Hm Hp) as (k1 & Hrun1 & Hl).
  rewrite kbind_assoc in Hrun. unfold kbind at 1 in Hrun. rewrite Hrun1, kbind_assoc in Hrun.
  apply (leaving_bind (p_pid p)) in Hrun as (k2 & Hl2 & Hrun); [|done|apply rt_kept_descriptions].
  apply (leaving_bind (p_pid p)) in Hrun as (k3 & Hl3 & Hrun); [|done|apply rt_kept_cancel_owner].
  apply (leaving_bind (p_pid p)) in Hrun as (k4 & Hl4 & Hrun); [|done|apply rt_kept_release_roots].
  apply (leaving_bind_if _ (p_pid p)) in Hrun as (k5 & Hl5 & Hrun); [|done|intros; apply rt_kept_lifecycle].
  apply (leaving_bind (p_pid p)) in Hrun as (k6 & Hl6 & Hrun); [|done|apply rt_kept_abort_services].
  destruct (_ && _).
  { injection Hrun as <- <-. right. exists false, None. split; [done|apply Hl6]. }
  apply (leave_machine _ (p_pid p)) in Hrun as [Hout|(k7 & Hm7 & Hrun)]; [by left| |done]. right.
  unfold kbind, kget in Hrun. injection Hrun as <- <-. eauto.
Qed.

Lemma fault_machine fuel k p r k' :
  machine_ok k → current_process (table k) = Some p → fault_current_process env fuel k = Some (r, k') →
  (r = Ok Switched ∧ machine_ok k' ∧ left_behind (p_pid p) k') ∨
  (∃ ok, r = Ok (Halt ok) ∧ machine_parked k').
Proof.
  intros Hm Hp Hrun. unfold fault_current_process in Hrun. unfold kbind at 1, kget at 1 in Hrun. rewrite Hp in Hrun.
  destruct (end_current k p STATUS_PROCESS_FAULT Hm Hp) as (k1 & Hrun1 & Hl).
  unfold kbind at 1 in Hrun. rewrite Hrun1 in Hrun.
  apply (leaving_bind (p_pid p)) in Hrun as (k2 & Hl2 & Hrun); [|done|apply rt_kept_descriptions].
  apply (leaving_bind (p_pid p)) in Hrun as (k3 & Hl3 & Hrun); [|done|apply rt_kept_cancel_owner].
  apply (leaving_bind (p_pid p)) in Hrun as (k4 & Hl4 & Hrun); [|done|apply rt_kept_release_roots].
  apply (leaving_bind_if _ (p_pid p)) in Hrun as (k5 & Hl5 & Hrun); [|done|intros; apply rt_kept_lifecycle].
  apply (leaving_bind (p_pid p)) in Hrun as (k6 & Hl6 & Hrun); [|done|apply rt_kept_abort_services].
  destruct (p_pid p =? 1)%Z.
  { injection Hrun as <- <-. right. exists false. split; [done|apply Hl6]. }
  apply (leave_machine _ (p_pid p)) in Hrun as [Hout|(k7 & Hm7 & Hrun)]; [by left| |done]. right.
  unfold kbind, kget in Hrun. injection Hrun as <- <-. eauto.
Qed.

(** Suspended, the current process runs again when nobody else does. *)
Lemma suspend_machine {A} fuel inc wait (frame : SyscallFrame) s (yes no : Result IpcError A) k p r k' :
  machine_ok k → current_process (table k) = Some p → s ≠ PsRunning → s ≠ PsExited →
  (do* modify_current_process (suspend frame s);
   let* switched := schedule_next_ready_inner env fuel inc wait in
   if switched : bool then klift yes
   else do* modify_current_process set_running; klift no) k = Some (r, k') →
  machine_ok k' ∧ (r = yes ∨ r = no).
Proof.
  intros Hm Hp Hs1 Hs2 Hrun. unfold kbind at 1 in Hrun.
  destruct (park_machine k p (suspend frame s) Hm Hp) as (k1 & Hrun1 & Hpk & Hproc & Hcur); try done.
  rewrite Hrun1 in Hrun. unfold kbind at 1 in Hrun.
  destruct (schedule_next_ready_inner env fuel inc wait k1) as [[r1 k2]|] eqn:Hs; [|done].
  apply schedule_machine in Hs as (b & k3 & -> & Hq & Hm3 & Hb); [|done]. destruct b.
  { injection Hrun as <- <-. split; [apply Hb|by left]. }
  subst k2. pose proof (quiet_kept _ _ Hq) as [K _ _].
  destruct (kept_fwd _ _ _ _ (sp_wf _ (mp_spaces _ Hpk)) K Hproc) as (p3 & Hp3 & K3).
  destruct (unpark_machine k3 p3 Hm3) as (k4 & Hrun4 & Hm4).
  - unfold current_process. rewrite (kt_current _ _ K), Hcur. done.
  - by rewrite (kept_exited _ _ K3).
  - unfold kbind in Hrun. rewrite Hrun4 in Hrun. injection Hrun as <- <-. split; [done|by right].
Qed.

Lemma yield_machine fuel k r k' :
  machine_ok k → yield_current_process env fuel k = Some (r, k') →
  machine_ok k' ∧ (r = Ok Switched ∨ r = Ok Continue).
Proof.
  intros Hm Hrun. destruct (cpu_current _ (mo_cpu _ Hm)) as (p & Hp & _).
  apply (suspend_machine fuel false true (ks_frame k) PsReady (Ok Switched) (Ok Continue) k p r k' Hm Hp); [done..|].
  unfold yield_current_process in Hrun. unfold kbind at 1, kget at 1 in Hrun. unfold kbind at 1 in Hrun. unfold kbind at 1.
  destruct (park_machine k p (suspend (ks_frame k) PsReady) Hm Hp) as (k1 & Hrun1 & _); try done.
  rewrite Hrun1 in Hrun |- *. exact Hrun.
Qed.

Lemma wake_timed_machine k r k' : machine_ok k → wake_timed_now env k = Some (r, k') → machine_ok k' ∧ is_ok r.
Proof.
  intros Hm Hrun. destruct (wake_timed_now_quiet env k (sp_wf _ (mo_spaces _ Hm))) as (n & k1 & Hrun1 & Hq & _).
  rewrite Hrun1 in Hrun. injection Hrun as <- <-. split; [|done].
  eapply machine_kept; [done|by apply quiet_kept|apply Hq|apply Hq].
Qed.

Lemma preempt_machine fuel k r k' :
  machine_ok k → preempt_current_process env fuel k = Some (r, k') →
  machine_ok k' ∧ (r = Ok Switched ∨ r = Ok Continue).
Proof.
  intros Hm Hrun. unfold preempt_current_process in Hrun. unfold kbind at 1 in Hrun.
  destruct (wake_timed_now env k) as [[r1 k1]|] eqn:Hw; [|done].
  apply wake_timed_machine in Hw as [Hm1 Hr1]; [|done]. destruct r1 as [n|]; [|done].
  unfold kbind at 1, kget at 1 in Hrun. destruct (no_ready false (ks_rt k1)).
  { injection Hrun as <- <-. split; [done|by right]. }
  destruct (cpu_current _ (mo_cpu _ Hm1)) as (p & Hp & Hr & _). rewrite Hp, Hr in Hrun.
  change (negb (bool_decide (PsRunning = PsRunning))) with false in Hrun. cbv iota in Hrun.
  unfold kbind at 1, kget at 1 in Hrun.
  by apply (suspend_machine fuel false false (ks_frame k1) PsReady (Ok Switched) (Ok Continue) k1 p r k' Hm1 Hp).
Qed.

(** ** Waiting and killing *)

Lemma control_lookup cap_slot right k r k' : on_rt (process_control_from_cap cap_slot right) k = Some (r, k') → k' = k.
Proof. apply on_rt_lookup_state. intros; apply object_from_cap_unchanged. Qed.

Lemma current_not_ended k pid : cpu_ok k → has_ended pid k → pt_current (table k) ≠ Some pid.
Proof.
  intros [Hwf (p & Hp & Hr & _) _] (q & Hq & Hx) Hcur. unfold current_process in Hp. rewrite Hcur in Hp. cbn in Hp.
  congruence.
Qed.

Lemma reap_machine pid k p :
  machine_ok k → process (table k) pid = Some p → p_state p = PsExited →
  ∃ k', reap_process_context pid k = Some (Ok tt, k') ∧ machine_ok k' ∧ reaped pid k k'.
Proof.
  intros Hm Hp Hx. destruct (reap_ok pid p k (mo_spaces _ Hm) Hp Hx) as (k' & Hrun & Hre). exists k'.
  split_and!; [done| |done]. eapply machine_reaped; [done| |done]. apply current_not_ended; [apply Hm|]. by exists p.
Qed.

Lemma wait_machine cap_slot pid k r k' :
  machine_ok k → process_wait env cap_slot pid k = Some (r, k') →
  machine_ok k' ∧
  ∀ status, r = Ok status → status = STATUS_WAIT_PENDING ∧ ¬ has_ended pid k' ∨ left_behind pid k'.
Proof.
  intros Hm Hrun. unfold process_wait in Hrun. unfold kbind at 1 in Hrun.
  destruct (wake_timed_now env k) as [[r1 k1]|] eqn:Hw; [|done].
  apply wake_timed_machine in Hw as [Hm1 Hr1]; [|done]. destruct r1 as [n|]; [|done].
  unfold kbind at 1 in Hrun. destruct (on_rt _ k1) as [[r2 k2]|] eqn:Ho; [|done].
  apply control_lookup in Ho as ->. destruct r2 as [control|e]; [|by injection Hrun as <- <-].
  unfold kbind at 1, kget at 1 in Hrun. unfold kbind at 1, klift at 1 in Hrun.
  destruct (process (table k1) pid) as [p|] eqn:Hp; [|by injection Hrun as <- <-]. cbn [ok_or] in Hrun.
  case_bool_decide as Hx.
  - destruct (reap_machine pid k1 p Hm1 Hp Hx) as (k3 & Hrun3 & Hm3 & Hre). unfold kbind in Hrun. rewrite Hrun3 in Hrun.
    injection Hrun as <- <-. split; [done|]. intros s _. right. apply Hre.
  - injection Hrun as <- <-. split; [done|]. intros s [= <-]. left. split; [done|].
    intros (q & Hq & Hqx). congruence.
Qed.

(** A change of a process that does not run. *)
Lemma machine_modify k pid p f :
  machine_ok k → pt_current (table k) ≠ Some pid → process (table k) pid = Some p →
  (∀ p, p_pid (f p) = p_pid p) → p_state (f p) ≠ PsRunning → kept_context p (f p) →
  machine_ok (k <| ks_rt ::= λ rt, rt <| rt_processes ::= λ t, (modify_process t pid f).2 |> |>).
Proof.
  intros [S C G T] Hcur Hp Hf Hs Hk. pose proof (sp_wf _ S) as Hwf. set (k' := set ks_rt _ k).
  assert (Hq : ∀ q, process (table k') q = if decide (q = pid) then f <$> process (table k) q else process (table k) q).
  { intros q. by apply process_modify_process. }
  assert (W' : ptable_wf (table k')) by (by apply modify_process_wf).
  split; [|split|done|].
  - apply (spaces_modify k _ pid f); [done|done| |done|done|apply S].
    intros p0 Hp0. rewrite Hp in Hp0. by injection Hp0 as <-.
  - done.
  - destruct (cpu_current _ C) as (q & Hq0 & Hr & Hc). exists q. split_and!; [|done|done].
    unfold current_process in *. change (table k') with (modify_process (table k) pid f).2 in *.
    rewrite modify_process_current. destruct (pt_current (table k)) as [cur|]; [|done]. cbn in *.
    rewrite Hq, decide_False by congruence. done.
  - intros q Hin Hr. change (table k') with (modify_process (table k) pid f).2 in *. rewrite modify_process_current.
    assert (Hq' : process (modify_process (table k) pid f).2 (p_pid q) = Some q) by (by apply process_live).
    rewrite Hq in Hq'. case_decide as Hd.
    + rewrite Hd, Hp in Hq'. by injection Hq' as <-.
    + apply process_live in Hq' as [Hin' _]; [|done]. by apply (cpu_only _ C).
  - by apply modified_templates.
Qed.

Lemma not_current k pid :
  cpu_ok k → negb (bool_decide (p_pid <$> current_process (table k) = Some pid)) → pt_current (table k) ≠ Some pid.
Proof.
  intros [Hwf (p & Hp & _) _] Hn Hc. destruct (current_pid k p Hwf Hp) as [Hc' _]. rewrite Hp in Hn. cbn in Hn.
  rewrite Hc in Hc'. injection Hc' as ->. by rewrite bool_decide_eq_true_2 in Hn.
Qed.

Lemma kill_machine cap_slot pid k r k' :
  machine_ok k → kill_process cap_slot pid k = Some (r, k') →
  machine_ok k' ∧ (r = Ok tt → left_behind pid k') ∧ (∀ e, r = Err e → k' = k).
Proof.
  intros Hm Hrun. unfold kill_process in Hrun. unfold kbind at 1 in Hrun.
  destruct (on_rt _ k) as [[r2 k2]|] eqn:Ho; [|done].
  apply control_lookup in Ho as ->. destruct r2 as [control|e]; [|by injection Hrun as <- <-].
  unfold kbind at 1, kget at 1 in Hrun. unfold kbind at 1, kguard at 1 in Hrun.
  destruct (negb _) eqn:Hn; [|by injection Hrun as <- <-]. unfold kret in Hrun.
  destruct (process (table k) pid) as [p|] eqn:Hp; [|by injection Hrun as <- <-].
  unfold kbind at 1, kguard at 1 in Hrun.
  destruct (negb (p_pid p =? 1)%Z); [unfold kret in Hrun|by injection Hrun as <- <-].
  assert (Hcur : pt_current (table k) ≠ Some pid) by (apply not_current; [apply Hm|by rewrite Hn]).
  unfold kbind at 1, modify_rt at 1, kmodify at 1 in Hrun. set (k1 := set ks_rt _ k) in Hrun.
  assert (Hm1 : machine_ok k1 ∧ has_ended pid k1).
  { split; [apply (machine_modify k pid p); [done..|]; split; [done..|by left]|].
    exists (end_process STATUS_KILLED p). split; [|done].
    etransitivity; [apply process_modify_process; [apply Hm|done]|]. by rewrite decide_True, Hp. }
  clearbody k1. assert (Hstep : ∀ f k0, (∀ rt, rt_kept rt (f rt)) → machine_ok k0 ∧ has_ended pid k0 →
    machine_ok (k0 <| ks_rt ::= f |>) ∧ has_ended pid (k0 <| ks_rt ::= f |>)).
  { intros f k0 Hf [H1 H2]. split; [by apply machine_rt|]. apply ended_rt; [apply H1|done..]. }
  unfold kbind, modify_rt, kmodify in Hrun.
  apply (Hstep (release_descriptions pid)) in Hm1; [|apply rt_kept_descriptions].
  apply (Hstep (cancel_owner pid)) in Hm1; [|apply rt_kept_cancel_owner].
  apply (Hstep release_unreferenced_derived_vfs_roots) in Hm1; [|apply rt_kept_release_roots].
  apply (Hstep (abort_services (Some (p_name p)))) in Hm1 as [Hm1 (q & Hq & Hx)]; [|apply rt_kept_abort_services].
  destruct (reap_machine pid _ q Hm1 Hq Hx) as (k3 & Hrun3 & Hm3 & Hre). rewrite Hrun3 in Hrun.
  injection Hrun as <- <-. split_and!; [done| |done]. intros _. apply Hre.
Qed.

(** ** A new address space *)

(** An address space was built that no process has yet. *)
Record loaded (root : Z) (k : KernelState) : Prop := mk_loaded {
  ld_root : root ≠ 0%Z;
  ld_fresh : root ∉ live_roots (table k);
  ld_spaces : pm_spaces ({[root]} ∪ live_roots (table k)) (ks_mem k);
  ld_machine : ∃ m, machine_ok (k <| ks_mem := m |>)
}.

Lemma ld_table_wf root k : loaded root k → ptable_wf (table k).
Proof. intros [_ _ _ [m Hm]]. apply Hm. Qed.

Lemma loaded_rt root k f : loaded root k → rt_kept (ks_rt k) (f (ks_rt k)) → loaded root (k <| ks_rt ::= f |>).
Proof.
  intros Hl Hk. pose proof (ld_table_wf _ _ Hl) as Hwf. destruct Hl as [R F S [m Hm]].
  pose proof (kept_table_roots _ _ Hwf (rk_table _ _ Hk)) as Hr.
  split; [done|..]; try (change (table (k <| ks_rt ::= f |>)) with (rt_processes (f (ks_rt k))); by rewrite Hr).
  exists m. exact (machine_rt (k <| ks_mem := m |>) f Hm Hk).
Qed.

Lemma load_machine base len k r k' :
  machine_ok k → load_process_context base len k = Some (r, k') →
  ks_rt k' = ks_rt k ∧
  match r with Ok c => loaded (cr3 c) k' | Err _ => machine_ok k' end.
Proof.
  intros Hm Hrun. unfold load_process_context in Hrun. destruct (_ || _); [by injection Hrun as <- <-|].
  destruct (pm_load (ks_cr3 k) base len (ks_mem k)) as [c m] eqn:Hl. injection Hrun as <- <-. split; [done|].
  assert (Hin : ks_cr3 k ∈ live_roots (table k)).
  { destruct (cpu_current _ (mo_cpu _ Hm)) as (p & Hp & Hr & Hc).
    destruct (current_pid k p (sp_wf _ (mo_spaces _ Hm)) Hp) as [_ Hproc].
    apply elem_of_live_roots; [apply Hm|]. rewrite Hc. split; [|eauto].
    apply (sp_alive _ (mo_spaces _ Hm) _ _ Hproc). by rewrite Hr. }
  pose proof (sp_spaces _ (mo_spaces _ Hm)) as Hs. destruct c as [c|]; cbn [ok_or].
  - destruct (pm_load_ok _ _ _ _ _ _ _ Hs Hin Hl) as (Hf & Hz & Hs'). split; [done..|].
    exists (ks_mem k). by apply (machine_kept k).
  - pose proof (pm_load_failed _ _ _ _ _ _ Hs Hin Hl) as Hs'. destruct Hm as [S C G T]. split; [|by eapply cpu_kept|done|done].
    by eapply spaces_kept_mem.
Qed.

Lemma machine_mem k m m' :
  machine_ok (k <| ks_mem := m |>) → pm_spaces (live_roots (table k)) m' → machine_ok (k <| ks_mem := m' |>).
Proof.
  intros [S C G T] Hm. split; [|by eapply (cpu_kept _ _ C)|done|done]. by eapply (spaces_kept_mem _ _ S).
Qed.

(** It is given back. *)
Lemma reclaim_loaded root k :
  loaded root k → ∃ k', reclaim_detached_address_space root k = Some (Ok tt, k') ∧ machine_ok k'.
Proof.
  intros [R F S [m Hm]]. unfold reclaim_detached_address_space. destruct (Z.eqb_spec root 0) as [|_]; [done|].
  eexists. split; [done|]. destruct (pm_reclaim_ok root _ _ S) as (m' & Hr & Hm'); [set_solver|].
  change (k <| ks_mem ::= λ m, (pm_reclaim root m).2 |>) with (k <| ks_mem := (pm_reclaim root (ks_mem k)).2 |>).
  rewrite Hr. cbn. apply (machine_mem k m); [done|].
  by replace (({[root]} ∪ live_roots (table k)) ∖ {[root]}) with (live_roots (table k)) in Hm' by set_solver.
Qed.

(** It becomes the address space of a process that had none. *)
Lemma attach_loaded k pid p f root :
  loaded root k → process (table k) pid = Some p → p_state p = PsExited → cr3 (p_context p) = 0%Z →
  (∀ p, p_pid (f p) = p_pid p) → cr3 (p_context (f p)) = root → p_context_reaped (f p) = false →
  p_state (f p) ≠ PsRunning → (∀ m, Some m ∉ p_dma_mappings (f p)) →
  machine_ok (k <| ks_rt ::= λ rt, rt <| rt_processes ::= λ t, (modify_process t pid f).2 |> |>).
Proof.
  intros [R F S [m [[W Sm O Rp A D] C G T]]] Hp Hx Hz Hf Hroot Hre Hs Hd.
  assert (Hcur : pt_current (table k) ≠ Some pid).
  { apply (current_not_ended _ _ C). by exists p. }
  set (k' := set ks_rt _ k). change (ptable_wf (table k)) in W.
  assert (Hq : ∀ q, process (table k') q = if decide (q = pid) then f <$> process (table k) q else process (table k) q).
  { intros q. by apply process_modify_process. }
  assert (W' : ptable_wf (table k')) by (by apply modify_process_wf).
  assert (Hfresh : ∀ q pq, process (table k) q = Some pq → cr3 (p_context pq) ≠ root).
  { intros q pq Hpq <-. apply F. apply elem_of_live_roots; eauto. }
  split; [split|split|done|]; [done|..].
  - assert (He : live_roots (table k') = {[root]} ∪ live_roots (table k)); [|by rewrite He].
    apply set_eq. intros r. rewrite elem_of_union, elem_of_singleton, !elem_of_live_roots by done. split.
    + intros (Hr & q & pq & Hpq & Hc). rewrite Hq in Hpq. case_decide as Hd'; [|right; eauto].
      subst q. rewrite Hp in Hpq. injection Hpq as <-. left. congruence.
    + intros [->|(Hr & q & pq & Hpq & Hc)].
      * split; [done|]. exists pid, (f p). by rewrite Hq, decide_True, Hp.
      * split; [done|]. exists q, pq. split; [|done]. rewrite Hq, decide_False; [done|]. intros ->. congruence.
  - intros q q' p1 p2. rewrite !Hq. repeat case_decide; subst; [done| | |by apply O].
    + rewrite Hp. intros [= <-] H2 _ He. exfalso. by eapply Hfresh.
    + rewrite Hp. intros H1 [= <-] _ He. exfalso. by eapply Hfresh.
  - intros q p1. rewrite Hq. case_decide; [|by apply Rp]. subst q. rewrite Hp. intros [= <-].
    rewrite Hre. symmetry. apply bool_decide_eq_false_2. by rewrite Hroot.
  - intros q p1. rewrite Hq. case_decide; [|by apply A]. subst q. rewrite Hp. intros [= <-] _. by rewrite Hroot.
  - intros q p1 m'. rewrite Hq. case_decide; [|by apply D]. subst q. rewrite Hp. intros [= <-] Hin. by destruct (Hd m').
  - done.
  - destruct (cpu_current _ C) as (q & Hq0 & Hr & Hc). exists q. split_and!; [|done|done].
    unfold current_process in *. change (table k') with (modify_process (table k) pid f).2 in *.
    change (table (k <| ks_mem := m |>)) with (table k) in *.
    rewrite modify_process_current. destruct (pt_current (table k)) as [cur|]; [|done]. cbn in *.
    rewrite Hq, decide_False by congruence. done.
  - intros q Hin Hr. change (table k') with (modify_process (table k) pid f).2 in *. rewrite modify_process_current.
    assert (Hq' : process (modify_process (table k) pid f).2 (p_pid q) = Some q) by (by apply process_live).
    rewrite Hq in Hq'. case_decide as Hd'.
    + rewrite Hd', Hp in Hq'. by injection Hq' as <-.
    + apply process_live in Hq' as [Hin' _]; [|done]. by apply (cpu_only _ C).
  - by apply modified_templates.
Qed.

(** ** Start *)

Lemma reaped_left_behind pid k k' : reaped pid k k' → left_behind pid k'.
Proof. intros Hr. apply Hr. Qed.

Lemma try_init_run {A} (c : Init A) k :
  ∃ b, try_init c k = Some (Ok b, k <| ks_rt ::= λ rt, (c rt).2 |>).
Proof.
  unfold try_init. destruct (c (ks_rt k)) as [r rt] eqn:Hc. exists (is_ok r). do 2 f_equal.
  destruct k; unfold set; cbn in *. by rewrite Hc.
Qed.

(** The context a process restarts with, and the state it is found in. *)
Lemma reload_machine pid p k r k' :
  machine_ok k → process (table k) pid = Some p → p_state p = PsDeclared ∨ p_state p = PsExited →
  reload_context pid p k = Some (r, k') →
  match r with
  | Ok (Some c) => loaded (cr3 c) k' ∧ left_behind pid k'
  | Ok None => k' = k ∧ p_state p = PsDeclared
  | Err _ => machine_ok k'
  end.
Proof.
  intros Hm Hp Hs Hrun. unfold reload_context in Hrun. case_bool_decide as Hx.
  2:{ injection Hrun as <- <-. naive_solver. }
  unfold kbind at 1 in Hrun. destruct (reap_machine pid k p Hm Hp Hx) as (k1 & Hrun1 & Hm1 & Hre). rewrite Hrun1 in Hrun.
  unfold kbind at 1 in Hrun. destruct (load_process_context _ _ k1) as [[[c|e] k2]|] eqn:Hl; [| |done].
  all: apply load_machine in Hl as [Hrt2 Hl]; [|done].
  2:{ by injection Hrun as <- <-. }
  assert (Hlb : left_behind pid k2) by (unfold left_behind; rewrite Hrt2; apply Hre).
  unfold kbind at 1, kget at 1 in Hrun. unfold kbind at 1, klift at 1 in Hrun.
  destruct Hlb as (p2 & Hp2 & Hx2 & Hz2).
  destruct (mo_templates _ Hm1 pid p2) as [entry Hentry]; [by rewrite <-Hrt2|].
  rewrite Hrt2, Hentry in Hrun. cbn [ok_or] in Hrun. unfold kbind at 1 in Hrun.
  set (mount := install_declared_process_mounts _ _ _) in Hrun.
  destruct (try_init_run mount k2) as (b & Hb). rewrite Hb in Hrun.
  assert (Hkm : rt_kept (ks_rt k2) (mount (ks_rt k2)).2) by apply install_mounts_keeps.
  pose proof (loaded_rt _ _ (λ rt, (mount rt).2) Hl Hkm) as Hl3. destruct b; cbn [negb] in Hrun.
  - injection Hrun as <- <-. split; [done|].
    destruct (kept_fwd _ _ _ _ (ld_table_wf _ _ Hl) (rk_table _ _ Hkm) Hp2) as (p3 & Hp3 & K3). exists p3.
    split_and!; [done|by apply (kept_exited _ _ K3)|by rewrite (kp_context _ _ K3)].
  - unfold kbind in Hrun. destruct (reclaim_loaded _ _ Hl3) as (k4 & Hrun4 & Hm4). rewrite Hrun4 in Hrun.
    by injection Hrun as <- <-.
Qed.

Lemma started_pid c p : p_pid (started_process c p) = p_pid p.
Proof. by destruct c. Qed.
Lemma started_state c p : p_state (started_process c p) = PsReady.
Proof. by destruct c. Qed.

(** What [start_process] writes once the context is ready. *)
Lemma started_machine pid p c k :
  match c with
  | Some c => loaded (cr3 c) k ∧ left_behind pid k
  | None => machine_ok k ∧ p_state p = PsDeclared
  end → process (table k) pid = Some p →
  machine_ok (k <| ks_rt ::= λ rt, rt <| rt_processes ::= λ t, (modify_process t pid (started_process c)).2 |> |>).
Proof.
  intros Hc Hp. destruct c as [c|].
  - destruct Hc as [Hl (p' & Hp' & Hx & Hz)]. rewrite Hp in Hp'. injection Hp' as <-.
    apply (attach_loaded k pid p _ (cr3 c)); try done.
    intros m [j Hj]%list_elem_of_lookup. cbn in Hj. rewrite lookup_map_upto in Hj.
    case_bool_decide as Hb; [by destruct (p_dma_mappings p !! j)|].
    apply lookup_lt_Some in Hj. cbn in *. lia.
  - destruct Hc as [Hm Hd]. apply (machine_modify k pid p); try done.
    + intros Hcur. destruct (cpu_current _ (mo_cpu _ Hm)) as (q & Hq & Hr & _).
      unfold current_process in Hq. rewrite Hcur in Hq. cbn in Hq. congruence.
    + split; try done; [|by left]. intros _. apply (sp_alive _ (mo_spaces _ Hm) _ _ Hp). by rewrite Hd.
Qed.

Lemma start_machine cap_slot pid k r k' :
  machine_ok k → start_process cap_slot pid k = Some (r, k') →
  machine_ok k' ∧ (r = Ok tt → ∃ p, process (table k') pid = Some p ∧ p_state p = PsReady).
Proof.
  intros Hm Hrun. unfold start_process in Hrun. unfold kbind at 1 in Hrun.
  destruct (on_rt _ k) as [[r2 k2]|] eqn:Ho; [|done].
  apply control_lookup in Ho as ->. destruct r2 as [control|e]; [|by injection Hrun as <- <-].
  unfold kbind at 1, kget at 1 in Hrun. unfold kbind at 1, klift at 1 in Hrun.
  destruct (process (table k) pid) as [p|] eqn:Hp; [|by injection Hrun as <- <-]. cbn [ok_or] in Hrun.
  unfold kbind at 1, kguard at 1 in Hrun. destruct (_ || _) eqn:Hst; [unfold kret at 1 in Hrun|by injection Hrun as <- <-].
  unfold kbind at 1 in Hrun. destruct (reload_context pid p k) as [[r1 k1]|] eqn:Hre; [|done].
  apply reload_machine in Hre; [|done..|by apply orb_true_iff in Hst as [?%bool_decide_eq_true|?%bool_decide_eq_true]; auto].
  destruct r1 as [c|e]; [|by injection Hrun as <- <-].
  unfold kbind at 1, kget at 1 in Hrun. destruct (process (table k1) pid) as [p1|] eqn:Hp1.
  2:{ exfalso. destruct c; [destruct Hre as [_ (? & ? & _)]|destruct Hre as [-> _]]; congruence. }
  assert (Hm2 := started_machine pid p1 c k1). unfold kbind at 1, modify_rt at 1, kmodify at 1 in Hrun.
  set (k2 := set ks_rt _ k1) in *. assert (Hok2 : machine_ok k2).
  { apply Hm2; [|done]. destruct c; [done|]. destruct Hre as [-> Hd]. split; [done|congruence]. }
  assert (Hwf1 : ptable_wf (table k1)).
  { destruct c; [eapply ld_table_wf; apply Hre|]. destruct Hre as [-> _]. apply Hm. }
  assert (Hp2 : process (table k2) pid = Some (started_process c p1)).
  { etransitivity; [apply process_modify_process; [done|intros; apply started_pid]|].
    by rewrite decide_True, Hp1. }
  clear Hm2. clearbody k2. assert (Hfin : ∃ k3, machine_ok k3 ∧ rt_kept (ks_rt k2) (ks_rt k3) ∧ Some (Ok tt, k3) = Some (r, k')).
  { unfold kbind at 1 in Hrun. set (rel := if bool_decide (is_Some c) then _ else _) in Hrun.
    assert (∃ k3, rel k2 = Some (Ok tt, k3) ∧ machine_ok k3 ∧ rt_kept (ks_rt k2) (ks_rt k3)) as (k3 & Hr3 & Hm3 & K3).
    { unfold rel. case_bool_decide; [|by exists k2]. eexists. split; [done|].
      split; [apply machine_rt; [done|]|]; apply rt_kept_descriptions. }
    rewrite Hr3 in Hrun. unfold kbind, modify_rt, kmodify in Hrun. rewrite <-Hrun.
    eexists. split_and!; [| |done].
    - apply (machine_rt _ (λ rt, record_service_lifecycle rt _ _ _)); [|apply rt_kept_lifecycle].
      apply machine_rt; [done|apply rt_kept_release_roots].
    - etransitivity; [exact K3|]. etransitivity; [|apply (rt_kept_lifecycle (release_unreferenced_derived_vfs_roots (ks_rt k3)))].
      apply rt_kept_release_roots. }
  destruct Hfin as (k3 & Hm3 & K3 & [= <- <-]). split; [done|]. intros _.
  destruct (kept_fwd _ _ _ _ (sp_wf _ (mo_spaces _ Hok2)) (rk_table _ _ K3) Hp2) as (p3 & Hp3 & K). exists p3.
  split; [done|]. destruct (kp_state _ _ K) as [->|(_ & _ & ->)]; [by rewrite started_state|done].
Qed.

(** ** Creation *)

Lemma first_index_insert {A} (P : A → bool) (l : list A) n i x y :
  l !! i = Some y → P x = false → P y = false → first_index P (<[i := x]> l) n = first_index P l n.
Proof.
  intros Hy Hx Hpy. apply option_eq. intros j. rewrite !first_index_Some.
  assert (Hl : ∀ j z, <[i := x]> l !! j = Some z → P z = true → l !! j = Some z).
  { intros j0 z [(-> & <- & _)|[_ ?]]%list_lookup_insert_Some Hz; congruence. }
  assert (Hl' : ∀ j z, l !! j = Some z → P z = true → <[i := x]> l !! j = Some z).
  { intros j0 z Hz Hp. destruct (decide (i = j0)) as [->|Hne]; [congruence|by rewrite list_lookup_insert_ne]. }
  split; intros (Hj & (z & Hz & Hp) & Hmin); (split_and!; [done|eauto|]); intros j0 z0 Hj0 Hz0;
    destruct (P z0) eqn:He; try done; exfalso.
  - specialize (Hl' _ _ Hz0 He). by rewrite (Hmin _ _ Hj0 Hl') in He.
  - specialize (Hl _ _ Hz0 He). by rewrite (Hmin _ _ Hj0 Hl) in He.
Qed.

(** A template that changes hands does not concern other processes. *)
Lemma config_for_pid_insert rt index old new pid :
  rt_process_template_pids rt !! index = Some old → old ≠ Some pid → new ≠ Some pid →
  process_config_for_pid (rt <| rt_process_template_pids ::= <[index := new]> |>) pid = process_config_for_pid rt pid.
Proof.
  intros Ho Hne Hne'. unfold process_config_for_pid. cbn. destruct (rt_active_config rt) as [config|]; [|done]. cbn.
  by rewrite (first_index_insert _ _ _ _ _ old) by (done || by apply bool_decide_eq_false_2).
Qed.

Lemma config_templates rt f :
  (∀ l, length (f l) = length l) → config_ok rt → config_ok (rt <| rt_process_template_pids ::= f |>).
Proof. intros Hf (c & Hc & Hl & He). exists c. cbn. by rewrite Hf. Qed.

(** Without the process [pid]. *)
Lemma removed_ok k k' t pid p :
  spaces_wf k → cpu_ok k → process (table k) pid = Some p → p_state p ≠ PsRunning →
  ptable_wf t → pt_current t = pt_current (table k) →
  (∀ q pq, process t q = Some pq ↔ q ≠ pid ∧ process (table k) q = Some pq) →
  table k' = t → ks_cr3 k' = ks_cr3 k → pm_spaces (live_roots (table k) ∖ {[cr3 (p_context p)]}) (ks_mem k') →
  spaces_wf k' ∧ cpu_ok k'.
Proof.
  intros [W S O R A D] C Hp Hs W' Hcur' Hq Ht Hc Hm. subst t.
  assert (Hcur : pt_current (table k) ≠ Some pid).
  { intros Hcur. destruct (cpu_current _ C) as (q & Hq0 & Hr & _). unfold current_process in Hq0.
    rewrite Hcur in Hq0. cbn in Hq0. congruence. }
  split; [split|split]; try done.
  - assert (He : live_roots (table k') = live_roots (table k) ∖ {[cr3 (p_context p)]}); [|by rewrite He].
    apply set_eq. intros r. rewrite elem_of_difference, elem_of_singleton, !elem_of_live_roots by done. split.
    + intros (Hr & q & pq & [Hne Hpq]%Hq & Hcr). split; [split; [done|eauto]|]. intros ->. apply Hne.
      apply (O q pid pq p); congruence.
    + intros [(Hr & q & pq & Hpq & Hcr) Hne]. split; [done|]. exists q, pq. split; [|done]. apply Hq.
      split; [|done]. intros ->. congruence.
  - intros q q' p1 p2 [_ H1]%Hq [_ H2]%Hq. by eapply O.
  - intros q p1 [_ H1]%Hq. by eapply R.
  - intros q p1 [_ H1]%Hq. by eapply A.
  - intros q p1 m [_ H1]%Hq. by eapply D.
  - destruct (cpu_current _ C) as (q & Hq0 & Hrun & Hcr). exists q. rewrite Hc. split_and!; [|done|done].
    unfold current_process in *. rewrite Hcur'. destruct (pt_current (table k)) as [cur|]; [|done]. cbn in *.
    apply Hq. split; [congruence|done].
  - intros q Hin Hr. rewrite Hcur'. assert (Hq' : process (table k') (p_pid q) = Some q) by (by apply process_live).
    apply Hq in Hq' as [_ Hq']. apply process_live in Hq' as [Hin' _]; [|done]. by apply (cpu_only _ C).
Qed.

(** A process without an address space is removed, and its template is free. *)
Lemma removed_machine k pid t index :
  machine_ok k → left_behind pid k →
  remove_process (table k) pid = (Ok tt, t) → rt_process_template_pids (ks_rt k) !! index = Some (Some pid) →
  machine_ok (k <| ks_rt ::= λ rt, rt <| rt_processes := t |> <| rt_process_template_pids ::= <[index := None]> |> |>).
Proof.
  intros [S C G T] (p & Hp & Hx & Hz) Hrem Hti. pose proof (sp_wf _ S) as W.
  pose proof (remove_process_live (table k) W pid) as Hr. rewrite Hrem in Hr.
  destruct Hr as (W' & Hcur' & _ & _ & Hlive).
  assert (Hq : ∀ q pq, process t q = Some pq ↔ q ≠ pid ∧ process (table k) q = Some pq).
  { intros q pq. rewrite !process_live, Hlive, list_elem_of_filter by done. split.
    - intros [[Hne Hin] <-]. done.
    - intros [Hne [Hin <-]]. done. }
  set (k' := set ks_rt _ k). destruct (removed_ok k k' t pid p) as [S' C']; try done; [by rewrite Hx| |].
  - assert (He : live_roots (table k) ∖ {[cr3 (p_context p)]} = live_roots (table k)); [|rewrite He; apply S].
    assert (cr3 (p_context p) ∉ live_roots (table k)); [|set_solver]. rewrite elem_of_live_roots by done. naive_solver.
  - split; [done|done|..].
    + apply (config_templates ((ks_rt k) <| rt_processes := t |>)); [intros; apply length_insert|done].
    + intros q pq [Hne Hpq]%Hq. pose proof (T _ _ Hpq) as HT.
      change (is_Some (process_config_for_pid
        ((ks_rt k) <| rt_processes := t |> <| rt_process_template_pids ::= <[index := None]> |>) q)).
      rewrite (config_for_pid_insert _ index (Some pid)) by (done || congruence). exact HT.
Qed.

Lemma recycle_machine index k r k' :
  machine_ok k → recycle_exited_process_template index k = Some (r, k') →
  machine_ok k' ∧ pt_next_id (table k') = pt_next_id (table k).
Proof.
  intros Hm Hrun. unfold recycle_exited_process_template in Hrun. unfold kbind at 1, kget at 1 in Hrun.
  destruct (mo_config _ Hm) as (config & Hconf & Hlen & _). rewrite Hconf in Hrun. unfold kbind at 1, klift at 1 in Hrun.
  cbn [ok_or] in Hrun. unfold kbind at 1, kguard at 1 in Hrun.
  destruct (Nat.ltb_spec index (cn_used (cf_processes config))) as [Hi|]; [unfold kret at 1 in Hrun|by injection Hrun as <- <-].
  destruct (mjoin _) as [pid|] eqn:Hpid; [|by injection Hrun as <- <-].
  assert (Hti : rt_process_template_pids (ks_rt k) !! index = Some (Some pid)).
  { destruct (_ !! index) as [[q|]|]; by simplify_eq/=. }
  unfold kbind at 1, klift at 1 in Hrun. destruct (process (table k) pid) as [p|] eqn:Hp; [|by injection Hrun as <- <-].
  cbn [ok_or] in Hrun. unfold kbind at 1, kguard at 1 in Hrun. case_bool_decide as Hx; [|by injection Hrun as <- <-].
  unfold kret at 1 in Hrun. unfold kbind at 1 in Hrun.
  destruct (reap_machine pid k p Hm Hp Hx) as (k1 & Hrun1 & Hm1 & Hre). rewrite Hrun1 in Hrun.
  pose proof (ra_next _ _ _ Hre) as Hn. destruct (remove_process (table k1) pid) as [[[]|e] t] eqn:Hrem.
  2:{ by injection Hrun as <- <-. }
  injection Hrun as <- <-. split.
  - by apply (removed_machine k1 pid); [|apply Hre| |rewrite (ra_templates _ _ _ Hre)].
  - cbn. unfold remove_process in Hrem. repeat case_match; by simplify_eq.
Qed.

(** A process was added for the address space [root] and is not a template yet. *)
Record added (pid : ProcessId) (root : Z) (k : KernelState) : Prop := mk_added {
  ad_spaces : spaces_wf k;
  ad_cpu : cpu_ok k;
  ad_config : config_ok (ks_rt k);
  ad_templates q p : q ≠ pid → process (table k) q = Some p → is_Some (process_config_for_pid (ks_rt k) q);
  ad_root : root ≠ 0%Z;
  ad_new : ∃ p, process (table k) pid = Some p ∧ cr3 (p_context p) = root ∧ p_state p ≠ PsRunning;
  ad_last : last (p_pid <$> live_processes (table k)) = Some pid
}.

Lemma added_rt pid root k f : added pid root k → rt_kept (ks_rt k) (f (ks_rt k)) → added pid root (k <| ks_rt ::= f |>).
Proof.
  intros [S C G T R (p & Hp & Hc & Hs) L] K. pose proof (sp_wf _ S) as W. split.
  - eapply spaces_kept; [done|apply K|done].
  - eapply cpu_kept; [done|apply K|done].
  - by eapply config_kept.
  - intros q p' Hne (p0 & Hp0 & _)%(kept_inv _ _ _ _ W (rk_table _ _ K)).
    change (ks_rt (k <| ks_rt ::= f |>)) with (f (ks_rt k)).
    rewrite (config_for_pid_kept (ks_rt k)) by apply K. by eapply T.
  - done.
  - destruct (kept_fwd _ _ _ _ W (rk_table _ _ K) Hp) as (p' & Hp' & Kp). exists p'.
    split_and!; [done|by rewrite (kp_context _ _ Kp)|by rewrite (kept_running _ _ Kp)].
  - change (table (k <| ks_rt ::= f |>)) with (rt_processes (f (ks_rt k))).
    by rewrite (kt_pids _ _ (rk_table _ _ K) W).
Qed.

Lemma add_loaded root k name base len mount_root c pid t :
  loaded root k → cr3 c = root → (pt_next_id (table k) < u64_max)%Z →
  add_process (table k) name c base len PsDeclared cspace_new mount_root = (Ok pid, t) →
  added pid root (k <| ks_rt ::= λ rt, rt <| rt_processes := t |> |>).
Proof.
  intros [R F S [m [[W Sm O Rp A D] C G T]]] Hc Hn Hadd. change (ptable_wf (table k)) in W.
  pose proof (add_process_live (table k) W name c base len PsDeclared cspace_new mount_root Hn) as Ha.
  rewrite Hadd in Ha. destruct Ha as (-> & W' & Hcur & Hfresh & Hlive). set (pid := pt_next_id (table k)) in *.
  set (new := process_new _ _ _ _ _ _ _ _) in Hlive.
  assert (Hnone : ∀ pq, process (table k) pid ≠ Some pq).
  { intros pq [Hin Hpid]%process_live; [|done]. apply Hfresh. rewrite <-Hpid. by apply list_elem_of_fmap_2. }
  assert (Hq : ∀ q pq, process t q = Some pq ↔ q = pid ∧ pq = new ∨ process (table k) q = Some pq).
  { intros q pq. rewrite !process_live, Hlive, elem_of_app, list_elem_of_singleton by done. split.
    - intros [[?| ->] <-]; [by right|by left].
    - intros [[-> ->]|[? <-]]; [|by auto]. auto. }
  assert (Hroot : ∀ q pq, process (table k) q = Some pq → cr3 (p_context pq) ≠ root).
  { intros q pq Hpq Hr. apply F. apply elem_of_live_roots; [done|]. split; [done|eauto]. }
  split; [split|split|..]; try done.
  - assert (He : live_roots t = {[root]} ∪ live_roots (table k)); [|cbn; by rewrite He].
    apply set_eq. intros r. rewrite elem_of_union, elem_of_singleton, !elem_of_live_roots by done. split.
    + intros (Hr & q & pq & [[-> ->]|Hpq]%Hq & Hcr); [by left; rewrite <-Hcr|right; eauto].
    + intros [->|(Hr & q & pq & Hpq & Hcr)]; (split; [done|]); [exists pid, new|exists q, pq]; rewrite Hq; auto.
  - cbn. intros q q' p1 p2 [[-> ->]|H1]%Hq [[-> ->]|H2]%Hq Hz He; [done|..|by eapply O].
    + exfalso. apply (Hroot _ _ H2). rewrite <-He. exact Hc.
    + exfalso. apply (Hroot _ _ H1). rewrite He. exact Hc.
  - cbn. intros q p1 [[-> ->]|H1]%Hq; [|by eapply Rp]. cbn. rewrite Hc. symmetry. by apply bool_decide_eq_false_2.
  - cbn. intros q p1 [[-> ->]|H1]%Hq; [|by eapply A]. cbn. by rewrite Hc.
  - cbn. intros q p1 m' [[-> ->]|H1]%Hq; [|by eapply D]. intros [j Hj]%list_elem_of_lookup.
    change (replicate MAX_OBJECTS None !! j = Some (Some m')) in Hj. by apply lookup_replicate in Hj as [[=] _].
  - destruct (cpu_current _ C) as (q & Hq0 & Hr & Hcr). exists q. split_and!; [|done|done].
    unfold current_process in *. cbn. rewrite Hcur.
    change (table (k <| ks_mem := m |>)) with (table k) in Hq0. destruct (pt_current (table k)) as [cur|]; [|done].
    cbn in *. apply Hq. by right.
  - cbn. intros q Hin Hr. rewrite Hcur. assert (Hq' : process t (p_pid q) = Some q) by (by apply process_live).
    apply Hq in Hq' as [[_ ->]|Hq']; [done|]. apply process_live in Hq' as [Hin' _]; [|done]. by apply (cpu_only _ C).
  - intros q p1 Hne [[-> _]|H1]%Hq; [done|]. exact (T q p1 H1).
  - exists new. split_and!; [|done|done]. apply Hq. by left.
  - change (last (p_pid <$> live_processes t) = Some pid). rewrite Hlive, fmap_app. exact (last_snoc pid _).
Qed.

(** The failed creation is undone. *)
Lemma undo_machine pid root k :
  added pid root k → ∃ k', undo_create pid root k = Some (Err BadCapability, k') ∧ machine_ok k'.
Proof.
  intros Ha. unfold undo_create. unfold kbind at 1, modify_rt at 1, kmodify at 1.
  apply (added_rt _ _ _ (λ rt, (remove_owned_bind_mounts false rt pid).2)) in Ha; [|apply rt_kept_bind_mounts].
  set (k1 := set ks_rt _ k) in *. clearbody k1. destruct Ha as [S C G T R (p & Hp & Hc & Hs) L].
  pose proof (sp_wf _ S) as W. unfold kbind at 1, modify_rt at 1, kmodify at 1. set (k2 := set ks_rt _ k1).
  pose proof (remove_last_process_live (table k1) W pid) as Hr.
  destruct (remove_last_process (table k1) pid) as [[[]|e] t] eqn:Hrem.
  2:{ exfalso. destruct Hr as (_ & _ & Hr). apply Hr. by rewrite <-fmap_last. }
  destruct Hr as (W' & Hcur & p' & Hpid & Hlive).
  assert (Ht : table k2 = t) by (unfold k2, set; cbn; by rewrite Hrem).
  assert (Hq : ∀ q pq, process t q = Some pq ↔ q ≠ pid ∧ process (table k1) q = Some pq).
  { intros q pq. rewrite !process_live, Hlive, elem_of_app, list_elem_of_singleton by done. split.
    - intros [Hin <-]. split; [|auto]. intros He. pose proof (pw_nodup _ W) as Hnd.
      rewrite Hlive, fmap_app, NoDup_app in Hnd. destruct Hnd as (_ & Hnd & _).
      apply (Hnd pid); [rewrite <-He; by apply list_elem_of_fmap_2|]. cbn. rewrite Hpid. by left.
    - intros [Hne [[?| ->] <-]]; [done|]. done. }
  unfold kbind, reclaim_detached_address_space. destruct (Z.eqb_spec root 0) as [|_]; [done|].
  eexists. split; [done|]. destruct (pm_reclaim_ok root _ _ (sp_spaces _ S)) as (m' & Hrec & Hm').
  { apply elem_of_live_roots; eauto. }
  set (k3 := set ks_mem _ k2). assert (Hm3 : ks_mem k3 = m') by (unfold k3, set; cbn; by rewrite Hrec).
  destruct (removed_ok k1 k3 t pid p) as [S' C']; try done; [by rewrite Hm3, Hc|]. split; [done|done|..].
  - done.
  - intros q pq Hpq. change (table k3) with (table k2) in Hpq. rewrite Ht in Hpq. apply Hq in Hpq as [Hne Hpq].
    change (is_Some (process_config_for_pid (ks_rt k2) q)). rewrite (config_for_pid_kept (ks_rt k1)) by done. by eapply T.
Qed.

(** The new process becomes the template's. *)
Lemma templated_machine k index config pid root :
  added pid root k → rt_active_config (ks_rt k) = Some config → index < cn_used (cf_processes config) →
  mjoin (rt_process_template_pids (ks_rt k) !! index) = None →
  machine_ok (k <| ks_rt ::= λ rt, rt <| rt_process_template_pids ::= <[index := Some pid]> |> |>).
Proof.
  intros [S C G T R N L] Hconf Hi Hnone. destruct G as (config' & Hconf' & Hlen & Hent).
  rewrite Hconf in Hconf'. injection Hconf' as <-.
  assert (Hti : rt_process_template_pids (ks_rt k) !! index = Some None).
  { destruct (lookup_lt_is_Some_2 (rt_process_template_pids (ks_rt k)) index) as [o Ho]; [lia|].
    rewrite Ho in Hnone |- *. cbn in Hnone. by subst o. }
  split; [by eapply spaces_kept|by eapply cpu_kept|..].
  - apply (config_templates (ks_rt k)); [intros; apply length_insert|]. by exists config.
  - intros q p Hq. change (is_Some (process_config_for_pid
      ((ks_rt k) <| rt_process_template_pids ::= <[index := Some pid]> |>) q)).
    destruct (decide (q = pid)) as [->|Hne].
    + unfold process_config_for_pid. cbn. rewrite Hconf. cbn.
      destruct (first_index _ _ _) as [i|] eqn:Hf.
      * apply first_index_Some in Hf as (Hlt & _). destruct (Hent i Hlt) as (process & root' & He & _).
        cbn. by rewrite He.
      * exfalso. assert (HF := proj1 (first_index_None _ _ _) Hf index (Some pid) Hi).
        rewrite list_lookup_insert_eq in HF by (by eapply lookup_lt_Some). specialize (HF eq_refl).
        by rewrite bool_decide_eq_true_2 in HF.
    + rewrite (config_for_pid_insert _ index None) by (done || congruence). by eapply T.
Qed.

Lemma create_checks_ok rt config index entry :
  rt_active_config rt = Some config → create_checks rt index = Ok entry →
  index < cn_used (cf_processes config) ∧ mjoin (rt_process_template_pids rt !! index) = None ∧
  counted_get (cf_processes config) index = Some entry.
Proof.
  intros Hconf Hchk. unfold create_checks in Hchk. rewrite Hconf in Hchk. cbn [ok_or] in Hchk.
  apply res_bind_ok in Hchk as (c & [= <-] & Hchk).
  apply res_bind_ok in Hchk as ([] & Hi%res_guard_ok%Nat.ltb_lt & Hchk).
  apply res_bind_ok in Hchk as ([] & Hfree%res_guard_ok & Hchk).
  apply res_bind_ok in Hchk as (entry' & He%ok_or_ok & Hchk).
  apply res_bind_ok in Hchk as ([] & _ & Hchk). apply res_bind_ok in Hchk as ([] & _ & [= ->]).
  split_and!; [done| |done]. apply eq_None_not_Some. by case_bool_decide.
Qed.

Definition created (c : ProcessContext) (r : Result IpcError ProcessId) (k : KernelState) : Prop :=
  machine_ok k ∧ ∀ pid, r = Ok pid → ∃ p, process (table k) pid = Some p ∧ cr3 (p_context p) = cr3 c.

Lemma undo_created pid c k r k' : added pid (cr3 c) k → undo_create pid (cr3 c) k = Some (r, k') → created c r k'.
Proof. intros Ha Hr. destruct (undo_machine _ _ _ Ha) as (k1 & Hu & Hm). rewrite Hu in Hr. by injection Hr as <- <-. Qed.

(** A step of the boot code on a state with a new process. *)
Lemma added_init {A} pid root (c : Init A) k :
  init_keeps c → added pid root k →
  ∃ b k', try_init c k = Some (Ok b, k') ∧ added pid root k' ∧
    rt_active_config (ks_rt k') = rt_active_config (ks_rt k) ∧
    rt_process_template_pids (ks_rt k') = rt_process_template_pids (ks_rt k).
Proof.
  intros Hc Ha. destruct (try_init_run c k) as (b & Hb). exists b. eexists. split; [exact Hb|].
  split; [apply (added_rt _ _ k (λ rt, (c rt).2)); [done|apply Hc]|].
  split; [exact (rk_config _ _ (Hc (ks_rt k)))|exact (rk_templates _ _ (Hc (ks_rt k)))].
Qed.

Lemma equip_machine index entry c config mount_root pid k r k' :
  added pid (cr3 c) k → rt_active_config (ks_rt k) = Some config → index < cn_used (cf_processes config) →
  mjoin (rt_process_template_pids (ks_rt k) !! index) = None →
  equip_process index entry c config mount_root pid k = Some (r, k') → created c r k'.
Proof.
  intros Ha Hconf Hi Hfree Hrun. unfold equip_process in Hrun. unfold kbind at 1 in Hrun.
  destruct (added_init pid (cr3 c) (install_declared_process_mounts entry pid mount_root) k)
    as (b & k1 & Hb & Ha1 & Hc1 & Ht1); [apply install_mounts_keeps|done|].
  rewrite Hb in Hrun. destruct b; cbn [negb] in Hrun; [|by eapply undo_created].
  unfold kbind at 1 in Hrun.
  destruct (added_init pid (cr3 c) (grant_config_caps_to_process config index pid) k1)
    as (b & k2 & Hb2 & Ha2 & Hc2 & Ht2); [apply grant_caps_keeps|done|].
  rewrite Hb2 in Hrun. destruct b; cbn [negb] in Hrun; [|by eapply undo_created].
  injection Hrun as <- <-.
  pose proof (templated_machine k2 index config pid (cr3 c) Ha2) as Hm4.
  rewrite Hc2, Hc1, Ht2, Ht1 in Hm4. specialize (Hm4 Hconf Hi Hfree). set (k4 := set ks_rt _ k2) in Hm4. split.
  - apply (machine_rt k4 (λ rt, record_service_lifecycle rt (bp_name entry) SlDeclared None)); [done|apply rt_kept_lifecycle].
  - intros pid' [= <-]. destruct (ad_new _ _ _ Ha2) as (p & Hp & Hcr & _).
    pose proof (rt_kept_lifecycle (ks_rt k4) (bp_name entry) SlDeclared None) as [K _ _].
    destruct (kept_fwd _ _ pid p (sp_wf _ (mo_spaces _ Hm4)) K Hp) as (p' & Hp' & Kp). exists p'.
    split; [done|by rewrite (kp_context _ _ Kp)].
Qed.

Lemma create_loaded_machine index entry c k r k' :
  loaded (cr3 c) k → (pt_next_id (table k) < u64_max)%Z → create_checks (ks_rt k) index = Ok entry →
  create_loaded index entry c k = Some (r, k') → created c r k'.
Proof.
  intros Hl Hn Hchk Hrun. destruct (ld_machine _ _ Hl) as [m Hm]. destruct (mo_config _ Hm) as (config & Hconf & _ & Hent).
  change (rt_active_config (ks_rt k) = Some config) in Hconf.
  apply (create_checks_ok _ config) in Hchk as (Hi & Hfree & He); [|done].
  destruct (Hent index Hi) as (e0 & mount_root & He0 & Hmr). rewrite He0 in He. injection He as ->.
  unfold create_loaded in Hrun. unfold kbind at 1, kget at 1 in Hrun. rewrite Hconf in Hrun.
  unfold kbind at 1, klift at 1 in Hrun. cbn [ok_or] in Hrun. rewrite Hfree in Hrun.
  case_bool_decide as Ht; [by destruct Ht|]. unfold kbind at 1, klift at 1 in Hrun. rewrite Hmr in Hrun. cbn [map_err] in Hrun.
  destruct (add_process _ _ _ _ _ _ _ _) as [[pid|e] t] eqn:Hadd; unfold kbind at 1, modify_rt at 1, kmodify at 1 in Hrun.
  - set (k1 := set ks_rt _ k) in Hrun.
    refine (equip_machine index entry c config mount_root pid k1 r k' _ Hconf Hi Hfree Hrun).
    exact (add_loaded (cr3 c) k _ _ _ _ c pid t Hl eq_refl Hn Hadd).
  - assert (t = table k) as ->. { unfold add_process in Hadd. destruct (_ =? _); by simplify_eq. }
    assert (Hl' : loaded (cr3 c) (k <| ks_rt ::= λ rt, rt <| rt_processes := table k |> |>)).
    { by apply (loaded_rt _ k (λ rt, rt <| rt_processes := table k |>)). }
    destruct (reclaim_loaded _ _ Hl') as (k1 & Hrec & Hm1). unfold kbind in Hrun. rewrite Hrec in Hrun.
    injection Hrun as <- <-. done.
Qed.

Lemma create_machine cap_slot index k r k' :
  machine_ok k → (pt_next_id (table k) < u64_max)%Z → create_process cap_slot index k = Some (r, k') →
  machine_ok k' ∧ ∀ pid, r = Ok pid → ∃ p, process (table k') pid = Some p ∧ cr3 (p_context p) ≠ 0%Z.
Proof.
  intros Hm Hn Hrun. unfold create_process in Hrun. unfold kbind at 1 in Hrun.
  destruct (on_rt _ k) as [[r2 k2]|] eqn:Ho; [|done].
  apply control_lookup in Ho as ->. destruct r2 as [control|e]; [|by injection Hrun as <- <-].
  unfold kbind at 1 in Hrun. destruct (recycle_exited_process_template _ k) as [[r1 k1]|] eqn:Hrec; [|done].
  apply recycle_machine in Hrec as [Hm1 Hn1]; [|done]. destruct r1 as [[]|e]; [|by injection Hrun as <- <-].
  unfold kbind at 1, kget at 1 in Hrun. unfold kbind at 1, klift at 1 in Hrun.
  destruct (create_checks (ks_rt k1) _) as [entry|e] eqn:Hchk; [|by injection Hrun as <- <-].
  unfold kbind at 1 in Hrun. destruct (load_process_context _ _ k1) as [[[c|e] k2]|] eqn:Hl; [| |done].
  all: apply load_machine in Hl as [Hrt Hl]; [|done].
  2:{ by injection Hrun as <- <-. }
  apply create_loaded_machine in Hrun as [Hm3 Hnew]; [|done|by rewrite Hrt, Hn1|by rewrite Hrt].
  split; [done|]. intros pid Hr. destruct (Hnew pid Hr) as (p & Hp & Hc). exists p. split; [done|].
  rewrite Hc. apply Hl.
Qed.

(** ** Every run *)

Lemma sleep_machine fuel slot ms k r k' : machine_ok k → sleep_ms env fuel slot ms k = Some (r, k') → machine_ok k'.
Proof.
  intros Hm Hrun. unfold sleep_ms in Hrun. unfold kbind at 1 in Hrun.
  destruct (on_rt (timer_from_cap slot RIGHT_CONTROL) k) as [[r1 k1]|] eqn:Ho; [|done].
  apply on_rt_lookup_state in Ho as ->; [|intros; apply object_from_cap_unchanged].
  destruct r1 as [t|e]; [|by injection Hrun as <- <-].
  destruct (ms =? 0)%Z; [injection Hrun as <- <-; by apply (machine_kept k)|].
  unfold kbind at 1, deadline_after_ms in Hrun. unfold kbind at 1, read_tsc, kret in Hrun.
  unfold kbind at 1, kget at 1 in Hrun. set (k1 := k <| ks_reads ::= S |>) in *.
  assert (Hm1 : machine_ok k1) by (by apply (machine_kept k)).
  destruct (cpu_current _ (mo_cpu _ Hm1)) as (p & Hp & _). set (d := deadline_at _ _ _) in Hrun.
  destruct (suspend_machine fuel true true ((ks_frame k1) <| rax := STATUS_OK |>) (PsSleeping d) (Ok tt) (Err Empty)
              k1 p r k' Hm1 Hp) as [Hm' _]; [done|done| |done].
  unfold kbind at 1 in Hrun. unfold kbind at 1.
  destruct (park_machine k1 p (suspend ((ks_frame k1) <| rax := STATUS_OK |>) (PsSleeping d)) Hm1 Hp)
    as (k2 & Hrun2 & _); try done.
  rewrite Hrun2 in Hrun |- *. exact Hrun.
Qed.

(** The calls that make, start, run, suspend and end processes, as they follow on each
    other; after [Halt] none does. *)
Inductive process_step (k k' : KernelState) : Prop :=
| StepCreate slot index r : (pt_next_id (table k) < u64_max)%Z → create_process slot index k = Some (r, k') → process_step k k'
| StepStart slot pid r : start_process slot pid k = Some (r, k') → process_step k k'
| StepWait slot pid r : process_wait env slot pid k = Some (r, k') → process_step k k'
| StepKill slot pid r : kill_process slot pid k = Some (r, k') → process_step k k'
| StepYield fuel r : yield_current_process env fuel k = Some (r, k') → process_step k k'
| StepPreempt fuel r : preempt_current_process env fuel k = Some (r, k') → process_step k k'
| StepSleep fuel slot ms r : sleep_ms env fuel slot ms k = Some (r, k') → process_step k k'
| StepWake r : wake_timed_from_interrupt env k = Some (r, k') → process_step k k'
| StepExit fuel status known_good : exit_current_process env fuel status k = Some (Ok (Switched, known_good), k') →
    process_step k k'
| StepFault fuel : fault_current_process env fuel k = Some (Ok Switched, k') → process_step k k'.

Lemma process_step_machine k k' : machine_ok k → process_step k k' → machine_ok k'.
Proof.
  intros Hm Hstep. destruct (cpu_current _ (mo_cpu _ Hm)) as (p & Hp & _).
  destruct Hstep as [?? r Hn Hr|?? r Hr|?? r Hr|?? r Hr|? r Hr|? r Hr|??? r Hr|r Hr|??? Hr|? Hr].
  - by apply create_machine in Hr as [? _].
  - by apply start_machine in Hr as [? _].
  - by apply wait_machine in Hr as [? _].
  - by apply kill_machine in Hr as [? _].
  - by apply yield_machine in Hr as [? _].
  - by apply preempt_machine in Hr as [? _].
  - by apply sleep_machine in Hr.
  - unfold wake_timed_from_interrupt, kbind in Hr. destruct (wake_timed_now env k) as [[[n|e] k1]|] eqn:Hw; [..|done];
      injection Hr as <- <-; by apply wake_timed_machine in Hw as [? _].
  - eapply exit_machine in Hr as [(_ & ? & _)|(? & ? & [=] & _)]; done.
  - eapply fault_machine in Hr as [(_ & ? & _)|(? & [=] & _)]; done.
Qed.

Lemma process_run_machine k k' : machine_ok k → rtc process_step k k' → machine_ok k'.
Proof. intros Hm Hrun. induction Hrun as [|k1 k2 k3 Hs _ IH]; [done|]. by apply IH, (process_step_machine k1). Qed.
End spaces.

(** * Claims *)

(** C9: Process calls neither mix up nor lose address spaces, on a machine with no more
    usable frames than the stack of recycled frames holds (there the kernel's memory
    management satisfies the laws of [ProcessMemory], as [RealMemory] shows; with more
    frames a reclamation can stop halfway) and under a complete configuration: one is
    active, the mount root of each of its processes is a valid path, and every process
    was made from an entry of it.  In every state reached from there by creating,
    starting, restarting, killing, awaiting, yielding, preempting, sleeping, exiting and
    faulting processes, each process that has not ended has an address space of its own,
    the address spaces in memory are exactly those of the processes (a call that fails
    has given back what it loaded, and no space is torn down while its process lives),
    exactly the current process runs, and it runs in its own address space; and the
    configuration is still complete.  Without a valid mount root or an entry the calls
    would keep an address space they loaded. *)
Theorem process_calls_keep_spaces `{PM : ProcessMemory} (env : Env) (k k' : KernelState) :
  machine_ok k → rtc (process_step env) k k' →
  let t := rt_processes (ks_rt k') in
  pm_spaces (live_roots t) (ks_mem k') ∧
  (∀ pid p, process t pid = Some p → p_state p ≠ PsExited → cr3 (p_context p) ∈ live_roots t) ∧
  (∀ pid p pid' p', process t pid = Some p → process t pid' = Some p' → pid ≠ pid' →
     cr3 (p_context p) = cr3 (p_context p') → cr3 (p_context p) = 0%Z) ∧
  (∃ p, current_process t = Some p ∧ p_state p = PsRunning ∧ ks_cr3 k' = cr3 (p_context p) ∧
     ∀ q, q ∈ live_processes t → p_state q = PsRunning → p_pid q = p_pid p) ∧
  machine_ok k'.
Proof.
  intros Hm Hrun t. pose proof (process_run_machine env k k' Hm Hrun) as Hm'. pose proof Hm' as [[W S O R A D] C G T].
  split_and!; [exact S| | | |done].
  - intros pid p Hp Hx. apply elem_of_live_roots; [exact W|]. split; [by eapply A|eauto].
  - intros pid p pid' p' Hp Hp' Hne He. destruct (decide (cr3 (p_context p) = 0%Z)) as [|Hz]; [done|].
    exfalso. by eapply Hne, O.
  - destruct (cpu_current _ C) as (p & Hp & Hr & Hc). exists p. split_and!; [done..|].
    intros q Hq Hqr. pose proof (cpu_only _ C q Hq Hqr) as Hcur.
    destruct (current_pid k' p W Hp) as [Hcur' _]. congruence.
Qed.

(** * A run *)

(** A machine with the kernel's own memory in which [init] runs, with the right to control processes, and [app] of
    the sample configuration can be created. *)
Definition control_rights : Z := Z.lor (Z.lor RIGHT_CREATE RIGHT_START) (Z.lor RIGHT_KILL RIGHT_WAIT).
Definition init_process : Process :=
  process_new 1 "init" (mkProcessContext 0x1000 0x400000 USER_STACK_TOP) 4096 4096 PsRunning cspace_new (path_store [slash]).
Definition init_table : ProcessTable :=
  set_current (add_process ptable_new "init" (mkProcessContext 0x1000 0x400000 USER_STACK_TOP) 4096 4096 PsRunning cspace_new
                 (path_store [slash])).2 1.
Definition ungranted_runtime : RuntimeState :=
  grant_runtime <| rt_objects := (add_process_control table_new "process-control").2 |>
                <| rt_processes := init_table |> <| rt_active_config := Some sample_config |>
                <| rt_process_template_pids ::= <[0 := Some 1%Z]> |>.
Definition control_runtime : RuntimeState := (grant_new_capability 1 control_rights 1 0 ungranted_runtime).2.
Definition control_kernel : @KernelState machine_user_memory :=
  @mkKernelState machine_user_memory control_runtime tiny_first 0x1000 frame_empty 0 0 devices_new.

Lemma init_table_ok : ptable_wf init_table ∧ live_processes init_table = [init_process].
Proof.
  pose proof (add_process_live ptable_new ptable_new_wf "init" (mkProcessContext 0x1000 0x400000 USER_STACK_TOP) 4096 4096 PsRunning
                cspace_new (path_store [slash]) ltac:(vm_compute; reflexivity)) as Ha.
  destruct Ha as (_ & [W1 W2 W3 W4 W5 W6] & _ & _ & Hl). split; [by split|exact Hl].
Qed.

Lemma control_kept : rt_kept ungranted_runtime control_runtime.
Proof. exact (grant_new_capability_keeps 1 control_rights 1 0 ungranted_runtime). Qed.

Lemma control_process pid p :
  process (rt_processes control_runtime) pid = Some p → pid = 1%Z ∧ kept init_process p.
Proof.
  intros (p0 & [Hin <-]%process_live & K)%(kept_inv _ _ _ _ (proj1 init_table_ok) (rk_table _ _ control_kept));
    [|apply init_table_ok].
  change (rt_processes ungranted_runtime) with init_table in Hin. rewrite (proj2 init_table_ok) in Hin.
  apply list_elem_of_singleton in Hin as ->. done.
Qed.

Lemma control_roots : live_roots (rt_processes control_runtime) = {[0x1000%Z]}.
Proof.
  rewrite (kept_table_roots _ _ (proj1 init_table_ok) (rk_table _ _ control_kept)).
  unfold live_roots. change (rt_processes ungranted_runtime) with init_table. by rewrite (proj2 init_table_ok).
Qed.

Lemma control_machine : @machine_ok machine_user_memory tiny_memory control_kernel.
Proof.
  pose proof (kt_wf _ _ (rk_table _ _ control_kept) (proj1 init_table_ok)) as W.
  destruct (kept_fwd _ _ 1%Z init_process (proj1 init_table_ok) (rk_table _ _ control_kept)) as (p & Hp & K).
  { apply process_live; [apply init_table_ok|].
    change (rt_processes ungranted_runtime) with init_table. rewrite (proj2 init_table_ok). split; [by left|done]. }
  pose proof (kt_current _ _ (rk_table _ _ control_kept)) as Hcur.
  split; [split|split|..]; try exact W.
  - change (machine_spaces tiny_map ∅ (live_roots (rt_processes control_runtime)) tiny_first). rewrite control_roots. exact tiny_first_spaces.
  - intros pid pid' p1 p2 [-> _]%control_process [-> _]%control_process. done.
  - intros pid q [_ Kq]%control_process. by rewrite (kp_reaped _ _ Kq), (kp_context _ _ Kq).
  - intros pid q [_ Kq]%control_process _. by rewrite (kp_context _ _ Kq).
  - intros pid q m [_ Kq]%control_process Hm. apply (kp_dma _ _ Kq), list_elem_of_lookup in Hm as [i Hi].
    change (p_dma_mappings init_process) with (replicate MAX_OBJECTS (None (A := DmaUserMapping))) in Hi.
    apply lookup_replicate in Hi as [Hi _]. discriminate Hi.
  - exists p. split_and!; [|by apply (kept_running _ _ K)|by rewrite (kp_context _ _ K)].
    unfold current_process. change (rt_processes (ks_rt control_kernel)) with (rt_processes control_runtime).
    rewrite Hcur. exact Hp.
  - intros q Hq _. change (rt_processes (ks_rt control_kernel)) with (rt_processes control_runtime) in *.
    destruct (control_process (p_pid q) q) as [-> _]; [by apply process_live|]. rewrite Hcur. done.
  - exists sample_config. split; [exact (rk_config _ _ control_kept)|].
    change (ks_rt control_kernel) with control_runtime. rewrite (rk_templates _ _ control_kept). split; [vm_compute; lia|].
    intros i Hi. assert (i = 0 ∨ i = 1) as [-> | ->]; [|eexists _, _; split; vm_compute; reflexivity..].
    assert (Hu : cn_used (cf_processes sample_config) = 2) by (vm_compute; reflexivity). lia.
  - intros pid q [-> _]%control_process. change (ks_rt control_kernel) with control_runtime.
    rewrite (config_for_pid_kept ungranted_runtime control_runtime) by apply control_kept. eexists. vm_compute. reflexivity.
Qed.

Definition created_kernel :=
  match @create_process machine_user_memory tiny_memory 0 1 control_kernel with Some (_, k) => k | None => control_kernel end.
Definition started_kernel :=
  match @start_process machine_user_memory tiny_memory 0 2 created_kernel with Some (_, k) => k | None => created_kernel end.
Definition killed_kernel :=
  match @kill_process machine_user_memory tiny_memory 0 2 started_kernel with Some (_, k) => k | None => started_kernel end.

Lemma created_run : @create_process machine_user_memory tiny_memory 0 1 control_kernel = Some (Ok 2%Z, created_kernel).
Proof.
  assert (Hok : match @create_process machine_user_memory tiny_memory 0 1 control_kernel with
                | Some (Ok v, _) => (v =? 2)%Z | _ => false end = true) by (vm_compute; reflexivity).
  unfold created_kernel. destruct (create_process _ _ _) as [[[v|e] k]|]; try discriminate Hok.
  apply Z.eqb_eq in Hok as ->. reflexivity.
Qed.
Lemma started_run : @start_process machine_user_memory tiny_memory 0 2 created_kernel = Some (Ok tt, started_kernel).
Proof.
  assert (Hok : match @start_process machine_user_memory tiny_memory 0 2 created_kernel with
                | Some (Ok _, _) => true | _ => false end = true) by (vm_compute; reflexivity).
  unfold started_kernel. destruct (start_process _ _ _) as [[[[]|e] k]|]; try discriminate Hok. reflexivity.
Qed.
Lemma killed_run : @kill_process machine_user_memory tiny_memory 0 2 started_kernel = Some (Ok tt, killed_kernel).
Proof.
  assert (Hok : match @kill_process machine_user_memory tiny_memory 0 2 started_kernel with
                | Some (Ok _, _) => true | _ => false end = true) by (vm_compute; reflexivity).
  unfold killed_kernel. destruct (kill_process _ _ _) as [[[[]|e] k]|]; try discriminate Hok. reflexivity.
Qed.
Lemma control_next_id : (pt_next_id (rt_processes (ks_rt control_kernel)) < u64_max)%Z.
Proof. vm_compute. reflexivity. Qed.

Lemma process_calls_keep_spaces_witness :
  @machine_ok machine_user_memory tiny_memory started_kernel ∧
  @machine_ok machine_user_memory tiny_memory killed_kernel.
Proof.
  assert (Hrun : rtc (@process_step machine_user_memory tiny_memory plain_env) control_kernel started_kernel).
  { eapply rtc_l; [exact (StepCreate plain_env control_kernel created_kernel 0 1 _ control_next_id created_run)|].
    eapply rtc_l; [exact (StepStart plain_env created_kernel started_kernel 0 2 _ started_run)|]. apply rtc_refl. }
  split.
  - exact (proj2 (proj2 (proj2 (proj2
      (process_calls_keep_spaces plain_env control_kernel started_kernel control_machine Hrun))))).
  - refine (proj2 (proj2 (proj2 (proj2
      (process_calls_keep_spaces plain_env control_kernel killed_kernel control_machine _))))).
    eapply rtc_r; [exact Hrun|]. exact (StepKill plain_env started_kernel killed_kernel 0 2 _ killed_run).
Defined.
