(* ===== verification/ReleaseProofs.v ===== *)
(** What is left of a process after [reap_process_context]: no object, device, mount,
    file or lock belongs to it any more. *)

From S2P Require Import Prelude Frames Paging PagingProofs KernelBase Transport VfsPath KernelObjects ObjectTableProofs ProcessRuntime.
From S2P Require Import ProcessTableProofs BootConfig BootPolicy BootPolicyProofs CapRegistry VfsState VfsFiles Runtime Virtio Kernel.
From S2P Require Import MemoryMapping ProcessMemory RealMemory Scheduler VfsTransactions VfsNodes BootGrants Ipc Devices ProcessSyscalls.
From S2P Require Import CapabilityProofs BootGrantProofs Revocation SchedulerProofs ProcessProofs.

(** * Objects that belong to a process *)

Inductive Holding := HoldEndpoint | HoldVirtio | HoldMount (dynamic : bool) | HoldDma.

(** How an object belongs to a process, and to which. *)
Definition holding (o : KernelObject) : option (Holding * ProcessId) :=
  match o with
  | OIpcEndpoint e => Some (HoldEndpoint, ep_owner e)
  | OVirtioDevice d => Some (HoldVirtio, vd_owner d)
  | OVfsMount m => if negb (Z.land (vm_flags m) VFS_MOUNT_BIND =? 0)%Z then Some (HoldMount (vm_dynamic m), vm_owner m) else None
  | ODmaRegion r => Some (HoldDma, dma_mapped_by r)
  | _ => None
  end.

Lemma holding_inv o h pid :
  holding o = Some (h, pid) →
  match h with
  | HoldEndpoint => ∃ e, o = OIpcEndpoint e ∧ ep_owner e = pid
  | HoldVirtio => ∃ d, o = OVirtioDevice d ∧ vd_owner d = pid
  | HoldMount dynamic => ∃ m, o = OVfsMount m ∧ is_owned_bind_mount dynamic pid m = true
  | HoldDma => ∃ r, o = ODmaRegion r ∧ dma_mapped_by r = pid
  end.
Proof.
  destruct o; cbn; intros Hh; try discriminate Hh; try (injection Hh as <- <-; by eexists).
  destruct (negb _) eqn:Hb; [|done]. injection Hh as <- <-. eexists. split; [done|].
  unfold is_owned_bind_mount. by rewrite eqb_reflx, Z.eqb_refl, Hb.
Qed.

(** No object of [t'] belongs to a process to which it did not belong in [t]. *)
Definition loses (t t' : ObjectTable) : Prop :=
  ∀ i o', live_at t' i o' → ∃ o, live_at t i o ∧ object_id o' = object_id o ∧
    (holding o' = holding o ∨ ∃ h, holding o' = Some (h, pid_empty)).

#[export] Instance loses_preorder : PreOrder loses.
Proof.
  split; [intros t i o Ho; exists o; auto|]. intros t1 t2 t3 H12 H23 i o3 (o2 & H2 & Hid2 & Hh2)%H23.
  destruct (H12 i o2 H2) as (o1 & H1 & Hid1 & Hh1). exists o1. split_and!; [done|congruence|].
  destruct Hh2 as [->|?]; [|by right]. destruct Hh1; auto.
Qed.

(** [t] has no object that belongs to [pid] in the way [h]. *)
Definition free_of (pid : ProcessId) (h : Holding) (t : ObjectTable) : Prop :=
  ∀ i o, live_at t i o → holding o ≠ Some (h, pid).

Lemma loses_free pid h t t' : pid ≠ pid_empty → loses t t' → free_of pid h t → free_of pid h t'.
Proof.
  intros Hp Hl Hf i o' (o & Ho & _ & [->|[h' ->]])%Hl; [by eapply Hf|]. congruence.
Qed.

(** No two slots hold objects with the same identifier. *)
Definition unique_ids (t : ObjectTable) : Prop :=
  ∀ i j o o', live_at t i o → live_at t j o' → object_id o = object_id o' → i = j.

Lemma loses_unique t t' : loses t t' → unique_ids t → unique_ids t'.
Proof.
  intros Hl Hu i j o o' (x & Hx & Hi & _)%Hl (y & Hy & Hj & _)%Hl He. apply (Hu i j x y Hx Hy). congruence.
Qed.

(** The DMA region [region] is not claimed by [pid]. *)
Definition unclaimed (pid : ProcessId) (region : KernelObjectId) (t : ObjectTable) : Prop :=
  ∀ i r, live_at t i (ODmaRegion r) → dma_id r = region → dma_mapped_by r ≠ pid.

Lemma loses_unclaimed pid region t t' : pid ≠ pid_empty → loses t t' → unclaimed pid region t → unclaimed pid region t'.
Proof.
  intros Hp Hl Hu i r' (o & Ho & Hid & Hh)%Hl Hr Hm. destruct Hh as [Hh|[h Hh]].
  - symmetry in Hh. cbn in Hh. rewrite Hm in Hh. apply holding_inv in Hh as (r & -> & Hr0).
    apply (Hu i r Ho); [cbn in Hid; congruence|done].
  - cbn in Hh. congruence.
Qed.

Lemma loses_kept t t' keep : pruned t t' keep → loses t t'.
Proof. intros (_ & _ & _ & Hl) i o [Ho _]%Hl. exists o. auto. Qed.

(** A write to a slot in use. *)
Lemma loses_set t index o o' :
  live_at t index o → object_id o' = object_id o →
  (holding o' = holding o ∨ ∃ h, holding o' = Some (h, pid_empty)) → loses t (set_object t index o').
Proof.
  intros Ho Hid Hh i x [Hi Hx]. unfold set_object, set in *; cbn in *.
  destruct (decide (index = i)) as [->|Hne].
  - rewrite list_lookup_insert_eq in Hx by (eapply lookup_lt_Some; apply Ho). injection Hx as <-. eauto.
  - rewrite list_lookup_insert_ne in Hx by done. exists x. split; [done|auto].
Qed.

Lemma find_object_mut_live {A} (sel : KernelObject → option A) t i a :
  find_object_mut sel t = Some (i, a) → ∃ o, live_at t i o ∧ sel o = Some a.
Proof.
  intros Hf. pose proof Hf as Hf'. apply find_object_mut_Some in Hf as (o & Ho & Hs & _). exists o. split; [|done].
  split; [|done]. unfold find_object_mut in Hf'. destruct (first_index _ _ _) as [j|] eqn:Hj; [|done].
  apply first_index_Some in Hj as (Hlt & (x & Hx & _) & _). rewrite Hx in Hf'. cbn in Hf'.
  by apply fmap_Some in Hf' as (b & _ & [= -> _]).
Qed.

Lemma loses_map t f :
  (∀ o, match f (Some o) with
        | Some o' => object_id o' = object_id o ∧ (holding o' = holding o ∨ ∃ h, holding o' = Some (h, pid_empty))
        | None => True
        end) → f None = None → loses t (t <| objects := map_upto f (objects t) (count t) |>).
Proof.
  intros Hf Hn i o' [Hi Ho]. unfold set in *; cbn in *. rewrite lookup_map_upto, bool_decide_eq_true_2 in Ho by done.
  destruct (objects t !! i) as [[o|]|] eqn:Hx; cbn in Ho; [|by rewrite Hn in Ho|done].
  injection Ho as Ho. specialize (Hf o). rewrite Ho in Hf. exists o. split; [done|]. done.
Qed.

(** * The steps *)

Lemma cancel_objects cancels status fuel : ∀ index rt n,
  rt_objects (cancel_receivers_from cancels status rt index fuel n).2 = rt_objects rt.
Proof.
  induction fuel as [|fuel IH]; intros index rt n; cbn [cancel_receivers_from]; [done|].
  destruct (match _ with Some _ => _ | None => _ end); [|apply IH].
  unfold cancel_blocked_endpoint_waiter_at. repeat case_match; simplify_eq; by rewrite IH.
Qed.

Lemma cancel_vfs cancels status fuel : ∀ index rt n,
  rt_vfs (cancel_receivers_from cancels status rt index fuel n).2 = rt_vfs rt.
Proof.
  induction fuel as [|fuel IH]; intros index rt n; cbn [cancel_receivers_from]; [done|].
  destruct (match _ with Some _ => _ | None => _ end); [|apply IH].
  unfold cancel_blocked_endpoint_waiter_at. repeat case_match; simplify_eq; by rewrite IH.
Qed.

(** A process that has ended is in no queue. *)
Lemma cancel_ended cancels status fuel pid p : ∀ index rt n,
  ptable_wf (rt_processes rt) → process (rt_processes rt) pid = Some p → p_state p = PsExited →
  process (rt_processes (cancel_receivers_from cancels status rt index fuel n).2) pid = Some p.
Proof.
  induction fuel as [|fuel IH]; intros index rt n Hwf Hp Hx; cbn [cancel_receivers_from]; [done|].
  destruct (mjoin _) as [q|] eqn:Hq; [|by apply IH]. destruct (cancels rt q); [|by apply IH].
  unfold cancel_blocked_endpoint_waiter_at. rewrite Hq. destruct (p_state q) eqn:Hs; try by apply IH.
  apply IH; [by apply modify_process_at_live| |done].
  change (process (modify_process_at (rt_processes rt) index (wake_with status)) pid = Some p).
  rewrite process_via_index in Hp |- *. rewrite process_index_modify by done.
  destruct (process_index _ pid) as [j|]; [|done]. cbn in *.
  destruct (decide (index = j)) as [->|Hne]; [|by rewrite list_lookup_alter_ne].
  rewrite Hq in Hp. congruence.
Qed.

Lemma endpoints_released pid t :
  pid ≠ pid_empty → loses t (remove_owned_endpoints t pid).2 ∧ free_of pid HoldEndpoint (remove_owned_endpoints t pid).2.
Proof.
  intros Hp. pose proof (remove_owned_endpoints_pruned t pid) as Hr. split; [by eapply loses_kept|].
  destruct Hr as (_ & _ & _ & Hl). intros i o [_ Hk]%Hl (e & -> & He)%holding_inv. cbn in Hk. by apply Z.eqb_neq in Hk.
Qed.

Lemma virtio_released pid t :
  pid ≠ pid_empty → let t' := t <| objects := map_upto (release_virtio_object pid) (objects t) (count t) |> in
  loses t t' ∧ free_of pid HoldVirtio t'.
Proof.
  intros Hp t'. split.
  - apply loses_map; [|done]. intros o. destruct o; cbn; auto. destruct (_ =? _)%Z; cbn; eauto.
  - intros i o [Hi Ho]. unfold t', set in *; cbn in *. rewrite lookup_map_upto, bool_decide_eq_true_2 in Ho by done.
    destruct (objects t !! i) as [[x|]|]; cbn in Ho; [|done..]. injection Ho as Ho.
    intros (d & -> & He)%holding_inv. destruct x; cbn in Ho; try done.
    destruct (Z.eqb_spec (vd_owner o) pid) as [|Hne]; injection Ho as <-; [|done]. cbn in He. congruence.
Qed.

(** The claim on a DMA region is given up. *)
Lemma claim_released region owner rt :
  unique_ids (rt_objects rt) → owner ≠ pid_empty →
  let t' := rt_objects (release_dma_region_claim region owner rt) in
  loses (rt_objects rt) t' ∧ unclaimed owner region t'.
Proof.
  intros Hwf Hp t'. unfold t', release_dma_region_claim.
  destruct (get_dma_region_mut (rt_objects rt) region) as [[index r]|] eqn:Hg.
  - apply find_object_mut_live in Hg as (o & Ho & Hs). destruct o as [| | | | | | | | | |r0| | | | | | |]; try done.
    apply with_id_Some in Hs as [<- Hid]. destruct (Z.eqb_spec (dma_mapped_by r) owner) as [Hr|Hr].
    + split; [by apply (loses_set _ _ (ODmaRegion r)); [..|right; eexists]|].
      intros i r1 [Hi Hl] Hid1. unfold set_dma_region, set_object, set in *; cbn in *.
      destruct (decide (index = i)) as [->|Hne].
      * rewrite list_lookup_insert_eq in Hl by (eapply lookup_lt_Some; apply Ho). injection Hl as <-. cbn. congruence.
      * rewrite list_lookup_insert_ne in Hl by done. exfalso. apply Hne.
        apply (Hwf index i (ODmaRegion r) (ODmaRegion r1)); [done|done|cbn; congruence].
    + split; [done|]. intros i r1 Hl Hid1.
      assert (i = index) as ->.
      { apply (Hwf i index (ODmaRegion r1) (ODmaRegion r)); [done|done|cbn; congruence]. }
      destruct Hl as [_ Hl], Ho as [_ Ho]. congruence.
  - split; [done|]. intros i r [Hi Hl] Hid. exfalso. apply find_object_mut_None in Hg.
    unfold find_object in Hg. rewrite first_some_None in Hg. specialize (Hg i _ Hi Hl). cbn in Hg.
    unfold with_id in Hg. by rewrite Hid, Z.eqb_refl in Hg.
Qed.

(** The loop over the bind mounts. *)
Lemma bind_mounts_from dynamic pid fuel : ∀ rt index n,
  let rt' := (remove_bind_mounts_from dynamic pid rt index fuel n).2 in
  count (rt_objects rt') = count (rt_objects rt) ∧ rt_vfs rt' = rt_vfs rt ∧ rt_processes rt' = rt_processes rt ∧
  ∀ i o, live_at (rt_objects rt') i o →
    live_at (rt_objects rt) i o ∧ (index ≤ i < index + fuel → holding o ≠ Some (HoldMount dynamic, pid)).
Proof.
  induction fuel as [|fuel IH]; intros rt index n; cbn [remove_bind_mounts_from].
  { split_and!; [done..|]. intros i o Ho. split; [done|lia]. }
  set (next := match mjoin _ with Some _ => _ | None => _ end).
  assert (Hstep : ∃ rt1 n1, next = remove_bind_mounts_from dynamic pid rt1 (S index) fuel n1 ∧
    count (rt_objects rt1) = count (rt_objects rt) ∧ rt_vfs rt1 = rt_vfs rt ∧ rt_processes rt1 = rt_processes rt ∧
    ∀ i o, live_at (rt_objects rt1) i o → live_at (rt_objects rt) i o ∧ (i = index → holding o ≠ Some (HoldMount dynamic, pid))).
  { assert (Hsame : (∀ o, objects (rt_objects rt) !! index = Some (Some o) → holding o ≠ Some (HoldMount dynamic, pid)) →
      ∀ i o, live_at (rt_objects rt) i o → live_at (rt_objects rt) i o ∧ (i = index → holding o ≠ Some (HoldMount dynamic, pid))).
    { intros Hn i o Ho. split; [done|]. intros ->. apply Hn, Ho. }
    unfold next. destruct (objects (rt_objects rt) !! index) as [[o|]|] eqn:Ho; cbn [mjoin option_join].
    2,3: exists rt, n; split_and!; [done..|apply Hsame; congruence].
    destruct (match o with OVfsMount m => is_owned_bind_mount dynamic pid m | _ => false end) eqn:Hown.
    - destruct o as [| | | | | | | | | | | | | | |m| |]; try done. rewrite Hown. eexists _, _. split; [done|].
      unfold remove_vfs_mount_id. repeat case_match; cbn; (split_and!; [done..|]); intros i x [Hi Hx];
        unfold set in Hx; cbn in Hx; (destruct (decide (i = index)) as [->|Hne];
        [by rewrite list_lookup_insert_eq in Hx by (by eapply lookup_lt_Some)|
         rewrite list_lookup_insert_ne in Hx by done; split; [by split|done]]).
    - exists rt, n. split; [|split_and!; [done..|apply Hsame; intros x [= <-] Hh%holding_inv]].
      + destruct o; try done. by rewrite Hown.
      + destruct Hh as (m & -> & Hm). by rewrite Hown in Hm. }
  destruct Hstep as (rt1 & n1 & -> & C1 & V1 & P1 & L1). destruct (IH rt1 (S index) n1) as (C2 & V2 & P2 & L2).
  split_and!; [congruence..|]. intros i o [Ho Hr]%L2. destruct (L1 i o Ho) as [Ho1 Hr1]. split; [done|].
  intros Hi. destruct (decide (i = index)); [auto|]. apply Hr. lia.
Qed.

Lemma mounts_released dynamic pid rt :
  let rt' := (remove_owned_bind_mounts dynamic rt pid).2 in
  loses (rt_objects rt) (rt_objects rt') ∧ free_of pid (HoldMount dynamic) (rt_objects rt') ∧
  rt_vfs rt' = rt_vfs rt ∧ rt_processes rt' = rt_processes rt.
Proof.
  unfold remove_owned_bind_mounts.
  destruct (bind_mounts_from dynamic pid (count (rt_objects rt)) rt 0 0) as (C & V & P & L).
  destruct (remove_bind_mounts_from _ _ _ _ _ _) as [n rt1]. cbn in *. split_and!; [| |done|done].
  - intros i o [Ho _]%(proj1 (trim_live _ _ _))%L. exists o. auto.
  - intros i o Hl%(proj1 (trim_live _ _ _)). destruct (L i o Hl) as [Ho Hr]. apply Hr. destruct Ho. lia.
Qed.

Lemma roots_released rt :
  let rt' := release_unreferenced_derived_vfs_roots rt in
  loses (rt_objects rt) (rt_objects rt') ∧ rt_vfs rt' = rt_vfs rt ∧ rt_processes rt' = rt_processes rt.
Proof.
  unfold release_unreferenced_derived_vfs_roots.
  assert (H : ∀ fuel index rt0, match release_roots_loop fuel index rt0 with
    | Some rt1 => loses (rt_objects rt0) (rt_objects rt1) ∧ rt_vfs rt1 = rt_vfs rt0 ∧ rt_processes rt1 = rt_processes rt0
    | None => True end).
  { induction fuel as [|fuel IH]; intros index rt0; cbn [release_roots_loop]; [done|].
    destruct (index <? _); [|done]. destruct (mjoin _) as [o|]; [|apply IH]. destruct o; try apply IH.
    destruct (_ && _); [|apply IH]. unfold remove_derived_vfs_root, remove_first_object.
    destruct (first_index _ _ _) as [i|]; [|rewrite bool_decide_eq_false_2 by (by intros []); apply IH].
    destruct (bool_decide _); [|apply IH]. set (rt1 := rt0 <| rt_objects := _ |>). specialize (IH index rt1).
    destruct (release_roots_loop fuel index rt1); [|done]. destruct IH as (L & V & P). split_and!; [|done|done].
    etransitivity; [|exact L]. intros j x [Hj Hx]%(proj1 (trim_live _ _ _)). unfold set in *; cbn in *. exists x. split; [|auto].
    destruct (decide (i = j)) as [->|Hne]; [|by rewrite list_lookup_insert_ne in Hx by done].
    destruct (decide (j < length (objects (rt_objects rt0)))); [by rewrite list_lookup_insert_eq in Hx|].
    by rewrite list_insert_ge in Hx by lia. }
  specialize (H release_roots_fuel 0 rt). by destruct (release_roots_loop _ _ _).
Qed.

Lemma devices_released pid d :
  pid ≠ pid_empty → let d' := release_process_kernel_virtio_ownership pid d in
  rng_owner (dev_rng d') ≠ pid ∧ net_owner (dev_net d') ≠ pid.
Proof.
  intros Hp. unfold release_process_kernel_virtio_ownership, release_net, release_rng, virtio_write8, out_port.
  split; repeat (match goal with |- context [(?a =? ?b)%Z] => destruct (Z.eqb_spec a b) end; cbn); try done; congruence.
Qed.

Section release.
Context `{PM : ProcessMemory}.

Local Abbreviation table k := (rt_processes (ks_rt k)).
Local Abbreviation objs k := (rt_objects (ks_rt k)).

(** What a step of the release leaves alone. *)
Record narrower (k k' : KernelState) : Prop := mk_narrower {
  nw_objects : loses (objs k) (objs k');
  nw_vfs : rt_vfs (ks_rt k') = rt_vfs (ks_rt k);
  nw_devices : ks_devices k' = ks_devices k
}.

Lemma narrower_trans k1 k2 k3 : narrower k1 k2 → narrower k2 k3 → narrower k1 k3.
Proof. intros [O1 V1 D1] [O2 V2 D2]. split; [by etransitivity|congruence..]. Qed.

Lemma release_dma_mapping_narrower owner m k k' :
  unique_ids (objs k) → owner ≠ pid_empty → release_dma_mapping owner m k = Some (Ok tt, k') →
  narrower k k' ∧ table k' = table k ∧ unclaimed owner (dm_region m) (objs k').
Proof.
  intros Hu Hp Hrun. unfold release_dma_mapping in Hrun. apply kbind_ok in Hrun as (b & k1 & Hz & Hrun).
  assert (ks_rt k1 = ks_rt k ∧ ks_devices k1 = ks_devices k) as [Hrt Hd].
  { unfold zero_dma_physical_range in Hz. destruct (_ =? 0)%Z; [by injection Hz as _ <-|].
    destruct (pm_zero _ _ _); by injection Hz as _ <-. }
  injection Hrun as <-. rewrite <-Hrt in Hu. destruct (claim_released (dm_region m) owner (ks_rt k1) Hu Hp) as [Hl Hc].
  split_and!; [split| |done].
  - unfold set; cbn. by rewrite <-Hrt.
  - unfold set; cbn. rewrite <-Hrt. unfold release_dma_region_claim. by repeat case_match.
  - done.
  - unfold set; cbn. rewrite <-Hrt. unfold release_dma_region_claim. by repeat case_match.
Qed.

(** The loop over the DMA mappings gives up the claims of all of them. *)
Lemma release_dma_slots_narrower left pid : ∀ slot k p k',
  ptable_wf (table k) → unique_ids (objs k) → pid ≠ pid_empty → process (table k) pid = Some p →
  release_dma_slots left slot pid k = Some (Ok tt, k') →
  narrower k k' ∧ ptable_wf (table k') ∧
  (∃ p', process (table k') pid = Some p' ∧ length (p_dma_mappings p') = length (p_dma_mappings p) ∧
     ∀ j m, p_dma_mappings p' !! j = Some (Some m) →
       p_dma_mappings p !! j = Some (Some m) ∧ (j < slot ∨ slot + left ≤ j)) ∧
  ∀ j m, slot ≤ j < slot + left → p_dma_mappings p !! j = Some (Some m) → unclaimed pid (dm_region m) (objs k').
Proof.
  induction left as [|left IH]; intros slot k p k' Hwf Hu Hp Hproc Hrun; cbn [release_dma_slots] in Hrun.
  { injection Hrun as <-. split_and!; [by split|done|exists p; split_and!; [done|done|intros j m Hj; split; [done|lia]]|lia]. }
  pose proof Hproc as Hx. rewrite process_via_index in Hx. apply bind_Some in Hx as (i & Hi & Hx).
  rewrite Hi, Hx in Hrun. destruct (take_dma_mapping p slot) as [m p'] eqn:Ht.
  set (k1 := k <| ks_rt ::= _ |>) in Hrun.
  assert (Hpid : ∀ q, p_pid (take_dma_mapping q slot).2 = p_pid q).
  { intros q. unfold take_dma_mapping. by destruct (_ <=? _). }
  assert (Htab : table k1 = modify_process_at (table k) i (λ q, (take_dma_mapping q slot).2)).
  { change (table k1) with (modify_process_at (table k) i (λ _, p')).
    rewrite <-(modify_process_at_const _ _ p (λ q, (take_dma_mapping q slot).2) Hx). by rewrite Ht. }
  assert (Hwf1 : ptable_wf (table k1)) by (rewrite Htab; by apply modify_process_at_live).
  assert (Hproc1 : process (table k1) pid = Some p').
  { rewrite Htab. pose proof (process_modify _ i (λ q, (take_dma_mapping q slot).2) pid p Hwf Hpid Hi Hproc) as Hm.
    cbn beta in Hm. by rewrite Ht in Hm. }
  assert (Hdma : length (p_dma_mappings p') = length (p_dma_mappings p) ∧
    (∀ j x, p_dma_mappings p' !! j = Some (Some x) → p_dma_mappings p !! j = Some (Some x) ∧ j ≠ slot) ∧
    (∀ j x, j ≠ slot → p_dma_mappings p !! j = Some (Some x) → p_dma_mappings p' !! j = Some (Some x)) ∧
    (∀ x, p_dma_mappings p !! slot = Some (Some x) → m = Some x)).
  { unfold take_dma_mapping in Ht. destruct (Nat.leb_spec (length (p_dma_mappings p)) slot) as [Hl|Hl]; injection Ht as <- <-.
    - split_and!; [done| |done|].
      + intros j x Hj. split; [done|]. apply lookup_lt_Some in Hj. lia.
      + intros x Hj. apply lookup_lt_Some in Hj. lia.
    - cbn. rewrite length_insert. split_and!; [done| | |by intros x ->].
      + intros j x [(_ & [=] & _)|[Hne Hj]]%list_lookup_insert_Some. done.
      + intros j x Hne Hj. by rewrite list_lookup_insert_ne. }
  destruct Hdma as (Hlen & Hback & Hfwd & Hm).
  apply kbind_ok in Hrun as ([] & k2 & Hrel & Hrun).
  assert (H12 : narrower k1 k2 ∧ table k2 = table k1 ∧ ∀ x, m = Some x → unclaimed pid (dm_region x) (objs k2)).
  { destruct m as [x|]; [|injection Hrel as <-; split_and!; [by split|done|done]].
    apply release_dma_mapping_narrower in Hrel as (Hn & Htb & Hc); [|done..]. split_and!; [done..|]. by intros y [= <-]. }
  destruct H12 as (Hn12 & Htab2 & Hc2).
  apply (IH _ _ p') in Hrun as (Hn & Hwf2 & (p2 & Hp2 & Hl2 & Hb2) & Hrest);
    [|by rewrite Htab2|by eapply loses_unique; [apply Hn12|]|done|by rewrite Htab2].
  split_and!.
  - eapply (narrower_trans k k1); [by split|]. by eapply narrower_trans.
  - done.
  - exists p2. split_and!; [done|congruence|]. intros j x [Hj Hc]%Hb2. apply Hback in Hj as [Hj Hne]. split; [done|lia].
  - intros j x Hj Hx'. destruct (decide (j = slot)) as [->|Hne].
    + eapply loses_unclaimed; [done|apply Hn|]. by apply Hc2, Hm.
    + apply (Hrest j x); [lia|]. by apply Hfwd.
Qed.
(** Every DMA region claimed by the process [pid] is one of its mappings. *)
Definition claims_mapped (pid : ProcessId) (p : Process) (t : ObjectTable) : Prop :=
  ∀ i r, live_at t i (ODmaRegion r) → dma_mapped_by r = pid →
    ∃ m, Some m ∈ p_dma_mappings p ∧ dm_region m = dma_id r.

(** The release of devices, mappings, handles, files and mounts. *)
Lemma resources_released pid p k k' :
  ptable_wf (table k) → unique_ids (objs k) → files_wf (rt_vfs (ks_rt k)) → pid ≠ pid_empty →
  process (table k) pid = Some p → length (p_dma_mappings p) ≤ MAX_OBJECTS → claims_mapped pid p (objs k) →
  release_process_resources pid k = Some (Ok tt, k') →
  loses (objs k) (objs k') ∧
  (∀ h, h ≠ HoldEndpoint → free_of pid h (objs k')) ∧
  files_shrunk (rt_vfs (ks_rt k)) (rt_vfs (ks_rt k')) (λ d, fd_owner d ≠ pid) (λ l, lk_owner l ≠ pid) ∧
  (rng_owner (dev_rng (ks_devices k')) ≠ pid ∧ net_owner (dev_net (ks_devices k')) ≠ pid) ∧
  ptable_wf (table k') ∧
  ∃ p', process (table k') pid = Some p' ∧ (∀ s, s ∈ p_file_handles p' → fs_handle s = None) ∧
    ∀ m, Some m ∉ p_dma_mappings p'.
Proof.
  intros Hwf Hu Hfw Hp Hproc Hlen Hcm Hrun. unfold release_process_resources in Hrun.
  apply kbind_ok in Hrun as ([] & k1 & Hv & Hrun). unfold release_process_virtio_ownership in Hv.
  unfold kbind, modify_devices, modify_rt, kmodify in Hv. injection Hv as <-. set (k1 := set ks_rt _ _) in Hrun.
  destruct (virtio_released pid (objs k) Hp) as [L1 F1]. change (loses (objs k) (objs k1)) in L1.
  change (free_of pid HoldVirtio (objs k1)) in F1.
  apply kbind_ok in Hrun as ([] & k2 & Hd & Hrun).
  apply (release_dma_slots_narrower _ pid 0 k1 p) in Hd as ([L2 V2 D2] & W2 & (p2 & Hp2 & Hl2 & Hb2) & Hc2);
    [|done|by eapply loses_unique|done|done].
  injection Hrun as <-. set (rt3 := (ks_rt k2) <| rt_processes ::= λ t, (modify_process t pid clear_file_handles).2 |>).
  set (rt4 := release_descriptions pid rt3).
  destruct (mounts_released true pid rt4) as (L5 & F5 & V5 & P5). set (rt5 := (remove_owned_bind_mounts true rt4 pid).2) in *.
  destruct (mounts_released false pid rt5) as (L6 & F6 & V6 & P6). set (rt6 := (remove_owned_bind_mounts false rt5 pid).2) in *.
  destruct (roots_released rt6) as (L7 & V7 & P7). set (rt7 := release_unreferenced_derived_vfs_roots rt6) in *.
  change (objs (k2 <| ks_rt ::= _ |>)) with (rt_objects rt7). change (table (k2 <| ks_rt ::= _ |>)) with (rt_processes rt7).
  change (ks_devices (k2 <| ks_rt ::= _ |>)) with (ks_devices k2). change (rt_vfs (ks_rt (k2 <| ks_rt ::= _ |>))) with (rt_vfs rt7).
  assert (L57 : loses (rt_objects rt5) (rt_objects rt7)) by (by etransitivity).
  assert (L27 : loses (objs k2) (rt_objects rt7)) by (etransitivity; [exact L5|exact L57]).
  assert (L17 : loses (objs k1) (rt_objects rt7)) by (by etransitivity).
  assert (L07 : loses (objs k) (rt_objects rt7)) by (by etransitivity). split_and!.
  - done.
  - intros h Hh. destruct h as [| |[]|]; [done| | | |].
    + exact (loses_free pid _ _ _ Hp L17 F1).
    + exact (loses_free pid _ _ _ Hp L57 F5).
    + exact (loses_free pid _ _ _ Hp L7 F6).
    + intros i o Ho (r & -> & Hr)%holding_inv. destruct (L07 i _ Ho) as (o0 & Ho0 & Hid & Hh0).
      destruct Hh0 as [Hh0|[h Hh0]]; [|cbn in Hh0; congruence]. symmetry in Hh0. apply holding_inv in Hh0 as (r0 & -> & Hr0).
      destruct (Hcm i r0 Ho0) as (m & [j Hj]%list_elem_of_lookup & Hm); [congruence|].
      assert (Hun : unclaimed pid (dm_region m) (rt_objects rt7)).
      { eapply loses_unclaimed; [done|exact L27|]. apply (Hc2 j m); [|done]. apply lookup_lt_Some in Hj. lia. }
      apply (Hun i r Ho); [|done]. cbn in Hid. congruence.
  - rewrite V7, V6, V5. change (rt_vfs rt4) with (release_process_file_descriptions (rt_vfs (ks_rt k2)) pid).
    rewrite V2. by apply release_process_spec.
  - rewrite D2. by apply devices_released.
  - rewrite D2. by apply devices_released.
  - rewrite P7, P6, P5. by apply modify_process_wf.
  - exists (clear_file_handles p2). rewrite P7, P6, P5. split_and!.
    + change (rt_processes rt4) with (modify_process (table k2) pid clear_file_handles).2.
      by rewrite process_modify_process, decide_True, Hp2 by done.
    + intros s [j Hj]%list_elem_of_lookup. cbn in Hj. rewrite lookup_map_upto in Hj.
      case_bool_decide as Hi; [by apply fmap_Some in Hj as (s0 & _ & ->)|]. apply lookup_lt_Some in Hj. lia.
    + intros m [j Hj]%list_elem_of_lookup. apply Hb2 in Hj as [Hj Hr]. apply lookup_lt_Some in Hj. lia.
Qed.

(** Nothing belongs to the process [pid] any more. *)
Record holds_nothing (pid : ProcessId) (k : KernelState) : Prop := mk_holds_nothing {
  hn_objects i o h : live_at (objs k) i o → holding o ≠ Some (h, pid);
  hn_files i d : desc_at (rt_vfs (ks_rt k)) i d → fd_owner d ≠ pid;
  hn_locks i l : lock_at (rt_vfs (ks_rt k)) i l → lk_owner l ≠ pid;
  hn_rng : rng_owner (dev_rng (ks_devices k)) ≠ pid;
  hn_net : net_owner (dev_net (ks_devices k)) ≠ pid;
  hn_process : ∃ p, process (table k) pid = Some p ∧ p_state p = PsExited ∧ cr3 (p_context p) = 0%Z ∧
    (∀ s, s ∈ p_file_handles p → fs_handle s = None) ∧ (∀ m, Some m ∉ p_dma_mappings p)
}.

(** What the release needs of the tables. *)
Record release_ready (pid : ProcessId) (p : Process) (rt : RuntimeState) : Prop := mk_release_ready {
  rr_ids : unique_ids (rt_objects rt);
  rr_files : files_wf (rt_vfs rt);
  rr_mappings : length (p_dma_mappings p) ≤ MAX_OBJECTS;
  rr_claims : claims_mapped pid p (rt_objects rt)
}.

Lemma loses_claims pid p p' t t' :
  pid ≠ pid_empty → loses t t' → p_dma_mappings p' = p_dma_mappings p → claims_mapped pid p t → claims_mapped pid p' t'.
Proof.
  intros Hp Hl Hd Hc i r' (o & Ho & Hid & Hh)%Hl Hm. destruct Hh as [Hh|[h Hh]]; [|cbn in Hh; congruence].
  symmetry in Hh. cbn in Hh. rewrite Hm in Hh. apply holding_inv in Hh as (r & -> & Hr).
  rewrite Hd. destruct (Hc i r Ho Hr) as (m & Hin & Hreg). exists m. split; [done|]. cbn in Hid. congruence.
Qed.

Lemma reap_holds_nothing pid p k :
  machine_ok k → process (table k) pid = Some p → p_state p = PsExited → release_ready pid p (ks_rt k) →
  ∃ k', reap_process_context pid k = Some (Ok tt, k') ∧ holds_nothing pid k' ∧ machine_ok k'.
Proof.
  intros Hm Hp Hx [Hu Hfw Hlen Hcm]. destruct (reap_machine pid k p Hm Hp Hx) as (k' & Hrun & Hm' & Hre).
  exists k'. split; [done|]. split; [|done]. pose proof (sp_wf _ (mo_spaces _ Hm)) as Hwf.
  assert (Hpid : pid ≠ pid_empty).
  { apply process_live in Hp as [Hin <-]; [|done]. pose proof (pw_pids _ Hwf) as Hpids. rewrite Forall_forall in Hpids.
    specialize (Hpids p Hin). unfold pid_empty. lia. }
  unfold reap_process_context in Hrun. unfold kbind at 1, modify_rt at 1, kmodify at 1 in Hrun.
  set (k0 := set ks_rt _ _) in Hrun. unfold kbind at 1, kget at 1 in Hrun.
  assert (Hobj : rt_objects (cancel_owner pid (ks_rt k)) = objs k) by apply cancel_objects.
  destruct (endpoints_released pid (objs k) Hpid) as [L0 F0].
  assert (Hobj0 : objs k0 = (remove_owned_endpoints (objs k) pid).2) by (unfold k0, set; cbn; by rewrite Hobj).
  rewrite <-Hobj0 in L0, F0.
  assert (Hp0 : process (table k0) pid = Some p) by (by apply cancel_ended).
  assert (K0 : rt_kept (ks_rt k) (ks_rt k0)).
  { etransitivity; [apply (rt_kept_cancel_owner pid)|by apply rt_kept_same]. }
  assert (Hv0 : rt_vfs (ks_rt k0) = rt_vfs (ks_rt k)) by apply cancel_vfs.
  rewrite Hp0 in Hrun. apply kbind_ok in Hrun as ([] & k1 & Hres & Hrun).
  apply (resources_released pid p) in Hres as (L1 & F1 & Hfiles & [Hrng Hnet] & W1 & p1 & Hp1 & Hh1 & Hd1);
    [|by apply K0|by eapply loses_unique|by rewrite Hv0|done|done|done|by eapply loses_claims].
  assert (Hend : objs k' = objs k1 ∧ rt_vfs (ks_rt k') = rt_vfs (ks_rt k1) ∧ ks_devices k' = ks_devices k1 ∧
    ∃ p', process (table k') pid = Some p' ∧ p_file_handles p' = p_file_handles p1 ∧
      p_dma_mappings p' = p_dma_mappings p1).
  { destruct (_ || _); [injection Hrun as <-; split_and!; [done..|]; eauto|].
    destruct (pm_reclaim _ _) as [[] m']; [|done]. injection Hrun as <-. split_and!; [done..|]. exists (reaped_process p1).
    split_and!; [|done..]. etransitivity; [exact (process_modify_process (table k1) pid reaped_process pid W1 (λ _, eq_refl))|].
    by rewrite decide_True, Hp1. }
  destruct Hend as (Ho & Hv & Hd & p2 & Hp2 & Hh2 & Hd2). destruct Hfiles as (_ & _ & _ & HD & HL).
  split.
  - intros i o h. rewrite Ho. intros Hl. assert (h = HoldEndpoint ∨ h ≠ HoldEndpoint) as [->|Hh] by (destruct h; auto);
      [|exact (F1 h Hh i o Hl)].
    exact (loses_free pid _ _ _ Hpid L1 F0 i o Hl).
  - rewrite Hv. by intros i d [_ ?]%HD.
  - rewrite Hv. by intros i l [_ ?]%HL.
  - by rewrite Hd.
  - by rewrite Hd.
  - destruct (ra_gone _ _ _ Hre) as (p' & Hp' & Hx' & Hz'). rewrite Hp2 in Hp'. injection Hp' as <-. exists p2.
    rewrite Hh2, Hd2. done.
Qed.
End release.

(** * Claim *)

(** C10: A process that ended keeps none of its resources, on a machine with no more
    usable frames than the stack of recycled frames holds (the laws of [ProcessMemory],
    which [RealMemory] proves of the kernel's memory management there; with more frames
    the reclamation can fail and the release stops with it).  In a well-formed machine
    whose objects have distinct identifiers, whose file and lock tables are well formed
    and in which every DMA region the process claimed is one of its mappings,
    [reap_process_context] of a process that has ended succeeds; afterwards no endpoint,
    virtio device, bind mount or DMA region, no open file and no lock belongs to the
    process, no virtio driver works for it, it has no file handle, no DMA mapping and no
    address space, and the machine is well formed. *)
Theorem ended_process_holds_nothing `{PM : ProcessMemory} (pid : ProcessId) (p : Process) (k : KernelState) :
  machine_ok k → process (rt_processes (ks_rt k)) pid = Some p → p_state p = PsExited →
  release_ready pid p (ks_rt k) →
  ∃ k', reap_process_context pid k = Some (Ok tt, k') ∧ holds_nothing pid k' ∧ machine_ok k'.
Proof. apply reap_holds_nothing. Qed.

(** * A run *)

(** The machine of [ProcessProofs] in which [app] was started. It has since made an
    endpoint and mapped a DMA buffer, it has a file open and locked, drives the virtio
    random number generator, and has ended. *)
Definition held_mapping : DmaUserMapping := mkDmaUserMapping 3 USER_DMA_MAPPING_BASE 0xfee00000 64.
Definition held_objects (t : ObjectTable) : ObjectTable :=
  (add_dma_region (add_endpoint_owned t "app.port" 2).2 "ring" 0xfee00000 64).2.
Definition held_runtime (rt : RuntimeState) : RuntimeState :=
  (claim_dma_region 3 2 (rt <| rt_objects ::= held_objects |> <| rt_vfs := two_readers |>)).2.
Definition held_process (p : Process) : Process :=
  p <| p_dma_mappings ::= <[0 := Some held_mapping]> |>
    <| p_file_handles ::= <[0 := mkFileHandleSlot 1 (Some (mkFileHandle 2))]> |>.
Definition ended_held (p : Process) : Process := end_process 0 (held_process p).
Definition holding_state `{UserMemory} (k : KernelState) : KernelState := k <| ks_rt ::= held_runtime |>
  <| ks_devices ::= λ d, d <| dev_rng ::= λ r, r <| rng_owner := 2%Z |> |> |>.
Definition ended_state `{UserMemory} (k : KernelState) : KernelState :=
  (holding_state k) <| ks_rt ::= λ rt, rt <| rt_processes ::= λ t, (modify_process t 2 ended_held).2 |> |>.
Local Abbreviation holding_kernel := (holding_state started_kernel).
Local Abbreviation ended_kernel := (ended_state started_kernel).

Lemma started_machine_ok : @machine_ok machine_user_memory tiny_memory started_kernel.
Proof.
  apply (process_run_machine plain_env control_kernel); [exact control_machine|].
  eapply rtc_l; [exact (StepCreate plain_env control_kernel created_kernel 0 1 _ control_next_id created_run)|].
  eapply rtc_l; [exact (StepStart plain_env created_kernel started_kernel 0 2 _ started_run)|]. apply rtc_refl.
Qed.

Lemma held_kept rt : rt_kept rt (held_runtime rt).
Proof.
  unfold held_runtime, claim_dma_region. destruct (get_dma_region _ _) as [r|]; [|by apply rt_kept_same].
  destruct (_ && _); [by apply rt_kept_same|]. destruct (_ =? _)%Z; [|by apply rt_kept_same].
  destruct (get_dma_region_mut _ _) as [[j r']|]; by apply rt_kept_same.
Qed.

Lemma machine_devices `{PM : ProcessMemory} (k : KernelState) f : machine_ok k → machine_ok (k <| ks_devices ::= f |>).
Proof. intros [[W S O R A D] [? ? ?] G T]. by split; [split|split|..]. Qed.

Lemma holding_machine `{PM : ProcessMemory} (k : KernelState) : machine_ok k → machine_ok (holding_state k).
Proof. intros Hk. apply machine_devices. apply (machine_rt k held_runtime); [done|apply held_kept]. Qed.

Lemma holding_machine_ok : @machine_ok machine_user_memory tiny_memory holding_kernel.
Proof. exact (holding_machine started_kernel started_machine_ok). Qed.

Lemma started_app :
  ∃ p, process (rt_processes (ks_rt started_kernel)) 2 = Some p ∧ p_dma_mappings p = replicate MAX_OBJECTS None.
Proof.
  assert (H : (p_dma_mappings <$> process (rt_processes (ks_rt started_kernel)) 2) = Some (replicate MAX_OBJECTS None))
    by (vm_compute; reflexivity).
  apply fmap_Some in H as (p & Hp & Hd). eauto.
Qed.

Lemma started_current : pt_current (rt_processes (ks_rt started_kernel)) = Some 1%Z.
Proof. vm_compute. reflexivity. Qed.

Lemma held_table `{UserMemory} (k : KernelState) : rt_processes (ks_rt (holding_state k)) = rt_processes (ks_rt k).
Proof.
  change (ks_rt (holding_state k)) with (held_runtime (ks_rt k)). generalize (ks_rt k) as rt. intros rt.
  unfold held_runtime, claim_dma_region. destruct (get_dma_region _ _) as [r|]; [|done].
  destruct (_ && _); [done|]. destruct (_ =? _)%Z; [|done]. by destruct (get_dma_region_mut _ _) as [[j r']|].
Qed.

(** What the process holds. *)
Lemma held_by_app :
  (λ o : option KernelObject, o ≫= holding) <$> take 3 (objects (rt_objects (ks_rt ended_kernel))) =
    [None; Some (HoldEndpoint, 2%Z); Some (HoldDma, 2%Z)] ∧
  count (rt_objects (ks_rt ended_kernel)) = 3 ∧
  (λ o : option KernelObject, object_id <$> o) <$> take 3 (objects (rt_objects (ks_rt ended_kernel))) = [Some 1%Z; Some 2%Z; Some 3%Z] ∧
  rng_owner (dev_rng (ks_devices ended_kernel)) = 2%Z.
Proof. split_and!; vm_compute; reflexivity. Qed.

Lemma held_runtime_vfs rt : rt_vfs (held_runtime rt) = two_readers.
Proof.
  unfold held_runtime, claim_dma_region. destruct (get_dma_region _ _) as [r|]; [|done].
  destruct (_ && _); [done|]. destruct (_ =? _)%Z; [|done]. by destruct (get_dma_region_mut _ _) as [[j r']|].
Qed.

Lemma held_files `{UserMemory} (k : KernelState) : rt_vfs (ks_rt (ended_state k)) = two_readers.
Proof. apply held_runtime_vfs. Qed.

Lemma held_ids i o : live_at (rt_objects (ks_rt ended_kernel)) i o → object_id o = (Z.of_nat i + 1)%Z ∧
  (∀ h, holding o = Some (h, 2%Z) → i = 1 ∧ h = HoldEndpoint ∨ i = 2 ∧ h = HoldDma).
Proof.
  destruct held_by_app as (Hh & Hc & Hi & _). intros [Hlt Hl]. rewrite Hc in Hlt.
  assert (Ht : take 3 (objects (rt_objects (ks_rt ended_kernel))) !! i = Some (Some o)) by (by rewrite lookup_take_lt).
  revert Hh Hi Ht. generalize (take 3 (objects (rt_objects (ks_rt ended_kernel)))) as l. intros l Hh Hi Ht.
  assert (H1 : ((λ o : option KernelObject, o ≫= holding) <$> l) !! i = Some (holding o)) by (by rewrite list_lookup_fmap, Ht).
  assert (H2 : ((λ o : option KernelObject, object_id <$> o) <$> l) !! i = Some (Some (object_id o)))
    by (by rewrite list_lookup_fmap, Ht).
  rewrite Hh in H1. rewrite Hi in H2.
  destruct i as [|[|[|i]]]; [..|lia]; cbn in H1, H2; injection H1 as H1; injection H2 as H2;
    (split; [rewrite <-H2; reflexivity|]); intros h Hh'; rewrite <-H1 in Hh'; [discriminate Hh'|..];
    injection Hh' as <-; auto.
Qed.

Lemma ended_ready p : p_dma_mappings p = <[0 := Some held_mapping]> (replicate MAX_OBJECTS None) →
  release_ready 2 p (ks_rt ended_kernel).
Proof.
  intros Hd. split.
  - intros i j o o' [Hi _]%held_ids [Hj _]%held_ids He. lia.
  - rewrite held_files. exact two_readers_wf.
  - rewrite Hd. by rewrite length_insert, length_replicate.
  - intros i r Hl Hm. exists held_mapping. split.
    + rewrite Hd. apply list_elem_of_lookup. exists 0. by apply list_lookup_insert_eq; rewrite length_replicate; apply Nat.lt_0_succ.
    + destruct (held_ids _ _ Hl) as [Hid Hh]. cbn [object_id] in Hid.
      destruct (Hh HoldDma) as [[_ H]|[-> _]]; [cbn; by rewrite Hm|discriminate H|]. by rewrite Hid.
Qed.

Lemma ended_app :
  ∃ p, process (rt_processes (ks_rt ended_kernel)) 2 = Some p ∧ p_state p = PsExited ∧
    p_dma_mappings p = <[0 := Some held_mapping]> (replicate MAX_OBJECTS None).
Proof.
  destruct started_app as (p & Hp & Hd). exists (ended_held p). split_and!; [|done|].
  - pose proof (process_modify_process (rt_processes (ks_rt holding_kernel)) 2 ended_held 2
                  (sp_wf _ (mo_spaces _ holding_machine_ok)) (λ _, eq_refl)) as Hm.
    rewrite held_table, decide_True, Hp in Hm by done. rewrite <-held_table in Hm. exact Hm.
  - change (p_dma_mappings (ended_held p)) with (<[0 := Some held_mapping]> (p_dma_mappings p)). by rewrite Hd.
Qed.

(** The buffer lies outside of the memory of the machine. *)
Lemma held_device : machine_device tiny_map ∅ 0xfee00000 64.
Proof.
  intros x Hx. right. assert (page_number x = 0xfee00)%Z as ->; [|vm_compute; reflexivity].
  unfold page_number, FRAME_SIZE. symmetry; apply (Z.div_unique _ _ _ (x - 0xfee00000)); lia.
Qed.

Lemma ended_kept p : kept_context (PM := tiny_memory) p (ended_held p).
Proof.
  split; [done..|]. intros m Hin. change (p_dma_mappings (ended_held p)) with (<[0 := Some held_mapping]> (p_dma_mappings p)) in Hin.
  apply list_elem_of_lookup in Hin as [i Hi]. destruct (decide (i = 0)) as [->|Hne].
  - apply list_lookup_insert_Some in Hi as [(_ & [= <-] & _)|[? _]]; [|done]. right. exact held_device.
  - rewrite list_lookup_insert_ne in Hi by done. left. by eapply list_elem_of_lookup_2.
Qed.

Lemma ended_machine_ok : @machine_ok machine_user_memory tiny_memory ended_kernel.
Proof.
  destruct started_app as (p & Hp & Hd).
  assert (Hc : pt_current (rt_processes (ks_rt holding_kernel)) ≠ Some 2%Z) by (rewrite held_table, started_current; discriminate).
  rewrite <-held_table in Hp.
  refine (machine_modify holding_kernel 2 p ended_held holding_machine_ok Hc Hp (λ _, eq_refl) _ (ended_kept p)). discriminate.
Qed.

(** Witness of [ended_process_holds_nothing]. *)
Lemma ended_process_holds_nothing_witness :
  ∃ k', @reap_process_context machine_user_memory tiny_memory 2 ended_kernel = Some (Ok tt, k') ∧
    @holds_nothing machine_user_memory 2 k'.
Proof.
  destruct ended_app as (p & Hp & Hx & Hd).
  destruct (@ended_process_holds_nothing machine_user_memory tiny_memory 2 p ended_kernel ended_machine_ok Hp Hx
              (ended_ready p Hd)) as (k' & Hrun & Hn & _).
  exists k'. split; [exact Hrun|exact Hn].
Defined.
