(* ===== verification/IpcProofs.v ===== *)
(** Messages reach their receivers: the wake-up after a send ends and delivers
    the message, and no process ever stays blocked in a receive for which a
    message is waiting. *)

From S2P Require Import Prelude KernelBase Transport VfsPath KernelObjects ObjectTableProofs.
From S2P Require Import ProcessRuntime ProcessTableProofs CapRegistry VfsState Runtime Virtio Kernel PageCache.
From S2P Require Import Scheduler VfsTransactions CapabilitySyscalls Ipc.
From S2P Require Import CapabilityProofs Revocation SchedulerProofs.

(** * The invariant *)

(** The process is blocked in a receive on endpoint [id]. *)
Definition waits_on (id : KernelObjectId) (p : Process) : bool :=
  match p_state p with
  | PsBlockedOnEndpoint waiting _ _ _ _ => (waiting =? id)%Z
  | _ => false
  end.

(** No blocked receiver has a message waiting for it. *)
Definition no_missed (rt : RuntimeState) : Prop :=
  ∀ id ep p, get_endpoint (rt_objects rt) id = Some ep → p ∈ live_processes (rt_processes rt) →
    waits_on id p = true → endpoint_has_message_for ep (p_pid p) = false.

Definition endpoints_wf (rt : RuntimeState) : Prop :=
  ∀ id ep, get_endpoint (rt_objects rt) id = Some ep → endpoint_wf ep.

Record ipc_ok (rt : RuntimeState) : Prop := mk_ipc_ok {
  io_processes : ptable_wf (rt_processes rt);
  io_endpoints : endpoints_wf rt;
  io_missed : no_missed rt
}.

(** The pending messages of an endpoint. *)
Definition pending (ep : IpcEndpoint) : list IpcMessage := queue_contents (ep_queue ep).

Lemma has_message_false ep pid :
  endpoint_wf ep → endpoint_has_message_for ep pid = false ↔ Forall (λ m, eligible pid m = false) (pending ep).
Proof.
  intros Hwf. pose proof (ms_has_message ep pid Hwf) as H. cbn in H. rewrite H.
  rewrite bool_decide_eq_false, <-eq_None_not_Some. apply take_first_None.
Qed.

(** * States with less to do *)

(** A process left alone, or no longer blocked in a receive. *)
Definition eased (p p' : Process) : Prop :=
  p' = p ∨ p_pid p' = p_pid p ∧ ∀ id, waits_on id p' = false.

#[export] Instance eased_preorder : PreOrder eased.
Proof.
  split; [by left|]. intros p q r [->|[H1 H2]] [->|[H3 H4]]; unfold eased; [by left|by right|by right|].
  right. split; [congruence|done].
Qed.

(** An endpoint that lost messages at most. *)
Definition drained (o o' : option IpcEndpoint) : Prop :=
  match o, o' with
  | None, None => True
  | Some ep, Some ep' => endpoint_wf ep → endpoint_wf ep' ∧ pending ep' ⊆ pending ep
  | _, _ => False
  end.

#[export] Instance drained_preorder : PreOrder drained.
Proof.
  split; [intros [ep|]; cbn; auto|]. intros [e1|] [e2|] [e3|]; cbn; try done. intros H12 H23 Hwf.
  destruct (H12 Hwf) as [Hwf2 Hs]. destruct (H23 Hwf2) as [Hwf3 Hs']. split; [done|by etransitivity].
Qed.

Record calmer (rt rt' : RuntimeState) : Prop := mk_calmer {
  cl_wf : ptable_wf (rt_processes rt) → ptable_wf (rt_processes rt');
  cl_eased : ptable_wf (rt_processes rt) →
    Forall2 eased (live_processes (rt_processes rt)) (live_processes (rt_processes rt'));
  cl_drained id : drained (get_endpoint (rt_objects rt) id) (get_endpoint (rt_objects rt') id)
}.

#[export] Instance calmer_preorder : PreOrder calmer.
Proof.
  split; [by split|]. intros r1 r2 r3 [W1 E1 D1] [W2 E2 D2]. split; [eauto| |].
  - intros Hwf. etransitivity; [by apply E1|]. by apply E2, W1.
  - intros id. etransitivity; [apply D1|apply D2].
Qed.

Lemma calmer_endpoints rt rt' : calmer rt rt' → endpoints_wf rt → endpoints_wf rt'.
Proof.
  intros [_ _ D] Hwf id ep' Hep'. specialize (D id). rewrite Hep' in D.
  destruct (get_endpoint (rt_objects rt) id) as [ep|] eqn:Hep; [|done]. by eapply D, Hwf.
Qed.

Lemma calmer_ok rt rt' : calmer rt rt' → ipc_ok rt → ipc_ok rt'.
Proof.
  intros Hc [Hpt Hwf Hn]. split; [by apply Hc|by eapply calmer_endpoints|].
  intros id ep' p' Hep' Hp' Hw. destruct Hc as [_ E D]. specialize (D id). rewrite Hep' in D.
  destruct (get_endpoint (rt_objects rt) id) as [ep|] eqn:Hep; [|done].
  destruct (D (Hwf id ep Hep)) as [Hwf' Hsub].
  apply list_elem_of_lookup in Hp' as [i Hi].
  destruct (Forall2_lookup_r _ _ _ _ _ (E Hpt) Hi) as (p & Hp & [->|[_ Hno]]);
    [|by rewrite Hno in Hw].
  apply has_message_false; [done|]. apply Forall_forall. intros m Hm%Hsub. revert m Hm.
  apply Forall_forall, has_message_false; [by eapply Hwf|].
  apply (Hn id); [done|by eapply list_elem_of_lookup_2|done].
Qed.

(** The same processes and endpoints. *)
Lemma calmer_same rt rt' :
  rt_processes rt' = rt_processes rt → rt_objects rt' = rt_objects rt → calmer rt rt'.
Proof.
  intros Hp Ho. split; rewrite ?Hp, ?Ho; [done|done|done].
Qed.

Lemma calmer_processes rt t :
  (ptable_wf (rt_processes rt) → ptable_wf t ∧ Forall2 eased (live_processes (rt_processes rt)) (live_processes t)) →
  calmer rt (rt <| rt_processes := t |>).
Proof. intros Ht. split; [apply Ht|apply Ht|done]. Qed.

(** A write to one slot. *)
Lemma calmer_slot rt i f :
  (∀ p, p_pid (f p) = p_pid p) →
  (∀ p, live_processes (rt_processes rt) !! i = Some p → ∀ id, waits_on id (f p) = false) →
  calmer rt (rt <| rt_processes ::= λ t, modify_process_at t i f |>).
Proof.
  intros Hpid Hf. apply (calmer_processes rt (modify_process_at (rt_processes rt) i f)). intros Hwf.
  destruct (modify_process_at_live _ i f Hwf Hpid) as [Hwf' Hl]. split; [done|]. rewrite Hl.
  apply Forall2_same_length_lookup_2; [by rewrite length_alter|]. intros j p p' Hp Hp'.
  destruct (decide (i = j)) as [->|Hne].
  - rewrite list_lookup_alter_eq, Hp in Hp'. injection Hp' as <-. right. eauto.
  - rewrite list_lookup_alter_ne, Hp in Hp' by done. injection Hp' as <-. by left.
Qed.

Lemma calmer_wake rt i status :
  calmer rt (rt <| rt_processes ::= λ t, modify_process_at t i (wake_with status) |>).
Proof. by apply calmer_slot. Qed.

(** * Endpoints *)

Lemma get_endpoint_id t id ep : get_endpoint t id = Some ep → ep_id ep = id.
Proof.
  intros (i & o & _ & _ & Ho & _)%first_some_Some. destruct o as [[]|]; try done.
  apply with_id_Some in Ho as [-> Hid]. done.
Qed.

Lemma endpoint_write t id i ep ep' :
  get_endpoint_mut t id = Some (i, ep) → ep_id ep' = ep_id ep →
  get_endpoint t id = Some ep ∧
  ∀ id', get_endpoint (set_object t i (OIpcEndpoint ep')) id' =
         if decide (id' = id) then Some ep' else get_endpoint t id'.
Proof.
  intros (o & _ & Hsel & Hget & Hhit & Hskip)%find_object_mut_Some Hid. split; [done|].
  assert (Hep : o = OIpcEndpoint ep ∧ ep_id ep = id)
    by (destruct o; try done; by apply with_id_Some in Hsel as [-> ?]).
  destruct Hep as [-> Hep]. intros id'. case_decide as Hd.
  - subst id'. apply Hhit. apply with_id_Some. split; [done|congruence].
  - apply Hskip.
    + destruct (with_id ep_id id' ep) eqn:H; [|done]. apply with_id_Some in H as [_ H]. congruence.
    + destruct (with_id ep_id id' ep') eqn:H; [|done]. apply with_id_Some in H as [_ H]. congruence.
Qed.

(** What a change of one endpoint leaves. *)
Definition with_endpoint (rt rt' : RuntimeState) (id : KernelObjectId) (ep' : IpcEndpoint) : Prop :=
  rt_processes rt' = rt_processes rt ∧
  ∀ id', get_endpoint (rt_objects rt') id' =
         if decide (id' = id) then Some ep' else get_endpoint (rt_objects rt) id'.

Section endpoints.
Context `{UserMemory}.

(** Memory, address space and frame are as before. *)
Definition same_machine (k k' : KernelState) : Prop :=
  ks_mem k' = ks_mem k ∧ ks_cr3 k' = ks_cr3 k ∧ ks_frame k' = ks_frame k.

#[export] Instance same_machine_preorder : PreOrder same_machine.
Proof. split; [done|]. intros k1 k2 k3 (?&?&?) (?&?&?). split_and!; congruence. Qed.

Lemma on_endpoint_run {A} id (f : IpcEndpoint → A * IpcEndpoint) k :
  (∀ ep, ep_id (f ep).2 = ep_id ep) →
  match get_endpoint (rt_objects (ks_rt k)) id with
  | None => on_endpoint id f k = Some (Ok None, k)
  | Some ep => ∃ k', on_endpoint id f k = Some (Ok (Some (f ep).1), k') ∧ same_machine k k' ∧
      with_endpoint (ks_rt k) (ks_rt k') id (f ep).2
  end.
Proof.
  intros Hid. unfold on_endpoint.
  destruct (get_endpoint_mut (rt_objects (ks_rt k)) id) as [[i ep]|] eqn:Hm.
  - destruct (endpoint_write _ _ _ _ (f ep).2 Hm (Hid ep)) as [-> Hw].
    destruct (f ep) as [a ep'] eqn:Hf. eexists. split; [reflexivity|]. by split.
  - by rewrite (find_object_mut_None _ _ Hm : get_endpoint _ id = None).
Qed.

(** A change of an endpoint that leaves it as it is changes nothing. *)
Lemma on_endpoint_idle {A} id (f : IpcEndpoint → A * IpcEndpoint) k ep :
  get_endpoint (rt_objects (ks_rt k)) id = Some ep → (f ep).2 = ep →
  on_endpoint id f k = Some (Ok (Some (f ep).1), k).
Proof.
  intros Hep Hf. unfold on_endpoint.
  destruct (get_endpoint_mut (rt_objects (ks_rt k)) id) as [[i ep0]|] eqn:Hm.
  - destruct (endpoint_write _ _ _ _ ep0 Hm eq_refl) as [Hep' _].
    assert (ep0 = ep) as -> by congruence. destruct (f ep) as [a ep'] eqn:He. cbn in Hf |- *. subst ep'.
    apply find_object_mut_Some in Hm as (o & Ho & Hsel & _).
    assert (o = OIpcEndpoint ep) as -> by (destruct o; try done; by apply with_id_Some in Hsel as [-> _]).
    do 2 f_equal. destruct k as [rt ? ? ? ? ? ?]. unfold set; cbn in *. f_equal.
    destruct rt as [t]. unfold set_object, set; cbn in *. f_equal. destruct t; cbn in *.
    f_equal. by apply list_insert_id.
  - pose proof (find_object_mut_None _ _ Hm : get_endpoint _ id = None). congruence.
Qed.

Lemma with_endpoint_calmer rt rt' id ep ep' :
  get_endpoint (rt_objects rt) id = Some ep → with_endpoint rt rt' id ep' →
  (endpoint_wf ep → endpoint_wf ep' ∧ pending ep' ⊆ pending ep) → calmer rt rt'.
Proof.
  intros Hep [Hp He] Hd. split; rewrite ?Hp; [done|done|].
  intros id'. rewrite He. case_decide; [subst|done]. by rewrite Hep.
Qed.

Lemma take_first_subset {A} (P : A → bool) l x l' : take_first P l = Some (x, l') → l' ⊆ l.
Proof. intros (pre & post & -> & -> & _)%take_first_Some. set_solver. Qed.

Lemma dequeue_drained ep pid :
  endpoint_wf ep → let ep' := (endpoint_dequeue_for ep pid).2 in endpoint_wf ep' ∧ pending ep' ⊆ pending ep.
Proof.
  intros Hwf ep'. destruct (take_first (eligible pid) (pending ep)) as [[m l]|] eqn:Ht.
  - destruct (@ms_dequeue_some _ endpoint_store ep pid m l Hwf Ht) as (q & Hq & Hwf' & Hl). cbn in Hq, Hwf', Hl.
    unfold ep'. rewrite Hq. split; [done|]. unfold pending at 1. cbn. rewrite Hl.
    by eapply take_first_subset.
  - pose proof (@ms_dequeue_none _ endpoint_store ep pid Hwf Ht) as Hq. cbn in Hq. unfold ep'. rewrite Hq. done.
Qed.

Lemma dequeue_reply_drained ep pid tx :
  endpoint_wf ep → let ep' := (endpoint_dequeue_vfs_state_reply_for ep pid tx).2 in
  endpoint_wf ep' ∧ pending ep' ⊆ pending ep.
Proof.
  intros Hwf ep'. unfold ep', endpoint_dequeue_vfs_state_reply_for, queue_dequeue_transaction_reply_for.
  pose proof (queue_remove_first_spec (λ m, eligible pid m && transaction_is tx m) (ep_queue ep) Hwf) as Hs.
  destruct (take_first _ (queue_contents (ep_queue ep))) as [[m l]|] eqn:Ht.
  - destruct Hs as (q & -> & Hwf' & Hl). split; [done|]. unfold pending, set; cbn. rewrite Hl.
    by eapply take_first_subset.
  - rewrite Hs. by destruct ep.
Qed.

Lemma dequeue_id ep pid : ep_id (endpoint_dequeue_for ep pid).2 = ep_id ep.
Proof. unfold endpoint_dequeue_for. by destruct (queue_dequeue_for _ _). Qed.

Lemma dequeue_reply_id ep pid tx : ep_id (endpoint_dequeue_vfs_state_reply_for ep pid tx).2 = ep_id ep.
Proof. unfold endpoint_dequeue_vfs_state_reply_for. by destruct (queue_dequeue_transaction_reply_for _ _ _). Qed.

Lemma enqueue_id ep s b n : ep_id (endpoint_enqueue ep s b n).2 = ep_id ep.
Proof. unfold endpoint_enqueue. by destruct (queue_enqueue _ _ _ _). Qed.

(** * Small steps *)

Lemma quiet_calmer k k' : quiet k k' → calmer (ks_rt k) (ks_rt k').
Proof.
  intros [_ _ _ _ Hwf Hw He]. split; [done| |intros id; by rewrite He].
  intros Hpt. eapply Forall2_impl; [by apply Hw|]. intros p p' [->|(_ & s & ->)]; [by left|by right].
Qed.

Lemma record_ready_calmer e pid m rt : calmer rt (record_ready_lifecycle e pid m rt).
Proof.
  assert (Hs : ∀ name st r, calmer rt (record_service_lifecycle rt name st r)).
  { intros name st r. unfold record_service_lifecycle. repeat case_match; by apply calmer_same. }
  unfold record_ready_lifecycle. repeat case_match; try done; apply Hs.
Qed.
End endpoints.

(** * A message arrives *)

(** The processes a new message [m] on [e] is for. *)
Definition receiver (e : KernelObjectId) (m : IpcMessage) (p : Process) : bool :=
  waits_on e p && eligible (p_pid p) m.

(** Message [m] has just been queued on [e], after [l]; nothing else is missed. *)
Record arrived (rt : RuntimeState) (e : KernelObjectId) (l : list IpcMessage) (m : IpcMessage) : Prop :=
  mk_arrived {
    ar_processes : ptable_wf (rt_processes rt);
    ar_endpoints : endpoints_wf rt;
    ar_pending : ∃ ep, get_endpoint (rt_objects rt) e = Some ep ∧ pending ep = l ++ [m];
    ar_old p : p ∈ live_processes (rt_processes rt) → waits_on e p = true →
      Forall (λ x, eligible (p_pid p) x = false) l;
    ar_other id ep p : id ≠ e → get_endpoint (rt_objects rt) id = Some ep →
      p ∈ live_processes (rt_processes rt) → waits_on id p = true →
      endpoint_has_message_for ep (p_pid p) = false
  }.

Lemma arrived_receiver rt e l m p :
  arrived rt e l m → p ∈ live_processes (rt_processes rt) →
  is_blocked_receiver rt e p = receiver e m p.
Proof.
  intros Har Hp. destruct (ar_pending _ _ _ _ Har) as (ep & Hep & Hl).
  pose proof (ar_endpoints _ _ _ _ Har e ep Hep) as Hwf.
  unfold is_blocked_receiver, receiver. destruct (waits_on e p) eqn:Hw; cbn [andb].
  - pose proof (ar_old _ _ _ _ Har p Hp Hw) as Ho. unfold waits_on in Hw.
    destruct (p_state p); try done. rewrite Hw, Hep. cbn [andb].
    apply eq_bool_prop_intro. rewrite !Is_true_true, <-!not_false_iff_true, has_message_false, Hl by done.
    rewrite Forall_app, Forall_singleton. tauto.
  - unfold waits_on in Hw. destruct (p_state p); try done. by rewrite Hw.
Qed.

(** Easing processes keeps it. *)
Lemma arrived_eased rt rt' e l m :
  arrived rt e l m → ptable_wf (rt_processes rt') →
  Forall2 eased (live_processes (rt_processes rt)) (live_processes (rt_processes rt')) →
  (∀ id, get_endpoint (rt_objects rt') id = get_endpoint (rt_objects rt) id) → arrived rt' e l m.
Proof.
  intros [Hp Hw Hl Ho Hx] Hp' He Hg.
  assert (Hback : ∀ p id, p ∈ live_processes (rt_processes rt') → waits_on id p = true →
                  p ∈ live_processes (rt_processes rt)).
  { intros p id [i Hi]%list_elem_of_lookup Hwt.
    destruct (Forall2_lookup_r _ _ _ _ _ He Hi) as (q & Hq & [->|[_ Hno]]); [|by rewrite Hno in Hwt].
    by eapply list_elem_of_lookup_2. }
  split; [done|intros id ep; rewrite Hg; apply Hw|rewrite Hg; done|..].
  - intros p Hin Hwt. apply Ho; eauto.
  - intros id ep p Hne. rewrite Hg. intros Hep Hin Hwt. apply (Hx id); eauto.
Qed.

(** Taking the message away leaves nothing missed. *)
Lemma arrived_taken rt rt' e l m ep' :
  arrived rt e l m → with_endpoint rt rt' e ep' → endpoint_wf ep' → pending ep' = l → ipc_ok rt'.
Proof.
  intros [Hp Hw Hl Ho Hx] [Hpr He] Hwf' Hl'. split; [by rewrite Hpr| |].
  - intros id ep. rewrite He. case_decide; [intros [= <-]; done|apply Hw].
  - intros id ep p. rewrite He, Hpr. case_decide as Hd; [subst id; intros [= <-]|by apply Hx].
    intros Hin Hwt. apply has_message_false; [done|]. rewrite Hl'. by apply Ho.
Qed.

(** Nobody waits for it. *)
Lemma arrived_unwanted rt e l m :
  arrived rt e l m → (∀ p, p ∈ live_processes (rt_processes rt) → receiver e m p = false) → ipc_ok rt.
Proof.
  intros [Hp Hw (ep0 & Hep0 & Hl) Ho Hx] Hn. split; [done|done|]. intros id ep p Hep Hin Hwt.
  destruct (decide (id = e)) as [->|Hne]; [|by eapply Hx].
  rewrite Hep0 in Hep. injection Hep as <-. apply has_message_false; [by eapply Hw|].
  rewrite Hl. apply Forall_app. split; [by apply Ho|]. apply Forall_singleton.
  specialize (Hn p Hin). unfold receiver in Hn. by rewrite Hwt in Hn.
Qed.

(** The dequeue for a receiver takes it. *)
Lemma arrived_dequeue rt e l m ep p :
  arrived rt e l m → get_endpoint (rt_objects rt) e = Some ep →
  p ∈ live_processes (rt_processes rt) → receiver e m p = true →
  ∃ ep', endpoint_dequeue_for ep (p_pid p) = (Some m, ep') ∧ endpoint_wf ep' ∧ pending ep' = l.
Proof.
  intros [Hp Hw (ep0 & Hep0 & Hl) Ho _] Hep Hin [Hwt He]%andb_true_iff.
  rewrite Hep in Hep0. injection Hep0 as <-. pose proof (Hw e ep Hep) as Hwf.
  apply (@ms_dequeue_some _ endpoint_store ep (p_pid p) m l Hwf).
  apply take_first_Some. exists l, []. rewrite app_nil_r. split_and!; [done|done|done|by apply Ho].
Qed.

(** * The wake-up *)

(** The process at [i] is the first the message is for. *)
Definition first_receiver (rt : RuntimeState) (e : KernelObjectId) (m : IpcMessage) (i : nat)
    (p : Process) : Prop :=
  live_processes (rt_processes rt) !! i = Some p ∧ receiver e m p = true ∧
  ∀ j q, j < i → live_processes (rt_processes rt) !! j = Some q → receiver e m q = false.

Lemma blocked_receiver_cases rt e l m :
  arrived rt e l m →
  match blocked_receiver_index rt e with
  | Some i => ∃ p, first_receiver rt e m i p ∧ mjoin (pt_processes (rt_processes rt) !! i) = Some p
  | None => ∀ p, p ∈ live_processes (rt_processes rt) → receiver e m p = false
  end.
Proof.
  intros Har. pose proof (ar_processes _ _ _ _ Har) as Hwf. unfold blocked_receiver_index.
  assert (Hin : ∀ j q, live_processes (rt_processes rt) !! j = Some q →
                is_blocked_receiver rt e q = receiver e m q).
  { intros j q Hq. eapply arrived_receiver; [done|]. by eapply list_elem_of_lookup_2. }
  destruct (first_index _ _ _) as [i|] eqn:Hi.
  - apply first_index_Some in Hi as (Hlt & ([p|] & Hp & Ht) & Hmin); [|done]. exists p.
    assert (Hl : live_processes (rt_processes rt) !! i = Some p) by (by apply live_lookup).
    split; [|by rewrite Hp]. split_and!; [done|by rewrite <-(Hin i)|].
    intros j q Hj Hq. rewrite <-(Hin j) by done. apply live_lookup in Hq as [_ Hq]; [|done].
    exact (Hmin j (Some q) Hj Hq).
  - intros p [j Hj]%list_elem_of_lookup. rewrite <-(Hin j) by done.
    apply live_lookup in Hj as [Hlt Hj]; [|done].
    exact (proj1 (first_index_None _ _ _) Hi j (Some p) Hlt Hj).
Qed.

Section wake.
Context `{UserMemory} (env : Env).

(** Where and how much a blocked receiver takes. *)
Definition receive_buffer (p : Process) : Z * Z :=
  match p_state p with PsBlockedOnEndpoint _ _ d n _ => (d, n) | _ => (0, 0) end%Z.
Definition taken_len (m : IpcMessage) (p : Process) : Z := Z.min (Z.of_nat (msg_len m)) (receive_buffer p).2.
Definition taken_bytes (m : IpcMessage) (p : Process) : list byte :=
  take (Z.to_nat (taken_len m p)) (msg_bytes m).
Definition buffer_valid (k : KernelState) (m : IpcMessage) (p : Process) : bool :=
  um_valid (ks_mem k) (cr3 (p_context p)) (receive_buffer p).1
    (Z.of_nat (length (taken_bytes m p))) UserWrite.
Definition wake_status (k : KernelState) (m : IpcMessage) (p : Process) : Z :=
  if buffer_valid k m p then taken_len m p else STATUS_BAD_BUFFER.

(** The memory after the copy to the buffer of [p], in its address space. *)
Definition delivered_mem (k : KernelState) (m : IpcMessage) (p : Process) : umem :=
  if buffer_valid k m p
  then um_store (ks_mem k) (cr3 (p_context p)) (receive_buffer p).1 (taken_bytes m p) else ks_mem k.

Lemma unauthorized_receiver_state rt p e cap d n t :
  p_state p = PsBlockedOnEndpoint e cap d n t →
  unauthorized_receiver rt p = negb (process_has_live_endpoint_cap rt p e cap RIGHT_RECEIVE).
Proof. unfold unauthorized_receiver. by intros ->. Qed.

Lemma receiver_state e m p :
  receiver e m p = true → ∃ cap d n t, p_state p = PsBlockedOnEndpoint e cap d n t.
Proof.
  intros [Hw _]%andb_true_iff. unfold waits_on in Hw. destruct (p_state p); try done.
  apply Z.eqb_eq in Hw as ->. eauto.
Qed.

Lemma wake_round_none fuel e l m k :
  arrived (ks_rt k) e l m → (∀ p, p ∈ live_processes (rt_processes (ks_rt k)) → receiver e m p = false) →
  wake_blocked_receiver_loop (S fuel) e k = Some (Ok tt, k).
Proof.
  intros Har Hn. cbn [wake_blocked_receiver_loop]. unfold kbind at 1, kget at 1.
  pose proof (blocked_receiver_cases _ _ _ _ Har) as Hc.
  destruct (blocked_receiver_index (ks_rt k) e) as [i|]; [|done].
  destruct Hc as (p & (Hp & Hr & _) & _). rewrite Hn in Hr; [done|by eapply list_elem_of_lookup_2].
Qed.

Lemma first_receiver_unique rt e m i j p q :
  first_receiver rt e m i p → first_receiver rt e m j q → i = j ∧ p = q.
Proof.
  intros (Hi & Ri & Mi) (Hj & Rj & Mj). assert (i = j) as ->.
  { destruct (Nat.lt_trichotomy i j) as [Hlt|[->|Hlt]]; [|done|].
    - by rewrite (Mj i p Hlt Hi) in Ri.
    - by rewrite (Mi j q Hlt Hj) in Rj. }
  split; [done|congruence].
Qed.

Lemma wake_round_cancel fuel e l m k i p :
  arrived (ks_rt k) e l m → first_receiver (ks_rt k) e m i p →
  unauthorized_receiver (ks_rt k) p = true →
  wake_blocked_receiver_loop (S fuel) e k =
  wake_blocked_receiver_loop fuel e (k <| ks_rt ::= λ rt, rt <| rt_processes ::= λ t,
    modify_process_at t i (wake_with STATUS_BAD_CAPABILITY) |> |>).
Proof.
  intros Har Hf Hu. cbn [wake_blocked_receiver_loop]. unfold kbind at 1, kget at 1.
  pose proof (blocked_receiver_cases _ _ _ _ Har) as Hc.
  destruct (blocked_receiver_index (ks_rt k) e) as [j|].
  2: { destruct Hf as (Hp & Hr & _). rewrite Hc in Hr; [done|by eapply list_elem_of_lookup_2]. }
  destruct Hc as (q & Hf' & Hm). destruct (first_receiver_unique _ _ _ _ _ _ _ Hf Hf') as [<- <-].
  rewrite Hm. destruct (receiver_state e m p (proj1 (proj2 Hf))) as (cap & d & n & t & Hst).
  rewrite (unauthorized_receiver_state _ _ _ _ _ _ _ Hst) in Hu. rewrite Hst. cbn iota beta. rewrite Hu.
  unfold kbind at 1, modify_rt, kmodify.
  assert (Hb : blocked_on_endpoint p) by (unfold blocked_on_endpoint; by rewrite Hst).
  unfold set at 1; cbn. by rewrite (cancel_waiter_at STATUS_BAD_CAPABILITY (ks_rt k) i p Hm Hb).
Qed.

(** The address space the kernel returns to. *)
Definition home_cr3 (k : KernelState) : Z :=
  match current_process (rt_processes (ks_rt k)) with
  | Some q => cr3 (p_context q)
  | None => ks_cr3 k
  end.

(** The state after a delivery to the process [p] at [i]. *)
Record handed_over (e : KernelObjectId) (l : list IpcMessage) (m : IpcMessage) (i : nat) (p : Process)
    (k k' : KernelState) : Prop := mk_handed_over {
  ho_ok : ipc_ok (ks_rt k');
  ho_processes : live_processes (rt_processes (ks_rt k')) =
    alter (wake_with (wake_status k m p)) i (live_processes (rt_processes (ks_rt k)));
  ho_pending : ∃ ep', get_endpoint (rt_objects (ks_rt k')) e = Some ep' ∧ pending ep' = l;
  ho_other id : id ≠ e → get_endpoint (rt_objects (ks_rt k')) id = get_endpoint (rt_objects (ks_rt k)) id;
  ho_mem : ks_mem k' = delivered_mem k m p;
  ho_cr3 : ks_cr3 k' = home_cr3 k;
  ho_frame : ks_frame k' = ks_frame k
}.

Lemma record_ready_same e pid m rt :
  rt_processes (record_ready_lifecycle e pid m rt) = rt_processes rt ∧
  rt_objects (record_ready_lifecycle e pid m rt) = rt_objects rt.
Proof.
  unfold record_ready_lifecycle, record_service_lifecycle. by repeat case_match.
Qed.

(** The end of a delivery: wake the process, record readiness. *)
Lemma handed_over_intro e l m i p k k1 k' ep' r :
  arrived (ks_rt k) e l m → endpoint_wf ep' → pending ep' = l →
  with_endpoint (ks_rt k) (ks_rt k1) e ep' →
  rt_processes r = modify_process_at (rt_processes (ks_rt k1)) i (wake_with (wake_status k m p)) →
  rt_objects r = rt_objects (ks_rt k1) → ks_rt k' = r →
  ks_mem k' = delivered_mem k m p → ks_cr3 k' = home_cr3 k → ks_frame k' = ks_frame k →
  handed_over e l m i p k k'.
Proof.
  intros Har Hwf' Hl' Hw Hp Ho <- Hmem Hcr Hfr. destruct (arrived_taken _ _ _ _ _ _ Har Hw Hwf' Hl') as [W1 W2 W3].
  destruct Hw as [Hpr Hget].
  destruct (modify_process_at_live (rt_processes (ks_rt k1)) i (wake_with (wake_status k m p)) W1) as [Hwf2 Hl2];
    [done|]. rewrite <-Hp in Hwf2, Hl2. rewrite Hpr in Hl2.
  split; try done.
  - eapply (calmer_ok (ks_rt k1)); [|done].
    etransitivity; [apply (calmer_wake (ks_rt k1) i (wake_status k m p))|].
    apply calmer_same; [exact Hp|exact Ho].
  - rewrite Ho, Hget, decide_True by done. eauto.
  - intros id Hne. by rewrite Ho, Hget, decide_False.
Qed.

Lemma wake_round_deliver fuel e l m k i p :
  arrived (ks_rt k) e l m → first_receiver (ks_rt k) e m i p →
  unauthorized_receiver (ks_rt k) p = false →
  ∃ k', wake_blocked_receiver_loop (S fuel) e k = Some (Ok tt, k') ∧ handed_over e l m i p k k'.
Proof.
  intros Har Hf Hu. cbn [wake_blocked_receiver_loop]. unfold kbind at 1, kget at 1.
  pose proof (blocked_receiver_cases _ _ _ _ Har) as Hc.
  destruct (blocked_receiver_index (ks_rt k) e) as [j|].
  2: { destruct Hf as (Hp & Hr & _). rewrite Hc in Hr; [done|by eapply list_elem_of_lookup_2]. }
  destruct Hc as (q & Hf' & Hm). destruct (first_receiver_unique _ _ _ _ _ _ _ Hf Hf') as [<- <-].
  destruct Hf as (Hp & Hr & _). rewrite Hm.
  destruct (receiver_state e m p Hr) as (cap & d & n & t & Hst).
  assert (Hbuf : receive_buffer p = (d, n)) by (unfold receive_buffer; by rewrite Hst).
  rewrite (unauthorized_receiver_state _ _ _ _ _ _ _ Hst) in Hu. rewrite Hst. cbn iota beta. rewrite Hu.
  destruct (ar_pending _ _ _ _ Har) as (ep & Hep & _).
  destruct (arrived_dequeue _ _ _ _ ep p Har Hep) as (ep' & Hdq & Hwf' & Hl'); [by eapply list_elem_of_lookup_2|done|].
  pose proof (on_endpoint_run e (λ ep, endpoint_dequeue_for ep (p_pid p)) k (λ ep, dequeue_id ep _)) as Hrun.
  rewrite Hep in Hrun. destruct Hrun as (k1 & Hrun & (Mm & Mc & Mf) & Hw). rewrite Hdq in Hrun, Hw. cbn in Hrun, Hw.
  unfold kbind at 1, kget at 1. unfold kbind at 1.
  change (dequeue_message e (p_pid p) k) with (on_endpoint e (λ ep, endpoint_dequeue_for ep (p_pid p)) k).
  rewrite Hrun. cbn [mjoin option_join]. unfold kbind at 1, switch_address_space, kmodify.
  unfold kbind at 1, copy_to_user.
  assert (Hlen : Z.min (Z.of_nat (msg_len m)) n = taken_len m p) by (unfold taken_len; by rewrite Hbuf).
  rewrite Hlen. fold (taken_bytes m p).
  change (ks_cr3 (k1 <| ks_cr3 := _ |>)) with (cr3 (p_context p)).
  change (ks_mem (k1 <| ks_cr3 := _ |>)) with (ks_mem k1). rewrite Mm.
  assert (Hok : um_valid (ks_mem k) (cr3 (p_context p)) d (Z.of_nat (length (taken_bytes m p))) UserWrite =
                buffer_valid k m p) by (unfold buffer_valid; by rewrite Hbuf).
  rewrite Hok. destruct (buffer_valid k m p) eqn:Hbv.
  - unfold kbind at 1. cbn iota. unfold kbind, modify_slot, modify_rt, kmodify. eexists. split; [reflexivity|].
    eapply handed_over_intro; [done|exact Hwf'|done|exact Hw| | |reflexivity|..].
    + etransitivity; [apply record_ready_same|]. unfold wake_status. rewrite Hbv. done.
    + etransitivity; [apply record_ready_same|]. done.
    + unfold delivered_mem. rewrite Hbv, Hbuf. done.
    + done.
    + done.
  - unfold kbind at 1. cbn iota. unfold modify_slot, modify_rt, kmodify. eexists. split; [reflexivity|].
    eapply handed_over_intro; [done|exact Hwf'|done|exact Hw| | |reflexivity|..]; try done.
    + unfold wake_status. rewrite Hbv. done.
    + unfold delivered_mem. rewrite Hbv. done.
Qed.

Lemma current_context_modify t i f :
  ptable_wf t → (∀ p, p_pid (f p) = p_pid p) → (∀ p, p_context (f p) = p_context p) →
  p_context <$> current_process (modify_process_at t i f) = p_context <$> current_process t.
Proof.
  intros Hwf Hpid Hctx. unfold current_process.
  change (pt_current (modify_process_at t i f)) with (pt_current t).
  destruct (pt_current t) as [pid|]; [|done].
  change (p_context <$> process (modify_process_at t i f) pid = p_context <$> process t pid).
  rewrite !process_via_index, process_index_modify by done.
  destruct (process_index t pid) as [j|]; [|done]. cbn. destruct (decide (i = j)) as [->|Hne].
  - rewrite list_lookup_alter_eq. destruct (pt_processes t !! j) as [[q|]|]; cbn; by rewrite ?Hctx.
  - by rewrite list_lookup_alter_ne.
Qed.

Definition cancel_at (i : nat) (k : KernelState) : KernelState :=
  k <| ks_rt ::= λ rt, rt <| rt_processes ::= λ t,
         modify_process_at t i (wake_with STATUS_BAD_CAPABILITY) |> |>.

Lemma home_cr3_cancel i k :
  ptable_wf (rt_processes (ks_rt k)) → home_cr3 (cancel_at i k) = home_cr3 k.
Proof.
  intros Hwf. unfold home_cr3. change (ks_cr3 (cancel_at i k)) with (ks_cr3 k).
  change (rt_processes (ks_rt (cancel_at i k))) with
    (modify_process_at (rt_processes (ks_rt k)) i (wake_with STATUS_BAD_CAPABILITY)).
  pose proof (current_context_modify (rt_processes (ks_rt k)) i (wake_with STATUS_BAD_CAPABILITY) Hwf
    (λ _, eq_refl) (λ _, eq_refl)) as Hc.
  destruct (current_process (modify_process_at _ _ _)), (current_process (rt_processes (ks_rt k)));
    try done. injection Hc as ->. done.
Qed.

(** What the wake-up does to the process at [j]: receivers before the one that
    is served, [served] with its status, lose their wait for lack of authority. *)
Definition after_wake (e : KernelObjectId) (m : IpcMessage) (served : option (nat * Z)) (j : nat)
    (q : Process) : Process :=
  match served with
  | Some (i, status) =>
      if decide (j = i) then wake_with status q
      else if receiver e m q && bool_decide (j < i) then wake_with STATUS_BAD_CAPABILITY q else q
  | None => if receiver e m q then wake_with STATUS_BAD_CAPABILITY q else q
  end.

(** Who is served. *)
Definition serves (e : KernelObjectId) (m : IpcMessage) (k : KernelState) (served : option (nat * Process)) :
    Prop :=
  let live := live_processes (rt_processes (ks_rt k)) in
  match served with
  | Some (i, p) =>
      live !! i = Some p ∧ receiver e m p = true ∧ unauthorized_receiver (ks_rt k) p = false ∧
      ∀ j q, j < i → live !! j = Some q → receiver e m q = true → unauthorized_receiver (ks_rt k) q = true
  | None => ∀ p, p ∈ live → receiver e m p = true → unauthorized_receiver (ks_rt k) p = true
  end.

Record wake_result (e : KernelObjectId) (l : list IpcMessage) (m : IpcMessage) (k k' : KernelState)
    (served : option (nat * Process)) : Prop := mk_wake_result {
  wr_ok : ipc_ok (ks_rt k');
  wr_length : length (live_processes (rt_processes (ks_rt k'))) =
              length (live_processes (rt_processes (ks_rt k)));
  wr_processes j q : live_processes (rt_processes (ks_rt k)) !! j = Some q →
    live_processes (rt_processes (ks_rt k')) !! j =
    Some (after_wake e m (prod_map id (wake_status k m) <$> served) j q);
  wr_pending : ∃ ep, get_endpoint (rt_objects (ks_rt k')) e = Some ep ∧
    pending ep = match served with Some _ => l | None => l ++ [m] end;
  wr_other id : id ≠ e → get_endpoint (rt_objects (ks_rt k')) id = get_endpoint (rt_objects (ks_rt k)) id;
  wr_mem : ks_mem k' = match served with Some (_, p) => delivered_mem k m p | None => ks_mem k end;
  wr_cr3 : ks_cr3 k' = match served with Some _ => home_cr3 k | None => ks_cr3 k end;
  wr_frame : ks_frame k' = ks_frame k
}.

(** After a cancellation there is one receiver less, and the others stand as before. *)
Lemma cancel_at_live k i :
  ptable_wf (rt_processes (ks_rt k)) →
  live_processes (rt_processes (ks_rt (cancel_at i k))) =
  alter (wake_with STATUS_BAD_CAPABILITY) i (live_processes (rt_processes (ks_rt k))).
Proof. intros Hwf. by apply modify_process_at_live. Qed.

Lemma cancel_at_arrived k i e l m :
  arrived (ks_rt k) e l m → arrived (ks_rt (cancel_at i k)) e l m.
Proof.
  intros Har. pose proof (ar_processes _ _ _ _ Har) as Hwf.
  pose proof (calmer_wake (ks_rt k) i STATUS_BAD_CAPABILITY) as [W E _].
  eapply arrived_eased; [done|by apply W|by apply E|done].
Qed.

Lemma cancel_at_authority k i p :
  caps_wf (ks_rt k) → p ∈ live_processes (rt_processes (ks_rt k)) →
  unauthorized_receiver (ks_rt (cancel_at i k)) p = unauthorized_receiver (ks_rt k) p.
Proof.
  intros Hwf Hp. unfold unauthorized_receiver. destruct (p_state p); try done. f_equal.
  apply has_live_endpoint_cap_stable; try done. by apply modify_same_caps.
Qed.

Lemma length_filter_alter {A} (P : A → bool) (f : A → A) (l : list A) i x :
  l !! i = Some x → P x = true → P (f x) = false →
  S (length (filter (λ y, P y = true) (alter f i l))) = length (filter (λ y, P y = true) l).
Proof.
  intros Hi Hx Hfx. revert i Hi. induction l as [|y l IH]; intros [|i] Hi; simplify_eq/=.
  - rewrite filter_cons_False by congruence. by rewrite filter_cons_True.
  - destruct (P y) eqn:Hy.
    + rewrite !filter_cons_True by done. cbn. by rewrite IH.
    + rewrite !filter_cons_False by congruence. by apply IH.
Qed.

Lemma wake_not_receiver e m s p : receiver e m (wake_with s p) = false.
Proof. done. Qed.

(** A round that cancels the first receiver, followed by the rest. *)
Lemma wake_result_cancel e l m i p k k' served :
  caps_wf (ks_rt k) → ptable_wf (rt_processes (ks_rt k)) →
  first_receiver (ks_rt k) e m i p → unauthorized_receiver (ks_rt k) p = true →
  serves e m (cancel_at i k) served → wake_result e l m (cancel_at i k) k' served →
  serves e m k served ∧ wake_result e l m k k' served.
Proof.
  intros Hcw Hwf (Hp & Hr & Hfirst) Hu Hs [W1 W2 W3 W4 W5 W6 W7 W8].
  pose proof (cancel_at_live k i Hwf) as Hl. rewrite home_cr3_cancel in W7 by done.
  assert (Hother : ∀ j q, j ≠ i → live_processes (rt_processes (ks_rt (cancel_at i k))) !! j = Some q ↔
                          live_processes (rt_processes (ks_rt k)) !! j = Some q).
  { intros j q Hne. rewrite Hl. by rewrite list_lookup_alter_ne. }
  assert (Hself : live_processes (rt_processes (ks_rt (cancel_at i k))) !! i =
                  Some (wake_with STATUS_BAD_CAPABILITY p)) by (by rewrite Hl, list_lookup_alter_eq, Hp).
  assert (Hauth : ∀ j q, live_processes (rt_processes (ks_rt k)) !! j = Some q →
            unauthorized_receiver (ks_rt (cancel_at i k)) q = unauthorized_receiver (ks_rt k) q).
  { intros j q Hj. apply cancel_at_authority; [done|]. by eapply list_elem_of_lookup_2. }
  assert (Hlater : ∀ i' p', served = Some (i', p') → i < i').
  { intros i' p' ->. destruct Hs as (Hi' & Hr' & _).
    destruct (decide (i' = i)) as [->|Hne]; [by rewrite Hself in Hi'; injection Hi' as <-|].
    apply Hother in Hi'; [|done]. destruct (decide (i' < i)) as [Hlt|]; [|lia].
    by rewrite (Hfirst i' p' Hlt Hi') in Hr'. }
  split.
  - destruct served as [[i' p']|].
    + specialize (Hlater i' p' eq_refl). destruct Hs as (Hi' & Hr' & Hu' & Hj).
      apply Hother in Hi'; [|lia]. rewrite (Hauth i') in Hu' by done. split_and!; [done..|].
      intros j q Hlt Hq Hrq. destruct (decide (j = i)) as [->|Hne]; [by rewrite Hp in Hq; injection Hq as <-|].
      rewrite <-(Hauth j) by done. apply (Hj j); [done|by apply Hother|done].
    + intros q [j Hq]%list_elem_of_lookup Hrq.
      destruct (decide (j = i)) as [->|Hne]; [by rewrite Hp in Hq; injection Hq as <-|].
      rewrite <-(Hauth j) by done. apply Hs; [|done]. apply (list_elem_of_lookup_2 _ j). by apply Hother.
  - split; try done.
    + by rewrite W2, Hl, length_alter.
    + intros j q Hq. destruct (decide (j = i)) as [->|Hne].
      * rewrite (W3 i _ Hself). rewrite Hp in Hq. injection Hq as <-. f_equal.
        destruct served as [[i' p']|]; cbn.
        -- specialize (Hlater i' p' eq_refl). rewrite !decide_False by lia.
           by rewrite Hr, bool_decide_true.
        -- by rewrite Hr.
      * by rewrite (W3 j q) by (by apply Hother).
Qed.

Lemma wake_loop_result fuel : ∀ e l m k,
  caps_wf (ks_rt k) → arrived (ks_rt k) e l m →
  length (filter (λ p, receiver e m p = true) (live_processes (rt_processes (ks_rt k)))) < fuel →
  ∃ k' served, wake_blocked_receiver_loop fuel e k = Some (Ok tt, k') ∧
    serves e m k served ∧ wake_result e l m k k' served.
Proof.
  induction fuel as [|fuel IH]; intros e l m k Hcw Har Hlt; [lia|].
  pose proof (ar_processes _ _ _ _ Har) as Hwf. pose proof (blocked_receiver_cases _ _ _ _ Har) as Hc.
  destruct (blocked_receiver_index (ks_rt k) e) as [i|].
  - destruct Hc as (p & Hf & _). pose proof Hf as (Hp & Hr & Hfirst).
    destruct (unauthorized_receiver (ks_rt k) p) eqn:Hu.
    + rewrite (wake_round_cancel fuel e l m k i p) by done. fold (cancel_at i k).
      destruct (IH e l m (cancel_at i k)) as (k' & served & Hrun & Hs & Hw).
      * eapply same_caps_wf; [done|]. by apply modify_same_caps.
      * by apply cancel_at_arrived.
      * rewrite cancel_at_live by done.
        pose proof (length_filter_alter (receiver e m) (wake_with STATUS_BAD_CAPABILITY) _ i p Hp Hr
          (wake_not_receiver e m _ p)). lia.
      * exists k', served. split; [done|]. by apply (wake_result_cancel e l m i p).
    + destruct (wake_round_deliver fuel e l m k i p Har Hf Hu) as (k' & Hrun & [H1 H2 H3 H4 H5 H6 H7]).
      exists k', (Some (i, p)). split; [done|]. split.
      { split_and!; [done..|]. intros j q Hj Hq Hrq. by rewrite (Hfirst j q) in Hrq. }
      split; try done; [by rewrite H2, length_alter|]. intros j q Hq. rewrite H2. cbn.
      case_decide as Hd; [subst j; by rewrite list_lookup_alter_eq, Hq|].
      rewrite list_lookup_alter_ne, Hq by done. case_bool_decide as Hj; [by rewrite (Hfirst j q)|].
      by rewrite andb_false_r.
  - exists k, None. split; [by eapply wake_round_none|]. split.
    { intros p Hp Hr. by rewrite Hc in Hr. }
    split; try done.
    + by eapply arrived_unwanted.
    + intros j q Hq. cbn. by rewrite Hc by (by eapply list_elem_of_lookup_2).
    + apply Har.
Qed.
End wake.

(** * Sending *)

(** A process left alone, or woken. *)
Definition roused (p p' : Process) : Prop := p' = p ∨ ∃ s, p' = wake_with s p.

#[export] Instance roused_preorder : PreOrder roused.
Proof.
  split; [by left|]. intros p q r [->|[s ->]] [->|[s' ->]]; unfold roused; [by left|by right; eauto..].
Qed.

Definition all_roused (rt rt' : RuntimeState) : Prop :=
  Forall2 roused (live_processes (rt_processes rt)) (live_processes (rt_processes rt')).

#[export] Instance all_roused_preorder : PreOrder all_roused.
Proof. split; unfold all_roused; [intros r; reflexivity|]. intros r1 r2 r3 H1 H2. by etransitivity. Qed.

(** The process waits for the reply of a service on endpoint [e]. *)
Definition waits_for_reply (e : KernelObjectId) (p : Process) : bool :=
  match p_state p with
  | PsBlockedOnVfsState reply _ _ _ _ _ _ _ _ _ => (reply =? e)%Z
  | PsBlockedOnVertexFsSync _ reply _ _ _ _ _ _ => (reply =? e)%Z
  | _ => false
  end.
Definition waits_for_sync (e : KernelObjectId) (p : Process) : bool :=
  match p_state p with
  | PsBlockedOnVertexFsSync _ reply _ _ _ _ _ _ => (reply =? e)%Z
  | _ => false
  end.

(** Nobody starts such a wait by being woken. *)
Lemma roused_absent (P : Process → bool) rt rt' :
  (∀ s p, P (wake_with s p) = false) → all_roused rt rt' →
  (∀ p, p ∈ live_processes (rt_processes rt) → P p = false) →
  ∀ p, p ∈ live_processes (rt_processes rt') → P p = false.
Proof.
  intros HP Hr Ha p' [i Hi]%list_elem_of_lookup.
  destruct (Forall2_lookup_r _ _ _ _ _ Hr Hi) as (p & Hp & [->|[s ->]]); [|apply HP].
  apply Ha. by eapply list_elem_of_lookup_2.
Qed.

Lemma find_waiter_None sel rt :
  ptable_wf (rt_processes rt) → (∀ p, p ∈ live_processes (rt_processes rt) → sel p = false) →
  find_waiter sel rt = None.
Proof.
  intros Hwf Ha. apply first_index_None. intros j [p|] Hlt Hp; [|done]. apply Ha.
  apply (list_elem_of_lookup_2 _ j). by apply live_lookup.
Qed.

Lemma find_waiter_Some sel rt i :
  ptable_wf (rt_processes rt) → find_waiter sel rt = Some i →
  ∃ p, live_processes (rt_processes rt) !! i = Some p ∧ sel p = true ∧
       mjoin (pt_processes (rt_processes rt) !! i) = Some p.
Proof.
  intros Hwf (Hlt & ([p|] & Hp & Hs) & _)%first_index_Some; [|done].
  exists p. split_and!; [by apply live_lookup|done|by rewrite Hp].
Qed.

Lemma roused_slot rt i s :
  ptable_wf (rt_processes rt) →
  all_roused rt (rt <| rt_processes ::= λ t, modify_process_at t i (wake_with s) |>).
Proof.
  intros Hwf. unfold all_roused.
  change (rt_processes (rt <| rt_processes ::= _ |>)) with (modify_process_at (rt_processes rt) i (wake_with s)).
  destruct (modify_process_at_live (rt_processes rt) i (wake_with s) Hwf) as [_ ->]; [done|].
  apply Forall2_same_length_lookup_2; [by rewrite length_alter|]. intros j p p' Hp Hp'.
  destruct (decide (i = j)) as [->|Hne].
  - rewrite list_lookup_alter_eq, Hp in Hp'. injection Hp' as <-. right. eauto.
  - rewrite list_lookup_alter_ne, Hp in Hp' by done. injection Hp' as <-. by left.
Qed.

Section send.
Context `{UserMemory} (env : Env).

Lemma wake_loop_ok fuel : ∀ e l m k,
  arrived (ks_rt k) e l m →
  length (filter (λ p, receiver e m p = true) (live_processes (rt_processes (ks_rt k)))) < fuel →
  ∃ k', wake_blocked_receiver_loop fuel e k = Some (Ok tt, k') ∧ ipc_ok (ks_rt k') ∧
        all_roused (ks_rt k) (ks_rt k').
Proof.
  induction fuel as [|fuel IH]; intros e l m k Har Hlt; [lia|].
  pose proof (ar_processes _ _ _ _ Har) as Hwf. pose proof (blocked_receiver_cases _ _ _ _ Har) as Hc.
  destruct (blocked_receiver_index (ks_rt k) e) as [i|].
  - destruct Hc as (p & Hf & _). pose proof Hf as (Hp & Hr & Hfirst).
    destruct (unauthorized_receiver (ks_rt k) p) eqn:Hu.
    + rewrite (wake_round_cancel fuel e l m k i p) by done. fold (cancel_at i k).
      destruct (IH e l m (cancel_at i k)) as (k' & Hrun & Hok & Hro).
      * by apply cancel_at_arrived.
      * rewrite cancel_at_live by done.
        pose proof (length_filter_alter (receiver e m) (wake_with STATUS_BAD_CAPABILITY) _ i p Hp Hr
          (wake_not_receiver e m _ p)). lia.
      * exists k'. split_and!; [done..|]. etransitivity; [|done]. by apply roused_slot.
    + destruct (wake_round_deliver fuel e l m k i p Har Hf Hu) as (k' & Hrun & [H1 H2 H3 H4 H5 H6 H7]).
      exists k'. split_and!; [done..|]. unfold all_roused. rewrite H2.
      pose proof (roused_slot (ks_rt k) i (wake_status k m p) Hwf) as Hro. unfold all_roused in Hro.
      destruct (modify_process_at_live (rt_processes (ks_rt k)) i (wake_with (wake_status k m p)) Hwf)
        as [_ Hl]; [done|]. rewrite <-Hl. exact Hro.
  - exists k. split_and!; [by eapply wake_round_none|by eapply arrived_unwanted|done].
Qed.

Lemma receivers_bounded rt e m :
  ptable_wf (rt_processes rt) →
  length (filter (λ p, receiver e m p = true) (live_processes (rt_processes rt))) < wake_loop_fuel.
Proof.
  intros Hwf. unfold wake_loop_fuel. pose proof (pw_count _ Hwf). pose proof (live_length _ Hwf).
  pose proof (length_filter (λ p, receiver e m p = true) (live_processes (rt_processes rt))). lia.
Qed.

Lemma quiet_roused k k' :
  ptable_wf (rt_processes (ks_rt k)) → quiet k k' → all_roused (ks_rt k) (ks_rt k').
Proof.
  intros Hwf Hq. eapply Forall2_impl; [by apply Hq|]. intros p p' [->|(_ & s & ->)]; [by left|right; eauto].
Qed.

Lemma quiet_arrived k k' e l m : quiet k k' → arrived (ks_rt k) e l m → arrived (ks_rt k') e l m.
Proof.
  intros Hq Har. pose proof (ar_processes _ _ _ _ Har) as Hwf. pose proof (quiet_calmer _ _ Hq) as [W E _].
  eapply arrived_eased; [done|by apply W|by apply E|apply Hq].
Qed.

(** [wake_blocked_receiver] ends, and nothing is missed afterwards. *)
Lemma wake_blocked_receiver_ok e l m k :
  arrived (ks_rt k) e l m →
  ∃ k', wake_blocked_receiver env e k = Some (Ok tt, k') ∧ ipc_ok (ks_rt k') ∧ all_roused (ks_rt k) (ks_rt k').
Proof.
  intros Har. pose proof (ar_processes _ _ _ _ Har) as Hwf. unfold wake_blocked_receiver, kbind at 1.
  destruct (wake_timed_now_quiet env k Hwf) as (n & k1 & -> & Hq & _).
  destruct (wake_loop_ok wake_loop_fuel e l m k1) as (k' & Hrun & Hok & Hro).
  - by eapply quiet_arrived.
  - by apply receivers_bounded, Hq.
  - exists k'. split_and!; [done..|]. etransitivity; [by apply quiet_roused|done].
Qed.

Lemma with_endpoint_arrived rt rt' e ep ep' m :
  ipc_ok rt → get_endpoint (rt_objects rt) e = Some ep → with_endpoint rt rt' e ep' →
  endpoint_wf ep' → pending ep' = pending ep ++ [m] → arrived rt' e (pending ep) m.
Proof.
  intros [Hp Hw Hn] Hep [Hpr Hget] Hwf' Hl. split.
  - by rewrite Hpr.
  - intros id x. rewrite Hget. case_decide; [intros [= <-]; done|apply Hw].
  - exists ep'. by rewrite Hget, decide_True.
  - intros p. rewrite Hpr. intros Hin Hwt. apply has_message_false; [by eapply Hw|]. by apply (Hn e).
  - intros id x p Hne. rewrite Hget, decide_False, Hpr by done. apply Hn.
Qed.

(** Calls that touch neither the processes nor the objects. *)
Definition inert {A} (c : K A) : Prop :=
  ∀ k, ∃ r k', c k = Some (r, k') ∧ rt_processes (ks_rt k') = rt_processes (ks_rt k) ∧
               rt_objects (ks_rt k') = rt_objects (ks_rt k) ∧ is_ok r = true.

Lemma inert_bind {A B} (c : K A) (f : A → K B) : inert c → (∀ a, inert (f a)) → inert (kbind c f).
Proof.
  intros Hc Hf k. destruct (Hc k) as ([a|e] & k1 & Hrun & P1 & O1 & Hr); [|done].
  destruct (Hf a k1) as (r & k2 & Hrun2 & P2 & O2 & Hr2).
  exists r, k2. unfold kbind. rewrite Hrun. split_and!; [done|congruence|congruence|done].
Qed.

Lemma inert_ret {A} (a : A) : inert (kret a).
Proof. intros k. by exists (Ok a), k. Qed.

Lemma inert_get {A} (f : KernelState → A) : inert (kget f).
Proof. intros k. by exists (Ok (f k)), k. Qed.

Lemma inert_modify f :
  (∀ k, rt_processes (ks_rt (f k)) = rt_processes (ks_rt k) ∧ rt_objects (ks_rt (f k)) = rt_objects (ks_rt k)) →
  inert (kmodify f).
Proof. intros Hf k. exists (Ok tt), (f k). split; [done|]. by destruct (Hf k). Qed.

Lemma inert_copy ptr bytes : inert (copy_to_user ptr bytes).
Proof. intros k. unfold copy_to_user. case_match; eexists _, _; by split_and!. Qed.

Lemma inert_copy_waiter c d bytes : inert (copy_to_waiter c d bytes).
Proof.
  unfold copy_to_waiter, switch_address_space.
  repeat first [apply inert_bind|apply inert_get|apply inert_copy|apply inert_ret|intros ?
               |by apply inert_modify].
Qed.

Lemma inert_advance u d o n : inert (advance_offset u d o n).
Proof.
  unfold advance_offset. destruct (negb u); [apply inert_ret|].
  destruct (checked_add o n); [|apply inert_ret]. apply inert_bind; [apply inert_get|].
  intros v. destruct (file_description_index v d); [|apply inert_ret].
  apply inert_bind; [by apply inert_modify|]. intros ?. apply inert_ret.
Qed.

(** The result of a reply of the state service. *)
Lemma inert_reply (operation : VfsStateOperation) c d n o desc u w node m :
  inert (match operation with
         | VsoRead | VsoServiceRead => wake_blocked_vfs_state_read c d n o desc u m
         | VsoStat => wake_blocked_vfs_state_stat c d n desc node m
         | VsoWrite | VsoControl => wake_blocked_vfs_state_write o desc u w m
         end).
Proof.
  assert (Hr : inert (wake_blocked_vfs_state_read c d n o desc u m)).
  { unfold wake_blocked_vfs_state_read. case_match; [apply inert_ret|].
    apply inert_bind; [apply inert_copy_waiter|]. intros b. case_match; [apply inert_ret|].
    apply inert_bind; [apply inert_advance|]. intros x. apply inert_ret. }
  assert (Hw : inert (wake_blocked_vfs_state_write o desc u w m)).
  { unfold wake_blocked_vfs_state_write. case_match; [apply inert_ret|].
    apply inert_bind; [apply inert_advance|]. intros x. apply inert_ret. }
  destruct operation; try done. unfold wake_blocked_vfs_state_stat. case_match; [apply inert_ret|].
  apply inert_bind; [apply inert_get|]. intros v.
  destruct (vfs_node v node); [|apply inert_ret]. destruct (file_description v desc); [|apply inert_ret].
  apply inert_bind; [apply inert_copy_waiter|]. intros b. apply inert_ret.
Qed.

(** [wake_blocked_vfs_state_reply] ends; it takes a message and wakes a process
    at most. *)
Lemma wake_state_reply_calmer e k :
  ptable_wf (rt_processes (ks_rt k)) →
  ∃ k', wake_blocked_vfs_state_reply e k = Some (Ok tt, k') ∧ calmer (ks_rt k) (ks_rt k') ∧
        all_roused (ks_rt k) (ks_rt k').
Proof.
  intros Hwf. unfold wake_blocked_vfs_state_reply, kbind at 1, kget at 1.
  destruct (blocked_vfs_state_waiter_index (ks_rt k) e) as [i|] eqn:Hi; [|by exists k].
  apply find_waiter_Some in Hi as (p & Hp & Hs & ->); [|done].
  destruct (p_state p) as [| | | | | | |re node desc op tx o d n w u| | | |] eqn:Hst; try done.
  pose proof (on_endpoint_run e (λ ep, endpoint_dequeue_vfs_state_reply_for ep (p_pid p) tx) k
    (λ ep, dequeue_reply_id ep _ _)) as Hrun.
  unfold kbind at 1. destruct (get_endpoint (rt_objects (ks_rt k)) e) as [ep|] eqn:Hep.
  2: { rewrite Hrun. by exists k. }
  destruct Hrun as (k1 & -> & _ & Hw). cbn [mjoin option_join].
  assert (C1 : calmer (ks_rt k) (ks_rt k1)).
  { eapply with_endpoint_calmer; [done|exact Hw|]. apply dequeue_reply_drained. }
  destruct Hw as [Hpr _].
  assert (R1 : all_roused (ks_rt k) (ks_rt k1)) by (unfold all_roused; by rewrite Hpr).
  destruct (endpoint_dequeue_vfs_state_reply_for ep (p_pid p) tx) as [[m|] ep']; cbn [fst]; [|by exists k1].
  destruct (inert_reply op (cr3 (p_context p)) d n o desc u w node m k1) as ([z|x] & k2 & Hrep & P2 & O2 & Hz);
    [|done].
  unfold kbind. rewrite Hrep. unfold modify_slot, modify_rt, kmodify. eexists. split; [reflexivity|].
  assert (Hwf2 : ptable_wf (rt_processes (ks_rt k2))) by (rewrite P2, Hpr; done).
  split.
  - etransitivity; [exact C1|]. etransitivity; [|apply calmer_wake]. by apply calmer_same.
  - etransitivity; [exact R1|]. etransitivity; [|by apply roused_slot]. unfold all_roused. by rewrite P2.
Qed.

Lemma wake_sync_reply_idle e k :
  ptable_wf (rt_processes (ks_rt k)) →
  (∀ p, p ∈ live_processes (rt_processes (ks_rt k)) → waits_for_sync e p = false) →
  wake_blocked_vertexfs_sync_reply env e k = Some (Ok tt, k).
Proof.
  intros Hwf Ha. unfold wake_blocked_vertexfs_sync_reply, kbind at 1, kget at 1.
  unfold blocked_vertexfs_sync_waiter_index. rewrite find_waiter_None; [done|done|].
  intros p Hp%Ha. unfold waits_for_sync in Hp. destruct (p_state p); try done. by rewrite Hp.
Qed.
End send.

Section send_exact.
Context `{UserMemory} (env : Env).

(** Why a send is refused, if it is: the message is too long, the capability
    does not allow it, the buffer is not readable, or the queue is full. *)
Definition send_refused (slot source len : Z) (k : KernelState) : option IpcError :=
  if (Z.of_nat MAX_MESSAGE_BYTES <? len)%Z then Some MessageTooLarge
  else
    match (endpoint_from_cap slot RIGHT_SEND (ks_rt k)).1 with
    | Err err => Some err
    | Ok e =>
        if negb (um_valid (ks_mem k) (ks_cr3 k) source len UserRead) then Some InvalidUserBuffer
        else
          match get_endpoint (rt_objects (ks_rt k)) e with
          | None => Some BadCapability
          | Some ep => if length (pending ep) =? MESSAGE_QUEUE_CAPACITY then Some MessageTooLarge else None
          end
    end.

(** The message a send queues. *)
Definition sent_message (source len : Z) (k : KernelState) : IpcMessage :=
  queued_message (current_process_id (ks_rt k))
    (message_buffer (um_load (ks_mem k) (ks_cr3 k) source (Z.to_nat len))) (Z.to_nat len).

Lemma endpoint_from_cap_unchanged slot right rt : (endpoint_from_cap slot right rt).2 = rt.
Proof.
  unfold endpoint_from_cap, endpoint_cap_from_slot, rbind, rget, rret, rfail.
  pose proof (lookup_capability_state slot right rt) as Hs.
  destruct (lookup_capability slot right rt) as [[cap|e] rt1]; cbn in *; subst; [|done].
  by destruct (get_endpoint _ _).
Qed.

Lemma on_rt_pure {A} (c : RT A) k : (∀ rt, (c rt).2 = rt) → on_rt c k = Some ((c (ks_rt k)).1, k).
Proof.
  intros Hc. unfold on_rt. specialize (Hc (ks_rt k)). destruct (c (ks_rt k)) as [r rt]. cbn in *.
  subst rt. by destruct k.
Qed.

Lemma on_endpoint_objects {A} id (f : IpcEndpoint → A * IpcEndpoint) k r k' :
  on_endpoint id f k = Some (r, k') → ∃ t, ks_rt k' = (ks_rt k) <| rt_objects := t |>.
Proof.
  unfold on_endpoint. destruct (get_endpoint_mut _ id) as [[i ep]|].
  - destruct (f ep). intros [= _ <-]. by eexists.
  - intros [= _ <-]. exists (rt_objects (ks_rt k)). by destruct (ks_rt k).
Qed.

Lemma kbind_unfold {A B} (c : K A) (f : A → K B) k :
  kbind c f k = match c k with
                | None => None | Some (Ok a, k') => f a k' | Some (Err e, k') => Some (Err e, k')
                end.
Proof. done. Qed.

(** What a send does, check by check. *)
Lemma send_cases slot source len k :
  send env slot source len k =
  if (Z.of_nat MAX_MESSAGE_BYTES <? len)%Z then Some (Err MessageTooLarge, k) else
  match (endpoint_from_cap slot RIGHT_SEND (ks_rt k)).1 with
  | Err err => Some (Err err, k)
  | Ok e =>
      if negb (um_valid (ks_mem k) (ks_cr3 k) source len UserRead) then Some (Err InvalidUserBuffer, k)
      else
        (do* enqueue_message e (current_process_id (ks_rt k))
           (message_buffer (um_load (ks_mem k) (ks_cr3 k) source (Z.to_nat len))) (Z.to_nat len);
         do* wake_blocked_receiver env e;
         do* wake_blocked_vfs_state_reply e;
         wake_blocked_vertexfs_sync_reply env e) k
  end.
Proof.
  unfold send. unfold kbind at 1, kguard at 1. rewrite Z.leb_antisym.
  destruct (Z.ltb_spec (Z.of_nat MAX_MESSAGE_BYTES) len) as [Hbig|Hsmall]; [done|].
  cbn [negb]. unfold kret, kbind at 1.
  rewrite (on_rt_pure _ k (endpoint_from_cap_unchanged slot RIGHT_SEND)).
  destruct ((endpoint_from_cap slot RIGHT_SEND (ks_rt k)).1) as [e|err]; [|done].
  unfold kbind at 1, user_bytes. unfold kbind at 1, copy_from_user.
  rewrite (proj2 (Z.ltb_ge _ _)) by done.
  by destruct (um_valid (ks_mem k) (ks_cr3 k) source len UserRead).
Qed.

(** The enqueue of a send. *)
Lemma enqueue_message_run e sender bytes k :
  endpoints_wf (ks_rt k) → length bytes ≤ MAX_MESSAGE_BYTES →
  match get_endpoint (rt_objects (ks_rt k)) e with
  | None => enqueue_message e sender (message_buffer bytes) (length bytes) k = Some (Err BadCapability, k)
  | Some ep =>
      ∃ ep' k1, same_machine k k1 ∧ with_endpoint (ks_rt k) (ks_rt k1) e ep' ∧
        (∃ t, ks_rt k1 = (ks_rt k) <| rt_objects := t |>) ∧
        if length (pending ep) =? MESSAGE_QUEUE_CAPACITY
        then enqueue_message e sender (message_buffer bytes) (length bytes) k =
               Some (Err MessageTooLarge, k)
        else enqueue_message e sender (message_buffer bytes) (length bytes) k = Some (Ok tt, k1) ∧
             endpoint_wf ep' ∧
             pending ep' = pending ep ++ [queued_message sender (message_buffer bytes) (length bytes)]
  end.
Proof.
  intros Hwf Hlen. unfold enqueue_message, kbind.
  pose proof (on_endpoint_run e
    (λ ep, endpoint_enqueue ep sender (message_buffer bytes) (length bytes)) k
    (λ ep, enqueue_id ep _ _ _)) as Hrun.
  destruct (get_endpoint (rt_objects (ks_rt k)) e) as [ep|] eqn:Hep; [|by rewrite Hrun].
  destruct Hrun as (k1 & Hrun & Hm & Hw). rewrite Hrun. pose proof (Hwf e ep Hep) as Hep_wf.
  exists (endpoint_enqueue ep sender (message_buffer bytes) (length bytes)).2, k1.
  split_and!; [done..|by eapply on_endpoint_objects|].
  pose proof (@ms_bounded _ endpoint_store ep Hep_wf) as Hb. change (ms_contents ep) with (pending ep) in Hb.
  destruct (Nat.eqb_spec (length (pending ep)) MESSAGE_QUEUE_CAPACITY) as [Hfull|Hroom].
  - pose proof (@ms_enqueue_full _ endpoint_store ep sender (message_buffer bytes) (length bytes) Hep_wf Hfull)
      as He. cbn in He.
    rewrite (on_endpoint_idle e _ k ep Hep) in Hrun by (cbn; by rewrite He). cbn in Hrun.
    injection Hrun as <-. by rewrite He.
  - destruct (@ms_enqueue_ok _ endpoint_store ep sender (message_buffer bytes) (length bytes) Hep_wf)
      as (ep' & He & Hwf' & Hl').
    + change (ms_contents ep) with (pending ep). lia.
    + done.
    + unfold message_buffer. rewrite length_app, length_replicate. lia.
    + change (endpoint_enqueue ep sender (message_buffer bytes) (length bytes) = (Ok tt, ep')) in He.
      by rewrite He.
Qed.

(** The first half of a send: checks and enqueue. *)
Lemma send_front slot source len k :
  endpoints_wf (ks_rt k) → (0 ≤ len)%Z →
  match send_refused slot source len k with
  | Some err => send env slot source len k = Some (Err err, k)
  | None => ∃ e ep ep' k1,
      (endpoint_from_cap slot RIGHT_SEND (ks_rt k)).1 = Ok e ∧
      get_endpoint (rt_objects (ks_rt k)) e = Some ep ∧
      endpoint_wf ep' ∧ pending ep' = pending ep ++ [sent_message source len k] ∧
      with_endpoint (ks_rt k) (ks_rt k1) e ep' ∧ same_machine k k1 ∧
      (∃ t, ks_rt k1 = (ks_rt k) <| rt_objects := t |>) ∧
      send env slot source len k =
        (do* wake_blocked_receiver env e;
         do* wake_blocked_vfs_state_reply e;
         wake_blocked_vertexfs_sync_reply env e) k1
  end.
Proof.
  intros Hwf Hlen. rewrite send_cases. unfold send_refused, sent_message.
  destruct (Z.ltb_spec (Z.of_nat MAX_MESSAGE_BYTES) len) as [Hbig|Hsmall]; [done|].
  destruct ((endpoint_from_cap slot RIGHT_SEND (ks_rt k)).1) as [e|err]; [|done].
  destruct (um_valid (ks_mem k) (ks_cr3 k) source len UserRead); [cbn [negb]|done].
  assert (Hbytes : length (um_load (ks_mem k) (ks_cr3 k) source (Z.to_nat len)) = Z.to_nat len)
    by apply um_load_length.
  pose proof (enqueue_message_run e (current_process_id (ks_rt k))
    (um_load (ks_mem k) (ks_cr3 k) source (Z.to_nat len)) k Hwf ltac:(lia)) as Hrun.
  rewrite Hbytes in Hrun. rewrite (kbind_unfold (enqueue_message _ _ _ _)).
  destruct (get_endpoint (rt_objects (ks_rt k)) e) as [ep|] eqn:Hep.
  2: { by rewrite Hrun. }
  destruct Hrun as (ep' & k1 & Hm & Hw & Ht & Hrun).
  destruct (length (pending ep) =? MESSAGE_QUEUE_CAPACITY).
  - by rewrite Hrun.
  - destruct Hrun as (-> & Hwf' & Hl'). exists e, ep, ep', k1. split_and!; done.
Qed.

Lemma wake_timed_same_caps k n k' :
  ptable_wf (rt_processes (ks_rt k)) → wake_timed_now env k = Some (Ok n, k') → same_caps (ks_rt k) (ks_rt k').
Proof.
  intros Hwf Hrun. destruct (wake_timed_now_quiet env k Hwf) as (n' & k1 & Hrun' & Hq & _ & _ & Hl & Hrt).
  rewrite Hrun' in Hrun. injection Hrun as _ ->. split; [by rewrite Hrt|by rewrite Hrt|by intros _; apply Hq|].
  intros _. rewrite Hl. apply Forall2_fmap_r, Forall_Forall2_diag, Forall_forall. intros p _.
  cbn. by destruct (wake_timed_woken (env_tsc env (ks_reads k)) p) as [->|(_ & s & ->)].
Qed.

Lemma wake_state_reply_idle e k :
  ptable_wf (rt_processes (ks_rt k)) →
  (∀ p, p ∈ live_processes (rt_processes (ks_rt k)) → waits_for_reply e p = false) →
  wake_blocked_vfs_state_reply e k = Some (Ok tt, k).
Proof.
  intros Hwf Ha. unfold wake_blocked_vfs_state_reply, kbind at 1, kget at 1.
  unfold blocked_vfs_state_waiter_index. rewrite find_waiter_None; [done|done|].
  intros p Hp%Ha. unfold waits_for_reply in Hp. destruct (p_state p); try done. by rewrite Hp.
Qed.

(** Message [m] was queued behind the messages [l] of endpoint [e], and nothing
    else happened. *)
Definition queued (e : KernelObjectId) (l : list IpcMessage) (m : IpcMessage) (k k' : KernelState) : Prop :=
  ∃ ep ep', get_endpoint (rt_objects (ks_rt k)) e = Some ep ∧ pending ep = l ∧
    endpoint_wf ep' ∧ pending ep' = l ++ [m] ∧ with_endpoint (ks_rt k) (ks_rt k') e ep' ∧
    same_machine k k' ∧ ∃ t, ks_rt k' = (ks_rt k) <| rt_objects := t |>.

(** The second half of a send, when nobody waits for a service there. *)
Lemma send_back e l m k :
  caps_wf (ks_rt k) → arrived (ks_rt k) e l m →
  (∀ p, p ∈ live_processes (rt_processes (ks_rt k)) → waits_for_reply e p = false) →
  ∃ n k1 k' served, wake_timed_now env k = Some (Ok n, k1) ∧
    (do* wake_blocked_receiver env e;
     do* wake_blocked_vfs_state_reply e;
     wake_blocked_vertexfs_sync_reply env e) k = Some (Ok tt, k') ∧
    serves e m k1 served ∧ wake_result e l m k1 k' served.
Proof.
  intros Hcw Har Ha. pose proof (ar_processes _ _ _ _ Har) as Hwf.
  destruct (wake_timed_now_quiet env k Hwf) as (n & k1 & Hnow & Hq & _).
  pose proof (quiet_arrived _ _ _ _ _ Hq Har) as Har1.
  pose proof (receivers_bounded (ks_rt k1) e m (qu_wf _ _ Hq Hwf)) as Hb.
  destruct (wake_loop_result wake_loop_fuel e l m k1) as (k' & served & Hrun & Hs & Hw); [|done|done|].
  { eapply same_caps_wf; [exact Hcw|by eapply wake_timed_same_caps]. }
  destruct (wake_loop_ok wake_loop_fuel e l m k1 Har1 Hb) as (k2 & Hrun2 & Hok & Hro).
  rewrite Hrun in Hrun2. injection Hrun2 as <-.
  assert (Habs : ∀ p, p ∈ live_processes (rt_processes (ks_rt k')) → waits_for_reply e p = false).
  { eapply (roused_absent (waits_for_reply e) (ks_rt k)); [done| |exact Ha].
    etransitivity; [by apply quiet_roused|done]. }
  exists n, k1, k', served. split; [done|]. split; [|done].
  rewrite kbind_unfold. unfold wake_blocked_receiver. rewrite kbind_unfold, Hnow, Hrun.
  rewrite kbind_unfold, wake_state_reply_idle by (apply Hok || exact Habs).
  apply wake_sync_reply_idle; [apply Hok|]. intros p Hp%Habs. unfold waits_for_reply, waits_for_sync in *.
  by destruct (p_state p).
Qed.
End send_exact.

(** C6: a send is refused exactly when the message is too long, the capability
    does not allow it, the buffer is not readable, the endpoint is gone or its
    queue is full, and then the state of the kernel is unchanged. Otherwise,
    on an endpoint where no process waits for the reply of a VFS or VertexFS
    transaction, it succeeds: the message goes to the end of the queue of the
    endpoint, expired waits are ended, and the first blocked receiver the
    message may go to that still holds its receive right takes it off the
    queue. If its buffer can be written it finds the message there, truncated
    to the buffer's length, and is ready to run with that length as its
    result; if not, it is ready with the bad-buffer status and the message is
    lost. Receivers before it that lost the right are woken with an error, all
    other processes and endpoints are left alone, and without a receiver the
    message stays queued. *)
Theorem send_exact `{UserMemory} (env : Env) (slot source len : Z) (k : KernelState) :
  caps_wf (ks_rt k) → ipc_ok (ks_rt k) → (0 ≤ len)%Z →
  (∀ e p, (endpoint_from_cap slot RIGHT_SEND (ks_rt k)).1 = Ok e →
     p ∈ live_processes (rt_processes (ks_rt k)) → waits_for_reply e p = false) →
  match send_refused slot source len k with
  | Some err =>
      send env slot source len k = Some (Err err, k)
  | None =>
      ∃ e l k0 n k1 k' served,
        (endpoint_from_cap slot RIGHT_SEND (ks_rt k)).1 = Ok e ∧
        queued e l (sent_message source len k) k k0 ∧
        wake_timed_now env k0 = Some (Ok n, k1) ∧
        send env slot source len k = Some (Ok tt, k') ∧
        serves e (sent_message source len k) k1 served ∧
        wake_result e l (sent_message source len k) k1 k' served
  end.
Proof.
  intros Hcw Hok Hlen Ha. pose proof (send_front env slot source len k (io_endpoints _ Hok) Hlen) as Hf.
  destruct (send_refused slot source len k); [done|].
  destruct Hf as (e & ep & ep' & k0 & He & Hep & Hwf' & Hl' & Hw & Hm & [t Ht] & ->).
  destruct (send_back env e (pending ep) (sent_message source len k) k0) as (n & k1 & k' & served & H1 & H2 & H3 & H4).
  - rewrite Ht. eapply same_caps_wf; [done|apply objects_same_caps].
  - by eapply with_endpoint_arrived.
  - destruct Hw as [-> _]. intros p Hp. by apply Ha.
  - exists e, (pending ep), k0, n, k1, k', served. split_and!; try done. exists ep, ep'. split_and!; try done. by exists t.
Qed.

(** * Nothing is missed *)

Section steps.
Context `{UserMemory} (env : Env).

Lemma switched_calmer i p k :
  live_processes (rt_processes (ks_rt k)) !! i = Some p → calmer (ks_rt k) (ks_rt (switched i p k)).
Proof.
  intros Hp. pose proof (calmer_slot (ks_rt k) i set_running (λ _, eq_refl) (λ _ _ _, eq_refl)) as C.
  etransitivity; [exact C|]. refine (calmer_processes _ _ _). intros Hwf. split; [|done].
  destruct Hwf. by split.
Qed.

Lemma schedule_calmer fuel inc wait k r k' :
  ptable_wf (rt_processes (ks_rt k)) → schedule_next_ready_inner env fuel inc wait k = Some (r, k') →
  calmer (ks_rt k) (ks_rt k').
Proof.
  intros Hwf Hrun. pose proof (schedule_run env fuel inc wait k Hwf) as Hs. rewrite Hrun in Hs.
  destruct Hs as (b & _ & k1 & Hq & Hb). etransitivity; [by apply quiet_calmer|]. destruct b.
  - destruct Hb as (i & p & _ & Hi & _ & ->). by apply switched_calmer.
  - by destruct Hb as [_ ->].
Qed.

(** A write to the current process. *)
Lemma modify_current_cases f k :
  ptable_wf (rt_processes (ks_rt k)) →
  modify_current_process f k = Some (Ok false, k) ∨
  ∃ i p, live_processes (rt_processes (ks_rt k)) !! i = Some p ∧ p_pid p = current_process_id (ks_rt k) ∧
    modify_current_process f k =
    Some (Ok true, k <| ks_rt ::= λ rt, rt <| rt_processes ::= λ t, modify_process_at t i f |> |>).
Proof.
  intros Hwf. destruct (current_process (rt_processes (ks_rt k))) as [p|] eqn:Hp.
  - right. destruct (modify_current_ok k p f Hwf Hp) as (i & Hl & _ & Hrun). exists i, p.
    split_and!; [done| |done]. unfold current_process_id. by rewrite Hp.
  - left. unfold modify_current_process, modify_current, modify_process, current_process in *.
    destruct (pt_current (rt_processes (ks_rt k))) as [pid|]; cbn in Hp.
    + rewrite process_via_index in Hp by done. destruct (process_index (rt_processes (ks_rt k)) pid) as [i|] eqn:Hi.
      * destruct (process_index_process _ _ _ Hwf Hi) as (q & Hq & _). rewrite process_via_index, Hi in Hq by done.
        cbn in Hp, Hq. congruence.
      * by destruct k as [[] ? ? ? ? ?].
    + by destruct k as [[] ? ? ? ? ?].
Qed.

(** A process may block on an endpoint that has nothing for it. *)
Lemma block_ok rt i p frame s :
  ipc_ok rt → live_processes (rt_processes rt) !! i = Some p →
  (∀ id ep, waits_on id (suspend frame s p) = true → get_endpoint (rt_objects rt) id = Some ep →
     endpoint_has_message_for ep (p_pid p) = false) →
  ipc_ok (rt <| rt_processes ::= λ t, modify_process_at t i (suspend frame s) |>).
Proof.
  intros [Hwf He Hn] Hp Hs.
  destruct (modify_process_at_live (rt_processes rt) i (suspend frame s) Hwf) as [Hwf' Hl]; [done|].
  split; [exact Hwf'|exact He|]. intros id ep q Hep Hq Hw.
  change (rt_processes (rt <| rt_processes ::= _ |>)) with
    (modify_process_at (rt_processes rt) i (suspend frame s)) in Hq.
  rewrite Hl in Hq. apply list_elem_of_alter in Hq as [Hq|(x & Hx & ->)].
  - by apply (Hn id).
  - rewrite Hp in Hx. injection Hx as <-. by apply (Hs id).
Qed.

(** Suspend, search, and run again: the shape of every blocking call. *)
Lemma suspend_and_schedule_ok {A} fuel frame s (none yes no : Result IpcError A) k r k' :
  ipc_ok (ks_rt k) →
  (∀ id ep p, p_pid p = current_process_id (ks_rt k) → waits_on id (suspend frame s p) = true →
     get_endpoint (rt_objects (ks_rt k)) id = Some ep →
     endpoint_has_message_for ep (current_process_id (ks_rt k)) = false) →
  suspend_and_schedule env fuel frame s (klift none) (klift yes) (klift no) k = Some (r, k') →
  ipc_ok (ks_rt k').
Proof.
  intros Hok Hs. unfold suspend_and_schedule. rewrite kbind_unfold.
  destruct (modify_current_cases (suspend frame s) k (io_processes _ Hok)) as [->|(i & p & Hp & Hpid & ->)].
  { by intros [= _ <-]. }
  set (k1 := k <| ks_rt ::= _ |>). assert (Hok1 : ipc_ok (ks_rt k1)).
  { apply (block_ok _ i p); [done|done|]. rewrite Hpid. intros id ep Hw He. by apply (Hs id ep p). }
  cbn [negb]. unfold schedule_next_ready. rewrite kbind_unfold.
  destruct (schedule_next_ready_inner env fuel true true k1) as [[[b|e] k2]|] eqn:Hrun; [| |done].
  - assert (Hok2 : ipc_ok (ks_rt k2)).
    { eapply calmer_ok; [|exact Hok1]. eapply schedule_calmer; [|exact Hrun]. apply Hok1. }
    destruct b; [by intros [= _ <-]|]. rewrite kbind_unfold.
    destruct (modify_current_cases set_running k2 (io_processes _ Hok2)) as [->|(j & q & Hq & _ & ->)];
      [by intros [= _ <-]|]. intros [= _ <-].
    eapply calmer_ok; [|exact Hok2]. by apply calmer_slot.
  - intros [= _ <-]. eapply calmer_ok; [|exact Hok1]. eapply schedule_calmer; [|exact Hrun]. apply Hok1.
Qed.

Lemma same_ipc_ok rt rt' :
  rt_processes rt' = rt_processes rt → rt_objects rt' = rt_objects rt → ipc_ok rt → ipc_ok rt'.
Proof. intros Hp Ho. apply calmer_ok. by apply calmer_same. Qed.

Lemma sleep_ms_ok fuel slot ms k r k' :
  ipc_ok (ks_rt k) → sleep_ms env fuel slot ms k = Some (r, k') → ipc_ok (ks_rt k').
Proof.
  intros Hok. unfold sleep_ms. rewrite kbind_unfold.
  rewrite (on_rt_pure _ k) by (intros; apply object_from_cap_unchanged).
  destruct ((timer_from_cap slot RIGHT_CONTROL (ks_rt k)).1) as [t|e]; [|by intros [= _ <-]].
  destruct (ms =? 0)%Z; [by intros [= _ <-]|].
  unfold kbind at 1, deadline_after_ms. unfold kbind at 1, read_tsc, kret. unfold kbind at 1, kget at 1.
  intros Hrun. eapply (suspend_and_schedule_ok fuel _ _ (Err BadCapability) (Ok tt) (Err Empty));
    [| |exact Hrun]; done.
Qed.

Lemma consume_pending_calmer i rt b rt' : consume_pending_interrupt i rt = (b, rt') → calmer rt rt'.
Proof.
  unfold consume_pending_interrupt. destruct (get_interrupt_line_mut _ i) as [[j line]|] eqn:Hm;
    [|by intros [= _ <-]]. destruct (il_pending_count line =? 0)%Z; [by intros [= _ <-]|].
  intros [= _ <-]. split; [done|done|]. intros id.
  apply find_object_mut_Some in Hm as (o & _ & Hsel & _ & _ & Hother).
  change (rt_objects (rt <| rt_objects ::= ?f |>)) with (f (rt_objects rt)). unfold get_endpoint.
  rewrite Hother; [done| |done]. by destruct o.
Qed.

Lemma irq_wait_ok fuel slot ms k r k' :
  ipc_ok (ks_rt k) → irq_wait env fuel slot ms k = Some (r, k') → ipc_ok (ks_rt k').
Proof.
  intros Hok. unfold irq_wait. rewrite kbind_unfold.
  rewrite (on_rt_pure _ k) by (intros; apply object_from_cap_unchanged).
  destruct ((interrupt_line_from_cap slot RIGHT_LISTEN (ks_rt k)).1) as [line|e]; [|by intros [= _ <-]].
  rewrite kbind_unfold. destruct (consume_pending_interrupt _ (ks_rt k)) as [b rt] eqn:Hcons.
  assert (Hok1 : ipc_ok rt) by (eapply calmer_ok; [by eapply consume_pending_calmer|done]).
  destruct b; [by intros [= _ <-]|]. destruct (ms =? 0)%Z; [by intros [= _ <-]|].
  unfold kbind at 1, deadline_after_ms. unfold kbind at 1, read_tsc, kret. rewrite kbind_unfold.
  set (k1 := _ <| ks_reads ::= S |>).
  destruct (block_current_on_interrupt _ _ _ _ k1) as [[b2 k2]|] eqn:Hb; [|done].
  assert (Hok2 : ipc_ok (ks_rt k2)).
  { unfold block_current_on_interrupt in Hb. unfold kbind at 1, kget at 1 in Hb.
    destruct (get_interrupt_line _ (il_id line)); [|by injection Hb as _ <-].
    unfold kbind at 1, kget at 1 in Hb.
    eapply (suspend_and_schedule_ok fuel _ _ (Ok false) (Ok true) (Ok false)); [| |exact Hb]; done. }
  destruct b2 as [[]|]; by intros [= _ <-].
Qed.

Lemma endpoint_cap_unchanged slot right rt : (endpoint_cap_from_slot slot right rt).2 = rt.
Proof.
  unfold endpoint_cap_from_slot, rbind, rget, rret, rfail.
  pose proof (lookup_capability_state slot right rt) as Hs.
  destruct (lookup_capability slot right rt) as [[cap|e] rt1]; cbn in *; subst; [|done].
  by destruct (get_endpoint _ _).
Qed.

(** A receive takes a message, or blocks when there is none for the caller. *)
Lemma dequeue_none_has ep pid :
  endpoint_wf ep → (endpoint_dequeue_for ep pid).1 = None →
  endpoint_has_message_for ep pid = false ∧ (endpoint_dequeue_for ep pid).2 = ep.
Proof.
  intros Hwf Hd. destruct (take_first (eligible pid) (pending ep)) as [[m l]|] eqn:Ht.
  - destruct (@ms_dequeue_some _ endpoint_store ep pid m l Hwf Ht) as (q & Hq & _). cbn in Hq. by rewrite Hq in Hd.
  - pose proof (@ms_dequeue_none _ endpoint_store ep pid Hwf Ht) as Hq. cbn in Hq. rewrite Hq.
    split; [|done]. by apply has_message_false, take_first_None.
Qed.

Lemma receive_ok fuel slot d n t k r k' :
  ipc_ok (ks_rt k) → receive_with_timeout env fuel slot d n t k = Some (r, k') → ipc_ok (ks_rt k').
Proof.
  intros Hok. unfold receive_with_timeout. rewrite kbind_unfold.
  rewrite (on_rt_pure _ k (endpoint_cap_unchanged slot RIGHT_RECEIVE)).
  destruct ((endpoint_cap_from_slot slot RIGHT_RECEIVE (ks_rt k)).1) as [cap|e]; [|by intros [= _ <-]].
  unfold kbind at 1, validate_user_buffer, kget at 1. unfold kbind at 1.
  destruct (um_valid _ _ d n UserWrite); [|by intros [= _ <-]].
  unfold kguard at 1, kret at 1. unfold kbind at 1, kget at 1. rewrite kbind_unfold.
  set (pid := current_process_id (ks_rt k)).
  pose proof (on_endpoint_run (c_object cap) (λ ep, endpoint_dequeue_for ep pid) k (λ ep, dequeue_id ep _)) as Hrun.
  change (dequeue_message (c_object cap) pid k) with
    (on_endpoint (c_object cap) (λ ep, endpoint_dequeue_for ep pid) k).
  destruct (get_endpoint (rt_objects (ks_rt k)) (c_object cap)) as [ep|] eqn:Hep.
  2: { rewrite Hrun. by intros [= _ <-]. }
  destruct Hrun as (k1 & -> & _ & Hw). pose proof (io_endpoints _ Hok _ _ Hep) as Hwf.
  assert (Hok1 : ipc_ok (ks_rt k1)).
  { eapply calmer_ok; [|exact Hok]. eapply with_endpoint_calmer; [done|exact Hw|]. intros _. by apply dequeue_drained. }
  destruct (endpoint_dequeue_for ep pid).1 as [m|] eqn:Hd; unfold kbind at 1; cbn [klift ok_or].
  - unfold kbind, copy_to_user, kguard, kret, kfail, modify_rt, kmodify, set_rax.
    match goal with |- context [um_valid ?a ?b ?c ?d UserWrite] => destruct (um_valid a b c d UserWrite) end;
      [|by intros [= _ <-]]. intros [= _ <-].
    eapply calmer_ok; [apply record_ready_calmer|exact Hok1].
  - rewrite kbind_unfold. destruct (block_current_on_endpoint _ _ _ _ _ _ _ k1) as [[b k2]|] eqn:Hb; [|done].
    assert (Hok2 : ipc_ok (ks_rt k2)).
    { unfold block_current_on_endpoint in Hb. unfold kbind at 1, kget at 1 in Hb.
      eapply (suspend_and_schedule_ok fuel _ _ (Ok false) (Ok true) (Ok false)); [exact Hok1| |exact Hb].
      destruct (dequeue_none_has ep pid Hwf Hd) as [Hn Hs]. destruct Hw as [Hpr Hg].
      unfold current_process_id. rewrite Hpr. fold (current_process_id (ks_rt k)). fold pid.
      intros id x p Hpid Hwt. rewrite Hg. cbn in Hwt. apply Z.eqb_eq in Hwt as <-.
      rewrite decide_True by done. intros [= <-]. by rewrite Hs. }
    destruct b as [[]|]; by intros [= _ <-].
Qed.

Lemma send_ok slot source len k r k' :
  ipc_ok (ks_rt k) → (0 ≤ len)%Z →
  (∀ e p, (endpoint_from_cap slot RIGHT_SEND (ks_rt k)).1 = Ok e →
     p ∈ live_processes (rt_processes (ks_rt k)) → waits_for_sync e p = false) →
  send env slot source len k = Some (r, k') → ipc_ok (ks_rt k').
Proof.
  intros Hok Hlen Ha. pose proof (send_front env slot source len k (io_endpoints _ Hok) Hlen) as Hf.
  destruct (send_refused slot source len k).
  { rewrite Hf. by intros [= _ <-]. }
  destruct Hf as (e & ep & ep' & k1 & He & Hep & Hwf' & Hl' & Hw & _ & _ & ->).
  destruct (wake_blocked_receiver_ok env e (pending ep) (sent_message source len k) k1)
    as (k2 & Hrun2 & Hok2 & Hro2); [by eapply with_endpoint_arrived|].
  destruct (wake_state_reply_calmer e k2 (io_processes _ Hok2)) as (k3 & Hrun3 & Hc3 & Hro3).
  pose proof (calmer_ok _ _ Hc3 Hok2) as Hok3.
  rewrite kbind_unfold, Hrun2, kbind_unfold, Hrun3, wake_sync_reply_idle; [|apply Hok3|].
  - by intros [= _ <-].
  - eapply (roused_absent (waits_for_sync e) (ks_rt k1)); [done|by etransitivity|].
    destruct Hw as [-> _]. intros p Hp. by apply Ha.
Qed.
End steps.

(** The calls and interrupts that pass messages and block. *)
Inductive ipc_step `{UserMemory} (env : Env) (k k' : KernelState) : Prop :=
| StepSend slot source len r :
    (0 ≤ len)%Z →
    (∀ e p, (endpoint_from_cap slot RIGHT_SEND (ks_rt k)).1 = Ok e →
       p ∈ live_processes (rt_processes (ks_rt k)) → waits_for_sync e p = false) →
    send env slot source len k = Some (r, k') → ipc_step env k k'
| StepReceive fuel slot destination max_len timeout r :
    receive_with_timeout env fuel slot destination max_len timeout k = Some (r, k') → ipc_step env k k'
| StepSleep fuel slot ms r : sleep_ms env fuel slot ms k = Some (r, k') → ipc_step env k k'
| StepIrqWait fuel slot ms r : irq_wait env fuel slot ms k = Some (r, k') → ipc_step env k k'
| StepInterrupt e r : kernel_interrupt env e k = Some (r, k') → ipc_step env k k'.

(** C5: in any run of sends, receives, sleeps, interrupt waits and
    interrupts, no process is ever blocked in a receive while its endpoint
    holds a message it may take: wake-ups are never lost.  (Sends to an endpoint
    on which a process waits for a device acknowledgement are not part of the
    run.) *)
Theorem no_missed_messages `{UserMemory} (env : Env) (k k' : KernelState) :
  ipc_ok (ks_rt k) → rtc (ipc_step env) k k' →
  ipc_ok (ks_rt k') ∧
  ∀ id ep p, get_endpoint (rt_objects (ks_rt k')) id = Some ep →
    p ∈ live_processes (rt_processes (ks_rt k')) → waits_on id p = true →
    take_first (eligible (p_pid p)) (pending ep) = None.
Proof.
  intros Hok Hr. assert (Hok' : ipc_ok (ks_rt k')).
  { induction Hr as [|k k1 k' Hs _ IH]; [done|]. apply IH. destruct Hs.
    - by eapply send_ok.
    - by eapply receive_ok.
    - by eapply sleep_ms_ok.
    - by eapply irq_wait_ok.
    - destruct (kernel_interrupt_quiet env e k (io_processes _ Hok)) as (k2 & Hrun & Hq & _).
      eapply calmer_ok; [|exact Hok]. apply quiet_calmer. congruence. }
  split; [done|]. intros id ep p Hep Hp Hw. pose proof (io_missed _ Hok' id ep p Hep Hp Hw) as Hn.
  apply take_first_None. apply has_message_false; [by eapply (io_endpoints _ Hok')|done].
Qed.

(** * Examples *)

(** The first process runs and may use the endpoint; the second waits for a
    message there, with a capability that is not valid any more. *)
Definition waiting_system : RuntimeState :=
  small_system <| rt_processes ::= λ t, modify_process_at t 0 set_running |>
    <| rt_processes ::= λ t,
         modify_process_at t 1 (λ p, p <| p_state := PsBlockedOnEndpoint 1 9 0 16 None |>) |>.
Definition waiting_kernel : KernelState := mkKernelState waiting_system (λ _ _, 0%Z) 0 frame_empty 0 0 devices_new.

Lemma waiting_system_caps : caps_wf waiting_system.
Proof.
  eapply same_caps_wf; [apply small_system_wf|]. unfold waiting_system.
  etransitivity; [apply (modify_same_caps small_system 0 set_running); by intros p|].
  set (rt := small_system <| rt_processes ::= _ |>).
  apply (modify_same_caps rt 1 (λ p, p <| p_state := PsBlockedOnEndpoint 1 9 0 16 None |>)); by intros p.
Qed.

Definition table_endpoints (t : ObjectTable) : list IpcEndpoint :=
  omap (λ o, match o with Some (OIpcEndpoint ep) => Some ep | _ => None end) (objects t).

Lemma get_endpoint_listed t id ep : get_endpoint t id = Some ep → ep ∈ table_endpoints t.
Proof.
  intros (i & o & _ & Ho & Hs & _)%first_some_Some. destruct o as [[]|]; try done.
  apply with_id_Some in Hs as [-> _]. apply list_elem_of_omap. eexists. split; [by eapply list_elem_of_lookup_2|done].
Qed.

Lemma waiting_system_ipc : ipc_ok waiting_system.
Proof.
  assert (He : ∀ id ep, get_endpoint (rt_objects waiting_system) id = Some ep → endpoint_wf ep ∧ pending ep = []).
  { intros id ep Hep%get_endpoint_listed.
    assert (Hl : table_endpoints (rt_objects waiting_system) = [endpoint_new 1 "e" pid_empty])
      by (vm_compute; reflexivity).
    rewrite Hl in Hep. apply list_elem_of_singleton in Hep as ->. apply queue_empty_wf. }
  split.
  - apply waiting_system_caps.
  - intros id ep Hep. by eapply He.
  - intros id ep p Hep Hp Hw. destruct (He id ep Hep) as [Hwf Hl]. apply has_message_false; [done|].
    by rewrite Hl.
Qed.

Definition awaits_service (p : Process) : bool :=
  match p_state p with
  | PsBlockedOnVfsState _ _ _ _ _ _ _ _ _ _ => true
  | PsBlockedOnVertexFsSync _ _ _ _ _ _ _ _ => true
  | _ => false
  end.

Lemma waiting_no_reply e p :
  p ∈ live_processes (rt_processes waiting_system) → waits_for_reply e p = false.
Proof.
  assert (Hl : awaits_service <$> live_processes (rt_processes waiting_system) = [false; false])
    by (vm_compute; reflexivity).
  intros Hp%(list_elem_of_fmap_2 awaits_service). rewrite Hl in Hp.
  unfold waits_for_reply, awaits_service in *.
  destruct (p_state p); try done; apply elem_of_cons in Hp as [|?%list_elem_of_singleton]; done.
Qed.

Lemma send_exact_witness :
  send_refused 0 0 4 waiting_kernel = None ∧
  ∃ k' ep, send plain_env 0 0 4 waiting_kernel = Some (Ok tt, k') ∧ ipc_ok (ks_rt k') ∧
    get_endpoint (rt_objects (ks_rt k')) 1 = Some ep.
Proof.
  assert (Hr : send_refused 0 0 4 waiting_kernel = None) by (vm_compute; reflexivity).
  split; [exact Hr|].
  pose proof (send_exact plain_env 0 0 4 waiting_kernel waiting_system_caps waiting_system_ipc ltac:(lia)
    (λ e p _, waiting_no_reply e p)) as Hs.
  rewrite Hr in Hs. destruct Hs as (e & l & k0 & n & k1 & k' & served & He & _ & _ & Hrun & _ & Hw).
  assert (He1 : (endpoint_from_cap 0 RIGHT_SEND (ks_rt waiting_kernel)).1 = Ok 1%Z) by (vm_compute; reflexivity).
  rewrite He1 in He. injection He as <-. destruct (wr_pending _ _ _ _ _ _ Hw) as (ep & Hep & _).
  exists k', ep. split; [exact Hrun|]. split; [exact (wr_ok _ _ _ _ _ _ Hw)|exact Hep].
Defined.

Lemma no_missed_messages_witness :
  ∃ k', send plain_env 0 0 4 waiting_kernel = Some (Ok tt, k') ∧ ipc_ok (ks_rt k').
Proof.
  assert (Hok : match send plain_env 0 0 4 waiting_kernel with Some (Ok _, _) => true | _ => false end = true)
    by (vm_compute; reflexivity).
  destruct (send plain_env 0 0 4 waiting_kernel) as [[[[]|e] k']|] eqn:Hrun; try discriminate Hok.
  exists k'. split; [reflexivity|].
  refine (proj1 (no_missed_messages plain_env waiting_kernel k' waiting_system_ipc _)).
  apply rtc_once. apply (StepSend plain_env _ _ 0 0 4 (Ok tt)); [lia| |exact Hrun].
  intros e p _ Hp. pose proof (waiting_no_reply e p Hp) as H. unfold waits_for_reply, waits_for_sync in *.
  destruct (p_state p); try reflexivity. exact H.
Defined.
