(* ===== verification/VfsCallProofs.v ===== *)
(** The tree of VFS nodes under whole kernel calls: those on files, those that
    wait for a service, and the messages that answer them. *)

From S2P Require Import Prelude KernelBase Transport VfsPath KernelObjects ProcessRuntime.
From S2P Require Import CapRegistry VfsState VfsFiles VfsWire Runtime Virtio Kernel PageCache VertexFs Store.
From S2P Require Import Scheduler VfsTransactions VfsNodes CapabilitySyscalls VfsSyscalls VfsTreeProofs Ipc CapabilityProofs Revocation SchedulerProofs.
From stdpp Require Import relations.

(** * Operations on the VFS fields *)

(** An operation that only changes contents, the page cache and the image. *)
Definition steady {A} (c : M VfsState IpcError A) : Prop := ∀ v, contents_only v (c v).2.

Create HintDb vfs_steady.

Section steady.
Context {A B : Type}.

Lemma steady_bind (c : M VfsState IpcError A) (k : A → M VfsState IpcError B) :
  steady c → (∀ a, steady (k a)) → steady (rbind c k).
Proof.
  unfold steady, rbind. intros Hc Hk v. specialize (Hc v). destruct (c v) as [[a|e] v']; [|done].
  etrans; [exact Hc|apply Hk].
Qed.
Lemma steady_ret (a : A) : steady (rret a).
Proof. done. Qed.
Lemma steady_fail e : steady (rfail e : M VfsState IpcError A).
Proof. done. Qed.
Lemma steady_lift (r : Result IpcError A) : steady (rlift r).
Proof. done. Qed.
Lemma steady_gets (f : VfsState → A) : steady (rgets f).
Proof. done. Qed.
Lemma steady_image (c : M (list byte) IpcError A) : steady (on_image c).
Proof. intros v. unfold on_image. by destruct (c _). Qed.
End steady.

Lemma steady_get : steady rget.
Proof. done. Qed.
Lemma steady_guard b e : steady (rguard b e).
Proof. intros v. unfold rguard. by destruct b. Qed.
#[export] Hint Resolve steady_ret steady_fail steady_lift steady_gets steady_image steady_get steady_guard : vfs_steady.
#[export] Hint Extern 1 (steady (rbind _ _)) => (apply steady_bind; [|intros ?]) : vfs_steady.

Lemma steady_record sector : steady (record_vertexfs_sync_sector sector).
Proof. unfold record_vertexfs_sync_sector. apply steady_bind; [done|]. intros v. do 2 (apply steady_bind; [auto with vfs_steady|intros ?]). done. Qed.
#[export] Hint Resolve steady_record : vfs_steady.
Lemma steady_section n first : steady (record_vertexfs_sync_section first n).
Proof. revert first. induction n as [|n IH]; intros first; cbn; auto with vfs_steady. Qed.
#[export] Hint Resolve steady_section : vfs_steady.

Lemma steady_commit file checksum : steady (commit_vertexfs_file_to_image file checksum).
Proof.
  unfold commit_vertexfs_file_to_image.
  repeat first [apply steady_bind; [|intros ?]|case_match]; auto with vfs_steady.
Qed.

Lemma contents_update_pages sel seen f v : contents_only v (update_pages sel seen f v).2.
Proof. done. Qed.

Lemma steady_begin b : steady (begin_vertexfs_page_cache_writeback b).
Proof. intros v. unfold begin_vertexfs_page_cache_writeback, update_pages. by repeat case_match. Qed.
Lemma steady_finish b checksum : steady (finish_vertexfs_sync_file b checksum).
Proof.
  intros v. unfold finish_vertexfs_sync_file, finish_vertexfs_page_cache_writeback, update_pages.
  do 2 (match goal with |- context [if ?c then _ else _] => destruct c end; [first [done|apply contents_modify_file]|]). etrans; [apply (contents_modify_file v b)|].
  by destruct (existsb _ _).
Qed.
Lemma contents_error b v : contents_only v (record_vertexfs_page_cache_writeback_error b v).
Proof.
  unfold record_vertexfs_page_cache_writeback_error, update_pages. case_match; [done|].
  etrans; [apply (contents_modify_file v b)|]. destruct (existsb _ _); [|done].
  etrans; [|apply contents_high_water]. done.
Qed.
#[export] Hint Resolve steady_begin steady_finish : vfs_steady.

Lemma steady_sync b : steady (prepare_vertexfs_sync_file b).
Proof.
  unfold prepare_vertexfs_sync_file. do 4 (apply steady_bind; [auto with vfs_steady|intros ?]). case_match; [auto with vfs_steady|].
  case_match.
  - apply steady_bind; [intros v; apply contents_error|auto with vfs_steady].
  - intros v. pose proof (steady_commit a2 (vertexfs_checksum32 (take (vf_len a2) (vf_bytes a2))) v) as Hc.
    destruct (commit_vertexfs_file_to_image _ _ v) as [[n|e] v']; [done|]. etrans; [exact Hc|]. apply contents_error.
Qed.

(** * Kernel calls *)

Section kept.
Context `{UserMemory}.

Definition vfs_of (k : KernelState) : VfsState := rt_vfs (ks_rt k).
Definition kkept {A} (c : K A) : Prop := ∀ k r k', c k = Some (r, k') → keeps (vfs_of k) (vfs_of k').

Lemma kkept_bind {A B} (c : K A) (f : A → K B) : kkept c → (∀ a, kkept (f a)) → kkept (kbind c f).
Proof.
  unfold kkept, kbind. intros Hc Hf k r k' Hr. destruct (c k) as [[[a|e] k1]|] eqn:E; [|by simplify_eq; eauto|done].
  etrans; [by eapply Hc|by eapply Hf].
Qed.

(** A call that leaves the VFS fields alone. *)
Definition kquiet {A} (c : K A) : Prop := ∀ k r k', c k = Some (r, k') → vfs_of k' = vfs_of k.
Lemma kquiet_kept {A} (c : K A) : kquiet c → kkept c.
Proof. intros Hc k r k' Hr. by rewrite (Hc k r k' Hr). Qed.

Lemma kquiet_ret {A} (a : A) : kquiet (kret a).
Proof. by intros k r k' [= <- <-]. Qed.
Lemma kquiet_fail {A} e : kquiet (kfail (A := A) e).
Proof. by intros k r k' [= <- <-]. Qed.
Lemma kquiet_lift {A} (r : Result IpcError A) : kquiet (klift r).
Proof. by intros k r' k' [= <- <-]. Qed.
Lemma kquiet_get {A} (f : KernelState → A) : kquiet (kget f).
Proof. by intros k r k' [= <- <-]. Qed.
Lemma kquiet_guard b e : kquiet (kguard b e).
Proof. intros k r k'. unfold kguard. by destruct b; intros [= <- <-]. Qed.
Lemma kquiet_tsc env : kquiet (read_tsc env).
Proof. by intros k r k' [= <- <-]. Qed.
Lemma kquiet_switch cr3 : kquiet (switch_address_space cr3).
Proof. by intros k r k' [= <- <-]. Qed.
Lemma kquiet_validate ptr len access : kquiet (validate_user_buffer ptr len access).
Proof. by intros k r k' [= <- <-]. Qed.
Lemma kquiet_from_user cap ptr len : kquiet (copy_from_user cap ptr len).
Proof. intros k r k'. unfold copy_from_user. repeat case_match; by intros [= <- <-]. Qed.
Lemma kquiet_to_user ptr src : kquiet (copy_to_user ptr src).
Proof. intros k r k'. unfold copy_to_user. case_match; by intros [= <- <-]. Qed.
Lemma kquiet_rax v : kquiet (set_rax v).
Proof. by intros k r k' [= <- <-]. Qed.
Lemma kquiet_current f : kquiet (modify_current_process f).
Proof. intros k r k'. unfold modify_current_process. case_match. by intros [= <- <-]. Qed.
Lemma kquiet_slot i f : kquiet (modify_slot i f).
Proof. by intros k r k' [= <- <-]. Qed.
Lemma kquiet_endpoint {A} id (f : IpcEndpoint → A * IpcEndpoint) : kquiet (on_endpoint id f).
Proof. intros k r k'. unfold on_endpoint. repeat case_match; by intros [= <- <-]. Qed.
Lemma kquiet_dequeue id receiver : kquiet (dequeue_message id receiver).
Proof. intros k r k'. unfold dequeue_message. repeat case_match; by intros [= <- <-]. Qed.
Lemma kquiet_switch_to i : kquiet (switch_to i).
Proof. intros k r k'. unfold switch_to. case_match; by intros [= <- <-]. Qed.
Lemma kquiet_transaction_id : kquiet next_transaction_id.
Proof. intros k r k'. unfold next_transaction_id. case_match; by intros [= <- <-]. Qed.
Lemma kquiet_timed env : kquiet (wake_timed_now env).
Proof. by intros k r k' [= <- <-]. Qed.
Lemma kquiet_rt (f : RuntimeState → RuntimeState) : (∀ rt, rt_vfs (f rt) = rt_vfs rt) → kquiet (modify_rt f).
Proof. intros Hf k r k' [= <- <-]. apply Hf. Qed.

Lemma kkept_rt {A} (c : M RuntimeState IpcError A) : (∀ rt, kept c rt) → kkept (on_rt c).
Proof.
  intros Hc k r k'. unfold on_rt. specialize (Hc (ks_rt k)). unfold kept in Hc. destruct (c (ks_rt k)) as [a rt].
  by intros [= <- <-].
Qed.
Lemma kkept_silent {A} (c : M RuntimeState IpcError A) : silent c → kkept (on_rt c).
Proof. intros Hc. apply kkept_rt. intros rt. by apply silent_kept. Qed.
Lemma kkept_vfs {A} (c : M VfsState IpcError A) : (∀ v, keeps v (c v).2) → kkept (on_vfs c).
Proof.
  intros Hc k r k'. unfold on_vfs. specialize (Hc (vfs_of k)). unfold vfs_of in *.
  destruct (c (rt_vfs (ks_rt k))) as [a v]. by intros [= <- <-].
Qed.
Lemma kkept_steady {A} (c : M VfsState IpcError A) : steady c → kkept (on_vfs c).
Proof. intros Hc. apply kkept_vfs. intros v. by apply contents_only_keeps. Qed.
Lemma kkept_modify f : (∀ v, keeps v (f v)) → kkept (modify_vfs f).
Proof. intros Hf k r k' [= <- <-]. apply Hf. Qed.
End kept.

Create HintDb vfs_calls.
#[export] Hint Resolve kquiet_ret kquiet_fail kquiet_lift kquiet_get kquiet_guard kquiet_tsc kquiet_switch kquiet_validate
  kquiet_from_user kquiet_to_user kquiet_rax kquiet_current kquiet_slot kquiet_endpoint kquiet_dequeue kquiet_switch_to
  kquiet_transaction_id kquiet_timed : vfs_calls.
#[export] Hint Extern 1 (kkept (on_rt _)) => (apply kkept_silent; solve [eauto 20 with vfs_tree]) : vfs_calls.
#[export] Hint Extern 5 (kkept _) => (apply kquiet_kept; solve [eauto 2 with vfs_calls]) : vfs_calls.

(** Go through a call bind by bind and case by case. *)
Ltac each_step :=
  repeat first
    [ match goal with |- ∀ _, _ => intros ? end
    | solve [eauto 4 with vfs_calls]
    | apply kkept_bind
    | match goal with
      | |- context [match ?x with _ => _ end] => destruct x
      end ].

Section waiting.
Context `{UserMemory} (env : Env).

Lemma kkept_copy_to_waiter cr3 destination bytes : kkept (copy_to_waiter cr3 destination bytes).
Proof. unfold copy_to_waiter, current_cr3. each_step. Qed.
Lemma kkept_restore_state e : kkept (restore_current_vfs_state_waiter e).
Proof. unfold restore_current_vfs_state_waiter. each_step. Qed.
Lemma kkept_restore_sync e : kkept (restore_current_vertexfs_sync_waiter e).
Proof. unfold restore_current_vertexfs_sync_waiter. apply kkept_bind; [|each_step]. apply kquiet_kept, kquiet_current. Qed.

Lemma cancel_waiter_vfs rt i status : rt_vfs (cancel_blocked_endpoint_waiter_at rt i status).2 = rt_vfs rt.
Proof. unfold cancel_blocked_endpoint_waiter_at. by repeat case_match. Qed.
Lemma ready_vfs e receiver m rt : rt_vfs (record_ready_lifecycle e receiver m rt) = rt_vfs rt.
Proof. unfold record_ready_lifecycle, record_service_lifecycle. by repeat case_match. Qed.
Lemma irq_vfs line rt : rt_vfs (record_hardware_irq line rt) = rt_vfs rt.
Proof. unfold record_hardware_irq, modify_interrupt_line. by repeat case_match. Qed.

Lemma kkept_wake_loop fuel e : kkept (wake_blocked_receiver_loop fuel e).
Proof.
  induction fuel as [|fuel IH]; [done|]. cbn [wake_blocked_receiver_loop]. each_step.
  all: apply kquiet_kept, kquiet_rt; intros; first [apply cancel_waiter_vfs|apply ready_vfs].
Qed.
Lemma kkept_wake_receiver e : kkept (wake_blocked_receiver env e).
Proof. unfold wake_blocked_receiver. apply kkept_bind; [auto with vfs_calls|intros _; apply kkept_wake_loop]. Qed.

Lemma kkept_interrupts l : kkept (kernel_interrupts env l).
Proof.
  induction l as [|[|line] l IH]; cbn; [auto with vfs_calls|each_step|]. unfold kernel_interrupt. each_step.
  apply kquiet_kept, kquiet_rt. intros. apply irq_vfs.
Qed.
Lemma kkept_wait : kkept (wait_for_interrupt env).
Proof. intros k r k' Hr. by apply kkept_interrupts in Hr. Qed.
Lemma kkept_until fuel deadline include : kkept (wait_until_deadline env fuel deadline include).
Proof.
  induction fuel as [|fuel IH]; [done|]. cbn [wait_until_deadline]. pose proof kkept_wait. each_step.
Qed.
Lemma kkept_schedule fuel include wait : kkept (schedule_next_ready_inner env fuel include wait).
Proof. unfold schedule_next_ready_inner. pose proof kkept_until. each_step. Qed.
End waiting.
#[export] Hint Resolve kkept_copy_to_waiter kkept_restore_state kkept_restore_sync kkept_wake_receiver kkept_schedule : vfs_calls.
#[export] Hint Extern 1 (kkept (schedule_next_ready _ _)) => apply kkept_schedule : vfs_calls.

(** A description that only changes its offset or its cursor. *)
Lemma keeps_alter_description v i f :
  (∀ d, fd_node (f d) = fd_node d) → keeps v (v <| open_file_descriptions ::= alter (fmap f) i |>).
Proof. intros Hf. apply keeps_same; cbn; try done. intros k d. by apply alter_description_from. Qed.

Section transactions.
Context `{UserMemory} (env : Env).

Lemma kkept_queue e i : kkept (queue_vertexfs_device_write e i).
Proof. unfold queue_vertexfs_device_write. each_step. Qed.
Lemma kkept_transaction fuel e e' id waiting request len : kkept (vfs_state_transaction env fuel e e' id waiting request len).
Proof. unfold vfs_state_transaction, enqueue_request. each_step. Qed.
Lemma kkept_state_transaction fuel state node d op offset dst max_len write_len update payload n :
  kkept (start_vfs_state_transaction env fuel state node d op offset dst max_len write_len update payload n).
Proof. unfold start_vfs_state_transaction. pose proof kkept_transaction. each_step. Qed.
Lemma kkept_service_read fuel node d offset dst max_len update :
  kkept (start_vfs_service_read_transaction env fuel node d offset dst max_len update).
Proof. unfold start_vfs_service_read_transaction. pose proof kkept_transaction. each_step. Qed.

(** A call whose error is handled. *)
Lemma kkept_try {A B} (c : K A) (f : A → K B) (g : IpcError → K B) :
  kkept c → (∀ a, kkept (f a)) → (∀ e, kkept (g e)) →
  kkept (λ k, match c k with None => None | Some (Err e, k1) => g e k1 | Some (Ok a, k1) => f a k1 end).
Proof.
  intros Hc Hf Hg k r k'. specialize (Hc k). destruct (c k) as [[[a|e] k1]|] eqn:E; [| |done];
    intros Hr; (etrans; [by eapply Hc|]); [by eapply Hf|by eapply Hg].
Qed.

Lemma kkept_sync_transaction fuel b inode checksum count : kkept (start_vertexfs_sync_transaction env fuel b inode checksum count).
Proof.
  unfold start_vertexfs_sync_transaction. each_step. apply kkept_try; [apply kkept_queue|each_step|each_step].
Qed.

Lemma kkept_block fuel waiting : kkept (block_current env fuel waiting).
Proof. unfold block_current. each_step. Qed.
Lemma kkept_pipe_wake bytes : kkept (wake_blocked_vfs_pipe_read bytes).
Proof. unfold wake_blocked_vfs_pipe_read. each_step. Qed.

Lemma kkept_advance update d offset len : kkept (advance_offset update d offset len).
Proof.
  unfold advance_offset. each_step. apply kkept_modify. intros v. by apply keeps_alter_description.
Qed.
Lemma kkept_state_reply e : kkept (wake_blocked_vfs_state_reply e).
Proof.
  unfold wake_blocked_vfs_state_reply, wake_blocked_vfs_state_read, wake_blocked_vfs_state_stat, wake_blocked_vfs_state_write.
  pose proof kkept_advance. each_step.
Qed.
Lemma kkept_sync_reply e : kkept (wake_blocked_vertexfs_sync_reply env e).
Proof.
  unfold wake_blocked_vertexfs_sync_reply.
  assert (Hfail : ∀ b i, kkept (do* modify_vfs (record_vertexfs_page_cache_writeback_error b);
                                modify_slot i (wake_with STATUS_VFS_UNSUPPORTED))).
  { intros b i. apply kkept_bind; [|each_step]. apply kkept_modify. intros v. apply contents_only_keeps, contents_error. }
  apply kkept_bind; [auto with vfs_calls|]. intros rt.
  do 2 (case_match; [|auto with vfs_calls]). case_match; auto with vfs_calls.
  apply kkept_bind; [auto with vfs_calls|]. intros reply. destruct (mjoin reply) as [m|]; [|auto with vfs_calls].
  case_match; [apply Hfail|]. case_match.
  - apply kkept_try; [apply kkept_queue|each_step|intros _; apply Hfail].
  - intros k r k'. pose proof (steady_finish (Z.to_nat backing) checksum (rt_vfs (ks_rt k))) as Hs.
    destruct (finish_vertexfs_sync_file _ _ _) as [x v]. cbn in Hs. intros [= <- <-]. by apply contents_only_keeps.
Qed.
End transactions.
#[export] Hint Resolve kkept_state_transaction kkept_service_read kkept_sync_transaction kkept_block kkept_pipe_wake
  kkept_state_reply kkept_sync_reply : vfs_calls.

(** * System calls *)

Section syscalls.
Context `{UserMemory} `{StoreMemory} (env : Env).

Lemma kkept_user_path path len : kkept (user_path path len).
Proof. unfold user_path. each_step. Qed.
Lemma kkept_two_paths request len : kkept (user_two_paths request len).
Proof. unfold user_two_paths. each_step. Qed.
Lemma kkept_set_offset d offset : kkept (on_rt (set_offset d offset)).
Proof. apply kkept_rt. intros rt. apply kept_set_offset. Qed.

(** The read of a page changes no contents. *)
Lemma kkept_read_page b offset dst max_len : kkept (read_vertexfs_page_cache b offset dst max_len).
Proof.
  unfold read_vertexfs_page_cache.
  assert (Hs : ∀ f, kkept (modify_vfs (λ v, v <| vfs_page_cache_stats ::= f |>))).
  { intros f. apply kkept_modify. intros v. by apply keeps_frame. }
  assert (He : ∀ mount page, kkept (on_vfs (ensure_vertexfs_page_cache_page mount b page))).
  { intros mount page. apply kkept_vfs. intros v. apply contents_only_keeps, contents_ensure_page. }
  each_step.
Qed.
Lemma kkept_copy_slice bytes offset dst max_len : kkept (copy_slice bytes offset dst max_len).
Proof. unfold copy_slice. each_step. Qed.
Lemma kkept_read_node node offset dst max_len : kkept (vfs_read_node node offset dst max_len).
Proof. unfold vfs_read_node. pose proof kkept_copy_slice. pose proof kkept_read_page. each_step. Qed.

Lemma kkept_write_node node offset bytes : kkept (vfs_write_node node offset bytes).
Proof.
  unfold vfs_write_node. destruct (vn_backing node) as [| | | | |f|f| | | |]; try solve [auto with vfs_calls].
  - each_step.
    + apply kkept_modify. intros v. apply contents_only_keeps, contents_write_memory.
    + apply kkept_vfs. intros v. apply keeps_touch_memory.
  - each_step.
    + apply kkept_vfs. intros v. apply contents_only_keeps, contents_write.
    + apply kkept_vfs. intros v. apply keeps_touch_vertexfs.
  - each_step. apply kkept_vfs. intros v. destruct (pipe_enqueue _ _). by apply keeps_frame.
Qed.
End syscalls.
#[export] Hint Resolve kkept_user_path kkept_two_paths kkept_set_offset kkept_read_node kkept_write_node : vfs_calls.

(** The calls on files, and the two calls that pass the messages of the services
    behind them. *)
Inductive FileCall :=
  | COpen (slot path packed : Z) | CCreate (slot path packed : Z) | CMkdir (slot path packed : Z)
  | CUnlink (slot path len : Z) | CRmdir (slot path len : Z)
  | CRename (slot request len : Z) | CLink (slot request len : Z)
  | CDeriveRoot (slot path packed : Z) | CMount (slot path packed : Z) | CUnmount (slot path len : Z)
  | CClose (handle : Z) | CSeek (handle offset whence : Z) | CDup (handle flags : Z) | CPoll (handle events : Z)
  | CLock (handle flags packed : Z) | CUnlock (handle : Z)
  | CRead (handle dst len : Z) | CPread (handle dst packed : Z)
  | CWrite (handle src len : Z) | CPwrite (handle src packed : Z)
  | CStat (handle dst len : Z) | CReaddir (handle dst len : Z) | CWatch (handle dst len : Z) | CSync (handle : Z)
  | CSend (slot src len : Z) | CReceive (slot dst len : Z) (timeout : option Z).

Section run.
Context `{UserMemory} `{StoreMemory} (env : Env) (fuel : nat).

Definition drop_result {A} (c : K A) : K unit := do* c; kret tt.

Definition file_call (c : FileCall) : K unit :=
  match c with
  | COpen slot path packed => drop_result (vfs_open slot path packed)
  | CCreate slot path packed => vfs_create slot path packed
  | CMkdir slot path packed => vfs_mkdir slot path packed
  | CUnlink slot path len => vfs_unlink slot path len
  | CRmdir slot path len => vfs_rmdir slot path len
  | CRename slot request len => vfs_rename slot request len
  | CLink slot request len => vfs_link slot request len
  | CDeriveRoot slot path packed => vfs_derive_root slot path packed
  | CMount slot path packed => vfs_mount slot path packed
  | CUnmount slot path len => vfs_unmount slot path len
  | CClose handle => on_rt (vfs_close handle)
  | CSeek handle offset whence => drop_result (on_rt (vfs_seek handle offset whence))
  | CDup handle flags => drop_result (on_rt (vfs_dup handle flags))
  | CPoll handle events => drop_result (on_rt (vfs_poll handle events))
  | CLock handle flags packed => on_rt (vfs_lock handle flags packed)
  | CUnlock handle => on_rt (vfs_unlock handle)
  | CRead handle dst len => vfs_read env fuel handle dst len
  | CPread handle dst packed => vfs_pread env fuel handle dst packed
  | CWrite handle src len => vfs_write env fuel handle src len
  | CPwrite handle src packed => vfs_pwrite env fuel handle src packed
  | CStat handle dst len => vfs_stat env fuel handle dst len
  | CReaddir handle dst len => drop_result (vfs_readdir handle dst len)
  | CWatch handle dst len => drop_result (vfs_watch handle dst len)
  | CSync handle => vfs_sync env fuel handle
  | CSend slot src len => send env slot src len
  | CReceive slot dst len timeout => receive_with_timeout env fuel slot dst len timeout
  end.

Lemma kkept_unmount slot path len : kkept (vfs_unmount slot path len).
Proof.
  unfold vfs_unmount. do 5 (apply kkept_bind; [solve [auto with vfs_calls]|intros ?]).
  intros k r k'. cbn [kbind kget]. set (rt := ks_rt k).
  destruct (unmount_target rt _) as [mount|e] eqn:Ht; cbn; [|by intros [= _ <-]].
  destruct (vm_dynamic mount); cbn; [|by intros [= _ <-]].
  destruct (vfs_subtree_has_open_description _ _) as [o|] eqn:Ho; [|done].
  destruct o; [by intros [= _ <-]|]. cbn [orb].
  destruct (negb (any_flag (vm_flags mount) VFS_MOUNT_BIND) && _) eqn:Hc; cbn; [by intros [= _ <-]|].
  unfold on_rt. pose proof (kept_remove_mount _ mount _ rt Ht eq_refl Ho Hc) as Hk. unfold kept in Hk.
  unfold rt in *. destruct (remove_mount _ mount _ (ks_rt k)) as [x rt']. by intros [= _ <-].
Qed.
End run.

Section kept_calls.
Context `{UserMemory} `{StoreMemory} (env : Env) (fuel : nat).

Lemma kkept_drop {A} (c : K A) : kkept c → kkept (drop_result c).
Proof. intros Hc. unfold drop_result. apply kkept_bind; [done|each_step]. Qed.

Lemma kkept_watch handle dst len : kkept (vfs_watch handle dst len).
Proof.
  unfold vfs_watch. each_step. apply kkept_modify. intros v'. by apply keeps_alter_description.
Qed.

Lemma kkept_pipe_read node d dst len : kkept (vfs_pipe_read env fuel node d dst len).
Proof.
  unfold vfs_pipe_read, block_current_on_vfs_read. each_step. apply kkept_modify. intros v. by apply keeps_frame.
Qed.

Lemma silent_poll handle events : silent (vfs_poll handle events).
Proof.
  unfold vfs_poll. apply rt_silent_bind; [auto with vfs_tree|]. intros _. apply rt_silent_bind; [auto with vfs_tree|].
  intros [d m]. auto 20 with vfs_tree.
Qed.

Lemma silent_endpoint_cap slot right : silent (endpoint_cap_from_slot slot right).
Proof.
  unfold endpoint_cap_from_slot. apply rt_silent_bind; [auto with vfs_tree|]. intros cap.
  apply rt_silent_bind; [auto with vfs_tree|]. intros rt. by case_match.
Qed.
Lemma silent_endpoint_from_cap slot right : silent (endpoint_from_cap slot right).
Proof. unfold endpoint_from_cap. apply rt_silent_bind; [apply silent_endpoint_cap|done]. Qed.

Lemma kkept_send slot src len : kkept (send env slot src len).
Proof.
  unfold send, enqueue_message, user_bytes. pose proof silent_endpoint_from_cap.
  apply kkept_bind; [auto with vfs_calls|intros _]. apply kkept_bind; [apply kkept_silent; auto|intros e]. each_step.
Qed.
Lemma kkept_receive slot dst len timeout : kkept (receive_with_timeout env fuel slot dst len timeout).
Proof.
  unfold receive_with_timeout, block_current_on_endpoint. pose proof silent_endpoint_cap.
  apply kkept_bind; [apply kkept_silent; auto|intros e]. each_step.
  apply kquiet_kept, kquiet_rt. intros. apply ready_vfs.
Qed.

Lemma kkept_file_call c : kkept (file_call env fuel c).
Proof.
  destruct c; cbn [file_call]; try apply kkept_drop;
    try (apply kkept_rt; intros rt; auto using kept_close, kept_seek, kept_dup, kept_lock, kept_unlock);
    auto using kkept_unmount, kkept_watch, kkept_send, kkept_receive.
  - unfold vfs_open. each_step. apply kkept_rt. intros. apply kept_open.
  - unfold vfs_create. each_step. apply kkept_rt. intros. apply kept_create.
  - unfold vfs_mkdir. each_step. apply kkept_rt. intros. apply kept_mkdir.
  - unfold vfs_unlink. each_step. apply kkept_rt. intros. apply kept_unlink.
  - unfold vfs_rmdir. each_step. apply kkept_rt. intros. apply kept_rmdir.
  - unfold vfs_rename. each_step. apply kkept_rt. intros. apply kept_rename.
  - unfold vfs_link. each_step. apply kkept_rt. intros. apply kept_link.
  - unfold vfs_derive_root. each_step. apply kkept_rt. intros. apply kept_derive_root.
  - unfold vfs_mount. each_step. apply kkept_rt. intros. apply kept_mount.
  - by apply silent_kept, silent_poll.
  - unfold vfs_read, vfs_state_value_read. pose proof kkept_pipe_read. each_step.
  - unfold vfs_pread, vfs_state_value_read. each_step.
  - unfold vfs_write, vfs_state_control_write, vfs_state_value_write, user_data. each_step.
  - unfold vfs_pwrite, vfs_state_control_write, vfs_state_value_write, user_data. each_step.
  - unfold vfs_stat, vfs_state_value_stat. each_step.
  - unfold vfs_readdir. each_step.
  - unfold vfs_sync. each_step. apply kkept_steady, steady_sync.
Qed.
End kept_calls.

(** * The invariant of the tree *)

(** What may happen between two states of the kernel: a call on files or a
    message, with any result; the release of the files of a process that ends;
    and anything that leaves the VFS fields alone. *)
Inductive tree_step `{UserMemory} `{StoreMemory} (env : Env) (k k' : KernelState) : Prop :=
| StepCall fuel c r : file_call env fuel c k = Some (r, k') → tree_step env k k'
| StepExit pid : vfs_of k' = release_process_file_descriptions (vfs_of k) pid → tree_step env k k'
| StepOther : vfs_of k' = vfs_of k → tree_step env k k'.

Lemma tree_step_keeps `{UserMemory} `{StoreMemory} env k k' : tree_step env k k' → keeps (vfs_of k) (vfs_of k').
Proof.
  intros [fuel c r Hr|pid -> | ->]; [by eapply kkept_file_call|apply keeps_release_process|done].
Qed.

Lemma tree_steps_keep `{UserMemory} `{StoreMemory} env k k' : rtc (tree_step env) k k' → keeps (vfs_of k) (vfs_of k').
Proof. induction 1 as [|k k1 k' Hs%tree_step_keeps _ IH]; [done|by etrans]. Qed.

(** What the invariant gives an observer of the tree. *)
Record sound_tree (v : VfsState) : Prop := mk_sound_tree {
  (** No two nodes share an identifier. *)
  st_unique i j m m' :
    vfs_nodes v !! i = Some (Some m) → vfs_nodes v !! j = Some (Some m') → vn_id m = vn_id m' → i = j;
  (** The parent of a node is a directory of the table. *)
  st_parent i m p : vfs_nodes v !! i = Some (Some m) → vn_parent m = Some p →
    ∃ d, vfs_node v p = Some d ∧ vn_kind d = NkDirectory;
  (** There is no cycle: every way up ends. *)
  st_rooted i m : vfs_nodes v !! i = Some (Some m) →
    ∃ root r, below v (vn_id m) root ∧ vfs_node v root = Some r ∧ vn_parent r = None;
  (** Every file has storage. *)
  st_memory i m f : vfs_nodes v !! i = Some (Some m) → vn_backing m = VbMemoryFile f → f < vfs_mem_file_count v;
  st_vertexfs i m f : vfs_nodes v !! i = Some (Some m) → vn_backing m = VbVertexFsFile f → f < vertexfs_file_count v;
  (** Every open description is of a node that exists. *)
  st_open k d : open_file_descriptions v !! k = Some (Some d) → is_Some (vfs_node v (fd_node d))
}.

Lemma vfs_node_found v i m : tree_wf v → vfs_nodes v !! i = Some (Some m) → vfs_node v (vn_id m) = Some m.
Proof.
  intros Hwf Hi. pose proof (tw_nodes v Hwf) as Hn. destruct (vfs_node v (vn_id m)) as [x|] eqn:Hx.
  - apply vfs_node_Some in Hx as (j & Hj & Hid). rewrite (nw_unique _ _ _ Hn j i x m Hj Hi Hid), Hi in Hj.
    by injection Hj as ->.
  - exfalso. unfold vfs_node, find_node in Hx. rewrite first_some_None in Hx.
    specialize (Hx i (Some m) (nw_used _ _ _ Hn i m Hi) Hi). cbn in Hx. by rewrite Z.eqb_refl in Hx.
Qed.

Lemma directory_rooted v : tree_wf v → ∀ n i m, vfs_nodes v !! i = Some (Some m) → vn_kind m = NkDirectory →
  (vn_id m ≤ Z.of_nat n)%Z → ∃ root r, below v (vn_id m) root ∧ vfs_node v root = Some r ∧ vn_parent r = None.
Proof.
  intros Hwf. pose proof (tw_nodes v Hwf) as Hn.
  induction n as [|n IH]; intros i m Hi Hk Hle; [pose proof (nw_ids _ _ _ Hn i m Hi); lia|].
  pose proof (vfs_node_found v i m Hwf Hi) as Hf. destruct (vn_parent m) as [p|] eqn:Hp; [|by eauto using below_refl].
  destruct (nw_parent _ _ _ Hn i m p Hi Hp) as (j & d & Hd & <- & Hkd).
  pose proof (nw_order _ _ _ Hn i m _ Hi Hk Hp).
  destruct (IH j d Hd Hkd ltac:(lia)) as (root & r & Hb & Hr & Hrp). exists root, r. split; [|done]. by econstructor.
Qed.

Lemma tree_wf_sound v : tree_wf v → sound_tree v.
Proof.
  intros Hwf. pose proof (tw_nodes v Hwf) as Hn. destruct (tw_files v Hwf) as [_ _ F3 F4]. split.
  - apply (nw_unique _ _ _ Hn).
  - intros i m p Hi Hp. destruct (nw_parent _ _ _ Hn i m p Hi Hp) as (j & d & Hd & <- & Hk).
    exists d. split; [by eapply vfs_node_found|done].
  - intros i m Hi. pose proof (vfs_node_found v i m Hwf Hi) as Hf.
    destruct (vn_parent m) as [p|] eqn:Hp; [|by eauto using below_refl].
    destruct (nw_parent _ _ _ Hn i m p Hi Hp) as (j & d & Hd & <- & Hk).
    destruct (directory_rooted v Hwf (Z.to_nat (vn_id d)) j d Hd Hk ltac:(lia)) as (root & r & Hb & Hr).
    exists root, r. split; [by econstructor|done].
  - intros i m f Hi Hb. by apply (F3 i m f).
  - intros i m f Hi Hb. by apply (F4 i m f).
  - intros k d (i & m & Hm & <-)%(tw_opens v Hwf). eexists. by eapply vfs_node_found.
Qed.

(** C14: no sequence of calls on files (open, create, mkdir, unlink, rmdir, rename,
    link, mount, unmount, reads, writes, and all other calls on handles), of
    messages to and from the services, and of exits of processes breaks the tree
    of nodes, whatever their arguments and results: as long as fewer than 2^64-1
    nodes were ever created, identifiers stay unique, parents are directories
    that exist, there are no cycles, every file has storage, and every open
    handle refers to a node that exists. *)
Theorem file_calls_keep_tree `{UserMemory} `{StoreMemory} (env : Env) (k k' : KernelState) :
  tree_wf (vfs_of k) → ids_ok (vfs_of k) → rtc (tree_step env) k k' →
  (next_vfs_node_id (vfs_of k') < u64_max)%Z → tree_wf (vfs_of k') ∧ sound_tree (vfs_of k').
Proof.
  intros Hwf Hids [_ Hk]%tree_steps_keep Hlt. assert (tree_wf (vfs_of k')) by auto.
  split; [done|by apply tree_wf_sound].
Qed.

(** the test of [vfs_unmount] for open files in a subtree returns on every
    tree that the invariant admits, and says whether an open node lies at or
    below the root of the mount. *)
Theorem subtree_scan_terminates (v : VfsState) (root : VfsNodeId) :
  tree_wf v →
  ∃ b, vfs_subtree_has_open_description v root = Some b ∧
    (b = true ↔ ∃ k d, open_file_descriptions v !! k = Some (Some d) ∧ below v (fd_node d) root).
Proof.
  intros Hwf. destruct (scan_ends v root (open_file_descriptions v) Hwf) as [b Hb].
  exists b. split; [done|]. by apply scan_result.
Qed.

(** ** Examples *)

(** One process with every right on the root directory; its memory holds a path
    at address 4096. *)
Definition file_system : RuntimeState :=
  (grant_root 0 1 vfs_file_right_mask
    (runtime_new
       <| rt_objects := (add_vfs_root table_new "vfs" "/").2 |>
       <| rt_processes := set_current (add_process ptable_new "shell" (mkProcessContext 0 0 0) 0 0 PsRunning
                                         cspace_new (path_store [slash])).2 1 |>
       <| rt_vfs := (add_vfs_node vfs_state_new "/" None NkDirectory VbNone "rootfs").2 |>)).2.
Definition file_kernel : KernelState :=
  mkKernelState file_system (λ _ a, byte_at (string_bytes "/etc/passwd") (Z.to_nat (a - 4096))) 0 frame_empty 0 0 devices_new.

(** Calls one after the other, while they succeed. *)
Fixpoint run_calls `{UserMemory} `{StoreMemory} (env : Env) (fuel : nat) (l : list FileCall) (k : KernelState) :
    option KernelState :=
  match l with
  | [] => Some k
  | c :: l' => match file_call env fuel c k with Some (Ok _, k') => run_calls env fuel l' k' | _ => None end
  end.

Lemma run_calls_steps `{UserMemory} `{StoreMemory} env fuel l k k' :
  run_calls env fuel l k = Some k' → rtc (tree_step env) k k'.
Proof.
  revert k. induction l as [|c l IH]; intros k; cbn; [by intros [= ->]|].
  destruct (file_call env fuel c k) as [[[u|e] k1]|] eqn:Hc; [|done..]. intros Hr%IH.
  eapply rtc_l; [by eapply StepCall|done].
Qed.

(** Make a directory and create a file in it. *)
Definition packed_open (len flags : Z) : Z := Z.lor len (Z.shiftl flags 32).
Definition make_file : list FileCall :=
  [CMkdir 0 4096 4; COpen 0 4096 (packed_open 11 (Z.lor VFS_OPEN_WRITE VFS_OPEN_CREATE))].
Definition opened_kernel : KernelState := default file_kernel (run_calls plain_env 9 make_file file_kernel).

Lemma grant_root_vfs slot object rights rt : rt_vfs (grant_root slot object rights rt).2 = rt_vfs rt.
Proof.
  unfold grant_root, rbind, rget, rlift, rguard, rret, rfail. cbn. repeat (case_match; simplify_eq; cbn in *; try done).
  all: rewrite ?kept_grant; unfold rt_new_capability in *; by case_match; simplify_eq.
Qed.

Lemma empty_vfs_ids : ids_ok vfs_state_new.
Proof. vm_compute. split; congruence. Qed.

Lemma root_vfs_ids : (next_vfs_node_id (add_vfs_node vfs_state_new "/" None NkDirectory VbNone "rootfs").2 < u64_max)%Z.
Proof. vm_compute. reflexivity. Qed.

Lemma file_kernel_wf : tree_wf (vfs_of file_kernel) ∧ ids_ok (vfs_of file_kernel).
Proof.
  assert (Hv : vfs_of file_kernel = (add_vfs_node vfs_state_new "/" None NkDirectory VbNone "rootfs").2)
    by apply grant_root_vfs.
  rewrite Hv.
  assert (Hk : keeps vfs_state_new (add_vfs_node vfs_state_new "/" None NkDirectory VbNone "rootfs").2).
  { unfold add_vfs_node. destruct (name_from_static "/") as [n|e]; [|done]. by apply keeps_add. }
  destruct Hk as [Hk1 Hk2]. split; [|apply Hk1, empty_vfs_ids].
  apply Hk2; [apply empty_vfs_ids|apply root_vfs_ids|apply tree_wf_new].
Qed.

Lemma default_Some {A} (o : option A) (d : A) : bool_decide (is_Some o) = true → o = Some (default d o).
Proof. by destruct o. Qed.

Lemma opened_run : run_calls plain_env 9 make_file file_kernel = Some opened_kernel.
Proof. unfold opened_kernel. apply default_Some. vm_compute. reflexivity. Qed.

Lemma opened_steps : rtc (tree_step plain_env) file_kernel opened_kernel.
Proof. exact (run_calls_steps plain_env 9 make_file file_kernel opened_kernel opened_run). Qed.

Lemma opened_ids : (next_vfs_node_id (vfs_of opened_kernel) < u64_max)%Z.
Proof. vm_compute. reflexivity. Qed.

Lemma file_calls_keep_tree_witness :
  run_calls plain_env 9 make_file file_kernel = Some opened_kernel ∧ next_vfs_node_id (vfs_of opened_kernel) = 4%Z ∧
  sound_tree (vfs_of opened_kernel).
Proof.
  split; [exact opened_run|]. split; [vm_compute; reflexivity|].
  exact (proj2 (file_calls_keep_tree plain_env file_kernel opened_kernel (proj1 file_kernel_wf) (proj2 file_kernel_wf)
    opened_steps opened_ids)).
Defined.

Lemma opened_wf : tree_wf (vfs_of opened_kernel).
Proof.
  destruct (tree_steps_keep _ _ _ opened_steps) as [_ Hk]. apply Hk; [apply file_kernel_wf|apply opened_ids|apply file_kernel_wf].
Qed.

(** The file that was opened lies below the directory. *)
Lemma subtree_scan_terminates_witness :
  ∃ k d, open_file_descriptions (vfs_of opened_kernel) !! k = Some (Some d) ∧ below (vfs_of opened_kernel) (fd_node d) 2.
Proof.
  destruct (subtree_scan_terminates (vfs_of opened_kernel) 2 opened_wf) as (b & Hb & Hiff).
  apply Hiff. assert (Ht : vfs_subtree_has_open_description (vfs_of opened_kernel) 2 = Some true)
    by (vm_compute; reflexivity). rewrite Hb in Ht. injection Ht as ->. reflexivity.
Defined.
