(* ===== verification/BuildProofs.v ===== *)
(** The runtime state a generation boots with is well formed: the invariants that the calls
    of a running system keep hold when its first process starts, and that process holds the
    capabilities the admitted policy gives it. *)

From S2P Require Import Prelude KernelBase Transport VfsPath KernelObjects Store ObjectTableProofs ProcessRuntime.
From S2P Require Import ProcessTableProofs BootConfig BootPolicy BootPolicyProofs CapRegistry VfsState Runtime VertexFs PageCache.
From S2P Require Import VfsNodes BootGrants BootBuild VfsTreeProofs CapabilityProofs BootGrantProofs.
From S2P Require Import Kernel ProcessMemory ProcessSyscalls SchedulerProofs ProcessProofs IpcProofs VfsCallProofs VertexFsProofs.

Local Abbreviation next_id := KernelObjects.next_id.

(** * Sequences that may fail *)

(** [c], run in [s], either succeeds with [Q] or fails in a state with [F]. *)
Definition mwp {S E A} (c : M S E A) (Q : A → S → Prop) (F : S → Prop) (s : S) : Prop :=
  match c s with
  | (Ok a, s') => Q a s'
  | (Err _, s') => F s'
  end.

Section mwp.
Context {S E A B : Type} (F : S → Prop).

Lemma mwp_bind (c : M S E A) (f : A → M S E B) Q s :
  mwp c (λ a s', mwp (f a) Q F s') F s → mwp (rbind c f) Q F s.
Proof. unfold mwp, rbind. by destruct (c s) as [[a|e] s']. Qed.
Lemma mwp_mono (c : M S E A) (Q Q' : A → S → Prop) s :
  mwp c Q F s → (∀ a s', Q a s' → Q' a s') → mwp c Q' F s.
Proof. unfold mwp. destruct (c s) as [[a|e] s']; auto. Qed.
Lemma mwp_lift (r : Result E A) Q s : F s → (∀ a, r = Ok a → Q a s) → mwp (rlift r) Q F s.
Proof. unfold mwp, rlift. destruct r; auto. Qed.
Lemma mwp_guard b (e : E) Q s : F s → (b = true → Q tt s) → mwp (rguard b e) Q F s.
Proof. unfold mwp, rguard. destruct b; auto. Qed.
Lemma mwp_ok (c : M S E A) Q s a s' : mwp c Q F s → c s = (Ok a, s') → Q a s'.
Proof. unfold mwp. intros H Hc. by rewrite Hc in H. Qed.
End mwp.

(** The first part of a sequence, by a lemma about it. *)
Ltac first_by tac := apply mwp_bind; eapply mwp_mono; [tac|]; cbn beta.

(** * Objects as they are made *)

Definition pristine (o : KernelObject) : Prop :=
  match o with
  | OIpcEndpoint e => ep_queue e = queue_empty ∧ ep_owner e = pid_empty
  | ODmaRegion r => dma_mapped_by r = pid_empty
  | OVirtioDevice d => vd_owner d = pid_empty
  | _ => True
  end.

Record objects_new (t : ObjectTable) : Prop := mk_objects_new {
  on_wf : table_wf t;
  on_next : next_id t = (1 + Z.of_nat (count t))%Z;
  on_dense i : i < count t → ∃ o, objects t !! i = Some (Some o);
  on_pristine i o : live_at t i o → pristine o
}.

Lemma objects_new_next t : objects_new t → (next_id t < u64_max)%Z.
Proof.
  intros [Hwf -> _ _]. pose proof (tw_count t Hwf).
  assert (Z.of_nat MAX_OBJECTS < 1000000)%Z by (vm_compute; reflexivity). unfold u64_max. lia.
Qed.

Lemma objects_new_reset t : length (objects t) = MAX_OBJECTS → objects_new (table_reset t).
Proof.
  intros Hl. assert (Hno : ∀ i o, ¬ live_at (table_reset t) i o) by (intros i o [Hi _]; cbn in Hi; lia).
  split; [split| |..]; try done.
  - cbn. lia.
  - intros i o []%Hno.
  - intros i j o o' []%Hno.
  - intros i Hi. cbn in Hi. lia.
  - intros i o []%Hno.
Qed.

(** An object appended to such a table. *)
Lemma objects_new_append t o :
  objects_new t → count t ≠ length (objects t) → object_id o = next_id t → pristine o →
  objects_new (t <| next_id := wrap_u64 (next_id t + 1) |> <| objects := <[count t := Some o]> (objects t) |>
                 <| count := S (count t) |>).
Proof.
  intros [Hwf Hn Hd Hp] Hne Hid Hpo. pose proof Hwf as [Hl Hc _ Hids Hu].
  assert (Hsmall : (next_id t < u64_max)%Z) by (unfold u64_max, MAX_OBJECTS in *; lia).
  assert (Hfree : ∀ x, ¬ live_at t (count t) x) by (intros x [Hx _]; lia).
  destruct (placed_map t (t <| next_id := wrap_u64 (next_id t + 1) |> <| objects := <[count t := Some o]> (objects t) |>
                            <| count := S (count t) |>) o Hwf) as (Hwf' & _ & Hn').
  { apply (place_at t (count t) o (S (count t))); [done|lia|done|by right]. }
  1-3: done.
  split; [done|..].
  - rewrite Hn'. unfold set; cbn. lia.
  - intros i Hi. unfold set in *; cbn in *. destruct (decide (i = count t)) as [->|Hi'].
    + exists o. rewrite list_lookup_insert_eq by lia. done.
    + rewrite list_lookup_insert_ne by done. apply Hd. lia.
  - intros i x [Hi Hx]. unfold set in *; cbn in *. destruct (decide (i = count t)) as [->|Hi'].
    + rewrite list_lookup_insert_eq in Hx by lia. by injection Hx as <-.
    + rewrite list_lookup_insert_ne in Hx by done. apply (Hp i). split; [lia|done].
Qed.

Lemma push_object_new t mk r t' :
  objects_new t → (∀ id, object_id (mk id) = id) → (∀ id, pristine (mk id)) →
  push_object t mk = (r, t') → objects_new t'.
Proof.
  intros Ht Hid Hp. unfold push_object. destruct (Nat.eqb_spec (count t) (length (objects t))); [congruence|].
  intros [= _ <-]. by apply objects_new_append.
Qed.

(** No slot below the count is free, so an insertion appends. *)
Lemma objects_no_hole t :
  objects_new t → first_index (λ o : option KernelObject, bool_decide (o = None)) (objects t) (count t) = None.
Proof.
  intros Ht. destruct (first_index _ _ _) as [i|] eqn:Hi; [|done].
  apply first_index_Some in Hi as (Hlt & (x & Hx & Hp) & _). apply bool_decide_eq_true in Hp as ->.
  destruct (on_dense _ Ht i Hlt) as [o' Ho]. congruence.
Qed.

Lemma add_endpoint_new t name r t' : objects_new t → add_endpoint t name = (r, t') → objects_new t'.
Proof.
  intros Ht. unfold add_endpoint, add_endpoint_owned, insert_object. rewrite objects_no_hole by done.
  destruct (Nat.eqb_spec (count t) (length (objects t))); [congruence|]. intros [= _ <-].
  by apply (objects_new_append t (OIpcEndpoint (endpoint_new (next_id t) name pid_empty))).
Qed.

Lemma add_vfs_mount_new t name rn path source flags dynamic owner r t' :
  objects_new t → add_vfs_mount t name rn path source flags dynamic owner = (r, t') → objects_new t'.
Proof.
  intros Ht. unfold add_vfs_mount. destruct (Nat.eqb_spec (count t) (length (objects t))) as [|Hne]; [congruence|].
  unfold insert_object. change (objects (t <| next_id := _ |>)) with (objects t).
  change (count (t <| next_id := _ |>)) with (count t). rewrite objects_no_hole by done.
  rewrite (proj2 (Nat.eqb_neq _ _) Hne). intros [= _ <-].
  by apply (objects_new_append t (OVfsMount (vfs_mount_new (next_id t) name rn path source flags dynamic owner))).
Qed.

(** * The file tree as it is made *)

Record files_new (v : VfsState) : Prop := mk_files_new {
  fn_tree : tree_wf v;
  fn_next : next_vfs_node_id v = (1 + Z.of_nat (length (omap id (vfs_nodes v))))%Z;
  fn_closed i d : open_file_descriptions v !! i ≠ Some (Some d);
  fn_unlocked i l : vfs_locks v !! i ≠ Some (Some l)
}.

Definition directory_at (v : VfsState) (n : VfsNodeId) : Prop :=
  ∃ i m, vfs_nodes v !! i = Some (Some m) ∧ vn_id m = n ∧ vn_kind m = NkDirectory.

Lemma length_omap_fill {A} (l : list (option A)) i x :
  l !! i = Some None → length (omap id (<[i := Some x]> l)) = S (length (omap id l)).
Proof.
  revert i. induction l as [|o l IH]; intros [|i]; cbn; [done|done|by intros [= ->]|].
  intros Hi. destruct o; cbn; rewrite IH by done; lia.
Qed.

Lemma reset_slot {A} (l : list (option A)) i x : map_upto (λ _, None) l (length l) !! i ≠ Some (Some x).
Proof. rewrite lookup_map_upto. case_bool_decide as Hi; [by destruct (l !! i)|]. by rewrite lookup_ge_None_2 by lia. Qed.

Lemma files_new_reset v :
  length (vfs_nodes v) = MAX_VFS_NODES → files_new (vfs_state_reset v).
Proof.
  intros Hl. set (v' := vfs_state_reset v).
  assert (Hno : ∀ i m, vfs_nodes v' !! i ≠ Some (Some m)) by (intros; apply reset_slot).
  assert (Hz : omap id (vfs_nodes v') = []).
  { apply elem_of_nil_inv. intros m ([o|] & Ho & [= ->])%list_elem_of_omap. apply list_elem_of_lookup in Ho as [i Hi].
    by apply (Hno i m). }
  split.
  - split; [split|split|]; try (intros; exfalso; by eapply Hno); try (cbn; lia).
    + unfold v'. cbn -[map_upto]. by rewrite length_map_upto.
    + intros k d Hk. exfalso. by eapply (reset_slot (open_file_descriptions v)).
  - by rewrite Hz.
  - intros i d. apply (reset_slot (open_file_descriptions v)).
  - intros i l. apply (reset_slot (vfs_locks v)).
Qed.

Lemma files_new_room v slot :
  files_new v → vfs_nodes v !! slot = Some None → (1 ≤ next_vfs_node_id v < u64_max)%Z.
Proof.
  intros [Hw Hn _ _] Hs. pose proof (length_omap_le (vfs_nodes v)) as Hle.
  rewrite (nw_len _ _ _ (tw_nodes _ Hw)) in Hle. unfold u64_max, MAX_VFS_NODES in *. lia.
Qed.

(** A new node below a directory. *)
Lemma add_node_new v name parent kind backing source r v' :
  files_new v → (∀ p, parent = Some p → directory_at v p) →
  (∀ f, backing = VbMemoryFile f → kind = NkRegularFile ∧ f < vfs_mem_file_count v) →
  (∀ f, backing = VbVertexFsFile f → kind = NkRegularFile ∧ f < vertexfs_file_count v) →
  add_vfs_node_with_name v name parent kind backing source = (r, v') →
  files_new v' ∧ (∀ d, directory_at v d → directory_at v' d) ∧
  (∀ id, r = Ok id → kind = NkDirectory → directory_at v' id).
Proof.
  intros Hv Hpar Hmem Hvfs. unfold add_vfs_node_with_name.
  destruct (first_index _ _ _) as [slot|] eqn:Hf; [|by intros [= <- <-]].
  apply first_index_Some in Hf as (_ & ([m|] & Hs & Hm) & _); [done|]. clear Hm.
  pose proof (files_new_room v slot Hv Hs) as Hr. destruct Hv as [[Wn Wf Wo] Hn Hc Hl].
  unfold allocate_vfs_metadata_version. cbn zeta. set (m := mkVfsNode _ _ _ _ _ _ _). intros [= <- <-].
  assert (Hsat : sat_add (next_vfs_node_id v) 1 = (next_vfs_node_id v + 1)%Z) by (unfold sat_add; lia).
  assert (Hadd : ∀ i x, <[slot := Some m]> (vfs_nodes v) !! i = Some (Some x) ↔
                   (i = slot ∧ x = m) ∨ vfs_nodes v !! i = Some (Some x)) by (intros; by apply add_lookup).
  split_and!.
  - split; [split| |exact Hc|exact Hl]; unfold set; cbn -[sat_add].
    + rewrite Hsat. apply (nodes_wf_add _ _ _ Wn slot Hs m eq_refl); [lia|]. intros p Hp. destruct (Hpar p Hp) as (i & x & ?). eauto.
    + by apply (files_backed_add _ slot Hs m).
    + intros k d []%Hc.
    + rewrite Hsat, length_omap_fill by done. lia.
  - intros d (i & x & Hx & Hd). exists i, x. split; [|done]. unfold set; cbn -[sat_add]. apply Hadd. by right.
  - intros n [= <-] Hk. exists slot, m. unfold set; cbn -[sat_add]. rewrite Hadd. auto.
Qed.

Lemma files_backed_more l a a' b c c' d :
  files_backed l a b c d → a ≤ a' ≤ b → c ≤ c' ≤ d → files_backed l a' b c' d.
Proof.
  intros [H1 H2 H3 H4] Ha Hc. split; [lia|lia|..]; intros i m f Hm Hb.
  - destruct (H3 i m f Hm Hb). split; [done|lia].
  - destruct (H4 i m f Hm Hb). split; [done|lia].
Qed.

(** A new file of either kind; [directory_at] only depends on the nodes. *)
Lemma add_memory_file_new v name initial r v' :
  files_new v → add_vfs_memory_file v name initial = (r, v') →
  files_new v' ∧ vfs_nodes v' = vfs_nodes v ∧ (∀ f, r = Ok f → f < vfs_mem_file_count v').
Proof.
  intros Hv. unfold add_vfs_memory_file.
  destruct (Nat.eqb_spec (vfs_mem_file_count v) (length (vfs_mem_files v))) as [|Hne]; [by intros [= <- <-]|].
  destruct (memory_file_new name initial); intros [= <- <-]; [|done].
  pose proof (fb_mem _ _ _ _ _ (tw_files _ (fn_tree _ Hv))) as Hle. destruct Hv as [[Wn Wf Wo] Hn Hc Hl].
  split_and!; [|done|intros f [= <-]; unfold set; cbn; lia].
  split; [split; [done| |done]|done|done|done]. unfold set; cbn. rewrite length_insert.
  eapply files_backed_more; [exact Wf|lia|]. split; [done|apply Wf].
Qed.

Lemma add_vertexfs_file_new v name initial inode r v' :
  files_new v → add_vertexfs_file name initial inode v = (r, v') →
  files_new v' ∧ vfs_nodes v' = vfs_nodes v ∧ (∀ f, r = Ok f → f < vertexfs_file_count v').
Proof.
  intros Hv. unfold add_vertexfs_file, rbind, rget, rguard, rlift, rmodify, rret.
  destruct (Nat.eqb_spec (vertexfs_file_count v) (length (vertexfs_files v))) as [|Hne]; [by intros [= <- <-]|].
  cbn [negb]. destruct (vertexfs_file_new name initial inode); intros [= <- <-]; [|done].
  pose proof (fb_vfs _ _ _ _ _ (tw_files _ (fn_tree _ Hv))) as Hle. destruct Hv as [[Wn Wf Wo] Hn Hc Hl].
  split_and!; [|done|intros f [= <-]; unfold set; cbn; lia].
  split; [split; [done| |done]|done|done|done]. unfold set; cbn. rewrite length_insert.
  eapply files_backed_more; [exact Wf| |lia]. split; [done|apply Wf].
Qed.

Lemma load_image_new image v r v' : files_new v → load_vertexfs_image image v = (r, v') → files_new v'.
Proof.
  intros [W N C L]. unfold load_vertexfs_image. destruct (_ =? _); intros [= _ <-]; [|done].
  split; [|done..]. destruct W. by split.
Qed.

(** * The build before the first process *)

(** The tables have the size of their arrays. *)
Record sized (rt : RuntimeState) : Prop := mk_sized {
  sz_objects : length (objects (rt_objects rt)) = MAX_OBJECTS;
  sz_processes : length (pt_processes (rt_processes rt)) = MAX_PROCESSES;
  sz_lineage : length (cap_lineage (rt_caps rt)) = MAX_CAP_LINEAGE;
  sz_revoked : length (revoked_caps (rt_caps rt)) = MAX_REVOKED_CAPS;
  sz_nodes : length (vfs_nodes (rt_vfs rt)) = MAX_VFS_NODES;
  sz_templates : length (rt_process_template_pids rt) = MAX_PROCESSES
}.

Section prepared.
Context (c : BootRuntimeConfig) (base : RuntimeState).

(** From [base] on objects, nodes and mounts were made, with the directories [dirs]. *)
Record prepared (dirs : list VfsNodeId) (rt : RuntimeState) : Prop := mk_prepared {
  pr_generation : rt_generation_id rt = cf_generation_id c;
  pr_config : rt_active_config rt = Some c;
  pr_objects : objects_new (rt_objects rt);
  pr_files : files_new (rt_vfs rt);
  pr_dirs : Forall (directory_at (rt_vfs rt)) dirs;
  pr_processes : rt_processes rt = rt_processes base;
  pr_caps : rt_caps rt = rt_caps base;
  pr_templates : rt_process_template_pids rt = rt_process_template_pids base
}.

Lemma prepared_dirs dirs dirs' rt : prepared dirs rt → dirs' ⊆ dirs → prepared dirs' rt.
Proof.
  intros [] Hsub. split; try done. apply Forall_forall. intros d Hd. by eapply Forall_forall; [|apply Hsub].
Qed.

Local Abbreviation F := (prepared []).
Lemma prepared_fail dirs rt : prepared dirs rt → F rt.
Proof. intros H. eapply prepared_dirs; [done|]. by intros ? ?%not_elem_of_nil. Qed.

Lemma on_objects_prepared {A} (f : ObjectTable → Result InitError A * ObjectTable) dirs rt :
  (∀ t r t', objects_new t → f t = (r, t') → objects_new t') → prepared dirs rt →
  mwp (on_objects f) (λ _, prepared dirs) F rt.
Proof.
  intros Hf Hrt. unfold mwp, on_objects. destruct (f (rt_objects rt)) as [r t] eqn:Ht.
  assert (Hp : prepared dirs (rt <| rt_objects := t |>)).
  { pose proof Hrt as []. split; try done. by eapply Hf. }
  destruct r; [done|by eapply prepared_fail].
Qed.

Lemma set_ids_prepared f dirs rt : prepared dirs rt → mwp (set_ids f) (λ _, prepared dirs) F rt.
Proof. by intros []. Qed.
Lemma set_services_prepared f dirs rt : prepared dirs rt → mwp (set_services f) (λ _, prepared dirs) F rt.
Proof. by intros []. Qed.

Lemma mount_prepared name node path source flags dynamic owner dirs rt :
  prepared dirs rt → mwp (λ rt, rt_add_vfs_mount rt name node path source flags dynamic owner) (λ _, prepared dirs) F rt.
Proof.
  intros Hrt. unfold mwp, rt_add_vfs_mount. destruct (first_index _ _ _); [|by eapply prepared_fail].
  destruct (add_vfs_mount _ _ _ _ _ _ _ _) as [r t] eqn:Ht.
  pose proof (add_vfs_mount_new _ _ _ _ _ _ _ _ _ _ (pr_objects _ _ Hrt) Ht) as Ho.
  destruct r; [|apply (prepared_fail dirs)]; destruct Hrt; by split.
Qed.

Lemma boot_mount_at_prepared name node path source flags dirs rt :
  prepared dirs rt → mwp (boot_mount_at name node path source flags) (λ _, prepared dirs) F rt.
Proof.
  intros Hrt. apply mwp_bind, mwp_lift; [by eapply prepared_fail|]. intros p _. by apply mount_prepared.
Qed.

(** Nodes: the parent is one of [dirs], and a new directory joins them. *)
Lemma named_node_prepared name parent kind backing source dirs rt :
  prepared dirs rt → (∀ p, parent = Some p → p ∈ dirs) →
  (∀ f, backing = VbMemoryFile f → kind = NkRegularFile ∧ f < vfs_mem_file_count (rt_vfs rt)) →
  (∀ f, backing = VbVertexFsFile f → kind = NkRegularFile ∧ f < vertexfs_file_count (rt_vfs rt)) →
  mwp (on_files (λ v, add_vfs_node_with_name v name parent kind backing source))
    (λ id, prepared (if decide (kind = NkDirectory) then id :: dirs else dirs)) F rt.
Proof.
  intros Hrt Hp Hm Hv. unfold mwp, on_files. destruct (add_vfs_node_with_name _ _ _ _ _ _) as [r v] eqn:Ha.
  destruct (add_node_new (rt_vfs rt) name parent kind backing source r v (pr_files _ _ Hrt)) as (Hv' & Hkeep & Hnew); [|done..|].
  { intros p Hpar. eapply Forall_forall; [apply (pr_dirs _ _ Hrt)|by apply Hp]. }
  assert (Hd : prepared dirs (rt <| rt_vfs := v |>)).
  { destruct Hrt. split; try done. eapply Forall_impl; [done|]. intros d. apply Hkeep. }
  destruct r as [n|]; [|by eapply prepared_fail]. destruct (decide _) as [Hk|]; [|done].
  destruct Hd. split; try done. constructor; [by apply Hnew|done].
Qed.

Lemma boot_node_prepared name parent kind backing source dirs rt :
  prepared dirs rt → (∀ p, parent = Some p → p ∈ dirs) →
  (∀ f, backing = VbMemoryFile f → kind = NkRegularFile ∧ f < vfs_mem_file_count (rt_vfs rt)) →
  (∀ f, backing = VbVertexFsFile f → kind = NkRegularFile ∧ f < vertexfs_file_count (rt_vfs rt)) →
  mwp (boot_node name parent kind backing source)
    (λ id, prepared (if decide (kind = NkDirectory) then id :: dirs else dirs)) F rt.
Proof.
  intros Hrt Hp Hm Hv. unfold boot_node, add_vfs_node. destruct (name_from_static name) as [vfs_name|e].
  - by apply named_node_prepared.
  - unfold mwp, on_files. apply prepared_fail in Hrt as []. by split.
Qed.

Lemma boot_directory_prepared name parent source dirs rt :
  prepared dirs rt → (∀ p, parent = Some p → p ∈ dirs) →
  mwp (boot_directory name parent source) (λ id, prepared (id :: dirs)) F rt.
Proof. intros Hrt Hp. exact (boot_node_prepared name parent NkDirectory VbNone source dirs rt Hrt Hp ltac:(done) ltac:(done)). Qed.

Lemma leaf_node_prepared name parent kind backing source dirs rt :
  prepared dirs rt → parent ∈ dirs → kind ≠ NkDirectory →
  (∀ f, backing = VbMemoryFile f → kind = NkRegularFile ∧ f < vfs_mem_file_count (rt_vfs rt)) →
  (∀ f, backing = VbVertexFsFile f → kind = NkRegularFile ∧ f < vertexfs_file_count (rt_vfs rt)) →
  mwp (boot_node name (Some parent) kind backing source) (λ _, prepared dirs) F rt.
Proof.
  intros Hrt Hp Hk Hm Hv. eapply mwp_mono.
  - apply boot_node_prepared; [done|by intros p [= <-]|done|done].
  - intros n rt'. cbn beta. by rewrite decide_False.
Qed.

(** A file and its node. *)
Lemma file_prepared {A} (f : VfsState → Result InitError A * VfsState) dirs rt (bound : A → VfsState → Prop) :
  (∀ v r v', files_new v → f v = (r, v') → files_new v' ∧ vfs_nodes v' = vfs_nodes v ∧ (∀ a, r = Ok a → bound a v')) →
  prepared dirs rt → mwp (on_files f) (λ a rt', prepared dirs rt' ∧ bound a (rt_vfs rt')) F rt.
Proof.
  intros Hf Hrt. unfold mwp, on_files. destruct (f (rt_vfs rt)) as [r v] eqn:Hv.
  destruct (Hf _ _ _ (pr_files _ _ Hrt) Hv) as (Hn & Hs & Hb).
  assert (Hp : prepared dirs (rt <| rt_vfs := v |>)).
  { destruct Hrt. split; try done. eapply Forall_impl; [done|]. intros d (i & m & Hi & Hd). exists i, m. split; [|done].
    change (vfs_nodes v !! i = Some (Some m)). by rewrite Hs. }
  destruct r as [a|]; [split; [done|by apply Hb]|by eapply prepared_fail].
Qed.

Lemma vertexfs_file_prepared name payload inode file_name parent source dirs rt :
  prepared dirs rt → parent ∈ dirs →
  mwp (rbind (on_files (add_vertexfs_file name payload inode))
        (λ f, boot_node file_name (Some parent) NkRegularFile (VbVertexFsFile f) source)) (λ _, prepared dirs) F rt.
Proof.
  intros Hrt Hp. apply mwp_bind. eapply mwp_mono.
  - apply (file_prepared _ dirs rt (λ f v, f < vertexfs_file_count v)); [|done]. intros. by eapply add_vertexfs_file_new.
  - intros f rt1 [H1 Hf]. apply leaf_node_prepared; [done..|by intros g [= <-]].
Qed.

Lemma memory_file_prepared name payload file_name parent source dirs rt :
  prepared dirs rt → parent ∈ dirs →
  mwp (rbind (on_files (λ v, add_vfs_memory_file v name payload))
        (λ f, boot_node file_name (Some parent) NkRegularFile (VbMemoryFile f) source)) (λ _, prepared dirs) F rt.
Proof.
  intros Hrt Hp. apply mwp_bind. eapply mwp_mono.
  - apply (file_prepared _ dirs rt (λ f v, f < vfs_mem_file_count v)); [|done]. intros. by eapply add_memory_file_new.
  - intros f rt1 [H1 Hf]. apply leaf_node_prepared; [done..|by intros g [= <-]|done].
Qed.

Lemma rret_prepared {A} (a : A) (Q : A → RuntimeState → Prop) rt : Q a rt → mwp (rret a : Init A) Q F rt.
Proof. done. Qed.

Lemma rget_prepared (Q : RuntimeState → RuntimeState → Prop) rt : Q rt rt → mwp (rget : Init RuntimeState) Q F rt.
Proof. done. Qed.

Ltac known_parent := intros ? [= <-]; set_solver.

Definition roots_of (roots : BuiltinRoots) : list VfsNodeId :=
  [br_store roots; br_state roots; br_dev roots; br_proc roots; br_fs roots].

Lemma install_roots_prepared rt : prepared [] rt → mwp install_roots (λ roots, prepared (roots_of roots)) F rt.
Proof.
  intros Hrt. unfold install_roots.
  first_by ltac:(by apply boot_directory_prepared). intros root rt1 H1.
  first_by ltac:(by apply boot_mount_at_prepared). intros _ rt2 H2.
  first_by ltac:(apply boot_directory_prepared; [exact H2|known_parent]). intros store rt3 H3.
  first_by ltac:(by apply boot_mount_at_prepared). intros _ rt4 H4.
  first_by ltac:(apply boot_directory_prepared; [exact H4|known_parent]). intros state rt5 H5.
  first_by ltac:(by apply boot_mount_at_prepared). intros _ rt6 H6.
  first_by ltac:(apply boot_directory_prepared; [exact H6|known_parent]). intros dev rt7 H7.
  first_by ltac:(by apply boot_mount_at_prepared). intros _ rt8 H8.
  first_by ltac:(apply boot_directory_prepared; [exact H8|known_parent]). intros proc rt9 H9.
  first_by ltac:(by apply boot_mount_at_prepared). intros _ rt10 H10.
  first_by ltac:(apply boot_directory_prepared; [exact H10|known_parent]). intros fs rt11 H11.
  first_by ltac:(by apply boot_mount_at_prepared). intros _ rt12 H12.
  apply rret_prepared. eapply prepared_dirs; [exact H12|]. unfold roots_of; cbn. set_solver.
Qed.

Lemma mwp_assoc {A B C} (a : Init A) (f : A → Init B) (g : B → Init C) Q s :
  mwp (rbind (rbind a f) g) Q F s → mwp (rbind a (λ x, rbind (f x) g)) Q F s.
Proof. unfold mwp. by rewrite rbind_assoc. Qed.

Lemma install_vertexfs_prepared fs image files dirs rt :
  prepared dirs rt → fs ∈ dirs → mwp (install_vertexfs fs image files) (λ _, prepared dirs) F rt.
Proof.
  intros Hrt Hfs. unfold install_vertexfs. apply mwp_assoc.
  first_by ltac:(by apply vertexfs_file_prepared). intros _ rt1 H1.
  first_by ltac:(apply boot_directory_prepared; [exact H1|known_parent]). intros app rt2 H2. apply mwp_assoc.
  first_by ltac:(apply (vertexfs_file_prepared _ _ _ _ app _ (app :: dirs)); [exact H2|by left]). intros _ rt3 H3.
  assert (prepared dirs rt3) by (eapply prepared_dirs; [exact H3|set_solver]).
  apply mwp_bind, mwp_lift; [by eapply prepared_fail|]. intros _ _.
  apply mwp_bind, mwp_lift; [by eapply prepared_fail|]. by intros _ _.
Qed.

Lemma install_volatile_prepared state dirs rt :
  prepared dirs rt → state ∈ dirs → mwp (install_volatile_state state) (λ _, prepared dirs) F rt.
Proof.
  intros Hrt Hs. unfold install_volatile_state. apply mwp_assoc.
  first_by ltac:(by apply memory_file_prepared). intros _ rt1 H1.
  first_by ltac:(apply boot_directory_prepared; [exact H1|known_parent]). intros sub rt2 H2. apply mwp_assoc.
  first_by ltac:(apply (memory_file_prepared _ _ _ sub _ (sub :: dirs)); [exact H2|by left]). intros _ rt3 H3.
  assert (prepared dirs rt3) by (eapply prepared_dirs; [exact H3|set_solver]).
  first_by ltac:(by apply leaf_node_prepared). intros report rt4 H4.
  first_by ltac:(by apply boot_mount_at_prepared). by intros _ rt5 H5.
Qed.

Lemma install_state_volume_prepared state id dirs rt :
  prepared dirs rt → state ∈ dirs → mwp (install_state_volume state id) (λ _, prepared dirs) F rt.
Proof.
  intros Hrt Hs. pose proof (prepared_fail _ _ Hrt) as HF. unfold install_state_volume.
  apply mwp_bind, rget_prepared, mwp_bind, mwp_lift; [done|]. intros volume _.
  apply mwp_bind, mwp_lift; [done|]. intros name _. apply mwp_bind, mwp_lift; [done|]. intros path _.
  apply mwp_bind, mwp_guard; [done|]. intros _.
  first_by ltac:(apply (named_node_prepared _ _ _ _ _ dirs rt); [done|known_parent|done|done]).
  intros root rt1. rewrite decide_True by done. intros H1.
  first_by ltac:(apply (leaf_node_prepared _ root _ _ _ (root :: dirs)); [exact H1|by left|done..]). intros _ rt2 H2.
  first_by ltac:(apply (leaf_node_prepared _ root _ _ _ (root :: dirs)); [exact H2|by left|done..]). intros _ rt3 H3.
  first_by ltac:(by apply mount_prepared). intros _ rt4 H4. apply rret_prepared.
  eapply prepared_dirs; [exact H4|set_solver].
Qed.

Lemma each_noted_prepared f ids dirs rt :
  (∀ id rt, prepared dirs rt → mwp (f id) (λ _, prepared dirs) F rt) →
  prepared dirs rt → mwp (each_noted f ids) (λ _, prepared dirs) F rt.
Proof.
  intros Hf. revert rt. induction ids as [|[id|] ids IH]; intros rt Hrt; cbn [each_noted]; [done| |by apply IH].
  first_by ltac:(by apply Hf). intros _ rt1 H1. by apply IH.
Qed.

Lemma install_store_prepared root id dirs rt :
  prepared dirs rt → root ∈ dirs → mwp (install_store_node root id) (λ _, prepared dirs) F rt.
Proof.
  intros Hrt Hr. unfold install_store_node. apply mwp_bind, rget_prepared, mwp_bind, mwp_lift; [by eapply prepared_fail|].
  intros store _. first_by ltac:(by apply leaf_node_prepared). done.
Qed.
Lemma install_device_prepared root id dirs rt :
  prepared dirs rt → root ∈ dirs → mwp (install_device_node root id) (λ _, prepared dirs) F rt.
Proof.
  intros Hrt Hr. unfold install_device_node. apply mwp_bind, rget_prepared, mwp_bind, mwp_lift; [by eapply prepared_fail|].
  intros device _. first_by ltac:(by apply leaf_node_prepared). done.
Qed.

Lemma install_vfs_nodes_prepared loader `{StoreMemory} rt :
  prepared [] rt → mwp (install_vfs_nodes loader) (λ _, prepared []) F rt.
Proof.
  intros Hrt. unfold install_vfs_nodes. apply mwp_bind, mwp_lift; [done|]. intros image _.
  apply mwp_bind, mwp_lift; [done|]. intros files _.
  first_by ltac:(apply (file_prepared _ [] rt (λ _ _, True)); [|done]).
  { intros v r v' Hv Hl. pose proof (load_image_new _ _ _ _ Hv Hl). split_and!; [done| |done].
    unfold load_vertexfs_image in Hl. by destruct (_ =? _); injection Hl as _ <-. }
  intros _ rt1 [H1 _]. first_by ltac:(by apply install_roots_prepared). intros roots rt2 H2.
  assert (Hin : ∀ d, d ∈ roots_of roots ↔ d = br_store roots ∨ d = br_state roots ∨ d = br_dev roots ∨
                 d = br_proc roots ∨ d = br_fs roots) by (intros d; unfold roots_of; set_solver).
  first_by ltac:(apply install_vertexfs_prepared; [exact H2|set_solver]). intros _ rt3 H3.
  first_by ltac:(apply install_volatile_prepared; [exact H3|set_solver]). intros _ rt4 H4.
  apply mwp_bind, rget_prepared.
  first_by ltac:(apply (each_noted_prepared _ _ (roots_of roots)); [intros; apply install_state_volume_prepared; [done|set_solver]|exact H4]).
  intros _ rt5 H5. first_by ltac:(apply leaf_node_prepared; [exact H5|set_solver|done..]). intros _ rt6 H6.
  first_by ltac:(apply leaf_node_prepared; [exact H6|set_solver|done..]). intros _ rt7 H7.
  first_by ltac:(apply (each_noted_prepared _ _ (roots_of roots)); [intros; apply install_store_prepared; [done|set_solver]|exact H7]).
  intros _ rt8 H8. eapply mwp_mono; [apply (each_noted_prepared _ _ (roots_of roots)); [intros; apply install_device_prepared; [done|set_solver]|exact H8]|].
  intros a rt9. apply prepared_fail.
Qed.

Lemma register_prepared {A} (add : A → Init KernelObjectId) note dirs index l rt :
  (∀ x rt, prepared dirs rt → mwp (add x) (λ _, prepared dirs) F rt) →
  prepared dirs rt → mwp (register_from add note index l) (λ _, prepared dirs) F rt.
Proof.
  intros Ha. revert index rt. induction l as [|[x|] l IH]; intros index rt Hrt; cbn [register_from]; [done| |by eapply prepared_fail].
  first_by ltac:(by apply Ha). intros id rt1 H1. first_by ltac:(by apply set_ids_prepared). intros _ rt2 H2. by apply IH.
Qed.

Lemma push_prepared dirs (add : ObjectTable → Result InitError KernelObjectId * ObjectTable) rt :
  (∀ t, ∃ mk, add t = push_object t mk ∧ ∀ id, object_id (mk id) = id ∧ pristine (mk id)) →
  prepared dirs rt → mwp (on_objects add) (λ _, prepared dirs) F rt.
Proof.
  intros Ha Hrt. apply on_objects_prepared; [|done]. intros t r t' Ht H.
  destruct (Ha t) as (mk & He & Hmk). rewrite He in H. eapply push_object_new; [done| | |exact H]; intros; apply Hmk.
Qed.

(** Every kind of object but endpoints, mounts and VFS roots. *)
Ltac pushed := apply push_prepared; [intros; eexists; split; [reflexivity|done]|done].

Lemma endpoint_prepared name dirs rt :
  prepared dirs rt → mwp (on_objects (λ t, add_endpoint t name)) (λ _, prepared dirs) F rt.
Proof. intros Hrt. apply on_objects_prepared; [|done]. intros. by eapply add_endpoint_new. Qed.

Lemma service_endpoint_prepared name note dirs rt :
  prepared dirs rt → mwp (add_service_endpoint name note) (λ _, prepared dirs) F rt.
Proof. intros Hrt. first_by ltac:(by apply endpoint_prepared). intros id rt1 H1. by apply set_services_prepared. Qed.

Lemma service_endpoints_prepared dirs rt :
  prepared dirs rt → mwp (register_service_endpoints c) (λ _, prepared dirs) F rt.
Proof.
  intros Hrt. unfold register_service_endpoints. apply mwp_bind. eapply (mwp_mono _ _ (λ _, prepared dirs)); cbn beta.
  - destruct (_ <? _); [|done]. first_by ltac:(by apply service_endpoint_prepared). intros _ rt1 H1.
    by apply service_endpoint_prepared.
  - intros _ rt1 H1. first_by ltac:(by apply service_endpoint_prepared). intros _ rt2 H2.
    first_by ltac:(by apply service_endpoint_prepared). intros _ rt3 H3.
    apply mwp_bind, mwp_lift; [by eapply prepared_fail|]. intros [] _; [|done].
    first_by ltac:(by apply service_endpoint_prepared). intros _ rt4 H4. by apply service_endpoint_prepared.
Qed.

Lemma framebuffer_prepared loader name dirs rt :
  prepared dirs rt → mwp (add_boot_framebuffer loader name) (λ _, prepared dirs) F rt.
Proof.
  intros Hrt. unfold add_boot_framebuffer. do 4 (apply mwp_bind, mwp_lift; [by eapply prepared_fail|]; intros ? _).
  pushed.
Qed.

Lemma register_objects_prepared loader dirs rt :
  prepared dirs rt → mwp (register_objects loader c) (λ _, prepared dirs) F rt.
Proof.
  intros Hrt. unfold register_objects.
  do 5 (first_by ltac:(apply (register_prepared _ _ dirs); [intros; pushed|eassumption]); intros _ ? ?).
  first_by ltac:(apply (register_prepared _ _ dirs); [intros; by apply framebuffer_prepared|eassumption]). intros _ ? ?.
  do 3 (first_by ltac:(apply (register_prepared _ _ dirs); [intros; pushed|eassumption]); intros _ ? ?).
  apply register_prepared; [intros; pushed|done].
Qed.

Lemma namespace_prepared namespace dirs rt :
  prepared dirs rt → mwp (add_boot_namespace namespace) (λ _, prepared dirs) F rt.
Proof.
  intros Hrt. apply mwp_bind, rget_prepared, mwp_bind, mwp_lift; [by eapply prepared_fail|]. intros entries _. pushed.
Qed.

Lemma vfs_root_prepared name path dirs rt :
  prepared dirs rt → mwp (on_objects (λ t, add_vfs_root t name path)) (λ _, prepared dirs) F rt.
Proof.
  intros Hrt. apply on_objects_prepared; [|done]. intros t r t' Ht. unfold add_vfs_root.
  destruct (_ =? _); [by intros [= _ <-]|]. destruct (from_boot_root_path path); [|by intros [= _ <-]].
  by apply push_object_new.
Qed.

Lemma register_names_prepared dirs rt : prepared dirs rt → mwp (register_names c) (λ _, prepared dirs) F rt.
Proof.
  intros Hrt. unfold register_names.
  first_by ltac:(apply (register_prepared _ _ dirs); [intros; by apply namespace_prepared|done]). intros _ rt1 H1.
  first_by ltac:(apply (register_prepared _ _ dirs); [intros; by apply vfs_root_prepared|done]). intros _ rt2 H2.
  first_by ltac:(pushed). intros secret rt3 H3. by apply set_ids_prepared.
Qed.

(** Everything between the reset and the first process. *)
Lemma objects_prepared loader `{StoreMemory} rt :
  prepared [] rt → mwp (build_objects loader c) (λ _, prepared []) F rt.
Proof.
  intros Hrt. unfold build_objects. first_by ltac:(apply (register_prepared _ _ []); [intros; by apply endpoint_prepared|done]). intros _ rt1 H1.
  first_by ltac:(by apply service_endpoints_prepared). intros _ rt2 H2.
  first_by ltac:(by apply register_objects_prepared). intros _ rt3 H3.
  first_by ltac:(pushed). intros timer rt4 H4. first_by ltac:(by apply set_ids_prepared). intros _ rt5 H5.
  first_by ltac:(by apply install_vfs_nodes_prepared). intros _ rt6 H6.
  apply mwp_bind, rget_prepared, mwp_bind, mwp_lift; [done|]. intros _ _. by apply register_names_prepared.
Qed.
End prepared.

(** * The reset *)

Lemma ptable_reset_wf t :
  length (pt_processes t) = MAX_PROCESSES → ptable_wf (ptable_reset t) ∧ live_processes (ptable_reset t) = [].
Proof.
  intros Hl. assert (Hlive : live_processes (ptable_reset t) = []) by done. split; [|done].
  split; [done|cbn; lia|intros i Hi; cbn in Hi; lia|done|by rewrite Hlive|by rewrite Hlive; constructor].
Qed.

Lemma registry_reset_wf r :
  length (cap_lineage r) = MAX_CAP_LINEAGE → length (revoked_caps r) = MAX_REVOKED_CAPS →
  registry_wf (registry_reset r) ∧ revocation_closed (registry_reset r).
Proof.
  intros Hl Hr. split.
  - split; cbn -[map_upto MAX_CAP_LINEAGE MAX_REVOKED_CAPS]; rewrite ?length_map_upto; try done; try lia; constructor.
  - intros x p [Hx _] _. done.
Qed.

Lemma reset_prepared c rt : sized rt → prepared c (reset_runtime c rt) [] (reset_runtime c rt).
Proof.
  intros [Ho Hp Hl Hr Hn Ht]. split; try done.
  - by apply objects_new_reset.
  - by apply files_new_reset.
Qed.

Lemma reset_caps_wf c rt : sized rt → caps_wf (reset_runtime c rt).
Proof.
  intros [Ho Hp Hl Hr Hn Ht]. destruct (registry_reset_wf _ Hl Hr). destruct (ptable_reset_wf _ Hp) as [Hw Hlive].
  split; [done..|]. change (Forall (process_ok (registry_reset (rt_caps rt))) (live_processes (ptable_reset (rt_processes rt)))).
  rewrite Hlive. constructor.
Qed.

Lemma prepared_sized c base dirs rt :
  caps_wf base → length (rt_process_template_pids base) = MAX_PROCESSES → prepared c base dirs rt → sized rt.
Proof.
  intros Hb Ht [_ _ Ho Hf _ Hp Hc Htp]. split.
  - apply Ho.
  - rewrite Hp. apply Hb.
  - rewrite Hc. apply (cw_registry _ Hb).
  - rewrite Hc. apply (cw_registry _ Hb).
  - apply (tw_nodes _ (fn_tree _ Hf)).
  - by rewrite Htp.
Qed.

(** * The first process *)

(** Grants keep the sizes, also when they fail. *)
Lemma grant_new_capability_sized object rights owner slot rt :
  sized rt → sized (grant_new_capability object rights owner slot rt).2.
Proof.
  intros [Ho Hp Hl Hr Hn Ht]. unfold grant_new_capability, rbind, mint_capability, rt_new_capability, new_capability, record_cap_lineage.
  destruct (_ || _); [by split|]. destruct (_ =? _); [by split|]. cbn [map_err].
  unfold grant_process_cap_by_pid. set (rt1 := rt <| rt_caps := _ |>).
  assert (Hs : sized rt1) by (split; try done; unfold rt1, set; cbn; by rewrite length_insert).
  destruct (process _ _) as [p|]; [|done]. destruct (cspace_grant _ _ _) as [[]]; [|done].
  destruct (cspace_grant _ _ _) as [[]]; [|done]. destruct Hs. split; try done. cbn.
  unfold modify_process. destruct (process_index _ _); [|done]. cbn. by rewrite length_alter.
Qed.

Section first.
Context (c : BootRuntimeConfig) (index : nat) (process_config : BootProcessConfig) (context : ProcessContext).
Context (pid : ProcessId) (root : VfsPath) (templates : list (option ProcessId)).

(** The initial process, with the capabilities [caps]. *)
Definition first_process (caps : CapabilitySpace) : Process :=
  (process_new pid (bp_name process_config) context (bp_image_base process_config) (bp_image_length process_config)
    PsRunning cspace_new root) <| p_caps := caps |> <| p_initial_caps := caps |>.

(** It is the only process, it runs, and every capability it holds was authorised. *)
Record first_running (rt : RuntimeState) : Prop := mk_first_running {
  fr_generation : rt_generation_id rt = cf_generation_id c;
  fr_config : rt_active_config rt = Some c;
  fr_objects : objects_new (rt_objects rt);
  fr_files : files_new (rt_vfs rt);
  fr_caps : caps_wf rt;
  fr_process : ∃ caps, process (rt_processes rt) pid = Some (first_process caps) ∧
    ∀ slot cap, cspace_lookup caps slot = Some cap →
      start_authorized c index process_config rt slot (c_object cap) (c_rights cap) ∧ c_owner cap = pid ∧ live rt cap;
  fr_pids : p_pid <$> live_processes (rt_processes rt) = [pid];
  fr_current : pt_current (rt_processes rt) = Some pid;
  fr_templates : rt_process_template_pids rt = templates
}.

Hypothesis (Htemplates : length templates = MAX_PROCESSES).

Lemma first_sized rt : first_running rt → sized rt.
Proof using Htemplates.
  intros [_ _ Ho Hf Hc _ _ _ Ht]. split.
  - apply Ho.
  - apply Hc.
  - apply (cw_registry _ Hc).
  - apply (cw_registry _ Hc).
  - apply (tw_nodes _ (fn_tree _ Hf)).
  - by rewrite Ht.
Qed.

(** Authorised grants keep this. *)
Lemma first_provides E rt rt' :
  first_running rt → provides pid E rt rt' → rt_kept rt rt' →
  (∀ s o r, E s o r → start_authorized c index process_config rt s o r) → first_running rt'.
Proof.
  intros [G C O V W (caps & Hp & Ha) I U T] Hpv Hk HE. pose proof (pv_frame _ _ _ _ Hpv) as Hf.
  destruct (pv_process _ _ _ _ Hpv _ Hp) as (caps' & initial & Hp' & _ & Hsound & _ & Hsame).
  assert (initial = caps') as -> by (by apply Hsame).
  assert (Hlater : ∀ s o r, start_authorized c index process_config rt s o r →
    start_authorized c index process_config rt' s o r)
    by (intros s o r; apply authorized_frame; by rewrite Hf). split.
  - by rewrite Hf.
  - by rewrite Hf.
  - by rewrite Hf.
  - by rewrite Hf.
  - apply Hpv.
  - exists caps'. split; [exact Hp'|]. intros slot cap [Hs|(He & Ho & _ & Hl)]%Hsound.
    + destruct (Ha slot cap Hs) as (? & ? & ?). split_and!; [by apply Hlater|done|]. by eapply provides_live.
    + split_and!; [by apply Hlater, HE|done|done].
  - rewrite (kt_pids _ _ (rk_table _ _ Hk)) by apply W. done.
  - by rewrite (kt_current _ _ (rk_table _ _ Hk)).
  - by rewrite (rk_templates _ _ Hk).
Qed.

Lemma first_grant object rights slot rt :
  is_u64 rights → start_authorized c index process_config rt slot object rights → first_running rt →
  mwp (grant_new_capability object rights pid slot) (λ _, first_running) sized rt.
Proof using Htemplates.
  intros Hu Ha Hrt. pose proof (grant_new_capability_sized object rights pid slot rt (first_sized _ Hrt)) as Hs.
  pose proof (grant_new_capability_keeps object rights pid slot rt) as Hk.
  unfold mwp. destruct (grant_new_capability _ _ _ _ rt) as [[[]|e] rt'] eqn:Hrun; [|done].
  eapply first_provides; [done|by apply grant_new_capability_provides; [apply Hrt|..]|done|].
  by intros s o r (-> & -> & ->).
Qed.

Lemma first_config_grants log log' rt :
  config_wf c → rights_u64 c → validate_boot_config_installable c log = (Ok tt, log') →
  counted_get (cf_processes c) index = Some process_config → first_running rt →
  mwp (grant_config_caps_to_process c index pid) (λ _, first_running) sized rt.
Proof using Htemplates.
  intros Hc Hu Hadm Hget Hrt.
  pose proof (grant_caps_invariant sized c index pid (λ o r s, grant_new_capability_sized o r pid s) rt (first_sized _ Hrt)) as Hs.
  pose proof (grant_caps_keeps c index pid rt) as Hk.
  unfold mwp. destruct (grant_config_caps_to_process c index pid rt) as [[[]|e] rt'] eqn:Hrun; [|done].
  eapply first_provides; [done|by apply grant_config_provides; [apply Hrt|apply Hu|..]|done|].
  intros s o r. by apply (entitled_authorized c index process_config rt s o r log log').
Qed.

(** New objects keep it too, and are there. *)
Lemma first_push add mk rt :
  (∀ t, add t = push_object t mk) → (∀ id, object_id (mk id) = id) → (∀ id, pristine (mk id)) →
  first_running rt →
  mwp (on_objects add) (λ id rt', first_running rt' ∧ table_map (rt_objects rt') !! id = Some (mk id)) sized rt.
Proof using Htemplates.
  intros Ha Hid Hpr Hrt. pose proof (first_sized _ Hrt) as Hs. unfold mwp, on_objects. rewrite Ha.
  destruct Hrt as [G C O V W P I U T]. pose proof (objects_new_next _ O) as Hnext.
  pose proof (push_added (rt_objects rt) (on_wf _ O) Hnext mk (Hid _)) as Hadd.
  destruct (push_object (rt_objects rt) mk) as [[id|e] t] eqn:Ht; [|destruct Hadd as (-> & _); by destruct rt].
  destruct Hadd as (-> & _ & Hnone & _ & Hmap & _). split; [|change (table_map t !! next_id (rt_objects rt) = Some (mk (next_id (rt_objects rt)))); by rewrite Hmap, lookup_insert_eq].
  destruct W as [W1 W2 W3 W4]. split; try done; [eapply push_object_new; [done| | |exact Ht]; done|].
  destruct P as (caps & Hp & Hc). exists caps. split; [done|]. intros slot cap (Hx & Ho & Hl)%Hc.
  split_and!; [|done|done].
  apply (authorized_later _ _ _ rt _ (process_control_id (rt_boot_ids rt))); [|done| |done].
  - unfold set; cbn. by destruct (rt_boot_ids rt).
  - change (table_map (rt_objects rt) ⊆ table_map t). rewrite Hmap. by apply insert_subseteq.
Qed.

Lemma first_control_id control rt :
  first_running rt → mwp (set_ids (λ b, b <| process_control_id := control |>))
    (λ _ rt', first_running rt' ∧ rt_objects rt' = rt_objects rt) sized rt.
Proof.
  intros [G C O V [W1 W2 W3 W4] (caps & Hp & Hc) I U T]. split; [|done]. split; try done.
  exists caps. split; [done|]. intros slot cap (Hx & Ho & Hl)%Hc. split_and!; [|done|done].
  by apply (authorized_later _ _ _ rt _ control).
Qed.

(** The capabilities that facts of the bootstrap policy allow. *)
Lemma first_manifest rt : first_running rt → mwp (grant_manifest c process_config pid) (λ _, first_running) sized rt.
Proof using Htemplates.
  intros Hrt. unfold grant_manifest. destruct (cf_manifest_module c) as [module|] eqn:Hm; [|done].
  apply mwp_bind, mwp_guard; [by apply first_sized|]. intros Ha.
  first_by ltac:(by apply (first_push _ (λ id, OBootModule (mkBootModuleObject id (bmo_name module) (bmo_base module) (bmo_length module))))).
  intros id rt1 [H1 Ho]. apply first_grant; [done| |done]. by apply (authorized_manifest _ _ _ _ module).
Qed.

Lemma first_control rt :
  first_running rt → mwp (grant_process_control c process_config pid) (λ _, first_running) sized rt.
Proof using Htemplates.
  intros Hrt. unfold grant_process_control.
  first_by ltac:(by apply (first_push _ (λ id, OProcessControl (mkProcessControlObject id "process-control")))).
  intros id rt1 [H1 Ho]. first_by ltac:(by apply first_control_id). intros _ rt2 [H2 Hsame].
  apply mwp_bind, mwp_guard; [by apply first_sized|]. intros Ha. apply first_grant; [done| |done].
  apply authorized_control; [by rewrite Hsame|done].
Qed.

Lemma first_timer rt : first_running rt → mwp (grant_restart_timer c process_config pid) (λ _, first_running) sized rt.
Proof using Htemplates.
  intros Hrt. unfold grant_restart_timer.
  apply mwp_bind. change (mwp rget ?Q ?F rt) with (Q rt rt). cbn beta.
  apply mwp_bind, mwp_lift; [by apply first_sized|]. intros timer Ht%ok_or_ok.
  apply mwp_bind, mwp_guard; [by apply first_sized|]. intros Ha. apply first_grant; [done| |done].
  by apply authorized_timer.
Qed.
End first.

Lemma mwp_fail_mono {S E A} (c : M S E A) (Q : A → S → Prop) (F F' : S → Prop) s :
  mwp c Q F s → (∀ s', F s' → F' s') → mwp c Q F' s.
Proof. unfold mwp. destruct (c s) as [[a|e] s']; auto. Qed.

Lemma caps_wf_same rt rt' :
  rt_processes rt' = rt_processes rt → rt_caps rt' = rt_caps rt → caps_wf rt → caps_wf rt'.
Proof. intros Hp Hc []. split; by rewrite ?Hp, ?Hc. Qed.

Lemma declared_mounts_prepared c base process pid root rt :
  prepared c base [] rt → mwp (install_declared_process_mounts process pid root) (λ _, prepared c base []) (prepared c base []) rt.
Proof.
  unfold install_declared_process_mounts. generalize 0%Z as n, (counted (bp_mounts process)) as l. intros n l.
  revert n rt. induction l as [|[m|] l IH]; intros n rt Hrt; cbn [install_declared_mounts]; [done| |done].
  apply mwp_bind. eapply (mwp_mono _ _ (λ _, prepared c base [])); [|intros; by apply IH].
  unfold mwp, install_declared_mount. destruct (res_bind _ _) as [[[node path] flags]|e]; [|done].
  pose proof (mount_prepared c base "mount:declared-bind" (vn_id node) path (vn_mount_source node) flags false pid [] rt Hrt) as H.
  unfold mwp in H. by destruct (rt_add_vfs_mount _ _ _ _ _ _ _ _) as [[] rt'].
Qed.

(** * The whole build *)

Section build.
Context (loader : BootLoader) `{SM : StoreMemory} (c : BootRuntimeConfig) (index : nat) (process_config : BootProcessConfig).
Context (context : ProcessContext) (log log' : PolicyDenialLog).
Hypothesis (Hwf : config_wf c) (Hrights : rights_u64 c).
Hypothesis (Hadmitted : validate_boot_config_installable c log = (Ok tt, log')).
Hypothesis (Hentry : counted_get (cf_processes c) index = Some process_config).

Definition built (rt0 rt : RuntimeState) : Prop :=
  ∃ root, from_boot_root_path (bp_mount_root process_config) = Ok root ∧
    first_running c index process_config context 1 root
      (<[index := Some 1%Z]> (rt_process_template_pids (reset_runtime c rt0))) rt.

Lemma initial_process_running rt0 rt :
  sized rt0 → prepared c (reset_runtime c rt0) [] rt →
  mwp (add_initial_process c index process_config context) (λ pid rt', pid = 1%Z ∧ built rt0 rt') sized rt.
Proof using Hwf Hrights Hadmitted Hentry.
  intros Hs Hrt. pose proof (reset_caps_wf c rt0 Hs) as Hw0.
  assert (Ht0 : length (rt_process_template_pids (reset_runtime c rt0)) = MAX_PROCESSES)
    by (cbn; rewrite length_map_upto; apply Hs).
  pose proof (prepared_sized _ _ _ _ Hw0 Ht0 Hrt) as Hsz. pose proof Hrt as [G C O V _ P K T].
  pose proof (caps_wf_same _ _ P K Hw0) as Hw. unfold add_initial_process.
  apply mwp_bind, mwp_lift; [done|]. intros root Hroot. apply mwp_bind. unfold mwp at 1, on_processes.
  assert (Hn : pt_next_id (rt_processes rt) = 1%Z) by (by rewrite P).
  assert (Hl : live_processes (rt_processes rt) = []) by (rewrite P; by apply ptable_reset_wf, Hs).
  destruct (add_process _ _ _ _ _ _ _ _) as [r t] eqn:Hadd.
  pose proof (add_process_live (rt_processes rt) (cw_table _ Hw) (bp_name process_config) context (bp_image_base process_config)
    (bp_image_length process_config) PsRunning cspace_new root) as Hal.
  rewrite Hn, Hadd, Hl in Hal. specialize (Hal eq_refl).
  destruct r as [pid|e]; [|destruct Hal as (-> & _); by destruct rt].
  destruct Hal as (-> & Htw & Hcur & _ & Hlive).
  destruct (fresh_process_wf rt _ _ _ _ _ _ _ _ Hw ltac:(by rewrite Hn) Hadd) as (Hw1 & Hproc & _ & _).
  set (rt1 := rt <| rt_processes := t |>) in *.
  assert (Hrt1 : prepared c rt1 [] rt1) by (split; done).
  assert (Ht1 : length (rt_process_template_pids rt1) = MAX_PROCESSES) by (change (length (rt_process_template_pids rt) = MAX_PROCESSES); by rewrite T).
  apply mwp_bind. eapply mwp_fail_mono; [|intros; by eapply (prepared_sized c rt1)].
  eapply mwp_mono; [by apply declared_mounts_prepared|]. cbn beta. intros _ rt2 H2.
  apply mwp_bind. unfold mwp at 1, rmodify. set (rt3 := rt2 <| rt_process_template_pids ::= _ |> <| rt_processes ::= _ |>).
  pose proof H2 as [G2 C2 O2 V2 _ P2 K2 T2].
  assert (Hlen : length (<[index := Some 1%Z]> (rt_process_template_pids (reset_runtime c rt0))) = MAX_PROCESSES)
    by (by rewrite length_insert).
  assert (H3 : first_running c index process_config context 1 root
                 (<[index := Some 1%Z]> (rt_process_template_pids (reset_runtime c rt0))) rt3).
  { destruct (caps_wf_same _ _ P2 K2 Hw1) as [W1 W2 W3 W4]. split; try done.
    - split; [destruct W1; by split|done|done|done].
    - exists cspace_new. split; [|intros slot cap H; by rewrite cspace_new_lookup in H].
      change (process (rt_processes rt2) 1 = Some (first_process process_config context 1 root cspace_new)). rewrite P2. exact Hproc.
    - change (p_pid <$> live_processes (rt_processes rt2) = [1%Z]). rewrite P2. change (rt_processes rt1) with t. by rewrite Hlive.
    - change (<[index := Some 1%Z]> (rt_process_template_pids rt2) = <[index := Some 1%Z]> (rt_process_template_pids (reset_runtime c rt0))).
      rewrite T2. change (rt_process_template_pids rt1) with (rt_process_template_pids rt). by rewrite T. }
  apply mwp_bind. eapply mwp_mono; [by eapply first_config_grants|]. cbn beta. intros _ rt4 H4. split; [done|].
  exists root. done.
Qed.

Lemma build_first rt0 :
  sized rt0 → mwp (build_boot_config_runtime loader c index process_config context) (λ _, built rt0) sized rt0.
Proof using Hwf Hrights Hadmitted Hentry.
  intros Hs. assert (Ht0 : length (rt_process_template_pids (reset_runtime c rt0)) = MAX_PROCESSES)
    by (cbn; rewrite length_map_upto; apply Hs).
  assert (Hlen : length (<[index := Some 1%Z]> (rt_process_template_pids (reset_runtime c rt0))) = MAX_PROCESSES)
    by (by rewrite length_insert).
  unfold build_boot_config_runtime. apply mwp_bind. unfold mwp at 1, rmodify. apply mwp_bind.
  eapply mwp_fail_mono; [|intros s' Hs'; eapply (prepared_sized c (reset_runtime c rt0)); [by apply reset_caps_wf|done|exact Hs']].
  eapply mwp_mono; [by apply objects_prepared, reset_prepared|]. cbn beta. intros _ rt1 H1.
  first_by ltac:(by apply (initial_process_running rt0)). intros pid rt2 [-> (root & Hroot & H2)].
  first_by ltac:(by eapply first_manifest). intros _ rt3 H3.
  first_by ltac:(by eapply first_control). intros _ rt4 H4.
  eapply mwp_mono; [by eapply first_timer|]. cbn beta. intros _ rt5 H5. by exists root.
Qed.
End build.

(** * What the build guarantees *)

(** The mount roots of the processes fit into a path. *)
Definition roots_fit (c : BootRuntimeConfig) : Prop :=
  ∀ p, p ∈ entries (cf_processes c) → length (string_bytes (bp_mount_root p)) ≤ MAX_VFS_PATH_BYTES.

Lemma initial_index_bound l : ∀ n found i,
  initial_index_from n found l = Ok i → (found = Some i ∨ n ≤ i < n + length l).
Proof.
  induction l as [|[p|] l IH]; intros n found i; cbn [initial_index_from length]; [| |done].
  - destruct found; [|done]. intros [= <-]. by left.
  - destruct (bp_initial p).
    + destruct found; [done|]. intros [[= <-]|?]%IH; right; lia.
    + intros [->|?]%IH; [by left|right; lia].
Qed.

Lemma initial_index_used c i : initial_process_index c = Ok i → i < cn_used (cf_processes c).
Proof.
  unfold initial_process_index, counted. intros [?|[_ H]]%initial_index_bound; [done|].
  rewrite length_take in H. lia.
Qed.

(** [rt] is the runtime of the generation [c] whose only process, the initial one, runs in
    [context]. *)
Record generation_running (c : BootRuntimeConfig) (context : ProcessContext) (rt : RuntimeState) : Prop := mk_running {
  run_caps : caps_wf rt;
  run_ipc : ipc_ok rt;
  run_objects : table_wf (rt_objects rt);
  run_tree : tree_wf (rt_vfs rt);
  run_config : config_ok rt;
  run_templates : templates_ok rt;
  run_active : rt_active_config rt = Some c;
  run_id : rt_generation_id rt = cf_generation_id c;
  run_process : ∃ p, live_processes (rt_processes rt) = [p] ∧ current_process (rt_processes rt) = Some p ∧
                     p_state p = PsRunning ∧ p_context p = context ∧ p_context_reaped p = false ∧
                     ∀ m, Some m ∉ p_dma_mappings p
}.

Section established.
Context (c : BootRuntimeConfig) (index : nat) (process_config : BootProcessConfig) (context : ProcessContext).
Context (rt0 rt : RuntimeState) (Hs : sized rt0) (Hwf : config_wf c) (Hshort : roots_fit c) (Hindex : index < cn_used (cf_processes c)).
Context (Hentry : counted_get (cf_processes c) index = Some process_config).
Context (Hbuilt : built c index process_config context rt0 rt).

Lemma built_single : ∃ root caps, live_processes (rt_processes rt) = [first_process process_config context 1 root caps] ∧
  current_process (rt_processes rt) = Some (first_process process_config context 1 root caps) ∧
  ∀ slot cap, cspace_lookup caps slot = Some cap →
    start_authorized c index process_config rt slot (c_object cap) (c_rights cap) ∧ c_owner cap = 1%Z ∧ live rt cap.
Proof using Hbuilt.
  clear Hs Hwf Hshort Hindex Hentry. destruct Hbuilt as (root & _ & [_ _ _ _ W (caps & Hp & Ha) I U _]). exists root, caps. split_and!; [| |done].
  - apply process_live in Hp as [Hin _]; [|apply W].
    destruct (live_processes (rt_processes rt)) as [|p [|q l]]; [done| |done]. by apply list_elem_of_singleton in Hin as ->.
  - unfold current_process. rewrite U. exact Hp.
Qed.

Lemma built_ipc : ipc_ok rt.
Proof using Hbuilt.
  destruct built_single as (root & caps & Hl & _). destruct Hbuilt as (_ & _ & [_ _ O _ W _ _ _ _]). split; [apply W| |].
  - intros id ep Hep. unfold get_endpoint in Hep. unfold find_object in Hep.
    apply first_some_Some in Hep as (i & o & Hi & Ho & Hsel & _). destruct o as [[]|]; try done. cbn in Hsel.
    unfold with_id in Hsel. destruct (_ =? _)%Z; [|done]. injection Hsel as <-.
    pose proof (on_pristine _ O i _ (conj Hi Ho)) as [Hq _]. unfold endpoint_wf. rewrite Hq. by apply queue_empty_wf.
  - intros id ep p _ Hp. rewrite Hl in Hp. by apply list_elem_of_singleton in Hp as ->.
Qed.

Lemma built_config : config_ok rt.
Proof using Hbuilt Hs Hwf Hshort.
  clear Hentry Hindex. pose proof (wf_sizes c Hwf) as Hsz. pose proof (BootConfig.sz_processes c Hsz) as [Hl Hu Hf].
  destruct Hbuilt as (root & _ & [_ C _ _ _ _ _ _ T]).
  exists c. split_and!; [done| |].
  - rewrite T, length_insert. cbn. rewrite length_map_upto, (sz_templates _ Hs). done.
  - intros i Hi. destruct (Hf i Hi) as [p Hp]. exists p.
    assert (Hin : p ∈ entries (cf_processes c)).
    { apply some_in_counted. unfold counted. apply list_elem_of_lookup. exists i. unfold counted_get in Hp.
      rewrite lookup_take_lt by done. destruct (cn_slots (cf_processes c) !! i) as [[q|]|]; cbn in Hp; congruence. }
    destruct (wf_processes c Hwf p Hin) as [Hv _]. unfold from_boot_root_path. rewrite Hv, (proj2 (Nat.ltb_ge _ _)) by (by apply Hshort, Hin). eexists. by split.
Qed.

Lemma built_templates : templates_ok rt.
Proof using Hbuilt Hs Hwf Hindex Hentry.
  intros pid p Hp. destruct built_single as (root & caps & Hl & _).
  destruct Hbuilt as (_ & _ & [_ C _ _ W _ _ _ T]).
  apply process_live in Hp as [Hin <-]; [|apply W]. rewrite Hl in Hin. apply list_elem_of_singleton in Hin as ->.
  change (p_pid (first_process process_config context 1 root caps)) with 1%Z.
  unfold process_config_for_pid. rewrite C, T. cbn [mbind option_bind].
  pose proof (BootConfig.sz_processes c (wf_sizes c Hwf)) as [_ Hu _].
  assert (Hlen : length (rt_process_template_pids (reset_runtime c rt0)) = MAX_PROCESSES)
    by (cbn; by rewrite length_map_upto, (sz_templates _ Hs)).
  rewrite (proj2 (first_index_Some _ _ _ index)); [cbn [mbind option_bind]; rewrite Hentry; by eexists|].
  split_and!; [done| |].
  - exists (Some 1%Z). rewrite list_lookup_insert_eq by lia. split; [done|]. by apply bool_decide_eq_true_2.
  - intros j o Hj Ho. rewrite list_lookup_insert_ne in Ho by lia. destruct o as [x|]; [|done]. exfalso.
    by eapply (reset_slot (rt_process_template_pids rt0)).
Qed.
Lemma built_running : generation_running c context rt.
Proof using Hs Hwf Hshort Hindex Hentry Hbuilt.
  destruct built_single as (root & caps & Hl & Hc & _). pose proof Hbuilt as (_ & _ & [G C O V W _ _ _ _]).
  split; [done|apply built_ipc|apply O|apply V|apply built_config|apply built_templates|done|done|]; try done.
  exists (first_process process_config context 1 root caps). split_and!; [done..|].
  intros m Hm. change (Some m ∈ replicate (A := option DmaUserMapping) MAX_OBJECTS None) in Hm.
  by apply elem_of_replicate in Hm as [? _].
Qed.
End established.

(** A configuration as the boot manifest gives it. *)
Record config_sound (c : BootRuntimeConfig) : Prop := mk_config_sound {
  cs_wf : config_wf c; cs_rights : rights_u64 c; cs_roots : roots_fit c }.

(** The build of an admitted configuration keeps the sizes and gives its generation. *)
Lemma build_running loader `{StoreMemory} c index process_config context log log' rt0 r rt :
  config_sound c → sized rt0 → validate_boot_config_installable c log = (Ok tt, log') →
  initial_process_index c = Ok index → counted_get (cf_processes c) index = Some process_config →
  build_boot_config_runtime loader c index process_config context rt0 = (r, rt) →
  sized rt ∧ (is_ok r = true → generation_running c context rt).
Proof.
  intros [Hwf Hu Hshort] Hs Hadm Hi%initial_index_used Hget Hrun.
  pose proof (build_first loader c index process_config context log log' Hwf Hu Hadm Hget rt0 Hs) as Hb.
  unfold mwp in Hb. rewrite Hrun in Hb. destruct r as [[]|e]; [|done]. split; [|intros _; by eapply built_running].
  destruct Hb as (root & _ & Hb). eapply first_sized; [|done]. rewrite length_insert. cbn. rewrite length_map_upto. apply Hs.
Qed.

(** C11: A generation boots into a state with all the invariants of the running system.
    When [build_boot_config_runtime] succeeds for an admitted configuration whose mount
    roots fit into a path, whatever the runtime held before, the capabilities, the
    endpoints, the objects and the file tree are well formed, the configuration and the
    templates are those of the generation, nothing is open or locked, and exactly one
    process exists: the initial one, which runs in the given context and holds only
    usable capabilities that were authorised in that slot, for that object and with
    those rights: by an admitted grant of the configuration for the object it names, or
    by a fact of its bootstrap policy, for the object and the slot the fact stands for
    (a service endpoint or secret; the manifest module in slot 0, the process control
    in slot 2, the timer in its slot). *)
Theorem boot_establishes_invariants (loader : BootLoader) `{StoreMemory} c index process_config context log log' rt0 rt :
  sized rt0 → config_wf c → rights_u64 c → roots_fit c → validate_boot_config_installable c log = (Ok tt, log') →
  initial_process_index c = Ok index → counted_get (cf_processes c) index = Some process_config →
  build_boot_config_runtime loader c index process_config context rt0 = (Ok tt, rt) →
  caps_wf rt ∧ ipc_ok rt ∧ table_wf (rt_objects rt) ∧ tree_wf (rt_vfs rt) ∧ sound_tree (rt_vfs rt) ∧
  config_ok rt ∧ templates_ok rt ∧ rt_active_config rt = Some c ∧ rt_generation_id rt = cf_generation_id c ∧
  (∀ i d, open_file_descriptions (rt_vfs rt) !! i ≠ Some (Some d)) ∧
  (∀ i l, vfs_locks (rt_vfs rt) !! i ≠ Some (Some l)) ∧
  ∃ p, live_processes (rt_processes rt) = [p] ∧ current_process (rt_processes rt) = Some p ∧ p_state p = PsRunning ∧
    p_context p = context ∧ p_name p = bp_name process_config ∧
    ∀ slot cap, cspace_lookup (p_caps p) slot = Some cap →
      start_authorized c index process_config rt slot (c_object cap) (c_rights cap) ∧ live rt cap.
Proof.
  intros Hs Hwf Hu Hshort Hadm Hi%initial_index_used Hget Hrun.
  pose proof (mwp_ok _ _ _ _ _ _ (build_first loader c index process_config context log log' Hwf Hu Hadm Hget rt0 Hs) Hrun) as Hb.
  cbn beta in Hb. destruct (built_single c index process_config context rt0 rt Hb) as (root & caps & Hl & Hc & Ha).
  pose proof Hb as (_ & _ & [G C O V W _ _ _ _]).
  split_and!; [done|by eapply built_ipc|apply O|apply V|apply tree_wf_sound, V|by eapply built_config
              |by eapply built_templates|done|done|apply V|apply V|].
  exists (first_process process_config context 1 root caps). split_and!; [done..|].
  intros slot cap (? & _ & ?)%Ha. done.
Qed.

(** * A boot *)

(** Generation [id]: two services, an endpoint, a store object and a state volume of
    [svc:app], the manifest, and the facts that allow what the initial process gets. *)
Definition zero_hash : string := "0000000000000000000000000000000000000000000000000000000000000000".
Definition boot_calls (id : string) : list (Config unit) :=
  [rmodify (set_generation_id id); rmodify (set_graph_store_hash (replicate 64 49%Z));
   rmodify (set_graph_store_source "store"); rmodify (set_policy_version BOOT_POLICY_VERSION);
   rmodify (set_policy_hash (replicate 64 49%Z)); rmodify (set_manifest_hash (replicate 64 48%Z));
   rmodify (set_manifest_module (mkBootModuleConfig "manifest" 4096 64));
   config_add_process (sample_process "init" "svc:init" true);
   config_add_process (sample_process "app" "svc:app" false);
   config_add_endpoint (mkBootEndpointConfig LOG_ENDPOINT_NAME);
   config_add_store_object (mkBootStoreObjectConfig "store:app" 8192 64 zero_hash);
   config_add_state_volume (mkBootStateVolumeConfig "state:vault" "svc:app" "1" "vertexdisk-v1" "preserve"
     "retain-forever" "owner-only");
   config_add_vfs_root (mkBootVfsRootConfig "vfs:vault" "/state/vault");
   config_add_graph_node (mkBootGraphNodeConfig GRAPH_NODE_GENERATION 0 id "");
   config_add_graph_node (mkBootGraphNodeConfig GRAPH_NODE_SERVICE 0 "svc:init" "");
   config_add_graph_node (mkBootGraphNodeConfig GRAPH_NODE_SERVICE 0 "svc:app" "");
   config_add_grant (mkBootGrantConfig 1 3 BOOT_OBJECT_VFS_ROOT 0 RIGHT_READ);
   config_add_policy_capability (mkBootPolicyCapabilityConfig "cap:vault" "svc:app" BOOT_OBJECT_VFS_ROOT 0 RIGHT_READ);
   config_add_policy_requirement (mkBootPolicyRequirementConfig "svc:app" "cap:vault" RIGHT_READ);
   config_add_policy_mount (mkBootPolicyMountConfig "svc:init" "/" "" "" 0);
   config_add_policy_mount (mkBootPolicyMountConfig "svc:app" "/" "" "" 0);
   config_add_policy_state_path (mkBootPolicyStatePathConfig "svc:app" "state:vault" "/state/vault" RIGHT_READ);
   config_add_policy_bootstrap (mkBootPolicyBootstrapConfig "svc:init" "boot-module:krustboot-manifest"
     "initial-manifest" RIGHT_READ);
   config_add_policy_bootstrap (mkBootPolicyBootstrapConfig "svc:init" "process-control" "initial-process-control"
     initial_process_control_rights);
   config_add_policy_bootstrap (mkBootPolicyBootstrapConfig "svc:init" "timer:monotonic-timer"
     "initial-restart-timer" RIGHT_CONTROL)].
Definition boot_config (id : string) : BootRuntimeConfig := config_calls (boot_calls id) boot_config_new.

Lemma boot_config_wf id : config_wf (boot_config id).
Proof.
  apply config_calls_wf. repeat (apply Forall_cons; split; [intros c; econstructor; apply surjective_pairing|]).
  apply Forall_nil_2.
Qed.

(** Facts about the entries of a table, by computing it. *)
Ltac each_listed H tac :=
  vm_compute in H; repeat (apply elem_of_cons in H as [->|H]; [tac|]); by apply elem_of_nil in H.

Ltac each_right := split; intros x Hx; each_listed Hx ltac:(vm_compute; split; discriminate).
Ltac each_root := intros p Hp; each_listed Hp ltac:(by apply Nat.leb_le).

Lemma boot_config_rights : rights_u64 (boot_config "gen-1").
Proof. each_right. Qed.

Lemma boot_config_roots : roots_fit (boot_config "gen-1").
Proof. each_root. Qed.

(** Every module the boot loader left holds the image of a VertexFS volume. *)
#[local, refine] Instance image_store : StoreMemory :=
  mkStoreMemory (λ _ n, resize n 0%Z (sample_image VERTEXFS_LAYOUT_V1)) (λ _, replicate 32 0%Z) _ _ _.
Proof.
  - intros. apply length_resize.
  - done.
  - intros. by apply Forall_replicate.
Defined.

Definition c_string (s : list byte) (i : nat) : byte := default 0%Z (s !! i).
Definition plain_loader : BootLoader :=
  mkBootLoader None None None
    (Some [Some (mkLoadedModule 65536 (Z.of_nat VERTEXFS_IMAGE_BYTES) (Some (c_string VERTEXFS_MODULE_STRING)))]).

Lemma runtime_new_sized : sized runtime_new.
Proof. split; vm_compute; reflexivity. Qed.

Definition boot_context : ProcessContext := mkProcessContext 7 4096 8192.
Definition booted_runtime : RuntimeState :=
  (build_boot_config_runtime plain_loader (boot_config "gen-1") 0 (sample_process "init" "svc:init" true) boot_context
     runtime_new).2.

Lemma booted_run :
  build_boot_config_runtime plain_loader (boot_config "gen-1") 0 (sample_process "init" "svc:init" true) boot_context
    runtime_new = (Ok tt, booted_runtime).
Proof.
  unfold booted_runtime. assert (H : match build_boot_config_runtime plain_loader (boot_config "gen-1") 0
    (sample_process "init" "svc:init" true) boot_context runtime_new with (Ok _, _) => true | _ => false end = true)
    by (vm_compute; reflexivity).
  destruct (build_boot_config_runtime _ _ _ _ _ _) as [[[]|e] rt]; [done|discriminate].
Qed.

Lemma boot_admitted :
  validate_boot_config_installable (boot_config "gen-1") denial_log_new = (Ok tt, denial_log_new).
Proof. vm_compute. reflexivity. Qed.

(** Witness of [boot_establishes_invariants]. *)
Lemma boot_establishes_invariants_witness :
  caps_wf booted_runtime ∧ ∃ p, live_processes (rt_processes booted_runtime) = [p] ∧ p_name p = "init"%string.
Proof.
  destruct (boot_establishes_invariants plain_loader (boot_config "gen-1") 0 (sample_process "init" "svc:init" true)
    boot_context denial_log_new denial_log_new runtime_new booted_runtime runtime_new_sized (boot_config_wf "gen-1")
    boot_config_rights boot_config_roots boot_admitted ltac:(vm_compute; reflexivity)
    ltac:(vm_compute; reflexivity) booted_run) as (Hc & _ & _ & _ & _ & _ & _ & _ & _ & _ & _ & p & Hl & _ & _ & _ & Hn & _).
  split; [exact Hc|]. exists p. split; [exact Hl|exact Hn].
Defined.
