(* ===== verification/GenerationProofs.v ===== *)
(** The generation manager: a call that fails leaves the running generation alone, only
    verified generations are entered, and a switch leaves a well-formed machine. *)

From S2P Require Import Prelude KernelBase Transport VfsPath KernelObjects Store ProcessRuntime.
From S2P Require Import BootConfig BootPolicy BootPolicyProofs CapRegistry VfsState Runtime Virtio Kernel ProcessMemory.
From S2P Require Import VfsNodes BootGrants BootBuild Devices ProcessSyscalls Generation ProcessTableProofs SchedulerProofs ProcessProofs.

(** * Calls that return *)

(** [c], run in [s], returns, and its result and the state after it satisfy [Q]. *)
Definition gwp `{UserMemory} {E A} (c : G E A) (Q : Result E A → System → Prop) (s : System) : Prop :=
  ∃ r s', c s = Some (r, s') ∧ Q r s'.

Section gwp.
Context `{UserMemory}.

Lemma gwp_bind {E A B} (c : G E A) (f : A → G E B) Q s :
  gwp c (λ r s', match r with Ok a => gwp (f a) Q s' | Err e => Q (Err e) s' end) s → gwp (gbind c f) Q s.
Proof. intros (r & s1 & Hc & HQ). unfold gwp, gbind. rewrite Hc. destruct r; [exact HQ|eauto]. Qed.
Lemma gwp_mono {E A} (c : G E A) (Q Q' : Result E A → System → Prop) s :
  gwp c Q s → (∀ r s', Q r s' → Q' r s') → gwp c Q' s.
Proof. intros (r & s1 & Hc & HQ) Hi. exists r, s1. auto. Qed.
Lemma gwp_done {E A} (c : G E A) (Q : Result E A → System → Prop) s r s' : c s = Some (r, s') → Q r s' → gwp c Q s.
Proof. intros Hc HQ. exists r, s'. auto. Qed.
Lemma gwp_get {E A B} (f : System → A) (k : A → G E B) Q s : gwp (k (f s)) Q s → gwp (gbind (gget f) k) Q s.
Proof. intros Hk. apply gwp_bind. by eapply gwp_done. Qed.
Lemma gwp_modify {E B} f (k : unit → G E B) Q s : gwp (k tt) Q (s <| sy_gen ::= f |>) → gwp (gbind (gmodify f) k) Q s.
Proof. intros Hk. apply gwp_bind. by eapply gwp_done. Qed.
Lemma gwp_lift {E A B} (r : Result E A) (k : A → G E B) Q s :
  (∀ e, r = Err e → Q (Err e) s) → (∀ a, r = Ok a → gwp (k a) Q s) → gwp (gbind (glift r) k) Q s.
Proof. intros He Hk. apply gwp_bind. eapply gwp_done; [done|]. destruct r; auto. Qed.
Lemma gwp_try {E F A} (c : G F A) (Q : Result E (Result F A) → System → Prop) s :
  gwp c (λ r s', Q (Ok r) s') s → gwp (gtry c) Q s.
Proof. intros (r & s1 & Hc & HQ). unfold gwp, gtry. rewrite Hc. eauto. Qed.
Lemma gwp_kernel {E A} (f : IpcError → E) (c : K A) (Q : Result E A → System → Prop) s r k :
  c (sy_kernel s) = Some (r, k) → Q (map_err f r) (s <| sy_kernel := k |>) → gwp (on_kernel f c) Q s.
Proof. intros Hc HQ. unfold gwp, on_kernel. rewrite Hc. eauto. Qed.

(** What is known of the result of a call that returned. *)
Lemma gwp_run {E A} (c : G E A) Q s r s' : gwp c Q s → c s = Some (r, s') → Q r s'.
Proof. intros (r0 & s0 & Hc & HQ) Hrun. rewrite Hrun in Hc. by injection Hc as <- <-. Qed.
End gwp.

(** * What a failed call leaves alone *)

(** Only memory the running generation does not use, the journal of the boot manager, the
    denial log and the staging area may change: the runtime, the registers and devices, the
    selected and the known good generation, and the targets of activation and rollback stay. *)
Record at_rest `{UserMemory} (s s' : System) : Prop := mk_at_rest {
  ar_kernel : sy_kernel s' = (sy_kernel s) <| ks_mem := ks_mem (sy_kernel s') |>;
  ar_runtimes : gn_runtimes (sy_gen s') = gn_runtimes (sy_gen s);
  ar_rollback : gn_rollback (sy_gen s') = gn_rollback (sy_gen s);
  ar_failed : gn_failed (sy_gen s') = gn_failed (sy_gen s);
  ar_selected : bm_selected_generation (gn_manager (sy_gen s')) = bm_selected_generation (gn_manager (sy_gen s));
  ar_known_good : bm_known_good_generation (gn_manager (sy_gen s')) = bm_known_good_generation (gn_manager (sy_gen s))
}.

#[export] Instance at_rest_preorder `{UserMemory} : PreOrder at_rest.
Proof.
  split; [intros [[] g]; by split|]. intros s1 s2 s3 [K1 T1 R1 F1 S1 N1] [K2 T2 R2 F2 S2 N2].
  split; [|congruence..]. rewrite K2, K1. done.
Qed.

Lemma at_rest_rt `{UserMemory} s s' : at_rest s s' → ks_rt (sy_kernel s') = ks_rt (sy_kernel s).
Proof. intros [K _ _ _ _ _]. by rewrite K. Qed.

Section rest.
Context `{PM : ProcessMemory, SM : StoreMemory} (loader : BootLoader).

(** Changes of the memory and of the manager's own records. *)
Lemma at_rest_mem s k m : k = (sy_kernel s) <| ks_mem := m |> → at_rest s (s <| sy_kernel := k |>).
Proof. intros ->. destruct s as [[] g]. by split. Qed.
Lemma at_rest_gen s f :
  (∀ g, gn_runtimes (f g) = gn_runtimes g ∧ gn_rollback (f g) = gn_rollback g ∧ gn_failed (f g) = gn_failed g ∧
        bm_selected_generation (gn_manager (f g)) = bm_selected_generation (gn_manager g) ∧
        bm_known_good_generation (gn_manager (f g)) = bm_known_good_generation (gn_manager g)) →
  at_rest s (s <| sy_gen ::= f |>).
Proof. intros Hf. destruct (Hf (sy_gen s)) as (? & ? & ? & ? & ?). destruct s as [[] g]. by split. Qed.

Lemma reap_contexts_run targets k :
  ∃ r m, reap_runtime_contexts targets k = Some (r, k <| ks_mem := m |>).
Proof.
  revert k. induction targets as [|t targets IH]; intros k; cbn [reap_runtime_contexts].
  - exists (Ok tt), (ks_mem k). by destruct k.
  - destruct (pm_reclaim _ _) as [[] m]; [|eauto]. destruct (IH (k <| ks_mem := m |>)) as (r & m' & ->). eauto.
Qed.

Lemma load_context_run base len k : ∃ r m, load_process_context base len k = Some (r, k <| ks_mem := m |>).
Proof.
  unfold load_process_context. destruct (_ || _); [exists (Err BadCapability), (ks_mem k); by destruct k|].
  destruct (pm_load _ _ _ _) as [c m]. eauto.
Qed.

Lemma reclaim_detached_run root k : ∃ m, reclaim_detached_address_space root k = Some (Ok tt, k <| ks_mem := m |>).
Proof.
  unfold reclaim_detached_address_space. destruct (_ =? _)%Z; [exists (ks_mem k); by destruct k|]. by eexists.
Qed.

(** The parts of a call that only look or only stage keep the system at rest. *)
Definition resting {E A} (c : G E A) : Prop := ∀ s, gwp c (λ _ s', at_rest s s') s.

Lemma resting_bind {E A B} (c : G E A) (f : A → G E B) : resting c → (∀ a, resting (f a)) → resting (gbind c f).
Proof.
  intros Hc Hf s. apply gwp_bind. eapply gwp_mono; [apply Hc|]. cbn beta. intros [a|e] s1 H1; [|done].
  eapply gwp_mono; [apply Hf|]. cbn beta. intros r s2 H2. by etransitivity.
Qed.
Lemma resting_state {E A} (c : G E A) : (∀ s, ∃ r, c s = Some (r, s)) → resting c.
Proof. intros Hc s. destruct (Hc s) as [r Hr]. by eapply gwp_done. Qed.
Lemma resting_ret {E A} (a : A) : resting (gret a : G E A).
Proof. apply resting_state. by eexists. Qed.
Lemma resting_fail {E A} (e : E) : resting (gfail e : G E A).
Proof. apply resting_state. by eexists. Qed.
Lemma resting_get {E A} (f : System → A) : resting (gget f : G E A).
Proof. apply resting_state. by eexists. Qed.
Lemma resting_lift {E A} (r : Result E A) : resting (glift r).
Proof. apply resting_state. by eexists. Qed.
Lemma resting_modify {E} f :
  (∀ g, gn_runtimes (f g) = gn_runtimes g ∧ gn_rollback (f g) = gn_rollback g ∧ gn_failed (f g) = gn_failed g ∧
        bm_selected_generation (gn_manager (f g)) = bm_selected_generation (gn_manager g) ∧
        bm_known_good_generation (gn_manager (f g)) = bm_known_good_generation (gn_manager g)) →
  resting (gmodify f : G E unit).
Proof. intros Hf s. eapply gwp_done; [done|]. by apply at_rest_gen. Qed.
Lemma resting_try {E F A} (c : G F A) : resting c → resting (gtry c : G E (Result F A)).
Proof. intros Hc s. apply gwp_try. apply Hc. Qed.
Lemma resting_kernel {E A} (f : IpcError → E) (c : K A) :
  (∀ k, ∃ r m, c k = Some (r, k <| ks_mem := m |>)) → resting (on_kernel f c).
Proof. intros Hc s. destruct (Hc (sy_kernel s)) as (r & m & Hk). eapply gwp_kernel; [done|]. by eapply at_rest_mem. Qed.
Lemma resting_denials {E A} (f : InitError → E) (c : Check A) : resting (on_denials f c).
Proof.
  intros s. unfold gwp, on_denials. destruct (c _) as [r log]. do 2 eexists. split; [done|].
  by apply (at_rest_gen s (λ g, g <| gn_denials := log |>)).
Qed.
Lemma resting_staging {E A} (f : InitError → E) (c : Init A) : resting (on_staging f c).
Proof.
  intros s. unfold gwp, on_staging. destruct (c _) as [r rt]. do 2 eexists. split; [done|].
  by apply (at_rest_gen s (λ g, g <| gn_staging := rt |>)).
Qed.
End rest.

Create HintDb resting.
#[export] Hint Resolve resting_bind resting_ret resting_fail resting_get resting_lift resting_try resting_denials
  resting_staging : resting.
#[export] Hint Extern 2 (resting (gmodify _)) => apply resting_modify; done : resting.

Section calls_rest.
Context `{PM : ProcessMemory, SM : StoreMemory} (loader : BootLoader).

Lemma copy_from_user_run cap ptr len k : ∃ r, copy_from_user cap ptr len k = Some (Ok r, k).
Proof. unfold copy_from_user. destruct (_ <? _)%Z; [eauto|]. destruct (um_valid _ _ _ _ _); eauto. Qed.

Lemma read_request_run cap generation len k :
  ∃ r, (do* kguard (len <=? Z.of_nat MAX_MESSAGE_BYTES)%Z MessageTooLarge;
        do* on_rt (process_control_from_cap cap (Z.lor RIGHT_CONTROL RIGHT_REVOKE));
        let* bytes := copy_from_user MAX_MESSAGE_BYTES generation len in
        klift (ok_or bytes InvalidUserBuffer)) k = Some (r, k).
Proof.
  unfold kguard, kbind at 1. destruct (len <=? _)%Z; [cbn [kret]|eexists; done].
  unfold kbind at 1. destruct (on_rt _ k) as [[r k1]|] eqn:Hc.
  2: { unfold on_rt in Hc. by destruct (process_control_from_cap _ _ _). }
  pose proof (control_lookup _ _ _ _ _ Hc) as ->. destruct r as [o|e]; [|eexists; done].
  unfold kbind. destruct (copy_from_user_run MAX_MESSAGE_BYTES generation len k) as [b ->]. eexists. done.
Qed.

Lemma resting_read cap generation len : resting (read_generation_request cap generation len).
Proof.
  apply resting_kernel. intros k. destruct (read_request_run cap generation len k) as [r Hr]. exists r, (ks_mem k).
  rewrite Hr. by destruct k.
Qed.

Lemma resting_verify target : resting (verify_generation_transaction target).
Proof. unfold verify_generation_transaction. auto 10 with resting. Qed.

Lemma resting_discard {E} : resting (discard_uncommitted_staged_generation (E := E)).
Proof.
  unfold discard_uncommitted_staged_generation. apply resting_bind; [auto with resting|]. intros g.
  destruct (gn_staged g); [|auto with resting]. apply resting_bind; [|auto with resting].
  apply resting_try, resting_kernel. intros k. apply reap_contexts_run.
Qed.

Lemma resting_stage_config c : resting (stage_boot_config_runtime loader c).
Proof.
  unfold stage_boot_config_runtime. apply resting_bind; [auto with resting|]. intros _.
  apply resting_bind; [auto with resting|]. intros i. apply resting_bind; [auto with resting|]. intros p.
  apply resting_bind; [apply resting_kernel; intros k; apply load_context_run|]. intros context.
  apply resting_bind; [auto with resting|]. intros old. apply resting_bind; [auto with resting|]. intros [u|e]; [auto with resting|].
  apply resting_bind; [|auto with resting]. apply resting_kernel. intros k.
  destruct (reclaim_detached_run (cr3 context) k) as (m & ->). eauto.
Qed.

Lemma resting_stage_checked target rollback reason : resting (stage_checked loader target rollback reason).
Proof.
  unfold stage_checked. apply resting_bind; [auto with resting|]. intros rt.
  destruct (validate_state_transition_policy _ _ _) as [u|e]; [|auto with resting].
  apply resting_bind; [apply resting_try, resting_stage_config|]. intros [build|e]; auto with resting.
Qed.

Lemma resting_find requested : resting (find_generation requested).
Proof. unfold find_generation. auto with resting. Qed.

Lemma resting_stage cap generation len : resting (stage_generation loader cap generation len).
Proof.
  unfold stage_generation. apply resting_bind; [apply resting_read|]. intros requested.
  apply resting_bind; [apply resting_find|]. intros target. apply resting_bind; [auto with resting|]. intros g.
  destruct (failed_generation_is _ _); [auto with resting|]. apply resting_bind; [auto with resting|]. intros rt.
  destruct (str_eqb _ _); [auto with resting|]. apply resting_bind; [apply resting_discard|]. intros _.
  apply resting_bind; [auto with resting|]. intros _. apply resting_bind; [apply resting_try, resting_verify|].
  intros [u|e]; [apply resting_stage_checked|auto with resting].
Qed.

Lemma resting_stage_rollback cap generation len : resting (stage_rollback_generation loader cap generation len).
Proof.
  unfold stage_rollback_generation. apply resting_bind; [apply resting_read|]. intros requested.
  apply resting_bind; [auto with resting|]. intros g. apply resting_bind; [auto with resting|]. intros rollback.
  destruct (negb _); [auto with resting|]. apply resting_bind; [auto with resting|]. intros rt.
  apply resting_bind; [apply resting_discard|]. intros _. apply resting_bind; [auto with resting|]. intros _.
  apply resting_stage_checked.
Qed.

Lemma resting_verify_call cap generation len : resting (verify_generation cap generation len).
Proof.
  unfold verify_generation. apply resting_bind; [apply resting_read|]. intros requested.
  apply resting_bind; [apply resting_find|]. intros target. apply resting_bind; [auto with resting|]. intros g.
  destruct (failed_generation_is _ _); [auto with resting|apply resting_verify].
Qed.

Lemma resting_staged rollback requested : resting (staged_or_fail rollback requested).
Proof.
  unfold staged_or_fail. apply resting_bind; [auto with resting|]. intros g.
  destruct (gn_staged g); [|auto with resting]. destruct (staged_is _ _ _); auto with resting.
Qed.

(** ** The commit returns *)

Lemma release_dma_mapping_run owner m k : ∃ k', release_dma_mapping owner m k = Some (Ok tt, k').
Proof.
  unfold release_dma_mapping, kbind, zero_dma_physical_range. destruct (_ =? _)%Z; [by eexists|].
  destruct (pm_zero _ _ _). by eexists.
Qed.

Lemma release_dma_slots_run left : ∀ slot pid k, ∃ k', release_dma_slots left slot pid k = Some (Ok tt, k').
Proof.
  induction left as [|left IH]; intros slot pid k; cbn [release_dma_slots]; [eauto|].
  destruct (process_index _ _); [|eauto]. destruct (mjoin _) as [p|]; [|eauto].
  destruct (take_dma_mapping p slot) as [[m|] p']; unfold kbind; [|cbn [kret]; apply IH].
  destruct (release_dma_mapping_run pid m (k <| ks_rt ::= λ rt, rt <| rt_processes ::= λ t, modify_process_at t n (λ _, p') |> |>))
    as [k1 ->]. apply IH.
Qed.

Lemma release_all_dma_run k : ∃ k', release_all_runtime_dma_mappings k = Some (Ok tt, k').
Proof.
  unfold release_all_runtime_dma_mappings. generalize (S MAX_PROCESSES) as left, 0 as i. intros left.
  revert k. induction left as [|left IH]; intros k i; cbn [release_dma_processes]; [eauto|].
  destruct (_ <=? _); [eauto|]. destruct (mjoin _) as [p|]; [|apply IH]. unfold kbind.
  destruct (release_dma_slots_run MAX_OBJECTS 0 (p_pid p) k) as [k1 Hk1].
  unfold release_process_dma_mappings. rewrite Hk1. apply IH.
Qed.

Lemma out_byte_gwp {E} port value (Q : Result E unit → System → Prop) s :
  Q (Ok tt) (s <| sy_kernel ::= λ k, k <| ks_devices ::= out_port port 1 value |> |>) → gwp (out_byte port value) Q s.
Proof. intros HQ. by eapply gwp_done. Qed.

(** What the interrupt masks leave alone. *)
Record masks_only (s s' : System) : Prop := mk_masks_only {
  mm_kernel : ∃ d, sy_kernel s' = (sy_kernel s) <| ks_devices := d |>;
  mm_gen : ∃ m1 m2, sy_gen s' = (sy_gen s) <| gn_pic1_mask := m1 |> <| gn_pic2_mask := m2 |>
}.
#[export] Instance masks_only_preorder : PreOrder masks_only.
Proof.
  split.
  - intros [k g]. split; [exists (ks_devices k); by destruct k|exists (gn_pic1_mask g), (gn_pic2_mask g); by destruct g].
  - intros s1 s2 s3 [(d & K1) (m & n & G1)] [(d' & K2) (m' & n' & G2)]. split.
    + exists d'. by rewrite K2, K1.
    + exists m', n'. by rewrite G2, G1.
Qed.

Definition masking {E} (c : G E unit) : Prop := ∀ s, gwp c (λ r s', r = Ok tt ∧ masks_only s s') s.

Lemma masking_bind {E} (c : G E unit) (f : G E unit) : masking c → masking f → masking (gbind c (λ _, f)).
Proof.
  intros Hc Hf s. apply gwp_bind. eapply gwp_mono; [apply Hc|]. cbn beta. intros r s1 [-> H1].
  eapply gwp_mono; [apply Hf|]. cbn beta. intros r s2 [-> H2]. split; [done|by etransitivity].
Qed.
Lemma masking_modify {E} f (m1 m2 : GenerationState → Z) :
  (∀ g, f g = g <| gn_pic1_mask := m1 g |> <| gn_pic2_mask := m2 g |>) → masking (gmodify f : G E unit).
Proof.
  intros Hf s. eapply gwp_done; [done|]. split; [done|]. split; [|exists (m1 (sy_gen s)), (m2 (sy_gen s)); apply Hf].
  exists (ks_devices (sy_kernel s)). by destruct s as [[] g].
Qed.
Lemma masking_out {E} port value : masking (out_byte (E := E) port value).
Proof.
  intros s. eapply gwp_done; [done|]. split; [done|]. split; [by eexists|].
  exists (gn_pic1_mask (sy_gen s)), (gn_pic2_mask (sy_gen s)). by destruct s as [k []].
Qed.
Lemma masking_get {E A} (f : System → A) (c : A → G E unit) : (∀ a, masking (c a)) → masking (gbind (gget f) c).
Proof. intros Hc s. apply gwp_get. apply Hc. Qed.

Lemma masking_reset {E} : masking (reset_legacy_irq_masks (E := E)).
Proof.
  apply masking_bind; [by apply (masking_modify _ (λ _, PIC_MASTER_IRQ0_ONLY) (λ _, PIC_SLAVE_ALL_MASKED))|].
  apply masking_bind; apply masking_out.
Qed.

Lemma masking_enable {E} line : masking (enable_legacy_irq (E := E) line).
Proof.
  unfold enable_legacy_irq. destruct (_ <? _)%Z; [|destruct (_ <? _)%Z].
  - apply masking_bind; [apply (masking_modify _ (λ g, Z.clearbit (gn_pic1_mask g) line) gn_pic2_mask); by intros []|].
    apply masking_get. intros g. apply masking_out.
  - apply masking_bind; [apply (masking_modify _ (λ g, Z.clearbit (gn_pic1_mask g) 2)
                                 (λ g, Z.clearbit (gn_pic2_mask g) (line - 8))); by intros []|].
    apply masking_get. intros g. apply masking_bind; apply masking_out.
  - intros s. by eapply gwp_done.
Qed.

Lemma masking_install {E} c : masking (install_runtime_interrupt_masks (E := E) c).
Proof.
  apply masking_bind; [apply masking_reset|]. induction (counted (cf_interrupt_lines c)) as [|[line|] l IH]; cbn [enable_lines].
  - intros s. by eapply gwp_done.
  - apply masking_bind; [apply masking_enable|done].
  - intros s. by eapply gwp_done.
Qed.

(** The state after a commit. *)
Record committed (c : BootRuntimeConfig) (build : StagingBuild) (s s' : System) : Prop := mk_committed {
  cm_kernel : ∃ k d, release_all_runtime_dma_mappings (sy_kernel s) = Some (Ok tt, k) ∧
    let k := k <| ks_rt := gn_staging (sy_gen s) |> <| ks_devices := d |> in
    (sb_old_contexts build = [] ∧ sy_kernel s' = k) ∨
    (sb_old_contexts build ≠ [] ∧
     ∃ r, reap_runtime_contexts (sb_old_contexts build) (k <| ks_cr3 := cr3 (sb_initial_context build) |>) =
            Some (r, sy_kernel s'));
  cm_gen : ∃ m1 m2, sy_gen s' =
    (update_manager (start_boot (cf_generation_id c)) (sy_gen s)) <| gn_pic1_mask := m1 |> <| gn_pic2_mask := m2 |>
}.

Lemma commit_gwp {E} (fail : IpcError → E) c build s :
  gwp (commit_staged_boot_config_runtime fail c build) (λ r s', r = Ok tt ∧ committed c build s s') s.
Proof.
  unfold commit_staged_boot_config_runtime. apply gwp_modify. apply gwp_bind.
  destruct (release_all_dma_run (sy_kernel s)) as [k Hk]. eapply gwp_kernel; [exact Hk|]. cbn [map_err]. apply gwp_get.
  apply gwp_bind. eapply gwp_kernel; [done|]. cbn [map_err]. apply gwp_bind.
  eapply gwp_mono; [apply masking_install|]. cbn beta. intros r s1 [-> [(d & K1) (m1 & m2 & G1)]].
  assert (sy_kernel s1 = k <| ks_rt := gn_staging (sy_gen s) |> <| ks_devices := d |>) as K2 by exact K1.
  case_bool_decide as Hold.
  - eapply gwp_done; [done|]. split; [done|]. split; [|eauto]. exists k, d. split; [done|]. left. done.
  - apply gwp_bind. eapply gwp_kernel; [done|]. cbn [map_err]. apply gwp_bind. apply gwp_try.
    destruct (reap_contexts_run (sb_old_contexts build) ((sy_kernel s1) <| ks_cr3 := cr3 (sb_initial_context build) |>))
      as (r & m & Hr). eapply gwp_kernel; [exact Hr|]. eapply gwp_done; [done|]. split; [done|]. split; [|eauto].
    exists k, d. split; [done|]. right. split; [done|]. exists r. rewrite <-K2. exact Hr.
Qed.
End calls_rest.
