(* ===== verification/SwitchProofs.v ===== *)
(** The switch of generations: what is staged was checked, and what a switch enters is the
    well-formed runtime of that generation. *)

From S2P Require Import Prelude KernelBase Transport VfsPath KernelObjects Store ProcessRuntime.
From S2P Require Import BootConfig BootPolicy BootPolicyProofs CapRegistry VfsState Runtime Virtio Kernel ProcessMemory.
From S2P Require Import VfsNodes BootGrants BootBuild Devices ProcessSyscalls Generation BuildProofs GenerationProofs.

(** * What the checks decide *)

(** The files of a generation are those its hashes name. *)
Definition manifest_intact `{StoreMemory} (c : BootRuntimeConfig) : Prop :=
  ∃ m, cf_manifest_module c = Some m ∧ bmo_length m ≠ 0%Z ∧
    store_hash_hex (blake3 (loaded_bytes (bmo_base m) (Z.to_nat (bmo_length m)))) = cf_manifest_hash c.
Definition object_intact `{StoreMemory} (o : BootStoreObjectConfig) : Prop :=
  bso_length o ≠ 0%Z ∧ store_hash_matches (loaded_bytes (bso_base o) (Z.to_nat (bso_length o))) (bso_hash o) = true.
Definition store_intact `{StoreMemory} (c : BootRuntimeConfig) : Prop :=
  cn_used (cf_store_objects c) ≠ 0 ∧
  ∀ o, o ∈ counted (cf_store_objects c) → ∃ object, o = Some object ∧ object_intact object.

Lemma verify_manifest_spec `{StoreMemory} c : verify_generation_manifest c = Ok tt ↔ manifest_intact c.
Proof.
  unfold verify_generation_manifest, manifest_intact, res_guard. destruct (cf_manifest_module c) as [m|]; cbn.
  2: { split; [done|by intros (? & ? & _)]. }
  destruct (bmo_length m =? 0)%Z eqn:Hl; cbn.
  - split; [done|]. intros (m' & [= <-] & Hn & _). by apply Z.eqb_eq in Hl.
  - apply Z.eqb_neq in Hl. unfold bytes_eqb. case_bool_decide as Hb; split; try done; intros Hm.
    + by exists m.
    + by destruct Hm as (m' & [= <-] & _ & He).
Qed.

Lemma verify_objects_spec `{StoreMemory} l :
  verify_store_objects l = Ok tt ↔ ∀ o, o ∈ l → ∃ object, o = Some object ∧ object_intact object.
Proof.
  induction l as [|[object|] l IH]; cbn [verify_store_objects]; unfold res_guard.
  - split; [|done]. by intros _ o ?%not_elem_of_nil.
  - unfold object_intact at 1. split.
    + destruct (bso_length object =? 0)%Z eqn:Hl; [done|]. cbn. destruct (store_hash_matches _ _) eqn:Hm; [|done]. cbn.
      rewrite IH. intros Hr o [->|Ho]%elem_of_cons; [|by apply Hr]. exists object. apply Z.eqb_neq in Hl. done.
    + intros Ho. destruct (Ho (Some object)) as (? & [= <-] & Hl & Hm); [by left|].
      apply Z.eqb_neq in Hl. rewrite Hl, Hm. cbn. apply IH. intros o ?. apply Ho. by right.
  - split; [done|]. intros Ho. by destruct (Ho None) as (? & ? & _); [left|].
Qed.

Lemma verify_closure_spec `{StoreMemory} c : verify_generation_store_closure c = Ok tt ↔ store_intact c.
Proof.
  unfold verify_generation_store_closure, store_intact. rewrite <-verify_objects_spec. unfold res_guard.
  destruct (cn_used _ =? 0) eqn:Hu; cbn.
  - apply Nat.eqb_eq in Hu. split; [done|]. by intros [? _].
  - apply Nat.eqb_neq in Hu. naive_solver.
Qed.

(** ** The state policy *)

(** No volume of [previous] is lost or reinterpreted under [target]: a volume whose schema
    changes says that it migrates, unless this is a rollback, and a volume that goes away
    is not one to delete. *)
Definition volume_kept (previous : BootRuntimeConfig) (rollback : bool) (t : BootStateVolumeConfig) : Prop :=
  ∀ p, find_state_volume previous (svc_id t) = Some p →
    svc_schema_version p = svc_schema_version t ∨ rollback = true ∨ svc_migration_policy t = "migrate"%string.
Definition volume_retained (target : BootRuntimeConfig) (p : BootStateVolumeConfig) : Prop :=
  find_state_volume target (svc_id p) = None → svc_retention_policy p ≠ "delete-when-unreferenced"%string.
Definition state_carried (previous target : BootRuntimeConfig) (rollback : bool) : Prop :=
  (∀ o, o ∈ counted (cf_state_volumes target) → ∃ t, o = Some t ∧ volume_kept previous rollback t) ∧
  (∀ o, o ∈ counted (cf_state_volumes previous) → ∃ p, o = Some p ∧ volume_retained target p).

Lemma check_target_spec previous rollback l :
  check_target_volumes previous rollback l = Ok tt ↔ ∀ o, o ∈ l → ∃ t, o = Some t ∧ volume_kept previous rollback t.
Proof.
  induction l as [|[t|] l IH]; cbn [check_target_volumes].
  - split; [|done]. by intros _ o ?%not_elem_of_nil.
  - assert (Hc : (∀ o, o ∈ Some t :: l → ∃ t', o = Some t' ∧ volume_kept previous rollback t') ↔
                 volume_kept previous rollback t ∧ check_target_volumes previous rollback l = Ok tt).
    { rewrite IH. split.
      - intros Ho. split; [destruct (Ho (Some t)) as (? & [= <-] & ?); [by left|done]|]. intros o ?. apply Ho. by right.
      - intros [Ht Ho] o [->|?]%elem_of_cons; eauto. }
    rewrite Hc. unfold volume_kept. destruct (find_state_volume previous (svc_id t)) as [p|].
    + destruct (str_eqb (svc_schema_version p) _) eqn:Hs; [apply str_eqb_true in Hs; naive_solver|].
      destruct rollback; [naive_solver|]. destruct (str_eqb (svc_migration_policy t) _) eqn:Hm; [apply str_eqb_true in Hm; naive_solver|].
      cbn. split; [done|]. intros [Hp _]. apply str_eqb_false in Hs, Hm. by destruct (Hp p eq_refl) as [?|[?|?]].
    + naive_solver.
  - split; [done|]. intros Ho. by destruct (Ho None) as (? & ? & _); [left|].
Qed.

Lemma check_previous_spec target l :
  check_previous_volumes target l = Ok tt ↔ ∀ o, o ∈ l → ∃ p, o = Some p ∧ volume_retained target p.
Proof.
  induction l as [|[p|] l IH]; cbn [check_previous_volumes].
  - split; [|done]. by intros _ o ?%not_elem_of_nil.
  - assert (Hc : (∀ o, o ∈ Some p :: l → ∃ p', o = Some p' ∧ volume_retained target p') ↔
                 volume_retained target p ∧ check_previous_volumes target l = Ok tt).
    { rewrite IH. split.
      - intros Ho. split; [destruct (Ho (Some p)) as (? & [= <-] & ?); [by left|done]|]. intros o ?. apply Ho. by right.
      - intros [Ht Ho] o [->|?]%elem_of_cons; eauto. }
    rewrite Hc. unfold volume_retained. destruct (find_state_volume target (svc_id p)) as [t|]; [naive_solver|].
    destruct (str_eqb _ _) eqn:Hs; [|apply str_eqb_false in Hs; naive_solver]. apply str_eqb_true in Hs. naive_solver.
  - split; [done|]. intros Ho. by destruct (Ho None) as (? & ? & _); [left|].
Qed.

Definition state_policy (previous : option BootRuntimeConfig) (target : BootRuntimeConfig) (rollback : bool) : Prop :=
  match previous with None => True | Some previous => state_carried previous target rollback end.

Lemma state_policy_spec previous target rollback :
  validate_state_transition_policy previous target rollback = Ok tt ↔ state_policy previous target rollback.
Proof.
  destruct previous as [previous|]; [|done]. unfold state_policy, state_carried.
  rewrite <-check_target_spec, <-check_previous_spec. cbn [validate_state_transition_policy].
  destruct (check_target_volumes _ _ _) as [[]|]; cbn [res_bind]; naive_solver.
Qed.

(** * The invariant of the manager *)

Section manager.
Context `{PM : ProcessMemory, SM : StoreMemory} (loader : BootLoader).

(** A generation goes by the name its configuration carries. *)
Record generation_sound (r : GenerationRuntime) : Prop := mk_generation_sound {
  gs_named : gr_generation_id r = cf_generation_id (gr_config r);
  gs_config : config_sound (gr_config r)
}.

(** The checks of [verify_generation_transaction]. *)
Record verified (c : BootRuntimeConfig) : Prop := mk_verified {
  vf_installable : ∃ log log', validate_boot_config_installable c log = (Ok tt, log');
  vf_manifest : manifest_intact c;
  vf_store : store_intact c
}.

(** What may be activated: a registered, verified generation other than the running one
    and than the one that failed. *)
Record activatable (rt : RuntimeState) (g : GenerationState) (r : GenerationRuntime) : Prop := mk_activatable {
  ac_registered : generation_find (gn_runtimes g) (string_bytes (gr_generation_id r)) = Some r;
  ac_failed : gn_failed g ≠ Some (gr_generation_id r);
  ac_other : gr_generation_id r ≠ rt_generation_id rt;
  ac_verified : verified (gr_config r)
}.

Definition target_of (staged : StagedGeneration) : GenerationRuntime :=
  mkGenerationRuntime (sg_generation_id staged) (sg_config staged).

Definition eligible (rollback : bool) (rt : RuntimeState) (g : GenerationState) (r : GenerationRuntime) : Prop :=
  if rollback then gn_rollback g = Some r else activatable rt g r.

(** What is staged was checked against what runs, and is what the staging area holds. *)
Record staged_ok (rt : RuntimeState) (g : GenerationState) (staged : StagedGeneration) : Prop := mk_staged_ok {
  so_sound : generation_sound (target_of staged);
  so_eligible : eligible (sg_rollback staged) rt g (target_of staged);
  so_previous : sg_previous_generation staged = rt_generation_id rt;
  so_previous_config : sg_previous_config staged = rt_active_config rt;
  so_policy : state_policy (rt_active_config rt) (sg_config staged) (sg_rollback staged);
  so_running : generation_running (sg_config staged) (sb_initial_context (sg_build staged)) (gn_staging g)
}.

Record known_generations (rt : RuntimeState) (g : GenerationState) : Prop := mk_known_generations {
  kg_table : ∀ i r, gt_entries (gn_runtimes g) !! i = Some (Some r) → generation_sound r;
  kg_rollback : ∀ r, gn_rollback g = Some r → generation_sound r;
  kg_running : ∀ c, rt_active_config rt = Some c → generation_sound (mkGenerationRuntime (rt_generation_id rt) c);
  kg_staging : sized (gn_staging g)
}.

Record manager_ok (s : System) : Prop := mk_manager_ok {
  mo_known : known_generations (ks_rt (sy_kernel s)) (sy_gen s);
  mo_staged : ∀ staged, gn_staged (sy_gen s) = Some staged → staged_ok (ks_rt (sy_kernel s)) (sy_gen s) staged
}.

Lemma find_sound rt g requested r :
  known_generations rt g → generation_find (gn_runtimes g) requested = Some r →
  generation_sound r ∧ string_bytes (gr_generation_id r) = requested.
Proof.
  intros Hk Hf. apply first_some_Some in Hf as (i & [r'|] & _ & Hi & Hr & _); [|done]. unfold bytes_eqb in Hr.
  case_bool_decide; [|done]. injection Hr as <-. split; [by eapply kg_table|done].
Qed.

(** ** Steps that stage nothing *)

(** At rest, with the sizes of the staging area kept. *)
Record settled (s s' : System) : Prop := mk_settled {
  se_rest : at_rest s s';
  se_sized : sized (gn_staging (sy_gen s)) → sized (gn_staging (sy_gen s'))
}.

#[export] Instance settled_preorder : PreOrder settled.
Proof.
  split; [intros s; by split|]. intros s1 s2 s3 [R1 S1] [R2 S2]. split; [by etransitivity|auto].
Qed.

Lemma known_settled s s' :
  settled s s' → known_generations (ks_rt (sy_kernel s)) (sy_gen s) → known_generations (ks_rt (sy_kernel s')) (sy_gen s').
Proof.
  intros [Hr Hs] [T B R Z]. rewrite (at_rest_rt _ _ Hr). destruct Hr as [_ Ht Hb _ _ _]. split; [by rewrite Ht|by rewrite Hb|done|auto].
Qed.

Lemma eligible_rest rollback s s' r :
  at_rest s s' → eligible rollback (ks_rt (sy_kernel s)) (sy_gen s) r →
  eligible rollback (ks_rt (sy_kernel s')) (sy_gen s') r.
Proof.
  intros Hr. rewrite (at_rest_rt _ _ Hr). destruct Hr as [_ Ht Hb Hf _ _]. unfold eligible. destruct rollback; [by rewrite Hb|].
  intros [R F O V]. split; [by rewrite Ht|by rewrite Hf|done|done].
Qed.

(** Nothing is staged after a settled step, or what was staged still is. *)
Lemma manager_settled s s' :
  manager_ok s → settled s s' →
  (gn_staged (sy_gen s') = gn_staged (sy_gen s) ∧ gn_staging (sy_gen s') = gn_staging (sy_gen s)) ∨ gn_staged (sy_gen s') = None →
  manager_ok s'.
Proof.
  intros [K S] Hs Hst. split; [by eapply known_settled|]. intros staged Hg. destruct Hst as [[He Ha]|He]; [|by rewrite He in Hg].
  rewrite He in Hg. destruct (S _ Hg) as [P1 P2 P3 P4 P5 P6]. pose proof (se_rest _ _ Hs) as Hr.
  split; [done|by eapply eligible_rest|rewrite (at_rest_rt _ _ Hr)..|by rewrite Ha]; done.
Qed.

(** ** Verification and staging *)

(** A step that touches nothing the staging area holds. *)
Record unstaged (s s' : System) : Prop := mk_unstaged {
  us_rest : at_rest s s';
  us_kernel : sy_kernel s' = sy_kernel s;
  us_staging : gn_staging (sy_gen s') = gn_staging (sy_gen s);
  us_staged : gn_staged (sy_gen s') = gn_staged (sy_gen s)
}.

Lemma unstaged_settled s s' : unstaged s s' → settled s s'.
Proof. intros [R _ A _]. split; [done|by rewrite A]. Qed.
Lemma unstaged_manager s s' : manager_ok s → unstaged s s' → manager_ok s'.
Proof. intros Hm Hu. eapply manager_settled; [done|by apply unstaged_settled|]. left. destruct Hu. done. Qed.
Lemma unstaged_refl s : unstaged s s.
Proof. by split. Qed.
Lemma unstaged_update s f :
  (∀ b, bm_selected_generation (f b) = bm_selected_generation b ∧ bm_known_good_generation (f b) = bm_known_good_generation b) →
  unstaged s (s <| sy_gen ::= update_manager f |>).
Proof.
  intros Hf. split; [|done..]. apply at_rest_gen. intros g. destruct (Hf (gn_manager g)). done.
Qed.

Lemma read_gwp cap generation len (Q : Result IpcError (list byte) → System → Prop) s :
  (∀ r, Q r s) → gwp (read_generation_request cap generation len) Q s.
Proof.
  intros HQ. destruct (read_request_run cap generation len (sy_kernel s)) as [r Hr].
  unfold gwp, read_generation_request, on_kernel. rewrite Hr. exists (map_err id r), s. split; [by destruct s|done].
Qed.

Lemma find_gwp requested (Q : Result IpcError GenerationRuntime → System → Prop) s :
  Q (ok_or (generation_find (gn_runtimes (sy_gen s)) requested) BadCapability) s → gwp (find_generation requested) Q s.
Proof. intros HQ. unfold find_generation. apply gwp_get. by eapply gwp_done. Qed.

Lemma denials_gwp {E A} (f : InitError → E) (c : Check A) (Q : Result E A → System → Prop) s :
  (∀ r log, c (gn_denials (sy_gen s)) = (r, log) → ∀ s', unstaged s s' → Q (map_err f r) s') → gwp (on_denials f c) Q s.
Proof.
  intros HQ. unfold gwp, on_denials. destruct (c _) as [r log] eqn:Hc. do 2 eexists. split; [done|].
  apply (HQ r log eq_refl). split; [|done..]. by apply (at_rest_gen s (λ g, g <| gn_denials := log |>)).
Qed.

Lemma verify_gwp target s :
  gwp (verify_generation_transaction target) (λ r s', unstaged s s' ∧ (r = Ok tt → verified (gr_config target))) s.
Proof.
  unfold verify_generation_transaction. apply gwp_bind, denials_gwp. intros r log Hv s1 H1.
  destruct r as [[]|e]; cbn [map_err]; [|by split]. apply gwp_lift; [by split|]. intros [] Hm%verify_manifest_spec.
  eapply gwp_done; [done|]. split; [done|]. intros Hs%verify_closure_spec. split; eauto.
Qed.

Lemma discard_gwp {E} s :
  gwp (discard_uncommitted_staged_generation (E := E))
    (λ r s', r = Ok tt ∧ at_rest s s' ∧ gn_staging (sy_gen s') = gn_staging (sy_gen s) ∧ gn_staged (sy_gen s') = None) s.
Proof.
  unfold discard_uncommitted_staged_generation. apply gwp_get. destruct (gn_staged _) as [st|] eqn:Hst; [|by eapply gwp_done].
  apply gwp_bind, gwp_try. destruct (reap_contexts_run (runtime_reap_targets (gn_staging (sy_gen s))) (sy_kernel s)) as (r & m & Hr).
  eapply gwp_kernel; [exact Hr|]. eapply gwp_done; [done|]. split_and!; [done| |done|done].
  transitivity (s <| sy_kernel := (sy_kernel s) <| ks_mem := m |> |>); [by eapply at_rest_mem|by apply at_rest_gen].
Qed.

(** A build changes the staging area alone, and leaves the runtime of its generation there. *)
Lemma stage_config_gwp c s :
  config_sound c → sized (gn_staging (sy_gen s)) →
  gwp (stage_boot_config_runtime loader c)
    (λ r s', at_rest s s' ∧ gn_staged (sy_gen s') = gn_staged (sy_gen s) ∧ sized (gn_staging (sy_gen s')) ∧
       ∀ build, r = Ok build → generation_running c (sb_initial_context build) (gn_staging (sy_gen s'))) s.
Proof.
  intros Hc Hs. unfold stage_boot_config_runtime. apply gwp_bind, denials_gwp. intros r log Hv s1 [R1 _ A1 T1].
  rewrite <-A1 in Hs. assert (Hfail : ∀ e : InitError, at_rest s s1 ∧ gn_staged (sy_gen s1) = gn_staged (sy_gen s) ∧ sized (gn_staging (sy_gen s1)) ∧
       ∀ build, Err e = Ok build → generation_running c (sb_initial_context build) (gn_staging (sy_gen s1))) by (intros e; by split_and!).
  destruct r as [[]|e]; cbn [map_err]; [|apply Hfail]. apply gwp_lift; [intros; apply Hfail|]. intros index Hi.
  apply gwp_lift; [intros; apply Hfail|]. intros p Hp. apply ok_or_ok in Hp. apply gwp_bind.
  destruct (load_context_run (bp_image_base p) (bp_image_length p) (sy_kernel s1)) as (r & m & Hl).
  eapply gwp_kernel; [exact Hl|]. pose proof (at_rest_mem s1 _ m eq_refl) as R2.
  set (s2 := s1 <| sy_kernel := _ |>) in *. destruct r as [context|e]; cbn [map_err];
    [|by split_and!; [etransitivity|..]].
  apply gwp_get. apply gwp_bind, gwp_try. unfold gwp at 1, on_staging.
  destruct (build_boot_config_runtime loader c index p context (gn_staging (sy_gen s2))) as [r rt] eqn:Hb.
  destruct (build_running _ _ _ _ _ _ _ _ _ _ Hc Hs Hv Hi Hp Hb) as [Hz Hrun].
  do 2 eexists. split; [done|]. assert (R3 : at_rest s2 (s2 <| sy_gen ::= λ g, g <| gn_staging := rt |> |>)) by (by apply at_rest_gen).
  destruct r as [[]|e]; cbn [map_err].
  - eapply gwp_done; [done|]. split_and!; [by do 2 (etransitivity; [done|])|done|done|]. intros build [= <-]. by apply Hrun.
  - apply gwp_bind. set (s3 := s2 <| sy_gen ::= _ |>) in *. destruct (reclaim_detached_run (cr3 context) (sy_kernel s3)) as (m' & Hk).
    eapply gwp_kernel; [exact Hk|]. cbn [map_err]. eapply gwp_done; [done|].
    split_and!; [by do 3 (etransitivity; [done|]); apply at_rest_mem with m'|done|done|done].
Qed.

(** ** The staging calls *)

Lemma stage_checked_gwp target rollback reason s :
  known_generations (ks_rt (sy_kernel s)) (sy_gen s) → gn_staged (sy_gen s) = None → generation_sound target →
  eligible rollback (ks_rt (sy_kernel s)) (sy_gen s) target →
  gwp (stage_checked loader target rollback reason) (λ _ s', manager_ok s' ∧ at_rest s s') s.
Proof.
  intros Hk Hn Ht He. unfold stage_checked. apply gwp_get. destruct target as [id c].
  assert (Habort : ∀ s' f, settled s s' → gn_staged (sy_gen s') = None →
    (∀ b, bm_selected_generation (f b) = bm_selected_generation b ∧ bm_known_good_generation (f b) = bm_known_good_generation b) →
    gwp (do^ gmodify (update_manager f); gfail BadCapability : G IpcError unit) (λ _ s', manager_ok s' ∧ at_rest s s') s').
  { intros s' f [R Z] N Hf. apply gwp_modify. eapply gwp_done; [done|].
    destruct (unstaged_update s' f Hf) as [R' _ A' N']. split; [|by etransitivity].
    apply (manager_settled s); [split; [done|by rewrite Hn]|split; [by etransitivity|by rewrite A']|right; by rewrite N']. }
  destruct (validate_state_transition_policy _ _ _) as [[]|e] eqn:Hp; [|by apply Habort].
  apply state_policy_spec in Hp. apply gwp_bind, gwp_try.
  eapply gwp_mono; [apply stage_config_gwp; [by apply Ht|apply Hk]|]. cbn beta. intros r s1 (R1 & N1 & Z1 & Hrun).
  rewrite Hn in N1. assert (Hs1 : settled s s1) by (by split). destruct r as [build|e]; [|by apply Habort].
  eapply gwp_done; [done|]. set (staged := mkStagedGeneration _ _ _ _ _ _ _).
  assert (R2 : at_rest s1 (s1 <| sy_gen ::= λ g, g <| gn_staged := Some staged |> |>)) by (by apply at_rest_gen).
  split; [|by etransitivity]. destruct (known_settled _ _ Hs1 Hk) as [K1 K2 K3 K4].
  pose proof (eligible_rest rollback _ _ _ (transitivity R1 R2) He) as He2. pose proof (at_rest_rt _ _ R1) as Hrt.
  split; [done|]. intros ? [= <-]. split; [done|done|..]; cbn [sg_previous_generation sg_previous_config sg_config sg_rollback staged];
    change (ks_rt (sy_kernel (s1 <| sy_gen ::= _ |>))) with (ks_rt (sy_kernel s1)); [by rewrite Hrt..|]. by apply (Hrun build).
Qed.

(** The staged generation is discarded and the preparation noted. *)
Lemma prepare_gwp {B} previous target (k : unit → G IpcError B) Q s :
  known_generations (ks_rt (sy_kernel s)) (sy_gen s) →
  (∀ s', known_generations (ks_rt (sy_kernel s')) (sy_gen s') → gn_staged (sy_gen s') = None → at_rest s s' → gwp (k tt) Q s') →
  gwp (do^ discard_uncommitted_staged_generation; gbind (gmodify (update_manager (install_prepare previous target))) k) Q s.
Proof.
  intros Hk HQ. apply gwp_bind. eapply gwp_mono; [apply discard_gwp|]. cbn beta. intros r s1 (-> & R1 & A1 & N1).
  apply gwp_modify. destruct (unstaged_update s1 (install_prepare previous target)) as [R2 _ A2 N2]; [done|].
  set (s2 := s1 <| sy_gen ::= _ |>) in *. assert (R3 : at_rest s s2) by (by etransitivity).
  apply HQ; [apply (known_settled s); [split; [done|by rewrite A2, A1]|done]|by rewrite N2|done].
Qed.

Lemma stage_gwp cap generation len s :
  manager_ok s → gwp (stage_generation loader cap generation len) (λ _ s', manager_ok s' ∧ at_rest s s') s.
Proof.
  intros Hm. unfold stage_generation. apply gwp_bind, read_gwp. intros [requested|e]; [|by split].
  apply gwp_bind, find_gwp. destruct (generation_find _ _) as [target|] eqn:Hf; cbn [ok_or]; [|by split].
  destruct (find_sound _ _ _ _ (mo_known _ Hm) Hf) as [Ht Hid]. apply gwp_get. unfold failed_generation_is.
  case_bool_decide as Hfail; [by eapply gwp_done|]. apply gwp_get. destruct (str_eqb _ _) eqn:Hr; [by eapply gwp_done|].
  apply str_eqb_false in Hr. apply prepare_gwp; [apply Hm|]. intros s1 K1 N1 R1. apply gwp_bind, gwp_try.
  eapply gwp_mono; [apply verify_gwp|]. cbn beta. intros r s2 [U2 Hv]. pose proof (us_rest _ _ U2) as R2.
  assert (R : at_rest s s2) by (by etransitivity). pose proof (known_settled _ _ (unstaged_settled _ _ U2) K1) as K2.
  assert (N2 : gn_staged (sy_gen s2) = None) by (by rewrite (us_staged _ _ U2)). destruct r as [[]|e].
  - eapply gwp_mono; [apply stage_checked_gwp; [done..|]|].
    + rewrite <-Hid in Hf. apply (eligible_rest false s); [done|]. split; [done..|by apply Hv].
    + intros r s3 [M3 R3]. split; [done|by etransitivity].
  - apply gwp_modify. eapply gwp_done; [done|].
    destruct (unstaged_update s2 (install_abort (gr_generation_id target) "verification-failed")) as [R3 _ A3 N3]; [done|].
    split; [|by etransitivity]. apply (manager_settled s2); [split; [done|by rewrite N2]|split; [done|by rewrite A3]|].
    right. by rewrite N3.
Qed.

Lemma stage_rollback_gwp cap generation len s :
  manager_ok s → gwp (stage_rollback_generation loader cap generation len) (λ _ s', manager_ok s' ∧ at_rest s s') s.
Proof.
  intros Hm. unfold stage_rollback_generation. apply gwp_bind, read_gwp. intros [requested|e]; [|by split]. apply gwp_get.
  apply gwp_lift; [by split|]. intros r Hr%ok_or_ok. destruct (negb _); [by eapply gwp_done|]. apply gwp_get.
  apply prepare_gwp; [apply Hm|]. intros s1 K1 N1 R1. eapply gwp_mono; [apply stage_checked_gwp; [done..| |]|].
  - by eapply kg_rollback, Hr; apply Hm.
  - by apply (eligible_rest true s).
  - intros r' s2 [M2 R2]. split; [done|by etransitivity].
Qed.

(** ** The switch *)

(** The switch from [s] to [s'] entered the generation [c]: it was eligible, it may take
    over the state of the one that ran, its runtime is what now runs, the machine is at
    the entry point of its initial process, and the manager knows it as selected and the
    generation that ran as the one to go back to. *)
Record entered (rollback : bool) (c : BootRuntimeConfig) (s s' : System) : Prop := mk_entered {
  en_eligible : eligible rollback (ks_rt (sy_kernel s)) (sy_gen s) (mkGenerationRuntime (cf_generation_id c) c);
  en_policy : state_policy (rt_active_config (ks_rt (sy_kernel s))) c rollback;
  en_running : ∃ context, generation_running c context (ks_rt (sy_kernel s')) ∧ ks_cr3 (sy_kernel s') = cr3 context ∧
    user_rip (ks_frame (sy_kernel s')) = entry context ∧ user_rsp (ks_frame (sy_kernel s')) = stack_top context;
  en_selected : bm_selected_generation (gn_manager (sy_gen s')) = cf_generation_id c;
  en_known_good : bm_known_good_generation (gn_manager (sy_gen s')) = bm_known_good_generation (gn_manager (sy_gen s));
  en_registered : gn_runtimes (sy_gen s') = gn_runtimes (sy_gen s);
  en_back : ∀ p, rt_active_config (ks_rt (sy_kernel s)) = Some p →
    gn_rollback (sy_gen s') = Some (mkGenerationRuntime (rt_generation_id (ks_rt (sy_kernel s))) p);
  en_failed : gn_failed (sy_gen s') =
    if rollback && bool_decide (is_Some (rt_active_config (ks_rt (sy_kernel s))))
    then Some (rt_generation_id (ks_rt (sy_kernel s))) else gn_failed (sy_gen s)
}.

Lemma committed_rt c build s s' : committed c build s s' → ks_rt (sy_kernel s') = gn_staging (sy_gen s).
Proof.
  intros [(k & d & _ & [[_ ->]|(_ & r & Hr)]) _]; [done|].
  destruct (reap_contexts_run (sb_old_contexts build)
    (k <| ks_rt := gn_staging (sy_gen s) |> <| ks_devices := d |> <| ks_cr3 := cr3 (sb_initial_context build) |>)) as (r' & m & Hm).
  rewrite Hm in Hr. by injection Hr as _ <-.
Qed.

(** The records the two calls make before and after the commit. *)
Definition records (rollback : bool) (staged : StagedGeneration) :
    (GenerationState → GenerationState) * (GenerationState → GenerationState) :=
  if rollback
  then (λ g, g, λ g, update_manager (mark_failed_and_fallback (sg_previous_generation staged) (sg_generation_id staged))
                       (mark_previous_failed staged g) <| gn_staged := None |>)
  else (remember_previous staged,
        λ g, update_manager (install_selected (sg_previous_generation staged) (sg_generation_id staged)) g
               <| gn_staged := None |>).

Lemma records_spec rollback staged g c m1 m2 :
  let g' := (records rollback staged).2 ((update_manager (start_boot c) ((records rollback staged).1 g))
              <| gn_pic1_mask := m1 |> <| gn_pic2_mask := m2 |>) in
  gn_runtimes g' = gn_runtimes g ∧ gn_staging g' = gn_staging g ∧ gn_staged g' = None ∧
  gn_rollback g' = match sg_previous_config staged with
                   | Some p => Some (mkGenerationRuntime (sg_previous_generation staged) p)
                   | None => gn_rollback g
                   end ∧
  gn_failed g' = (if rollback && bool_decide (is_Some (sg_previous_config staged))
                  then Some (sg_previous_generation staged) else gn_failed g) ∧
  bm_selected_generation (gn_manager g') = sg_generation_id staged ∧
  bm_known_good_generation (gn_manager g') = bm_known_good_generation (gn_manager g).
Proof.
  destruct rollback; cbn; unfold mark_previous_failed, remember_previous; destruct (sg_previous_config staged) as [p|]; done.
Qed.

(** Entering what is staged. *)
Lemma switch_gwp rollback staged s :
  manager_ok s → gn_staged (sy_gen s) = Some staged → sg_rollback staged = rollback →
  gwp (do^ commit_staged_boot_config_runtime id (sg_config staged) (sg_build staged);
       do^ gmodify (records rollback staged).2;
       enter_user_mode (sb_initial_context (sg_build staged)))
    (λ r s', r = Ok Entered ∧ manager_ok s' ∧ entered rollback (sg_config staged) s s')
    (s <| sy_gen ::= (records rollback staged).1 |>).
Proof.
  intros [[K1 K2 K3 K4] Hst] Hg Hrb. destruct (Hst _ Hg) as [P1 P2 P3 P4 P5 P6]. apply gwp_bind.
  eapply gwp_mono; [apply commit_gwp|]. cbn beta. intros r s1 [-> Hcm]. pose proof (committed_rt _ _ _ _ Hcm) as Hrt.
  destruct Hcm as [_ (m1 & m2 & Hgen)]. apply gwp_modify. eapply gwp_done; [done|]. split; [done|].
  destruct (records_spec rollback staged (sy_gen s) (cf_generation_id (sg_config staged)) m1 m2) as (T & A & N & B & F & S & G).
  change (sy_gen (s <| sy_gen ::= (records rollback staged).1 |>)) with ((records rollback staged).1 (sy_gen s)) in Hgen, Hrt.
  rewrite <-Hgen in T, A, N, B, F, S, G.
  assert (Hrt1 : ks_rt (sy_kernel s1) = gn_staging (sy_gen s)).
  { rewrite Hrt. unfold records, remember_previous. destruct rollback; [done|]. by destruct (sg_previous_config staged). }
  destruct P1 as [Hname Hsound]. cbn [target_of gr_generation_id gr_config] in Hname, Hsound.
  unfold target_of in P2. rewrite Hname, Hrb in P2. rewrite Hrb in P5. rewrite <-Hrt1 in P6. rewrite P3, P4 in *.
  match goal with |- manager_ok ?s' ∧ _ => set (s2 := s') end.
  assert (Hk2 : ks_rt (sy_kernel s2) = ks_rt (sy_kernel s1)) by done.
  assert (Hg2 : sy_gen s2 = (records rollback staged).2 (sy_gen s1)) by done. rewrite <-Hg2 in T, A, N, B, F, S, G.
  split; [split|].
  - rewrite Hk2. split; [by rewrite T|rewrite B| |by rewrite A].
    + destruct (rt_active_config _) as [p|] eqn:Hp; [|done]. intros ? [= <-]. by apply K3.
    + intros c. rewrite (run_active _ _ _ P6), (run_id _ _ _ P6). by intros [= <-].
  - by rewrite N.
  - split; [done|done| |by rewrite <-Hname|done|done| |done].
    + by exists (sb_initial_context (sg_build staged)).
    + intros p Hp. by rewrite B, Hp.
Qed.

(** What was staged under the requested name. *)
Lemma staged_gwp rollback requested s :
  gwp (staged_or_fail rollback requested)
    (λ r s', s' = s ∧ ∀ staged, r = Ok staged → gn_staged (sy_gen s) = Some staged ∧ sg_rollback staged = rollback) s.
Proof.
  unfold staged_or_fail. apply gwp_get. destruct (gn_staged _) as [staged|] eqn:Hs; [|by eapply gwp_done].
  unfold staged_is. rewrite Hs. case_bool_decide as Hr; [|by eapply gwp_done]. cbn. destruct (bytes_eqb _ _); [|by eapply gwp_done].
  eapply gwp_done; [done|]. split; [done|]. by intros ? [= <-].
Qed.

(** What a call may do to the system: nothing but rest, or enter a generation. *)
Definition switching (rollback : bool) (r : Result IpcError GenerationOutcome) (s s' : System) : Prop :=
  manager_ok s' ∧ match r with Ok Entered => ∃ c, entered rollback c s s' | _ => at_rest s s' end.

Lemma entered_rest rollback c s s1 s' : at_rest s s1 → entered rollback c s1 s' → entered rollback c s s'.
Proof.
  intros Hr [E P R S G T B F]. pose proof (at_rest_rt _ _ Hr) as Hrt. pose proof Hr as [K Ht Hb Hf Hs Hg]. rewrite Hrt in *.
  split; [|done|done|done|congruence|congruence|done|by rewrite F, Hf].
  unfold eligible in *. destruct rollback; [by rewrite <-Hb|]. destruct E as [E1 E2 E3 E4].
  split; [by rewrite <-Ht|by rewrite <-Hf|done|done].
Qed.

(** The common end of the two calls: stage if need be, and switch to what is staged. *)
Definition stage_and_switch (rollback : bool) (requested : list byte) (ready : bool) (stage : G IpcError unit) :
    G IpcError GenerationOutcome :=
  do^ (if ready then gret tt else stage);
  let^ staged := staged_or_fail rollback requested in
  do^ gmodify (records rollback staged).1;
  do^ commit_staged_boot_config_runtime id (sg_config staged) (sg_build staged);
  do^ gmodify (records rollback staged).2;
  enter_user_mode (sb_initial_context (sg_build staged)).

Lemma stage_and_switch_gwp rollback requested ready (stage : G IpcError unit) s :
  manager_ok s → gwp stage (λ _ s', manager_ok s' ∧ at_rest s s') s →
  gwp (stage_and_switch rollback requested ready stage) (λ r s', switching rollback r s s') s.
Proof.
  intros Hm Hstage. apply gwp_bind. eapply gwp_mono with (Q := λ _ s', manager_ok s' ∧ at_rest s s').
  { destruct ready; [by eapply gwp_done|done]. }
  cbn beta. intros r s1 [M1 R1]. destruct r as [[]|e]; [|by split].
  apply gwp_bind. eapply gwp_mono; [apply staged_gwp|]. cbn beta. intros r s2 [-> Hst].
  destruct r as [staged|e]; [|by split]. destruct (Hst _ eq_refl) as [Hg Hrb].
  apply gwp_modify. eapply gwp_mono; [by apply switch_gwp|]. cbn beta. intros r s3 (-> & M3 & E3). split; [done|].
  exists (sg_config staged). by eapply entered_rest.
Qed.

Lemma gwp_same {E A} (c c' : G E A) Q s : (∀ s, c' s = c s) → gwp c Q s → gwp c' Q s.
Proof. intros He (r & s' & Hc & HQ). exists r, s'. by rewrite He. Qed.

Lemma gbind_ext {E A B} (c : G E A) (f f' : A → G E B) s : (∀ a s, f a s = f' a s) → gbind c f s = gbind c f' s.
Proof. intros Hf. unfold gbind. destruct (c s) as [[[a|e] s']|]; auto. Qed.

(** A rollback has nothing to record before the commit. *)
Lemma rollback_shape requested ready stage s :
  (do^ (if ready : bool then gret tt else stage);
   let^ staged := staged_or_fail true requested in
   do^ commit_staged_boot_config_runtime id (sg_config staged) (sg_build staged);
   do^ gmodify (mark_previous_failed staged);
   do^ gmodify (λ g, update_manager (mark_failed_and_fallback (sg_previous_generation staged) (sg_generation_id staged)) g
                       <| gn_staged := None |>);
   enter_user_mode (sb_initial_context (sg_build staged))) s = stage_and_switch true requested ready stage s.
Proof.
  apply gbind_ext. intros _ s1. apply gbind_ext. intros staged s2.
  unfold gbind, gmodify. cbn [records fst snd]. change (s2 <| sy_gen ::= λ g, g |>) with (mkSystem (sy_kernel s2) (sy_gen s2)).
  destruct s2 as [k g]. cbn [sy_kernel sy_gen]. by destruct (commit_staged_boot_config_runtime _ _ _ _) as [[[]]|].
Qed.

Lemma activate_shape cap generation len (Q : Result IpcError GenerationOutcome → System → Prop) s :
  (∀ r, r ≠ Ok Entered → Q r s) →
  (∀ requested ready, gwp (stage_and_switch false requested ready (stage_generation loader cap generation len)) Q s) →
  gwp (activate_generation loader cap generation len) Q s.
Proof.
  intros He HQ. unfold activate_generation. apply gwp_bind, read_gwp. intros [requested|e]; [|by apply He]. apply gwp_get.
  destruct (bytes_eqb _ _); [eapply gwp_done; [done|]; by apply He|]. apply gwp_get. apply HQ.
Qed.
Lemma rollback_call_shape cap generation len (Q : Result IpcError GenerationOutcome → System → Prop) s :
  (∀ r, r ≠ Ok Entered → Q r s) →
  (∀ requested ready, gwp (stage_and_switch true requested ready (stage_rollback_generation loader cap generation len)) Q s) →
  gwp (rollback_generation loader cap generation len) Q s.
Proof.
  intros He HQ. unfold rollback_generation. apply gwp_bind, read_gwp. intros [requested|e]; [|by apply He]. apply gwp_get.
  eapply gwp_same; [intros; apply rollback_shape|apply HQ].
Qed.

Lemma switching_none rollback r s : manager_ok s → r ≠ Ok Entered → switching rollback r s s.
Proof. intros Hm Hr. split; [done|]. by destruct r as [[]|]. Qed.

Lemma activate_gwp cap generation len s :
  manager_ok s → gwp (activate_generation loader cap generation len) (λ r s', switching false r s s') s.
Proof.
  intros Hm. apply activate_shape; [intros; by apply switching_none|]. intros. apply stage_and_switch_gwp; [done|by apply stage_gwp].
Qed.

Lemma rollback_gwp cap generation len s :
  manager_ok s → gwp (rollback_generation loader cap generation len) (λ r s', switching true r s s') s.
Proof.
  intros Hm. apply rollback_call_shape; [intros; by apply switching_none|]. intros.
  apply stage_and_switch_gwp; [done|by apply stage_rollback_gwp].
Qed.

(** * The system over time *)

Inductive GenerationCall := GcStage | GcVerify | GcActivate | GcMarkKnownGood | GcStageRollback | GcRollback.
Definition generation_call (call : GenerationCall) (cap generation len : Z) : G IpcError GenerationOutcome :=
  match call with
  | GcStage => do^ stage_generation loader cap generation len; gret Returned
  | GcVerify => do^ verify_generation cap generation len; gret Returned
  | GcActivate => activate_generation loader cap generation len
  | GcMarkKnownGood => do^ mark_known_good_generation cap generation len; gret Returned
  | GcStageRollback => do^ stage_rollback_generation loader cap generation len; gret Returned
  | GcRollback => rollback_generation loader cap generation len
  end.

(** The kernel before the first generation runs. *)
Inductive booting : System → Prop :=
| bt_new k : rt_active_config (ks_rt k) = None → booting (mkSystem k generation_state_new)
| bt_register c s r g :
    booting s → config_sound c → register_generation_config c (sy_gen s) = (r, g) → booting (s <| sy_gen := g |>)
| bt_rollback c s : booting s → config_sound c → booting (s <| sy_gen ::= set_rollback_boot_config c |>)
| bt_failed id s : booting s → booting (s <| sy_gen ::= set_failed_generation_id id |>)
| bt_recovery selected previous known_good transaction target reason s :
    booting s → booting (s <| sy_gen ::= install_generation_recovery selected previous known_good transaction target reason |>).

(** The system once a generation runs: generation calls, and steps of the rest of the
    kernel, none of which writes the name or the configuration of the running generation. *)
Inductive system_runs : System → Prop :=
| sr_boot c s s' : booting s → config_sound c → init_from_boot_config loader c s = Some (Ok tt, s') → system_runs s'
| sr_call call cap generation len s r s' :
    system_runs s → generation_call call cap generation len s = Some (r, s') → system_runs s'
| sr_kernel s k :
    system_runs s → rt_generation_id (ks_rt k) = rt_generation_id (ks_rt (sy_kernel s)) →
    rt_active_config (ks_rt k) = rt_active_config (ks_rt (sy_kernel s)) → system_runs (s <| sy_kernel := k |>).

Lemma register_known rt g c r g' :
  known_generations rt g → config_sound c → register_generation_config c g = (r, g') →
  known_generations rt g' ∧ gn_staged g' = gn_staged g.
Proof.
  intros [K1 K2 K3 K4] Hc. unfold register_generation_config, generation_register.
  assert (Hs : generation_sound (mkGenerationRuntime (cf_generation_id c) c)) by (by split).
  assert (Hi : ∀ i j r', <[i := Some (mkGenerationRuntime (cf_generation_id c) c)]> (gt_entries (gn_runtimes g)) !! j = Some (Some r') →
                 generation_sound r').
  { intros i j r' Hj. apply list_lookup_insert_Some in Hj as [(_ & ? & _)|[_ Hj]]; [by simplify_eq|eauto]. }
  destruct (first_index _ _ _) as [i|]; [|destruct (_ =? _)]; intros [= <- <-]; (split; [split|]); try done; apply Hi.
Qed.

Lemma booting_known s : booting s → known_generations (ks_rt (sy_kernel s)) (sy_gen s) ∧ gn_staged (sy_gen s) = None.
Proof.
  induction 1 as [k Hk|c s r g _ [IH N] Hc Hr|c s _ [[K1 K2 K3 K4] N] Hc|id s _ [[K1 K2 K3 K4] N]|? ? ? ? ? ? s _ [[K1 K2 K3 K4] N]].
  - split; [|done]. split; [|done|intros c Hc; cbn in Hc; congruence|apply runtime_new_sized].
    intros i r [Hi _]%lookup_replicate. done.
  - destruct (register_known _ _ _ _ _ IH Hc Hr) as [? Hs]. split; [done|]. by rewrite <-N.
  - split; [|done]. split; [done| |done|done]. by intros r [= <-].
  - split; [|done]. by split.
  - split; [|done]. by split.
Qed.

(** Boot leaves the runtime of its generation. *)
Lemma init_running c s s' :
  booting s → config_sound c → init_from_boot_config loader c s = Some (Ok tt, s') →
  manager_ok s' ∧ ∃ context, generation_running c context (ks_rt (sy_kernel s')).
Proof.
  intros [K N]%booting_known Hc Hi. unfold init_from_boot_config in Hi.
  refine (gwp_run _ (λ r s', r = Ok tt → manager_ok s' ∧ ∃ context, generation_running c context (ks_rt (sy_kernel s')))
            _ _ _ _ Hi eq_refl). apply gwp_bind.
  eapply gwp_mono; [apply stage_config_gwp; [done|apply K]|]. cbn beta. intros r s1 (R1 & N1 & Z1 & Hrun).
  destruct r as [build|e]; [|done]. eapply gwp_mono; [apply commit_gwp|]. cbn beta. intros r s2 [-> Hcm] _.
  pose proof (committed_rt _ _ _ _ Hcm) as Hrt. destruct Hcm as [_ (m1 & m2 & Hg)].
  destruct (known_settled s s1 ltac:(by split) K) as [K1 K2 K3 K4]. pose proof (Hrun _ eq_refl) as Hrun1.
  split; [|rewrite Hrt; eauto]. destruct Hrun1 as [_ _ _ _ _ _ Ha Hid _].
  split; rewrite Hg; [|intros staged Hs; change (gn_staged (sy_gen s1) = Some staged) in Hs; by rewrite N1, N in Hs].
  split; [done|done| |done]. intros c'. rewrite Hrt, Ha, Hid. by intros [= <-].
Qed.

(** The generation marked known good is the one that runs, and it was verified just now. *)
Definition marked_good (s s' : System) : Prop :=
  ∃ target, generation_find (gn_runtimes (sy_gen s)) (string_bytes (rt_generation_id (ks_rt (sy_kernel s)))) = Some target ∧
    verified (gr_config target) ∧
    bm_known_good_generation (gn_manager (sy_gen s')) = rt_generation_id (ks_rt (sy_kernel s)) ∧
    bm_selected_generation (gn_manager (sy_gen s')) = rt_generation_id (ks_rt (sy_kernel s)).

Lemma mark_known_good_gwp cap generation len s :
  manager_ok s → gwp (mark_known_good_generation cap generation len)
    (λ r s', manager_ok s' ∧ match r with Ok _ => marked_good s s' | Err _ => at_rest s s' end) s.
Proof.
  intros Hm. unfold mark_known_good_generation. apply gwp_bind, read_gwp. intros [requested|e]; [|by split].
  apply gwp_bind, find_gwp. destruct (generation_find _ _) as [target|] eqn:Hf; cbn [ok_or]; [|by split].
  destruct (find_sound _ _ _ _ (mo_known _ Hm) Hf) as [_ Hid]. apply gwp_get.
  destruct (str_eqb _ _) eqn:Hr; cbn [negb]; [|by eapply gwp_done]. apply str_eqb_true in Hr. apply gwp_bind.
  eapply gwp_mono; [apply verify_gwp|]. cbn beta. intros r s1 [U1 Hv]. pose proof (unstaged_manager _ _ Hm U1) as [[K1 K2 K3 K4] S1].
  destruct r as [[]|e]; [|by split; [|apply U1]]. eapply gwp_done; [done|]. split.
  - split; [by split|]. intros staged Hst. destruct (S1 staged Hst) as [P1 P2 P3 P4 P5 P6]. split; try done.
    unfold eligible in *. destruct (sg_rollback staged); [done|]. destruct P2 as [E1 E2 E3 E4]. by split.
  - exists target. rewrite <-Hr, Hid. split_and!; [done|by apply Hv|done|done].
Qed.

(** Every call returns; it keeps the invariant, and it leaves the system at rest unless it
    marks a generation or enters one. *)
Definition call_effect (call : GenerationCall) (r : Result IpcError GenerationOutcome) (s s' : System) : Prop :=
  match r with
  | Err _ => at_rest s s'
  | Ok Returned => match call with GcMarkKnownGood => marked_good s s' | _ => at_rest s s' end
  | Ok Entered => match call with
                  | GcActivate => ∃ c, entered false c s s'
                  | GcRollback => ∃ c, entered true c s s'
                  | _ => False
                  end
  end.

Lemma returned_gwp (c : G IpcError unit) Q s :
  gwp c (λ r s', Q (match r with Ok _ => Ok Returned | Err e => Err e end) s') s → gwp (do^ c; gret Returned) Q s.
Proof.
  intros Hc. apply gwp_bind. eapply gwp_mono; [exact Hc|]. cbn beta. intros [[]|e] s1 HQ; [by eapply gwp_done|done].
Qed.

Lemma generation_call_gwp call cap generation len s :
  manager_ok s → gwp (generation_call call cap generation len) (λ r s', manager_ok s' ∧ call_effect call r s s') s.
Proof.
  intros Hm. destruct call; cbn [generation_call].
  - apply returned_gwp. eapply gwp_mono; [by apply stage_gwp|]. by intros [[]|e] s1 [M R].
  - apply returned_gwp. unfold verify_generation. apply gwp_bind, read_gwp. intros [requested|e]; [|by split].
    apply gwp_bind, find_gwp. destruct (generation_find _ _) as [target|]; cbn [ok_or]; [|by split]. apply gwp_get.
    destruct (failed_generation_is _ _); [by eapply gwp_done|]. eapply gwp_mono; [apply verify_gwp|]. cbn beta.
    intros r s1 [U _]. pose proof (unstaged_manager _ _ Hm U). destruct r as [[]|]; (split; [done|apply U]).
  - eapply gwp_mono; [by apply activate_gwp|]. by intros [[]|e] s1 [M R].
  - apply returned_gwp. eapply gwp_mono; [by apply mark_known_good_gwp|]. by intros [[]|e] s1 [M R].
  - apply returned_gwp. eapply gwp_mono; [by apply stage_rollback_gwp|]. by intros [[]|e] s1 [M R].
  - eapply gwp_mono; [by apply rollback_gwp|]. by intros [[]|e] s1 [M R].
Qed.

Lemma manager_invariant s : system_runs s → manager_ok s.
Proof.
  induction 1 as [c s s' Hb Hc Hi|call cap generation len s r s' _ IH Hrun|s k _ IH Hid Ha].
  - by eapply init_running.
  - by destruct (gwp_run _ _ _ _ _ (generation_call_gwp call cap generation len s IH) Hrun).
  - destruct IH as [[K1 K2 K3 K4] S]. split; [split; [done|done| |done]|].
    + intros c. cbn. rewrite Ha, Hid. apply K3.
    + intros staged Hst. destruct (S staged Hst) as [P1 P2 P3 P4 P5 P6].
      split; [done| |by cbn; rewrite Hid|by cbn; rewrite Ha|by cbn; rewrite Ha|done].
      unfold eligible in *. destruct (sg_rollback staged); [done|]. destruct P2 as [E1 E2 E3 E4]. split; [done|done| |done].
      cbn. by rewrite Hid.
Qed.

End manager.

(** * Claims *)

(** A new generation takes over the state of the old one exactly when no volume is
    lost or reinterpreted.  [validate_state_transition_policy] accepts a switch if and
    only if every volume that both generations have under one name keeps its schema, or
    says that it migrates, or the switch is a rollback, and no volume that goes away is
    one to be deleted when unreferenced; without a running configuration it accepts. *)
Theorem state_transition_policy_exact previous target rollback :
  validate_state_transition_policy previous target rollback = Ok tt ↔
  match previous with
  | None => True
  | Some previous =>
      (∀ o, o ∈ counted (cf_state_volumes target) → ∃ t, o = Some t ∧
         ∀ p, find_state_volume previous (svc_id t) = Some p →
           svc_schema_version p = svc_schema_version t ∨ rollback = true ∨ svc_migration_policy t = "migrate"%string) ∧
      (∀ o, o ∈ counted (cf_state_volumes previous) → ∃ p, o = Some p ∧
         (find_state_volume target (svc_id p) = None → svc_retention_policy p ≠ "delete-when-unreferenced"%string))
  end.
Proof. apply state_policy_spec. Qed.


(** After a rollback the way back leads to the generation that failed.  The rollback
    notes the generation it left as failed, so that it can be neither staged nor
    verified, but also as the target of the next rollback, which is entered without
    those checks. *)
Theorem rollback_target_is_failed `{PM : ProcessMemory, SM : StoreMemory} (loader : BootLoader)
    cap generation len s s' config :
  system_runs loader s → rt_active_config (ks_rt (sy_kernel s)) = Some config →
  generation_call loader GcRollback cap generation len s = Some (Ok Entered, s') →
  let failed := rt_generation_id (ks_rt (sy_kernel s)) in
  gn_failed (sy_gen s') = Some failed ∧ gn_rollback (sy_gen s') = Some (mkGenerationRuntime failed config).
Proof.
  intros Hs Hc Hrun. pose proof (generation_call_gwp loader GcRollback cap generation len s (manager_invariant _ _ Hs)) as Hg.
  destruct (gwp_run _ _ _ _ _ Hg Hrun) as [_ (c & He)]. split; [|by apply (en_back _ _ _ _ He)].
  rewrite (en_failed _ _ _ _ He), Hc. done.
Qed.

(** * A switch *)

#[local] Existing Instance space_memory.
#[local] Existing Instance space_process_memory.
#[local] Existing Instance image_store.

(** Memory in which the name of the second generation lies at 4096. *)
Definition target_bytes (address : Z) : Z := default 0%Z (string_bytes "gen-2" !! Z.to_nat (address - 4096)).
Definition bare_kernel : KernelState :=
  mkKernelState runtime_new (mkSpaceMemory (λ _, target_bytes) ∅) 9 frame_empty 0 0 devices_new.
Definition registering (id : string) (s : System) : System :=
  s <| sy_gen := (register_generation_config (boot_config id) (sy_gen s)).2 |>.
Definition unbooted : System := registering "gen-2" (registering "gen-1" (mkSystem bare_kernel generation_state_new)).
Definition booted : System :=
  match init_from_boot_config plain_loader (boot_config "gen-1") unbooted with Some (_, s) => s | None => unbooted end.

Lemma first_sound : config_sound (boot_config "gen-1").
Proof. split; [apply boot_config_wf|apply boot_config_rights|apply boot_config_roots]. Qed.
Lemma second_sound : config_sound (boot_config "gen-2").
Proof. split; [apply boot_config_wf|each_right|each_root]. Qed.

Lemma unbooted_booting : booting unbooted.
Proof.
  eapply bt_register; [|exact second_sound|apply surjective_pairing].
  eapply bt_register; [|exact first_sound|apply surjective_pairing]. by apply bt_new.
Qed.

Lemma booted_init : init_from_boot_config plain_loader (boot_config "gen-1") unbooted = Some (Ok tt, booted).
Proof.
  unfold booted.
  assert (H : match init_from_boot_config plain_loader (boot_config "gen-1") unbooted with
              | Some (Ok _, _) => true | _ => false end = true) by (vm_compute; reflexivity).
  destruct (init_from_boot_config _ _ _) as [[[[]|e] s]|]; [done|discriminate..].
Qed.

Lemma booted_runs : system_runs plain_loader booted.
Proof. eapply sr_boot; [exact unbooted_booting|exact first_sound|exact booted_init]. Qed.

Lemma activation_enters :
  match generation_call plain_loader GcActivate 2 4096 5 booted with
  | Some (Ok Entered, s) => str_eqb (rt_generation_id (ks_rt (sy_kernel s))) "gen-2"
  | _ => false
  end = true.
Proof. vm_compute. reflexivity. Qed.

