(* ===== verification/SwitchSpaces.v ===== *)
(** The address spaces across a switch of generations: staging holds one address space
    besides those of the processes, and a switch leaves that one alone. *)

From S2P Require Import Prelude KernelBase Transport VfsPath KernelObjects Store ProcessRuntime.
From S2P Require Import BootConfig BootPolicy BootPolicyProofs CapRegistry VfsState Runtime Virtio Kernel ProcessMemory.
From S2P Require Import VfsNodes BootGrants BootBuild Devices ProcessSyscalls Generation ProcessTableProofs SchedulerProofs.
From S2P Require Import CapabilityProofs ProcessProofs BuildProofs GenerationProofs SwitchProofs.

(** * Memory with one more address space *)

(** Process memory in which the address space [extra] stays out of the processes' way. *)
#[refine] Definition framed `{PM : ProcessMemory} (extra : Z) : ProcessMemory :=
  mkProcessMemory _ pm_load pm_reclaim pm_zero pm_map pm_unmap
    (λ roots m, (extra ∉ roots) ∧ pm_spaces ({[extra]} ∪ roots) m) pm_device _ _ _ _.
Proof.
  - intros active base len roots m c m' [Hx Hs] Ha Hl.
    destruct (pm_load_ok active base len _ m c m' Hs ltac:(set_solver) Hl) as (Hn & Hz & Hs').
    split_and!; [set_solver|done|set_solver|]. by replace ({[extra]} ∪ ({[cr3 c]} ∪ roots)) with ({[cr3 c]} ∪ ({[extra]} ∪ roots)) by set_solver.
  - intros active base len roots m m' [Hx Hs] Ha Hl. split; [done|]. apply (pm_load_failed active base len _ m m' Hs); [set_solver|done].
  - intros root roots m [Hx Hs] Hin. destruct (pm_reclaim_ok root _ m Hs ltac:(set_solver)) as (m' & Hr & Hs').
    exists m'. split_and!; [done|set_solver|].
    by replace ({[extra]} ∪ roots ∖ {[root]}) with (({[extra]} ∪ roots) ∖ {[root]}) by set_solver.
  - intros base len roots m [Hx Hs] Hd. split; [done|]. by apply pm_zero_spaces.
Defined.

Section spaces.
Context `{PM : ProcessMemory}.

Local Abbreviation table k := (rt_processes (ks_rt k)).

Lemma release_all_dma_spaces k :
  spaces_wf k → ∃ k', release_all_runtime_dma_mappings k = Some (Ok tt, k') ∧ kept_spaces k k'.
Proof.
  unfold release_all_runtime_dma_mappings. generalize (S MAX_PROCESSES) as left, 0 as i. intros left.
  revert k. induction left as [|left IH]; intros k i Hs; cbn [release_dma_processes]; [by exists k; split; [|split]|].
  destruct (_ <=? _); [by exists k; split; [|split]|]. destruct (mjoin _) as [p|]; [|by apply IH]. unfold kbind.
  destruct (release_dma_slots_spaces MAX_OBJECTS 0 (p_pid p) k Hs) as (k1 & Hk1 & Hkept).
  unfold release_process_dma_mappings. rewrite Hk1. destruct (IH k1 (S i) (ks_wf _ _ Hkept)) as (k2 & Hk2 & Hkept2).
  exists k2. split; [done|]. by eapply kept_spaces_trans.
Qed.

(** ** The address spaces of a runtime *)

Lemma reap_targets_live t :
  (∀ p, p ∈ live_processes t → p_context_reaped p = bool_decide (cr3 (p_context p) = 0%Z)) →
  rp_cr3 <$> omap reap_target (take (pt_count t) (pt_processes t)) =
    filter (λ r, r ≠ 0%Z) ((λ p, cr3 (p_context p)) <$> live_processes t).
Proof.
  unfold live_processes. induction (take _ _) as [|[p|] l IH]; [done| |done]. cbn [omap list_omap reap_target]. intros Hr.
  cbn [id fmap list_fmap]. rewrite filter_cons.
  rewrite (Hr p) by (by left). assert (Hr' := IH (λ q Hq, Hr q (list_elem_of_further _ _ _ Hq))).
  case_bool_decide as Hz; cbn [negb andb].
  - rewrite decide_False by tauto. exact Hr'.
  - apply Z.eqb_neq in Hz as Hb. rewrite Hb, decide_True by done. cbn. f_equal. exact Hr'.
Qed.

Lemma roots_NoDup (l : list Process) :
  NoDup (p_pid <$> l) →
  (∀ p q, p ∈ l → q ∈ l → cr3 (p_context p) ≠ 0%Z → cr3 (p_context p) = cr3 (p_context q) → p_pid p = p_pid q) →
  NoDup (filter (λ r, r ≠ 0%Z) ((λ p, cr3 (p_context p)) <$> l)).
Proof.
  induction l as [|p l IH]; [intros; apply NoDup_nil_2|]. rewrite !fmap_cons. intros [Hp Hd]%NoDup_cons Ho. rewrite filter_cons.
  assert (Hl : NoDup (filter (λ r, r ≠ 0%Z) ((λ p, cr3 (p_context p)) <$> l))).
  { apply IH; [done|]. intros q q' Hq Hq'. apply Ho; by right. }
  case_decide as Hz; [|done]. apply NoDup_cons. split; [|done].
  intros [_ (q & He & Hq)%list_elem_of_fmap]%list_elem_of_filter.
  apply Hp. rewrite (Ho p q); [by apply list_elem_of_fmap_2|by left|by right|done|done].
Qed.

Lemma reap_targets_roots k :
  spaces_wf k →
  list_to_set (rp_cr3 <$> runtime_reap_targets (ks_rt k)) = live_roots (table k) ∧
  NoDup (rp_cr3 <$> runtime_reap_targets (ks_rt k)).
Proof.
  intros [W S O R A D]. unfold runtime_reap_targets.
  rewrite (reap_targets_live (table k)); [split; [done|]|].
  - apply roots_NoDup; [by apply pw_nodup|]. intros p q Hp Hq. apply (O (p_pid p) (p_pid q)); by apply process_live.
  - intros p Hp. apply (R (p_pid p)). by apply process_live.
Qed.

Lemma reap_all targets : ∀ roots k,
  NoDup (rp_cr3 <$> targets) → (∀ r, r ∈ rp_cr3 <$> targets → r ∉ roots) →
  pm_spaces (list_to_set (rp_cr3 <$> targets) ∪ roots) (ks_mem k) →
  ∃ m, reap_runtime_contexts targets k = Some (Ok tt, k <| ks_mem := m |>) ∧ pm_spaces roots m.
Proof.
  induction targets as [|t targets IH]; intros roots k; cbn [reap_runtime_contexts fmap list_fmap list_to_set].
  - intros _ _ Hs. exists (ks_mem k). split; [by destruct k|]. by rewrite (left_id_L ∅ (∪)) in Hs.
  - intros [Ht Hd]%NoDup_cons Hr Hs. destruct (pm_reclaim_ok (rp_cr3 t) _ _ Hs ltac:(set_solver)) as (m & -> & Hm).
    destruct (IH roots (k <| ks_mem := m |>)) as (m' & -> & Hm'); [done|set_solver| |by exists m'].
    assert (rp_cr3 t ∉ (list_to_set (rp_cr3 <$> targets) : gset Z)) by (by rewrite elem_of_list_to_set).
    assert (rp_cr3 t ∉ roots) by (apply Hr; by left).
    replace (list_to_set (rp_cr3 <$> targets) ∪ roots)
      with (({[rp_cr3 t]} ∪ list_to_set (rp_cr3 <$> targets) ∪ roots) ∖ {[rp_cr3 t]}) by set_solver. done.
Qed.
End spaces.

(** * Staging and switching *)

Section switch.
Context `{PM : ProcessMemory, SM : StoreMemory} (loader : BootLoader).

Local Abbreviation table k := (rt_processes (ks_rt k)).
Local Abbreviation roots s := (live_roots (table (sy_kernel s))).

(** Nothing is staged and the machine is well formed, or one more address space is in
    being, of the staged process, and the spaces to give up are those of the processes. *)
Definition orderly (s : System) : Prop :=
  match gn_staged (sy_gen s) with
  | None => machine_ok (sy_kernel s)
  | Some staged =>
      let extra := cr3 (sb_initial_context (sg_build staged)) in
      extra ≠ 0%Z ∧ sb_old_contexts (sg_build staged) = runtime_reap_targets (ks_rt (sy_kernel s)) ∧
      machine_ok (PM := framed extra) (sy_kernel s)
  end.

Lemma mem_machine k m : machine_ok k → pm_spaces (live_roots (table k)) m → machine_ok (k <| ks_mem := m |>).
Proof. intros [[W S O R A D] [? ? ?] G T] Hm. by split; [split|split|..]. Qed.
Lemma frame_machine extra k m :
  machine_ok k → extra ∉ live_roots (table k) → pm_spaces ({[extra]} ∪ live_roots (table k)) m →
  machine_ok (PM := framed extra) (k <| ks_mem := m |>).
Proof. intros [[W S O R A D] [? ? ?] G T] Hx Hm. by split; [split; [|split|..]|split|..]. Qed.
Lemma unframe_machine extra k m :
  machine_ok (PM := framed extra) k → pm_spaces (live_roots (table k)) m → machine_ok (k <| ks_mem := m |>).
Proof. intros [[W S O R A D] [? ? ?] G T] Hm. by split; [split|split|..]. Qed.

Lemma active_root k : machine_ok k → ks_cr3 k ∈ live_roots (table k).
Proof.
  intros [[W S O R A D] [_ (p & Hp & Hs & Hc) _] _ _]. destruct (current_pid k p W Hp) as [_ Hproc].
  apply elem_of_live_roots; [done|]. rewrite Hc. split; [|eauto]. apply (A (p_pid p)); [done|]. by rewrite Hs.
Qed.

(** The runtime of a new generation in its own address space. *)
Lemma running_machine c context k :
  generation_running c context (ks_rt k) → cr3 context ≠ 0%Z → ks_cr3 k = cr3 context →
  pm_spaces {[cr3 context]} (ks_mem k) → machine_ok k.
Proof.
  intros [Hc _ _ _ Hcfg Htpl _ _ (p & Hl & Hcur & Hs & <- & Hr & Hd)] Hz Hcr Hm.
  pose proof (cw_table _ Hc) as W. destruct (current_pid k p W Hcur) as [Hpid _].
  assert (Hone : ∀ pid q, process (table k) pid = Some q → q = p ∧ pid = p_pid p).
  { intros pid q [Hq <-]%process_live; [|done]. rewrite Hl in Hq. by apply list_elem_of_singleton in Hq as ->. }
  assert (Hroots : live_roots (table k) = {[cr3 (p_context p)]}).
  { unfold live_roots. rewrite Hl. cbn. rewrite decide_True by done. cbn. set_solver. }
  split; [split|split|..]; try done.
  - by rewrite Hroots.
  - by intros pid pid' q q' [_ ->]%Hone [_ ->]%Hone _ _.
  - intros pid q [-> _]%Hone. rewrite Hr. by rewrite bool_decide_eq_false_2.
  - by intros pid q [-> _]%Hone.
  - intros pid q m [-> _]%Hone Hq. by apply Hd in Hq.
  - by exists p.
  - rewrite Hl. by intros q ->%list_elem_of_singleton _.
Qed.

Lemma orderly_unstaged s s' : orderly s → unstaged s s' → orderly s'.
Proof. intros Ho [_ K _ N]. unfold orderly in *. by rewrite N, K. Qed.

Lemma rest_kernel s s' : at_rest s s' → sy_kernel s' = (sy_kernel s) <| ks_mem := ks_mem (sy_kernel s') |>.
Proof. by intros [K _ _ _ _ _]. Qed.

(** ** Staging *)

Lemma gwp_and {E A} (c : G E A) (Q Q' : Result E A → System → Prop) s :
  gwp c Q s → gwp c Q' s → gwp c (λ r s', Q r s' ∧ Q' r s') s.
Proof. intros (r & s' & Hc & HQ) HQ'. exists r, s'. split; [done|]. split; [done|]. by eapply gwp_run. Qed.

Lemma stage_config_spaces c s :
  machine_ok (sy_kernel s) →
  gwp (stage_boot_config_runtime loader c)
    (λ r s', match r with
             | Ok build => let extra := cr3 (sb_initial_context build) in
                 extra ≠ 0%Z ∧ (extra ∉ roots s) ∧ pm_spaces ({[extra]} ∪ roots s) (ks_mem (sy_kernel s')) ∧
                 sb_old_contexts build = runtime_reap_targets (ks_rt (sy_kernel s))
             | Err _ => pm_spaces (roots s) (ks_mem (sy_kernel s'))
             end) s.
Proof.
  intros Hm. pose proof (sp_spaces _ (mo_spaces _ Hm)) as Hsp. pose proof (active_root _ Hm) as Ha.
  unfold stage_boot_config_runtime. apply gwp_bind, denials_gwp. intros r log _ s1 [_ K1 _ _]. rewrite <-K1 in *.
  destruct r as [[]|e]; cbn [map_err]; [|done]. apply gwp_lift; [done|]. intros index _. apply gwp_lift; [done|]. intros p _.
  apply gwp_bind. unfold load_process_context. destruct (_ || _); [eapply gwp_kernel; [cbn beta; reflexivity|]; exact Hsp|].
  destruct (pm_load (ks_cr3 (sy_kernel s1)) (bp_image_base p) (bp_image_length p) (ks_mem (sy_kernel s1))) as [[context|] m] eqn:Hl.
  2: { eapply gwp_kernel; [cbn beta; by rewrite Hl|]. cbn. by eapply pm_load_failed. }
  destruct (pm_load_ok _ _ _ _ _ _ _ Hsp Ha Hl) as (Hn & Hz & Hsp'). eapply gwp_kernel; [cbn beta; by rewrite Hl|]. cbn [map_err ok_or].
  apply gwp_get. apply gwp_bind, gwp_try. unfold gwp at 1, on_staging. destruct (build_boot_config_runtime _ _ _ _ _ _) as [r rt].
  do 2 eexists. split; [done|]. destruct r as [[]|e]; cbn [map_err]; [by eapply gwp_done|]. apply gwp_bind.
  destruct (pm_reclaim_ok (cr3 context) _ m Hsp' ltac:(set_solver)) as (m' & Hr & Hm').
  eapply gwp_kernel; [unfold reclaim_detached_address_space; apply Z.eqb_neq in Hz; by rewrite Hz|]. cbn [map_err].
  eapply gwp_done; [done|]. cbn. rewrite Hr. by replace (roots s1) with (({[cr3 context]} ∪ roots s1) ∖ {[cr3 context]}) by set_solver.
Qed.

Lemma stage_checked_orderly target rollback reason s :
  known_generations (ks_rt (sy_kernel s)) (sy_gen s) → generation_sound target →
  gn_staged (sy_gen s) = None → machine_ok (sy_kernel s) →
  gwp (stage_checked loader target rollback reason) (λ _ s', orderly s') s.
Proof.
  intros Hk Ht Hn Hm. unfold stage_checked. apply gwp_get. destruct (validate_state_transition_policy _ _ _) as [[]|e].
  2: { apply gwp_modify. eapply gwp_done; [done|]. unfold orderly. cbn. by rewrite Hn. }
  apply gwp_bind, gwp_try.
  eapply gwp_mono; [apply gwp_and; [apply (stage_config_gwp loader (gr_config target)); [by apply Ht|apply Hk]|by apply stage_config_spaces]|].
  cbn beta. intros r s1 [(R1 & N1 & _) Hsp]. rewrite Hn in N1. pose proof (rest_kernel _ _ R1) as K1. destruct r as [build|e].
  - destruct Hsp as (Hz & Hx & Hsp & Hold). eapply gwp_done; [done|]. unfold orderly. cbn [sy_gen sy_kernel set gn_staged].
    split_and!; [done| |].
    + cbn. by rewrite (at_rest_rt _ _ R1).
    + cbn [sg_build]. change (machine_ok (PM := framed (cr3 (sb_initial_context build))) (sy_kernel s1)). rewrite K1.
      by apply frame_machine.
  - apply gwp_modify. eapply gwp_done; [done|]. unfold orderly. cbn. rewrite N1, K1. by apply mem_machine.
Qed.

(** Discarding what is staged gives its address space back. *)
Lemma discard_orderly {E} s :
  manager_ok s → orderly s → gwp (discard_uncommitted_staged_generation (E := E)) (λ _ s', machine_ok (sy_kernel s')) s.
Proof.
  intros Hm Ho. unfold discard_uncommitted_staged_generation. apply gwp_get. unfold orderly in Ho.
  destruct (gn_staged (sy_gen s)) as [staged|] eqn:Hst; [|by eapply gwp_done]. apply gwp_bind, gwp_try.
  destruct Ho as (Hz & _ & Ho). destruct (so_running _ _ _ (mo_staged _ Hm _ Hst)) as [Hc _ _ _ _ _ _ _ (p & Hl & _ & _ & Hctx & Hr & _)].
  pose proof Ho as [[_ [Hx Hsp] _ _ _ _] _ _ _].
  assert (Ht : rp_cr3 <$> runtime_reap_targets (gn_staging (sy_gen s)) = [cr3 (sb_initial_context (sg_build staged))]).
  { unfold runtime_reap_targets. rewrite reap_targets_live; rewrite Hl.
    - cbn. by rewrite Hctx, decide_True.
    - intros q ->%list_elem_of_singleton. by rewrite Hr, Hctx, bool_decide_eq_false_2. }
  destruct (reap_all (runtime_reap_targets (gn_staging (sy_gen s))) (roots s) (sy_kernel s)) as (m & Hrun & Hm').
  - rewrite Ht. apply NoDup_singleton.
  - rewrite Ht. by intros r ->%list_elem_of_singleton.
  - rewrite Ht. cbn. by rewrite (right_id_L ∅ (∪)).
  - eapply gwp_kernel; [exact Hrun|]. eapply gwp_done; [done|]. by eapply unframe_machine.
Qed.

Lemma prepare_orderly {B} previous target (k : unit → G IpcError B) (Q : Result IpcError B → System → Prop) s :
  manager_ok s → orderly s →
  (∀ s', known_generations (ks_rt (sy_kernel s')) (sy_gen s') → gn_staged (sy_gen s') = None →
     machine_ok (sy_kernel s') → gwp (k tt) Q s') →
  gwp (do^ discard_uncommitted_staged_generation; gbind (gmodify (update_manager (install_prepare previous target))) k) Q s.
Proof.
  intros Hm Ho HQ. apply gwp_bind.
  eapply gwp_mono; [apply gwp_and; [apply discard_gwp|by apply discard_orderly]|]. cbn beta.
  intros r s1 [(-> & R1 & A1 & N1) M1]. apply gwp_modify.
  destruct (unstaged_update s1 (install_prepare previous target)) as [R2 K2 A2 N2]; [done|]. set (s2 := s1 <| sy_gen ::= _ |>) in *.
  apply HQ; [|by rewrite N2|by rewrite K2]. apply (known_settled s); [|apply Hm]. split; [by etransitivity|by rewrite A2, A1].
Qed.

Lemma stage_orderly cap generation len s :
  manager_ok s → orderly s → gwp (stage_generation loader cap generation len) (λ _ s', orderly s') s.
Proof.
  intros Hm Ho. unfold stage_generation. apply gwp_bind, read_gwp. intros [requested|e]; [|done].
  apply gwp_bind, find_gwp. destruct (generation_find _ _) as [target|] eqn:Hf; cbn [ok_or]; [|done].
  destruct (find_sound _ _ _ _ (mo_known _ Hm) Hf) as [Ht _]. apply gwp_get.
  destruct (failed_generation_is _ _); [by eapply gwp_done|]. apply gwp_get. destruct (str_eqb _ _); [by eapply gwp_done|].
  apply prepare_orderly; [done..|]. intros s1 K1 N1 M1. apply gwp_bind, gwp_try.
  eapply gwp_mono; [apply verify_gwp|]. cbn beta. intros r s2 [U2 _]. pose proof U2 as [_ E2 _ N2]. destruct r as [[]|e].
  - apply stage_checked_orderly; [by eapply known_settled, K1; apply unstaged_settled|done|by rewrite N2|by rewrite E2].
  - apply gwp_modify. eapply gwp_done; [done|]. unfold orderly. cbn. by rewrite N2, N1, E2.
Qed.

Lemma stage_rollback_orderly cap generation len s :
  manager_ok s → orderly s → gwp (stage_rollback_generation loader cap generation len) (λ _ s', orderly s') s.
Proof.
  intros Hm Ho. unfold stage_rollback_generation. apply gwp_bind, read_gwp. intros [requested|e]; [|done]. apply gwp_get.
  apply gwp_lift; [done|]. intros r Hr%ok_or_ok. destruct (negb _); [by eapply gwp_done|]. apply gwp_get.
  apply prepare_orderly; [done..|]. intros s1 K1 N1 M1. apply stage_checked_orderly; try done.
  by eapply kg_rollback, Hr; apply Hm.
Qed.

(** ** Entering *)

(** Only the address space of the machine's own process is left. *)
Definition alone (s : System) : Prop :=
  gn_staged (sy_gen s) = None ∧ machine_ok (sy_kernel s) ∧ pm_spaces {[ks_cr3 (sy_kernel s)]} (ks_mem (sy_kernel s)).

(** The commit frees the address spaces of all processes of the generation that ran. *)
Lemma committed_spaces extra c build s s' :
  machine_ok (PM := framed extra) (sy_kernel s) → sb_old_contexts build = runtime_reap_targets (ks_rt (sy_kernel s)) →
  committed c build s s' → pm_spaces {[extra]} (ks_mem (sy_kernel s')).
Proof.
  intros [Hs _ _ _] Hold [(k & d & Hrel & Hk) _].
  destruct (release_all_dma_spaces (PM := framed extra) _ Hs) as (k' & Hrel' & [[_ Hsp _ _ _ _] Hkept _]).
  assert (He : Some (Ok (E := IpcError) tt, k) = Some (Ok tt, k')) by (rewrite <-Hrel; exact Hrel'). injection He as <-.
  rewrite (kept_table_roots _ _ (sp_wf _ Hs) (rk_table _ _ Hkept)) in Hsp. destruct Hsp as [Hx Hsp].
  destruct (reap_targets_roots (PM := framed extra) _ Hs) as [Hr Hd]. rewrite <-Hold in Hr, Hd. rewrite <-Hr in Hx, Hsp.
  destruct Hk as [[He ->]|(_ & r & Hreap)].
  - rewrite He in Hsp. cbn in Hsp. by rewrite (right_id_L ∅ (∪)) in Hsp.
  - set (k1 := k <| ks_rt := _ |> <| ks_devices := _ |> <| ks_cr3 := _ |>) in *.
    destruct (reap_all (sb_old_contexts build) {[extra]} k1) as (m & Hm & Hsp'); [done| | |].
    + intros r' Hin ->%elem_of_singleton. by apply Hx, elem_of_list_to_set.
    + by rewrite (comm_L (∪)).
    + rewrite Hm in Hreap. by injection Hreap as _ <-.
Qed.

Lemma switch_orderly rollback staged s :
  manager_ok s → orderly s → gn_staged (sy_gen s) = Some staged →
  gwp (do^ commit_staged_boot_config_runtime id (sg_config staged) (sg_build staged);
       do^ gmodify (records rollback staged).2;
       enter_user_mode (sb_initial_context (sg_build staged))) (λ _ s', alone s')
    (s <| sy_gen ::= (records rollback staged).1 |>).
Proof.
  intros Hm Ho Hst. unfold orderly in Ho. rewrite Hst in Ho. destruct Ho as (Hz & Hold & Ho).
  pose proof (so_running _ _ _ (mo_staged _ Hm _ Hst)) as Hrun. apply gwp_bind.
  eapply gwp_mono; [apply commit_gwp|]. cbn beta. intros r s1 [-> Hcm]. pose proof (committed_rt _ _ _ _ Hcm) as Hrt.
  assert (Hsp : pm_spaces {[cr3 (sb_initial_context (sg_build staged))]} (ks_mem (sy_kernel s1))).
  { refine (committed_spaces _ _ _ _ _ _ _ Hcm); [exact Ho|exact Hold]. }
  destruct Hcm as [_ (m1 & m2 & Hgen)]. apply gwp_modify. eapply gwp_done; [done|].
  match goal with |- alone ?s' => set (s2 := s') end.
  assert (Hk2 : ks_rt (sy_kernel s2) = gn_staging (sy_gen s)).
  { change (ks_rt (sy_kernel s2)) with (ks_rt (sy_kernel s1)). rewrite Hrt. unfold records, remember_previous.
    destruct rollback; [done|]. cbn. by destruct (sg_previous_config staged). }
  split; [|split; [|done]].
  - destruct (records_spec rollback staged (sy_gen s) (cf_generation_id (sg_config staged)) m1 m2) as (_ & _ & N & _).
    change (sy_gen s2) with ((records rollback staged).2 (sy_gen s1)). by rewrite Hgen.
  - by apply (running_machine (sg_config staged) (sb_initial_context (sg_build staged))); [rewrite Hk2|..].
Qed.

Definition switched_spaces (r : Result IpcError GenerationOutcome) (s : System) : Prop :=
  match r with Ok Entered => alone s | _ => orderly s end.

Lemma stage_and_switch_orderly rollback requested ready (stage : G IpcError unit) s :
  manager_ok s → orderly s → gwp stage (λ _ s', manager_ok s' ∧ orderly s') s →
  gwp (stage_and_switch rollback requested ready stage) (λ r s', switched_spaces r s') s.
Proof.
  intros Hm Ho Hstage. apply gwp_bind. eapply gwp_mono with (Q := λ _ s', manager_ok s' ∧ orderly s').
  { destruct ready; [by eapply gwp_done|done]. }
  cbn beta. intros r s1 [M1 O1]. destruct r as [[]|e]; [|done]. apply gwp_bind.
  eapply gwp_mono; [apply staged_gwp|]. cbn beta. intros r s2 [-> Hst]. destruct r as [staged|e]; [|done].
  destruct (Hst _ eq_refl) as [Hg Hrb]. apply gwp_modify.
  eapply gwp_mono; [apply gwp_and; [by apply switch_orderly|by apply (switch_gwp rollback)]|]. cbn beta.
  by intros r s3 [Ha (-> & _)].
Qed.

Lemma call_orderly call cap generation len s :
  manager_ok s → orderly s → gwp (generation_call loader call cap generation len) (λ r s', switched_spaces r s') s.
Proof.
  intros Hm Ho. assert (Hnone : ∀ r, r ≠ Ok Entered → switched_spaces r s) by (by intros [[]|]).
  assert (Hret : ∀ c : G IpcError unit, gwp c (λ _ s', orderly s') s → gwp (do^ c; gret Returned) (λ r s', switched_spaces r s') s).
  { intros c Hc. apply returned_gwp. eapply gwp_mono; [exact Hc|]. by intros [] s1. }
  destruct call; cbn [generation_call].
  - by apply Hret, stage_orderly.
  - apply Hret. unfold verify_generation. apply gwp_bind, read_gwp. intros [requested|e]; [|done].
    apply gwp_bind, find_gwp. destruct (generation_find _ _) as [target|]; cbn [ok_or]; [|done]. apply gwp_get.
    destruct (failed_generation_is _ _); [by eapply gwp_done|]. eapply gwp_mono; [apply verify_gwp|]. cbn beta.
    intros r s1 [U _]. by eapply orderly_unstaged.
  - apply activate_shape; [done|]. intros. apply stage_and_switch_orderly; [done..|].
    eapply gwp_mono; [apply gwp_and; [by apply stage_gwp|by apply stage_orderly]|]. by intros r s1 [[? _] ?].
  - apply Hret. unfold mark_known_good_generation. apply gwp_bind, read_gwp. intros [requested|e]; [|done].
    apply gwp_bind, find_gwp. destruct (generation_find _ _) as [target|]; cbn [ok_or]; [|done]. apply gwp_get.
    destruct (negb _); [by eapply gwp_done|]. apply gwp_bind. eapply gwp_mono; [apply verify_gwp|]. cbn beta.
    intros r s1 [U _]. pose proof (orderly_unstaged _ _ Ho U) as Ho1. destruct r as [[]|e]; [|done]. by eapply gwp_done.
  - by apply Hret, stage_rollback_orderly.
  - apply rollback_call_shape; [done|]. intros. apply stage_and_switch_orderly; [done..|].
    eapply gwp_mono; [apply gwp_and; [by apply stage_rollback_gwp|by apply stage_rollback_orderly]|]. by intros r s1 [[? _] ?].
Qed.
End switch.

(** * Claim *)

(** C13: Generation calls neither lose nor share address spaces, on a machine with no
    more usable frames than the stack of recycled frames holds (the laws of
    [ProcessMemory], which [RealMemory] proves of the kernel's memory management there;
    with more frames a reclamation can fail, and a switch then goes on with spaces it
    could not give back).  Whatever a call does,
    staging holds at most one address space besides those of the processes, that of the
    staged initial process, and it is given back when the staging fails or is discarded.
    When a generation is entered, every address space of the generation that ran has
    been given back: the only one left is that of the new initial process, the machine
    runs in it, and the machine is well formed.  The spaces to give up are noted when the
    generation is staged; the statement is for calls that follow while the note is
    true. *)
Theorem generation_calls_keep_spaces `{PM : ProcessMemory, SM : StoreMemory} (loader : BootLoader)
    call cap generation len s r s' :
  system_runs loader s → orderly s → generation_call loader call cap generation len s = Some (r, s') →
  orderly s' ∧ (r = Ok Entered → machine_ok (sy_kernel s') ∧
                                 pm_spaces {[ks_cr3 (sy_kernel s')]} (ks_mem (sy_kernel s'))).
Proof.
  intros Hs Ho Hrun. pose proof (gwp_run _ _ _ _ _ (call_orderly loader call cap generation len s (manager_invariant _ _ Hs) Ho) Hrun) as H'.
  cbn beta in H'. destruct r as [[]|e]; [done| |done]. destruct H' as (N & M & S). split; [|done]. unfold orderly. by rewrite N.
Qed.

(** * A switch *)

#[local] Existing Instance space_memory.
#[local] Existing Instance space_process_memory.
#[local] Existing Instance image_store.

(** The machine after boot, in the address space of the first process. *)
Definition in_space (root : Z) (s : System) : System := s <| sy_kernel := (sy_kernel s) <| ks_cr3 := root |> |>.
Definition first_entered : System := in_space 1 booted.

Lemma in_space_runs root s : system_runs plain_loader s → system_runs plain_loader (in_space root s).
Proof. intros Hs. by apply sr_kernel. Qed.

Lemma in_space_orderly c context root s :
  generation_running c context (ks_rt (sy_kernel s)) → cr3 context = root → root ≠ 0%Z →
  sm_spaces (ks_mem (sy_kernel s)) = {[root]} → gn_staged (sy_gen s) = None → orderly (in_space root s).
Proof.
  intros Hr <- Hz Hs Hn. unfold orderly. change (gn_staged (sy_gen (in_space _ s))) with (gn_staged (sy_gen s)). rewrite Hn.
  by apply (running_machine c context).
Qed.

(** The first process is current, in address space 1, the only one, and nothing is staged. *)
Definition at_first (s : System) : bool :=
  bool_decide (sm_spaces (ks_mem (sy_kernel s)) = {[1%Z]}) &&
  match gn_staged (sy_gen s) with None => true | Some _ => false end &&
  match current_process (rt_processes (ks_rt (sy_kernel s))) with
  | Some p => (cr3 (p_context p) =? 1)%Z
  | None => false
  end.

Lemma at_first_orderly s c context :
  generation_running c context (ks_rt (sy_kernel s)) → at_first s = true → orderly (in_space 1 s).
Proof.
  intros Hr Hf. apply andb_true_iff in Hf as [[H1 H2]%andb_true_iff H3].
  destruct (run_process _ _ _ Hr) as (p & _ & Hc & _ & Hctx & _). rewrite Hc in H3. apply Z.eqb_eq in H3. rewrite Hctx in H3.
  apply bool_decide_eq_true in H1. destruct (gn_staged (sy_gen s)) eqn:Hn; [done|]. by eapply in_space_orderly.
Qed.

Lemma booted_at_first : at_first booted = true.
Proof. vm_compute. reflexivity. Qed.

Lemma first_entered_orderly : orderly first_entered.
Proof.
  destruct (init_running plain_loader _ _ _ unbooted_booting first_sound booted_init) as (_ & context & Hr).
  exact (at_first_orderly booted _ context Hr booted_at_first).
Qed.

Lemma first_switch_enters :
  match generation_call plain_loader GcActivate 2 4096 5 first_entered with Some (Ok Entered, _) => true | _ => false end = true.
Proof. vm_compute. reflexivity. Qed.

(** Witness of [generation_calls_keep_spaces]. *)
Lemma generation_calls_keep_spaces_witness :
  ∃ s', generation_call plain_loader GcActivate 2 4096 5 first_entered = Some (Ok Entered, s') ∧
    machine_ok (sy_kernel s') ∧ sm_spaces (ks_mem (sy_kernel s')) = {[ks_cr3 (sy_kernel s')]}.
Proof.
  pose proof first_switch_enters as Hf.
  destruct (generation_call plain_loader GcActivate 2 4096 5 first_entered) as [[r s']|] eqn:Hrun; [|discriminate].
  assert (r = Ok Entered) as -> by (destruct r as [[]|]; [discriminate|reflexivity|discriminate]).
  destruct (generation_calls_keep_spaces plain_loader GcActivate 2 4096 5 first_entered (Ok Entered) s'
    (in_space_runs 1 booted booted_runs) first_entered_orderly Hrun) as [_ Hm].
  exists s'. split; [reflexivity|]. exact (Hm eq_refl).
Defined.

(** A process made between the staging and the activation of a generation is not among
    the spaces noted at the staging: its address space outlives it. *)
Definition stage_create_activate : option (list Z * Z) :=
  match generation_call plain_loader GcStage 2 4096 5 first_entered with
  | Some (Ok _, s) =>
      match create_process 2 1 (sy_kernel s) with
      | Some (Ok _, k) =>
          match generation_call plain_loader GcActivate 2 4096 5 (s <| sy_kernel := k |>) with
          | Some (Ok Entered, s') => Some (elements (sm_spaces (ks_mem (sy_kernel s'))), ks_cr3 (sy_kernel s'))
          | _ => None
          end
      | _ => None
      end
  | _ => None
  end.

Example staged_switch_leaks_space : stage_create_activate = Some ([3; 2], 2)%Z.
Proof. vm_compute. reflexivity. Qed.
