(* ===== verification/VfsAccessProofs.v ===== *)
(** What an open gives: which nodes a capability reaches, and with which
    rights. *)

From S2P Require Import Prelude KernelBase Transport VfsPath KernelObjects ProcessRuntime.
From S2P Require Import CapRegistry VfsState VfsFiles VfsWire Runtime Kernel PageCache VertexFs Store.
From S2P Require Import Scheduler VfsTransactions VfsNodes CapabilitySyscalls VfsSyscalls VfsTreeProofs CapabilityProofs.
From S2P Require Import Revocation VfsCallProofs FileHandles ProcessTableProofs.

(** * Flags *)

Lemma any_flag_land c mask flag : any_flag (Z.land c mask) flag = true → any_flag c flag = true.
Proof.
  unfold any_flag. rewrite !negb_true_iff, !Z.eqb_neq. intros Hn Hz. apply Hn.
  rewrite (Z.land_comm c), <-Z.land_assoc, Hz. apply Z.land_0_r.
Qed.

Lemma mask_u64 c : is_u64 (Z.land c vfs_file_right_mask).
Proof.
  assert (Hm : (0 ≤ vfs_file_right_mask)%Z) by (vm_compute; congruence).
  assert (Hl : (vfs_file_right_mask ≤ u64_max)%Z) by (vm_compute; congruence).
  rewrite Z.land_comm. split; [by apply Z.land_nonneg; left|].
  enough (Z.land vfs_file_right_mask c ≤ vfs_file_right_mask)%Z by lia.
  rewrite <-(Z.lor_ldiff_and vfs_file_right_mask c) at 2.
  assert (Hd : (0 ≤ Z.ldiff vfs_file_right_mask c)%Z) by (apply Z.ldiff_nonneg; by left).
  assert (Hx : Z.land (Z.land vfs_file_right_mask c) (Z.ldiff vfs_file_right_mask c) = 0%Z).
  { apply Z.bits_inj'. intros i Hi. rewrite !Z.land_spec, Z.ldiff_spec, Z.bits_0.
    by destruct (Z.testbit vfs_file_right_mask i), (Z.testbit c i). }
  rewrite Z.lor_comm, <-Z.lxor_lor, <-Z.add_nocarry_lxor by done. lia.
Qed.

Lemma not_exceeds requested c :
  is_u64 requested → exceeds requested (Z.land c vfs_file_right_mask) = false → rights_le requested c.
Proof.
  unfold exceeds. intros Hu H%negb_false_iff%Z.eqb_eq i Hi Hb.
  pose proof (land_not_u64_zero requested _ Hu (mask_u64 c) H i Hi Hb) as Ht.
  rewrite Z.land_spec in Ht. by apply andb_true_iff in Ht as [? _].
Qed.

Lemma regular_rights_u64 flags rights : vfs_regular_file_open_rights flags = Ok rights → is_u64 rights.
Proof.
  unfold vfs_regular_file_open_rights. intros H.
  destruct (any_flag flags VFS_OPEN_READ), (any_flag flags VFS_OPEN_WRITE); vm_compute in H; try discriminate H;
    injection H as <-; vm_compute; split; congruence.
Qed.

Lemma open_rights_u64 flags node rights : vfs_open_rights flags node = Ok rights → is_u64 rights.
Proof.
  unfold vfs_open_rights. intros H.
  repeat case_match; try discriminate H; try (by eapply regular_rights_u64); injection H as <-; vm_compute; split; congruence.
Qed.

(** * Resolution *)

Lemma resolve_process_ok path rt canonical rt' :
  resolve_process_vfs_path path rt = (Ok canonical, rt') →
  ∃ p, current_process (rt_processes rt) = Some p ∧ resolve_vfs_path_under_root (p_mount_root p) path = Ok canonical.
Proof.
  assert (Hroot : ∀ root rt1, current_process_mount_root rt = (Ok root, rt1) →
            ∃ p, current_process (rt_processes rt) = Some p ∧ p_mount_root p = root).
  { unfold current_process_mount_root, rbind, rget, rlift. cbn. destruct (current_process _) as [p|]; cbn; [|done].
    intros root rt1 [= <- _]. by exists p. }
  unfold resolve_process_vfs_path. destruct (bytes_eqb path [slash]) eqn:Hs.
  - intros (p & Hp & <-)%Hroot. exists p. split; [done|]. unfold resolve_vfs_path_under_root. by rewrite Hs.
  - intros H. apply rbind_ok in H as ([] & rt1 & [_ ->]%rlift_ok & H).
    apply rbind_ok in H as (root & rt2 & (p & Hp & <-)%Hroot & [H _]%rlift_ok). by exists p.
Qed.

Lemma resolved_covered path rt p canonical rt' :
  current_process (rt_processes rt) = Some p → path_wf (p_mount_root p) →
  resolve_process_vfs_path path rt = (Ok canonical, rt') →
  path_wf canonical ∧ vfs_authority_path_covers (path_as_bytes (p_mount_root p)) (path_as_bytes canonical) = true.
Proof.
  intros Hp Hwf (q & Hq & Hr)%resolve_process_ok. rewrite Hp in Hq. injection Hq as <-.
  by eapply resolve_under_root_confined.
Qed.

(** * Open *)

(** The call changed nothing but the VFS fields. *)
Definition vfs_only (rt rt' : RuntimeState) : Prop := rt' = rt <| rt_vfs := rt_vfs rt' |>.

Lemma vfs_only_refl rt : vfs_only rt rt.
Proof. by destruct rt. Qed.
Lemma vfs_only_trans a b c : vfs_only a b → vfs_only b c → vfs_only a c.
Proof. unfold vfs_only. intros -> ->. done. Qed.

Lemma vfs_only_call {E A} (conv : E → IpcError) (c : M VfsState E A) rt : vfs_only rt (vfs_call conv c rt).2.
Proof. unfold vfs_call, vfs_only. by destruct (c (rt_vfs rt)). Qed.
Lemma vfs_only_silent {A} (c : M RuntimeState IpcError A) rt : silent c → vfs_only rt (c rt).2.
Proof. intros ->. apply vfs_only_refl. Qed.
Lemma vfs_only_bind {A B} (c : M RuntimeState IpcError A) (k : A → M RuntimeState IpcError B) rt :
  vfs_only rt (c rt).2 → (∀ a rt', c rt = (Ok a, rt') → vfs_only rt' (k a rt').2) → vfs_only rt (rbind c k rt).2.
Proof.
  unfold rbind. intros Hc Hk. destruct (c rt) as [[a|e] rt'] eqn:E; [|done]. eapply vfs_only_trans; [exact Hc|by apply Hk].
Qed.
Lemma vfs_only_add_file name parent backing release rt : vfs_only rt (add_file_node name parent backing release rt).2.
Proof. unfold add_file_node, vfs_only. by destruct (add_vfs_node_with_name _ _ _ _ _ _) as [[]]. Qed.

Lemma vfs_only_create cap path required rt : vfs_only rt (vfs_create_memory_file_node cap path required rt).2.
Proof.
  unfold vfs_create_memory_file_node.
  repeat first [apply vfs_only_bind; [|intros ? ? _]|apply vfs_only_call|apply vfs_only_add_file|case_match
               |apply vfs_only_silent; solve [auto 20 with vfs_tree]].
Qed.

(** The path [dir]/[child]. *)
Definition path_of_child (path dir child : list byte) : Prop :=
  ∃ comps, Forall valid_component (comps ++ [child]) ∧ path = join_components (comps ++ [child]) ∧
    dir = if decide (comps = []) then [slash] else join_components comps.

(** A new regular file at [path]: in the directory of the path, which lies below [root],
    under its last component, with an identifier that no node had. *)
Definition created_at (rt : RuntimeState) (root : VfsPath) (path : list byte) (node : VfsNode) : Prop :=
  ∃ dir child parent,
    path_of_child path dir child ∧ vfs_authority_path_covers (path_as_bytes root) dir = true ∧
    vfs_node_by_path rt dir = Some parent ∧ vn_kind parent = NkDirectory ∧
    vn_parent node = Some (vn_id parent) ∧ name_as_bytes (vn_name node) = child ∧ vn_kind node = NkRegularFile ∧
    ∀ m, in_tree (rt_vfs rt) m → vn_id m ≠ vn_id node.

(** How an open reached its node: a capability for an object of the store names its node
    itself; any other is for a VFS root. *)
Inductive opened_by (rt : RuntimeState) (p : Process) (cap : Capability) (path : list byte) (flags : Z) (node : VfsNode) :
    Prop :=
| OpenedStore :
    vfs_node_for_store_object (rt_vfs rt) (c_object cap) = Some node → path = [] ∨ path = [dot] →
    opened_by rt p cap path flags node
| OpenedPath root canonical :
    get_vfs_root (rt_objects rt) (c_object cap) = Some root →
    resolve_or_root path rt = (Ok canonical, rt) →
    vfs_authority_path_covers (path_as_bytes (p_mount_root p)) (path_as_bytes canonical) = true →
    vfs_authority_path_covers (path_as_bytes (vr_root_path root)) (path_as_bytes canonical) = true →
    any_flag (c_rights cap) RIGHT_RESOLVE = true →
    (any_flag flags write_create_trunc_append = true → vfs_path_is_read_only rt (path_as_bytes canonical) = false) →
    vfs_node_by_path rt (path_as_bytes canonical) = Some node ∨
      (vfs_node_by_path rt (path_as_bytes canonical) = None ∧ any_flag flags VFS_OPEN_CREATE = true ∧
       any_flag (c_rights cap) RIGHT_CREATE = true ∧ created_at rt (vr_root_path root) (path_as_bytes canonical) node) →
    opened_by rt p cap path flags node.

(** ** Creation *)

Lemma name_component value name : name_from_user_component value = Ok name → name_as_bytes name = value.
Proof.
  unfold name_from_user_component, name_from_bytes. destruct (_ || _); [done|]. destruct (_ || _) eqn:Hl; [done|].
  apply orb_false_iff in Hl as [_ Hl]. cbn zeta. destruct (bytes_eqb value [slash]) eqn:Hs.
  - apply bool_decide_eq_true in Hs as ->. by intros [= <-].
  - destruct (existsb _ _); [done|]. intros [= <-]. unfold name_as_bytes. cbn. by rewrite take_app_length.
Qed.

Lemma split_child path dir child : split_vfs_parent_child path = Ok (dir, child) → path_of_child path dir child.
Proof.
  intros Hs. assert (Hv : validate_vfs_absolute_path path = Ok tt).
  { unfold split_vfs_parent_child in Hs. by destruct (validate_vfs_absolute_path path) as [[]|]. }
  apply validate_join in Hv as (comps & Hne & Hv & ->). destruct comps as [|child' comps _] using rev_ind; [done|].
  rewrite split_parent_child_of_join in Hs by done. injection Hs as <- <-. by exists comps.
Qed.

(** The table after a node was added. *)
Lemma added_table v name parent kind backing source id v' :
  add_vfs_node_with_name v name parent kind backing source = (Ok id, v') →
  id = next_vfs_node_id v ∧
  ∃ slot version, vfs_nodes v' = <[slot := Some (mkVfsNode id name parent kind backing source version)]> (vfs_nodes v).
Proof.
  unfold add_vfs_node_with_name. destruct (first_index _ _ _) as [slot|]; [|done]. cbn. intros [= <- <-].
  split; [done|]. by eexists slot, _.
Qed.

(** The node found under the new identifier is the new node. *)
Lemma added_found v v0 name parent kind backing source id v' node :
  tree_wf v → vfs_nodes v0 = vfs_nodes v → next_vfs_node_id v0 = next_vfs_node_id v →
  add_vfs_node_with_name v0 name parent kind backing source = (Ok id, v') → vfs_node v' id = Some node →
  vn_parent node = parent ∧ vn_name node = name ∧ vn_kind node = kind ∧ ∀ m, in_tree v m → vn_id m ≠ vn_id node.
Proof.
  intros Hwf Hn Hx (-> & slot & version & Ht)%added_table (i & Hi & Hid)%vfs_node_Some.
  assert (Hold : ∀ m, in_tree v m → vn_id m ≠ next_vfs_node_id v).
  { intros m (j & Hj). pose proof (nw_ids _ _ _ (tw_nodes _ Hwf) _ _ Hj). lia. }
  rewrite Ht, Hn in Hi. destruct (decide (i = slot)) as [->|Hne].
  - apply list_lookup_insert_Some in Hi as [(_ & [= <-] & _)|[? _]]; [|done]. cbn in *. split_and!; try done.
    intros m Hm. rewrite Hx. by apply Hold.
  - rewrite list_lookup_insert_ne in Hi by done. exfalso. apply (Hold node); [by exists i|congruence].
Qed.

Lemma created_node cap path required rt node available rt' :
  tree_wf (rt_vfs rt) → vfs_create_memory_file_node cap path required rt = (Ok (node, available), rt') →
  ∃ canonical dir child parent root,
    resolve_process_vfs_path path rt = (Ok canonical, rt) ∧ get_vfs_root (rt_objects rt) (c_object cap) = Some root ∧
    split_vfs_parent_child (path_as_bytes canonical) = Ok (dir, child) ∧
    vfs_authority_path_covers (path_as_bytes (vr_root_path root)) dir = true ∧
    available = Z.land (c_rights cap) vfs_file_right_mask ∧ any_flag (c_rights cap) RIGHT_CREATE = true ∧
    vfs_node_by_path rt dir = Some parent ∧ vn_kind parent = NkDirectory ∧
    vn_parent node = Some (vn_id parent) ∧ name_as_bytes (vn_name node) = child ∧ vn_kind node = NkRegularFile ∧
    ∀ m, in_tree (rt_vfs rt) m → vn_id m ≠ vn_id node.
Proof.
  intros Hwf H. unfold vfs_create_memory_file_node in H.
  apply rbind_ok in H as ([[parent name] a] & rt1 & Hpre & H).
  destruct (prepare_create_ok _ _ _ _ _ _ _ _ Hpre) as (-> & _ & Hk).
  apply rbind_ok in H as (id & rt2 & Hadd & H). apply rbind_ok in H as (? & ? & [= <- <-] & H).
  apply rbind_ok in H as (m & ? & [Hm%ok_or_ok ->]%rlift_ok & H). injection H as <- <- <-.
  assert (Hnew : vn_parent m = Some (vn_id parent) ∧ vn_name m = name ∧ vn_kind m = NkRegularFile ∧
                 ∀ m', in_tree (rt_vfs rt) m' → vn_id m' ≠ vn_id m).
  { assert (Hfile : ∀ v0 backing release, vfs_nodes v0 = vfs_nodes (rt_vfs rt) →
      next_vfs_node_id v0 = next_vfs_node_id (rt_vfs rt) →
      add_file_node name parent backing release (rt <| rt_vfs := v0 |>) = (Ok id, rt2) →
      vn_parent m = Some (vn_id parent) ∧ vn_name m = name ∧ vn_kind m = NkRegularFile ∧
      ∀ m', in_tree (rt_vfs rt) m' → vn_id m' ≠ vn_id m).
    { intros v0 backing release Hn Hx. unfold add_file_node. cbn [rt_vfs set].
      destruct (add_vfs_node_with_name _ _ _ _ _ _) as [[id'|e] v1] eqn:Ha; [|done]. intros [= -> <-]. cbn in Hm.
      by apply (added_found (rt_vfs rt) v0 name _ _ backing (vn_mount_source parent) id v1 m). }
    destruct (str_eqb _ _).
    - apply rbind_ok in Hadd as (inode & ? & [_ ->]%rlift_ok & Hadd). apply rbind_ok in Hadd as (f & rt3 & Hf & Hadd).
      unfold vfs_call in Hf. destruct (add_empty_vertexfs_file _ _ _) as [rr v] eqn:Ha. injection Hf as Hr <-.
      destruct rr as [g|]; cbn in Hr; simplify_eq. apply added_vertexfs in Ha as (_ & Hn & Hx). by eapply Hfile.
    - apply rbind_ok in Hadd as (f & rt3 & Hf & Hadd). unfold vfs_call in Hf.
      destruct (add_vfs_empty_memory_file _) as [rr v] eqn:Ha. injection Hf as Hr <-.
      destruct rr as [g|]; cbn in Hr; simplify_eq. apply added_memory in Ha as (_ & Hn & Hx). by eapply Hfile. }
  unfold prepare_create in Hpre. apply rbind_ok in Hpre as (canonical & rt3 & Hcan & Hpre).
  pose proof (silent_resolve path rt) as Hs. rewrite Hcan in Hs. cbn in Hs. subst rt3. cbn zeta in Hpre.
  apply rbind_ok in Hpre as ([dir child] & ? & [Hsplit ->]%rlift_ok & Hpre). cbn [fst snd] in Hpre.
  apply rbind_ok in Hpre as (name' & ? & [Hname ->]%rlift_ok & Hpre).
  apply rbind_ok in Hpre as (av & rt3 & Hauth & Hpre).
  pose proof (rt_silent_authority cap dir rt) as Hs. rewrite Hauth in Hs. cbn in Hs. subst rt3.
  apply rbind_ok in Hpre as ([] & ? & (Hcr & -> & _)%rguard_ok & Hpre). apply rbind_ok in Hpre as (? & ? & [= <- <-] & Hpre).
  apply rbind_ok in Hpre as (parent' & ? & [Hpar%ok_or_ok ->]%rlift_ok & Hpre). run_ok Hpre.
  unfold resolve_vfs_root_authority in Hauth. run_ok Hauth. simplify_eq.
  destruct (name_from_user_component child) as [n|] eqn:Hnc; cbn in Hname; simplify_eq.
  apply name_component in Hnc as <-. apply andb_true_iff in Hcr as [Hcr _]. apply any_flag_land in Hcr.
  destruct Hnew as (? & ? & ? & ?). eexists canonical, dir, _, _, _. split_and!; try done. by subst.
Qed.

(** A path that does not resolve is a bad path or not permitted. *)
Lemma resolve_error path rt e rt' : resolve_process_vfs_path path rt = (Err e, rt') → e = VfsBadPath ∨ e = VfsPermission.
Proof.
  assert (Hval : ∀ e, validate_vfs_absolute_path path = Err e → e = VfsBadPath).
  { unfold validate_vfs_absolute_path. intros e'. repeat case_match; congruence. }
  assert (Hunder : ∀ root e, resolve_vfs_path_under_root root path = Err e → e = VfsBadPath).
  { intros root e'. unfold resolve_vfs_path_under_root, from_root_path. case_match; [done|].
    destruct (validate_vfs_absolute_path path) as [[]|e''] eqn:Hv; [|intros [= <-]; by apply Hval].
    repeat case_match; congruence. }
  assert (Hroot : (∃ root, current_process_mount_root rt = (Ok root, rt)) ∨
                  current_process_mount_root rt = (Err VfsPermission, rt)).
  { unfold current_process_mount_root, rbind, rget, rlift. destruct (current_process (rt_processes rt)); cbn; eauto. }
  unfold resolve_process_vfs_path. destruct (bytes_eqb path [slash]).
  - destruct Hroot as [[root ->]| ->]; [done|]. intros [= <- _]. by right.
  - unfold rbind at 1, rlift at 1. destruct (validate_vfs_absolute_path path) as [[]|e'] eqn:Hv; [|intros [= <- _]; left; by apply Hval].
    unfold rbind. destruct Hroot as [[root ->]| ->]; [|intros [= <- _]; by right]. intros [= H _]. left. by eapply Hunder.
Qed.

(** The resolution by capability: the node, or that the path has none. *)
Lemma node_from_cap_cases cap path rt p :
  current_process (rt_processes rt) = Some p → path_wf (p_mount_root p) →
  match resolve_vfs_node_from_cap cap path rt with
  | (Ok (node, available), rt') =>
      rt' = rt ∧ available = Z.land (c_rights cap) vfs_file_right_mask ∧
      ((vfs_node_for_store_object (rt_vfs rt) (c_object cap) = Some node ∧ (path = [] ∨ path = [dot])) ∨
       ∃ root canonical, get_vfs_root (rt_objects rt) (c_object cap) = Some root ∧
         resolve_or_root path rt = (Ok canonical, rt) ∧
         vfs_authority_path_covers (path_as_bytes (p_mount_root p)) (path_as_bytes canonical) = true ∧
         vfs_authority_path_covers (path_as_bytes (vr_root_path root)) (path_as_bytes canonical) = true ∧
         any_flag (c_rights cap) RIGHT_RESOLVE = true ∧ vfs_node_by_path rt (path_as_bytes canonical) = Some node)
  | (Err VfsNotFound, rt') =>
      rt' = rt ∧ ∃ root canonical, get_vfs_root (rt_objects rt) (c_object cap) = Some root ∧
         resolve_or_root path rt = (Ok canonical, rt) ∧
         vfs_authority_path_covers (path_as_bytes (p_mount_root p)) (path_as_bytes canonical) = true ∧
         vfs_authority_path_covers (path_as_bytes (vr_root_path root)) (path_as_bytes canonical) = true ∧
         any_flag (c_rights cap) RIGHT_RESOLVE = true ∧ vfs_node_by_path rt (path_as_bytes canonical) = None
  | _ => True
  end.
Proof.
  intros Hp Hwf. unfold resolve_vfs_node_from_cap. cbn [rbind rget].
  destruct (vfs_node_for_store_object _ _) as [n|] eqn:Hs; cbn.
  - destruct (bytes_eqb path []) eqn:H1; cbn; [|destruct (bytes_eqb path [dot]) eqn:H2; cbn; [|done]];
      (split; [done|]); (split; [done|]); left; (split; [done|]);
      [left; by apply bool_decide_eq_true in H1|right; by apply bool_decide_eq_true in H2].
  - destruct (get_vfs_root _ _) as [root|] eqn:Hr; [|done].
    pose proof (silent_resolve_or_root path rt) as Hsil. unfold rbind at 1.
    destruct (resolve_or_root path rt) as [[canonical|e] rt1] eqn:Hc; cbn in Hsil; subst rt1.
    + pose proof Hc as Hcov. unfold resolve_or_root in Hcov. apply (resolved_covered _ _ p) in Hcov as [_ Hcov]; [|done|done].
      unfold rbind, rguard, rret, rfail, rlift.
      destruct (any_flag (c_rights cap) RIGHT_RESOLVE && _) eqn:Hg; cbn [fst snd]; [|done].
      apply andb_true_iff in Hg as [Hres Hroot].
      destruct (vfs_node_by_path rt (path_as_bytes canonical)) as [node|] eqn:Hn; cbn.
      * destruct (any_flag (Z.land _ _) RIGHT_RESOLVE); [|done]. split; [done|]. split; [done|]. right. by exists root, canonical.
      * split; [done|]. by exists root, canonical.
    + apply resolve_error in Hc as [-> | ->]; done.
Qed.

Lemma open_check_ok rt flags cap node rights :
  open_check rt flags (Z.land (c_rights cap) vfs_file_right_mask) node = Ok rights →
  rights_le rights (c_rights cap) ∨
  ∃ device, vn_backing node = VbDevice device ∧ current_process_has_live_cap_for_object rt device RIGHT_CONTROL = true.
Proof.
  unfold open_check. intros H. apply res_bind_ok in H as (requested & Hr%open_rights_u64 & H).
  apply res_bind_ok in H as ([] & Hg%res_guard_ok & H). apply res_bind_ok in H as ([] & Hd & H).
  assert (requested = rights) as ->.
  { do 3 (apply res_bind_ok in H as (? & _ & H)). by injection H. }
  apply negb_true_iff, andb_false_iff in Hg as [Hg|Hg]; [left; by apply not_exceeds|].
  apply negb_false_iff in Hg. destruct (vn_backing node); try done. right. eexists. split; [done|]. unfold validate_vfs_device_open in Hd. repeat case_match; try done.
  all: match goal with H : negb _ = false |- _ => by apply negb_false_iff in H end.
Qed.

(** The node an open works on. *)
Lemma open_node_cases cap path flags rt p node available created rt1 :
  tree_wf (rt_vfs rt) → current_process (rt_processes rt) = Some p → path_wf (p_mount_root p) →
  (any_flag flags write_create_trunc_append = true →
   ∀ root canonical, get_vfs_root (rt_objects rt) (c_object cap) = Some root →
     resolve_or_root path rt = (Ok canonical, rt) → vfs_path_is_read_only rt (path_as_bytes canonical) = false) →
  open_node cap path flags rt = (Ok (node, available, created), rt1) →
  vfs_only rt rt1 ∧ available = Z.land (c_rights cap) vfs_file_right_mask ∧ opened_by rt p cap path flags node.
Proof.
  intros Htree Hp Hwf Hro. unfold open_node. pose proof (node_from_cap_cases cap path rt p Hp Hwf) as Hc.
  destruct (resolve_vfs_node_from_cap cap path rt) as [[[n a]|e] rt0].
  - destruct Hc as (-> & -> & [[Hs Hpath]|(root & canonical & Hr & Hcan & Hm & Hcov & Hres & Hn)]);
      intros [= <- <- _ <-]; (split; [apply vfs_only_refl|]); (split; [done|]); [by apply OpenedStore|].
    apply (OpenedPath _ _ _ _ _ _ root canonical); eauto.
  - destruct e; try done. destruct Hc as (-> & root & canonical & Hr & Hcan & Hm & Hcov & Hres & Hn).
    destruct (any_flag flags VFS_OPEN_CREATE) eqn:Hcr; [|done]. intros H.
    apply rbind_ok in H as (rights & rt2 & [Hrights ->]%rlift_ok & H). apply rbind_ok in H as ([m av] & rt3 & Hm' & H).
    injection H as <- <- _ <-. pose proof (vfs_only_create cap path rights rt) as Hv. rewrite Hm' in Hv.
    destruct (created_node _ _ _ _ _ _ _ Htree Hm') as (c & dir & child & parent & root' & Hc & Hr' & Hsplit & Hcd & -> & Hcap & Hpar).
    rewrite Hr in Hr'. injection Hr' as <-.
    assert (c = canonical) as ->.
    { unfold resolve_or_root in Hcan. destruct path; [discriminate Hc|]. rewrite Hcan in Hc. by injection Hc. }
    split; [done|]. split; [done|]. apply (OpenedPath _ _ _ _ _ _ root canonical); eauto.
    right. split_and!; [done..|]. exists dir, child, parent. split; [by apply split_child|done].
Qed.

(** ** The description and the handle *)

(** Descriptions up to the cursor of [vfs_watch]. *)
Definition same_descriptions (v v' : VfsState) : Prop :=
  ∀ j d, open_file_descriptions v !! j = Some (Some d) →
    ∃ cursor, open_file_descriptions v' !! j = Some (Some (d <| fd_watch_cursor := cursor |>)).

Lemma same_descriptions_eq v v' : open_file_descriptions v' = open_file_descriptions v → same_descriptions v v'.
Proof. intros He j d Hd. exists (fd_watch_cursor d). rewrite He, Hd. by destruct d. Qed.

Lemma event_descriptions v parent kind name : same_descriptions v (record_vfs_event v parent kind name).
Proof.
  unfold record_vfs_event, allocate_vfs_metadata_version. case_match; [by apply same_descriptions_eq|].
  intros j d Hd. cbn. rewrite lookup_map_upto, bool_decide_eq_true_2 by (by eapply lookup_lt_Some).
  rewrite Hd. cbn. case_match; [by eexists|]. exists (fd_watch_cursor d). by destruct d.
Qed.

Lemma truncate_descriptions node len rt :
  open_file_descriptions (rt_vfs (vfs_truncate_node node len rt).2) = open_file_descriptions (rt_vfs rt) ∧
  rt_processes (vfs_truncate_node node len rt).2 = rt_processes rt.
Proof.
  unfold vfs_truncate_node, rbind, rguard, rget, vfs_modify, rmodify, vfs_call.
  destruct (vn_backing node) as [| | | | |f|f| | | |]; try done.
  - destruct (len <=? _); [|done]. cbn. destruct (negb _); [|done].
    unfold touch_vfs_memory_file_nodes. by destruct (negb _).
  - cbn. pose proof (contents_truncate (vertexfs_page_cache_mount_id rt) f len (rt_vfs rt)) as (_&_&_&_&_&_&_&Hd).
    destruct (truncate_vertexfs_page_cache _ f len (rt_vfs rt)) as [[[]|e] v]; cbn in *; [|done].
    unfold touch_vertexfs_file_nodes. by destruct (negb _).
Qed.

Lemma modify_process_at_ext t i (f g : Process → Process) p :
  mjoin (pt_processes t !! i) = Some p → f p = g p → modify_process_at t i f = modify_process_at t i g.
Proof.
  intros Hp Hfg. unfold modify_process_at, set. cbn. f_equal. apply list_eq. intros j.
  destruct (decide (i = j)) as [->|Hne]; [|by rewrite !list_lookup_alter_ne].
  rewrite !list_lookup_alter_eq. destruct (pt_processes t !! j) as [[q|]|]; [|done..]. cbn in Hp. injection Hp as ->. cbn. by rewrite Hfg.
Qed.

Lemma refuse_fails {A} created e rt (a : A) rt' : refuse created e rt = (Ok a, rt') → False.
Proof. intros H. by apply rbind_ok in H as (? & ? & _ & H). Qed.

(** The description and the handle of a successful [open_handle]. *)
Lemma open_handle_ok node rights flags cap created rt p k raw description rt' :
  ptable_wf (rt_processes rt) → current_process (rt_processes rt) = Some p → handles_wf k p → (k + 1 < generation_limit)%Z →
  open_handle node rights flags cap created rt = (Ok (raw, description), rt') →
  (∃ j cursor, open_file_descriptions (rt_vfs rt') !! j =
     Some (Some (file_description_new description (vn_id node) rights flags (p_pid p) (c_id cap) cursor))) ∧
  ∃ p', current_process (rt_processes rt') = Some p' ∧ lookup_handle p' raw = Some (mkFileHandle description).
Proof.
  intros Hwf Hp Hh Hk. unfold open_handle, vfs_call, open_file_description.
  assert (Hid : current_process_id rt = p_pid p).
  { unfold current_process_id. by rewrite Hp. }
  destruct (first_index _ _ _) as [j|] eqn:Hj; [|by intros H%refuse_fails]. apply first_index_lt in Hj as [_ Hj].
  cbn [map_err]. set (rt1 := rt <| rt_vfs := _ |>).
  destruct (current_process_index _ _ Hp) as [i Hi].
  destruct (current_index_process _ i Hwf Hi) as (q & Hq & _ & Hat). rewrite Hp in Hq. injection Hq as <-.
  unfold on_current. change (rt_processes rt1) with (rt_processes rt). rewrite Hi, Hat.
  pose proof (open_file_handle_spec k p Hh (mkFileHandle (if (next_file_description_id (rt_vfs rt) =? 0)%Z then 1%Z else next_file_description_id (rt_vfs rt))) Hk) as Ho.
  destruct (open_file_handle p _) as [[raw'|e] p'] eqn:Hof;
    [|intros H; apply rbind_ok in H as (? & ? & _ & H); by apply refuse_fails in H]. intros [= <- <- <-]. cbn. split.
  - exists j, (vfs_event_count (rt_vfs rt)). rewrite list_lookup_insert_eq by done. by rewrite Hid.
  - destruct Ho as (_ & _ & _ & _ & Hl). exists p'. split; [|by rewrite Hl, decide_True].
    assert (Hp' : p' = p <| p_file_handles := p_file_handles p' |>).
    { unfold open_file_handle in Hof. destruct (first_index _ _ _); [|done]. injection Hof as _ <-. done. }
    rewrite (modify_process_at_ext _ i (λ _, p') (λ q, q <| p_file_handles := p_file_handles p' |>) p Hat Hp').
    rewrite Hp'. by apply current_process_modify.
Qed.

(** C15: a successful open stays within the authority of the capability it was
    made with, in a well-formed tree. With a capability for a VFS root, the path
    that was asked for resolves below the root directory of the process and
    below the root the capability names, nothing is opened for writing or
    created in a read-only mount, and the node is the one at that path or, if
    there was none, a new file in the directory of the path under its last
    component, for which the capability has the right to create. With a
    capability for an object of the store, no path can be given, and the node
    is that object's, wherever the root directory of the process lies. The
    handle carries no right the capability lacks (a device needs a live
    capability for the device instead), and is bound to that capability, to its
    process and to the node. *)
Theorem open_within_authority (rt rt' : RuntimeState) (slot : Z) (path : list byte) (flags raw k : Z) (p : Process) :
  ptable_wf (rt_processes rt) → tree_wf (rt_vfs rt) →
  current_process (rt_processes rt) = Some p → path_wf (p_mount_root p) →
  handles_wf k p → (k + 1 < generation_limit)%Z →
  vfs_open_path slot path flags rt = (Ok raw, rt') →
  ∃ cap node j d p',
    lookup_capability slot 0 rt = (Ok cap, rt) ∧
    opened_by rt p cap path flags node ∧
    open_file_descriptions (rt_vfs rt') !! j = Some (Some d) ∧
    current_process (rt_processes rt') = Some p' ∧ lookup_handle p' raw = Some (mkFileHandle (fd_id d)) ∧
    fd_node d = vn_id node ∧ fd_flags d = flags ∧ fd_offset d = 0%Z ∧ fd_owner d = p_pid p ∧
    fd_authority_cap_id d = c_id cap ∧
    (rights_le (fd_rights d) (c_rights cap) ∨
     ∃ device, vn_backing node = VbDevice device ∧
       current_process_has_live_cap_for_object rt device RIGHT_CONTROL = true).
Proof.
  intros Hwf Htree Hp Hmount Hh Hk H. unfold vfs_open_path in H.
  apply rbind_ok in H as (cap & rt0 & Hcap & H).
  pose proof (silent_lookup slot 0 rt) as Hs. destruct (lookup_capability slot 0 rt) as [[cap'|e] rtl] eqn:Hl; [|done].
  cbn in Hs, Hcap. subst rtl. injection Hcap as -> <-.
  apply rbind_ok in H as (? & ? & [= <- <-] & H). apply rbind_ok in H as ([] & rt1 & Hro & H).
  assert (Hread : rt1 = rt ∧ (any_flag flags write_create_trunc_append = true →
    ∀ root canonical, get_vfs_root (rt_objects rt) (c_object cap) = Some root →
      resolve_or_root path rt = (Ok canonical, rt) → vfs_path_is_read_only rt (path_as_bytes canonical) = false)).
  { destruct (any_flag flags write_create_trunc_append); [|split; [cbn in Hro; unfold rret in Hro; congruence|done]].
    destruct (get_vfs_root (rt_objects rt) (c_object cap)); cbn in Hro; [|split; [cbn in Hro; unfold rret in Hro; congruence|done]].
    apply rbind_ok in Hro as (canonical & rt2 & Hc & Hg). apply rguard_ok in Hg as (Hg & -> & _).
    pose proof (silent_resolve_or_root path rt) as Hsr. rewrite Hc in Hsr. cbn in Hsr. subst rt2. split; [done|].
    intros _ root c _ Hc'. rewrite Hc in Hc'. injection Hc' as <-. by apply negb_true_iff. }
  destruct Hread as [-> Hread]. apply rbind_ok in H as ([[node available] created] & rt1 & Hon & H).
  apply (open_node_cases cap path flags rt p) in Hon as (Hvfs & -> & Hby); [|done..].
  apply rbind_ok in H as (? & ? & [= <- <-] & H). unfold vfs_only in Hvfs.
  destruct (open_check rt1 flags _ node) as [rights|e] eqn:Hchk; [|done]. apply open_check_ok in Hchk.
  apply rbind_ok in H as ([raw' description] & rt2 & Hopen & H).
  assert (Hpr : rt_processes rt1 = rt_processes rt) by (by rewrite Hvfs).
  apply (open_handle_ok _ _ _ _ _ _ p k) in Hopen as ((j & cursor & Hd) & p' & Hp' & Hlk); [|by rewrite ?Hpr..].
  apply rbind_ok in H as ([] & rt3 & Htr & H). apply rbind_ok in H as ([] & rt4 & Hev & H). injection H as <- <-.
  assert (H3 : open_file_descriptions (rt_vfs rt3) = open_file_descriptions (rt_vfs rt2) ∧ rt_processes rt3 = rt_processes rt2).
  { destruct (any_flag flags VFS_OPEN_TRUNC); [|by unfold rret in Htr; simplify_eq]. unfold open_truncate in Htr.
    pose proof (truncate_descriptions node 0 rt2) as Ht. cbn in Htr, Ht.
    destruct (vfs_truncate_node node 0 rt2) as [[u|e] rtt]; [by simplify_eq|]. done. }
  assert (H4 : same_descriptions (rt_vfs rt3) (rt_vfs rt4) ∧ rt_processes rt4 = rt_processes rt3).
  { destruct created as [m|]; [|unfold rret in Hev; simplify_eq; split; [by apply same_descriptions_eq|done]].
    unfold record_parent_event in Hev. destruct (vn_parent node); unfold vfs_modify, rmodify, rret in Hev; simplify_eq;
      (split; [first [apply event_descriptions|by apply same_descriptions_eq]|done]). }
  destruct H3 as [Hd3 Hp3], H4 as [Hd4 Hp4]. rewrite <-Hd3 in Hd. destruct (Hd4 _ _ Hd) as [cursor' Hd'].
  eexists cap, node, j, _, p'. split; [done|]. split; [done|]. split; [exact Hd'|]. rewrite Hp4, Hp3.
  split_and!; try done. destruct Hchk as [Hr|(device & Hb & Hlive)]; [by left|right; exists device].
  split; [done|]. by rewrite Hvfs in Hlive.
Qed.

(** ** Example *)

(** The process of the example kernel creates a file in its root directory. *)
Definition shell : Process :=
  default (process_new 0 "" (mkProcessContext 0 0 0) 0 0 PsReady cspace_new path_empty)
    (current_process (rt_processes file_system)).
Definition passwd_path : list byte := string_bytes "/passwd".
Definition passwd_flags : Z := Z.lor VFS_OPEN_WRITE VFS_OPEN_CREATE.
Definition passwd_handle : Z :=
  match (vfs_open_path 0 passwd_path passwd_flags file_system).1 with Ok raw => raw | Err _ => 0%Z end.
Definition passwd_system : RuntimeState := (vfs_open_path 0 passwd_path passwd_flags file_system).2.

Lemma file_system_processes : ptable_wf (rt_processes file_system).
Proof.
  apply (ptable_wf_intro _ [shell]); try (vm_compute; reflexivity).
  - unfold MAX_PROCESSES. cbn. lia.
  - vm_compute. split; congruence.
  - apply Forall_singleton. vm_compute. split; congruence.
  - apply NoDup_singleton.
Qed.

Lemma shell_current : current_process (rt_processes file_system) = Some shell.
Proof. apply default_Some. vm_compute. reflexivity. Qed.

Lemma shell_root : path_wf (p_mount_root shell).
Proof.
  assert (Hr : p_mount_root shell = path_store [slash]) by (vm_compute; reflexivity). rewrite Hr.
  split; [done|]. split; [cbn; unfold MAX_VFS_PATH_BYTES; lia|]. rewrite path_store_as_bytes.
  by apply valid_root_path_canonical.
Qed.

Lemma shell_handles : handles_wf 0 shell.
Proof.
  assert (Hh : p_file_handles shell = replicate MAX_FILE_HANDLES handle_slot_empty) by (vm_compute; reflexivity).
  split; rewrite Hh; [apply length_replicate|]. intros i s [-> _]%lookup_replicate. cbn. lia.
Qed.

Lemma ok_pair {A S} (r : Result IpcError A * S) (d : A) :
  is_ok r.1 = true → r = (Ok (match r.1 with Ok a => a | Err _ => d end), r.2).
Proof. by destruct r as [[a|e] s]. Qed.

Lemma first_generation : (0 + 1 < generation_limit)%Z.
Proof. vm_compute. reflexivity. Qed.

Lemma create_passwd_ok : vfs_open_path 0 passwd_path passwd_flags file_system = (Ok passwd_handle, passwd_system).
Proof. unfold passwd_handle, passwd_system. apply ok_pair. vm_compute. reflexivity. Qed.

Lemma open_within_authority_witness :
  ∃ cap d p', lookup_capability 0 0 file_system = (Ok cap, file_system) ∧
    current_process (rt_processes passwd_system) = Some p' ∧
    lookup_handle p' passwd_handle = Some (mkFileHandle (fd_id d)) ∧ fd_authority_cap_id d = c_id cap.
Proof.
  destruct (open_within_authority file_system passwd_system 0 passwd_path passwd_flags passwd_handle 0 shell
    file_system_processes (proj1 file_kernel_wf) shell_current shell_root shell_handles first_generation create_passwd_ok)
    as (cap & node & j & d & p' & Hcap & _ & _ & Hp' & Hl & _ & _ & _ & _ & Hc & _).
  exists cap, d, p'. split; [exact Hcap|]. split; [exact Hp'|]. split; [exact Hl|exact Hc].
Defined.
